(* ===== verification/_CoqProject ===== *)
-Q . S2P
Prelude.v
Time.v
Timespec.v
Wchar.v
WcharStr.v
Ctype.v
Memory.v
MemFuncs.v
StrFuncs.v
Sort.v
Strtol.v
Env.v
Printf.v
Random.v
Fnmatch.v
Inet.v
Sha2.v
Heap.v
HeapInv.v
HeapOps.v
HeapGrow.v
HeapSpec.v
HeapClient.v
Stdio.v
StdioSpec.v
Fmemopen.v
StdioFile.v
Memstream.v
Sched.v
Mutex.v
MutexSpec.v
Semaphore.v
Cond.v
CondSpec.v
Rwlock.v
Once.v
Crc32.v
Uuid.v
Blockdev.v
Partition.v
Mbr.v
MbrSpec.v
Gpt.v
GptSpec.v
Probe.v
Regcomp.v
Regexec.v
RegexSpec.v
RegexMatch.v
RegexParse.v
RegexGrammar.v
RegexLang.v
Getopt.v
Strftime.v
Strptime.v
Fat.v
Filesystem.v
Daemon.v
DaemonLists.v
DaemonInv.v
DaemonOps.v
DaemonConf.v
DaemonSteps.v
DaemonPoll.v
DaemonSpec.v
