(* ===== verification/Prelude.v ===== *)
(** * Sortix libc: a verification library

    Sortix is a small Unix-like operating system.  Its kernel and filesystem
    drivers are C++; the C library under [src/libc] is the C program every other
    part stands on, and its core, the functions that compute something of their
    own instead of passing a request to the kernel, is what this library models
    and proves.  Of the parts above it, [src/libmount], which finds the partitions
    of disks and the filesystems on them, and the supervision of daemons in
    [src/init] are modelled too.

    ** The parts and how they depend on each other

    The memory and string functions work on raw memory and use nothing else.
    The character classes are pure.  The integer parsers use the character
    classes; formatted output uses the UTF-8 encoder for wide strings and its own
    integer conversion, and hands its text to a callback, which [vsnprintf] and
    [vasprintf] supply; [inet_ntop] prints through it.  The environment functions
    keep the [environ] array and the array they allocated themselves.  Sorting
    and searching call a comparison function of their caller.  The calendar
    functions share a table of leap seconds; the interval functions are
    independent.  The multibyte functions share the [mbstate_t] a caller keeps
    between calls.  The random generator keeps a cipher state and a buffer, and
    asks the kernel for entropy and for the process identifier.  The heap keeps
    its structures in the memory it manages, asks the kernel for pages, and moves
    blocks with [memcpy].  A stream keeps a buffer that holds bytes read ahead or
    bytes not yet written, and reaches what lies below it through the functions it
    was opened with; [fmemopen] and [open_memstream] supply such functions over
    memory.  Threads meet in locks, which are words changed by atomic operations
    and futexes of the kernel to sleep on: mutexes, semaphores, spin locks and
    [pthread_once] are such words, condition variables queue their waiters under
    the caller's mutex, and read-write locks are made of a mutex and two condition
    variables.  The readers of partition tables read a disk or a partition with
    [pread], check what they read with a checksum, name partitions with
    [asprintf] and decode their names with [wcrtomb], and sort them with [qsort].
    A regular expression is parsed to a tree of nodes, its repetitions are
    expanded into copies, its nodes are linked into an automaton, and the matcher
    runs the automaton over a string with lists threaded through the nodes.
    [getopt_long] keeps its place in the command line in variables between calls.
    [strftime] and [strptime] write and read the broken-down times of the calendar
    functions.  Filesystems are recognised by handlers that look at the first
    bytes of a device and then at their own structures on it.  [init] keeps its
    daemons in lists by state and in a graph of dependencies, starts, watches and
    restarts their processes, and takes requests that change the graph; a loop
    polls the pipes of the processes and the connections that requests come from.

    ** Files

    - [Prelude]: machine integers with their wrap-around, outcomes (a value,
      undefined behaviour, fuel exhausted), the state monad over them, arrays
      with checked writes, character literals, shared lemmas and tactics.
    - [Time], module [Calendar]: [time/gmtime_r.c] ([gmtime_r], [timegm], the
      leap second table and conversions), [time/localtime_r.c], [time/mktime.c].
    - [Timespec]: [timespec/timespec.c] and the functions of [timespec.h].
    - [Wchar], module [Utf8]: [wchar/mbrtowc.c], [wcrtomb.c] and the functions
      defined by them ([mbrlen], [mbsinit], [btowc], [wctob], [mbtowc], [mblen],
      [wctomb]); the conversion state is the record [mbstate].
    - [WcharStr], module [Utf8Str]: [wchar/mbsnrtowcs.c], [mbsrtowcs.c],
      [wcsnrtombs.c], [wcsrtombs.c] and the four files of [uchar].
    - [Ctype]: [ctype/is*.c], [tolower.c], [toupper.c] in the C locale.
    - [Memory], module [Mem]: the byte memory of the string functions and the
      combinators for their loops, with the rules their proofs use.
    - [MemFuncs]: [string/memcpy.c], [memmove.c], [memset.c], [memchr.c],
      [memrchr.c], [memcmp.c], [memccpy.c], [timingsafe_memcmp.c],
      [explicit_bzero.c].
    - [StrFuncs]: the functions of [string/str*.c] on null-terminated strings.
    - [Sort]: [stdlib/qsort_r.c], [qsort.c], [bsearch.c].
    - [Strtol]: the template [stdlib/strtol.c] and its instances.
    - [Getopt]: [getopt/getopt_long.c], [getopt.c].
    - [Strftime], [Strptime]: [time/strftime.c], [strftime_l.c], [strptime.c].
    - [Env]: [stdlib/getenv.c], [setenv.c], [unsetenv.c], [clearenv.c].
    - [Printf]: [stdio/vcbprintf.c], [vsnprintf.c], [vsprintf.c], [vasprintf.c].
    - [Random]: [stdlib/arc4random_buf.c], [arc4random.c],
      [arc4random_uniform.c], [rand.c].
    - [Fnmatch]: [fnmatch/fnmatch.c].
    - [Inet]: [arpa/inet/inet_ntop.c], [inet_pton.c].
    - [Sha2]: the five files of [sha2], one development for both word sizes.
    - [Heap]: [include/malloc.h], [malloc/__heap_expand_current_part.c],
      [stdlib/malloc.c], [free.c], [realloc.c], [calloc.c], [reallocarray.c],
      over the byte memory.  [HeapInv]: the words of the heap, the geometry of
      parts and chunks, the bins, and the invariant that ties them together, kept
      by the insertion and removal of a chunk.  [HeapOps]: joining, splitting and
      coalescing chunks.  [HeapGrow]: new parts and longer parts.  [HeapSpec]:
      what [malloc] does to the chunks (class [System] for [mmap]).
      [HeapClient]: the abstract heap and the simulation.
    - [Stdio]: the functions [stdio/*_unlocked.c] on the [FILE] of
      [include/FILE.h], and [getdelim.c].  [StdioSpec]: the class [Device] of
      files, the abstract file, and what each function does to it.  [Fmemopen]:
      [stdio/fmemopen.c], [fparsemode.c], [fnewfile.c], an instance of [Device].
      [StdioFile]: programs over a stream and lines.  [Memstream]:
      [stdio/open_memstream.c].
    - [Sched]: threads as interleaved steps, and the futex of [kernel/thread.cpp].
      [Mutex]: [pthread/pthread_mutex_*.c].  [MutexSpec]: the abstract lock and
      what its users may rely on.  [Semaphore]: [semaphore/sem_*.c].  [Cond]:
      [pthread/pthread_cond_*.c].  [CondSpec]: the abstract monitor.  [Rwlock]:
      [pthread/pthread_rwlock_*.c].  [Once]: [pthread_once.c] and the spin locks.
    - [Crc32], [Uuid]: [libmount/crc32.c], [uuid.c].  [Blockdev]:
      [libmount/blockdevice.c], [ioleast/preadleast.c], and the class [Disk].
      [Partition]: [libmount/partition.c], [util.h], tables under construction and
      the rules to reason about their readers (class [Environment]: what a reader
      may rely on).  [Mbr], [Gpt]: [libmount/mbr.c], [gpt.c].  [MbrSpec],
      [GptSpec]: the layouts they read.  [Probe]: the choice between them.
      [Fat]: [libmount/fat.c], the allocation table.  [Filesystem]:
      [libmount/filesystem.c], [biosboot.c], [extended.c], [ext2.c],
      [iso9660.c], [fat.c].
    - [Daemon]: the daemons of [init/init.c], its poll table and its loop.  [DaemonLists]: the lists by state.
      [DaemonInv]: the invariant of lists, graph and counters.  [DaemonOps],
      [DaemonConf], [DaemonSteps]: it is kept by the operations on daemons, by
      configuring them, and by every event.  [DaemonPoll]: the poll table, whose
      entries are the open descriptors.  [DaemonSpec]: what holds in every
      state [init] reaches, and how its loop can end.
    - [Regcomp]: [regex/regcomp.c], [regfree.c], [regerror.c], the owned nodes as
      a tree.  [Regexec]: [regex/regexec.c], the lists and marks of the nodes.
      [RegexSpec]: languages of trees as relations between positions, the moves of
      the automaton, and the passes of the compiler.  [RegexMatch]: the matcher
      simulates the automaton.  [RegexParse]: the shape of parsed trees, that
      parsing ends and that it stays inside the pattern.  [RegexGrammar]: the grammar of extended expressions, printed
      and parsed.  [RegexLang]: what expressions denote, and all of it together.

    Definitions carry the names of the C functions; a loop, a phase of a long
    function or a piece of its state has a definition of its own named after what
    it does.

    ** How C is modelled

    An integer of width [w] is a [Z], and conversions and unsigned arithmetic
    that may wrap are written out ([u32], [u64], [s32], ...).  Signed arithmetic
    that overflows, an access outside an object, a use of freed memory and a
    failed [assert] are the outcome [Undef]; a loop without a structural bound
    takes fuel and is [OutOfFuel] when that runs out.  A theorem whose conclusion
    is [Ret] therefore says that the function is safe and that it returns.

    There are two models of memory, chosen by what the functions do with it.
    [Memory] is a flat map from addresses to bytes, where pointers are compared,
    aligned and aliased, for the functions of [string]: mapped addresses are the
    only ones that can be touched, words are eight bytes, and overlapping
    arguments are visible.  Elsewhere an object is a list and a pointer into it an
    index or a suffix: a string is its bytes before the terminator, or with the
    terminator where reading past it has to be seen.

    Threads are lists of local states that share one global state; a step runs
    one thread from one atomic operation or system call to the next, and the
    environment chooses which thread steps, what it calls next, whether a timeout
    passes, a signal arrives, or an exchange fails.  Theorems hold in every state
    reachable by such steps.

    What lies outside the libraries is a parameter with hypotheses on it: the
    comparison function of [qsort_r] (class [Comparator], the order the C
    standard asks for), the callback of [vcbprintf] (class [Sink]: a callback that
    takes what it is given, with instances for [vsnprintf] and [vasprintf]), the
    entropy source of the random generator (it fills the bytes it is asked for),
    [mmap] (class [System]: it maps whole pages that were not mapped, or fails),
    the functions a stream is opened with (class [Device]: they read, write and
    seek in a file, as much at a time as they like; [isatty] is arbitrary),
    [pread] on a disk (class [Disk]: it reads the bytes of the disk, as many at a
    time as it likes; class [Reader]: it reads anything or fails),
    [realloc] where a caller's block grows (class [Reallocates]), and the outcomes of allocations (a list of successes and failures).

    ** Fuel

    Loops over memory get one unit more than there are mapped addresses, which a
    loop that reads a new address each round can not exceed; the years of
    [gmtime_r] get an amount computed from the timestamp; [count_digits] gets 65,
    one more than the digits of a 64-bit number in base two; [vcbprintf] gets the
    length of its format ([vcbprintf_fuel] shows that more changes nothing);
    [fnmatch] gets the length of pattern and string together; [arc4random_buf]
    gets one more than the bytes asked for, since every iteration but the first
    delivers at least one; the loops that move bytes between a stream and its
    device get one more than the bytes to move; [getdelim] gets more than the
    length of the line; the chain of extended boot records gets one more than the
    sectors of its partition, since each record lies behind the one before; the
    name of a partition gets two more than its units; the parser of regular
    expressions gets one more than the length of the pattern, the expansion of
    repetitions the size the tree can grow to, and the loop over the states at a
    position the number of nodes, since a state is processed once; the
    caller's loop around [getopt_long] gets one round more than there are options,
    the loops of [strftime] and [strptime] one
    more than the length of the format, and the loop of [init] over the daemons
    that are being terminated the number of daemons.  The theorems about these functions show the fuel is
    enough.  Only [arc4random_uniform] has no bound in the code; its theorem takes
    the number of words rejected as given.

    ** What the theorems show

    - Memory and strings: the word-wise [memcpy] is the byte-wise copy for every
      size and alignment; [memmove] handles overlap; [memset] and the comparisons
      do what they say, the branch-free comparison included; [strlcpy] and
      [strlcat] truncate within the buffer; the comparisons are lexicographic;
      the searches find the first occurrence; [strtok_r] yields the words.
    - Sorting: [qsort_r] returns a sorted permutation for every consistent
      comparison, [bsearch] finds an element when there is one.
    - Numbers and text: [strtol] and [strtoul] compute the value the digits
      denote, clamped; the integer conversions of [printf] lay their field out as
      the standard prescribes, [vsnprintf] never writes outside its buffer and
      truncates as it should, [vasprintf] returns the whole text, and a printed
      number is parsed back.  Addresses printed by [inet_ntop] are parsed back by
      [inet_pton].  [fnmatch] decides a pattern language given as a relation.
    - Characters: UTF-8 encoding and decoding are inverse, also for whole strings
      and through UTF-16; decoding can be interrupted at any byte.
    - Time: [timegm] inverts [gmtime_r] with leap seconds up to 2^55 seconds,
      [timegm] normalises its argument, the interval operations saturate;
      [strftime] stays inside its buffer, and [strptime] reads back what it wrote
      for the conversions listed.
    - Environment: [setenv] and [unsetenv] against [getenv], with failing
      allocations and both owners of the array.
    - Random numbers: [arc4random_buf] is a stream that does not depend on how
      calls cut it up and erases what it handed out; [arc4random_uniform] is
      unbiased.
    - Hashing: the incremental interface of SHA-2 computes the digest of the
      padded message however it is cut up, and the unrolled transforms agree with
      the loops.
    - The heap: any program that uses only the blocks it was given runs without
      undefined behaviour and sees an abstract heap of disjoint, aligned blocks
      that keep their bytes; [malloc] and [free] keep the chunks coalesced.
    - Streams: buffering is transparent, for every mode of the buffer and every
      way the device cuts reads and writes up: a program sees the file itself,
      and a flush brings the device up to date; [getdelim] reads a line into a
      buffer it grows; [open_memstream] appends to a terminated block.
    - Threads: a mutex is an abstract lock that is never held twice, a system of
      mutex users never gets stuck with the lock free, and a failed call leaves the
      lock as it was; a condition variable is an abstract monitor and a waiter that
      was signalled wakes; semaphores conserve their count; read-write locks
      exclude writers; [pthread_once] runs its routine once.
    - Partition tables: the checksum is the cyclic redundancy check and sees every
      burst of 32 bits; identifiers are parsed and printed; the reader of boot
      records returns exactly the partitions of the layout a disk carries, as a
      relation says, or an error, and what it returns is on the device whatever
      the disk holds; the reader of GUID partition tables returns the partitions
      of every valid table it can take.
    - Filesystems: a device is inspected as the handler whose filesystem it holds,
      with the identifiers on the disk, and told to be checked when it is not
      clean; the entries of a FAT are read as the format lays them out.
    - Option parsing: the options written on a command line are returned in order.
    - Daemons: whatever the events, the lists, the graph and its counters stay
      consistent, a process exists in the states that have one as long as no
      request sets a daemon back, and the loop of [init] ends in exactly seven
      ways by a failed assertion or a misuse of memory, each shown by a run.
    - Regular expressions: patterns of the grammar are parsed to the trees they
      stand for; compiling, repetitions included, keeps the language whenever it
      leaves a node; a terminated pattern without a range at its end is parsed
      without reading past it; the matcher returns, leaves no node marked as
      current and reports only matches; and it
      finds a match whenever there is one if the automaton is separated (two
      states that consume the same character do not lead to one state that is also
      entered without a character), which [separated] decides.
    - Defects: where the code does not do what it is meant to, a theorem or an
      example states what it does ([timegm] before 1970, [mktime] with a large
      month, overlong UTF-8, [wcsnrtombs] into a small buffer, [stresep],
      [strverscmp], [timespec_canonalize] of negative nanoseconds, and some
      corners of [printf], [strtol], [fnmatch] and [srand]; the chunks after a
      [realloc] that shrinks a block, seeking in [open_memstream], wakeups lost by [sem_post] and by
      a write lock that times out, a futex wait that fails spuriously, overlapping
      partitions and mangled names in GUID partition tables, matches lost by
      [regexec] and assertions failed by [regcomp], a FAT larger than its device,
      the misspelt September of [strftime], backslashes in [fnmatch], and the
      requests and events that end [init], among others).

    ** What is not modelled

    Floating point ([libm], and [printf]'s floating conversions, which the code
    itself rejects); the lock around each heap and stream function, since a
    function is modelled as the critical section that lock protects; creating,
    joining and cancelling threads, which set up stacks and thread-local storage in
    machine-specific ways; functions that only wrap a system call; locales, of which the
    library has one.  In the environment strings are values, so that an argument
    of [setenv] that aliases an entry is not distinguished.  Also left out are the
    wide string functions, which repeat the string functions over [wchar_t];
    [vcbscanf]; the password database and its Blowfish hash; the shell; and of
    [init] what only reads files and talks to the kernel: logging, the tokenizer
    and parser of configurations, the buffers of connections, mounting, what a
    process does before it is executed, and the collection of unknown processes after
    the loop.  Of regular expressions the offsets
    of subexpressions are modelled but nothing is proved about them, and
    allocations are taken to succeed. *)

From stdpp Require Import base list gmap numbers strings.
From Stdlib Require Import ZArith Lia Permutation Ascii.

#[local] Open Scope Z_scope.

(** ** Machine integers

    A C integer of width [w] is a [Z].  [wrapu w] is the conversion to the
    unsigned type of that width, [wraps w] the two's complement conversion to
    the signed one.  Arithmetic on signed types whose overflow is undefined
    goes through [checked_*], which has no value out of range. *)

Definition wrapu (w x : Z) : Z := x mod 2 ^ w.
Definition wraps (w x : Z) : Z := (x + 2 ^ (w - 1)) mod 2 ^ w - 2 ^ (w - 1).

Definition in_u (w x : Z) : Prop := 0 <= x < 2 ^ w.
Definition in_s (w x : Z) : Prop := - 2 ^ (w - 1) <= x < 2 ^ (w - 1).

Definition in_sb (w x : Z) : bool := (- 2 ^ (w - 1) <=? x) && (x <? 2 ^ (w - 1)).

Abbreviation u8 := (wrapu 8).
Abbreviation u16 := (wrapu 16).
Abbreviation u32 := (wrapu 32).
Abbreviation u64 := (wrapu 64).
Abbreviation s8 := (wraps 8).
Abbreviation s16 := (wraps 16).
Abbreviation s32 := (wraps 32).
Abbreviation s64 := (wraps 64).

Definition INT_MAX : Z := 2147483647.
Definition INT_MIN : Z := -2147483648.
Definition UINT32_MAX : Z := 4294967295.
Definition LONG_MAX : Z := 9223372036854775807.
Definition LONG_MIN : Z := -9223372036854775808.
Definition SIZE_MAX : Z := 18446744073709551615.

Lemma wrapu_id w x : in_u w x → wrapu w x = x.
Proof. apply Z.mod_small. Qed.

Lemma wrapu_range w x : 0 <= w → in_u w (wrapu w x).
Proof. intros. apply Z.mod_pos_bound. lia. Qed.

Lemma wraps_id w x : 1 <= w → in_s w x → wraps w x = x.
Proof.
  unfold wraps, in_s. intros Hw Hx.
  assert (2 ^ w = 2 * 2 ^ (w - 1)) by (rewrite <- Z.pow_succ_r by lia; f_equal; lia).
  rewrite Z.mod_small; lia.
Qed.

Lemma wraps_range w x : 1 <= w → in_s w (wraps w x).
Proof.
  unfold wraps, in_s. intros Hw.
  assert (2 ^ w = 2 * 2 ^ (w - 1)) by (rewrite <- Z.pow_succ_r by lia; f_equal; lia).
  pose proof (Z.mod_pos_bound (x + 2 ^ (w - 1)) (2 ^ w) ltac:(lia)). lia.
Qed.

(** Narrowing twice is narrowing once. *)
Lemma wrapu_wrapu_le w v x : 0 <= w <= v → wrapu w (wrapu v x) = wrapu w x.
Proof.
  unfold wrapu. intros H.
  apply Z.mod_mod_divide.
  exists (2 ^ (v - w)). rewrite <- Z.pow_add_r by lia. f_equal. lia.
Qed.

(** ** Bit operations *)

(** A property of all bytes, by evaluation. *)
Lemma byte_forall (P : Z → Prop) `{!∀ x, Decision (P x)} :
  forallb (λ x, bool_decide (P x)) (seqZ 0 256) = true → ∀ x, 0 <= x < 256 → P x.
Proof.
  intros Hall x Hx. rewrite forallb_forall in Hall. eapply bool_decide_eq_true, Hall.
  apply list_elem_of_In, elem_of_seqZ. lia.
Qed.

Lemma land_pow2_mod x k m : 0 <= k → m = 2 ^ k - 1 → Z.land x m = x mod 2 ^ k.
Proof. intros Hk ->. rewrite <- Z.land_ones by lia. f_equal. rewrite Z.ones_equiv. lia. Qed.

Lemma shiftl_mul x k : 0 <= k → Z.shiftl x k = x * 2 ^ k.
Proof. apply Z.shiftl_mul_pow2. Qed.

Lemma shiftr_div x k : 0 <= k → Z.shiftr x k = x / 2 ^ k.
Proof. apply Z.shiftr_div_pow2. Qed.

(** [a | b] is [a + b] when [a] has no bit below [k] and [b] none above. *)
Lemma lor_disjoint x y k : 0 <= k → 0 <= y < 2 ^ k → Z.lor (x * 2 ^ k) y = x * 2 ^ k + y.
Proof.
  intros Hk Hy. rewrite <- Z.lxor_lor, <- Z.add_nocarry_lxor; [done|..];
    apply Z.bits_inj'; intros i Hi; rewrite Z.land_spec, Z.bits_0;
    (destruct (Z.ltb_spec i k);
     [rewrite Z.mul_pow2_bits_low by lia; done
     |rewrite <- (Z.mod_small y (2 ^ k)) by lia; rewrite Z.mod_pow2_bits_high by lia;
      apply andb_false_r]).
Qed.

(** Bitwise operations stay within the width of their operands. *)
Lemma in_u_land w x : 0 <= w → in_u w x ↔ Z.land x (Z.ones w) = x.
Proof.
  intros Hw. rewrite Z.land_ones by lia. split; [apply Z.mod_small|].
  intros <-. by apply (wrapu_range w).
Qed.

Lemma lor_range w x y : 0 <= w → in_u w x → in_u w y → in_u w (Z.lor x y).
Proof.
  intros Hw Hx Hy. apply in_u_land in Hx, Hy; [|done..]. apply in_u_land; [done|].
  by rewrite Z.land_lor_distr_l, Hx, Hy.
Qed.

Lemma lxor_range w x y : 0 <= w → in_u w x → in_u w y → in_u w (Z.lxor x y).
Proof.
  intros Hw Hx Hy. apply in_u_land in Hx, Hy; [|done..]. apply in_u_land; [done|].
  apply Z.bits_inj'. intros n Hn.
  rewrite <- Hx, <- Hy, !Z.land_spec, !Z.lxor_spec, !Z.land_spec.
  by destruct (Z.testbit (Z.ones w) n); rewrite ?andb_true_r, ?andb_false_r.
Qed.

(** ** Outcomes

    A C computation returns a value, has undefined behaviour (an access out of
    bounds, a signed overflow, an [assert] that fails or a [scram]), or is cut
    off because the model's fuel ran out.  The last two are kept apart, so that
    a theorem concluding [Ret] shows both safety and termination. *)

Inductive outcome (A : Type) : Type :=
| Ret (a : A)
| Undef
| OutOfFuel.
Arguments Ret {A} _.
Arguments Undef {A}.
Arguments OutOfFuel {A}.

#[global] Instance outcome_ret : MRet outcome := λ A a, Ret a.
#[global] Instance outcome_bind : MBind outcome := λ A B f o,
  match o with Ret a => f a | Undef => Undef | OutOfFuel => OutOfFuel end.
#[global] Instance outcome_fmap : FMap outcome := λ A B f o,
  match o with Ret a => Ret (f a) | Undef => Undef | OutOfFuel => OutOfFuel end.

#[global] Instance outcome_eq_dec `{EqDecision A} : EqDecision (outcome A).
Proof. solve_decision. Defined.

Lemma outcome_bind_eq {A B} (o : outcome A) (f : A → outcome B) a : o = Ret a → o ≫= f = f a.
Proof. by intros ->. Qed.

(** Two-way step of an undefined-behaviour check. *)
Definition guard_def (b : bool) : outcome () := if b then Ret () else Undef.

Definition checked (w x : Z) : outcome Z := if in_sb w x then Ret x else Undef.

Lemma checked_ok w x : in_s w x → checked w x = Ret x.
Proof.
  unfold checked, in_sb, in_s. intros [H1 H2].
  by rewrite (proj2 (Z.leb_le _ _) H1), (proj2 (Z.ltb_lt _ _) H2).
Qed.

(** State passing on top of outcomes. *)
Definition M (S A : Type) : Type := S → outcome (A * S).

#[global] Instance M_ret {S} : MRet (M S) := λ A a s, Ret (a, s).
#[global] Instance M_bind {S} : MBind (M S) := λ A B f c s,
  match c s with
  | Ret (a, s') => f a s'
  | Undef => Undef
  | OutOfFuel => OutOfFuel
  end.

Definition M_undef {S A} : M S A := λ _, Undef.
Definition M_nofuel {S A} : M S A := λ _, OutOfFuel.
Definition M_lift {S A} (o : outcome A) : M S A := λ s, a ← o; Ret (a, s).

Lemma M_bind_ret {S A B} (c : M S A) (f : A → M S B) s a s' :
  c s = Ret (a, s') → (c ≫= f) s = f a s'.
Proof. unfold mbind, M_bind. by intros ->. Qed.

Lemma M_ret_run {S A} (a : A) (s : S) : (mret a : M S A) s = Ret (a, s).
Proof. done. Qed.

(** ** Arrays

    An object of known size as a list: writing outside it is [Undef]. *)

Definition write_at {A} (buf : list A) (off : Z) (l : list A) : outcome (list A) :=
  if (0 <=? off) && (off + Z.of_nat (length l) <=? Z.of_nat (length buf))
  then Ret (take (Z.to_nat off) buf ++ l ++ drop (Z.to_nat off + length l) buf)
  else Undef.

Lemma write_at_app {A} (a b l c : list A) :
  length l = length b → write_at (a ++ b ++ c) (Z.of_nat (length a)) l = Ret (a ++ l ++ c).
Proof.
  intros Hl. unfold write_at. rewrite !length_app, (proj2 (Z.leb_le 0 _)) by lia.
  rewrite (proj2 (Z.leb_le _ _)) by lia. simpl. rewrite Nat2Z.id, take_app_length.
  rewrite <- drop_drop, drop_app_length, Hl, drop_app_length. done.
Qed.

Lemma write_at_prefix {A} (a b l : list A) w :
  w = Z.of_nat (length a) → (length l <= length b)%nat →
  write_at (a ++ b) w l = Ret (a ++ l ++ drop (length l) b).
Proof.
  intros -> Hl. rewrite <- (take_drop (length l) b) at 1. apply write_at_app.
  rewrite length_take. lia.
Qed.

Lemma write_at_undef {A} (buf : list A) off l :
  Z.of_nat (length buf) < off + Z.of_nat (length l) → write_at buf off l = Undef.
Proof.
  intros H. unfold write_at. rewrite (proj2 (Z.leb_gt _ (Z.of_nat (length buf)))) by lia.
  by rewrite andb_false_r.
Qed.

(** ** Lists *)

Lemma filter_all {A} (P : A → Prop) `{!∀ x, Decision (P x)} l : Forall P l → filter P l = l.
Proof. induction 1; [done|]. by rewrite filter_cons_True, IHForall. Qed.

(** ** Characters

    [ch "a"] is the value of a character constant and [lit "abc"] the list of
    the bytes of a string literal without its terminator; both are plain
    numerals once parsed. *)
Declare Scope c_scope.
Notation "'ch' c" :=
  (ltac:(let v := eval vm_compute in (Z.of_N (Ascii.N_of_ascii c%char)) in exact v))
  (at level 8, c at level 0, only parsing) : c_scope.
Notation "'lit' s" :=
  (ltac:(let v := eval vm_compute in
           (map (λ a, Z.of_N (Ascii.N_of_ascii a)) (String.list_ascii_of_string s%string)) in exact v))
  (at level 8, s at level 0, only parsing) : c_scope.

(** ** errno values the modelled functions set *)
Inductive errno :=
| EINVAL | ENOMEM | ERANGE | EILSEQ | ENOSPC | EAFNOSUPPORT | EOVERFLOW | EBADF
| EAGAIN | EBUSY | EINTR | ETIMEDOUT | ENOSYS | EEOF | EIO.

#[global] Instance errno_eq_dec : EqDecision errno.
Proof. solve_decision. Defined.

(** ** Tactics *)

(** Turn the boolean comparisons of the modelled conditions into facts. *)
Ltac b2p :=
  repeat match goal with
  | H : _ && _ = true |- _ => apply andb_true_iff in H; destruct H
  | H : _ || _ = false |- _ => apply orb_false_iff in H; destruct H
  | H : _ && _ = false |- _ => apply andb_false_iff in H; destruct H
  | H : _ || _ = true |- _ => apply orb_true_iff in H; destruct H
  | H : negb _ = true |- _ => apply negb_true_iff in H
  | H : negb _ = false |- _ => apply negb_false_iff in H
  | H : (_ <=? _) = true |- _ => apply Z.leb_le in H
  | H : (_ <=? _) = false |- _ => apply Z.leb_gt in H
  | H : (_ <? _) = true |- _ => apply Z.ltb_lt in H
  | H : (_ <? _) = false |- _ => apply Z.ltb_ge in H
  | H : (_ =? _) = true |- _ => apply Z.eqb_eq in H
  | H : (_ =? _) = false |- _ => apply Z.eqb_neq in H
  end.

(** Split the innermost [if] of the goal whose condition holds no [if]. *)
Ltac case_if :=
  match goal with
  | |- context [if ?b then _ else _] =>
      lazymatch b with
      | context [if _ then _ else _] => fail
      | _ => let E := fresh "Eif" in destruct b eqn:E; b2p
      end
  end.

Ltac b2p_if := repeat case_if.

(** Rewrite one monadic step of the goal with an equation on its outcome. *)
Ltac step H := erewrite M_bind_ret; [|exact H].

Create HintDb clib discriminated.
#[export] Hint Resolve wrapu_id wraps_id wrapu_range wraps_range : clib.
