(* ===== verification/Time.v ===== *)
(** * Calendar time: [libc/time/gmtime_r.c]

    [gmtime_r], [timegm], [mktime], [localtime_r] and the leap second
    adjustments.  The loops over years carry fuel computed from the timestamp
    ([year_fuel]), which the theorems show is always enough; array accesses
    with a month outside the tables are [Undef], as is overflow of the [int]
    year. *)

From S2P Require Import Prelude.
From stdpp Require Import base list.
From Stdlib Require Import ZArith Lia.

#[local] Open Scope Z_scope.

Module Calendar.

Definition UNKNOWN : Z := 127.

Definition DECL_LEAP_SECOND (year jun dec : Z) : list Z :=
  [0; 0; 0; 0; 0; jun; 0; 0; 0; 0; 0; dec].

Definition leap_seconds : list (list Z) := [
  DECL_LEAP_SECOND 1970 0 0; DECL_LEAP_SECOND 1971 0 0;
  DECL_LEAP_SECOND 1972 1 1; DECL_LEAP_SECOND 1973 0 1;
  DECL_LEAP_SECOND 1974 0 1; DECL_LEAP_SECOND 1975 0 1;
  DECL_LEAP_SECOND 1976 0 1; DECL_LEAP_SECOND 1977 0 1;
  DECL_LEAP_SECOND 1978 0 1; DECL_LEAP_SECOND 1979 0 1;
  DECL_LEAP_SECOND 1980 0 0; DECL_LEAP_SECOND 1981 1 0;
  DECL_LEAP_SECOND 1982 1 0; DECL_LEAP_SECOND 1983 1 0;
  DECL_LEAP_SECOND 1984 0 0; DECL_LEAP_SECOND 1985 1 0;
  DECL_LEAP_SECOND 1986 0 0; DECL_LEAP_SECOND 1987 0 1;
  DECL_LEAP_SECOND 1988 0 0; DECL_LEAP_SECOND 1989 0 1;
  DECL_LEAP_SECOND 1990 0 1; DECL_LEAP_SECOND 1991 0 0;
  DECL_LEAP_SECOND 1992 1 0; DECL_LEAP_SECOND 1993 1 0;
  DECL_LEAP_SECOND 1994 1 0; DECL_LEAP_SECOND 1995 0 1;
  DECL_LEAP_SECOND 1996 0 0; DECL_LEAP_SECOND 1997 1 0;
  DECL_LEAP_SECOND 1998 0 1; DECL_LEAP_SECOND 1999 0 0;
  DECL_LEAP_SECOND 2000 0 0; DECL_LEAP_SECOND 2001 0 0;
  DECL_LEAP_SECOND 2002 0 0; DECL_LEAP_SECOND 2003 0 0;
  DECL_LEAP_SECOND 2004 0 0; DECL_LEAP_SECOND 2005 0 1;
  DECL_LEAP_SECOND 2006 0 0; DECL_LEAP_SECOND 2007 0 0;
  DECL_LEAP_SECOND 2008 0 1; DECL_LEAP_SECOND 2009 0 0;
  DECL_LEAP_SECOND 2010 0 0; DECL_LEAP_SECOND 2011 0 0;
  DECL_LEAP_SECOND 2012 1 0; DECL_LEAP_SECOND 2013 0 0;
  DECL_LEAP_SECOND 2014 0 0; DECL_LEAP_SECOND 2015 1 0;
  DECL_LEAP_SECOND 2016 0 1; DECL_LEAP_SECOND 2017 0 0;
  DECL_LEAP_SECOND 2018 0 0; DECL_LEAP_SECOND 2019 0 0;
  DECL_LEAP_SECOND 2020 0 0; DECL_LEAP_SECOND 2021 0 0;
  DECL_LEAP_SECOND 2022 0 0; DECL_LEAP_SECOND 2023 0 UNKNOWN ].

Definition month_days_list : list Z :=
  [31; 28; 31; 30; 31; 30; 31; 31; 30; 31; 30; 31].

(** [a[i]] on a constant table. *)
Definition index {A} (l : list A) (i : Z) : outcome A :=
  if i <? 0 then Undef
  else match l !! Z.to_nat i with Some x => Ret x | None => Undef end.

Definition get_leap_second_maybe (year month : Z) : outcome Z :=
  let num_years := Z.of_nat (length leap_seconds) in
  if year <? 1970 then Ret 0
  else if num_years <=? year - 1970 then Ret UNKNOWN
  else row ← index leap_seconds (year - 1970); index row month.

Definition get_leap_second (year month : Z) : outcome Z :=
  result ← get_leap_second_maybe year month;
  Ret (if result =? UNKNOWN then 0 else result).

(** [for ( int i = 0; i < 12; i++ )], [n] iterations left, at month [i]. *)
Fixpoint leap_seconds_in_year_from (n : nat) (year i ret : Z) : outcome Z :=
  match n with
  | O => Ret ret
  | S n => l ← get_leap_second year i;
           leap_seconds_in_year_from n year (i + 1) (ret + l)
  end.
Definition leap_seconds_in_year (year : Z) : outcome Z :=
  leap_seconds_in_year_from 12 year 0 0.

Definition is_leap_year (year : Z) : bool :=
  ((Z.rem year 4 =? 0) && negb (Z.rem year 100 =? 0)) || (Z.rem year 400 =? 0).

Definition days_in_year (year : Z) : Z :=
  31 + 28 + (if is_leap_year year then 1 else 0) + 31 + 30 + 31 + 30 + 31 + 31 +
  30 + 31 + 30 + 31.

Definition days_in_month (year month : Z) : outcome Z :=
  d ← index month_days_list month;
  Ret (d + (if (month =? 1) && is_leap_year year then 1 else 0)).

Record tm := Tm {
  tm_sec : Z; tm_min : Z; tm_hour : Z; tm_mday : Z; tm_mon : Z; tm_year : Z;
  tm_wday : Z; tm_yday : Z; tm_isdst : Z
}.

#[global] Instance tm_eq_dec : EqDecision tm.
Proof. solve_decision. Defined.

Definition year_seconds_of (year : Z) : outcome Z :=
  year_leaps ← leap_seconds_in_year year;
  Ret (days_in_year year * 24 * 60 * 60 + year_leaps).

(** [while ( 0 < left )]: the years after the epoch. *)
Fixpoint gmtime_years_after (fuel : nat) (left year wday : Z) : outcome (Z * Z * Z) :=
  match fuel with
  | O => OutOfFuel
  | S fuel =>
      if 0 <? left then
        year_seconds ← year_seconds_of year;
        if year_seconds <=? left then
          year' ← checked 32 (year + 1);
          gmtime_years_after fuel (left - year_seconds) year'
            (Z.rem (wday + days_in_year year) 7)
        else Ret (left, year, wday)
      else Ret (left, year, wday)
  end.

(** [while ( left < 0 )]: the years before the epoch. *)
Fixpoint gmtime_years_before (fuel : nat) (left year wday : Z) : outcome (Z * Z * Z) :=
  match fuel with
  | O => OutOfFuel
  | S fuel =>
      if left <? 0 then
        year' ← checked 32 (year - 1);
        year_seconds ← year_seconds_of year';
        gmtime_years_before fuel (left + year_seconds) year'
          (Z.rem (wday - days_in_year year' + 7*7*7*7) 7)
      else Ret (left, year, wday)
  end.

(** [while ( true )]: the months of the year. *)
Fixpoint gmtime_months (fuel : nat) (year left mon yday wday : Z) : outcome (Z * Z * Z * Z) :=
  match fuel with
  | O => OutOfFuel
  | S fuel =>
      month_leaps ← get_leap_second year mon;
      month_days ← days_in_month year mon;
      let month_seconds := month_days * 24 * 60 * 60 + month_leaps in
      if month_seconds <=? left then
        gmtime_months fuel year (left - month_seconds) (mon + 1)
          (yday + month_days) (Z.rem (wday + month_days) 7)
      else Ret (left, mon, yday, wday)
  end.

(** Enough iterations of the year loops for a timestamp: no year is shorter
    than 365 days. *)
Definition year_fuel (t : Z) : nat := Z.to_nat (Z.abs t / (365 * 86400) + 2).

Definition gmtime_r (time : Z) : outcome tm :=
  '(left_, year, wday) ← gmtime_years_after (year_fuel time) time 1970 4;
  '(left_, year, wday) ← gmtime_years_before (year_fuel time) left_ year wday;
  '(left_, mon, yday, wday) ← gmtime_months 13 year left_ 0 0 wday;
  let mday := Z.quot left_ (24 * 60 * 60) in
  let left_ := Z.rem left_ (24 * 60 * 60) in
  dim ← days_in_month year mon;
  let '(mday, yday, hour, min, sec) :=
    if mday <? dim then
      (mday, yday + mday, Z.quot left_ (60 * 60),
       Z.quot (Z.rem left_ (60 * 60)) 60, Z.rem (Z.rem left_ (60 * 60)) 60)
    else
      let mday := mday - 1 in (mday, yday + mday, 23, 59, 60) in
  let wday := Z.rem (wday + mday) 7 in
  year' ← checked 32 (year - 1900);
  Ret (Tm sec min hour (mday + 1) mon year' wday yday (-1)).

Definition localtime_r (time : Z) : outcome tm := gmtime_r time.

(** [for ( time_t y = 1970; y < year; y++ )], [n] iterations left. *)
Fixpoint timegm_years (n : nat) (y ret : Z) : outcome Z :=
  match n with
  | O => Ret ret
  | S n => year_seconds ← year_seconds_of y;
           timegm_years n (y + 1) (ret + year_seconds)
  end.

(** [for ( int m = 0; m < month; m++ )], [n] iterations left. *)
Fixpoint timegm_months (n : nat) (year m ret : Z) : outcome Z :=
  match n with
  | O => Ret ret
  | S n =>
      month_leaps ← get_leap_second year m;
      month_days ← days_in_month year m;
      timegm_months n year (m + 1)
        (ret + (month_days * 24 * 60 * 60 + month_leaps))
  end.

(** The timestamp, and the normalised [struct tm] left behind. *)
Definition timegm (t : tm) : outcome (Z * tm) :=
  year ← checked 32 (tm_year t + 1900);
  day ← checked 32 (tm_mday t - 1);
  let month := tm_mon t in
  ret ← timegm_years (Z.to_nat (year - 1970)) 1970 0;
  ret ← timegm_months (Z.to_nat month) year 0 ret;
  let ret := ret + day * 24 * 60 * 60 + tm_hour t * 60 * 60 +
             tm_min t * 60 + tm_sec t in
  t' ← gmtime_r ret;
  Ret (ret, t').

Definition mktime (t : tm) : outcome (Z * tm) := timegm t.

(** The months from January 1970 on, in the nested loops' order; [next] and
    [offset] as in the source.  The result is the return value and [*ptr]. *)
Fixpoint sub_leap_from (fuel : nat) (t year month next offset : Z) : outcome (Z * Z) :=
  match fuel with
  | O => OutOfFuel
  | S fuel =>
      days ← days_in_month year month;
      leap ← get_leap_second_maybe year month;
      let next := next + days * 24 * 60 * 60 in
      if leap =? UNKNOWN then
        Ret (if t <? next - 1 then 1 else -1, t - offset)
      else
        let next := next + leap in
        if t <? next then
          Ret (if (0 <? leap) && (t + 1 =? next) then 0 else 1, t - offset)
        else if month + 1 <? 12
        then sub_leap_from fuel t year (month + 1) next (offset + leap)
        else sub_leap_from fuel t (year + 1) 0 next (offset + leap)
  end.

Fixpoint add_leap_from (fuel : nat) (t year month next offset : Z) : outcome (Z * Z) :=
  match fuel with
  | O => OutOfFuel
  | S fuel =>
      days ← days_in_month year month;
      leap ← get_leap_second_maybe year month;
      let next := next + days * 24 * 60 * 60 in
      if leap =? UNKNOWN then
        Ret (if t <? next - 1 then 1 else -1, t + offset)
      else if t <? next then
          Ret (if (leap <? 0) && (t + 1 =? next) then 0 else 1, t + offset)
        else if month + 1 <? 12
        then add_leap_from fuel t year (month + 1) next (offset + leap)
        else add_leap_from fuel t (year + 1) 0 next (offset + leap)
  end.

(** The table ends with an unknown entry in December of its last year, so the
    loops run over at most [12 * 54] months. *)
Definition leap_fuel : nat := 12 * length leap_seconds.
Definition sub_leap_seconds (t : Z) : outcome (Z * Z) := sub_leap_from leap_fuel t 1970 0 0 0.
Definition add_leap_seconds (t : Z) : outcome (Z * Z) := add_leap_from leap_fuel t 1970 0 0 0.

(** ** The tables *)

Lemma index_ok {A} (l : list A) i :
  0 <= i < Z.of_nat (length l) → ∃ x, index l i = Ret x ∧ l !! Z.to_nat i = Some x.
Proof.
  intros Hi. unfold index. rewrite (proj2 (Z.ltb_ge _ _)) by lia.
  destruct (lookup_lt_is_Some_2 l (Z.to_nat i)) as [x Hx]; [lia|].
  exists x. by rewrite Hx.
Qed.

Definition leap_row_ok (row : list Z) : Prop :=
  length row = 12%nat ∧ Forall (λ x, x = 0 ∨ x = 1 ∨ x = UNKNOWN) row.

Lemma leap_seconds_rows : Forall leap_row_ok leap_seconds.
Proof. unfold leap_row_ok. apply (bool_decide_unpack _). by vm_compute. Qed.

(** A month has at most one leap second, and asking about one never reads out
    of the table. *)
Lemma get_leap_second_maybe_ok y m :
  0 <= m < 12 →
  ∃ l, get_leap_second_maybe y m = Ret l ∧ (l = 0 ∨ l = 1 ∨ l = UNKNOWN).
Proof.
  intros Hm. unfold get_leap_second_maybe. case_if; [eauto|]. case_if; [eauto|].
  destruct (index_ok leap_seconds (y - 1970)) as (row & -> & Hrow); [lia|].
  destruct (Forall_lookup_1 _ _ _ _ leap_seconds_rows Hrow) as [Hlen Hall].
  destruct (index_ok row m) as (l & Hl & Hlook); [lia|].
  exists l. split; [exact Hl|]. exact (Forall_lookup_1 _ _ _ _ Hall Hlook).
Qed.

Definition leap_of (y m : Z) : Z :=
  match get_leap_second y m with Ret l => l | _ => 0 end.

Lemma get_leap_second_ok y m :
  0 <= m < 12 → get_leap_second y m = Ret (leap_of y m) ∧ 0 <= leap_of y m <= 1.
Proof.
  intros Hm. unfold leap_of, get_leap_second.
  destruct (get_leap_second_maybe_ok y m Hm) as (l & -> & Hl). simpl.
  split; [done|]. unfold UNKNOWN in *. case_if; lia.
Qed.

(** The reference month lengths. *)
Definition mdays (y m : Z) : Z :=
  nth (Z.to_nat m) month_days_list 0 + (if (m =? 1) && is_leap_year y then 1 else 0).

Lemma month_cases m :
  0 <= m < 12 → m = 0 ∨ m = 1 ∨ m = 2 ∨ m = 3 ∨ m = 4 ∨ m = 5 ∨ m = 6 ∨ m = 7 ∨
                m = 8 ∨ m = 9 ∨ m = 10 ∨ m = 11.
Proof. lia. Qed.

Lemma days_in_month_ok y m :
  0 <= m < 12 → days_in_month y m = Ret (mdays y m) ∧ 28 <= mdays y m <= 31.
Proof.
  intros Hm%month_cases. unfold days_in_month, mdays.
  destruct_or! Hm; subst; simpl; (split; [done|]); destruct (is_leap_year y); lia.
Qed.

Definition msecs (y m : Z) : Z := mdays y m * 86400 + leap_of y m.

(** Sums over the months [0 .. n-1] of a year. *)
Fixpoint sum_months (f : Z → Z) (n : nat) : Z :=
  match n with O => 0 | S n => sum_months f n + f (Z.of_nat n) end.

Lemma leap_seconds_in_year_from_ok y n i :
  (i + n <= 12)%nat →
  leap_seconds_in_year_from n y (Z.of_nat i) (sum_months (leap_of y) i) =
  Ret (sum_months (leap_of y) (i + n)).
Proof.
  revert i. induction n as [|n IH]; intros i Hi; cbn [leap_seconds_in_year_from].
  { by rewrite Nat.add_0_r. }
  rewrite (proj1 (get_leap_second_ok y (Z.of_nat i) ltac:(lia))). simpl.
  replace (Z.of_nat i + 1) with (Z.of_nat (S i)) by lia.
  change (sum_months _ i + _) with (sum_months (leap_of y) (S i)).
  rewrite IH by lia. do 2 f_equal. lia.
Qed.

Lemma leap_seconds_in_year_ok y :
  leap_seconds_in_year y = Ret (sum_months (leap_of y) 12).
Proof. exact (leap_seconds_in_year_from_ok y 12 0 ltac:(lia)). Qed.

Definition ysecs (y : Z) : Z := days_in_year y * 86400 + sum_months (leap_of y) 12.

Lemma year_seconds_of_ok y : year_seconds_of y = Ret (ysecs y).
Proof.
  unfold year_seconds_of. rewrite leap_seconds_in_year_ok. simpl.
  f_equal. unfold ysecs. simpl. lia.
Qed.

Lemma days_in_year_months y : days_in_year y = sum_months (mdays y) 12.
Proof. unfold days_in_year. simpl. unfold mdays. simpl. lia. Qed.

Lemma ysecs_months y : ysecs y = sum_months (msecs y) 12.
Proof. unfold ysecs. rewrite days_in_year_months. simpl. unfold msecs. lia. Qed.

Lemma msecs_range y m : 0 <= m < 12 → 28 * 86400 <= msecs y m <= 31 * 86400 + 1.
Proof.
  intros Hm. unfold msecs. pose proof (proj2 (get_leap_second_ok y m Hm)).
  pose proof (proj2 (days_in_month_ok y m Hm)). lia.
Qed.

Lemma leaps_range y n :
  (n <= 12)%nat → 0 <= sum_months (leap_of y) n <= Z.of_nat n.
Proof.
  induction n as [|n IH]; intros Hn; [simpl; lia|].
  cbn [sum_months]. pose proof (proj2 (get_leap_second_ok y (Z.of_nat n) ltac:(lia))).
  specialize (IH ltac:(lia)). lia.
Qed.

Lemma ysecs_range y : 365 * 86400 <= ysecs y <= 366 * 86400 + 12.
Proof.
  unfold ysecs, days_in_year. pose proof (leaps_range y 12 ltac:(lia)).
  destruct (is_leap_year y); lia.
Qed.

(** Seconds and days from the epoch to the start of a year [n] years later
    (or earlier). *)
Fixpoint sum_years (f : Z → Z) (n : nat) (y : Z) : Z :=
  match n with O => 0 | S n => f y + sum_years f n (y + 1) end.

Definition from_epoch (f : Z → Z) (y : Z) : Z :=
  if 1970 <=? y then sum_years f (Z.to_nat (y - 1970)) 1970
  else - sum_years f (Z.to_nat (1970 - y)) y.

Lemma sum_years_snoc f n y : sum_years f (S n) y = sum_years f n y + f (y + Z.of_nat n).
Proof.
  revert y. induction n as [|n IH]; intros y.
  { replace (y + Z.of_nat 0) with y by lia. simpl. lia. }
  cbn [sum_years] in *. rewrite IH.
  replace (y + 1 + Z.of_nat n) with (y + Z.of_nat (S n)) by lia. lia.
Qed.

Lemma from_epoch_epoch f : from_epoch f 1970 = 0.
Proof. done. Qed.

Lemma from_epoch_succ f y : from_epoch f (y + 1) = from_epoch f y + f y.
Proof.
  unfold from_epoch. destruct (Z.leb_spec 1970 y).
  - rewrite (proj2 (Z.leb_le _ _)) by lia.
    replace (Z.to_nat (y + 1 - 1970)) with (S (Z.to_nat (y - 1970))) by lia.
    rewrite sum_years_snoc. do 2 f_equal. lia.
  - replace (Z.to_nat (1970 - y)) with (S (Z.to_nat (1970 - (y + 1)))) by lia.
    cbn [sum_years]. case_if; [|lia].
    assert (y + 1 = 1970) as -> by lia. simpl. lia.
Qed.

(** ** The loops of [gmtime_r]

    Each loop keeps [t] split between what is left and the years or months
    already passed, and leaves a remainder below the next unit. *)

Definition wday_of (days : Z) : Z := (4 + days) mod 7.

Lemma wday_step d k : 0 <= k → Z.rem (wday_of d + k) 7 = wday_of (d + k).
Proof.
  intros. unfold wday_of. pose proof (Z.mod_pos_bound (4 + d) 7).
  rewrite Z.rem_mod_nonneg by lia. rewrite Z.add_mod_idemp_l by lia. f_equal. lia.
Qed.

Lemma days_in_year_range y : 365 <= days_in_year y <= 366.
Proof. unfold days_in_year. destruct (is_leap_year y); lia. Qed.

Definition ydays_from_epoch := from_epoch days_in_year.
Definition ysecs_from_epoch := from_epoch ysecs.

(** The timestamps whose year fits an [int] with room to spare: 2^55 seconds
    are a little over 1.14e9 years of 365 days. *)
Definition time_bound : Z := 2 ^ 55.

Lemma checked_year y : Z.abs (y - 1970) <= 2 ^ 30 + 2 ^ 27 → checked 32 y = Ret y.
Proof. intros. apply checked_ok. unfold in_s. lia. Qed.

Lemma gmtime_years_after_ok fuel left year wday :
  0 <= left → 1970 <= year →
  left / (365 * 86400) < Z.of_nat fuel →
  year - 1970 + left / (365 * 86400) <= 2 ^ 30 + 2 ^ 27 →
  wday = wday_of (ydays_from_epoch year) →
  ∃ left' year',
    gmtime_years_after fuel left year wday =
      Ret (left', year', wday_of (ydays_from_epoch year')) ∧
    1970 <= year' ∧ 0 <= left' < ysecs year' ∧
    left' + ysecs_from_epoch year' = left + ysecs_from_epoch year ∧
    year' - 1970 <= 2 ^ 30 + 2 ^ 27.
Proof.
  revert left year wday. induction fuel as [|fuel IH]; intros left year wday Hl Hy Hf Hb ->.
  { pose proof (Z.div_pos left (365 * 86400)). lia. }
  cbn [gmtime_years_after]. pose proof (ysecs_range year).
  pose proof (Z.div_pos left (365 * 86400) Hl ltac:(lia)).
  destruct (Z.ltb_spec 0 left); [|exists left, year; repeat split; lia].
  rewrite year_seconds_of_ok. simpl.
  destruct (Z.leb_spec (ysecs year) left); [|exists left, year; repeat split; lia].
  assert ((left - ysecs year) / (365 * 86400) <= left / (365 * 86400) - 1).
  { replace (left / (365 * 86400) - 1) with ((left + (-1) * (365 * 86400)) / (365 * 86400))
      by (rewrite Z.div_add; lia).
    apply Z.div_le_mono; lia. }
  pose proof (Z.div_pos (left - ysecs year) (365 * 86400)).
  rewrite checked_year by lia. simpl. pose proof (days_in_year_range year).
  destruct (IH (left - ysecs year) (year + 1)
               (Z.rem (wday_of (ydays_from_epoch year) + days_in_year year) 7))
    as (l' & y' & He & Hy' & Hl' & Hs & Hb'); try lia.
  { rewrite wday_step by lia. unfold ydays_from_epoch. by rewrite from_epoch_succ. }
  exists l', y'. repeat split; try done; try lia.
  unfold ysecs_from_epoch in *. rewrite from_epoch_succ in Hs. lia.
Qed.

Lemma wday_step_back y d :
  Z.rem (wday_of d - days_in_year y + 7*7*7*7) 7 = wday_of (d - days_in_year y).
Proof.
  pose proof (days_in_year_range y). unfold wday_of.
  pose proof (Z.mod_pos_bound (4 + d) 7 ltac:(lia)).
  rewrite Z.rem_mod_nonneg by lia.
  rewrite <- (Z.mod_add (4 + (d - days_in_year y)) (7*7*7) 7) by lia.
  rewrite <- Z.add_sub_swap, <- Z.add_sub_assoc.
  rewrite Z.add_mod_idemp_l by lia. f_equal. lia.
Qed.

Lemma gmtime_years_before_ok fuel left year :
  left < ysecs year →
  (1 <= fuel)%nat → - left <= (Z.of_nat fuel - 1) * (365 * 86400) →
  Z.abs (year - 1970) <= 2 ^ 30 + 2 ^ 27 →
  left < 0 → 1970 - year + Z.of_nat fuel - 1 <= 2 ^ 30 + 2 ^ 27 ∧ year <= 1970 →
  ∃ left' year',
    gmtime_years_before fuel left year (wday_of (ydays_from_epoch year)) =
      Ret (left', year', wday_of (ydays_from_epoch year')) ∧
    0 <= left' < ysecs year' ∧
    left' + ysecs_from_epoch year' = left + ysecs_from_epoch year ∧
    Z.abs (year' - 1970) <= 2 ^ 30 + 2 ^ 27 ∧ year' <= 1969.
Proof.
  revert left year. induction fuel as [|fuel IH]; intros left year Hs Hf Hm Hb Hneg [Hy Hle]; [lia|].
  cbn [gmtime_years_before]. pose proof (ysecs_range (year - 1)).
  rewrite (proj2 (Z.ltb_lt _ _)) by lia. rewrite checked_year by lia. simpl.
  rewrite year_seconds_of_ok. simpl. rewrite wday_step_back.
  assert (Hsec : ysecs_from_epoch year = ysecs_from_epoch (year - 1) + ysecs (year - 1)).
  { unfold ysecs_from_epoch. rewrite <- from_epoch_succ. f_equal. lia. }
  assert (Hday : ydays_from_epoch year - days_in_year (year - 1) = ydays_from_epoch (year - 1)).
  { unfold ydays_from_epoch. replace year with (year - 1 + 1) at 1 by lia.
    rewrite from_epoch_succ. lia. }
  rewrite Hday.
  destruct (Z.ltb_spec (left + ysecs (year - 1)) 0).
  - destruct (IH (left + ysecs (year - 1)) (year - 1)) as (l' & y' & He & ?); try lia.
    exists l', y'. split; [exact He|]. lia.
  - exists (left + ysecs (year - 1)), (year - 1).
    destruct fuel as [|fuel]; [lia|]. cbn [gmtime_years_before].
    rewrite (proj2 (Z.ltb_ge _ _)) by lia. split; [done|]. lia.
Qed.

(** The month loop, from month [mon] on. *)
Lemma gmtime_months_ok year fuel mon left (k : nat) wday days :
  mon = Z.of_nat k → (k < 12)%nat → (12 <= k + fuel)%nat →
  0 <= left → left + sum_months (msecs year) k < ysecs year →
  wday = wday_of (days + sum_months (mdays year) k) →
  ∃ left' (k' : nat),
    gmtime_months fuel year left mon (sum_months (mdays year) k) wday =
      Ret (left', Z.of_nat k', sum_months (mdays year) k',
           wday_of (days + sum_months (mdays year) k')) ∧
    (k' < 12)%nat ∧ 0 <= left' < msecs year (Z.of_nat k') ∧
    left' + sum_months (msecs year) k' = left + sum_months (msecs year) k.
Proof.
  revert mon left k wday.
  induction fuel as [|fuel IH]; intros mon left k wday -> Hk Hf Hl Hs ->; [lia|].
  cbn [gmtime_months].
  destruct (get_leap_second_ok year (Z.of_nat k)) as [-> _]; [lia|].
  destruct (days_in_month_ok year (Z.of_nat k)) as [-> Hd]; [lia|]. simpl.
  replace (mdays year (Z.of_nat k) * 24 * 60 * 60 + leap_of year (Z.of_nat k))
    with (msecs year (Z.of_nat k)) by (unfold msecs; lia).
  destruct (Z.leb_spec (msecs year (Z.of_nat k)) left); [|exists left, k; repeat split; lia].
  assert (k ≠ 11%nat).
  { intros ->. rewrite ysecs_months in Hs. cbn [sum_months] in Hs. lia. }
  replace (Z.of_nat k + 1) with (Z.of_nat (S k)) by lia.
  rewrite wday_step by lia.
  destruct (IH (Z.of_nat (S k)) (left - msecs year (Z.of_nat k)) (S k)
               (wday_of (days + sum_months (mdays year) k + mdays year (Z.of_nat k))))
    as (l' & k' & He & Hk' & Hl' & Hs'); try lia.
  { cbn [sum_months]. lia. }
  { f_equal. cbn [sum_months]. lia. }
  exists l', k'. split; [exact He|]. cbn [sum_months] in Hs'. lia.
Qed.

(** ** Reference semantics of a broken-down time *)

(** The instant a broken-down time denotes, counting leap seconds. *)
Definition civil_seconds (t : tm) : Z :=
  let y := tm_year t + 1900 in
  ysecs_from_epoch y + sum_months (msecs y) (Z.to_nat (tm_mon t)) +
  (tm_mday t - 1) * 86400 + tm_hour t * 3600 + tm_min t * 60 + tm_sec t.

(** The normal form: every field in its range, [tm_sec] = 60 only in a leap
    second at the end of a month that has one, and the derived day fields
    agreeing with the date. *)
Definition tm_normal (t : tm) : Prop :=
  let y := tm_year t + 1900 in
  0 <= tm_mon t < 12 ∧
  1 <= tm_mday t <= mdays y (tm_mon t) ∧
  0 <= tm_hour t <= 23 ∧ 0 <= tm_min t <= 59 ∧
  (0 <= tm_sec t <= 59 ∨
   tm_sec t = 60 ∧ tm_min t = 59 ∧ tm_hour t = 23 ∧
   tm_mday t = mdays y (tm_mon t) ∧ leap_of y (tm_mon t) = 1) ∧
  tm_yday t = sum_months (mdays y) (Z.to_nat (tm_mon t)) + tm_mday t - 1 ∧
  tm_wday t = wday_of (ydays_from_epoch y + tm_yday t) ∧
  tm_isdst t = -1.

(** What is done with the seconds left in the month. *)
Lemma gmtime_day_ok y (k : nat) left :
  (k < 12)%nat → 0 <= left < msecs y (Z.of_nat k) →
  Z.abs (y - 1970) <= 2 ^ 30 + 2 ^ 27 →
  let r := (dim ← days_in_month y (Z.of_nat k);
    let left_ := Z.rem left (24 * 60 * 60) in
    let mday := Z.quot left (24 * 60 * 60) in
    let '(mday, yday, hour, min, sec) :=
      if mday <? dim then
        (mday, sum_months (mdays y) k + mday, Z.quot left_ (60 * 60),
         Z.quot (Z.rem left_ (60 * 60)) 60, Z.rem (Z.rem left_ (60 * 60)) 60)
      else
        let mday := mday - 1 in (mday, sum_months (mdays y) k + mday, 23, 59, 60) in
    let wday := Z.rem (wday_of (ydays_from_epoch y + sum_months (mdays y) k) + mday) 7 in
    year' ← checked 32 (y - 1900);
    Ret (Tm sec min hour (mday + 1) (Z.of_nat k) year' wday yday (-1))) in
  ∃ t, r = Ret t ∧ tm_normal t ∧ tm_year t + 1900 = y ∧
       civil_seconds t = ysecs_from_epoch y + sum_months (msecs y) k + left.
Proof.
  intros Hk Hl Hy. cbv zeta.
  destruct (days_in_month_ok y (Z.of_nat k)) as [-> Hd]; [lia|].
  destruct (get_leap_second_ok y (Z.of_nat k)) as [_ Hleap]; [lia|].
  unfold msecs in Hl. cbn [mbind outcome_bind].
  rewrite Z.quot_div_nonneg, Z.rem_mod_nonneg by lia.
  set (d := left / (24 * 60 * 60)). set (r := left mod (24 * 60 * 60)).
  assert (Hdr : left = 86400 * d + r) by (unfold d, r; apply Z.div_mod; lia).
  assert (0 <= r < 86400) by (unfold r; apply Z.mod_pos_bound; lia).
  assert (0 <= d) by (unfold d; apply Z.div_pos; lia). clearbody d r.
  destruct (Z.ltb_spec d (mdays y (Z.of_nat k))).
  - rewrite (Z.quot_div_nonneg r) by lia. rewrite (Z.rem_mod_nonneg r) by lia.
    set (h := r / (60 * 60)). set (r' := r mod (60 * 60)).
    assert (r = 3600 * h + r') by (unfold h, r'; apply Z.div_mod; lia).
    assert (0 <= r' < 3600) by (unfold r'; apply Z.mod_pos_bound; lia).
    clearbody h r'.
    rewrite Z.quot_div_nonneg, Z.rem_mod_nonneg by lia.
    pose proof (Z.div_mod r' 60 ltac:(lia)). pose proof (Z.mod_pos_bound r' 60 ltac:(lia)).
    rewrite wday_step by lia. rewrite checked_ok by (unfold in_s; lia).
    eexists. split; [reflexivity|]. unfold tm_normal, civil_seconds. simpl.
    replace (y - 1900 + 1900) with y by lia. rewrite Nat2Z.id.
    split_and!; try lia. f_equal; lia.
  - assert (leap_of y (Z.of_nat k) = 1) by lia.
    assert (d = mdays y (Z.of_nat k)) as -> by lia.
    rewrite wday_step by lia. rewrite checked_ok by (unfold in_s; lia).
    eexists. split; [reflexivity|]. unfold tm_normal, civil_seconds. simpl.
    replace (y - 1900 + 1900) with y by lia. rewrite Nat2Z.id.
    split_and!; try lia. f_equal; lia.
Qed.

Lemma year_fuel_enough t :
  Z.abs t <= time_bound →
  (1 <= year_fuel t)%nat ∧
  Z.abs t / (365 * 86400) < Z.of_nat (year_fuel t) ∧
  Z.abs t <= (Z.of_nat (year_fuel t) - 1) * (365 * 86400) ∧
  Z.of_nat (year_fuel t) <= 2 ^ 30 + 2 ^ 27 ∧
  Z.abs t / (365 * 86400) <= 2 ^ 30 + 2 ^ 27.
Proof.
  unfold year_fuel, time_bound. intros Ht.
  pose proof (Z.div_mod (Z.abs t) (365 * 86400) ltac:(lia)).
  pose proof (Z.mod_pos_bound (Z.abs t) (365 * 86400) ltac:(lia)). lia.
Qed.

(** The two year loops together. *)
Lemma gmtime_years_ok t :
  Z.abs t <= time_bound →
  ∃ left1 y1 wd1 left year,
    gmtime_years_after (year_fuel t) t 1970 4 = Ret (left1, y1, wd1) ∧
    gmtime_years_before (year_fuel t) left1 y1 wd1 =
      Ret (left, year, wday_of (ydays_from_epoch year)) ∧
    0 <= left < ysecs year ∧ left + ysecs_from_epoch year = t ∧
    Z.abs (year - 1970) <= 2 ^ 30 + 2 ^ 27 ∧ (0 <= t ↔ 1970 <= year).
Proof.
  intros Ht. destruct (year_fuel_enough t Ht) as (Hf1 & Hf2 & Hf3 & Hf4 & Hf5).
  destruct (year_fuel t) as [|fuel] eqn:Ef; [lia|].
  destruct (Z.ltb_spec t 0).
  - exists t, 1970, 4.
    destruct (gmtime_years_before_ok (S fuel) t 1970) as (l & y & He & ?); try lia.
    { pose proof (ysecs_range 1970). lia. }
    exists l, y. split.
    { cbn [gmtime_years_after]. by rewrite (proj2 (Z.ltb_ge _ _)) by lia. }
    split; [exact He|]. unfold ysecs_from_epoch in *. rewrite from_epoch_epoch in *. lia.
  - rewrite Z.abs_eq in * by lia.
    destruct (gmtime_years_after_ok (S fuel) t 1970 4) as (l & y & He & ?);
      [lia..|done|].
    exists l, y, (wday_of (ydays_from_epoch y)), l, y. split; [exact He|].
    split; [cbn [gmtime_years_before]; by rewrite (proj2 (Z.ltb_ge _ _)) by lia|].
    unfold ysecs_from_epoch in *. rewrite from_epoch_epoch in *. lia.
Qed.

Lemma gmtime_r_spec t :
  Z.abs t <= time_bound →
  ∃ r, gmtime_r t = Ret r ∧ tm_normal r ∧ civil_seconds r = t ∧
       (0 <= t ↔ 1970 <= tm_year r + 1900) ∧
       Z.abs (tm_year r + 1900 - 1970) <= 2 ^ 30 + 2 ^ 27.
Proof.
  intros Ht. unfold gmtime_r.
  destruct (gmtime_years_ok t Ht) as (l1 & y1 & w1 & l & y & -> & E2 & Hl & Hs & Hy & Hsgn).
  cbn [mbind outcome_bind]. rewrite E2. cbn [mbind outcome_bind].
  destruct (gmtime_months_ok y 13 0 l 0 (wday_of (ydays_from_epoch y)) (ydays_from_epoch y))
    as (l' & k & E3 & Hk & Hl' & Hs'); try done; try lia.
  { simpl. lia. }
  { simpl. f_equal. lia. }
  change (sum_months (mdays y) 0) with 0 in E3. rewrite E3. cbn [mbind outcome_bind].
  destruct (gmtime_day_ok y k l' Hk Hl' Hy) as (r & Hr & Hn & Hyr & Hc).
  exists r. split; [exact Hr|]. rewrite Hyr. cbn [sum_months] in Hs'.
  split_and!; try done; lia.
Qed.

(** ** [timegm] *)

Lemma timegm_years_ok n y ret : timegm_years n y ret = Ret (ret + sum_years ysecs n y).
Proof.
  revert y ret. induction n as [|n IH]; intros y ret; cbn [timegm_years sum_years].
  { f_equal. lia. }
  rewrite year_seconds_of_ok. simpl. rewrite IH. f_equal. lia.
Qed.

Lemma timegm_months_ok y n (k : nat) ret :
  (k + n <= 12)%nat →
  timegm_months n y (Z.of_nat k) (ret + sum_months (msecs y) k) =
  Ret (ret + sum_months (msecs y) (k + n)).
Proof.
  revert k. induction n as [|n IH]; intros k Hk; cbn [timegm_months].
  { by rewrite Nat.add_0_r. }
  destruct (get_leap_second_ok y (Z.of_nat k)) as [-> _]; [lia|].
  destruct (days_in_month_ok y (Z.of_nat k)) as [-> _]; [lia|]. simpl.
  replace (Z.of_nat k + 1) with (Z.of_nat (S k)) by lia.
  replace (ret + sum_months (msecs y) k +
           (mdays y (Z.of_nat k) * 24 * 60 * 60 + leap_of y (Z.of_nat k)))
    with (ret + sum_months (msecs y) (S k)) by (cbn [sum_months]; unfold msecs; lia).
  rewrite IH by lia. do 3 f_equal. lia.
Qed.

(** Month 12 is outside the tables. *)
Lemma get_leap_second_fuel y m : get_leap_second y m ≠ OutOfFuel.
Proof.
  unfold get_leap_second, get_leap_second_maybe, index.
  repeat (case_if; [done|]).
  repeat (simpl; first [done | case_match | case_if]).
Qed.

Lemma timegm_months_overflow n y (k : nat) ret :
  (k <= 12)%nat → (13 <= k + n)%nat → timegm_months n y (Z.of_nat k) ret = Undef.
Proof.
  revert k ret. induction n as [|n IH]; intros k ret Hk Hn; [lia|].
  cbn [timegm_months]. destruct (decide (k = 12%nat)) as [->|].
  - pose proof (get_leap_second_fuel y (Z.of_nat 12)).
    by destruct (get_leap_second y (Z.of_nat 12)).
  - destruct (get_leap_second_ok y (Z.of_nat k)) as [-> _]; [lia|].
    destruct (days_in_month_ok y (Z.of_nat k)) as [-> _]; [lia|].
    cbn [mbind outcome_bind].
    replace (Z.of_nat k + 1) with (Z.of_nat (S k)) by lia. apply IH; lia.
Qed.

(** A broken-down time whose fields are [int]s, with any day, hour, minute and
    second, in a year that leaves the timestamp within bounds. *)
Definition tm_ints (t : tm) : Prop :=
  in_s 32 (tm_mday t - 1) ∧ in_s 32 (tm_hour t) ∧ in_s 32 (tm_min t) ∧ in_s 32 (tm_sec t) ∧
  0 <= tm_mon t <= 12.

Lemma sum_months_msecs_range y n :
  (n <= 12)%nat → 0 <= sum_months (msecs y) n <= Z.of_nat n * (31 * 86400 + 1).
Proof.
  induction n as [|n IH]; intros Hn; [simpl; lia|]. cbn [sum_months].
  pose proof (msecs_range y (Z.of_nat n) ltac:(lia)). specialize (IH ltac:(lia)). lia.
Qed.

Lemma sum_years_ysecs_range n y :
  0 <= sum_years ysecs n y <= Z.of_nat n * (366 * 86400 + 12).
Proof.
  revert y. induction n as [|n IH]; intros y; [simpl; lia|]. cbn [sum_years].
  pose proof (ysecs_range y). specialize (IH (y + 1)). lia.
Qed.

(** The instant [timegm] computes before it normalises: the years loop does
    nothing for a year before the epoch. *)
Definition timegm_seconds (t : tm) : Z :=
  civil_seconds t - Z.min 0 (ysecs_from_epoch (tm_year t + 1900)).

Lemma timegm_seconds_range t :
  tm_ints t → tm_year t + 1900 <= 1970 + 2 ^ 29 → Z.abs (timegm_seconds t) <= time_bound.
Proof.
  unfold tm_ints, in_s, timegm_seconds, civil_seconds, time_bound.
  intros (? & ? & ? & ? & ?) Hy. unfold ysecs_from_epoch, from_epoch.
  pose proof (sum_months_msecs_range (tm_year t + 1900) (Z.to_nat (tm_mon t)) ltac:(lia)).
  case_if.
  - pose proof (sum_years_ysecs_range (Z.to_nat (tm_year t + 1900 - 1970)) 1970). lia.
  - pose proof (sum_years_ysecs_range (Z.to_nat (1970 - (tm_year t + 1900))) (tm_year t + 1900)).
    lia.
Qed.

Lemma timegm_spec t :
  tm_ints t → in_s 32 (tm_year t + 1900) → Z.abs (timegm_seconds t) <= time_bound →
  ∃ t', gmtime_r (timegm_seconds t) = Ret t' ∧ timegm t = Ret (timegm_seconds t, t') ∧ tm_normal t' ∧
        civil_seconds t' = timegm_seconds t.
Proof.
  intros Ht Hy Hr. destruct Ht as (Hd & _ & _ & _ & Hm). unfold timegm.
  rewrite (checked_ok _ _ Hy), (checked_ok _ _ Hd). cbn [mbind outcome_bind].
  rewrite timegm_years_ok. cbn [mbind outcome_bind].
  set (y := tm_year t + 1900) in *.
  pose proof (timegm_months_ok y (Z.to_nat (tm_mon t)) 0
    (0 + sum_years ysecs (Z.to_nat (y - 1970)) 1970) ltac:(lia)) as Hmon.
  cbn [sum_months Nat.add] in Hmon. change (Z.of_nat 0) with 0 in Hmon. rewrite Z.add_0_r in Hmon. rewrite Hmon.
  cbn [mbind outcome_bind].
  match goal with |- context [gmtime_r (?e + tm_sec t)] =>
    assert (He : e + tm_sec t = timegm_seconds t)
  end.
  { unfold timegm_seconds, civil_seconds, ysecs_from_epoch, from_epoch. fold y.
    destruct (Z.leb_spec 1970 y).
    - pose proof (sum_years_ysecs_range (Z.to_nat (y - 1970)) 1970). lia.
    - replace (Z.to_nat (y - 1970)) with O by lia. cbn [sum_years].
      pose proof (sum_years_ysecs_range (Z.to_nat (1970 - y)) y). lia. }
  rewrite He. destruct (gmtime_r_spec (timegm_seconds t) Hr) as (t' & Hg & Hn & Hc & _).
  exists t'. by rewrite Hg.
Qed.

Lemma ysecs_from_epoch_sign y :
  (1970 <= y → 0 <= ysecs_from_epoch y) ∧
  (y < 1970 → ysecs_from_epoch y <= - (365 * 86400)).
Proof.
  unfold ysecs_from_epoch, from_epoch. split; intros; case_if; try lia.
  - apply sum_years_ysecs_range.
  - destruct (Z.to_nat (1970 - y)) as [|n] eqn:E; [lia|]. cbn [sum_years].
    pose proof (ysecs_range y). pose proof (sum_years_ysecs_range n (y + 1)). lia.
Qed.

Lemma tm_normal_ints t : tm_normal t → tm_ints t.
Proof.
  unfold tm_normal, tm_ints, in_s. intros (Hm & Hd & Hh & Hmin & Hs & _).
  pose proof (proj2 (days_in_month_ok (tm_year t + 1900) (tm_mon t) Hm)). lia.
Qed.

(** ** Leap second adjustments *)

(** The two month loops, run in step on [t] and on [t] plus the leap seconds
    passed so far, pick the same month. *)
Lemma add_sub_leap_from fuel t year month next offset r t' :
  0 <= month < 12 →
  add_leap_from fuel t year month next offset = Ret (r, t') →
  t + offset <= t' ∧
  sub_leap_from fuel t' year month (next + offset) offset = Ret (r, t).
Proof.
  revert year month next offset.
  induction fuel as [|fuel IH]; intros year month next offset Hm; [done|].
  cbn [add_leap_from sub_leap_from].
  destruct (days_in_month_ok year month Hm) as [-> _].
  destruct (get_leap_second_maybe_ok year month Hm) as (leap & -> & Hl).
  cbn [mbind outcome_bind]. unfold UNKNOWN in *.
  destruct (Z.eqb_spec leap 127) as [->|Hneq].
  { intros [= <- <-]. split; [lia|]. do 2 f_equal; [|lia].
    repeat case_if; lia. }
  assert (0 <= leap <= 1) by lia. clear Hl.
  set (s := mdays year month * 24 * 60 * 60).
  destruct (Z.ltb_spec t (next + s)).
  { intros [= <- <-]. split; [lia|].
    rewrite (proj2 (Z.ltb_lt _ _)) by lia. do 2 f_equal; [|lia].
    repeat case_if; lia. }
  destruct (Z.ltb_spec (month + 1) 12); intros Hadd;
    apply IH in Hadd as [Hle Hsub]; try lia;
    (split; [lia|]); rewrite (proj2 (Z.ltb_ge _ _)) by lia;
    rewrite <- Hsub; f_equal; lia.
Qed.

(** The loop does not run out of months: the table's last entry is unknown. *)
Lemma add_leap_from_total fuel t year month next offset :
  0 <= month < 12 → (1 <= fuel)%nat →
  Z.of_nat fuel + (year - 1970) * 12 + month = Z.of_nat leap_fuel →
  ∃ r t', add_leap_from fuel t year month next offset = Ret (r, t') ∧ (r = 1 ∨ r = -1).
Proof.
  change (Z.of_nat leap_fuel) with 648. revert year month next offset.
  induction fuel as [|fuel IH]; intros year month next offset Hm Hf Hsum; [lia|].
  cbn [add_leap_from]. destruct (days_in_month_ok year month Hm) as [-> _].
  destruct (get_leap_second_maybe_ok year month Hm) as (leap & El & Hl).
  rewrite El. cbn [mbind outcome_bind].
  case_if; [do 2 eexists; split; [done|]; case_if; lia|].
  assert (fuel ≠ O).
  { intros ->. assert (year = 2023) as -> by lia. assert (month = 11) as -> by lia.
    vm_compute in El. injection El as <-. by destruct Eif. }
  case_if; [do 2 eexists; split; [done|]; unfold UNKNOWN in *; repeat case_if; lia|].
  case_if; apply IH; lia.
Qed.

(** ** The theorems *)

(** From the epoch on [gmtime_r] and [timegm] are inverse, on normal fields. *)
Lemma timegm_inverse t :
  0 <= t <= time_bound → ∃ r, gmtime_r t = Ret r ∧ tm_normal r ∧ 1970 <= tm_year r + 1900 <= 1970 + 2 ^ 30 + 2 ^ 27 ∧
    timegm r = Ret (t, r).
Proof.
  intros Ht. destruct (gmtime_r_spec t) as (r & Hr & Hn & Hc & Hsgn & Hy); [lia|].
  exists r. split; [exact Hr|]. split; [done|]. split; [lia|].
  assert (Hs : timegm_seconds r = t).
  { unfold timegm_seconds. pose proof (ysecs_from_epoch_sign (tm_year r + 1900)). lia. }
  destruct (timegm_spec r) as (r' & Hr' & Hg & _);
    [by apply tm_normal_ints|unfold in_s; lia|lia|].
  rewrite Hg, Hs. rewrite Hs, Hr in Hr'. by injection Hr' as <-.
Qed.

(** C31.  Converting a timestamp to a broken-down time and back gives the timestamp,
    and [timegm]'s normalisation leaves the broken-down time as it was, for the
    timestamps from the epoch to 2^55 seconds after it ([time_bound], a little
    over 10^9 years).  Up to this bound both calls terminate, without overflow of
    the [int] year or an access outside the month tables; well past it, from
    about 2^56 on, the year no longer fits an [int]. *)
Theorem timegm_gmtime_r t :
  0 <= t <= time_bound → ∃ r, gmtime_r t = Ret r ∧ timegm r = Ret (t, r).
Proof. intros Ht. destruct (timegm_inverse t Ht) as (r & ? & _ & _ & ?). by exists r. Qed.

Lemma timegm_gmtime_r_witness :
  ∃ r, gmtime_r 1700000000 = Ret r ∧ timegm r = Ret (1700000000, r).
Proof. apply (timegm_gmtime_r 1700000000). unfold time_bound. lia. Defined.

(** [gmtime_r] is total on the bounded timestamps, before the epoch too:
    the fields are normal (ranges, leap second only where the table has one,
    day of the week and of the year agreeing with the date) and the
    broken-down time denotes exactly the timestamp. *)
Theorem gmtime_r_correct t :
  Z.abs t <= time_bound →
  ∃ r, gmtime_r t = Ret r ∧ tm_normal r ∧ civil_seconds r = t.
Proof. intros Ht. destruct (gmtime_r_spec t Ht) as (r & ? & ? & ? & _). eauto. Qed.

Lemma gmtime_r_correct_witness :
  ∃ r, gmtime_r (-1) = Ret r ∧ tm_normal r ∧ civil_seconds r = -1.
Proof. apply (gmtime_r_correct (-1)). unfold time_bound. lia. Defined.

(** [timegm] on any day, hour, minute and second of a month in a year
    from 1970 on returns the instant the fields denote, and replaces the
    fields by the normal form of that instant. *)
Theorem timegm_normalises t :
  tm_ints t → 1970 <= tm_year t + 1900 <= 1970 + 2 ^ 29 →
  ∃ t', timegm t = Ret (civil_seconds t, t') ∧ tm_normal t' ∧
        civil_seconds t' = civil_seconds t.
Proof.
  intros Ht Hy. assert (Hs : timegm_seconds t = civil_seconds t).
  { unfold timegm_seconds. pose proof (ysecs_from_epoch_sign (tm_year t + 1900)). lia. }
  destruct (timegm_spec t) as (t' & _ & Hg & Hn & Hc);
    [done|unfold in_s; lia|apply timegm_seconds_range; [done|lia]|].
  exists t'. by rewrite Hg, Hc, Hs.
Qed.

(** The 60th of February 2023, 100 seconds past 25 o'clock. *)
Definition odd_tm : tm := Tm 100 0 25 60 1 123 0 0 0.

Lemma timegm_normalises_witness :
  ∃ t', timegm odd_tm = Ret (civil_seconds odd_tm, t') ∧ tm_normal t' ∧
        civil_seconds t' = civil_seconds odd_tm.
Proof. apply (timegm_normalises odd_tm); [unfold tm_ints, in_s|]; simpl; lia. Defined.

(** For a timestamp before the epoch [timegm] does not invert [gmtime_r]:
    its loop over the years starts at 1970 and never subtracts, so the result
    is at least a year too late. *)
Theorem timegm_before_epoch t :
  - time_bound <= t < 0 →
  ∃ r t' r', gmtime_r t = Ret r ∧ timegm r = Ret (t', r') ∧
             t' = t - ysecs_from_epoch (tm_year r + 1900) ∧ t + 365 * 86400 <= t'.
Proof.
  intros Ht. destruct (gmtime_r_spec t) as (r & Hr & Hn & Hc & Hsgn & Hy); [lia|].
  pose proof (proj2 (ysecs_from_epoch_sign (tm_year r + 1900)) ltac:(lia)).
  destruct (timegm_spec r) as (r' & _ & Hg & _).
  { by apply tm_normal_ints. }
  { unfold in_s; lia. }
  { apply timegm_seconds_range; [by apply tm_normal_ints|lia]. }
  exists r, (timegm_seconds r), r'. unfold timegm_seconds in *. split_and!; try done; lia.
Qed.

Lemma timegm_before_epoch_witness :
  ∃ r t' r', gmtime_r (-1) = Ret r ∧ timegm r = Ret (t', r') ∧
             t' = -1 - ysecs_from_epoch (tm_year r + 1900) ∧ -1 + 365 * 86400 <= t'.
Proof. apply (timegm_before_epoch (-1)). unfold time_bound. lia. Defined.

(** [mktime] of a month number past the end of the year (13 or more, which
    callers use to add months) reads outside the month tables instead of
    carrying into the year. *)
Theorem mktime_month_overflow t :
  in_s 32 (tm_year t + 1900) → in_s 32 (tm_mday t - 1) → 13 <= tm_mon t →
  mktime t = Undef.
Proof.
  intros Hy Hd Hm. unfold mktime, timegm.
  rewrite (checked_ok _ _ Hy), (checked_ok _ _ Hd). cbn [mbind outcome_bind].
  rewrite timegm_years_ok. cbn [mbind outcome_bind].
  by rewrite (timegm_months_overflow _ _ 0) by lia.
Qed.

Lemma mktime_month_overflow_witness : mktime (Tm 0 0 0 1 24 123 0 0 0) = Undef.
Proof.
  apply (mktime_month_overflow (Tm 0 0 0 1 24 123 0 0 0)); unfold in_s; simpl; lia.
Defined.

(** Adding leap seconds to a timestamp and removing them again gives the
    timestamp with the same verdict, for every timestamp; both month walks end
    within the table. *)
Theorem leap_seconds_roundtrip t :
  ∃ r t', add_leap_seconds t = Ret (r, t') ∧ (r = 1 ∨ r = -1) ∧
          sub_leap_seconds t' = Ret (r, t).
Proof.
  destruct (add_leap_from_total leap_fuel t 1970 0 0 0) as (r & t' & Ha & Hr);
    [lia|vm_compute; lia|done|].
  exists r, t'. split; [exact Ha|]. split; [exact Hr|].
  by apply add_sub_leap_from in Ha as [_ Ha]; [|lia].
Qed.

End Calendar.
