(* ===== verification/Timespec.v ===== *)
(** * Time intervals: [libc/timespec/timespec.c] and [libc/include/timespec.h]

    Arithmetic on [struct timespec] with its saturation, against the exact
    number of nanoseconds. *)

From S2P Require Import Prelude.
From stdpp Require Import base decidable list.
From Stdlib Require Import ZArith Lia.

#[local] Open Scope Z_scope.

Module Timespec.

Definition NANOSECONDS_PER_SECOND : Z := 1000000000.
Definition TIME_MIN : Z := -9223372036854775808.
Definition TIME_MAX : Z := 9223372036854775807.

Record timespec := Timespec { tv_sec : Z; tv_nsec : Z }.

#[global] Instance timespec_eq_dec : EqDecision timespec.
Proof. solve_decision. Defined.

Definition timespec_is_canonical (t : timespec) : bool :=
  (0 <=? tv_nsec t) && (tv_nsec t <=? 999999999).

Definition timespec_eq (a b : timespec) : bool :=
  (tv_sec a =? tv_sec b) && (tv_nsec a =? tv_nsec b).
Definition timespec_lt (a b : timespec) : bool :=
  (tv_sec a <? tv_sec b) || ((tv_sec a =? tv_sec b) && (tv_nsec a <? tv_nsec b)).
Definition timespec_le (a b : timespec) : bool :=
  (tv_sec a <? tv_sec b) || ((tv_sec a =? tv_sec b) && (tv_nsec a <=? tv_nsec b)).

Definition timespec_make (sec nsec : Z) : timespec := Timespec sec nsec.

Definition timespec_neg (t : timespec) : timespec :=
  if tv_sec t =? TIME_MIN then
    timespec_make TIME_MAX (if tv_nsec t =? 0 then 999999999 else 1000000000 - tv_nsec t)
  else if negb (tv_nsec t =? 0) then
    timespec_make (- tv_sec t - 1) (1000000000 - tv_nsec t)
  else timespec_make (- tv_sec t) 0.

(** [- (unsigned long) a % b] negates in the unsigned type before it takes the
    remainder. *)
Definition proper_modulo (a b : Z) : Z :=
  if 0 <=? a then Z.rem a b
  else let tmp := s64 (u64 (- u64 a) mod u64 b) in
       if negb (tmp =? 0) then tmp else 0.

Definition timespec_canonalize (t : timespec) : outcome timespec :=
  sec ← checked 64 (tv_sec t + Z.quot (tv_nsec t) NANOSECONDS_PER_SECOND);
  Ret (Timespec sec (proper_modulo (tv_nsec t) NANOSECONDS_PER_SECOND)).

(** [__builtin_add_overflow] and [__builtin_sub_overflow] on [time_t]. *)
Definition add_overflow (a b : Z) : option Z := if in_sb 64 (a + b) then Some (a + b) else None.
Definition sub_overflow (a b : Z) : option Z := if in_sb 64 (a - b) then Some (a - b) else None.

(** The [overflow:] labels: the flag and the saturated result. *)
Definition add_saturate (b_sec : Z) : bool * timespec :=
  (true, if b_sec <? 0 then timespec_make TIME_MIN 0
         else timespec_make TIME_MAX (NANOSECONDS_PER_SECOND - 1)).
Definition sub_saturate (b_sec : Z) : bool * timespec :=
  (true, if b_sec >=? 0 then timespec_make TIME_MIN 0
         else timespec_make TIME_MAX (NANOSECONDS_PER_SECOND - 1)).

Definition timespec_add_overflow (a b : timespec) : outcome (bool * timespec) :=
  _ ← guard_def (timespec_is_canonical a && timespec_is_canonical b);
  let finish a_sec b_sec nsec :=
    match add_overflow a_sec b_sec with
    | Some sec => (false, Timespec sec nsec)
    | None => add_saturate b_sec
    end in
  let nsec := tv_nsec a + tv_nsec b in
  Ret (if NANOSECONDS_PER_SECOND <=? nsec then
         let nsec := nsec - NANOSECONDS_PER_SECOND in
         if negb (tv_sec a =? TIME_MAX) then finish (tv_sec a + 1) (tv_sec b) nsec
         else if negb (tv_sec b =? TIME_MAX) then finish (tv_sec a) (tv_sec b + 1) nsec
         else add_saturate (tv_sec b)
       else finish (tv_sec a) (tv_sec b) nsec).

Definition timespec_add (a b : timespec) : outcome timespec :=
  '(_, ret) ← timespec_add_overflow a b; Ret ret.

Definition timespec_sub_overflow (a b : timespec) : outcome (bool * timespec) :=
  _ ← guard_def (timespec_is_canonical a && timespec_is_canonical b);
  let finish a_sec b_sec nsec :=
    match sub_overflow a_sec b_sec with
    | Some sec => (false, Timespec sec nsec)
    | None => sub_saturate b_sec
    end in
  let nsec := tv_nsec a - tv_nsec b in
  Ret (if nsec <? 0 then
         let nsec := nsec + NANOSECONDS_PER_SECOND in
         if negb (tv_sec a =? TIME_MIN) then finish (tv_sec a - 1) (tv_sec b) nsec
         else if negb (tv_sec b =? TIME_MAX) then finish (tv_sec a) (tv_sec b + 1) nsec
         else sub_saturate (tv_sec b)
       else finish (tv_sec a) (tv_sec b) nsec).

Definition timespec_sub (a b : timespec) : outcome timespec :=
  '(_, ret) ← timespec_sub_overflow a b; Ret ret.

(** ** Exact nanoseconds *)

Definition nanos (t : timespec) : Z := tv_sec t * NANOSECONDS_PER_SECOND + tv_nsec t.

(** A canonical [struct timespec] with a [time_t] in range. *)
Definition canonical (t : timespec) : Prop :=
  TIME_MIN <= tv_sec t <= TIME_MAX ∧ 0 <= tv_nsec t <= 999999999.

Definition NANOS_MIN : Z := TIME_MIN * NANOSECONDS_PER_SECOND.
Definition NANOS_MAX : Z := TIME_MAX * NANOSECONDS_PER_SECOND + 999999999.

(** The nearest representable instant. *)
Definition clamp (n : Z) : Z := Z.max NANOS_MIN (Z.min NANOS_MAX n).

Ltac ts_unfold :=
  unfold add_saturate, sub_saturate, add_overflow, sub_overflow, in_sb, canonical, clamp, nanos,
    NANOS_MIN, NANOS_MAX, timespec_make, NANOSECONDS_PER_SECOND, TIME_MIN, TIME_MAX in *;
  change (2 ^ (64 - 1)) with 9223372036854775808 in *.

Lemma canonical_guard a b :
  canonical a → canonical b →
  guard_def (timespec_is_canonical a && timespec_is_canonical b) = Ret ().
Proof.
  unfold canonical, timespec_is_canonical. intros [_ Ha] [_ Hb].
  by rewrite !(proj2 (Z.leb_le _ _)) by lia.
Qed.

(** [timespec_add_overflow] of canonical operands gives the canonical
    instant nearest to the exact sum of nanoseconds, and reports overflow
    exactly when that sum is not representable. *)
Theorem timespec_add_saturates a b :
  canonical a → canonical b →
  ∃ o r, timespec_add_overflow a b = Ret (o, r) ∧ canonical r ∧
         nanos r = clamp (nanos a + nanos b) ∧
         (o = true ↔ ¬ NANOS_MIN <= nanos a + nanos b <= NANOS_MAX).
Proof.
  intros Ha Hb. unfold timespec_add_overflow. rewrite canonical_guard by done.
  cbn [mbind outcome_bind]. do 2 eexists. split; [f_equal; apply surjective_pairing|].
  destruct a as [as_ an], b as [bs bn]. ts_unfold. simpl in *.
  repeat case_if; simpl; lia.
Qed.

Lemma timespec_add_saturates_witness :
  ∃ o r, timespec_add_overflow (Timespec TIME_MAX 999999999) (Timespec 0 1) = Ret (o, r) ∧
         canonical r ∧
         nanos r = clamp (nanos (Timespec TIME_MAX 999999999) + nanos (Timespec 0 1)) ∧
         (o = true ↔ ¬ NANOS_MIN <= nanos (Timespec TIME_MAX 999999999) + nanos (Timespec 0 1)
                        <= NANOS_MAX).
Proof. apply timespec_add_saturates; ts_unfold; simpl; lia. Defined.

(** The same for [timespec_sub_overflow] and the exact difference. *)
Theorem timespec_sub_saturates a b :
  canonical a → canonical b →
  ∃ o r, timespec_sub_overflow a b = Ret (o, r) ∧ canonical r ∧
         nanos r = clamp (nanos a - nanos b) ∧
         (o = true ↔ ¬ NANOS_MIN <= nanos a - nanos b <= NANOS_MAX).
Proof.
  intros Ha Hb. unfold timespec_sub_overflow. rewrite canonical_guard by done.
  cbn [mbind outcome_bind]. do 2 eexists. split; [f_equal; apply surjective_pairing|].
  destruct a as [as_ an], b as [bs bn]. ts_unfold. simpl in *.
  rewrite Z.geb_leb. repeat case_if; simpl; lia.
Qed.

Lemma timespec_sub_saturates_witness :
  ∃ o r, timespec_sub_overflow (Timespec TIME_MIN 0) (Timespec 0 1) = Ret (o, r) ∧
         canonical r ∧
         nanos r = clamp (nanos (Timespec TIME_MIN 0) - nanos (Timespec 0 1)) ∧
         (o = true ↔ ¬ NANOS_MIN <= nanos (Timespec TIME_MIN 0) - nanos (Timespec 0 1) <= NANOS_MAX).
Proof. apply timespec_sub_saturates; ts_unfold; simpl; lia. Defined.

Lemma proper_modulo_neg a :
  in_s 64 a → a < 0 →
  proper_modulo a NANOSECONDS_PER_SECOND = (- a) mod NANOSECONDS_PER_SECOND.
Proof.
  unfold in_s, proper_modulo, wrapu, NANOSECONDS_PER_SECOND. intros Ha Hn.
  rewrite (proj2 (Z.leb_gt _ _)) by lia.
  rewrite (Z.mod_small 1000000000) by lia.
  replace ((- (a mod 2 ^ 64)) mod 2 ^ 64) with (- a).
  2: { rewrite <- (Z.mod_add a 1), (Z.mod_small (a + _)), <- (Z.mod_add _ 1), Z.mod_small by lia.
       lia. }
  pose proof (Z.mod_pos_bound (- a) 1000000000).
  rewrite wraps_id by (unfold in_s; lia). case_if; lia.
Qed.

(** [timespec_canonalize] preserves the instant when [tv_nsec] is not
    negative or is a whole number of seconds; otherwise it takes the remainder
    of the magnitude, so that the result lies twice the missing fraction of a
    second later than its argument. *)
Theorem timespec_canonalize_instant t :
  in_s 64 (tv_nsec t) → TIME_MIN + 2 ^ 34 <= tv_sec t <= TIME_MAX - 2 ^ 34 →
  ∃ r, timespec_canonalize t = Ret r ∧ canonical r ∧
       nanos r = nanos t +
         (if 0 <=? tv_nsec t then 0 else 2 * ((- tv_nsec t) mod NANOSECONDS_PER_SECOND)).
Proof.
  intros Hn Hs. unfold timespec_canonalize.
  assert (Hq : Z.abs (Z.quot (tv_nsec t) NANOSECONDS_PER_SECOND) <= 2 ^ 34).
  { unfold in_s, NANOSECONDS_PER_SECOND in *. destruct (Z.leb_spec 0 (tv_nsec t)).
    - rewrite Z.quot_div_nonneg by lia. Z.div_mod_to_equations. lia.
    - rewrite <- (Z.opp_involutive (tv_nsec t)), Z.quot_opp_l, Z.quot_div_nonneg by lia.
      Z.div_mod_to_equations. lia. }
  rewrite checked_ok by (unfold in_s, TIME_MIN, TIME_MAX in *; lia).
  cbn [mbind outcome_bind]. eexists. split; [done|]. unfold canonical, nanos. simpl.
  destruct (Z.leb_spec 0 (tv_nsec t)).
  - unfold proper_modulo. rewrite (proj2 (Z.leb_le _ _)) by lia.
    unfold NANOSECONDS_PER_SECOND in *.
    rewrite Z.quot_div_nonneg, Z.rem_mod_nonneg in * by lia.
    pose proof (Z.div_mod (tv_nsec t) 1000000000).
    pose proof (Z.mod_pos_bound (tv_nsec t) 1000000000). lia.
  - rewrite proper_modulo_neg by done. unfold NANOSECONDS_PER_SECOND in *.
    assert (Hqq : Z.quot (tv_nsec t) 1000000000 = - (- tv_nsec t / 1000000000)).
    { rewrite <- Z.quot_div_nonneg, <- Z.quot_opp_l by lia. f_equal. lia. }
    rewrite Hqq in *.
    pose proof (Z.div_mod (- tv_nsec t) 1000000000).
    pose proof (Z.mod_pos_bound (- tv_nsec t) 1000000000). lia.
Qed.

Lemma timespec_canonalize_instant_witness :
  ∃ r, timespec_canonalize (Timespec 0 (-1)) = Ret r ∧ canonical r ∧
       nanos r = nanos (Timespec 0 (-1)) +
         (if 0 <=? -1 then 0 else 2 * ((- -1) mod NANOSECONDS_PER_SECOND)).
Proof.
  apply (timespec_canonalize_instant (Timespec 0 (-1)));
    unfold in_s, TIME_MIN, TIME_MAX; simpl; lia.
Defined.

End Timespec.
