(* ===== verification/Wchar.v ===== *)
(** * Multibyte characters: [libc/wchar], [libc/uchar] and [libc/stdlib]

    UTF-8 encoding and decoding with the restartable state [mbstate_t], the
    string conversions on top of them, and UTF-16.  [wchar_t] is the signed
    32-bit type of the x86 ABI, [char] data is its unsigned bytes.  A source
    pointer is the list of bytes from it to the end of the array, so that a
    read past the array is [Undef]; [size_t] results -1 and -2 are the
    constructors [MbIllegal] and [MbPartial]. *)

From S2P Require Import Prelude.
From stdpp Require Import base decidable list numbers.
From Stdlib Require Import ZArith Lia.

#[local] Open Scope Z_scope.

Module Utf8.

Record mbstate := MbState { count : Z; length_ : Z; wch : Z }.

#[global] Instance mbstate_eq_dec : EqDecision mbstate.
Proof. solve_decision. Defined.

(** A zeroed [mbstate_t]. *)
Definition initial : mbstate := MbState 0 0 0.

Inductive mb_result :=
| MbDone (ret wc : Z)      (* [ret] bytes, or 0 for the null character *)
| MbIllegal                (* [errno = EILSEQ], [(size_t) -1] *)
| MbPartial.               (* [(size_t) -2] *)

#[global] Instance mb_result_eq_dec : EqDecision mb_result.
Proof. solve_decision. Defined.

(** The leading byte: the state it leads to, [None] for [EILSEQ]. *)
Definition utf8_lead (uc : Z) : option mbstate :=
  if Z.land uc 0x80 =? 0x00 then Some (MbState 0 1 (Z.land uc 0x7F))
  else if Z.land uc 0xE0 =? 0xC0 then Some (MbState 1 2 (Z.land uc 0x1F))
  else if Z.land uc 0xF0 =? 0xE0 then Some (MbState 2 3 (Z.land uc 0x0F))
  else if Z.land uc 0xF8 =? 0xF0 then Some (MbState 3 4 (Z.land uc 0x07))
  else None.

(** A continuation byte. *)
Definition utf8_continue (uc : Z) (ps : mbstate) : option mbstate :=
  if negb (Z.land uc 0xC0 =? 0x80) then None
  else Some (MbState (count ps - 1) (length_ ps)
               (u32 (Z.lor (Z.shiftl (wch ps) 6) (Z.land uc 0x3F)))).

Definition utf8_byte (uc : Z) (ps : mbstate) : option mbstate :=
  if count ps =? 0 then utf8_lead uc else utf8_continue uc ps.

(** The checks on the assembled character, in the source's order. *)
Definition utf8_reject (ps : mbstate) : bool :=
  ((length_ ps =? 1) && (2 ^ 7 <=? wch ps)) ||
  ((length_ ps =? 2) && (2 ^ (5 + 1 * 6) <=? wch ps)) ||
  ((length_ ps =? 3) && (2 ^ (4 + 2 * 6) <=? wch ps)) ||
  ((length_ ps =? 4) && (2 ^ (3 + 3 * 6) <=? wch ps)) ||
  ((0xD800 <=? wch ps) && (wch ps <=? 0xDFFF)) ||
  (0x10FFFF <=? wch ps).

Definition utf8_finish (i : Z) (ps : mbstate) : mb_result * mbstate :=
  if utf8_reject ps then (MbIllegal, ps)
  else let result := s32 (wch ps) in
       (MbDone (if negb (result =? 0) then i else 0) result, MbState (count ps) 0 0).

(** The [for] loop at index [i]; [s] is the array from index [i] on. *)
Fixpoint utf8_loop (s : list Z) (n i : Z) (ps : mbstate) : outcome (mb_result * mbstate) :=
  if negb (i =? 0) && (count ps =? 0) then Ret (utf8_finish i ps)
  else if n <=? i then Ret (MbPartial, ps)
  else match s with
       | [] => Undef
       | uc :: s => match utf8_byte uc ps with
                    | None => Ret (MbIllegal, ps)
                    | Some ps => utf8_loop s n (i + 1) ps
                    end
       end.

Definition utf8_mbrtowc (s : list Z) (n : Z) (ps : mbstate) : outcome (mb_result * mbstate) :=
  utf8_loop s n 0 ps.

(** [if ( !ps ) ps = &static_ps;]: the operation works on the caller's state,
    or on the function's own. *)
Definition with_static {A} (f : mbstate → outcome (A * mbstate))
    (static : mbstate) (ps : option mbstate) : outcome (A * mbstate * option mbstate) :=
  match ps with
  | Some ps => '(a, ps) ← f ps; Ret (a, static, Some ps)
  | None => '(a, static) ← f static; Ret (a, static, None)
  end.

(** [if ( !s ) s = "", n = 1, pwc = NULL;]. *)
Definition mbrtowc (s : option (list Z)) (n : Z) (ps : mbstate) : outcome (mb_result * mbstate) :=
  match s with
  | None => utf8_mbrtowc [0] 1 ps
  | Some s => utf8_mbrtowc s n ps
  end.

Definition mbrtowc_static (static : mbstate) (s : option (list Z)) (n : Z) (ps : option mbstate) :=
  with_static (mbrtowc s n) static ps.

Definition mbrlen (static : mbstate) (s : option (list Z)) (n : Z) (ps : option mbstate) :=
  with_static (mbrtowc s n) static ps.

Definition mbsinit (ps : option mbstate) : bool :=
  match ps with None => true | Some ps => count ps =? 0 end.

Definition EOF : Z := -1.
Definition WEOF : Z := 4294967295.

Definition btowc (ic : Z) : outcome Z :=
  if ic =? EOF then Ret WEOF
  else '(r, _) ← mbrtowc (Some [u8 ic]) 1 initial;
       Ret (match r with MbDone _ wc => u32 wc | _ => WEOF end).

(** [mbtowc] and [mblen] share their code; the result is the [int] and the
    static state. *)
Definition mbtowc (static : mbstate) (s : option (list Z)) (n : Z) : outcome (Z * mbstate) :=
  '(result, ps) ← mbrtowc s n static;
  let ps := match s with None => initial | Some _ => ps end in
  Ret (match result with
       | MbIllegal => (-1, initial)
       | MbPartial => (-1, ps)
       | MbDone ret _ => (ret, ps)
       end).
Definition mblen (static : mbstate) (s : option (list Z)) (n : Z) : outcome (Z * mbstate) :=
  '(result, ps) ← mbrtowc s n static;
  let ps := match s with None => initial | Some _ => ps end in
  Ret (match result with
       | MbIllegal => (-1, initial)
       | MbPartial => (-1, ps)
       | MbDone ret _ => (ret, ps)
       end).

(** ** Encoding *)

Inductive wc_result :=
| WcBytes (bytes : list Z)  (* stored through [s]; returns their number *)
| WcIllegal                 (* [errno = EILSEQ], [(size_t) -1] *)
| WcErrno.                  (* the last line returns [errno = EILSEQ] itself *)

#[global] Instance wc_result_eq_dec : EqDecision wc_result.
Proof. solve_decision. Defined.

Definition utf8_wcrtomb (wc : Z) : wc_result :=
  if (0xD800 <=? wc) && (wc <=? 0xDFFF) then WcIllegal
  else if 0x10FFFF <=? wc then WcIllegal
  else if wc <? 2 ^ 7 then
    WcBytes [Z.lor 0x00 (Z.land (Z.shiftr wc 0) 0x7F)]
  else if wc <? 2 ^ (5 + 1 * 6) then
    WcBytes [Z.lor 0xC0 (Z.land (Z.shiftr wc 6) 0x1F);
             Z.lor 0x80 (Z.land (Z.shiftr wc 0) 0x3F)]
  else if wc <? 2 ^ (4 + 2 * 6) then
    WcBytes [Z.lor 0xE0 (Z.land (Z.shiftr wc (2*6)) 0x0F);
             Z.lor 0x80 (Z.land (Z.shiftr wc (1*6)) 0x3F);
             Z.lor 0x80 (Z.land (Z.shiftr wc (0*6)) 0x3F)]
  else if wc <? 2 ^ (3 + 3 * 6) then
    WcBytes [Z.lor 0xF0 (Z.land (Z.shiftr wc (3*6)) 0x07);
             Z.lor 0x80 (Z.land (Z.shiftr wc (2*6)) 0x3F);
             Z.lor 0x80 (Z.land (Z.shiftr wc (1*6)) 0x3F);
             Z.lor 0x80 (Z.land (Z.shiftr wc (0*6)) 0x3F)]
  else WcErrno.

(** [s] is [None] for a null pointer. *)
Definition wcrtomb (s_null : bool) (wc : Z) : wc_result :=
  utf8_wcrtomb (if s_null then 0 else wc).

Definition wctob (wc : Z) : Z :=
  match wcrtomb false (s32 wc) with
  | WcIllegal => EOF
  | WcErrno => EOF
  | WcBytes mb => if 2 <=? Z.of_nat (length mb) then EOF else nth 0 mb 0
  end.

Definition EILSEQ_value : Z := 40.

Definition wctomb (s_null : bool) (wc : Z) : Z :=
  match wcrtomb s_null wc with
  | WcBytes mb => Z.of_nat (length mb)
  | WcIllegal => -1
  | WcErrno => EILSEQ_value
  end.

(** ** Arithmetic reading of the bit operations *)

Definition valid_wc (wc : Z) : Prop := 0 <= wc < 0x10FFFF ∧ ¬ 0xD800 <= wc <= 0xDFFF.

(** The encoding of RFC 3629, in arithmetic. *)
Definition enc (wc : Z) : list Z :=
  if wc <? 0x80 then [wc]
  else if wc <? 0x800 then [192 + wc / 64; 128 + wc mod 64]
  else if wc <? 0x10000 then [224 + wc / 4096; 128 + wc / 64 mod 64; 128 + wc mod 64]
  else [240 + wc / 262144; 128 + wc / 4096 mod 64; 128 + wc / 64 mod 64; 128 + wc mod 64].

Lemma lor_0x80 x : Z.lor 0x80 (Z.land x 0x3F) = 128 + x mod 64.
Proof.
  rewrite (land_pow2_mod x 6) by lia. change 0x80 with (2 * 2 ^ 6).
  rewrite lor_disjoint; [done|lia|apply Z.mod_pos_bound; lia].
Qed.

Lemma lor_lead x c k m :
  0 <= k → m = 2 ^ k - 1 → 0 <= x < 2 ^ k → Z.lor (c * 2 ^ k) (Z.land x m) = c * 2 ^ k + x.
Proof.
  intros Hk Hm Hx. rewrite (land_pow2_mod x k m Hk Hm), Z.mod_small by lia.
  by apply lor_disjoint.
Qed.

Lemma div_range x a b : 0 < b → 0 <= x < a * b → 0 <= x / b < a.
Proof. intros Hb Hx. split; [apply Z.div_pos|apply Z.div_lt_upper_bound]; lia. Qed.

Lemma utf8_wcrtomb_valid wc : valid_wc wc → utf8_wcrtomb wc = WcBytes (enc wc).
Proof.
  intros [Hr Hs]. unfold utf8_wcrtomb, enc.
  assert ((0xD800 <=? wc) && (wc <=? 0xDFFF) = false) as ->
    by (rewrite andb_false_iff, !Z.leb_gt; lia).
  rewrite (proj2 (Z.leb_gt 0x10FFFF wc)) by lia.
  change (2 ^ 7) with 0x80. change (2 ^ (5 + 1 * 6)) with 0x800.
  change (2 ^ (4 + 2 * 6)) with 0x10000. change (2 ^ (3 + 3 * 6)) with 0x200000.
  rewrite ?lor_0x80. change (0 * 6) with 0. rewrite Z.shiftr_0_r. change (1 * 6) with 6.
  change (2 * 6) with 12. change (3 * 6) with 18.
  destruct (Z.ltb_spec wc 0x80).
  { rewrite Z.lor_0_l, (land_pow2_mod wc 7), Z.mod_small by lia. done. }
  rewrite !shiftr_div by lia. change (2 ^ 6) with 64. change (2 ^ 12) with 4096.
  change (2 ^ 18) with 262144.
  destruct (Z.ltb_spec wc 0x800).
  { change 0xC0 with (6 * 2 ^ 5). rewrite lor_lead; [done|lia..|].
    apply div_range; lia. }
  destruct (Z.ltb_spec wc 0x10000).
  { change 0xE0 with (14 * 2 ^ 4). rewrite lor_lead; [done|lia..|]. apply div_range; lia. }
  rewrite (proj2 (Z.ltb_lt wc 0x200000)) by lia.
  change 0xF0 with (30 * 2 ^ 3). rewrite lor_lead; [done|lia..|]. apply div_range; lia.
Qed.

(** The classes of leading bytes. *)
Definition lead_class (b : Z) : option mbstate :=
  if b <? 128 then Some (MbState 0 1 b)
  else if b <? 192 then None
  else if b <? 224 then Some (MbState 1 2 (b - 192))
  else if b <? 240 then Some (MbState 2 3 (b - 224))
  else if b <? 248 then Some (MbState 3 4 (b - 240))
  else None.

Lemma utf8_lead_class b : 0 <= b < 256 → utf8_lead b = lead_class b.
Proof. revert b. apply (byte_forall _). by vm_compute. Qed.

Definition is_cont (b : Z) : bool := (128 <=? b) && (b <? 192).

Lemma utf8_continue_class b ps :
  0 <= b < 256 → 0 <= wch ps < 2 ^ 26 →
  utf8_continue b ps =
    if is_cont b then Some (MbState (count ps - 1) (length_ ps) (wch ps * 64 + (b - 128)))
    else None.
Proof.
  intros Hb Hw. unfold utf8_continue, is_cont.
  assert (H1 : (Z.land b 0xC0 =? 0x80) = (128 <=? b) && (b <? 192)).
  { revert b Hb. apply (byte_forall _). by vm_compute. }
  rewrite H1. destruct (_ && _) eqn:E; [|done]. b2p. simpl. do 2 f_equal.
  rewrite shiftl_mul, (land_pow2_mod b 6) by lia.
  rewrite lor_disjoint; [|lia|apply Z.mod_pos_bound; lia].
  change (2 ^ 6) with 64. replace (b mod 64) with (b - 128).
  - apply wrapu_id. unfold in_u. lia.
  - rewrite <- (Z.mod_add b (-2) 64), Z.mod_small by lia. lia.
Qed.

(** ** The conversion state

    [limit l] bounds the characters an [l] byte sequence can spell.  While
    [count] continuation bytes are missing, the bits collected so far leave room
    for theirs. *)

Definition limit (l : Z) : Z :=
  if l =? 1 then 2 ^ 7 else if l =? 2 then 2 ^ 11 else if l =? 3 then 2 ^ 16 else 2 ^ 21.

Definition ps_inv (ps : mbstate) : Prop :=
  0 <= count ps <= 3 ∧ count ps < length_ ps <= 4 ∧
  0 <= wch ps ∧ wch ps * 64 ^ count ps < limit (length_ ps).

(** Between characters the state is whatever the last call left; inside one it
    satisfies the invariant. *)
Definition ps_ok (ps : mbstate) : Prop := count ps = 0 ∨ ps_inv ps.

Lemma ps_ok_initial : ps_ok initial.
Proof. by left. Qed.

Lemma limit_cases l :
  (l = 1 ∧ limit l = 128) ∨ (l = 2 ∧ limit l = 2048) ∨ (l = 3 ∧ limit l = 65536) ∨
  (l ≠ 1 ∧ l ≠ 2 ∧ l ≠ 3 ∧ limit l = 2097152).
Proof. unfold limit. repeat case_if; lia. Qed.

Lemma lead_inv b ps : 0 <= b < 256 → utf8_lead b = Some ps → ps_inv ps.
Proof.
  intros Hb. rewrite utf8_lead_class by done. unfold lead_class, ps_inv.
  repeat case_if; intros [= <-]; cbn [count length_ wch]; unfold limit;
    cbn [Z.eqb Pos.eqb]; lia.
Qed.

Lemma count_cases k : 0 <= k <= 3 → k = 0 ∨ k = 1 ∨ k = 2 ∨ k = 3.
Proof. lia. Qed.

Lemma continue_inv b ps ps' :
  0 <= b < 256 → ps_inv ps → count ps ≠ 0 → utf8_continue b ps = Some ps' → ps_inv ps'.
Proof.
  intros Hb (Hc & Hl & Hw & Hlim) Hn. pose proof (limit_cases (length_ ps)).
  rewrite utf8_continue_class; [|done|].
  2: { destruct (count_cases _ Hc) as [E|[E|[E|E]]]; rewrite E in Hlim; lia. }
  unfold is_cont. case_if; [|done|done]. intros [= <-]. unfold ps_inv.
  cbn [count length_ wch].
  destruct (count_cases _ Hc) as [E|[E|[E|E]]]; rewrite E in *; [done|..].
  - change (64 ^ (1 - 1)) with 1. change (64 ^ 1) with 64 in *. lia.
  - change (64 ^ (2 - 1)) with 64. change (64 ^ 2) with 4096 in *. lia.
  - change (64 ^ (3 - 1)) with 4096. change (64 ^ 3) with 262144 in *. lia.
Qed.

Lemma byte_inv b ps ps' :
  0 <= b < 256 → ps_ok ps → utf8_byte b ps = Some ps' → ps_inv ps'.
Proof.
  intros Hb Hok. unfold utf8_byte. case_if; [by apply lead_inv|].
  destruct Hok as [?|Hok]; [lia|]. by apply continue_inv.
Qed.

(** The four tests meant to reject overlong sequences never fire on a state
    the decoder can reach. *)
Lemma utf8_reject_inv ps :
  ps_inv ps → count ps = 0 →
  utf8_reject ps = ((0xD800 <=? wch ps) && (wch ps <=? 0xDFFF)) || (0x10FFFF <=? wch ps).
Proof.
  intros (Hc & Hl & Hw & Hlim) H0. rewrite H0 in Hlim. unfold utf8_reject.
  unfold limit in Hlim. change (2 ^ (5 + 1 * 6)) with (2 ^ 11).
  change (2 ^ (4 + 2 * 6)) with (2 ^ 16). change (2 ^ (3 + 3 * 6)) with (2 ^ 21).
  destruct (Z.eqb_spec (length_ ps) 1), (Z.eqb_spec (length_ ps) 2),
    (Z.eqb_spec (length_ ps) 3), (Z.eqb_spec (length_ ps) 4); try lia;
    rewrite (proj2 (Z.leb_gt (2 ^ _) (wch ps))) by lia; done.
Qed.

(** What a completed sequence gives. *)
Lemma utf8_finish_cases i ps :
  ps_inv ps → count ps = 0 →
  (utf8_finish i ps = (MbIllegal, ps) ∧ ¬ valid_wc (wch ps)) ∨
  (utf8_finish i ps = (MbDone (if negb (wch ps =? 0) then i else 0) (wch ps), initial) ∧
   valid_wc (wch ps)).
Proof.
  intros Hinv H0. pose proof Hinv as (Hc & Hl & Hw & Hlim). unfold utf8_finish.
  rewrite utf8_reject_inv by done. unfold valid_wc.
  pose proof (limit_cases (length_ ps)). rewrite H0 in Hlim.
  rewrite wraps_id by (unfold in_s; lia). rewrite H0.
  case_if; [left|left|right|right]; (split; [done|]); lia.
Qed.

(** What a result promises: a character is a valid scalar value spelled by at
    most four of the [n] bytes, and leaves the initial state. *)
Definition mb_post (n : Z) (r : mb_result) (ps : mbstate) : Prop :=
  ps_ok ps ∧
  match r with
  | MbDone ret wc =>
      valid_wc wc ∧ 0 <= ret <= 4 ∧ ret <= n ∧ (ret = 0 ↔ wc = 0) ∧ ps = initial
  | _ => True
  end.

Lemma utf8_finish_post n i ps :
  ps_inv ps → count ps = 0 → 0 < i <= n → i <= 4 →
  ∃ r ps', Ret (utf8_finish i ps) = Ret (r, ps') ∧ mb_post n r ps'.
Proof.
  intros Hinv H0 Hi Hi4.
  destruct (utf8_finish_cases i ps Hinv H0) as [[-> _]|[-> Hv]];
    do 2 eexists; (split; [done|]).
  - split; [by left|done].
  - split; [apply ps_ok_initial|].
    split_and!; try done; destruct (Z.eqb_spec (wch ps) 0); simpl; lia.
Qed.

(** The loop, from a state inside or at the start of a character. *)
Lemma utf8_loop_safe s n i ps :
  Forall (λ b, 0 <= b < 256) s → 0 <= i <= n → n <= i + Z.of_nat (length s) →
  ps_ok ps → (i ≠ 0 → ps_inv ps) → i + count ps <= 4 →
  ∃ r ps', utf8_loop s n i ps = Ret (r, ps') ∧ mb_post n r ps'.
Proof.
  revert i ps. induction s as [|b s IH]; intros i ps Hs Hi Hn Hok Hinv Hc; cbn [utf8_loop].
  - destruct (negb (i =? 0) && (count ps =? 0)) eqn:E.
    + b2p. apply utf8_finish_post; [by apply Hinv|lia..].
    + rewrite (proj2 (Z.leb_le n i)) by (simpl in Hn; lia). by do 2 eexists.
  - destruct (negb (i =? 0) && (count ps =? 0)) eqn:E.
    { b2p. apply utf8_finish_post; [by apply Hinv|lia..]. }
    destruct (Z.leb_spec n i); [by do 2 eexists|].
    apply Forall_cons_1 in Hs as [Hb Hs].
    destruct (utf8_byte b ps) as [ps1|] eqn:Eb; [|by do 2 eexists].
    pose proof (byte_inv _ _ _ Hb Hok Eb) as Hinv1.
    apply IH; [done|lia|simpl in Hn; lia|by right|done|].
    destruct (Z.eqb_spec (count ps) 0).
    + destruct Hinv1 as (? & ? & _). destruct (Z.eqb_spec i 0); [lia|done].
    + unfold utf8_byte, utf8_continue in Eb. rewrite (proj2 (Z.eqb_neq _ _)) in Eb by done.
      case_match; [done|]. injection Eb as <-. simpl. lia.
Qed.

(** ** Restarting

    A result moved [d] bytes on. *)
Definition shift_result (d : Z) (r : mb_result * mbstate) : mb_result * mbstate :=
  match r with
  | (MbDone ret wc, ps) => (MbDone (if wc =? 0 then 0 else ret + d) wc, ps)
  | r => r
  end.

Lemma utf8_finish_not_partial i ps : (utf8_finish i ps).1 ≠ MbPartial.
Proof. unfold utf8_finish. by case_if. Qed.

Lemma utf8_finish_shift i d ps :
  utf8_finish (i + d) ps = shift_result d (utf8_finish i ps).
Proof.
  unfold utf8_finish. case_if; [done|]. simpl. by destruct (s32 (wch ps) =? 0).
Qed.

Lemma utf8_loop_shift s n i d ps :
  0 <= d → 0 <= i → (i = 0 → d ≠ 0 → count ps ≠ 0) →
  utf8_loop s (n + d) (i + d) ps = shift_result d <$> utf8_loop s n i ps.
Proof.
  revert i ps. induction s as [|b s IH]; intros i ps Hd Hi H0; cbn [utf8_loop];
    assert (Hcond : negb (i + d =? 0) && (count ps =? 0) = negb (i =? 0) && (count ps =? 0))
      by (destruct (Z.eqb_spec (i + d) 0), (Z.eqb_spec i 0), (Z.eqb_spec (count ps) 0); simpl; lia);
    assert (Hle : (n + d <=? i + d) = (n <=? i))
      by (destruct (Z.leb_spec (n + d) (i + d)), (Z.leb_spec n i); lia);
    rewrite Hcond, Hle, utf8_finish_shift.
  - destruct (negb (i =? 0) && (count ps =? 0)); [done|]. by destruct (n <=? i).
  - destruct (negb (i =? 0) && (count ps =? 0)); [done|]. destruct (n <=? i); [done|].
    destruct (utf8_byte b ps); [|done].
    replace (i + d + 1) with (i + 1 + d) by lia. apply IH; lia.
Qed.

Lemma utf8_loop_app a b n N i ps ps' :
  0 <= i → n = i + Z.of_nat (length a) → n <= N →
  utf8_loop a n i ps = Ret (MbPartial, ps') →
  utf8_loop (a ++ b) N i ps = utf8_loop b N n ps' ∧ (n ≠ 0 → count ps' ≠ 0).
Proof.
  revert i ps. induction a as [|c a IH]; intros i ps Hi Hn HN Ha; cbn [utf8_loop] in Ha.
  - pose proof (utf8_finish_not_partial i ps) as Hf.
    destruct (negb (i =? 0) && (count ps =? 0)) eqn:E.
    { injection Ha as Ha. by rewrite Ha in Hf. }
    simpl in Hn. rewrite (proj2 (Z.leb_le n i)) in Ha by lia. injection Ha as ->.
    replace n with i by lia. split; [done|].
    intros Hi0 Hc. rewrite (proj2 (Z.eqb_neq _ _) Hi0), Hc in E. done.
  - pose proof (utf8_finish_not_partial i ps) as Hf. simpl length in Hn.
    cbn [app utf8_loop].
    destruct (negb (i =? 0) && (count ps =? 0)) eqn:E.
    { injection Ha as Ha. by rewrite Ha in Hf. }
    rewrite (proj2 (Z.leb_gt n i)) in Ha by lia. rewrite (proj2 (Z.leb_gt N i)) by lia.
    destruct (utf8_byte c ps); [|done]. apply IH; try done; lia.
Qed.

(** ** Decoding what was encoded *)

Lemma utf8_loop_step b s n i ps ps' :
  i < n → (i = 0 ∨ count ps ≠ 0) → utf8_byte b ps = Some ps' →
  utf8_loop (b :: s) n i ps = utf8_loop s n (i + 1) ps'.
Proof.
  intros Hi Hc Hb. cbn [utf8_loop].
  assert (negb (i =? 0) && (count ps =? 0) = false) as ->.
  { destruct (Z.eqb_spec i 0), (Z.eqb_spec (count ps) 0); simpl; lia. }
  by rewrite (proj2 (Z.leb_gt n i)), Hb by lia.
Qed.

Lemma utf8_lead_step b s n ps ps' :
  0 < n → count ps = 0 → 0 <= b < 256 → lead_class b = Some ps' →
  utf8_loop (b :: s) n 0 ps = utf8_loop s n 1 ps'.
Proof.
  intros Hn Hc Hb Hl. apply (utf8_loop_step _ _ _ 0); [lia|lia|].
  unfold utf8_byte. by rewrite Hc, utf8_lead_class.
Qed.

Lemma utf8_cont_step x s n i c l w :
  i < n → c ≠ 0 → 0 <= x < 64 → 0 <= w < 2 ^ 26 →
  utf8_loop (128 + x :: s) n i (MbState c l w) =
  utf8_loop s n (i + 1) (MbState (c - 1) l (w * 64 + x)).
Proof.
  intros Hn Hc Hx Hw. apply utf8_loop_step; [lia|simpl; lia|].
  unfold utf8_byte. simpl. rewrite (proj2 (Z.eqb_neq _ _)) by done.
  rewrite utf8_continue_class by (simpl; lia). unfold is_cont. simpl.
  rewrite (proj2 (Z.leb_le _ _)), (proj2 (Z.ltb_lt _ _)) by lia. simpl. do 2 f_equal. lia.
Qed.

Lemma utf8_loop_done s n i l wc :
  0 < i → ps_inv (MbState 0 l wc) → valid_wc wc →
  utf8_loop s n i (MbState 0 l wc) = Ret (MbDone (if negb (wc =? 0) then i else 0) wc, initial).
Proof.
  intros Hi Hinv Hv.
  destruct (utf8_finish_cases i _ Hinv eq_refl) as [[_ Hn]|[Hf _]]; [done|].
  destruct s; cbn [utf8_loop]; rewrite (proj2 (Z.eqb_neq i 0)) by lia; simpl; by rewrite Hf.
Qed.

Ltac inv_now := unfold ps_inv, limit; cbn [count length_ wch Z.eqb Pos.eqb]; lia.

Lemma utf8_loop_enc wc rest n ps :
  valid_wc wc → count ps = 0 → Z.of_nat (length (enc wc)) <= n →
  utf8_loop (enc wc ++ rest) n 0 ps =
  Ret (MbDone (if negb (wc =? 0) then Z.of_nat (length (enc wc)) else 0) wc, initial).
Proof.
  intros Hv Hps. pose proof Hv as [Hr Hs]. unfold enc.
  pose proof (Z.div_mod wc 64 ltac:(lia)). pose proof (Z.mod_pos_bound wc 64 ltac:(lia)).
  pose proof (Z.div_mod (wc / 64) 64 ltac:(lia)).
  pose proof (Z.mod_pos_bound (wc / 64) 64 ltac:(lia)).
  pose proof (Z.div_mod (wc / 4096) 64 ltac:(lia)).
  pose proof (Z.mod_pos_bound (wc / 4096) 64 ltac:(lia)).
  assert (Hd1 : wc / 64 / 64 = wc / 4096) by (by rewrite Z.div_div by lia).
  assert (Hd2 : wc / 4096 / 64 = wc / 262144) by (by rewrite Z.div_div by lia).
  case_if; [|case_if; [|case_if]]; cbn [length app]; intros Hn.
  - erewrite utf8_lead_step; [|lia|done|lia|by unfold lead_class; rewrite (proj2 (Z.ltb_lt _ _))].
    rewrite utf8_loop_done; [done|lia|inv_now|done].
  - erewrite utf8_lead_step; [|lia|done|lia|].
    2: { unfold lead_class. rewrite (proj2 (Z.ltb_ge _ 128)), (proj2 (Z.ltb_ge _ 192)),
           (proj2 (Z.ltb_lt _ 224)) by lia. done. }
    rewrite utf8_cont_step by lia.
    replace ((192 + wc / 64 - 192) * 64 + wc mod 64) with wc by lia.
    change (1 - 1) with 0. rewrite utf8_loop_done; [done|lia|inv_now|done].
  - erewrite utf8_lead_step; [|lia|done|lia|].
    2: { unfold lead_class. rewrite (proj2 (Z.ltb_ge _ 128)), (proj2 (Z.ltb_ge _ 192)),
           (proj2 (Z.ltb_ge _ 224)), (proj2 (Z.ltb_lt _ 240)) by lia. done. }
    rewrite !utf8_cont_step by lia.
    match goal with |- context [MbState _ _ ?e] => replace e with wc by lia end.
    change (2 - 1 - 1) with 0. rewrite utf8_loop_done; [done|lia|inv_now|done].
  - erewrite utf8_lead_step; [|lia|done|lia|].
    2: { unfold lead_class. rewrite (proj2 (Z.ltb_ge _ 128)), (proj2 (Z.ltb_ge _ 192)),
           (proj2 (Z.ltb_ge _ 224)), (proj2 (Z.ltb_ge _ 240)), (proj2 (Z.ltb_lt _ 248)) by lia.
         done. }
    rewrite !utf8_cont_step by lia.
    match goal with |- context [MbState _ _ ?e] => replace e with wc by lia end.
    change (3 - 1 - 1 - 1) with 0. rewrite utf8_loop_done; [done|lia|inv_now|done].
Qed.

Lemma enc_length wc : (1 <= length (enc wc) <= 4)%nat.
Proof. unfold enc. repeat case_if; simpl; lia. Qed.

Lemma enc_bytes wc : valid_wc wc → Forall (λ b, 0 <= b < 256) (enc wc).
Proof.
  intros [Hr _]. unfold enc.
  pose proof (Z.mod_pos_bound wc 64 ltac:(lia)).
  pose proof (Z.mod_pos_bound (wc / 64) 64 ltac:(lia)).
  pose proof (Z.mod_pos_bound (wc / 4096) 64 ltac:(lia)).
  pose proof (div_range wc 32 64). pose proof (div_range wc 16 4096).
  pose proof (div_range wc 5 262144).
  repeat case_if; repeat first [apply Forall_nil_2 | apply Forall_cons_2]; lia.
Qed.

(** ** The theorems *)

(** C35.  A character [wcrtomb] stores is read back by [mbrtowc] from any
    state between characters, whatever follows it in the buffer and however
    large the limit: same character, same number of bytes (0 for the null
    character), and the state is initial again. *)
Theorem mbrtowc_wcrtomb wc :
  valid_wc wc →
  ∃ bs, wcrtomb false wc = WcBytes bs ∧ (1 <= length bs <= 4)%nat ∧
    ∀ rest n ps, count ps = 0 → Z.of_nat (length bs) <= n →
      mbrtowc (Some (bs ++ rest)) n ps =
      Ret (MbDone (if wc =? 0 then 0 else Z.of_nat (length bs)) wc, initial).
Proof.
  intros Hv. exists (enc wc). split; [by apply utf8_wcrtomb_valid|].
  split; [apply enc_length|]. intros rest n ps Hps Hn.
  unfold mbrtowc, utf8_mbrtowc. rewrite utf8_loop_enc by done.
  by destruct (wc =? 0).
Qed.

Lemma mbrtowc_wcrtomb_witness :
  ∃ bs, wcrtomb false 0x20AC = WcBytes bs ∧ (1 <= length bs <= 4)%nat ∧
    ∀ rest n ps, count ps = 0 → Z.of_nat (length bs) <= n →
      mbrtowc (Some (bs ++ rest)) n ps =
      Ret (MbDone (if 0x20AC =? 0 then 0 else Z.of_nat (length bs)) 0x20AC, initial).
Proof. apply (mbrtowc_wcrtomb 0x20AC). unfold valid_wc. lia. Defined.

(** Decoding is restartable: when [mbrtowc] reports an incomplete
    character after the bytes [a], calling it again on the following bytes [b]
    with the state it left gives the result of one call on [a] and [b]
    together, with the bytes of [a] counted in. *)
Theorem mbrtowc_restart a b n ps ps' :
  0 <= n →
  mbrtowc (Some a) (Z.of_nat (length a)) ps = Ret (MbPartial, ps') →
  mbrtowc (Some (a ++ b)) (Z.of_nat (length a) + n) ps =
  shift_result (Z.of_nat (length a)) <$> mbrtowc (Some b) n ps'.
Proof.
  intros Hn Ha. unfold mbrtowc, utf8_mbrtowc in *.
  destruct (utf8_loop_app a b (Z.of_nat (length a)) (Z.of_nat (length a) + n) 0 ps ps')
    as [-> Hc]; try done; try lia.
  rewrite (Z.add_comm _ n), <- (Z.add_0_l (Z.of_nat (length a))) at 1.
  rewrite <- (utf8_loop_shift b n 0) by lia. do 2 f_equal; lia.
Qed.

Lemma mbrtowc_restart_witness :
  mbrtowc (Some ([0xE2; 0x82] ++ [0xAC])) (Z.of_nat 2 + 1) initial =
  shift_result (Z.of_nat 2) <$> mbrtowc (Some [0xAC]) 1 (MbState 1 3 130).
Proof. apply (mbrtowc_restart [0xE2; 0x82] [0xAC]); [lia|vm_compute; done]. Defined.

(** On any bytes and from any state a previous call can have left,
    [mbrtowc] stays within its [n] bytes, returns, keeps the state invariant,
    and a character it delivers is a Unicode scalar value below U+10FFFF. *)
Theorem mbrtowc_safe s n ps :
  Forall (λ b, 0 <= b < 256) s → 0 <= n <= Z.of_nat (length s) → ps_ok ps →
  count ps <= 3 →
  ∃ r ps', mbrtowc (Some s) n ps = Ret (r, ps') ∧ mb_post n r ps'.
Proof.
  intros Hs Hn Hok Hc. apply utf8_loop_safe; try done; lia.
Qed.

Lemma mbrtowc_safe_witness :
  ∃ r ps', mbrtowc (Some [0xFF; 0x80]) 2 initial = Ret (r, ps') ∧ mb_post 2 r ps'.
Proof.
  apply (mbrtowc_safe [0xFF; 0x80] 2 initial);
    [repeat constructor; lia|simpl; lia|by left|simpl; lia].
Defined.

(** Overlong sequences are accepted: every ASCII character is also
    decoded from its two byte spelling, although the source has a test meant to
    reject a character produced with an overly long sequence. *)
Theorem mbrtowc_overlong wc :
  0 <= wc < 0x80 →
  mbrtowc (Some [0xC0 + wc / 64; 0x80 + wc mod 64]) 2 initial =
  Ret (MbDone (if wc =? 0 then 0 else 2) wc, initial).
Proof.
  intros Hwc. unfold mbrtowc, utf8_mbrtowc.
  pose proof (Z.div_mod wc 64 ltac:(lia)). pose proof (Z.mod_pos_bound wc 64 ltac:(lia)).
  erewrite utf8_lead_step; [|lia|done|lia|].
  2: { unfold lead_class. rewrite (proj2 (Z.ltb_ge _ 128)), (proj2 (Z.ltb_ge _ 192)),
         (proj2 (Z.ltb_lt _ 224)) by lia. done. }
  change 0x80 with 128. rewrite utf8_cont_step by lia.
  match goal with |- context [MbState _ _ ?e] => replace e with wc by lia end.
  change (1 - 1) with 0. rewrite utf8_loop_done; [by destruct (wc =? 0)|lia|inv_now|].
  unfold valid_wc. lia.
Qed.

Lemma mbrtowc_overlong_witness :
  mbrtowc (Some [0xC0 + 47 / 64; 0x80 + 47 mod 64]) 2 initial =
  Ret (MbDone (if 47 =? 0 then 0 else 2) 47, initial).
Proof. apply (mbrtowc_overlong 47). lia. Defined.

(** The domain of [wcrtomb] on all of [wchar_t]: surrogates and
    everything from U+10FFFF up (the last code point included) are [EILSEQ],
    the other code points get their UTF-8 bytes, and a negative [wchar_t] is
    encoded as the single byte of its low seven bits instead of being
    rejected. *)
Theorem wcrtomb_domain wc :
  in_s 32 wc →
  wcrtomb false wc =
    if wc <? 0 then WcBytes [wc mod 128]
    else if (0x10FFFF <=? wc) || ((0xD800 <=? wc) && (wc <=? 0xDFFF)) then WcIllegal
    else WcBytes (enc wc).
Proof.
  intros Hr. unfold wcrtomb. destruct (Z.ltb_spec wc 0).
  - unfold utf8_wcrtomb. rewrite (proj2 (Z.leb_gt 0xD800 wc)), (proj2 (Z.leb_gt _ wc)) by lia.
    rewrite (proj2 (Z.ltb_lt wc (2 ^ 7))) by lia. simpl.
    by rewrite Z.shiftr_0_r, (land_pow2_mod wc 7) by lia.
  - destruct (_ || _) eqn:E.
    + unfold utf8_wcrtomb. b2p.
      * rewrite (proj2 (Z.leb_le _ wc) H0). by destruct (_ && _).
      * by rewrite (proj2 (Z.leb_le _ _) H0), (proj2 (Z.leb_le _ _) H1).
    + apply utf8_wcrtomb_valid. unfold valid_wc. b2p; lia.
Qed.

Lemma wcrtomb_domain_witness :
  wcrtomb false (-1) =
    if -1 <? 0 then WcBytes [-1 mod 128]
    else if (0x10FFFF <=? -1) || ((0xD800 <=? -1) && (-1 <=? 0xDFFF)) then WcIllegal
    else WcBytes (enc (-1)).
Proof. apply (wcrtomb_domain (-1)). unfold in_s. lia. Defined.

End Utf8.
