(* ===== verification/WcharStr.v ===== *)
(** * Wide and multibyte strings: [mbsnrtowcs], [wcsnrtombs] and UTF-16

    The string conversions of [libc/wchar] and the UTF-16 and UTF-32
    conversions of [libc/uchar], on top of the character conversions of
    [Wchar].  A destination is an array, so that storing past it is [Undef]. *)

From S2P Require Import Prelude Wchar.
From stdpp Require Import base decidable list numbers.
From Stdlib Require Import ZArith Lia.

#[local] Open Scope Z_scope.

Module Utf8Str.
Import Utf8.

(** The [size_t] result of a string conversion. *)
Inductive conv_ret := ConvCount (n : Z) | ConvIllegal.

(** [*src_ptr] after the call, [None] for a null pointer. *)
Abbreviation src_ptr := (option (list Z)).

(** The [while] loop of [mbsnrtowcs]; [src] is the source from [src_offset] on
    and [src_left] is [src_len - src_offset]. *)
Fixpoint mbsnrtowcs_loop (fuel : nat) (dst : option (list Z)) (dst_len dst_offset : Z)
    (src : list Z) (src_left : Z) (ps : mbstate)
    : outcome (conv_ret * src_ptr * option (list Z) * mbstate) :=
  match fuel with
  | O => OutOfFuel
  | S fuel =>
      if (match dst with None => true | Some _ => dst_offset <? dst_len end) && (0 <? src_left) then
        let ps_copy := ps in
        '(amount, ps) ← mbrtowc (Some src) src_left ps;
        match amount with
        | MbIllegal => Ret (ConvIllegal, Some src, dst, ps)
        | MbPartial => Ret (ConvCount dst_offset, Some src, dst, ps_copy)
        | MbDone amount wc =>
            dst ← match dst with
                  | None => Ret None
                  | Some dst => dst ← write_at dst dst_offset [wc]; Ret (Some dst)
                  end;
            if wc =? 0 then Ret (ConvCount dst_offset, None, dst, ps)
            else mbsnrtowcs_loop fuel dst dst_len (dst_offset + 1)
                   (drop (Z.to_nat amount) src) (src_left - amount) ps
        end
      else Ret (ConvCount dst_offset, Some src, dst, ps)
  end.

(** Every character but the last takes at least one byte. *)
Definition mbsnrtowcs (dst : option (list Z)) (src : list Z) (src_len dst_len : Z) (ps : mbstate) :=
  mbsnrtowcs_loop (S (length src)) dst dst_len 0 src src_len ps.

Definition mbsnrtowcs_static (static : mbstate) (dst : option (list Z)) (src : list Z)
    (src_len dst_len : Z) (ps : option mbstate) :=
  with_static (mbsnrtowcs dst src src_len dst_len) static ps.

Definition mbsrtowcs (dst : option (list Z)) (src : list Z) (dst_len : Z) (ps : mbstate) :=
  mbsnrtowcs dst src SIZE_MAX dst_len ps.

(** The [while] loop of [wcsnrtombs]. *)
Fixpoint wcsnrtombs_loop (fuel : nat) (dst : option (list Z)) (dst_len dst_offset : Z)
    (src : list Z) (src_left : Z)
    : outcome (conv_ret * src_ptr * option (list Z)) :=
  match fuel with
  | O => OutOfFuel
  | S fuel =>
      if (match dst with None => true | Some _ => dst_offset <? dst_len end) && (0 <? src_left) then
        match src with
        | [] => Undef
        | wc :: src' =>
            match wcrtomb false wc with
            | WcIllegal => Ret (ConvIllegal, Some src, dst)
            | WcErrno => Undef
            | WcBytes mb =>
                let amount := Z.of_nat (length mb) in
                if match dst with
                   | None => false
                   | Some _ => u64 (dst_offset - dst_len) <? amount
                   end
                then Ret (ConvCount dst_offset, Some src, dst)
                else
                  dst ← match dst with
                        | None => Ret None
                        | Some dst => dst ← write_at dst dst_offset mb; Ret (Some dst)
                        end;
                  if wc =? 0 then Ret (ConvCount dst_offset, None, dst)
                  else wcsnrtombs_loop fuel dst dst_len (dst_offset + amount) src' (src_left - 1)
            end
        end
      else Ret (ConvCount dst_offset, Some src, dst)
  end.

Definition wcsnrtombs (dst : option (list Z)) (src : list Z) (src_len dst_len : Z) :=
  wcsnrtombs_loop (S (length src)) dst dst_len 0 src src_len.

Definition wcsrtombs (dst : option (list Z)) (src : list Z) (dst_len : Z) :=
  wcsnrtombs dst src SIZE_MAX dst_len.

(** ** UTF-16 *)

(** The state after the call and the result; a lone first surrogate stores
    nothing and returns 0. *)
Definition c16rtomb (s_null : bool) (c16 : Z) (ps : mbstate) : wc_result * mbstate :=
  let c16 := if s_null then 0 else c16 in
  if length_ ps =? 16 then
    if (c16 <? 0xDC00) || (0xDFFF <? c16) then (WcIllegal, ps)
    else (wcrtomb s_null (0x10000 + Z.lor (wch ps) (c16 - 0xDC00)), MbState (count ps) 0 0)
  else if (0xD800 <=? c16) && (c16 <=? 0xDBFF) then
    (WcBytes [], MbState (count ps) 16 (Z.shiftl (c16 - 0xD800) 10))
  else (wcrtomb s_null c16, ps).

Definition c32rtomb (s_null : bool) (c32 : Z) : wc_result := wcrtomb s_null (s32 c32).

(** [(size_t) -3]: a code unit without reading input. *)
Inductive c16_result :=
| C16 (ret c16 : Z)
| C16Second (c16 : Z)
| C16Illegal
| C16Partial.

Definition mbrtoc16 (s : option (list Z)) (n : Z) (ps : mbstate) : outcome (c16_result * mbstate) :=
  if length_ ps =? 16 then Ret (C16Second (u16 (wch ps)), MbState (count ps) 0 (wch ps))
  else
    '(result, ps) ← mbrtowc s n ps;
    Ret (match result with
         | MbIllegal => (C16Illegal, ps)
         | MbPartial => (C16Partial, ps)
         | MbDone ret wc =>
             if 0x10000 <=? wc then
               (C16 ret (u16 (0xD800 + Z.shiftr (wc - 0x10000) 10)),
                MbState (count ps) 16 (0xDC00 + Z.land (wc - 0x10000) 0x3FF))
             else (C16 ret (u16 wc), ps)
         end).

Definition mbrtoc32 (s : option (list Z)) (n : Z) (ps : mbstate) : outcome (mb_result * mbstate) :=
  '(result, ps) ← mbrtowc s n ps;
  Ret (match result with MbDone ret wc => MbDone ret (u32 wc) | r => r end, ps).

(** ** Strings of characters *)

(** A C wide string without its terminator. *)
Definition wide_ok (ws : list Z) : Prop := Forall (λ wc, valid_wc wc ∧ wc ≠ 0) ws.

Definition enc_str (ws : list Z) : list Z := mjoin (enc <$> ws).

Lemma enc_zero : enc 0 = [0].
Proof. done. Qed.

Lemma wcrtomb_valid wc : valid_wc wc → wcrtomb false wc = WcBytes (enc wc).
Proof. apply utf8_wcrtomb_valid. Qed.

Lemma valid_zero : valid_wc 0.
Proof. unfold valid_wc. lia. Qed.

Lemma mbrtowc_enc wc rest n ps :
  valid_wc wc → count ps = 0 → Z.of_nat (length (enc wc)) <= n →
  mbrtowc (Some (enc wc ++ rest)) n ps =
  Ret (MbDone (if negb (wc =? 0) then Z.of_nat (length (enc wc)) else 0) wc, initial).
Proof. apply utf8_loop_enc. Qed.

(** The decoding loop over an encoded string, with room for it. *)
Lemma mbsnrtowcs_loop_enc ws fuel done_ room junk rest src_left dst_len ps :
  wide_ok ws → count ps = 0 → (length ws < fuel)%nat → length room = S (length ws) →
  Z.of_nat (length (enc_str ws)) < src_left →
  Z.of_nat (length done_ + length ws) < dst_len →
  mbsnrtowcs_loop fuel (Some (done_ ++ room ++ junk)) dst_len (Z.of_nat (length done_))
    (enc_str ws ++ 0 :: rest) src_left ps =
  Ret (ConvCount (Z.of_nat (length done_ + length ws)), None,
       Some (done_ ++ ws ++ 0 :: junk), initial).
Proof.
  intros Hok. revert fuel done_ room src_left ps.
  induction Hok as [|wc ws [Hv Hnz] Hok IH]; intros fuel done_ room src_left ps Hps Hf Hr Hl Hd;
    (destruct fuel as [|fuel]; [lia|]); destruct room as [|r room]; try done;
    cbn [mbsnrtowcs_loop]; rewrite (proj2 (Z.ltb_lt _ dst_len)), (proj2 (Z.ltb_lt 0 _)) by lia;
    cbn [andb].
  - destruct room; [|done]. cbn [enc_str fmap list_fmap mjoin list_join app].
    change (0 :: rest) with (enc 0 ++ rest).
    rewrite mbrtowc_enc by (auto using valid_zero; simpl in *; lia). cbn [mbind outcome_bind].
    change (done_ ++ r :: junk) with (done_ ++ [r] ++ junk).
    rewrite write_at_app by done. cbn. by rewrite Nat.add_0_r.
  - change (enc_str (wc :: ws)) with (enc wc ++ enc_str ws) in *.
    rewrite length_app in Hl. pose proof (enc_length wc).
    rewrite <- app_assoc, mbrtowc_enc by (done || lia). cbn [mbind outcome_bind].
    rewrite (proj2 (Z.eqb_neq wc 0)) by done. cbn [negb].
    change (done_ ++ (r :: room) ++ junk) with (done_ ++ [r] ++ room ++ junk).
    rewrite write_at_app by done. cbn [mbind outcome_bind].
    rewrite Nat2Z.id, drop_app_length.
    replace (Z.of_nat (length done_) + 1) with (Z.of_nat (length (done_ ++ [wc])))
      by (rewrite length_app; simpl; lia).
    rewrite (app_assoc done_ [wc]), IH; try done; try (rewrite ?length_app; simpl in *; lia).
    rewrite <- app_assoc, length_app. simpl. do 5 f_equal. lia.
Qed.

(** The encoding loop, with room for the whole string. *)
Lemma wcsnrtombs_loop_enc ws fuel done_ room junk rest src_left dst_len :
  wide_ok ws → (length ws < fuel)%nat → length room = S (length (enc_str ws)) →
  Z.of_nat (length ws) < src_left → 0 < dst_len < 2 ^ 63 →
  Z.of_nat (length done_ + length (enc_str ws)) < dst_len →
  wcsnrtombs_loop fuel (Some (done_ ++ room ++ junk)) dst_len (Z.of_nat (length done_))
    (ws ++ 0 :: rest) src_left =
  Ret (ConvCount (Z.of_nat (length done_ + length (enc_str ws))), None,
       Some (done_ ++ enc_str ws ++ 0 :: junk)).
Proof.
  assert (Hwrap : ∀ o a, 0 <= o < dst_len → dst_len < 2 ^ 63 → a <= 4 →
                         (u64 (o - dst_len) <? a) = false).
  { intros o a Ho Hd Ha. apply Z.ltb_ge. unfold wrapu.
    rewrite <- (Z.mod_add _ 1), Z.mod_small by lia. lia. }
  intros Hok. revert fuel done_ room src_left.
  induction Hok as [|wc ws [Hv Hnz] Hok IH]; intros fuel done_ room src_left Hf Hr Hl Hd Hd';
    (destruct fuel as [|fuel]; [lia|]);
    cbn [wcsnrtombs_loop]; rewrite (proj2 (Z.ltb_lt _ dst_len)), (proj2 (Z.ltb_lt 0 _)) by lia;
    cbn [andb app].
  - rewrite wcrtomb_valid by apply valid_zero. rewrite Hwrap by (simpl; lia).
    destruct room as [|r [|]]; try done.
    change (done_ ++ [r] ++ junk) with (done_ ++ [r] ++ junk).
    rewrite write_at_app by done. cbn. by rewrite Nat.add_0_r.
  - rewrite wcrtomb_valid by done. pose proof (enc_length wc).
    change (enc_str (wc :: ws)) with (enc wc ++ enc_str ws) in *.
    rewrite length_app in Hr, Hd'. rewrite Hwrap by lia.
    rewrite <- (take_drop (length (enc wc)) room), <- app_assoc.
    rewrite write_at_app by (rewrite length_take; lia). cbn [mbind outcome_bind].
    rewrite (proj2 (Z.eqb_neq wc 0)) by done.
    rewrite <- Nat2Z.inj_add, <- length_app, app_assoc.
    rewrite IH; try done; try (rewrite ?length_app, ?length_drop; simpl in *; lia).
    rewrite !length_app, <- !app_assoc. do 4 f_equal. lia.
Qed.

(** A wide string survives the trip through its multibyte form: with
    room for the bytes and the terminator [wcsrtombs] stores them all, and
    [mbsrtowcs] of the result stores the string and its terminator; both report
    the length without it and a null source pointer. *)
Theorem mbsrtowcs_wcsrtombs ws dst1 dst2 :
  wide_ok ws →
  length dst1 = S (length (enc_str ws)) → length dst2 = S (length ws) →
  Z.of_nat (length dst1) < 2 ^ 63 →
  ∃ mb, wcsrtombs (Some dst1) (ws ++ [0]) (Z.of_nat (length dst1)) =
          Ret (ConvCount (Z.of_nat (length mb) - 1), None, Some mb) ∧
        mbsrtowcs (Some dst2) mb (Z.of_nat (length dst2)) initial =
          Ret (ConvCount (Z.of_nat (length ws)), None, Some (ws ++ [0]), initial).
Proof.
  intros Hok H1 H2 H3. exists (enc_str ws ++ [0]).
  assert (length ws <= length (enc_str ws))%nat.
  { clear -Hok. induction Hok as [|wc ws _ _ IH]; [done|].
    change (enc_str (wc :: ws)) with (enc wc ++ enc_str ws).
    rewrite length_app. pose proof (enc_length wc). simpl. lia. }
  split.
  - unfold wcsrtombs, wcsnrtombs.
    pose proof (wcsnrtombs_loop_enc ws (S (length (ws ++ [0]))) [] dst1 [] [] SIZE_MAX
      (Z.of_nat (length dst1))) as He.
    rewrite app_nil_r in He. cbn [length app] in He. change (Z.of_nat 0) with 0 in He. rewrite He.
    + rewrite length_app. simpl. do 4 f_equal. lia.
    + done.
    + rewrite length_app. simpl. lia.
    + done.
    + unfold SIZE_MAX. lia.
    + lia.
    + lia.
  - unfold mbsrtowcs, mbsnrtowcs.
    pose proof (mbsnrtowcs_loop_enc ws (S (length (enc_str ws ++ [0]))) [] dst2 [] [] SIZE_MAX
      (Z.of_nat (length dst2)) initial) as He.
    rewrite app_nil_r in He. cbn [length app] in He. change (Z.of_nat 0) with 0 in He. rewrite He; try done.
    + rewrite length_app. simpl. lia.
    + unfold SIZE_MAX. lia.
    + lia.
Qed.

Lemma mbsrtowcs_wcsrtombs_witness :
  ∃ mb, wcsrtombs (Some (repeat 0 6)) ([65; 0xE9; 0x3B1] ++ [0])
          (Z.of_nat (length (repeat 0 6))) =
          Ret (ConvCount (Z.of_nat (length mb) - 1), None, Some mb) ∧
        mbsrtowcs (Some (repeat 0 4)) mb (Z.of_nat (length (repeat 0 4))) initial =
          Ret (ConvCount (Z.of_nat (length [65; 0xE9; 0x3B1])), None,
               Some ([65; 0xE9; 0x3B1] ++ [0]), initial).
Proof.
  apply (mbsrtowcs_wcsrtombs [65; 0xE9; 0x3B1] (repeat 0 6) (repeat 0 4));
    [|vm_compute; done..].
  unfold wide_ok, valid_wc. repeat constructor; lia.
Defined.

(** [wcsnrtombs] writes past its destination: the test for the space
    left subtracts in the wrong order, so an encoding longer than the whole
    buffer is stored anyway. *)
Theorem wcsnrtombs_overflow wc ws dst src_len :
  valid_wc wc → 0 < Z.of_nat (length dst) < Z.of_nat (length (enc wc)) → 0 < src_len →
  wcsnrtombs (Some dst) (wc :: ws) src_len (Z.of_nat (length dst)) = Undef.
Proof.
  intros Hv Hd Hs. unfold wcsnrtombs. cbn [wcsnrtombs_loop length].
  pose proof (enc_length wc).
  rewrite !(proj2 (Z.ltb_lt _ _)) by lia. simpl. rewrite wcrtomb_valid by done.
  assert ((u64 (0 - Z.of_nat (length dst)) <? Z.of_nat (length (enc wc))) = false) as ->.
  { apply Z.ltb_ge. unfold wrapu. rewrite <- (Z.mod_add _ 1), Z.mod_small by lia. lia. }
  by rewrite write_at_undef by lia.
Qed.

Lemma wcsnrtombs_overflow_witness :
  wcsnrtombs (Some [0]) [0x20AC; 0] 2 (Z.of_nat (length [0])) = Undef.
Proof. apply (wcsnrtombs_overflow 0x20AC [0] [0] 2); [unfold valid_wc; lia|by vm_compute|lia]. Defined.

(** A character outside the basic plane goes through UTF-16 and back:
    [mbrtoc16] delivers a surrogate pair over two calls, the second reading
    nothing, and [c16rtomb] turns that pair into the original bytes. *)
Theorem c16rtomb_mbrtoc16 wc n ps :
  valid_wc wc → 0x10000 <= wc → count ps = 0 → length_ ps ≠ 16 → 4 <= n →
  ∃ hi lo ps1 ps2 ps3,
    mbrtoc16 (Some (enc wc)) n ps = Ret (C16 4 hi, ps1) ∧
    mbrtoc16 (Some []) n ps1 = Ret (C16Second lo, ps2) ∧
    0xD800 <= hi <= 0xDBFF ∧ 0xDC00 <= lo <= 0xDFFF ∧
    c16rtomb false hi initial = (WcBytes [], ps3) ∧
    c16rtomb false lo ps3 = (WcBytes (enc wc), initial).
Proof.
  intros Hv Hbig Hps Hl Hn.
  assert (Hlen : length (enc wc) = 4%nat).
  { unfold enc. rewrite !(proj2 (Z.ltb_ge wc _)) by lia. done. }
  set (v := wc - 0x10000). assert (Hvr : 0 <= v < 2 ^ 20) by (destruct Hv; unfold v; lia).
  pose proof (Z.div_mod v 1024 ltac:(lia)) as Hdm. pose proof (Z.mod_pos_bound v 1024 ltac:(lia)).
  pose proof (div_range v 1024 1024 ltac:(lia) ltac:(lia)) as Hdiv.
  assert (Hhi : u16 (0xD800 + Z.shiftr v 10) = 0xD800 + v / 1024).
  { rewrite shiftr_div by lia. change (2 ^ 10) with 1024. apply wrapu_id. unfold in_u. lia. }
  assert (Hlo : 0xDC00 + Z.land v 0x3FF = 0xDC00 + v mod 1024)
    by (by rewrite (land_pow2_mod v 10) by lia).
  exists (0xD800 + v / 1024), (0xDC00 + v mod 1024).
  exists (MbState 0 16 (0xDC00 + v mod 1024)), (MbState 0 0 (0xDC00 + v mod 1024)).
  exists (MbState 0 16 (v / 1024 * 1024)).
  split_and!; try lia.
  - unfold mbrtoc16. rewrite (proj2 (Z.eqb_neq _ _)) by done.
    rewrite <- (app_nil_r (enc wc)), mbrtowc_enc by (done || lia). cbn [mbind outcome_bind].
    rewrite (proj2 (Z.leb_le _ wc)) by lia. fold v. rewrite Hhi, Hlo, Hlen.
    rewrite (proj2 (Z.eqb_neq wc 0)) by lia. done.
  - unfold mbrtoc16. cbn [length_ Z.eqb Pos.eqb wch count].
    rewrite wrapu_id by (unfold in_u; lia). done.
  - unfold c16rtomb. cbn [length_ initial Z.eqb count].
    rewrite !(proj2 (Z.leb_le _ _)) by lia. cbn [andb].
    rewrite shiftl_mul by lia. do 2 f_equal. lia.
  - unfold c16rtomb. cbn [length_ Z.eqb Pos.eqb wch count].
    rewrite !(proj2 (Z.ltb_ge _ _)) by lia. cbn [orb].
    replace (0xDC00 + v mod 1024 - 0xDC00) with (v mod 1024) by lia.
    change (v / 1024 * 1024) with (v / 1024 * 2 ^ 10). rewrite lor_disjoint by lia.
    replace (0x10000 + (v / 1024 * 2 ^ 10 + v mod 1024)) with wc by (unfold v in *; lia).
    by rewrite wcrtomb_valid.
Qed.

Lemma c16rtomb_mbrtoc16_witness :
  ∃ hi lo ps1 ps2 ps3,
    mbrtoc16 (Some (enc 0x1F600)) 4 initial = Ret (C16 4 hi, ps1) ∧
    mbrtoc16 (Some []) 4 ps1 = Ret (C16Second lo, ps2) ∧
    0xD800 <= hi <= 0xDBFF ∧ 0xDC00 <= lo <= 0xDFFF ∧
    c16rtomb false hi initial = (WcBytes [], ps3) ∧
    c16rtomb false lo ps3 = (WcBytes (enc 0x1F600), initial).
Proof.
  apply (c16rtomb_mbrtoc16 0x1F600 4 initial); [unfold valid_wc; lia|lia|done|done|lia].
Defined.

End Utf8Str.
