(* ===== verification/Ctype.v ===== *)
(** * Character classes of [libc/ctype]

    The functions of [ctype.h] for the C locale, on [int] values; a result
    that is not zero is [true]. *)

From S2P Require Import Prelude.
From stdpp Require Import base decidable list numbers strings.
From Stdlib Require Import ZArith Lia Ascii.

#[local] Open Scope c_scope.
#[local] Open Scope Z_scope.

Module Ctype.

Definition isupper (c : Z) : bool := (ch "A" <=? c) && (c <=? ch "Z").
Definition islower (c : Z) : bool := (ch "a" <=? c) && (c <=? ch "z").
Definition isdigit (c : Z) : bool := (ch "0" <=? c) && (c <=? ch "9").
Definition isalpha (c : Z) : bool := isupper c || islower c.
Definition isalnum (c : Z) : bool := isalpha c || isdigit c.
Definition isgraph (c : Z) : bool := (ch "!" <=? c) && (c <=? ch "~").
Definition isprint (c : Z) : bool := isgraph c || (c =? ch " ").
Definition ispunct (c : Z) : bool := isprint c && negb (c =? ch " ") && negb (isalnum c).
Definition isblank (c : Z) : bool := (c =? ch " ") || (c =? 9).
Definition iscntrl (c : Z) : bool := (0 <=? c) && (c <? 32).

(** ['\t'], ['\n'], ['\v'], ['\f'], ['\r'] and [' ']. *)
Definition isspace (c : Z) : bool :=
  (c =? 9) || (c =? 10) || (c =? 11) || (c =? 12) || (c =? 13) || (c =? ch " ").

Definition isxdigit (c : Z) : bool :=
  if isdigit c then true
  else if (ch "a" <=? c) && (c <=? ch "f") then true
  else if (ch "A" <=? c) && (c <=? ch "F") then true
  else false.

Definition tolower (c : Z) : Z :=
  if (ch "A" <=? c) && (c <=? ch "Z") then ch "a" + c - ch "A" else c.

Definition toupper (c : Z) : Z :=
  if (ch "a" <=? c) && (c <=? ch "z") then ch "A" + c - ch "a" else c.


Definition isascii (c : Z) : bool := (0 <=? c) && (c <? 128).

Ltac ctype :=
  unfold isxdigit, ispunct, isprint, isgraph, isalnum, isalpha, isupper, islower, isdigit,
    isspace, isblank, iscntrl, isascii, tolower, toupper in *.

Lemma tolower_byte c : 0 <= c < 256 → 0 <= tolower c < 256.
Proof. ctype. intros. case_if; lia. Qed.

Lemma tolower_0 c : 0 <= c → tolower c = 0 ↔ c = 0.
Proof. ctype. intros. case_if; lia. Qed.

Lemma isdigit_range c : isdigit c = true ↔ 48 <= c <= 57.
Proof. ctype. rewrite andb_true_iff, !Z.leb_le. lia. Qed.

(** The classes a character belongs to. *)
Definition classes_ok (c : Z) : bool :=
  Bool.eqb (isprint c) (isalnum c || ispunct c || (c =? 32)) &&
  negb (iscntrl c && isprint c) &&
  negb (isupper c && islower c) && negb (isalpha c && isdigit c) && negb (isalnum c && ispunct c) &&
  implb (isblank c) (isspace c) && implb (isxdigit c) (isalnum c) &&
  implb (isspace c) (iscntrl c || (c =? 32)) &&
  (tolower (toupper c) =? tolower c) && (toupper (tolower c) =? toupper c) &&
  Bool.eqb (isupper c) (negb (tolower c =? c)) && Bool.eqb (islower c) (negb (toupper c =? c)).

(** The character classes fit together on every [int]: printing
    characters are the letters, digits, punctuation and the space, without
    overlap and without control characters; blanks are spaces and hexadecimal
    digits alphanumeric; case conversion changes exactly the letters of the
    other case.  On ASCII every character but DEL is either printing or a
    control character: DEL, a control character in the POSIX locale, is in
    neither class. *)
Theorem ctype_classes c :
  classes_ok c = true ∧
  (isascii c = true → xorb (iscntrl c) (isprint c) = negb (c =? 127)).
Proof.
  destruct (decide (0 <= c < 256)) as [Hc|Hc].
  - revert c Hc. apply (byte_forall (λ c, classes_ok c = true ∧
      (isascii c = true → xorb (iscntrl c) (isprint c) = negb (c =? 127)))). by vm_compute.
  - unfold classes_ok. ctype.
    assert (c < 0 ∨ 256 <= c) as [H|H] by lia; split; intros;
    repeat match goal with
    | |- context [?a <=? ?b] => destruct (Z.leb_spec a b); try lia
    | |- context [?a <? ?b] => destruct (Z.ltb_spec a b); try lia
    | |- context [?a =? ?b] => destruct (Z.eqb_spec a b); try lia
    end; cbn in *; try done; b2p; lia.
Qed.

End Ctype.
