(* ===== verification/Memory.v ===== *)
(** * Byte memory and loops

    The flat memory the string functions run on, with the loop combinators
    their [for] and [while] statements translate to.  An address is a [Z], a
    byte a [Z] below 256.  Reading or writing an address that is not mapped is
    [Undef], so a theorem concluding [Ret] shows that every access is in
    bounds. *)

From S2P Require Import Prelude.
From stdpp Require Import base decidable list numbers gmap.
From Stdlib Require Import ZArith Lia.

#[local] Open Scope Z_scope.

Module Mem.

Abbreviation mem := (gmap Z Z).

Definition NULL : Z := 0.

(** ** Accesses *)

Definition load (a : Z) : M mem Z := λ m,
  match m !! a with Some x => Ret (x, m) | None => Undef end.

Definition store (a x : Z) : M mem () := λ m,
  match m !! a with Some _ => Ret ((), <[a := u8 x]> m) | None => Undef end.

(** The [n] bytes at [a] as a little-endian integer. *)
Fixpoint load_bytes (n : nat) (a : Z) : M mem Z :=
  match n with
  | O => mret 0
  | S n => x ← load a; y ← load_bytes n (a + 1); mret (x + 256 * y)
  end.

Fixpoint store_bytes (n : nat) (a v : Z) : M mem () :=
  match n with
  | O => mret ()
  | S n => store a (v mod 256);; store_bytes n (a + 1) (v / 256)
  end.

(** Accesses of more than a byte must be aligned. *)
Definition load_le (n : nat) (a : Z) : M mem Z :=
  if a mod Z.of_nat n =? 0 then load_bytes n a else M_undef.

Definition store_le (n : nat) (a v : Z) : M mem () :=
  if a mod Z.of_nat n =? 0 then store_bytes n a v else M_undef.

(** ** Loops *)

(** [for ( i = i0; i < i0 + n; i++ ) body]. *)
Fixpoint for_up {S} (n : nat) (i : Z) (body : Z → M S ()) : M S () :=
  match n with
  | O => mret ()
  | Datatypes.S n => body i;; for_up n (i + 1) body
  end.

(** The same with a body that may [return]. *)
Fixpoint for_ret {S R} (n : nat) (i : Z) (body : Z → M S (option R)) : M S (option R) :=
  match n with
  | O => mret None
  | Datatypes.S n =>
      r ← body i;
      match r with Some r => mret (Some r) | None => for_ret n (i + 1) body end
  end.

(** A loop without a bound of its own: the body says whether to go on
    ([inl]) or to leave ([inr]). *)
Fixpoint loop {S A R} (fuel : nat) (body : A → M S (A + R)) (a : A) : M S R :=
  match fuel with
  | O => M_nofuel
  | Datatypes.S fuel =>
      r ← body a;
      match r with inl a => loop fuel body a | inr r => mret r end
  end.

(** A loop that reads a new address in each round ends after as many rounds as
    there are mapped addresses. *)
Definition scan {A R} (body : A → M mem (A + R)) (a : A) : M mem R := λ m,
  loop (S (size m)) body a m.

(** ** Loops, by their sequence of states *)

Lemma for_up_run {S} n i body (s : nat → S) :
  (∀ k, (k < n)%nat → body (i + Z.of_nat k) (s k) = Ret ((), s (Datatypes.S k))) →
  for_up n i body (s O) = Ret ((), s n).
Proof.
  revert i s. induction n as [|n IH]; intros i s H; [done|]. cbn [for_up].
  assert (H0 := H O ltac:(lia)). rewrite Z.add_0_r in H0. step H0.
  apply (IH _ (λ k, s (Datatypes.S k))). intros k Hk. rewrite <- (H (Datatypes.S k)) by lia.
  f_equal. lia.
Qed.

Lemma for_ret_some {S R} n i body (s : nat → S) k (r : R) s' :
  (k < n)%nat →
  (∀ j, (j < k)%nat → body (i + Z.of_nat j) (s j) = Ret (None, s (Datatypes.S j))) →
  body (i + Z.of_nat k) (s k) = Ret (Some r, s') →
  for_ret n i body (s O) = Ret (Some r, s').
Proof.
  revert i s k. induction n as [|n IH]; intros i s k Hk H Hr; [lia|]. cbn [for_ret].
  destruct k as [|k].
  - rewrite Z.add_0_r in Hr. by step Hr.
  - assert (H0 := H O ltac:(lia)). rewrite Z.add_0_r in H0. step H0.
    apply (IH _ (λ k, s (Datatypes.S k)) k); [lia| |].
    + intros j Hj. rewrite <- (H (Datatypes.S j)) by lia. f_equal. lia.
    + rewrite <- Hr. f_equal. lia.
Qed.

Lemma for_ret_none {S R} n i (body : Z → M S (option R)) (s : nat → S) :
  (∀ j, (j < n)%nat → body (i + Z.of_nat j) (s j) = Ret (None, s (Datatypes.S j))) →
  for_ret n i body (s O) = Ret (None, s n).
Proof.
  revert i s. induction n as [|n IH]; intros i s H; [done|]. cbn [for_ret].
  assert (H0 := H O ltac:(lia)). rewrite Z.add_0_r in H0. step H0.
  apply (IH _ (λ k, s (Datatypes.S k))). intros k Hk. rewrite <- (H (Datatypes.S k)) by lia.
  f_equal. lia.
Qed.

Lemma loop_run {S A R} fuel body (a : nat → A) (s : nat → S) k o :
  (k < fuel)%nat →
  (∀ j, (j < k)%nat → body (a j) (s j) = Ret (inl (a (Datatypes.S j)), s (Datatypes.S j))) →
  match body (a k) (s k) with
  | Ret (inr r, s') => Ret (r, s')
  | Ret (inl _, _) => OutOfFuel
  | Undef => Undef
  | OutOfFuel => OutOfFuel
  end = (o : outcome (R * S)) →
  o ≠ OutOfFuel →
  loop fuel body (a O) (s O) = o.
Proof.
  revert fuel a s. induction k as [|k IH]; intros [|fuel] a s Hk H Hr Ho; try lia; cbn [loop].
  - unfold mbind, M_bind. destruct (body (a O) (s O)) as [[[|] ?]| |]; subst o; done.
  - step (H O ltac:(lia)).
    apply (IH fuel (λ k, a (Datatypes.S k)) (λ k, s (Datatypes.S k))); auto with lia.
Qed.

(** ** Objects in memory *)

Definition is_byte (x : Z) : Prop := 0 <= x < 256.

(** [l] is stored at [a]. *)
Definition bytes_at (m : mem) (a : Z) (l : list Z) : Prop :=
  Forall is_byte l ∧ ∀ i : nat, (i < length l)%nat → m !! (a + Z.of_nat i) = l !! i.

(** The [n] addresses from [a] are mapped. *)
Definition mapped (m : mem) (a : Z) (n : nat) : Prop :=
  ∀ i : nat, (i < n)%nat → is_Some (m !! (a + Z.of_nat i)).

(** The memory with [l] stored at [a]. *)
Fixpoint mem_write (m : mem) (a : Z) (l : list Z) : mem :=
  match l with
  | [] => m
  | x :: l => mem_write (<[a := x]> m) (a + 1) l
  end.

(** A string: its bytes are not zero and a zero byte follows. *)
Definition cstr_at (m : mem) (a : Z) (s : list Z) : Prop :=
  Forall (λ c, c ≠ 0) s ∧ bytes_at m a (s ++ [0]).

Definition disjoint_from (a : Z) (n : nat) (b : Z) (k : nat) : Prop :=
  a + Z.of_nat n <= b ∨ b + Z.of_nat k <= a.

Lemma mem_write_lookup m a l x :
  mem_write m a l !! x =
  if bool_decide (a <= x < a + Z.of_nat (length l)) then l !! Z.to_nat (x - a) else m !! x.
Proof.
  revert m a. induction l as [|y l IH]; intros m a; cbn [mem_write length].
  - rewrite bool_decide_false by lia. done.
  - rewrite IH. repeat case_bool_decide; try lia.
    + replace (Z.to_nat (x - a)) with (S (Z.to_nat (x - (a + 1)))) by lia. done.
    + assert (x = a) as -> by lia. rewrite lookup_insert_eq.
      by rewrite Z.sub_diag.
    + rewrite lookup_insert_ne by lia. done.
Qed.

Lemma mem_write_out m a l x :
  x < a ∨ a + Z.of_nat (length l) <= x → mem_write m a l !! x = m !! x.
Proof. intros H. rewrite mem_write_lookup, bool_decide_false by lia. done. Qed.

Lemma mem_write_in m a l (i : nat) :
  (i < length l)%nat → mem_write m a l !! (a + Z.of_nat i) = l !! i.
Proof.
  intros H. rewrite mem_write_lookup, bool_decide_true by lia. f_equal. lia.
Qed.

Lemma mem_write_app m a l1 l2 :
  mem_write m a (l1 ++ l2) = mem_write (mem_write m a l1) (a + Z.of_nat (length l1)) l2.
Proof.
  revert m a. induction l1 as [|x l1 IH]; intros m a; cbn [app mem_write length].
  - f_equal. lia.
  - rewrite IH. f_equal. lia.
Qed.

Lemma mem_write_snoc m a l x :
  mem_write m a (l ++ [x]) = <[a + Z.of_nat (length l) := x]> (mem_write m a l).
Proof. by rewrite mem_write_app. Qed.

(** Storing what is there already changes nothing. *)
Lemma mem_write_same m a l : bytes_at m a l → mem_write m a l = m.
Proof.
  intros [_ H]. apply map_eq. intros x. rewrite mem_write_lookup. case_bool_decide; [|done].
  rewrite <- H by lia. f_equal. lia.
Qed.

Lemma mapped_lookup m a n x : mapped m a n → a <= x < a + Z.of_nat n → is_Some (m !! x).
Proof.
  intros H Hx. replace x with (a + Z.of_nat (Z.to_nat (x - a))) by lia. apply H. lia.
Qed.

Lemma bytes_at_lookup m a l x :
  bytes_at m a l → a <= x < a + Z.of_nat (length l) → m !! x = l !! Z.to_nat (x - a).
Proof. intros [_ H] Hx. rewrite <- H by lia. f_equal. lia. Qed.

Lemma bytes_at_mapped m a l : bytes_at m a l → mapped m a (length l).
Proof.
  intros H i Hi. rewrite (bytes_at_lookup _ _ _ _ H) by lia.
  apply lookup_lt_is_Some. lia.
Qed.

Lemma mapped_write m a l b n : mapped m b n → mapped (mem_write m a l) b n.
Proof.
  intros H i Hi. rewrite mem_write_lookup. case_bool_decide; [|by apply H].
  apply lookup_lt_is_Some. lia.
Qed.

Lemma mapped_le m a n k : mapped m a n → (k <= n)%nat → mapped m a k.
Proof. intros H Hk i Hi. apply H. lia. Qed.

Lemma mapped_sub m a n b k :
  mapped m a n → a <= b → b + Z.of_nat k <= a + Z.of_nat n → mapped m b k.
Proof. intros H H1 H2 i Hi. eapply mapped_lookup; [done|]. lia. Qed.

Lemma bytes_at_write m a l : Forall is_byte l → bytes_at (mem_write m a l) a l.
Proof. intros H. split; [done|]. intros i Hi. by apply mem_write_in. Qed.

Lemma bytes_at_frame m a l b k :
  bytes_at m a l → disjoint_from b (length k) a (length l) → bytes_at (mem_write m b k) a l.
Proof.
  intros [H1 H2] Hd. split; [done|]. intros i Hi. unfold disjoint_from in Hd.
  rewrite mem_write_out by lia. by apply H2.
Qed.

Lemma bytes_at_app m a l1 l2 :
  bytes_at m a (l1 ++ l2) ↔ bytes_at m a l1 ∧ bytes_at m (a + Z.of_nat (length l1)) l2.
Proof.
  unfold bytes_at. rewrite Forall_app, length_app. split.
  - intros [[H1 H2] H]. split_and!; try done; intros i Hi.
    + rewrite H by lia. by rewrite lookup_app_l by lia.
    + replace (a + Z.of_nat (length l1) + Z.of_nat i) with (a + Z.of_nat (length l1 + i)) by lia.
      rewrite H by lia. by rewrite lookup_app_r, Nat.add_comm, Nat.add_sub by lia.
  - intros [[H1 H2] [H3 H4]]. split; [done|]. intros i Hi.
    destruct (decide (i < length l1)%nat).
    + rewrite H2, lookup_app_l by lia. done.
    + rewrite lookup_app_r by lia. rewrite <- H4 by lia. f_equal. lia.
Qed.

(** An object has no more bytes than the memory. *)
Lemma bytes_at_size m a l : bytes_at m a l → (length l <= size m)%nat.
Proof.
  intros Hb. rewrite <- size_dom.
  set (X := list_to_set (seqZ a (Z.of_nat (length l))) : gset Z).
  assert (size X = length l) as <-.
  { unfold X. rewrite size_list_to_set by apply NoDup_seqZ. rewrite length_seqZ. lia. }
  apply subseteq_size. intros x Hx. unfold X in Hx.
  rewrite elem_of_list_to_set, elem_of_seqZ in Hx. apply elem_of_dom.
  eapply mapped_lookup; [by apply bytes_at_mapped|]. lia.
Qed.

Lemma size_mem_write m a l : mapped m a (length l) → size (mem_write m a l) = size m.
Proof.
  intros H. rewrite <- !size_dom. f_equal. apply set_eq. intros x.
  rewrite !elem_of_dom, mem_write_lookup. case_bool_decide; [|done].
  split; intros _; [eapply mapped_lookup; [done|lia]|apply lookup_lt_is_Some; lia].
Qed.

(** ** Strings *)

Lemma cstr_at_lookup m a s (i : nat) :
  cstr_at m a s → (i <= length s)%nat →
  m !! (a + Z.of_nat i) = Some (default 0 (s !! i)).
Proof.
  intros [_ Hb] Hi. rewrite (bytes_at_lookup _ _ _ _ Hb) by (rewrite length_app; simpl; lia).
  replace (Z.to_nat (a + Z.of_nat i - a)) with i by lia.
  destruct (decide (i < length s)%nat) as [Hlt|].
  - rewrite lookup_app_l by done. destruct (lookup_lt_is_Some_2 s i Hlt) as [x ->]. done.
  - rewrite lookup_app_r by lia. replace (i - length s)%nat with O by lia.
    rewrite (lookup_ge_None_2 s i) by lia. done.
Qed.

Lemma cstr_nz m a s (i : nat) :
  cstr_at m a s → (i < length s)%nat → default 0 (s !! i) ≠ 0 ∧ is_byte (default 0 (s !! i)).
Proof.
  intros [Hnz [Hb _]] Hi. destruct (lookup_lt_is_Some_2 s i Hi) as [x Hx]. rewrite Hx.
  rewrite Forall_app in Hb. destruct Hb as [Hb _].
  split; [exact (Forall_lookup_1 _ _ _ _ Hnz Hx)|exact (Forall_lookup_1 _ _ _ _ Hb Hx)].
Qed.

Lemma cstr_end s : default 0 (s !! length s) = 0.
Proof. by rewrite lookup_ge_None_2 by lia. Qed.

Lemma cstr_size m a s : cstr_at m a s → (length s < size m)%nat.
Proof. intros [_ H]. apply bytes_at_size in H. rewrite length_app in H. simpl in H. lia. Qed.

Lemma cstr_byte m a s : cstr_at m a s → Forall is_byte s.
Proof. intros [_ [H _]]. apply Forall_app in H as [H _]. exact H. Qed.

Lemma cstr_tail m a s (k : nat) :
  cstr_at m a s → (k <= length s)%nat → cstr_at m (a + Z.of_nat k) (drop k s).
Proof.
  intros [H1 H2] Hk. split; [by apply Forall_drop|].
  rewrite <- (take_drop k s), <- app_assoc in H2. apply bytes_at_app in H2 as [_ H2].
  by rewrite length_take, Nat.min_l in H2 by lia.
Qed.

Lemma cstr_frame m a s b k :
  cstr_at m a s → disjoint_from b (length k) a (S (length s)) → cstr_at (mem_write m b k) a s.
Proof.
  intros [H1 H2] Hd. split; [done|]. apply bytes_at_frame; [done|].
  rewrite length_app. simpl. by rewrite Nat.add_1_r.
Qed.

(** ** Running accesses *)

Lemma load_run m a x : m !! a = Some x → load a m = Ret (x, m).
Proof. unfold load. by intros ->. Qed.

Lemma load_str m a s (i : nat) :
  cstr_at m a s → (i <= length s)%nat → load (a + Z.of_nat i) m = Ret (default 0 (s !! i), m).
Proof. intros H Hi. apply load_run. by apply cstr_at_lookup. Qed.

Lemma store_run m a x : is_Some (m !! a) → is_byte x → store a x m = Ret ((), <[a := x]> m).
Proof.
  unfold store. intros [y ->] Hx. rewrite wrapu_id; [done|]. exact Hx.
Qed.

(** One more byte of a list that is being written. *)
Lemma store_next m a l (k : nat) x :
  mapped m a (length l) → l !! k = Some x → is_byte x →
  store (a + Z.of_nat k) x (mem_write m a (take k l)) =
  Ret ((), mem_write m a (take (S k) l)).
Proof.
  intros Hm Hx Hb. pose proof (lookup_lt_Some _ _ _ Hx).
  rewrite store_run; [| |done].
  - rewrite (take_S_r l k x Hx), mem_write_snoc, length_take, Nat.min_l by lia. done.
  - apply (mapped_write m a _ a (length l)); [done|lia].
Qed.

(** Little-endian accesses move the bytes. *)
Lemma load_bytes_run m a l n :
  bytes_at m a l → n = length l →
  ∃ v, load_bytes n a m = Ret (v, m) ∧
       ∀ b m', mapped m' b n → store_bytes n b v m' = Ret ((), mem_write m' b l).
Proof.
  revert a n. induction l as [|x l IH]; intros a n Hb ->; cbn [length load_bytes].
  - exists 0. done.
  - change (x :: l) with ([x] ++ l) in Hb. apply bytes_at_app in Hb as [Hx Hl].
    destruct (IH _ _ Hl eq_refl) as (v & Hv & Hs). exists (x + 256 * v).
    destruct Hx as [Hx1 Hx2]. apply Forall_cons in Hx1 as [Hx1 _]. unfold is_byte in Hx1.
    assert (Hx := Hx2 O ltac:(simpl; lia)). cbn in Hx. rewrite Z.add_0_r in Hx.
    split.
    + step (load_run _ _ _ Hx). cbn [length] in Hv. by step Hv.
    + intros b m' Hm. cbn [store_bytes mem_write length] in *.
      replace ((x + 256 * v) mod 256) with x
        by (rewrite (Z.mul_comm 256), Z.mod_add, Z.mod_small by lia; done).
      replace ((x + 256 * v) / 256) with v
        by (rewrite (Z.mul_comm 256), Z.div_add, Z.div_small by lia; done).
      assert (Hb := Hm O ltac:(lia)). rewrite Z.add_0_r in Hb.
      step (store_run _ _ _ Hb Hx1). apply Hs.
      apply (mapped_write m' b [x] (b + 1)). eapply mapped_sub; [exact Hm|lia|lia].
Qed.

(** A scan whose counter goes up from 0 and that leaves at [k]. *)
Lemma scan_run {R} (body : Z → M mem (Z + R)) (s : nat → mem) k (r : R) s' :
  (k <= size (s O))%nat →
  (∀ j, (j < k)%nat → body (Z.of_nat j) (s j) = Ret (inl (Z.of_nat j + 1), s (S j))) →
  body (Z.of_nat k) (s k) = Ret (inr r, s') →
  scan body 0 (s O) = Ret (r, s').
Proof.
  intros Hk H Hr. unfold scan.
  apply (loop_run (S (size (s O))) body Z.of_nat s k); [lia| |by rewrite Hr|done].
  intros j Hj. rewrite H by done. do 3 f_equal. lia.
Qed.

(** A scan that runs into undefined behaviour at [k]. *)
Lemma scan_undef {R} (body : Z → M mem (Z + R)) m i k :
  (k <= size m)%nat →
  (∀ j, (j < k)%nat → body (i + Z.of_nat j) m = Ret (inl (i + Z.of_nat j + 1), m)) →
  body (i + Z.of_nat k) m = Undef →
  scan body i m = Undef.
Proof.
  intros Hk H Hr. unfold scan. replace i with (i + Z.of_nat 0) at 1 by lia.
  apply (loop_run (S (size m)) body (λ j, i + Z.of_nat j) (λ _, m) k); [lia| |by rewrite Hr|done].
  intros j Hj. rewrite H by done. do 3 f_equal. lia.
Qed.

(** [scan_run] for a scan that does not write. *)
Lemma scan_run_const {R} (body : Z → M mem (Z + R)) m k (r : R) :
  (k <= size m)%nat →
  (∀ j, (j < k)%nat → body (Z.of_nat j) m = Ret (inl (Z.of_nat j + 1), m)) →
  body (Z.of_nat k) m = Ret (inr r, m) →
  scan body 0 m = Ret (r, m).
Proof. apply (scan_run body (λ _, m)). Qed.

(** The bytes of an integer, lowest first. *)
Fixpoint le_split (n : nat) (v : Z) : list Z :=
  match n with
  | O => []
  | S n => v mod 256 :: le_split n (v / 256)
  end.

Lemma length_le_split n v : length (le_split n v) = n.
Proof. revert v. induction n; intros v; simpl; auto. Qed.

Lemma store_bytes_run n m a v :
  mapped m a n → store_bytes n a v m = Ret ((), mem_write m a (le_split n v)).
Proof.
  revert m a v. induction n as [|n IH]; intros m a v Hm; [done|]. cbn [store_bytes le_split mem_write].
  assert (Hb := Hm O ltac:(lia)). rewrite Z.add_0_r in Hb.
  step (store_run m a (v mod 256) Hb ltac:(unfold is_byte; apply Z.mod_pos_bound; lia)).
  apply IH, (mapped_write m a [v mod 256] (a + 1)). eapply mapped_sub; [exact Hm|lia|lia].
Qed.

(** ** Checking memories by evaluation *)

Definition bytes_atb (m : mem) (a : Z) (l : list Z) : bool :=
  forallb (λ x, (0 <=? x) && (x <? 256)) l &&
  forallb (λ i, bool_decide (m !! (a + Z.of_nat i) = l !! i)) (seq 0 (length l)).

Definition mappedb (m : mem) (a : Z) (n : nat) : bool :=
  forallb (λ i, bool_decide (is_Some (m !! (a + Z.of_nat i)))) (seq 0 n).

Definition cstr_atb (m : mem) (a : Z) (s : list Z) : bool :=
  forallb (λ c, negb (c =? 0)) s && bytes_atb m a (s ++ [0]).

Lemma bytes_atb_ok m a l : bytes_atb m a l = true → bytes_at m a l.
Proof.
  unfold bytes_atb. rewrite andb_true_iff, !forallb_forall. intros [H1 H2]. split.
  - apply Forall_forall. intros x Hx%list_elem_of_In. specialize (H1 x Hx). b2p. done.
  - intros i Hi. eapply bool_decide_eq_true, H2, in_seq. lia.
Qed.

Lemma mappedb_ok m a n : mappedb m a n = true → mapped m a n.
Proof.
  unfold mappedb. rewrite forallb_forall. intros H i Hi. eapply bool_decide_eq_true, H, in_seq. lia.
Qed.

Lemma cstr_atb_ok m a s : cstr_atb m a s = true → cstr_at m a s.
Proof.
  unfold cstr_atb. rewrite andb_true_iff, forallb_forall. intros [H1 H2]. split.
  - apply Forall_forall. intros x Hx%list_elem_of_In. specialize (H1 x Hx). b2p. done.
  - by apply bytes_atb_ok.
Qed.

(** ** Lexicographic comparison of byte strings *)
Fixpoint lex (l1 l2 : list Z) : Z :=
  match l1, l2 with
  | [], [] => 0
  | [], _ => -1
  | _, [] => 1
  | x :: l1, y :: l2 => if x <? y then -1 else if y <? x then 1 else lex l1 l2
  end.

Lemma lex_refl l : lex l l = 0.
Proof. induction l as [|x l IH]; [done|]. cbn [lex]. by rewrite Z.ltb_irrefl. Qed.

Lemma lex_0 l1 l2 : lex l1 l2 = 0 ↔ l1 = l2.
Proof.
  split; [|intros ->; apply lex_refl]. revert l2.
  induction l1 as [|x l1 IH]; intros [|y l2]; cbn [lex]; try done. b2p_if; try done.
  intros H. f_equal; [lia|]. by apply IH.
Qed.

(** The first position where two lists of the same length differ, if any. *)
Lemma first_diff (l1 l2 : list Z) :
  length l1 = length l2 →
  l1 = l2 ∨ ∃ (k : nat) x y, take k l1 = take k l2 ∧ l1 !! k = Some x ∧ l2 !! k = Some y ∧ x ≠ y.
Proof.
  revert l2. induction l1 as [|x l1 IH]; intros [|y l2] H; try done; [by left|].
  destruct (decide (x = y)) as [->|Hxy]; [|right; by exists O, x, y].
  destruct (IH l2) as [->|(k & a & b & Ht & Ha & Hb & Hne)]; [by injection H|by left|].
  right. exists (S k), a, b. simpl. by rewrite Ht.
Qed.

Lemma lex_diff (l1 l2 : list Z) k x y :
  take k l1 = take k l2 → l1 !! k = Some x → l2 !! k = Some y → x ≠ y →
  lex l1 l2 = if x <? y then -1 else 1.
Proof.
  revert l1 l2. induction k as [|k IH]; intros [|a l1] [|b l2] Ht H1 H2 Hne; try done.
  - injection H1 as ->. injection H2 as ->. cbn [lex]. b2p_if; lia.
  - injection Ht as -> Ht. cbn [lex]. rewrite Z.ltb_irrefl. by apply IH.
Qed.

(** Discharge the memory hypotheses of a theorem at a concrete memory. *)
Ltac mem_eval :=
  first [ apply bytes_atb_ok | apply cstr_atb_ok | apply mappedb_ok | idtac ];
  solve [ vm_compute; reflexivity | unfold disjoint_from; vm_compute; intuition discriminate
        | unfold disjoint_from; simpl; lia ].

End Mem.
