(* ===== verification/MemFuncs.v ===== *)
(** * Memory functions of [libc/string]

    [memcpy] with its word-sized path, [memmove], [memset] and the functions
    that search and compare blocks of memory.  A word is an
    [unsigned long] of 8 bytes, as on the 64-bit targets. *)

From S2P Require Import Prelude Memory.
From stdpp Require Import base decidable list numbers gmap.
From Stdlib Require Import ZArith Lia.

#[local] Open Scope Z_scope.

Module MemFuncs.
Import Mem.

Definition memcpy_slow (dst_ptr src_ptr size : Z) : M mem Z :=
  for_up (Z.to_nat size) 0 (λ i, x ← load (src_ptr + i); store (dst_ptr + i) x);;
  mret dst_ptr.

(** The unions [du] and [su] and what is left of [size]. *)
Record copy_state := CopyState { dstval : Z; srcval : Z; left : Z }.

(** [*du.dst++ = *su.src++, size -= n] for an [n]-byte type. *)
Definition memcpy_move (n : nat) (st : copy_state) : M mem copy_state :=
  v ← load_le n (srcval st);
  store_le n (dstval st) v;;
  mret (CopyState (dstval st + Z.of_nat n) (srcval st + Z.of_nat n) (left st - Z.of_nat n)).

Fixpoint memcpy_words (num_copies : nat) (st : copy_state) : M mem copy_state :=
  match num_copies with
  | O => mret st
  | S num_copies => st ← memcpy_move 8 st; memcpy_words num_copies st
  end.

Definition memcpy_head (n : nat) (st : copy_state) : M mem copy_state :=
  let n' := Z.of_nat n in
  if (n' <=? left st) && (Z.land (dstval st) (n' - 1) =? 0) && negb (Z.land (dstval st) (2 * n' - 1) =? 0)
  then memcpy_move n st else mret st.

Definition memcpy_tail (n : nat) (st : copy_state) : M mem copy_state :=
  if Z.of_nat n <=? left st then memcpy_move n st else mret st.

(** An [unsigned long] has 8 bytes; [scram] does not return. *)
Definition memcpy (dst_ptr src_ptr size : Z) : M mem Z :=
  if (dst_ptr =? src_ptr) || (size =? 0) then mret dst_ptr
  else
    let dst_end := dst_ptr + size in
    let src_end := src_ptr + size in
    if ((dst_ptr <? src_ptr) && (src_ptr <? dst_end)) || ((src_ptr <? dst_ptr) && (dst_ptr <? src_end))
    then M_undef
    else
      let unalign_mask := 8 - 1 in
      let src_unalign := Z.land src_ptr unalign_mask in
      let dst_unalign := Z.land dst_ptr unalign_mask in
      if negb (src_unalign =? dst_unalign) then memcpy_slow dst_ptr src_ptr size
      else
        let st := CopyState dst_ptr src_ptr size in
        st ← (if negb (dst_unalign =? 0) then
                st ← memcpy_head 1 st; st ← memcpy_head 2 st; memcpy_head 4 st
              else mret st);
        st ← memcpy_words (Z.to_nat (left st / 8)) st;
        (if negb (left st =? 0) then
           st ← memcpy_tail 4 st; st ← memcpy_tail 2 st; memcpy_tail 1 st
         else mret st);;
        mret dst_ptr.

Definition memmove (dest src n : Z) : M mem Z :=
  (if dest <? src then
     for_up (Z.to_nat n) 0 (λ i, x ← load (src + i); store (dest + i) x)
   else
     for_up (Z.to_nat n) 0 (λ i, x ← load (src + (n - (i + 1))); store (dest + (n - (i + 1))) x));;
  mret dest.

Definition ulong_value (value : Z) : Z :=
  let v := u8 value in
  Z.lor (Z.lor (Z.lor (Z.lor (Z.lor (Z.lor (Z.lor
    (Z.shiftl v 0) (Z.shiftl v 8)) (Z.shiftl v 16)) (Z.shiftl v 24))
    (Z.shiftl v 32)) (Z.shiftl v 40)) (Z.shiftl v 48)) (Z.shiftl v 56).

Definition memset (dest_ptr value length : Z) : M mem Z :=
  '(dest, length) ← (
    if Z.land dest_ptr (8 - 1) =? 0 then
      let ulong_length := length / 8 in
      for_up (Z.to_nat ulong_length) 0 (λ i, store_le 8 (dest_ptr + 8 * i) (ulong_value value));;
      mret (dest_ptr + ulong_length * 8, length - ulong_length * 8)
    else mret (dest_ptr, length));
  for_up (Z.to_nat length) 0 (λ i, store (dest + i) (u8 value));;
  mret dest_ptr.

Definition explicit_bzero (dest size : Z) : M mem () :=
  for_up (Z.to_nat size) 0 (λ i, store (dest + i) 0).

Definition memchr (buf c size : Z) : M mem Z :=
  r ← for_ret (Z.to_nat size) 0 (λ i,
        x ← load (buf + i); mret (if x =? u8 c then Some (buf + i) else None));
  mret (default NULL r).

(** The loop counts down: round [j] looks at [i = n - j]. *)
Definition memrchr (buf c n : Z) : M mem Z :=
  r ← for_ret (Z.to_nat n) 0 (λ j,
        let i := n - j in
        x ← load (buf + (i - 1)); mret (if x =? u8 c then Some (buf + i - 1) else None));
  mret (default NULL r).

Definition memcmp (a b size : Z) : M mem Z :=
  r ← for_ret (Z.to_nat size) 0 (λ i,
        x ← load (a + i); y ← load (b + i);
        mret (if x <? y then Some (-1) else if y <? x then Some 1 else None));
  mret (default 0 r).

Definition memccpy (dest src c n : Z) : M mem Z :=
  r ← for_ret (Z.to_nat n) 0 (λ i,
        x ← load (src + i); store (dest + i) x;;
        mret (if x =? u8 c then Some (dest + i + 1) else None));
  mret (default NULL r).

(** One round: [(result, done)] from the two bytes, without a branch. *)
Definition timingsafe_step (x y : Z) (st : Z * Z) : Z * Z :=
  let '(result, done_) := st in
  let lt := Z.shiftr (x - y) 8 in
  let gt := Z.shiftr (y - x) 8 in
  let cmp := lt - gt in
  (Z.lor result (Z.land cmp (Z.lnot done_)), Z.lor done_ (Z.lor lt gt)).

Fixpoint timingsafe_loop (n : nat) (a b : Z) (st : Z * Z) : M mem (Z * Z) :=
  match n with
  | O => mret st
  | S n => x ← load a; y ← load b; timingsafe_loop n (a + 1) (b + 1) (timingsafe_step x y st)
  end.

Definition timingsafe_memcmp (a b size : Z) : M mem Z :=
  st ← timingsafe_loop (Z.to_nat size) a b (0, 0);
  mret (fst st).

(** ** Copying *)

Section Copy.
Context (m : mem) (dst src : Z) (l : list Z).
Hypothesis (Hsrc : bytes_at m src l).
Hypothesis (Hdst : mapped m dst (length l)).

(** Memory and cursors with [k] bytes copied. *)
Let cm (k : nat) : mem := mem_write m dst (take k l).
Let cp (k : nat) : copy_state :=
  CopyState (dst + Z.of_nat k) (src + Z.of_nat k) (Z.of_nat (length l) - Z.of_nat k).

(** Going up, a byte is read before it is overwritten when the destination
    starts below the source or the two do not meet. *)
Lemma copy_up (n : Z) :
  dst <= src ∨ disjoint_from dst (length l) src (length l) →
  n = Z.of_nat (length l) →
  for_up (Z.to_nat n) 0 (λ i, x ← load (src + i); store (dst + i) x) m =
  Ret ((), mem_write m dst l).
Proof.
  intros Hd ->. rewrite Nat2Z.id. unfold disjoint_from in Hd.
  rewrite (for_up_run _ _ _ cm).
  - unfold cm. by rewrite firstn_all.
  - intros k Hk. rewrite Z.add_0_l. destruct (lookup_lt_is_Some_2 l k Hk) as [x Hx].
    assert (Hb : is_byte x) by (destruct Hsrc as [H _]; exact (Forall_lookup_1 _ _ _ _ H Hx)).
    assert (Hload : load (src + Z.of_nat k) (cm k) = Ret (x, cm k)).
    { apply load_run. unfold cm. rewrite mem_write_out by (rewrite length_take; lia).
      destruct Hsrc as [_ H]. rewrite H by done. done. }
    step Hload. by apply store_next.
Qed.

Context (Hdisj : disjoint_from dst (length l) src (length l)).

Lemma memcpy_slow_run n :
  n = Z.of_nat (length l) → memcpy_slow dst src n m = Ret (dst, mem_write m dst l).
Proof. intros ->. unfold memcpy_slow. by step (copy_up _ (or_intror Hdisj) eq_refl). Qed.

Lemma memcpy_move_run n k :
  (k + n <= length l)%nat →
  (dst + Z.of_nat k) mod Z.of_nat n = 0 → (src + Z.of_nat k) mod Z.of_nat n = 0 →
  memcpy_move n (cp k) (cm k) = Ret (cp (k + n), cm (k + n)).
Proof.
  intros Hk Hd Hs. unfold memcpy_move, load_le, store_le. cbn [dstval srcval left cp].
  rewrite Hd, Hs. cbn [Z.eqb].
  set (b := take n (drop k l)).
  assert (Hbl : length b = n) by (unfold b; rewrite length_take, length_drop; lia).
  assert (Hb : bytes_at (cm k) (src + Z.of_nat k) b).
  { apply bytes_at_frame.
    - pose proof Hsrc as H. rewrite <- (take_drop k l), <- (take_drop n (drop k l)) in H.
      apply bytes_at_app in H as [_ H]. apply bytes_at_app in H as [H _].
      by rewrite length_take, Nat.min_l in H by lia.
    - unfold disjoint_from in *. rewrite Hbl, length_take. lia. }
  destruct (load_bytes_run _ _ _ n Hb (eq_sym Hbl)) as (v & Hv & Hst).
  step Hv. rewrite (M_bind_ret _ _ _ () (cm (k + n))).
  - unfold cp. rewrite M_ret_run. do 3 f_equal; lia.
  - rewrite Hst.
    + unfold cm. rewrite <- (take_take_drop l k n), mem_write_app, length_take, Nat.min_l by lia.
      done.
    + apply mapped_write. eapply mapped_sub; [exact Hdst|lia|lia].
Qed.

(** Alignment of both cursors with [k] bytes copied. *)
Hypothesis (Hal : src mod 8 = dst mod 8).

Lemma cursor_mod k n :
  n = 1 ∨ n = 2 ∨ n = 4 ∨ n = 8 → (dst + k) mod n = 0 → (src + k) mod n = 0.
Proof.
  intros Hn Hd. destruct Hn as [->|[->|[->| ->]]]; Z.to_euclidean_division_equations; lia.
Qed.

Lemma memcpy_words_run c k :
  (k + 8 * c <= length l)%nat → (dst + Z.of_nat k) mod 8 = 0 ∨ c = O →
  memcpy_words c (cp k) (cm k) = Ret (cp (k + 8 * c), cm (k + 8 * c)).
Proof.
  revert k. induction c as [|c IH]; intros k Hk Ha; cbn [memcpy_words].
  - rewrite Nat.mul_0_r, Nat.add_0_r. done.
  - destruct Ha as [Ha|]; [|lia].
    step (memcpy_move_run 8 k ltac:(lia) Ha (cursor_mod _ 8 ltac:(lia) Ha)).
    rewrite IH; [|lia|].
    + by replace (k + 8 + 8 * c)%nat with (k + 8 * S c)%nat by lia.
    + left. rewrite Nat2Z.inj_add, Z.add_assoc. change (Z.of_nat 8) with (1 * 8).
      by rewrite Z.mod_add by lia.
Qed.

Lemma memcpy_head_run n k :
  (n = 1 ∨ n = 2 ∨ n = 4)%nat → (k <= length l)%nat →
  ∃ k', (k <= k' <= length l)%nat ∧ memcpy_head n (cp k) (cm k) = Ret (cp k', cm k') ∧
        ((dst + Z.of_nat k) mod Z.of_nat n = 0 →
         (dst + Z.of_nat k') mod (2 * Z.of_nat n) = 0 ∨
         k' = k ∧ Z.of_nat (length l) - Z.of_nat k' < Z.of_nat n) ∧
        ((dst + Z.of_nat k) mod Z.of_nat n ≠ 0 → k' = k).
Proof.
  intros Hn Hk. unfold memcpy_head. cbn [dstval srcval left cp].
  assert (Hz : Z.of_nat n = 2 ^ Z.log2 (Z.of_nat n)) by (destruct Hn as [->|[->| ->]]; done).
  assert (Hp : 0 <= Z.log2 (Z.of_nat n)) by apply Z.log2_nonneg.
  rewrite (land_pow2_mod _ (Z.log2 (Z.of_nat n))), <- Hz by lia.
  rewrite (land_pow2_mod _ (Z.succ (Z.log2 (Z.of_nat n))) (2 * Z.of_nat n - 1)),
    Z.pow_succ_r, <- Hz by (rewrite ?Z.pow_succ_r, <- ?Hz; lia).
  destruct ((_ && _) && _) eqn:E; b2p.
  - exists (k + n)%nat. rewrite memcpy_move_run;
      [split_and!; [lia|lia|done| |lia]|lia|lia|].
    + intros _. left. clear Hz Hp. destruct Hn as [->|[->| ->]]; Z.to_euclidean_division_equations; lia.
    + apply cursor_mod; [lia|done].
  - exists k. split_and!; [lia|lia|done| |lia]. intros. right. lia.
  - exists k. split_and!; [lia|lia|done|lia|lia].
  - exists k. split_and!; [lia|lia|done| |lia]. intros. left. lia.
Qed.

Lemma memcpy_tail_run n k :
  (n = 1 ∨ n = 2 ∨ n = 4)%nat → (k <= length l)%nat →
  (Z.of_nat n <= Z.of_nat (length l) - Z.of_nat k → (dst + Z.of_nat k) mod Z.of_nat n = 0) →
  ∃ k', memcpy_tail n (cp k) (cm k) = Ret (cp k', cm k') ∧
        k' = if Z.of_nat n <=? Z.of_nat (length l) - Z.of_nat k then (k + n)%nat else k.
Proof.
  intros Hn Hk Ha. unfold memcpy_tail. cbn [left cp]. case_if; [|by exists k].
  exists (k + n)%nat. split; [|done]. apply memcpy_move_run; [lia|auto|].
  apply cursor_mod; [lia|auto].
Qed.

(** The blocks before the word loop leave the destination aligned, or too
    little to copy for the next block to run. *)
Lemma memcpy_prefix_run :
  l ≠ [] →
  ∃ k, (k <= length l)%nat ∧
    (st ← memcpy_head 1 (cp 0); st ← memcpy_head 2 st; memcpy_head 4 st) (cm 0) = Ret (cp k, cm k) ∧
    (let left_ := Z.of_nat (length l) - Z.of_nat k in
     let d := dst + Z.of_nat k in
     d mod 8 = 0 ∨ d mod 4 = 0 ∧ left_ < 4 ∨ d mod 2 = 0 ∧ left_ < 2).
Proof.
  intros Hl. assert (length l ≠ 0%nat) by (by rewrite length_zero_iff_nil).
  destruct (memcpy_head_run 1 0) as (k1 & Hk1 & H1 & A1 & B1); [lia|lia|].
  destruct (memcpy_head_run 2 k1) as (k2 & Hk2 & H2 & A2 & B2); [lia|lia|].
  destruct (memcpy_head_run 4 k2) as (k3 & Hk3 & H3 & A3 & B3); [lia|lia|].
  exists k3. split; [lia|]. step H1. step H2. split; [exact H3|].
  specialize (A1 (Z.mod_1_r _)). cbv zeta. change (Z.of_nat 1) with 1 in *.
  change (Z.of_nat 2) with 2 in *. change (Z.of_nat 4) with 4 in *. clear H1 H2 H3.
  destruct A1 as [A1|A1]; [|lia]. specialize (A2 A1).
  destruct (decide ((dst + Z.of_nat k2) mod 4 = 0)) as [H4|H4].
  - destruct (A3 H4) as [?|[-> ?]]; [by left|right; left; lia].
  - specialize (B3 H4). destruct A2 as [?|[-> A2]]; [done|]. right. right.
    subst k3. by split.
Qed.

Lemma memcpy_suffix_run k :
  (k <= length l)%nat →
  (let left_ := Z.of_nat (length l) - Z.of_nat k in
   let d := dst + Z.of_nat k in
   left_ < 8 ∧ (d mod 4 = 0 ∨ d mod 2 = 0 ∧ left_ < 4 ∨ left_ < 2)) →
  (st ← memcpy_tail 4 (cp k); st ← memcpy_tail 2 st; memcpy_tail 1 st) (cm k) =
  Ret (cp (length l), cm (length l)).
Proof.
  cbv zeta. intros Hk [Hlt Ha].
  destruct (memcpy_tail_run 4 k) as (k1 & H1 & E1); [lia|lia|lia|]. step H1.
  destruct (memcpy_tail_run 2 k1) as (k2 & H2 & E2); [lia|revert E1; case_if; lia| |].
  { revert E1. case_if; intros ->; intros; Z.to_euclidean_division_equations; lia. }
  step H2.
  destruct (memcpy_tail_run 1 k2) as (k3 & H3 & E3);
    [lia|revert E1 E2; b2p_if; lia|intros; apply Z.mod_1_r|].
  rewrite H3. assert (k3 = length l) as ->; [|done]. revert E1 E2 E3. b2p_if; lia.
Qed.

Lemma memcpy_fast_run :
  l ≠ [] →
  (st ← (if negb (Z.land dst 7 =? 0) then
           st ← memcpy_head 1 (cp 0); st ← memcpy_head 2 st; memcpy_head 4 st
         else mret (cp 0));
   st ← memcpy_words (Z.to_nat (left st / 8)) st;
   (if negb (left st =? 0) then
      st ← memcpy_tail 4 st; st ← memcpy_tail 2 st; memcpy_tail 1 st
    else mret st);;
   mret dst) (cm 0) = Ret (dst, mem_write m dst l).
Proof.
  intros Hl. rewrite (land_pow2_mod _ 3) by lia. change (2 ^ 3) with 8.
  assert (∃ k, (k <= length l)%nat ∧
    (if negb (dst mod 8 =? 0) then st ← memcpy_head 1 (cp 0); st ← memcpy_head 2 st; memcpy_head 4 st
     else mret (cp 0)) (cm 0) = Ret (cp k, cm k) ∧
    (let left_ := Z.of_nat (length l) - Z.of_nat k in
     let d := dst + Z.of_nat k in
     d mod 8 = 0 ∨ d mod 4 = 0 ∧ left_ < 4 ∨ d mod 2 = 0 ∧ left_ < 2)) as (k & Hk & H & Ha).
  { case_if; [by apply memcpy_prefix_run|]. exists O. split; [lia|]. split; [done|].
    cbv zeta. left. by rewrite Z.add_0_r. }
  step H. cbv zeta in Ha. cbn [left cp].
  set (c := Z.to_nat ((Z.of_nat (length l) - Z.of_nat k) / 8)).
  assert (Hc : Z.of_nat (8 * c) <= Z.of_nat (length l) - Z.of_nat k < Z.of_nat (8 * c) + 8)
    by (unfold c; Z.to_euclidean_division_equations; lia).
  rewrite (M_bind_ret _ _ _ _ _ (memcpy_words_run c k ltac:(lia) ltac:(destruct Ha; [by left|right; lia]))).
  cbn [left cp]. rewrite (M_bind_ret _ _ _ (cp (length l)) (cm (length l))).
  - unfold cm. by rewrite firstn_all.
  - case_if.
    + apply memcpy_suffix_run; [lia|]. cbv zeta.
      split; [lia|]. clear -Ha Hc. rewrite Nat2Z.inj_add, Nat2Z.inj_mul in *.
      Z.to_euclidean_division_equations; lia.
    + by assert ((k + 8 * c)%nat = length l) as -> by lia.
Qed.

End Copy.

(** [memcpy] between blocks that do not meet, whichever way they are aligned. *)
Lemma memcpy_run m dst src l :
  bytes_at m src l → mapped m dst (length l) → disjoint_from dst (length l) src (length l) →
  memcpy dst src (Z.of_nat (length l)) m = Ret (dst, mem_write m dst l).
Proof.
  intros Hs Hd Hj. unfold memcpy. unfold disjoint_from in Hj.
  destruct (decide (l = [])) as [->|Hl]; [rewrite orb_true_r; done|].
  assert (length l ≠ 0%nat) by (by rewrite length_zero_iff_nil).
  rewrite (proj2 (Z.eqb_neq dst src)), (proj2 (Z.eqb_neq _ 0)) by lia. cbn [orb].
  destruct (((dst <? src) && _) || _) eqn:E; b2p; try lia;
  change (8 - 1) with 7; rewrite (land_pow2_mod src 3) by lia;
    (case_if; [by apply memcpy_slow_run|]); rewrite (land_pow2_mod dst 3) in Eif by lia;
    pose proof (memcpy_fast_run m dst src l Hs Hd Hj Eif Hl) as Hrun;
    cbv beta zeta in Hrun; change (Z.of_nat 0) with 0 in Hrun; rewrite !Z.add_0_r, !Z.sub_0_r in Hrun; exact Hrun.
Qed.

(** C30.  [memcpy] between blocks that do not meet stores the source block at
    the destination, for every size and every alignment of the two: byte by
    byte when they are aligned differently, otherwise with aligned moves of 1,
    2, 4 and 8 bytes.  Nothing else changes, and no access is misaligned or out
    of bounds. *)
Theorem memcpy_copies m dst src l :
  bytes_at m src l → mapped m dst (length l) → disjoint_from dst (length l) src (length l) →
  memcpy dst src (Z.of_nat (length l)) m = Ret (dst, mem_write m dst l).
Proof. apply memcpy_run. Qed.

(** A block of twenty bytes at 1003 and room for it at 2003. *)
Definition example_mem : mem :=
  mem_write (mem_write ∅ 1003 (seqZ 1 20)) 2003 (replicate 20 0).

Lemma memcpy_copies_witness :
  memcpy 2003 1003 (Z.of_nat (length (seqZ 1 20))) example_mem =
  Ret (2003, mem_write example_mem 2003 (seqZ 1 20)).
Proof. apply (memcpy_copies example_mem 2003 1003 (seqZ 1 20)); mem_eval. Defined.

(** ** Moving *)

Lemma move_down m dst src l :
  bytes_at m src l → mapped m dst (length l) → src <= dst →
  let n := Z.of_nat (length l) in
  for_up (length l) 0
    (λ i, x ← load (src + (n - (i + 1))); store (dst + (n - (i + 1))) x) m =
  Ret ((), mem_write m dst l).
Proof.
  intros Hs Hm Hd n.
  set (s := λ i : nat, mem_write m (dst + (n - Z.of_nat i)) (drop (length l - i) l)).
  replace m with (s O) at 1 by (unfold s; by rewrite Nat.sub_0_r, drop_all).
  rewrite (for_up_run _ _ _ s).
  - unfold s. subst n. by rewrite Nat.sub_diag, Z.sub_diag, Z.add_0_r.
  - intros k Hk. rewrite Z.add_0_l. subst n.
    set (j := (length l - S k)%nat).
    replace (Z.of_nat (length l) - (Z.of_nat k + 1)) with (Z.of_nat j) by lia.
    destruct (lookup_lt_is_Some_2 l j ltac:(lia)) as [x Hx].
    assert (Hb : is_byte x) by (destruct Hs as [H _]; exact (Forall_lookup_1 _ _ _ _ H Hx)).
    assert (Hlen : length (drop (length l - k) l) = k) by (rewrite length_drop; lia).
    erewrite M_bind_ret; [|apply load_run; unfold s; rewrite mem_write_out by lia;
                           destruct Hs as [_ H]; rewrite H by lia; exact Hx].
    rewrite store_run; [| |done].
    + unfold s. fold j. rewrite (drop_S l x j Hx). cbn [mem_write]. f_equal. f_equal.
      replace (dst + (Z.of_nat (length l) - Z.of_nat (S k))) with (dst + Z.of_nat j) by lia.
      replace (S j) with (length l - k)%nat by lia.
      replace (dst + Z.of_nat j + 1) with (dst + (Z.of_nat (length l) - Z.of_nat k)) by lia.
      apply map_eq. intros y. rewrite lookup_insert. case_decide as Hy.
      * subst y. rewrite mem_write_out by lia. by rewrite lookup_insert_eq.
      * rewrite !mem_write_lookup. by rewrite lookup_insert_ne by done.
    + apply (mapped_write m _ _ dst (length l)); [done|lia].
Qed.

(** [memmove] stores at the destination the bytes the source had before
    the call, whether or not the two blocks overlap, and changes nothing
    else. *)
Theorem memmove_copies m dest src l :
  bytes_at m src l → mapped m dest (length l) →
  memmove dest src (Z.of_nat (length l)) m = Ret (dest, mem_write m dest l).
Proof.
  intros Hs Hd. unfold memmove. case_if.
  - by step (copy_up m dest src l Hs Hd _ ltac:(left; lia) eq_refl).
  - rewrite Nat2Z.id. by step (move_down m dest src l Hs Hd Eif).
Qed.

Lemma memmove_copies_witness :
  memmove 1008 1003 (Z.of_nat (length (seqZ 1 15))) example_mem =
  Ret (1008, mem_write example_mem 1008 (seqZ 1 15)).
Proof. apply (memmove_copies example_mem 1008 1003 (seqZ 1 15)); mem_eval. Defined.

(** ** Filling *)

Lemma fill_run m a v n :
  mapped m a n → is_byte v →
  for_up n 0 (λ i, store (a + i) v) m = Ret ((), mem_write m a (replicate n v)).
Proof.
  intros Hm Hv.
  rewrite (for_up_run _ _ _ (λ k, mem_write m a (take k (replicate n v)))).
  - by rewrite firstn_all2 by (rewrite length_replicate; lia).
  - intros k Hk. rewrite Z.add_0_l. apply store_next; [by rewrite length_replicate| |done].
    by apply lookup_replicate_2.
Qed.

Lemma ulong_value_split v : le_split 8 (ulong_value v) = replicate 8 (u8 v).
Proof.
  assert (H : ∀ b, 0 <= b < 256 → le_split 8 (ulong_value b) = replicate 8 (u8 b))
    by (apply (byte_forall (λ b, le_split 8 (ulong_value b) = replicate 8 (u8 b)));
        vm_compute; reflexivity).
  pose proof (wrapu_range 8 v ltac:(lia)) as Hv. specialize (H _ Hv).
  unfold ulong_value in *. by rewrite (wrapu_wrapu_le 8 8) in H by lia.
Qed.

Lemma fill_words_run m a v c :
  mapped m a (8 * c) → a mod 8 = 0 →
  for_up c 0 (λ i, store_le 8 (a + 8 * i) (ulong_value v)) m =
  Ret ((), mem_write m a (replicate (8 * c) (u8 v))).
Proof.
  intros Hm Ha.
  rewrite (for_up_run _ _ _ (λ k, mem_write m a (replicate (8 * k) (u8 v)))); [done|].
  intros k Hk. rewrite Z.add_0_l. unfold store_le.
  replace ((a + 8 * Z.of_nat k) mod Z.of_nat 8) with 0
    by (change (Z.of_nat 8) with 8; rewrite Z.mul_comm, Z.mod_add by lia; done).
  cbn [Z.eqb]. rewrite store_bytes_run, ulong_value_split.
  - replace (8 * S k)%nat with (8 * k + 8)%nat by lia.
    rewrite replicate_add, mem_write_app, length_replicate. do 3 f_equal. lia.
  - apply mapped_write. eapply mapped_sub; [exact Hm|lia|lia].
Qed.

(** [memset] fills the block with the low byte of its argument and
    changes nothing else, whichever way it is aligned. *)
Lemma memset_fills m dest value n :
  mapped m dest n →
  memset dest value (Z.of_nat n) m = Ret (dest, mem_write m dest (replicate n (u8 value))).
Proof.
  intros Hm. pose proof (wrapu_range 8 value ltac:(lia)) as Hv.
  unfold memset. cbv zeta. rewrite (land_pow2_mod dest 3) by lia. change (2 ^ 3) with 8. case_if.
  - set (c := Z.to_nat (Z.of_nat n / 8)).
    assert (Hc : Z.of_nat n / 8 = Z.of_nat c) by (unfold c; Z.to_euclidean_division_equations; lia).
    assert (Hn : (8 * c <= n)%nat) by (Z.to_euclidean_division_equations; lia).
    rewrite Hc.
    erewrite M_bind_ret;
      [|step (fill_words_run m dest value c (mapped_le _ _ _ _ Hm Hn) Eif); reflexivity].
    cbn beta iota.
    rewrite (M_bind_ret _ _ _ () (mem_write m dest (replicate n (u8 value)))); [done|].
    replace (Z.to_nat (Z.of_nat n - Z.of_nat c * 8)) with (n - 8 * c)%nat by lia.
    rewrite fill_run; [|apply mapped_write; eapply mapped_sub; [exact Hm|lia|lia]|exact Hv].
    replace n with (8 * c + (n - 8 * c))%nat at 2 by lia.
    rewrite replicate_add, mem_write_app, length_replicate. do 3 f_equal. lia.
  - rewrite M_bind_ret with (a := (dest, Z.of_nat n)) (s' := m) by done.
    rewrite Nat2Z.id. by step (fill_run m dest (u8 value) n Hm Hv).
Qed.

Lemma explicit_bzero_fills m dest n :
  mapped m dest n →
  explicit_bzero dest (Z.of_nat n) m = Ret ((), mem_write m dest (replicate n 0)).
Proof. intros Hm. unfold explicit_bzero. rewrite Nat2Z.id. apply fill_run; [done|]. unfold is_byte. lia. Qed.

(** ** Comparing *)

Lemma load_at m a l k x : bytes_at m a l → l !! k = Some x → load (a + Z.of_nat k) m = Ret (x, m).
Proof.
  intros [_ H] Hx. apply load_run. rewrite H; [done|]. by eapply lookup_lt_Some.
Qed.

Lemma memcmp_lex m a b l1 l2 :
  bytes_at m a l1 → bytes_at m b l2 → length l1 = length l2 →
  memcmp a b (Z.of_nat (length l1)) m = Ret (lex l1 l2, m).
Proof.
  intros Ha Hb Hl. unfold memcmp. rewrite Nat2Z.id.
  assert (Hstep : ∀ k x y, l1 !! k = Some x → l2 !! k = Some y →
    (x ← load (a + (0 + Z.of_nat k)); y ← load (b + (0 + Z.of_nat k));
     mret (if x <? y then Some (-1) else if y <? x then Some 1 else None)) m =
    Ret (if x <? y then Some (-1) else if y <? x then Some 1 else None, m)).
  { intros k x y Hx Hy. rewrite !Z.add_0_l.
    step (load_at _ _ _ _ _ Ha Hx). by step (load_at _ _ _ _ _ Hb Hy). }
  destruct (first_diff l1 l2 Hl) as [->|(k & x & y & Ht & Hx & Hy & Hne)].
  - rewrite lex_refl, (M_bind_ret _ _ _ None m); [done|].
    apply (for_ret_none _ _ _ (λ _, m)). intros k Hk.
    destruct (lookup_lt_is_Some_2 l2 k Hk) as [x Hx]. rewrite (Hstep k x x) by done.
    by rewrite Z.ltb_irrefl.
  - rewrite (M_bind_ret _ _ _ (Some (if x <? y then -1 else 1)) m);
      [by rewrite (lex_diff _ _ _ _ _ Ht Hx Hy Hne)|].
    apply (for_ret_some _ _ _ (λ _, m) k).
    + by eapply lookup_lt_Some.
    + intros j Hj. pose proof (lookup_lt_Some _ _ _ Hx).
      destruct (lookup_lt_is_Some_2 l1 j ltac:(lia)) as [z Hz]. rewrite (Hstep j z z);
        [by rewrite Z.ltb_irrefl|done|].
      rewrite <- (lookup_take_lt l2 k) by done. by rewrite <- Ht, lookup_take_lt.
    + rewrite (Hstep k x y) by done. do 2 f_equal. b2p_if; done || lia.
Qed.

(** The sign masks: the shift of a byte difference is -1 or 0. *)
Lemma byte_diff_sign x y :
  is_byte x → is_byte y → Z.shiftr (x - y) 8 = if x <? y then -1 else 0.
Proof.
  unfold is_byte. intros Hx Hy. rewrite shiftr_div by lia. change (2 ^ 8) with 256.
  case_if; Z.to_euclidean_division_equations; lia.
Qed.

Lemma timingsafe_step_done x y r :
  is_byte x → is_byte y → timingsafe_step x y (r, -1) = (r, -1).
Proof.
  intros Hx Hy. unfold timingsafe_step. change (Z.lnot (-1)) with 0.
  by rewrite Z.land_0_r, Z.lor_0_r, Z.lor_m1_l.
Qed.

Lemma timingsafe_step_start x y :
  is_byte x → is_byte y →
  timingsafe_step x y (0, 0) = if x <? y then (-1, -1) else if y <? x then (1, -1) else (0, 0).
Proof.
  intros Hx Hy. unfold timingsafe_step. rewrite !byte_diff_sign by done.
  b2p_if; try done; lia.
Qed.

Lemma timingsafe_loop_run m a b l1 l2 :
  bytes_at m a l1 → bytes_at m b l2 → length l1 = length l2 →
  (∀ r, timingsafe_loop (length l1) a b (r, -1) m = Ret ((r, -1), m)) ∧
  ∃ d, timingsafe_loop (length l1) a b (0, 0) m = Ret ((lex l1 l2, d), m).
Proof.
  revert a b l2. induction l1 as [|x l1 IH]; intros a b [|y l2] Ha Hb Hl; try done.
  - split; [done|]. by exists 0.
  - injection Hl as Hl. cbn [length timingsafe_loop].
    change (x :: l1) with ([x] ++ l1) in Ha. change (y :: l2) with ([y] ++ l2) in Hb.
    apply bytes_at_app in Ha as [Hx Ha]. apply bytes_at_app in Hb as [Hy Hb].
    assert (Lx := load_at _ _ _ O _ Hx eq_refl). assert (Ly := load_at _ _ _ O _ Hy eq_refl).
    rewrite Z.add_0_r in Lx, Ly.
    destruct Hx as [[Hx _]%Forall_cons _], Hy as [[Hy _]%Forall_cons _].
    destruct (IH _ _ _ Ha Hb Hl) as [IH1 [d IH2]].
    split; [intros r|]; setoid_rewrite (M_bind_ret _ _ _ _ _ Lx);
      setoid_rewrite (M_bind_ret _ _ _ _ _ Ly).
    + rewrite timingsafe_step_done by done. apply IH1.
    + rewrite timingsafe_step_start by done. cbn [lex].
      b2p_if; [exists (-1); apply IH1..|exists d; apply IH2].
Qed.

(** [memcmp] is the lexicographic order of the two blocks as unsigned
    bytes, -1, 0 or 1, and the branch-free [timingsafe_memcmp] gives the same
    answer. *)
Theorem timingsafe_memcmp_memcmp m a b l1 l2 :
  bytes_at m a l1 → bytes_at m b l2 → length l1 = length l2 →
  memcmp a b (Z.of_nat (length l1)) m = Ret (lex l1 l2, m) ∧
  timingsafe_memcmp a b (Z.of_nat (length l1)) m = Ret (lex l1 l2, m).
Proof.
  intros Ha Hb Hl. split; [by apply memcmp_lex|]. unfold timingsafe_memcmp. rewrite Nat2Z.id.
  destruct (timingsafe_loop_run m a b l1 l2 Ha Hb Hl) as [_ [d Hd]]. by step Hd.
Qed.

Lemma timingsafe_memcmp_memcmp_witness :
  memcmp 1004 1003 (Z.of_nat (length (seqZ 2 5))) example_mem =
    Ret (lex (seqZ 2 5) (seqZ 1 5), example_mem) ∧
  timingsafe_memcmp 1004 1003 (Z.of_nat (length (seqZ 2 5))) example_mem =
    Ret (lex (seqZ 2 5) (seqZ 1 5), example_mem).
Proof. apply (timingsafe_memcmp_memcmp example_mem 1004 1003 (seqZ 2 5) (seqZ 1 5)); mem_eval. Defined.

(** ** Searching *)

(** The address a search ends at: index [i], or null. *)
Definition found (buf : Z) (i : option nat) : Z :=
  match i with Some i => buf + Z.of_nat i | None => NULL end.

Lemma memchr_run m buf l c :
  bytes_at m buf l →
  memchr buf c (Z.of_nat (length l)) m =
  Ret (found buf (fst <$> list_find (λ x, x = u8 c) l), m).
Proof.
  intros Hb. unfold memchr. rewrite Nat2Z.id.
  assert (Hstep : ∀ k x, l !! k = Some x →
    (x ← load (buf + (0 + Z.of_nat k)); mret (if x =? u8 c then Some (buf + (0 + Z.of_nat k)) else None)) m =
    Ret (if x =? u8 c then Some (buf + Z.of_nat k) else None, m)).
  { intros k x Hx. rewrite Z.add_0_l. by step (load_at _ _ _ _ _ Hb Hx). }
  destruct (list_find (λ x, x = u8 c) l) as [[k x]|] eqn:E; cbn [fmap option_fmap option_map fst found].
  - apply list_find_Some in E as (Hx & -> & Hlt).
    rewrite (M_bind_ret _ _ _ (Some (buf + Z.of_nat k)) m); [done|].
    apply (for_ret_some _ _ _ (λ _, m) k).
    + by eapply lookup_lt_Some.
    + intros j Hj. pose proof (lookup_lt_Some _ _ _ Hx).
      destruct (lookup_lt_is_Some_2 l j ltac:(lia)) as [z Hz]. rewrite (Hstep j z Hz).
      rewrite (proj2 (Z.eqb_neq z _)); [done|]. by eapply Hlt.
    + by rewrite (Hstep k _ Hx), Z.eqb_refl.
  - apply list_find_None in E. rewrite (M_bind_ret _ _ _ None m); [done|].
    apply (for_ret_none _ _ _ (λ _, m)).
    intros j Hj. destruct (lookup_lt_is_Some_2 l j ltac:(lia)) as [z Hz]. rewrite (Hstep j z Hz).
    rewrite (proj2 (Z.eqb_neq z _)); [done|]. by apply (Forall_lookup_1 _ _ _ _ E Hz).
Qed.

(** Searching back is searching the reversed block. *)
Definition last_index (l : list Z) (c : Z) : option nat :=
  (λ p, (length l - 1 - p.1)%nat) <$> list_find (λ x, x = c) (reverse l).

Lemma memrchr_run m buf l c :
  bytes_at m buf l →
  memrchr buf c (Z.of_nat (length l)) m = Ret (found buf (last_index l (u8 c)), m).
Proof.
  intros Hb. unfold memrchr, last_index. rewrite Nat2Z.id.
  assert (Hstep : ∀ k x, reverse l !! k = Some x →
    (let i := Z.of_nat (length l) - (0 + Z.of_nat k) in
     x ← load (buf + (i - 1)); mret (if x =? u8 c then Some (buf + i - 1) else None)) m =
    Ret (if x =? u8 c then Some (buf + Z.of_nat (length l - 1 - k)) else None, m)).
  { intros k x Hx. cbv zeta. pose proof (lookup_lt_Some _ _ _ Hx) as Hk. rewrite length_reverse in Hk.
    rewrite reverse_lookup in Hx by done.
    replace (length l - S k)%nat with (length l - 1 - k)%nat in Hx by lia.
    replace (buf + (Z.of_nat (length l) - (0 + Z.of_nat k) - 1)) with
      (buf + Z.of_nat (length l - 1 - k)) by lia.
    replace (buf + (Z.of_nat (length l) - (0 + Z.of_nat k)) - 1) with
      (buf + Z.of_nat (length l - 1 - k)) by lia.
    by step (load_at _ _ _ _ _ Hb Hx). }
  destruct (list_find (λ x, x = u8 c) (reverse l)) as [[k x]|] eqn:E;
    cbn [fmap option_fmap option_map fst found].
  - apply list_find_Some in E as (Hx & -> & Hlt). pose proof (lookup_lt_Some _ _ _ Hx) as Hk.
    rewrite length_reverse in Hk.
    rewrite (M_bind_ret _ _ _ (Some (buf + Z.of_nat (length l - 1 - k))) m); [done|].
    apply (for_ret_some _ _ _ (λ _, m) k); [done| |].
    + intros j Hj. destruct (lookup_lt_is_Some_2 (reverse l) j) as [z Hz]; [rewrite length_reverse; lia|].
      etransitivity; [exact (Hstep j z Hz)|]. rewrite (proj2 (Z.eqb_neq z _)); [done|]. by eapply Hlt.
    + etransitivity; [exact (Hstep k _ Hx)|]. by rewrite Z.eqb_refl.
  - apply list_find_None in E. rewrite (M_bind_ret _ _ _ None m); [done|].
    apply (for_ret_none _ _ _ (λ _, m)).
    intros j Hj. destruct (lookup_lt_is_Some_2 (reverse l) j) as [z Hz]; [rewrite length_reverse; lia|].
    etransitivity; [exact (Hstep j z Hz)|]. rewrite (proj2 (Z.eqb_neq z _)); [done|]. by apply (Forall_lookup_1 _ _ _ _ E Hz).
Qed.

End MemFuncs.
