(* ===== verification/StrFuncs.v ===== *)
(** * String functions of [libc/string]

    The functions on null-terminated strings, over the byte memory of
    [Memory].  A [char] is read as an unsigned byte; where the code compares
    [char]s by order the sign is restored with [s8].  A pointer that is passed by address ([char**]) is an
    argument and a result. *)

From S2P Require Import Prelude Memory MemFuncs Ctype.
From stdpp Require Import base decidable list numbers gmap strings.
From Stdlib Require Import ZArith Lia Ascii.

#[local] Open Scope c_scope.
#[local] Open Scope Z_scope.

Module StrFuncs.
Import Mem MemFuncs Ctype.

(** ** Length and copying *)

Definition strlen (str : Z) : M mem Z :=
  scan (λ ret, c ← load (str + ret); mret (if c =? 0 then inr ret else inl (ret + 1))) 0.

Definition strnlen (str maxlen : Z) : M mem Z :=
  scan (λ ret,
    if ret <? maxlen then
      c ← load (str + ret); mret (if c =? 0 then inr ret else inl (ret + 1))
    else mret (inr ret)) 0.

(** [for ( index = 0; src[index]; index++ ) dest[index] = src[index]]. *)
Definition copy_to_nul (dest src : Z) : M mem Z :=
  scan (λ index,
    c ← load (src + index);
    if c =? 0 then mret (inr index)
    else store (dest + index) c;; mret (inl (index + 1))) 0.

Definition strcpy (dest src : Z) : M mem Z :=
  index ← copy_to_nul dest src; store (dest + index) 0;; mret dest.

Definition stpcpy (dest src : Z) : M mem Z :=
  index ← copy_to_nul dest src; store (dest + index) 0;; mret (dest + index).

(** [for ( i = 0; i < n && src[i] != '\0'; i++ ) dest[i] = src[i]]. *)
Definition copy_to_nul_max (dest src n : Z) : M mem Z :=
  scan (λ i,
    if i <? n then
      c ← load (src + i);
      if c =? 0 then mret (inr i)
      else store (dest + i) c;; mret (inl (i + 1))
    else mret (inr i)) 0.

(** [for ( ; i < n; i++ ) dest[i] = '\0']. *)
Definition fill_nul (dest i n : Z) : M mem () :=
  for_up (Z.to_nat (n - i)) i (λ i, store (dest + i) 0).

Definition strncpy (dest src n : Z) : M mem Z :=
  i ← copy_to_nul_max dest src n; fill_nul dest i n;; mret dest.

Definition stpncpy (dest src n : Z) : M mem Z :=
  i ← copy_to_nul_max dest src n; fill_nul dest i n;; mret (dest + i).

Definition strcat (dest src : Z) : M mem Z :=
  dest_len ← strlen dest; strcpy (dest + dest_len) src;; mret dest.

Definition strncat (dest src n : Z) : M mem Z :=
  dest_len ← strlen dest;
  i ← copy_to_nul_max (dest + dest_len) src n;
  store (dest + dest_len + i) 0;;
  mret dest.

Definition strlcpy (dest src size : Z) : M mem Z :=
  if size =? 0 then strlen src
  else
    result ← copy_to_nul_max dest src (size - 1);
    store (dest + result) 0;;
    len ← strlen (src + result);
    mret (result + len).

Definition strlcat (dest src size : Z) : M mem Z :=
  dest_len ← strnlen dest size;
  if size <=? dest_len then len ← strlen src; mret (dest_len + len)
  else r ← strlcpy (dest + dest_len) src (size - dest_len); mret (dest_len + r).

Definition strxfrm (dest src n : Z) : M mem Z :=
  srclen ← strlen src; strncpy dest src n;; mret srclen.

(** ** Comparing *)

(** The loop body shared by the comparisons, on the two characters. *)
Definition compare_chars (ac bc : Z) : option Z :=
  if (ac =? 0) && (bc =? 0) then Some 0
  else if ac <? bc then Some (-1)
  else if bc <? ac then Some 1
  else None.

Definition compare_loop (f : Z → Z) (max_count : option Z) (a b : Z) : M mem Z :=
  scan (λ i,
    if match max_count with Some max_count => i <? max_count | None => true end then
      ac ← load (a + i); bc ← load (b + i);
      mret (match compare_chars (u8 (f ac)) (u8 (f bc)) with Some r => inr r | None => inl (i + 1) end)
    else mret (inr 0)) 0.

Definition strcmp (a b : Z) : M mem Z := compare_loop (λ c, c) None a b.
Definition strncmp (a b max_count : Z) : M mem Z := compare_loop (λ c, c) (Some max_count) a b.
Definition strcasecmp (a b : Z) : M mem Z := compare_loop tolower None a b.
Definition strncasecmp (a b max_count : Z) : M mem Z := compare_loop tolower (Some max_count) a b.
Definition strcoll (a b : Z) : M mem Z := strcmp a b.

(** ** Searching *)

Definition strchrnul (str uc : Z) : M mem Z :=
  scan (λ i,
    c ← load (str + i);
    mret (if (c =? u8 uc) || (c =? 0) then inr (str + i) else inl (i + 1))) 0.

Definition strchr (str uc : Z) : M mem Z :=
  ret ← strchrnul str uc;
  c ← load ret;
  mret (if u8 uc =? c then ret else NULL).

Definition strrchr (str uc : Z) : M mem Z :=
  scan (λ '(i, last),
    c ← load (str + i);
    let last := if c =? u8 uc then str + i else last in
    mret (if c =? 0 then inr last else inl (i + 1, last))) (0, NULL).

(** Is [c] one of the first [n] characters at [set]? *)
Definition in_set (set n c : Z) : M mem bool :=
  r ← for_ret (Z.to_nat n) 0 (λ i,
        a ← load (set + i); mret (if negb (c =? a) then None else Some true));
  mret (default false r).

(** [strspn] and [strcspn] differ in the sense of the last test. *)
Definition span (stop_when : bool) (str set : Z) : M mem Z :=
  set_length ← strlen set;
  scan (λ result,
    c ← load (str + result);
    if c =? 0 then mret (inr result)
    else
      matches ← in_set set set_length c;
      mret (if Bool.eqb matches stop_when then inr result else inl (result + 1))) 0.

Definition strspn (str accept : Z) : M mem Z := span false str accept.
Definition strcspn (str reject : Z) : M mem Z := span true str reject.

Definition strpbrk (str accept : Z) : M mem Z :=
  reject_length ← strcspn str accept;
  c ← load (str + reject_length);
  mret (if c =? 0 then NULL else str + reject_length).

Definition strstr (haystack needle : Z) : M mem Z :=
  n0 ← load needle;
  if n0 =? 0 then mret haystack
  else scan (λ i,
    h ← load (haystack + i);
    if h =? 0 then mret (inr NULL)
    else
      diff ← scan (λ j,
        n ← load (needle + j);
        if n =? 0 then mret (inr false)
        else h ← load (haystack + (i + j)); mret (if negb (h =? n) then inr true else inl (j + 1))) 0;
      mret (if (diff : bool) then inl (i + 1) else inr (haystack + i))) 0.

(** ** Splitting: the result and the updated pointer *)

Definition strsep (string_ptr delim : Z) : M mem (Z * Z) :=
  let token := string_ptr in
  if token =? NULL then mret (NULL, string_ptr)
  else
    token_length ← strcspn token delim;
    c ← load (token + token_length);
    if negb (c =? 0) then
      store (token + token_length) 0;;
      let token_length := token_length + 1 in
      mret (token, token + token_length)
    else mret (token, NULL).

Definition strtok_r (str delim saveptr : Z) : M mem (Z * Z) :=
  if (str =? NULL) && (saveptr =? NULL) then mret (NULL, saveptr)
  else
    let str := if str =? NULL then saveptr else str in
    skip ← strspn str delim;
    let str := str + skip in
    c ← load str;
    if c =? 0 then mret (NULL, NULL)
    else
      amount ← strcspn str delim;
      c ← load (str + amount);
      let saveptr := if negb (c =? 0) then str + amount + 1 else NULL in
      store (str + amount) 0;;
      mret (str, saveptr).

(** [strtok] keeps [saveptr] in a static variable. *)
Definition strtok (lasttokensaveptr str delim : Z) : M mem (Z * Z) :=
  strtok_r str delim lasttokensaveptr.

Definition stresep (string_ptr delim escape : Z) : M mem (Z * Z) :=
  let token := string_ptr in
  if token =? NULL then mret (NULL, string_ptr)
  else scan (λ '(consumed_length, token_length, escaped),
    c ← load (token + consumed_length);
    let consumed_length := consumed_length + 1 in
    let true_nul := c =? 0 in
    if negb escaped && negb (escape =? 0) && (u8 c =? u8 escape)
    then mret (inl (consumed_length, token_length, true))
    else
      c ← (if negb escaped && negb (c =? 0) then
             scan (λ i,
               d ← load (delim + i);
               mret (if d =? 0 then inr c
                     else if negb (c =? d) then inr 0
                     else inl (i + 1))) 0
           else mret c);
      store (token + token_length) c;;
      let token_length := token_length + 1 in
      mret (if c =? 0
            then inr (token, if true_nul then NULL else token + consumed_length)
            else inl (consumed_length, token_length, false))) (0, 0, false).

(** ** Version comparison *)

Definition is_number (c : Z) : bool := (ch "0" <=? s8 c) && (s8 c <=? ch "9").
Definition to_number (c : Z) : Z := s8 c - ch "0".

(** [while ( is_number(s[start + n]) == want ) n++]. *)
Definition skip_while (want : bool) (s start n : Z) : M mem Z :=
  scan (λ n,
    c ← load (s + (start + n));
    mret (if Bool.eqb (is_number c) want then inl (n + 1) else inr n)) n.

(** The comparison once the strings differ at [i]. *)
Definition strverscmp_at (a b i ai bi : Z) : M mem Z :=
  let version_string := is_number ai || is_number bi in
  if negb version_string && (s8 ai <? s8 bi) then mret (-1)
  else if negb version_string && (s8 bi <? s8 ai) then mret 1
  else
    digits_start ← scan (λ digits_start,
      if negb (digits_start =? 0) then
        c ← load (a + (digits_start - 1));
        mret (if is_number c then inl (digits_start - 1) else inr digits_start)
      else mret (inr digits_start)) i;
    let shared_digits := i - digits_start in
    shared_zeroes ← scan (λ shared_zeroes,
      if shared_zeroes <? shared_digits then
        c ← load (a + (digits_start + shared_zeroes));
        mret (if to_number c =? 0 then inl (shared_zeroes + 1) else inr shared_zeroes)
      else mret (inr shared_zeroes)) 0;
    a_zeroes ← skip_while false a digits_start shared_zeroes;
    b_zeroes ← skip_while false b digits_start shared_zeroes;
    if b_zeroes <? a_zeroes then mret (-1)
    else if a_zeroes <? b_zeroes then mret 1
    else
      a_digits ← skip_while true a digits_start a_zeroes;
      b_digits ← skip_while true b digits_start b_zeroes;
      if a_digits <? b_digits then mret (-1)
      else if b_digits <? a_digits then mret 1
      else scan (λ n,
        x ← load (a + (digits_start + n));
        y ← load (b + (digits_start + n));
        mret (if s8 x <? s8 y then inr (-1) else if s8 y <? s8 x then inr 1 else inl (n + 1)))
        shared_zeroes.

Definition strverscmp (a b : Z) : M mem Z :=
  r ← scan (λ i,
    x ← load (a + i); y ← load (b + i);
    if (x =? 0) && (y =? 0) then mret (inr 0)
    else if x =? y then mret (inl (i + 1))
    else r ← strverscmp_at a b i x y; mret (inr r)) 0;
  mret r.

(** ** Length *)

(** The conditions on a character inside a string and at its end. *)
Lemma char_nz m a s (i : nat) :
  cstr_at m a s → (i < length s)%nat → (default 0 (s !! i) =? 0) = false.
Proof. intros H Hi. apply Z.eqb_neq. by apply (cstr_nz m a s). Qed.

Lemma strlen_run m a s : cstr_at m a s → strlen a m = Ret (Z.of_nat (length s), m).
Proof.
  intros H. pose proof (cstr_size _ _ _ H). unfold strlen.
  apply (scan_run_const _ _ (length s)); [lia| |].
  - intros j Hj. step (load_str _ _ _ j H ltac:(lia)). by rewrite (char_nz _ _ _ _ H Hj).
  - step (load_str _ _ _ _ H (le_n _)). by rewrite cstr_end.
Qed.

Lemma strnlen_run m a s n :
  cstr_at m a s → strnlen a (Z.of_nat n) m = Ret (Z.of_nat (length (take n s)), m).
Proof.
  intros H. pose proof (cstr_size _ _ _ H). unfold strnlen. rewrite length_take.
  apply (scan_run_const _ _ (n `min` length s)); [lia| |].
  - intros j Hj. rewrite (proj2 (Z.ltb_lt _ _)) by lia.
    step (load_str _ _ _ j H ltac:(lia)). by rewrite (char_nz _ _ _ _ H) by lia.
  - case_if; [|done]. replace (n `min` length s)%nat with (length s) by lia.
    step (load_str _ _ _ _ H (le_n _)). by rewrite cstr_end.
Qed.

(** ** Copying *)

Section StrCopy.
Context (m : mem) (dest src : Z) (s : list Z).
Hypothesis (Hs : cstr_at m src s).

Lemma copy_to_nul_max_run (n : nat) d :
  d = take n s → mapped m dest (length d) →
  disjoint_from dest (length d) src (S (length s)) →
  copy_to_nul_max dest src (Z.of_nat n) m = Ret (Z.of_nat (length d), mem_write m dest d).
Proof.
  intros Hd Hm Hj. pose proof (cstr_size _ _ _ Hs). unfold copy_to_nul_max.
  assert (Hlen : length d = (n `min` length s)%nat) by (subst d; apply length_take).
  assert (Hload : ∀ j d', (j <= length s)%nat → (length d' <= length d)%nat →
    load (src + Z.of_nat j) (mem_write m dest d') = Ret (default 0 (s !! j), mem_write m dest d')).
  { intros j d' Hj' Hd'. apply load_str; [|done]. apply cstr_frame; [done|].
    unfold disjoint_from in *. lia. }
  apply (scan_run _ (λ k, mem_write m dest (take k d)) (length d)).
  - simpl. lia.
  - intros j Hj'. rewrite (proj2 (Z.ltb_lt _ _)) by lia.
    step (Hload j (take j d) ltac:(lia) ltac:(rewrite length_take; lia)).
    rewrite (char_nz _ _ _ _ Hs) by lia.
    assert (Hx : d !! j = Some (default 0 (s !! j))).
    { destruct (lookup_lt_is_Some_2 s j ltac:(lia)) as [x Hx]. subst d.
      rewrite lookup_take_lt by lia. by rewrite Hx. }
    step (store_next m dest d j _ Hm Hx ltac:(apply (cstr_nz m src s); [done|lia])). done.
  - rewrite firstn_all. case_if; [|done].
    step (Hload (length d) d ltac:(lia) ltac:(lia)).
    replace (length d) with (length s) by lia. by rewrite cstr_end.
Qed.

Lemma copy_to_nul_run :
  mapped m dest (length s) → disjoint_from dest (length s) src (S (length s)) →
  copy_to_nul dest src m = Ret (Z.of_nat (length s), mem_write m dest s).
Proof.
  intros Hm Hj. unfold copy_to_nul. pose proof (cstr_size _ _ _ Hs).
  assert (Hload : ∀ j, (j <= length s)%nat →
    load (src + Z.of_nat j) (mem_write m dest (take j s)) =
    Ret (default 0 (s !! j), mem_write m dest (take j s))).
  { intros j Hj'. apply load_str; [|done]. apply cstr_frame; [done|].
    unfold disjoint_from in *. rewrite length_take. lia. }
  rewrite <- (firstn_all s) at 2.
  apply (scan_run _ (λ k, mem_write m dest (take k s)) (length s)); [simpl; lia| |].
  - intros j Hj'. step (Hload j ltac:(lia)). rewrite (char_nz _ _ _ _ Hs Hj').
    destruct (lookup_lt_is_Some_2 s j Hj') as [x Hx]. pose proof (cstr_nz m src s j Hs Hj') as [_ Hb].
    rewrite Hx in *. by step (store_next m dest s j x Hm Hx Hb).
  - step (Hload (length s) ltac:(lia)). by rewrite cstr_end.
Qed.

(** The terminator after the copied characters. *)
Lemma store_nul d :
  mapped m dest (S (length d)) →
  store (dest + Z.of_nat (length d)) 0 (mem_write m dest d) =
  Ret ((), mem_write m dest (d ++ [0])).
Proof.
  intros Hm. rewrite store_run, mem_write_snoc; [done| |unfold is_byte; lia].
  apply (mapped_write m dest d dest (S (length d))); [done|lia].
Qed.

Lemma strcpy_run :
  mapped m dest (S (length s)) → disjoint_from dest (S (length s)) src (S (length s)) →
  strcpy dest src m = Ret (dest, mem_write m dest (s ++ [0])) ∧
  stpcpy dest src m = Ret (dest + Z.of_nat (length s), mem_write m dest (s ++ [0])).
Proof.
  intros Hm Hj.
  assert (Hc : copy_to_nul dest src m = Ret (Z.of_nat (length s), mem_write m dest s)).
  { apply copy_to_nul_run; [eapply mapped_le; [done|lia]|unfold disjoint_from in *; lia]. }
  split; [unfold strcpy|unfold stpcpy]; step Hc; by step (store_nul s Hm).
Qed.

Lemma strncpy_run n :
  mapped m dest n → disjoint_from dest n src (S (length s)) →
  let d := take n s in
  strncpy dest src (Z.of_nat n) m = Ret (dest, mem_write m dest (d ++ replicate (n - length d) 0)) ∧
  stpncpy dest src (Z.of_nat n) m =
    Ret (dest + Z.of_nat (length d), mem_write m dest (d ++ replicate (n - length d) 0)).
Proof.
  intros Hm Hj d. assert (Hd : (length d <= n)%nat) by (unfold d; rewrite length_take; lia).
  assert (Hc : copy_to_nul_max dest src (Z.of_nat n) m =
               Ret (Z.of_nat (length d), mem_write m dest d)).
  { apply copy_to_nul_max_run; [done|eapply mapped_le; [done|lia]|unfold disjoint_from in *; lia]. }
  assert (Hf : fill_nul dest (Z.of_nat (length d)) (Z.of_nat n) (mem_write m dest d) =
               Ret ((), mem_write m dest (d ++ replicate (n - length d) 0))).
  { unfold fill_nul. replace (Z.to_nat (Z.of_nat n - Z.of_nat (length d))) with (n - length d)%nat by lia.
    rewrite mem_write_app. set (w := replicate (n - length d) 0).
    rewrite (for_up_run _ _ _ (λ k, mem_write (mem_write m dest d) (dest + Z.of_nat (length d)) (take k w))).
    - by rewrite firstn_all2 by (unfold w; rewrite length_replicate; lia).
    - intros k Hk. rewrite Z.add_assoc. apply store_next; [|by apply lookup_replicate_2|unfold is_byte; lia].
      apply mapped_write. eapply mapped_sub; [exact Hm|lia|]. unfold w. rewrite length_replicate. lia. }
  split; [unfold strncpy|unfold stpncpy]; step Hc; by step Hf.
Qed.

Lemma strlcpy_run n :
  (0 < n)%nat → mapped m dest (S (length (take (n - 1) s))) →
  disjoint_from dest (S (length (take (n - 1) s))) src (S (length s)) →
  strlcpy dest src (Z.of_nat n) m =
  Ret (Z.of_nat (length s), mem_write m dest (take (n - 1) s ++ [0])).
Proof.
  intros Hn Hm Hj. unfold strlcpy. rewrite (proj2 (Z.eqb_neq _ 0)) by lia.
  replace (Z.of_nat n - 1) with (Z.of_nat (n - 1)) by lia. set (d := take (n - 1) s) in *.
  assert (Hd : (length d <= length s)%nat) by (unfold d; rewrite length_take; lia).
  assert (Hc : copy_to_nul_max dest src (Z.of_nat (n - 1)) m =
               Ret (Z.of_nat (length d), mem_write m dest d)).
  { apply copy_to_nul_max_run; [done|eapply mapped_le; [done|lia]|unfold disjoint_from in *; lia]. }
  step Hc. step (store_nul d Hm).
  assert (Hr : cstr_at (mem_write m dest (d ++ [0])) (src + Z.of_nat (length d)) (drop (length d) s)).
  { apply cstr_frame; [by apply cstr_tail|]. unfold disjoint_from in *.
    rewrite length_app, length_drop. simpl. lia. }
  step (strlen_run _ _ _ Hr). rewrite M_ret_run, length_drop. do 2 f_equal. lia.
Qed.

End StrCopy.

(** What [strlcpy] and [strlcat] leave in a buffer of [n] bytes. *)
Definition truncated (n : nat) (s : list Z) : list Z := take (n - 1) s ++ [0].

(** [strlcpy] never writes past [size] bytes and always terminates the
    result when [size] is not zero: it stores the longest prefix of the source
    that fits, and returns the length of the whole source, so that the result
    is at least [size] exactly when it was cut. *)
Theorem strlcpy_truncates m dest src s n :
  cstr_at m src s → mapped m dest n → disjoint_from dest n src (S (length s)) →
  ∃ m', strlcpy dest src (Z.of_nat n) m = Ret (Z.of_nat (length s), m') ∧
        m' = (if (n =? 0)%nat then m else mem_write m dest (truncated n s)) ∧
        ((0 < n)%nat → cstr_at m' dest (take (n - 1) s) ∧
                       (take (n - 1) s = s ↔ (length s < n)%nat)).
Proof.
  intros Hs Hm Hj. destruct n as [|n].
  - exists m. split_and!; [|done|lia]. unfold strlcpy. by apply strlen_run.
  - eexists. split_and!; [|done|].
    + apply strlcpy_run; [done|lia|eapply mapped_le; [done|]|unfold disjoint_from in *];
        rewrite length_take; lia.
    + intros _. cbn [Nat.eqb Nat.sub]. rewrite Nat.sub_0_r. split.
      * split; [destruct Hs; by apply Forall_take|]. unfold truncated. cbn [Nat.sub].
        rewrite Nat.sub_0_r. apply bytes_at_write. apply Forall_app. split.
        { apply Forall_take. by eapply cstr_byte. }
        constructor; [unfold is_byte; lia|constructor].
      * split; [intros H; apply (f_equal length) in H; rewrite length_take in H; lia|].
        intros. apply firstn_all2. lia.
Qed.

(** The strings [abc:de] at 100 and [xyz] at 200, and a buffer of 16 bytes at 300. *)
Definition example_strs : mem :=
  mem_write (mem_write (mem_write (mem_write ∅ 100 (lit "abc:de" ++ [0]))
    200 (lit "xyz" ++ [0])) 300 (replicate 16 0)) 400 (lit ":" ++ [0]).

Lemma strlcpy_truncates_witness :
  ∃ m', strlcpy 300 100 (Z.of_nat 4) example_strs = Ret (Z.of_nat (length (lit "abc:de")), m') ∧
        m' = (if (4 =? 0)%nat then example_strs
              else mem_write example_strs 300 (truncated 4 (lit "abc:de"))) ∧
        ((0 < 4)%nat → cstr_at m' 300 (take (4 - 1) (lit "abc:de")) ∧
                       (take (4 - 1) (lit "abc:de") = lit "abc:de" ↔ (length (lit "abc:de") < 4)%nat)).
Proof. apply (strlcpy_truncates example_strs 300 100 (lit "abc:de") 4); mem_eval. Defined.

(** ** Appending *)

Lemma append_str m dest d t :
  cstr_at m dest d → Forall is_byte t → Forall (λ c, c ≠ 0) t →
  cstr_at (mem_write m (dest + Z.of_nat (length d)) (t ++ [0])) dest (d ++ t).
Proof.
  intros [Hd1 Hd2] Ht1 Ht2. split; [by apply Forall_app|].
  rewrite <- app_assoc. apply bytes_at_app in Hd2 as [Hd2 _]. apply bytes_at_app. split.
  - apply bytes_at_frame; [done|]. unfold disjoint_from. lia.
  - apply bytes_at_write, Forall_app. split; [done|]. constructor; [unfold is_byte; lia|constructor].
Qed.

Section Append.
Context (m : mem) (dest src : Z) (d s : list Z) (n : nat).
Hypothesis (Hd : cstr_at m dest d) (Hs : cstr_at m src s).
Hypothesis (Hm : mapped m dest n) (Hj : disjoint_from dest n src (S (length s))).

Let end_ := dest + Z.of_nat (length d).

Lemma strcat_run :
  (length d + length s < n)%nat →
  strcat dest src m = Ret (dest, mem_write m end_ (s ++ [0])) ∧
  cstr_at (mem_write m end_ (s ++ [0])) dest (d ++ s).
Proof.
  intros Hn. split.
  - unfold strcat. step (strlen_run _ _ _ Hd).
    destruct (strcpy_run m end_ src s Hs) as [Hc _].
    + eapply mapped_sub; [exact Hm|unfold end_; lia|unfold end_; lia].
    + unfold disjoint_from, end_ in *. lia.
    + by step Hc.
  - apply append_str; [done|by eapply cstr_byte|by destruct Hs].
Qed.

Lemma strncat_run (k : nat) :
  let t := take k s in
  (length d + length t < n)%nat →
  strncat dest src (Z.of_nat k) m = Ret (dest, mem_write m end_ (t ++ [0])) ∧
  cstr_at (mem_write m end_ (t ++ [0])) dest (d ++ t).
Proof.
  intros t Hn. split.
  - unfold strncat. step (strlen_run _ _ _ Hd).
    assert (Hc : copy_to_nul_max end_ src (Z.of_nat k) m = Ret (Z.of_nat (length t), mem_write m end_ t)).
    { apply (copy_to_nul_max_run m end_ src s Hs k t eq_refl).
      - eapply mapped_sub; [exact Hm|unfold end_; lia|unfold end_; lia].
      - unfold disjoint_from, end_ in *. lia. }
    step Hc. assert (Hn' : mapped m end_ (S (length t)))
      by (eapply mapped_sub; [exact Hm|unfold end_; lia|unfold end_; lia]).
    by step (store_nul m end_ t Hn').
  - apply append_str; [done|apply Forall_take; by eapply cstr_byte|apply Forall_take; by destruct Hs].
Qed.

End Append.

(** [strlcat] appends as much of the source as fits in [size] bytes with
    the terminator, and returns the length of the string it tried to make; a
    destination that is not terminated within [size] bytes is left alone. *)
Theorem strlcat_truncates m dest src d s n :
  cstr_at m dest d → cstr_at m src s → mapped m dest n → disjoint_from dest n src (S (length s)) →
  ∃ m', strlcat dest src (Z.of_nat n) m = Ret (Z.of_nat (length (take n d) + length s), m') ∧
        m' = (if (length d <? n)%nat
              then mem_write m (dest + Z.of_nat (length d)) (truncated (n - length d) s) else m) ∧
        ((length d < n)%nat → cstr_at m' dest (take (n - 1) (d ++ s))).
Proof.
  intros Hd Hs Hm Hj. unfold strlcat. rewrite length_take.
  destruct (Nat.ltb_spec (length d) n) as [Hlt|Hge]; eexists; split_and!; try done.
  - step (strnlen_run _ _ _ n Hd). rewrite length_take, Nat.min_r by lia.
    rewrite (proj2 (Z.leb_gt _ _)) by lia.
    replace (Z.of_nat n - Z.of_nat (length d)) with (Z.of_nat (n - length d)) by lia.
    step (strlcpy_run m (dest + Z.of_nat (length d)) src s Hs (n - length d) ltac:(lia)
      ltac:(eapply mapped_sub; [exact Hm|lia|rewrite length_take; lia])
      ltac:(unfold disjoint_from in *; rewrite length_take; lia)).
    rewrite M_ret_run. do 2 f_equal. lia.
  - intros _. unfold truncated. rewrite take_app, (firstn_all2 d) by lia.
    replace (n - 1 - length d)%nat with (n - length d - 1)%nat by lia.
    apply append_str; [done|apply Forall_take; by eapply cstr_byte|apply Forall_take; by destruct Hs].
  - step (strnlen_run _ _ _ n Hd). rewrite length_take, Nat.min_l by lia.
    rewrite Z.leb_refl. step (strlen_run _ _ _ Hs). rewrite M_ret_run. do 2 f_equal. lia.
  - lia.
Qed.

Lemma strlcat_truncates_witness :
  ∃ m', strlcat 100 200 (Z.of_nat 7) example_strs =
          Ret (Z.of_nat (length (take 7 (lit "abc:de")) + length (lit "xyz")), m') ∧
        m' = (if (length (lit "abc:de") <? 7)%nat
              then mem_write example_strs (100 + Z.of_nat (length (lit "abc:de")))
                     (truncated (7 - length (lit "abc:de")) (lit "xyz")) else example_strs) ∧
        ((length (lit "abc:de") < 7)%nat → cstr_at m' 100 (take (7 - 1) (lit "abc:de" ++ lit "xyz"))).
Proof. apply (strlcat_truncates example_strs 100 200 (lit "abc:de") (lit "xyz") 7); mem_eval. Defined.

(** ** Comparing *)

(** The part of a string a comparison with this limit looks at. *)
Definition upto (lim : option nat) (s : list Z) : list Z :=
  match lim with Some n => take n s | None => s end.

Definition below (lim : option nat) (j : nat) : bool :=
  match lim with Some n => (j <? n)%nat | None => true end.

(** Where the comparison of two strings ends, and with what. *)
Lemma compare_end lim s1 s2 :
  Forall (λ c, 0 < c) s1 → Forall (λ c, 0 < c) s2 →
  ∃ k, (k <= length s1)%nat ∧ (k <= length s2)%nat ∧
    (∀ j, (j < k)%nat → below lim j = true ∧
       compare_chars (default 0 (s1 !! j)) (default 0 (s2 !! j)) = None) ∧
    (if below lim k then compare_chars (default 0 (s1 !! k)) (default 0 (s2 !! k)) else Some 0) =
    Some (lex (upto lim s1) (upto lim s2)).
Proof.
  intros H1. revert lim s2. induction H1 as [|x s1 Hx H1 IH]; intros lim s2 H2.
  - exists O. split_and!; [lia|lia|lia|]. destruct lim as [[|n]|]; [done|..];
      destruct H2 as [|y s2 Hy]; try done; cbn; unfold compare_chars;
      rewrite (proj2 (Z.eqb_neq y 0)), (proj2 (Z.ltb_lt 0 y)) by lia; done.
  - destruct lim as [[|n]|]; [exists O; split_and!; try lia; done|..];
    (destruct H2 as [|y s2 Hy H2];
     [exists O; split_and!; try (simpl; lia); cbn; unfold compare_chars;
      rewrite (proj2 (Z.eqb_neq x 0)), (proj2 (Z.ltb_ge x 0)), (proj2 (Z.ltb_lt 0 x)) by lia; done|]);
    (destruct (decide (x = y)) as [->|Hne];
     [|exists O; split_and!; try (simpl; lia); cbn; unfold compare_chars;
       rewrite (proj2 (Z.eqb_neq x 0)) by lia; b2p_if; done || lia]).
    + destruct (IH (Some n) s2 H2) as (k & K1 & K2 & K3 & K4). exists (S k).
      split_and!; [simpl; lia|simpl; lia| |].
      * intros [|j] Hj; [split; [done|]; cbn; unfold compare_chars;
          rewrite (proj2 (Z.eqb_neq y 0)), Z.ltb_irrefl by lia; done|]. apply (K3 j). lia.
      * cbn [upto take lex]. rewrite Z.ltb_irrefl. exact K4.
    + destruct (IH None s2 H2) as (k & K1 & K2 & K3 & K4). exists (S k).
      split_and!; [simpl; lia|simpl; lia| |].
      * intros [|j] Hj; [split; [done|]; cbn; unfold compare_chars;
          rewrite (proj2 (Z.eqb_neq y 0)), Z.ltb_irrefl by lia; done|]. apply (K3 j). lia.
      * cbn [upto lex]. rewrite Z.ltb_irrefl. exact K4.
Qed.

(** A case mapping keeps bytes bytes and only the terminator zero. *)
Definition case_map (f : Z → Z) : Prop :=
  f 0 = 0 ∧ ∀ c, 0 < c < 256 → 0 < f c < 256.

Lemma case_map_id : case_map (λ c, c).
Proof. split; [done|]. auto. Qed.

Lemma case_map_tolower : case_map tolower.
Proof. split; [done|]. intros c Hc. ctype. case_if; lia. Qed.

Lemma compare_loop_run f lim m a b s1 s2 :
  case_map f → cstr_at m a s1 → cstr_at m b s2 →
  compare_loop f (Z.of_nat <$> lim) a b m =
  Ret (lex (upto lim (f <$> s1)) (upto lim (f <$> s2)), m).
Proof.
  intros [Hf0 Hf] Ha Hb.
  assert (Hpos : ∀ p s, cstr_at m p s → Forall (λ c, 0 < c) (f <$> s)).
  { intros p s Hc. apply Forall_fmap. pose proof (cstr_byte _ _ _ Hc) as H1. destruct Hc as [H2 _].
    eapply Forall_impl; [exact (proj2 (Forall_and _ _) (conj H1 H2))|].
    intros c [[? ?] ?]. unfold compose. apply Hf. lia. }
  assert (Hch : ∀ p s j, cstr_at m p s → (j <= length s)%nat →
    u8 (f (default 0 (s !! j))) = default 0 ((f <$> s) !! j)).
  { intros p s j Hc Hj. rewrite list_lookup_fmap.
    destruct (decide (j < length s)%nat) as [Hl|Hl].
    - pose proof (cstr_nz _ _ _ _ Hc Hl) as [H1 H2].
      destruct (lookup_lt_is_Some_2 s j Hl) as [x Hx]. rewrite Hx in *. cbn in *.
      apply wrapu_id. unfold in_u, is_byte in *. specialize (Hf x). lia.
    - rewrite (lookup_ge_None_2 s j) by lia. cbn. by rewrite Hf0. }
  destruct (compare_end lim _ _ (Hpos _ _ Ha) (Hpos _ _ Hb)) as (k & K1 & K2 & K3 & K4).
  rewrite length_fmap in K1, K2. pose proof (cstr_size _ _ _ Ha).
  assert (Hlim : ∀ j : nat, match Z.of_nat <$> lim with
      Some max_count => Z.of_nat j <? max_count | None => true end = below lim j).
  { intros j. destruct lim as [n|]; [|done]. cbn [fmap option_fmap option_map below].
    destruct (Nat.ltb_spec j n); [apply Z.ltb_lt|apply Z.ltb_ge]; lia. }
  unfold compare_loop. apply (scan_run_const _ _ k); [lia| |].
  - intros j Hj. destruct (K3 j Hj) as [B1 B2]. rewrite Hlim, B1.
    step (load_str _ _ _ j Ha ltac:(lia)). step (load_str _ _ _ j Hb ltac:(lia)).
    rewrite (Hch a s1), (Hch b s2), B2 by (done || lia). done.
  - rewrite Hlim. destruct (below lim k).
    + step (load_str _ _ _ k Ha ltac:(lia)). step (load_str _ _ _ k Hb ltac:(lia)).
      rewrite (Hch a s1), (Hch b s2), K4 by (done || lia). done.
    + injection K4 as <-. done.
Qed.

(** The string comparisons are the lexicographic order on unsigned
    characters: [strcmp] and [strcoll] of the whole strings, [strncmp] of their
    first characters, the [case] variants of their lower-case forms; a zero
    result of [strcmp] means the strings are equal. *)
Theorem strcmp_lexicographic m a b s1 s2 (n : nat) :
  cstr_at m a s1 → cstr_at m b s2 →
  strcmp a b m = Ret (lex s1 s2, m) ∧
  strcoll a b m = Ret (lex s1 s2, m) ∧
  strncmp a b (Z.of_nat n) m = Ret (lex (take n s1) (take n s2), m) ∧
  strcasecmp a b m = Ret (lex (tolower <$> s1) (tolower <$> s2), m) ∧
  strncasecmp a b (Z.of_nat n) m = Ret (lex (take n (tolower <$> s1)) (take n (tolower <$> s2)), m) ∧
  (lex s1 s2 = 0 ↔ s1 = s2).
Proof.
  intros Ha Hb.
  pose proof (λ lim, compare_loop_run (λ c, c) lim m a b s1 s2 case_map_id Ha Hb) as H1.
  pose proof (λ lim, compare_loop_run tolower lim m a b s1 s2 case_map_tolower Ha Hb) as H2.
  setoid_rewrite list_fmap_id in H1.
  split_and!; [apply (H1 None)|apply (H1 None)|apply (H1 (Some n))|apply (H2 None)
              |apply (H2 (Some n))|apply lex_0].
Qed.

Lemma strcmp_lexicographic_witness :
  strcmp 100 200 example_strs = Ret (lex (lit "abc:de") (lit "xyz"), example_strs) ∧
  strcoll 100 200 example_strs = Ret (lex (lit "abc:de") (lit "xyz"), example_strs) ∧
  strncmp 100 200 (Z.of_nat 2) example_strs =
    Ret (lex (take 2 (lit "abc:de")) (take 2 (lit "xyz")), example_strs) ∧
  strcasecmp 100 200 example_strs =
    Ret (lex (tolower <$> lit "abc:de") (tolower <$> lit "xyz"), example_strs) ∧
  strncasecmp 100 200 (Z.of_nat 2) example_strs =
    Ret (lex (take 2 (tolower <$> lit "abc:de")) (take 2 (tolower <$> lit "xyz")), example_strs) ∧
  (lex (lit "abc:de") (lit "xyz") = 0 ↔ lit "abc:de" = lit "xyz").
Proof. apply (strcmp_lexicographic example_strs 100 200 (lit "abc:de") (lit "xyz") 2); mem_eval. Defined.

(** ** Searching *)

(** The number of leading characters with the property. *)
Fixpoint span_len (P : Z → bool) (s : list Z) : nat :=
  match s with
  | x :: s => if P x then S (span_len P s) else O
  | [] => O
  end.

Lemma span_len_le P s : (span_len P s <= length s)%nat.
Proof. induction s as [|x s IH]; simpl; [lia|]. destruct (P x); lia. Qed.

Lemma span_len_in P s j : (j < span_len P s)%nat → P (default 0 (s !! j)) = true.
Proof.
  revert j. induction s as [|x s IH]; intros j Hj; simpl in *; [lia|].
  destruct (P x) eqn:E; [|lia]. destruct j as [|j]; [done|]. apply IH. lia.
Qed.

Lemma span_len_stop P s : (span_len P s < length s)%nat → P (default 0 (s !! span_len P s)) = false.
Proof.
  induction s as [|x s IH]; simpl; [lia|]. destruct (P x) eqn:E; [|done]. intros. apply IH. lia.
Qed.

(** [k] is [span_len P s] when all before [k] have the property and [k] has not. *)
Lemma span_len_drop P s k :
  (k <= span_len P s)%nat → span_len P (drop k s) = (span_len P s - k)%nat.
Proof.
  revert s. induction k as [|k IH]; intros [|x s] Hk; simpl in *; try lia.
  destruct (P x); [|lia]. rewrite IH; lia.
Qed.

(** A scan that goes on while the current character has the property, and
    leaves at the terminator at the latest. *)
Lemma scan_span {R} m str s (P : Z → bool) (r : Z → Z → R) body :
  cstr_at m str s →
  (∀ j : nat, (j < length s)%nat →
     body (Z.of_nat j) m =
     Ret (if P (default 0 (s !! j)) then inl (Z.of_nat j + 1)
          else inr (r (Z.of_nat j) (default 0 (s !! j))), m)) →
  body (Z.of_nat (length s)) m = Ret (inr (r (Z.of_nat (length s)) 0), m) →
  scan body 0 m = Ret (r (Z.of_nat (span_len P s)) (default 0 (s !! span_len P s)), m).
Proof.
  intros Hs Hstep Hend. pose proof (cstr_size _ _ _ Hs). pose proof (span_len_le P s).
  apply (scan_run_const _ _ (span_len P s)); [lia| |].
  - intros j Hj. rewrite Hstep by lia. by rewrite (span_len_in _ _ _ Hj).
  - destruct (decide (span_len P s < length s)%nat) as [Hl|Hl].
    + rewrite Hstep by done. by rewrite (span_len_stop _ _ Hl).
    + replace (span_len P s) with (length s) by lia. by rewrite cstr_end.
Qed.

Lemma in_set_run m set t c :
  cstr_at m set t → in_set set (Z.of_nat (length t)) c m = Ret (bool_decide (c ∈ t), m).
Proof.
  intros Ht. unfold in_set. rewrite Nat2Z.id.
  assert (Hstep : ∀ k x, t !! k = Some x →
    (a ← load (set + (0 + Z.of_nat k)); mret (if negb (c =? a) then None else Some true)) m =
    Ret (if negb (c =? x) then None else Some true, m)).
  { intros k x Hx. rewrite Z.add_0_l. pose proof (lookup_lt_Some _ _ _ Hx).
    step (load_str _ _ _ k Ht ltac:(lia)). by rewrite Hx. }
  case_bool_decide as Hc.
  - destruct (list_find (λ x, x = c) t) as [[k x]|] eqn:E.
    + apply list_find_Some in E as (Hx & -> & Hlt).
      rewrite (M_bind_ret _ _ _ (Some true) m); [done|].
      apply (for_ret_some _ _ _ (λ _, m) k); [by eapply lookup_lt_Some| |].
      * intros j Hj. pose proof (lookup_lt_Some _ _ _ Hx).
        destruct (lookup_lt_is_Some_2 t j ltac:(lia)) as [z Hz]. rewrite (Hstep j z Hz).
        rewrite (proj2 (Z.eqb_neq c z)); [done|]. intros <-. by eapply Hlt.
      * by rewrite (Hstep k c Hx), Z.eqb_refl.
    + apply list_find_None in E. rewrite Forall_forall in E. by specialize (E c Hc).
  - rewrite (M_bind_ret _ _ _ None m); [done|]. apply (for_ret_none _ _ _ (λ _, m)).
    intros j Hj. destruct (lookup_lt_is_Some_2 t j Hj) as [z Hz]. rewrite (Hstep j z Hz).
    rewrite (proj2 (Z.eqb_neq c z)); [done|]. intros <-. apply Hc. by eapply list_elem_of_lookup_2.
Qed.

Lemma span_run m str set s t stop_when :
  cstr_at m str s → cstr_at m set t →
  span stop_when str set m =
  Ret (Z.of_nat (span_len (λ c, negb (Bool.eqb (bool_decide (c ∈ t)) stop_when)) s), m).
Proof.
  intros Hs Ht. unfold span. step (strlen_run _ _ _ Ht).
  apply (scan_span m str s _ (λ i _, i)); [done|..].
  - intros j Hj. step (load_str _ _ _ j Hs ltac:(lia)). rewrite (char_nz _ _ _ _ Hs Hj).
    step (in_set_run m set t (default 0 (s !! j)) Ht). by destruct (Bool.eqb _ _).
  - step (load_str _ _ _ (length s) Hs ltac:(lia)). by rewrite cstr_end.
Qed.

(** Characters in a set, or not. *)
Definition isin (t : list Z) (c : Z) : bool := bool_decide (c ∈ t).
Definition notin (t : list Z) (c : Z) : bool := negb (isin t c).

Lemma span_len_ext P Q s : (∀ c, P c = Q c) → span_len P s = span_len Q s.
Proof. intros H. induction s as [|x s IH]; simpl; [done|]. by rewrite H, IH. Qed.

Lemma strspn_run m str set s t :
  cstr_at m str s → cstr_at m set t →
  strspn str set m = Ret (Z.of_nat (span_len (isin t) s), m).
Proof.
  intros Hs Ht. unfold strspn. rewrite (span_run m str set s t false Hs Ht).
  do 3 f_equal. apply span_len_ext. intros c. unfold isin. by destruct (bool_decide _).
Qed.

Lemma strcspn_run m str set s t :
  cstr_at m str s → cstr_at m set t →
  strcspn str set m = Ret (Z.of_nat (span_len (notin t) s), m).
Proof.
  intros Hs Ht. unfold strcspn. rewrite (span_run m str set s t true Hs Ht).
  do 3 f_equal. apply span_len_ext. intros c. unfold notin, isin. by destruct (bool_decide _).
Qed.

Lemma strpbrk_run m str set s t :
  cstr_at m str s → cstr_at m set t →
  strpbrk str set m =
  Ret (let k := span_len (notin t) s in
       if (k <? length s)%nat then str + Z.of_nat k else NULL, m).
Proof.
  intros Hs Ht. unfold strpbrk. step (strcspn_run m str set s t Hs Ht).
  pose proof (span_len_le (notin t) s). step (load_str m str s (span_len (notin t) s) Hs ltac:(lia)).
  cbv zeta. destruct (Nat.ltb_spec (span_len (notin t) s) (length s)) as [Hl|Hl].
  - by rewrite (char_nz m str s) by done.
  - replace (span_len (notin t) s) with (length s) by lia. by rewrite cstr_end.
Qed.

Lemma strchrnul_run m str s uc :
  cstr_at m str s →
  strchrnul str uc m = Ret (str + Z.of_nat (span_len (λ c, negb (c =? u8 uc)) s), m).
Proof.
  intros Hs. unfold strchrnul. apply (scan_span m str s _ (λ i _, str + i)); [done|..].
  - intros j Hj. step (load_str _ _ _ j Hs ltac:(lia)).
    rewrite (char_nz _ _ _ _ Hs Hj), orb_false_r. by destruct (_ =? u8 uc).
  - step (load_str _ _ _ (length s) Hs ltac:(lia)). by rewrite cstr_end, orb_true_r.
Qed.

Lemma span_len_take P s : Forall (λ d, P d = true) (take (span_len P s) s).
Proof.
  induction s as [|x s IH]; simpl; [done|]. destruct (P x) eqn:E; [|done]. by constructor.
Qed.

(** The address of the last occurrence of a character in the string that
    starts at [i], the terminator included. *)
Fixpoint last_pos (c : Z) (s : list Z) (i last : Z) : Z :=
  match s with
  | [] => if c =? 0 then i else last
  | x :: s => last_pos c s (i + 1) (if x =? c then i else last)
  end.

Lemma last_pos_ok c s i last :
  (last_pos c s i last = last ∧ c ∉ s ++ [0]) ∨
  (∃ k, last_pos c s i last = i + Z.of_nat k ∧ (s ++ [0]) !! k = Some c ∧ c ∉ drop (S k) (s ++ [0])).
Proof.
  revert i last. induction s as [|x s IH]; intros i last; cbn [last_pos app].
  - case_if; [subst c; right; exists O|left]; rewrite ?list_elem_of_singleton.
    + split_and!; [lia|done|apply not_elem_of_nil].
    + done.
  - destruct (IH (i + 1) (if x =? c then i else last)) as [[-> Hn]|(k & -> & Hk & Hn)].
    + case_if.
      * right. exists O. subst. split_and!; [lia|done|done].
      * left. split; [done|]. rewrite elem_of_cons. intros [->|]; done.
    + right. exists (S k). split_and!; [lia|done|done].
Qed.

Lemma strrchr_run m str s uc :
  cstr_at m str s → strrchr str uc m = Ret (last_pos (u8 uc) s str NULL, m).
Proof.
  intros Hs. pose proof (cstr_size _ _ _ Hs) as Hsz. unfold strrchr, scan.
  assert (H : ∀ s i last fuel, cstr_at m (str + i) s → (length s < fuel)%nat →
    loop fuel (λ '(i, last),
      c ← load (str + i);
      let last := if c =? u8 uc then str + i else last in
      mret (if c =? 0 then inr last else inl (i + 1, last))) (i, last) m =
    Ret (last_pos (u8 uc) s (str + i) last, m)).
  { clear. intros s. induction s as [|x s IH]; intros i last [|fuel] Hs Hf; simpl in Hf; try lia;
      cbn [loop last_pos]; cbv beta iota zeta;
      assert (L := load_str _ _ _ O Hs ltac:(lia)); rewrite Z.add_0_r in L; cbn in L;
      (erewrite M_bind_ret; [|step L; reflexivity]).
    - rewrite Z.eqb_refl. by rewrite (Z.eqb_sym 0).
    - pose proof (char_nz _ _ _ O Hs ltac:(simpl; lia)) as Hx. cbn in Hx. rewrite Hx.
      rewrite IH; [by rewrite Z.add_assoc| |lia].
      apply (cstr_tail _ _ _ 1) in Hs; [|simpl; lia]. by rewrite <- Z.add_assoc in Hs. }
  rewrite (H s); rewrite ?Z.add_0_r; [done|done|lia].
Qed.

(** [strchr] returns the first and [strrchr] the last occurrence of the
    byte value, the terminator counting as part of the string, or null when
    there is none; [strpbrk] returns the first character of a set. *)
Theorem strchr_first m str s uc set t :
  cstr_at m str s → cstr_at m set t →
  (∃ r, strchr str uc m = Ret (r, m) ∧
    ((r = NULL ∧ u8 uc ∉ s ++ [0]) ∨
     (∃ k, r = str + Z.of_nat k ∧ (s ++ [0]) !! k = Some (u8 uc) ∧ u8 uc ∉ take k (s ++ [0])))) ∧
  (∃ r, strrchr str uc m = Ret (r, m) ∧
    ((r = NULL ∧ u8 uc ∉ s ++ [0]) ∨
     (∃ k, r = str + Z.of_nat k ∧ (s ++ [0]) !! k = Some (u8 uc) ∧ u8 uc ∉ drop (S k) (s ++ [0])))) ∧
  (∃ r, strpbrk str set m = Ret (r, m) ∧
    ((r = NULL ∧ ∀ c, c ∈ s → c ∉ t) ∨
     (∃ k c, r = str + Z.of_nat k ∧ s !! k = Some c ∧ c ∈ t ∧ ∀ d, d ∈ take k s → d ∉ t))).
Proof.
  intros Hs Ht. split_and!.
  - unfold strchr. step (strchrnul_run m str s uc Hs). set (P := λ c, negb (c =? u8 uc)).
    pose proof (span_len_le P s). step (load_str m str s (span_len P s) Hs ltac:(lia)).
    eexists. split; [done|].
    pose proof (span_len_take P s) as Htk. rewrite Forall_forall in Htk.
    assert (Hnot : u8 uc ∉ take (span_len P s) s).
    { intros Hin. specialize (Htk _ Hin). unfold P in Htk. by rewrite Z.eqb_refl in Htk. }
    destruct (decide (span_len P s < length s)%nat) as [Hl|Hl].
    + pose proof (span_len_stop P s Hl) as Hst. unfold P in Hst at 1. b2p. rewrite Hst, Z.eqb_refl.
      right. exists (span_len P s). split_and!; [done| |by rewrite take_app_le by lia].
      rewrite lookup_app_l by done. destruct (lookup_lt_is_Some_2 s _ Hl) as [x Hx].
      rewrite Hx in *. by rewrite <- Hst.
    + replace (span_len P s) with (length s) in * by lia. rewrite cstr_end.
      rewrite firstn_all in Hnot. case_if.
      * right. exists (length s). rewrite Eif. split_and!; [done|by rewrite list_lookup_middle|].
        rewrite take_app_length. by rewrite <- Eif.
      * left. split; [done|]. rewrite elem_of_app, list_elem_of_singleton. tauto.
  - rewrite (strrchr_run m str s uc Hs). eexists. split; [done|]. apply last_pos_ok.
  - rewrite (strpbrk_run m str set s t Hs Ht). eexists. split; [done|]. cbv zeta.
    pose proof (span_len_take (notin t) s) as Htk. rewrite Forall_forall in Htk.
    unfold notin, isin in Htk.
    assert (Hn : ∀ d, d ∈ take (span_len (notin t) s) s → d ∉ t).
    { intros d Hd Hdt. specialize (Htk d Hd). by rewrite bool_decide_true in Htk by done. }
    destruct (Nat.ltb_spec (span_len (notin t) s) (length s)) as [Hl|Hl].
    + right. destruct (lookup_lt_is_Some_2 s _ Hl) as [c Hc]. exists (span_len (notin t) s), c.
      split_and!; [done|done| |done].
      pose proof (span_len_stop _ _ Hl) as Hst. rewrite Hc in Hst. unfold notin, isin in Hst. cbn in Hst.
      b2p. by apply bool_decide_eq_true in Hst.
    + left. split; [done|]. by rewrite firstn_all2 in Hn by lia.
Qed.

Lemma strchr_first_witness :
  ∃ r, strchr 100 (ch ":") example_strs = Ret (r, example_strs).
Proof.
  destruct (strchr_first example_strs 100 (lit "abc:de") (ch ":") 400 (lit ":"))
    as [(r & Hr & _) _]; [mem_eval..|]. by exists r.
Defined.

(** A needle that is not a prefix differs from the haystack somewhere, the
    terminator of the haystack counting as a difference. *)
Lemma prefix_or_diff n t :
  Forall (λ c, c ≠ 0) n →
  n `prefix_of` t ∨
  ¬ n `prefix_of` t ∧
  ∃ k, (k < length n)%nat ∧ (k <= length t)%nat ∧ take k n = take k t ∧
       default 0 (n !! k) ≠ default 0 (t !! k).
Proof.
  intros Hn. revert t. induction Hn as [|x n Hx Hn IH]; intros t; [left; apply prefix_nil|].
  destruct t as [|y t].
  - right. split; [apply prefix_nil_not|]. exists O. split_and!; [simpl; lia|simpl; lia|done|done].
  - destruct (decide (x = y)) as [->|Hne].
    + destruct (IH t) as [Hp|(Hp & k & K1 & K2 & K3 & K4)].
      * left. by apply prefix_cons.
      * right. split; [intros H; by apply prefix_cons_inv_2 in H|].
        exists (S k). split_and!; [simpl; lia|simpl; lia|simpl; by rewrite K3|done].
    + right. split; [intros H; apply Hne; by apply prefix_cons_inv_1 in H|].
      exists O. split_and!; [simpl; lia|simpl; lia|done|done].
Qed.

Lemma take_lookup (l1 l2 : list Z) k j : take k l1 = take k l2 → (j < k)%nat → l1 !! j = l2 !! j.
Proof. intros H Hj. rewrite <- (lookup_take_lt l1 k), H, lookup_take_lt by done. done. Qed.

(** The inner loop of [strstr]: is the needle missing here? *)
Lemma strstr_inner_run m needle n haystack i t :
  cstr_at m needle n → cstr_at m (haystack + i) t →
  scan (λ j,
    n ← load (needle + j);
    if n =? 0 then mret (inr false)
    else h ← load (haystack + (i + j)); mret (if negb (h =? n) then inr true else inl (j + 1))) 0 m =
  Ret (negb (bool_decide (n `prefix_of` t)), m).
Proof.
  intros Hn Ht. pose proof (cstr_size _ _ _ Hn). pose proof (cstr_size _ _ _ Ht).
  assert (Hstep : ∀ j, (j < length n)%nat → (j <= length t)%nat →
    (c ← load (needle + Z.of_nat j);
     if c =? 0 then mret (inr false)
     else h ← load (haystack + (i + Z.of_nat j));
          mret (if negb (h =? c) then inr true else inl (Z.of_nat j + 1))) m =
    Ret (if negb (default 0 (t !! j) =? default 0 (n !! j)) then inr true else inl (Z.of_nat j + 1), m)).
  { intros j Hj1 Hj2. step (load_str _ _ _ j Hn ltac:(lia)). rewrite (char_nz _ _ _ _ Hn Hj1).
    rewrite Z.add_assoc. by step (load_str _ _ _ j Ht Hj2). }
  destruct (prefix_or_diff n t (proj1 Hn)) as [Hp|(Hp & k & K1 & K2 & K3 & K4)].
  - rewrite bool_decide_true by done. apply (scan_run_const _ _ (length n)); [lia| |].
    + destruct Hp as [u ->]. intros j Hj. rewrite Hstep by (rewrite ?length_app; lia).
      by rewrite lookup_app_l, Z.eqb_refl by done.
    + step (load_str _ _ _ (length n) Hn ltac:(lia)). by rewrite cstr_end.
  - rewrite bool_decide_false by done. apply (scan_run_const _ _ k); [lia| |].
    + intros j Hj. rewrite Hstep by lia. by rewrite (take_lookup n t k j K3 Hj), Z.eqb_refl.
    + rewrite Hstep by lia. by rewrite (proj2 (Z.eqb_neq _ _)) by congruence.
Qed.

(** One position of the haystack. *)
Lemma strstr_body_run m haystack needle h n body :
  cstr_at m haystack h → cstr_at m needle n →
  body = (λ i,
      h ← load (haystack + i);
      if h =? 0 then mret (inr NULL)
      else
        diff ← scan (λ j,
          n ← load (needle + j);
          if n =? 0 then mret (inr false)
          else h ← load (haystack + (i + j)); mret (if negb (h =? n) then inr true else inl (j + 1))) 0;
        mret (if (diff : bool) then inl (i + 1) else inr (haystack + i))) →
  (∀ j, (j < length h)%nat → (body (Z.of_nat j) : M mem (Z + Z)) m =
     Ret (if bool_decide (n `prefix_of` drop j h) then inr (haystack + Z.of_nat j)
          else inl (Z.of_nat j + 1), m)) ∧
  body (Z.of_nat (length h)) m = Ret (inr NULL, m).
Proof.
  intros Hh Hn ->. split.
  - intros j Hj. step (load_str _ _ _ j Hh ltac:(lia)). rewrite (char_nz _ _ _ _ Hh Hj).
    step (strstr_inner_run m needle n haystack (Z.of_nat j) (drop j h) Hn
            ltac:(apply cstr_tail; [done|lia])).
    by destruct (bool_decide _).
  - step (load_str _ _ _ (length h) Hh ltac:(lia)). by rewrite cstr_end.
Qed.

(** [strstr] returns the first position at which the needle occurs, or
    null when it occurs nowhere; it always returns and reads nothing past the
    terminators. *)
Theorem strstr_first m haystack needle h n :
  cstr_at m haystack h → cstr_at m needle n →
  ∃ r, strstr haystack needle m = Ret (r, m) ∧
    ((∃ k, r = haystack + Z.of_nat k ∧ n `prefix_of` drop k h ∧
           ∀ j, (j < k)%nat → ¬ n `prefix_of` drop j h) ∨
     (r = NULL ∧ ∀ j, ¬ n `prefix_of` drop j h)).
Proof.
  intros Hh Hn. unfold strstr.
  assert (L := load_str _ _ _ O Hn ltac:(lia)). rewrite Z.add_0_r in L. step L. clear L.
  destruct n as [|n0 n].
  { exists haystack. split; [done|]. left. exists O.
    split_and!; [lia|apply prefix_nil|lia]. }
  rewrite (char_nz _ _ _ O Hn) by (simpl; lia). set (nn := n0 :: n) in *.
  set (hit := λ j, bool_decide (nn `prefix_of` drop j h)).
  destruct (strstr_body_run m haystack needle h nn _ Hh Hn eq_refl) as [H1 H2].
  pose proof (cstr_size _ _ _ Hh).
  destruct (list_find (λ j, hit j = true) (seq 0 (length h))) as [[k x]|] eqn:E.
  - apply list_find_Some in E as (Hk & Hx & Hlt). apply lookup_seq in Hk as [-> Hk]. simpl in *.
    exists (haystack + Z.of_nat k). split.
    + apply (scan_run_const _ _ k); [lia| |].
      * intros j Hj. rewrite H1 by lia. fold (hit j). destruct (hit j) eqn:Ej; [|done].
        exfalso. apply (Hlt j j); [apply lookup_seq; lia|done|done].
      * rewrite H1 by done. fold (hit k). by rewrite Hx.
    + left. exists k. split_and!; [done|by apply bool_decide_eq_true in Hx|].
      intros j Hj Hp. apply (Hlt j j); [apply lookup_seq; lia|done|by apply bool_decide_eq_true].
  - apply list_find_None in E. rewrite Forall_forall in E. exists NULL. split.
    + apply (scan_run_const _ _ (length h)); [lia| |done]. intros j Hj. rewrite H1 by done.
      fold (hit j). destruct (hit j) eqn:Ej; [|done]. exfalso. apply (E j); [apply elem_of_seq; lia|done].
    + right. split; [done|]. intros j Hp. destruct (decide (j < length h)%nat).
      * apply (E j); [apply elem_of_seq; lia|by apply bool_decide_eq_true].
      * rewrite drop_ge in Hp by lia. by apply prefix_nil_inv in Hp.
Qed.

Lemma strstr_first_witness :
  ∃ r, strstr 100 400 example_strs = Ret (r, example_strs) ∧
    ((∃ k, r = 100 + Z.of_nat k ∧ lit ":" `prefix_of` drop k (lit "abc:de") ∧
           ∀ j, (j < k)%nat → ¬ lit ":" `prefix_of` drop j (lit "abc:de")) ∨
     (r = NULL ∧ ∀ j, ¬ lit ":" `prefix_of` drop j (lit "abc:de"))).
Proof. apply (strstr_first example_strs 100 400 (lit "abc:de") (lit ":")); mem_eval. Defined.

(** ** Splitting *)

(** Overwriting a character of a string by the terminator cuts it in two. *)
Lemma cut_str m a s (k : nat) :
  cstr_at m a s → (k <= length s)%nat →
  store (a + Z.of_nat k) 0 m = Ret ((), mem_write m (a + Z.of_nat k) [0]) ∧
  cstr_at (mem_write m (a + Z.of_nat k) [0]) a (take k s) ∧
  ((k < length s)%nat →
   cstr_at (mem_write m (a + Z.of_nat k) [0]) (a + Z.of_nat k + 1) (drop (S k) s)).
Proof.
  intros Hs Hk. pose proof (cstr_at_lookup m a s k Hs Hk) as Hl. split_and!.
  - rewrite store_run; [done|by rewrite Hl|unfold is_byte; lia].
  - replace (a + Z.of_nat k) with (a + Z.of_nat (length (take k s))) by (rewrite length_take; lia).
    destruct Hs as [H1 H2]. rewrite <- (take_drop k s), <- app_assoc in H2.
    apply bytes_at_app in H2 as [H2 _]. split; [by apply Forall_take|]. apply bytes_at_app. split.
    + apply bytes_at_frame; [done|]. unfold disjoint_from. lia.
    + apply bytes_at_write. constructor; [unfold is_byte; lia|constructor].
  - intros Hk'. apply cstr_frame; [|unfold disjoint_from; simpl; lia].
    replace (a + Z.of_nat k + 1) with (a + Z.of_nat (S k)) by lia. by apply cstr_tail.
Qed.

(** One call of [strtok_r] on the string at [str]. *)
Lemma strtok_r_run m str delim s t save skip s1 :
  0 < str → cstr_at m str s → cstr_at m delim t →
  skip = span_len (isin t) s → s1 = drop skip s →
  strtok_r str delim save m =
  match s1 with
  | [] => Ret ((NULL, NULL), m)
  | _ =>
      let tok := str + Z.of_nat skip in
      let amount := span_len (notin t) s1 in
      Ret ((tok, if (amount <? length s1)%nat then tok + Z.of_nat amount + 1 else NULL),
           mem_write m (tok + Z.of_nat amount) [0])
  end.
Proof.
  intros Hp Hs Ht -> ->. unfold strtok_r. rewrite (proj2 (Z.eqb_neq str NULL)) by (unfold NULL; lia).
  cbn [andb]. cbv zeta. step (strspn_run m str delim s t Hs Ht). set (k := span_len (isin t) s).
  pose proof (span_len_le (isin t) s) as Hk. fold k in Hk.
  step (load_str m str s k Hs Hk). pose proof (cstr_tail m str s k Hs Hk) as Hs1.
  destruct (drop k s) as [|x s1] eqn:E.
  - apply (f_equal length) in E. rewrite length_drop in E. simpl in E.
    replace k with (length s) by lia. by rewrite cstr_end.
  - assert (Hlt : (k < length s)%nat) by (apply (f_equal length) in E; rewrite length_drop in E; simpl in E; lia).
    rewrite (char_nz m str s) by done. set (s1' := x :: s1) in *.
    step (strcspn_run m _ delim s1' t Hs1 Ht). pose proof (span_len_le (notin t) s1') as Ha.
    step (load_str m _ s1' _ Hs1 Ha).
    destruct (cut_str m _ s1' _ Hs1 Ha) as [Hst _]. step Hst.
    destruct (Nat.ltb_spec (span_len (notin t) s1') (length s1')) as [Hl|Hl].
    + by rewrite (char_nz _ _ _ _ Hs1 Hl).
    + replace (span_len (notin t) s1') with (length s1') by lia. by rewrite cstr_end.
Qed.

(** The words of a string: its maximal blocks without delimiters. *)
Fixpoint words_from (t : list Z) (s cur : list Z) : list (list Z) :=
  match s with
  | [] => if decide (cur = []) then [] else [cur]
  | c :: s =>
      if isin t c
      then (if decide (cur = []) then [] else [cur]) ++ words_from t s []
      else words_from t s (cur ++ [c])
  end.

Definition words (t s : list Z) : list (list Z) := words_from t s [].

Lemma words_skip t s : words t s = words t (drop (span_len (isin t) s) s).
Proof.
  induction s as [|c s IH]; [done|]. cbn [span_len]. unfold words in *. cbn [words_from].
  destruct (isin t c) eqn:E; simpl; [done|]. by rewrite E.
Qed.

Lemma words_from_word t s cur :
  let k := span_len (notin t) s in
  cur ++ take k s ≠ [] →
  words_from t s cur = (cur ++ take k s) :: words t (drop (S k) s).
Proof.
  cbv zeta. revert cur. induction s as [|c s IH]; intros cur Hne; cbn [words_from span_len] in *.
  - rewrite take_nil, app_nil_r in *. by rewrite decide_False.
  - assert (Hn : notin t c = negb (isin t c)) by done. rewrite Hn in *.
    destruct (isin t c) eqn:E; cbn [negb] in *.
    + rewrite take_0, app_nil_r in *. by rewrite decide_False by done.
    + rewrite IH; [|by destruct cur]. by rewrite <- app_assoc.
Qed.

(** A client that calls [strtok_r] until it returns null. *)
Fixpoint strtok_all (fuel : nat) (str delim save : Z) : M mem (list Z) :=
  match fuel with
  | O => M_nofuel
  | S fuel =>
      '(p, save) ← strtok_r str delim save;
      if p =? NULL then mret []
      else ps ← strtok_all fuel NULL delim save; mret (p :: ps)
  end.

Lemma strtok_r_null m delim save :
  0 < save → strtok_r NULL delim save m = strtok_r save delim NULL m.
Proof.
  intros H. unfold strtok_r. rewrite (proj2 (Z.eqb_neq save NULL)) by (unfold NULL; lia). done.
Qed.

Lemma strtok_all_run fuel m str delim s t :
  0 < str → cstr_at m str s → cstr_at m delim t →
  disjoint_from str (S (length s)) delim (S (length t)) → (length s < fuel)%nat →
  ∃ ps m', (∀ save, strtok_all fuel str delim save m = Ret (ps, m')) ∧
    Forall2 (cstr_at m') ps (words t s) ∧
    ∀ x, x < str ∨ str + Z.of_nat (length s) < x → m' !! x = m !! x.
Proof.
  revert m str s. induction fuel as [|fuel IH]; intros m str s Hp Hs Ht Hj Hf; [lia|].
  cbn [strtok_all]. pose proof (λ save, strtok_r_run m str delim s t save _ _ Hp Hs Ht eq_refl eq_refl) as Hrun.
  rewrite words_skip. set (skip := span_len (isin t) s) in *.
  pose proof (span_len_le (isin t) s) as Hk. fold skip in Hk.
  pose proof (cstr_tail m str s skip Hs Hk) as Hs1. pose proof (length_drop s skip) as Hlen.
  destruct (drop skip s) as [|c s1] eqn:E.
  { exists [], m. split; [intros save; by step (Hrun save)|]. split; [constructor|done]. }
  cbv zeta in Hrun. set (s1' := c :: s1) in *. set (amount := span_len (notin t) s1') in *.
  set (tok := str + Z.of_nat skip) in *. set (m1 := mem_write m (tok + Z.of_nat amount) [0]) in *.
  assert (Hc : isin t c = false).
  { pose proof (span_len_stop (isin t) s) as Hst. fold skip in Hst.
    assert (s !! skip = Some c) as Hsc by (by rewrite <- (Nat.add_0_r skip), <- lookup_drop, E).
    rewrite Hsc in Hst. apply Hst. by eapply lookup_lt_Some. }
  assert (Ham : (0 < amount <= length s1')%nat).
  { split; [|apply span_len_le]. unfold amount, s1'. cbn [span_len]. unfold notin at 1. rewrite Hc. simpl. lia. }
  destruct (cut_str m tok s1' amount Hs1 ltac:(lia)) as (_ & Htok & Hrest). fold m1 in Htok, Hrest.
  assert (Hw : words t s1' = take amount s1' :: words t (drop (S amount) s1')).
  { apply (words_from_word t s1' []). fold amount. intros H. apply (f_equal length) in H.
    simpl in H. rewrite length_take in H. lia. }
  assert (Hp0 : (tok =? NULL) = false) by (apply Z.eqb_neq; unfold tok, NULL; lia).
  assert (Hsame : ∀ x, x < str ∨ str + Z.of_nat (length s) < x → m1 !! x = m !! x).
  { intros x Hx. unfold m1. apply mem_write_out. simpl. unfold tok. lia. }
  rewrite Hw. destruct (Nat.ltb_spec amount (length s1')) as [Hl|Hl].
  - destruct (IH m1 (tok + Z.of_nat amount + 1) (drop (S amount) s1')) as (ps & m' & Hgo & Hps & Hfr);
      [unfold tok; lia|auto| |rewrite ?length_drop; unfold disjoint_from, tok in *; lia|rewrite ?length_drop; lia|].
    { apply cstr_frame; [done|]. unfold disjoint_from, tok in *. simpl. lia. }
    exists (tok :: ps), m'. split_and!.
    + intros save. step (Hrun save). cbv beta iota. rewrite Hp0.
      assert (Hgo' : strtok_all fuel NULL delim (tok + Z.of_nat amount + 1) m1 = Ret (ps, m')).
      { rewrite <- (Hgo NULL). destruct fuel; [done|]. cbn [strtok_all]. unfold mbind, M_bind.
        rewrite strtok_r_null by (unfold tok; lia). done. }
      by step Hgo'.
    + constructor; [|done]. destruct Htok as [T1 [T2 T3]]. split; [done|split; [done|]].
      intros i Hi. rewrite Hfr; [by apply T3|]. rewrite length_app, length_take in Hi. simpl in Hi. lia.
    + intros x Hx. rewrite Hfr; [by apply Hsame|]. rewrite length_drop. unfold tok. lia.
  - exists [tok], m1. split_and!; [| |done].
    + intros save. step (Hrun save). cbv beta iota. rewrite Hp0. destruct fuel; [lia|]. done.
    + rewrite (drop_ge s1') by lia. constructor; [done|constructor].
Qed.

(** Calling [strtok_r] until it returns null splits the string into
    exactly its words, the maximal runs without delimiter characters, in order
    and terminated in place; nothing outside the string changes. *)
Theorem strtok_r_words m str delim s t :
  0 < str → cstr_at m str s → cstr_at m delim t →
  disjoint_from str (S (length s)) delim (S (length t)) →
  ∃ ps m', strtok_all (S (length s)) str delim NULL m = Ret (ps, m') ∧
    Forall2 (cstr_at m') ps (words t s) ∧
    ∀ x, x < str ∨ str + Z.of_nat (length s) < x → m' !! x = m !! x.
Proof.
  intros Hp Hs Ht Hj.
  destruct (strtok_all_run (S (length s)) m str delim s t Hp Hs Ht Hj (le_n _)) as (ps & m' & H & ? & ?).
  by exists ps, m'.
Qed.

Lemma strtok_r_words_witness :
  ∃ ps m', strtok_all (S (length (lit "abc:de"))) 100 400 NULL example_strs = Ret (ps, m') ∧
    Forall2 (cstr_at m') ps (words (lit ":") (lit "abc:de")) ∧
    ∀ x, x < 100 ∨ 100 + Z.of_nat (length (lit "abc:de")) < x → m' !! x = example_strs !! x.
Proof. apply (strtok_r_words example_strs 100 400 (lit "abc:de") (lit ":")); mem_eval. Defined.

(** ** Divergences *)

(** [stresep] looks for a character that differs from the first
    delimiter instead of one that equals a delimiter: on any string whose first
    character is neither the escape character nor the first delimiter, the
    token is cut to nothing at once. *)
Theorem stresep_inverted m str delim c s d t :
  0 < str → cstr_at m str (c :: s) → cstr_at m delim (d :: t) → c ≠ d →
  stresep str delim 0 m = Ret ((str, str + 1), mem_write m str [0]).
Proof.
  intros Hp Hs Ht Hne. unfold stresep. rewrite (proj2 (Z.eqb_neq str NULL)) by (unfold NULL; lia).
  assert (Lc := load_str _ _ _ O Hs ltac:(lia)). assert (Ld := load_str _ _ _ O Ht ltac:(lia)).
  pose proof (char_nz _ _ _ O Hs ltac:(simpl; lia)) as Hc. pose proof (char_nz _ _ _ O Ht ltac:(simpl; lia)) as Hd.
  rewrite Z.add_0_r in Lc, Ld. cbn in Lc, Ld, Hc, Hd.
  unfold scan at 1. cbn [loop]. cbv beta iota. cbn [negb andb Z.eqb].
  unfold mbind at 1, M_bind at 1. rewrite Z.add_0_r.
  assert (Hst : store str 0 m = Ret ((), mem_write m str [0])).
  { destruct (cut_str m str (c :: s) O Hs ltac:(lia)) as (H & _).
    by rewrite Z.add_0_r in H. }
  rewrite (M_bind_ret _ _ _ _ _ Lc). cbn [negb andb]. rewrite Hc. cbn [negb].
  assert (Hin : scan (λ i, d0 ← load (delim + i);
    mret (if d0 =? 0 then inr c else if negb (c =? d0) then inr 0 else inl (i + 1))) 0 m = Ret (0, m)).
  { apply (scan_run_const _ _ O); [lia|lia|]. change (Z.of_nat 0) with 0. rewrite Z.add_0_r.
    step Ld. rewrite Hd. by rewrite (proj2 (Z.eqb_neq c d)). }
  rewrite (M_bind_ret _ _ _ _ _ Hin), (M_bind_ret _ _ _ _ _ Hst). done.
Qed.

Lemma stresep_inverted_witness :
  stresep 100 400 0 example_strs = Ret ((100, 100 + 1), mem_write example_strs 100 [0]).
Proof.
  apply (stresep_inverted example_strs 100 400 (ch "a") (lit "bc:de") (ch ":") []);
    [mem_eval..|discriminate].
Defined.

(** The loop that should skip leading zeroes runs to the end of the mapped
    memory when no digit follows. *)
Lemma skip_while_overrun m a i s :
  cstr_at m (a + i) s → Forall (λ c, is_number c = false) s →
  m !! (a + i + Z.of_nat (S (length s))) = None →
  skip_while false a i 0 m = Undef.
Proof.
  intros Hs Hn Hend. pose proof (cstr_size _ _ _ Hs). unfold skip_while.
  apply (scan_undef _ m 0 (S (length s))); [lia| |].
  - intros j Hj. rewrite !Z.add_0_l, Z.add_assoc.
    step (load_str m (a + i) s j Hs ltac:(lia)).
    replace (is_number (default 0 (s !! j))) with false; [done|].
    destruct (decide (j < length s)%nat) as [Hl|Hl].
    + destruct (lookup_lt_is_Some_2 s j Hl) as [x Hx]. rewrite Hx. symmetry.
      by apply (Forall_lookup_1 _ _ _ _ Hn Hx).
    + by rewrite (lookup_ge_None_2 s j) by lia.
  - rewrite Z.add_0_l, Z.add_assoc. unfold mbind, M_bind, load. by rewrite Hend.
Qed.

(** [strverscmp] reads past the end of a string: when the strings first
    differ at a digit of the second, after a character that is no digit, and no
    digit is left in the first, the search for leading zeroes does not stop at
    the terminator.  The comment's own example, 1.2.txt against 1.2.3.txt, is
    such a case. *)
Theorem strverscmp_overrun m a b p x s d t :
  cstr_at m a (p ++ x :: s) → cstr_at m b (p ++ d :: t) →
  is_number d = true → Forall (λ c, is_number c = false) (x :: s) →
  match last p with Some c => is_number c = false | None => True end →
  m !! (a + Z.of_nat (S (length (p ++ x :: s)))) = None →
  strverscmp a b m = Undef.
Proof.
  intros Ha Hb Hd Hx Hp Hend. pose proof (cstr_size _ _ _ Ha) as Hsz. rewrite length_app in Hsz, Hend.
  simpl in Hsz, Hend.
  assert (Hxd : x ≠ d) by (apply Forall_cons in Hx as [Hx _]; intros ->; congruence).
  set (i := Z.of_nat (length p)).
  assert (Hat : strverscmp_at a b i x d m = Undef).
  { unfold strverscmp_at. rewrite Hd, orb_true_r. cbn [negb andb].
    assert (Hds : ∀ m0, m0 = m → scan (λ digits_start,
        if negb (digits_start =? 0) then
          c ← load (a + (digits_start - 1));
          mret (if is_number c then inl (digits_start - 1) else inr digits_start)
        else mret (inr digits_start)) i m0 = Ret (i, m)).
    { intros m0 ->. unfold scan. cbn [loop]. case_if; [|by rewrite (M_bind_ret _ _ _ (inr i) m)].
      unfold i in *. destruct p as [|c p] using rev_ind; [done|]. rewrite last_snoc in Hp.
      rewrite length_app in *. simpl in *.
      assert (Hl : load (a + (Z.of_nat (length p + 1) - 1)) m = Ret (c, m)).
      { replace (a + (Z.of_nat (length p + 1) - 1)) with (a + Z.of_nat (length p)) by lia.
        rewrite (load_str m a _ (length p) Ha) by (rewrite !length_app; simpl; lia).
        by rewrite <- app_assoc, lookup_app_r, Nat.sub_diag by lia. }
      erewrite M_bind_ret; [|step Hl; reflexivity]. by rewrite Hp. }
    rewrite (M_bind_ret _ _ _ _ _ (Hds m eq_refl)). rewrite Z.sub_diag. cbv zeta.
    rewrite (M_bind_ret _ _ _ 0 m) by done.
    unfold mbind at 1, M_bind at 1. rewrite (skip_while_overrun m a i (x :: s)); [done| |done|].
    - pose proof (cstr_tail m a _ (length p) Ha ltac:(rewrite length_app; lia)) as H.
      by rewrite drop_app_length in H.
    - rewrite <- Hend. f_equal. unfold i. simpl. lia. }
  unfold strverscmp. unfold mbind at 1, M_bind at 1. rewrite (scan_undef _ m 0 (length p)); [done|lia|..].
  - intros j Hj. rewrite Z.add_0_l.
    step (load_str m a _ j Ha ltac:(rewrite length_app; lia)).
    step (load_str m b _ j Hb ltac:(rewrite length_app; lia)).
    rewrite (char_nz m a _ j Ha) by (rewrite length_app; lia). cbn [andb].
    by rewrite !lookup_app_l, Z.eqb_refl by done.
  - rewrite Z.add_0_l. step (load_str m a _ (length p) Ha ltac:(rewrite length_app; lia)).
    step (load_str m b _ (length p) Hb ltac:(rewrite length_app; lia)).
    rewrite (char_nz m a _ _ Ha) by (rewrite length_app; simpl; lia). cbn [andb].
    rewrite !list_lookup_middle by done. cbn [default from_option id].
    rewrite (proj2 (Z.eqb_neq x d)) by done. fold i. unfold mbind, M_bind. by rewrite Hat.
Qed.

(** The example of the comment: [1.2.txt] at 100 and [1.2.3.txt] at 200. *)
Definition example_versions : mem :=
  mem_write (mem_write ∅ 100 (lit "1.2.txt" ++ [0])) 200 (lit "1.2.3.txt" ++ [0]).

Lemma strverscmp_overrun_witness : strverscmp 100 200 example_versions = Undef.
Proof.
  apply (strverscmp_overrun example_versions 100 200 (lit "1.2.") (ch "t") (lit "xt") (ch "3")
    (lit ".txt")); [mem_eval|mem_eval|done|repeat constructor|done|done].
Defined.

End StrFuncs.
