(* ===== verification/Sort.v ===== *)
(** * Sorting and searching: [qsort_r] and [bsearch]

    [libc/stdlib/qsort_r.c] is a heap sort over an array of blocks of
    [element_size] bytes; [bsearch.c] searches such an array.  An array is the
    list of its blocks, indexed by element, and an access outside it is
    [Undef].  The comparison callback is a parameter; what the C standard asks
    of it is the class [Comparator], which the theorems are proved against. *)

From S2P Require Import Prelude Memory.
From stdpp Require Import base decidable list numbers sorting.
From Stdlib Require Import ZArith Lia.

#[local] Open Scope Z_scope.

Module Sort.

Abbreviation block := (list Z).

(** A consistent comparison function: the sign is antisymmetric and the order
    it stands for is transitive. *)
Class Comparator {A} (compare : A → A → Z) : Prop := {
  compare_sym a b : compare a b < 0 ↔ 0 < compare b a;
  compare_trans a b c : compare a b <= 0 → compare b c <= 0 → compare a c <= 0
}.

(** ** The code *)

Definition get {A} (arr : list A) (i : nat) : outcome A :=
  match arr !! i with Some x => Ret x | None => Undef end.

(** The loop of [memswap] over the bytes of two blocks. *)
Fixpoint memswap_loop (n : nat) (i : nat) (a b : block) : outcome (block * block) :=
  match n with
  | O => Ret (a, b)
  | S n =>
      tmp ← get a i;
      y ← get b i;
      memswap_loop n (S i) (<[i := y]> a) (<[i := tmp]> b)
  end.

Definition memswap (a b : block) (size : nat) : outcome (block * block) := memswap_loop size 0 a b.

Section Qsort.
Context (compare : block → block → Z) (element_size : nat).

(** [memswap(array_index(base, element_size, i), array_index(base, element_size, j), element_size)]. *)
Definition swap_elements (i j : nat) (arr : list block) : outcome (list block) :=
  a ← get arr i;
  b ← get arr j;
  '(a, b) ← memswap a b element_size;
  Ret (<[i := a]> (<[j := b]> arr)).

(** The [while] loop that moves a new element up the heap. *)
Fixpoint sift_up (fuel : nat) (element : nat) (arr : list block) : outcome (list block) :=
  match fuel with
  | O => OutOfFuel
  | S fuel =>
      if (0 <? element)%nat then
        ptr ← get arr element;
        let parent := ((element - 1) / 2)%nat in
        parent_ptr ← get arr parent;
        if compare parent_ptr ptr <? 0 then
          arr ← swap_elements parent element arr;
          sift_up fuel parent arr
        else Ret arr
      else Ret arr
  end.

(** The [for] loop from [i] on, with [n] rounds left. *)
Fixpoint heapify (n i : nat) (arr : list block) : outcome (list block) :=
  match n with
  | O => Ret arr
  | S n => arr ← sift_up (S i) i arr; heapify n (S i) arr
  end.

(** The [while] loop that moves an element down the heap of [size] elements. *)
Fixpoint sift_down (fuel : nat) (size element : nat) (arr : list block) : outcome (list block) :=
  match fuel with
  | O => OutOfFuel
  | S fuel =>
      if (element <? size)%nat then
        ptr ← get arr element;
        let left := (2 * element + 1)%nat in
        left_bigger ← (if (element <? size / 2)%nat
                       then left_ptr ← get arr left; Ret (compare ptr left_ptr <? 0)
                       else Ret false);
        let right := (2 * element + 2)%nat in
        right_bigger ← (if (element <? (size - 1) / 2)%nat
                        then right_ptr ← get arr right; Ret (compare ptr right_ptr <? 0)
                        else Ret false);
        if left_bigger && right_bigger then
          left_ptr ← get arr left;
          right_ptr ← get arr right;
          if compare left_ptr right_ptr <? 0
          then arr ← swap_elements element right arr; sift_down fuel size right arr
          else arr ← swap_elements element left arr; sift_down fuel size left arr
        else if left_bigger then
          arr ← swap_elements element left arr; sift_down fuel size left arr
        else if right_bigger then
          arr ← swap_elements element right arr; sift_down fuel size right arr
        else Ret arr
      else Ret arr
  end.

(** [for ( size_t size = num_elements; --size; )], from [size] down. *)
Fixpoint extract (size : nat) (arr : list block) : outcome (list block) :=
  match size with
  | O => Ret arr
  | S size' =>
      arr ← swap_elements size 0 arr;
      arr ← sift_down (S size) size 0 arr;
      extract size' arr
  end.

Definition qsort_r (arr : list block) (num_elements : nat) : outcome (list block) :=
  if (element_size =? 0)%nat || (num_elements <? 2)%nat then Ret arr
  else
    arr ← heapify num_elements 0 arr;
    extract (num_elements - 1) arr.

End Qsort.

(** [qsort] passes the two-argument function through [arg]. *)
Definition qsort (compare : block → block → Z) (arr : list block) (num_elements element_size : nat) :=
  qsort_r compare element_size arr num_elements.

(** The loop of [bsearch]: [base] is the index [base] points to; the result is
    the index of the element found. *)
Fixpoint bsearch_loop {A} (fuel : nat) (compare_key : A → Z) (arr : list A) (base nmemb : nat)
    : outcome (option nat) :=
  match fuel with
  | O => OutOfFuel
  | S fuel =>
      if (nmemb =? 0)%nat then Ret None
      else
        let i := (nmemb / 2)%nat in
        let candidate := (base + i)%nat in
        x ← get arr candidate;
        let rel := compare_key x in
        if rel <? 0 then bsearch_loop fuel compare_key arr base i
        else if 0 <? rel then bsearch_loop fuel compare_key arr (candidate + 1) (nmemb - (i + 1))
        else Ret (Some candidate)
  end.

Definition bsearch {A} (compare_key : A → Z) (arr : list A) (nmemb : nat) : outcome (option nat) :=
  bsearch_loop (S nmemb) compare_key arr 0 nmemb.

(** ** Swapping *)

Lemma memswap_loop_run done_a done_b a b :
  length a = length b → length done_a = length done_b →
  memswap_loop (length a) (length done_a) (done_a ++ a) (done_b ++ b) = Ret (done_a ++ b, done_b ++ a).
Proof.
  revert done_a done_b b. induction a as [|x a IH]; intros da db [|y b] Hl Hd; try done.
  injection Hl as Hl. cbn [length memswap_loop]. unfold get.
  rewrite list_lookup_middle by done. cbn [mbind outcome_bind].
  rewrite list_lookup_middle by done. cbn [mbind outcome_bind].
  rewrite insert_app_r_alt, Nat.sub_diag by lia. cbn [insert list_insert].
  rewrite insert_app_r_alt, Hd, Nat.sub_diag by lia. cbn [insert list_insert].
  replace (da ++ y :: a) with ((da ++ [y]) ++ a) by (by rewrite <- app_assoc).
  replace (db ++ x :: b) with ((db ++ [x]) ++ b) by (by rewrite <- app_assoc).
  replace (S (length db)) with (length (da ++ [y])) by (rewrite length_app; simpl; lia).
  rewrite IH by (rewrite ?length_app; simpl; lia). by rewrite <- !app_assoc.
Qed.

Lemma memswap_run a b n : length a = n → length b = n → memswap a b n = Ret (b, a).
Proof. intros <- Hb. apply (memswap_loop_run [] [] a b); [by rewrite Hb|done]. Qed.

(** The array with two elements exchanged. *)
Definition swap {A} (i j : nat) (arr : list A) : list A :=
  match arr !! i, arr !! j with
  | Some a, Some b => <[i := b]> (<[j := a]> arr)
  | _, _ => arr
  end.

Lemma swap_perm {A} i j (arr : list A) : swap i j arr ≡ₚ arr.
Proof.
  unfold swap. destruct (arr !! i) eqn:Hi, (arr !! j) eqn:Hj; try done.
  by apply Permutation_insert_swap.
Qed.

Lemma length_swap {A} i j (arr : list A) : length (swap i j arr) = length arr.
Proof. apply Permutation_length, swap_perm. Qed.

(** Reading after an exchange. *)
Lemma swap_lookup {A} i j k (arr : list A) :
  (i < length arr)%nat → (j < length arr)%nat →
  swap i j arr !! k = arr !! (if decide (k = i) then j else if decide (k = j) then i else k).
Proof.
  intros Hi Hj. unfold swap.
  destruct (lookup_lt_is_Some_2 arr i Hi) as [a Ha], (lookup_lt_is_Some_2 arr j Hj) as [b Hb].
  rewrite Ha, Hb. case_decide as E1; [subst k|case_decide as E2; [subst k|]].
  - rewrite list_lookup_insert_eq by (rewrite length_insert; lia). done.
  - rewrite list_lookup_insert_ne, list_lookup_insert_eq by (done || lia). done.
  - by rewrite !list_lookup_insert_ne by done.
Qed.

Section Correct.
Context (compare : block → block → Z) `{!Comparator compare} (element_size : nat).

Abbreviation le a b := (compare a b <= 0).

Lemma le_total a b : ¬ compare a b < 0 → le b a.
Proof. intros H. rewrite compare_sym in H. lia. Qed.

Lemma lt_le a b : compare a b < 0 → le a b.
Proof. lia. Qed.

Lemma le_refl a : le a a.
Proof. pose proof (compare_sym a a). lia. Qed.

Definition blocks (arr : list block) : Prop := Forall (λ x, length x = element_size) arr.

Lemma swap_elements_run i j arr :
  blocks arr → (i < length arr)%nat → (j < length arr)%nat →
  swap_elements element_size i j arr = Ret (swap i j arr).
Proof.
  intros Hb Hi Hj. unfold swap_elements, get, swap.
  destruct (lookup_lt_is_Some_2 arr i Hi) as [a Ha], (lookup_lt_is_Some_2 arr j Hj) as [b Hb'].
  rewrite Ha, Hb'. cbn [mbind outcome_bind].
  rewrite memswap_run; [done|exact (Forall_lookup_1 _ _ _ _ Hb Ha)|exact (Forall_lookup_1 _ _ _ _ Hb Hb')].
Qed.

Lemma blocks_perm arr arr' : arr' ≡ₚ arr → blocks arr → blocks arr'.
Proof. intros Hp. unfold blocks. by rewrite Hp. Qed.

Definition parent (k : nat) : nat := ((k - 1) / 2)%nat.

(** [k] does not exceed its parent. *)
Definition below_parent (arr : list block) (k : nat) : Prop :=
  ∀ x p, arr !! k = Some x → arr !! parent k = Some p → le x p.

(** The heap of the first [n] elements, but for the edge above [e]. *)
Definition heap_up (arr : list block) (n e : nat) : Prop :=
  (∀ k, (0 < k < n)%nat → k ≠ e → below_parent arr k) ∧
  (∀ k x p, (0 < k < n)%nat → parent k = e → (0 < e)%nat →
     arr !! k = Some x → arr !! parent e = Some p → le x p).

Definition heap (arr : list block) (n : nat) : Prop :=
  ∀ k, (0 < k < n)%nat → below_parent arr k.

Lemma parent_spec k : (0 < k)%nat → (k = 2 * parent k + 1 ∨ k = 2 * parent k + 2)%nat.
Proof.
  unfold parent. intros. pose proof (Nat.div_mod_eq (k - 1) 2).
  pose proof (Nat.mod_upper_bound (k - 1) 2). lia.
Qed.

Lemma parent_lt k : (0 < k)%nat → (parent k < k)%nat.
Proof. intros H. destruct (parent_spec k H); lia. Qed.

Lemma sift_up_step arr n e x p :
  (0 < e < n)%nat → (n <= length arr)%nat → heap_up arr n e →
  arr !! e = Some x → arr !! parent e = Some p → compare p x < 0 →
  heap_up (swap (parent e) e arr) n (parent e).
Proof.
  intros He Hn [H1 H2] Hx Hp Hlt. pose proof (parent_lt e ltac:(lia)) as Hpe.
  assert (Hl : ∀ k, swap (parent e) e arr !! k =
    arr !! (if decide (k = parent e) then e else if decide (k = e) then parent e else k))
    by (intros; apply swap_lookup; lia).
  split.
  - intros k Hk Hne y q. rewrite !Hl. pose proof (parent_lt k ltac:(lia)).
    rewrite (decide_False (P := k = parent e)) by done.
    destruct (decide (k = e)) as [->|Hke].
    + rewrite (decide_True (P := parent e = parent e)) by done. intros. simplify_eq. by apply lt_le.
    + destruct (decide (parent k = parent e)) as [E|E].
      * intros Hy Hq. rewrite Hx in Hq. injection Hq as <-.
        eapply compare_trans; [apply (H1 k Hk Hke y p)|by apply lt_le]; [done|by rewrite E].
      * destruct (decide (parent k = e)) as [E'|E'].
        -- intros Hy Hq. eapply (H2 k y q Hk E'); [lia|done|done].
        -- apply (H1 k Hk Hke).
  - intros k y q Hk Epk Hpos. rewrite !Hl. pose proof (parent_lt k ltac:(lia)).
    pose proof (parent_lt (parent e) Hpos).
    rewrite (decide_False (P := k = parent e)) by lia.
    rewrite (decide_False (P := parent (parent e) = parent e)) by lia.
    rewrite (decide_False (P := parent (parent e) = e)) by lia.
    intros Hy Hq. assert (Hpp : le p q) by (apply (H1 (parent e) ltac:(lia) ltac:(lia)); done).
    destruct (decide (k = e)) as [->|Hke]; [by rewrite Hp in Hy; simplify_eq|].
    eapply compare_trans; [apply (H1 k Hk Hke y p); [done|by rewrite Epk]|done].
Qed.

Lemma sift_up_run fuel e n arr :
  (e < fuel)%nat → (e < n)%nat → (n <= length arr)%nat → blocks arr → heap_up arr n e →
  ∃ arr', sift_up compare element_size fuel e arr = Ret arr' ∧ arr' ≡ₚ arr ∧ heap arr' n ∧
          ∀ k, (n <= k)%nat → arr' !! k = arr !! k.
Proof.
  revert e arr. induction fuel as [|fuel IH]; intros e arr Hf He Hn Hb Hh; [lia|]. cbn [sift_up].
  destruct (Nat.ltb_spec 0 e) as [H0|H0].
  - pose proof (parent_lt e H0) as Hp. unfold get.
    destruct (lookup_lt_is_Some_2 arr e ltac:(lia)) as [x Hx].
    destruct (lookup_lt_is_Some_2 arr (parent e) ltac:(lia)) as [p Hpp].
    rewrite Hx. cbn [mbind outcome_bind]. fold (parent e). rewrite Hpp. cbn [mbind outcome_bind].
    case_if.
    + rewrite swap_elements_run by (done || lia). cbn [mbind outcome_bind].
      destruct (IH (parent e) (swap (parent e) e arr)) as (arr' & Hr & Hperm & Hheap & Hk);
        [lia|lia|by rewrite length_swap|by eapply blocks_perm; [apply swap_perm|]
        |by eapply sift_up_step|].
      exists arr'. split_and!; [done|by rewrite Hperm, swap_perm|done|].
      intros k Hkn. rewrite Hk by done. rewrite swap_lookup by lia.
      by rewrite !decide_False by lia.
    + exists arr. split_and!; [done|done| |done]. intros k Hk. destruct Hh as [H1 _].
      destruct (decide (k = e)) as [->|]; [|by apply H1]. intros y q Hy Hq. simplify_eq.
      apply le_total. lia.
  - exists arr. split_and!; [done|done| |done]. intros k Hk. destruct Hh as [H1 _]. apply H1; lia.
Qed.

Lemma heapify_run n i arr :
  (i + n = length arr)%nat → blocks arr → heap arr i →
  ∃ arr', heapify compare element_size n i arr = Ret arr' ∧ arr' ≡ₚ arr ∧ heap arr' (length arr).
Proof.
  revert i arr. induction n as [|n IH]; intros i arr Hlen Hb Hh; cbn [heapify].
  - exists arr. split_and!; [done|done|]. by replace (length arr) with i by lia.
  - destruct (sift_up_run (S i) i (S i) arr) as (arr1 & Hr & Hp & Hh1 & _);
      [lia|lia|lia|done| |].
    { split; [intros k Hk Hne; apply Hh; lia|]. intros k x p Hk Ek. pose proof (parent_lt k). lia. }
    pose proof (Permutation_length Hp) as Hl.
    rewrite Hr. cbn [mbind outcome_bind].
    destruct (IH (S i) arr1) as (arr2 & Hr2 & Hp2 & Hh2); [lia|by eapply blocks_perm|done|].
    exists arr2. rewrite Hl in Hh2. split_and!; [done|by rewrite Hp2|done].
Qed.

(** The heap of the first [n] elements, but for the edges below [e]. *)
Definition heap_down (arr : list block) (n e : nat) : Prop :=
  (∀ k, (0 < k < n)%nat → parent k ≠ e → below_parent arr k) ∧
  (∀ k x p, (0 < k < n)%nat → parent k = e → (0 < e)%nat →
     arr !! k = Some x → arr !! parent e = Some p → le x p).

Lemma sift_down_step arr n e c x y :
  (e < n)%nat → (0 < c < n)%nat → (n <= length arr)%nat → parent c = e → heap_down arr n e →
  arr !! e = Some x → arr !! c = Some y → compare x y < 0 →
  (∀ k z, (0 < k < n)%nat → parent k = e → arr !! k = Some z → le z y) →
  heap_down (swap e c arr) n c.
Proof.
  intros He Hc Hn Hpc [H1 H2] Hx Hy Hlt Hmax. pose proof (parent_lt c ltac:(lia)) as Hec.
  assert (Hl : ∀ k, swap e c arr !! k =
    arr !! (if decide (k = e) then c else if decide (k = c) then e else k))
    by (intros; apply swap_lookup; lia).
  split.
  - intros k Hk Hne z q. rewrite !Hl. pose proof (parent_lt k ltac:(lia)).
    rewrite (decide_False (P := parent k = c)) by done.
    destruct (decide (k = e)) as [->|Hke].
    + rewrite (decide_False (P := parent e = e)) by lia. intros Hz Hq. simplify_eq.
      eapply (H2 c); [done|done|lia|done|done].
    + destruct (decide (k = c)) as [->|Hkc].
      * rewrite (decide_True (P := parent c = e)) by done. intros Hz Hq. simplify_eq.
        by apply lt_le.
      * destruct (decide (parent k = e)) as [E|E].
        -- intros Hz Hq. simplify_eq. by eapply Hmax.
        -- by apply H1.
  - intros k z q Hk Ek _. rewrite !Hl. pose proof (parent_lt k ltac:(lia)).
    rewrite (decide_False (P := k = e)), (decide_False (P := k = c)) by lia.
    rewrite (decide_True (P := parent c = e)) by done. intros Hz Hq. simplify_eq.
    eapply (H1 k Hk); [lia|done|done].
Qed.

(** What the loop below an element leaves behind. *)
Definition sifted (arr arr' : list block) (n : nat) : Prop :=
  arr' ≡ₚ arr ∧ heap arr' n ∧ ∀ k, (n <= k)%nat → arr' !! k = arr !! k.

Lemma sifted_swap arr arr' n e c :
  (e < n)%nat → (c < n)%nat → (n <= length arr)%nat →
  sifted (swap e c arr) arr' n → sifted arr arr' n.
Proof.
  intros He Hc Hn (H1 & H2 & H3). split_and!; [by rewrite H1, swap_perm|done|].
  intros k Hk. rewrite H3, swap_lookup by lia. by rewrite !decide_False by lia.
Qed.

Lemma heap_down_done arr n e :
  heap_down arr n e → (∀ k, (0 < k < n)%nat → parent k = e → below_parent arr k) → heap arr n.
Proof. intros [H1 _] H k Hk. destruct (decide (parent k = e)); auto. Qed.

(** The two tests on the children, as propositions. *)
Lemma has_left e n : (e <? n / 2)%nat = (2 * e + 1 <? n)%nat.
Proof.
  pose proof (Nat.div_mod_eq n 2). pose proof (Nat.mod_upper_bound n 2).
  destruct (Nat.ltb_spec e (n / 2)), (Nat.ltb_spec (2 * e + 1) n); lia.
Qed.

Lemma has_right e n : (0 < n)%nat → (e <? (n - 1) / 2)%nat = (2 * e + 2 <? n)%nat.
Proof.
  intros. pose proof (Nat.div_mod_eq (n - 1) 2). pose proof (Nat.mod_upper_bound (n - 1) 2).
  destruct (Nat.ltb_spec e ((n - 1) / 2)), (Nat.ltb_spec (2 * e + 2) n); lia.
Qed.

Lemma parent_left e : parent (2 * e + 1) = e.
Proof. destruct (parent_spec (2 * e + 1)); lia. Qed.

Lemma parent_right e : parent (2 * e + 2) = e.
Proof. destruct (parent_spec (2 * e + 2)); lia. Qed.

Lemma child_cases k e : (0 < k)%nat → parent k = e → (k = 2 * e + 1 ∨ k = 2 * e + 2)%nat.
Proof. intros H <-. by apply parent_spec. Qed.

(** The step to a child that is not smaller than its sibling. *)
Lemma sift_into fuel e n x arr :
  (∀ e arr, (e <= n < e + fuel)%nat → (n <= length arr)%nat → blocks arr → heap_down arr n e →
     ∃ arr', sift_down compare element_size fuel n e arr = Ret arr' ∧ sifted arr arr' n) →
  (e < n < e + S fuel)%nat → (n <= length arr)%nat → blocks arr → heap_down arr n e →
  arr !! e = Some x →
  ∀ c y, (0 < c < n)%nat → parent c = e → arr !! c = Some y → compare x y < 0 →
    (∀ k z, (0 < k < n)%nat → parent k = e → arr !! k = Some z → le z y) →
    ∃ arr', (arr ← swap_elements element_size e c arr; sift_down compare element_size fuel n c arr) =
              Ret arr' ∧ sifted arr arr' n.
Proof.
  intros IH Hf Hn Hb Hh Hx c y Hc Hpc Hy Hlt Hmax. pose proof (parent_lt c).
  rewrite swap_elements_run by (done || lia). cbn [mbind outcome_bind].
  destruct (IH c (swap e c arr)) as (arr' & Hr & Hs);
    [lia|by rewrite length_swap|by eapply blocks_perm; [apply swap_perm|]|eapply sift_down_step; done || lia|].
  exists arr'. split; [done|]. eapply sifted_swap; [..|done]; lia.
Qed.

(** No child is bigger: the heap is repaired. *)
Lemma sifted_stop e n x arr :
  heap_down arr n e → arr !! e = Some x →
  (∀ k y, (0 < k < n)%nat → parent k = e → arr !! k = Some y → ¬ compare x y < 0) →
  sifted arr arr n.
Proof.
  intros Hh Hx H. split_and!; [done| |done]. eapply heap_down_done; [done|].
  intros k Hk E y p Hy Hp. rewrite E in Hp. simplify_eq. by eapply le_total, H.
Qed.

Lemma sift_down_run fuel e n arr :
  (e <= n < e + fuel)%nat → (n <= length arr)%nat → blocks arr → heap_down arr n e →
  ∃ arr', sift_down compare element_size fuel n e arr = Ret arr' ∧ sifted arr arr' n.
Proof.
  revert e arr. induction fuel as [|fuel IH]; intros e arr Hf Hn Hb Hh; [lia|].
  cbn [sift_down]. destruct (Nat.ltb_spec e n) as [He|He].
  2: { exists arr. split; [done|]. split_and!; [done| |done]. eapply heap_down_done; [done|].
       intros k Hk E. pose proof (parent_lt k). lia. }
  rewrite (has_left e n), (has_right e n) by lia. unfold get.
  destruct (lookup_lt_is_Some_2 arr e ltac:(lia)) as [x Hx]. rewrite Hx. cbn [mbind outcome_bind].
  pose proof (sift_into fuel e n x arr (λ e arr, IH e arr) ltac:(lia) Hn Hb Hh Hx) as Hgo.
  pose proof (sifted_stop e n x arr Hh Hx) as Hstop.
  pose proof (parent_left e). pose proof (parent_right e).
  destruct (Nat.ltb_spec (2 * e + 1) n) as [HL|HL]; cbn [mbind outcome_bind].
  - destruct (lookup_lt_is_Some_2 arr (2 * e + 1) ltac:(lia)) as [y Hy]. rewrite Hy. cbn [mbind outcome_bind].
    destruct (Nat.ltb_spec (2 * e + 2) n) as [HR|HR]; cbn [mbind outcome_bind].
    + destruct (lookup_lt_is_Some_2 arr (2 * e + 2) ltac:(lia)) as [z Hz]. rewrite Hz. cbn [mbind outcome_bind].
      destruct (compare x y <? 0) eqn:E1, (compare x z <? 0) eqn:E2; b2p; cbn [andb].
      * case_if; [apply (Hgo _ z)|apply (Hgo _ y)]; try done; try lia;
          intros k w Hk Ek Hw; destruct (child_cases k e ltac:(lia) Ek) as [-> | ->]; simplify_eq;
          first [apply le_refl|apply lt_le; lia|apply le_total; lia].
      * apply (Hgo _ y); try done; try lia.
        intros k w Hk Ek Hw. destruct (child_cases k e ltac:(lia) Ek) as [-> | ->]; simplify_eq;
          [apply le_refl|].
        apply (compare_trans _ x); [by apply le_total; lia|by apply lt_le].
      * apply (Hgo _ z); try done; try lia.
        intros k w Hk Ek Hw. destruct (child_cases k e ltac:(lia) Ek) as [-> | ->]; simplify_eq;
          [|apply le_refl].
        apply (compare_trans _ x); [by apply le_total; lia|by apply lt_le].
      * exists arr. split; [done|]. apply Hstop. intros k w Hk Ek Hw.
        destruct (child_cases k e ltac:(lia) Ek) as [-> | ->]; simplify_eq; lia.
    + rewrite andb_false_r. case_if.
      * apply (Hgo _ y); try done; try lia.
        intros k w Hk Ek Hw. destruct (child_cases k e ltac:(lia) Ek) as [-> | ->]; [|lia]. simplify_eq.
        apply le_refl.
      * exists arr. split; [done|]. apply Hstop. intros k w Hk Ek Hw.
        destruct (child_cases k e ltac:(lia) Ek) as [-> | ->]; [|lia]. simplify_eq. lia.
  - rewrite (proj2 (Nat.ltb_ge _ _)) by lia. cbn [mbind outcome_bind andb].
    exists arr. split; [done|]. apply Hstop. intros k w Hk Ek Hw.
    destruct (child_cases k e ltac:(lia) Ek) as [-> | ->]; lia.
Qed.

(** The root of a heap is its greatest element. *)
Lemma heap_root arr n k x r :
  heap arr n → (n <= length arr)%nat → (k < n)%nat → arr !! k = Some x → arr !! O = Some r → le x r.
Proof.
  intros Hh Hn. revert x. induction k as [k IH] using lt_wf_ind. intros x Hk Hx Hr.
  destruct (decide (k = O)) as [->|Hk0]; [simplify_eq; apply le_refl|].
  pose proof (parent_lt k ltac:(lia)). destruct (lookup_lt_is_Some_2 arr (parent k) ltac:(lia)) as [p Hp].
  eapply compare_trans; [by eapply (Hh k); [lia| |]|by eapply (IH (parent k)); [| |done|done]; lia].
Qed.

(** From [n] on the array is sorted, and nothing before is greater. *)
Definition tail_sorted (arr : list block) (n : nat) : Prop :=
  StronglySorted (λ a b, le a b) (drop n arr) ∧
  ∀ x y, x ∈ take n arr → y ∈ drop n arr → le x y.

Lemma sifted_take arr arr' n :
  sifted arr arr' n → take n arr' ≡ₚ take n arr ∧ drop n arr' = drop n arr.
Proof.
  intros (Hp & _ & Hk). assert (Hd : drop n arr' = drop n arr).
  { apply list_eq. intros i. rewrite !lookup_drop. apply Hk. lia. }
  split; [|done]. rewrite <- (take_drop n arr'), <- (take_drop n arr), Hd in Hp.
  by apply app_Permutation_inv_r in Hp || by apply Permutation_app_inv_r in Hp.
Qed.

Lemma tail_sorted_sifted arr arr' n : sifted arr arr' n → tail_sorted arr n → tail_sorted arr' n.
Proof.
  intros Hs [H1 H2]. apply sifted_take in Hs as [Ht Hd]. unfold tail_sorted. rewrite Hd.
  split; [done|]. intros x y Hx. apply H2. by rewrite <- Ht.
Qed.

(** Moving the root behind the heap. *)
Lemma extract_swap arr size :
  (0 < size < length arr)%nat → heap arr (S size) → tail_sorted arr (S size) →
  heap_down (swap size 0 arr) size 0 ∧ tail_sorted (swap size 0 arr) size.
Proof.
  intros Hs Hh [Ht1 Ht2].
  assert (Hl : ∀ k, swap size 0 arr !! k =
    arr !! (if decide (k = size) then O else if decide (k = O) then size else k))
    by (intros; apply swap_lookup; lia).
  destruct (lookup_lt_is_Some_2 arr O ltac:(lia)) as [r Hr].
  split; [split|].
  - intros k Hk Hpk x p. rewrite !Hl. pose proof (parent_lt k ltac:(lia)).
    rewrite !decide_False by lia. apply Hh. lia.
  - lia.
  - assert (Hd : drop size (swap size 0 arr) = r :: drop (S size) arr).
    { rewrite (drop_S _ r size) by (rewrite Hl, decide_True by done; done). f_equal.
      apply list_eq. intros i. rewrite !lookup_drop, Hl. by rewrite !decide_False by lia. }
    assert (Hin : ∀ x, x ∈ take size (swap size 0 arr) → x ∈ take (S size) arr).
    { intros x Hx. apply list_elem_of_lookup_1 in Hx as [i Hi].
      pose proof (lookup_lt_Some _ _ _ Hi) as Hi'. rewrite length_take, length_swap in Hi'.
      rewrite lookup_take_lt, Hl in Hi by lia. rewrite decide_False in Hi by lia.
      apply (list_elem_of_lookup_2 _ (if decide (i = O) then size else i)).
      rewrite lookup_take_lt by (case_decide; lia). done. }
    assert (Hmax : ∀ x, x ∈ take (S size) arr → le x r).
    { intros x Hx. apply list_elem_of_lookup_1 in Hx as [i Hi].
      pose proof (lookup_lt_Some _ _ _ Hi) as Hi'. rewrite length_take in Hi'.
      rewrite lookup_take_lt in Hi by lia. eapply (heap_root arr (S size)); [done|lia| |done|done]. lia. }
    unfold tail_sorted. rewrite Hd. split.
    + constructor; [done|]. apply Forall_forall. intros y Hy. apply Ht2; [|done].
      apply (list_elem_of_lookup_2 _ O). by rewrite lookup_take_lt by lia.
    + intros x y Hx Hy. apply elem_of_cons in Hy as [->|Hy]; [by apply Hmax, Hin|].
      apply Ht2; [by apply Hin|done].
Qed.

Lemma extract_run size arr :
  (size < length arr)%nat → blocks arr → heap arr (S size) → tail_sorted arr (S size) →
  ∃ arr', extract compare element_size size arr = Ret arr' ∧ arr' ≡ₚ arr ∧ tail_sorted arr' 1.
Proof.
  revert arr. induction size as [|size IH]; intros arr Hs Hb Hh Ht; cbn [extract].
  { exists arr. done. }
  rewrite swap_elements_run by (done || lia). cbn [mbind outcome_bind].
  destruct (extract_swap arr (S size)) as [Hd Ht']; [lia|done|done|].
  destruct (sift_down_run (S (S size)) 0 (S size) (swap (S size) 0 arr)) as (arr1 & Hr & Hsift);
    [lia|rewrite length_swap; lia|by eapply blocks_perm; [apply swap_perm|]|done|].
  rewrite Hr. cbn [mbind outcome_bind].
  assert (Hp : arr1 ≡ₚ arr) by (destruct Hsift as [Hp _]; by rewrite Hp, swap_perm).
  destruct (IH arr1) as (arr2 & Hr2 & Hp2 & Ht2);
    [rewrite (Permutation_length Hp); lia|by eapply blocks_perm|by destruct Hsift as (_ & ? & _)
    |by eapply tail_sorted_sifted|].
  exists arr2. split_and!; [done|by rewrite Hp2|done].
Qed.

Lemma tail_sorted_all arr : tail_sorted arr 1 → StronglySorted (λ a b, le a b) arr.
Proof.
  intros [H1 H2]. destruct arr as [|x arr]; [constructor|]. cbn in *. rewrite take_0 in H2.
  constructor; [done|]. apply Forall_forall. intros y Hy. apply H2; [by apply list_elem_of_singleton|done].
Qed.

Lemma qsort_r_run arr :
  blocks arr →
  ∃ arr', qsort_r compare element_size arr (length arr) = Ret arr' ∧ arr' ≡ₚ arr ∧
          StronglySorted (λ a b, le a b) arr'.
Proof.
  intros Hb. unfold qsort_r. destruct (Nat.eqb_spec element_size 0) as [H0|H0]; cbn [orb].
  - exists arr. split_and!; [done|done|].
    assert (Hall : Forall (λ x, x = []) arr).
    { eapply Forall_impl; [exact Hb|]. intros x Hx. apply nil_length_inv. simpl in Hx. lia. }
    clear Hb. induction Hall as [|x arr -> Hall IH]; constructor; [done|].
    eapply Forall_impl; [exact Hall|]. intros y ->. apply le_refl.
  - destruct (Nat.ltb_spec (length arr) 2) as [H2|H2].
    + exists arr. split_and!; [done|done|]. destruct arr as [|x [|y arr]]; simpl in H2; [..|lia];
        repeat constructor.
    + destruct (heapify_run (length arr) 0 arr) as (arr1 & Hr & Hp & Hh); [lia|done|intros k Hk; lia|].
      rewrite Hr. cbn [mbind outcome_bind]. pose proof (Permutation_length Hp) as Hl.
      destruct (extract_run (length arr - 1) arr1) as (arr2 & Hr2 & Hp2 & Ht).
      * lia.
      * by eapply blocks_perm.
      * by replace (S (length arr - 1)) with (length arr) by lia.
      * replace (S (length arr - 1)) with (length arr1) by lia. split.
        { rewrite drop_all. constructor. }
        intros x y _. rewrite drop_all. by intros ?%elem_of_nil.
      * exists arr2. split_and!; [done|by rewrite Hp2|by apply tail_sorted_all].
Qed.

End Correct.

(** The comparison of blocks byte by byte, as [memcmp] does it, is consistent. *)
#[global] Instance lex_comparator : Comparator Mem.lex.
Proof.
  assert (Hanti : ∀ a b, Mem.lex a b = - Mem.lex b a).
  { induction a as [|x a IH]; intros [|y b]; cbn [Mem.lex]; try done. b2p_if; try lia. apply IH. }
  split.
  - intros a b. rewrite (Hanti a b). lia.
  - induction a as [|x a IH]; intros [|y b] [|z c]; cbn [Mem.lex]; try lia; try done.
    b2p_if; try lia. apply IH.
Qed.

(** C28.  [qsort_r] sorts: for a consistent comparison function, and an array
    of [element_size]-byte elements, it returns a permutation of the array in
    non-decreasing order.  Every access it makes is inside the array, and it
    terminates. *)
Theorem qsort_r_sorts (compare : block → block → Z) `{!Comparator compare} element_size arr :
  Forall (λ x, length x = element_size) arr →
  ∃ arr', qsort_r compare element_size arr (length arr) = Ret arr' ∧ arr' ≡ₚ arr ∧
          StronglySorted (λ a b, compare a b <= 0) arr'.
Proof. apply qsort_r_run. exact _. Qed.

Lemma qsort_r_sorts_witness :
  ∃ arr', qsort_r Mem.lex 2 [[3; 1]; [1; 2]; [3; 0]; [1; 2]] (length [[3; 1]; [1; 2]; [3; 0]; [1; 2]]) =
            Ret arr' ∧ arr' ≡ₚ [[3; 1]; [1; 2]; [3; 0]; [1; 2]] ∧
          StronglySorted (λ a b, Mem.lex a b <= 0) arr'.
Proof. apply (qsort_r_sorts Mem.lex 2 [[3; 1]; [1; 2]; [3; 0]; [1; 2]]). repeat constructor. Defined.

(** ** Binary search *)

(** The elements the key is greater than come first, then those it equals. *)
Definition partitioned {A} (compare_key : A → Z) (arr : list A) : Prop :=
  ∀ i j x y, (i < j)%nat → arr !! i = Some x → arr !! j = Some y →
    (compare_key x <= 0 → compare_key y <= 0) ∧ (compare_key x < 0 → compare_key y < 0).

Lemma bsearch_loop_run {A} fuel (compare_key : A → Z) arr base nmemb :
  (nmemb < fuel)%nat → (base + nmemb <= length arr)%nat → partitioned compare_key arr →
  ∃ r, bsearch_loop fuel compare_key arr base nmemb = Ret r ∧
    match r with
    | Some i => (base <= i < base + nmemb)%nat ∧ ∃ x, arr !! i = Some x ∧ compare_key x = 0
    | None => ∀ i x, (base <= i < base + nmemb)%nat → arr !! i = Some x → compare_key x ≠ 0
    end.
Proof.
  revert base nmemb. induction fuel as [|fuel IH]; intros base nmemb Hf Hl Hpart; [lia|].
  cbn [bsearch_loop]. destruct (Nat.eqb_spec nmemb 0) as [H0|H0].
  { exists None. split; [done|]. lia. }
  set (i := (nmemb / 2)%nat).
  assert (Hi : (i < nmemb)%nat) by (apply Nat.div_lt; lia).
  destruct (lookup_lt_is_Some_2 arr (base + i) ltac:(lia)) as [x Hx]. unfold get. cbv zeta.
  rewrite Hx. cbn [mbind outcome_bind]. case_if; [|case_if].
  - destruct (IH base i) as (r & Hr & Hres); [lia|lia|done|]. exists r. split; [done|].
    destruct r as [k|]; [destruct Hres as [? ?]; split; [lia|done]|].
    intros k y Hk Hy. destruct (decide (k < base + i)%nat); [apply (Hres k); [lia|done]|].
    destruct (decide (k = base + i)%nat) as [->|]; [simplify_eq; lia|].
    destruct (Hpart (base + i)%nat k x y); [lia|done|done|lia].
  - destruct (IH (base + i + 1)%nat (nmemb - (i + 1))%nat) as (r & Hr & Hres); [lia|lia|done|].
    exists r. split; [done|]. destruct r as [k|]; [destruct Hres as [? ?]; split; [lia|done]|].
    intros k y Hk Hy. destruct (decide (base + i < k)%nat); [apply (Hres k); [lia|done]|].
    destruct (decide (k = base + i)%nat) as [->|]; [simplify_eq; lia|].
    destruct (Hpart k (base + i)%nat y x); [lia|done|done|lia].
  - exists (Some (base + i)%nat). split; [done|]. split; [lia|]. exists x. split; [done|lia].
Qed.

(** [bsearch] finds: on an array that the key partitions it returns the
    index of an element that compares equal to the key, and null only when no
    element of the array does; it reads nothing outside the array. *)
Theorem bsearch_finds {A} (compare_key : A → Z) arr :
  partitioned compare_key arr →
  ∃ r, bsearch compare_key arr (length arr) = Ret r ∧
    match r with
    | Some i => ∃ x, arr !! i = Some x ∧ compare_key x = 0
    | None => ∀ x, x ∈ arr → compare_key x ≠ 0
    end.
Proof.
  intros Hp. destruct (bsearch_loop_run (S (length arr)) compare_key arr 0 (length arr)) as (r & Hr & Hres);
    [lia|lia|done|].
  exists r. split; [done|]. destruct r as [i|]; [by destruct Hres|].
  intros x Hx. apply list_elem_of_lookup_1 in Hx as [i Hi]. apply (Hres i); [|done].
  apply lookup_lt_Some in Hi. lia.
Qed.

Lemma bsearch_finds_witness :
  ∃ r, bsearch (λ x, 7 - x) [1; 3; 7; 9] (length [1; 3; 7; 9]) = Ret r ∧
    match r with
    | Some i => ∃ x, [1; 3; 7; 9] !! i = Some x ∧ 7 - x = 0
    | None => ∀ x, x ∈ [1; 3; 7; 9] → 7 - x ≠ 0
    end.
Proof.
  apply (bsearch_finds (λ x, 7 - x) [1; 3; 7; 9]).
  intros [|[|[|[|i]]]] [|[|[|[|j]]]] x y Hij Hi Hj; simplify_eq/=; lia.
Defined.

End Sort.
