(* ===== verification/Strtol.v ===== *)
(** * Integer parsing: [strtol] and its family

    [libc/stdlib/strtol.c] is a template: [strtoul.c], [strtoll.c],
    [strtoull.c] and [strtoimax.c] include it with other types.  The model takes
    those macros as the record [strtol_type].  A string is the list of the bytes
    from the pointer on, its terminator included; reading past the list is
    [Undef].  The result is the value, what [*end_ptr] points to and the
    [errno] that was set, if any. *)

From S2P Require Import Prelude Ctype.
From stdpp Require Import base decidable list numbers strings.
From Stdlib Require Import ZArith Lia Ascii.

#[local] Open Scope c_scope.
#[local] Open Scope Z_scope.

Module Strtol.
Import Ctype.

(** The macros [STRTOL_INT_MIN], [STRTOL_INT_MAX] and [STRTOL_INT_IS_UNSIGNED]. *)
Record strtol_type := StrtolType { INT_MIN_ : Z; INT_MAX_ : Z; INT_IS_UNSIGNED : bool }.

Definition long_type : strtol_type := StrtolType (- 2 ^ 63) (2 ^ 63 - 1) false.
Definition ulong_type : strtol_type := StrtolType 0 (2 ^ 64 - 1) true.

Definition debase (c : Z) : Z :=
  if (ch "0" <=? c) && (c <=? ch "9") then c - ch "0"
  else if (ch "a" <=? c) && (c <=? ch "z") then 10 + c - ch "a"
  else if (ch "A" <=? c) && (c <=? ch "Z") then 10 + c - ch "A"
  else -1.

Definition peek (s : list Z) (i : nat) : outcome Z :=
  match s !! i with Some c => Ret c | None => Undef end.

Fixpoint skip_spaces (s : list Z) : outcome (list Z) :=
  match s with
  | [] => Undef
  | c :: s' => if isspace c then skip_spaces s' else Ret s
  end.

(** The sign and the string after it. *)
Definition strtol_sign (s : list Z) : outcome (bool * list Z) :=
  c ← peek s 0;
  Ret (if c =? ch "-" then (true, drop 1 s)
       else if c =? ch "+" then (false, drop 1 s)
       else (false, s)).

(** [str[0] == '0' && (str[1] == 'x' || str[1] == 'X') && 0 <= debase(str[2]) < 16]. *)
Definition hex_prefix (s : list Z) : outcome bool :=
  c0 ← peek s 0;
  if c0 =? ch "0" then
    c1 ← peek s 1;
    if (c1 =? ch "x") || (c1 =? ch "X") then
      c2 ← peek s 2; Ret ((0 <=? debase c2) && (debase c2 <? 16))
    else Ret false
  else Ret false.

Definition octal_prefix (s : list Z) : outcome bool :=
  c0 ← peek s 0;
  if c0 =? ch "0" then c1 ← peek s 1; Ret ((0 <=? debase c1) && (debase c1 <? 8))
  else Ret false.

(** The base to convert in and the string after its prefix. *)
Definition strtol_prefix (base : Z) (s : list Z) : outcome (Z * list Z) :=
  if base =? 0 then
    hex ← hex_prefix s;
    if (hex : bool) then Ret (16, drop 2 s)
    else
      octal ← octal_prefix s;
      Ret (if (octal : bool) then (8, drop 1 s) else (10, s))
  else if base =? 16 then
    hex ← hex_prefix s;
    Ret (base, if (hex : bool) then drop 2 s else s)
  else Ret (base, s).

Section Convert.
Context (ty : strtol_type) (base : Z) (actually_negative : bool).

Definition overflow_value : Z := if actually_negative then INT_MIN_ ty else INT_MAX_ ty.

(** One digit: the new [result], or [None] on overflow. *)
Definition strtol_digit (result val : Z) : option Z :=
  let result := result * base in
  if (result <? INT_MIN_ ty) || (INT_MAX_ ty <? result) then None
  else if val =? 0 then Some result
  else if negb actually_negative && (val <=? INT_MAX_ ty - result) then Some (result + val)
  else if actually_negative && (val <? u64 (result - INT_MIN_ ty)) then Some (result - val)
  else None.

(** The conversion loop: [(result, overflow_occured, num_converted_chars, str)]. *)
Fixpoint strtol_loop (s : list Z) (result : Z) (overflow_occured : bool) (num : Z)
    : outcome (Z * bool * Z * list Z) :=
  match s with
  | [] => Undef
  | c :: s' =>
      if c =? 0 then Ret (result, overflow_occured, num, s)
      else
        let val := debase c in
        if (val <? 0) || (base <=? val) then Ret (result, overflow_occured, num, s)
        else if overflow_occured then strtol_loop s' result overflow_occured (num + 1)
        else
          match strtol_digit result val with
          | Some result => strtol_loop s' result false (num + 1)
          | None => strtol_loop s' overflow_value true (num + 1)
          end
  end.

End Convert.

Definition STRTOL (ty : strtol_type) (str : list Z) (base : Z) : outcome (Z * list Z * option errno) :=
  if (base <? 0) || (base =? 1) || (36 <? base) then Ret (0, str, Some EINVAL)
  else
    let original_str := str in
    str ← skip_spaces str;
    '(negative, str) ← strtol_sign str;
    let actually_negative := negb (INT_IS_UNSIGNED ty) && negative in
    '(base, str) ← strtol_prefix base str;
    '(result, overflow_occured, num_converted_chars, str) ←
      strtol_loop ty base actually_negative str 0 false 0;
    let errno := if (overflow_occured : bool) then Some ERANGE else None in
    let '(str, errno) := if num_converted_chars =? 0 then (original_str, Some EINVAL) else (str, errno) in
    let result :=
      if INT_IS_UNSIGNED ty && negative
      then (if overflow_occured then INT_MAX_ ty else u64 (- result))
      else result in
    Ret (result, str, errno).

Definition strtol := STRTOL long_type.
Definition strtoll := STRTOL long_type.
Definition strtoul := STRTOL ulong_type.
Definition strtoull := STRTOL ulong_type.
Definition strtoimax := STRTOL long_type.

Definition atol (str : list Z) : outcome Z := '(r, _, _) ← strtol str 10; Ret r.
Definition atoll (str : list Z) : outcome Z := '(r, _, _) ← strtoll str 10; Ret r.

Definition atoi (str : list Z) : outcome (Z * option errno) :=
  '(long_result, _, errno) ← strtol str 10;
  Ret (if long_result <? INT_MIN then (INT_MIN, Some ERANGE)
       else if INT_MAX <? long_result then (INT_MAX, Some ERANGE)
       else (long_result, errno)).

(** ** Digits *)

(** The value of a string of digits, on top of [acc]. *)
Fixpoint digits_value (base : Z) (acc : Z) (ds : list Z) : Z :=
  match ds with
  | [] => acc
  | c :: ds => digits_value base (acc * base + debase c) ds
  end.

Definition is_digit (base c : Z) : Prop := c ≠ 0 ∧ 0 <= debase c < base.

(** The conversion stops here. *)
Definition stops (base : Z) (rest : list Z) : Prop :=
  ∃ c rest', rest = c :: rest' ∧ ¬ is_digit base c.

Lemma digits_value_ge base acc ds :
  2 <= base → Forall (is_digit base) ds → 0 <= acc → acc <= digits_value base acc ds.
Proof.
  intros Hb Hds. revert acc. induction Hds as [|c ds [_ Hc] _ IH]; intros acc Ha; cbn [digits_value]; [lia|].
  specialize (IH (acc * base + debase c)). nia.
Qed.

(** The integer a sign and a magnitude stand for, and the type's range. *)
Definition signed (neg : bool) (v : Z) : Z := if neg then - v else v.

Definition in_range (ty : strtol_type) (x : Z) : Prop := INT_MIN_ ty <= x <= INT_MAX_ ty.

Definition saturate (ty : strtol_type) (x : Z) : Z := Z.max (INT_MIN_ ty) (Z.min (INT_MAX_ ty) x).

(** The types the template is used at; an unsigned conversion has no negative
    accumulator. *)
Definition good_type (ty : strtol_type) (neg : bool) : Prop :=
  ty = long_type ∨ ty = ulong_type ∧ neg = false.

(** The accumulator after digits of value [v]: [v] with its sign while it is
    in range; once a digit did not fit, the overflow value.  A negative value
    that reaches the minimum exactly may count as overflow. *)
Definition strtol_inv (ty : strtol_type) (neg : bool) (v result : Z) (overflow : bool) : Prop :=
  0 <= v ∧
  if overflow
  then result = overflow_value ty neg ∧ if neg then - v <= INT_MIN_ ty else INT_MAX_ ty < v
  else result = signed neg v ∧ in_range ty (signed neg v).

Lemma strtol_digit_run ty base neg v d result :
  good_type ty neg → 2 <= base <= 36 → 0 <= d < base → strtol_inv ty neg v result false →
  match strtol_digit ty base neg result d with
  | Some result' => strtol_inv ty neg (v * base + d) result' false
  | None => strtol_inv ty neg (v * base + d) (overflow_value ty neg) true
  end.
Proof.
  intros Hty Hb Hd [Hv [-> Hr]]. unfold strtol_digit, strtol_inv, in_range in *.
  assert (0 <= v * base) by nia.
  destruct Hty as [->|[-> ->]]; [destruct neg|]; cbn [signed INT_MIN_ INT_MAX_ long_type ulong_type negb andb] in *;
    b2p_if; try (split_and!; lia).
  all: try (rewrite wrapu_id in * by (unfold in_u; lia); split_and!; lia).
Qed.

Lemma strtol_loop_run ty base neg ds rest v result overflow num :
  good_type ty neg → 2 <= base <= 36 → Forall (is_digit base) ds → stops base rest →
  strtol_inv ty neg v result overflow →
  ∃ result' overflow',
    strtol_loop ty base neg (ds ++ rest) result overflow num =
      Ret (result', overflow', num + Z.of_nat (length ds), rest) ∧
    strtol_inv ty neg (digits_value base v ds) result' overflow'.
Proof.
  intros Hty Hb Hds Hstop. revert v result overflow num.
  induction Hds as [|c ds [Hc0 Hc] Hds IH]; intros v result overflow num Hinv; cbn [app digits_value length].
  - exists result, overflow. split; [|done]. destruct Hstop as (c & rest' & -> & Hc).
    cbn [strtol_loop]. rewrite Z.add_0_r. case_if; [done|].
    destruct ((debase c <? 0) || (base <=? debase c)) eqn:E; [done|]. b2p.
    exfalso. apply Hc. split; [done|lia].
  - cbn [strtol_loop]. rewrite (proj2 (Z.eqb_neq c 0)) by done. cbv zeta.
    rewrite (proj2 (Z.ltb_ge (debase c) 0)), (proj2 (Z.leb_gt base (debase c))) by lia. cbn [orb].
    replace (num + Z.of_nat (S (length ds))) with (num + 1 + Z.of_nat (length ds)) by lia.
    destruct overflow.
    + apply IH. destruct Hinv as [Hv [Hr Hbad]]. split; [nia|]. split; [done|]. destruct neg; nia.
    + pose proof (strtol_digit_run ty base neg v (debase c) result Hty Hb Hc Hinv) as Hd.
      destruct (strtol_digit ty base neg result (debase c)); by apply IH.
Qed.

(** The range of the sign character and what follows it. *)
Definition sign_char (neg : bool) (sg : list Z) : Prop :=
  sg = (if neg then [ch "-"] else [ch "+"]) ∨ neg = false ∧ sg = [].

Lemma skip_spaces_run sp c s :
  Forall (λ c, isspace c = true) sp → isspace c = false → skip_spaces (sp ++ c :: s) = Ret (c :: s).
Proof.
  intros Hsp Hc. induction Hsp as [|x sp Hx _ IH]; cbn [app skip_spaces]; [by rewrite Hc|by rewrite Hx].
Qed.

Lemma digit_char base c :
  base <= 36 → is_digit base c → isspace c = false ∧ c ≠ ch "-" ∧ c ≠ ch "+".
Proof.
  intros Hb [Hc0 Hc]. unfold debase in Hc. ctype. revert Hc.
  assert (c < 48 ∨ 48 <= c) as [H|H] by lia.
  - rewrite !(proj2 (Z.leb_gt _ c)) by lia. cbn [andb]. lia.
  - intros _. rewrite !(proj2 (Z.eqb_neq c _)) by lia. split_and!; [done|lia|lia].
Qed.

Lemma strtol_sign_run neg sg c s :
  sign_char neg sg → c ≠ ch "-" → c ≠ ch "+" → strtol_sign (sg ++ c :: s) = Ret (neg, c :: s).
Proof.
  intros [-> |[-> ->]] H1 H2; [by destruct neg|].
  unfold strtol_sign, peek. cbn. rewrite (proj2 (Z.eqb_neq c _)), (proj2 (Z.eqb_neq c _)) by done. done.
Qed.

(** The base and the digits a prefix selects. *)
Inductive radix : Z → list Z → Z → Prop :=
| radix_given base : 2 <= base <= 36 → base ≠ 16 → radix base [] base
| radix_hex base x : base = 0 ∨ base = 16 → x = ch "x" ∨ x = ch "X" → radix base [ch "0"; x] 16
| radix_octal : radix 0 [ch "0"] 8.

Lemma radix_range base pfx base' : radix base pfx base' → 2 <= base' <= 36.
Proof. intros []; lia. Qed.

(** A digit of the conversion base in the form [strtol_prefix] tests. *)
Lemma digit_test base c : is_digit base c → (0 <=? debase c) && (debase c <? base) = true.
Proof. intros [_ H]. by rewrite (proj2 (Z.leb_le _ _)), (proj2 (Z.ltb_lt _ _)) by lia. Qed.

Lemma strtol_prefix_run base pfx base' c s :
  radix base pfx base' → is_digit base' c →
  strtol_prefix base (pfx ++ c :: s) = Ret (base', c :: s).
Proof.
  intros Hr Hc. destruct Hr as [base Hb H16|base x Hbase Hx|].
  - unfold strtol_prefix. rewrite (proj2 (Z.eqb_neq _ 0)), (proj2 (Z.eqb_neq _ 16)) by lia. done.
  - assert (Hh : hex_prefix ([ch "0"; x] ++ c :: s) = Ret true).
    { unfold hex_prefix, peek. cbn [app lookup list_lookup mbind outcome_bind].
      rewrite Z.eqb_refl. cbn [mbind outcome_bind].
      replace ((x =? ch "x") || (x =? ch "X")) with true by (destruct Hx; by subst).
      by rewrite (digit_test _ _ Hc). }
    unfold strtol_prefix. destruct Hbase as [->| ->]; cbn [Z.eqb Pos.eqb]; by rewrite Hh.
  - unfold strtol_prefix, hex_prefix, octal_prefix, peek. cbn [Z.eqb Pos.eqb app lookup list_lookup mbind outcome_bind].
    assert (Hlt : c < 58).
    { destruct Hc as [_ Hc]. unfold debase in Hc. revert Hc. b2p_if; lia. }
    rewrite (proj2 (Z.eqb_neq c _)), (proj2 (Z.eqb_neq c _)) by lia. cbn [orb mbind outcome_bind].
    by rewrite (digit_test _ _ Hc).
Qed.

Lemma stops_cons base c rest : stops base (c :: rest) → ¬ is_digit base c.
Proof. intros (? & ? & [= <- <-] & H). exact H. Qed.

(** The whole function on a well-formed number. *)
Lemma STRTOL_run ty sp neg sg pfx base base' ds rest :
  ty = long_type ∨ ty = ulong_type →
  Forall (λ c, isspace c = true) sp → sign_char neg sg → radix base pfx base' →
  ds ≠ [] → Forall (is_digit base') ds → stops base' rest →
  ∃ (result : Z) (overflow : bool),
    STRTOL ty (sp ++ sg ++ pfx ++ ds ++ rest) base =
      Ret (if INT_IS_UNSIGNED ty && neg
           then (if overflow then INT_MAX_ ty else u64 (- result)) else result,
           rest, if (overflow : bool) then Some ERANGE else None) ∧
    strtol_inv ty (negb (INT_IS_UNSIGNED ty) && neg) (digits_value base' 0 ds) result overflow.
Proof.
  intros Hty Hsp Hsg Hr Hne Hds Hstop. pose proof (radix_range _ _ _ Hr) as Hb'.
  destruct ds as [|d ds]; [done|]. clear Hne. pose proof (Forall_inv Hds) as Hd.
  assert (Hhead : ∃ c s, pfx ++ (d :: ds) ++ rest = c :: s ∧ is_digit 36 c).
  { destruct Hr; [exists d, (ds ++ rest)|exists (ch "0"), (x :: d :: ds ++ rest)
                 |exists (ch "0"), (d :: ds ++ rest)]; (split; [done|]); [|by split..].
    destruct Hd as [? ?]. split; [done|lia]. }
  destruct Hhead as (c & s & Hcs & Hc). destruct (digit_char 36 c ltac:(lia) Hc) as (Hc1 & Hc2 & Hc3).
  unfold STRTOL.
  replace ((base <? 0) || (base =? 1) || (36 <? base)) with false
    by (destruct Hr as [? ? ?|? ? [->| ->] _|]; [|done..]; symmetry;
        rewrite (proj2 (Z.ltb_ge base 0)), (proj2 (Z.eqb_neq base 1)), (proj2 (Z.ltb_ge 36 base)) by lia; done).
  assert (Hskip : skip_spaces (sp ++ sg ++ pfx ++ (d :: ds) ++ rest) = Ret (sg ++ c :: s)).
  { rewrite Hcs. destruct Hsg as [-> |[-> ->]]; [destruct neg|]; by apply skip_spaces_run. }
  rewrite Hskip. cbn [mbind outcome_bind].
  rewrite (strtol_sign_run neg sg c s Hsg Hc2 Hc3). cbn [mbind outcome_bind].
  rewrite <- Hcs. change ((d :: ds) ++ rest) with (d :: (ds ++ rest)).
  rewrite (strtol_prefix_run base pfx base' d (ds ++ rest) Hr Hd). cbn [mbind outcome_bind].
  set (an := negb (INT_IS_UNSIGNED ty) && neg).
  destruct (strtol_loop_run ty base' an (d :: ds) rest 0 0 false 0) as (result & overflow & Hl & Hinv);
    [|done|done|done| |].
  { destruct Hty as [->| ->]; [by left|right; by destruct neg]. }
  { split; [lia|]. unfold in_range, an. destruct Hty as [->| ->], neg; cbn; lia. }
  change (d :: (ds ++ rest)) with ((d :: ds) ++ rest). rewrite Hl. cbn [mbind outcome_bind].
  exists result, overflow. split; [|done].
  rewrite (proj2 (Z.eqb_neq _ 0)) by (cbn [length]; lia). done.
Qed.

(** [strtol] (and the other signed instances) parses: white space, an
    optional sign, the prefix of the base and at least one digit are consumed up
    to the first character that is no digit, and the result is the number they
    denote, clamped to the range of [long].  A number out of range always gives
    [ERANGE], and only [LONG_MIN] among those in range may give it too. *)
Theorem strtol_parses sp neg sg pfx base base' ds rest :
  Forall (λ c, isspace c = true) sp → sign_char neg sg → radix base pfx base' →
  ds ≠ [] → Forall (is_digit base') ds → stops base' rest →
  let n := signed neg (digits_value base' 0 ds) in
  ∃ errno, strtol (sp ++ sg ++ pfx ++ ds ++ rest) base = Ret (saturate long_type n, rest, errno) ∧
    ((errno = None ∧ in_range long_type n) ∨
     (errno = Some ERANGE ∧ (¬ in_range long_type n ∨ n = INT_MIN_ long_type))).
Proof.
  intros Hsp Hsg Hr Hne Hds Hstop.
  destruct (STRTOL_run long_type sp neg sg pfx base base' ds rest) as (result & overflow & Hrun & Hv & Hinv);
    auto.
  exists (if overflow then Some ERANGE else None). unfold strtol. rewrite Hrun.
  cbn [INT_IS_UNSIGNED long_type negb andb] in *. unfold saturate, in_range, overflow_value in *.
  destruct overflow; destruct neg; cbn [signed INT_MIN_ INT_MAX_ long_type] in *;
    (split; [do 3 f_equal; lia|]); [right|right|left|left]; (split; [done|lia]).
Qed.

Lemma strtol_parses_witness :
  ∃ errno, strtol (lit " " ++ lit "-" ++ lit "0x" ++ lit "1aF" ++ (lit "g" ++ [0])) 16 =
             Ret (saturate long_type (signed true (digits_value 16 0 (lit "1aF"))), lit "g" ++ [0], errno) ∧
    ((errno = None ∧ in_range long_type (signed true (digits_value 16 0 (lit "1aF")))) ∨
     (errno = Some ERANGE ∧ (¬ in_range long_type (signed true (digits_value 16 0 (lit "1aF"))) ∨
        signed true (digits_value 16 0 (lit "1aF")) = INT_MIN_ long_type))).
Proof.
  apply (strtol_parses (lit " ") true (lit "-") (lit "0x") 16 16 (lit "1aF") (lit "g" ++ [0])).
  - repeat constructor.
  - by left.
  - apply radix_hex; [by right|by left].
  - done.
  - repeat constructor; cbn; lia.
  - exists (ch "g"), [0]. split; [done|]. intros [_ H]. change (debase (ch "g")) with 16 in H. lia.
Defined.

(** [strtoul] (and the other unsigned instances) parses the same syntax:
    the magnitude when it is representable, negated modulo two to the 64 after a
    minus sign, and [ULONG_MAX] with [ERANGE] exactly when it is not. *)
Theorem strtoul_parses sp neg sg pfx base base' ds rest :
  Forall (λ c, isspace c = true) sp → sign_char neg sg → radix base pfx base' →
  ds ≠ [] → Forall (is_digit base') ds → stops base' rest →
  let v := digits_value base' 0 ds in
  strtoul (sp ++ sg ++ pfx ++ ds ++ rest) base =
  Ret (if v <=? INT_MAX_ ulong_type then u64 (signed neg v) else INT_MAX_ ulong_type, rest,
       if v <=? INT_MAX_ ulong_type then None else Some ERANGE).
Proof.
  intros Hsp Hsg Hr Hne Hds Hstop.
  destruct (STRTOL_run ulong_type sp neg sg pfx base base' ds rest) as (result & overflow & Hrun & Hv & Hinv);
    auto.
  unfold strtoul. rewrite Hrun.
  cbn [INT_IS_UNSIGNED ulong_type negb andb] in *. unfold in_range, overflow_value in *.
  cbn [INT_MIN_ INT_MAX_ ulong_type signed] in *. cbv zeta.
  destruct overflow; destruct Hinv as [-> Hinv].
  - rewrite (proj2 (Z.leb_gt _ _)) by lia. by destruct neg.
  - rewrite (proj2 (Z.leb_le _ _)) by lia. destruct neg; [done|].
    cbn [signed]. by rewrite wrapu_id by (unfold in_u; lia).
Qed.

Lemma strtoul_parses_witness :
  let v := digits_value 10 0 (lit "42") in
  strtoul ([] ++ lit "-" ++ [] ++ lit "42" ++ [0]) 10 =
  Ret (if v <=? INT_MAX_ ulong_type then u64 (signed true v) else INT_MAX_ ulong_type, [0],
       if v <=? INT_MAX_ ulong_type then None else Some ERANGE).
Proof.
  apply (strtoul_parses [] true (lit "-") [] 10 10 (lit "42") [0]).
  - constructor.
  - by left.
  - apply radix_given; lia.
  - done.
  - repeat constructor; cbn; lia.
  - exists 0, []. split; [done|]. by intros [H _].
Defined.

(** The spurious error at the minimum, in base 10. *)
Example strtol_min_erange :
  strtol (lit "-9223372036854775808" ++ [0]) 10 = Ret (- 2 ^ 63, [0], Some ERANGE) ∧
  strtol (lit "-0x8000000000000000" ++ [0]) 16 = Ret (- 2 ^ 63, [0], None).
Proof. split; vm_compute; reflexivity. Qed.

End Strtol.
