(* ===== verification/Env.v ===== *)
(** * The environment: [getenv], [setenv], [unsetenv], [clearenv]

    The [environ] array of [libc/stdlib].  The array is the one the program was
    started with or assigned to [environ] (the user's), or one [setenv]
    allocated and owns.  A slot holds a string, a null pointer, or a pointer that
    was freed: using the latter is [Undef], as is indexing past the array.
    Whether an allocation succeeds is decided by a list of outcomes in the
    state. *)

From S2P Require Import Prelude Memory.
From stdpp Require Import base decidable list numbers strings.
From Stdlib Require Import ZArith Lia Ascii.

#[local] Open Scope c_scope.
#[local] Open Scope Z_scope.

Module Env.

Inductive slot := Null | Str (s : list Z) | Freed.

(** Where [environ] points. *)
Inductive environ_ptr := ENull | EUser (arr : list slot) | EMalloced.

Record environment := Environment {
  environ : environ_ptr;
  environ_malloced : option (list slot);
  environ_length : nat;
  environ_used : nat;
  allocs : list bool
}.

(** The return value of the functions, with the [errno] of a failure. *)
Inductive env_result := EnvOk | EnvInvalid | EnvNoMem.

#[global] Instance slot_eq_dec : EqDecision slot.
Proof. solve_decision. Defined.

(** ** State access *)

Definition read_slot (arr : list slot) (i : nat) : outcome slot :=
  match arr !! i with Some Freed | None => Undef | Some s => Ret s end.

(** [free] of a slot; a null pointer is fine. *)
Definition free_slot (arr : list slot) (i : nat) : outcome (list slot) :=
  match arr !! i with
  | Some (Str _) => Ret (<[i := Freed]> arr)
  | Some Null => Ret arr
  | Some Freed | None => Undef
  end.

Definition write_slot (arr : list slot) (i : nat) (s : slot) : outcome (list slot) :=
  match arr !! i with Some _ => Ret (<[i := s]> arr) | None => Undef end.

(** The array [environ] points to. *)
Definition environ_array (e : environment) : outcome (list slot) :=
  match environ e with
  | ENull => Undef
  | EUser arr => Ret arr
  | EMalloced => match environ_malloced e with Some arr => Ret arr | None => Undef end
  end.

Definition set_array (arr : list slot) (e : environment) : environment :=
  match environ e with
  | EUser _ => Environment (EUser arr) (environ_malloced e) (environ_length e) (environ_used e) (allocs e)
  | _ => Environment (environ e) (Some arr) (environ_length e) (environ_used e) (allocs e)
  end.

(** [malloc] or [realloc]: does it succeed? *)
Definition allocate : M environment bool := λ e,
  match allocs e with
  | [] => Ret (true, e)
  | b :: l => Ret (b, Environment (environ e) (environ_malloced e) (environ_length e) (environ_used e) l)
  end.

Definition with_array {A} (f : list slot → outcome (A * list slot)) : M environment A := λ e,
  arr ← environ_array e; '(a, arr) ← f arr; Ret (a, set_array arr e).

Definition reading {A} (f : list slot → outcome A) : M environment A := λ e,
  arr ← environ_array e; a ← f arr; Ret (a, e).

(** ** The code *)

(** [!strncmp(what, name, name_length) && what[name_length] == '='], where
    [name] has [name_length] characters. *)
Definition matches_environment_variable (what name : list Z) : bool :=
  (Mem.lex (take (length name) what) (take (length name) name) =? 0) &&
  bool_decide (what !! length name = Some (ch "=")).

(** The checks on the name at the start of each function. *)
Definition bad_name (name : option (list Z)) : bool :=
  match name with
  | None => true
  | Some name => bool_decide (name = []) || bool_decide (ch "=" ∈ name)
  end.

Definition create_entry (name value : list Z) : M environment (option (list Z)) :=
  ok ← allocate;
  mret (if (ok : bool) then Some (name ++ [ch "="] ++ value) else None).

Definition set_entry_at (position : nat) (name value : list Z) : M environment bool :=
  new_entry ← create_entry name value;
  match new_entry with
  | None => mret false
  | Some s =>
      with_array (λ arr, arr ← free_slot arr position; arr ← write_slot arr position (Str s); Ret (true, arr))
  end.

(** The strings up to the null pointer, [environ[0]], [environ[1]], .... *)
Fixpoint strings_from (arr : list slot) : outcome (list (list Z)) :=
  match arr with
  | Null :: _ => Ret []
  | Str s :: arr => l ← strings_from arr; Ret (s :: l)
  | _ => Undef
  end.

Definition free_all (arr : list slot) (n : nat) : outcome () :=
  if bool_decide (Forall (λ s, s ≠ Freed) (take n arr)) && (n <=? length arr)%nat then Ret () else Undef.

(** Duplicate the strings, [false] when an allocation fails (the copies made so
    far are freed again and not visible). *)
Fixpoint duplicate (n : nat) : M environment bool :=
  match n with
  | O => mret true
  | S n => ok ← allocate; if (ok : bool) then duplicate n else mret false
  end.

Definition recover_environment : M environment bool := λ e,
  (match environ_malloced e with
   | Some arr => free_all arr (environ_used e)
   | None => Ret ()
   end);;
  let e := Environment (environ e) None
             (match environ_malloced e with Some _ => O | None => environ_length e end)
             (match environ_malloced e with Some _ => O | None => environ_used e end) (allocs e) in
  strs ← (match environ e with
          | ENull => Ret []
          | EUser arr => strings_from arr
          | EMalloced => Undef
          end);
  '(ok, e) ← allocate e;
  if negb ok then Ret (false, e)
  else
    '(ok, e) ← duplicate (length strs) e;
    if negb ok then Ret (false, e)
    else Ret (true, Environment EMalloced (Some ((Str <$> strs) ++ [Null]))
                      (length strs) (length strs) (allocs e)).

Definition getenv (name : option (list Z)) : M environment (option (list Z)) := λ e,
  match name with
  | Some name =>
      if bad_name (Some name) then Ret (None, e)
      else
        match environ e with
        | ENull => Ret (None, e)
        | _ =>
            arr ← environ_array e;
            strs ← strings_from arr;
            Ret (drop (length name + 1) <$>
                   (snd <$> list_find (λ s, matches_environment_variable s name = true) strs), e)
        end
  | None => Ret (None, e)
  end.

(** The search of [setenv] for an existing entry, over [n] slots from [i]. *)
Fixpoint find_entry (n i : nat) (name : list Z) (arr : list slot) : outcome (option (nat * list Z)) :=
  match n with
  | O => Ret None
  | S n =>
      s ← read_slot arr i;
      match s with
      | Str previous_entry =>
          if matches_environment_variable previous_entry name then Ret (Some (i, previous_entry))
          else find_entry n (S i) name arr
      | _ => Undef
      end
  end.

(** The array after the expansion: the used slots and null pointers. *)
Definition expand : M environment bool := λ e,
  if (environ_used e =? environ_length e)%nat then
    let new_length := if (environ_length e =? 0)%nat then 16%nat else (2 * environ_length e)%nat in
    '(ok, e) ← allocate e;
    if negb ok then Ret (false, e)
    else
      arr ← environ_array e;
      Ret (true, Environment EMalloced
        (Some (take (environ_used e) arr ++ replicate (new_length + 1 - environ_used e) Null))
        new_length (environ_used e) (allocs e))
  else Ret (true, e).

Definition append_entry (name value : list Z) : M environment env_result :=
  ok ← expand;
  if negb (ok : bool) then mret EnvNoMem
  else
    used ← (λ e, Ret (environ_used e, e));
    ok ← set_entry_at used name value;
    if negb ok then mret EnvNoMem
    else
      (λ e, Ret ((), Environment (environ e) (environ_malloced e) (environ_length e) (S used) (allocs e)));;
      with_array (λ arr, arr ← write_slot arr (S used) Null; Ret (EnvOk, arr)).

(** Is [environ] the array that [setenv] owns? *)
Definition owned (e : environment) : bool :=
  match environ e with EMalloced => true | _ => false end.

Definition setenv (name value : option (list Z)) (overwrite : bool) : M environment env_result :=
  match name, value with
  | Some name, Some value =>
      if bad_name (Some name) then mret EnvInvalid
      else
        is_owned ← (λ e, Ret (owned e, e));
        recovered ← (if (is_owned : bool) then mret true else recover_environment);
        if negb recovered then mret EnvNoMem
        else
          used ← (λ e, Ret (environ_used e, e));
          found ← reading (find_entry used 0 name);
          match found with
          | Some (i, previous_entry) =>
              if negb overwrite then mret EnvOk
              else
                let previous_value := drop (length name + 1) previous_entry in
                if (length value <=? length previous_value)%nat then
                  with_array (λ arr,
                    arr ← write_slot arr i (Str (take (length name + 1) previous_entry ++ value));
                    Ret (EnvOk, arr))
                else
                  result ← set_entry_at i name value;
                  mret (if (result : bool) then EnvOk else EnvNoMem)
          | None => append_entry name value
          end
  | _, _ => mret EnvInvalid
  end.

(** [for ( n = i; environ[n]; n++ ) environ[n] = environ[n+1]]. *)
Fixpoint shift_down (fuel : nat) (n : nat) (arr : list slot) : outcome (list slot) :=
  match fuel with
  | O => OutOfFuel
  | S fuel =>
      s ← read_slot arr n;
      match s with
      | Null => Ret arr
      | _ => next ← read_slot arr (S n); arr ← write_slot arr n next; shift_down fuel (S n) arr
      end
  end.

Fixpoint unsetenv_loop (fuel : nat) (is_owned : bool) (name : list Z) (i used : nat) (arr : list slot)
    : outcome (nat * list slot) :=
  match fuel with
  | O => OutOfFuel
  | S fuel =>
      s ← read_slot arr i;
      match s with
      | Str s =>
          if matches_environment_variable s name then
            '(used, arr) ←
              (if is_owned then
                 arr ← free_slot arr i;
                 last ← (match arr !! (used - 1)%nat with Some x => Ret x | None => Undef end);
                 arr ← write_slot arr i last;
                 arr ← write_slot arr (used - 1) Null;
                 Ret ((used - 1)%nat, arr)
               else arr ← shift_down (length arr) i arr; Ret (used, arr));
            unsetenv_loop fuel is_owned name i used arr
          else unsetenv_loop fuel is_owned name (S i) used arr
      | _ => Ret (used, arr)
      end
  end.

Definition unsetenv (name : option (list Z)) : M environment env_result := λ e,
  match name with
  | None => Ret (EnvInvalid, e)
  | Some name =>
      if bad_name (Some name) then Ret (EnvInvalid, e)
      else
        match environ e with
        | ENull => Ret (EnvOk, e)
        | _ =>
            arr ← environ_array e;
            '(used, arr) ← unsetenv_loop (S (length arr)) (owned e) name 0 (environ_used e) arr;
            let e := set_array arr e in
            Ret (EnvOk, Environment (environ e) (environ_malloced e) (environ_length e) used (allocs e))
        end
  end.

(** The strings freed by [clearenv] leave dangling pointers behind slot 0. *)
Definition clearenv : M environment env_result := λ e,
  match environ e with
  | ENull => Ret (EnvOk, e)
  | EUser arr => arr ← write_slot arr 0 Null; Ret (EnvOk, set_array arr e)
  | EMalloced =>
      arr ← environ_array e;
      strs ← strings_from arr;
      let arr := replicate (length strs) Freed ++ drop (length strs) arr in
      arr ← write_slot arr 0 Null;
      let e := set_array arr e in
      Ret (EnvOk, Environment (environ e) (environ_malloced e) (environ_length e) O (allocs e))
  end.

(** ** The abstract environment: a list of strings *)

Definition entry (name value : list Z) : list Z := name ++ ch "=" :: value.

Definition env_lookup (name : list Z) (strs : list (list Z)) : option (list Z) :=
  drop (length name + 1) <$>
    (snd <$> list_find (λ s, matches_environment_variable s name = true) strs).

(** [setenv] on the list: the first entry of that name is replaced, or a new
    one appended. *)
Fixpoint set_strs (name value : list Z) (overwrite : bool) (strs : list (list Z)) : list (list Z) :=
  match strs with
  | [] => [entry name value]
  | s :: strs =>
      if matches_environment_variable s name
      then (if overwrite then entry name value else s) :: strs
      else s :: set_strs name value overwrite strs
  end.

Lemma matches_iff s name :
  matches_environment_variable s name = true ↔ ∃ value, s = entry name value.
Proof.
  unfold matches_environment_variable, entry. rewrite andb_true_iff, Z.eqb_eq, Mem.lex_0, bool_decide_eq_true.
  rewrite firstn_all. split.
  - intros [H1 H2]. exists (drop (S (length name)) s).
    rewrite <- (take_drop (length name) s) at 1. rewrite H1. f_equal. by apply drop_S.
  - intros [v ->]. rewrite take_app_length. split; [done|]. by rewrite list_lookup_middle.
Qed.

Lemma drop_entry name value : drop (length name + 1) (entry name value) = value.
Proof. unfold entry. rewrite <- drop_drop, drop_app_length. done. Qed.

(** Names without an equals sign are told apart by the first one. *)
Lemma entry_inj n1 n2 v1 v2 :
  ch "=" ∉ n1 → ch "=" ∉ n2 → entry n1 v1 = entry n2 v2 → n1 = n2.
Proof.
  unfold entry. revert n2. induction n1 as [|x n1 IH]; intros [|y n2] H1 H2 H; try done;
    rewrite ?not_elem_of_cons in H1; rewrite ?not_elem_of_cons in H2; injection H.
  - intros _ E. destruct H2. congruence.
  - intros _ E. destruct H1. congruence.
  - intros H' ->. f_equal. by apply IH; [apply H1|apply H2|].
Qed.

Lemma matches_other name other value :
  ch "=" ∉ name → ch "=" ∉ other → name ≠ other →
  matches_environment_variable (entry name value) other = false.
Proof.
  intros H1 H2 Hne. apply not_true_iff_false. rewrite matches_iff. intros [v Hv].
  by apply Hne, (entry_inj _ _ value v).
Qed.

Lemma env_lookup_nil name : env_lookup name [] = None.
Proof. done. Qed.

Lemma env_lookup_cons name s strs :
  env_lookup name (s :: strs) =
  if matches_environment_variable s name then Some (drop (length name + 1) s) else env_lookup name strs.
Proof.
  unfold env_lookup. cbn [list_find].
  destruct (matches_environment_variable s name) eqn:E.
  - by rewrite decide_True.
  - rewrite decide_False by done. by destruct (list_find _ strs) as [[? ?]|].
Qed.

Lemma lookup_set_same name value strs :
  env_lookup name (set_strs name value true strs) = Some value.
Proof.
  assert (Hm : matches_environment_variable (entry name value) name = true)
    by (apply matches_iff; by exists value).
  induction strs as [|s strs IH]; cbn [set_strs].
  - by rewrite env_lookup_cons, Hm, drop_entry.
  - destruct (matches_environment_variable s name) eqn:E; rewrite env_lookup_cons.
    + by rewrite Hm, drop_entry.
    + by rewrite E.
Qed.

Lemma lookup_set_keep name value strs :
  env_lookup name (set_strs name value false strs) =
  Some (default value (env_lookup name strs)).
Proof.
  induction strs as [|s strs IH]; cbn [set_strs].
  - rewrite env_lookup_cons, (proj2 (matches_iff _ _)) by (by exists value). by rewrite drop_entry.
  - destruct (matches_environment_variable s name) eqn:E; rewrite !env_lookup_cons, E; done.
Qed.

Lemma lookup_set_other name other value overwrite strs :
  ch "=" ∉ name → ch "=" ∉ other → name ≠ other →
  env_lookup other (set_strs name value overwrite strs) = env_lookup other strs.
Proof.
  intros H1 H2 Hne. induction strs as [|s strs IH]; cbn [set_strs].
  - rewrite env_lookup_cons, matches_other by done. done.
  - destruct (matches_environment_variable s name) eqn:E; rewrite !env_lookup_cons; [|by rewrite IH].
    destruct overwrite; [|done]. rewrite matches_other by done.
    apply matches_iff in E as [v ->]. by rewrite matches_other.
Qed.

(** ** The invariant *)

(** An array that holds exactly these strings before its null pointer. *)
Definition holds (arr : list slot) (strs : list (list Z)) : Prop :=
  ∃ rest, arr = (Str <$> strs) ++ Null :: rest.

Definition malloced_ok (e : environment) : Prop :=
  match environ_malloced e with
  | Some arr => length arr = S (environ_length e) ∧
                ∃ strs, holds arr strs ∧ length strs = environ_used e
  | None => environ_length e = O ∧ environ_used e = O
  end.

(** The environment is sound and contains these strings. *)
Definition env_holds (e : environment) (strs : list (list Z)) : Prop :=
  malloced_ok e ∧
  match environ e with
  | ENull => strs = []
  | EUser arr => holds arr strs
  | EMalloced => ∃ arr, environ_malloced e = Some arr ∧ holds arr strs
  end.

Lemma strings_from_holds arr strs : holds arr strs → strings_from arr = Ret strs.
Proof.
  intros [rest ->]. induction strs as [|s strs IH]; cbn [fmap list_fmap app strings_from]; [done|].
  by rewrite IH.
Qed.

Lemma holds_inj arr s1 s2 : holds arr s1 → holds arr s2 → s1 = s2.
Proof. intros H1%strings_from_holds H2%strings_from_holds. congruence. Qed.

Lemma holds_lookup arr strs i s : holds arr strs → strs !! i = Some s → arr !! i = Some (Str s).
Proof.
  intros [rest ->] Hs. rewrite lookup_app_l, list_lookup_fmap, Hs; [done|].
  rewrite length_fmap. by eapply lookup_lt_Some.
Qed.

Lemma holds_end arr strs : holds arr strs → arr !! length strs = Some Null.
Proof. intros [rest ->]. apply list_lookup_middle. by rewrite length_fmap. Qed.

Lemma holds_length arr strs : holds arr strs → (length strs < length arr)%nat.
Proof. intros [rest ->]. rewrite length_app, length_fmap. simpl. lia. Qed.

(** Replacing a string. *)
Lemma holds_insert arr strs i s :
  holds arr strs → (i < length strs)%nat → holds (<[i := Str s]> arr) (<[i := s]> strs).
Proof.
  intros [rest ->] Hi. exists rest. rewrite insert_app_l by (by rewrite length_fmap).
  by rewrite list_fmap_insert.
Qed.

(** Appending one where a null pointer follows the next slot. *)
Lemma holds_append arr strs s :
  holds arr strs → (S (length strs) < length arr)%nat →
  holds (<[S (length strs) := Null]> (<[length strs := Str s]> arr)) (strs ++ [s]).
Proof.
  intros [rest ->] Hl. rewrite length_app, length_fmap in Hl. simpl in Hl.
  destruct rest as [|x rest]; [simpl in Hl; lia|]. exists rest.
  rewrite (insert_app_r_alt _ _ (length strs)), length_fmap, Nat.sub_diag by (rewrite length_fmap; lia).
  rewrite insert_app_r_alt by (rewrite length_fmap; lia). rewrite length_fmap.
  replace (S (length strs) - length strs)%nat with 1%nat by lia.
  rewrite fmap_app, <- app_assoc. done.
Qed.

Lemma env_holds_array e strs :
  env_holds e strs → environ e ≠ ENull → ∃ arr, environ_array e = Ret arr ∧ holds arr strs.
Proof.
  intros [_ H] Hn. unfold environ_array. destruct (environ e) as [|arr|]; [done|by exists arr|].
  destruct H as (arr & -> & H). by exists arr.
Qed.

Lemma getenv_run e strs name :
  env_holds e strs → bad_name (Some name) = false →
  getenv (Some name) e = Ret (env_lookup name strs, e).
Proof.
  intros He Hn. unfold getenv. rewrite Hn. pose proof (env_holds_array _ _ He) as Harr.
  destruct (environ e) eqn:E; [destruct He as [_ He]; rewrite E in He; by subst|..];
    destruct Harr as (arr' & -> & Hh); try done; cbn [mbind outcome_bind];
    by rewrite (strings_from_holds _ _ Hh).
Qed.

(** ** Allocation *)

(** The same environment up to future allocations; with none scheduled to fail,
    none fails. *)
Definition same_env (e e' : environment) : Prop :=
  environ e' = environ e ∧ environ_malloced e' = environ_malloced e ∧
  environ_length e' = environ_length e ∧ environ_used e' = environ_used e.

Definition no_failures (e e' : environment) (ok : bool) : Prop :=
  allocs e = [] → ok = true ∧ allocs e' = [].

Lemma same_env_refl e : same_env e e.
Proof. done. Qed.

Lemma env_holds_same e e' strs : same_env e e' → env_holds e strs → env_holds e' strs.
Proof. intros (H1 & H2 & H3 & H4). unfold env_holds, malloced_ok. by rewrite H1, H2, H3, H4. Qed.

Lemma allocate_run e :
  ∃ ok e', allocate e = Ret (ok, e') ∧ same_env e e' ∧ no_failures e e' ok.
Proof.
  unfold allocate, no_failures. destruct (allocs e) as [|b l] eqn:E.
  - exists true, e. by rewrite E.
  - eexists b, _. split_and!; done.
Qed.

Lemma duplicate_run n e :
  ∃ ok e', duplicate n e = Ret (ok, e') ∧ same_env e e' ∧ no_failures e e' ok.
Proof.
  revert e. induction n as [|n IH]; intros e; cbn [duplicate].
  - exists true, e. split_and!; [done..|]. by intros H.
  - destruct (allocate_run e) as (ok & e1 & Ha & Hs & Hn). step Ha. destruct ok.
    + destruct (IH e1) as (ok & e2 & Hd & Hs2 & Hn2). exists ok, e2. split_and!; [done|..].
      * unfold same_env in *. intuition congruence.
      * intros H. apply Hn2, Hn, H.
    + exists false, e1. done.
Qed.

Lemma recover_environment_run e strs :
  env_holds e strs → environ e ≠ EMalloced →
  ∃ ok e', recover_environment e = Ret (ok, e') ∧ env_holds e' strs ∧
           (ok = true → environ e' = EMalloced) ∧ no_failures e e' ok.
Proof.
  intros [Hm He] Hne. unfold recover_environment.
  assert (Hfree : (match environ_malloced e with
    | Some arr => free_all arr (environ_used e) | None => Ret () end) = Ret ()).
  { unfold malloced_ok in Hm. destruct (environ_malloced e) as [arr|]; [|done].
    destruct Hm as (_ & strs' & Hh & <-). unfold free_all.
    pose proof (holds_length _ _ Hh). rewrite (proj2 (Nat.leb_le _ _)) by lia.
    rewrite bool_decide_true; [done|]. destruct Hh as [rest ->].
    rewrite take_app_le, firstn_all2 by (rewrite length_fmap; lia).
    apply Forall_fmap, Forall_true. done. }
  rewrite Hfree. cbn [mbind outcome_bind environ].
  assert (Hstrs : match environ e with
    | ENull => Ret [] | EUser arr => strings_from arr | EMalloced => Undef end = Ret strs).
  { destruct (environ e); [by subst|by apply strings_from_holds|done]. }
  rewrite Hstrs. cbn [mbind outcome_bind].
  set (e0 := Environment _ None _ _ _).
  assert (H0 : env_holds e0 strs).
  { unfold e0. split; [unfold malloced_ok; cbn|cbn; by destruct (environ e)].
    unfold malloced_ok in Hm. by destruct (environ_malloced e). }
  destruct (allocate_run e0) as (ok & e1 & Ha & Hs & Hn). rewrite Ha. cbn [mbind outcome_bind].
  assert (Hn' : no_failures e e1 ok) by exact Hn.
  destruct ok; cbn [negb].
  2: { exists false, e1. split_and!; [done|by eapply env_holds_same|done|done]. }
  destruct (duplicate_run (length strs) e1) as (ok & e2 & Hd & Hs2 & Hn2). rewrite Hd.
  cbn [mbind outcome_bind].
  assert (Hn3 : no_failures e e2 ok) by (intros H; apply Hn2, Hn', H).
  destruct ok; cbn [negb].
  - eexists true, _. split_and!; [done| |done|intros H; split; [done|exact (proj2 (Hn3 H))]].
    assert (Hh : holds ((Str <$> strs) ++ [Null]) strs) by (by exists []).
    split; [|by eexists]. unfold malloced_ok. cbn. split; [rewrite length_app, length_fmap; simpl; lia|].
    by exists strs.
  - exists false, e2. split_and!; [done| |done|done].
    apply (env_holds_same e1 e2 strs Hs2), (env_holds_same e0 e1 strs Hs), H0.
Qed.

(** ** Setting *)

Lemma find_entry_run n i name arr strs :
  (∀ k s, strs !! k = Some s → arr !! (i + k)%nat = Some (Str s)) → length strs = n →
  find_entry n i name arr =
  Ret (prod_map (λ k, (i + k)%nat) id <$>
         list_find (λ s, matches_environment_variable s name = true) strs).
Proof.
  revert i strs. induction n as [|n IH]; intros i [|s strs] Ha Hl; try done.
  injection Hl as Hl. cbn [find_entry list_find]. unfold read_slot.
  assert (Hs := Ha O s eq_refl). rewrite Nat.add_0_r in Hs. rewrite Hs. cbn [mbind outcome_bind].
  destruct (matches_environment_variable s name) eqn:E.
  - rewrite decide_True by done. cbn. by rewrite Nat.add_0_r.
  - rewrite decide_False by done. rewrite (IH (S i) strs); [| |done].
    + destruct (list_find _ strs) as [[k t]|]; [|done]. cbn. do 3 f_equal. lia.
    + intros k t Hk. rewrite <- (Ha (S k) t) by done. f_equal. lia.
Qed.

Lemma set_strs_find name value overwrite strs :
  set_strs name value overwrite strs =
  match list_find (λ s, matches_environment_variable s name = true) strs with
  | Some (i, _) => if overwrite then <[i := entry name value]> strs else strs
  | None => strs ++ [entry name value]
  end.
Proof.
  induction strs as [|s strs IH]; cbn [set_strs list_find]; [done|].
  destruct (matches_environment_variable s name) eqn:E.
  - rewrite decide_True by done. by destruct overwrite.
  - rewrite decide_False, IH by done.
    destruct (list_find _ strs) as [[k t]|]; cbn; [by destruct overwrite|done].
Qed.

(** [environ] owned by [setenv], holding these strings. *)
Definition owns (e : environment) (arr : list slot) (strs : list (list Z)) : Prop :=
  environ e = EMalloced ∧ environ_malloced e = Some arr ∧ holds arr strs ∧
  length arr = S (environ_length e) ∧ length strs = environ_used e.

Lemma owns_iff e strs : environ e = EMalloced → env_holds e strs → ∃ arr, owns e arr strs.
Proof.
  intros E [Hm He]. rewrite E in He. destruct He as (arr & Ea & Hh). exists arr.
  unfold malloced_ok in Hm. rewrite Ea in Hm. destruct Hm as (Hl & strs' & Hh' & Hu).
  rewrite (holds_inj _ _ _ Hh Hh') in *. done.
Qed.

Lemma owns_holds e arr strs : owns e arr strs → env_holds e strs.
Proof.
  intros (E & Ea & Hh & Hl & Hu). split; [unfold malloced_ok; rewrite Ea|rewrite E]; [|by eexists].
  split; [done|]. by exists strs.
Qed.

Lemma set_entry_at_run e arr pos name value :
  environ e = EMalloced → environ_malloced e = Some arr →
  (∃ s, arr !! pos = Some s ∧ s ≠ Freed) →
  ∃ ok e', set_entry_at pos name value e = Ret (ok, e') ∧ no_failures e e' ok ∧
    environ e' = EMalloced ∧ environ_length e' = environ_length e ∧ environ_used e' = environ_used e ∧
    environ_malloced e' = Some (if ok then <[pos := Str (entry name value)]> arr else arr).
Proof.
  intros E Ea (s & Hs & Hf). unfold set_entry_at, create_entry.
  destruct (allocate_run e) as (ok & e1 & Ha & (S1 & S2 & S3 & S4) & Hn).
  erewrite M_bind_ret; [|step Ha; reflexivity]. destruct ok.
  - assert (Hw : (arr ← free_slot arr pos; arr ← write_slot arr pos (Str (name ++ [ch "="] ++ value));
                  Ret (true, arr)) = Ret (true, <[pos := Str (entry name value)]> arr)).
    { unfold free_slot, write_slot. rewrite Hs. pose proof (lookup_lt_Some _ _ _ Hs).
      destruct s; cbn [mbind outcome_bind]; [by rewrite Hs| |done].
      rewrite list_lookup_insert_eq by done. cbn [mbind outcome_bind].
      by rewrite list_insert_insert_eq. }
    eexists true, _. split.
    + unfold with_array, environ_array. rewrite S1, E, S2, Ea. cbn [mbind outcome_bind].
      rewrite Hw. cbn [mbind outcome_bind]. reflexivity.
    + unfold set_array. rewrite S1, E. cbn. split_and!; try done; by intros H; apply Hn in H.
  - exists false, e1. split_and!; [done|done|..]; congruence.
Qed.

Lemma expand_run e arr strs :
  owns e arr strs →
  ∃ ok e' arr', expand e = Ret (ok, e') ∧ owns e' arr' strs ∧ no_failures e e' ok ∧
    (ok = true → (S (length strs) < length arr')%nat).
Proof.
  intros (E & Ea & Hh & Hl & Hu). unfold expand.
  destruct (Nat.eqb_spec (environ_used e) (environ_length e)) as [Heq|Hne].
  - destruct (allocate_run e) as (ok & e1 & Ha & (S1 & S2 & S3 & S4) & Hn). rewrite Ha. cbn [mbind outcome_bind].
    destruct ok; cbn [negb].
    + set (n := if (environ_length e =? 0)%nat then 16%nat else (2 * environ_length e)%nat).
      assert (Hn2 : (environ_length e < n)%nat) by (unfold n; destruct (Nat.eqb_spec (environ_length e) 0); lia).
      unfold environ_array. rewrite S1, E, S2, Ea, S4. cbn [mbind outcome_bind].
      eexists true, _, _. split_and!; [done| |intros H; split; [done|exact (proj2 (Hn H))]|].
      * destruct Hh as [rest ->]. rewrite take_app_le, firstn_all2 by (rewrite length_fmap; lia).
        split_and!; cbn; try done.
        -- exists (replicate (n - environ_used e) Null). f_equal.
           replace (n + 1 - environ_used e)%nat with (S (n - environ_used e)) by lia. done.
        -- rewrite length_app, length_fmap, length_replicate. lia.
      * intros _. pose proof (holds_length _ _ Hh). rewrite length_app, ?length_take, ?length_fmap, length_replicate. lia.
    + exists false, e1, arr. split_and!; [done| |done|done].
      unfold owns. rewrite S1, S2, S3, S4. done.
  - exists true, e, arr. split_and!; [done|done|by intros H|].
    pose proof (holds_length _ _ Hh). lia.
Qed.

Lemma append_entry_run e arr strs name value :
  owns e arr strs →
  ∃ r e', append_entry name value e = Ret (r, e') ∧
    (r = EnvOk ∧ env_holds e' (strs ++ [entry name value]) ∨ r = EnvNoMem ∧ env_holds e' strs) ∧
    (allocs e = [] → r = EnvOk).
Proof.
  intros Ho. destruct (expand_run e arr strs Ho) as (ok & e1 & arr1 & Hx & Ho1 & Hn & Hroom).
  unfold append_entry. step Hx. destruct ok; cbn [negb].
  2: { exists EnvNoMem, e1. split_and!; [done|right; split; [done|by eapply owns_holds]|].
       intros H. by apply Hn in H as [? _]. }
  specialize (Hroom eq_refl). destruct Ho1 as (E1 & Ea1 & Hh1 & Hl1 & Hu1).
  rewrite (M_bind_ret _ _ _ (environ_used e1) e1) by done. rewrite <- Hu1.
  destruct (set_entry_at_run e1 arr1 (length strs) name value E1 Ea1) as (ok & e2 & Hs & Hn2 & E2 & L2 & U2 & A2).
  { exists Null. split; [by apply holds_end|done]. }
  step Hs. destruct ok; cbn [negb].
  2: { exists EnvNoMem, e2. split_and!; [done|right; split; [done|]|].
       - apply (owns_holds e2 arr1). unfold owns. rewrite E2, L2, U2, A2. done.
       - intros H. apply Hn in H as [_ H]. by apply Hn2 in H as [? _]. }
  eexists EnvOk, _. split_and!; [|left; split; [done|]|done].
  - erewrite M_bind_ret; [|reflexivity]. unfold with_array, environ_array. cbn [environ environ_malloced].
    rewrite E2, A2. cbn [mbind outcome_bind]. unfold write_slot.
    destruct (lookup_lt_is_Some_2 (<[length strs:=Str (entry name value)]> arr1) (S (length strs))) as [x Hx2];
      [by rewrite length_insert|].
    rewrite Hx2. cbn [mbind outcome_bind]. reflexivity.
  - unfold set_array. cbn [environ]. rewrite ?E2. cbn.
    pose proof (holds_append _ _ (entry name value) Hh1 Hroom) as Hh2.
    split; [unfold malloced_ok; cbn|by eexists]. split; [by rewrite !length_insert, Hl1, L2|].
    exists (strs ++ [entry name value]). split; [done|]. rewrite length_app. simpl. lia.
Qed.

(** Replacing the value of the entry found, in place or by a new string. *)
Lemma replace_entry_run e arr strs i prev name value :
  owns e arr strs → strs !! i = Some prev → matches_environment_variable prev name = true →
  ∃ r e',
    (let previous_value := drop (length name + 1) prev in
     if (length value <=? length previous_value)%nat then
       with_array (λ arr,
         arr ← write_slot arr i (Str (take (length name + 1) prev ++ value)); Ret (EnvOk, arr))
     else
       result ← set_entry_at i name value; mret (if (result : bool) then EnvOk else EnvNoMem)) e =
      Ret (r, e') ∧
    (r = EnvOk ∧ env_holds e' (<[i := entry name value]> strs) ∨ r = EnvNoMem ∧ env_holds e' strs) ∧
    (allocs e = [] → r = EnvOk).
Proof.
  intros (E & Ea & Hh & Hl & Hu) Hi Hm. apply matches_iff in Hm as [old ->]. cbv zeta.
  rewrite drop_entry. pose proof (holds_lookup _ _ _ _ Hh Hi) as Hs. pose proof (lookup_lt_Some _ _ _ Hi) as Hlt.
  assert (Hnew : ∀ e', environ e' = EMalloced → environ_length e' = environ_length e →
    environ_used e' = environ_used e →
    environ_malloced e' = Some (<[i := Str (entry name value)]> arr) →
    env_holds e' (<[i := entry name value]> strs)).
  { intros e' H1 H2 H3 H4. eapply owns_holds. unfold owns. split_and!; [done|done|by apply holds_insert|..].
    - by rewrite length_insert, H2.
    - by rewrite length_insert, H3. }
  destruct (length value <=? length old)%nat.
  - assert (Ht : take (length name + 1) (entry name old) ++ value = entry name value).
    { unfold entry. rewrite take_app_ge, Nat.add_comm by lia. rewrite Nat.add_sub, <- app_assoc. done. }
    rewrite Ht. eexists EnvOk, _. split_and!; [|left; split; [done|]|done].
    + unfold with_array, environ_array, write_slot. rewrite E, Ea. cbn [mbind outcome_bind].
      rewrite Hs. cbn [mbind outcome_bind]. reflexivity.
    + apply Hnew; unfold set_array; by rewrite E.
  - destruct (set_entry_at_run e arr i name value E Ea) as (ok & e2 & Hset & Hn2 & E2 & L2 & U2 & A2);
      [by eexists|].
    step Hset. destruct ok.
    + exists EnvOk, e2. split_and!; [done|left; split; [done|by apply Hnew]|done].
    + exists EnvNoMem, e2. split_and!; [done|right; split; [done|]|intros H; by apply Hn2 in H as [? _]].
      apply (owns_holds e2 arr). unfold owns. rewrite E2, L2, U2, A2. done.
Qed.

(** [setenv] implements [set_strs], or leaves the strings alone when an
    allocation fails. *)
Lemma setenv_run e strs name value overwrite :
  env_holds e strs → bad_name (Some name) = false →
  ∃ r e', setenv (Some name) (Some value) overwrite e = Ret (r, e') ∧
    (r = EnvOk ∧ env_holds e' (set_strs name value overwrite strs) ∨ r = EnvNoMem ∧ env_holds e' strs) ∧
    (allocs e = [] → r = EnvOk).
Proof.
  intros He Hn. unfold setenv. rewrite Hn. rewrite (M_bind_ret _ _ _ (owned e) e) by done.
  assert (Hrec : ∃ ok e1, (if owned e then mret true else recover_environment) e = Ret (ok, e1) ∧
    env_holds e1 strs ∧ (ok = true → environ e1 = EMalloced) ∧ no_failures e e1 ok).
  { unfold owned. destruct (environ e) eqn:E; [..|exists true, e; split_and!; [done..|by intros H]];
      apply recover_environment_run; try done; by rewrite E. }
  destruct Hrec as (ok & e1 & Hr & He1 & Hown & Hnf). step Hr. destruct ok; cbn [negb].
  2: { exists EnvNoMem, e1. split_and!; [done|by right|intros H; by apply Hnf in H as [? _]]. }
  destruct (owns_iff e1 strs (Hown eq_refl) He1) as [arr Ho].
  pose proof Ho as (E1 & Ea1 & Hh1 & Hl1 & Hu1).
  rewrite (M_bind_ret _ _ _ (environ_used e1) e1) by done. rewrite <- Hu1.
  rewrite (M_bind_ret _ _ _ (list_find (λ s, matches_environment_variable s name = true) strs) e1).
  2: { unfold reading, environ_array. rewrite E1, Ea1. cbn [mbind outcome_bind].
       rewrite (find_entry_run _ _ _ _ strs); [|intros k s Hk; by apply holds_lookup with strs|done].
       cbn [mbind outcome_bind]. by destruct (list_find _ strs) as [[? ?]|]. }
  rewrite set_strs_find. destruct (list_find _ strs) as [[i prev]|] eqn:Ef.
  - apply list_find_Some in Ef as (Hi & Hm & _). destruct overwrite; cbn [negb].
    + destruct (replace_entry_run e1 arr strs i prev name value Ho Hi Hm) as (r & e' & Hrun & Hres & Hok).
      exists r, e'. split_and!; [done|done|]. intros H. by apply Hok, Hnf.
    + exists EnvOk, e1. split_and!; [done|by left|done].
  - destruct (append_entry_run e1 arr strs name value Ho) as (r & e' & Hrun & Hres & Hok).
    exists r, e'. split_and!; [done|done|]. intros H. by apply Hok, Hnf.
Qed.

(** C34.  [setenv] and [getenv] agree.  From any sound environment, whoever owns
    the array, [setenv] of a valid name returns; on success [getenv] of the name
    gives the new value (the old one if there was one and overwriting was not
    asked for) and every other variable is unchanged; when an allocation fails,
    which it reports, all variables are unchanged. The environment stays sound,
    so no slot is used after it was freed and no index leaves the array. *)
Theorem setenv_getenv e strs name value overwrite other :
  env_holds e strs → bad_name (Some name) = false → bad_name (Some other) = false → name ≠ other →
  ∃ r e' strs', setenv (Some name) (Some value) overwrite e = Ret (r, e') ∧ env_holds e' strs' ∧
    getenv (Some other) e' = Ret (env_lookup other strs, e') ∧
    (allocs e = [] → r = EnvOk) ∧
    match r with
    | EnvOk => getenv (Some name) e' =
        Ret (Some (if overwrite then value else default value (env_lookup name strs)), e')
    | _ => r = EnvNoMem ∧ getenv (Some name) e' = Ret (env_lookup name strs, e')
    end.
Proof.
  intros He Hn Ho Hne.
  assert (Heq : ∀ n, bad_name (Some n) = false → ch "=" ∉ n).
  { intros n H. cbn in H. apply orb_false_iff in H as [_ H]. by apply bool_decide_eq_false in H. }
  destruct (setenv_run e strs name value overwrite He Hn) as (r & e' & Hrun & [[-> Hr]|[-> Hr]] & Hok).
  - exists EnvOk, e', (set_strs name value overwrite strs). split_and!; [done|done| |done|].
    + rewrite (getenv_run e' _ other Hr Ho). by rewrite lookup_set_other by auto.
    + rewrite (getenv_run e' _ name Hr Hn).
      destruct overwrite; [by rewrite lookup_set_same|by rewrite lookup_set_keep].
  - exists EnvNoMem, e', strs. split_and!; try done; by apply getenv_run.
Qed.

(** An environment the program was started with. *)
Definition example_env : environment :=
  Environment (EUser [Str (lit "HOME=/root"); Str (lit "TERM=sortix"); Null]) None 0 0 [].

Lemma setenv_getenv_witness :
  ∃ r e' strs', setenv (Some (lit "HOME")) (Some (lit "/")) true example_env = Ret (r, e') ∧
    env_holds e' strs' ∧
    getenv (Some (lit "TERM")) e' =
      Ret (env_lookup (lit "TERM") [lit "HOME=/root"; lit "TERM=sortix"], e') ∧
    (allocs example_env = [] → r = EnvOk) ∧
    match r with
    | EnvOk => getenv (Some (lit "HOME")) e' =
        Ret (Some (if true then lit "/"
                   else default (lit "/") (env_lookup (lit "HOME") [lit "HOME=/root"; lit "TERM=sortix"])), e')
    | _ => r = EnvNoMem ∧ getenv (Some (lit "HOME")) e' =
        Ret (env_lookup (lit "HOME") [lit "HOME=/root"; lit "TERM=sortix"], e')
    end.
Proof.
  apply (setenv_getenv example_env [lit "HOME=/root"; lit "TERM=sortix"] (lit "HOME") (lit "/") true (lit "TERM"));
    [|by vm_compute|by vm_compute|done].
  split; [done|]. by exists [].
Defined.

(** ** Removing *)

Lemma holds_iff arr strs :
  holds arr strs ↔
  (∀ k s, strs !! k = Some s → arr !! k = Some (Str s)) ∧ arr !! length strs = Some Null.
Proof.
  split.
  - intros H. split; [intros k s; by apply holds_lookup|by apply holds_end].
  - intros [H1 H2]. exists (drop (S (length strs)) arr).
    rewrite <- (take_drop (length strs) arr) at 1. f_equal; [|by apply drop_S].
    apply list_eq. intros k. rewrite list_lookup_fmap. destruct (strs !! k) as [s|] eqn:E.
    + rewrite lookup_take_lt by (by eapply lookup_lt_Some). by apply H1.
    + apply lookup_ge_None in E. rewrite lookup_take_ge by done. done.
Qed.

(** Moving the last string into the freed slot. *)
Lemma remove_owned arr strs i s :
  holds arr strs → strs !! i = Some s →
  ∃ arr' strs',
    (arr ← free_slot arr i;
     last ← (match arr !! (length strs - 1)%nat with Some x => Ret x | None => Undef end);
     arr ← write_slot arr i last;
     arr ← write_slot arr (length strs - 1) Null;
     Ret ((length strs - 1)%nat, arr)) = Ret (length strs', arr') ∧
    holds arr' strs' ∧ s :: strs' ≡ₚ strs ∧ take i strs' = take i strs ∧ length arr' = length arr.
Proof.
  intros Hh Hs. pose proof (lookup_lt_Some _ _ _ Hs) as Hi. pose proof (holds_length _ _ Hh) as Hl.
  set (u := (length strs - 1)%nat). destruct (lookup_lt_is_Some_2 strs u ltac:(lia)) as [t Ht].
  pose proof (holds_lookup _ _ _ _ Hh Hs) as Hsi. pose proof (holds_lookup _ _ _ _ Hh Ht) as Htu.
  set (strs' := take u (<[i := t]> strs)).
  assert (Hlen : length strs' = u) by (unfold strs'; rewrite length_take, length_insert; lia).
  set (x := if decide (i = u) then Freed else Str t).
  exists (<[u := Null]> (<[i := x]> (<[i := Freed]> arr))), strs'. split_and!.
  - unfold free_slot. rewrite Hsi. cbn [mbind outcome_bind].
    assert (<[i:=Freed]> arr !! u = Some x) as ->.
    { unfold x. case_decide as E; [subst i; apply list_lookup_insert_eq; lia|].
      by rewrite list_lookup_insert_ne. }
    cbn [mbind outcome_bind]. unfold write_slot.
    rewrite list_lookup_insert_eq by lia. cbn [mbind outcome_bind].
    destruct (lookup_lt_is_Some_2 (<[i:=x]> (<[i:=Freed]> arr)) u) as [y ->]; [rewrite !length_insert; lia|].
    cbn [mbind outcome_bind]. by rewrite Hlen.
  - apply holds_iff. rewrite Hlen. split; [|apply list_lookup_insert_eq; rewrite !length_insert; lia].
    intros k w Hk. pose proof (lookup_lt_Some _ _ _ Hk) as Hku. rewrite Hlen in Hku.
    rewrite list_lookup_insert_ne by lia. unfold strs' in Hk. rewrite lookup_take_lt in Hk by lia.
    destruct (decide (k = i)) as [->|Hne].
    + rewrite list_lookup_insert_eq in Hk by lia.
      rewrite list_lookup_insert_eq by (rewrite ?length_insert; lia). simplify_eq.
      unfold x. by rewrite decide_False by lia.
    + rewrite list_lookup_insert_ne in Hk by done. rewrite !list_lookup_insert_ne by done.
      by apply holds_lookup with strs.
  - transitivity (<[u := s]> (<[i := t]> strs)); [|by apply Permutation_insert_swap].
    rewrite <- (firstn_all (<[u := s]> (<[i := t]> strs))), !length_insert.
    replace (length strs) with (S u) by lia.
    rewrite (take_S_r _ u s) by (apply list_lookup_insert_eq; rewrite length_insert; lia).
    rewrite take_insert_ge by lia. fold strs'. apply Permutation_cons_append.
  - unfold strs'. rewrite take_take, Nat.min_l by lia. by rewrite take_insert_ge.
  - by rewrite !length_insert.
Qed.

Lemma shift_down_run fuel done_ s more rest :
  (length more + 1 < fuel)%nat →
  shift_down fuel (length done_) ((Str <$> done_) ++ Str s :: (Str <$> more) ++ Null :: rest) =
  Ret ((Str <$> done_ ++ more) ++ Null :: Null :: rest).
Proof.
  revert fuel done_ s. induction more as [|t more IH]; intros fuel done_ s Hf;
    destruct fuel as [|fuel]; try (simpl in *; lia); cbn [shift_down]; unfold read_slot, write_slot;
    rewrite (list_lookup_middle (Str <$> done_)) by (by rewrite length_fmap); cbn [mbind outcome_bind];
    rewrite lookup_app_r, length_fmap by (rewrite length_fmap; lia);
    replace (S (length done_) - length done_)%nat with 1%nat by lia;
    cbn [lookup list_lookup fmap list_fmap app mbind outcome_bind];
    rewrite insert_app_r_alt, length_fmap, Nat.sub_diag by (rewrite length_fmap; lia);
    cbn [insert list_insert].
  - destruct fuel as [|fuel]; [simpl in *; lia|]. cbn [shift_down]. unfold read_slot.
    assert (((Str <$> done_) ++ Null :: Null :: rest) !! S (length done_) = Some Null) as ->.
    { rewrite lookup_app_r, length_fmap by (rewrite length_fmap; lia).
      by replace (S (length done_) - length done_)%nat with 1%nat by lia. }
    by rewrite app_nil_r.
  - replace ((Str <$> done_) ++ Str t :: Str t :: (Str <$> more) ++ Null :: rest) with
      ((Str <$> done_ ++ [t]) ++ Str t :: (Str <$> more) ++ Null :: rest)
      by (by rewrite fmap_app, <- app_assoc).
    replace (S (length done_)) with (length (done_ ++ [t])) by (rewrite length_app; simpl; lia).
    rewrite IH by (simpl in *; lia). by rewrite <- app_assoc.
Qed.

Lemma remove_user arr strs i s :
  holds arr strs → strs !! i = Some s →
  ∃ arr' strs', shift_down (length arr) i arr = Ret arr' ∧
    holds arr' strs' ∧ s :: strs' ≡ₚ strs ∧ take i strs' = take i strs ∧ length arr' = length arr.
Proof.
  intros [rest ->] Hs. pose proof (lookup_lt_Some _ _ _ Hs) as Hi.
  rewrite <- (take_drop i strs), (drop_S _ _ _ Hs). set (d := take i strs). set (more := drop (S i) strs).
  assert (Hd : length d = i) by (unfold d; rewrite length_take; lia).
  exists ((Str <$> d ++ more) ++ Null :: Null :: rest), (d ++ more). split_and!.
  - rewrite fmap_app, <- app_assoc. cbn [fmap list_fmap app]. rewrite <- Hd at 1.
    apply shift_down_run. rewrite !length_app, !length_cons, !length_app, !length_fmap. simpl. lia.
  - by exists (Null :: rest).
  - apply Permutation_middle.
  - by rewrite <- Hd, !take_app_length.
  - rewrite !length_app, !length_fmap, !length_app. simpl. lia.
Qed.

(** The variables with another name. *)
Definition others (name : list Z) (strs : list (list Z)) : list (list Z) :=
  filter (λ s, matches_environment_variable s name = false) strs.

Lemma unsetenv_loop_run fuel is_owned name i used arr strs :
  holds arr strs → (is_owned = true → used = length strs) → (length strs < i + fuel)%nat →
  (i <= length strs)%nat → Forall (λ s, matches_environment_variable s name = false) (take i strs) →
  ∃ used' arr' strs', unsetenv_loop fuel is_owned name i used arr = Ret (used', arr') ∧
    holds arr' strs' ∧ strs' ≡ₚ others name strs ∧ length arr' = length arr ∧
    if is_owned then used' = length strs' else used' = used.
Proof.
  revert i used arr strs. induction fuel as [|fuel IH]; intros i used arr strs Hh Hu Hf Hi Hd; [lia|].
  cbn [unsetenv_loop]. unfold read_slot. destruct (strs !! i) as [s|] eqn:Hs.
  - rewrite (holds_lookup _ _ _ _ Hh Hs). cbn [mbind outcome_bind].
    pose proof (lookup_lt_Some _ _ _ Hs) as Hlt.
    destruct (matches_environment_variable s name) eqn:E.
    + assert (Hrm : ∃ arr' strs' used', (if is_owned then
          arr ← free_slot arr i;
          last ← (match arr !! (used - 1)%nat with Some x => Ret x | None => Undef end);
          arr ← write_slot arr i last;
          arr ← write_slot arr (used - 1) Null;
          Ret ((used - 1)%nat, arr)
        else arr ← shift_down (length arr) i arr; Ret (used, arr)) = Ret (used', arr') ∧
        holds arr' strs' ∧ s :: strs' ≡ₚ strs ∧ take i strs' = take i strs ∧ length arr' = length arr ∧
        (if is_owned then used' = length strs' else used' = used)).
      { destruct is_owned.
        - rewrite (Hu eq_refl). destruct (remove_owned arr strs i s Hh Hs) as (arr' & strs' & H1 & H2).
          exists arr', strs', (length strs'). destruct H2 as (? & ? & ? & ?). done.
        - destruct (remove_user arr strs i s Hh Hs) as (arr' & strs' & H1 & H2).
          exists arr', strs', used. rewrite H1. destruct H2 as (? & ? & ? & ?). done. }
      destruct Hrm as (arr' & strs' & used' & -> & Hh' & Hp & Ht & Hl & Hu').
      cbn [mbind outcome_bind].
      assert (Hlen : length strs = S (length strs')) by (by rewrite <- (Permutation_length Hp)).
      destruct (IH i used' arr' strs') as (u2 & arr2 & strs2 & Hr & Hh2 & Hp2 & Hl2 & Hu2);
        [done|by destruct is_owned|lia|lia|by rewrite Ht|].
      exists u2, arr2, strs2. split_and!; [done|done| |congruence|].
      * rewrite Hp2. unfold others. rewrite <- Hp. rewrite filter_cons_False; [done|congruence].
      * destruct is_owned; congruence.
    + apply IH; [done|done|lia|lia|]. rewrite (take_S_r _ _ _ Hs). apply Forall_app. split; [done|].
      by constructor.
  - apply lookup_ge_None in Hs. replace i with (length strs) in * by lia.
    rewrite (holds_end _ _ Hh). cbn [mbind outcome_bind].
    exists used, arr, strs. split_and!; [done|done| |done|by destruct is_owned; [apply Hu|]].
    rewrite firstn_all in Hd. unfold others. by rewrite filter_all.
Qed.

Lemma lookup_others name strs strs' : strs' ≡ₚ others name strs → env_lookup name strs' = None.
Proof.
  intros Hp. unfold env_lookup.
  destruct (list_find (λ s, matches_environment_variable s name = true) strs') as [[i s]|] eqn:E; [|done].
  apply list_find_Some in E as (Hs & Hm & _). exfalso.
  assert (Hin : s ∈ others name strs) by (rewrite <- Hp; by eapply list_elem_of_lookup_2).
  apply list_elem_of_filter in Hin as [Hf _]. congruence.
Qed.

(** [unsetenv] removes every entry of the name and keeps exactly the
    others, whoever owns the array, so that [getenv] of the name returns null
    afterwards; it terminates, and the environment stays sound. *)
Theorem unsetenv_removes e strs name :
  env_holds e strs → bad_name (Some name) = false →
  ∃ e' strs', unsetenv (Some name) e = Ret (EnvOk, e') ∧ env_holds e' strs' ∧
    strs' ≡ₚ others name strs ∧ getenv (Some name) e' = Ret (None, e').
Proof.
  intros He Hn.
  assert (Hgo : ∃ e' strs', unsetenv (Some name) e = Ret (EnvOk, e') ∧ env_holds e' strs' ∧
                            strs' ≡ₚ others name strs).
  { unfold unsetenv. rewrite Hn. pose proof He as [Hm He']. destruct (environ e) as [|arr|] eqn:E.
    - exists e, []. subst strs. done.
    - unfold environ_array, owned. rewrite E. cbn [mbind outcome_bind].
      pose proof (holds_length _ _ He').
      destruct (unsetenv_loop_run (S (length arr)) false name 0 (environ_used e) arr strs)
        as (u & arr' & strs' & -> & Hh' & Hp & Hl & Hu); [done|done|lia|lia|constructor|].
      cbn [mbind outcome_bind]. eexists _, strs'. split_and!; [done| |done].
      unfold set_array. rewrite E. split; [|done]. unfold malloced_ok in *. cbn. by rewrite Hu.
    - destruct (owns_iff e strs E He) as [arr (_ & Ea & Hh & Hl & Hu)].
      unfold environ_array, owned. rewrite E, Ea. cbn [mbind outcome_bind].
      pose proof (holds_length _ _ Hh).
      destruct (unsetenv_loop_run (S (length arr)) true name 0 (environ_used e) arr strs)
        as (u & arr' & strs' & -> & Hh' & Hp & Hl' & Hu'); [done|done|lia|lia|constructor|].
      cbn [mbind outcome_bind]. eexists _, strs'. split_and!; [done| |done].
      unfold set_array. rewrite E. apply (owns_holds _ arr'). split_and!; cbn; try done. congruence. }
  destruct Hgo as (e' & strs' & Hr & Hh & Hp). exists e', strs'. split_and!; [done|done|done|].
  rewrite (getenv_run e' strs' name Hh Hn). by rewrite (lookup_others name strs strs').
Qed.

Lemma unsetenv_removes_witness :
  ∃ e' strs', unsetenv (Some (lit "HOME")) example_env = Ret (EnvOk, e') ∧ env_holds e' strs' ∧
    strs' ≡ₚ others (lit "HOME") [lit "HOME=/root"; lit "TERM=sortix"] ∧
    getenv (Some (lit "HOME")) e' = Ret (None, e').
Proof.
  apply (unsetenv_removes example_env [lit "HOME=/root"; lit "TERM=sortix"] (lit "HOME")); [|by vm_compute].
  split; [done|]. by exists [].
Defined.

Lemma clearenv_run e strs :
  env_holds e strs → ∃ e', clearenv e = Ret (EnvOk, e') ∧ env_holds e' [].
Proof.
  intros He. pose proof He as [Hm He']. unfold clearenv. destruct (environ e) as [|arr|] eqn:E.
  - exists e. subst strs. done.
  - unfold write_slot. pose proof (holds_length _ _ He').
    destruct (lookup_lt_is_Some_2 arr 0 ltac:(lia)) as [x Hx]. rewrite Hx. cbn [mbind outcome_bind].
    eexists. split; [done|]. unfold set_array. rewrite E. split; [done|]. cbn.
    destruct arr as [|y arr]; [done|]. by exists arr.
  - destruct (owns_iff e strs E He) as [arr (_ & Ea & Hh & Hl & Hu)].
    unfold environ_array. rewrite E, Ea. cbn [mbind outcome_bind]. rewrite (strings_from_holds _ _ Hh).
    cbn [mbind outcome_bind]. pose proof (holds_length _ _ Hh). unfold write_slot.
    set (arr' := replicate (length strs) Freed ++ drop (length strs) arr).
    assert (Hl' : length arr' = length arr) by (unfold arr'; rewrite length_app, length_replicate, length_drop; lia).
    destruct (lookup_lt_is_Some_2 arr' 0 ltac:(lia)) as [x Hx]. rewrite Hx. cbn [mbind outcome_bind].
    eexists. split; [done|]. unfold set_array. rewrite E. apply (owns_holds _ (<[O := Null]> arr')).
    split_and!; cbn; try done; [|rewrite length_insert; lia].
    destruct arr' as [|y arr']; [done|]. by exists arr'.
Qed.

End Env.
