(* ===== verification/Printf.v ===== *)
(** * Formatted output: [vcbprintf], [vsnprintf], [vasprintf]

    [libc/stdio/vcbprintf.c] formats through a callback that receives the text
    piece by piece and reports how much it took; taking less stops the
    formatting.  The model separates the two sides: formatting is a program
    ([prog]) that emits pieces and never looks at the answers, and [run] plays
    it against a callback.  Arguments are a list of typed values; fetching one
    of another type, signed overflow of a field width and reading past a string
    are undefined. *)

From S2P Require Import Prelude Memory Ctype Wchar Strtol.
From stdpp Require Import base decidable list numbers strings.
From Stdlib Require Import ZArith Lia Ascii.

#[local] Open Scope c_scope.
#[local] Open Scope Z_scope.

Module Printf.

(** ** Programs that emit *)

Inductive prog (A : Type) : Type :=
| PRet (a : A)
| PEmit (s : list Z) (k : prog A)
| PFail
| PUndef.
Arguments PRet {A} _.
Arguments PEmit {A} _ _.
Arguments PFail {A}.
Arguments PUndef {A}.

Fixpoint prog_bind {A B} (p : prog A) (f : A → prog B) : prog B :=
  match p with
  | PRet a => f a
  | PEmit s k => PEmit s (prog_bind k f)
  | PFail => PFail
  | PUndef => PUndef
  end.

(** An argument of the [...]: an integer of a width, a string or wide string
    with what follows it in memory, a pointer value, or the address of an object
    for the [n] conversion. *)
Inductive vararg :=
| VInt (width v : Z)
| VStr (s : option (list Z))
| VWStr (s : option (list Z))
| VPtr (p : Z)
| VObj (id : Z)
| VFloat (long_double : bool).

(** The argument list, [written] and the stores the [n] conversion made. *)
Record pstate := PState { args : list vararg; written : Z; stores : list (Z * Z) }.

Definition P (A : Type) : Type := pstate → prog (A * pstate).

#[global] Instance P_ret : MRet P := λ A a st, PRet (a, st).
#[global] Instance P_bind : MBind P := λ A B f p st, prog_bind (p st) (λ '(a, st), f a st).

Definition fail {A} : P A := λ _, PFail.
Definition undef {A} : P A := λ _, PUndef.
Definition lift {A} (o : outcome A) : P A := λ st,
  match o with Ret a => PRet (a, st) | _ => PUndef end.

(** [if ( callback(ctx, s, n) != n ) return -1; written += n;] *)
Definition emit (s : list Z) : P () := λ st,
  PEmit s (PRet ((), PState (args st) (u64 (written st + Z.of_nat (length s))) (stores st))).

(** [for ( i = from; i < to; i++ )] around a callback with one character. *)
Fixpoint emit_times (n : nat) (c : Z) : P () :=
  match n with O => mret () | S n => emit [c];; emit_times n c end.

Definition emit_pad (c from to : Z) : P () := emit_times (Z.to_nat (to - from)) c.

(** ** [va_arg] *)

Definition next_arg : P vararg := λ st,
  match args st with
  | [] => PUndef
  | a :: l => PRet (a, PState l (written st) (stores st))
  end.

Definition arg_signed (w : Z) : P Z :=
  a ← next_arg; match a with VInt w' v => if w' =? w then mret (wraps w v) else undef | _ => undef end.

Definition arg_unsigned (w : Z) : P Z :=
  a ← next_arg; match a with VInt w' v => if w' =? w then mret (wrapu w v) else undef | _ => undef end.

Definition arg_ptr : P Z := a ← next_arg; match a with VPtr p => mret (u64 p) | _ => undef end.
Definition arg_obj : P Z := a ← next_arg; match a with VObj p => mret p | _ => undef end.
Definition arg_float (long_double : bool) : P () :=
  a ← next_arg; match a with VFloat b => if Bool.eqb b long_double then mret () else undef | _ => undef end.

(** ** Digits *)

(** [while ( base <= copy ) copy /= base, result++;] *)
Fixpoint count_digits (fuel : nat) (base copy result : Z) : outcome Z :=
  match fuel with
  | O => OutOfFuel
  | S fuel => if base <=? copy then count_digits fuel base (copy / base) (result + 1) else Ret result
  end.

(** [for ( i = result; i != 0; i-- )]: the digits from the last on. *)
Fixpoint fill_digits (n : nat) (base : Z) (digits : list Z) (value : Z) (acc : list Z) : outcome (list Z) :=
  match n with
  | O => Ret acc
  | S n =>
      d ← (match digits !! Z.to_nat (value mod base) with Some d => Ret d | None => Undef end);
      fill_digits n base digits (value / base) (d :: acc)
  end.

(** A value has at most 64 digits; [size] is the size of [destination]. *)
Definition convert_integer (size : Z) (value base : Z) (digits : list Z) : outcome (list Z) :=
  result ← count_digits 65 base value 1;
  if size <? result then Undef
  else fill_digits (Z.to_nat result) base digits value [].

Definition lower_digits : list Z := lit "0123456789abcdef".
Definition upper_digits : list Z := lit "0123456789ABCDEF".

(** ** The directive *)

Definition char_at (format : list Z) : P Z :=
  lift (match format with c :: _ => Ret c | [] => Undef end).

Record flags := Flags {
  alternate : bool; zero_pad : bool; field_width_is_negative : bool;
  prepend_blank_if_positive : bool; prepend_plus_if_positive : bool
}.

Fixpoint parse_flags (format : list Z) (f : flags) : P (flags * list Z) :=
  match format with
  | [] => undef
  | c :: rest =>
      if c =? ch "#" then
        parse_flags rest (Flags true (zero_pad f) (field_width_is_negative f) (prepend_blank_if_positive f) (prepend_plus_if_positive f))
      else if c =? ch "0" then
        parse_flags rest (Flags (alternate f) true (field_width_is_negative f) (prepend_blank_if_positive f) (prepend_plus_if_positive f))
      else if c =? ch "-" then
        parse_flags rest (Flags (alternate f) (zero_pad f) true (prepend_blank_if_positive f) (prepend_plus_if_positive f))
      else if c =? ch " " then
        parse_flags rest (Flags (alternate f) (zero_pad f) (field_width_is_negative f) true (prepend_plus_if_positive f))
      else if c =? ch "+" then
        parse_flags rest (Flags (alternate f) (zero_pad f) (field_width_is_negative f) (prepend_blank_if_positive f) true)
      else if (c =? ch "'") || (c =? ch "I") then parse_flags rest f
      else mret (f, format)
  end.

(** [while ( '0' <= *format && *format <= '9' ) field_width = 10 * field_width + *format++ - '0';] in [int]. *)
Fixpoint parse_width (format : list Z) (field_width : Z) : P (Z * list Z) :=
  match format with
  | [] => undef
  | c :: rest =>
      if Ctype.isdigit c then
        t ← lift (checked 32 (10 * field_width));
        t ← lift (checked 32 (t + c));
        parse_width rest (t - ch "0")
      else mret (field_width, format)
  end.

(** The same in [size_t]. *)
Fixpoint parse_precision (format : list Z) (precision : Z) : P (Z * list Z) :=
  match format with
  | [] => undef
  | c :: rest =>
      if Ctype.isdigit c then parse_precision rest (u64 (10 * precision + c - ch "0"))
      else mret (precision, format)
  end.

Fixpoint skip_digits (format : list Z) : P (list Z) :=
  match format with
  | [] => undef
  | c :: rest => if Ctype.isdigit c then skip_digits rest else mret format
  end.

Definition field_width (f : flags) (format : list Z) : P (Z * list Z) :=
  c ← char_at format;
  '(w, format) ← (if c =? ch "*"
                  then w ← arg_signed 32; mret (w, drop 1 format)
                  else parse_width format 0);
  w ← (if field_width_is_negative f then lift (checked 32 (- w)) else mret w);
  mret (w, format).

Definition precision (format : list Z) : P (Z * list Z) :=
  c ← char_at format;
  if c =? ch "." then
    let format := drop 1 format in
    c ← char_at format;
    if c =? ch "*" then
      int_precision ← arg_signed 32;
      mret (if 0 <=? int_precision then int_precision else SIZE_MAX, drop 1 format)
    else if c =? ch "-" then
      format ← skip_digits (drop 1 format); mret (SIZE_MAX, format)
    else parse_precision format 0
  else mret (SIZE_MAX, format).

Inductive length_modifier :=
| LENGTH_SHORT_SHORT | LENGTH_SHORT | LENGTH_DEFAULT | LENGTH_LONG | LENGTH_LONG_LONG
| LENGTH_LONG_DOUBLE | LENGTH_INTMAX_T | LENGTH_SIZE_T | LENGTH_PTRDIFF_T.

#[global] Instance length_modifier_eq_dec : EqDecision length_modifier.
Proof. solve_decision. Defined.

Definition length_modifiers : list (list Z * length_modifier) := [
  (lit "hh", LENGTH_SHORT_SHORT); (lit "h", LENGTH_SHORT); ([], LENGTH_DEFAULT);
  (lit "l", LENGTH_LONG); (lit "ll", LENGTH_LONG_LONG); (lit "L", LENGTH_LONG_DOUBLE);
  (lit "j", LENGTH_INTMAX_T); (lit "z", LENGTH_SIZE_T); (lit "t", LENGTH_PTRDIFF_T)].

(** The loop over the table: the longest name that starts the format wins. *)
Fixpoint find_length (table : list (list Z * length_modifier)) (format : list Z)
    (length_ : length_modifier) (length_length : nat) : length_modifier * nat :=
  match table with
  | [] => (length_, length_length)
  | (name, l) :: table =>
      if (length name <? length_length)%nat then find_length table format length_ length_length
      else if negb (bool_decide (take (length name) format = name)) then find_length table format length_ length_length
      else find_length table format l (length name)
  end.

(** The width in bits of the integer type a modifier selects; [char] and
    [short] arguments are promoted to [int]. *)
Definition int_width (l : length_modifier) : option Z :=
  match l with
  | LENGTH_SHORT_SHORT | LENGTH_SHORT | LENGTH_DEFAULT => Some 32
  | LENGTH_LONG | LENGTH_LONG_LONG | LENGTH_INTMAX_T | LENGTH_SIZE_T | LENGTH_PTRDIFF_T => Some 64
  | LENGTH_LONG_DOUBLE => None
  end.

(** How a directive ends: handled, up to this point of the format; not
    understood; or understood but not supported. *)
Inductive dir_result :=
| Handled (format : list Z)
| Incomprehensible
| Unsupported.

(** The layout of an integer: its sign and base prefix, its digits, padding. *)
Definition format_integer (f : flags) (width prec : Z) (conversion value : Z) (negative_value : bool) : P () :=
  let digits := if conversion =? ch "X" then upper_digits else lower_digits in
  let hex := (conversion =? ch "x") || (conversion =? ch "X") in
  let base := if hex then 16 else if conversion =? ch "o" then 8 else 10 in
  let sign :=
    if negative_value then [ch "-"]
    else if prepend_plus_if_positive f then [ch "+"]
    else if prepend_blank_if_positive f then [ch " "] else [] in
  let prefix_digits :=
    (if alternate f && hex && negb (value =? 0) then [ch "0"; conversion] else []) ++
    (if alternate f && (conversion =? ch "o") && negb (value =? 0) then [ch "0"] else []) in
  let prefix := sign ++ prefix_digits in
  output ← lift (convert_integer 24 value base digits);
  let output := if (prec =? 0) && bool_decide (output = [ch "0"]) then [] else output in
  let output_length := Z.of_nat (length output) in
  let prefix_length := Z.of_nat (length prefix) in
  let output_length_with_precision :=
    if negb (prec =? SIZE_MAX) && (output_length <? prec) then prec else output_length in
  let digits_length := Z.of_nat (length prefix_digits) + output_length in
  let normal_length := prefix_length + output_length in
  let length_with_precision := u64 (prefix_length + output_length_with_precision) in
  let use_precision := negb (prec =? SIZE_MAX) in
  let use_zero_pad := zero_pad f && (0 <=? width) && negb use_precision in
  let use_left_pad := negb use_zero_pad && (0 <=? width) in
  let use_right_pad := negb use_zero_pad && (width <? 0) in
  let abs_field_width := Z.abs width in
  (if use_left_pad then emit_pad (ch " ") length_with_precision abs_field_width else mret ());;
  emit prefix;;
  (if use_zero_pad then emit_pad (ch "0") normal_length abs_field_width else mret ());;
  (if use_precision then emit_pad (ch "0") digits_length prec else mret ());;
  emit output;;
  (if use_right_pad then emit_pad (ch " ") length_with_precision abs_field_width else mret ()).

Definition convert_int (f : flags) (width prec : Z) (l : length_modifier) (conversion : Z) (rest : list Z)
    : P dir_result :=
  if conversion =? ch "p" then
    value ← arg_ptr;
    format_integer (Flags (negb (alternate f)) (zero_pad f) (field_width_is_negative f) false false)
      width prec (ch "x") value false;;
    mret (Handled rest)
  else
    match int_width l with
    | None => mret Incomprehensible
    | Some w =>
        if (conversion =? ch "i") || (conversion =? ch "d") then
          signed_value ← arg_signed w;
          let negative_value := signed_value <? 0 in
          let value := if negative_value then u64 (- signed_value) else signed_value in
          format_integer f width prec conversion value negative_value;;
          mret (Handled rest)
        else
          value ← (match l with
                   | LENGTH_PTRDIFF_T => v ← arg_signed w; mret (u64 v)
                   | _ => arg_unsigned w
                   end);
          format_integer (Flags (alternate f) (zero_pad f) (field_width_is_negative f) false false)
            width prec conversion value false;;
          mret (Handled rest)
    end.

Definition convert_float (l : length_modifier) : P dir_result :=
  match l with
  | LENGTH_DEFAULT => arg_float false;; mret Unsupported
  | LENGTH_LONG_DOUBLE => arg_float true;; mret Unsupported
  | _ => mret Incomprehensible
  end.

(** The padding before and after a character or string of length [n]. *)
Definition pad_before (f : flags) (n width : Z) : P () :=
  if negb (field_width_is_negative f) && (n <? Z.abs width) then emit_pad (ch " ") n (Z.abs width) else mret ().
Definition pad_after (f : flags) (n width : Z) : P () :=
  if field_width_is_negative f && (n <? Z.abs width) then emit_pad (ch " ") n (Z.abs width) else mret ().

Definition convert_char (f : flags) (width : Z) (l : length_modifier) (rest : list Z) : P dir_result :=
  let output (bytes : list Z) :=
    pad_before f 1 width;; emit bytes;; pad_after f 1 width;; mret (Handled rest) in
  match l with
  | LENGTH_DEFAULT => v ← arg_signed 32; output [u8 v]
  | LENGTH_LONG =>
      v ← arg_unsigned 32;
      match Utf8.wcrtomb false (s32 v) with
      | Utf8.WcBytes bytes => output bytes
      | _ => fail
      end
  | _ => mret Incomprehensible
  end.

(** [for ( i = 0; i < precision && string[i]; i++ ) string_length++;] *)
Fixpoint string_length (s : list Z) (prec : Z) : outcome nat :=
  if prec <=? 0 then Ret O
  else
    match s with
    | [] => Undef
    | c :: s => if c =? 0 then Ret O else n ← string_length s (prec - 1); Ret (S n)
    end.

Fixpoint emit_wide (ws : list Z) : P () :=
  match ws with
  | [] => mret ()
  | wc :: ws =>
      match Utf8.wcrtomb false wc with
      | Utf8.WcBytes bytes => emit bytes;; emit_wide ws
      | _ => fail
      end
  end.

(** [errno_message] is [strerror(errno)]. *)
Definition convert_string (errno_message : list Z) (f : flags) (width prec : Z) (l : length_modifier)
    (conversion : Z) (rest : list Z) : P dir_result :=
  let output (text : list Z) (body : list Z → P ()) :=
    n ← lift (string_length text prec);
    pad_before f (Z.of_nat n) width;;
    body (take n text);;
    pad_after f (Z.of_nat n) width;;
    mret (Handled rest) in
  if conversion =? ch "m" then output (errno_message ++ [0]) emit
  else
    match l with
    | LENGTH_DEFAULT =>
        a ← next_arg;
        match a with
        | VStr s => output (default (lit "(null)" ++ [0]) s) emit
        | _ => undef
        end
    | LENGTH_LONG =>
        a ← next_arg;
        match a with
        | VWStr (Some s) => output s emit_wide
        | VWStr None => output (lit "(null)" ++ [0]) emit
        | _ => undef
        end
    | _ => mret Incomprehensible
    end.

Definition record_store (id : Z) (conv : Z → Z) : P () := λ st,
  PRet ((), PState (args st) (written st) (stores st ++ [(id, conv (written st))])).

(** The [n] conversion: what was written so far is stored through the pointer
    argument, converted to the type the length modifier names. *)
Definition convert_n (l : length_modifier) (rest : list Z) : P dir_result :=
  let save (conv : Z → Z) : P dir_result :=
    id ← arg_obj;
    record_store id conv;;
    mret (Handled rest) in
  match l with
  | LENGTH_SHORT_SHORT => save s8
  | LENGTH_SHORT => save s16
  | LENGTH_DEFAULT => save s32
  | LENGTH_LONG | LENGTH_LONG_LONG | LENGTH_PTRDIFF_T => save s64
  | LENGTH_INTMAX_T | LENGTH_SIZE_T => save u64
  | LENGTH_LONG_DOUBLE => mret Incomprehensible
  end.

Definition is_one_of (c : Z) (set : list Z) : bool := bool_decide (c ∈ set).

(** One conversion, from the character after the percent sign. *)
Definition directive (errno_message : list Z) (format : list Z) : P dir_result :=
  '(f, format) ← parse_flags format (Flags false false false false false);
  '(width, format) ← field_width f format;
  lift (checked 32 (Z.abs width));;
  '(prec, format) ← precision format;
  let '(l, length_length) := find_length length_modifiers format LENGTH_DEFAULT O in
  let format := drop length_length format in
  c ← char_at format;
  let rest := drop 1 format in
  if is_one_of c (lit "diouxXp") then convert_int f width prec l c rest
  else if is_one_of c (lit "eEfFgGaA") then convert_float l
  else if c =? ch "c" then convert_char f width l rest
  else if is_one_of c (lit "ms") then convert_string errno_message f width prec l c rest
  else if c =? ch "n" then convert_n l rest
  else mret Incomprehensible.

(** The text up to the next percent sign or the end. *)
Fixpoint literal (format : list Z) : outcome (list Z * list Z) :=
  match format with
  | [] => Undef
  | c :: rest =>
      if (c =? 0) || (c =? ch "%") then Ret ([], format)
      else '(text, rest) ← literal rest; Ret (c :: text, rest)
  end.

(** [print_c]: at least one character. *)
Definition print_c (format : list Z) : P (list Z) :=
  match format with
  | [] => undef
  | c :: rest => '(text, rest) ← lift (literal rest); emit (c :: text);; mret rest
  end.

Fixpoint vcbprintf_loop (fuel : nat) (errno_message format : list Z) (rejected_bad_specifier : bool) : P () :=
  match fuel with
  | O => undef
  | S fuel =>
      c ← char_at format;
      if c =? 0 then mret ()
      else if negb (c =? ch "%") then
        format ← print_c format; vcbprintf_loop fuel errno_message format rejected_bad_specifier
      else
        let format_begun_at := format in
        let format := drop 1 format in
        c ← char_at format;
        if c =? ch "%" then
          format ← print_c format; vcbprintf_loop fuel errno_message format rejected_bad_specifier
        else if rejected_bad_specifier then
          format ← print_c format_begun_at; vcbprintf_loop fuel errno_message format true
        else
          r ← directive errno_message format;
          match r with
          | Handled format => vcbprintf_loop fuel errno_message format false
          | Incomprehensible =>
              format ← print_c format_begun_at; vcbprintf_loop fuel errno_message format true
          | Unsupported =>
              format ← print_c format_begun_at; vcbprintf_loop fuel errno_message format false
          end
  end.

(** The formatting program of a call: its value is the number of characters. *)
Definition vcbprintf_prog (errno_message format : list Z) (parameters : list vararg) : prog (Z * pstate) :=
  prog_bind (vcbprintf_loop (length format) errno_message format false (PState parameters 0 []))
    (λ '(_, st), if INT_MAX <? written st then PFail else PRet (written st, st)).

(** ** Callbacks *)

(** A callback takes the context and a piece and says how much it took. *)
Definition callback (C : Type) : Type := C → list Z → outcome (Z * C).

(** The program against a callback: [None] is the return value -1. *)
Fixpoint run {C A} (cb : callback C) (ctx : C) (p : prog A) : outcome (option A * C) :=
  match p with
  | PRet a => Ret (Some a, ctx)
  | PEmit s k =>
      '(n, ctx) ← cb ctx s;
      if n =? Z.of_nat (length s) then run cb ctx k else Ret (None, ctx)
  | PFail => Ret (None, ctx)
  | PUndef => Undef
  end.

Definition noop_callback : callback () := λ ctx s, Ret (Z.of_nat (length s), ctx).

(** The return value with the final context and the stores made. *)
Definition vcbprintf {C} (cb : callback C) (ctx : C) (errno_message format : list Z) (parameters : list vararg)
    : outcome (Z * C) :=
  '(r, ctx) ← run cb ctx (vcbprintf_prog errno_message format parameters);
  Ret (match r with Some (n, _) => n | None => -1 end, ctx).

(** [struct vsnprintf]: the buffer, its usable size and what was written. *)
Record vsnprintf_state := VsnState { vsn_str : list Z; vsn_size : Z; vsn_written : Z }.

Definition vsnprintf_callback : callback vsnprintf_state := λ state string,
  let length_ := Z.of_nat (length string) in
  if (1 <=? vsn_size state) && (vsn_written state <? vsn_size state) then
    let available := vsn_size state - vsn_written state in
    let possible := if length_ <? available then length_ else available in
    buf ← write_at (vsn_str state) (vsn_written state) (take (Z.to_nat possible) string);
    Ret (length_, VsnState buf (vsn_size state) (vsn_written state + possible))
  else Ret (length_, state).

Definition vsnprintf (str : list Z) (size : Z) (errno_message format : list Z) (parameters : list vararg)
    : outcome (Z * list Z) :=
  let state := VsnState str (if size =? 0 then 0 else size - 1) 0 in
  '(result, state) ← vcbprintf vsnprintf_callback state errno_message format parameters;
  if 1 <=? size then
    buf ← write_at (vsn_str state) (vsn_written state) [0];
    Ret (result, buf)
  else Ret (result, vsn_str state).

Definition vsprintf (str : list Z) := vsnprintf str SIZE_MAX.

(** [struct vasprintf]; [None] for a freed buffer.  Each reallocation takes its
    outcome from the list. *)
Record vasprintf_state := VasState { vas_buffer : option (list Z); vas_used : Z; vas_size : Z; vas_allocs : list bool }.

Definition vasprintf_callback : callback vasprintf_state := λ state string,
  match vas_buffer state with
  | None => Undef
  | Some buffer =>
      let length_ := Z.of_nat (length string) in
      let needed_size := vas_used state + length_ + 1 in
      let new_size := Z.max (2 * vas_size state) needed_size in
      '(grown, state) ←
        (if vas_size state <? needed_size then
           let ok := match vas_allocs state with b :: _ => b | [] => true end in
           let allocs := drop 1 (vas_allocs state) in
           if (ok : bool)
           then Ret (true, VasState (Some (buffer ++ replicate (Z.to_nat (new_size - vas_size state)) 0))
                             (vas_used state) new_size allocs)
           else Ret (false, VasState None (vas_used state) (vas_size state) allocs)
         else Ret (true, state));
      if negb (grown : bool) then Ret (0, state)
      else
        match vas_buffer state with
        | None => Undef
        | Some buffer =>
            buffer ← write_at buffer (vas_used state) string;
            Ret (length_, VasState (Some buffer) (vas_used state + length_) (vas_size state) (vas_allocs state))
        end
  end.

(** The return value and the string, if one was allocated. *)
Definition vasprintf (allocs : list bool) (errno_message format : list Z) (parameters : list vararg)
    : outcome (Z * option (list Z)) :=
  let ok := match allocs with b :: _ => b | [] => true end in
  if negb ok then Ret (-1, None)
  else
    let state := VasState (Some (replicate 32 0)) 0 32 (drop 1 allocs) in
    '(result, state) ← vcbprintf vasprintf_callback state errno_message format parameters;
    match vas_buffer state with
    | None => Ret (-1, None)
    | Some buffer =>
        buffer ← write_at buffer (vas_used state) [0];
        Ret (result, Some buffer)
    end.

(** ** Sinks

    A callback that always takes what it is given, related to the text it
    received. *)

Class Sink {C} (cb : callback C) (R : C → list Z → Prop) : Prop :=
  sink_accepts c o s : R c o → ∃ c', cb c s = Ret (Z.of_nat (length s), c') ∧ R c' (o ++ s).

(** The reference sink collects the text. *)
Definition collect : callback (list Z) := λ o s, Ret (Z.of_nat (length s), o ++ s).

#[global] Instance collect_sink : Sink collect eq.
Proof. intros c o s ->. by exists (o ++ s). Qed.

#[global] Instance noop_sink : Sink noop_callback (λ _ _, True).
Proof. intros [] o s _. by exists (). Qed.

(** A sink sees exactly the text the reference collects, and the call returns
    the same value. *)
Lemma run_sink {C A} (cb : callback C) R `{!Sink cb R} (p : prog A) c o :
  R c o →
  match run collect o p with
  | Ret (r, o') => ∃ c', run cb c p = Ret (r, c') ∧ R c' o'
  | Undef => run cb c p = Undef
  | OutOfFuel => False
  end.
Proof.
  revert c o. induction p as [a|s k IH| |]; intros c o Hc; cbn [run]; [by exists c| |by exists c|done].
  destruct (sink_accepts c o s Hc) as (c' & -> & Hc'). cbn [collect mbind outcome_bind].
  rewrite Z.eqb_refl. by apply IH.
Qed.

(** The text and the return value of a call. *)
Definition formatted (errno_message format : list Z) (parameters : list vararg) : outcome (Z * list Z) :=
  vcbprintf collect [] errno_message format parameters.

Lemma vcbprintf_sink {C} (cb : callback C) R `{!Sink cb R} c errno_message format parameters r o :
  R c [] → formatted errno_message format parameters = Ret (r, o) →
  ∃ c', vcbprintf cb c errno_message format parameters = Ret (r, c') ∧ R c' o.
Proof.
  intros Hc Hf. unfold formatted, vcbprintf in *.
  pose proof (run_sink cb R (vcbprintf_prog errno_message format parameters) c [] Hc) as Hrun.
  destruct (run collect [] _) as [[r' o']| |]; cbn [mbind outcome_bind] in Hf; try done.
  destruct Hrun as (c' & -> & Hc'). injection Hf as <- <-. exists c'. done.
Qed.

(** ** [vsnprintf] *)

(** The state after the text [o]: what fits of it, in front of the old rest. *)
Definition vsn_rel (str : list Z) (size : Z) (state : vsnprintf_state) (o : list Z) : Prop :=
  let w := Nat.min (Z.to_nat size) (length o) in
  state = VsnState (take w o ++ drop w str) size (Z.of_nat w).

Lemma vsn_sink str size :
  0 <= size <= Z.of_nat (length str) → Sink vsnprintf_callback (vsn_rel str size).
Proof.
  intros Hsize c o s ->. unfold vsnprintf_callback.
  cbn [vsn_str vsn_size vsn_written]. set (w := Nat.min (Z.to_nat size) (length o)).
  destruct ((1 <=? size) && (Z.of_nat w <? size)) eqn:E; b2p.
  - assert (Hw : w = length o) by lia.
    set (possible := if Z.of_nat (length s) <? size - Z.of_nat w then Z.of_nat (length s) else size - Z.of_nat w).
    assert (Hp : 0 <= possible) by (unfold possible; case_if; lia).
    assert (Hwp : (w + Z.to_nat possible)%nat = Nat.min (Z.to_nat size) (length (o ++ s))).
    { rewrite length_app. unfold possible. case_if; lia. }
    assert (Hps : (Z.to_nat possible <= length s)%nat) by (unfold possible; case_if; lia).
    eexists. split.
    + rewrite write_at_prefix; [|rewrite length_take; lia|rewrite length_take, length_drop; lia].
      cbn [mbind outcome_bind]. done.
    + unfold vsn_rel. cbv zeta. rewrite <- Hwp. f_equal; [|lia].
      rewrite length_take, Nat.min_l, drop_drop by lia.
      rewrite (firstn_all2 o (n := w)), (take_app_ge o) by lia. rewrite <- app_assoc.
      by replace (w + Z.to_nat possible - length o)%nat with (Z.to_nat possible) by lia.
  - exists (VsnState (take w o ++ drop w str) size (Z.of_nat w)). split; [done|].
    unfold vsn_rel. cbv zeta. replace (Nat.min (Z.to_nat size) (length (o ++ s))) with w.
    + by rewrite take_app_le by lia.
    + rewrite length_app. lia.
  - exists (VsnState (take w o ++ drop w str) size (Z.of_nat w)). split; [done|].
    unfold vsn_rel. cbv zeta. replace (Nat.min (Z.to_nat size) (length (o ++ s))) with w.
    + by rewrite take_app_le by lia.
    + rewrite length_app. lia.
Qed.

Lemma vsnprintf_run str errno_message format parameters r text :
  formatted errno_message format parameters = Ret (r, text) →
  let size := length str in
  vsnprintf str (Z.of_nat size) errno_message format parameters =
  Ret (r, if (size =? 0)%nat then str
          else take (size - 1) text ++ [0] ++ drop (S (Nat.min (size - 1) (length text))) str).
Proof.
  intros Hf size. unfold vsnprintf.
  set (n := if Z.of_nat size =? 0 then 0 else Z.of_nat size - 1).
  assert (Hn : 0 <= n <= Z.of_nat (length str)) by (unfold n, size; case_if; lia).
  pose proof (vsn_sink str n Hn) as Hsink.
  destruct (vcbprintf_sink vsnprintf_callback (vsn_rel str n)
    (VsnState str n 0) errno_message format parameters r text) as (st & Hrun & Hst); [|done|].
  { unfold vsn_rel. cbv zeta. cbn [length]. by rewrite Nat.min_0_r. }
  rewrite Hrun. cbn [mbind outcome_bind]. unfold vsn_rel in Hst. cbv zeta in Hst. subst st.
  cbn [vsn_str vsn_written].
  destruct (Nat.eqb_spec size 0) as [H0|H0].
  - rewrite (proj2 (Z.leb_gt _ _)) by lia. assert (n = 0) as -> by (unfold n; case_if; lia). done.
  - rewrite (proj2 (Z.leb_le _ _)) by lia.
    assert (Hn' : Z.to_nat n = (size - 1)%nat) by (unfold n; rewrite (proj2 (Z.eqb_neq _ _)) by lia; lia).
    rewrite Hn'. set (w := Nat.min (size - 1) (length text)).
    assert (Hlen : length (take w text) = w) by (rewrite length_take; lia).
    rewrite write_at_prefix by (rewrite ?length_drop, ?Hlen; simpl; lia).
    cbn [mbind outcome_bind length]. rewrite drop_drop. do 3 f_equal.
    + unfold w. rewrite <- take_take. by rewrite (firstn_all2 text (n := length text)) by lia.
    + f_equal. f_equal. lia.
Qed.

(** ** The count *)

(** Emitting keeps [written] at the number of bytes emitted so far. *)
Fixpoint counts {A} (w : Z) (p : prog (A * pstate)) : Prop :=
  match p with
  | PRet (_, st) => written st = u64 w
  | PEmit s k => counts (w + Z.of_nat (length s)) k
  | _ => True
  end.

Definition counting {A} (p : P A) : Prop := ∀ st w, written st = u64 w → counts w (p st).

Lemma counting_bind {A B} (p : P A) (f : A → P B) :
  counting p → (∀ a, counting (f a)) → counting (p ≫= f).
Proof.
  intros Hp Hf st w Hw. specialize (Hp st w Hw). unfold mbind, P_bind. clear Hw. revert w Hp.
  induction (p st) as [[a st']|s k IH| |]; intros w Hp; cbn in *; [by apply Hf|by apply IH|done..].
Qed.

Lemma counting_ret {A} (a : A) : counting (mret a).
Proof. by intros st w Hw. Qed.

Lemma counting_lift {A} (o : outcome A) : counting (lift o).
Proof. intros st w Hw. by destruct o. Qed.

Lemma counting_undef {A} : counting (undef (A := A)).
Proof. done. Qed.

Lemma counting_fail {A} : counting (fail (A := A)).
Proof. done. Qed.

Lemma counting_next : counting next_arg.
Proof. intros st w Hw. unfold next_arg. by destruct (args st). Qed.

Lemma counting_store id conv : counting (record_store id conv).
Proof. by intros st w Hw. Qed.

Lemma counting_emit s : counting (emit s).
Proof. intros st w Hw. cbn. rewrite Hw. unfold u64, wrapu. by rewrite Zplus_mod_idemp_l. Qed.

Create HintDb counting discriminated.
#[local] Hint Resolve counting_ret counting_lift counting_undef counting_fail counting_next counting_store counting_emit : counting.
#[local] Hint Extern 2 (counting (_ ≫= _)) => apply counting_bind; [|intros] : counting.
#[local] Hint Extern 3 (counting (match _ with _ => _ end)) => case_match : counting.
#[local] Hint Extern 3 (counting (let _ := _ in _)) => cbv zeta : counting.

Lemma counting_times n c : counting (emit_times n c).
Proof. induction n as [|n IH]; cbn [emit_times]; auto with counting. Qed.
#[local] Hint Resolve counting_times : counting.
#[local] Hint Extern 2 (counting (emit_pad _ _ _)) => apply counting_times : counting.

Lemma counting_flags format f : counting (parse_flags format f).
Proof. revert f. induction format as [|c format IH]; intros f; cbn [parse_flags]; auto 10 with counting. Qed.

Lemma counting_width format w : counting (parse_width format w).
Proof. revert w. induction format as [|c format IH]; intros w; cbn [parse_width]; auto 10 with counting. Qed.

Lemma counting_precision format n : counting (parse_precision format n).
Proof. revert n. induction format as [|c format IH]; intros n; cbn [parse_precision]; auto 10 with counting. Qed.

Lemma counting_skip format : counting (skip_digits format).
Proof. induction format as [|c format IH]; cbn [skip_digits]; auto 10 with counting. Qed.

Lemma counting_wide ws : counting (emit_wide ws).
Proof. induction ws as [|c ws IH]; cbn [emit_wide]; auto 10 with counting. Qed.
#[local] Hint Resolve counting_flags counting_width counting_precision counting_skip counting_wide : counting.

Lemma counting_integer f width prec conversion value negative : counting (format_integer f width prec conversion value negative).
Proof. unfold format_integer. cbv zeta. auto 30 with counting. Qed.
#[local] Hint Resolve counting_integer : counting.

Lemma counting_directive errno_message format : counting (directive errno_message format).
Proof.
  unfold directive, field_width, precision, char_at, convert_int, convert_float, convert_char, convert_string, convert_n,
    arg_signed, arg_unsigned, arg_ptr, arg_obj, arg_float, pad_before, pad_after.
  auto 50 with counting.
Qed.
#[local] Hint Resolve counting_directive : counting.

Lemma counting_loop fuel errno_message format rejected : counting (vcbprintf_loop fuel errno_message format rejected).
Proof.
  revert format rejected. induction fuel as [|fuel IH]; intros format rejected; cbn [vcbprintf_loop]; [done|].
  unfold char_at, print_c. auto 30 with counting.
Qed.

(** The text a call produces, and whether formatting came to the end of the format:
    it stops early only at a wide character that has no encoding. *)
Definition format_text (errno_message format : list Z) (parameters : list vararg) : outcome (bool * list Z) :=
  '(r, text) ← run collect [] (vcbprintf_loop (length format) errno_message format false (PState parameters 0 []));
  Ret (match r with Some _ => true | None => false end, text).

(** What [vcbprintf] returns for the text. *)
Definition text_result (complete : bool) (text : list Z) : Z :=
  if complete && (Z.of_nat (length text) <=? INT_MAX) then Z.of_nat (length text) else -1.

(** The text of a program that counts, and its count. *)
Lemma run_counts {A} (p : prog (A * pstate)) o w :
  counts w p →
  match run collect o p with
  | Ret (Some (_, st), o') => written st = u64 (w + Z.of_nat (length o') - Z.of_nat (length o))
  | _ => True
  end.
Proof.
  revert o w. induction p as [[a st]|s k IH| |]; intros o w Hc; cbn [run]; try done.
  - cbn in Hc. rewrite Hc. f_equal. lia.
  - cbn [collect mbind outcome_bind]. rewrite Z.eqb_refl. specialize (IH (o ++ s) _ Hc).
    destruct (run collect (o ++ s) k) as [[[[a st]|] o']| |]; try done. rewrite IH, length_app. f_equal. lia.
Qed.

Lemma run_bind {A B} (p : prog A) (f : A → prog B) o :
  run collect o (prog_bind p f) =
    ('(r, o) ← run collect o p; match r with Some a => run collect o (f a) | None => Ret (None, o) end).
Proof.
  revert o. induction p as [a|s k IH| |]; intros o; cbn [prog_bind run]; try done.
  cbn [collect mbind outcome_bind]. by rewrite Z.eqb_refl, IH.
Qed.

Lemma formatted_text errno_message format parameters complete text :
  format_text errno_message format parameters = Ret (complete, text) → Z.of_nat (length text) < 2 ^ 64 →
  formatted errno_message format parameters = Ret (text_result complete text, text).
Proof.
  unfold format_text, formatted, vcbprintf, vcbprintf_prog, text_result. rewrite run_bind.
  pose proof (run_counts _ [] 0 (counting_loop (length format) errno_message format false (PState parameters 0 []) 0 eq_refl)) as Hc.
  destruct (run collect [] _) as [[[[a st]|] o]| |]; cbn [mbind outcome_bind] in *; try done;
    intros [= <- <-] Hl; [|done]. cbn [andb].
  assert (Hw : written st = Z.of_nat (length o)).
  { rewrite Hc. cbn [length]. rewrite Z.add_0_l, Z.sub_0_r. apply wrapu_id. unfold in_u. lia. }
  rewrite Hw. unfold Z.ltb, Z.leb. rewrite (Z.compare_antisym INT_MAX). destruct (INT_MAX ?= _); done.
Qed.

(** C29.  [vsnprintf] into a buffer of [size] bytes stores the longest prefix of the
    text of the call that leaves room for the terminator, and the terminator;
    nothing is written outside the buffer, and with size 0 nothing at all.
    Whatever the size it returns the length of the whole text, or -1 if that is
    more than [INT_MAX] or if the text ends early at a wide character that
    cannot be encoded. *)
Theorem vsnprintf_truncates str errno_message format parameters complete text :
  format_text errno_message format parameters = Ret (complete, text) → Z.of_nat (length text) < 2 ^ 64 →
  let size := length str in
  vsnprintf str (Z.of_nat size) errno_message format parameters =
  Ret (if complete && (Z.of_nat (length text) <=? INT_MAX) then Z.of_nat (length text) else -1,
       if (size =? 0)%nat then str
       else take (size - 1) text ++ [0] ++ drop (S (Nat.min (size - 1) (length text))) str).
Proof. intros Ht Hl. by apply vsnprintf_run, formatted_text. Qed.

Lemma vsnprintf_truncates_witness :
  let size := length (replicate 4 (ch ".")) in
  vsnprintf (replicate 4 (ch ".")) (Z.of_nat size) [] (lit "x=%d;" ++ [0]) [VInt 32 (-57)] =
  Ret (if true && (Z.of_nat (length (lit "x=-57;")) <=? INT_MAX) then Z.of_nat (length (lit "x=-57;")) else -1,
       if (size =? 0)%nat then replicate 4 (ch ".")
       else take (size - 1) (lit "x=-57;") ++ [0] ++
            drop (S (Nat.min (size - 1) (length (lit "x=-57;")))) (replicate 4 (ch "."))).
Proof.
  apply (vsnprintf_truncates (replicate 4 (ch ".")) [] (lit "x=%d;" ++ [0]) [VInt 32 (-57)] true (lit "x=-57;"));
    vm_compute; reflexivity.
Defined.

(** ** [vasprintf] *)

(** The buffer starts with the text and has room for the terminator. *)
Definition vas_rel (state : vasprintf_state) (o : list Z) : Prop :=
  ∃ rest, vas_buffer state = Some (o ++ rest) ∧ vas_used state = Z.of_nat (length o) ∧
    vas_size state = Z.of_nat (length (o ++ rest)) ∧ rest ≠ [] ∧ vas_allocs state = [].

Lemma vas_sink : Sink vasprintf_callback vas_rel.
Proof.
  intros c o s (rest & Hb & Hu & Hs & Hr & Ha). unfold vasprintf_callback. rewrite Hb, Hu, Hs, Ha.
  rewrite length_app. set (L := Z.of_nat (length s)).
  assert (Hgo : ∀ rest', (length s < length rest')%nat →
    ∃ c', (buffer ← write_at (o ++ rest') (Z.of_nat (length o)) s;
           Ret (L, VasState (Some buffer) (Z.of_nat (length o) + L) (Z.of_nat (length (o ++ rest'))) [])) =
          Ret (L, c') ∧ vas_rel c' (o ++ s)).
  { intros rest' Hl. rewrite write_at_prefix by (done || lia). cbn [mbind outcome_bind]. eexists.
    split; [done|]. exists (drop (length s) rest'). cbn. split_and!; try done.
    - by rewrite <- app_assoc.
    - rewrite length_app. unfold L. lia.
    - rewrite !length_app, length_drop. lia.
    - intros H. apply (f_equal length) in H. rewrite length_drop in H. simpl in H. lia. }
  case_if; cbn [mbind outcome_bind negb drop vas_buffer vas_used vas_size vas_allocs].
  - set (n := Z.max (2 * Z.of_nat (length o + length rest)) (Z.of_nat (length o) + L + 1)).
    rewrite <- app_assoc. set (rest' := rest ++ replicate _ 0).
    assert (Hn : n = Z.of_nat (length (o ++ rest'))).
    { unfold rest'. rewrite !length_app, length_replicate. lia. }
    rewrite Hn. apply Hgo. rewrite length_app in Hn. lia.
  - rewrite Hb, Hu, Hs, Ha. apply Hgo. lia.
Qed.

(** [vasprintf] allocates the whole text: when no allocation fails it
    returns what the formatting returns, and a buffer that holds the text and its
    terminator. *)
Theorem vasprintf_whole errno_message format parameters r text :
  formatted errno_message format parameters = Ret (r, text) →
  ∃ rest, vasprintf [] errno_message format parameters = Ret (r, Some (text ++ [0] ++ rest)).
Proof.
  intros Hf. unfold vasprintf. cbn [negb drop].
  pose proof vas_sink as Hsink.
  destruct (vcbprintf_sink vasprintf_callback vas_rel (VasState (Some (replicate 32 0)) 0 32 [])
    errno_message format parameters r text) as (st & Hrun & rest & Hb & Hu & Hs & Hr & _); [|done|].
  { exists (replicate 32 0). done. }
  rewrite Hrun. cbn [mbind outcome_bind]. rewrite Hb, Hu.
  assert (length rest ≠ 0%nat) by (by rewrite length_zero_iff_nil).
  rewrite write_at_prefix by (simpl; done || lia). cbn [mbind outcome_bind]. by eexists.
Qed.

Lemma vasprintf_whole_witness :
  ∃ rest, vasprintf [] [] (lit "x=%d;" ++ [0]) [VInt 32 (-57)] = Ret (6, Some (lit "x=-57;" ++ [0] ++ rest)).
Proof.
  apply (vasprintf_whole [] (lit "x=%d;" ++ [0]) [VInt 32 (-57)] 6 (lit "x=-57;")). vm_compute. reflexivity.
Defined.

(** ** Digits *)

Lemma count_digits_run fuel base copy r :
  2 <= base → 0 <= copy < base ^ Z.of_nat fuel → (0 < fuel)%nat →
  ∃ d, count_digits fuel base copy r = Ret (r + Z.of_nat d) ∧ (d < fuel)%nat ∧
       copy < base ^ Z.of_nat (S d) ∧ ((0 < d)%nat → base ^ Z.of_nat d <= copy).
Proof.
  intros Hb. revert copy r. induction fuel as [|fuel IH]; intros copy r Hc Hf; [lia|]. cbn [count_digits].
  case_if.
  - assert (Hdiv : 0 <= copy / base < base ^ Z.of_nat fuel).
    { split; [apply Z.div_pos; lia|]. apply Z.div_lt_upper_bound; [lia|].
      rewrite <- Z.pow_succ_r by lia. rewrite <- Nat2Z.inj_succ. apply Hc. }
    destruct fuel as [|fuel].
    { rewrite Z.pow_0_r in Hdiv. pose proof (Z.div_str_pos copy base). lia. }
    destruct (IH (copy / base) (r + 1)) as (d & Hd & Hlt & Hup & Hlo); [done|lia|].
    exists (S d). rewrite Hd. split_and!; [f_equal; lia|lia|..].
    + rewrite Nat2Z.inj_succ, Z.pow_succ_r by lia. pose proof (Z.div_mod copy base).
      pose proof (Z.mod_pos_bound copy base). nia.
    + intros _. rewrite Nat2Z.inj_succ, Z.pow_succ_r by lia.
      destruct d as [|d]; [rewrite Z.pow_0_r; lia|]. specialize (Hlo ltac:(lia)).
      pose proof (Z.mul_div_le copy base). nia.
  - exists O. split_and!; [f_equal; lia|lia| |lia]. change (Z.of_nat 1) with 1. rewrite Z.pow_1_r. lia.
Qed.

Lemma digits_value_app base acc l1 l2 :
  Strtol.digits_value base acc (l1 ++ l2) = Strtol.digits_value base (Strtol.digits_value base acc l1) l2.
Proof. revert acc. induction l1 as [|c l1 IH]; intros acc; [done|]. cbn [app Strtol.digits_value]. apply IH. Qed.

(** The table lists the digits of the base in order. *)
Definition digit_table (base : Z) (digits : list Z) : Prop :=
  ∀ v, 0 <= v < base →
    ∃ c, digits !! Z.to_nat v = Some c ∧ c ≠ 0 ∧ Strtol.debase c = v.

Lemma digit_tables base :
  2 <= base <= 16 → digit_table base lower_digits ∧ digit_table base upper_digits.
Proof.
  intros Hb. split; intros v Hv;
    (assert (Hv' : v ∈ seqZ 0 16) by (apply elem_of_seqZ; lia));
    vm_compute in Hv'; repeat (apply elem_of_cons in Hv' as [->|Hv']; [by eexists|]);
    by apply elem_of_nil in Hv'.
Qed.

Lemma fill_digits_run n base digits value acc :
  2 <= base → digit_table base digits → 0 <= value < base ^ Z.of_nat n →
  ∃ ds, fill_digits n base digits value acc = Ret (ds ++ acc) ∧ length ds = n ∧
    Forall (Strtol.is_digit base) ds ∧
    ∀ a, Strtol.digits_value base a ds = a * base ^ Z.of_nat n + value.
Proof.
  intros Hb Ht. revert value acc. induction n as [|n IH]; intros value acc Hv; cbn [fill_digits].
  - exists []. rewrite Z.pow_0_r in *. split_and!; [done|done|constructor|]. intros a. cbn. lia.
  - pose proof (Z.mod_pos_bound value base ltac:(lia)) as Hm.
    destruct (Ht (value mod base) Hm) as (c & Hc & Hc0 & Hcv). rewrite Hc. cbn [mbind outcome_bind].
    rewrite Nat2Z.inj_succ, Z.pow_succ_r in Hv by lia.
    destruct (IH (value / base) (c :: acc)) as (ds & Hr & Hl & Hd & Hval).
    { split; [apply Z.div_pos; lia|]. apply Z.div_lt_upper_bound; lia. }
    exists (ds ++ [c]). split_and!.
    + by rewrite Hr, <- app_assoc.
    + rewrite length_app. simpl. lia.
    + apply Forall_app. split; [done|]. constructor; [|constructor]. split; [done|by rewrite Hcv].
    + intros a. rewrite digits_value_app, Hval. cbn. rewrite Hcv, Nat2Z.inj_succ, Z.pow_succ_r by lia.
      pose proof (Z.div_mod value base). nia.
Qed.

Lemma convert_integer_run value base digits :
  0 <= value < 2 ^ 64 → base = 8 ∨ base = 10 ∨ base = 16 → digit_table base digits →
  ∃ ds, convert_integer 24 value base digits = Ret ds ∧
    Strtol.digits_value base 0 ds = value ∧ Forall (Strtol.is_digit base) ds ∧
    (1 <= length ds <= 22)%nat ∧ ((1 < length ds)%nat → base ^ Z.of_nat (length ds - 1) <= value).
Proof.
  intros Hv Hb Ht. unfold convert_integer.
  assert (Hbase : 8 <= base) by lia.
  assert (Hpow : ∀ k : nat, 8 ^ Z.of_nat k <= base ^ Z.of_nat k) by (intros; apply Z.pow_le_mono_l; lia).
  destruct (count_digits_run 65 base value 1) as (d & Hd & _ & Hup & Hlo); [lia| |lia|].
  { split; [lia|]. pose proof (Hpow 65%nat). assert (2 ^ 64 < 8 ^ Z.of_nat 65) by (vm_compute; reflexivity). lia. }
  rewrite Hd. cbn [mbind outcome_bind].
  assert (Hd22 : (d <= 21)%nat).
  { destruct (decide (d <= 21)%nat); [done|]. specialize (Hlo ltac:(lia)).
    pose proof (Z.pow_le_mono_r base 22 (Z.of_nat d) ltac:(lia) ltac:(lia)).
    pose proof (Hpow 22%nat) as H22. change (Z.of_nat 22) with 22 in H22.
    assert (2 ^ 64 < 8 ^ 22) by (vm_compute; reflexivity). lia. }
  rewrite (proj2 (Z.ltb_ge _ _)) by lia.
  replace (Z.to_nat (1 + Z.of_nat d)) with (S d) by lia.
  destruct (fill_digits_run (S d) base digits value []) as (ds & Hr & Hl & Hds & Hval); [lia|done|lia|].
  exists ds. rewrite Hr, app_nil_r. split_and!; [done| |done|lia|lia|].
  - rewrite Hval. lia.
  - rewrite Hl. intros. replace (S d - 1)%nat with d by lia. apply Hlo. lia.
Qed.

(** [convert_integer] writes the digits of the value: they denote it, each
    is a digit of the base, there is no leading zero, and they fit the 24 bytes
    of [output] for every 64-bit value and every base [vcbprintf] uses. *)
Theorem convert_integer_digits value base :
  0 <= value < 2 ^ 64 → base = 8 ∨ base = 10 ∨ base = 16 →
  ∃ ds, convert_integer 24 value base lower_digits = Ret ds ∧
    Strtol.digits_value base 0 ds = value ∧ Forall (Strtol.is_digit base) ds ∧
    (1 <= length ds <= 22)%nat ∧ ((1 < length ds)%nat → base ^ Z.of_nat (length ds - 1) <= value).
Proof. intros Hv Hb. apply convert_integer_run; [done|done|]. apply digit_tables. lia. Qed.

Lemma convert_integer_digits_witness :
  ∃ ds, convert_integer 24 (2 ^ 64 - 1) 8 lower_digits = Ret ds ∧
    Strtol.digits_value 8 0 ds = 2 ^ 64 - 1 ∧ Forall (Strtol.is_digit 8) ds ∧
    (1 <= length ds <= 22)%nat ∧ ((1 < length ds)%nat → 8 ^ Z.of_nat (length ds - 1) <= 2 ^ 64 - 1).
Proof. apply (convert_integer_digits (2 ^ 64 - 1) 8); lia. Defined.

(** ** What a step prints *)

(** From the state [st] the step prints [text] and goes on with [a] and [st']. *)
Definition prints {A} (p : P A) (st : pstate) (text : list Z) (a : A) (st' : pstate) : Prop :=
  ∀ B (f : A * pstate → prog B) o,
    run collect o (prog_bind (p st) f) = run collect (o ++ text) (f (a, st')).

Definition wrote (st : pstate) (text : list Z) : pstate :=
  PState (args st) (u64 (written st + Z.of_nat (length text))) (stores st).

Lemma prog_bind_assoc {A B D} (p : prog A) (f : A → prog B) (g : B → prog D) :
  prog_bind (prog_bind p f) g = prog_bind p (λ a, prog_bind (f a) g).
Proof. induction p as [|s k IH| |]; cbn; [done|by rewrite IH|done|done]. Qed.

Lemma run_ext {A B} (p : prog A) (f g : A → prog B) o :
  (∀ a, f a = g a) → run collect o (prog_bind p f) = run collect o (prog_bind p g).
Proof.
  intros H. revert o. induction p as [a|s k IH| |]; intros o; cbn; [by rewrite H| |done|done].
  rewrite Z.eqb_refl. apply IH.
Qed.

Lemma prints_ret {A} (a : A) st : prints (mret a) st [] a st.
Proof. intros B f o. cbn. by rewrite app_nil_r. Qed.

Lemma prints_bind {A B} (p : P A) (f : A → P B) st t1 a st1 t2 b st2 :
  prints p st t1 a st1 → prints (f a) st1 t2 b st2 → prints (p ≫= f) st (t1 ++ t2) b st2.
Proof.
  intros H1 H2 D g o. unfold mbind, P_bind. rewrite prog_bind_assoc.
  rewrite (run_ext (p st) _ (λ '(a, st), prog_bind (f a st) g)) by (by intros [? ?]).
  rewrite H1. rewrite H2. by rewrite app_assoc.
Qed.

Lemma prints_emit s st : prints (emit s) st s () (wrote st s).
Proof. intros B f o. cbn. by rewrite Z.eqb_refl. Qed.

Lemma wrote_nil st : 0 <= written st < 2 ^ 64 → wrote st [] = st.
Proof. intros H. unfold wrote. cbn. rewrite Z.add_0_r, wrapu_id by done. by destruct st. Qed.

Lemma wrote_app st s t : wrote (wrote st s) t = wrote st (s ++ t).
Proof.
  unfold wrote. cbn. f_equal. rewrite length_app. unfold wrapu.
  rewrite Z.add_mod_idemp_l by lia. f_equal. lia.
Qed.

Lemma wrote_range st s : 0 <= written (wrote st s) < 2 ^ 64.
Proof. apply (wrapu_range 64). lia. Qed.

Lemma prints_emit_times n c st :
  0 <= written st < 2 ^ 64 → prints (emit_times n c) st (replicate n c) () (wrote st (replicate n c)).
Proof.
  revert st. induction n as [|n IH]; intros st Hst; cbn [emit_times replicate].
  - rewrite wrote_nil by done. apply prints_ret.
  - change (c :: replicate n c) with ([c] ++ replicate n c). rewrite <- wrote_app.
    eapply prints_bind; [apply prints_emit|]. apply IH. apply wrote_range.
Qed.

(** A conditional block of padding. *)
Lemma prints_pad (b : bool) c from to st :
  0 <= written st < 2 ^ 64 →
  let t := if b then replicate (Z.to_nat (to - from)) c else [] in
  prints (if b then emit_pad c from to else mret ()) st t () (wrote st t).
Proof.
  intros Hst. destruct b; cbv zeta; [by apply prints_emit_times|].
  rewrite wrote_nil by done. apply prints_ret.
Qed.

Lemma prints_lift {A} (o : outcome A) a st : o = Ret a → prints (lift o) st [] a st.
Proof. intros ->. apply prints_ret. Qed.

(** ** The layout of integers *)

(** What the C standard prescribes for an integer conversion with sign [sign]
    and digits [ds]: at least [prec] digits if a precision is given, padded to
    the field width with zeros or blanks. *)
Definition layout (zero left : bool) (width : nat) (prec : option nat) (sign ds : list Z) : list Z :=
  let digits := match prec with Some n => replicate (n - length ds) (ch "0") ++ ds | None => ds end in
  let pad := (width - length (sign ++ digits))%nat in
  if left then sign ++ digits ++ replicate pad (ch " ")
  else if zero && bool_decide (prec = None) then sign ++ replicate pad (ch "0") ++ digits
  else replicate pad (ch " ") ++ sign ++ digits.

Lemma layout_length zero left width prec sign ds :
  length (layout zero left width prec sign ds) =
  Nat.max width (length (sign ++ match prec with Some n => replicate (n - length ds) (ch "0") ++ ds | None => ds end)).
Proof.
  unfold layout. cbv zeta. set (digits := match prec with Some n => _ | None => ds end).
  repeat case_match; rewrite !length_app, ?length_app, length_replicate; lia.
Qed.

(** The sign of a conversion. *)
Definition sign_of (f : flags) (negative : bool) : list Z :=
  if negative then [ch "-"]
  else if prepend_plus_if_positive f then [ch "+"]
  else if prepend_blank_if_positive f then [ch " "] else [].

Definition prec_of (prec : Z) : option nat := if prec =? SIZE_MAX then None else Some (Z.to_nat prec).

(** The pieces a conversion without the alternate form prints, for its digits. *)
Definition integer_pieces (f : flags) (width prec : Z) (sign output : list Z) : list Z :=
  let n := Z.of_nat (length output) in
  let use_precision := negb (prec =? SIZE_MAX) in
  let len := Z.of_nat (length sign) + (if use_precision && (n <? prec) then prec else n) in
  let use_zero_pad := zero_pad f && (0 <=? width) && negb use_precision in
  let pad c (b : bool) from to := if b then replicate (Z.to_nat (to - from)) c else [] in
  pad (ch " ") (negb use_zero_pad && (0 <=? width)) len (Z.abs width) ++
  sign ++
  pad (ch "0") use_zero_pad (Z.of_nat (length sign) + n) (Z.abs width) ++
  pad (ch "0") use_precision n prec ++
  output ++
  pad (ch " ") (negb use_zero_pad && (width <? 0)) len (Z.abs width).

Lemma integer_pieces_layout f width prec sign output :
  0 <= prec →
  integer_pieces f width prec sign output =
  layout (zero_pad f) (width <? 0) (Z.to_nat (Z.abs width)) (prec_of prec) sign output.
Proof.
  intros Hp. unfold integer_pieces, layout, prec_of. cbv zeta.
  assert (Hpad : ∀ l : nat, Z.to_nat (Z.abs width - Z.of_nat l) = (Z.to_nat (Z.abs width) - l)%nat) by lia.
  destruct (prec =? SIZE_MAX); cbn [negb andb].
  - rewrite bool_decide_true, andb_true_r by done.
    rewrite <- Nat2Z.inj_add, <- length_app, Hpad. destruct (Z.ltb_spec width 0) as [Hw|Hw].
    + rewrite (proj2 (Z.leb_gt 0 width)), andb_false_r by lia. by rewrite !andb_false_r.
    + rewrite (proj2 (Z.leb_le 0 width)), andb_true_r by lia.
      destruct (zero_pad f); cbn [negb andb app]; by rewrite app_nil_r.
  - rewrite bool_decide_false, andb_false_r by done. cbn [negb andb app].
    assert (Hz : Z.to_nat (prec - Z.of_nat (length output)) = (Z.to_nat prec - length output)%nat) by lia.
    assert (Hlen : Z.of_nat (length sign) + (if Z.of_nat (length output) <? prec then prec else Z.of_nat (length output)) =
      Z.of_nat (length (sign ++ replicate (Z.to_nat prec - length output) (ch "0") ++ output))).
    { rewrite !length_app, length_replicate. case_if; lia. }
    rewrite Hlen, Hz, Hpad, andb_false_r. destruct (Z.ltb_spec width 0) as [Hw|Hw].
    + rewrite (proj2 (Z.leb_gt 0 width)) by lia. cbn [negb andb app]. by rewrite <- app_assoc.
    + rewrite (proj2 (Z.leb_le 0 width)) by lia. cbn [negb andb app]. by rewrite app_nil_r.
Qed.

Lemma format_integer_prints f width prec conversion value negative st ds :
  alternate f = false → - 2 ^ 31 < width < 2 ^ 31 → 0 <= prec < 2 ^ 31 ∨ prec = SIZE_MAX →
  0 <= written st < 2 ^ 64 →
  convert_integer 24 value (if (conversion =? ch "x") || (conversion =? ch "X") then 16
                            else if conversion =? ch "o" then 8 else 10)
    (if conversion =? ch "X" then upper_digits else lower_digits) = Ret ds →
  (length ds <= 22)%nat →
  let output := if (prec =? 0) && bool_decide (ds = [ch "0"]) then [] else ds in
  let text := integer_pieces f width prec (sign_of f negative) output in
  prints (format_integer f width prec conversion value negative) st text () (wrote st text).
Proof.
  intros Ha Hw Hp Hst Hds Hlen output text. unfold format_integer. rewrite Ha. cbn [andb app].
  cbv zeta. fold (sign_of f negative). set (sign := sign_of f negative) in *.
  assert (Hsign : (length sign <= 1)%nat)
    by (unfold sign, sign_of; repeat case_match; simpl; lia).
  assert (Hout : (length output <= 22)%nat) by (unfold output; destruct (_ && _); simpl; lia).
  unfold text. rewrite <- (app_nil_l (integer_pieces _ _ _ _ _)).
  eapply prints_bind; [by apply prints_lift|]. cbn beta. fold output.
  rewrite app_nil_r, Z.add_0_l.
  rewrite (wrapu_id 64).
  2: { unfold in_u. assert (SIZE_MAX = 2 ^ 64 - 1) by done.
       destruct (Z.eqb_spec prec SIZE_MAX); cbn [negb andb]; [lia|]. case_if; lia. }
  unfold integer_pieces. cbv zeta. rewrite <- !wrote_app, (wrote_nil st) by done.
  repeat (eapply prints_bind; [first [apply prints_emit|apply prints_pad; first [done|apply wrote_range]]|]).
  apply prints_pad, wrote_range.
Qed.

(** An integer conversion without the alternate form prints what the C
    standard prescribes: the sign, the digits extended by zeros to the precision,
    and padding to the field width, with zeros only when they are asked for, the
    field is not left-justified and no precision is given.  The field is never
    shorter than its width, and [written] counts it. *)
Theorem format_integer_layout f width prec conversion value negative st :
  alternate f = false → 0 <= value < 2 ^ 64 →
  - 2 ^ 31 < width < 2 ^ 31 → 0 <= prec < 2 ^ 31 ∨ prec = SIZE_MAX → 0 <= written st < 2 ^ 64 →
  let base := if (conversion =? ch "x") || (conversion =? ch "X") then 16
              else if conversion =? ch "o" then 8 else 10 in
  ∃ ds,
    (prec = 0 ∧ value = 0 ∧ ds = [] ∨
     Strtol.digits_value base 0 ds = value ∧ Forall (Strtol.is_digit base) ds ∧ ds ≠ []) ∧
    let text := layout (zero_pad f) (width <? 0) (Z.to_nat (Z.abs width)) (prec_of prec)
                  (sign_of f negative) ds in
    prints (format_integer f width prec conversion value negative) st text () (wrote st text) ∧
    (Z.to_nat (Z.abs width) <= length text)%nat.
Proof.
  intros Ha Hv Hw Hp Hst base.
  assert (Hbase : base = 8 ∨ base = 10 ∨ base = 16) by (unfold base; repeat case_match; lia).
  destruct (convert_integer_run value base (if conversion =? ch "X" then upper_digits else lower_digits))
    as (ds & Hc & Hval & Hds & Hlen & _); [done|done|case_match; apply digit_tables; lia|].
  exists (if (prec =? 0) && bool_decide (ds = [ch "0"]) then [] else ds). split.
  - destruct ((prec =? 0) && bool_decide (ds = [ch "0"])) eqn:E; [left|right].
    + b2p. apply bool_decide_eq_true in H0. subst ds. cbn in Hval. split_and!; [done|lia|done].
    + split_and!; [done|done|]. intros ->. simpl in Hlen. lia.
  - cbv zeta. rewrite <- integer_pieces_layout by (unfold SIZE_MAX in *; lia). split.
    + apply format_integer_prints; try done. lia.
    + rewrite integer_pieces_layout, layout_length by (unfold SIZE_MAX in *; lia). lia.
Qed.

Lemma format_integer_layout_witness :
  ∃ ds,
    (SIZE_MAX = 0 ∧ 57 = 0 ∧ ds = [] ∨
     Strtol.digits_value 10 0 ds = 57 ∧ Forall (Strtol.is_digit 10) ds ∧ ds ≠ []) ∧
    let text := layout true (6 <? 0) (Z.to_nat (Z.abs 6)) (prec_of SIZE_MAX)
                  (sign_of (Flags false true false false false) true) ds in
    prints (format_integer (Flags false true false false false) 6 SIZE_MAX (ch "d") 57 true)
      (PState [] 0 []) text () (wrote (PState [] 0 []) text) ∧
    (Z.to_nat (Z.abs 6) <= length text)%nat.
Proof.
  apply (format_integer_layout (Flags false true false false false) 6 SIZE_MAX (ch "d") 57 true (PState [] 0 []));
    [done|lia|lia|by right|cbn; lia].
Defined.

(** ** Printing and parsing *)

Lemma prints_arg_signed w v l wr so :
  prints (arg_signed w) (PState (VInt w v :: l) wr so) [] (wraps w v) (PState l wr so).
Proof.
  intros B f o. unfold arg_signed, next_arg, mbind, P_bind. cbn [args prog_bind].
  rewrite Z.eqb_refl. cbn. by rewrite app_nil_r.
Qed.

(** The plain decimal conversion of a [long]. *)
Lemma prints_long n ds :
  in_s 64 n → convert_integer 24 (Z.abs n) 10 lower_digits = Ret ds → (length ds <= 22)%nat →
  ∀ errno_message,
  let text := (if n <? 0 then [ch "-"] else []) ++ ds in
  prints (vcbprintf_loop 4 errno_message (lit "%ld" ++ [0]) false) (PState [VInt 64 n] 0 []) text ()
    (wrote (PState [] 0 []) text).
Proof.
  intros Hn Hds Hlen em text.
  set (f0 := Flags false false false false false).
  assert (Hloop : ∀ st, vcbprintf_loop 4 em (lit "%ld" ++ [0]) false st =
    (r ← convert_int f0 0 SIZE_MAX LENGTH_LONG (ch "d") [0];
     match r with
     | Handled format => vcbprintf_loop 3 em format false
     | Incomprehensible => format ← print_c (lit "%ld" ++ [0]); vcbprintf_loop 3 em format true
     | Unsupported => format ← print_c (lit "%ld" ++ [0]); vcbprintf_loop 3 em format false
     end) st) by (intros; reflexivity).
  intros B f o. rewrite Hloop. revert B f o.
  change (prints (r ← convert_int f0 0 SIZE_MAX LENGTH_LONG (ch "d") [0];
     match r with
     | Handled format => vcbprintf_loop 3 em format false
     | Incomprehensible => format ← print_c (lit "%ld" ++ [0]); vcbprintf_loop 3 em format true
     | Unsupported => format ← print_c (lit "%ld" ++ [0]); vcbprintf_loop 3 em format false
     end) (PState [VInt 64 n] 0 []) text () (wrote (PState [] 0 []) text)).
  rewrite <- (app_nil_r text) at 1.
  apply (prints_bind _ _ _ text (Handled [0]) (wrote (PState [] 0 []) text)); [|apply prints_ret].
  unfold convert_int. cbn [Z.eqb Pos.eqb int_width orb].
  rewrite <- (app_nil_l text) at 1. eapply prints_bind; [apply prints_arg_signed|].
  rewrite wraps_id by (done || lia). cbv zeta. rewrite <- (app_nil_r text) at 1.
  eapply prints_bind; [|apply prints_ret].
  assert (Hval : (if n <? 0 then u64 (- n) else n) = Z.abs n).
  { unfold in_s in Hn. case_if; [rewrite wrapu_id by (unfold in_u; lia)|]; lia. }
  rewrite Hval.
  replace text with (integer_pieces f0 0 SIZE_MAX (sign_of f0 (n <? 0))
    (if (SIZE_MAX =? 0) && bool_decide (ds = [ch "0"]) then [] else ds)).
  - apply format_integer_prints; [done|lia|by right|cbn; lia|done|done].
  - unfold text, sign_of. rewrite integer_pieces_layout by done. unfold layout. cbn.
    by destruct (n <? 0).
Qed.

(** A format whose program is known gives that text and its length. *)
Lemma formatted_prints errno_message format parameters text so :
  prints (vcbprintf_loop (length format) errno_message format false) (PState parameters 0 []) text ()
    (PState [] (u64 (Z.of_nat (length text))) so) →
  Z.of_nat (length text) <= INT_MAX →
  formatted errno_message format parameters = Ret (Z.of_nat (length text), text).
Proof.
  intros Hp Hi. unfold formatted, vcbprintf, vcbprintf_prog. rewrite Hp. cbn [app written].
  rewrite wrapu_id by (unfold in_u, INT_MAX in *; lia).
  by rewrite (proj2 (Z.ltb_ge _ _)) by lia.
Qed.

Lemma prints_arg_unsigned w v l wr so :
  prints (arg_unsigned w) (PState (VInt w v :: l) wr so) [] (wrapu w v) (PState l wr so).
Proof.
  intros B f o. unfold arg_unsigned, next_arg, mbind, P_bind. cbn [args prog_bind].
  rewrite Z.eqb_refl. cbn. by rewrite app_nil_r.
Qed.

(** A plain [%u] or [%x] in a format: the digits, then the rest. *)
Lemma prints_unsigned em c fuel rest v l wr so ds t2 st2 :
  c = ch "u" ∨ c = ch "x" → 0 <= v < 2 ^ 32 → 0 <= wr < 2 ^ 64 →
  convert_integer 24 v (if c =? ch "x" then 16 else 10) lower_digits = Ret ds → (length ds <= 22)%nat →
  prints (vcbprintf_loop fuel em rest false) (wrote (PState l wr so) ds) t2 () st2 →
  prints (vcbprintf_loop (S fuel) em (ch "%" :: c :: rest) false)
    (PState (VInt 32 v :: l) wr so) (ds ++ t2) () st2.
Proof.
  intros Hc Hv Hwr Hds Hlen Hrest.
  set (f0 := Flags false false false false false).
  set (k := λ r, match r with
     | Handled format => vcbprintf_loop fuel em format false
     | Incomprehensible => format ← print_c (ch "%" :: c :: rest); vcbprintf_loop fuel em format true
     | Unsupported => format ← print_c (ch "%" :: c :: rest); vcbprintf_loop fuel em format false
     end).
  assert (Hloop : ∀ st, vcbprintf_loop (S fuel) em (ch "%" :: c :: rest) false st =
    (convert_int f0 0 SIZE_MAX LENGTH_DEFAULT c rest ≫= k) st)
    by (destruct Hc as [-> | ->]; intros; reflexivity).
  intros B f o. rewrite Hloop. revert B f o.
  apply (prints_bind _ _ _ ds (Handled rest) (wrote (PState l wr so) ds)); [|exact Hrest].
  unfold convert_int.
  assert ((c =? ch "p") = false ∧ (c =? ch "i") || (c =? ch "d") = false) as [-> ->]
    by (destruct Hc as [-> | ->]; done).
  cbn [int_width]. rewrite <- (app_nil_l ds). eapply prints_bind; [apply prints_arg_unsigned|].
  rewrite (wrapu_id 32) by done. rewrite <- (app_nil_r ds) at 1.
  eapply prints_bind; [|apply prints_ret]. cbn [alternate zero_pad field_width_is_negative f0].
  replace ds with (integer_pieces f0 0 SIZE_MAX (sign_of f0 false)
    (if (SIZE_MAX =? 0) && bool_decide (ds = [ch "0"]) then [] else ds)).
  - apply format_integer_prints; [done|lia|by right|done| |done].
    destruct Hc as [-> | ->]; exact Hds.
  - rewrite integer_pieces_layout by done. reflexivity.
Qed.

(** Literal text in a format. *)
Lemma prints_literal em fuel c text rest st t2 st2 :
  c ≠ 0 → c ≠ ch "%" → literal (text ++ rest) = Ret (text, rest) →
  prints (vcbprintf_loop fuel em rest false) (wrote st (c :: text)) t2 () st2 →
  prints (vcbprintf_loop (S fuel) em (c :: text ++ rest) false) st ((c :: text) ++ t2) () st2.
Proof.
  intros H0 Hp Hlit Hrest. cbn [vcbprintf_loop]. rewrite <- (app_nil_l ((c :: text) ++ t2)).
  eapply prints_bind; [by apply prints_lift|].
  rewrite (proj2 (Z.eqb_neq _ _) H0), (proj2 (Z.eqb_neq _ _) Hp). cbn [negb].
  eapply prints_bind; [|exact Hrest]. unfold print_c.
  apply (prints_bind _ _ st [] (text, rest) st (c :: text)); [by apply prints_lift|].
  pose proof (prints_bind _ (λ _, mret rest) st _ _ _ [] _ _ (prints_emit (c :: text) st)
    (prints_ret rest _)) as H. by rewrite app_nil_r in H.
Qed.

Lemma prints_end em fuel st : prints (vcbprintf_loop (S fuel) em [0] false) st [] () st.
Proof. apply prints_ret. Qed.

(** A [long] printed with [%ld] is parsed back by [strtol] to the same
    number, for every value, and the string ends where the number does. *)
Theorem strtol_printf n errno_message :
  in_s 64 n →
  ∃ text errno,
    formatted errno_message (lit "%ld" ++ [0]) [VInt 64 n] = Ret (Z.of_nat (length text), text) ∧
    Strtol.strtol (text ++ [0]) 10 = Ret (n, [0], errno).
Proof.
  intros Hn. pose proof Hn as Hn'. unfold in_s in Hn'.
  destruct (convert_integer_run (Z.abs n) 10 lower_digits) as (ds & Hc & Hval & Hds & Hlen & _);
    [lia|lia|apply digit_tables; lia|].
  set (neg := n <? 0). set (sg := if neg then [ch "-"] else []).
  destruct (Strtol.STRTOL_run Strtol.long_type [] neg sg [] 10 10 ds [0]) as (result & overflow & Hrun & Hinv).
  - by left.
  - constructor.
  - unfold sg. by destruct neg; [left|right].
  - apply Strtol.radix_given; lia.
  - intros ->. simpl in Hlen. lia.
  - done.
  - exists 0, []. split; [done|]. by intros [H _].
  - exists (sg ++ ds), (if overflow then Some ERANGE else None). split.
    + pose proof (prints_long n ds Hn Hc ltac:(lia) errno_message) as Hp. cbv zeta in Hp.
      fold neg in Hp. fold sg in Hp. apply (formatted_prints _ _ _ _ []); [exact Hp|].
      unfold INT_MAX, sg. rewrite length_app. destruct neg; simpl; lia.
    + unfold Strtol.strtol. rewrite <- app_assoc. etransitivity; [exact Hrun|].
      cbn [Strtol.INT_IS_UNSIGNED Strtol.long_type andb negb] in *.
      do 3 f_equal. destruct Hinv as [_ Hinv]. rewrite Hval in Hinv. unfold Strtol.overflow_value in Hinv.
      destruct overflow; destruct Hinv as [-> Hinv]; unfold neg in *; revert Hinv;
        destruct (n <? 0) eqn:E; b2p; cbn; lia.
Qed.

Lemma strtol_printf_witness :
  ∃ text errno,
    formatted [] (lit "%ld" ++ [0]) [VInt 64 (- 2 ^ 63)] = Ret (Z.of_nat (length text), text) ∧
    Strtol.strtol (text ++ [0]) 10 = Ret (- 2 ^ 63, [0], errno).
Proof. apply (strtol_printf (- 2 ^ 63) []). unfold in_s. lia. Defined.

(** ** Divergences from the C standard *)

(** The precision of the alternate hexadecimal form counts the [0x], so that
    too few digits are printed and the field is shorter than its width. *)
Example alternate_precision :
  formatted [] (lit "%#8.4x" ++ [0]) [VInt 32 0xab] = Ret (6, lit "  0xab").
Proof. vm_compute. reflexivity. Qed.

(** The [hh] and [h] modifiers do not narrow the argument. *)
Example short_not_narrowed :
  formatted [] (lit "%hhd" ++ [0]) [VInt 32 300] = Ret (3, lit "300").
Proof. vm_compute. reflexivity. Qed.

(** A negative width argument left-justifies an integer but not a string. *)
Example negative_width_argument :
  formatted [] (lit "%*d|%*s" ++ [0]) [VInt 32 (-4); VInt 32 7; VInt 32 (-4); VStr (Some (lit "x" ++ [0]))] =
  Ret (9, lit "7   |   x").
Proof. vm_compute. reflexivity. Qed.

(** ** Termination *)

(** Every value the program can return satisfies [Q]. *)
Fixpoint returns {A} (p : prog A) (Q : A → Prop) : Prop :=
  match p with
  | PRet a => Q a
  | PEmit _ k => returns k Q
  | PFail | PUndef => True
  end.

Lemma returns_bind {A B} (p : prog A) (f : A → prog B) (Q : A → Prop) (R : B → Prop) :
  returns p Q → (∀ a, Q a → returns (f a) R) → returns (prog_bind p f) R.
Proof. intros Hp Hf. induction p as [a|s k IH| |]; cbn in *; auto. Qed.

Lemma returns_ext {A B} (p : prog A) (f g : A → prog B) (Q : A → Prop) :
  returns p Q → (∀ a, Q a → f a = g a) → prog_bind p f = prog_bind p g.
Proof. intros Hp Hf. induction p as [a|s k IH| |]; cbn in *; auto. by rewrite IH. Qed.

Lemma returns_true {A} (p : prog A) : returns p (λ _, True).
Proof. induction p; cbn; auto. Qed.

(** A step whose results satisfy [Q] from every state. *)
Definition gives {A} (p : P A) (Q : A → Prop) : Prop := ∀ st, returns (p st) (λ '(a, _), Q a).

Lemma gives_ret {A} (a : A) (Q : A → Prop) : Q a → gives (mret a) Q.
Proof. intros H st. exact H. Qed.

Lemma gives_bind {A B} (p : P A) (f : A → P B) (Q : A → Prop) (R : B → Prop) :
  gives p Q → (∀ a, Q a → gives (f a) R) → gives (p ≫= f) R.
Proof.
  intros Hp Hf st. apply (returns_bind _ _ _ _ (Hp st)). intros [a st'] Ha. by apply Hf.
Qed.

Lemma gives_weaken {A} (p : P A) (Q R : A → Prop) : gives p Q → (∀ a, Q a → R a) → gives p R.
Proof.
  intros Hp H st. specialize (Hp st). induction (p st) as [[a st']|s k IH| |]; cbn in *; auto.
Qed.

Lemma gives_any {A} (p : P A) : gives p (λ _, True).
Proof. intros st. induction (p st) as [[? ?]|s k IH| |]; cbn; auto. Qed.

Lemma gives_undef {A} (Q : A → Prop) : gives undef Q.
Proof. intros st. exact I. Qed.

Lemma gives_fail {A} (Q : A → Prop) : gives fail Q.
Proof. intros st. exact I. Qed.

(** A parser that leaves at most [n] characters. *)
Abbreviation leaves n := (λ p, length (snd p) <= n)%nat.

Lemma parse_flags_gives format f : gives (parse_flags format f) (leaves (length format)).
Proof.
  revert f. induction format as [|c rest IH]; intros f; cbn [parse_flags]; [apply gives_undef|].
  repeat (case_if; try (eapply gives_weaken; [apply IH|simpl; lia])); by apply gives_ret.
Qed.

Lemma parse_width_gives format w : gives (parse_width format w) (leaves (length format)).
Proof.
  revert w. induction format as [|c rest IH]; intros w; cbn [parse_width]; [apply gives_undef|].
  destruct (Ctype.isdigit c); [|by apply gives_ret].
  do 2 (eapply gives_bind; [apply gives_any|intros ? _]). eapply gives_weaken; [apply IH|simpl; lia].
Qed.

Lemma parse_precision_gives format w : gives (parse_precision format w) (leaves (length format)).
Proof.
  revert w. induction format as [|c rest IH]; intros w; cbn [parse_precision]; [apply gives_undef|].
  destruct (Ctype.isdigit c); [|by apply gives_ret]. eapply gives_weaken; [apply IH|simpl; lia].
Qed.

Lemma skip_digits_gives format : gives (skip_digits format) (λ rest, length rest <= length format)%nat.
Proof.
  induction format as [|c rest IH]; cbn [skip_digits]; [apply gives_undef|].
  destruct (Ctype.isdigit c); [|by apply gives_ret]. eapply gives_weaken; [apply IH|simpl; lia].
Qed.

Lemma field_width_gives f format : gives (field_width f format) (leaves (length format)).
Proof.
  unfold field_width. eapply gives_bind; [apply gives_any|]. intros c _.
  apply (gives_bind _ _ (leaves (length format))).
  - case_if; [|apply parse_width_gives]. eapply gives_bind; [apply gives_any|]. intros w _.
    apply gives_ret. cbn [snd]. rewrite length_drop. lia.
  - intros [w rest] H. eapply gives_bind; [apply gives_any|]. intros w' _. by apply gives_ret.
Qed.

Lemma precision_gives format : gives (precision format) (leaves (length format)).
Proof.
  unfold precision. eapply gives_bind; [apply gives_any|]. intros c _. case_if; [|by apply gives_ret].
  eapply gives_bind; [apply gives_any|]. intros c' _. case_if; [|case_if].
  - eapply gives_bind; [apply gives_any|]. intros v _. apply gives_ret. cbn [snd].
    rewrite !length_drop. lia.
  - eapply gives_bind; [apply skip_digits_gives|]. intros rest H. apply gives_ret. cbn [snd].
    rewrite !length_drop in H. lia.
  - eapply gives_weaken; [apply parse_precision_gives|]. cbn. intros a. rewrite length_drop. lia.
Qed.

(** A conversion that was handled goes on right after its character. *)
Definition continues (rest : list Z) (r : dir_result) : Prop :=
  match r with Handled rest' => rest' = rest | _ => True end.

(** Discharge a conversion: run its steps, whatever they give, to the end. *)
Ltac conversion :=
  repeat first
    [ apply gives_fail | apply gives_undef | by apply gives_ret
    | eapply gives_bind; [apply gives_any|intros ? _] | case_match ].

Lemma convert_gives em f width prec l c rest :
  gives (convert_int f width prec l c rest) (continues rest) ∧
  gives (convert_float l) (continues rest) ∧
  gives (convert_char f width l rest) (continues rest) ∧
  gives (convert_string em f width prec l c rest) (continues rest) ∧
  gives (convert_n l rest) (continues rest).
Proof.
  unfold convert_int, convert_float, convert_char, convert_string, convert_n. split_and!; conversion.
Qed.

(** A directive that was handled consumed a character. *)
Lemma directive_gives em format :
  gives (directive em format)
    (λ r, match r with Handled rest => length rest < length format | _ => True end)%nat.
Proof.
  unfold directive.
  eapply gives_bind; [apply parse_flags_gives|]. intros [f fmt1] H1. cbn [snd] in H1.
  eapply gives_bind; [apply field_width_gives|]. intros [w fmt2] H2. cbn [snd] in H2.
  eapply gives_bind; [apply gives_any|]. intros ? _.
  eapply gives_bind; [apply precision_gives|]. intros [prec fmt3] H3. cbn [snd] in H3.
  destruct (find_length _ _ _ _) as [l n]. cbv zeta.
  apply (gives_bind _ _ (λ _, drop n fmt3 ≠ [])).
  { intros st. unfold char_at. by destruct (drop n fmt3). }
  intros c Hne. destruct (convert_gives em f w prec l c (drop 1 (drop n fmt3))) as (G1 & G2 & G3 & G4 & G5).
  assert (Hlt : (length (drop 1 (drop n fmt3)) < length format)%nat).
  { assert (length (drop n fmt3) ≠ 0%nat) by (by rewrite length_zero_iff_nil).
    rewrite !length_drop in *. lia. }
  repeat case_match; try by apply gives_ret.
  all: eapply gives_weaken; [eassumption|]; intros [] Hr; cbn in Hr; subst; done.
Qed.

Lemma literal_length format text rest :
  literal format = Ret (text, rest) → (length rest <= length format)%nat.
Proof.
  revert text rest. induction format as [|c fmt IH]; intros text rest; cbn [literal]; [done|].
  case_if; [intros [= <- <-]; done..|].
  destruct (literal fmt) as [[t r]| |]; cbn; intros [= <- <-]. specialize (IH _ _ eq_refl). lia.
Qed.

Lemma print_c_gives format : gives (print_c format) (λ rest, length rest < length format)%nat.
Proof.
  unfold print_c. destruct format as [|c fmt]; [apply gives_undef|].
  apply (gives_bind _ _ (leaves (length fmt))).
  - intros st. unfold lift. destruct (literal fmt) as [[t r]| |] eqn:E; cbn; [|done..].
    by eapply literal_length.
  - intros [text rest] H. cbn [snd] in H. eapply gives_bind; [apply gives_any|]. intros _ _.
    apply gives_ret. simpl. lia.
Qed.

(** Going on after a step that consumed a character, with enough fuel. *)
Lemma loop_cong {A} (p : P A) (len : A → nat) n st (f g : A → P ()) :
  gives p (λ a, len a < n)%nat → (∀ a st, (len a < n)%nat → f a st = g a st) →
  (p ≫= f) st = (p ≫= g) st.
Proof.
  intros Hp H. unfold mbind, P_bind. apply (returns_ext _ _ _ _ (Hp st)).
  intros [a st'] Ha. by apply H.
Qed.

(** Formatting terminates: every round of the loop consumes a character
    of the format, so the fuel the model gives it, the length of the format, is
    never used up; more fuel changes nothing, for any format and arguments. *)
Theorem vcbprintf_fuel fuel errno_message format rejected st :
  (length format <= fuel)%nat →
  vcbprintf_loop fuel errno_message format rejected st =
  vcbprintf_loop (length format) errno_message format rejected st.
Proof.
  assert (H : ∀ f1 f2 format rejected st, (length format <= f1)%nat → (length format <= f2)%nat →
    vcbprintf_loop f1 errno_message format rejected st = vcbprintf_loop f2 errno_message format rejected st).
  { clear. induction f1 as [|f1 IH]; intros f2 format rejected st H1 H2.
    { destruct format; [|simpl in H1; lia]. destruct f2; done. }
    destruct format as [|c0 fmt0]; [destruct f2; done|]. set (format := c0 :: fmt0) in *.
    destruct f2 as [|f2]; [simpl in H2; lia|]. cbn [vcbprintf_loop].
    assert (Hlen : length format = S (length fmt0)) by done.
    assert (Hgo : ∀ (p : P (list Z)) r st, gives p (λ rest, length rest < length format)%nat →
      (format ← p; vcbprintf_loop f1 errno_message format r) st =
      (format ← p; vcbprintf_loop f2 errno_message format r) st).
    { intros p r st' Hp. apply (loop_cong p length (length format)); [done|].
      intros rest st'' Hr. apply IH; lia. }
    apply (loop_cong _ (λ _, O) 1); [eapply gives_weaken; [apply gives_any|lia]|]. intros c st1 _.
    case_if; [done|]. case_if; [apply Hgo, print_c_gives|].
    apply (loop_cong _ (λ _, O) 1);
      [eapply gives_weaken; [apply gives_any|lia]|]. intros c' st2 _.
    case_if.
    { apply Hgo. eapply gives_weaken; [apply print_c_gives|]. cbn. intros a. rewrite length_drop. lia. }
    destruct rejected; [apply Hgo, print_c_gives|].
    apply (loop_cong _ (λ r, match r with Handled rest => length rest | _ => O end) (length format)).
    - eapply gives_weaken; [apply directive_gives|]. intros [rest| |]; cbn; rewrite ?length_drop; lia.
    - intros [rest| |] st3 Hr; [apply IH; lia|apply Hgo, print_c_gives|apply Hgo, print_c_gives]. }
  intros Hf. by apply H.
Qed.

Lemma vcbprintf_fuel_witness :
  vcbprintf_loop 100 [] (lit "%d" ++ [0]) false (PState [VInt 32 1] 0 []) =
  vcbprintf_loop (length (lit "%d" ++ [0])) [] (lit "%d" ++ [0]) false (PState [VInt 32 1] 0 []).
Proof. apply (vcbprintf_fuel 100 [] (lit "%d" ++ [0]) false (PState [VInt 32 1] 0 [])). simpl. lia. Defined.

End Printf.
