(* ===== verification/Random.v ===== *)
(** * Random numbers

    [stdlib/arc4random_buf.c] (the ChaCha20 keystream and the generator that
    is rekeyed from it), [arc4random.c], [arc4random_uniform.c] and [rand.c].

    Fixed arrays are lists that keep the declared length ([chacha_wf],
    [rs_wf]); the entropy the kernel supplies and the process identifier are
    parameters, threaded through a world [W].  The mutexes are not modelled:
    each function is the critical section they protect.  Of the two builds the
    user-space one is modelled, not the [__is_sortix_libk] one. *)

From stdpp Require Import base list numbers.
From Stdlib Require Import ZArith Lia.
From S2P Require Import Prelude.

#[local] Open Scope Z_scope.

Module Random.

(** ** ChaCha *)

Record chacha := { input : list Z }.

Definition chacha_read_little_uint32 (buf : list Z) : Z :=
  Z.lor (Z.lor (Z.lor (Z.shiftl (buf !!! 0%nat) 0) (Z.shiftl (buf !!! 1%nat) 8))
               (Z.shiftl (buf !!! 2%nat) 16)) (Z.shiftl (buf !!! 3%nat) 24).

(** [ctx->input[at + i] = chacha_read_little_uint32(key + i * 4)] for [i < n]. *)
Fixpoint store_words (n : nat) (at_ : nat) (inp key : list Z) : list Z :=
  match n with
  | O => inp
  | S n => store_words n (S at_) (<[at_ := chacha_read_little_uint32 key]> inp) (drop 4 key)
  end.

(** "expand 32-byte k" *)
Definition sigma : list Z :=
  [101; 120; 112; 97; 110; 100; 32; 51; 50; 45; 98; 121; 116; 101; 32; 107].

Definition chacha_keysetup (ctx : chacha) (key : list Z) : chacha :=
  {| input := store_words 8 4 (store_words 4 0 (input ctx) sigma) key |}.

Definition chacha_ivsetup (ctx : chacha) (iv : list Z) : chacha :=
  {| input := store_words 2 14 (<[13%nat := 0]> (<[12%nat := 0]> (input ctx))) iv |}.

Definition chacha_rotate (v n : Z) : Z := Z.lor (u32 (Z.shiftl v n)) (Z.shiftr v (32 - n)).

Definition chacha_quarter_round (a b c d : Z) : Z * Z * Z * Z :=
  let a := u32 (a + b) in
  let d := chacha_rotate (Z.lxor d a) 16 in
  let c := u32 (c + d) in
  let b := chacha_rotate (Z.lxor b c) 12 in
  let a := u32 (a + b) in
  let d := chacha_rotate (Z.lxor d a) 8 in
  let c := u32 (c + d) in
  let b := chacha_rotate (Z.lxor b c) 7 in
  (a, b, c, d).

Definition quarter (i j k l : nat) (work : list Z) : list Z :=
  let '(a, b, c, d) :=
    chacha_quarter_round (work !!! i) (work !!! j) (work !!! k) (work !!! l) in
  <[l := d]> (<[k := c]> (<[j := b]> (<[i := a]> work))).

Definition double_round (w : list Z) : list Z :=
  let w := quarter 0 4 8 12 w in
  let w := quarter 1 5 9 13 w in
  let w := quarter 2 6 10 14 w in
  let w := quarter 3 7 11 15 w in
  let w := quarter 0 5 10 15 w in
  let w := quarter 1 6 11 12 w in
  let w := quarter 2 7 8 13 w in
  quarter 3 4 9 14 w.

Definition htole32_bytes (x : Z) : list Z :=
  [u8 x; u8 (Z.shiftr x 8); u8 (Z.shiftr x 16); u8 (Z.shiftr x 24)].

(** The 64 bytes of one iteration: [i = 20, 18, ..., 2]. *)
Definition chacha_block (inp : list Z) : list Z :=
  let work := Nat.iter 10 double_round inp in
  let work := zip_with (λ x y, u32 (x + y)) work inp in
  mjoin (htole32_bytes <$> work).

Definition chacha_count (inp : list Z) : list Z :=
  let inp := <[12%nat := u32 (inp !!! 12%nat + 1)]> inp in
  if inp !!! 12%nat =? 0 then <[13%nat := u32 (inp !!! 13%nat + 1)]> inp else inp.

Fixpoint keystream_loop (fuel : nat) (ctx : chacha) (keystream : list Z) (offset size : Z)
    : outcome (list Z * chacha) :=
  if negb (offset <? size) then Ret (keystream, ctx) else
  match fuel with
  | O => OutOfFuel
  | S fuel =>
      let left := size - offset in
      let work := chacha_block (input ctx) in
      let ctx := {| input := chacha_count (input ctx) |} in
      let amount := if left <? 64 then left else 64 in
      keystream ← write_at keystream offset (take (Z.to_nat amount) work);
      keystream_loop fuel ctx keystream (offset + amount) size
  end.

Definition chacha_keystream (ctx : chacha) (keystream : list Z) (size : Z)
    : outcome (list Z * chacha) :=
  keystream_loop (Z.to_nat size) ctx keystream 0 size.

(** ** arc4random_buf *)

Definition KEYSZ : Z := 32.
Definition IVSZ : Z := 8.
Definition REKEY_BASE : Z := 1024 * 1024.
Definition BUFSZ : Z := 16 * 64.

Record rs := {
  rs_initialized : bool;
  rs_pid : Z;
  rs_have : Z;
  rs_count : Z;
  rs_chacha : chacha;
  rs_buf : list Z
}.

Definition rs_init : rs := {|
  rs_initialized := false; rs_pid := 0; rs_have := 0; rs_count := 0;
  rs_chacha := {| input := replicate 16 0 |};
  rs_buf := replicate (Z.to_nat BUFSZ) 0 |}.

(** [getpid() != rs_pid]: the child of a fork drops what it inherited. *)
Definition fork_check (pid : Z) (s : rs) : rs :=
  if negb (pid =? rs_pid s) then
    {| rs_initialized := rs_initialized s; rs_pid := pid; rs_have := 0; rs_count := 0;
       rs_chacha := rs_chacha s; rs_buf := replicate (Z.to_nat BUFSZ) 0 |}
  else s.

(** Fresh entropy is mixed into the running key, not substituted for it. *)
Definition mix_entropy (s : rs) (entropy : list Z) : outcome (list Z * chacha) :=
  if rs_initialized s then
    '(old_entropy, ctx) ← chacha_keystream (rs_chacha s)
                            (replicate (Z.to_nat (KEYSZ + IVSZ)) 0) (KEYSZ + IVSZ);
    Ret (zip_with Z.lxor entropy old_entropy, ctx)
  else Ret (entropy, rs_chacha s).

Section Generator.
Context {W : Type}.

(** [getentropy(entropy, sizeof(entropy))] on the 40-byte [entropy]. *)
Variable getentropy : W → list Z * W.

Definition rekey (s : rs) (w : W) : outcome (rs * W) :=
  let '(entropy, w) := getentropy w in
  '(entropy, ctx) ← mix_entropy s entropy;
  let ctx := chacha_keysetup ctx entropy in
  let ctx := chacha_ivsetup ctx (drop (Z.to_nat KEYSZ) entropy) in
  '(rekey_fuzz, ctx) ← chacha_keystream ctx (replicate 4 0) 4;
  Ret ({| rs_initialized := true; rs_pid := rs_pid s; rs_have := 0;
          rs_count := REKEY_BASE + chacha_read_little_uint32 rekey_fuzz mod REKEY_BASE;
          rs_chacha := ctx; rs_buf := replicate (Z.to_nat BUFSZ) 0 |}, w).

Definition refill (s : rs) : outcome rs :=
  '(buf, ctx) ← chacha_keystream (rs_chacha s) (rs_buf s) BUFSZ;
  let ctx := chacha_keysetup ctx buf in
  let ctx := chacha_ivsetup ctx (drop (Z.to_nat KEYSZ) buf) in
  Ret {| rs_initialized := rs_initialized s; rs_pid := rs_pid s;
         rs_have := BUFSZ - KEYSZ - IVSZ; rs_count := rs_count s;
         rs_chacha := ctx; rs_buf := buf |}.

(** The two tests that end an iteration. *)
Definition refresh (s : rs) (w : W) : outcome (rs * W) :=
  '(s, w) ← (if rs_count s =? 0 then rekey s w else Ret (s, w));
  s ← (if rs_have s =? 0 then refill s else Ret s);
  Ret (s, w).

(** [memcpy(buffer, randomness, available); memset(randomness, 0, available)]:
    the bytes handed out, and the state without them. *)
Definition consume (s : rs) (available : Z) : outcome (list Z * rs) :=
  let at_ := BUFSZ - rs_have s in
  let bytes := take (Z.to_nat available) (drop (Z.to_nat at_) (rs_buf s)) in
  buf ← write_at (rs_buf s) at_ (replicate (Z.to_nat available) 0);
  Ret (bytes, {| rs_initialized := rs_initialized s; rs_pid := rs_pid s;
                 rs_have := rs_have s - available; rs_count := rs_count s - available;
                 rs_chacha := rs_chacha s; rs_buf := buf |}).

Fixpoint buf_loop (fuel : nat) (s : rs) (w : W) (buffer : list Z) (off size : Z)
    : outcome (list Z * rs * W) :=
  if negb (0 <? size) then Ret (buffer, s, w) else
  match fuel with
  | O => OutOfFuel
  | S fuel =>
      let available := rs_have s in
      let available := if size <? available then size else available in
      let available := if rs_count s <? available then rs_count s else available in
      '(s, buffer) ←
        (if 0 <? available then
           '(bytes, s) ← consume s available;
           buffer ← write_at buffer off bytes;
           Ret (s, buffer)
         else Ret (s, buffer));
      '(s, w) ← refresh s w;
      buf_loop fuel s w buffer (off + available) (size - available)
  end.

Definition arc4random_buf (pid : Z) (s : rs) (w : W) (buffer : list Z) (size : Z)
    : outcome (list Z * rs * W) :=
  buf_loop (S (Z.to_nat size)) (fork_check pid s) w buffer 0 size.

Definition arc4random (pid : Z) (s : rs) (w : W) : outcome (Z * rs * W) :=
  '(result, s, w) ← arc4random_buf pid s w (replicate 4 0) 4;
  Ret (chacha_read_little_uint32 result, s, w).

Fixpoint uniform_loop (fuel : nat) (pid : Z) (s : rs) (w : W) (min upper_bound : Z)
    : outcome (Z * rs * W) :=
  match fuel with
  | O => OutOfFuel
  | S fuel =>
      '(r, s, w) ← arc4random pid s w;
      if min <=? r then Ret (r mod upper_bound, s, w)
      else uniform_loop fuel pid s w min upper_bound
  end.

Definition arc4random_uniform (fuel : nat) (pid : Z) (s : rs) (w : W) (upper_bound : Z)
    : outcome (Z * rs * W) :=
  if upper_bound <? 2 then Ret (0, s, w) else
  let min := u32 (- upper_bound) mod upper_bound in
  uniform_loop fuel pid s w min upper_bound.

End Generator.

(** ** rand *)

Record rand_state := { m_w : Z; m_z : Z }.

Definition rand_init : rand_state := {| m_w := 1337; m_z := 37 |}.
Definition RAND_MAX : Z := 32767.

Definition random_32_bits (s : rand_state) : Z * rand_state :=
  let z := u32 (36969 * Z.land (m_z s) 65535 + Z.land (Z.shiftr (m_z s) 16) 65535) in
  let w := u32 (18000 * Z.land (m_w s) 65535 + Z.land (Z.shiftr (m_w s) 16) 65535) in
  (u32 (u32 (Z.shiftl z 16) + w), {| m_w := w; m_z := z |}).

Definition rand (s : rand_state) : Z * rand_state :=
  let '(r, s) := random_32_bits s in (s32 (r mod u32 (RAND_MAX + 1)), s).

Definition srand (seed : Z) : rand_state :=
  {| m_w := Z.land (Z.shiftr seed 16) 65535; m_z := Z.land seed 65535 |}.

(** The first block under the all-zero key and nonce (the published test
    vector of ChaCha20). *)
Example chacha_zero_block :
  (λ r, take 16 r.1) <$> chacha_keystream
     (chacha_ivsetup (chacha_keysetup {| input := replicate 16 0 |} (replicate 32 0))
                     (replicate 8 0)) (replicate 64 0) 64
  = Ret [118; 184; 224; 173; 160; 241; 61; 144; 64; 93; 106; 229; 83; 134; 189; 40].
Proof. vm_compute. reflexivity. Qed.

(** ** Sizes and ranges *)

Definition chacha_wf (ctx : chacha) : Prop :=
  length (input ctx) = 16%nat ∧ Forall (in_u 32) (input ctx).

Lemma lookup_total_range {w} (l : list Z) i : Forall (in_u w) l → 1 <= w → in_u w (l !!! i).
Proof.
  intros Hl Hw. rewrite list_lookup_total_alt. destruct (l !! i) as [x|] eqn:E; simpl.
  - by eapply Forall_lookup_1 in E.
  - unfold in_u. pose proof (Z.pow_gt_1 2 w). cbn. lia.
Qed.

Lemma shiftl_byte_range x k : in_u 8 x → 0 <= k <= 24 → in_u 32 (Z.shiftl x k).
Proof.
  unfold in_u. intros Hx Hk. rewrite shiftl_mul by lia.
  pose proof (Z.pow_le_mono_r 2 k 24). pose proof (Z.pow_pos_nonneg 2 k).
  change (2 ^ 24) with 16777216 in *. change (2 ^ 8) with 256 in *.
  change (2 ^ 32) with 4294967296. nia.
Qed.

Lemma read_little_range buf : Forall (in_u 8) buf → in_u 32 (chacha_read_little_uint32 buf).
Proof.
  intros Hb. unfold chacha_read_little_uint32.
  repeat apply lor_range; try lia; (apply shiftl_byte_range; [|lia]);
    by apply lookup_total_range.
Qed.

Lemma store_words_length n at_ inp key : length (store_words n at_ inp key) = length inp.
Proof. revert at_ inp key. induction n; intros; simpl; [done|]. by rewrite IHn, length_insert. Qed.

Lemma store_words_range n at_ inp key :
  Forall (in_u 8) key → Forall (in_u 32) inp → Forall (in_u 32) (store_words n at_ inp key).
Proof.
  revert at_ inp key. induction n as [|n IH]; intros at_ inp key Hk Hi; simpl; [done|].
  apply IH; [by apply Forall_drop|]. apply Forall_insert; [done|]. by apply read_little_range.
Qed.

Lemma sigma_range : Forall (in_u 8) sigma.
Proof. repeat constructor; lia. Qed.

Lemma keysetup_wf ctx key :
  Forall (in_u 8) key → chacha_wf ctx → chacha_wf (chacha_keysetup ctx key).
Proof.
  intros Hk [Hl Hw]. split; cbn [chacha_keysetup input]; [by rewrite !store_words_length|].
  repeat apply store_words_range; [done|apply sigma_range|done].
Qed.

Lemma ivsetup_wf ctx iv :
  Forall (in_u 8) iv → chacha_wf ctx → chacha_wf (chacha_ivsetup ctx iv).
Proof.
  intros Hk [Hl Hw]. split; cbn [chacha_ivsetup input].
  - by rewrite store_words_length, !length_insert.
  - apply store_words_range; [done|]. by repeat (apply Forall_insert; [|done]).
Qed.

Lemma quarter_length i j k l w : length (quarter i j k l w) = length w.
Proof. unfold quarter. destruct (chacha_quarter_round _ _ _ _) as [[[]]]. by rewrite !length_insert. Qed.

Lemma double_round_length w : length (double_round w) = length w.
Proof. unfold double_round. cbv zeta. by rewrite !quarter_length. Qed.

Lemma rounds_length n w : length (Nat.iter n double_round w) = length w.
Proof.
  induction n as [|n IH]; [done|]. rewrite Nat.iter_succ, double_round_length. exact IH.
Qed.

Lemma join_cons {A} (x : list A) ls : mjoin (x :: ls) = x ++ mjoin ls.
Proof. done. Qed.

Lemma join_bytes_length l : length (mjoin (htole32_bytes <$> l)) = (4 * length l)%nat.
Proof.
  induction l as [|x l IH]; [done|]. rewrite fmap_cons, join_cons, length_app, IH. simpl. lia.
Qed.

Lemma block_length inp : length inp = 16%nat → length (chacha_block inp) = 64%nat.
Proof.
  intros H. unfold chacha_block.
  rewrite join_bytes_length, length_zip_with, rounds_length, H. done.
Qed.

Lemma block_range inp : Forall (in_u 8) (chacha_block inp).
Proof.
  unfold chacha_block. apply Forall_join, Forall_fmap, Forall_forall.
  intros x _. simpl. repeat constructor; apply wrapu_range; lia.
Qed.

(** ** The keystream is the concatenation of the blocks of successive counters *)

Definition counter (inp : list Z) : Z := inp !!! 12%nat + 2 ^ 32 * inp !!! 13%nat.
Definition set_counter (inp : list Z) (c : Z) : list Z :=
  <[12%nat := u32 c]> (<[13%nat := u32 (c / 2 ^ 32)]> inp).

Lemma set_counter_length inp c : length (set_counter inp c) = length inp.
Proof. unfold set_counter. by rewrite !length_insert. Qed.

Lemma set_counter_range inp c : Forall (in_u 32) inp → Forall (in_u 32) (set_counter inp c).
Proof.
  intros H. unfold set_counter. repeat apply Forall_insert; try done; apply wrapu_range; lia.
Qed.

Lemma chacha_count_counter inp :
  length inp = 16%nat → Forall (in_u 32) inp →
  chacha_count inp = set_counter inp (counter inp + 1).
Proof.
  intros Hl Hw. pose proof (lookup_total_range inp 12 Hw ltac:(lia)) as H12.
  pose proof (lookup_total_range inp 13 Hw ltac:(lia)) as H13.
  unfold chacha_count, set_counter, counter. rewrite list_lookup_total_insert_eq by lia.
  rewrite list_lookup_total_insert_ne by lia.
  assert (Hlow : u32 (inp !!! 12%nat + 2 ^ 32 * inp !!! 13%nat + 1) = u32 (inp !!! 12%nat + 1)).
  { unfold wrapu. rewrite <- (Z.mod_add (inp !!! 12%nat + 1) (inp !!! 13%nat)) by lia. f_equal. lia. }
  rewrite Hlow. unfold in_u in *. case_if.
  - assert (inp !!! 12%nat = 2 ^ 32 - 1) as E12.
    { unfold wrapu in Eif. apply Z.mod_divide in Eif; [|lia]. destruct Eif as [q Hq]. lia. }
    rewrite list_insert_insert_ne by lia. f_equal. f_equal. f_equal.
    rewrite E12. replace (2 ^ 32 - 1 + 2 ^ 32 * inp !!! 13%nat + 1) with ((inp !!! 13%nat + 1) * 2 ^ 32) by lia.
    by rewrite Z.div_mul by lia.
  - rewrite (list_insert_id inp 13); [done|]. rewrite list_lookup_lookup_total_lt by lia.
    f_equal. symmetry. unfold wrapu in *.
    destruct (decide (inp !!! 12%nat = 2 ^ 32 - 1)) as [E|E]; [by rewrite E in Eif|].
    replace (inp !!! 12%nat + 2 ^ 32 * inp !!! 13%nat + 1)
      with (inp !!! 12%nat + 1 + inp !!! 13%nat * 2 ^ 32) by lia.
    rewrite Z.div_add, Z.div_small by lia. by rewrite Z.mod_small by lia.
Qed.

Lemma set_counter_again inp c d :
  length inp = 16%nat → set_counter (set_counter inp c) d = set_counter inp d.
Proof.
  intros Hl. unfold set_counter. rewrite (list_insert_insert_ne _ 13 12) by lia.
  by rewrite !list_insert_insert_eq.
Qed.

Lemma counter_set_counter inp c :
  length inp = 16%nat → counter (set_counter inp c) = u64 c.
Proof.
  intros Hl. unfold counter, set_counter, wrapu.
  rewrite list_lookup_total_insert_eq by (rewrite length_insert; lia).
  rewrite list_lookup_total_insert_ne, list_lookup_total_insert_eq by lia.
  change (2 ^ 64) with (2 ^ 32 * 2 ^ 32). rewrite Z.rem_mul_r by lia. lia.
Qed.

Lemma set_counter_mod inp c : set_counter inp (u64 c) = set_counter inp c.
Proof.
  unfold set_counter. f_equal; [by apply wrapu_wrapu_le|]. f_equal.
  unfold wrapu. change (2 ^ 64) with (2 ^ 32 * 2 ^ 32). rewrite Z.rem_mul_r by lia.
  rewrite Z.add_comm, Z.mul_comm, Z.div_add_l by lia.
  rewrite (Z.div_small (c mod _)), Z.add_0_r by (apply Z.mod_pos_bound; lia).
  apply Z.mod_mod. lia.
Qed.

(** [n] blocks from the state [inp]. *)
Definition blocks (n : nat) (inp : list Z) : list Z :=
  mjoin ((λ i, chacha_block (set_counter inp (counter inp + Z.of_nat i))) <$> seq 0 n).

Lemma set_counter_id inp :
  length inp = 16%nat → Forall (in_u 32) inp → set_counter inp (counter inp) = inp.
Proof.
  intros Hl Hw. pose proof (lookup_total_range inp 12 Hw ltac:(lia)) as H12.
  pose proof (lookup_total_range inp 13 Hw ltac:(lia)) as H13. unfold in_u in *.
  unfold set_counter, counter, wrapu.
  rewrite (Z.mul_comm (2 ^ 32)), Z.mod_add, Z.div_add, (Z.div_small _ (2 ^ 32)) by lia.
  rewrite Z.add_0_l, !Z.mod_small by lia.
  by rewrite (list_insert_id _ 13), list_insert_id by (apply list_lookup_lookup_total_lt; lia).
Qed.

Lemma blocks_S n inp :
  length inp = 16%nat → Forall (in_u 32) inp →
  blocks (S n) inp = chacha_block inp ++ blocks n (chacha_count inp).
Proof.
  intros Hl Hw. unfold blocks. rewrite <- cons_seq, fmap_cons, join_cons.
  rewrite Z.add_0_r, set_counter_id by done. f_equal.
  rewrite <- fmap_S_seq, <- list_fmap_compose. f_equal. apply list_fmap_ext.
  intros i j _. simpl. rewrite chacha_count_counter by done.
  rewrite set_counter_again, counter_set_counter by done.
  rewrite <- (set_counter_mod inp (u64 _ + _)), <- (set_counter_mod inp (counter inp + _)).
  do 2 f_equal. unfold wrapu. rewrite Zplus_mod_idemp_l. f_equal. lia.
Qed.

Lemma blocks_length n inp : length inp = 16%nat → length (blocks n inp) = (64 * n)%nat.
Proof.
  intros Hl. unfold blocks. rewrite <- (length_seq n 0) at 2. induction (seq 0 n) as [|i l IH]; [done|].
  rewrite fmap_cons, join_cons, length_app, block_length, IH by by rewrite set_counter_length.
  simpl. lia.
Qed.

Lemma blocks_range n inp : Forall (in_u 8) (blocks n inp).
Proof. unfold blocks. apply Forall_join, Forall_fmap, Forall_forall. intros. apply block_range. Qed.

Definition nblocks (size : Z) : nat := Z.to_nat ((size + 63) / 64).

Lemma nblocks_step size :
  0 < size → nblocks size = S (nblocks (size - Z.min size 64)).
Proof.
  intros Hs. unfold nblocks. destruct (Z.le_ge_cases size 64).
  - rewrite Z.min_l, Z.sub_diag by lia. change ((0 + 63) / 64) with 0.
    replace ((size + 63) / 64) with 1; [done|]. apply (Z.div_unique _ _ _ (size - 1)); lia.
  - rewrite Z.min_r by lia. replace (size + 63) with ((size - 64 + 63) + 1 * 64) by lia.
    rewrite Z.div_add by lia. pose proof (Z.div_pos (size - 64 + 63) 64). lia.
Qed.

Lemma count_wf inp :
  length inp = 16%nat → Forall (in_u 32) inp →
  length (chacha_count inp) = 16%nat ∧ Forall (in_u 32) (chacha_count inp).
Proof.
  intros Hl Hw. rewrite chacha_count_counter by done.
  split; [by rewrite set_counter_length|by apply set_counter_range].
Qed.

Lemma keystream_loop_run fuel inp done_ rest offset left :
  length inp = 16%nat → Forall (in_u 32) inp → offset = Z.of_nat (length done_) →
  0 <= left <= Z.of_nat (length rest) → (Z.to_nat left <= fuel)%nat →
  keystream_loop fuel {| input := inp |} (done_ ++ rest) offset (offset + left)
  = Ret (done_ ++ take (Z.to_nat left) (blocks (nblocks left) inp) ++ drop (Z.to_nat left) rest,
         {| input := Nat.iter (nblocks left) chacha_count inp |}).
Proof.
  revert inp done_ rest offset left. induction fuel as [|fuel IH];
    intros inp done_ rest offset left Hl Hw -> Hleft Hfuel; cbn [keystream_loop];
    destruct (Z.ltb_spec (Z.of_nat (length done_)) (Z.of_nat (length done_) + left)); simpl negb; cbv iota; try lia.
  1, 3: replace left with 0 by lia; done.
  replace (Z.of_nat (length done_) + left - Z.of_nat (length done_)) with left by lia.
  replace (if left <? 64 then left else 64) with (Z.min left 64) by (case_if; lia).
  cbn [input]. set (a := Z.min left 64). set (blk := take (Z.to_nat a) (chacha_block inp)).
  assert (0 < a <= left) as Ha by lia.
  assert (length blk = Z.to_nat a) as Hblk
    by (unfold blk, a; rewrite length_take, block_length by done; lia).
  rewrite write_at_prefix by lia. cbn [mbind outcome_bind].
  destruct (count_wf inp Hl Hw) as [Hl' Hw'].
  rewrite app_assoc, Hblk.
  replace (Z.of_nat (length done_) + left) with (Z.of_nat (length done_) + a + (left - a)) by lia.
  rewrite IH; [|done|done|rewrite length_app; lia|rewrite length_drop; lia|lia].
  rewrite (nblocks_step left), Nat.iter_succ_r by lia. fold a.
  rewrite blocks_S, take_app by done. rewrite block_length, <- !app_assoc, drop_drop by done.
  f_equal. f_equal. f_equal. f_equal.
  - unfold blk, a. destruct (Z.le_ge_cases left 64).
    + f_equal. lia.
    + rewrite !take_ge by (rewrite block_length by done; lia). done.
  - f_equal; [f_equal; lia|]. f_equal. lia.
Qed.

Lemma iter_count n inp :
  length inp = 16%nat → Forall (in_u 32) inp →
  Nat.iter n chacha_count inp = set_counter inp (counter inp + Z.of_nat n).
Proof.
  intros Hl Hw. induction n as [|n IH]; [by rewrite Z.add_0_r, set_counter_id|].
  rewrite Nat.iter_succ, IH.
  rewrite chacha_count_counter, set_counter_again, counter_set_counter
    by (rewrite ?set_counter_length; auto using set_counter_range).
  rewrite <- (set_counter_mod _ (_ + 1)), <- (set_counter_mod _ (_ + Z.of_nat (S n))).
  f_equal. unfold wrapu. rewrite Zplus_mod_idemp_l. f_equal. lia.
Qed.

(** [chacha_keystream] writes the first [size] bytes of the concatenated
    blocks of the successive values of the 64-bit counter held in words 12 and
    13, leaves the rest of the buffer alone and advances the counter by the
    number of blocks it started, wrapping at 2^64. *)
Lemma chacha_keystream_blocks ctx keystream size :
  chacha_wf ctx → 0 <= size <= Z.of_nat (length keystream) →
  chacha_keystream ctx keystream size
  = Ret (take (Z.to_nat size) (blocks (nblocks size) (input ctx))
           ++ drop (Z.to_nat size) keystream,
         {| input := set_counter (input ctx) (counter (input ctx) + Z.of_nat (nblocks size)) |}).
Proof.
  intros [Hl Hw] Hs. destruct ctx as [inp]. cbn [input] in *. unfold chacha_keystream.
  rewrite <- iter_count by done.
  by apply (keystream_loop_run (Z.to_nat size) inp [] keystream 0 size).
Qed.

Lemma keystream_length size inp :
  length inp = 16%nat → 0 <= size →
  length (take (Z.to_nat size) (blocks (nblocks size) inp)) = Z.to_nat size.
Proof.
  intros Hl Hs. rewrite length_take, blocks_length by done. unfold nblocks.
  pose proof (Z.div_mod (size + 63) 64). pose proof (Z.mod_pos_bound (size + 63) 64).
  lia.
Qed.

(** What a whole buffer filled by the keystream looks like. *)
Lemma chacha_keystream_fill ctx keystream size :
  chacha_wf ctx → size = Z.of_nat (length keystream) →
  ∃ out ctx', chacha_keystream ctx keystream size = Ret (out, ctx')
    ∧ length out = length keystream ∧ Forall (in_u 8) out ∧ chacha_wf ctx'.
Proof.
  intros Hwf ->. pose proof Hwf as [Hl Hw].
  eexists _, _. split; [apply chacha_keystream_blocks; [done|lia]|].
  rewrite drop_ge, app_nil_r by lia. split; [rewrite keystream_length by (done || lia); lia|].
  split; [apply Forall_take, blocks_range|]. split; cbn [input].
  - by rewrite set_counter_length.
  - by apply set_counter_range.
Qed.

(** ** The generator *)

#[local] Opaque chacha_keystream chacha_keysetup chacha_ivsetup.

(** The buffer keeps its size, the counts their bounds, and every byte past
    the seed that is no longer on offer has been erased. *)
Record rs_wf (s : rs) : Prop := {
  wf_chacha : chacha_wf (rs_chacha s);
  wf_have : 0 <= rs_have s <= BUFSZ - KEYSZ - IVSZ;
  wf_count : 0 <= rs_count s < 2 * REKEY_BASE;
  wf_length : length (rs_buf s) = Z.to_nat BUFSZ;
  wf_bytes : Forall (in_u 8) (rs_buf s);
  wf_erased : ∀ i, KEYSZ + IVSZ <= i < BUFSZ - rs_have s → rs_buf s !! Z.to_nat i = Some 0
}.

Definition ready (s : rs) : Prop := 0 < rs_have s ∧ 0 < rs_count s.

(** Zeroed buffers hold bytes. *)
Lemma zeros_range n : Forall (in_u 8) (replicate n 0).
Proof. by apply Forall_replicate. Qed.

Lemma zeros_lookup i : 0 <= i < BUFSZ → replicate (Z.to_nat BUFSZ) 0 !! Z.to_nat i = Some 0.
Proof. intros. apply lookup_replicate_2. lia. Qed.

Lemma rs_init_wf : rs_wf rs_init.
Proof.
  split; cbn [rs_init rs_chacha rs_have rs_count rs_buf].
  - split; [done|]. by apply Forall_replicate.
  - done.
  - done.
  - by rewrite length_replicate.
  - apply zeros_range.
  - intros. apply zeros_lookup. unfold KEYSZ, IVSZ in *. lia.
Qed.

Lemma fork_check_wf pid s : rs_wf s → rs_wf (fork_check pid s).
Proof.
  intros Hs. unfold fork_check. destruct (negb _); [|done].
  split; cbn [rs_chacha rs_have rs_count rs_buf].
  - apply Hs.
  - done.
  - done.
  - by rewrite length_replicate.
  - apply zeros_range.
  - intros. apply zeros_lookup. unfold KEYSZ, IVSZ in *. lia.
Qed.

Section Stream.
Context {W : Type} (getentropy : W → list Z * W).

(** The system call fills the 40 bytes it is asked for. *)
Hypothesis getentropy_fills : ∀ w,
  length (getentropy w).1 = Z.to_nat (KEYSZ + IVSZ) ∧ Forall (in_u 8) (getentropy w).1.

(** The generator one byte at a time: the abstract view of the state. *)
Definition next (s : rs) (w : W) : outcome (list Z * rs * W) :=
  '(s, w) ← refresh getentropy s w;
  '(b, s) ← consume s 1;
  '(s, w) ← refresh getentropy s w;
  Ret (b, s, w).

Fixpoint draws (n : nat) (s : rs) (w : W) : outcome (list Z * rs * W) :=
  match n with
  | O => Ret ([], s, w)
  | S n =>
      '(b, s, w) ← next s w;
      '(l, s, w) ← draws n s w;
      Ret (b ++ l, s, w)
  end.

Lemma zip_lxor_range l k : Forall (in_u 8) l → Forall (in_u 8) k → Forall (in_u 8) (zip_with Z.lxor l k).
Proof.
  intros Hl. revert k. induction Hl as [|x l Hx Hl IH]; intros [|y k] Hk; simpl; try done.
  inversion Hk; subst. constructor; [by apply lxor_range|by apply IH].
Qed.

Lemma mix_entropy_run s entropy :
  rs_wf s → Forall (in_u 8) entropy →
  ∃ e c, mix_entropy s entropy = Ret (e, c) ∧ Forall (in_u 8) e ∧ chacha_wf c.
Proof.
  intros Hs He. unfold mix_entropy.
  destruct (rs_initialized s); [|by eexists _, _; split_and!; [..|apply Hs]].
  destruct (chacha_keystream_fill (rs_chacha s) (replicate (Z.to_nat (KEYSZ + IVSZ)) 0) (KEYSZ + IVSZ))
    as (out & c & -> & Hlen & Ho & Hc); [apply Hs|by rewrite length_replicate|].
  eexists _, _. split; [done|]. split; [by apply zip_lxor_range|done].
Qed.

Lemma setup_wf ctx key :
  Forall (in_u 8) key → chacha_wf ctx →
  chacha_wf (chacha_ivsetup (chacha_keysetup ctx key) (drop (Z.to_nat KEYSZ) key)).
Proof. intros. apply ivsetup_wf; [by apply Forall_drop|]. by apply keysetup_wf. Qed.

Lemma rekeyed_wf i p fuzz c :
  chacha_wf c →
  rs_wf {| rs_initialized := i; rs_pid := p; rs_have := 0;
           rs_count := REKEY_BASE + fuzz mod REKEY_BASE;
           rs_chacha := c; rs_buf := replicate (Z.to_nat BUFSZ) 0 |}.
Proof.
  intros Hc. split; cbn [rs_chacha rs_have rs_count rs_buf].
  - done.
  - done.
  - pose proof (Z.mod_pos_bound fuzz REKEY_BASE eq_refl). unfold REKEY_BASE in *. lia.
  - by rewrite length_replicate.
  - apply zeros_range.
  - intros. apply zeros_lookup. unfold KEYSZ, IVSZ in *. lia.
Qed.

Lemma rekey_run s w :
  rs_wf s → ∃ s' w', rekey getentropy s w = Ret (s', w') ∧ rs_wf s'
    ∧ rs_have s' = 0 ∧ 0 < rs_count s' ∧ rs_pid s' = rs_pid s.
Proof.
  intros Hs. unfold rekey. destruct (getentropy_fills w) as [_ Hb].
  destruct (getentropy w) as [entropy w1]. cbn [fst] in *.
  destruct (mix_entropy_run s entropy Hs Hb) as (e & c & E & He' & Hc).
  destruct (chacha_keystream_fill (chacha_ivsetup (chacha_keysetup c e) (drop (Z.to_nat KEYSZ) e))
              (replicate 4 0) 4) as (fuzz & c' & E2 & Hlen & Ho & Hc');
    [by apply setup_wf|done|].
  do 2 eexists. split.
  { rewrite (outcome_bind_eq _ _ _ E). rewrite (outcome_bind_eq _ _ _ E2). reflexivity. }
  split; [by apply rekeyed_wf|]. cbn [rs_have rs_count rs_pid].
  pose proof (Z.mod_pos_bound (chacha_read_little_uint32 fuzz) REKEY_BASE eq_refl).
  split_and!; [done|unfold REKEY_BASE in *; lia|done].
Qed.

Lemma refill_run s :
  rs_wf s → ∃ s', refill s = Ret s' ∧ rs_wf s'
    ∧ 0 < rs_have s' ∧ rs_count s' = rs_count s ∧ rs_pid s' = rs_pid s.
Proof.
  intros Hs. unfold refill.
  destruct (chacha_keystream_fill (rs_chacha s) (rs_buf s) BUFSZ) as (out & c & E & Hlen & Ho & Hc);
    [apply Hs|rewrite wf_length by done; done|].
  eexists. split; [by rewrite (outcome_bind_eq _ _ _ E)|].
  split; [|split_and!; done].
  split; cbn [rs_chacha rs_have rs_count rs_buf].
  - by apply setup_wf.
  - done.
  - apply Hs.
  - rewrite Hlen. apply Hs.
  - done.
  - intros i Hi. unfold BUFSZ, KEYSZ, IVSZ in *. lia.
Qed.

Lemma refresh_run s w :
  rs_wf s → ∃ s' w', refresh getentropy s w = Ret (s', w') ∧ rs_wf s' ∧ ready s'
    ∧ rs_pid s' = rs_pid s.
Proof.
  intros Hs. unfold refresh.
  assert (∃ s1 w1, (if rs_count s =? 0 then rekey getentropy s w else Ret (s, w)) = Ret (s1, w1)
            ∧ rs_wf s1 ∧ 0 < rs_count s1 ∧ rs_pid s1 = rs_pid s) as (s1 & w1 & E & Hs1 & Hc & Hp).
  { pose proof (wf_count s Hs). case_if; [|eexists _, _; split_and!; [done..|lia|done]].
    destruct (rekey_run s w Hs) as (s1 & w1 & -> & ? & ? & ? & ?). eauto 10. }
  rewrite (outcome_bind_eq _ _ _ E). pose proof (wf_have s1 Hs1). unfold ready. case_if.
  - destruct (refill_run s1 Hs1) as (s2 & E2 & ? & ? & ? & ?).
    eexists _, _. rewrite (outcome_bind_eq _ _ _ E2). split_and!; [done..|congruence|congruence].
  - eexists _, _. split_and!; [done..|lia|lia|done].
Qed.

Lemma refresh_ready s w : ready s → refresh getentropy s w = Ret (s, w).
Proof.
  intros [Hh Hc]. unfold refresh. rewrite (proj2 (Z.eqb_neq (rs_count s) 0)) by lia.
  rewrite (outcome_bind_eq _ _ _ eq_refl).
  by rewrite (proj2 (Z.eqb_neq (rs_have s) 0)) by lia.
Qed.

(** The state once [k] bytes are gone and the buffer is [buf]. *)
Definition taken (s : rs) (k : Z) (buf : list Z) : rs :=
  {| rs_initialized := rs_initialized s; rs_pid := rs_pid s;
     rs_have := rs_have s - k; rs_count := rs_count s - k;
     rs_chacha := rs_chacha s; rs_buf := buf |}.

Definition zeros (x : list Z) : list Z := replicate (length x) 0.

Lemma consume_split s a x c :
  rs_buf s = a ++ x ++ c → Z.of_nat (length a) = BUFSZ - rs_have s →
  consume s (Z.of_nat (length x))
  = Ret (x, taken s (Z.of_nat (length x)) (a ++ zeros x ++ c)).
Proof.
  intros Hb Ha. unfold consume. rewrite Hb, <- Ha, !Nat2Z.id.
  rewrite (outcome_bind_eq _ _ (a ++ zeros x ++ c)).
  - by rewrite drop_app_length, take_app_length.
  - apply write_at_app. unfold zeros. by rewrite length_replicate.
Qed.

Lemma taken_wf s a x c :
  rs_wf s → rs_buf s = a ++ x ++ c → Z.of_nat (length a) = BUFSZ - rs_have s →
  Z.of_nat (length x) <= rs_have s → Z.of_nat (length x) <= rs_count s →
  rs_wf (taken s (Z.of_nat (length x)) (a ++ zeros x ++ c)).
Proof.
  intros Hs Hb Ha Hh Hc. pose proof (wf_have s Hs). pose proof (wf_count s Hs).
  pose proof (wf_length s Hs) as Hl. pose proof (wf_bytes s Hs) as Hbytes.
  pose proof (wf_erased s Hs) as He. rewrite Hb in Hl, Hbytes, He.
  rewrite !length_app in Hl. apply Forall_app in Hbytes as [Hba [_ Hbc]%Forall_app].
  split; cbn [taken rs_chacha rs_have rs_count rs_buf].
  - apply Hs.
  - lia.
  - lia.
  - rewrite !length_app. unfold zeros. rewrite length_replicate. lia.
  - apply Forall_app. split; [done|]. apply Forall_app. split; [apply zeros_range|done].
  - intros i Hi. unfold KEYSZ, IVSZ in *.
    destruct (Z.lt_ge_cases i (Z.of_nat (length a))) as [Hlt|Hge].
    + rewrite lookup_app_l by lia. rewrite <- (He i) by lia. by rewrite lookup_app_l by lia.
    + rewrite lookup_app_r, lookup_app_l by (unfold zeros; rewrite ?length_replicate; lia).
      apply lookup_replicate_2. lia.
Qed.

(** The next [k] bytes on offer. *)
Lemma buffer_split s k :
  rs_wf s → 0 <= k <= rs_have s →
  ∃ a x c, rs_buf s = a ++ x ++ c ∧ Z.of_nat (length a) = BUFSZ - rs_have s
           ∧ Z.of_nat (length x) = k.
Proof.
  intros Hs Hk. pose proof (wf_length s Hs). pose proof (wf_have s Hs).
  set (n := Z.to_nat (BUFSZ - rs_have s)).
  exists (take n (rs_buf s)), (take (Z.to_nat k) (drop n (rs_buf s))), (drop (Z.to_nat k) (drop n (rs_buf s))).
  rewrite !take_drop, !length_take, length_drop. unfold KEYSZ, IVSZ, BUFSZ in *. subst n.
  split; [done|lia].
Qed.

Lemma draws_consume s w a x c s' w' :
  x ≠ [] → rs_buf s = a ++ x ++ c → Z.of_nat (length a) = BUFSZ - rs_have s →
  Z.of_nat (length x) <= rs_have s → Z.of_nat (length x) <= rs_count s →
  refresh getentropy (taken s (Z.of_nat (length x)) (a ++ zeros x ++ c)) w = Ret (s', w') →
  draws (length x) s w = Ret (x, s', w').
Proof.
  revert s a. induction x as [|b x IH]; intros s a Hx Hb Ha Hh Hc Hr; [done|].
  cbn [length] in *. cbn [draws]. unfold next.
  rewrite (outcome_bind_eq _ _ _ (refresh_ready s w ltac:(split; lia))).
  rewrite (outcome_bind_eq _ _ _ (consume_split s a [b] (x ++ c) Hb Ha)).
  destruct x as [|b' x].
  - by rewrite (outcome_bind_eq _ _ _ Hr).
  - set (s1 := taken _ _ _).
    assert (ready s1) as Hs1 by (split; cbn [s1 taken rs_have rs_count length] in *; lia).
    rewrite (outcome_bind_eq _ _ _ (refresh_ready s1 w Hs1)).
    rewrite !(outcome_bind_eq _ _ _ eq_refl).
    enough (E : draws (S (length x)) s1 w = Ret (b' :: x, s', w'))
      by by rewrite (outcome_bind_eq _ _ _ E).
    cbn [length] in *. apply (IH s1 (a ++ [0])); cbn [s1 taken rs_buf rs_have rs_count].
    + done.
    + by rewrite <- app_assoc.
    + rewrite length_app. simpl. lia.
    + lia.
    + lia.
    + rewrite <- Hr. f_equal. unfold s1, taken. cbn [rs_have rs_count rs_pid rs_initialized rs_chacha].
      f_equal; [lia|lia|]. by rewrite <- app_assoc.
Qed.

Lemma draws_app n m s w s1 w1 l1 :
  draws n s w = Ret (l1, s1, w1) →
  draws (n + m) s w = ('(l, s, w) ← draws m s1 w1; Ret (l1 ++ l, s, w)).
Proof.
  revert s w l1. induction n as [|n IH]; intros s w l1; cbn [draws Nat.add].
  - intros [= <- <- <-]. destruct (draws m s w) as [[[]]| |]; done.
  - destruct (next s w) as [[[b s2] w2]| |]; [|done..]. rewrite !(outcome_bind_eq _ _ _ eq_refl).
    destruct (draws n s2 w2) as [[[l s3] w3]| |] eqn:E; [|done..].
    rewrite (outcome_bind_eq _ _ _ eq_refl). intros [= <- <- <-].
    rewrite (IH _ _ _ E). destruct (draws m s3 w3) as [[[]]| |]; [|done..].
    rewrite !(outcome_bind_eq _ _ _ eq_refl). by rewrite app_assoc.
Qed.

(** The amount an iteration takes. *)
Definition available (s : rs) (size : Z) : Z := Z.min (rs_count s) (Z.min size (rs_have s)).

Lemma available_eq s size :
  (if rs_count s <? (if size <? rs_have s then size else rs_have s) then rs_count s
   else (if size <? rs_have s then size else rs_have s)) = available s size.
Proof. unfold available. b2p_if; lia. Qed.

(** One iteration that finds bytes on offer. *)
Lemma buf_loop_step fuel s w done_ rest off size :
  rs_wf s → ready s → off = Z.of_nat (length done_) → 0 < size <= Z.of_nat (length rest) →
  ∃ x s' w', Z.of_nat (length x) = available s size ∧ 0 < available s size <= size
    ∧ Forall (in_u 8) x
    ∧ rs_wf s' ∧ ready s' ∧ rs_pid s' = rs_pid s
    ∧ draws (length x) s w = Ret (x, s', w')
    ∧ buf_loop getentropy (S fuel) s w (done_ ++ rest) off size
      = buf_loop getentropy fuel s' w' ((done_ ++ x) ++ drop (length x) rest)
          (off + available s size) (size - available s size).
Proof.
  intros Hs [Hh Hc] -> Hsize.
  assert (0 < available s size <= size) as Hav by (unfold available; lia).
  destruct (buffer_split s (available s size)) as (a & x & c & Hb & Ha & Hx);
    [done|unfold available in *; lia|].
  assert (rs_wf (taken s (Z.of_nat (length x)) (a ++ zeros x ++ c))) as Ht
    by (apply taken_wf; try done; unfold available in *; lia).
  destruct (refresh_run _ w Ht) as (s' & w' & Hr & Hs' & Hready & Hpid).
  exists x, s', w'. split_and!; try done; try lia.
  - pose proof (wf_bytes s Hs) as Hby. rewrite Hb in Hby. by apply Forall_app in Hby as [_ [? _]%Forall_app].
  - eapply draws_consume; try done; unfold available in *; [|lia..]. intros ->. simpl in *. lia.
  - cbn [buf_loop]. rewrite (proj2 (Z.ltb_lt 0 size)) by lia. cbn [negb]. cbv iota.
    cbv zeta. rewrite (available_eq s size), (proj2 (Z.ltb_lt 0 (available s size))) by lia.
    rewrite <- Hx. rewrite (outcome_bind_eq _ _ (taken s (Z.of_nat (length x)) (a ++ zeros x ++ c),
      (done_ ++ x) ++ drop (length x) rest)).
    + by rewrite (outcome_bind_eq _ _ _ Hr).
    + rewrite (outcome_bind_eq _ _ _ (consume_split s a x c Hb Ha)).
      rewrite (outcome_bind_eq _ _ _ (write_at_prefix done_ rest x _ eq_refl ltac:(lia))).
      by rewrite (app_assoc done_).
Qed.

Lemma buf_loop_draws fuel s w done_ rest off size :
  rs_wf s → ready s → off = Z.of_nat (length done_) → 0 <= size <= Z.of_nat (length rest) →
  (Z.to_nat size <= fuel)%nat →
  ∃ l s' w', buf_loop getentropy fuel s w (done_ ++ rest) off size
             = Ret (done_ ++ l ++ drop (Z.to_nat size) rest, s', w')
    ∧ draws (Z.to_nat size) s w = Ret (l, s', w')
    ∧ length l = Z.to_nat size ∧ Forall (in_u 8) l ∧ rs_wf s' ∧ rs_pid s' = rs_pid s.
Proof.
  revert s w done_ rest off size. induction fuel as [|fuel IH];
    intros s w done_ rest off size Hs Hr Hoff Hsize Hfuel;
    (destruct (decide (size = 0)) as [->|Hne];
     [exists [], s, w; split_and!; done|]); [lia|].
  destruct (buf_loop_step fuel s w done_ rest off size)
    as (x & s1 & w1 & Hx & Hav & Hxb & Hs1 & Hr1 & Hp1 & Hd & ->); [done..|lia|].
  destruct (IH s1 w1 (done_ ++ x) (drop (length x) rest) (off + available s size) (size - available s size))
    as (l & s2 & w2 & -> & Hd2 & Hl & Hlb & Hs2 & Hp2);
    [done|done|rewrite length_app; lia|rewrite length_drop; lia|lia|].
  exists (x ++ l), s2, w2. split_and!.
  - rewrite drop_drop, <- !app_assoc. replace (length x + Z.to_nat (size - available s size))%nat with (Z.to_nat size) by lia. done.
  - replace (Z.to_nat size) with (length x + Z.to_nat (size - available s size))%nat by lia.
    rewrite (draws_app _ _ _ _ _ _ _ Hd). by rewrite (outcome_bind_eq _ _ _ Hd2).
  - rewrite length_app. lia.
  - by apply Forall_app.
  - done.
  - congruence.
Qed.

(** A first iteration that finds nothing on offer only refreshes. *)
Lemma draws_refresh n s w s1 w1 :
  refresh getentropy s w = Ret (s1, w1) → ready s1 → draws (S n) s w = draws (S n) s1 w1.
Proof.
  intros E Hr. cbn [draws]. unfold next. rewrite (outcome_bind_eq _ _ _ E).
  by rewrite (outcome_bind_eq _ _ _ (refresh_ready s1 w1 Hr)).
Qed.

Lemma arc4random_buf_run pid s w buffer size :
  rs_wf s → 0 <= size <= Z.of_nat (length buffer) →
  ∃ l s' w', arc4random_buf getentropy pid s w buffer size
             = Ret (l ++ drop (Z.to_nat size) buffer, s', w')
    ∧ draws (Z.to_nat size) (fork_check pid s) w = Ret (l, s', w')
    ∧ length l = Z.to_nat size ∧ Forall (in_u 8) l ∧ rs_wf s' ∧ rs_pid s' = pid.
Proof.
  intros Hs0 Hsize. unfold arc4random_buf.
  pose proof (fork_check_wf pid s Hs0) as Hs.
  assert (rs_pid (fork_check pid s) = pid) as Hpid.
  { unfold fork_check. destruct (Z.eqb_spec pid (rs_pid s)); simpl; congruence. }
  set (t := fork_check pid s) in *. clearbody t.
  destruct (decide (0 < available t size)) as [Ha|Ha].
  - rewrite <- Hpid. apply (buf_loop_draws _ _ _ [] buffer); try done; [|lia].
    split; unfold available in Ha; lia.
  - destruct (decide (size = 0)) as [->|Hne]; [by exists [], t, w; split_and!|].
    destruct (refresh_run t w Hs) as (s1 & w1 & E & Hs1 & Hr1 & Hp1).
    pose proof (wf_have t Hs). pose proof (wf_count t Hs).
    assert (available t size = 0) as Hz by (unfold available in *; lia).
    assert (draws (Z.to_nat size) t w = draws (Z.to_nat size) s1 w1) as ->.
    { replace (Z.to_nat size) with (S (Z.to_nat (size - 1))) by lia. by apply draws_refresh. }
    cbn [buf_loop]. rewrite (proj2 (Z.ltb_lt 0 size)) by lia. cbn [negb]. cbv iota.
    cbv zeta. rewrite (available_eq t size), Hz, Z.ltb_irrefl, Z.sub_0_r.
    rewrite (outcome_bind_eq _ _ _ eq_refl), (outcome_bind_eq _ _ _ E).
    rewrite <- Hpid, <- Hp1. by apply (buf_loop_draws _ _ _ [] buffer).
Qed.

Lemma arc4random_run pid s w :
  rs_wf s → ∃ r s' w', arc4random getentropy pid s w = Ret (r, s', w') ∧ in_u 32 r
                       ∧ rs_wf s' ∧ rs_pid s' = pid.
Proof.
  intros Hs. unfold arc4random.
  destruct (arc4random_buf_run pid s w (replicate 4 0) 4) as (l & s' & w' & E & _ & Hl & Hb & Hs' & Hp);
    [done|done|].
  eexists _, _, _. rewrite (outcome_bind_eq _ _ _ E). split; [done|].
  split; [|done]. apply read_little_range. rewrite drop_ge, app_nil_r; done.
Qed.

(** C38.  The generator is a stream of bytes that does not depend on how calls cut
    it up: asking for [n + m] bytes gives the bytes that asking for [n] and
    then for [m] gives, and leaves the same state.  Each call returns, fills
    exactly the caller's buffer with bytes, and leaves a state in which every
    byte that was handed out has been erased from the internal buffer. *)
Theorem arc4random_buf_split pid s w b1 b2 :
  rs_wf s →
  ∃ l1 s1 w1 l2 s2 w2,
    arc4random_buf getentropy pid s w b1 (Z.of_nat (length b1)) = Ret (l1, s1, w1)
    ∧ arc4random_buf getentropy pid s1 w1 b2 (Z.of_nat (length b2)) = Ret (l2, s2, w2)
    ∧ arc4random_buf getentropy pid s w (b1 ++ b2) (Z.of_nat (length (b1 ++ b2)))
      = Ret (l1 ++ l2, s2, w2)
    ∧ length l1 = length b1 ∧ length l2 = length b2
    ∧ Forall (in_u 8) (l1 ++ l2) ∧ rs_wf s1 ∧ rs_wf s2.
Proof.
  intros Hs.
  destruct (arc4random_buf_run pid s w b1 (Z.of_nat (length b1)))
    as (l1 & s1 & w1 & E1 & D1 & Hl1 & Hb1 & Hs1 & Hp1); [done|lia|].
  destruct (arc4random_buf_run pid s1 w1 b2 (Z.of_nat (length b2)))
    as (l2 & s2 & w2 & E2 & D2 & Hl2 & Hb2 & Hs2 & Hp2); [done|lia|].
  destruct (arc4random_buf_run pid s w (b1 ++ b2) (Z.of_nat (length (b1 ++ b2))))
    as (l & s3 & w3 & E & D & Hl & _); [done|lia|].
  rewrite Nat2Z.id in *. rewrite drop_all, app_nil_r in *.
  assert (fork_check pid s1 = s1) as Hf by (unfold fork_check; by rewrite <- Hp1, Z.eqb_refl).
  rewrite Hf in D2. rewrite length_app, (draws_app _ _ _ _ _ _ _ D1) in D.
  rewrite (outcome_bind_eq _ _ _ D2) in D. injection D as <- <- <-.
  exists l1, s1, w1, l2, s2, w2. rewrite Forall_app. split_and!; done.
Qed.

(** ** arc4random_uniform *)

(** [n] draws below [min], one after the other, lead from [(s, w)] to [(s1, w1)]. *)
Fixpoint rejected (pid min : Z) (n : nat) (s : rs) (w : W) (s1 : rs) (w1 : W) : Prop :=
  match n with
  | O => s = s1 ∧ w = w1
  | S n => ∃ r s' w', arc4random getentropy pid s w = Ret (r, s', w') ∧ r < min
                      ∧ rejected pid min n s' w' s1 w1
  end.

Lemma uniform_loop_run fuel pid min ub n s w s1 w1 r s2 w2 :
  rejected pid min n s w s1 w1 → arc4random getentropy pid s1 w1 = Ret (r, s2, w2) →
  min <= r → (n < fuel)%nat →
  uniform_loop getentropy fuel pid s w min ub = Ret (r mod ub, s2, w2).
Proof.
  revert fuel s w. induction n as [|n IH]; intros [|fuel] s w Hrej Hr Hmin Hfuel; try lia;
    cbn [uniform_loop].
  - destruct Hrej as [-> ->]. rewrite (outcome_bind_eq _ _ _ Hr).
    by rewrite (proj2 (Z.leb_le min r)) by lia.
  - destruct Hrej as (r' & s' & w' & E & Hlt & Hrej). rewrite (outcome_bind_eq _ _ _ E).
    rewrite (proj2 (Z.leb_gt min r')) by lia. apply IH; [done..|lia].
Qed.

End Stream.

(** The bound below which draws are rejected. *)
Lemma uniform_min ub : 2 <= ub < 2 ^ 32 → u32 (- ub) mod ub = 2 ^ 32 mod ub.
Proof.
  intros Hub. unfold wrapu.
  replace (- ub) with (2 ^ 32 - ub + (-1) * 2 ^ 32) by lia.
  rewrite Z.mod_add, (Z.mod_small _ (2 ^ 32)) by lia.
  replace (2 ^ 32 - ub) with (2 ^ 32 + (-1) * ub) by lia. by rewrite Z.mod_add by lia.
Qed.

(** The accepted draws with a given residue. *)
Lemma uniform_preimages ub v r :
  2 <= ub < 2 ^ 32 → 0 <= v < ub →
  let min := 2 ^ 32 mod ub in
  (min <= r < 2 ^ 32 ∧ r mod ub = v)
  ↔ ∃ j, 0 <= j < 2 ^ 32 / ub ∧ r = min + ub * j + (v - min) mod ub.
Proof.
  intros Hub Hv min. set (d := (v - min) mod ub).
  pose proof (Z.mod_pos_bound (v - min) ub ltac:(lia)) as Hd. fold d in Hd.
  pose proof (Z.div_mod (2 ^ 32) ub ltac:(lia)) as Hdm. fold min in Hdm.
  pose proof (Z.mod_pos_bound (2 ^ 32) ub ltac:(lia)) as Hm. fold min in Hm.
  set (q := 2 ^ 32 / ub) in *. clearbody q.
  assert ((min + d) mod ub = v) as Hmd.
  { unfold d. rewrite Zplus_mod_idemp_r. replace (min + (v - min)) with v by lia. apply Z.mod_small. lia. }
  split.
  - intros [Hr Hrv]. exists ((r - min) / ub).
    assert ((r - min) mod ub = d) as Hrd by (unfold d; rewrite <- Hrv; symmetry; apply Zminus_mod_idemp_l).
    pose proof (Z.div_mod (r - min) ub ltac:(lia)) as Hq. rewrite Hrd in Hq.
    split; [|lia]. split; [apply Z.div_pos; lia|]. apply Z.div_lt_upper_bound; lia.
  - intros (j & Hj & ->). split; [nia|].
    replace (min + ub * j + d) with (min + d + j * ub) by lia. by rewrite Z.mod_add by lia.
Qed.

(** [arc4random_uniform] is unbiased.  It returns the first word of the stream
    that is not below [2^32 mod upper_bound], reduced modulo the bound,
    however many are rejected before it; and each value below the bound is
    the residue of the same number, [2^32 / upper_bound], of accepted words. *)
Theorem arc4random_uniform_unbiased {W} (getentropy : W → list Z * W) ub :
  2 <= ub < 2 ^ 32 →
  let min := 2 ^ 32 mod ub in
  (∀ fuel pid n s w s1 w1 r s2 w2,
     rejected getentropy pid min n s w s1 w1 →
     arc4random getentropy pid s1 w1 = Ret (r, s2, w2) → min <= r → (n < fuel)%nat →
     arc4random_uniform getentropy fuel pid s w ub = Ret (r mod ub, s2, w2)
     ∧ 0 <= r mod ub < ub)
  ∧ (∀ v r, 0 <= v < ub →
       (min <= r < 2 ^ 32 ∧ r mod ub = v)
       ↔ ∃ j, 0 <= j < 2 ^ 32 / ub ∧ r = min + ub * j + (v - min) mod ub).
Proof.
  intros Hub min. split.
  - intros fuel pid n s w s1 w1 r s2 w2 Hrej Hr Hmin Hfuel.
    split; [|apply Z.mod_pos_bound; lia]. unfold arc4random_uniform.
    rewrite (proj2 (Z.ltb_ge ub 2)), uniform_min by lia. by eapply uniform_loop_run.
  - intros v r Hv. by apply uniform_preimages.
Qed.

(** An entropy source for the examples: every call gives 40 copies of a count. *)
Definition counting_entropy (w : nat) : list Z * nat :=
  (replicate 40 (u8 (Z.of_nat w)), S w).

Lemma counting_entropy_fills w :
  length (counting_entropy w).1 = Z.to_nat (KEYSZ + IVSZ)
  ∧ Forall (in_u 8) (counting_entropy w).1.
Proof. split; [done|]. apply Forall_replicate, wrapu_range. lia. Qed.

#[local] Transparent chacha_keystream chacha_keysetup chacha_ivsetup.

Lemma arc4random_buf_split_witness :
  rs_wf rs_init ∧
  ∃ l s w, arc4random_buf counting_entropy 7 rs_init 0%nat (replicate 3 0) 3 = Ret (l, s, w)
           ∧ length l = 3%nat ∧ rs_wf s.
Proof.
  split; [apply rs_init_wf|].
  destruct (arc4random_buf_split counting_entropy counting_entropy_fills 7 rs_init 0%nat
              (replicate 1 0) (replicate 2 0) rs_init_wf)
    as (l1 & s1 & w1 & l2 & s2 & w2 & _ & _ & E & H1 & H2 & _ & _ & Hwf).
  exists (l1 ++ l2), s2, w2. split; [exact E|]. split; [|exact Hwf].
  rewrite length_app, H1, H2. reflexivity.
Defined.

Lemma arc4random_uniform_unbiased_witness :
  2 <= 6 < 2 ^ 32 ∧
  ∃ v s w, arc4random_uniform counting_entropy 1 7 rs_init 0%nat 6 = Ret (v, s, w) ∧ 0 <= v < 6.
Proof.
  split; [lia|].
  destruct (arc4random counting_entropy 7 rs_init 0%nat) as [[[r s2] w2]| |] eqn:E.
  2, 3: exfalso; revert E; vm_compute; discriminate.
  assert (2 ^ 32 mod 6 <= r) as Hr.
  { apply (f_equal (λ o, match o with Ret (r, _, _) => r | _ => 0 end)) in E.
    cbv beta iota in E. rewrite <- E. vm_compute. discriminate. }
  exists (r mod 6), s2, w2.
  apply (proj1 (arc4random_uniform_unbiased counting_entropy 6 ltac:(lia)) 1%nat 7 0%nat
           rs_init 0%nat rs_init 0%nat r s2 w2);
    [split; reflexivity|exact E|exact Hr|lia].
Defined.

(** ** rand *)

(** [rand] stays in [0, RAND_MAX], whatever the state. *)
Lemma rand_range s : 0 <= (rand s).1 <= RAND_MAX.
Proof.
  unfold rand. destruct (random_32_bits s) as [r s']. cbn [fst].
  change (u32 (RAND_MAX + 1)) with 32768. unfold RAND_MAX.
  pose proof (Z.mod_pos_bound r 32768 ltac:(lia)).
  rewrite wraps_id; [lia|lia|]. unfold in_s. simpl. lia.
Qed.

(** After [srand(0)] every call returns 0: both multipliers stay at zero. *)
Lemma srand_zero n : rand (Nat.iter n (λ s, (rand s).2) (srand 0)) = (0, srand 0).
Proof.
  assert (rand (srand 0) = (0, srand 0)) as H by reflexivity.
  replace (Nat.iter n (λ s, (rand s).2) (srand 0)) with (srand 0); [done|].
  induction n as [|n IH]; [done|]. by rewrite Nat.iter_succ, <- IH, H.
Qed.

End Random.
