(* ===== verification/Fnmatch.v ===== *)
(** * fnmatch

    [fnmatch/fnmatch.c].  A string is the list of its bytes before the
    terminator; reading past the terminator is undefined.  [errno] is passed
    along.  The specification is a relation [glob] between a pattern and the
    strings it stands for, read one token of the pattern at a time. *)

From stdpp Require Import base list numbers strings.
From Stdlib Require Import ZArith Lia Ascii.
From S2P Require Import Prelude Ctype.

#[local] Open Scope c_scope.
#[local] Open Scope Z_scope.

Module Fnmatch.

Definition FNM_NOMATCH : Z := 1.
Definition FNM_PATHNAME : Z := Z.shiftl 1 0.
Definition FNM_NOESCAPE : Z := Z.shiftl 1 1.
Definition FNM_PERIOD : Z := Z.shiftl 1 2.
Definition FNM_CASEFOLD : Z := Z.shiftl 1 3.
Definition FNM_NOT_LEADING : Z := Z.shiftl 1 30.

(** [flags & f] as a condition. *)
Definition has (flags f : Z) : bool := negb (Z.land flags f =? 0).

Definition fold_case (flags c : Z) : Z := if has flags FNM_CASEFOLD then u8 (Ctype.tolower c) else c.

(** The loop of [is_allowed_bracket_pattern]: what follows the bracket. *)
Fixpoint allowed_loop (flags : Z) (escaped : bool) (pattern : list Z) : option (list Z) :=
  match pattern with
  | [] => None
  | c :: pattern =>
      if negb escaped && (c =? ch "]") then Some pattern
      else if negb escaped && (c =? ch "\") then allowed_loop flags true pattern
      else if has flags FNM_PATHNAME && (c =? ch "/") then None
      else allowed_loop flags false pattern
  end.

Definition is_allowed_bracket_pattern (pattern : list Z) (flags : Z) : option (list Z) :=
  match pattern with
  | [] => None
  | c :: pattern =>
      if negb (c =? ch "[") then None else
      match pattern with
      | d :: pattern' =>
          if (d =? ch "!") || (d =? ch "^") then allowed_loop flags false pattern'
          else allowed_loop flags false pattern
      | [] => allowed_loop flags false pattern
      end
  end.

(** The loop of [matches_bracket_pattern]; it does not look for the terminator. *)
Fixpoint bracket_loop (c flags : Z) (negated escaped matched_any : bool) (pattern : list Z)
    : outcome bool :=
  match pattern with
  | [] => Undef
  | p :: pattern =>
      if negb escaped && (p =? ch "]") then Ret (negated || matched_any) else
      let pc := fold_case flags p in
      let sc := fold_case flags c in
      if negb escaped && (pc =? ch "\") then bracket_loop c flags negated true matched_any pattern
      else if pc =? sc then
        if negated then Ret false else bracket_loop c flags negated false true pattern
      else bracket_loop c flags negated false matched_any pattern
  end.

Definition matches_bracket_pattern (c : Z) (pattern : list Z) (flags : Z) : outcome bool :=
  if has flags FNM_PATHNAME && (c =? ch "/") then Ret false else
  match pattern with
  | [] => Undef
  | _ :: pattern =>
      let '(negated, body) :=
        match pattern with
        | d :: pattern' => if (d =? ch "!") || (d =? ch "^") then (true, pattern') else (false, pattern)
        | [] => (false, pattern)
        end in
      if has flags FNM_PERIOD && (c =? ch ".") && (negated && negb (has flags FNM_NOT_LEADING))
      then Ret false
      else bracket_loop c flags negated false false body
  end.

(** A wildcard may not stand for a leading period, nor for a slash. *)
Definition wildcard_stops (flags s0 : Z) : bool :=
  (has flags FNM_PERIOD && (s0 =? ch ".") && negb (has flags FNM_NOT_LEADING))
  || (has flags FNM_PATHNAME && (s0 =? ch "/")).

(** [next_flags] after the literal [c]: a slash makes the next character leading. *)
Definition literal_flags (flags c : Z) : Z :=
  let next_flags := Z.lor flags FNM_NOT_LEADING in
  if has flags FNM_PATHNAME && (c =? ch "/") then Z.land next_flags (Z.lnot FNM_NOT_LEADING)
  else next_flags.

Fixpoint fnmatch_at (fuel : nat) (pattern string : list Z) (flags : Z) (e : option errno)
    : outcome (Z * option errno) :=
  match fuel with
  | O => OutOfFuel
  | S fuel =>
      let next_flags := Z.lor flags FNM_NOT_LEADING in
      let literal :=
        let pc := fold_case flags (hd 0 pattern) in
        let sc := fold_case flags (hd 0 string) in
        if pc =? sc then fnmatch_at fuel (tail pattern) (tail string) (literal_flags flags sc) e
        else Ret (FNM_NOMATCH, e) in
      match pattern with
      | [] => match string with [] => Ret (0, e) | _ :: _ => literal end
      | p0 :: pattern1 =>
          if p0 =? ch "*" then
            '(r, e) ← fnmatch_at fuel pattern1 string flags e;
            if r =? 0 then Ret (0, e) else
            match string with
            | [] => Ret (FNM_NOMATCH, e)
            | s0 :: string1 =>
                if wildcard_stops flags s0 then Ret (FNM_NOMATCH, e)
                else fnmatch_at fuel pattern string1 next_flags e
            end
          else
            match string with
            | [] => Ret (FNM_NOMATCH, e)
            | s0 :: string1 =>
                match is_allowed_bracket_pattern pattern flags with
                | Some pattern_end =>
                    b ← matches_bracket_pattern s0 pattern flags;
                    if negb b then Ret (FNM_NOMATCH, e)
                    else fnmatch_at fuel pattern_end string1 next_flags e
                | None =>
                    if negb (has flags FNM_NOESCAPE) && (p0 =? ch "\") then
                      match pattern1 with
                      | [] => Ret (-1, Some EINVAL)
                      | p1 :: pattern2 =>
                          let pc := fold_case flags p1 in
                          let sc := fold_case flags s0 in
                          if pc =? sc
                          then fnmatch_at fuel pattern2 string1 (literal_flags flags pc) e
                          else literal
                      end
                    else if p0 =? ch "?" then
                      if wildcard_stops flags s0 then Ret (FNM_NOMATCH, e)
                      else fnmatch_at fuel pattern1 string1 next_flags e
                    else literal
                end
            end
      end
  end.

Definition fnmatch (pattern string : list Z) (flags : Z) (e : option errno)
    : outcome (Z * option errno) :=
  fnmatch_at (S (length pattern + length string)) pattern string flags e.

Example star_dot_c : fnmatch (lit "*.c") (lit "main.c") 0 None = Ret (0, None).
Proof. reflexivity. Qed.
Example star_slash : fnmatch (lit "*.c") (lit "a/main.c") FNM_PATHNAME None = Ret (1, None).
Proof. reflexivity. Qed.

(** An escaped character that is not the next one is given a second chance:
    the backslash is then compared as if it were an ordinary character. *)
Example escaped_backslash : fnmatch (lit "\a") (lit "\a") 0 None = Ret (0, None).
Proof. reflexivity. Qed.

(** ** Specification *)

Record opts := { path : bool; period : bool; noescape : bool; casefold : bool }.

Definition opts_of (flags : Z) : opts :=
  {| path := has flags FNM_PATHNAME; period := has flags FNM_PERIOD;
     noescape := has flags FNM_NOESCAPE; casefold := has flags FNM_CASEFOLD |}.

Definition leading (flags : Z) : bool := negb (has flags FNM_NOT_LEADING).

Inductive token :=
| Star
| One
| Lit (c : Z)
| Set_ (negated : bool) (items : list Z).

(** The members of a bracket expression up to its closing bracket. *)
Fixpoint items (path : bool) (p : list Z) : option (list Z * list Z) :=
  match p with
  | [] => None
  | c :: p =>
      if c =? ch "]" then Some ([], p)
      else if c =? ch "\" then
        match p with
        | [] => None
        | d :: p =>
            if path && (d =? ch "/") then None
            else '(l, rest) ← items path p; Some (d :: l, rest)
        end
      else if path && (c =? ch "/") then None
      else '(l, rest) ← items path p; Some (c :: l, rest)
  end.

Definition bracket (path : bool) (p : list Z) : option (token * list Z) :=
  let '(negated, body) :=
    match p with
    | d :: p' => if (d =? ch "!") || (d =? ch "^") then (true, p') else (false, p)
    | [] => (false, p)
    end in
  '(l, rest) ← items path body; Some (Set_ negated l, rest).

(** The first token of a pattern and what follows it; there is none at the
    end, nor for a backslash that escapes nothing. *)
Definition token_of (o : opts) (p : list Z) : option (token * list Z) :=
  match p with
  | [] => None
  | c :: p =>
      if c =? ch "*" then Some (Star, p)
      else if c =? ch "?" then Some (One, p)
      else if (c =? ch "\") && negb (noescape o) then
        match p with [] => None | d :: p => Some (Lit d, p) end
      else match (if c =? ch "[" then bracket (path o) p else None) with
           | Some t => Some t
           | None => Some (Lit c, p)
           end
  end.

Definition folded (o : opts) (c : Z) : Z := if casefold o then u8 (Ctype.tolower c) else c.

(** Characters a wildcard may stand for, at a leading position or not. *)
Definition wild (o : opts) (l : bool) (c : Z) : Prop :=
  ~ (period o = true ∧ c = ch "." ∧ l = true) ∧ ~ (path o = true ∧ c = ch "/").

Definition set_admits (o : opts) (l negated : bool) (its : list Z) (c : Z) : Prop :=
  ~ (path o = true ∧ c = ch "/")
  ∧ ~ (period o = true ∧ c = ch "." ∧ negated = true ∧ l = true)
  ∧ (negated = true ↔ folded o c ∉ folded o <$> its).

Inductive glob (o : opts) : bool → list Z → list Z → Prop :=
| glob_end l : glob o l [] []
| glob_star_skip l p p' s :
    token_of o p = Some (Star, p') → glob o l p' s → glob o l p s
| glob_star_take l p p' c s :
    token_of o p = Some (Star, p') → wild o l c → glob o false p s → glob o l p (c :: s)
| glob_one l p p' c s :
    token_of o p = Some (One, p') → wild o l c → glob o false p' s → glob o l p (c :: s)
| glob_lit l p p' c d s :
    token_of o p = Some (Lit c, p') → folded o c = folded o d →
    glob o (path o && (folded o d =? ch "/")) p' s → glob o l p (d :: s)
| glob_set l p p' neg its c s :
    token_of o p = Some (Set_ neg its, p') → set_admits o l neg its c →
    glob o false p' s → glob o l p (c :: s).

(** ** Flags *)

Lemma has_bit flags k : 0 <= k → has flags (Z.shiftl 1 k) = Z.testbit flags k.
Proof.
  intros Hk. unfold has. rewrite Z.shiftl_1_l. destruct (Z.testbit flags k) eqn:E.
  - apply negb_true_iff, Z.eqb_neq. intros H. apply (f_equal (λ z, Z.testbit z k)) in H.
    by rewrite Z.land_spec, E, Z.pow2_bits_true, Z.bits_0 in H by done.
  - apply negb_false_iff, Z.eqb_eq, Z.bits_inj'. intros n Hn. rewrite Z.land_spec, Z.bits_0.
    destruct (decide (n = k)) as [->|]; [by rewrite E|].
    by rewrite Z.pow2_bits_false, andb_false_r by done.
Qed.

Ltac bits :=
  unfold opts_of, leading, FNM_PATHNAME, FNM_PERIOD, FNM_NOESCAPE, FNM_CASEFOLD,
    FNM_NOT_LEADING; rewrite !has_bit by done;
  rewrite ?Z.land_spec, ?Z.lnot_spec, ?Z.lor_spec, ?Z.shiftl_1_l by done;
  rewrite ?Z.pow2_bits_eqb by done; cbn; rewrite ?orb_false_r, ?orb_true_r, ?andb_true_r, ?andb_false_r.

Lemma opts_next flags : opts_of (Z.lor flags FNM_NOT_LEADING) = opts_of flags.
Proof. by bits. Qed.

Lemma leading_next flags : leading (Z.lor flags FNM_NOT_LEADING) = false.
Proof. by bits. Qed.

Lemma opts_literal flags c : opts_of (literal_flags flags c) = opts_of flags.
Proof. unfold literal_flags. destruct (_ && _); [by bits|apply opts_next]. Qed.

Lemma leading_literal flags c :
  leading (literal_flags flags c) = path (opts_of flags) && (c =? ch "/").
Proof.
  unfold literal_flags. cbn [path opts_of]. destruct (has flags FNM_PATHNAME && _);
    [by bits|apply leading_next].
Qed.

Abbreviation nonul := (Forall (λ c, 0 < c < 256)).

Lemma fold_backslash flags c : 0 < c < 256 → fold_case flags c = ch "\" ↔ c = ch "\".
Proof.
  intros Hc. unfold fold_case. case_if; [|done]. rewrite wrapu_id.
  - unfold Ctype.tolower. b2p_if; lia.
  - apply (Ctype.tolower_byte c). lia.
Qed.

Lemma fold_pos flags c : 0 < c < 256 → fold_case flags c ≠ fold_case flags 0.
Proof.
  intros Hc. unfold fold_case. case_if; [|lia]. rewrite wrapu_id.
  - change (u8 (Ctype.tolower 0)) with 0. rewrite Ctype.tolower_0; lia.
  - apply (Ctype.tolower_byte c). lia.
Qed.

(** ** Bracket expressions *)

(** A bracket expression is read in steps of one or two characters. *)
Lemma items_ind (P : list Z → Prop) :
  P [] →
  (∀ p, P (ch "]" :: p)) →
  P [ch "\"] →
  (∀ d p, P p → P (ch "\" :: d :: p)) →
  (∀ c p, c ≠ ch "]" → c ≠ ch "\" → P p → P (c :: p)) →
  ∀ p, P p.
Proof.
  intros H1 H2 H3 H4 H5 p.
  enough (∀ n p, (length p <= n)%nat → P p) as H by by eapply H.
  clear p. induction n as [|n IH]; intros [|c p] Hl; simpl in *; try done; [lia|].
  destruct (decide (c = ch "]")) as [->|?]; [done|].
  destruct (decide (c = ch "\")) as [->|?]; [|apply H5; [done..|apply IH; lia]].
  destruct p as [|d p]; [done|]. apply H4, IH. simpl in *. lia.
Qed.

(** Read one step of [items] in the goal or in a hypothesis. *)
Ltac items_step :=
  cbn [items allowed_loop bracket_loop negb andb] in *;
  rewrite ?Z.eqb_refl in *;
  repeat match goal with
  | H : ?c ≠ ?d |- _ => rewrite (proj2 (Z.eqb_neq c d) H) in *
  end.

Lemma items_rest path p its rest :
  items path p = Some (its, rest) → ∃ pre, p = pre ++ rest ∧ pre ≠ [].
Proof.
  revert its. induction p as [|p| |d p IH|c p Hc1 Hc2 IH] using items_ind; intros its; items_step.
  - done.
  - intros [= <- <-]. by exists [ch "]"].
  - done.
  - change (ch "\" =? ch "]") with false. cbn iota. destruct (_ && _); [done|].
    destruct (items path p) as [[l r]|]; [|done]; intros [= <- ->].
    destruct (IH l eq_refl) as (pre & -> & _); by exists (ch "\" :: d :: pre).
  - destruct (_ && _); [done|].
    destruct (items path p) as [[l r]|]; [|done]; intros [= <- ->].
    destruct (IH l eq_refl) as (pre & -> & _); by exists (c :: pre).
Qed.

Lemma allowed_items flags p :
  allowed_loop flags false p = snd <$> items (has flags FNM_PATHNAME) p.
Proof.
  induction p as [|p| |d p IH|c p Hc1 Hc2 IH] using items_ind; items_step; try done.
  - change (ch "\" =? ch "]") with false. cbn iota.
    rewrite IH. destruct (_ && _); [done|]. by destruct (items _ p) as [[]|].
  - rewrite IH. destruct (_ && _); [done|]. by destruct (items _ p) as [[]|].
Qed.

Definition member (flags c : Z) (its : list Z) : bool :=
  bool_decide (fold_case flags c ∈ fold_case flags <$> its).

Lemma member_cons flags c d its :
  member flags c (d :: its) = (fold_case flags d =? fold_case flags c) || member flags c its.
Proof.
  unfold member. apply eq_true_iff_eq. rewrite orb_true_iff, Z.eqb_eq, !bool_decide_eq_true.
  rewrite fmap_cons, elem_of_cons. intuition congruence.
Qed.

Lemma bracket_loop_items c flags neg m path p its rest :
  nonul p → items path p = Some (its, rest) → (neg = true → m = false) →
  bracket_loop c flags neg false m p
  = Ret (if neg then negb (member flags c its) else m || member flags c its).
Proof.
  intros Hp. revert m its.
  induction p as [|p| |d p IH|d p Hc1 Hc2 IH] using items_ind; intros m its Hits Hm; items_step; try done.
  - injection Hits as <- <-. destruct neg; [by rewrite Hm|by rewrite orb_false_r].
  - change (ch "\" =? ch "]") with false in *. cbn iota in *.
    destruct (_ && _); [done|]. destruct (items path p) as [[l r]|] eqn:E; [|done].
    injection Hits as <- ->. inversion_clear Hp as [|? ? H1 Hp']. inversion_clear Hp' as [|? ? H2 Hp].
    rewrite (proj2 (Z.eqb_eq _ _) (proj2 (fold_backslash flags (ch "\") H1) eq_refl)).
    rewrite member_cons. destruct (_ =? fold_case flags c) eqn:Ec; cbn [orb negb].
    + destruct neg; [done|]. rewrite (IH Hp true l eq_refl) by done. by rewrite orb_true_r.
    + by apply IH.
  - destruct (path && _); [done|]. destruct (items path p) as [[l r]|] eqn:E; [|done].
    injection Hits as <- ->. inversion_clear Hp as [|? ? H1 Hp'].
    rewrite (proj2 (Z.eqb_neq (fold_case flags d) (ch "\"))) by by rewrite fold_backslash.
    rewrite member_cons. destruct (_ =? fold_case flags c) eqn:Ec; cbn [orb negb].
    + destruct neg; [done|]. rewrite (IH Hp' true l eq_refl) by done. by rewrite orb_true_r.
    + by apply IH.
Qed.

Lemma allowed_bracket flags p :
  is_allowed_bracket_pattern (ch "[" :: p) flags = snd <$> bracket (path (opts_of flags)) p.
Proof.
  unfold is_allowed_bracket_pattern, bracket. cbn [path opts_of]. rewrite Z.eqb_refl. cbn [negb].
  destruct p as [|d p]; [done|]. destruct (_ || _).
  - rewrite allowed_items. by destruct (items _ p) as [[]|].
  - rewrite allowed_items. by destruct (items _ (d :: p)) as [[]|].
Qed.

Lemma allowed_other c p flags : c ≠ ch "[" → is_allowed_bracket_pattern (c :: p) flags = None.
Proof. intros H. unfold is_allowed_bracket_pattern. by rewrite (proj2 (Z.eqb_neq _ _) H). Qed.

Lemma bracket_set path p t rest :
  bracket path p = Some (t, rest) →
  ∃ neg its body, t = Set_ neg its ∧ items path body = Some (its, rest) ∧ (body = p ∨ ∃ d, p = d :: body)
    ∧ (match p with
       | d :: p' => if (d =? ch "!") || (d =? ch "^") then (true, p') else (false, p)
       | [] => (false, p)
       end) = (neg, body).
Proof.
  unfold bracket. destruct (match p with [] => _ | _ => _ end) as [neg body] eqn:E.
  destruct (items path body) as [[its r]|] eqn:Ei; [|done]. intros [= <- <-].
  exists neg, its, body. split_and!; try done.
  destruct p as [|d p]; [left; congruence|]. destruct (_ || _); injection E as <- <-; eauto.
Qed.

Lemma matches_bracket flags p t rest c :
  nonul p → bracket (path (opts_of flags)) p = Some (t, rest) →
  ∃ neg its b, t = Set_ neg its ∧ matches_bracket_pattern c (ch "[" :: p) flags = Ret b
    ∧ (b = true ↔ set_admits (opts_of flags) (leading flags) neg its c).
Proof.
  intros Hp (neg & its & body & -> & Hits & Hbody & E)%bracket_set.
  exists neg, its. unfold matches_bracket_pattern. rewrite E.
  assert (nonul body) as Hb by (destruct Hbody as [->|[d ->]]; [done|by inversion Hp]).
  unfold set_admits. cbn [path period opts_of].
  change (folded (opts_of flags)) with (fold_case flags).
  destruct (has flags FNM_PATHNAME && (c =? ch "/")) eqn:E1.
  { b2p. exists false. split_and!; [done..|]. split; [done|]. intros [Hn _]. by destruct Hn. }
  destruct (has flags FNM_PERIOD && (c =? ch ".") && _) eqn:E2.
  { clear E1. b2p. exists false. split_and!; [done..|]. split; [done|]. intros (_ & Hn & _). destruct Hn. split_and!; done || by apply negb_true_iff. }
  eexists. rewrite (bracket_loop_items c flags neg false _ body its rest Hb Hits) by done.
  split_and!; [done..|]. rewrite orb_false_l. unfold member.
  assert (~ (has flags FNM_PATHNAME = true ∧ c = ch "/")) as H1
    by (intros [H ->]; by rewrite H in E1).
  assert (~ (has flags FNM_PERIOD = true ∧ c = ch "." ∧ neg = true ∧ leading flags = true)) as H2.
  { unfold leading. intros (H & -> & -> & H'). by rewrite H, H' in E2. }
  destruct neg; rewrite ?negb_true_iff, ?bool_decide_eq_false, ?bool_decide_eq_true; [tauto|].
  split; [intuition congruence|]. intros (_ & _ & H).
  destruct (decide (fold_case flags c ∈ fold_case flags <$> its)) as [|Hn]; [done|].
  by apply H in Hn.
Qed.

(** ** The relation, one token at a time *)

Lemma glob_inv o l p s :
  glob o l p s ↔
  match token_of o p with
  | None => p = [] ∧ s = []
  | Some (Star, p') => glob o l p' s ∨ ∃ c s', s = c :: s' ∧ wild o l c ∧ glob o false p s'
  | Some (One, p') => ∃ c s', s = c :: s' ∧ wild o l c ∧ glob o false p' s'
  | Some (Lit c, p') =>
      ∃ d s', s = d :: s' ∧ folded o c = folded o d
              ∧ glob o (path o && (folded o d =? ch "/")) p' s'
  | Some (Set_ neg its, p') =>
      ∃ c s', s = c :: s' ∧ set_admits o l neg its c ∧ glob o false p' s'
  end.
Proof.
  split.
  - destruct 1 as [| | | | |? ? ? ? ? ? ? E]; try done.
    all: try match goal with H : token_of _ _ = _ |- _ => rewrite H end; eauto 10.
  - destruct (token_of o p) as [[[| |c|neg its] p']|] eqn:E.
    + intros [H|(c & s' & -> & ? & ?)]; [by eapply glob_star_skip|by eapply glob_star_take].
    + intros (c & s' & -> & ? & ?). by eapply glob_one.
    + intros (d & s' & -> & ? & ?). by eapply glob_lit.
    + intros (c & s' & -> & ? & ?). by eapply glob_set.
    + intros [-> ->]. constructor.
Qed.

Lemma wild_stops flags c :
  wildcard_stops flags c = false ↔ wild (opts_of flags) (leading flags) c.
Proof.
  unfold wildcard_stops, wild, leading. cbn [path period opts_of].
  rewrite orb_false_iff, !andb_false_iff, !Z.eqb_neq.
  destruct (has flags FNM_PERIOD), (has flags FNM_PATHNAME), (has flags FNM_NOT_LEADING);
    simpl; intuition congruence.
Qed.

(** ** fnmatch implements the relation *)

(** What a call on [pattern] and [string] promises. *)
Definition good (flags : Z) (p s : list Z) (res : outcome (Z * option errno)) : Prop :=
  ∃ r e, res = Ret (r, e) ∧ (r = 0 ∨ r = FNM_NOMATCH ∨ r = -1)
    ∧ (noescape (opts_of flags) = true ∨ ch "\" ∉ s →
       r = 0 ↔ glob (opts_of flags) (leading flags) p s).

Lemma good_nomatch flags p s e :
  (noescape (opts_of flags) = true ∨ ch "\" ∉ s → ~ glob (opts_of flags) (leading flags) p s) →
  good flags p s (Ret (FNM_NOMATCH, e)).
Proof. intros H. exists FNM_NOMATCH, e. split_and!; [done|auto|]. intros Hs. split; [done|by intros ?%H]. Qed.

Lemma good_same flags flags' p p' s s' res :
  good flags' p' s' res → opts_of flags' = opts_of flags → (∀ c, c ∈ s' → c ∈ s) →
  (noescape (opts_of flags) = true ∨ ch "\" ∉ s →
   glob (opts_of flags) (leading flags') p' s' ↔ glob (opts_of flags) (leading flags) p s) →
  good flags p s res.
Proof.
  intros (r & e & -> & Hr & Hg) Ho Hs Hiff. exists r, e. split_and!; [done..|].
  intros Hn. rewrite <- Hiff by done. rewrite Ho in Hg. apply Hg.
  destruct Hn as [|Hn]; [by left|right]. by intros ?%Hs.
Qed.

Lemma tail_elem c (s : list Z) d : d ∈ s → d ∈ c :: s.
Proof. intros. by right. Qed.

(** The comparison of the next characters. *)
Lemma good_literal fuel flags p0 p s0 s e :
  (∀ p s flags e, nonul p → nonul s → (length p + length s < fuel)%nat →
     good flags p s (fnmatch_at fuel p s flags e)) →
  nonul (p0 :: p) → nonul (s0 :: s) → (S (length p + length s) < fuel)%nat →
  (noescape (opts_of flags) = true ∨ ch "\" ∉ s0 :: s → token_of (opts_of flags) (p0 :: p) = Some (Lit p0, p)
     ∨ fold_case flags p0 ≠ fold_case flags s0 ∧ ~ glob (opts_of flags) (leading flags) (p0 :: p) (s0 :: s)) →
  good flags (p0 :: p) (s0 :: s)
    (if fold_case flags p0 =? fold_case flags s0
     then fnmatch_at fuel p s (literal_flags flags (fold_case flags s0)) e
     else Ret (FNM_NOMATCH, e)).
Proof.
  intros IH Hp Hs Hfuel Htok. inversion_clear Hp as [|? ? _ Hp']. inversion_clear Hs as [|? ? _ Hs'].
  case_if.
  - eapply good_same; [apply IH; [done..|lia]|apply opts_literal|apply tail_elem|].
    intros Hn. destruct (Htok Hn) as [Ht|[? _]]; [|done].
    rewrite (glob_inv _ _ (p0 :: p)), Ht, leading_literal.
    split; [eauto 10|]. intros (d & s' & [= <- <-] & _ & ?). done.
  - apply good_nomatch. intros Hn. destruct (Htok Hn) as [Ht|[_ ?]]; [|done].
    rewrite glob_inv, Ht. by intros (d & s' & [= <- <-] & ? & _).
Qed.

Section Step.
Context (fuel : nat).
Hypothesis IH : ∀ p s flags e, nonul p → nonul s → (length p + length s < fuel)%nat →
  good flags p s (fnmatch_at fuel p s flags e).

Lemma good_star flags p s e :
  nonul (ch "*" :: p) → nonul s → (length (ch "*" :: p) + length s < S fuel)%nat →
  good flags (ch "*" :: p) s (fnmatch_at (S fuel) (ch "*" :: p) s flags e).
Proof.
  intros Hp Hs Hfuel. cbn [fnmatch_at length] in *. rewrite Z.eqb_refl.
  inversion_clear Hp as [|? ? Hc Hp']. set (o := opts_of flags). set (l := leading flags).
  destruct (IH p s flags e) as (r & e1 & -> & Hr & Hg); [done..|lia|]. fold o l in Hg.
  rewrite (outcome_bind_eq _ _ _ eq_refl).
  assert (token_of o (ch "*" :: p) = Some (Star, p)) as Ht by done.
  destruct (Z.eqb_spec r 0) as [->|Hr0].
  { exists 0, e1. split_and!; [done|auto|]. intros Hn. split; [|done]. intros _.
    fold o l. apply glob_inv. rewrite Ht. left. by apply Hg. }
  destruct s as [|s0 s].
  { apply good_nomatch. fold o l. intros Hn. rewrite glob_inv, Ht.
    intros [H|(c & s' & ? & _)]; [|done]. by apply Hr0, Hg. }
  inversion_clear Hs as [|? ? Hc0 Hs']. destruct (wildcard_stops flags s0) eqn:Ew.
  - apply good_nomatch. fold o l. intros Hn. rewrite glob_inv, Ht.
    intros [H|(c & s' & [= <- <-] & Hw & _)]; [by apply Hr0, Hg|].
    apply wild_stops in Hw. congruence.
  - eapply good_same; [apply IH; [by constructor|done|simpl in *; lia]|apply opts_next|apply tail_elem|].
    fold o l. rewrite leading_next. intros Hn. rewrite (glob_inv o l), Ht.
    apply wild_stops in Ew. fold o l in Ew. split; [by eauto 10|].
    intros [H|(c & s' & [= <- <-] & _ & ?)]; [|done]. by destruct Hr0; apply Hg.
Qed.

Lemma good_one flags p s0 s e :
  nonul p → nonul s → (length p + length s < fuel)%nat →
  good flags (ch "?" :: p) (s0 :: s)
    (if wildcard_stops flags s0 then Ret (FNM_NOMATCH, e)
     else fnmatch_at fuel p s (Z.lor flags FNM_NOT_LEADING) e).
Proof.
  intros Hp Hs Hfuel. set (o := opts_of flags). set (l := leading flags).
  assert (token_of o (ch "?" :: p) = Some (One, p)) as Ht by done.
  destruct (wildcard_stops flags s0) eqn:Ew.
  - apply good_nomatch. fold o l. intros Hn. rewrite glob_inv, Ht.
    intros (c & s' & [= <- <-] & Hw & _). apply wild_stops in Hw. congruence.
  - eapply good_same; [by apply IH|apply opts_next|apply tail_elem|].
    fold o l. rewrite leading_next. intros Hn. rewrite (glob_inv o l), Ht.
    apply wild_stops in Ew. fold o l in Ew. split; [by eauto 10|].
    by intros (c & s' & [= <- <-] & _ & ?).
Qed.

Lemma good_set flags p t rest s0 s e :
  nonul p → nonul s → (length p + length s < fuel)%nat →
  bracket (path (opts_of flags)) p = Some (t, rest) →
  good flags (ch "[" :: p) (s0 :: s)
    (b ← matches_bracket_pattern s0 (ch "[" :: p) flags;
     if negb b then Ret (FNM_NOMATCH, e)
     else fnmatch_at fuel rest s (Z.lor flags FNM_NOT_LEADING) e).
Proof.
  intros Hp Hs Hfuel Hb.
  assert (token_of (opts_of flags) (ch "[" :: p) = Some (t, rest)) as Ht by (cbn -[bracket opts_of path]; by rewrite Hb).
  destruct (matches_bracket flags p t rest s0 Hp Hb) as (neg & its & b & -> & E & Hin).
  rewrite (outcome_bind_eq _ _ _ E).
  assert (nonul rest ∧ (length rest <= length p)%nat) as [Hrest Hlen].
  { apply bracket_set in Hb as (? & ? & body & _ & (pre & -> & _)%items_rest & Hbody & _).
    destruct Hbody as [<-|[d ->]]; [|inversion Hp]; subst.
    - apply Forall_app in Hp as [_ ?]. rewrite length_app. split; [done|lia].
    - match goal with H : nonul (pre ++ rest) |- _ => apply Forall_app in H as [_ ?] end.
      cbn [length]. rewrite length_app. split; [done|lia]. }
  destruct b; cbn [negb].
  - eapply good_same; [apply IH; [done..|lia]|apply opts_next|apply tail_elem|].
    rewrite leading_next. intros Hn. rewrite (glob_inv _ (leading flags)), Ht.
    split; [|by intros (c & s' & [= <- <-] & _ & ?)]. intros. eexists _, _. by rewrite <- Hin.
  - apply good_nomatch. intros Hn. rewrite glob_inv, Ht.
    intros (c & s' & [= <- <-] & H & _). by apply Hin in H.
Qed.

Lemma good_escape flags p1 p s0 s e :
  nonul (ch "\" :: p1 :: p) → nonul (s0 :: s) → (S (length (p1 :: p) + length s) < fuel)%nat →
  has flags FNM_NOESCAPE = false →
  good flags (ch "\" :: p1 :: p) (s0 :: s)
    (if fold_case flags p1 =? fold_case flags s0
     then fnmatch_at fuel p s (literal_flags flags (fold_case flags p1)) e
     else if fold_case flags (ch "\") =? fold_case flags s0
     then fnmatch_at fuel (p1 :: p) s (literal_flags flags (fold_case flags s0)) e
     else Ret (FNM_NOMATCH, e)).
Proof.
  intros Hp Hs Hfuel He. set (o := opts_of flags).
  assert (token_of o (ch "\" :: p1 :: p) = Some (Lit p1, p)) as Ht
    by (cbn; by rewrite He).
  destruct (Z.eqb_spec (fold_case flags p1) (fold_case flags s0)) as [Ec|Ec].
  - inversion_clear Hp as [|? ? _ Hp']. inversion_clear Hp' as [|? ? _ Hp].
    inversion_clear Hs as [|? ? _ Hs'].
    eapply good_same; [apply IH; [done..|simpl in *; lia]|apply opts_literal|apply tail_elem|].
    fold o. intros Hn. rewrite (glob_inv o (leading flags)), Ht, leading_literal, Ec. fold o.
    split; [by eauto 10|]. by intros (d & s' & [= <- <-] & _ & ?).
  - apply good_literal; [done..|]. intros Hn. right. split.
    + destruct Hn as [Hn|Hn]; [cbn in Hn; congruence|]. intros E. apply Hn, elem_of_cons. left.
      inversion_clear Hs as [|? ? Hs0 _]. inversion_clear Hp as [|? ? Hp0 _].
      symmetry. apply (fold_backslash flags s0 Hs0). rewrite <- E. by apply fold_backslash.
    + fold o. rewrite glob_inv, Ht. by intros (d & s' & [= <- <-] & ? & _).
Qed.

End Step.

Lemma token_star o p0 p p' : token_of o (p0 :: p) = Some (Star, p') → p0 = ch "*".
Proof.
  unfold token_of. destruct (Z.eqb_spec p0 (ch "*")); [done|].
  destruct (p0 =? ch "?"); [done|]. destruct (_ && _); [by destruct p|].
  destruct (p0 =? ch "["); [|done].
  destruct (bracket (path o) p) as [[t r]|] eqn:E; [|done]. intros [= -> ->].
  by apply bracket_set in E as (? & ? & ? & ? & _).
Qed.

(** A token other than a star needs a character. *)
Lemma glob_empty o l p0 p : p0 ≠ ch "*" → ~ glob o l (p0 :: p) [].
Proof.
  intros Hp H. apply glob_inv in H.
  destruct (token_of o (p0 :: p)) as [[[] p']|] eqn:E; [by apply token_star in E|..].
  - by destruct H as (? & ? & ? & _).
  - by destruct H as (? & ? & ? & _).
  - by destruct H as (? & ? & ? & _).
  - by destruct H.
Qed.

Lemma token_plain o p0 p :
  p0 ≠ ch "*" → p0 ≠ ch "?" → (p0 ≠ ch "\" ∨ noescape o = true) →
  (p0 = ch "[" → bracket (path o) p = None) →
  token_of o (p0 :: p) = Some (Lit p0, p).
Proof.
  intros H1 H2 H3 H4. unfold token_of.
  rewrite (proj2 (Z.eqb_neq _ _) H1), (proj2 (Z.eqb_neq _ _) H2).
  replace ((p0 =? ch "\") && negb (noescape o)) with false.
  - case_if; [by rewrite H4|done].
  - destruct H3 as [H3| ->]; [by rewrite (proj2 (Z.eqb_neq _ _) H3)|by rewrite andb_false_r].
Qed.

Lemma fnmatch_good fuel p s flags e :
  nonul p → nonul s → (length p + length s < fuel)%nat →
  good flags p s (fnmatch_at fuel p s flags e).
Proof.
  revert p s flags e. induction fuel as [|fuel IH]; intros p s flags e Hp Hs Hfuel; [lia|].
  destruct p as [|p0 p].
  { cbn [fnmatch_at hd tl]. destruct s as [|s0 s].
    - exists 0, e. split_and!; [done|auto|]. intros _. split; [constructor|done].
    - inversion_clear Hs as [|? ? H0 _]. rewrite (proj2 (Z.eqb_neq _ _)) by by apply not_eq_sym, fold_pos.
      apply good_nomatch. intros _. rewrite glob_inv. by intros []. }
  destruct (decide (p0 = ch "*")) as [->|Hstar]; [by apply good_star|].
  cbn [fnmatch_at hd tl length] in *. rewrite (proj2 (Z.eqb_neq _ _) Hstar).
  destruct s as [|s0 s]; [apply good_nomatch; intros _; by apply glob_empty|].
  pose proof Hp as Hpp. inversion_clear Hpp as [|? ? _ Hp'].
  pose proof Hs as Hss. inversion_clear Hss as [|? ? _ Hs']. cbn [length] in Hfuel.
  destruct (is_allowed_bracket_pattern (p0 :: p) flags) as [rest|] eqn:Ea.
  { destruct (decide (p0 = ch "[")) as [->|]; [|by rewrite allowed_other in Ea].
    rewrite allowed_bracket in Ea. destruct (bracket _ p) as [[t r]|] eqn:Eb; [|done].
    injection Ea as <-. eapply good_set; [done..|lia|done]. }
  assert (p0 = ch "[" → bracket (path (opts_of flags)) p = None) as Hbr.
  { intros ->. rewrite allowed_bracket in Ea. by destruct (bracket _ p) as [[]|]. }
  destruct (negb (has flags FNM_NOESCAPE) && (p0 =? ch "\")) eqn:Eesc.
  { b2p. subst p0. destruct p as [|p1 p].
    - exists (-1), (Some EINVAL). split_and!; [done|auto|]. intros _. split; [done|].
      rewrite glob_inv. cbn. by rewrite H; intros [].
    - apply good_escape; [done..|simpl in *; lia|done]. }
  destruct (Z.eqb_spec p0 (ch "?")) as [->|Hq]; [apply good_one; [done..|lia]|].
  apply good_literal; [done..|simpl; lia|]. intros _. left. apply token_plain; try done.
  apply andb_false_iff in Eesc as [He|He]; [right; by apply negb_false_iff|left].
  by apply Z.eqb_neq.
Qed.

(** C37.  [fnmatch] on null-terminated strings returns for every combination of
    flags: it never looks past a terminator, and the answer is 0, [FNM_NOMATCH]
    or the error -1.  If [FNM_NOESCAPE] is given, or the string has no backslash,
    the answer is 0 exactly for the strings the pattern stands for: stars and
    question marks that stop at slashes and leading periods, bracket expressions,
    escapes and case folding.  Otherwise a backslash of the string can be
    mistaken for the pattern's own: see [escaped_backslash]. *)
Theorem fnmatch_glob p s flags e :
  nonul p → nonul s →
  ∃ r e', fnmatch p s flags e = Ret (r, e') ∧ (r = 0 ∨ r = FNM_NOMATCH ∨ r = -1)
    ∧ (noescape (opts_of flags) = true ∨ ch "\" ∉ s →
       r = 0 ↔ glob (opts_of flags) (leading flags) p s).
Proof. intros Hp Hs. apply (fnmatch_good _ p s flags e Hp Hs). lia. Qed.

Lemma fnmatch_glob_witness :
  nonul (lit "[!a]*") ∧ nonul (lit "b/c") ∧
  ∃ r e', fnmatch (lit "[!a]*") (lit "b/c") 0 None = Ret (r, e') ∧ r = 0
          ∧ glob (opts_of 0) true (lit "[!a]*") (lit "b/c").
Proof.
  assert (nonul (lit "[!a]*")) as Hp by (repeat constructor; lia).
  assert (nonul (lit "b/c")) as Hs by (repeat constructor; lia).
  split; [exact Hp|]. split; [exact Hs|].
  destruct (fnmatch_glob (lit "[!a]*") (lit "b/c") 0 None Hp Hs) as (r & e' & E & _ & H).
  exists r, e'. assert (r = 0) as Hr by (vm_compute in E; congruence).
  split; [exact E|]. split; [exact Hr|]. apply H; [|exact Hr].
  right. rewrite !elem_of_cons, elem_of_nil. lia.
Defined.

End Fnmatch.
