(* ===== verification/Inet.v ===== *)
(** * Internet addresses in text form

    [arpa/inet/inet_ntop.c] and [arpa/inet/inet_pton.c].  Addresses are lists of
    bytes of the size of the family, strings the bytes before the terminator.
    [inet_ntop] prints through the model of [snprintf]; the local arrays start
    out as zeros, which is not observable since every byte read was written. *)

From S2P Require Import Prelude Strtol Printf.
From stdpp Require Import base list numbers strings.
From Stdlib Require Import ZArith Lia Ascii.

#[local] Open Scope c_scope.
#[local] Open Scope Z_scope.

Module Inet.

Definition AF_INET : Z := 1.
Definition AF_INET6 : Z := 2.
Definition INET_ADDRSTRLEN : Z := 16.
Definition INET6_ADDRSTRLEN : Z := 46.

(** ** inet_ntop *)

(** The destination, or a null pointer with the error it set. *)
Inductive ntop_result :=
| Address
| NoAddress (e : option errno).

(** [snprintf(dst, size, ...)] and the two tests after it. *)
Definition print_address (dst : list Z) (size : Z) (format : list Z) (args : list Printf.vararg)
    : outcome (ntop_result * list Z) :=
  '(len, dst) ← Printf.vsnprintf dst size [] (format ++ [0]) args;
  if len <? 0 then Ret (NoAddress None, dst)
  else if size <=? len then Ret (NoAddress (Some ENOSPC), dst)
  else Ret (Address, dst).

Definition mapped_prefix : list Z := [0; 0; 0; 0; 0; 0; 0; 0; 0; 0; 255; 255].

Definition octets (ip : list Z) : list Printf.vararg := Printf.VInt 32 <$> ip.

Record zeroes := {
  longest_zeroes_offset : nat; longest_zeroes_length : nat;
  current_zeroes_offset : nat; current_zeroes_length : nat
}.

Fixpoint find_zeroes (n i : nat) (ip : list Z) (z : zeroes) : zeroes :=
  match n with
  | O => z
  | S n =>
      let z :=
        if (ip !!! (2 * i)%nat =? 0) && (ip !!! (2 * i + 1)%nat =? 0) then
          let current := S (current_zeroes_length z) in
          if (longest_zeroes_length z <? current)%nat
          then {| longest_zeroes_offset := current_zeroes_offset z; longest_zeroes_length := current;
                  current_zeroes_offset := current_zeroes_offset z; current_zeroes_length := current |}
          else {| longest_zeroes_offset := longest_zeroes_offset z;
                  longest_zeroes_length := longest_zeroes_length z;
                  current_zeroes_offset := current_zeroes_offset z; current_zeroes_length := current |}
        else {| longest_zeroes_offset := longest_zeroes_offset z;
                longest_zeroes_length := longest_zeroes_length z;
                current_zeroes_offset := S i; current_zeroes_length := 0 |} in
      find_zeroes n (S i) ip z
  end.

Definition group (ip : list Z) (i : nat) : Z :=
  Z.lor (Z.shiftl (ip !!! (2 * i)%nat) 8) (ip !!! (2 * i + 1)%nat).

(** [for ( size_t i = 0; i < 8; i++ )]: each step moves [i] up by at least one. *)
Fixpoint print_groups (fuel i : nat) (ip : list Z) (z : zeroes) (buffer : list Z) (offset : Z)
    : outcome (list Z * Z) :=
  if (8 <=? i)%nat then Ret (buffer, offset) else
  match fuel with
  | O => OutOfFuel
  | S fuel =>
      if (i =? longest_zeroes_offset z)%nat && (2 <=? longest_zeroes_length z)%nat then
        buffer ← write_at buffer offset [ch ":"];
        buffer ← write_at buffer (offset + 1) [ch ":"];
        print_groups fuel (S (i + (longest_zeroes_length z - 1))) ip z buffer (offset + 2)
      else
        '(buffer, offset) ←
          (if negb (offset =? 0) && negb (buffer !!! Z.to_nat (offset - 1) =? ch ":") then
             buffer ← write_at buffer offset [ch ":"];
             Ret (buffer, offset + 1)
           else Ret (buffer, offset));
        '(n, tl) ← Printf.vsnprintf (drop (Z.to_nat offset) buffer) (INET6_ADDRSTRLEN - offset)
                     [] (lit "%x" ++ [0]) [Printf.VInt 32 (group ip i)];
        print_groups fuel (S i) ip z (take (Z.to_nat offset) buffer ++ tl) (u64 (offset + n))
  end.

Definition inet_ntop (af : Z) (src dst : list Z) (size : Z) : outcome (ntop_result * list Z) :=
  if af =? AF_INET then print_address dst size (lit "%u.%u.%u.%u") (octets (take 4 src))
  else if af =? AF_INET6 then
    if bool_decide (take 12 src = mapped_prefix)
    then print_address dst size (lit "::ffff:%u.%u.%u.%u") (octets (take 4 (drop 12 src)))
    else
      let z := find_zeroes 8 0 src {| longest_zeroes_offset := 0; longest_zeroes_length := 0;
                                      current_zeroes_offset := 0; current_zeroes_length := 0 |} in
      '(buffer, offset) ← print_groups 8 0 src z (replicate (Z.to_nat INET6_ADDRSTRLEN) 0) 0;
      buffer ← write_at buffer offset [0];
      if size <=? offset then Ret (NoAddress (Some ENOSPC), dst)
      else
        dst ← write_at dst 0 (take (Z.to_nat (offset + 1)) buffer);
        Ret (Address, dst)
  else Ret (NoAddress (Some EAFNOSUPPORT), dst).

(** ** inet_pton *)

(** [src[index]]: 0 at the terminator. *)
Abbreviation at0 := (hd 0).

Definition digit (c : Z) : bool := (ch "0" <=? c) && (c <=? ch "9").

(** One number of a dotted address: no leading zeros, at most 255. *)
Definition pton4_number (src : list Z) : option (Z * list Z) :=
  if negb (digit (at0 src)) then None else
  let num := at0 src - ch "0" in
  let src := tail src in
  if (num =? 0) || negb (digit (at0 src)) then Some (num, src) else
  let num := 10 * num + at0 src - ch "0" in
  let src := tail src in
  if negb (digit (at0 src)) then Some (num, src) else
  let num := 10 * num + at0 src - ch "0" in
  if 256 <=? num then None else Some (num, tail src).

Fixpoint pton4_loop (n i : nat) (ip src : list Z) : option (list Z * list Z) :=
  match n with
  | O => Some (ip, src)
  | S n =>
      if negb (i =? 0)%nat && negb (at0 src =? ch ".") then None else
      let src := if (i =? 0)%nat then src else tail src in
      '(num, src) ← pton4_number src;
      pton4_loop n (S i) (<[i := num]> ip) src
  end.

Definition hex_digit (c : Z) : option Z :=
  if digit c then Some (c - ch "0")
  else if (ch "a" <=? c) && (c <=? ch "f") then Some (c - ch "a" + 10)
  else if (ch "A" <=? c) && (c <=? ch "F") then Some (c - ch "A" + 10)
  else None.

(** The loop over the digits of a group. *)
Inductive group_result :=
| GFail
| GNum (num : Z) (rest : list Z)
| GDotted.

Fixpoint hex_group (n : nat) (j num : Z) (dotted : bool) (src : list Z) : group_result :=
  match n with
  | O => GNum num src
  | S n =>
      if (at0 src =? ch ".") && dotted then GDotted
      else match hex_digit (at0 src) with
           | Some dgt => hex_group n (j + 1) (Z.lor (Z.shiftl num 4) dgt) dotted (tail src)
           | None => if j =? 0 then GFail else GNum num src
           end
  end.

(** The loop over the digits of one number of an embedded dotted address. *)
Fixpoint dotted_number (k : nat) (first : bool) (num : Z) (src : list Z) : option (Z * list Z) :=
  match k with
  | O => Some (num, src)
  | S k =>
      if first && (at0 src =? ch "0") then Some (num, tail src)
      else if digit (at0 src) then dotted_number k false (num * 10 + at0 src - ch "0") (tail src)
      else if first then None
      else Some (num, src)
  end.

Fixpoint dotted_loop (k n i : nat) (ip src : list Z) : outcome (option (list Z * list Z)) :=
  match k with
  | O => Ret (Some (ip, src))
  | S k =>
      if negb (n =? 0)%nat && negb (at0 src =? ch ".") then Ret None else
      let src := if (n =? 0)%nat then src else tail src in
      match dotted_number 3 true 0 src with
      | None => Ret None
      | Some (num, src) =>
          if 255 <? num then Ret None
          else
            ip ← write_at ip (Z.of_nat (2 * i + n)) [u8 num];
            dotted_loop k (S n) i ip src
      end
  end.

(** What the code has at [done:]. *)
Record parsed := { p_i : nat; p_ip : list Z; p_compressed_at : Z; p_src : list Z }.

Fixpoint pton6_loop (k i : nat) (ip : list Z) (compressed_at : Z) (src : list Z)
    : outcome (option parsed) :=
  match k with
  | O => Ret (Some {| p_i := i; p_ip := ip; p_compressed_at := compressed_at; p_src := src |})
  | S k =>
      let compressing := (compressed_at =? -1) && (at0 src =? ch ":") && (at0 (tail src) =? ch ":") in
      let src := if compressing then drop 2 src else src in
      let compressed_at := if compressing then Z.of_nat i else compressed_at in
      if at0 src =? 0
      then Ret (Some {| p_i := i; p_ip := ip; p_compressed_at := compressed_at; p_src := src |})
      else if negb (i =? 0)%nat && negb compressing && negb (at0 src =? ch ":") then Ret None
      else
        let src := if negb (i =? 0)%nat && negb compressing then tail src else src in
        let dotted := ((compressed_at =? -1) && (i =? 6)%nat)
                      || ((0 <=? compressed_at) && (i <=? 6)%nat) in
        match hex_group 4 0 0 dotted src with
        | GFail => Ret None
        | GDotted =>
            r ← dotted_loop 4 0 i ip src;
            Ret ('(ip, src) ← r;
                 Some {| p_i := i + 2; p_ip := ip; p_compressed_at := compressed_at; p_src := src |})
        | GNum num src =>
            ip ← write_at ip (Z.of_nat (2 * i)) [Z.land (Z.shiftr num 8) 255; Z.land num 255];
            pton6_loop k (S i) ip compressed_at src
        end
  end.

(** The groups after the [::] move to the end, zeros take their place. *)
Definition expand_zeroes (p : parsed) : outcome (option (list Z)) :=
  if negb (at0 (p_src p) =? 0) then Ret None
  else if 0 <=? p_compressed_at p then
    if (p_i p =? 8)%nat then Ret None
    else
      let at_ := 2 * p_compressed_at p in
      let n := 2 * (Z.of_nat (p_i p) - p_compressed_at p) in
      ip ← write_at (p_ip p) (16 - n) (take (Z.to_nat n) (drop (Z.to_nat at_) (p_ip p)));
      ip ← write_at ip at_ (replicate (2 * (8 - p_i p)) 0);
      Ret (Some ip)
  else if (p_i p <? 8)%nat then Ret None
  else Ret (Some (p_ip p)).

(** The return value, the destination and [errno] when it was set. *)
Definition inet_pton (af : Z) (src dst : list Z) : outcome (Z * list Z * option errno) :=
  if af =? AF_INET then
    match pton4_loop 4 0 (replicate 4 0) src with
    | Some (ip, src) =>
        if negb (at0 src =? 0) then Ret (0, dst, None)
        else dst ← write_at dst 0 ip; Ret (1, dst, None)
    | None => Ret (0, dst, None)
    end
  else if af =? AF_INET6 then
    p ← pton6_loop 8 0 (replicate 16 0) (-1) src;
    match p with
    | None => Ret (0, dst, None)
    | Some p =>
        ip ← expand_zeroes p;
        match ip with
        | None => Ret (0, dst, None)
        | Some ip => dst ← write_at dst 0 ip; Ret (1, dst, None)
        end
    end
  else Ret (-1, dst, Some EAFNOSUPPORT).



Example ntop_loopback :
  inet_ntop AF_INET6 (replicate 15 0 ++ [1]) (replicate 6 7) 6
  = Ret (Address, lit "::1" ++ [0; 7; 7]).
Proof. vm_compute. reflexivity. Qed.

Example ntop_compressed :
  inet_ntop AF_INET6 [32; 1; 13; 184; 0; 0; 0; 0; 0; 1; 0; 0; 0; 0; 0; 1] (replicate 46 0) 46
  = Ret (Address, lit "2001:db8::1:0:0:1" ++ replicate 29 0).
Proof. vm_compute. reflexivity. Qed.

Example pton_mapped :
  inet_pton AF_INET6 (lit "::FFFF:192.0.2.33") (replicate 16 0)
  = Ret (1, mapped_prefix ++ [192; 0; 2; 33], None).
Proof. vm_compute. reflexivity. Qed.

Example pton_two_compressions :
  inet_pton AF_INET6 (lit "1::2::3") (replicate 16 7) = Ret (0, replicate 16 7, None).
Proof. vm_compute. reflexivity. Qed.

(** ** Decimal numbers *)

(** The decimal digits of a byte. *)
Definition dec (v : Z) : list Z :=
  if v <? 10 then [ch "0" + v]
  else if v <? 100 then [ch "0" + v / 10; ch "0" + v mod 10]
  else [ch "0" + v / 100; ch "0" + v / 10 mod 10; ch "0" + v mod 10].

Lemma dec_convert v :
  0 <= v < 256 → Printf.convert_integer 24 v 10 Printf.lower_digits = Ret (dec v).
Proof.
  revert v. apply (byte_forall (λ v, Printf.convert_integer 24 v 10 Printf.lower_digits = Ret (dec v))).
  vm_compute. reflexivity.
Qed.

Lemma dec_shape v :
  0 <= v < 256 →
  Forall (λ c, digit c = true) (dec v) ∧ (1 <= length (dec v) <= 3)%nat.
Proof.
  revert v. apply (byte_forall (λ v, Forall (λ c, digit c = true) (dec v) ∧ (1 <= length (dec v) <= 3)%nat)).
  vm_compute. reflexivity.
Qed.

(** The four numbers with dots between them. *)
Definition quad (a b c d : Z) : list Z :=
  dec a ++ ch "." :: dec b ++ ch "." :: dec c ++ ch "." :: dec d.

Lemma prints_octet em fuel rest v l wr so t2 st2 :
  0 <= v < 256 → 0 <= wr < 2 ^ 64 →
  Printf.prints (Printf.vcbprintf_loop fuel em rest false)
    (Printf.wrote (Printf.PState l wr so) (dec v)) t2 () st2 →
  Printf.prints (Printf.vcbprintf_loop (S fuel) em (lit "%u" ++ rest) false)
    (Printf.PState (Printf.VInt 32 v :: l) wr so) (dec v ++ t2) () st2.
Proof.
  intros Hv Hwr H. apply Printf.prints_unsigned; [by left|lia|done|by apply dec_convert| |done].
  pose proof (dec_shape v Hv). lia.
Qed.

Lemma prints_dot em fuel rest st t2 st2 :
  Printf.prints (Printf.vcbprintf_loop fuel em (ch "%" :: rest) false)
    (Printf.wrote st (lit ".")) t2 () st2 →
  Printf.prints (Printf.vcbprintf_loop (S fuel) em (lit ".%" ++ rest) false) st (lit "." ++ t2) () st2.
Proof. intros H. by apply (Printf.prints_literal em fuel (ch ".") [] (ch "%" :: rest)). Qed.

Lemma prints_quad em fuel a b c d wr so :
  0 <= wr < 2 ^ 64 → Forall (λ v, 0 <= v < 256) [a; b; c; d] →
  Printf.prints (Printf.vcbprintf_loop (8 + fuel) em (lit "%u.%u.%u.%u" ++ [0]) false)
    (Printf.PState (octets [a; b; c; d]) wr so) (quad a b c d) ()
    (Printf.PState [] (u64 (wr + Z.of_nat (length (quad a b c d)))) so).
Proof.
  intros Hwr Hb. inversion_clear Hb as [|? ? Ha Hb']. inversion_clear Hb' as [|? ? Hb Hc'].
  inversion_clear Hc' as [|? ? Hc Hd']. inversion_clear Hd' as [|? ? Hd _].
  unfold octets, quad. cbn [fmap list_fmap].
  rewrite <- (app_nil_r (dec d)) at 1.
  apply (prints_octet em (7 + fuel) (lit ".%u.%u.%u" ++ [0])); [done..|].
  apply (prints_dot em (6 + fuel) (lit "u.%u.%u" ++ [0])).
  apply (prints_octet em (5 + fuel) (lit ".%u.%u" ++ [0])); [done|apply wrapu_range; lia|].
  apply (prints_dot em (4 + fuel) (lit "u.%u" ++ [0])).
  apply (prints_octet em (3 + fuel) (lit ".%u" ++ [0])); [done|apply wrapu_range; lia|].
  apply (prints_dot em (2 + fuel) (lit "u" ++ [0])).
  apply (prints_octet em (1 + fuel) [0]); [done|apply wrapu_range; lia|].
  set (st := Printf.wrote _ _).
  replace (Printf.PState [] _ so) with st; [apply Printf.prints_end|].
  unfold st, Printf.wrote. cbn [Printf.args Printf.written Printf.stores]. f_equal.
  repeat (rewrite length_app || cbn [length]). unfold wrapu.
  repeat first [rewrite Zplus_mod_idemp_l|rewrite <- Z.add_assoc]. f_equal. lia.
Qed.

Lemma quad_length a b c d :
  Forall (λ v, 0 <= v < 256) [a; b; c; d] → (length (quad a b c d) <= 15)%nat.
Proof.
  intros Hb. inversion_clear Hb as [|? ? Ha Hb']. inversion_clear Hb' as [|? ? Hb Hc'].
  inversion_clear Hc' as [|? ? Hc Hd']. inversion_clear Hd' as [|? ? Hd _].
  pose proof (dec_shape a Ha). pose proof (dec_shape b Hb). pose proof (dec_shape c Hc).
  pose proof (dec_shape d Hd). unfold quad. repeat (rewrite length_app || cbn [length]). lia.
Qed.

Lemma print_address_run dst format args text :
  Printf.formatted [] (format ++ [0]) args = Ret (Z.of_nat (length text), text) →
  (length text < length dst)%nat →
  print_address dst (Z.of_nat (length dst)) format args
  = Ret (Address, text ++ [0] ++ drop (S (length text)) dst).
Proof.
  intros Hf Hlen. unfold print_address.
  rewrite (outcome_bind_eq _ _ _ (Printf.vsnprintf_run dst _ _ _ _ _ Hf)).
  rewrite (proj2 (Nat.eqb_neq (length dst) 0)) by lia.
  rewrite (proj2 (Z.ltb_ge _ 0)), (proj2 (Z.leb_gt _ (Z.of_nat (length text)))) by lia.
  by rewrite take_ge, Nat.min_r by lia.
Qed.

(** Reading a number back. *)
Lemma digit_true x : 0 <= x < 10 → digit (ch "0" + x) = true.
Proof. intros. unfold digit. rewrite !(proj2 (Z.leb_le _ _)) by lia. done. Qed.

(** Read the next digit of the goal. *)
Ltac read_digit := cbn [app hd tl]; rewrite digit_true by lia; cbn [negb].

Lemma pton4_number_dec v rest :
  0 <= v < 256 → digit (at0 rest) = false → pton4_number (dec v ++ rest) = Some (v, rest).
Proof.
  intros Hv Hr. unfold dec, pton4_number.
  pose proof (Z.div_mod v 10 ltac:(lia)). pose proof (Z.mod_pos_bound v 10 ltac:(lia)).
  pose proof (Z.div_mod (v / 10) 10 ltac:(lia)). pose proof (Z.mod_pos_bound (v / 10) 10 ltac:(lia)).
  assert (v / 10 / 10 = v / 100) as Hd by (rewrite Z.div_div by lia; done). rewrite <- Hd.
  destruct (Z.ltb_spec v 10); [|destruct (Z.ltb_spec v 100)].
  - read_digit. rewrite Hr, orb_true_r. do 2 f_equal. lia.
  - read_digit. rewrite (proj2 (Z.eqb_neq _ _)) by lia. read_digit. rewrite Hr. cbn [negb].
    do 2 f_equal. lia.
  - read_digit. rewrite (proj2 (Z.eqb_neq _ _)) by lia. read_digit. read_digit.
    rewrite (proj2 (Z.leb_gt _ _)) by lia. do 2 f_equal. lia.
Qed.

Lemma pton4_quad a b c d :
  Forall (λ v, 0 <= v < 256) [a; b; c; d] →
  pton4_loop 4 0 (replicate 4 0) (quad a b c d) = Some ([a; b; c; d], []).
Proof.
  intros Hb. inversion_clear Hb as [|? ? Ha Hb']. inversion_clear Hb' as [|? ? Hb Hc'].
  inversion_clear Hc' as [|? ? Hc Hd']. inversion_clear Hd' as [|? ? Hd _].
  unfold quad. cbn [pton4_loop Nat.eqb negb andb].
  rewrite pton4_number_dec by done. cbn [mbind option_bind pton4_loop Nat.eqb negb andb hd tl].
  rewrite Z.eqb_refl. cbn [negb].
  rewrite pton4_number_dec by done. cbn [mbind option_bind pton4_loop Nat.eqb negb andb hd tl].
  rewrite Z.eqb_refl. cbn [negb].
  rewrite pton4_number_dec by done. cbn [mbind option_bind pton4_loop Nat.eqb negb andb hd tl].
  rewrite Z.eqb_refl. cbn [negb].
  rewrite <- (app_nil_r (dec d)), pton4_number_dec by done. reflexivity.
Qed.

(** A number holds no terminator, no dot and no colon. *)
Lemma digits_no c l : digit c = false → Forall (λ c, digit c = true) l → c ∉ l.
Proof. intros Hc Hl Hin. rewrite Forall_forall in Hl. apply Hl in Hin. congruence. Qed.

Lemma quad_no c a b d e :
  c ≠ ch "." → digit c = false → Forall (λ v, 0 <= v < 256) [a; b; d; e] → c ∉ quad a b d e.
Proof.
  intros Hdot Hc Hb. rewrite !Forall_cons in Hb. destruct Hb as (Ha & Hb & Hd & He & _).
  unfold quad. rewrite !elem_of_app, !elem_of_cons, !elem_of_app, !elem_of_cons, elem_of_app, elem_of_cons.
  pose proof (digits_no c _ Hc (proj1 (dec_shape a Ha))). pose proof (digits_no c _ Hc (proj1 (dec_shape b Hb))).
  pose proof (digits_no c _ Hc (proj1 (dec_shape d Hd))). pose proof (digits_no c _ Hc (proj1 (dec_shape e He))).
  tauto.
Qed.

Lemma ntop_v4 a b c d dst :
  Forall (λ v, 0 <= v < 256) [a; b; c; d] → (16 <= length dst)%nat →
  inet_ntop AF_INET [a; b; c; d] dst (Z.of_nat (length dst))
  = Ret (Address, quad a b c d ++ [0] ++ drop (S (length (quad a b c d))) dst).
Proof.
  intros Hb Hdst. pose proof (quad_length a b c d Hb).
  apply (print_address_run dst (lit "%u.%u.%u.%u")); [|lia].
  apply (Printf.formatted_prints _ _ _ _ []); [|unfold INT_MAX; lia].
  by apply (prints_quad [] 4).
Qed.

(** ** Hexadecimal groups *)

Definition hexs (g : Z) : list Z :=
  match Printf.convert_integer 24 g 16 Printf.lower_digits with Ret ds => ds | _ => [] end.

Lemma hexs_spec g :
  0 <= g < 65536 →
  Printf.convert_integer 24 g 16 Printf.lower_digits = Ret (hexs g)
  ∧ Strtol.digits_value 16 0 (hexs g) = g ∧ Forall (Strtol.is_digit 16) (hexs g)
  ∧ (1 <= length (hexs g) <= 4)%nat.
Proof.
  intros Hg. unfold hexs.
  destruct (Printf.convert_integer_run g 16 Printf.lower_digits) as (ds & -> & Hv & Hd & Hl & Hlo);
    [lia|lia|apply Printf.digit_tables; lia|].
  split_and!; [done..|lia|]. destruct (decide (length ds <= 4)%nat); [done|].
  specialize (Hlo ltac:(lia)).
  pose proof (Z.pow_le_mono_r 16 4 (Z.of_nat (length ds - 1)) ltac:(lia) ltac:(lia)).
  change (16 ^ 4) with 65536 in *. lia.
Qed.

Lemma hex_digit_debase c :
  Strtol.is_digit 16 c →
  hex_digit c = Some (Strtol.debase c) ∧ c ≠ ch "." ∧ c ≠ ch ":".
Proof.
  intros [_ Hc]. unfold hex_digit, digit, Strtol.debase in *. revert Hc.
  destruct (Z.leb_spec (ch "0") c), (Z.leb_spec c (ch "9")), (Z.leb_spec (ch "a") c),
    (Z.leb_spec c (ch "z")), (Z.leb_spec (ch "A") c), (Z.leb_spec c (ch "Z")),
    (Z.leb_spec c (ch "f")), (Z.leb_spec c (ch "F")); cbn [andb]; intros Hc;
    first [lia|split; [f_equal; lia|lia]].
Qed.

(** What ends a group: the end of the string or a colon. *)
Definition ends_group (rest : list Z) : Prop := at0 rest = 0 ∨ at0 rest = ch ":".

Lemma hex_group_run n j num dotted ds rest :
  Forall (Strtol.is_digit 16) ds → (length ds <= n)%nat → 0 <= j → (0 < j ∨ ds ≠ []) →
  0 <= num → ends_group rest →
  hex_group n j num dotted (ds ++ rest) = GNum (Strtol.digits_value 16 num ds) rest.
Proof.
  intros Hds. revert n j num. induction Hds as [|c ds Hc Hds IH]; intros n j num Hn Hj Hne Hnum Hend.
  - destruct n as [|n]; [done|]. cbn [app hex_group Strtol.digits_value]. destruct Hne as [Hj'|]; [|done].
    destruct Hend as [-> | ->]; cbn; by rewrite (proj2 (Z.eqb_neq j 0)) by lia.
  - destruct n as [|n]; simpl in Hn; [lia|]. cbn [app hex_group hd tl Strtol.digits_value].
    destruct (hex_digit_debase c Hc) as (-> & Hdot & _).
    rewrite (proj2 (Z.eqb_neq _ _) Hdot). cbn [andb]. destruct Hc as [_ Hc].
    rewrite shiftl_mul, (lor_disjoint num _ 4) by lia. change (2 ^ 4) with 16.
    apply IH; [lia|lia|left; lia|lia|done].
Qed.

(** The bytes of a group. *)
Definition pair (g : Z) : list Z := [Z.land (Z.shiftr g 8) 255; Z.land g 255].
Definition bytes (gs : list Z) : list Z := mjoin (pair <$> gs).

Lemma bytes_app gs hs : bytes (gs ++ hs) = bytes gs ++ bytes hs.
Proof. unfold bytes. by rewrite fmap_app, join_app. Qed.

Lemma bytes_length gs : length (bytes gs) = (2 * length gs)%nat.
Proof.
  induction gs as [|g gs IH]; [done|]. change (g :: gs) with ([g] ++ gs).
  rewrite bytes_app, !length_app, IH. simpl. lia.
Qed.

Lemma bytes_zeroes n : bytes (replicate n 0) = replicate (2 * n) 0.
Proof.
  induction n as [|n IH]; [done|]. change (replicate (S n) 0) with ([0] ++ replicate n 0).
  rewrite bytes_app, IH. replace (2 * S n)%nat with (2 + 2 * n)%nat by lia. done.
Qed.

Abbreviation groups := (Forall (λ g, 0 <= g < 65536)).

(** An address is the bytes of its eight groups. *)
Lemma pair_group a b :
  0 <= a < 256 → 0 <= b < 256 →
  pair (Z.lor (Z.shiftl a 8) b) = [a; b] ∧ 0 <= Z.lor (Z.shiftl a 8) b < 65536.
Proof.
  intros Ha Hb. unfold pair. rewrite shiftl_mul, (lor_disjoint a b 8) by lia. split; [|lia].
  rewrite !(land_pow2_mod _ 8) by lia. rewrite shiftr_div by lia. change (2 ^ 8) with 256.
  rewrite Z.add_comm, Z.mod_add, Z.div_add, Z.div_small, (Z.mod_small b), Z.mod_small by lia. done.
Qed.

Lemma group_tail a b ip i : group (a :: b :: ip) (S i) = group ip i.
Proof.
  unfold group. replace (2 * S i)%nat with (S (S (2 * i))) by lia.
  replace (S (S (2 * i)) + 1)%nat with (S (S (2 * i + 1))) by lia. done.
Qed.

Lemma bytes_groups n ip :
  length ip = (2 * n)%nat → Forall (λ v, 0 <= v < 256) ip →
  bytes (group ip <$> seq 0 n) = ip ∧ groups (group ip <$> seq 0 n).
Proof.
  revert ip. induction n as [|n IH]; intros ip Hl Hb.
  { destruct ip; [done|simpl in Hl; lia]. }
  destruct ip as [|a [|b ip]]; [simpl in Hl; lia..|]. rewrite !Forall_cons in Hb.
  destruct Hb as (Ha & Hb & Hip). destruct (pair_group a b Ha Hb) as [Hp Hg].
  destruct (IH ip) as [E Hgs]; [simpl in Hl; lia|done|].
  rewrite <- cons_seq, <- fmap_S_seq, fmap_cons, <- list_fmap_compose.
  rewrite (list_fmap_ext (group (a :: b :: ip) ∘ S) (group ip) (seq 0 n))
    by (intros; apply group_tail).
  change (group (a :: b :: ip) 0) with (Z.lor (Z.shiftl a 8) b).
  split; [|by constructor].
  change (?g :: ?gs) with ([g] ++ gs). rewrite bytes_app, E. unfold bytes. cbn [fmap list_fmap].
  by rewrite Hp.
Qed.

(** ** Reading groups *)

Definition colons (gs : list Z) : list Z := mjoin ((λ g, ch ":" :: hexs g) <$> gs).
Definition joined (gs : list Z) : list Z :=
  match gs with [] => [] | g :: gs => hexs g ++ colons gs end.

Lemma colons_cons g gs : colons (g :: gs) = ch ":" :: hexs g ++ colons gs.
Proof. done. Qed.

Lemma ends_colons gs tl : ends_group tl → ends_group (colons gs ++ tl).
Proof. intros H. destruct gs as [|g gs]; [done|by right]. Qed.

(** A group at the head of the string. *)
Lemma hexs_head g rest : 0 <= g < 65536 → at0 (hexs g ++ rest) ≠ 0 ∧ at0 (hexs g ++ rest) ≠ ch ":".
Proof.
  intros Hg. destruct (hexs_spec g Hg) as (_ & _ & Hd & Hl).
  destruct (hexs g) as [|c ds]; [simpl in Hl; lia|]. inversion_clear Hd as [|? ? Hc _].
  split; [apply Hc|]. by apply hex_digit_debase.
Qed.

Lemma read_group k i done_ junk comp dotted g rest :
  length done_ = i → length (bytes done_ ++ junk) = 16%nat → (i < 8)%nat →
  0 <= g < 65536 → ends_group rest →
  ∃ junk',
    length (bytes (done_ ++ [g]) ++ junk') = 16%nat ∧
    match hex_group 4 0 0 dotted (hexs g ++ rest) with
    | GFail => Ret None
    | GDotted =>
        r ← dotted_loop 4 0 i (bytes done_ ++ junk) (hexs g ++ rest);
        Ret ('(ip, src) ← r;
             Some {| p_i := i + 2; p_ip := ip; p_compressed_at := comp; p_src := src |})
    | GNum num src =>
        ip ← write_at (bytes done_ ++ junk) (Z.of_nat (2 * i))
               [Z.land (Z.shiftr num 8) 255; Z.land num 255];
        pton6_loop k (S i) ip comp src
    end
    = pton6_loop k (S i) (bytes (done_ ++ [g]) ++ junk') comp rest.
Proof.
  intros Hi Hl H8 Hg Hend. destruct (hexs_spec g Hg) as (_ & Hv & Hd & Hlen).
  rewrite hex_group_run; [|done|lia|lia|right; intros E; rewrite E in Hlen; simpl in Hlen; lia|lia|done].
  rewrite Hv. fold (pair g). rewrite length_app, bytes_length in Hl.
  assert (write_at (bytes done_ ++ junk) (Z.of_nat (2 * i)) (pair g)
          = Ret (bytes (done_ ++ [g]) ++ drop 2 junk)) as Hw.
  { rewrite write_at_prefix; [|rewrite bytes_length; lia|simpl; lia].
    by rewrite bytes_app, <- app_assoc. }
  exists (drop 2 junk). rewrite (outcome_bind_eq _ _ _ Hw). split; [|done].
  rewrite length_app, bytes_length, length_drop, length_app. simpl. lia.
Qed.

Lemma read_colons k i done_ junk comp gs rest :
  length done_ = i → length (bytes done_ ++ junk) = 16%nat → (0 < i)%nat →
  (length gs <= k)%nat → (i + k = 8)%nat → groups gs → ends_group rest →
  ∃ junk',
    length (bytes (done_ ++ gs) ++ junk') = 16%nat ∧
    pton6_loop k i (bytes done_ ++ junk) comp (colons gs ++ rest)
    = pton6_loop (k - length gs) (i + length gs) (bytes (done_ ++ gs) ++ junk') comp rest.
Proof.
  revert k i done_ junk. induction gs as [|g gs IH]; intros k i done_ junk Hi Hl H0 Hk Hik Hg Hend.
  { exists junk. rewrite app_nil_r, Nat.sub_0_r, Nat.add_0_r. done. }
  inversion_clear Hg as [|? ? Hg0 Hgs]. destruct k as [|k]; simpl in Hk; [lia|].
  rewrite colons_cons. cbn [app]. rewrite <- app_assoc.
  destruct (hexs_head g (colons gs ++ rest) Hg0) as [Hh0 Hh1].
  destruct (read_group k i done_ junk comp
              (((comp =? -1) && (i =? 6)%nat) || ((0 <=? comp) && (i <=? 6)%nat)) g (colons gs ++ rest))
    as (junk1 & Hl1 & E); [done|done|lia|done|by apply ends_colons|].
  destruct (IH k (S i) (done_ ++ [g]) junk1) as (junk2 & Hl2 & E2);
    [rewrite length_app; simpl; lia|done|lia|lia|lia|done|done|].
  exists junk2. rewrite <- app_assoc in *. split; [done|].
  cbn [pton6_loop hd tl]. rewrite (proj2 (Z.eqb_neq _ _) Hh1), andb_false_r. cbn [hd tl].
  rewrite (proj2 (Nat.eqb_neq i 0)) by lia. cbn [negb andb].
  change (ch ":" =? 0) with false. rewrite Z.eqb_refl. cbn [negb]. cbv iota.
  etransitivity; [exact E|]. etransitivity; [exact E2|]. cbn [length]. f_equal; lia.
Qed.

(** The first iteration of a string that does not start with a colon. *)
Lemma first_group k ip src :
  at0 src ≠ 0 → at0 src ≠ ch ":" →
  pton6_loop (S k) 0 ip (-1) src
  = match hex_group 4 0 0 false src with
    | GFail => Ret None
    | GDotted =>
        r ← dotted_loop 4 0 0 ip src;
        Ret ('(ip, src) ← r;
             Some {| p_i := 0 + 2; p_ip := ip; p_compressed_at := -1; p_src := src |})
    | GNum num src =>
        ip ← write_at ip (Z.of_nat (2 * 0)) [Z.land (Z.shiftr num 8) 255; Z.land num 255];
        pton6_loop k 1 ip (-1) src
    end.
Proof.
  intros H0 H1. cbn [pton6_loop Nat.eqb negb andb].
  rewrite (proj2 (Z.eqb_neq _ _) H1), andb_false_r. cbn [andb].
  by rewrite (proj2 (Z.eqb_neq _ _) H0).
Qed.

(** The groups before a compression, or all of them. *)
Lemma read_joined gs rest :
  (length gs <= 8)%nat → groups gs → ends_group rest →
  ∃ junk,
    length (bytes gs ++ junk) = 16%nat ∧
    pton6_loop 8 0 (replicate 16 0) (-1) (joined gs ++ rest)
    = pton6_loop (8 - length gs) (length gs) (bytes gs ++ junk) (-1) rest.
Proof.
  intros Hl Hg Hend. destruct gs as [|g gs]; [by exists (replicate 16 0)|].
  inversion_clear Hg as [|? ? Hg0 Hgs]. cbn [joined length] in *. rewrite <- app_assoc.
  destruct (hexs_head g (colons gs ++ rest) Hg0) as [Hh0 Hh1].
  change (8 - S (length gs))%nat with (7 - length gs)%nat.
  destruct (read_group 7 0 [] (replicate 16 0) (-1) false g (colons gs ++ rest))
    as (junk1 & Hl1 & E); [done|done|lia|done|by apply ends_colons|].
  destruct (read_colons 7 1 [g] junk1 (-1) gs rest) as (junk2 & Hl2 & E2);
    [done|done|lia|lia|lia|done|done|].
  exists junk2. split; [done|]. rewrite first_group by done.
  etransitivity; [exact E|exact E2].
Qed.

(** A compression and the groups after it. *)
Lemma read_compressed pre junk post :
  length (bytes pre ++ junk) = 16%nat → (length pre + length post <= 7)%nat → groups post →
  ∃ junk',
    length (bytes (pre ++ post) ++ junk') = 16%nat ∧
    pton6_loop (8 - length pre) (length pre) (bytes pre ++ junk) (-1) (lit "::" ++ joined post)
    = Ret (Some {| p_i := length pre + length post; p_ip := bytes (pre ++ post) ++ junk';
                   p_compressed_at := Z.of_nat (length pre); p_src := [] |}).
Proof.
  intros Hl H7 Hg. set (i := length pre). set (comp := Z.of_nat i).
  replace (8 - i)%nat with (S (7 - i)) by (unfold i; lia).
  destruct post as [|g gs].
  { exists junk. rewrite app_nil_r. split; [done|]. cbn. by rewrite Nat.add_0_r. }
  inversion_clear Hg as [|? ? Hg0 Hgs]. cbn [length] in *.
  destruct (hexs_head g (colons gs) Hg0) as [Hh0 Hh1].
  destruct (read_group (7 - i) i pre junk comp (((comp =? -1) && (i =? 6)%nat) || ((0 <=? comp) && (i <=? 6)%nat))
              g (colons gs)) as (junk1 & Hl1 & E); [done|done|lia|done| |].
  { rewrite <- (app_nil_r (colons gs)). apply ends_colons. by left. }
  destruct (read_colons (7 - i) (S i) (pre ++ [g]) junk1 comp gs []) as (junk2 & Hl2 & E2);
    [rewrite length_app; simpl; unfold i; lia|done|lia|unfold i; lia|unfold i; lia|done|by left|].
  exists junk2. rewrite <- app_assoc in *. cbn [app] in *. rewrite app_nil_r in E2. split; [done|].
  cbn [pton6_loop app hd tl joined]. rewrite !Z.eqb_refl. cbn [andb].
  change (drop 2 (ch ":" :: ch ":" :: hexs g ++ colons gs)) with (hexs g ++ colons gs).
  rewrite (proj2 (Z.eqb_neq _ _) Hh0). rewrite andb_false_r. cbn [andb]. cbv iota.
  etransitivity; [exact E|]. etransitivity; [exact E2|].
  replace (7 - i - length gs)%nat with (S (6 - i - length gs)) by (unfold i; lia).
  cbn [pton6_loop hd tl]. rewrite (proj2 (Z.eqb_neq comp (-1))) by (unfold comp; lia).
  cbn. do 3 f_equal. lia.
Qed.

Lemma expand_zeroes_run pre post junk n :
  length (bytes (pre ++ post) ++ junk) = 16%nat → (length pre + length post + n = 8)%nat → (0 < n)%nat →
  expand_zeroes {| p_i := length pre + length post; p_ip := bytes (pre ++ post) ++ junk;
                   p_compressed_at := Z.of_nat (length pre); p_src := [] |}
  = Ret (Some (bytes (pre ++ replicate n 0 ++ post))).
Proof.
  intros Hl Hn H0. unfold expand_zeroes. cbn [p_src p_compressed_at p_i p_ip hd].
  rewrite (proj2 (Z.leb_le 0 _)), (proj2 (Nat.eqb_neq _ 8)) by lia. cbn [negb Z.eqb].
  cbv zeta. rewrite bytes_app, <- app_assoc in *. rewrite !length_app, !bytes_length in Hl.
  replace (Z.to_nat (2 * Z.of_nat (length pre))) with (length (bytes pre)) by (rewrite bytes_length; lia).
  rewrite drop_app_length.
  replace (Z.to_nat (2 * (Z.of_nat (length pre + length post) - Z.of_nat (length pre))))
    with (length (bytes post)) by (rewrite bytes_length; lia).
  rewrite take_app_length.
  set (mid := bytes post ++ junk). set (old := drop (2 * n) mid).
  assert (bytes pre ++ mid = (bytes pre ++ take (2 * n) mid) ++ old ++ []) as ->
    by (unfold old; by rewrite app_nil_r, <- app_assoc, take_drop).
  assert (length mid = (2 * length post + 2 * n)%nat) as Hmid
    by (unfold mid; rewrite length_app, bytes_length; lia).
  rewrite (outcome_bind_eq _ _ ((bytes pre ++ take (2 * n) mid) ++ bytes post ++ [])).
  2: { replace (16 - 2 * (Z.of_nat (length pre + length post) - Z.of_nat (length pre)))
         with (Z.of_nat (length (bytes pre ++ take (2 * n) mid)))
         by (rewrite length_app, length_take, bytes_length; lia).
       apply write_at_app. unfold old. rewrite length_drop, bytes_length. lia. }
  rewrite <- app_assoc, app_nil_r.
  rewrite (outcome_bind_eq _ _ (bytes pre ++ replicate (2 * n) 0 ++ bytes post)).
  - by rewrite !bytes_app, bytes_zeroes.
  - replace (2 * Z.of_nat (length pre)) with (Z.of_nat (length (bytes pre))) by (rewrite bytes_length; lia).
    replace (2 * (8 - (length pre + length post)))%nat with (2 * n)%nat by lia.
    apply write_at_app. rewrite length_replicate, length_take. lia.
Qed.

(** ** Printing groups *)

(** The run that is found consists of zero groups. *)
Definition zeroes_ok (ip : list Z) (i : nat) (z : zeroes) : Prop :=
  (longest_zeroes_offset z + longest_zeroes_length z <= i)%nat
  ∧ (∀ k, (longest_zeroes_offset z <= k < longest_zeroes_offset z + longest_zeroes_length z)%nat →
          group ip k = 0)
  ∧ (current_zeroes_offset z + current_zeroes_length z = i)%nat
  ∧ (∀ k, (current_zeroes_offset z <= k < i)%nat → group ip k = 0).

Lemma find_zeroes_ok n i ip z : zeroes_ok ip i z → zeroes_ok ip (i + n) (find_zeroes n i ip z).
Proof.
  revert i z. induction n as [|n IH]; intros i z Hz; cbn [find_zeroes]; [by rewrite Nat.add_0_r|].
  replace (i + S n)%nat with (S i + n)%nat by lia. apply IH. clear IH.
  destruct Hz as (H1 & H2 & H3 & H4).
  destruct ((_ =? 0) && _) eqn:E; [destruct (Nat.ltb_spec (longest_zeroes_length z) (S (current_zeroes_length z)))|];
    unfold zeroes_ok; cbn [longest_zeroes_offset longest_zeroes_length current_zeroes_offset current_zeroes_length].
  1, 2: apply andb_true_iff in E as [E1%Z.eqb_eq E2%Z.eqb_eq]; assert (∀ k, (current_zeroes_offset z <= k < S i)%nat → group ip k = 0) as H4'
    by (intros k Hk; destruct (decide (k = i)) as [->|];
        [unfold group; by rewrite E1, E2|apply H4; lia]).
  1, 2: split_and!; [lia| |lia|done].
  - intros k Hk. apply H4'. lia.
  - done.
  - split_and!; [lia|done|lia|]. intros k Hk. lia.
Qed.

Definition sep (t : list Z) : list Z :=
  match last t with None => [] | Some c => if c =? ch ":" then [] else [ch ":"] end.

Lemma formatted_hex g :
  0 <= g < 65536 →
  Printf.formatted [] (lit "%x" ++ [0]) [Printf.VInt 32 g] = Ret (Z.of_nat (length (hexs g)), hexs g).
Proof.
  intros Hg. destruct (hexs_spec g Hg) as (Hc & _ & _ & Hl).
  apply (Printf.formatted_prints _ _ _ _ []); [|unfold INT_MAX; lia].
  rewrite <- (app_nil_r (hexs g)) at 1.
  apply (Printf.prints_unsigned [] (ch "x") 2 [0]); [by right|lia|done|done|lia|apply Printf.prints_end].
Qed.

(** Is group [i] where the compression goes? *)
Definition compresses (z : zeroes) (i : nat) : bool :=
  (i =? longest_zeroes_offset z)%nat && (2 <=? longest_zeroes_length z)%nat.

Lemma print_sep t junk :
  (length t < length (t ++ junk))%nat →
  ∃ junk', length ((t ++ sep t) ++ junk') = length (t ++ junk) ∧
    (if negb (Z.of_nat (length t) =? 0)
        && negb ((t ++ junk) !!! Z.to_nat (Z.of_nat (length t) - 1) =? ch ":") then
       buffer ← write_at (t ++ junk) (Z.of_nat (length t)) [ch ":"];
       Ret (buffer, Z.of_nat (length t) + 1)
     else Ret (t ++ junk, Z.of_nat (length t)))
    = Ret ((t ++ sep t) ++ junk', Z.of_nat (length (t ++ sep t))).
Proof.
  intros Hl. unfold sep. destruct t as [|c t _] using rev_ind.
  { exists junk. done. }
  rewrite last_snoc, !length_app in *. cbn [length] in *.
  rewrite (proj2 (Z.eqb_neq _ 0)) by lia. cbn [negb andb].
  replace (Z.to_nat (Z.of_nat (length t + 1) - 1)) with (length t) by lia.
  assert (((t ++ [c]) ++ junk) !!! length t = c) as ->
    by (rewrite <- app_assoc; by apply list_lookup_total_middle).
  destruct (Z.eqb_spec c (ch ":")); cbn [negb].
  - exists junk. rewrite app_nil_r, <- app_assoc, length_app. split; [rewrite !length_app; simpl; lia|].
    do 2 f_equal. simpl. lia.
  - exists (drop 1 junk). split; [repeat (rewrite length_app || cbn [length]); rewrite length_drop; lia|].
    rewrite write_at_prefix; [|rewrite length_app; simpl; lia|simpl; lia].
    cbn [mbind outcome_bind length]. rewrite <- !app_assoc. do 2 f_equal.
    repeat (rewrite length_app || cbn [length]). lia.
Qed.

Lemma print_one fuel i ip z t junk :
  length (t ++ junk) = 46%nat → (length t <= 40)%nat → (i < 8)%nat → compresses z i = false →
  0 <= group ip i < 65536 →
  ∃ junk', length ((t ++ sep t ++ hexs (group ip i)) ++ junk') = 46%nat ∧
    print_groups (S fuel) i ip z (t ++ junk) (Z.of_nat (length t))
    = print_groups fuel (S i) ip z ((t ++ sep t ++ hexs (group ip i)) ++ junk')
        (Z.of_nat (length (t ++ sep t ++ hexs (group ip i)))).
Proof.
  intros Hl Ht Hi Hz Hg. destruct (hexs_spec _ Hg) as (_ & _ & _ & Hh).
  destruct (print_sep t junk) as (junk1 & Hl1 & E); [lia|].
  assert (length (sep t) <= 1)%nat as Hsep by (unfold sep; repeat case_match; simpl; lia).
  rewrite Hl in Hl1. set (u := t ++ sep t) in *.
  assert (length u <= 41)%nat as Hu by (unfold u; rewrite length_app; lia).
  rewrite length_app in Hl1.
  assert (length junk1 = (46 - length u)%nat) as Hj by lia.
  pose proof (Printf.vsnprintf_run junk1 [] _ _ _ _ (formatted_hex _ Hg)) as Hv. cbv zeta in Hv.
  rewrite (proj2 (Nat.eqb_neq _ 0)), take_ge, Nat.min_r in Hv by lia.
  eexists ([0] ++ drop (S (length (hexs (group ip i)))) junk1). rewrite (app_assoc t). fold u. split.
  { repeat (rewrite length_app || cbn [length]). rewrite length_drop. lia. }
  cbn [print_groups]. rewrite (proj2 (Nat.leb_gt 8 i)) by lia. fold (compresses z i). rewrite Hz.
  rewrite (outcome_bind_eq _ _ _ E). rewrite Nat2Z.id, drop_app_length, take_app_length.
  replace (INET6_ADDRSTRLEN - Z.of_nat (length u)) with (Z.of_nat (length junk1))
    by (unfold INET6_ADDRSTRLEN; lia).
  rewrite (outcome_bind_eq _ _ _ Hv). rewrite wrapu_id by (unfold in_u; lia).
  rewrite <- app_assoc. f_equal. rewrite length_app. lia.
Qed.

Lemma print_compress fuel i ip z t junk :
  length (t ++ junk) = 46%nat → (length t <= 40)%nat → (i < 8)%nat → compresses z i = true →
  ∃ junk', length ((t ++ lit "::") ++ junk') = 46%nat ∧
    print_groups (S fuel) i ip z (t ++ junk) (Z.of_nat (length t))
    = print_groups fuel (i + longest_zeroes_length z) ip z ((t ++ lit "::") ++ junk')
        (Z.of_nat (length (t ++ lit "::"))).
Proof.
  intros Hl Ht Hi Hz. exists (drop 2 junk). rewrite length_app in Hl. split.
  { repeat (rewrite length_app || cbn [length]). rewrite length_drop. lia. }
  cbn [print_groups]. rewrite (proj2 (Nat.leb_gt 8 i)) by lia. fold (compresses z i). rewrite Hz.
  rewrite write_at_prefix by (simpl; lia). cbn [mbind outcome_bind length].
  rewrite app_assoc, write_at_prefix; [|rewrite length_app; simpl; lia|rewrite length_drop; simpl; lia].
  cbn [mbind outcome_bind length]. rewrite drop_drop, <- !app_assoc.
  unfold compresses in Hz. apply andb_true_iff in Hz as [_ Hz%Nat.leb_le].
  replace (S (i + (longest_zeroes_length z - 1))) with (i + longest_zeroes_length z)%nat by lia.
  f_equal. rewrite length_app. simpl. lia.
Qed.

Definition show (t : list Z) (gs : list Z) : list Z := foldl (λ t g, t ++ sep t ++ hexs g) t gs.

Lemma print_run n fuel i ip z t junk :
  length (t ++ junk) = 46%nat → (length t <= 5 * i)%nat → (i + n <= 8)%nat →
  (∀ k, (i <= k < i + n)%nat → compresses z k = false) →
  (∀ k, (k < 8)%nat → 0 <= group ip k < 65536) →
  let t' := show t (group ip <$> seq i n) in
  ∃ junk', length (t' ++ junk') = 46%nat ∧ (length t' <= 5 * (i + n))%nat ∧
    print_groups (n + fuel) i ip z (t ++ junk) (Z.of_nat (length t))
    = print_groups fuel (i + n) ip z (t' ++ junk') (Z.of_nat (length t')).
Proof.
  revert i t junk. induction n as [|n IH]; intros i t junk Hl Ht Hn Hz Hg t'.
  { exists junk. rewrite Nat.add_0_r. done. }
  destruct (print_one (n + fuel) i ip z t junk) as (junk1 & Hl1 & E);
    [done|lia|lia|apply Hz; lia|apply Hg; lia|].
  destruct (hexs_spec (group ip i) (Hg i ltac:(lia))) as (_ & _ & _ & Hh).
  assert (length (sep t) <= 1)%nat as Hsep by (unfold sep; repeat case_match; simpl; lia).
  destruct (IH (S i) (t ++ sep t ++ hexs (group ip i)) junk1) as (junk2 & Hl2 & Hlen & E2);
    [done|rewrite !length_app; lia|lia|intros; apply Hz; lia|done|].
  exists junk2. split; [exact Hl2|]. split; [etransitivity; [exact Hlen|lia]|].
  replace (i + S n)%nat with (S i + n)%nat by lia. etransitivity; [exact E|exact E2].
Qed.

Lemma sep_hexs t g : 0 <= g < 65536 → sep (t ++ hexs g) = [ch ":"].
Proof.
  intros Hg. destruct (hexs_spec g Hg) as (_ & _ & Hd & Hl). unfold sep.
  destruct (hexs g) as [|c ds _] using rev_ind; [simpl in Hl; lia|].
  rewrite app_assoc, last_snoc. apply Forall_app in Hd as [_ Hd]. inversion_clear Hd as [|? ? Hc _].
  apply hex_digit_debase in Hc as (_ & _ & Hc). by rewrite (proj2 (Z.eqb_neq _ _) Hc).
Qed.

Lemma show_colons t gs : sep t = [ch ":"] → groups gs → show t gs = t ++ colons gs.
Proof.
  intros Ht Hg. revert t Ht. induction Hg as [|g gs Hg0 Hg IH]; intros t Ht; [by rewrite app_nil_r|].
  cbn [show foldl]. fold (show (t ++ sep t ++ hexs g) gs).
  rewrite IH by (rewrite app_assoc; by apply sep_hexs).
  rewrite Ht, colons_cons. by rewrite <- !app_assoc.
Qed.

Lemma show_joined t gs : sep t = [] → groups gs → show t gs = t ++ joined gs.
Proof.
  intros Ht Hg. destruct Hg as [|g gs Hg0 Hg]; [by rewrite app_nil_r|].
  cbn [show foldl joined]. fold (show (t ++ sep t ++ hexs g) gs). rewrite Ht. cbn [app].
  rewrite show_colons by (done || by apply sep_hexs). by rewrite <- app_assoc.
Qed.

Lemma sep_compressed t : sep (t ++ lit "::") = [].
Proof. unfold sep. change (lit "::") with ([ch ":"] ++ [ch ":"]). by rewrite app_assoc, last_snoc. Qed.

(** A list with a run of zeros in it. *)
Lemma seq_zeroes ip lo n m :
  (lo + n <= m)%nat → (∀ k, (lo <= k < lo + n)%nat → group ip k = 0) →
  group ip <$> seq 0 m
  = (group ip <$> seq 0 lo) ++ replicate n 0 ++ (group ip <$> seq (lo + n) (m - (lo + n))).
Proof.
  intros Hm Hz. replace m with (lo + (n + (m - (lo + n))))%nat at 1 by lia.
  rewrite !seq_app, !fmap_app. f_equal. f_equal. cbn [Nat.add].
  clear Hm. revert lo Hz. induction n as [|n IH]; intros lo Hz; [done|].
  rewrite <- cons_seq, fmap_cons, replicate_S. rewrite (Hz lo) by lia. f_equal. apply IH. intros. apply Hz. lia.
Qed.

(** The text [print_groups] leaves in the buffer. *)
Lemma print_text ip z :
  zeroes_ok ip 8 z → (∀ k, (k < 8)%nat → 0 <= group ip k < 65536) →
  ∃ text junk,
    print_groups 8 0 ip z (replicate 46 0) 0 = Ret (text ++ junk, Z.of_nat (length text))
    ∧ length (text ++ junk) = 46%nat ∧ (length text <= 42)%nat
    ∧ (text = joined (group ip <$> seq 0 8)
       ∨ ∃ pre n post, group ip <$> seq 0 8 = pre ++ replicate n 0 ++ post ∧ (2 <= n)%nat
           ∧ text = joined pre ++ lit "::" ++ joined post).
Proof.
  intros (Hlo & Hzero & _ & _) Hg. set (lo := longest_zeroes_offset z) in *. set (ll := longest_zeroes_length z) in *.
  assert (∀ i n, (i + n <= 8)%nat → groups (group ip <$> seq i n)) as Hgs.
  { intros i n Hn. apply Forall_fmap, Forall_forall. intros k Hk%elem_of_seq. apply Hg. lia. }
  destruct (decide (2 <= ll)%nat) as [H2|H2].
  - destruct (print_run lo (8 - lo) 0 ip z [] (replicate 46 0)) as (j1 & Hl1 & Ht1 & E1);
      [done|simpl; lia|lia| |done|].
    { intros k Hk. unfold compresses. fold lo. by rewrite (proj2 (Nat.eqb_neq k lo)) by lia. }
    rewrite show_joined in * by (done || apply Hgs; lia). cbn [app] in *.
    set (t1 := joined (group ip <$> seq 0 lo)) in *.
    destruct (print_compress (7 - lo) lo ip z t1 j1) as (j2 & Hl2 & E2); [done|lia|lia| |].
    { unfold compresses. fold lo ll. by rewrite Nat.eqb_refl, (proj2 (Nat.leb_le 2 ll)) by lia. }
    fold ll in E2.
    destruct (print_run (8 - (lo + ll)) (ll - 1) (lo + ll) ip z (t1 ++ lit "::") j2) as (j3 & Hl3 & Ht3 & E3);
      [done|rewrite length_app; simpl; lia|lia| |done|].
    { intros k Hk. unfold compresses. fold lo. by rewrite (proj2 (Nat.eqb_neq k lo)) by lia. }
    rewrite show_joined in * by (apply sep_compressed || apply Hgs; lia).
    eexists _, j3. split_and!; [|exact Hl3|lia|right].
    + replace 8%nat with (lo + (8 - lo))%nat at 1 by lia. etransitivity; [exact E1|].
      replace (8 - lo)%nat with (S (7 - lo)) by lia. etransitivity; [exact E2|].
      replace (7 - lo)%nat with (8 - (lo + ll) + (ll - 1))%nat by lia. etransitivity; [exact E3|].
      replace (lo + ll + (8 - (lo + ll)))%nat with 8%nat by lia. by destruct (ll - 1)%nat.
    + eexists _, ll, _. split; [by apply seq_zeroes|]. split; [done|]. by rewrite <- app_assoc.
  - destruct (print_run 8 0 0 ip z [] (replicate 46 0)) as (j1 & Hl1 & Ht1 & E1);
      [done|simpl; lia|lia| |done|].
    { intros k Hk. unfold compresses. fold ll. by rewrite (proj2 (Nat.leb_gt 2 ll)), andb_false_r by lia. }
    rewrite show_joined in * by (done || apply Hgs; lia). cbn [app] in *.
    eexists _, j1. split_and!; [exact E1|exact Hl1|lia|by left].
Qed.

(** ** Mapped addresses *)

Lemma hex_group_dotted n j num ds rest :
  Forall (λ c, digit c = true) ds → (length ds < n)%nat →
  hex_group n j num true (ds ++ ch "." :: rest) = GDotted.
Proof.
  intros Hds. revert n j num. induction Hds as [|c ds Hc Hds IH]; intros n j num Hn;
    (destruct n as [|n]; simpl in Hn; [lia|]); cbn [hex_group app hd tl]; [done|].
  assert (c ≠ ch ".") as Hdot by (intros ->; by vm_compute in Hc).
  rewrite (proj2 (Z.eqb_neq _ _) Hdot). unfold hex_digit. rewrite Hc. cbn [andb]. apply IH. lia.
Qed.

Lemma dotted_number_dec v rest :
  0 <= v < 256 → digit (at0 rest) = false → dotted_number 3 true 0 (dec v ++ rest) = Some (v, rest).
Proof.
  intros Hv Hr. unfold dec.
  pose proof (Z.div_mod v 10 ltac:(lia)). pose proof (Z.mod_pos_bound v 10 ltac:(lia)).
  pose proof (Z.div_mod (v / 10) 10 ltac:(lia)). pose proof (Z.mod_pos_bound (v / 10) 10 ltac:(lia)).
  assert (v / 10 / 10 = v / 100) as Hd by (rewrite Z.div_div by lia; done). rewrite <- Hd.
  destruct (Z.ltb_spec v 10); [|destruct (Z.ltb_spec v 100)]; cbn [dotted_number app hd tl andb].
  - destruct (Z.eqb_spec (ch "0" + v) (ch "0")); [do 2 f_equal; lia|].
    read_digit. rewrite Hr. do 2 f_equal. lia.
  - rewrite (proj2 (Z.eqb_neq _ _)) by lia. read_digit. read_digit. rewrite Hr. do 2 f_equal. lia.
  - rewrite (proj2 (Z.eqb_neq _ _)) by lia. read_digit. read_digit. read_digit. do 2 f_equal. lia.
Qed.

Lemma dotted_quad a b c d :
  Forall (λ v, 0 <= v < 256) [a; b; c; d] →
  dotted_loop 4 0 1 (255 :: 255 :: replicate 14 0) (quad a b c d)
  = Ret (Some ([255; 255; a; b; c; d] ++ replicate 10 0, [])).
Proof.
  intros Hb. rewrite !Forall_cons in Hb. destruct Hb as (Ha & Hb & Hc & Hd & _). unfold quad.
  assert (∀ v, 0 <= v < 256 → (255 <? v) = false ∧ u8 v = v) as Hv.
  { intros v Hv. split; [apply Z.ltb_ge; lia|by apply wrapu_id]. }
  cbn [dotted_loop Nat.eqb negb andb]. rewrite dotted_number_dec by done.
  destruct (Hv a Ha) as [-> ->].
  rewrite (outcome_bind_eq _ _ ([255; 255; a] ++ replicate 13 0)) by done.
  cbn [dotted_loop Nat.eqb negb andb hd tl]. rewrite Z.eqb_refl. cbn [negb].
  rewrite dotted_number_dec by done. destruct (Hv b Hb) as [-> ->].
  rewrite (outcome_bind_eq _ _ ([255; 255; a; b] ++ replicate 12 0)) by done.
  cbn [dotted_loop Nat.eqb negb andb hd tl]. rewrite Z.eqb_refl. cbn [negb].
  rewrite dotted_number_dec by done. destruct (Hv c Hc) as [-> ->].
  rewrite (outcome_bind_eq _ _ ([255; 255; a; b; c] ++ replicate 11 0)) by done.
  cbn [dotted_loop Nat.eqb negb andb hd tl]. rewrite Z.eqb_refl. cbn [negb].
  rewrite <- (app_nil_r (dec d)), dotted_number_dec by done. destruct (Hv d Hd) as [-> ->].
  done.
Qed.

Lemma pton_mapped_quad a b c d dst :
  Forall (λ v, 0 <= v < 256) [a; b; c; d] → (16 <= length dst)%nat →
  inet_pton AF_INET6 (lit "::ffff:" ++ quad a b c d) dst
  = Ret (1, (mapped_prefix ++ [a; b; c; d]) ++ drop 16 dst, None).
Proof.
  intros Hb Hdst. unfold inet_pton. cbn [Z.eqb Pos.eqb AF_INET AF_INET6].
  destruct (dec_shape a (Forall_inv Hb)) as [Hda Hla].
  rewrite (outcome_bind_eq _ _ (Some {| p_i := 3; p_ip := [255; 255; a; b; c; d] ++ replicate 10 0;
                                        p_compressed_at := 0; p_src := [] |})).
  - rewrite (outcome_bind_eq _ _ (Some (mapped_prefix ++ [a; b; c; d]))) by done.
    rewrite (outcome_bind_eq _ _ ((mapped_prefix ++ [a; b; c; d]) ++ drop 16 dst)); [done|].
    by apply (write_at_prefix [] dst (mapped_prefix ++ [a; b; c; d])).
  - transitivity (pton6_loop 7 1 (255 :: 255 :: replicate 14 0) 0 (ch ":" :: quad a b c d)); [done|].
    cbn [pton6_loop]. cbn [hd tl Z.eqb Pos.eqb Nat.eqb negb andb orb Z.leb Z.compare Nat.leb].
    unfold quad at 1. rewrite hex_group_dotted by (done || lia).
    by rewrite (outcome_bind_eq _ _ _ (dotted_quad a b c d Hb)).
Qed.

Lemma ntop_mapped a b c d dst :
  Forall (λ v, 0 <= v < 256) [a; b; c; d] → (46 <= length dst)%nat →
  let text := lit "::ffff:" ++ quad a b c d in
  inet_ntop AF_INET6 (mapped_prefix ++ [a; b; c; d]) dst (Z.of_nat (length dst))
  = Ret (Address, text ++ [0] ++ drop (S (length text)) dst).
Proof.
  intros Hb Hdst text. pose proof (quad_length a b c d Hb).
  assert (length text <= 22)%nat as Hl by (unfold text; rewrite length_app; simpl; lia).
  apply (print_address_run dst (lit "::ffff:%u.%u.%u.%u")); [|lia].
  apply (Printf.formatted_prints _ _ _ _ []); [|unfold INT_MAX; lia].
  apply (Printf.prints_literal [] 18 (ch ":") (lit ":ffff:") (lit "%u.%u.%u.%u" ++ [0])); [done..|].
  unfold Printf.wrote. cbn [Printf.args Printf.written Printf.stores].
  unfold text. rewrite length_app.
  replace (u64 (Z.of_nat (length (lit "::ffff:") + length (quad a b c d))))
    with (u64 (u64 (0 + Z.of_nat (length (lit "::ffff:"))) + Z.of_nat (length (quad a b c d))))
    by (unfold wrapu; rewrite Zplus_mod_idemp_l; f_equal; lia).
  apply (prints_quad [] 10); [apply wrapu_range; lia|done].
Qed.

(** ** Other version 6 addresses *)

Lemma pton_groups gs text dst :
  groups gs → length gs = 8%nat → (16 <= length dst)%nat →
  (text = joined gs
   ∨ ∃ pre n post, gs = pre ++ replicate n 0 ++ post ∧ (2 <= n)%nat
       ∧ text = joined pre ++ lit "::" ++ joined post) →
  inet_pton AF_INET6 text dst = Ret (1, bytes gs ++ drop 16 dst, None).
Proof.
  intros Hg H8 Hdst Htext. unfold inet_pton. cbn [Z.eqb Pos.eqb AF_INET AF_INET6].
  assert (length (bytes gs) = 16%nat) as Hbl by (rewrite bytes_length; lia).
  assert (write_at dst 0 (bytes gs) = Ret (bytes gs ++ drop 16 dst)) as Hw.
  { pose proof (write_at_prefix [] dst (bytes gs) 0 eq_refl ltac:(lia)) as H. by rewrite Hbl in H. }
  destruct Htext as [->|(pre & n & post & -> & Hn & ->)].
  - destruct (read_joined gs []) as (junk & Hl & E); [lia|done|by left|].
    rewrite app_nil_r in E. rewrite H8 in E.
    assert (junk = []) as -> by (rewrite length_app in Hl; destruct junk; [done|simpl in Hl; lia]).
    rewrite (outcome_bind_eq _ _ _ E). cbn [expand_zeroes p_src p_compressed_at p_i p_ip hd].
    rewrite app_nil_r. rewrite (outcome_bind_eq _ _ (Some (bytes gs))) by done.
    by rewrite (outcome_bind_eq _ _ _ Hw).
  - rewrite !length_app, length_replicate in H8.
    apply Forall_app in Hg as [Hpre [_ Hpost]%Forall_app].
    destruct (read_joined pre (lit "::" ++ joined post)) as (junk & Hl & E); [lia|done|by right|].
    destruct (read_compressed pre junk post) as (junk' & Hl' & E'); [done|lia|done|].
    rewrite (outcome_bind_eq _ _ _ (eq_trans E E')).
    rewrite (outcome_bind_eq _ _ _ (expand_zeroes_run pre post junk' n Hl' ltac:(lia) ltac:(lia))).
    by rewrite (outcome_bind_eq _ _ _ Hw).
Qed.

Lemma ntop_groups ip dst :
  length ip = 16%nat → Forall (λ v, 0 <= v < 256) ip → take 12 ip ≠ mapped_prefix → (46 <= length dst)%nat →
  ∃ text,
    inet_ntop AF_INET6 ip dst (Z.of_nat (length dst))
      = Ret (Address, text ++ [0] ++ drop (S (length text)) dst)
    ∧ (text = joined (group ip <$> seq 0 8)
       ∨ ∃ pre n post, group ip <$> seq 0 8 = pre ++ replicate n 0 ++ post ∧ (2 <= n)%nat
           ∧ text = joined pre ++ lit "::" ++ joined post).
Proof.
  intros Hl Hb Hm Hdst. destruct (bytes_groups 8 ip Hl Hb) as [_ Hg].
  set (z0 := {| longest_zeroes_offset := 0; longest_zeroes_length := 0;
                current_zeroes_offset := 0; current_zeroes_length := 0 |}).
  destruct (print_text ip (find_zeroes 8 0 ip z0)) as (text & junk & E & Hlen & Ht & Htext).
  { apply (find_zeroes_ok 8 0). unfold zeroes_ok. cbn. split_and!; [lia|lia|lia|lia]. }
  { intros k Hk. apply (Forall_lookup_1 _ _ k _ Hg). by rewrite list_lookup_fmap, lookup_seq_lt. }
  exists text. split; [|done]. unfold inet_ntop. cbn [Z.eqb Pos.eqb AF_INET AF_INET6].
  rewrite bool_decide_false by done. fold z0. cbv zeta.
  change (Z.to_nat INET6_ADDRSTRLEN) with 46%nat. rewrite (outcome_bind_eq _ _ _ E).
  rewrite length_app in Hlen.
  rewrite (outcome_bind_eq _ _ (text ++ [0] ++ drop 1 junk)).
  2: { apply write_at_prefix; [done|simpl; lia]. }
  rewrite (proj2 (Z.leb_gt _ _)) by lia.
  replace (Z.to_nat (Z.of_nat (length text) + 1)) with (length (text ++ [0])) by (rewrite length_app; simpl; lia).
  rewrite app_assoc, take_app_length.
  rewrite (outcome_bind_eq _ _ ((text ++ [0]) ++ drop (length (text ++ [0])) dst)).
  - rewrite length_app, <- app_assoc. simpl. by rewrite Nat.add_1_r.
  - apply (write_at_prefix [] dst); [done|]. rewrite length_app. simpl. lia.
Qed.

(** C39.  An address printed by [inet_ntop] into a buffer of the documented size
    (16 bytes for version 4, 46 for version 6) is parsed back by [inet_pton] to
    the same bytes, for every address of both families: dotted, with a
    compressed run of zero groups, and version 4 addresses mapped into
    version 6.  Neither call touches a byte outside its buffer. *)
Theorem inet_pton_ntop af ip dst dst' :
  af = AF_INET ∧ length ip = 4%nat ∧ INET_ADDRSTRLEN <= Z.of_nat (length dst)
  ∨ af = AF_INET6 ∧ length ip = 16%nat ∧ INET6_ADDRSTRLEN <= Z.of_nat (length dst) →
  Forall (λ v, 0 <= v < 256) ip → (length ip <= length dst')%nat →
  ∃ text,
    inet_ntop af ip dst (Z.of_nat (length dst))
      = Ret (Address, text ++ [0] ++ drop (S (length text)) dst)
    ∧ inet_pton af text dst' = Ret (1, ip ++ drop (length ip) dst', None).
Proof.
  unfold INET_ADDRSTRLEN, INET6_ADDRSTRLEN.
  intros [(-> & Hl & Hdst)|(-> & Hl & Hdst)] Hb Hdst'.
  - destruct ip as [|a [|b [|c [|d []]]]]; try done. exists (quad a b c d).
    split; [apply ntop_v4; [done|lia]|]. unfold inet_pton. cbn [Z.eqb Pos.eqb AF_INET].
    rewrite pton4_quad by done. cbn [hd negb Z.eqb].
    by rewrite (outcome_bind_eq _ _ _ (write_at_prefix [] dst' [a; b; c; d] 0 eq_refl Hdst')).
  - destruct (decide (take 12 ip = mapped_prefix)) as [Hm|Hm].
    + assert (∃ a b c d, ip = mapped_prefix ++ [a; b; c; d]) as (a & b & c & d & ->).
      { pose proof (take_drop 12 ip) as E. pose proof (length_drop ip 12) as Hd. rewrite Hl in Hd.
        rewrite Hm in E. destruct (drop 12 ip) as [|a [|b [|c [|d []]]]]; try done. eauto. }
      apply Forall_app in Hb as [_ Hb]. exists (lit "::ffff:" ++ quad a b c d).
      split; [apply ntop_mapped; [done|lia]|]. apply pton_mapped_quad; [done|simpl in *; lia].
    + destruct (ntop_groups ip dst Hl Hb Hm ltac:(lia)) as (text & E & Htext).
      exists text. split; [exact E|]. destruct (bytes_groups 8 ip Hl Hb) as [Hip Hg].
      rewrite (pton_groups _ _ dst' Hg ltac:(done) ltac:(lia) Htext), Hip, Hl. done.
Qed.

Lemma inet_pton_ntop_witness :
  ∃ text,
    inet_ntop AF_INET6 (replicate 15 0 ++ [1]) (replicate 46 7) 46
      = Ret (Address, text ++ [0] ++ drop (S (length text)) (replicate 46 7))
    ∧ inet_pton AF_INET6 text (replicate 16 7) = Ret (1, replicate 15 0 ++ [1], None).
Proof.
  apply (inet_pton_ntop AF_INET6 (replicate 15 0 ++ [1]) (replicate 46 7) (replicate 16 7)).
  - right. split; [reflexivity|]. split; [reflexivity|]. vm_compute. discriminate.
  - repeat constructor; lia.
  - vm_compute. lia.
Defined.

End Inet.
