(* ===== verification/Sha2.v ===== *)
(** * The SHA-2 hash functions

    [sha2/sha256.c], [sha224.c], [sha512.c], [sha384.c] and [sha512_256.c].  The
    two transforms, with their updates and paddings, are the same code over
    words of 32 and of 64 bits; the model takes what differs as the record
    [sha].  Both files hold the transform twice, unrolled (used on x86) and as a
    loop; both are here.  The buffer of the context is written through checked
    writes; the arrays [state], [K] and [W] have fixed sizes and are indexed by
    constants and counters below them. *)

From S2P Require Import Prelude.
From stdpp Require Import base list numbers strings.
From Stdlib Require Import ZArith Lia Ascii.

#[local] Open Scope c_scope.
#[local] Open Scope Z_scope.

Module Sha2.

(** ** Endian specific copies *)

Definition BE_8_TO_32 (cp : list Z) : Z :=
  Z.lor (Z.lor (Z.lor (cp !!! 3%nat) (Z.shiftl (cp !!! 2%nat) 8))
    (Z.shiftl (cp !!! 1%nat) 16)) (Z.shiftl (cp !!! 0%nat) 24).

Definition BE_8_TO_64 (cp : list Z) : Z :=
  Z.lor (Z.lor (Z.lor (Z.lor (Z.lor (Z.lor (Z.lor
    (cp !!! 7%nat) (Z.shiftl (cp !!! 6%nat) 8))
    (Z.shiftl (cp !!! 5%nat) 16)) (Z.shiftl (cp !!! 4%nat) 24))
    (Z.shiftl (cp !!! 3%nat) 32)) (Z.shiftl (cp !!! 2%nat) 40))
    (Z.shiftl (cp !!! 1%nat) 48)) (Z.shiftl (cp !!! 0%nat) 56).

Definition BE_64_TO_8 (src : Z) : list Z :=
  [u8 (Z.shiftr src 56); u8 (Z.shiftr src 48); u8 (Z.shiftr src 40); u8 (Z.shiftr src 32);
   u8 (Z.shiftr src 24); u8 (Z.shiftr src 16); u8 (Z.shiftr src 8); u8 src].

Definition BE_32_TO_8 (src : Z) : list Z :=
  [u8 (Z.shiftr src 24); u8 (Z.shiftr src 16); u8 (Z.shiftr src 8); u8 src].

(** ** What differs between the two families

    [width] is the number of bits of a word; [S0] and [S1] are the rotations of
    the big sigmas, [s0] and [s1] the two rotations and the shift of the small
    ones; [pad_cleared] is the number of bytes cleared before an extra last
    block, and [wide_count] says that the bit count has 128 bits. *)
Record sha := {
  width : Z;
  rounds : nat;
  K : list Z;
  BLOCK_LENGTH : nat;
  SHORT_BLOCK_LENGTH : nat;
  pad_cleared : nat;
  load_word : list Z → Z;
  store_word : Z → list Z;
  S0 : Z * Z * Z;
  S1 : Z * Z * Z;
  s0 : Z * Z * Z;
  s1 : Z * Z * Z;
  wide_count : bool
}.

Definition K256 : list Z :=
    [ 0x428a2f98; 0x71374491; 0xb5c0fbcf; 0xe9b5dba5 ] ++
    [ 0x3956c25b; 0x59f111f1; 0x923f82a4; 0xab1c5ed5 ] ++
    [ 0xd807aa98; 0x12835b01; 0x243185be; 0x550c7dc3 ] ++
    [ 0x72be5d74; 0x80deb1fe; 0x9bdc06a7; 0xc19bf174 ] ++
    [ 0xe49b69c1; 0xefbe4786; 0x0fc19dc6; 0x240ca1cc ] ++
    [ 0x2de92c6f; 0x4a7484aa; 0x5cb0a9dc; 0x76f988da ] ++
    [ 0x983e5152; 0xa831c66d; 0xb00327c8; 0xbf597fc7 ] ++
    [ 0xc6e00bf3; 0xd5a79147; 0x06ca6351; 0x14292967 ] ++
    [ 0x27b70a85; 0x2e1b2138; 0x4d2c6dfc; 0x53380d13 ] ++
    [ 0x650a7354; 0x766a0abb; 0x81c2c92e; 0x92722c85 ] ++
    [ 0xa2bfe8a1; 0xa81a664b; 0xc24b8b70; 0xc76c51a3 ] ++
    [ 0xd192e819; 0xd6990624; 0xf40e3585; 0x106aa070 ] ++
    [ 0x19a4c116; 0x1e376c08; 0x2748774c; 0x34b0bcb5 ] ++
    [ 0x391c0cb3; 0x4ed8aa4a; 0x5b9cca4f; 0x682e6ff3 ] ++
    [ 0x748f82ee; 0x78a5636f; 0x84c87814; 0x8cc70208 ] ++
    [ 0x90befffa; 0xa4506ceb; 0xbef9a3f7; 0xc67178f2 ].

Definition K512 : list Z := [
    0x428a2f98d728ae22; 0x7137449123ef65cd;
    0xb5c0fbcfec4d3b2f; 0xe9b5dba58189dbbc;
    0x3956c25bf348b538; 0x59f111f1b605d019;
    0x923f82a4af194f9b; 0xab1c5ed5da6d8118;
    0xd807aa98a3030242; 0x12835b0145706fbe;
    0x243185be4ee4b28c; 0x550c7dc3d5ffb4e2;
    0x72be5d74f27b896f; 0x80deb1fe3b1696b1;
    0x9bdc06a725c71235; 0xc19bf174cf692694;
    0xe49b69c19ef14ad2; 0xefbe4786384f25e3;
    0x0fc19dc68b8cd5b5; 0x240ca1cc77ac9c65;
    0x2de92c6f592b0275; 0x4a7484aa6ea6e483;
    0x5cb0a9dcbd41fbd4; 0x76f988da831153b5;
    0x983e5152ee66dfab; 0xa831c66d2db43210;
    0xb00327c898fb213f; 0xbf597fc7beef0ee4;
    0xc6e00bf33da88fc2; 0xd5a79147930aa725;
    0x06ca6351e003826f; 0x142929670a0e6e70;
    0x27b70a8546d22ffc; 0x2e1b21385c26c926;
    0x4d2c6dfc5ac42aed; 0x53380d139d95b3df;
    0x650a73548baf63de; 0x766a0abb3c77b2a8;
    0x81c2c92e47edaee6; 0x92722c851482353b;
    0xa2bfe8a14cf10364; 0xa81a664bbc423001;
    0xc24b8b70d0f89791; 0xc76c51a30654be30;
    0xd192e819d6ef5218; 0xd69906245565a910;
    0xf40e35855771202a; 0x106aa07032bbd1b8;
    0x19a4c116b8d2d0c8; 0x1e376c085141ab53;
    0x2748774cdf8eeb99; 0x34b0bcb5e19b48a8;
    0x391c0cb3c5c95a63; 0x4ed8aa4ae3418acb;
    0x5b9cca4f7763e373; 0x682e6ff3d6b2b8a3;
    0x748f82ee5defb2fc; 0x78a5636f43172f60;
    0x84c87814a1f0ab72; 0x8cc702081a6439ec;
    0x90befffa23631e28; 0xa4506cebde82bde9;
    0xbef9a3f7b2c67915; 0xc67178f2e372532b;
    0xca273eceea26619c; 0xd186b8c721c0c207;
    0xeada7dd6cde0eb1e; 0xf57d4f7fee6ed178;
    0x06f067aa72176fba; 0x0a637dc5a2c898a6;
    0x113f9804bef90dae; 0x1b710b35131c471b;
    0x28db77f523047d84; 0x32caab7b40c72493;
    0x3c9ebe0a15c9bebc; 0x431d67c49c100d4c;
    0x4cc5d4becb3e42b6; 0x597f299cfc657e2a;
    0x5fcb6fab3ad6faec; 0x6c44198c4a475817 ].

Definition sha32 : sha := {|
  width := 32; rounds := 64; K := K256; BLOCK_LENGTH := 64; SHORT_BLOCK_LENGTH := 56;
  pad_cleared := 56; load_word := BE_8_TO_32; store_word := BE_32_TO_8;
  S0 := (2, 13, 22); S1 := (6, 11, 25); s0 := (7, 18, 3); s1 := (17, 19, 10);
  wide_count := false |}.

Definition sha64 : sha := {|
  width := 64; rounds := 80; K := K512; BLOCK_LENGTH := 128; SHORT_BLOCK_LENGTH := 112;
  pad_cleared := 126; load_word := BE_8_TO_64; store_word := BE_64_TO_8;
  S0 := (28, 34, 39); S1 := (14, 18, 41); s0 := (1, 8, 7); s1 := (19, 61, 6);
  wide_count := true |}.

(** The context: the buffer has room for the larger block. *)
Record context := { state : list Z; bitcount0 : Z; bitcount1 : Z; buffer : list Z }.

Definition BUFFER_LENGTH : nat := 128.

Definition cleared : context :=
  {| state := replicate 8 0; bitcount0 := 0; bitcount1 := 0; buffer := replicate BUFFER_LENGTH 0 |}.

Record regs := { ra : Z; rb : Z; rc : Z; rd : Z; re : Z; rf : Z; rg : Z; rh : Z }.

Section Family.
Context (F : sha).

Definition uw (x : Z) : Z := wrapu (width F) x.

(** ** The six logical functions *)

Definition R (b x : Z) : Z := Z.shiftr x b.
Definition S_ (b x : Z) : Z := Z.lor (Z.shiftr x b) (uw (Z.shiftl x (width F - b))).
Definition Ch (x y z : Z) : Z := Z.lxor (Z.land x y) (Z.land (uw (Z.lnot x)) z).
Definition Maj (x y z : Z) : Z := Z.lxor (Z.lxor (Z.land x y) (Z.land x z)) (Z.land y z).

Definition Sigma (r : Z * Z * Z) (x : Z) : Z :=
  let '(p, q, r) := r in Z.lxor (Z.lxor (S_ p x) (S_ q x)) (S_ r x).
Definition sigma (r : Z * Z * Z) (x : Z) : Z :=
  let '(p, q, r) := r in Z.lxor (Z.lxor (S_ p x) (S_ q x)) (R r x).

Definition word_size : nat := Z.to_nat (width F / 8).

(** The word of round [j]: read from the block, or part of the expansion. *)
Definition message_word (j : nat) (data W : list Z) : Z * list Z :=
  if (j <? 16)%nat then
    let x := load_word F (drop (word_size * j) data) in (x, <[j := x]> W)
  else
    let t0 := sigma (s0 F) (W !!! ((j + 1) mod 16)%nat) in
    let t1 := sigma (s1 F) (W !!! ((j + 14) mod 16)%nat) in
    let x := uw (W !!! (j mod 16)%nat + (t1 + W !!! ((j + 9) mod 16)%nat + t0)) in
    (x, <[(j mod 16)%nat := x]> W).

(** ** The loop *)

Definition round (j : nat) (Wj : Z) (r : regs) : regs :=
  let T1 := uw (rh r + Sigma (S1 F) (re r) + Ch (re r) (rf r) (rg r) + K F !!! j + Wj) in
  let T2 := uw (Sigma (S0 F) (ra r) + Maj (ra r) (rb r) (rc r)) in
  {| rh := rg r; rg := rf r; rf := re r; re := uw (rd r + T1);
     rd := rc r; rc := rb r; rb := ra r; ra := uw (T1 + T2) |}.

Fixpoint rolled (n j : nat) (data W : list Z) (r : regs) : regs :=
  match n with
  | O => r
  | S n => let '(x, W) := message_word j data W in rolled n (S j) data W (round j x r)
  end.

Definition registers (st : list Z) : regs :=
  {| ra := st !!! 0%nat; rb := st !!! 1%nat; rc := st !!! 2%nat; rd := st !!! 3%nat;
     re := st !!! 4%nat; rf := st !!! 5%nat; rg := st !!! 6%nat; rh := st !!! 7%nat |}.

Definition add_registers (st : list Z) (r : regs) : list Z :=
  zip_with (λ x y, uw (x + y)) st [ra r; rb r; rc r; rd r; re r; rf r; rg r; rh r].

Definition Transform (st data : list Z) : list Z :=
  add_registers st (rolled (rounds F) 0 data (replicate 16 0) (registers st)).

(** ** The unrolled loop

    [ROUND(a, b, ..., h)] changes two of the variables in place; which variables
    play which role moves on by one from one invocation to the next, and is back
    where it was after eight.  The variables are a list, and in the invocation
    [j] the variable [(i - j) mod 8] plays the role [i]. *)

Definition role (j i : nat) : nat := ((i + 7 * j) mod 8)%nat.

Definition ROUND (j : nat) (Wj : Z) (v : list Z) : list Z :=
  let x i := v !!! role j i in
  let T1 := uw (x 7%nat + Sigma (S1 F) (x 4%nat) + Ch (x 4%nat) (x 5%nat) (x 6%nat) + K F !!! j + Wj) in
  let v := <[role j 3 := uw (x 3%nat + T1)]> v in
  let x i := v !!! role j i in
  <[role j 7 := uw (T1 + Sigma (S0 F) (x 0%nat) + Maj (x 0%nat) (x 1%nat) (x 2%nat))]> v.

Fixpoint unrolled (n j : nat) (data W v : list Z) : list Z :=
  match n with
  | O => v
  | S n => let '(x, W) := message_word j data W in unrolled n (S j) data W (ROUND j x v)
  end.

Definition TransformUnrolled (st data : list Z) : list Z :=
  zip_with (λ x y, uw (x + y)) st (unrolled (rounds F) 0 data (replicate 16 0) (take 8 st)).

(** ** The context *)

Definition add_bits (ctx : context) (n : Z) : context :=
  let n := u64 n in
  let lo := u64 (bitcount0 ctx + n) in
  {| state := state ctx; buffer := buffer ctx; bitcount0 := lo;
     bitcount1 := if wide_count F && (lo <? n) then u64 (bitcount1 ctx + 1) else bitcount1 ctx |}.

Definition transform_state (ctx : context) (data : list Z) : context :=
  {| state := Transform (state ctx) data; buffer := buffer ctx;
     bitcount0 := bitcount0 ctx; bitcount1 := bitcount1 ctx |}.

(** [memcpy(&context->buffer[at], l, ...)] and [memset]. *)
Definition write_buffer (ctx : context) (at_ : Z) (l : list Z) : outcome context :=
  b ← write_at (buffer ctx) at_ l;
  Ret {| state := state ctx; buffer := b; bitcount0 := bitcount0 ctx; bitcount1 := bitcount1 ctx |}.

Definition usedspace (ctx : context) : Z :=
  Z.shiftr (bitcount0 ctx) 3 mod Z.of_nat (BLOCK_LENGTH F).

(** The 32-bit functions leave the upper word of the count alone. *)
Definition Init (initial : list Z) (ctx : context) : context :=
  {| state := initial; buffer := replicate BUFFER_LENGTH 0; bitcount0 := 0;
     bitcount1 := if wide_count F then 0 else bitcount1 ctx |}.

(** [while (len >= BLOCK_LENGTH)]: one block each time. *)
Fixpoint update_blocks (fuel : nat) (ctx : context) (data : list Z) : outcome (context * list Z) :=
  if (length data <? BLOCK_LENGTH F)%nat then Ret (ctx, data) else
  match fuel with
  | O => OutOfFuel
  | S fuel =>
      update_blocks fuel (add_bits (transform_state ctx data) (Z.shiftl (Z.of_nat (BLOCK_LENGTH F)) 3))
        (drop (BLOCK_LENGTH F) data)
  end.

(** From the loop on. *)
Definition update_rest (ctx : context) (data : list Z) : outcome context :=
  '(ctx, data) ← update_blocks (length data) ctx data;
  if (0 <? length data)%nat then
    ctx ← write_buffer ctx 0 data;
    Ret (add_bits ctx (Z.shiftl (Z.of_nat (length data)) 3))
  else Ret ctx.

Definition Update (ctx : context) (data : list Z) : outcome context :=
  if (length data =? 0)%nat then Ret ctx else
  let used := usedspace ctx in
  let free := Z.of_nat (BLOCK_LENGTH F) - used in
  if 0 <? used then
    if free <=? Z.of_nat (length data) then
      ctx ← write_buffer ctx used (take (Z.to_nat free) data);
      let ctx := add_bits ctx (Z.shiftl free 3) in
      update_rest (transform_state ctx (buffer ctx)) (drop (Z.to_nat free) data)
    else
      ctx ← write_buffer ctx used data;
      Ret (add_bits ctx (Z.shiftl (Z.of_nat (length data)) 3))
  else update_rest ctx data.

(** The one bit and the zeros up to the length. *)
Definition pad_bits (ctx : context) : outcome context :=
  let used := usedspace ctx in
  let short := Z.of_nat (SHORT_BLOCK_LENGTH F) in
  if 0 <? used then
    ctx ← write_buffer ctx used [128];
    let used := used + 1 in
    if used <=? short then write_buffer ctx used (replicate (Z.to_nat (short - used)) 0)
    else
      ctx ← (if used <? Z.of_nat (BLOCK_LENGTH F)
             then write_buffer ctx used (replicate (Z.to_nat (Z.of_nat (BLOCK_LENGTH F) - used)) 0)
             else Ret ctx);
      write_buffer (transform_state ctx (buffer ctx)) 0 (replicate (pad_cleared F) 0)
  else
    ctx ← write_buffer ctx 0 (replicate (SHORT_BLOCK_LENGTH F) 0);
    write_buffer ctx 0 [128].

Definition store_length (ctx : context) : outcome context :=
  let short := Z.of_nat (SHORT_BLOCK_LENGTH F) in
  if wide_count F then
    ctx ← write_buffer ctx short (BE_64_TO_8 (bitcount1 ctx));
    write_buffer ctx (short + 8) (BE_64_TO_8 (bitcount0 ctx))
  else write_buffer ctx short (BE_64_TO_8 (bitcount0 ctx)).

Definition Pad (ctx : context) : outcome context :=
  ctx ← pad_bits ctx;
  ctx ← store_length ctx;
  Ret (transform_state ctx (buffer ctx)).

(** The first [n] words of the state, and the context cleared by
    [explicit_bzero]. *)
Definition Final (n : nat) (ctx : context) : outcome (list Z * context) :=
  ctx ← Pad ctx;
  Ret (mjoin (store_word F <$> take n (state ctx)), cleared).

End Family.

(** ** The five functions *)

Definition sha256_initial_hash_value : list Z := [
    0x6a09e667; 0xbb67ae85;
    0x3c6ef372; 0xa54ff53a;
    0x510e527f; 0x9b05688c;
    0x1f83d9ab; 0x5be0cd19 ].

Definition sha224_initial_hash_value : list Z := [
    0xc1059ed8; 0x367cd507;
    0x3070dd17; 0xf70e5939;
    0xffc00b31; 0x68581511;
    0x64f98fa7; 0xbefa4fa4 ].

Definition sha512_initial_hash_value : list Z := [
    0x6a09e667f3bcc908; 0xbb67ae8584caa73b;
    0x3c6ef372fe94f82b; 0xa54ff53a5f1d36f1;
    0x510e527fade682d1; 0x9b05688c2b3e6c1f;
    0x1f83d9abfb41bd6b; 0x5be0cd19137e2179 ].

Definition sha384_initial_hash_value : list Z := [
    0xcbbb9d5dc1059ed8; 0x629a292a367cd507;
    0x9159015a3070dd17; 0x152fecd8f70e5939;
    0x67332667ffc00b31; 0x8eb44a8768581511;
    0xdb0c2e0d64f98fa7; 0x47b5481dbefa4fa4 ].

Definition sha512_256_initial_hash_value : list Z := [
    0x22312194fc2bf72c; 0x9f555fa3c84c64c2;
    0x2393b86b6f53b151; 0x963877195940eabd;
    0x96283ee2a88effe3; 0xbe5e1e2553863992;
    0x2b0199fc2c85b8aa; 0x0eb72ddc81c52ca2 ].

Definition SHA256Init : context → context := Init sha32 sha256_initial_hash_value.
Definition SHA256Transform : list Z → list Z → list Z := Transform sha32.
Definition SHA256TransformUnrolled : list Z → list Z → list Z := TransformUnrolled sha32.
Definition SHA256Update : context → list Z → outcome context := Update sha32.
Definition SHA256Pad : context → outcome context := Pad sha32.
Definition SHA256Final : context → outcome (list Z * context) := Final sha32 8.

Definition SHA224Init : context → context := Init sha32 sha224_initial_hash_value.
Definition SHA224Transform : list Z → list Z → list Z := Transform sha32.
Definition SHA224Update : context → list Z → outcome context := Update sha32.
Definition SHA224Pad : context → outcome context := Pad sha32.
Definition SHA224Final : context → outcome (list Z * context) := Final sha32 7.

Definition SHA512Init : context → context := Init sha64 sha512_initial_hash_value.
Definition SHA512Transform : list Z → list Z → list Z := Transform sha64.
Definition SHA512TransformUnrolled : list Z → list Z → list Z := TransformUnrolled sha64.
Definition SHA512Update : context → list Z → outcome context := Update sha64.
Definition SHA512Pad : context → outcome context := Pad sha64.
Definition SHA512Final : context → outcome (list Z * context) := Final sha64 8.

Definition SHA384Init : context → context := Init sha64 sha384_initial_hash_value.
Definition SHA384Transform : list Z → list Z → list Z := Transform sha64.
Definition SHA384Update : context → list Z → outcome context := Update sha64.
Definition SHA384Pad : context → outcome context := Pad sha64.
Definition SHA384Final : context → outcome (list Z * context) := Final sha64 6.

Definition SHA512_256Init : context → context := Init sha64 sha512_256_initial_hash_value.
Definition SHA512_256Transform : list Z → list Z → list Z := Transform sha64.
Definition SHA512_256Update : context → list Z → outcome context := Update sha64.
Definition SHA512_256Pad : context → outcome context := Pad sha64.
Definition SHA512_256Final : context → outcome (list Z * context) := Final sha64 4.


(** The digests of "abc" published with the standard. *)
Example sha256_abc :
  (ctx ← SHA256Update (SHA256Init cleared) (lit "abc"); '(d, _) ← SHA256Final ctx; Ret (take 8 d))
  = Ret [0xba; 0x78; 0x16; 0xbf; 0x8f; 0x01; 0xcf; 0xea].
Proof. vm_compute. reflexivity. Qed.

Example sha224_abc :
  (ctx ← SHA224Update (SHA224Init cleared) (lit "abc"); '(d, _) ← SHA224Final ctx; Ret (take 8 d))
  = Ret [0x23; 0x09; 0x7d; 0x22; 0x34; 0x05; 0xd8; 0x22].
Proof. vm_compute. reflexivity. Qed.

Example sha512_abc :
  (ctx ← SHA512Update (SHA512Init cleared) (lit "abc"); '(d, _) ← SHA512Final ctx; Ret (take 8 d))
  = Ret [0xdd; 0xaf; 0x35; 0xa1; 0x93; 0x61; 0x7a; 0xba].
Proof. vm_compute. reflexivity. Qed.

Example sha384_abc :
  (ctx ← SHA384Update (SHA384Init cleared) (lit "abc"); '(d, _) ← SHA384Final ctx; Ret (take 8 d))
  = Ret [0xcb; 0x00; 0x75; 0x3f; 0x45; 0xa3; 0x5e; 0x8b].
Proof. vm_compute. reflexivity. Qed.

Example sha512_256_abc :
  (ctx ← SHA512_256Update (SHA512_256Init cleared) (lit "abc"); '(d, _) ← SHA512_256Final ctx; Ret (take 8 d))
  = Ret [0x53; 0x04; 0x8e; 0x26; 0x81; 0x94; 0x1e; 0xf9].
Proof. vm_compute. reflexivity. Qed.

(** ** The unrolled transform is the loop *)

Section Unrolled.
Context (F : sha).

(** The variables in the roles of the invocation [j]. *)
Definition view (j : nat) (v : list Z) : regs :=
  {| ra := v !!! role j 0; rb := v !!! role j 1; rc := v !!! role j 2; rd := v !!! role j 3;
     re := v !!! role j 4; rf := v !!! role j 5; rg := v !!! role j 6; rh := v !!! role j 7 |}.

Lemma role_succ j i : role (S j) (S i) = role j i ∧ role (S j) 0 = role j 7.
Proof.
  unfold role. split.
  - replace (S i + 7 * S j)%nat with (i + 7 * j + 1 * 8)%nat by lia. apply Nat.Div0.mod_add.
  - f_equal. lia.
Qed.

Lemma role_ne j i k : (i < 8)%nat → (k < 8)%nat → i ≠ k → role j i ≠ role j k.
Proof.
  unfold role. intros Hi Hk Hne E.
  pose proof (Nat.div_mod_eq (i + 7 * j) 8). pose proof (Nat.div_mod_eq (k + 7 * j) 8). lia.
Qed.

Lemma role_lt j i : (role j i < 8)%nat.
Proof. apply Nat.mod_upper_bound. lia. Qed.

Lemma role_period n i : (n mod 8 = 0)%nat → role n i = (i mod 8)%nat.
Proof.
  intros H. unfold role. rewrite (Nat.div_mod_eq n 8), H.
  replace (i + _)%nat with (i + (7 * (n / 8)) * 8)%nat by lia. apply Nat.Div0.mod_add.
Qed.

Lemma ROUND_length j x v : length (ROUND F j x v) = length v.
Proof. unfold ROUND. by rewrite !length_insert. Qed.

Lemma ROUND_round j x v :
  length v = 8%nat → view (S j) (ROUND F j x v) = round F j x (view j v).
Proof.
  intros Hl. unfold ROUND. cbv zeta. set (T1 := uw F (v !!! role j 7 + _ + _ + _ + _)).
  unfold view. rewrite (proj2 (role_succ j 0)). rewrite !(λ i, proj1 (role_succ j i)).
  pose proof (role_lt j) as Hlt. pose proof (role_ne j) as Hne.
  rewrite (list_lookup_total_insert_eq _ (role j 7)) by (rewrite length_insert, Hl; apply Hlt).
  rewrite !(list_lookup_total_insert_ne _ (role j 7)) by (apply Hne; lia).
  rewrite (list_lookup_total_insert_eq _ (role j 3)) by (rewrite Hl; apply Hlt).
  rewrite !(list_lookup_total_insert_ne _ (role j 3)) by (apply Hne; lia).
  unfold round. cbn [ra rb rc rd re rf rg rh]. fold T1. f_equal.
  unfold uw, wrapu. rewrite Zplus_mod_idemp_r. f_equal. lia.
Qed.

Lemma unrolled_rolled n j data W v :
  length v = 8%nat →
  view (j + n) (unrolled F n j data W v) = rolled F n j data W (view j v)
  ∧ length (unrolled F n j data W v) = 8%nat.
Proof.
  revert j W v. induction n as [|n IH]; intros j W v Hl; cbn [unrolled rolled].
  - by rewrite Nat.add_0_r.
  - destruct (message_word F j data W) as [x W'].
    destruct (IH (S j) W' (ROUND F j x v)) as [E El]; [by rewrite ROUND_length|].
    rewrite <- ROUND_round by done. rewrite <- E. split; [f_equal; lia|done].
Qed.

End Unrolled.

Lemma Transform_unrolled F st data :
  (rounds F mod 8 = 0)%nat → length st = 8%nat → TransformUnrolled F st data = Transform F st data.
Proof.
  intros Hr Hl. unfold TransformUnrolled, Transform, add_registers.
  assert (length (take 8 st) = 8%nat) as Hl8 by (rewrite length_take; lia).
  destruct (unrolled_rolled F (rounds F) 0 data (replicate 16 0) (take 8 st) Hl8) as [E Eu].
  replace (registers st) with (view 0 (take 8 st)) by (rewrite take_ge by lia; done).
  rewrite <- E. f_equal. set (v := unrolled _ _ _ _ _ _) in *. clearbody v.
  unfold view. rewrite Nat.add_0_l, !(role_period _ _ Hr).
  do 8 (destruct v as [|? v]; [done|]). by destruct v.
Qed.

(** [SHA256Transform] and [SHA512Transform] as they are compiled for x86, with
    the rounds unrolled and the registers renamed from round to round, compute
    what the portable loops compute, for every state and block. *)
Theorem sha2_transform_unrolled st data :
  length st = 8%nat →
  SHA256TransformUnrolled st data = SHA256Transform st data
  ∧ SHA512TransformUnrolled st data = SHA512Transform st data.
Proof.
  intros Hl. split.
  - exact (Transform_unrolled sha32 st data eq_refl Hl).
  - exact (Transform_unrolled sha64 st data eq_refl Hl).
Qed.

Lemma sha2_transform_unrolled_witness :
  length sha256_initial_hash_value = 8%nat ∧
  SHA256TransformUnrolled sha256_initial_hash_value (replicate 64 97)
  = SHA256Transform sha256_initial_hash_value (replicate 64 97).
Proof.
  split; [reflexivity|].
  exact (proj1 (sha2_transform_unrolled sha256_initial_hash_value (replicate 64 97) eq_refl)).
Defined.

(** ** Hashing in pieces *)

(** The specification: a message is absorbed block by block; what is left of it
    is shorter than a block. *)
Fixpoint absorb_fuel (F : sha) (fuel : nat) (st m : list Z) : list Z * list Z :=
  if (length m <? BLOCK_LENGTH F)%nat then (st, m) else
  match fuel with
  | O => (st, m)
  | S fuel => absorb_fuel F fuel (Transform F st (take (BLOCK_LENGTH F) m)) (drop (BLOCK_LENGTH F) m)
  end.

Definition absorb (F : sha) (st m : list Z) : list Z * list Z := absorb_fuel F (length m) st m.

(** A one bit, zeros, and the length in bits, up to a whole number of blocks. *)
Definition padding (F : sha) (m : list Z) : list Z :=
  let bits := 8 * Z.of_nat (length m) in
  let zeros := (Z.of_nat (SHORT_BLOCK_LENGTH F) - 1 - Z.of_nat (length m)) mod Z.of_nat (BLOCK_LENGTH F) in
  [128] ++ replicate (Z.to_nat zeros) 0
  ++ (if wide_count F then BE_64_TO_8 (bits / 2 ^ 64) else []) ++ BE_64_TO_8 (u64 bits).

(** The digest of a whole message: [n] words of the final state. *)
Definition digest (F : sha) (initial : list Z) (n : nat) (m : list Z) : list Z :=
  mjoin (store_word F <$> take n (absorb F initial (m ++ padding F m)).1).

(** The number of bits that can be counted. *)
Definition limit (F : sha) : Z := if wide_count F then 2 ^ 128 else 2 ^ 64.

Section Stream.
Context (F : sha) (HF : F = sha32 ∨ F = sha64).
Abbreviation B := (BLOCK_LENGTH F).

Lemma sizes :
  (0 < B <= BUFFER_LENGTH)%nat ∧ (Z.of_nat B | 2 ^ 61)
  ∧ B = (SHORT_BLOCK_LENGTH F + if wide_count F then 16 else 8)%nat
  ∧ (SHORT_BLOCK_LENGTH F <= pad_cleared F <= B)%nat.
Proof.
  unfold BUFFER_LENGTH. destruct HF as [-> | ->]; cbn -[Z.pow]; split_and!; try lia.
  - by exists (2 ^ 55).
  - by exists (2 ^ 54).
Qed.

Lemma lookup_total_take_drop (l : list Z) n k i :
  (k + i < n)%nat → drop k (take n l) !!! i = drop k l !!! i.
Proof.
  intros H. rewrite !list_lookup_total_alt, !lookup_drop. by rewrite lookup_take_lt by lia.
Qed.

(** A transform looks at one block only. *)
Lemma message_word_block j data W : message_word F j (take B data) W = message_word F j data W.
Proof.
  unfold message_word. destruct (Nat.ltb_spec j 16) as [Hj|]; [|done].
  assert (load_word F (drop (word_size F * j) (take B data)) = load_word F (drop (word_size F * j) data)) as ->; [|done].
  destruct HF as [-> | ->]; [change (word_size sha32) with 4%nat|change (word_size sha64) with 8%nat];
    cbn [load_word sha32 sha64 BLOCK_LENGTH].
  - unfold BE_8_TO_32. by rewrite !lookup_total_take_drop by lia.
  - unfold BE_8_TO_64. by rewrite !lookup_total_take_drop by lia.
Qed.

Lemma rolled_block n j data W r : rolled F n j (take B data) W r = rolled F n j data W r.
Proof.
  revert j W r. induction n as [|n IH]; intros j W r; cbn [rolled]; [done|].
  rewrite message_word_block. destruct (message_word F j data W). apply IH.
Qed.

Lemma Transform_block st data : Transform F st (take B data) = Transform F st data.
Proof. unfold Transform. by rewrite rolled_block. Qed.

#[local] Opaque Transform.

Lemma absorb_fuel_enough fuel fuel' st m :
  (length m <= fuel)%nat → (length m <= fuel')%nat → absorb_fuel F fuel st m = absorb_fuel F fuel' st m.
Proof.
  pose proof sizes as [HB _]. revert fuel' st m.
  induction fuel as [|fuel IH]; intros fuel' st m H1 H2; cbn [absorb_fuel].
  - destruct fuel'; cbn [absorb_fuel]; by rewrite (proj2 (Nat.ltb_lt _ _)) by lia.
  - destruct (Nat.ltb_spec (length m) B) as [Hlt|Hge].
    + destruct fuel'; cbn [absorb_fuel]; by rewrite (proj2 (Nat.ltb_lt _ _)) by lia.
    + destruct fuel' as [|fuel']; [lia|]. cbn [absorb_fuel]. rewrite (proj2 (Nat.ltb_ge _ _)) by lia.
      apply IH; rewrite length_drop; lia.
Qed.

Lemma absorb_short st m : (length m < B)%nat → absorb F st m = (st, m).
Proof.
  intros H. unfold absorb. destruct (length m) eqn:E; cbn [absorb_fuel];
    by rewrite (proj2 (Nat.ltb_lt _ _)) by lia.
Qed.

Lemma absorb_block st b m :
  length b = B → absorb F st (b ++ m) = absorb F (Transform F st b) m.
Proof.
  intros Hb. pose proof sizes as [HB _]. unfold absorb. rewrite length_app, Hb.
  destruct (B + length m)%nat as [|k] eqn:E; [lia|]. cbn [absorb_fuel].
  rewrite (proj2 (Nat.ltb_ge _ _)) by (rewrite length_app; lia).
  rewrite <- Hb, take_app_length, drop_app_length. apply absorb_fuel_enough; lia.
Qed.

(** Every message is a number of blocks and a rest. *)
Lemma absorb_ind (P : list Z → Prop) :
  (∀ m, (length m < B)%nat → P m) →
  (∀ b m, length b = B → P m → P (b ++ m)) → ∀ m, P m.
Proof.
  intros H1 H2 m. pose proof sizes as [HB _].
  enough (∀ n m, (length m <= n)%nat → P m) as H by by eapply H.
  clear m. induction n as [|n IH]; intros m Hm; [apply H1; lia|].
  destruct (decide (length m < B)%nat); [by apply H1|].
  rewrite <- (take_drop B m). apply H2; [rewrite length_take; lia|]. apply IH. rewrite length_drop. lia.
Qed.

Lemma absorb_app st m st' r d :
  absorb F st m = (st', r) → absorb F st (m ++ d) = absorb F st' (r ++ d).
Proof.
  revert st. induction m as [m Hm|b m Hb IH] using absorb_ind; intros st.
  - rewrite absorb_short by done. by intros [= <- <-].
  - rewrite <- app_assoc, !absorb_block by done. apply IH.
Qed.

Lemma absorb_rest st m st' r :
  absorb F st m = (st', r) → (length r < B)%nat ∧ length r = (length m mod B)%nat.
Proof.
  pose proof sizes as [HB _]. revert st. induction m as [m Hm|b m Hb IH] using absorb_ind; intros st.
  - rewrite absorb_short by done. intros [= <- <-]. by rewrite Nat.mod_small.
  - rewrite absorb_block by done. intros [H1 H2]%IH. split; [done|].
    rewrite H2, length_app, Hb. replace (B + length m)%nat with (length m + 1 * B)%nat by lia.
    by rewrite Nat.Div0.mod_add.
Qed.

(** ** The context of a message *)

Definition upper (ctx : context) : Z := if wide_count F then bitcount1 ctx else 0.

Definition counted (bits : Z) (ctx : context) : Prop :=
  0 <= bitcount0 ctx < 2 ^ 64 ∧ bitcount0 ctx + 2 ^ 64 * upper ctx = bits ∧ 0 <= upper ctx.

(** [ctx] stands for the message [m]: its blocks are absorbed and the rest [r] is
    at the start of the buffer. *)
Definition repr (initial m r : list Z) (ctx : context) : Prop :=
  absorb F initial m = (state ctx, r) ∧ length (buffer ctx) = BUFFER_LENGTH
  ∧ (∃ t, buffer ctx = r ++ t) ∧ counted (8 * Z.of_nat (length m)) ctx.

Lemma add_bits_counted bits ctx n :
  counted bits ctx → 0 <= n < 2 ^ 64 → bits + n < limit F → counted (bits + n) (add_bits F ctx n).
Proof.
  intros (Hlo & <- & Hhi) Hn Hlim. unfold counted, upper, add_bits, limit in *.
  cbn [bitcount0 bitcount1]. rewrite (wrapu_id 64 n) by done.
  pose proof (wrapu_range 64 (bitcount0 ctx + n) ltac:(lia)) as Hr. unfold in_u in Hr.
  destruct (Z.lt_ge_cases (bitcount0 ctx + n) (2 ^ 64)) as [Hc|Hc].
  - rewrite (wrapu_id 64 (bitcount0 ctx + n)) by (unfold in_u; lia).
    rewrite (proj2 (Z.ltb_ge _ n)), andb_false_r by lia. destruct (wide_count F); lia.
  - assert (u64 (bitcount0 ctx + n) = bitcount0 ctx + n - 2 ^ 64) as E.
    { unfold wrapu. replace (bitcount0 ctx + n) with (bitcount0 ctx + n - 2 ^ 64 + 1 * 2 ^ 64) at 1 by lia.
      rewrite Z.mod_add, Z.mod_small; lia. }
    rewrite E, (proj2 (Z.ltb_lt _ n)), andb_true_r by lia.
    destruct (wide_count F); [|lia]. rewrite wrapu_id; [lia|]. unfold in_u. lia.
Qed.

Lemma shift3 n : Z.shiftl n 3 = 8 * n.
Proof. rewrite shiftl_mul by lia. lia. Qed.

Lemma usedspace_counted len ctx :
  counted (8 * len) ctx → usedspace F ctx = len mod Z.of_nat B.
Proof.
  intros (Hlo & E & Hhi). pose proof sizes as (HB & [q Hq] & _). unfold usedspace.
  rewrite shiftr_div by lia. change (2 ^ 3) with 8.
  assert (bitcount0 ctx / 8 = len + - (upper ctx * q) * Z.of_nat B) as ->.
  { symmetry. apply (Z.div_unique _ _ _ 0); [lia|]. change (2 ^ 64) with (8 * 2 ^ 61) in E. rewrite Hq in E. lia. }
  apply Z.mod_add. lia.
Qed.

Lemma write_buffer_run ctx a b l at_ :
  buffer ctx = a ++ b → at_ = Z.of_nat (length a) → (length l <= length b)%nat →
  write_buffer ctx at_ l
  = Ret {| state := state ctx; buffer := a ++ l ++ drop (length l) b;
           bitcount0 := bitcount0 ctx; bitcount1 := bitcount1 ctx |}.
Proof.
  intros Hb -> Hl. unfold write_buffer. rewrite Hb.
  by rewrite (outcome_bind_eq _ _ _ (write_at_prefix a b l _ eq_refl Hl)).
Qed.

Lemma init_repr initial ctx : repr initial [] [] (Init F initial ctx).
Proof.
  split_and!; [|done|by eexists|].
  - apply absorb_short. pose proof sizes. simpl. lia.
  - unfold counted, upper, Init. by destruct (wide_count F).
Qed.

Lemma used_rest initial m r ctx :
  repr initial m r ctx → usedspace F ctx = Z.of_nat (length r).
Proof.
  intros (Ha & _ & _ & Hc). apply absorb_rest in Ha as [_ ->]. pose proof sizes as [HB _].
  rewrite (usedspace_counted _ _ Hc). by rewrite Nat2Z.inj_mod.
Qed.

(** Whole blocks straight from the data. *)
Lemma update_blocks_run initial d : ∀ m ctx fuel,
  repr initial m [] ctx → (length d <= fuel)%nat → 8 * Z.of_nat (length m + length d) < limit F →
  ∃ ctx' d1 d2, d = d1 ++ d2 ∧ (length d2 < B)%nat
    ∧ update_blocks F fuel ctx d = Ret (ctx', d2) ∧ repr initial (m ++ d1) [] ctx'.
Proof.
  pose proof sizes as (HB & _). unfold BUFFER_LENGTH in HB.
  induction d as [d Hd|b d Hb IH] using absorb_ind; intros m ctx fuel Hr Hfuel Hlim.
  { exists ctx, [], d. rewrite app_nil_r. split_and!; [done..| |done].
    destruct fuel; cbn [update_blocks]; by rewrite (proj2 (Nat.ltb_lt _ _)) by lia. }
  rewrite length_app, Hb in *. destruct fuel as [|fuel]; [lia|]. cbn [update_blocks].
  rewrite (proj2 (Nat.ltb_ge _ _)) by (rewrite length_app; lia).
  destruct Hr as (Ha & Hl & Ht & Hc).
  set (ctx1 := add_bits F _ _).
  destruct (IH (m ++ b) ctx1 fuel) as (ctx' & d1 & d2 & -> & Hd2 & E & Hr');
    [|lia|rewrite length_app; lia|].
  - split_and!; [|done|done|].
    + rewrite (absorb_app _ _ _ _ _ Ha). cbn [app]. rewrite <- (app_nil_r b), absorb_block by done.
      rewrite absorb_short by (simpl; lia). cbn [ctx1 add_bits transform_state state].
      by rewrite <- (Transform_block _ (b ++ d)), <- Hb, take_app_length.
    + rewrite length_app, Hb, Nat2Z.inj_add, Z.mul_add_distr_l, <- (shift3 (Z.of_nat B)).
      apply add_bits_counted; [exact Hc|rewrite shift3; lia|rewrite shift3; lia].
  - exists ctx', (b ++ d1), d2. rewrite <- app_assoc, (app_assoc m). split_and!; try done.
    rewrite <- E. f_equal. by rewrite <- Hb, drop_app_length.
Qed.

Lemma update_rest_run initial m ctx d :
  repr initial m [] ctx → 8 * Z.of_nat (length m + length d) < limit F →
  ∃ ctx' r, update_rest F ctx d = Ret ctx' ∧ repr initial (m ++ d) r ctx'.
Proof.
  intros Hr Hlim. pose proof sizes as (HB & _). unfold update_rest.
  destruct (update_blocks_run initial d m ctx (length d)) as (ctx1 & d1 & d2 & -> & Hd2 & E & Hr1);
    [done..|].
  rewrite (outcome_bind_eq _ _ _ E). rewrite app_assoc. rewrite length_app in Hlim.
  destruct Hr1 as (Ha & Hl & [t Ht] & Hc). cbn [app] in Ht. subst t.
  destruct (Nat.ltb_spec 0 (length d2)) as [H0|H0].
  - pose proof (write_buffer_run ctx1 [] (buffer ctx1) d2 0 eq_refl eq_refl ltac:(lia)) as Hw.
    rewrite (outcome_bind_eq _ _ _ Hw). eexists _, d2. split; [done|]. split_and!.
    + rewrite (absorb_app _ _ _ _ _ Ha). by apply absorb_short.
    + cbn [add_bits buffer]. rewrite !length_app, length_drop. simpl. lia.
    + by eexists.
    + rewrite (length_app (m ++ d1)), Nat2Z.inj_add, Z.mul_add_distr_l, <- (shift3 (Z.of_nat (length d2))).
      unfold BUFFER_LENGTH in HB.
      apply add_bits_counted; [exact Hc|rewrite shift3; lia|].
      rewrite shift3, length_app. lia.
  - destruct d2; [|simpl in H0; lia]. exists ctx1, []. rewrite app_nil_r. split; [done|].
    split_and!; [done|done|by eexists|done].
Qed.

(** An update appends to the message. *)
Lemma Update_run initial m r ctx d :
  repr initial m r ctx → Z.of_nat (length d) < 2 ^ 61 → 8 * Z.of_nat (length m + length d) < limit F →
  ∃ ctx' r', Update F ctx d = Ret ctx' ∧ repr initial (m ++ d) r' ctx'.
Proof.
  intros Hr Hd Hlim. pose proof sizes as (HB & _). unfold BUFFER_LENGTH in HB. unfold Update.
  destruct (Nat.eqb_spec (length d) 0) as [H0|H0].
  { destruct d; [|done]. rewrite app_nil_r. eauto. }
  rewrite (used_rest _ _ _ _ Hr). destruct Hr as (Ha & Hl & [t Ht] & Hc).
  destruct (absorb_rest _ _ _ _ Ha) as [Hrl _].
  assert (length t = (128 - length r)%nat) as Htl by (rewrite Ht, length_app in Hl; unfold BUFFER_LENGTH in Hl; lia).
  destruct (Z.ltb_spec 0 (Z.of_nat (length r))) as [Hr0|Hr0].
  2: { destruct r; [|simpl in Hr0; lia]. apply update_rest_run; [|done]. split_and!; eauto. }
  destruct (Z.leb_spec (Z.of_nat B - Z.of_nat (length r)) (Z.of_nat (length d))) as [Hf|Hf].
  - set (k := Z.to_nat (Z.of_nat B - Z.of_nat (length r))).
    assert (length (take k d) = k) as Hk by (rewrite length_take; lia).
    rewrite (outcome_bind_eq _ _ _ (write_buffer_run ctx r t (take k d) _ Ht eq_refl ltac:(lia))).
    replace (m ++ d) with ((m ++ take k d) ++ drop k d) by by rewrite <- app_assoc, take_drop.
    apply update_rest_run; [|rewrite length_app, length_drop; lia].
    set (ctx1 := add_bits F _ _). split_and!.
    + rewrite (absorb_app _ _ _ _ _ Ha). rewrite <- (app_nil_r (r ++ take k d)).
      rewrite absorb_block by (rewrite length_app; lia). rewrite absorb_short by (simpl; lia).
      cbn [transform_state state ctx1 add_bits buffer].
      rewrite <- (Transform_block _ (r ++ take k d ++ _)). f_equal. f_equal.
      rewrite app_assoc. rewrite take_app_length'; [done|]. rewrite length_app. lia.
    + cbn [transform_state ctx1 add_bits buffer]. rewrite !length_app, length_drop. unfold BUFFER_LENGTH. lia.
    + by eexists.
    + rewrite length_app, Hk.
      replace (8 * Z.of_nat (length m + k))
        with (8 * Z.of_nat (length m) + Z.shiftl (Z.of_nat B - Z.of_nat (length r)) 3)
        by (rewrite shift3; lia).
      apply add_bits_counted; [exact Hc|rewrite shift3; lia|rewrite shift3; lia].
  - rewrite (outcome_bind_eq _ _ _ (write_buffer_run ctx r t d _ Ht eq_refl ltac:(lia))).
    eexists _, (r ++ d). split; [done|]. split_and!.
    + rewrite (absorb_app _ _ _ _ _ Ha). apply absorb_short. rewrite length_app. lia.
    + cbn [add_bits buffer]. rewrite !length_app, length_drop. unfold BUFFER_LENGTH. lia.
    + cbn [add_bits buffer]. rewrite app_assoc. by eexists.
    + rewrite length_app, Nat2Z.inj_add, Z.mul_add_distr_l, <- (shift3 (Z.of_nat (length d))).
      apply add_bits_counted; [exact Hc|rewrite shift3; lia|rewrite shift3; lia].
Qed.

(** ** Padding *)

Definition zeros_after (n : nat) : nat :=
  Z.to_nat ((Z.of_nat (SHORT_BLOCK_LENGTH F) - 1 - Z.of_nat n) mod Z.of_nat B).

Lemma zeros_after_mod n : zeros_after (n mod B) = zeros_after n.
Proof.
  unfold zeros_after. pose proof sizes as (HB & _). f_equal.
  rewrite Nat2Z.inj_mod. by rewrite Zminus_mod_idemp_r.
Qed.

Lemma zeros_after_short n :
  (n < SHORT_BLOCK_LENGTH F)%nat → zeros_after n = (SHORT_BLOCK_LENGTH F - 1 - n)%nat.
Proof.
  intros H. pose proof sizes as (HB & _ & Hs & _). unfold zeros_after.
  rewrite Z.mod_small by (destruct (wide_count F); lia). lia.
Qed.

Lemma zeros_after_long n :
  (SHORT_BLOCK_LENGTH F <= n < B)%nat → zeros_after n = (B - n - 1 + SHORT_BLOCK_LENGTH F)%nat.
Proof.
  intros H. pose proof sizes as (HB & _ & Hs & _). unfold zeros_after.
  rewrite <- (Z.mod_add _ 1), Z.mod_small by (destruct (wide_count F); lia). lia.
Qed.

(** After the one bit and the zeros the buffer starts with all but the length of
    the last block. *)
Definition padded (ctx : context) (r : list Z) (res : outcome context) : Prop :=
  ∃ p t st, res = Ret {| state := st; buffer := p ++ t;
                         bitcount0 := bitcount0 ctx; bitcount1 := bitcount1 ctx |}
    ∧ length p = SHORT_BLOCK_LENGTH F ∧ length (p ++ t) = BUFFER_LENGTH
    ∧ ∀ x, absorb F (state ctx) (r ++ [128] ++ replicate (zeros_after (length r)) 0 ++ x)
           = absorb F st (p ++ x).

(** The context once the one bit is written behind the rest. *)
Abbreviation marked ctx r t :=
  {| state := state ctx; buffer := (r ++ [128]) ++ drop 1 t;
     bitcount0 := bitcount0 ctx; bitcount1 := bitcount1 ctx |}.

(** The length still fits into the block. *)
Lemma pad_one_block ctx r t :
  (length r + length t)%nat = BUFFER_LENGTH → (length r < SHORT_BLOCK_LENGTH F)%nat →
  padded ctx r (write_buffer (marked ctx r t) (Z.of_nat (length r + 1))
                  (replicate (SHORT_BLOCK_LENGTH F - (length r + 1)) 0)).
Proof.
  intros Hl Hle. pose proof sizes as (HB & _ & Hs & _).
  set (z := (SHORT_BLOCK_LENGTH F - (length r + 1))%nat).
  exists ((r ++ [128]) ++ replicate z 0), (drop z (drop 1 t)), (state ctx). split_and!.
  - rewrite (write_buffer_run _ (r ++ [128]) (drop 1 t));
      [by rewrite length_replicate, <- !app_assoc|done|rewrite length_app; simpl; lia|].
    rewrite length_replicate, length_drop. lia.
  - rewrite !length_app, length_replicate. simpl. lia.
  - rewrite !length_app, length_replicate, !length_drop. simpl. lia.
  - intros x. rewrite zeros_after_short by lia. rewrite <- !app_assoc. do 4 f_equal. f_equal. lia.
Qed.

(** The rest of the block, if any, is cleared. *)
Lemma clear_block ctx r t :
  (length r + length t)%nat = BUFFER_LENGTH → (length r < B)%nat →
  let z := (B - (length r + 1))%nat in
  (if Z.of_nat (length r + 1) <? Z.of_nat B
   then write_buffer (marked ctx r t) (Z.of_nat (length r + 1)) (replicate z 0)
   else Ret (marked ctx r t))
  = Ret {| state := state ctx; buffer := (r ++ [128]) ++ replicate z 0 ++ drop z (drop 1 t);
           bitcount0 := bitcount0 ctx; bitcount1 := bitcount1 ctx |}.
Proof.
  intros Hl Hr z. pose proof sizes as (HB & _). case_if.
  - rewrite (write_buffer_run _ (r ++ [128]) (drop 1 t));
      [by rewrite length_replicate|done|rewrite length_app; simpl; lia|].
    rewrite length_replicate, length_drop. lia.
  - replace z with 0%nat by lia. cbn [replicate]. by rewrite app_nil_l, drop_0.
Qed.

(** The length goes into a block of its own. *)
Lemma pad_two_blocks ctx r t :
  (length r + length t)%nat = BUFFER_LENGTH → (SHORT_BLOCK_LENGTH F <= length r < B)%nat →
  let z := (B - (length r + 1))%nat in
  let buf := (r ++ [128]) ++ replicate z 0 ++ drop z (drop 1 t) in
  padded ctx r (write_buffer
    {| state := Transform F (state ctx) buf; buffer := buf;
       bitcount0 := bitcount0 ctx; bitcount1 := bitcount1 ctx |} 0 (replicate (pad_cleared F) 0)).
Proof.
  intros Hl Hr z buf. pose proof sizes as (HB & _ & Hs & Hclear). unfold BUFFER_LENGTH in *.
  set (b := (r ++ [128]) ++ replicate z 0). set (t' := drop z (drop 1 t)).
  assert (buf = b ++ t') as -> by (unfold buf, b; by rewrite <- !app_assoc).
  assert (length b = B) as Hbl by (unfold b; rewrite !length_app, length_replicate; simpl; lia).
  assert (length t' = (128 - B)%nat) as Ht' by (unfold t'; rewrite !length_drop; lia).
  exists (replicate (SHORT_BLOCK_LENGTH F) 0),
    (replicate (pad_cleared F - SHORT_BLOCK_LENGTH F) 0 ++ drop (pad_cleared F) (b ++ t')),
    (Transform F (state ctx) b).
  rewrite app_assoc, <- replicate_add.
  replace (SHORT_BLOCK_LENGTH F + (pad_cleared F - SHORT_BLOCK_LENGTH F))%nat with (pad_cleared F) by lia.
  split_and!.
  - rewrite (write_buffer_run _ [] (b ++ t') _ 0);
      [|done|done|rewrite length_replicate, length_app; lia].
    rewrite length_replicate. cbn [state app bitcount0 bitcount1].
    by rewrite <- (Transform_block _ (b ++ t')), <- Hbl, take_app_length.
  - by rewrite length_replicate.
  - rewrite length_app, length_replicate, length_drop, length_app. unfold BUFFER_LENGTH. lia.
  - intros x. rewrite zeros_after_long by lia. rewrite replicate_add, <- !app_assoc.
    rewrite <- absorb_block by done. unfold b. rewrite <- !app_assoc. do 4 f_equal. f_equal. lia.
Qed.

(** The message ends with a block. *)
Lemma pad_empty ctx :
  length (buffer ctx) = BUFFER_LENGTH →
  padded ctx [] (ctx ← write_buffer ctx 0 (replicate (SHORT_BLOCK_LENGTH F) 0); write_buffer ctx 0 [128]).
Proof.
  intros Hl. pose proof sizes as (HB & _ & Hs & _).
  assert (0 < SHORT_BLOCK_LENGTH F)%nat as Hs0 by (destruct HF as [-> | ->]; simpl; lia).
  pose proof (write_buffer_run ctx [] (buffer ctx) (replicate (SHORT_BLOCK_LENGTH F) 0) 0 eq_refl eq_refl) as Hw.
  rewrite length_replicate in Hw. rewrite (outcome_bind_eq _ _ _ (Hw ltac:(lia))).
  set (n := (SHORT_BLOCK_LENGTH F - 1)%nat). unfold padded.
  replace (SHORT_BLOCK_LENGTH F) with (S n) by lia.
  exists (128 :: replicate n 0), (drop (S n) (buffer ctx)), (state ctx). split_and!.
  - rewrite (write_buffer_run _ [] (replicate (S n) 0 ++ drop (S n) (buffer ctx)) [128] 0); [done..|].
    rewrite length_app, length_replicate. simpl. lia.
  - simpl. by rewrite length_replicate.
  - rewrite length_app, length_drop. simpl. rewrite length_replicate. lia.
  - intros x. cbn [length]. rewrite zeros_after_short by lia. fold n. by rewrite Nat.sub_0_r.
Qed.

Lemma pad_bits_run initial m r ctx : repr initial m r ctx → padded ctx r (pad_bits F ctx).
Proof.
  intros Hr. pose proof sizes as (HB & _ & Hs & _). unfold pad_bits. cbv zeta.
  rewrite (used_rest _ _ _ _ Hr). destruct Hr as (Ha & Hl & [t Ht] & _).
  destruct (absorb_rest _ _ _ _ Ha) as [Hrl _].
  destruct (Z.ltb_spec 0 (Z.of_nat (length r))) as [Hr0|Hr0].
  2: { destruct r; [|simpl in Hr0; lia]. by apply pad_empty. }
  rewrite Ht, length_app in Hl.
  rewrite (outcome_bind_eq _ _ _ (write_buffer_run ctx r t [128] _ Ht eq_refl ltac:(simpl; lia))).
  replace (Z.of_nat (length r) + 1) with (Z.of_nat (length r + 1)) by lia.
  replace (Z.to_nat (Z.of_nat (SHORT_BLOCK_LENGTH F) - Z.of_nat (length r + 1)))
    with (SHORT_BLOCK_LENGTH F - (length r + 1))%nat by lia.
  replace (Z.to_nat (Z.of_nat B - Z.of_nat (length r + 1))) with (B - (length r + 1))%nat by lia.
  rewrite (app_assoc r [128]). cbn [length].
  case_if; [by apply pad_one_block; [|lia]|].
  rewrite (outcome_bind_eq _ _ _ (clear_block ctx r t Hl Hrl)). exact (pad_two_blocks ctx r t Hl ltac:(lia)).
Qed.

(** The bytes of the length. *)
Definition length_bytes (bits : Z) : list Z :=
  (if wide_count F then BE_64_TO_8 (bits / 2 ^ 64) else []) ++ BE_64_TO_8 (u64 bits).

Lemma length_bytes_length bits : (SHORT_BLOCK_LENGTH F + length (length_bytes bits))%nat = B.
Proof.
  pose proof sizes as (_ & _ & -> & _). unfold length_bytes. by destruct (wide_count F).
Qed.

Lemma counted_words bits ctx :
  counted bits ctx → bitcount0 ctx = u64 bits ∧ upper ctx = bits / 2 ^ 64.
Proof.
  intros (Hlo & <- & Hhi). unfold wrapu.
  rewrite (Z.mul_comm (2 ^ 64)), Z.mod_add, Z.div_add, Z.mod_small, Z.div_small by lia. lia.
Qed.

Lemma store_length_run bits p t st lo hi :
  length p = SHORT_BLOCK_LENGTH F → length (p ++ t) = BUFFER_LENGTH →
  lo = u64 bits → (if wide_count F then hi else 0) = bits / 2 ^ 64 →
  ∃ t', store_length F {| state := st; buffer := p ++ t; bitcount0 := lo; bitcount1 := hi |}
        = Ret {| state := st; buffer := (p ++ length_bytes bits) ++ t'; bitcount0 := lo; bitcount1 := hi |}.
Proof.
  intros Hp Hl -> Hhi. pose proof sizes as (HB & _ & Hs & _). rewrite length_app in Hl.
  unfold store_length, length_bytes. destruct (wide_count F).
  - subst hi. erewrite outcome_bind_eq;
      [|apply (write_buffer_run _ p t (BE_64_TO_8 (bits / 2 ^ 64))); [done|by rewrite Hp|simpl; lia]].
    cbn [bitcount0 bitcount1 state].
    exists (drop 8 (drop 8 t)).
    rewrite (write_buffer_run _ (p ++ BE_64_TO_8 (bits / 2 ^ 64)) (drop 8 t) (BE_64_TO_8 (u64 bits)));
      [by rewrite <- !app_assoc|by rewrite <- app_assoc|rewrite length_app; simpl; lia|].
    rewrite length_drop. simpl. lia.
  - exists (drop 8 t). rewrite (write_buffer_run _ p t (BE_64_TO_8 (u64 bits)));
      [by rewrite <- app_assoc|done|by rewrite Hp|simpl; lia].
Qed.

Lemma Pad_run initial m r ctx :
  repr initial m r ctx →
  ∃ ctx', Pad F ctx = Ret ctx' ∧ absorb F initial (m ++ padding F m) = (state ctx', []).
Proof.
  intros Hr. destruct (pad_bits_run _ _ _ _ Hr) as (p & t & st & E & Hp & Hl & Habs).
  destruct Hr as (Ha & _ & _ & Hc). destruct (counted_words _ _ Hc) as [H0 H1].
  destruct (store_length_run _ p t st _ _ Hp Hl H0 H1) as [t' E'].
  unfold Pad. rewrite (outcome_bind_eq _ _ _ E), (outcome_bind_eq _ _ _ E').
  eexists. split; [done|]. cbn [transform_state state buffer].
  set (bits := 8 * Z.of_nat (length m)) in *. set (blk := p ++ length_bytes bits).
  assert (length blk = B) as Hb by (unfold blk; rewrite length_app, Hp; apply length_bytes_length).
  rewrite <- (Transform_block _ (blk ++ t')), <- Hb, take_app_length.
  rewrite (absorb_app _ _ _ _ _ Ha). destruct (absorb_rest _ _ _ _ Ha) as [Hrl Hrm].
  pose proof sizes as (HB & _).
  transitivity (absorb F st (blk ++ [])).
  - rewrite app_nil_r. unfold blk. rewrite <- Habs, Hrm, zeros_after_mod. done.
  - rewrite absorb_block by done. apply absorb_short. simpl. lia.
Qed.

(** Successive updates. *)
Fixpoint updates (ctx : context) (chunks : list (list Z)) : outcome context :=
  match chunks with
  | [] => Ret ctx
  | d :: chunks => ctx ← Update F ctx d; updates ctx chunks
  end.

Lemma updates_run initial chunks : ∀ m r ctx,
  repr initial m r ctx → Forall (λ d, Z.of_nat (length d) < 2 ^ 61) chunks →
  8 * Z.of_nat (length m + length (mjoin chunks)) < limit F →
  ∃ ctx' r', updates ctx chunks = Ret ctx' ∧ repr initial (m ++ mjoin chunks) r' ctx'.
Proof.
  induction chunks as [|d chunks IH]; intros m r ctx Hr Hc Hlim; cbn [updates].
  { exists ctx, r. by rewrite app_nil_r. }
  change (mjoin (d :: chunks)) with (d ++ mjoin chunks) in *. rewrite length_app in Hlim.
  inversion_clear Hc as [|? ? Hd Hcs].
  destruct (Update_run initial m r ctx d) as (ctx1 & r1 & E & Hr1); [done..|lia|].
  rewrite (outcome_bind_eq _ _ _ E), app_assoc. apply (IH _ r1); [done|done|rewrite length_app; lia].
Qed.

(** C40.  The hash functions compute the standard's digest however the message is cut
    into updates: a sequence of updates of any sizes, one byte or many blocks,
    followed by the final call returns the digest of the concatenation, padded
    and absorbed block by block, and clears the context.  The calls are safe and return as long as the
    bits of the message can be counted (2^64 for the 32-bit functions, 2^128 for
    the 64-bit ones). *)
Theorem sha2_streaming initial n chunks ctx :
  Forall (λ d, Z.of_nat (length d) < 2 ^ 61) chunks →
  8 * Z.of_nat (length (mjoin chunks)) < limit F →
  ∃ ctx', updates (Init F initial ctx) chunks = Ret ctx'
    ∧ Final F n ctx' = Ret (digest F initial n (mjoin chunks), cleared)
    ∧ (absorb F initial (mjoin chunks ++ padding F (mjoin chunks))).2 = [].
Proof.
  intros Hc Hlim. destruct (updates_run initial chunks [] [] (Init F initial ctx)) as (ctx1 & r & E & Hr);
    [apply init_repr|done|done|]. cbn [app] in Hr.
  destruct (Pad_run _ _ _ _ Hr) as (ctx' & Ep & Ha).
  exists ctx1. split; [done|]. unfold Final, digest. rewrite (outcome_bind_eq _ _ _ Ep), Ha. done.
Qed.

End Stream.

Lemma sha2_streaming_witness :
  ∃ ctx, updates sha32 (SHA256Init cleared) [lit "a"; []; lit "bc"] = Ret ctx
    ∧ SHA256Final ctx = Ret (digest sha32 sha256_initial_hash_value 8 (lit "abc"), cleared).
Proof.
  destruct (sha2_streaming sha32 (or_introl eq_refl) sha256_initial_hash_value 8 [lit "a"; []; lit "bc"] cleared)
    as (ctx & E & Ef & _).
  - repeat constructor.
  - reflexivity.
  - exists ctx. split; [exact E|exact Ef].
Defined.

End Sha2.
