(* ===== verification/Heap.v ===== *)
(** * The heap

    [include/malloc.h], [malloc/__heap_expand_current_part.c] and
    [stdlib/malloc.c], [free.c], [realloc.c], [calloc.c] and [reallocarray.c],
    over the byte memory: the structures that delimit parts and chunks are words
    in the memory itself, and the data given out lies between them.  The state
    beside the memory is [__heap_state].  The assertions are compiled out at the
    level of paranoia the code has and are not part of the model; the functions
    are the critical sections of the heap's lock.

    Where memory comes from is outside: [getpagesize] and [mmap] are parameters.
    [mmap m suggestion n] is where the system maps [n] new bytes when [m] is
    mapped already, or nothing when it fails. *)

From S2P Require Import Prelude Memory MemFuncs.
From stdpp Require Import base list numbers gmap.
From Stdlib Require Import ZArith Lia.
Import Mem MemFuncs.

#[local] Open Scope Z_scope.

Module Heap.

Definition HEAP_PART_MAGIC : Z := 0xBEEFBEEFBEEFBEEF.
Definition HEAP_CHUNK_MAGIC : Z := 0xDEADDEADDEADDEAD.

(** ** Sizes of the structures *)

Definition sizeof_heap_part : Z := 48.
Definition sizeof_heap_chunk : Z := 16.
Definition sizeof_heap_chunk_post : Z := 16.
Definition sizeof_heap_part_post : Z := 48.

(** ** The state *)

Record heap := {
  hmem : mem;
  current_part : Z;
  bin : list Z;
  bin_filled_bitmap : Z;
  herrno : option errno
}.

Definition set_mem (m : mem) (s : heap) : heap :=
  {| hmem := m; current_part := current_part s; bin := bin s;
     bin_filled_bitmap := bin_filled_bitmap s; herrno := herrno s |}.

Definition set_bins (b : list Z) (bitmap : Z) (s : heap) : heap :=
  {| hmem := hmem s; current_part := current_part s; bin := b;
     bin_filled_bitmap := bitmap; herrno := herrno s |}.

Definition set_part (p : Z) (s : heap) : heap :=
  {| hmem := hmem s; current_part := p; bin := bin s;
     bin_filled_bitmap := bin_filled_bitmap s; herrno := herrno s |}.

Definition set_errno (e : errno) (s : heap) : heap :=
  {| hmem := hmem s; current_part := current_part s; bin := bin s;
     bin_filled_bitmap := bin_filled_bitmap s; herrno := Some e |}.

(** A function on memory, on the heap. *)
Definition on_mem {A} (c : M mem A) : M heap A := λ s,
  match c (hmem s) with
  | Ret (a, m) => Ret (a, set_mem m s)
  | Undef => Undef
  | OutOfFuel => OutOfFuel
  end.

Definition ld (a : Z) : M heap Z := on_mem (load_le 8 a).
Definition st (a v : Z) : M heap () := on_mem (store_le 8 a v).

Definition get_bitmap : M heap Z := λ s, Ret (bin_filled_bitmap s, s).
Definition set_bitmap (v : Z) : M heap () := λ s, Ret ((), set_bins (bin s) v s).
Definition get_bin (i : nat) : M heap Z := λ s,
  match bin s !! i with Some c => Ret (c, s) | None => Undef end.
Definition set_bin (i : nat) (c : Z) : M heap () := λ s,
  if (i <? length (bin s))%nat then Ret ((), set_bins (<[i := c]> (bin s)) (bin_filled_bitmap s) s)
  else Undef.
Definition get_part : M heap Z := λ s, Ret (current_part s, s).
Definition put_part (p : Z) : M heap () := λ s, Ret ((), set_part p s).
Definition fail (e : errno) : M heap Z := λ s, Ret (NULL, set_errno e s).

(** The fields of the structures. *)
Definition part_next (p : Z) : Z := p + 24.
Definition part_magic (p : Z) : Z := p + 32.
Definition part_size (p : Z) : Z := p + 40.
Definition post_part_size (q : Z) : Z := q.
Definition post_part_magic (q : Z) : Z := q + 8.
Definition part_prev (q : Z) : Z := q + 16.
Definition chunk_size (c : Z) : Z := c.
Definition chunk_magic (c : Z) : Z := c + 8.
Definition chunk_next (c : Z) : Z := c + 8.
Definition post_chunk_magic (q : Z) : Z := q.
Definition chunk_prev (q : Z) : Z := q.
Definition post_chunk_size (q : Z) : Z := q + 8.

(** ** Bins *)

(** [__builtin_ctzl], which has no value at zero. *)
Fixpoint ctz_from (fuel i : nat) (value : Z) : outcome nat :=
  match fuel with
  | O => Undef
  | S fuel => if Z.testbit value (Z.of_nat i) then Ret i else ctz_from fuel (S i) value
  end.

Definition heap_bsf (value : Z) : outcome nat := ctz_from 64 0 value.

Definition heap_size_of_bin (bin : nat) : Z := u64 (Z.shiftl 1 (Z.of_nat bin)).

Definition heap_size_has_bin (size : Z) : bool := size <=? heap_size_of_bin 63.

(** [for ( i = 63; true; i-- )]: past zero the index wraps and the shift is
    undefined. *)
Fixpoint size_to_bin_from (i : nat) (size : Z) : outcome nat :=
  if heap_size_of_bin i <=? size then Ret i else
  match i with O => Undef | S i => size_to_bin_from i size end.

Definition heap_chunk_size_to_bin (size : Z) : outcome nat := size_to_bin_from 63 size.

Fixpoint bin_for_from (fuel i : nat) (size : Z) : outcome nat :=
  match fuel with
  | O => Undef
  | S fuel => if size <=? heap_size_of_bin i then Ret i else bin_for_from fuel (S i) size
  end.

Definition heap_bin_for_allocation (size : Z) : outcome nat := bin_for_from 64 0 size.

(** [-(-value & ~mask)]. *)
Definition heap_align (value : Z) : Z :=
  u64 (- Z.land (u64 (- value)) (u64 (Z.lnot (4 * 8 - 1)))).

(** ** Chunks and parts *)

Definition heap_part_to_post (part : Z) : M heap Z :=
  n ← ld (part_size part); mret (u64 (part + n - sizeof_heap_part_post)).

Definition heap_part_end (part : Z) : M heap Z :=
  n ← ld (part_size part); mret (part + n).

Definition heap_chunk_is_used (chunk : Z) : M heap bool :=
  v ← ld (chunk_magic chunk); mret (v =? HEAP_CHUNK_MAGIC).

Definition heap_chunk_to_post (chunk : Z) : M heap Z :=
  n ← ld (chunk_size chunk); mret (u64 (chunk + n - sizeof_heap_chunk_post)).

Definition heap_post_to_chunk (post_chunk : Z) : M heap Z :=
  n ← ld (post_chunk_size post_chunk); mret (u64 (post_chunk - n + sizeof_heap_chunk)).

Definition heap_chunk_to_data (chunk : Z) : Z := chunk + sizeof_heap_chunk.

Definition heap_chunk_data_size (chunk : Z) : M heap Z :=
  n ← ld (chunk_size chunk); mret (u64 (n - (sizeof_heap_chunk + sizeof_heap_chunk_post))).

Definition heap_data_to_chunk (data : Z) : Z := data - sizeof_heap_chunk.

Definition heap_chunk_left (chunk : Z) : M heap Z :=
  let left_post := u64 (chunk - sizeof_heap_chunk_post) in
  v ← ld (post_chunk_magic left_post);
  if v =? HEAP_PART_MAGIC then mret NULL else heap_post_to_chunk left_post.

Definition heap_chunk_right (chunk : Z) : M heap Z :=
  n ← ld (chunk_size chunk);
  let right := u64 (chunk + n) in
  v ← ld (chunk_magic right);
  if v =? HEAP_PART_MAGIC then mret NULL else mret right.

Definition heap_chunk_format (addr size : Z) : M heap Z :=
  st (chunk_size addr) size;;
  st (chunk_magic addr) HEAP_CHUNK_MAGIC;;
  post ← heap_chunk_to_post addr;
  st (post_chunk_size post) size;;
  st (post_chunk_magic post) HEAP_CHUNK_MAGIC;;
  mret addr.

Definition heap_part_last_chunk (part : Z) : M heap Z :=
  post ← heap_part_to_post part;
  let chunk_post := u64 (post - sizeof_heap_chunk_post) in
  v ← ld (post_chunk_magic chunk_post);
  if v =? HEAP_PART_MAGIC then mret NULL else heap_post_to_chunk chunk_post.

(** The chunk at the head of a bin points back to the one put before it. *)
Definition link_head (head chunk : Z) : M heap () :=
  if head =? NULL then mret ()
  else post ← heap_chunk_to_post head; st (chunk_prev post) chunk.

Definition heap_insert_chunk (chunk : Z) : M heap () :=
  chunk_post ← heap_chunk_to_post chunk;
  n ← ld (chunk_size chunk);
  chunk_bin ← M_lift (heap_chunk_size_to_bin n);
  head ← get_bin chunk_bin;
  link_head head chunk;;
  head ← get_bin chunk_bin;
  st (chunk_next chunk) head;;
  st (chunk_prev chunk_post) NULL;;
  set_bin chunk_bin chunk;;
  bitmap ← get_bitmap;
  set_bitmap (Z.lor bitmap (heap_size_of_bin chunk_bin)).

(** Unlink a chunk from the chunk before it, or from the head of its bin. *)
Definition unlink_prev (chunk : Z) (chunk_bin : nat) (head : Z) : M heap () :=
  if chunk =? head then
    next ← ld (chunk_next chunk);
    set_bin chunk_bin next;;
    if next =? NULL then
      bitmap ← get_bitmap; set_bitmap (Z.lxor bitmap (heap_size_of_bin chunk_bin))
    else mret ()
  else
    post ← heap_chunk_to_post chunk;
    prev ← ld (chunk_prev post);
    next ← ld (chunk_next chunk);
    st (chunk_next prev) next.

(** Unlink it from the chunk after it. *)
Definition unlink_next (chunk chunk_post : Z) : M heap () :=
  next ← ld (chunk_next chunk);
  if next =? NULL then mret ()
  else
    post ← heap_chunk_to_post next;
    prev ← ld (chunk_prev chunk_post);
    st (chunk_prev post) prev.

Definition heap_remove_chunk (chunk : Z) : M heap () :=
  chunk_post ← heap_chunk_to_post chunk;
  n ← ld (chunk_size chunk);
  chunk_bin ← M_lift (heap_chunk_size_to_bin n);
  head ← get_bin chunk_bin;
  unlink_prev chunk chunk_bin head;;
  unlink_next chunk chunk_post;;
  st (chunk_magic chunk) HEAP_CHUNK_MAGIC;;
  st (post_chunk_magic chunk_post) HEAP_CHUNK_MAGIC.

Definition heap_can_split_chunk (chunk needed : Z) : M heap bool :=
  n ← ld (chunk_size chunk);
  mret (sizeof_heap_chunk + sizeof_heap_chunk_post <=? u64 (n - needed)).

Definition heap_split_chunk (chunk needed : Z) : M heap () :=
  chunk_is_used ← heap_chunk_is_used chunk;
  (if chunk_is_used : bool then mret () else heap_remove_chunk chunk);;
  n ← ld (chunk_size chunk);
  let surplus_amount := u64 (n - needed) in
  heap_chunk_format chunk needed;;
  surplus ← heap_chunk_format (chunk + needed) surplus_amount;
  (if chunk_is_used : bool then mret () else heap_insert_chunk chunk);;
  heap_insert_chunk surplus.

(** [chunk && !heap_chunk_is_used(chunk)]. *)
Definition is_unused (chunk : Z) : M heap bool :=
  if chunk =? NULL then mret false else u ← heap_chunk_is_used chunk; mret (negb u).

Definition heap_chunk_combine_neighbors (chunk : Z) : M heap Z :=
  left_chunk ← heap_chunk_left chunk;
  right_chunk ← heap_chunk_right chunk;
  l ← is_unused left_chunk;
  r ← is_unused right_chunk;
  match l, r with
  | true, true =>
      heap_remove_chunk chunk;;
      heap_remove_chunk left_chunk;;
      heap_remove_chunk right_chunk;;
      n1 ← ld (chunk_size left_chunk); n2 ← ld (chunk_size chunk); n3 ← ld (chunk_size right_chunk);
      result ← heap_chunk_format left_chunk (u64 (n1 + n2 + n3));
      heap_insert_chunk result;; mret result
  | true, false =>
      heap_remove_chunk chunk;;
      heap_remove_chunk left_chunk;;
      n1 ← ld (chunk_size left_chunk); n2 ← ld (chunk_size chunk);
      result ← heap_chunk_format left_chunk (u64 (n1 + n2));
      heap_insert_chunk result;; mret result
  | false, true =>
      heap_remove_chunk chunk;;
      heap_remove_chunk right_chunk;;
      n1 ← ld (chunk_size chunk); n2 ← ld (chunk_size right_chunk);
      result ← heap_chunk_format chunk (u64 (n1 + n2));
      heap_insert_chunk result;; mret result
  | false, false => mret chunk
  end.

(** ** Growing the heap *)

Section System.
Context (page_size : Z) (mmap : mem → Z → Z → option Z).

(** The bytes of a new mapping are zero. *)
Definition map_bytes (a n : Z) (m : mem) : mem := mem_write m a (replicate (Z.to_nat n) 0).

(** How many bytes to ask the system for. *)
Definition expansion_bytes (requested_expansion part_bytes : Z) : Z :=
  let needed_expansion := u64 (sizeof_heap_part + requested_expansion + sizeof_heap_part_post) in
  let pages := u64 (needed_expansion / page_size + (if needed_expansion mod page_size =? 0 then 0 else 1)) in
  let minimum_part_pages := part_bytes / page_size in
  let minimum_part_pages := if 256 <? minimum_part_pages then 256 else minimum_part_pages in
  let minimum_part_pages := if minimum_part_pages <? 4 then 4 else minimum_part_pages in
  let pages := if pages <? minimum_part_pages then minimum_part_pages else pages in
  u64 (pages * page_size).

(** Move the end of the part and format the new room as a chunk. *)
Definition extend_rest (part prev num_bytes new_chunk_begin new_chunk_size : Z) : M heap () :=
  n ← ld (part_size part);
  st (part_size part) (u64 (n + num_bytes));;
  post ← heap_part_to_post part;
  st (post_part_magic post) HEAP_PART_MAGIC;;
  st (part_prev post) prev;;
  n ← ld (part_size part);
  st (post_part_size post) n;;
  st (post + 24) 0;; st (post + 32) 0;; st (post + 40) 0;;
  c ← heap_chunk_format new_chunk_begin new_chunk_size;
  heap_insert_chunk c.

(** Extend the current part by the [num_bytes] mapped at its end. *)
Definition extend_part (part mapping num_bytes : Z) : M heap () :=
  old_post ← heap_part_to_post part;
  prev ← ld (part_prev old_post);
  let new_chunk_begin := mapping - sizeof_heap_part_post in
  last_chunk ← heap_part_last_chunk part;
  b ← is_unused last_chunk;
  '(new_chunk_begin, new_chunk_size) ←
    (if b : bool then
       heap_remove_chunk last_chunk;;
       n ← ld (chunk_size last_chunk);
       mret (last_chunk, u64 (num_bytes + n))
     else mret (new_chunk_begin, num_bytes));
  extend_rest part prev num_bytes new_chunk_begin new_chunk_size.

(** The part that was the current one points back to the new one. *)
Definition link_part (current part : Z) : M heap () :=
  if current =? NULL then mret ()
  else q ← heap_part_to_post current; st (part_prev q) part.

(** Make a new part of the [num_bytes] mapped. *)
Definition create_part (mapping num_bytes : Z) : M heap () :=
  let part := mapping in
  st part 0;; st (part + 8) 0;; st (part + 16) 0;;
  st (part_size part) num_bytes;;
  st (part_magic part) HEAP_PART_MAGIC;;
  post ← heap_part_to_post part;
  st (post_part_magic post) HEAP_PART_MAGIC;;
  n ← ld (part_size part);
  st (post_part_size post) n;;
  st (post + 24) 0;; st (post + 32) 0;; st (post + 40) 0;;
  current ← get_part;
  st (part_next part) current;;
  link_part current part;;
  st (part_prev post) NULL;;
  let new_chunk_begin := mapping + sizeof_heap_part in
  let new_chunk_size := u64 (num_bytes - (sizeof_heap_part + sizeof_heap_part_post)) in
  c ← heap_chunk_format new_chunk_begin new_chunk_size;
  heap_insert_chunk c;;
  put_part part.

(** Ask the system for memory and add it to the heap. *)
Definition grow (current suggestion num_bytes : Z) : M heap bool := λ s,
  match mmap (hmem s) suggestion num_bytes with
  | None => Ret (false, s)
  | Some mapping =>
      (if negb (current =? NULL) && (mapping =? suggestion)
       then extend_part current mapping num_bytes;; mret true
       else create_part mapping num_bytes;; mret true)
      (set_mem (map_bytes mapping num_bytes (hmem s)) s)
  end.

Definition __heap_expand_current_part (requested_expansion : Z) : M heap bool :=
  current ← get_part;
  part_bytes ← (if current =? NULL then mret 0 else ld (part_size current));
  let num_bytes := expansion_bytes requested_expansion part_bytes in
  suggestion ← (if current =? NULL then mret page_size else heap_part_end current);
  grow current suggestion num_bytes.

(** ** The functions of the library *)

(** From the bitmap on: take the first chunk of the smallest usable bin. *)
Definition take_chunk (chunk_size_ usable_bins : Z) : M heap Z :=
  bin_index ← M_lift (heap_bsf usable_bins);
  result_chunk ← get_bin bin_index;
  heap_remove_chunk result_chunk;;
  b ← heap_can_split_chunk result_chunk chunk_size_;
  (if b : bool then heap_split_chunk result_chunk chunk_size_ else mret ());;
  mret (heap_chunk_to_data result_chunk).

Definition malloc (original_size : Z) : M heap Z :=
  if negb (heap_size_has_bin original_size) then fail ENOMEM else
  let chunk_outer_size := sizeof_heap_chunk + sizeof_heap_chunk_post in
  let chunk_inner_size := heap_align original_size in
  let chunk_size_ := u64 (chunk_outer_size + chunk_inner_size) in
  if negb (heap_size_has_bin chunk_size_) then fail ENOMEM else
  smallest_desirable_bin ← M_lift (heap_bin_for_allocation chunk_size_);
  let smallest_desirable_bin_size := heap_size_of_bin smallest_desirable_bin in
  let desirable_bins := u64 (Z.shiftl SIZE_MAX (Z.of_nat smallest_desirable_bin)) in
  bitmap ← get_bitmap;
  let usable_bins := Z.land desirable_bins bitmap in
  usable_bins ←
    (if usable_bins =? 0 then
       b ← __heap_expand_current_part smallest_desirable_bin_size;
       if b : bool then bitmap ← get_bitmap; mret (Z.land desirable_bins bitmap)
       else mret usable_bins
     else mret usable_bins);
  if usable_bins =? 0 then mret NULL else take_chunk chunk_size_ usable_bins.

Definition free (addr : Z) : M heap () :=
  if addr =? NULL then mret () else
  let chunk := heap_data_to_chunk addr in
  heap_insert_chunk chunk;;
  heap_chunk_combine_neighbors chunk;;
  mret ().

(** Split off what is not needed. *)
Definition shrink (chunk requested_chunk_size : Z) : M heap Z :=
  b ← heap_can_split_chunk chunk requested_chunk_size;
  (if b : bool then heap_split_chunk chunk requested_chunk_size else mret ());;
  mret (heap_chunk_to_data chunk).

(** Move the allocation. *)
Definition relocate (ptr requested_size : Z) : M heap Z :=
  orignal_ptr_size ← heap_chunk_data_size (heap_data_to_chunk ptr);
  result ← malloc requested_size;
  if result =? NULL then mret NULL else
  on_mem (memcpy result ptr orignal_ptr_size);;
  free ptr;;
  mret result.

Definition realloc (ptr requested_size : Z) : M heap Z :=
  if ptr =? NULL then malloc requested_size else
  if negb (heap_size_has_bin requested_size) then fail ENOMEM else
  let requested_chunk_size :=
    u64 (sizeof_heap_chunk + sizeof_heap_chunk_post + heap_align requested_size) in
  if negb (heap_size_has_bin requested_chunk_size) then fail ENOMEM else
  let chunk := heap_data_to_chunk ptr in
  n ← ld (chunk_size chunk);
  if n =? requested_chunk_size then mret (heap_chunk_to_data chunk) else
  if requested_chunk_size <? n then shrink chunk requested_chunk_size else
  right ← heap_chunk_right chunk;
  b ← is_unused right;
  fits ← (if b : bool then
            k ← ld (chunk_size right); mret (requested_chunk_size <=? u64 (n + k))
          else mret false);
  if fits : bool then
    heap_remove_chunk right;;
    k ← ld (chunk_size right);
    heap_chunk_format chunk (u64 (n + k));;
    shrink chunk requested_chunk_size
  else relocate ptr requested_size.

Definition calloc (nmemb size : Z) : M heap Z :=
  if negb (size =? 0) && negb (nmemb =? 0) && (SIZE_MAX / size <? nmemb) then fail ENOMEM else
  let total := u64 (nmemb * size) in
  result ← malloc total;
  if result =? NULL then mret NULL else
  on_mem (memset result 0 total);; mret result.

Definition reallocarray (ptr nmemb size : Z) : M heap Z :=
  if negb (size =? 0) && negb (nmemb =? 0) && (SIZE_MAX / size <? nmemb) then fail ENOMEM else
  realloc ptr (u64 (nmemb * size)).

End System.

(** The heap of a program that has just been started in the memory [m]. *)
Definition initial (m : mem) : heap :=
  {| hmem := m; current_part := NULL; bin := replicate 64 NULL; bin_filled_bitmap := 0; herrno := None |}.

(** ** Examples *)

(** Pages of 64 bytes, mapped where they are asked for. *)
Definition example_mmap (m : mem) (suggestion n : Z) : option Z := Some suggestion.

Example malloc_free_malloc :
  (p ← malloc 64 example_mmap 10; q ← malloc 64 example_mmap 100;
   free p;; r ← malloc 64 example_mmap 30; mret (p, q, r)) (initial ∅) ≫= (λ x, Ret x.1)
  = Ret (128, 192, 128).
Proof. vm_compute. reflexivity. Qed.

End Heap.
