(* ===== verification/HeapInv.v ===== *)
(** * The invariant of the heap

    The representation of a heap by its parts, its chunks and the lists of the
    bins, and that the operations on chunks of [Heap] keep it. *)

From S2P Require Import Prelude Memory MemFuncs Heap.
From stdpp Require Import base list numbers gmap.
From Stdlib Require Import ZArith Lia.
Import Mem MemFuncs Heap.

#[local] Open Scope Z_scope.

Module HeapInv.

(** ** Words *)

Definition wd (m : mem) (a v : Z) : Prop :=
  a mod 8 = 0 ∧ in_u 64 v ∧ bytes_at m a (le_split 8 v).

Definition put (m : mem) (a v : Z) : mem := mem_write m a (le_split 8 v).

Lemma le_split_byte n v : Forall is_byte (le_split n v).
Proof.
  revert v. induction n as [|n IH]; intros v; simpl; [done|].
  constructor; [unfold is_byte; apply Z.mod_pos_bound; lia|apply IH].
Qed.

Lemma load_bytes_le n m a v :
  0 <= v < 256 ^ Z.of_nat n → bytes_at m a (le_split n v) → load_bytes n a m = Ret (v, m).
Proof.
  revert a v. induction n as [|n IH]; intros a v Hv Hb; cbn [load_bytes le_split].
  - change (256 ^ Z.of_nat 0) with 1 in Hv. replace v with 0 by lia. done.
  - change (le_split (S n) v) with ([v mod 256] ++ le_split n (v / 256)) in Hb.
    apply bytes_at_app in Hb as [[_ Hx] Hl]. specialize (Hx O ltac:(simpl; lia)). cbn in Hx.
    rewrite Z.add_0_r in Hx. rewrite Nat2Z.inj_succ, Z.pow_succ_r in Hv by lia.
    step (load_run _ _ _ Hx).
    assert (E : load_bytes n (a + 1) m = Ret (v / 256, m)).
    { apply IH; [|exact Hl]. split; [apply Z.div_pos; lia|apply Z.div_lt_upper_bound; lia]. }
    step E. unfold mret, M_ret. do 2 f_equal. rewrite (Z.div_mod v 256) at 3 by lia. lia.
Qed.

Lemma wd_load m a v : wd m a v → load_le 8 a m = Ret (v, m).
Proof.
  intros (Ha & Hv & Hb). unfold load_le. change (Z.of_nat 8) with 8. rewrite Ha. change (0 =? 0) with true.
  cbn match. by apply load_bytes_le.
Qed.

Lemma ld_run s a v : wd (hmem s) a v → ld a s = Ret (v, s).
Proof. intros H. unfold ld, on_mem. rewrite (wd_load _ _ _ H). by destruct s. Qed.

Lemma st_run s a v :
  a mod 8 = 0 → mapped (hmem s) a 8 → st a v s = Ret ((), set_mem (put (hmem s) a v) s).
Proof.
  intros Ha Hm. unfold st, on_mem, store_le. change (Z.of_nat 8) with 8. rewrite Ha. change (0 =? 0) with true.
  cbn match. by rewrite store_bytes_run.
Qed.

Lemma wd_put_eq m a v : a mod 8 = 0 → in_u 64 v → wd (put m a v) a v.
Proof. intros. split_and!; [done..|]. apply bytes_at_write, le_split_byte. Qed.

Lemma wd_put_ne m a v b w : wd m a v → b mod 8 = 0 → a ≠ b → wd (put m b w) a v.
Proof.
  intros (Ha & Hv & Hm) Hb Hne. split_and!; [done..|]. apply bytes_at_frame; [done|].
  unfold disjoint_from. rewrite !length_le_split. 
  pose proof (Z.div_mod a 8). pose proof (Z.div_mod b 8). lia.
Qed.

Lemma wd_mapped m a v : wd m a v → mapped m a 8.
Proof. intros (_ & _ & H). apply bytes_at_mapped in H. by rewrite length_le_split in H. Qed.

Lemma wd_fun m a v w : wd m a v → wd m a w → v = w.
Proof. intros H1%wd_load H2%wd_load. congruence. Qed.

Lemma wd_agree m m' a v : wd m a v → (∀ x, a <= x < a + 8 → m' !! x = m !! x) → wd m' a v.
Proof.
  intros (Ha & Hv & H1 & H2) H. split_and!; [done..|]. split; [done|].
  intros i Hi. rewrite H; [by apply H2|]. rewrite length_le_split in Hi. lia.
Qed.

Lemma put_out m a v x : x < a ∨ a + 8 <= x → put m a v !! x = m !! x.
Proof. intros H. apply mem_write_out. by rewrite length_le_split. Qed.

Lemma mapped_put m a v b n : mapped m b n → mapped (put m a v) b n.
Proof. apply mapped_write. Qed.

(** ** Bins *)

Definition bin_of (n : Z) : nat := Z.to_nat (Z.log2 n).

Lemma size_of_bin i : (i < 64)%nat → heap_size_of_bin i = 2 ^ Z.of_nat i.
Proof.
  intros Hi. unfold heap_size_of_bin. rewrite shiftl_mul by lia. rewrite Z.mul_1_l.
  apply wrapu_id. split; [lia|]. apply Z.pow_lt_mono_r; lia.
Qed.

Lemma size_to_bin n : 1 <= n < 2 ^ 64 → heap_chunk_size_to_bin n = Ret (bin_of n).
Proof.
  intros Hn. pose proof (Z.log2_spec n ltac:(lia)) as Hlog.
  assert (Z.log2 n < 64) by (apply Z.log2_lt_pow2; lia). pose proof (Z.log2_nonneg n).
  unfold heap_chunk_size_to_bin, bin_of.
  assert (∀ i : nat, (i < 64)%nat → Z.log2 n <= Z.of_nat i →
    size_to_bin_from i n = Ret (Z.to_nat (Z.log2 n))) as Hall; [|apply Hall; lia].
  induction i as [|i IH]; intros Hi Hl; cbn [size_to_bin_from]; rewrite size_of_bin by done.
  - replace (Z.log2 n) with 0 in * by lia. rewrite (proj2 (Z.leb_le _ _)) by (simpl; lia). done.
  - destruct (Z.leb_spec (2 ^ Z.of_nat (S i)) n) as [Hc|Hc].
    + apply Z.log2_le_pow2 in Hc; [|lia]. f_equal. lia.
    + apply IH; [lia|]. apply Z.log2_lt_pow2 in Hc; lia.
Qed.

Lemma bin_for_allocation n :
  1 <= n <= 2 ^ 63 →
  ∃ i, heap_bin_for_allocation n = Ret i ∧ (i < 64)%nat ∧ n <= 2 ^ Z.of_nat i.
Proof.
  intros Hn. unfold heap_bin_for_allocation.
  assert (∀ fuel i, (fuel + i = 64)%nat → (0 < fuel)%nat →
    ∃ k, bin_for_from fuel i n = Ret k ∧ (k < 64)%nat ∧ n <= 2 ^ Z.of_nat k) as Hall; [|apply Hall; lia].
  induction fuel as [|fuel IH]; intros i Hs Hf; [lia|]. cbn [bin_for_from].
  rewrite size_of_bin by lia. destruct (Z.leb_spec n (2 ^ Z.of_nat i)) as [Hc|Hc].
  - exists i. split_and!; [done|lia|done].
  - apply IH; [lia|]. destruct fuel; [|lia]. replace i with 63%nat in Hc by lia.
    change (Z.of_nat 63) with 63 in Hc. lia.
Qed.

Lemma bsf_run v :
  in_u 64 v → v ≠ 0 → ∃ i, heap_bsf v = Ret i ∧ (i < 64)%nat ∧ Z.testbit v (Z.of_nat i) = true.
Proof.
  intros Hv Hne. unfold heap_bsf.
  assert (∀ fuel i, (fuel + i = 64)%nat → (∀ k, (k < i)%nat → Z.testbit v (Z.of_nat k) = false) →
    ∃ k, ctz_from fuel i v = Ret k ∧ (k < 64)%nat ∧ Z.testbit v (Z.of_nat k) = true) as Hall;
    [|apply Hall; [done|lia]].
  induction fuel as [|fuel IH]; intros i Hs Hz; cbn [ctz_from].
  - destruct Hne. apply Z.bits_inj'. intros k Hk. rewrite Z.bits_0.
    destruct (Z.lt_ge_cases k 64) as [Hl|Hl].
    + rewrite <- (Z2Nat.id k) by lia. apply Hz. lia.
    + apply in_u_land in Hv; [|lia]. rewrite <- Hv, Z.land_spec, Z.ones_spec_high, andb_false_r by lia. done.
  - destruct (Z.testbit v (Z.of_nat i)) eqn:E; [exists i; split_and!; [done|lia|done]|].
    apply IH; [lia|]. intros k Hk. destruct (decide (k = i)) as [->|]; [done|]. apply Hz. lia.
Qed.

Lemma heap_align_spec v :
  0 <= v <= 2 ^ 63 → heap_align v mod 32 = 0 ∧ v <= heap_align v < v + 32.
Proof.
  intros Hv. unfold heap_align. set (x := u64 (- v)).
  assert (Hx : in_u 64 x) by (apply wrapu_range; lia).
  assert (Z.land x (u64 (Z.lnot (4 * 8 - 1))) = x / 32 * 32) as ->.
  { unfold wrapu. rewrite <- (Z.land_ones (Z.lnot _)), (Z.land_comm (Z.lnot _)), Z.land_assoc by lia.
    rewrite (proj1 (in_u_land 64 x ltac:(lia)) Hx). change (4 * 8 - 1) with (Z.ones 5).
    by rewrite <- Z.ldiff_land, Z.ldiff_ones_r, shiftl_mul, shiftr_div by lia. }
  assert (x / 32 * 32 <= x < x / 32 * 32 + 32) as Hd.
  { pose proof (Z.div_mod x 32). pose proof (Z.mod_pos_bound x 32). lia. }
  unfold in_u in Hx. destruct (decide (v = 0)) as [->|Hne]; [done|].
  assert (x = 2 ^ 64 - v) as Ex.
  { unfold x, wrapu. symmetry. apply (Z.mod_unique _ _ (-1)); lia. }
  assert (u64 (- (x / 32 * 32)) = 2 ^ 64 - x / 32 * 32) as ->.
  { unfold wrapu. symmetry. apply (Z.mod_unique _ _ (-1)); [left|lia].
    assert (0 < x / 32) by (apply Z.div_str_pos; lia). lia. }
  split; [|lia]. replace (2 ^ 64 - x / 32 * 32) with ((2 ^ 59 - x / 32) * 32) by lia.
  apply Z.mod_mul. lia.
Qed.

(** ** Changed words

    [changes m m' xs]: the memories differ at most in the words at [xs]. *)

Definition changes (m m' : mem) (xs : list Z) : Prop :=
  Forall (λ x, x mod 8 = 0) xs
  ∧ (∀ y, Forall (λ x, y < x ∨ x + 8 <= y) xs → m' !! y = m !! y)
  ∧ (∀ b n, mapped m b n → mapped m' b n).

Lemma changes_refl m : changes m m [].
Proof. by split. Qed.

Lemma changes_put m x v : x mod 8 = 0 → changes m (put m x v) [x].
Proof.
  intros Hx. split_and!; [by constructor| |intros; by apply mapped_put].
  intros y Hy. inversion_clear Hy. by apply put_out.
Qed.

Lemma changes_trans m1 m2 m3 xs ys :
  changes m1 m2 xs → changes m2 m3 ys → changes m1 m3 (xs ++ ys).
Proof.
  intros (H1 & H2 & H3) (G1 & G2 & G3). split_and!.
  - by apply Forall_app.
  - intros y [Hx Hy]%Forall_app. by rewrite G2, H2.
  - auto.
Qed.

Lemma changes_snoc m1 m2 xs x v :
  changes m1 m2 xs → x mod 8 = 0 → changes m1 (put m2 x v) (xs ++ [x]).
Proof. intros H Hx. eapply changes_trans; [done|by apply changes_put]. Qed.

Lemma wd_changes m m' xs y v :
  changes m m' xs → wd m y v → Forall (λ x, y ≠ x) xs → wd m' y v.
Proof.
  intros (Hal & Hm & _) Hw Hne. eapply wd_agree; [done|]. intros z Hz. apply Hm.
  destruct Hw as [Hy _]. apply Forall_forall. intros x Hx.
  rewrite Forall_forall in Hal, Hne. specialize (Hal x Hx). specialize (Hne x Hx).
  pose proof (Z.div_mod y 8). pose proof (Z.div_mod x 8). lia.
Qed.

(** ** Geometry

    A heap has parts [ps], each a start and a size, the latest first, and the
    chunks [C], which map a start to a size and whether the chunk is used. *)

Abbreviation chunks := (gmap Z (Z * bool)).

Record geometry (ps : list (Z * Z)) (C : chunks) : Prop := {
  chunk_shape a n u : C !! a = Some (n, u) → a mod 32 = 16 ∧ n mod 32 = 0 ∧ 32 <= n;
  chunk_place a n u : C !! a = Some (n, u) →
    ∃ p k, (p, k) ∈ ps ∧ p + 48 <= a ∧ a + n <= p + k - 48
      ∧ (a = p + 48 ∨ ∃ b nb ub, C !! b = Some (nb, ub) ∧ b + nb = a)
      ∧ (a + n = p + k - 48 ∨ is_Some (C !! (a + n)));
  chunk_sep a n u b k w :
    C !! a = Some (n, u) → C !! b = Some (k, w) → a ≠ b → a + n <= b ∨ b + k <= a;
  part_shape p k : (p, k) ∈ ps → p mod 32 = 0 ∧ k mod 32 = 0 ∧ 0 < p ∧ p + k <= 2 ^ 63;
  part_last p k : (p, k) ∈ ps →
    ∃ a n u, C !! a = Some (n, u) ∧ p + 48 <= a ∧ a + n = p + k - 48;
  part_sep i j p k q l :
    ps !! i = Some (p, k) → ps !! j = Some (q, l) → i ≠ j → p + k <= q ∨ q + l <= p
}.

(** A chunk is inside a part and apart from the others. *)
Lemma part_chunk ps C q l a n u :
  geometry ps C → (q, l) ∈ ps → C !! a = Some (n, u) →
  a + n <= q ∨ q + l <= a ∨ (q + 48 <= a ∧ a + n <= q + l - 48).
Proof.
  intros G [j Hj]%list_elem_of_lookup Ha.
  destruct (chunk_place _ _ G _ _ _ Ha) as (p & k & [i Hi]%list_elem_of_lookup & H1 & H2 & _).
  destruct (decide (i = j)) as [->|Hij]; [rewrite Hi in Hj; simplify_eq; lia|].
  pose proof (part_sep _ _ G _ _ _ _ _ _ Hi Hj Hij). lia.
Qed.

(** What is known of a chunk's numbers. *)
Lemma chunk_bounds ps C a n u :
  geometry ps C → C !! a = Some (n, u) →
  0 < a ∧ a + n <= 2 ^ 63 ∧ 32 <= n ∧ a mod 8 = 0 ∧ n mod 8 = 0 ∧ (a + 8) mod 8 = 0 ∧ (a + n - 16) mod 8 = 0
  ∧ (a + n - 8) mod 8 = 0 ∧ in_u 64 a ∧ in_u 64 n.
Proof.
  intros G Ha. destruct (chunk_shape _ _ G _ _ _ Ha) as (H1 & H2 & H3).
  destruct (chunk_place _ _ G _ _ _ Ha) as (p & k & Hp & H4 & H5 & _).
  destruct (part_shape _ _ G _ _ Hp) as (H6 & H7 & H8 & H9).
  unfold in_u. assert (2 ^ 63 < 2 ^ 64) by done. Z.div_mod_to_equations. lia.
Qed.

(** Whether chunks are used does not matter to the geometry. *)
Lemma geometry_flag ps C a n u v :
  geometry ps C → C !! a = Some (n, u) → geometry ps (<[a := (n, v)]> C).
Proof.
  intros G Ha.
  assert (Hout : ∀ b k w, <[a := (n, v)]> C !! b = Some (k, w) → ∃ w', C !! b = Some (k, w')).
  { intros b k w. destruct (decide (b = a)) as [->|Hne].
    - rewrite lookup_insert_eq. intros [= <- <-]. eauto.
    - rewrite lookup_insert_ne by done. eauto. }
  assert (Hin : ∀ b k w, C !! b = Some (k, w) → ∃ w', <[a := (n, v)]> C !! b = Some (k, w')).
  { intros b k w Hb. destruct (decide (b = a)) as [->|Hne].
    - rewrite lookup_insert_eq. simplify_eq. eauto.
    - rewrite lookup_insert_ne by done. eauto. }
  split.
  - intros b k w [w' Hb]%Hout. exact (chunk_shape _ _ G _ _ _ Hb).
  - intros b k w [w' Hb]%Hout.
    destruct (chunk_place _ _ G _ _ _ Hb) as (p & l & Hp & H1 & H2 & H3 & H4).
    exists p, l. split_and!; [done..| |].
    + destruct H3 as [|(c & nc & uc & Hc & E)]; [by left|right].
      destruct (Hin _ _ _ Hc) as [uc' ?]. eauto.
    + destruct H4 as [|[[nc uc] Hc]]; [by left|right].
      destruct (Hin _ _ _ Hc) as [uc' ?]. eauto.
  - intros b k w c l w' [? Hb]%Hout [? Hc]%Hout. exact (chunk_sep _ _ G _ _ _ _ _ _ Hb Hc).
  - exact (part_shape _ _ G).
  - intros p k Hp. destruct (part_last _ _ G _ _ Hp) as (b & l & w & Hb & E).
    destruct (Hin _ _ _ Hb) as [w' ?]. eauto.
  - exact (part_sep _ _ G).
Qed.

(** ** The words of chunks and parts *)

Fixpoint part_chain (m : mem) (prev : Z) (ps : list (Z * Z)) : Prop :=
  match ps with
  | [] => True
  | (p, k) :: ps =>
      wd m (p + 24) (default 0 (fst <$> head ps)) ∧ wd m (p + k - 32) prev ∧ part_chain m p ps
  end.

Record layout (m : mem) (ps : list (Z * Z)) (C : chunks) : Prop := {
  chunk_sizes a n u : C !! a = Some (n, u) → wd m a n ∧ wd m (a + n - 8) n;
  chunk_used a n : C !! a = Some (n, true) →
    wd m (a + 8) HEAP_CHUNK_MAGIC ∧ wd m (a + n - 16) HEAP_CHUNK_MAGIC;
  part_mapped p k : (p, k) ∈ ps → mapped m p (Z.to_nat k);
  part_words p k : (p, k) ∈ ps →
    wd m (p + 32) HEAP_PART_MAGIC ∧ wd m (p + 40) k
    ∧ wd m (p + k - 48) k ∧ wd m (p + k - 40) HEAP_PART_MAGIC;
  part_links : part_chain m 0 ps
}.

(** The words that hold the links of an unused chunk. *)
Definition link_word (C : chunks) (x : Z) : Prop :=
  ∃ c k, C !! c = Some (k, false) ∧ (x = c + 8 ∨ x = c + k - 16).

(** Words of the parts are no links. *)
Lemma part_word_link ps C p k y x :
  geometry ps C → (p, k) ∈ ps → p <= y < p + 48 ∨ p + k - 48 <= y < p + k → link_word C x → y ≠ x.
Proof.
  intros G Hp Hy (c & n & Hc & Hx).
  pose proof (part_chunk _ _ _ _ _ _ _ G Hp Hc). pose proof (chunk_bounds _ _ _ _ _ G Hc).
  destruct (part_shape _ _ G _ _ Hp) as (_ & _ & _ & _).
  destruct (part_last _ _ G _ _ Hp) as (b & nb & ub & Hb & H1 & H2).
  pose proof (chunk_bounds _ _ _ _ _ G Hb). lia.
Qed.

(** A word of a chunk that is no link of it is no link. *)
Lemma chunk_word_link ps C a n u y x :
  geometry ps C → C !! a = Some (n, u) → a <= y → y + 8 <= a + n →
  (u = false → y ≠ a + 8 ∧ y ≠ a + n - 16) → link_word C x → y ≠ x.
Proof.
  intros G Ha H1 H2 H3 (c & k & Hc & Hx). pose proof (chunk_bounds _ _ _ _ _ G Hc).
  destruct (decide (a = c)) as [->|Hne].
  - rewrite Ha in Hc. simplify_eq. destruct (H3 eq_refl). lia.
  - pose proof (chunk_sep _ _ G _ _ _ _ _ _ Ha Hc Hne). lia.
Qed.

Lemma part_chain_changes m m' xs prev ps :
  changes m m' xs →
  (∀ p k, (p, k) ∈ ps → Forall (λ x, p + 24 ≠ x ∧ p + k - 32 ≠ x) xs) →
  part_chain m prev ps → part_chain m' prev ps.
Proof.
  intros Hc. revert prev. induction ps as [|[p k] ps IH]; intros prev Hx; [done|].
  cbn [part_chain]. intros (H1 & H2 & H3).
  specialize (Hx p k (list_elem_of_here _ _)) as Hpk. split_and!.
  - eapply wd_changes; [done..|]. eapply Forall_impl; [exact Hpk|]. simpl. lia.
  - eapply wd_changes; [done..|]. eapply Forall_impl; [exact Hpk|]. simpl. lia.
  - apply IH; [|done]. intros q l Hq. apply Hx. by apply list_elem_of_further.
Qed.

(** Changing links keeps the rest. *)
Lemma layout_links m m' xs ps C :
  geometry ps C → layout m ps C → changes m m' xs → Forall (link_word C) xs → layout m' ps C.
Proof.
  intros G L Hc Hx.
  assert (Hpart : ∀ p k y v, (p, k) ∈ ps → p <= y < p + 48 ∨ p + k - 48 <= y < p + k →
    wd m y v → wd m' y v).
  { intros p k y v Hp Hy Hw. eapply wd_changes; [done..|]. eapply Forall_impl; [exact Hx|].
    intros x. by eapply part_word_link. }
  assert (Hpk : ∀ p k, (p, k) ∈ ps → 128 <= k).
  { intros p k Hp. destruct (part_last _ _ G _ _ Hp) as (b & nb & ub & Hb & H1 & H2).
    pose proof (chunk_bounds _ _ _ _ _ G Hb). lia. }
  split.
  - intros a n u Ha. destruct (chunk_sizes _ _ _ L _ _ _ Ha) as [H1 H2].
    pose proof (chunk_bounds _ _ _ _ _ G Ha).
    split; (eapply wd_changes; [done..|]; eapply Forall_impl; [exact Hx|]; intros x;
            eapply chunk_word_link; [done..|lia|lia|lia]).
  - intros a n Ha. destruct (chunk_used _ _ _ L _ _ Ha) as [H1 H2].
    pose proof (chunk_bounds _ _ _ _ _ G Ha).
    split; (eapply wd_changes; [done..|]; eapply Forall_impl; [exact Hx|]; intros x;
            eapply chunk_word_link; [done..|lia|lia|done]).
  - intros p k Hp. apply Hc. by apply L.
  - intros p k Hp. specialize (Hpk _ _ Hp). destruct (part_words _ _ _ L _ _ Hp) as (H1 & H2 & H3 & H4).
    split_and!; (eapply (Hpart p k); [done| |done]; lia).
  - eapply part_chain_changes; [done| |apply L]. intros p k Hp. specialize (Hpk _ _ Hp).
    eapply Forall_impl; [exact Hx|]. intros x Hl.
    split; (eapply part_word_link; [done..| |done]; lia).
Qed.

(** Forgetting that a chunk is used, and marking one. *)
Lemma layout_unused m ps C a n u :
  layout m ps C → C !! a = Some (n, u) → layout m ps (<[a := (n, false)]> C).
Proof.
  intros L Ha. split; [| |apply L..].
  - intros b k w. destruct (decide (b = a)) as [->|Hne].
    + rewrite lookup_insert_eq. intros [= <- <-]. exact (chunk_sizes _ _ _ L _ _ _ Ha).
    + rewrite lookup_insert_ne by done. apply (chunk_sizes _ _ _ L).
  - intros b k. destruct (decide (b = a)) as [->|Hne]; [by rewrite lookup_insert_eq|].
    rewrite lookup_insert_ne by done. apply (chunk_used _ _ _ L).
Qed.

Lemma layout_used m ps C a n u :
  layout m ps C → C !! a = Some (n, u) →
  wd m (a + 8) HEAP_CHUNK_MAGIC → wd m (a + n - 16) HEAP_CHUNK_MAGIC →
  layout m ps (<[a := (n, true)]> C).
Proof.
  intros L Ha H1 H2. split; [| |apply L..].
  - intros b k w. destruct (decide (b = a)) as [->|Hne].
    + rewrite lookup_insert_eq. intros [= <- <-]. exact (chunk_sizes _ _ _ L _ _ _ Ha).
    + rewrite lookup_insert_ne by done. apply (chunk_sizes _ _ _ L).
  - intros b k. destruct (decide (b = a)) as [->|Hne].
    + rewrite lookup_insert_eq. by intros [= <-].
    + rewrite lookup_insert_ne by done. apply (chunk_used _ _ _ L).
Qed.

(** ** The lists of the bins *)

Definition csize (C : chunks) (c : Z) : Z := default 0 (fst <$> C !! c).

Lemma csize_eq C c n u : C !! c = Some (n, u) → csize C c = n.
Proof. intros H. unfold csize. by rewrite H. Qed.

(** The chunks [l] are linked in this order, from [prev] before to [next] after. *)
Fixpoint seg (m : mem) (C : chunks) (prev : Z) (l : list Z) (next : Z) : Prop :=
  match l with
  | [] => True
  | c :: l =>
      wd m (c + 8) (List.hd next l) ∧ wd m (c + csize C c - 16) prev ∧ seg m C c l next
  end.

Lemma seg_app m C prev l1 l2 next :
  seg m C prev (l1 ++ l2) next ↔
  seg m C prev l1 (List.hd next l2) ∧ seg m C (List.last l1 prev) l2 next.
Proof.
  revert prev. induction l1 as [|c l1 IH]; intros prev; cbn [seg app].
  - simpl. tauto.
  - rewrite IH. replace (List.hd next (l1 ++ l2)) with (List.hd (List.hd next l2) l1) by (by destruct l1).
    replace (List.last (c :: l1) prev) with (List.last l1 c); [tauto|].
    clear. revert c prev. induction l1 as [|d l1 IH]; intros c prev; [done|].
    cbn [List.last] in *. destruct l1; [done|]. apply IH.
Qed.

Lemma seg_changes m m' xs C C' prev l next :
  changes m m' xs →
  Forall (λ c, csize C' c = csize C c ∧ Forall (λ x, c + 8 ≠ x ∧ c + csize C c - 16 ≠ x) xs) l →
  seg m C prev l next → seg m' C' prev l next.
Proof.
  intros Hc. revert prev. induction l as [|c l IH]; intros prev Hl; [done|]. cbn [seg].
  inversion_clear Hl as [|? ? [Hs Hx] Hl']. rewrite Hs. intros (H1 & H2 & H3). split_and!.
  - eapply wd_changes; [done..|]. eapply Forall_impl; [exact Hx|]. simpl. lia.
  - eapply wd_changes; [done..|]. eapply Forall_impl; [exact Hx|]. simpl. lia.
  - by apply IH.
Qed.

Record bins (s : heap) (C : chunks) (B : list (list Z)) : Prop := {
  bins_count : length B = 64%nat;
  bin_head i l : B !! i = Some l → bin s !! i = Some (List.hd 0 l);
  bin_links i l : B !! i = Some l → seg (hmem s) C 0 l 0;
  bin_nodup i l : B !! i = Some l → NoDup l;
  bin_sound i l a : B !! i = Some l → a ∈ l → ∃ n, C !! a = Some (n, false) ∧ bin_of n = i;
  bin_complete a n : C !! a = Some (n, false) → ∃ l, B !! bin_of n = Some l ∧ a ∈ l;
  bin_bits i l : B !! i = Some l →
    Z.testbit (bin_filled_bitmap s) (Z.of_nat i) = negb (bool_decide (l = []));
  bitmap_range : in_u 64 (bin_filled_bitmap s)
}.

Record inv (s : heap) (ps : list (Z * Z)) (C : chunks) (B : list (list Z)) : Prop := {
  inv_geometry : geometry ps C;
  inv_layout : layout (hmem s) ps C;
  inv_bins : bins s C B;
  inv_part : current_part s = default 0 (fst <$> head ps);
  inv_bin_length : length (bin s) = 64%nat
}.

(** ** What the operations leave alone: the data of the used chunks, and the
    memory outside the parts. *)
Definition protected (ps : list (Z * Z)) (C : chunks) (x : Z) : Prop :=
  (∃ a n, C !! a = Some (n, true) ∧ a + 16 <= x < a + n - 16)
  ∨ (∀ p k, (p, k) ∈ ps → x < p ∨ p + k <= x).

Definition frame (ps : list (Z * Z)) (C : chunks) (m m' : mem) : Prop :=
  ∀ x, protected ps C x → m' !! x = m !! x.

Lemma frame_refl ps C m : frame ps C m m.
Proof. done. Qed.

Lemma frame_trans ps C m1 m2 m3 : frame ps C m1 m2 → frame ps C m2 m3 → frame ps C m1 m3.
Proof. intros H1 H2 x Hx. by rewrite H2, H1. Qed.

(** With fewer used chunks less is protected. *)
Lemma frame_weaken ps C C' m m' :
  frame ps C m m' → (∀ a n, C' !! a = Some (n, true) → C !! a = Some (n, true)) → frame ps C' m m'.
Proof. intros H Hw x [(a & n & Ha & Hx)|Hx]; apply H; [left|right]; eauto. Qed.

Lemma frame_links ps C m m' xs :
  geometry ps C → changes m m' xs → Forall (link_word C) xs → frame ps C m m'.
Proof.
  intros G (_ & Hm & _) Hx y Hy. apply Hm. eapply Forall_impl; [exact Hx|].
  intros x (c & k & Hc & Ex). pose proof (chunk_bounds _ _ _ _ _ G Hc).
  destruct Hy as [(a & n & Ha & Hy)|Hy].
  - assert (a ≠ c) as Hne by congruence.
    pose proof (chunk_sep _ _ G _ _ _ _ _ _ Ha Hc Hne). lia.
  - destruct (chunk_place _ _ G _ _ _ Hc) as (p & l & Hp & H1 & H2 & _).
    specialize (Hy _ _ Hp). lia.
Qed.

(** ** Reading chunks *)

Lemma chunk_to_post_run s a n :
  wd (hmem s) a n → 0 <= a + n - 16 < 2 ^ 64 → heap_chunk_to_post a s = Ret (a + n - 16, s).
Proof.
  intros H Hb. unfold heap_chunk_to_post, chunk_size. step (ld_run _ _ _ H).
  unfold sizeof_heap_chunk_post. by rewrite wrapu_id.
Qed.

Lemma lift_run {A} (s : heap) (o : outcome A) a : o = Ret a → (M_lift o : M heap A) s = Ret (a, s).
Proof. by intros ->. Qed.

Lemma get_bin_run s i c : bin s !! i = Some c → get_bin i s = Ret (c, s).
Proof. intros H. unfold get_bin. by rewrite H. Qed.

Lemma set_bin_run s i c :
  (i < length (bin s))%nat →
  set_bin i c s = Ret ((), set_bins (<[i := c]> (bin s)) (bin_filled_bitmap s) s).
Proof. intros H. unfold set_bin. by rewrite (proj2 (Nat.ltb_lt _ _) H). Qed.

Lemma chunk_mapped m ps C a n u x :
  layout m ps C → geometry ps C → C !! a = Some (n, u) → a <= x → x + 8 <= a + n → mapped m x 8.
Proof.
  intros L G Ha H1 H2. destruct (chunk_place _ _ G _ _ _ Ha) as (p & k & Hp & H3 & H4 & _).
  eapply mapped_sub; [exact (part_mapped _ _ _ L _ _ Hp)|lia|lia].
Qed.

Lemma bin_of_lt n : 1 <= n < 2 ^ 64 → (bin_of n < 64)%nat.
Proof.
  intros Hn. unfold bin_of. assert (Z.log2 n < 64) by (apply Z.log2_lt_pow2; lia).
  pose proof (Z.log2_nonneg n). lia.
Qed.

Lemma set_mem_set_mem m m' s : set_mem m (set_mem m' s) = set_mem m s.
Proof. done. Qed.

(** ** Inserting a chunk *)

Lemma link_head_run s ps C B a i l :
  inv s ps C B → B !! i = Some l → a mod 8 = 0 → in_u 64 a →
  ∃ m1 xs, link_head (List.hd 0 l) a s = Ret ((), set_mem m1 s)
    ∧ changes (hmem s) m1 xs
    ∧ Forall (λ x, ∃ h t, l = h :: t ∧ x = h + csize C h - 16) xs
    ∧ (∀ h t, l = h :: t → wd m1 (h + csize C h - 16) a).
Proof.
  intros [G L Bi _ _] Hl Ha Hu. unfold link_head. destruct l as [|h t].
  - exists (hmem s), []. split_and!; [by destruct s|apply changes_refl|done|done].
  - destruct (bin_sound _ _ _ Bi _ _ h Hl (list_elem_of_here _ _)) as (k & Hk & _).
    destruct (chunk_bounds _ _ _ _ _ G Hk) as (K1 & K2 & K3 & _ & _ & _ & K7 & _).
    destruct (chunk_sizes _ _ _ L _ _ _ Hk) as [V1 V2].
    change (List.hd 0 (h :: t)) with h. rewrite (proj2 (Z.eqb_neq h NULL)) by (unfold NULL; lia).
    exists (put (hmem s) (h + k - 16) a), [h + k - 16]. split_and!.
    + step (chunk_to_post_run s h k V1 ltac:(lia)). apply st_run; [done|].
      eapply chunk_mapped; [done..|lia|lia].
    + by apply changes_put.
    + constructor; [|done]. exists h, t. by rewrite (csize_eq _ _ _ _ Hk).
    + intros h' t' [= <- <-]. rewrite (csize_eq _ _ _ _ Hk). by apply wd_put_eq.
Qed.

(** The state after an insertion: [a] is the first chunk of its bin. *)
Lemma insert_writes s ps C B a n l :
  inv s ps C B → C !! a = Some (n, true) → B !! bin_of n = Some l →
  ∃ m' xs,
    heap_insert_chunk a s
    = Ret ((), set_bins (<[bin_of n := a]> (bin s))
                 (Z.lor (bin_filled_bitmap s) (2 ^ Z.of_nat (bin_of n))) (set_mem m' s))
    ∧ changes (hmem s) m' xs
    ∧ Forall (λ x, x = a + 8 ∨ x = a + n - 16 ∨ ∃ h t, l = h :: t ∧ x = h + csize C h - 16) xs
    ∧ wd m' (a + 8) (List.hd 0 l) ∧ wd m' (a + n - 16) 0
    ∧ (∀ h t, l = h :: t → wd m' (h + csize C h - 16) a).
Proof.
  intros I Ha Hl. destruct I as [G L Bi Hp Hbl].
  destruct (chunk_bounds _ _ _ _ _ G Ha) as (B1 & B2 & B3 & B4 & B5 & B6 & B7 & B8 & B9 & B10).
  destruct (chunk_sizes _ _ _ L _ _ _ Ha) as [W1 W2].
  assert (Hb64 : (bin_of n < 64)%nat) by (apply bin_of_lt; lia).
  unfold heap_insert_chunk.
  step (chunk_to_post_run s a n W1 ltac:(lia)). step (ld_run _ _ _ W1).
  step (lift_run s _ _ (size_to_bin n ltac:(lia))).
  step (get_bin_run _ _ _ (bin_head _ _ _ Bi _ _ Hl)).
  destruct (link_head_run _ _ _ _ a _ _ (Build_inv _ _ _ _ G L Bi Hp Hbl) Hl B4 B9) as (m1 & xs & E1 & Hc1 & Hx1 & Hw1).
  step E1. step (get_bin_run (set_mem m1 s) _ _ (bin_head _ _ _ Bi _ _ Hl)).
  assert (Hm1 : ∀ x, a <= x → x + 8 <= a + n → mapped m1 x 8).
  { intros x Hx1' Hx2'. apply Hc1. eapply chunk_mapped; [done..|lia|lia]. }
  step (st_run (set_mem m1 s) (chunk_next a) (List.hd 0 l) B6 (Hm1 (a + 8) ltac:(lia) ltac:(lia))).
  rewrite set_mem_set_mem. cbn [hmem set_mem].
  step (st_run (set_mem (put m1 (chunk_next a) (List.hd 0 l)) s) (chunk_prev (a + n - 16)) NULL B7
    (mapped_put _ _ _ _ _ (Hm1 (a + n - 16) ltac:(lia) ltac:(lia)))).
  rewrite set_mem_set_mem. cbn [hmem set_mem]. unfold chunk_next, chunk_prev.
  set (m' := put (put m1 (a + 8) (List.hd 0 l)) (a + n - 16) NULL).
  step (set_bin_run (set_mem m' s) (bin_of n) a ltac:(cbn; lia)).
  exists m', ((xs ++ [a + 8]) ++ [a + n - 16]). split_and!.
  - unfold get_bitmap, set_bitmap, mbind, M_bind. rewrite size_of_bin by done. done.
  - apply changes_snoc; [by apply changes_snoc|done].
  - rewrite !Forall_app. split_and!; [|repeat constructor; lia|repeat constructor; lia].
    eapply Forall_impl; [exact Hx1|]. simpl. auto.
  - apply wd_put_ne; [|done|lia]. apply wd_put_eq; [done|].
    destruct l as [|h t]; [done|].
    destruct (bin_sound _ _ _ Bi _ _ h Hl (list_elem_of_here _ _)) as (k & Hk & _).
    by destruct (chunk_bounds _ _ _ _ _ G Hk) as (_ & _ & _ & _ & _ & _ & _ & _ & ? & _).
  - by apply wd_put_eq.
  - intros h t El. specialize (Hw1 _ _ El). rewrite El in Hl.
    destruct (bin_sound _ _ _ Bi _ _ h Hl (list_elem_of_here _ _)) as (k & Hk & _).
    rewrite (csize_eq _ _ _ _ Hk) in *. pose proof (chunk_bounds _ _ _ _ _ G Hk).
    assert (Hne : a ≠ h) by congruence.
    pose proof (chunk_sep _ _ G _ _ _ _ _ _ Ha Hk Hne).
    apply wd_put_ne; [apply wd_put_ne; [done|done|lia]|done|lia].
Qed.

Lemma csize_insert C a n u b : csize (<[a := (n, u)]> C) b = if decide (b = a) then n else csize C b.
Proof.
  unfold csize. case_decide as E; [subst; by rewrite lookup_insert_eq|by rewrite lookup_insert_ne].
Qed.

Lemma csize_flag C a n u v b : C !! a = Some (n, u) → csize (<[a := (n, v)]> C) b = csize C b.
Proof.
  intros Ha. rewrite csize_insert. case_decide; [subst; by rewrite (csize_eq _ _ _ _ Ha)|done].
Qed.

(** The links of an unused chunk are not among the words of another chunk. *)
Lemma link_apart ps C c k w a n u y :
  geometry ps C → C !! c = Some (k, w) → C !! a = Some (n, u) → c ≠ a →
  a <= y → y + 8 <= a + n → c + 8 ≠ y ∧ c + k - 16 ≠ y.
Proof.
  intros G Hc Ha Hne H1 H2. pose proof (chunk_bounds _ _ _ _ _ G Hc).
  pose proof (chunk_sep _ _ G _ _ _ _ _ _ Hc Ha Hne). lia.
Qed.

(** Replacing the list of one bin. *)
Lemma bins_update s s' C C' B i l' :
  bins s C B → (i < 64)%nat → length (bin s) = 64%nat →
  bin s' = <[i := List.hd 0 l']> (bin s) →
  seg (hmem s') C' 0 l' 0 → NoDup l' →
  (∀ j l, j ≠ i → B !! j = Some l → seg (hmem s') C' 0 l 0) →
  (∀ c, c ∈ l' ↔ ∃ k, C' !! c = Some (k, false) ∧ bin_of k = i) →
  (∀ c k, bin_of k ≠ i → C' !! c = Some (k, false) ↔ C !! c = Some (k, false)) →
  (∀ j, Z.testbit (bin_filled_bitmap s') (Z.of_nat j)
        = if decide (j = i) then negb (bool_decide (l' = [])) else Z.testbit (bin_filled_bitmap s) (Z.of_nat j)) →
  in_u 64 (bin_filled_bitmap s') →
  bins s' C' (<[i := l']> B).
Proof.
  intros Bi Hi Hbl Hbin Hseg Hnd Hsegs Hin Hout Hbits Hr. pose proof (bins_count _ _ _ Bi) as Hcount.
  assert (Hcase : ∀ j l, <[i := l']> B !! j = Some l → (j = i ∧ l = l') ∨ (j ≠ i ∧ B !! j = Some l)).
  { intros j l. destruct (decide (j = i)) as [->|Hne].
    - rewrite list_lookup_insert_eq by lia. intros [= <-]. by left.
    - rewrite list_lookup_insert_ne by done. auto. }
  split; [by rewrite length_insert|..|done].
  - intros j l [[-> ->]|[Hne Hj]]%Hcase; rewrite Hbin.
    + by rewrite list_lookup_insert_eq by lia.
    + rewrite list_lookup_insert_ne by done. by apply (bin_head _ _ _ Bi).
  - intros j l [[-> ->]|[Hne Hj]]%Hcase; eauto.
  - intros j l [[-> ->]|[Hne Hj]]%Hcase; [done|]. by apply (bin_nodup _ _ _ Bi _ _ Hj).
  - intros j l c [[-> ->]|[Hne Hj]]%Hcase Hc; [by apply Hin|].
    destruct (bin_sound _ _ _ Bi _ _ _ Hj Hc) as (k & Hk & <-). exists k. by rewrite Hout.
  - intros c k Hk. destruct (decide (bin_of k = i)) as [E|Hne].
    + rewrite E, list_lookup_insert_eq by lia. exists l'. split; [done|]. apply Hin. eauto.
    + rewrite list_lookup_insert_ne by done. apply (bin_complete _ _ _ Bi). by apply Hout.
  - intros j l [[-> ->]|[Hne Hj]]%Hcase; rewrite Hbits.
    + by rewrite decide_True.
    + rewrite decide_False by done. by apply (bin_bits _ _ _ Bi).
Qed.

Lemma bin_elem s C B i l c :
  bins s C B → B !! i = Some l → c ∈ l ↔ ∃ k, C !! c = Some (k, false) ∧ bin_of k = i.
Proof.
  intros Bi Hl. split; [by apply (bin_sound _ _ _ Bi)|]. intros (k & Hk & <-).
  destruct (bin_complete _ _ _ Bi _ _ Hk) as (l' & Hl' & Hc). congruence.
Qed.

(** Links of chunks none of whose words changed. *)
Lemma seg_away ps C C' m m' xs prev l next :
  geometry ps C → changes m m' xs → (∀ c, csize C' c = csize C c) →
  Forall (λ c, is_Some (C !! c)) l →
  Forall (λ x, ∃ c k u, C !! c = Some (k, u) ∧ (c ∉ l) ∧ c <= x ∧ x + 8 <= c + k) xs →
  seg m C prev l next → seg m' C' prev l next.
Proof.
  intros G Hc Hsz Hl Hx. apply (seg_changes _ _ xs); [done|]. rewrite Forall_forall in Hl |- *.
  intros d Hd. split; [apply Hsz|]. destruct (Hl d Hd) as [[j w] Hj].
  eapply Forall_impl; [exact Hx|]. intros x (c & k & u & Hck & Hcl & H1 & H2).
  rewrite (csize_eq _ _ _ _ Hj).
  apply (link_apart _ _ _ _ _ _ _ _ _ G Hj Hck); [by intros ->|lia|lia].
Qed.

Lemma bin_chunks s C B i l : bins s C B → B !! i = Some l → Forall (λ c, is_Some (C !! c)) l.
Proof.
  intros Bi Hl. apply Forall_forall. intros c Hc.
  destruct (bin_sound _ _ _ Bi _ _ _ Hl Hc) as (k & Hk & _). by rewrite Hk.
Qed.

(** A chunk that is used or of another bin is not in a bin. *)
Lemma bin_not_in s C B j l c k u :
  bins s C B → B !! j = Some l → C !! c = Some (k, u) → (u = false → bin_of k ≠ j) → c ∉ l.
Proof.
  intros Bi Hl Hc Hu Hin. destruct (bin_sound _ _ _ Bi _ _ _ Hl Hin) as (k' & Hk' & E).
  rewrite Hc in Hk'. simplify_eq. by apply Hu.
Qed.

Lemma insert_bins s ps C B a n l m' xs :
  inv s ps C B → C !! a = Some (n, true) → B !! bin_of n = Some l →
  changes (hmem s) m' xs →
  Forall (λ x, x = a + 8 ∨ x = a + n - 16 ∨ ∃ h t, l = h :: t ∧ x = h + csize C h - 16) xs →
  wd m' (a + 8) (List.hd 0 l) → wd m' (a + n - 16) 0 →
  (∀ h t, l = h :: t → wd m' (h + csize C h - 16) a) →
  bins (set_bins (<[bin_of n := a]> (bin s))
          (Z.lor (bin_filled_bitmap s) (2 ^ Z.of_nat (bin_of n))) (set_mem m' s))
    (<[a := (n, false)]> C) (<[bin_of n := a :: l]> B).
Proof.
  intros I Ha Hl Hc Hx Wn Wp Wh. destruct I as [G L Bi _ Hbl].
  destruct (chunk_bounds _ _ _ _ _ G Ha) as (B1 & B2 & B3 & _).
  assert (Hb64 : (bin_of n < 64)%nat) by (apply bin_of_lt; lia).
  assert (Hsz : ∀ c, csize (<[a := (n, false)]> C) c = csize C c) by (intros; by eapply csize_flag).
  assert (Hal : a ∉ l) by by eapply bin_not_in.
  assert (Hwords : ∀ t : list Z, a ∉ t → (∀ h t', l = h :: t' → h ∉ t) →
    Forall (λ x, ∃ c k u, C !! c = Some (k, u) ∧ (c ∉ t) ∧ c <= x ∧ x + 8 <= c + k) xs).
  { intros t Hat Hht. eapply Forall_impl; [exact Hx|]. intros x [->|[->|(h & t' & -> & ->)]];
      [exists a, n, true; split_and!; auto; lia..|].
    destruct (bin_sound _ _ _ Bi _ _ h Hl (list_elem_of_here _ _)) as (j & Hj & _).
    rewrite (csize_eq _ _ _ _ Hj). pose proof (chunk_bounds _ _ _ _ _ G Hj).
    exists h, j, false. split_and!; eauto; lia. }
  apply (bins_update s _ C); cbn [bin hmem set_mem set_bins bin_filled_bitmap]; [done..| | | | | | |].
  - cbn [seg]. rewrite Hsz, (csize_eq _ _ _ _ Ha). split_and!; [done..|].
    pose proof (bin_links _ _ _ Bi _ _ Hl) as Hs. pose proof (bin_nodup _ _ _ Bi _ _ Hl) as Hnd.
    pose proof (bin_chunks _ _ _ _ _ Bi Hl) as Hch.
    destruct l as [|h t]; [done|]. cbn [seg] in *. destruct Hs as (S1 & S2 & S3).
    inversion_clear Hnd as [|? ? Hnh Hnt]. inversion_clear Hch as [|? ? [[j w] Hj] Hch'].
    split_and!; [|rewrite Hsz; by eapply Wh|].
    + eapply wd_changes; [done..|]. eapply Forall_impl; [exact Hx|].
      pose proof (chunk_bounds _ _ _ _ _ G Hj).
      assert (Hha : h ≠ a) by (intros ->; by apply Hal, list_elem_of_here).
      pose proof (chunk_sep _ _ G _ _ _ _ _ _ Hj Ha Hha).
      intros y [->|[->|(h' & t' & [= <- <-] & ->)]]; [lia..|]. rewrite (csize_eq _ _ _ _ Hj). lia.
    + eapply (seg_away ps C); [done..| |done]. apply Hwords; [by intros ?; apply Hal, list_elem_of_further|].
      by intros h' t' [= <- <-].
  - apply NoDup_cons. split; [done|]. by apply (bin_nodup _ _ _ Bi _ _ Hl).
  - intros j t Hne Hj. eapply (seg_away ps C); [done..|by eapply bin_chunks| |by apply (bin_links _ _ _ Bi _ _ Hj)].
    apply Hwords; [by eapply bin_not_in|]. intros h t' ->.
    destruct (bin_sound _ _ _ Bi _ _ h Hl (list_elem_of_here _ _)) as (k & Hk & E).
    eapply bin_not_in; [done..|congruence].
  - intros c. rewrite elem_of_cons, (bin_elem _ _ _ _ _ _ Bi Hl). destruct (decide (c = a)) as [->|Hca].
    + rewrite lookup_insert_eq. naive_solver.
    + rewrite lookup_insert_ne by done. naive_solver.
  - intros c k Hne. destruct (decide (c = a)) as [->|Hca].
    + rewrite lookup_insert_eq. naive_solver.
    + by rewrite lookup_insert_ne by done.
  - intros j. rewrite Z.lor_spec, Z.pow2_bits_eqb by lia. case_decide as E.
    + subst. by rewrite Z.eqb_refl, orb_true_r.
    + by rewrite (proj2 (Z.eqb_neq _ _)), orb_false_r by lia.
  - apply lor_range; [done|apply Bi|]. split; [lia|]. apply Z.pow_lt_mono_r; lia.
Qed.

Lemma insert_run s ps C B a n :
  inv s ps C B → C !! a = Some (n, true) →
  ∃ s' B', heap_insert_chunk a s = Ret ((), s')
    ∧ inv s' ps (<[a := (n, false)]> C) B'
    ∧ frame ps (<[a := (n, false)]> C) (hmem s) (hmem s').
Proof.
  intros I Ha. pose proof I as [G L Bi Hp Hbl].
  pose proof (chunk_bounds _ _ _ _ _ G Ha) as HB.
  destruct (lookup_lt_is_Some_2 B (bin_of n)) as [l Hl].
  { rewrite (bins_count _ _ _ Bi). apply bin_of_lt. lia. }
  destruct (insert_writes _ _ _ _ _ _ _ I Ha Hl) as (m' & xs & E & Hc & Hx & W1 & W2 & W3).
  assert (G' := geometry_flag _ _ _ _ _ false G Ha).
  assert (Hlink : Forall (link_word (<[a := (n, false)]> C)) xs).
  { eapply Forall_impl; [exact Hx|]. intros x [->|[->|(h & t & -> & ->)]].
    - exists a, n. rewrite lookup_insert_eq. auto.
    - exists a, n. rewrite lookup_insert_eq. auto.
    - destruct (bin_sound _ _ _ Bi _ _ h Hl (list_elem_of_here _ _)) as (k & Hk & _).
      exists h, k. rewrite (csize_eq _ _ _ _ Hk), lookup_insert_ne by congruence. auto. }
  eexists _, _. split; [exact E|]. split.
  - split; cbn [hmem set_mem set_bins current_part bin]; [done| |by eapply insert_bins|done|by rewrite length_insert].
    eapply layout_links; [done|by eapply layout_unused|done|done].
  - by eapply frame_links.
Qed.

(** ** Removing a chunk *)

(** Where [a] is in the list of its bin. *)
Lemma bin_split s C B a n :
  bins s C B → C !! a = Some (n, false) →
  ∃ l1 l2, B !! bin_of n = Some (l1 ++ a :: l2) ∧ (a ∉ l1) ∧ a ∉ l2.
Proof.
  intros Bi Ha. destruct (bin_complete _ _ _ Bi _ _ Ha) as (l & Hl & Hin).
  pose proof (bin_nodup _ _ _ Bi _ _ Hl) as Hnd.
  apply list_elem_of_split in Hin as (l1 & l2 & ->).
  apply NoDup_app in Hnd as (_ & H1 & [H2 _]%NoDup_cons).
  exists l1, l2. split_and!; [done| |done]. intros H. apply (H1 a H), list_elem_of_here.
Qed.

(** The words of [a] and its neighbours in the list before a removal. *)
Lemma remove_links m C a n l1 l2 :
  C !! a = Some (n, false) → seg m C 0 (l1 ++ a :: l2) 0 →
  wd m (a + 8) (List.hd 0 l2) ∧ wd m (a + n - 16) (List.last l1 0).
Proof.
  intros Ha. rewrite seg_app. intros [_ Hs]. cbn [seg] in Hs. rewrite (csize_eq _ _ _ _ Ha) in Hs. tauto.
Qed.

(** The bitmap after the list of bin [i] became [l]. *)
Definition new_bitmap (bitmap : Z) (i : nat) (l : list Z) : Z :=
  match l with [] => Z.lxor bitmap (2 ^ Z.of_nat i) | _ => bitmap end.

Lemma unlink_prev_run s ps C B a n l1 l2 :
  inv s ps C B → C !! a = Some (n, false) → B !! bin_of n = Some (l1 ++ a :: l2) → a ∉ l1 →
  ∃ m' xs,
    unlink_prev a (bin_of n) (List.hd 0 (l1 ++ a :: l2)) s
    = Ret ((), set_bins (<[bin_of n := List.hd 0 (l1 ++ l2)]> (bin s))
                 (new_bitmap (bin_filled_bitmap s) (bin_of n) (l1 ++ l2)) (set_mem m' s))
    ∧ changes (hmem s) m' xs
    ∧ Forall (λ x, ∃ l p, l1 = l ++ [p] ∧ x = p + 8) xs
    ∧ (∀ l p, l1 = l ++ [p] → wd m' (p + 8) (List.hd 0 l2)).
Proof.
  intros [G L Bi _ Hbl] Ha Hl Hal.
  pose proof (chunk_bounds _ _ _ _ _ G Ha) as HB. destruct (chunk_sizes _ _ _ L _ _ _ Ha) as [W1 _].
  assert (Hb64 : (bin_of n < 64)%nat) by (apply bin_of_lt; lia).
  destruct (remove_links _ _ _ _ _ _ Ha (bin_links _ _ _ Bi _ _ Hl)) as [Wn Wp].
  pose proof (bin_chunks _ _ _ _ _ Bi Hl) as Hch. unfold unlink_prev.
  destruct l1 as [|h t].
  - cbn [app List.hd] in *. rewrite Z.eqb_refl. exists (hmem s), [].
    split_and!; [|apply changes_refl|done|intros [|? ?] ? ?; done].
    step (ld_run s (chunk_next a) _ Wn). step (set_bin_run s (bin_of n) (List.hd 0 l2) ltac:(lia)).
    destruct l2 as [|q l2]; cbn [List.hd].
    + rewrite Z.eqb_refl. unfold get_bitmap, set_bitmap, mbind, M_bind, new_bitmap.
      rewrite size_of_bin by done. by destruct s.
    + inversion_clear Hch as [|? ? _ Hch']. inversion_clear Hch' as [|? ? [[j w] Hj] _].
      pose proof (chunk_bounds _ _ _ _ _ G Hj).
      rewrite (proj2 (Z.eqb_neq q NULL)) by (unfold NULL; lia). by destruct s.
  - cbn [app List.hd] in *. destruct (decide (a = h)) as [->|Hah]; [by destruct Hal; left|].
    rewrite (proj2 (Z.eqb_neq a h)) by done.
    destruct (exists_last (l := h :: t)) as (l & p & El); [done|].
    assert (List.last (h :: t) 0 = p) as Elast by (rewrite El; apply List.last_last).
    rewrite Elast in Wp.
    assert (Hpin : p ∈ h :: t) by (rewrite El; apply elem_of_app; right; apply list_elem_of_here).
    destruct (proj1 (Forall_forall _ _) Hch p) as [[j w] Hj].
    { change (h :: t ++ a :: l2) with ((h :: t) ++ a :: l2). apply elem_of_app. by left. }
    pose proof (chunk_bounds _ _ _ _ _ G Hj) as HJ.
    exists (put (hmem s) (p + 8) (List.hd 0 l2)), [p + 8]. split_and!.
    + step (chunk_to_post_run s a n W1 ltac:(lia)). step (ld_run s (chunk_prev (a + n - 16)) _ Wp).
      step (ld_run s (chunk_next a) _ Wn).
      rewrite st_run; [|apply HJ|eapply chunk_mapped; [done..|unfold chunk_next; lia|unfold chunk_next; lia]].
      do 2 f_equal. rewrite list_insert_id by by apply (bin_head _ _ _ Bi _ _ Hl). by destruct s.
    + apply changes_put, HJ.
    + constructor; [|done]. by exists l, p.
    + intros l' p' El'. rewrite El in El'. apply app_inj_tail in El' as [_ <-].
      apply wd_put_eq; [apply HJ|]. apply Wn.
Qed.

Lemma unlink_next_run s m ps C B a n l1 l2 xs bn bm :
  inv s ps C B → C !! a = Some (n, false) → B !! bin_of n = Some (l1 ++ a :: l2) → a ∉ l2 →
  changes (hmem s) m xs → Forall (λ x, ∃ c k u, C !! c = Some (k, u) ∧ c ≠ a ∧ x = c + 8) xs →
  ∃ m' ys,
    unlink_next a (a + n - 16) (set_bins bn bm (set_mem m s)) = Ret ((), set_bins bn bm (set_mem m' s))
    ∧ changes m m' ys
    ∧ Forall (λ x, ∃ q l, l2 = q :: l ∧ x = q + csize C q - 16) ys
    ∧ (∀ q l, l2 = q :: l → wd m' (q + csize C q - 16) (List.last l1 0)).
Proof.
  intros [G L Bi _ Hbl] Ha Hl Hal Hc Hx.
  destruct (remove_links _ _ _ _ _ _ Ha (bin_links _ _ _ Bi _ _ Hl)) as [Wn Wp].
  assert (Hkeep : ∀ d k u y v, C !! d = Some (k, u) → d <= y → y + 8 <= d + k →
    (d = a ∨ y ≠ d + 8) → wd (hmem s) y v → wd m y v).
  { intros d k u y v Hd H1 H2 H3 Hw. eapply wd_changes; [done..|]. eapply Forall_impl; [exact Hx|].
    intros x (c & j & w & Hcj & Hne & ->). pose proof (chunk_bounds _ _ _ _ _ G Hcj).
    destruct (decide (d = c)) as [->|Hdc]; [destruct H3; congruence|].
    pose proof (chunk_sep _ _ G _ _ _ _ _ _ Hd Hcj Hdc). lia. }
  destruct (chunk_bounds _ _ _ _ _ G Ha) as (B1 & B2 & B3 & _).
  apply (Hkeep a n false) in Wn; [|done|lia|lia|by left].
  apply (Hkeep a n false) in Wp; [|done|lia|lia|by left].
  unfold unlink_next.
  step (ld_run (set_bins bn bm (set_mem m s)) (chunk_next a) _ Wn). destruct l2 as [|q l].
  - exists m, []. split_and!; [done|apply changes_refl|done|done].
  - destruct (bin_sound _ _ _ Bi _ _ q Hl) as (k & Hk & _).
    { apply elem_of_app. right. apply list_elem_of_further, list_elem_of_here. }
    destruct (chunk_bounds _ _ _ _ _ G Hk) as (K1 & K2 & K3 & _ & _ & _ & K7 & _).
    destruct (chunk_sizes _ _ _ L _ _ _ Hk) as [V1 _].
    apply (Hkeep q k false) in V1; [|done|lia|lia|right; lia].
    cbn [List.hd]. rewrite (proj2 (Z.eqb_neq q NULL)) by (unfold NULL; lia).
    exists (put m (q + k - 16) (List.last l1 0)), [q + k - 16]. split_and!.
    + step (chunk_to_post_run (set_bins bn bm (set_mem m s)) q k V1 ltac:(lia)).
      step (ld_run (set_bins bn bm (set_mem m s)) (chunk_prev (a + n - 16)) _ Wp).
      rewrite st_run; [done..|]. apply Hc. eapply chunk_mapped; [done..|unfold chunk_prev; lia|unfold chunk_prev; lia].
    + by apply changes_put.
    + constructor; [|done]. exists q, l. by rewrite (csize_eq _ _ _ _ Hk).
    + intros q' l' [= <- <-]. rewrite (csize_eq _ _ _ _ Hk). apply wd_put_eq; [done|apply Wp].
Qed.

(** The words a removal writes. *)
Definition touched (C : chunks) (a n : Z) (l1 l2 : list Z) (x : Z) : Prop :=
  x = a + 8 ∨ x = a + n - 16 ∨ (∃ l p, l1 = l ++ [p] ∧ x = p + 8)
  ∨ (∃ q l, l2 = q :: l ∧ x = q + csize C q - 16).

Lemma touched_links s C B a n l1 l2 x :
  bins s C B → C !! a = Some (n, false) → B !! bin_of n = Some (l1 ++ a :: l2) → touched C a n l1 l2 x →
  ∃ c k, c ∈ l1 ++ a :: l2 ∧ C !! c = Some (k, false) ∧ (x = c + 8 ∨ x = c + k - 16).
Proof.
  intros Bi Ha Hl Hx.
  assert (∃ c, c ∈ l1 ++ a :: l2 ∧ (x = c + 8 ∨ x = c + csize C c - 16)) as (c & Hcl & Hcx).
  { unfold touched in Hx. rewrite <- (csize_eq _ _ _ _ Ha) in Hx.
    destruct Hx as [->|[->|[(l & p & -> & ->)|(q & l & -> & ->)]]];
      [exists a|exists a|exists p|exists q]; (split; [set_solver|auto]). }
  destruct (bin_sound _ _ _ Bi _ _ _ Hl Hcl) as (k & Hk & _). rewrite (csize_eq _ _ _ _ Hk) in Hcx. eauto.
Qed.

(** The links between the chunks before and after the one removed. *)
Lemma seg_remove ps m m' xs C C' a n l1 l2 :
  geometry ps C → C !! a = Some (n, false) → (∀ c, csize C' c = csize C c) →
  NoDup (l1 ++ a :: l2) → Forall (λ c, is_Some (C !! c)) (l1 ++ a :: l2) →
  changes m m' xs →
  Forall (touched C a n l1 l2) xs →
  (∀ l p, l1 = l ++ [p] → wd m' (p + 8) (List.hd 0 l2)) →
  (∀ q l, l2 = q :: l → wd m' (q + csize C q - 16) (List.last l1 0)) →
  seg m C 0 (l1 ++ a :: l2) 0 → seg m' C' 0 (l1 ++ l2) 0.
Proof.
  intros G Ha Hsz Hnd Hch Hc Hx Hp Hq Hs.
  apply NoDup_app in Hnd as (Hnd1 & Hdis & [Ha2 Hnd2]%NoDup_cons).
  apply Forall_app in Hch as [Hch1 [_ Hch2]%Forall_cons].
  apply seg_app in Hs as [S1 S2]. cbn [seg List.hd] in S1, S2. destruct S2 as (_ & _ & S2).
  assert (Ha1 : a ∉ l1) by (intros H; by apply (Hdis a), list_elem_of_here).
  (* changed words lie in [a], the last chunk before and the first after *)
  assert (Hin : ∀ t : list Z, a ∉ t → (∀ l p, l1 = l ++ [p] → p ∉ t) → (∀ q l, l2 = q :: l → q ∉ t) →
    Forall (λ x, ∃ c k u, C !! c = Some (k, u) ∧ (c ∉ t) ∧ c <= x ∧ x + 8 <= c + k) xs).
  { intros t Hta Htp Htq. eapply Forall_impl; [exact Hx|]. pose proof (chunk_bounds _ _ _ _ _ G Ha).
    intros x [->|[->|[(l & p & -> & ->)|(q & l & -> & ->)]]]; [exists a, n, false; split_and!; auto; lia..| |].
    - apply Forall_app in Hch1 as [_ [[[k u] Hk] _]%Forall_cons]. pose proof (chunk_bounds _ _ _ _ _ G Hk).
      exists p, k, u. split_and!; eauto; lia.
    - apply Forall_cons in Hch2 as [[[k u] Hk] _]. pose proof (chunk_bounds _ _ _ _ _ G Hk).
      rewrite (csize_eq _ _ _ _ Hk). exists q, k, u. split_and!; eauto; lia. }
  (* one word of a chunk with the other one changed *)
  assert (Hone : ∀ c k u y v, C !! c = Some (k, u) → c ≠ a → wd m y v →
    (y = c + 8 ∧ (∀ l, l1 ≠ l ++ [c])) ∨ (y = c + k - 16 ∧ (∀ l, l2 ≠ c :: l)) → wd m' y v).
  { intros c k u y v Hck Hca Hw Hy. eapply wd_changes; [done..|]. eapply Forall_impl; [exact Hx|].
    pose proof (chunk_bounds _ _ _ _ _ G Ha). pose proof (chunk_bounds _ _ _ _ _ G Hck).
    pose proof (chunk_sep _ _ G _ _ _ _ _ _ Hck Ha Hca).
    intros x [->|[->|[(l & p & El & ->)|(q & l & El & ->)]]]; [lia..| |].
    - rewrite El in Hch1. apply Forall_app in Hch1 as [_ [[[j w] Hj] _]%Forall_cons].
      pose proof (chunk_bounds _ _ _ _ _ G Hj). destruct (decide (c = p)) as [->|Hne].
      + assert (j = k) as -> by congruence. destruct Hy as [[_ Hy]|[-> _]]; [by destruct (Hy l)|lia].
      + pose proof (chunk_sep _ _ G _ _ _ _ _ _ Hck Hj Hne). lia.
    - rewrite El in Hch2. apply Forall_cons in Hch2 as [[[j w] Hj] _].
      rewrite (csize_eq _ _ _ _ Hj). pose proof (chunk_bounds _ _ _ _ _ G Hj).
      destruct (decide (c = q)) as [->|Hne].
      + assert (j = k) as -> by congruence. destruct Hy as [[-> _]|[_ Hy]]; [lia|by destruct (Hy l)].
      + pose proof (chunk_sep _ _ G _ _ _ _ _ _ Hck Hj Hne). lia. }
  apply seg_app. split.
  - destruct l1 as [|c0 t0] using rev_ind; [done|]. clear IHt0.
    apply seg_app in S1 as [S1 S1']. cbn [seg List.hd] in S1, S1'. destruct S1' as (_ & S1' & _).
    apply Forall_app in Hch1 as [Hch0 [[[k u] Hk] _]%Forall_cons].
    apply NoDup_app in Hnd1 as (Hnd0 & Hdis0 & _).
    assert (c0 ∉ t0) by (intros H; by apply (Hdis0 c0), list_elem_of_here).
    apply seg_app. split.
    + eapply (seg_away ps C); [done..| |done]. apply Hin.
      * intros H'. apply Ha1, elem_of_app. by left.
      * intros l p [_ ->]%app_inj_tail. done.
      * intros q l -> H'. apply (Hdis q); [apply elem_of_app; by left|apply list_elem_of_further, list_elem_of_here].
    + cbn [seg List.hd]. split_and!; [by eapply Hp| |done]. rewrite Hsz, (csize_eq _ _ _ _ Hk) in *.
      eapply (Hone c0); [done| |done|right; split; [done|]].
      * intros ->. apply Ha1, elem_of_app. right. apply list_elem_of_here.
      * intros l ->. apply (Hdis c0); [apply elem_of_app; right; apply list_elem_of_here|apply list_elem_of_further, list_elem_of_here].
  - destruct l2 as [|q t]; [done|]. cbn [seg] in S2 |- *. destruct S2 as (S21 & _ & S23).
    apply Forall_cons in Hch2 as [[[k u] Hk] Hcht]. apply NoDup_cons in Hnd2 as [Hqt Hndt].
    split_and!.
    + eapply (Hone q); [done| |done|left; split; [done|]].
      * intros ->. apply Ha2, list_elem_of_here.
      * intros l ->. apply (Hdis q); [apply elem_of_app; right; apply list_elem_of_here|apply list_elem_of_further, list_elem_of_here].
    + rewrite Hsz. by eapply Hq.
    + eapply (seg_away ps C); [done..| |done]. apply Hin.
      * intros H'. by apply Ha2, list_elem_of_further.
      * intros l p -> H'. apply (Hdis p); [apply elem_of_app; right; apply list_elem_of_here|by do 2 apply list_elem_of_further].
      * by intros q' l [= <- <-].
Qed.

Lemma new_bitmap_bits s C B i l l' j :
  bins s C B → B !! i = Some l → l ≠ [] →
  Z.testbit (new_bitmap (bin_filled_bitmap s) i l') (Z.of_nat j)
  = if decide (j = i) then negb (bool_decide (l' = [])) else Z.testbit (bin_filled_bitmap s) (Z.of_nat j).
Proof.
  intros Bi Hl Hne. pose proof (bin_bits _ _ _ Bi _ _ Hl) as Hb. rewrite bool_decide_false in Hb by done.
  unfold new_bitmap. destruct l' as [|x l'].
  - rewrite Z.lxor_spec, Z.pow2_bits_eqb by lia. case_decide as E.
    + subst. by rewrite Hb, Z.eqb_refl.
    + by rewrite (proj2 (Z.eqb_neq _ _)), xorb_false_r by lia.
  - case_decide as E; [|done]. subst. by rewrite Hb.
Qed.

Lemma remove_writes s ps C B a n l1 l2 :
  inv s ps C B → C !! a = Some (n, false) → B !! bin_of n = Some (l1 ++ a :: l2) → a ∉ l1 → a ∉ l2 →
  ∃ m' xs,
    heap_remove_chunk a s
    = Ret ((), set_bins (<[bin_of n := List.hd 0 (l1 ++ l2)]> (bin s))
                 (new_bitmap (bin_filled_bitmap s) (bin_of n) (l1 ++ l2)) (set_mem m' s))
    ∧ changes (hmem s) m' xs
    ∧ Forall (touched C a n l1 l2) xs
    ∧ (∀ l p, l1 = l ++ [p] → wd m' (p + 8) (List.hd 0 l2))
    ∧ (∀ q l, l2 = q :: l → wd m' (q + csize C q - 16) (List.last l1 0))
    ∧ wd m' (a + 8) HEAP_CHUNK_MAGIC ∧ wd m' (a + n - 16) HEAP_CHUNK_MAGIC.
Proof.
  intros I Ha Hl Ha1 Ha2. pose proof I as [G L Bi _ Hbl].
  destruct (chunk_bounds _ _ _ _ _ G Ha) as (B1 & B2 & B3 & B4 & B5 & B6 & B7 & B8 & B9 & B10).
  destruct (chunk_sizes _ _ _ L _ _ _ Ha) as [W1 _].
  pose proof (bin_chunks _ _ _ _ _ Bi Hl) as Hch. apply Forall_app in Hch as [Hch1 [_ Hch2]%Forall_cons].
  destruct (unlink_prev_run _ _ _ _ _ _ _ _ I Ha Hl Ha1) as (m1 & xs & E1 & Hc1 & Hx1 & Hw1).
  set (bn := <[bin_of n := List.hd 0 (l1 ++ l2)]> (bin s)) in *.
  set (bm := new_bitmap (bin_filled_bitmap s) (bin_of n) (l1 ++ l2)) in *.
  destruct (unlink_next_run s m1 _ _ _ _ _ _ _ xs bn bm I Ha Hl Ha2 Hc1) as (m2 & ys & E2 & Hc2 & Hx2 & Hw2).
  { eapply Forall_impl; [exact Hx1|]. intros x (l & p & -> & ->).
    apply Forall_app in Hch1 as [_ [[[k u] Hk] _]%Forall_cons]. exists p, k, u.
    split_and!; [done| |done]. intros ->. apply Ha1, elem_of_app. right. apply list_elem_of_here. }
  unfold heap_remove_chunk.
  step (chunk_to_post_run s a n W1 ltac:(lia)). step (ld_run _ _ _ W1).
  step (lift_run s _ _ (size_to_bin n ltac:(lia))).
  step (get_bin_run _ _ _ (bin_head _ _ _ Bi _ _ Hl)). step E1. step E2.
  assert (Hm2 : ∀ x, a <= x → x + 8 <= a + n → mapped m2 x 8).
  { intros x H1 H2. apply Hc2, Hc1. eapply chunk_mapped; [done..|lia|lia]. }
  step (st_run (set_bins bn bm (set_mem m2 s)) (chunk_magic a) HEAP_CHUNK_MAGIC B6 (Hm2 (a + 8) ltac:(lia) ltac:(lia))).
  exists (put (put m2 (a + 8) HEAP_CHUNK_MAGIC) (a + n - 16) HEAP_CHUNK_MAGIC), (((xs ++ ys) ++ [a + 8]) ++ [a + n - 16]).
  split_and!.
  - rewrite st_run; [done..|]. apply mapped_put, Hm2; unfold post_chunk_magic; lia.
  - do 2 (apply changes_snoc; [|done]). by eapply changes_trans.
  - rewrite !Forall_app. unfold touched. split_and!; [..|repeat constructor; lia|repeat constructor; lia];
      (eapply Forall_impl; [eassumption|]); simpl; auto.
  - intros l p ->. assert (Hpa : p ≠ a) by (intros ->; apply Ha1, elem_of_app; right; apply list_elem_of_here).
    apply Forall_app in Hch1 as [_ [[[k u] Hk] _]%Forall_cons]. pose proof (chunk_bounds _ _ _ _ _ G Hk).
    pose proof (chunk_sep _ _ G _ _ _ _ _ _ Hk Ha Hpa).
    do 2 (apply wd_put_ne; [|done|lia]). eapply wd_changes; [done|by eapply Hw1|].
    eapply Forall_impl; [exact Hx2|]. intros x (q & l' & -> & ->).
    apply Forall_cons in Hch2 as [[[j w] Hj] _]. rewrite (csize_eq _ _ _ _ Hj).
    pose proof (chunk_bounds _ _ _ _ _ G Hj). destruct (decide (p = q)) as [->|Hne]; [|pose proof (chunk_sep _ _ G _ _ _ _ _ _ Hk Hj Hne); lia].
    assert (j = k) as -> by congruence. lia.
  - intros q l ->. apply Forall_cons in Hch2 as [[[j w] Hj] _]. 
    assert (Hqa : q ≠ a) by (intros ->; apply Ha2, list_elem_of_here).
    pose proof (chunk_bounds _ _ _ _ _ G Hj). pose proof (chunk_sep _ _ G _ _ _ _ _ _ Hj Ha Hqa).
    specialize (Hw2 _ _ eq_refl). rewrite (csize_eq _ _ _ _ Hj) in *.
    do 2 (apply wd_put_ne; [|done|lia]). done.
  - apply wd_put_ne; [|done|lia]. by apply wd_put_eq.
  - by apply wd_put_eq.
Qed.

Lemma remove_bins s ps C B a n l1 l2 m' xs :
  inv s ps C B → C !! a = Some (n, false) → B !! bin_of n = Some (l1 ++ a :: l2) →
  changes (hmem s) m' xs →
  Forall (touched C a n l1 l2) xs →
  (∀ l p, l1 = l ++ [p] → wd m' (p + 8) (List.hd 0 l2)) →
  (∀ q l, l2 = q :: l → wd m' (q + csize C q - 16) (List.last l1 0)) →
  bins (set_bins (<[bin_of n := List.hd 0 (l1 ++ l2)]> (bin s))
          (new_bitmap (bin_filled_bitmap s) (bin_of n) (l1 ++ l2)) (set_mem m' s))
    (<[a := (n, true)]> C) (<[bin_of n := l1 ++ l2]> B).
Proof.
  intros [G L Bi _ Hbl] Ha Hl Hc Hx Hp Hq.
  destruct (chunk_bounds _ _ _ _ _ G Ha) as (B1 & B2 & B3 & _).
  assert (Hb64 : (bin_of n < 64)%nat) by (apply bin_of_lt; lia).
  assert (Hsz : ∀ c, csize (<[a := (n, true)]> C) c = csize C c) by (intros; by eapply csize_flag).
  pose proof (bin_nodup _ _ _ Bi _ _ Hl) as Hnd. pose proof (bin_chunks _ _ _ _ _ Bi Hl) as Hch.
  apply (bins_update s _ C); cbn [bin hmem set_mem set_bins bin_filled_bitmap]; [done..| | | | | | |].
  - eapply seg_remove; [done..|]. by apply (bin_links _ _ _ Bi _ _ Hl).
  - apply NoDup_app in Hnd as (H1 & H2 & [H3 H4]%NoDup_cons). apply NoDup_app. split_and!; [done| |done].
    intros c Hc1 Hc2. apply (H2 c Hc1). by right.
  - intros j t Hne Hj.
    assert (Hin : ∀ c k, c ∈ l1 ++ a :: l2 → C !! c = Some (k, false) → c ∉ t).
    { intros c k Hcl Hck. eapply bin_not_in; [done..|]. intros _ E.
      destruct (bin_sound _ _ _ Bi _ _ _ Hl Hcl) as (k' & Hk' & E'). congruence. }
    eapply (seg_away ps C); [done..|by eapply bin_chunks| |by apply (bin_links _ _ _ Bi _ _ Hj)].
    eapply Forall_impl; [exact Hx|]. intros x Hxx.
    destruct (touched_links _ _ _ _ _ _ _ _ Bi Ha Hl Hxx) as (c & k & Hcl & Hk & Hcx).
    pose proof (chunk_bounds _ _ _ _ _ G Hk). exists c, k, false. split_and!; [done|by eapply Hin|lia|lia].
  - intros c. pose proof (bin_elem _ _ _ _ _ c Bi Hl) as Hel. rewrite elem_of_app, elem_of_cons in Hel.
    apply NoDup_app in Hnd as (H1 & H2 & [H3 H4]%NoDup_cons). rewrite elem_of_app.
    destruct (decide (c = a)) as [->|Hca].
    + rewrite lookup_insert_eq. split; [|by intros (? & [=] & _)].
      intros [Hc1|Hc1]; [destruct (H2 a Hc1); left|done].
    + rewrite lookup_insert_ne by done. rewrite <- Hel. tauto.
  - intros c k Hne. destruct (decide (c = a)) as [->|Hca].
    + rewrite lookup_insert_eq. split; [done|]. rewrite Ha. by intros [= <-].
    + by rewrite lookup_insert_ne by done.
  - intros j. eapply new_bitmap_bits; [done..|]. by destruct l1.
  - unfold new_bitmap. destruct (l1 ++ l2); [|apply Bi].
    apply lxor_range; [done|apply Bi|]. split; [lia|]. apply Z.pow_lt_mono_r; lia.
Qed.

Lemma remove_run s ps C B a n :
  inv s ps C B → C !! a = Some (n, false) →
  ∃ s' B', heap_remove_chunk a s = Ret ((), s')
    ∧ inv s' ps (<[a := (n, true)]> C) B'
    ∧ frame ps C (hmem s) (hmem s').
Proof.
  intros I Ha. pose proof I as [G L Bi Hpt Hbl].
  destruct (bin_split _ _ _ _ _ Bi Ha) as (l1 & l2 & Hl & Ha1 & Ha2).
  destruct (remove_writes _ _ _ _ _ _ _ _ I Ha Hl Ha1 Ha2) as (m' & xs & E & Hc & Hx & Hp & Hq & W1 & W2).
  assert (Hlink : Forall (link_word C) xs).
  { eapply Forall_impl; [exact Hx|]. intros x Hxx.
    destruct (touched_links _ _ _ _ _ _ _ _ Bi Ha Hl Hxx) as (c & k & Hcl & Hk & Hcx).
    by exists c, k. }
  eexists _, _. split; [exact E|]. split.
  - split; cbn [hmem set_mem set_bins current_part bin];
      [by eapply geometry_flag| |by eapply remove_bins|done|by rewrite length_insert].
    eapply layout_used; [|done..]. by eapply layout_links.
  - by eapply frame_links.
Qed.

(** ** The neighbours of a chunk *)

Lemma free_links s ps C B c k :
  inv s ps C B → C !! c = Some (k, false) →
  ∃ v w, wd (hmem s) (c + 8) v ∧ wd (hmem s) (c + k - 16) w
    ∧ (v = 0 ∨ is_Some (C !! v)) ∧ (w = 0 ∨ is_Some (C !! w)).
Proof.
  intros [G L Bi _ _] Hc. destruct (bin_split _ _ _ _ _ Bi Hc) as (l1 & l2 & Hl & _ & _).
  destruct (remove_links _ _ _ _ _ _ Hc (bin_links _ _ _ Bi _ _ Hl)) as [H1 H2].
  pose proof (bin_chunks _ _ _ _ _ Bi Hl) as Hch. apply Forall_app in Hch as [Hch1 [_ Hch2]%Forall_cons].
  exists (List.hd 0 l2), (List.last l1 0). split_and!; [done..| |].
  - destruct l2 as [|q l2]; [by left|right]. by apply Forall_cons in Hch2 as [? _].
  - destruct l1 as [|p l1] using rev_ind; [by left|right]. rewrite List.last_last.
    by apply Forall_app in Hch1 as [_ [? _]%Forall_cons].
Qed.

(** The words where a used chunk has its magic are never the magic of a part, and
    those of an unused chunk not that of a used one. *)
Lemma magic_words s ps C B c k u :
  inv s ps C B → C !! c = Some (k, u) →
  ∃ v w, wd (hmem s) (c + 8) v ∧ wd (hmem s) (c + k - 16) w
    ∧ (v =? HEAP_PART_MAGIC) = false ∧ (w =? HEAP_PART_MAGIC) = false
    ∧ (v =? HEAP_CHUNK_MAGIC) = u.
Proof.
  intros I Hc. pose proof I as [G L Bi _ _]. destruct u.
  - destruct (chunk_used _ _ _ L _ _ Hc) as [H1 H2]. eexists _, _. split_and!; [done..| | |]; done.
  - destruct (free_links _ _ _ _ _ _ I Hc) as (v & w & Hv & Hw & Cv & Cw).
    assert (Hnot : ∀ x, x = 0 ∨ is_Some (C !! x) → x mod 2 = 0).
    { intros x [->|[[j b] Hj]]; [done|]. destruct (chunk_shape _ _ G _ _ _ Hj) as [Hx _].
      Z.div_mod_to_equations. lia. }
    exists v, w. apply Hnot in Cv, Cw.
    split_and!; [done..| | |]; apply Z.eqb_neq; intros ->; done.
Qed.

Lemma right_run s ps C B a n u :
  inv s ps C B → C !! a = Some (n, u) →
  heap_chunk_right a s = Ret (match C !! (a + n) with Some _ => a + n | None => 0 end, s).
Proof.
  intros I Ha. pose proof I as [G L Bi _ _]. destruct (chunk_sizes _ _ _ L _ _ _ Ha) as [W1 _].
  destruct (chunk_bounds _ _ _ _ _ G Ha) as (B1 & B2 & B3 & _).
  unfold heap_chunk_right. step (ld_run s (chunk_size a) _ W1). rewrite wrapu_id by (unfold in_u; lia).
  destruct (C !! (a + n)) as [[k w]|] eqn:Hr.
  - destruct (magic_words _ _ _ _ _ _ _ I Hr) as (v & _ & Hv & _ & E & _).
    step (ld_run s (chunk_magic (a + n)) _ Hv). by rewrite E.
  - destruct (chunk_place _ _ G _ _ _ Ha) as (p & j & Hp & _ & _ & _ & [E|[x E]]); [|congruence].
    destruct (part_words _ _ _ L _ _ Hp) as (_ & _ & _ & W).
    replace (p + j - 40) with (chunk_magic (a + n)) in W by (unfold chunk_magic; lia).
    step (ld_run s _ _ W). done.
Qed.

(** The chunk before, if any, is the one that ends where this one starts. *)
Lemma left_run s ps C B a n u :
  inv s ps C B → C !! a = Some (n, u) →
  (∃ b k w, C !! b = Some (k, w) ∧ b + k = a ∧ heap_chunk_left a s = Ret (b, s))
  ∨ ((∀ b k w, C !! b = Some (k, w) → b + k ≠ a) ∧ heap_chunk_left a s = Ret (0, s)).
Proof.
  intros I Ha. pose proof I as [G L Bi _ _].
  destruct (chunk_bounds _ _ _ _ _ G Ha) as (B1 & B2 & B3 & _).
  destruct (chunk_place _ _ G _ _ _ Ha) as (p & j & Hp & H1 & H2 & Hleft & _).
  destruct (part_shape _ _ G _ _ Hp) as (_ & _ & P1 & P2).
  unfold heap_chunk_left, sizeof_heap_chunk_post, post_chunk_magic.
  rewrite (wrapu_id 64 (a - 16)) by (unfold in_u; lia).
  destruct Hleft as [E|(b & k & w & Hb & E)].
  - right. destruct (part_words _ _ _ L _ _ Hp) as (W & _).
    replace (p + 32) with (a - 16) in W by lia. split.
    + intros b k w Hb Eb. pose proof (part_chunk _ _ _ _ _ _ _ G Hp Hb).
      pose proof (chunk_bounds _ _ _ _ _ G Hb). lia.
    + step (ld_run s _ _ W). done.
  - left. exists b, k, w. split_and!; [done..|].
    destruct (magic_words _ _ _ _ _ _ _ I Hb) as (_ & v & _ & Hv & _ & Ev & _).
    replace (b + k - 16) with (a - 16) in Hv by lia. step (ld_run s _ _ Hv). rewrite Ev.
    destruct (chunk_sizes _ _ _ L _ _ _ Hb) as [_ W].
    replace (b + k - 8) with (post_chunk_size (a - 16)) in W by (unfold post_chunk_size; lia).
    unfold heap_post_to_chunk. step (ld_run s _ _ W). unfold sizeof_heap_chunk.
    pose proof (chunk_bounds _ _ _ _ _ G Hb). rewrite wrapu_id by (unfold in_u; lia).
    unfold mret, M_ret. do 2 f_equal. lia.
Qed.

Lemma is_used_run s ps C B c k u :
  inv s ps C B → C !! c = Some (k, u) → heap_chunk_is_used c s = Ret (u, s).
Proof.
  intros I Hc. destruct (magic_words _ _ _ _ _ _ _ I Hc) as (v & _ & Hv & _ & _ & _ & E).
  unfold heap_chunk_is_used. step (ld_run s (chunk_magic c) _ Hv). by rewrite E.
Qed.

Lemma is_unused_run s ps C B c k u :
  inv s ps C B → C !! c = Some (k, u) → is_unused c s = Ret (negb u, s).
Proof.
  intros I Hc. pose proof (chunk_bounds _ _ _ _ _ (inv_geometry _ _ _ _ I) Hc).
  unfold is_unused. rewrite (proj2 (Z.eqb_neq _ _)) by (unfold NULL; lia).
  by step (is_used_run _ _ _ _ _ _ _ I Hc).
Qed.

(** ** Formatting *)

Lemma format_run s a n :
  a mod 8 = 0 → n mod 8 = 0 → 32 <= n → 0 < a → a + n <= 2 ^ 63 →
  mapped (hmem s) a (Z.to_nat n) →
  ∃ m', heap_chunk_format a n s = Ret (a, set_mem m' s)
    ∧ changes (hmem s) m' [a; a + 8; a + n - 8; a + n - 16]
    ∧ wd m' a n ∧ wd m' (a + n - 8) n ∧ wd m' (a + 8) HEAP_CHUNK_MAGIC ∧ wd m' (a + n - 16) HEAP_CHUNK_MAGIC.
Proof.
  intros Ha Hn H32 H0 H63 Hm.
  assert (A8 : (a + 8) mod 8 = 0) by (Z.div_mod_to_equations; lia).
  assert (An8 : (a + n - 8) mod 8 = 0) by (Z.div_mod_to_equations; lia).
  assert (An16 : (a + n - 16) mod 8 = 0) by (Z.div_mod_to_equations; lia).
  assert (Hmx : ∀ x, a <= x → x + 8 <= a + n → mapped (hmem s) x 8).
  { intros x H1 H2. eapply mapped_sub; [exact Hm|lia|lia]. }
  assert (Hn64 : in_u 64 n) by (unfold in_u; lia).
  unfold heap_chunk_format, chunk_size, chunk_magic, post_chunk_magic.
  step (st_run s a n Ha (Hmx a ltac:(lia) ltac:(lia))).
  set (m1 := put (hmem s) a n).
  step (st_run (set_mem m1 s) (a + 8) HEAP_CHUNK_MAGIC A8 (mapped_put _ _ _ _ _ (Hmx (a + 8) ltac:(lia) ltac:(lia)))).
  rewrite set_mem_set_mem. cbn [hmem set_mem]. set (m2 := put m1 (a + 8) HEAP_CHUNK_MAGIC).
  assert (W : wd m2 a n) by (apply wd_put_ne; [by apply wd_put_eq|done|lia]).
  step (chunk_to_post_run (set_mem m2 s) a n W ltac:(lia)).
  assert (post_chunk_size (a + n - 16) = a + n - 8) as -> by (unfold post_chunk_size; lia).
  assert (Hm2 : ∀ x, a <= x → x + 8 <= a + n → mapped m2 x 8) by (intros; do 2 apply mapped_put; auto).
  step (st_run (set_mem m2 s) (a + n - 8) n An8 (Hm2 (a + n - 8) ltac:(lia) ltac:(lia))).
  rewrite set_mem_set_mem. cbn [hmem set_mem]. set (m3 := put m2 (a + n - 8) n).
  step (st_run (set_mem m3 s) (a + n - 16) HEAP_CHUNK_MAGIC An16 (mapped_put _ _ _ _ _ (Hm2 (a + n - 16) ltac:(lia) ltac:(lia)))).
  eexists. split; [done|]. cbn [hmem set_mem]. split_and!.
  - apply (changes_snoc _ _ [a; a + 8; a + n - 8]); [|done].
    apply (changes_snoc _ _ [a; a + 8]); [|done]. apply (changes_snoc _ _ [a]); [|done]. by apply changes_put.
  - do 2 (apply wd_put_ne; [|done|lia]). done.
  - apply wd_put_ne; [|done|lia]. by apply wd_put_eq.
  - do 2 (apply wd_put_ne; [|done|lia]). by apply wd_put_eq.
  - by apply wd_put_eq.
Qed.

(** Changes inside a stretch of memory that holds only used chunks before and
    after. *)
Definition in_region (lo hi x : Z) : Prop := lo <= x ∧ x + 8 <= hi.

Definition region_of_parts (ps : list (Z * Z)) (lo hi : Z) : Prop :=
  ∀ p k, (p, k) ∈ ps → 96 <= k ∧ (hi <= p ∨ p + k <= lo ∨ (p + 48 <= lo ∧ hi <= p + k - 48)).

Lemma layout_region m m' xs lo hi ps C C' :
  layout m ps C → geometry ps C → changes m m' xs → Forall (in_region lo hi) xs → lo <= hi →
  region_of_parts ps lo hi →
  (∀ c k u, C' !! c = Some (k, u) →
    (C !! c = Some (k, u) ∧ (c + k <= lo ∨ hi <= c))
    ∨ (wd m' c k ∧ wd m' (c + k - 8) k
       ∧ (u = true → wd m' (c + 8) HEAP_CHUNK_MAGIC ∧ wd m' (c + k - 16) HEAP_CHUNK_MAGIC))) →
  layout m' ps C'.
Proof.
  intros L G Hc Hx Hlh Hr HC.
  assert (Hout : ∀ y v, y + 8 <= lo ∨ hi <= y → wd m y v → wd m' y v).
  { intros y v Hy Hw. eapply wd_changes; [done..|]. eapply Forall_impl; [exact Hx|].
    unfold in_region. simpl. lia. }
  split.
  - intros c k u Hck. destruct (HC _ _ _ Hck) as [[Ho Hd]|(H1 & H2 & _)]; [|done].
    destruct (chunk_sizes _ _ _ L _ _ _ Ho). pose proof (chunk_bounds _ _ _ _ _ G Ho).
    split; (apply Hout; [lia|done]).
  - intros c k Hck. destruct (HC _ _ _ Hck) as [[Ho Hd]|(_ & _ & H)]; [|by apply H].
    destruct (chunk_used _ _ _ L _ _ Ho). pose proof (chunk_bounds _ _ _ _ _ G Ho).
    split; (apply Hout; [lia|done]).
  - intros p k Hp. apply Hc. by apply L.
  - intros p k Hp. destruct (part_words _ _ _ L _ _ Hp) as (H1 & H2 & H3 & H4).
    destruct (Hr _ _ Hp). split_and!; (apply Hout; [lia|done]).
  - eapply part_chain_changes; [done| |apply L]. intros p k Hp. destruct (Hr _ _ Hp).
    eapply Forall_impl; [exact Hx|]. unfold in_region. simpl. lia.
Qed.

Lemma bins_away s m' xs C C' B :
  bins s C B → changes (hmem s) m' xs →
  (∀ c k, C' !! c = Some (k, false) ↔ C !! c = Some (k, false)) →
  (∀ c k, C !! c = Some (k, false) → Forall (λ x, c + 8 ≠ x ∧ c + k - 16 ≠ x) xs) →
  bins (set_mem m' s) C' B.
Proof.
  intros Bi Hc Hfree Hout.
  split; cbn [bin hmem set_mem bin_filled_bitmap]; [apply Bi..| | | | |apply Bi|apply Bi].
  - intros i l Hl. eapply seg_changes; [done| |by apply (bin_links _ _ _ Bi _ _ Hl)].
    apply Forall_forall. intros c Hcl. destruct (bin_sound _ _ _ Bi _ _ _ Hl Hcl) as (k & Hk & _).
    rewrite (csize_eq _ _ _ _ Hk), (csize_eq _ _ _ _ (proj2 (Hfree _ _) Hk)). eauto.
  - apply Bi.
  - intros i l c Hl Hcl. destruct (bin_sound _ _ _ Bi _ _ _ Hl Hcl) as (k & Hk & E).
    exists k. by rewrite Hfree.
  - intros c k Hk. apply (bin_complete _ _ _ Bi). by apply Hfree.
Qed.

Lemma bins_region s m' xs lo hi C C' B :
  bins s C B → changes (hmem s) m' xs → Forall (in_region lo hi) xs →
  (∀ c k, C' !! c = Some (k, false) ↔ C !! c = Some (k, false)) →
  (∀ c k, C !! c = Some (k, false) → 32 <= k ∧ (c + k <= lo ∨ hi <= c)) →
  bins (set_mem m' s) C' B.
Proof.
  intros Bi Hc Hx Hfree Hout. eapply bins_away; [done..|]. intros c k Hk. destruct (Hout _ _ Hk).
  eapply Forall_impl; [exact Hx|]. unfold in_region. simpl. lia.
Qed.

(** ** Several writes *)

Fixpoint puts (m : mem) (l : list (Z * Z)) : mem :=
  match l with [] => m | (x, v) :: l => puts (put m x v) l end.

Lemma puts_snoc m l x v : puts m (l ++ [(x, v)]) = put (puts m l) x v.
Proof. revert m. induction l as [|[y w] l IH]; intros m; [done|]. apply IH. Qed.

Lemma puts_changes m l : Forall (λ x, x.1 mod 8 = 0) l → changes m (puts m l) (fst <$> l).
Proof.
  revert m. induction l as [|[x v] l IH]; intros m Hl; [apply changes_refl|].
  inversion_clear Hl as [|? ? Hx Hl']. apply (changes_trans _ (put m x v) _ [x]); [by apply changes_put|by apply IH].
Qed.

Lemma puts_wd m l x v :
  Forall (λ x, x.1 mod 8 = 0) l → NoDup (fst <$> l) → in_u 64 v → (x, v) ∈ l → wd (puts m l) x v.
Proof.
  revert m. induction l as [|[y w] l IH]; intros m Hl Hnd Hv Hin; [by apply elem_of_nil in Hin|].
  apply Forall_cons in Hl as [Hy Hl]. apply NoDup_cons in Hnd as [Hni Hnd]. cbn [puts fst] in *.
  apply elem_of_cons in Hin as [[= -> ->]|Hin]; [|by apply IH].
  eapply wd_changes; [by apply puts_changes|by apply wd_put_eq|].
  apply Forall_forall. intros z Hz ->. done.
Qed.

Lemma st_puts m l s x v :
  x mod 8 = 0 → mapped m x 8 → Forall (λ x, x.1 mod 8 = 0) l →
  st x v (set_mem (puts m l) s) = Ret ((), set_mem (puts m (l ++ [(x, v)])) s).
Proof.
  intros Hx Hm Hl. rewrite puts_snoc, st_run; [done|done|]. by apply (puts_changes m l Hl).
Qed.

End HeapInv.
