(* ===== verification/HeapOps.v ===== *)
(** * Splitting, joining and growing

    The operations of [Heap] that change the chunks themselves keep the
    invariant of [HeapInv]. *)

From S2P Require Import Prelude Memory MemFuncs Heap HeapInv.
From stdpp Require Import base list numbers gmap.
From Stdlib Require Import ZArith Lia.
Import Mem MemFuncs Heap HeapInv.

#[local] Open Scope Z_scope.

Module HeapOps.

(** A property of each of a few numbers, by arithmetic. *)
Ltac forall_lia := repeat (apply Forall_cons; split; [cbv beta; lia|]); by apply Forall_nil.

(** ** Joining two neighbours *)

Definition joined (C : chunks) (a n k : Z) (v : bool) : chunks :=
  <[a := (n + k, v)]> (delete (a + n) C).

Lemma part_unique ps C p k q l x :
  geometry ps C → (p, k) ∈ ps → (q, l) ∈ ps → p <= x < p + k → q <= x < q + l → p = q ∧ k = l.
Proof.
  intros G [i Hi]%list_elem_of_lookup [j Hj]%list_elem_of_lookup H1 H2.
  destruct (decide (i = j)) as [->|Hne]; [rewrite Hi in Hj; by simplify_eq|].
  pose proof (part_sep _ _ G _ _ _ _ _ _ Hi Hj Hne). lia.
Qed.

Lemma joined_lookup C a n k v b r :
  0 < n → joined C a n k v !! b = Some r →
  (b = a ∧ r = (n + k, v)) ∨ (b ≠ a ∧ b ≠ a + n ∧ C !! b = Some r).
Proof.
  intros Hn. unfold joined. destruct (decide (b = a)) as [->|Hba].
  - rewrite lookup_insert_eq. intros [= <-]. by left.
  - rewrite lookup_insert_ne by done. intros [Hne Hb]%lookup_delete_Some. right. auto.
Qed.

Lemma joined_other C a n k v b : b ≠ a → b ≠ a + n → joined C a n k v !! b = C !! b.
Proof. intros. unfold joined. rewrite lookup_insert_ne, lookup_delete_ne by done. done. Qed.

Lemma joined_self C a n k v : joined C a n k v !! a = Some (n + k, v).
Proof. apply lookup_insert_eq. Qed.

Section Join.
Context (ps : list (Z * Z)) (C : chunks) (a n k : Z) (u w v : bool).
Context (G : geometry ps C) (Ha : C !! a = Some (n, u)) (Hb : C !! (a + n) = Some (k, w)).

Lemma join_facts : 32 <= n ∧ 32 <= k.
Proof.
  pose proof (chunk_bounds _ _ _ _ _ G Ha). pose proof (chunk_bounds _ _ _ _ _ G Hb). lia.
Qed.

(** Another chunk is apart from both. *)
Lemma join_sep c j x : C !! c = Some (j, x) → c ≠ a → c ≠ a + n → c + j <= a ∨ a + (n + k) <= c.
Proof.
  intros Hc H1 H2. pose proof (chunk_sep _ _ G _ _ _ _ _ _ Hc Ha H1).
  pose proof (chunk_sep _ _ G _ _ _ _ _ _ Hc Hb H2). pose proof join_facts.
  pose proof (chunk_bounds _ _ _ _ _ G Hc). lia.
Qed.

Lemma join_place :
  ∃ p l, (p, l) ∈ ps ∧ p + 48 <= a ∧ a + (n + k) <= p + l - 48
    ∧ (a = p + 48 ∨ ∃ b nb ub, joined C a n k v !! b = Some (nb, ub) ∧ b + nb = a)
    ∧ (a + (n + k) = p + l - 48 ∨ is_Some (joined C a n k v !! (a + (n + k)))).
Proof.
  pose proof join_facts as [Hn Hk].
  destruct (chunk_place _ _ G _ _ _ Ha) as (p & l & Hp & H1 & H2 & H3 & _).
  destruct (chunk_place _ _ G _ _ _ Hb) as (q & j & Hq & H4 & H5 & _ & H6).
  destruct (part_unique _ _ _ _ _ _ a G Hp Hq) as [<- <-].
  { lia. }
  { pose proof (part_chunk _ _ _ _ _ _ _ G Hq Ha). lia. }
  exists p, l. split_and!; [done|done|lia| |].
  - destruct H3 as [|(b & nb & ub & Hbb & E)]; [by left|right]. exists b, nb, ub.
    pose proof (chunk_bounds _ _ _ _ _ G Hbb). rewrite joined_other by lia. done.
  - destruct H6 as [|Hs]; [left; lia|right]. replace (a + (n + k)) with (a + n + k) by lia.
    by rewrite joined_other by lia.
Qed.

Lemma join_place_other c j x :
  C !! c = Some (j, x) → c ≠ a → c ≠ a + n →
  ∃ p l, (p, l) ∈ ps ∧ p + 48 <= c ∧ c + j <= p + l - 48
    ∧ (c = p + 48 ∨ ∃ b nb ub, joined C a n k v !! b = Some (nb, ub) ∧ b + nb = c)
    ∧ (c + j = p + l - 48 ∨ is_Some (joined C a n k v !! (c + j))).
Proof.
  intros Hc Hca Hcb. pose proof join_facts as [Hn Hk]. pose proof (join_sep _ _ _ Hc Hca Hcb).
  pose proof (chunk_bounds _ _ _ _ _ G Hc).
  destruct (chunk_place _ _ G _ _ _ Hc) as (p & l & Hp & H1 & H2 & H3 & H4).
  exists p, l. split_and!; [done..| |].
  - destruct H3 as [|(b & nb & ub & Hbb & E)]; [by left|right].
    destruct (decide (b = a + n)) as [->|Hb1].
    + assert (nb = k) as -> by congruence. exists a, (n + k), v. rewrite joined_self. split; [done|lia].
    + destruct (decide (b = a)) as [->|Hb2]; [assert (nb = n) as -> by congruence; lia|].
      exists b, nb, ub. by rewrite joined_other.
  - destruct H4 as [|Hs]; [by left|right]. destruct (decide (c + j = a)) as [->|Hne].
    + by rewrite joined_self.
    + rewrite joined_other by lia. done.
Qed.

Lemma geometry_joined : geometry ps (joined C a n k v).
Proof.
  pose proof join_facts as [Hn Hk].
  destruct (chunk_shape _ _ G _ _ _ Ha) as (A1 & A2 & _). destruct (chunk_shape _ _ G _ _ _ Hb) as (_ & B2 & _).
  assert (Hlk := joined_lookup C a n k v).
  split; [..|exact (part_shape _ _ G)| |exact (part_sep _ _ G)].
  - intros b j x [[-> [= -> ->]]|(_ & _ & Hj)]%Hlk; [|by apply (chunk_shape _ _ G _ _ _ Hj)|lia].
    Z.div_mod_to_equations. lia.
  - intros b j x [[-> [= -> ->]]|(? & ? & Hj)]%Hlk; [apply join_place|by eapply join_place_other|lia].
  - intros b j x c l y Hbj Hcl Hne. apply Hlk in Hbj; [|lia]. apply Hlk in Hcl; [|lia].
    destruct Hbj as [[-> [= -> ->]]|(? & ? & Hbj)], Hcl as [[-> [= -> ->]]|(? & ? & Hcl)]; [done|..].
    + pose proof (join_sep _ _ _ Hcl). lia.
    + pose proof (join_sep _ _ _ Hbj). lia.
    + by apply (chunk_sep _ _ G _ _ _ _ _ _ Hbj Hcl).
  - intros p l Hp. destruct (part_last _ _ G _ _ Hp) as (b & j & x & Hbj & H1 & H2).
    destruct (decide (b = a + n)) as [->|Hb1].
    + assert (j = k) as -> by congruence. exists a, (n + k), v. rewrite joined_self.
      split_and!; [done| |lia]. pose proof (part_chunk _ _ _ _ _ _ _ G Hp Ha). lia.
    + destruct (decide (b = a)) as [->|Hb2].
      * assert (j = n) as -> by congruence. pose proof (part_chunk _ _ _ _ _ _ _ G Hp Hb). lia.
      * exists b, j, x. by rewrite joined_other.
Qed.

End Join.

(** Formatting a stretch of used chunks as one chunk: [C'] has it in their place. *)
Lemma format_over_run s ps C C' B a n :
  inv s ps C B → geometry ps C' → C' !! a = Some (n, true) →
  (∀ c r, c ≠ a → C' !! c = Some r → C !! c = Some r) →
  (∀ c k, C !! c = Some (k, false) → C' !! c = Some (k, false)) →
  ∃ s', heap_chunk_format a n s = Ret (a, s') ∧ inv s' ps C' B ∧ frame ps C' (hmem s) (hmem s').
Proof.
  intros [G L Bi Hpt Hbl] G' Ha Hold Hfree.
  destruct (chunk_bounds _ _ _ _ _ G' Ha) as (B1 & B2 & B3 & B4 & B5 & _).
  destruct (chunk_place _ _ G' _ _ _ Ha) as (p & l & Hp & P1 & P2 & _).
  destruct (format_run s a n) as (m' & E & Hc & W1 & W2 & W3 & W4); [done..| |].
  { eapply mapped_sub; [exact (part_mapped _ _ _ L _ _ Hp)|lia|lia]. }
  assert (Hsep : ∀ c j x, C' !! c = Some (j, x) → c ≠ a → 32 <= j ∧ (c + j <= a ∨ a + n <= c)).
  { intros c j x Hcj Hne. pose proof (chunk_sep _ _ G' _ _ _ _ _ _ Hcj Ha Hne).
    pose proof (chunk_bounds _ _ _ _ _ G' Hcj). lia. }
  eexists. split; [exact E|]. split.
  - split; cbn [hmem set_mem current_part bin]; [done| | |done|done].
    + eapply (layout_region _ _ _ a (a + n)); [done..| |lia| |].
      * unfold in_region. forall_lia.
      * intros q j Hq. destruct (part_last _ _ G _ _ Hq) as (c & i & x & Hci & H1 & H2).
        pose proof (chunk_bounds _ _ _ _ _ G Hci). pose proof (part_chunk _ _ _ _ _ _ _ G' Hq Ha). lia.
      * intros c j x Hcj. destruct (decide (c = a)) as [->|Hne].
        -- rewrite Ha in Hcj. injection Hcj as <- <-. right. by split_and!.
        -- left. split; [by apply Hold|]. by eapply Hsep.
    + eapply (bins_region _ _ _ a (a + n)); [done..| | |].
      * unfold in_region. forall_lia.
      * intros c j. split; [|apply Hfree]. intros Hcj. apply Hold; [congruence|done].
      * intros c j Hcj%Hfree. eapply Hsep; [done|congruence].
  - intros x Hx. apply Hc. destruct Hx as [(c & j & Hcj & Hx)|Hx].
    + destruct (decide (c = a)) as [->|Hne].
      * rewrite Ha in Hcj. injection Hcj as <-. forall_lia.
      * destruct (Hsep _ _ _ Hcj Hne). forall_lia.
    + specialize (Hx _ _ Hp). forall_lia.
Qed.

(** Formatting two used neighbours as one chunk. *)
Lemma join_run s ps C B a n k :
  inv s ps C B → C !! a = Some (n, true) → C !! (a + n) = Some (k, true) →
  ∃ s', heap_chunk_format a (n + k) s = Ret (a, s')
    ∧ inv s' ps (joined C a n k true) B
    ∧ frame ps (joined C a n k true) (hmem s) (hmem s').
Proof.
  intros I Ha Hb. pose proof (inv_geometry _ _ _ _ I) as G.
  pose proof (chunk_bounds _ _ _ _ _ G Ha) as HB.
  apply (format_over_run s ps C); [done|by eapply geometry_joined|apply joined_self|..].
  - intros c r Hne Hcr. apply joined_lookup in Hcr as [[? _]|(_ & _ & Hcr)]; [done|done|lia].
  - intros c j Hcj. rewrite joined_other; [done|congruence..].
Qed.

(** Three. *)
Lemma join3_run s ps C B a n k j :
  inv s ps C B → C !! a = Some (n, true) → C !! (a + n) = Some (k, true) → C !! (a + n + k) = Some (j, true) →
  ∃ s', heap_chunk_format a (n + k + j) s = Ret (a, s')
    ∧ inv s' ps (joined (joined C a n k true) a (n + k) j true) B
    ∧ frame ps (joined (joined C a n k true) a (n + k) j true) (hmem s) (hmem s').
Proof.
  intros I Ha Hb Hc. pose proof (inv_geometry _ _ _ _ I) as G.
  pose proof (chunk_bounds _ _ _ _ _ G Ha) as HB. pose proof (chunk_bounds _ _ _ _ _ G Hb) as HB'.
  assert (Hc' : joined C a n k true !! (a + (n + k)) = Some (j, true)).
  { rewrite <- Z.add_assoc in Hc. by rewrite joined_other by lia. }
  rewrite <- Z.add_assoc in Hc.
  apply (format_over_run s ps C); [done| |apply joined_self|..].
  - eapply geometry_joined; [by eapply geometry_joined|apply joined_self|done].
  - intros c r Hne Hcr. apply joined_lookup in Hcr as [[? _]|(_ & _ & Hcr)]; [done| |lia].
    apply joined_lookup in Hcr as [[? _]|(_ & _ & Hcr)]; [done|done|lia].
  - intros c i Hci. rewrite !joined_other; [done|congruence..].
Qed.

(** ** Splitting a chunk *)

Definition split_at (C : chunks) (a n x : Z) (v w : bool) : chunks :=
  <[a + x := (n - x, w)]> (<[a := (x, v)]> C).

Section Split.
Context (ps : list (Z * Z)) (C : chunks) (a n x : Z) (u v w : bool).
Context (G : geometry ps C) (Ha : C !! a = Some (n, u)).
Context (Hx : x mod 32 = 0) (Hx32 : 32 <= x) (Hn32 : 32 <= n - x).
Abbreviation C' := (split_at C a n x v w).

Lemma split_self : C' !! a = Some (x, v).
Proof. unfold split_at. rewrite lookup_insert_ne by lia. apply lookup_insert_eq. Qed.

Lemma split_rest : C' !! (a + x) = Some (n - x, w).
Proof. apply lookup_insert_eq. Qed.

Lemma split_other b : b ≠ a → b ≠ a + x → C' !! b = C !! b.
Proof. intros. unfold split_at. rewrite !lookup_insert_ne by done. done. Qed.

Lemma split_new : C !! (a + x) = None.
Proof.
  destruct (C !! (a + x)) as [[j y]|] eqn:E; [|done].
  assert (Hne : a + x ≠ a) by lia. pose proof (chunk_sep _ _ G _ _ _ _ _ _ E Ha Hne).
  pose proof (chunk_bounds _ _ _ _ _ G E). lia.
Qed.

Lemma split_lookup b r :
  C' !! b = Some r →
  (b = a ∧ r = (x, v)) ∨ (b = a + x ∧ r = (n - x, w)) ∨ (b ≠ a ∧ b ≠ a + x ∧ C !! b = Some r).
Proof.
  destruct (decide (b = a)) as [->|Hba]; [rewrite split_self; intros [= <-]; auto|].
  destruct (decide (b = a + x)) as [->|Hbx]; [rewrite split_rest; intros [= <-]; auto|].
  rewrite split_other by done. auto.
Qed.

Lemma split_sep c j y : C !! c = Some (j, y) → c ≠ a → c + j <= a ∨ a + n <= c.
Proof. intros Hc Hne. pose proof (chunk_sep _ _ G _ _ _ _ _ _ Hc Ha Hne). lia. Qed.

Lemma split_place_other c j y :
  C !! c = Some (j, y) → c ≠ a →
  ∃ p l, (p, l) ∈ ps ∧ p + 48 <= c ∧ c + j <= p + l - 48
    ∧ (c = p + 48 ∨ ∃ b nb ub, C' !! b = Some (nb, ub) ∧ b + nb = c)
    ∧ (c + j = p + l - 48 ∨ is_Some (C' !! (c + j))).
Proof.
  intros Hc Hca. pose proof (split_sep _ _ _ Hc Hca). pose proof (chunk_bounds _ _ _ _ _ G Hc).
  destruct (chunk_place _ _ G _ _ _ Hc) as (p & l & Hp & H1 & H2 & H3 & H4).
  exists p, l. split_and!; [done..| |].
  - destruct H3 as [|(b & nb & ub & Hb & E)]; [by left|right].
    destruct (decide (b = a)) as [->|Hba].
    + assert (nb = n) as -> by congruence. exists (a + x), (n - x), w. rewrite split_rest. split; [done|lia].
    + assert (b ≠ a + x) by (intros ->; rewrite split_new in Hb; done).
      exists b, nb, ub. by rewrite split_other.
  - destruct H4 as [|Hs]; [by left|right].
    destruct (decide (c + j = a)) as [->|Hne]; [by rewrite split_self|].
    assert (c + j ≠ a + x) by (intros E; rewrite E, split_new in Hs; by destruct Hs).
    by rewrite split_other.
Qed.

Lemma geometry_split : geometry ps C'.
Proof.
  destruct (chunk_shape _ _ G _ _ _ Ha) as (A1 & A2 & _).
  destruct (chunk_place _ _ G _ _ _ Ha) as (p & l & Hp & H1 & H2 & H3 & H4).
  split; [..|exact (part_shape _ _ G)| |exact (part_sep _ _ G)].
  - intros b j y [[-> [= -> ->]]|[[-> [= -> ->]]|(_ & _ & Hj)]]%split_lookup;
      [|Z.div_mod_to_equations; lia|by apply (chunk_shape _ _ G _ _ _ Hj)]. lia.
  - intros b j y [[-> [= -> ->]]|[[-> [= -> ->]]|(? & ? & Hj)]]%split_lookup;
      [..|by eapply split_place_other].
    + exists p, l. split_and!; [done|done|lia| |].
      * destruct H3 as [|(b & nb & ub & Hb & E)]; [by left|right].
        pose proof (chunk_bounds _ _ _ _ _ G Hb). exists b, nb, ub. rewrite split_other by lia. done.
      * right. by rewrite split_rest.
    + exists p, l. split_and!; [done|lia|lia| |].
      * right. exists a, x, v. by rewrite split_self.
      * replace (a + x + (n - x)) with (a + n) by lia.
        destruct H4 as [|Hs]; [by left|right]. by rewrite split_other by lia.
  - intros b j y c i z Hb Hc Hne. apply split_lookup in Hb, Hc.
    destruct Hb as [[-> [= -> ->]]|[[-> [= -> ->]]|(Hb1 & Hb2 & Hb)]],
             Hc as [[-> [= -> ->]]|[[-> [= -> ->]]|(Hc1 & Hc2 & Hc)]]; try lia;
      try (pose proof (split_sep _ _ _ Hb Hb1)); try (pose proof (split_sep _ _ _ Hc Hc1)); try lia.
    by apply (chunk_sep _ _ G _ _ _ _ _ _ Hb Hc).
  - intros q i Hq. destruct (part_last _ _ G _ _ Hq) as (b & j & y & Hb & Q1 & Q2).
    destruct (decide (b = a)) as [->|Hba].
    + assert (j = n) as -> by congruence. exists (a + x), (n - x), w. rewrite split_rest.
      split_and!; [done|lia|lia].
    + assert (b ≠ a + x) by (intros ->; rewrite split_new in Hb; done).
      exists b, j, y. by rewrite split_other.
Qed.

End Split.

(** Formatting a used chunk as two. *)
Lemma split_formats_run s ps C B a n x :
  inv s ps C B → C !! a = Some (n, true) → x mod 32 = 0 → 32 <= x → 32 <= n - x →
  ∃ s1 s2, heap_chunk_format a x s = Ret (a, s1) ∧ heap_chunk_format (a + x) (n - x) s1 = Ret (a + x, s2)
    ∧ inv s2 ps (split_at C a n x true true) B
    ∧ frame ps (split_at C a n x true true) (hmem s) (hmem s2).
Proof.
  intros [G L Bi Hpt Hbl] Ha Hx Hx32 Hn32.
  assert (G' := geometry_split _ _ _ _ _ _ true true G Ha Hx Hx32 Hn32).
  pose proof (split_self C a n x true true Hx32) as Hself. pose proof (split_rest C a n x true true) as Hrest.
  destruct (chunk_bounds _ _ _ _ _ G Ha) as (A1 & A2 & A3 & _).
  destruct (chunk_bounds _ _ _ _ _ G' Hself) as (B1 & B2 & B3 & B4 & B5 & _).
  destruct (chunk_bounds _ _ _ _ _ G' Hrest) as (D1 & D2 & D3 & D4 & D5 & D6 & D7 & D8 & _).
  destruct (chunk_place _ _ G _ _ _ Ha) as (p & l & Hp & P1 & P2 & _).
  assert (Hm : mapped (hmem s) a (Z.to_nat n)).
  { eapply mapped_sub; [exact (part_mapped _ _ _ L _ _ Hp)|lia|lia]. }
  destruct (format_run s a x) as (m1 & E1 & Hc1 & W1 & W2 & W3 & W4); [done..|lia| |].
  { eapply mapped_sub; [exact Hm|lia|lia]. }
  destruct (format_run (set_mem m1 s) (a + x) (n - x)) as (m2 & E2 & Hc2 & V1 & V2 & V3 & V4); [done..| |].
  { cbn [hmem set_mem]. apply Hc1. eapply mapped_sub; [exact Hm|lia|lia]. }
  rewrite set_mem_set_mem in E2. cbn [hmem set_mem] in Hc2. pose proof (changes_trans _ _ _ _ _ Hc1 Hc2) as Hc. cbn [app] in Hc.
  assert (Hkeep : ∀ y z, y + 8 <= a + x → wd m1 y z → wd m2 y z).
  { intros y z Hy Hw. apply (wd_changes _ _ _ _ _ Hc2 Hw). forall_lia. }
  eexists _, _. split_and!; [exact E1|exact E2|..].
  - split; cbn [hmem set_mem current_part bin]; [done| | |done|done].
    + eapply (layout_region _ _ _ a (a + n)); [done..| |lia| |].
      * unfold in_region. forall_lia.
      * intros q j Hq. destruct (part_last _ _ G _ _ Hq) as (c & i & y & Hci & H1 & H2).
        pose proof (chunk_bounds _ _ _ _ _ G Hci). pose proof (part_chunk _ _ _ _ _ _ _ G Hq Ha). lia.
      * intros c j y [[-> [= -> ->]]|[[-> [= -> ->]]|(H1 & H2 & Hcj)]]%split_lookup; [..|lia].
        -- right. split_and!; [apply Hkeep; [lia|done]..|]. intros _. split; (apply Hkeep; [lia|done]).
        -- right. by split_and!.
        -- left. split; [done|]. exact (split_sep _ _ _ _ _ G Ha _ _ _ Hcj H1).
    + eapply (bins_region _ _ _ a (a + n)); [done..| | |].
      * unfold in_region. forall_lia.
      * intros c j. destruct (decide (c = a)) as [->|Hca]; [rewrite Hself, Ha; split; by intros [=]|].
        destruct (decide (c = a + x)) as [->|Hcb]; [|by rewrite split_other].
        rewrite Hrest, (split_new _ _ _ _ _ _ G Ha Hx32 Hn32). split; by intros [=].
      * intros c j Hcj. pose proof (chunk_bounds _ _ _ _ _ G Hcj). split; [lia|].
        apply (split_sep _ _ _ _ _ G Ha _ _ _ Hcj). congruence.
  - intros y Hy. apply Hc. destruct Hy as [(c & j & Hcj & Hy)|Hy].
    + apply split_lookup in Hcj; [|done].
      destruct Hcj as [[-> [= ->]]|[[-> [= ->]]|(H1 & H2 & Hcj)]]; [forall_lia..|].
      pose proof (split_sep _ _ _ _ _ G Ha _ _ _ Hcj H1). forall_lia.
    + specialize (Hy _ _ Hp). forall_lia.
Qed.

(** ** Splitting in the code *)

Lemma can_split_run s ps C B a n u x :
  inv s ps C B → C !! a = Some (n, u) → 0 <= x <= n →
  heap_can_split_chunk a x s = Ret (32 <=? n - x, s).
Proof.
  intros [G L _ _ _] Ha Hx. destruct (chunk_sizes _ _ _ L _ _ _ Ha) as [W _].
  pose proof (chunk_bounds _ _ _ _ _ G Ha). unfold heap_can_split_chunk. step (ld_run s (chunk_size a) _ W).
  by rewrite wrapu_id by (unfold in_u; lia).
Qed.

Lemma split_chunk_run s ps C B a n x :
  inv s ps C B → C !! a = Some (n, true) → x mod 32 = 0 → 32 <= x → 32 <= n - x →
  ∃ s' B', heap_split_chunk a x s = Ret ((), s')
    ∧ inv s' ps (split_at C a n x true false) B'
    ∧ frame ps (split_at C a n x true false) (hmem s) (hmem s').
Proof.
  intros I Ha Hx Hx32 Hn32. pose proof I as [G L _ _ _].
  destruct (chunk_sizes _ _ _ L _ _ _ Ha) as [W _]. pose proof (chunk_bounds _ _ _ _ _ G Ha).
  destruct (split_formats_run _ _ _ _ _ _ _ I Ha Hx Hx32 Hn32) as (s1 & s2 & E1 & E2 & I2 & F2).
  destruct (insert_run _ _ _ _ _ _ I2 (split_rest C a n x true true)) as (s3 & B3 & E3 & I3 & F3).
  assert (<[a + x := (n - x, false)]> (split_at C a n x true true) = split_at C a n x true false) as EC.
  { unfold split_at. by rewrite insert_insert_eq. }
  rewrite EC in I3, F3. exists s3, B3. split_and!; [|done|].
  - unfold heap_split_chunk. step (is_used_run _ _ _ _ _ _ _ I Ha). step (M_ret_run () s).
    step (ld_run s (chunk_size a) _ W).
    rewrite wrapu_id by (unfold in_u; lia). step E1. step E2. step (M_ret_run () s2). exact E3.
  - eapply frame_trans; [|exact F3]. eapply frame_weaken; [exact F2|].
    intros c k [[-> [= ->]]|[[-> [= _ ?]]|(? & ? & Hc)]]%split_lookup; [by apply split_self| |lia].
    by rewrite split_other.
Qed.

(** What is left of a used chunk when it is shrunk to [x] bytes. *)
Definition shrunk (C : chunks) (a n x : Z) : chunks :=
  if 32 <=? n - x then split_at C a n x true false else C.

Lemma shrink_run s ps C B a n x :
  inv s ps C B → C !! a = Some (n, true) → x mod 32 = 0 → 32 <= x → x <= n →
  ∃ s' B', shrink a x s = Ret (a + 16, s') ∧ inv s' ps (shrunk C a n x) B'
    ∧ frame ps (shrunk C a n x) (hmem s) (hmem s').
Proof.
  intros I Ha Hx Hx32 Hxn. unfold shrink, shrunk.
  step (can_split_run _ _ _ _ _ _ _ x I Ha ltac:(lia)).
  destruct (Z.leb_spec 32 (n - x)) as [Hc|Hc].
  - destruct (split_chunk_run _ _ _ _ _ _ _ I Ha Hx Hx32 Hc) as (s' & B' & E & I' & F').
    exists s', B'. split_and!; [by step E|done|done].
  - exists s, B. by split_and!.
Qed.

(** ** Combining neighbours *)

Definition used_in (C C' : chunks) : Prop := ∀ c k, C !! c = Some (k, true) → C' !! c = Some (k, true).

Lemma used_in_refl C : used_in C C.
Proof. by intros c. Qed.

(** No two neighbours are both unused. *)
Definition coalesced (C : chunks) : Prop :=
  ∀ c k j, C !! c = Some (k, false) → C !! (c + k) ≠ Some (j, false).

(** None but possibly [a] and a neighbour of it. *)
Definition coalesced_but (C : chunks) (a : Z) : Prop :=
  ∀ c k j, c ≠ a → c + k ≠ a → C !! c = Some (k, false) → C !! (c + k) ≠ Some (j, false).

(** [C'] is [C] with the unused chunk [b] grown over the unused chunks [X]. *)
Record absorbed (C C' : chunks) (b n k : Z) (X : list Z) : Prop := {
  absorbed_old : C !! b = Some (k, false);
  absorbed_new : C' !! b = Some (n, false);
  absorbed_gone c : c ∈ X → c ≠ b ∧ C' !! c = None ∧ ∃ j, C !! c = Some (j, false);
  absorbed_other c : c ≠ b → c ∉ X → C' !! c = C !! c
}.

Lemma absorbed_used C C' b n k X : absorbed C C' b n k X → used_in C C' ∧ used_in C' C.
Proof.
  intros A. assert (Hout : ∀ c, c ≠ b → c ∉ X → C' !! c = C !! c) by apply A. split; intros c j Hc.
  - rewrite Hout; [done| |].
    + intros ->. rewrite (absorbed_old _ _ _ _ _ _ A) in Hc. done.
    + intros (_ & _ & i & Hi)%(absorbed_gone _ _ _ _ _ _ A). congruence.
  - rewrite <- Hout; [done| |].
    + intros ->. rewrite (absorbed_new _ _ _ _ _ _ A) in Hc. done.
    + intros (_ & E & _)%(absorbed_gone _ _ _ _ _ _ A). congruence.
Qed.

Lemma absorbed_coalesced C C' a b n k X :
  absorbed C C' b n k X → a = b ∨ a ∈ X → 0 < n →
  (∀ j, C !! (b + n) ≠ Some (j, false)) → (∀ c j, C !! c = Some (j, false) → c + j ≠ b) →
  coalesced_but C a → coalesced C'.
Proof.
  intros A Ha Hn Hright Hleft Hco c j i Hc Hci.
  assert (Hold : ∀ d l, d ≠ b → C' !! d = Some (l, false) → d ≠ a ∧ C !! d = Some (l, false)).
  { intros d l Hdb Hd. assert (d ∉ X) as Hdx.
    { intros (_ & E & _)%(absorbed_gone _ _ _ _ _ _ A). congruence. }
    rewrite (absorbed_other _ _ _ _ _ _ A) in Hd by done. split; [|done]. destruct Ha; congruence. }
  destruct (decide (c = b)) as [->|Hcb].
  - rewrite (absorbed_new _ _ _ _ _ _ A) in Hc. injection Hc as <-.
    apply Hold in Hci as [_ Hci]; [by destruct (Hright i)|lia].
  - apply Hold in Hc as [Hca Hc]; [|done]. specialize (Hleft _ _ Hc) as Hne.
    apply Hold in Hci as [Hcia Hci]; [|done]. by apply (Hco c j i).
Qed.

Lemma remove_keep s ps C0 C B a n :
  inv s ps C B → C !! a = Some (n, false) → used_in C0 C →
  ∃ s' B', heap_remove_chunk a s = Ret ((), s') ∧ inv s' ps (<[a := (n, true)]> C) B'
    ∧ frame ps C0 (hmem s) (hmem s') ∧ used_in C0 (<[a := (n, true)]> C).
Proof.
  intros I Ha Hu. destruct (remove_run _ _ _ _ _ _ I Ha) as (s' & B' & E & I' & F).
  exists s', B'. split_and!; [done..|by eapply frame_weaken|].
  intros c k Hc%Hu. rewrite lookup_insert_ne by congruence. done.
Qed.

Lemma size_run s ps C B a n u :
  inv s ps C B → C !! a = Some (n, u) → ld (chunk_size a) s = Ret (n, s).
Proof. intros [_ L _ _ _] Ha. apply ld_run. by destruct (chunk_sizes _ _ _ L _ _ _ Ha). Qed.

(** Joining two chunks that were marked as used, and inserting the result. *)
Lemma join_insert s ps C0 C B b k n :
  inv s ps C B → C !! b = Some (k, true) → C !! (b + k) = Some (n, true) →
  used_in C0 C → (∀ j, C0 !! b ≠ Some (j, true)) → (∀ j, C0 !! (b + k) ≠ Some (j, true)) →
  ∃ s1 s' B', heap_chunk_format b (k + n) s = Ret (b, s1) ∧ heap_insert_chunk b s1 = Ret ((), s')
    ∧ inv s' ps (joined C b k n false) B' ∧ frame ps C0 (hmem s) (hmem s').
Proof.
  intros I Hb Ha Hu Hb0 Ha0. destruct (join_run _ _ _ _ _ _ _ I Hb Ha) as (s1 & E1 & I1 & F1).
  destruct (insert_run _ _ _ _ _ _ I1 (joined_self _ _ _ _ _)) as (s' & B' & E' & I' & F').
  assert (<[b := (k + n, false)]> (joined C b k n true) = joined C b k n false) as EC.
  { unfold joined. by rewrite insert_insert_eq. }
  rewrite EC in I', F'.
  assert (Hw : ∀ v c j, C0 !! c = Some (j, true) → joined C b k n v !! c = Some (j, true)).
  { intros v c j Hc. rewrite joined_other; [by apply Hu|intros ->; naive_solver..]. }
  exists s1, s', B'. split_and!; [done..|].
  eapply frame_trans; (eapply frame_weaken; [eassumption|intros; by apply Hw]).
Qed.

Lemma join3_insert s ps C0 C B b k n j :
  inv s ps C B → C !! b = Some (k, true) → C !! (b + k) = Some (n, true) → C !! (b + k + n) = Some (j, true) →
  used_in C0 C → (∀ i, C0 !! b ≠ Some (i, true)) → (∀ i, C0 !! (b + k) ≠ Some (i, true)) →
  (∀ i, C0 !! (b + (k + n)) ≠ Some (i, true)) →
  ∃ s1 s' B', heap_chunk_format b (k + n + j) s = Ret (b, s1) ∧ heap_insert_chunk b s1 = Ret ((), s')
    ∧ inv s' ps (joined (joined C b k n true) b (k + n) j false) B' ∧ frame ps C0 (hmem s) (hmem s').
Proof.
  intros I Hb Ha Hr Hu Hb0 Ha0 Hr0. destruct (join3_run _ _ _ _ _ _ _ _ I Hb Ha Hr) as (s1 & E1 & I1 & F1).
  destruct (insert_run _ _ _ _ _ _ I1 (joined_self _ _ _ _ _)) as (s' & B' & E' & I' & F').
  set (C1 := joined C b k n true) in *.
  assert (<[b := (k + n + j, false)]> (joined C1 b (k + n) j true) = joined C1 b (k + n) j false) as EC.
  { unfold joined. by rewrite insert_insert_eq. }
  rewrite EC in I', F'.
  assert (Hw : ∀ v c i, C0 !! c = Some (i, true) → joined C1 b (k + n) j v !! c = Some (i, true)).
  { intros v c i Hc. unfold C1. rewrite !joined_other; [by apply Hu|intros ->; naive_solver..]. }
  exists s1, s', B'. split_and!; [done..|].
  eapply frame_trans; (eapply frame_weaken; [eassumption|intros; by apply Hw]).
Qed.

(** What combining yields: the unused chunk [a] became part of [C']. *)
Definition combined (ps : list (Z * Z)) (C : chunks) (a : Z) (s s' : heap) : Prop :=
  ∃ C' B', inv s' ps C' B' ∧ used_in C C' ∧ used_in C' C
    ∧ frame ps C (hmem s) (hmem s') ∧ (coalesced_but C a → coalesced C').

Lemma combined_absorbed ps C a s s' C' B' b n k X :
  inv s' ps C' B' → frame ps C (hmem s) (hmem s') → absorbed C C' b n k X → a = b ∨ a ∈ X → 0 < n →
  (coalesced_but C a → (∀ j, C !! (b + n) ≠ Some (j, false)) ∧ (∀ c j, C !! c = Some (j, false) → c + j ≠ b)) →
  combined ps C a s s'.
Proof.
  intros I F A Ha Hn Hco. exists C', B'. destruct (absorbed_used _ _ _ _ _ _ A).
  split_and!; [done..|]. intros H'. destruct (Hco H'). by eapply absorbed_coalesced.
Qed.

(** Left neighbours are unique. *)
Lemma left_unique ps C c j x b k y :
  geometry ps C → C !! c = Some (j, x) → C !! b = Some (k, y) → c + j = b + k → c = b.
Proof.
  intros G Hc Hb E. destruct (decide (c = b)) as [|Hne]; [done|].
  pose proof (chunk_sep _ _ G _ _ _ _ _ _ Hc Hb Hne).
  pose proof (chunk_bounds _ _ _ _ _ G Hc). pose proof (chunk_bounds _ _ _ _ _ G Hb). lia.
Qed.

Lemma combine_left s ps C B a n b k :
  inv s ps C B → C !! a = Some (n, false) → C !! b = Some (k, false) → b + k = a →
  (∀ j, C !! (a + n) ≠ Some (j, false)) →
  ∃ s', (heap_remove_chunk a;; heap_remove_chunk b;;
         n1 ← ld (chunk_size b); n2 ← ld (chunk_size a);
         result ← heap_chunk_format b (u64 (n1 + n2)); heap_insert_chunk result;; mret result) s = Ret (b, s')
        ∧ combined ps C a s s'.
Proof.
  intros I Ha Hb Hab Hright. pose proof (inv_geometry _ _ _ _ I) as G.
  pose proof (chunk_bounds _ _ _ _ _ G Ha). pose proof (chunk_bounds _ _ _ _ _ G Hb).
  destruct (remove_keep _ _ C _ _ _ _ I Ha) as (s1 & B1 & E1 & I1 & F1 & U1); [apply used_in_refl|].
  destruct (remove_keep _ _ C _ _ b k I1) as (s2 & B2 & E2 & I2 & F2 & U2); [by rewrite lookup_insert_ne by lia|done|].
  set (C2 := <[b := (k, true)]> (<[a := (n, true)]> C)) in *.
  assert (Hb2 : C2 !! b = Some (k, true)) by apply lookup_insert_eq.
  assert (Ha2 : C2 !! a = Some (n, true)) by (unfold C2; rewrite lookup_insert_ne, lookup_insert_eq by lia; done).
  destruct (join_insert s2 ps C C2 B2 b k n) as (s3 & s4 & B4 & E3 & E4 & I4 & F4);
    [done|done|by rewrite Hab|done|by rewrite Hb|rewrite Hab; by rewrite Ha|].
  exists s4. split.
  - step E1. step E2. step (size_run _ _ _ _ _ _ _ I2 Hb2). step (size_run _ _ _ _ _ _ _ I2 Ha2).
    rewrite wrapu_id by (unfold in_u; lia). step E3. by step E4.
  - eapply (combined_absorbed _ _ _ _ _ _ _ b (k + n) k [a]); [done| | |right; by left|lia|].
    + eapply frame_trans; [done|]. by eapply frame_trans.
    + split; [done|apply joined_self| |].
      * intros c Ec%list_elem_of_singleton. subst c. split_and!; [lia| |by exists n].
        unfold joined. rewrite lookup_insert_ne, Hab by lia. apply lookup_delete_eq.
      * intros c Hcb Hca. rewrite list_elem_of_singleton in Hca.
        rewrite joined_other by (rewrite ?Hab; done). unfold C2. by rewrite !lookup_insert_ne by done.
    + intros Hco. split; [by replace (b + (k + n)) with (a + n) by lia|].
      intros c j Hc E. pose proof (chunk_bounds _ _ _ _ _ G Hc).
      apply (Hco c j k); [lia|lia|done|by rewrite E].
Qed.

Lemma combine_right s ps C B a n j :
  inv s ps C B → C !! a = Some (n, false) → C !! (a + n) = Some (j, false) →
  (∀ c i, C !! c = Some (i, false) → c + i ≠ a) →
  ∃ s', (heap_remove_chunk a;; heap_remove_chunk (a + n);;
         n1 ← ld (chunk_size a); n2 ← ld (chunk_size (a + n));
         result ← heap_chunk_format a (u64 (n1 + n2)); heap_insert_chunk result;; mret result) s = Ret (a, s')
        ∧ combined ps C a s s'.
Proof.
  intros I Ha Hr Hleft. pose proof (inv_geometry _ _ _ _ I) as G.
  pose proof (chunk_bounds _ _ _ _ _ G Ha). pose proof (chunk_bounds _ _ _ _ _ G Hr).
  destruct (remove_keep _ _ C _ _ _ _ I Ha) as (s1 & B1 & E1 & I1 & F1 & U1); [apply used_in_refl|].
  destruct (remove_keep _ _ C _ _ (a + n) j I1) as (s2 & B2 & E2 & I2 & F2 & U2);
    [by rewrite lookup_insert_ne by lia|done|].
  set (C2 := <[a + n := (j, true)]> (<[a := (n, true)]> C)) in *.
  assert (Hr2 : C2 !! (a + n) = Some (j, true)) by apply lookup_insert_eq.
  assert (Ha2 : C2 !! a = Some (n, true)) by (unfold C2; rewrite lookup_insert_ne, lookup_insert_eq by lia; done).
  destruct (join_insert s2 ps C C2 B2 a n j) as (s3 & s4 & B4 & E3 & E4 & I4 & F4);
    [done|done|done|done|by rewrite Ha|by rewrite Hr|].
  exists s4. split.
  - step E1. step E2. step (size_run _ _ _ _ _ _ _ I2 Ha2). step (size_run _ _ _ _ _ _ _ I2 Hr2).
    rewrite wrapu_id by (unfold in_u; lia). step E3. by step E4.
  - eapply (combined_absorbed _ _ _ _ _ _ _ a (n + j) n [a + n]); [done| | |by left|lia|].
    + eapply frame_trans; [done|]. by eapply frame_trans.
    + split; [done|apply joined_self| |].
      * intros c Ec%list_elem_of_singleton. subst c. split_and!; [lia| |by exists j].
        unfold joined. rewrite lookup_insert_ne by lia. apply lookup_delete_eq.
      * intros c Hcb Hca. rewrite list_elem_of_singleton in Hca.
        rewrite joined_other by done. unfold C2. by rewrite !lookup_insert_ne by done.
    + intros Hco. split; [|done]. intros i Hi. rewrite Z.add_assoc in Hi.
      apply (Hco (a + n) j i); [lia|lia|done|done].
Qed.

Lemma combine_both s ps C B a n b k j :
  inv s ps C B → C !! a = Some (n, false) → C !! b = Some (k, false) → b + k = a →
  C !! (a + n) = Some (j, false) →
  ∃ s', (heap_remove_chunk a;; heap_remove_chunk b;; heap_remove_chunk (a + n);;
         n1 ← ld (chunk_size b); n2 ← ld (chunk_size a); n3 ← ld (chunk_size (a + n));
         result ← heap_chunk_format b (u64 (n1 + n2 + n3)); heap_insert_chunk result;; mret result) s
        = Ret (b, s') ∧ combined ps C a s s'.
Proof.
  intros I Ha Hb Hab Hr. pose proof (inv_geometry _ _ _ _ I) as G.
  pose proof (chunk_bounds _ _ _ _ _ G Ha). pose proof (chunk_bounds _ _ _ _ _ G Hb).
  pose proof (chunk_bounds _ _ _ _ _ G Hr).
  destruct (remove_keep _ _ C _ _ _ _ I Ha) as (s1 & B1 & E1 & I1 & F1 & U1); [apply used_in_refl|].
  destruct (remove_keep _ _ C _ _ b k I1) as (s2 & B2 & E2 & I2 & F2 & U2); [by rewrite lookup_insert_ne by lia|done|].
  destruct (remove_keep _ _ C _ _ (a + n) j I2) as (s3 & B3 & E3 & I3 & F3 & U3);
    [by rewrite !lookup_insert_ne by lia|done|].
  set (C3 := <[a + n := (j, true)]> (<[b := (k, true)]> (<[a := (n, true)]> C))) in *.
  assert (Hb3 : C3 !! b = Some (k, true)) by (unfold C3; rewrite lookup_insert_ne, lookup_insert_eq by lia; done).
  assert (Ha3 : C3 !! a = Some (n, true)) by (unfold C3; rewrite !lookup_insert_ne, lookup_insert_eq by lia; done).
  assert (Hr3 : C3 !! (a + n) = Some (j, true)) by apply lookup_insert_eq.
  destruct (join3_insert s3 ps C C3 B3 b k n j) as (s4 & s5 & B5 & E4 & E5 & I5 & F5);
    [done|done|by rewrite Hab|by rewrite Hab|done|by rewrite Hb|by rewrite Hab, Ha
    |by replace (b + (k + n)) with (a + n) by lia; rewrite Hr|].
  exists s5. split.
  - step E1. step E2. step E3. step (size_run _ _ _ _ _ _ _ I3 Hb3). step (size_run _ _ _ _ _ _ _ I3 Ha3).
    step (size_run _ _ _ _ _ _ _ I3 Hr3). rewrite wrapu_id by (unfold in_u; lia). step E4. by step E5.
  - eapply (combined_absorbed _ _ _ _ _ _ _ b (k + n + j) k [a; a + n]); [done| | |right; by left|lia|].
    + repeat (eapply frame_trans; [eassumption|]). apply frame_refl.
    + split; [done|apply joined_self| |].
      * intros c [->|Ec%list_elem_of_singleton]%elem_of_cons; [|subst c].
        -- split_and!; [lia| |by exists n]. rewrite joined_other by lia.
           unfold joined. rewrite lookup_insert_ne, Hab by lia. apply lookup_delete_eq.
        -- split_and!; [lia| |by exists j]. unfold joined at 1. rewrite lookup_insert_ne by lia.
           replace (a + n) with (b + (k + n)) by lia. apply lookup_delete_eq.
      * intros c Hcb Hca. rewrite elem_of_cons, list_elem_of_singleton in Hca.
        rewrite !joined_other by (rewrite ?Hab; (done || lia || (intros E; apply Hca; lia))).
        unfold C3. rewrite !lookup_insert_ne by (intros E; apply Hca || apply Hcb; lia). done.
    + intros Hco. split.
      * intros i Hi. replace (b + (k + n + j)) with (a + n + j) in Hi by lia.
        apply (Hco (a + n) j i); [lia|lia|done|done].
      * intros c i Hc E. pose proof (chunk_bounds _ _ _ _ _ G Hc).
        apply (Hco c i k); [lia|lia|done|by rewrite E].
Qed.

(** Looking at the neighbours: which is unused. *)
Lemma right_unused s ps C B a n u :
  inv s ps C B → C !! a = Some (n, u) →
  ∃ r f, heap_chunk_right a s = Ret (r, s) ∧ is_unused r s = Ret (f, s)
    ∧ if f then ∃ j, r = a + n ∧ C !! (a + n) = Some (j, false)
      else ∀ j, C !! (a + n) ≠ Some (j, false).
Proof.
  intros I Ha. eexists _, (match C !! (a + n) with Some (_, false) => true | _ => false end).
  split; [by eapply right_run|]. destruct (C !! (a + n)) as [[j w]|] eqn:Hr; [|done].
  rewrite (is_unused_run _ _ _ _ _ _ _ I Hr). destruct w; split; try done. by exists j.
Qed.

Lemma left_unused s ps C B a n u :
  inv s ps C B → C !! a = Some (n, u) →
  ∃ b f, heap_chunk_left a s = Ret (b, s) ∧ is_unused b s = Ret (f, s)
    ∧ if f then ∃ k, C !! b = Some (k, false) ∧ b + k = a
      else ∀ c i, C !! c = Some (i, false) → c + i ≠ a.
Proof.
  intros I Ha. destruct (left_run _ _ _ _ _ _ _ I Ha) as [(b & k & w & Hb & E & El)|[Hno El]].
  - exists b, (negb w). split_and!; [done|by eapply is_unused_run|]. destruct w; simpl; [|eauto].
    intros c i Hc Ec. assert (c = b) as ->; [|congruence].
    eapply (left_unique ps C); [apply I|done|done|lia].
  - exists 0, false. split_and!; [done..|]. intros c i Hc. by eapply Hno.
Qed.

Lemma combine_run s ps C B a n :
  inv s ps C B → C !! a = Some (n, false) →
  ∃ r s', heap_chunk_combine_neighbors a s = Ret (r, s') ∧ combined ps C a s s'.
Proof.
  intros I Ha.
  destruct (left_unused _ _ _ _ _ _ _ I Ha) as (b & lf & El & Eul & Hl).
  destruct (right_unused _ _ _ _ _ _ _ I Ha) as (r & rf & Er & Eur & Hr).
  unfold heap_chunk_combine_neighbors. step El. step Er. step Eul. step Eur.
  destruct lf, rf.
  - destruct Hl as (k & Hb & E). destruct Hr as (j & -> & Hr). eexists. by eapply combine_both.
  - destruct Hl as (k & Hb & E). eexists. by eapply combine_left.
  - destruct Hr as (j & -> & Hr). eexists. by eapply combine_right.
  - exists a, s. split; [done|]. exists C, B. split_and!; [done|apply used_in_refl..|apply frame_refl|].
    intros Hco c k j Hc Hj. destruct (decide (c = a)) as [->|Hca].
    + rewrite Ha in Hc. injection Hc as <-. by apply (Hr j).
    + apply (Hco c k j); [done|by apply Hl|done|done].
Qed.

(** ** Freeing *)

Lemma free_run s ps C B a n :
  inv s ps C B → C !! a = Some (n, true) →
  ∃ s' C' B', free (a + 16) s = Ret ((), s') ∧ inv s' ps C' B'
    ∧ used_in C' (<[a := (n, false)]> C) ∧ used_in (<[a := (n, false)]> C) C'
    ∧ frame ps (<[a := (n, false)]> C) (hmem s) (hmem s')
    ∧ (coalesced C → coalesced C').
Proof.
  intros I Ha. pose proof (chunk_bounds _ _ _ _ _ (inv_geometry _ _ _ _ I) Ha).
  destruct (insert_run _ _ _ _ _ _ I Ha) as (s1 & B1 & E1 & I1 & F1).
  destruct (combine_run _ _ _ _ _ _ I1 (lookup_insert_eq _ _ _))
    as (r & s2 & E2 & C' & B' & I2 & U2 & U2' & F2 & Hco).
  exists s2, C', B'. split_and!; [|done..| |].
  - unfold free. rewrite (proj2 (Z.eqb_neq _ NULL)) by (unfold NULL; lia).
    unfold heap_data_to_chunk, sizeof_heap_chunk. replace (a + 16 - 16) with a by lia.
    step E1. by step E2.
  - by eapply frame_trans.
  - intros Hc. apply Hco. intros c k j H1 H2 Hck Hckj.
    rewrite lookup_insert_ne in Hck, Hckj by done. by apply (Hc c k j).
Qed.

End HeapOps.
