(* ===== verification/HeapGrow.v ===== *)
(** * Growing the heap

    [__heap_expand_current_part] keeps the invariant of [HeapInv], whether it
    extends the current part or makes a new one. *)

From S2P Require Import Prelude Memory MemFuncs Heap HeapInv HeapOps.
From stdpp Require Import base list numbers gmap.
From Stdlib Require Import ZArith Lia.
Import Mem MemFuncs Heap HeapInv HeapOps.

#[local] Open Scope Z_scope.

Module HeapGrow.

(** ** More memory *)

Definition extends (m m' : mem) : Prop := ∀ x, is_Some (m !! x) → m' !! x = m !! x.

Lemma extends_wd m m' a v : extends m m' → wd m a v → wd m' a v.
Proof.
  intros He Hw. eapply wd_agree; [done|]. intros x Hx. apply He.
  eapply mapped_lookup; [exact (wd_mapped _ _ _ Hw)|lia].
Qed.

Lemma extends_mapped m m' a n : extends m m' → mapped m a n → mapped m' a n.
Proof. intros He Hm i Hi. rewrite He by by apply Hm. by apply Hm. Qed.

Lemma extends_seg m m' C prev l next : extends m m' → seg m C prev l next → seg m' C prev l next.
Proof.
  intros He. revert prev. induction l as [|c l IH]; intros prev; [done|]. cbn [seg].
  intros (H1 & H2 & H3). split_and!; [by eapply extends_wd..|by apply IH].
Qed.

Lemma extends_chain m m' prev ps : extends m m' → part_chain m prev ps → part_chain m' prev ps.
Proof.
  intros He. revert prev. induction ps as [|[p k] ps IH]; intros prev; [done|]. cbn [part_chain].
  intros (H1 & H2 & H3). split_and!; [by eapply extends_wd..|by apply IH].
Qed.

Lemma inv_extends s m' ps C B : inv s ps C B → extends (hmem s) m' → inv (set_mem m' s) ps C B.
Proof.
  intros [G L Bi Hp Hb] He. split; cbn [hmem set_mem current_part bin]; [done| | |done|done].
  - split.
    + intros a n u Ha. destruct (chunk_sizes _ _ _ L _ _ _ Ha). split; by eapply extends_wd.
    + intros a n Ha. destruct (chunk_used _ _ _ L _ _ Ha). split; by eapply extends_wd.
    + intros p k Hpk. eapply extends_mapped; [done|by apply L].
    + intros p k Hpk. destruct (part_words _ _ _ L _ _ Hpk) as (? & ? & ? & ?).
      split_and!; by eapply extends_wd.
    + eapply extends_chain; [done|apply L].
  - split; cbn [hmem set_mem bin bin_filled_bitmap]; [apply Bi..| |apply Bi|apply Bi|apply Bi|apply Bi|apply Bi].
    intros i l Hl. eapply extends_seg; [done|]. by apply (bin_links _ _ _ Bi _ _ Hl).
Qed.

Lemma map_bytes_extends a n m :
  (∀ x, a <= x < a + n → m !! x = None) → extends m (map_bytes a n m).
Proof.
  intros Hf x [y Hx]. unfold map_bytes. apply mem_write_out. rewrite length_replicate.
  destruct (decide (a <= x < a + n)) as [Hin|]; [|lia]. rewrite Hf in Hx by done. done.
Qed.

Lemma map_bytes_mapped a n m : mapped (map_bytes a n m) a (Z.to_nat n).
Proof.
  intros i Hi. unfold map_bytes. rewrite mem_write_in by by rewrite length_replicate.
  apply lookup_lt_is_Some. by rewrite length_replicate.
Qed.

(** ** Geometry *)

Section Geometry.
Context (ps : list (Z * Z)) (C : chunks).

(** A new part with one chunk. *)
Lemma geometry_create a n v :
  geometry ps C → a mod 32 = 0 → n mod 32 = 0 → 128 <= n → 0 < a → a + n <= 2 ^ 63 →
  (∀ p k, (p, k) ∈ ps → p + k <= a ∨ a + n <= p) →
  geometry ((a, n) :: ps) (<[a + 48 := (n - 96, v)]> C).
Proof.
  intros G Ha Hn H128 H0 H63 Hd.
  assert (Hapart : ∀ c j u, C !! c = Some (j, u) → c + j <= a ∨ a + n <= c).
  { intros c j u Hc. destruct (chunk_place _ _ G _ _ _ Hc) as (p & k & Hp & H1 & H2 & _).
    specialize (Hd _ _ Hp). pose proof (chunk_bounds _ _ _ _ _ G Hc). lia. }
  assert (Hnone : C !! (a + 48) = None).
  { destruct (C !! (a + 48)) as [[j u]|] eqn:E; [|done]. pose proof (Hapart _ _ _ E).
    pose proof (chunk_bounds _ _ _ _ _ G E). lia. }
  assert (Hlk : ∀ c j u, <[a + 48 := (n - 96, v)]> C !! c = Some (j, u) →
    (c = a + 48 ∧ j = n - 96) ∨ (c ≠ a + 48 ∧ C !! c = Some (j, u))).
  { intros c j u. destruct (decide (c = a + 48)) as [->|Hne].
    - rewrite lookup_insert_eq. intros [= <- <-]. by left.
    - rewrite lookup_insert_ne by done. by right. }
  assert (Hkeep : ∀ c j u, C !! c = Some (j, u) → <[a + 48 := (n - 96, v)]> C !! c = Some (j, u)).
  { intros c j u Hc. rewrite lookup_insert_ne by congruence. done. }
  split.
  - intros c j u [[-> ->]|[_ Hc]]%Hlk; [Z.div_mod_to_equations; lia|by apply (chunk_shape _ _ G _ _ _ Hc)].
  - intros c j u [[-> ->]|[Hne Hc]]%Hlk.
    + exists a, n. split_and!; [apply list_elem_of_here|lia|lia|by left|left; lia].
    + destruct (chunk_place _ _ G _ _ _ Hc) as (p & k & Hp & H1 & H2 & H3 & H4).
      exists p, k. split_and!; [by apply list_elem_of_further|done|done| |].
      * destruct H3 as [|(b & nb & ub & Hb & E)]; [by left|right]. exists b, nb, ub. auto.
      * destruct H4 as [|[[nc uc] Hcj]]; [by left|right]. rewrite (Hkeep _ _ _ Hcj). done.
  - intros b j u c i w Hb Hc Hne. apply Hlk in Hb, Hc.
    destruct Hb as [[-> ->]|[? Hb]], Hc as [[-> ->]|[? Hc]]; [done|..].
    + pose proof (Hapart _ _ _ Hc). lia.
    + pose proof (Hapart _ _ _ Hb). lia.
    + by apply (chunk_sep _ _ G _ _ _ _ _ _ Hb Hc).
  - intros p k [[= -> ->]|Hp]%elem_of_cons; [done|by apply (part_shape _ _ G)].
  - intros p k [[= -> ->]|Hp]%elem_of_cons.
    + exists (a + 48), (n - 96), v. rewrite lookup_insert_eq. split_and!; [done|lia|lia].
    + destruct (part_last _ _ G _ _ Hp) as (b & j & u & Hb & E). exists b, j, u. auto.
  - intros i j p k q l. destruct i as [|i], j as [|j]; cbn [lookup list_lookup]; intros Hi Hj Hij; [done|..].
    + injection Hi as <- <-. apply list_elem_of_lookup_2 in Hj. specialize (Hd _ _ Hj). lia.
    + injection Hj as <- <-. apply list_elem_of_lookup_2 in Hi. specialize (Hd _ _ Hi). lia.
    + apply (part_sep _ _ G i j); [done|done|congruence].
Qed.

(** The first part extended, with a chunk in the new room. *)
Lemma geometry_extend p k n v :
  geometry ((p, k) :: ps) C → n mod 32 = 0 → 32 <= n → p + k + n <= 2 ^ 63 →
  (∀ q l, (q, l) ∈ ps → q + l <= p + k ∨ p + k + n <= q) →
  geometry ((p, k + n) :: ps) (<[p + k - 48 := (n, v)]> C).
Proof.
  intros G Hn H32 H63 Hd.
  destruct (part_shape _ _ G p k (list_elem_of_here _ _)) as (P1 & P2 & P3 & P4).
  destruct (part_last _ _ G p k (list_elem_of_here _ _)) as (e & je & ue & He & E1 & E2).
  pose proof (chunk_bounds _ _ _ _ _ G He) as HE.
  assert (Hapart : ∀ c j u, C !! c = Some (j, u) → 32 <= j ∧ (c + j <= p + k - 48 ∨ p + k + n - 48 <= c)).
  { intros c j u Hc. pose proof (chunk_bounds _ _ _ _ _ G Hc).
    destruct (chunk_place _ _ G _ _ _ Hc) as (q & l & [[= -> ->]|Hq]%elem_of_cons & H1 & H2 & _); [lia|].
    specialize (Hd _ _ Hq). apply list_elem_of_lookup in Hq as [i Hi].
    pose proof (part_sep _ _ G 0 (S i) p k q l eq_refl Hi ltac:(lia)). lia. }
  assert (Hnone : C !! (p + k - 48) = None).
  { destruct (C !! (p + k - 48)) as [[j u]|] eqn:E; [|done]. pose proof (Hapart _ _ _ E). lia. }
  assert (Hlk : ∀ c j u, <[p + k - 48 := (n, v)]> C !! c = Some (j, u) →
    (c = p + k - 48 ∧ j = n) ∨ (c ≠ p + k - 48 ∧ C !! c = Some (j, u))).
  { intros c j u. destruct (decide (c = p + k - 48)) as [->|Hne].
    - rewrite lookup_insert_eq. intros [= <- <-]. by left.
    - rewrite lookup_insert_ne by done. by right. }
  assert (Hkeep : ∀ c j u, C !! c = Some (j, u) → <[p + k - 48 := (n, v)]> C !! c = Some (j, u)).
  { intros c j u Hc. rewrite lookup_insert_ne by congruence. done. }
  split.
  - intros c j u [[-> ->]|[_ Hc]]%Hlk; [Z.div_mod_to_equations; lia|by apply (chunk_shape _ _ G _ _ _ Hc)].
  - intros c j u [[-> ->]|[Hne Hc]]%Hlk.
    + exists p, (k + n). split_and!; [apply list_elem_of_here|lia|lia| |left; lia].
      right. exists e, je, ue. split; [by apply Hkeep|lia].
    + destruct (chunk_place _ _ G _ _ _ Hc) as (q & l & Hq & H1 & H2 & H3 & H4).
      assert (Hleft : c = q + 48 ∨ ∃ b nb ub, <[p + k - 48 := (n, v)]> C !! b = Some (nb, ub) ∧ b + nb = c).
      { destruct H3 as [|(b & nb & ub & Hb & E)]; [by left|right]. exists b, nb, ub. auto. }
      apply elem_of_cons in Hq as [[= -> ->]|Hq].
      * exists p, (k + n). split_and!; [apply list_elem_of_here|done|lia|done|right].
        destruct H4 as [->|[[nc uc] Hcj]]; [by rewrite lookup_insert_eq|by rewrite (Hkeep _ _ _ Hcj)].
      * exists q, l. split_and!; [by apply list_elem_of_further|done..|].
        destruct H4 as [|[[nc uc] Hcj]]; [by left|right]. by rewrite (Hkeep _ _ _ Hcj).
  - intros b j u c i w Hb Hc Hne. apply Hlk in Hb, Hc.
    destruct Hb as [[-> ->]|[? Hb]], Hc as [[-> ->]|[? Hc]]; [done|..].
    + pose proof (Hapart _ _ _ Hc). lia.
    + pose proof (Hapart _ _ _ Hb). lia.
    + by apply (chunk_sep _ _ G _ _ _ _ _ _ Hb Hc).
  - intros q l [[= -> ->]|Hq]%elem_of_cons; [Z.div_mod_to_equations; lia|].
    apply (part_shape _ _ G). by apply list_elem_of_further.
  - intros q l [[= -> ->]|Hq]%elem_of_cons.
    + exists (p + k - 48), n, v. rewrite lookup_insert_eq. split_and!; [done|lia|lia].
    + destruct (part_last _ _ G q l) as (b & j & u & Hb & E); [by apply list_elem_of_further|].
      exists b, j, u. auto.
  - assert (Hsep : ∀ i q l, ps !! i = Some (q, l) → p + (k + n) <= q ∨ q + l <= p).
    { intros i q l Hi. pose proof (part_sep _ _ G 0 (S i) p k q l eq_refl Hi ltac:(lia)).
      pose proof (Hd _ _ (list_elem_of_lookup_2 _ _ _ Hi)).
      destruct (part_last _ _ G q l) as (b & j & u & Hb & E).
      { apply list_elem_of_further. by eapply list_elem_of_lookup_2. }
      pose proof (chunk_bounds _ _ _ _ _ G Hb). lia. }
    intros i j q l q' l'. destruct i as [|i], j as [|j]; cbn [lookup list_lookup]; intros Hi Hj Hij; [done|..].
    + injection Hi as <- <-. eauto.
    + injection Hj as <- <-. apply Hsep in Hi. lia.
    + apply (part_sep _ _ G (S i) (S j)); [done|done|congruence].
Qed.

End Geometry.

(** ** Inserting does not look at the current part *)

Definition part_blind {A} (c : M heap A) : Prop := ∀ p s,
  c (set_part p s) = match c s with
                     | Ret (x, s') => Ret (x, set_part p s')
                     | Undef => Undef
                     | OutOfFuel => OutOfFuel
                     end.

Lemma blind_bind {A B} (c : M heap A) (f : A → M heap B) :
  part_blind c → (∀ x, part_blind (f x)) → part_blind (c ≫= f).
Proof.
  intros Hc Hf p s. unfold mbind, M_bind. rewrite Hc. destruct (c s) as [[x s']| |]; [|done..]. apply Hf.
Qed.

Lemma blind_ret {A} (x : A) : part_blind (mret x).
Proof. done. Qed.

Lemma blind_on_mem {A} (c : M mem A) : part_blind (on_mem c).
Proof. intros p s. unfold on_mem. cbn [hmem set_part]. by destruct (c (hmem s)) as [[x m]| |]. Qed.

Lemma blind_lift {A} (o : outcome A) : part_blind (M_lift o).
Proof. intros p s. unfold M_lift. by destruct o. Qed.

Lemma blind_bins :
  part_blind get_bitmap ∧ (∀ v, part_blind (set_bitmap v)) ∧ (∀ i, part_blind (get_bin i))
  ∧ (∀ i c, part_blind (set_bin i c)).
Proof.
  split_and!; [done|done| |].
  - intros i p s. unfold get_bin. cbn [bin set_part]. by destruct (bin s !! i).
  - intros i c p s. unfold set_bin. cbn [bin set_part]. by destruct (i <? length (bin s))%nat.
Qed.

Lemma insert_blind c : part_blind (heap_insert_chunk c).
Proof.
  destruct blind_bins as (H1 & H2 & H3 & H4).
  unfold heap_insert_chunk, link_head, heap_chunk_to_post, ld, st.
  repeat first [apply blind_bind; [|intros ?] | apply blind_on_mem | apply blind_lift | apply blind_ret
               | apply H1 | apply H2 | apply H3 | apply H4 | case_if].
Qed.

(** ** The words of a part *)

Ltac aligned := Z.div_mod_to_equations; lia.
Ltac forall_aligned := repeat (apply Forall_cons; split; [cbn [fst]; aligned|]); by apply Forall_nil.

(** One store in a sequence of stores. *)
Ltac store_step Hm :=
  erewrite M_bind_ret; [|apply st_puts; [aligned|apply Hm; lia|forall_aligned]]; cbn [app].

Definition create_words (a n cur : Z) : list (Z * Z) :=
  let q := a + n - 48 in
  [(a, 0); (a + 8, 0); (a + 16, 0); (a + 40, n); (a + 32, HEAP_PART_MAGIC);
   (q + 8, HEAP_PART_MAGIC); (q, n); (q + 24, 0); (q + 32, 0); (q + 40, 0); (a + 24, cur)].

Lemma part_post_run s p k :
  wd (hmem s) (p + 40) k → 0 <= p + k - 48 < 2 ^ 64 → heap_part_to_post p s = Ret (p + k - 48, s).
Proof.
  intros W Hb. unfold heap_part_to_post, part_size, sizeof_heap_part_post. step (ld_run s _ _ W).
  by rewrite wrapu_id.
Qed.

Section Create.
Context (s : heap) (ps : list (Z * Z)) (C : chunks) (B : list (list Z)) (a n : Z).
Context (I : inv s ps C B).
Context (Ha : a mod 32 = 0) (Hn : n mod 32 = 0) (H128 : 128 <= n) (H0 : 0 < a) (H63 : a + n <= 2 ^ 63).
Context (Hd : ∀ p k, (p, k) ∈ ps → p + k <= a ∨ a + n <= p) (Hm : mapped (hmem s) a (Z.to_nat n)).

Lemma create_mapped x : a <= x → x + 8 <= a + n → mapped (hmem s) x 8.
Proof. intros H1 H2. eapply mapped_sub; [exact Hm|lia|lia]. Qed.

(** The word of the old current part that points back to the new one. *)
Definition back_word : list (Z * Z) := match ps with [] => [] | (p, k) :: _ => [(p + k - 32, a)] end.

Definition all_words : list (Z * Z) :=
  create_words a n (current_part s) ++ back_word ++ [(a + n - 48 + 16, 0)].

Lemma back_word_out x v :
  (x, v) ∈ back_word → x mod 8 = 0 ∧ v = a ∧ (x + 8 <= a ∨ a + n <= x) ∧ mapped (hmem s) x 8
  ∧ ∃ p k, (p, k) ∈ ps ∧ x = p + k - 32.
Proof.
  unfold back_word. destruct ps as [|[p k] ps'] eqn:Eps; [intros Hx; by apply elem_of_nil in Hx|].
  intros [= -> ->]%list_elem_of_singleton. pose proof I as [G L _ _ _].
  assert (Hp : (p, k) ∈ (p, k) :: ps') by apply list_elem_of_here.
  destruct (part_shape _ _ G _ _ Hp) as (P1 & P2 & P3 & P4). specialize (Hd _ _ Hp).
  destruct (part_last _ _ G _ _ Hp) as (e & je & ue & He & E1 & E2).
  pose proof (chunk_bounds _ _ _ _ _ G He).
  split_and!; [aligned|done|lia| |by exists p, k].
  eapply mapped_sub; [exact (part_mapped _ _ _ L _ _ Hp)|lia|lia].
Qed.

Lemma all_words_aligned : Forall (λ x, x.1 mod 8 = 0) all_words.
Proof.
  unfold all_words, create_words. rewrite !Forall_app. split_and!; [forall_aligned| |forall_aligned].
  apply Forall_forall. intros [x v] Hx. by apply back_word_out in Hx as [? _].
Qed.

Lemma all_words_nodup : NoDup (fst <$> all_words).
Proof.
  assert (Hfix : NoDup (fst <$> create_words a n (current_part s) ++ [(a + n - 48 + 16, 0)])).
  { cbn [fmap list_fmap create_words app fst].
    repeat (apply NoDup_cons; split; [rewrite ?elem_of_cons, elem_of_nil; lia|]). by apply NoDup_nil. }
  unfold all_words. rewrite !fmap_app in *. apply NoDup_app in Hfix as (N1 & N2 & N3).
  assert (Hout : ∀ x, x ∈ fst <$> back_word → x + 8 <= a ∨ a + n <= x).
  { intros x ([y v] & -> & Hy)%list_elem_of_fmap. by apply back_word_out in Hy as (_ & _ & ? & _). }
  apply NoDup_app. split_and!; [done| |].
  - intros x Hx [Hb|Hs]%elem_of_app; [|by apply (N2 x)]. apply Hout in Hb.
    cbn [fmap list_fmap create_words fst] in Hx. rewrite !elem_of_cons, elem_of_nil in Hx. lia.
  - apply NoDup_app. split_and!; [|intros x Hb%Hout; cbn; rewrite list_elem_of_singleton; lia|done].
    unfold back_word. destruct ps as [|[p k] ?]; [by apply NoDup_nil|apply NoDup_singleton].
Qed.

Lemma current_range : in_u 64 (current_part s).
Proof.
  pose proof I as [G _ _ Hp _]. rewrite Hp. destruct ps as [|[p k] ps']; [done|].
  destruct (part_shape _ _ G p k (list_elem_of_here _ _)) as (_ & _ & P3 & P4).
  destruct (part_last _ _ G p k (list_elem_of_here _ _)) as (e & je & ue & He & E1 & E2).
  pose proof (chunk_bounds _ _ _ _ _ G He). cbn. unfold in_u. lia.
Qed.

Lemma all_words_wd x v : in_u 64 v → (x, v) ∈ all_words → wd (puts (hmem s) all_words) x v.
Proof. intros. apply puts_wd; [apply all_words_aligned|apply all_words_nodup|done|done]. Qed.

Lemma link_part_run l :
  Forall (λ x, x.1 mod 8 = 0) l → Forall (λ x, a <= x.1 ∧ x.1 + 8 <= a + n) l →
  link_part (current_part s) a (set_mem (puts (hmem s) l) s)
  = Ret ((), set_mem (puts (hmem s) (l ++ back_word)) s).
Proof.
  intros Hal Hin. pose proof I as [G L _ Hp _]. unfold link_part, back_word. rewrite Hp.
  destruct ps as [|[p k] ps'] eqn:Eps; [by rewrite app_nil_r|].
  change (default 0 (fst <$> head ((p, k) :: ps'))) with p.
  assert (Hpk : (p, k) ∈ (p, k) :: ps') by apply list_elem_of_here.
  destruct (part_shape _ _ G _ _ Hpk) as (P1 & P2 & P3 & P4). specialize (Hd _ _ Hpk).
  destruct (part_last _ _ G _ _ Hpk) as (e & je & ue & He & E1 & E2).
  pose proof (chunk_bounds _ _ _ _ _ G He).
  rewrite (proj2 (Z.eqb_neq p NULL)) by (unfold NULL; lia).
  destruct (part_words _ _ _ L _ _ Hpk) as (_ & W & _ & _).
  assert (W' : wd (puts (hmem s) l) (p + 40) k).
  { eapply wd_changes; [by apply puts_changes|done|]. apply Forall_fmap.
    eapply Forall_impl; [exact Hin|]. intros [x v]. cbn. lia. }
  step (part_post_run (set_mem (puts (hmem s) l) s) p k W' ltac:(lia)).
  unfold part_prev. replace (p + k - 48 + 16) with (p + k - 32) by lia.
  apply st_puts; [aligned| |done].
  eapply mapped_sub; [exact (part_mapped _ _ _ L _ _ Hpk)|lia|lia].
Qed.

Lemma create_writes :
  ∃ m2, create_part a n s = (heap_insert_chunk (a + 48);; put_part a) (set_mem m2 s)
    ∧ changes (puts (hmem s) all_words) m2 [a + 48; a + 48 + 8; a + 48 + (n - 96) - 8; a + 48 + (n - 96) - 16]
    ∧ wd m2 (a + 48) (n - 96) ∧ wd m2 (a + 48 + (n - 96) - 8) (n - 96)
    ∧ wd m2 (a + 48 + 8) HEAP_CHUNK_MAGIC ∧ wd m2 (a + 48 + (n - 96) - 16) HEAP_CHUNK_MAGIC.
Proof.
  pose proof create_mapped as Hmx. pose proof current_range as Hcur.
  assert (Hn64 : in_u 64 n) by (unfold in_u; lia).
  destruct (format_run (set_mem (puts (hmem s) all_words) s) (a + 48) (n - 96))
    as (m2 & E2 & Hc2 & W); [aligned|aligned|lia|lia|lia| |].
  { cbn [hmem set_mem]. apply (puts_changes _ _ all_words_aligned). eapply mapped_sub; [exact Hm|lia|lia]. }
  exists m2. split; [|done].
  replace s with (set_mem (puts (hmem s) []) s) at 1 by (by destruct s).
  unfold create_part, part_size, part_magic, post_part_magic, post_part_size, part_next, part_prev.
  do 5 store_step Hmx.
  match goal with |- context [puts _ ?l] => set (l5 := l) end.
  assert (W5 : wd (puts (hmem s) l5) (a + 40) n).
  { apply puts_wd; [unfold l5; forall_aligned| |done|unfold l5; repeat constructor].
    cbn [fmap list_fmap l5 fst].
    repeat (apply NoDup_cons; split; [rewrite ?elem_of_cons, elem_of_nil; lia|]). by apply NoDup_nil. }
  step (part_post_run (set_mem (puts (hmem s) l5) s) a n W5 ltac:(lia)). unfold l5.
  store_step Hmx. match goal with |- context [puts _ ?l] => set (l6 := l) end.
  assert (W6 : wd (puts (hmem s) l6) (a + 40) n).
  { apply puts_wd; [unfold l6; forall_aligned| |done|unfold l6; repeat constructor].
    cbn [fmap list_fmap l6 fst].
    repeat (apply NoDup_cons; split; [rewrite ?elem_of_cons, elem_of_nil; lia|]). by apply NoDup_nil. }
  step (ld_run (set_mem (puts (hmem s) l6) s) (a + 40) n W6). unfold l6.
  do 4 store_step Hmx. change (get_part (set_mem ?m s)) with (Ret (current_part s, set_mem m s)).
  erewrite M_bind_ret; [|reflexivity]. store_step Hmx.
  match goal with |- context [puts _ ?l] => change l with (create_words a n (current_part s)) end.
  erewrite M_bind_ret; [|apply link_part_run; [unfold create_words; forall_aligned|]].
  2: { unfold create_words. repeat (apply Forall_cons; split; [cbn [fst]; lia|]). by apply Forall_nil. }
  erewrite M_bind_ret; [|apply st_puts; [aligned|apply Hmx; lia|]].
  2: { pose proof all_words_aligned as [? [? _]%Forall_app]%Forall_app. by apply Forall_app. }
  rewrite <- app_assoc. fold all_words. unfold sizeof_heap_part, sizeof_heap_part_post.
  rewrite (wrapu_id 64 (n - (48 + 48))) by (unfold in_u; lia).
  replace (n - (48 + 48)) with (n - 96) by lia. by step E2.
Qed.

(** The words written are inside the new part, but for the one that points back. *)
Lemma all_words_place x :
  x ∈ fst <$> all_words →
  (a <= x ∧ x + 8 <= a + n ∧ (x + 8 <= a + 48 ∨ a + n - 48 <= x)) ∨ ∃ p k ps', ps = (p, k) :: ps' ∧ x = p + k - 32.
Proof.
  unfold all_words. rewrite !fmap_app, !elem_of_app. intros [Hx|[Hx|Hx]].
  - left. cbn [fmap list_fmap create_words fst] in Hx. rewrite !elem_of_cons, elem_of_nil in Hx. lia.
  - right. unfold back_word in Hx. destruct ps as [|[p k] ps']; cbn in Hx; [by apply elem_of_nil in Hx|].
    apply list_elem_of_singleton in Hx. by exists p, k, ps'.
  - left. cbn in Hx. apply list_elem_of_singleton in Hx. lia.
Qed.

Section Written.
Context (m2 : mem).
Context (Hc2 : changes (puts (hmem s) all_words) m2
                 [a + 48; a + 48 + 8; a + 48 + (n - 96) - 8; a + 48 + (n - 96) - 16]).
Context (W1 : wd m2 (a + 48) (n - 96)) (W2 : wd m2 (a + 48 + (n - 96) - 8) (n - 96)).
Context (W3 : wd m2 (a + 48 + 8) HEAP_CHUNK_MAGIC) (W4 : wd m2 (a + 48 + (n - 96) - 16) HEAP_CHUNK_MAGIC).

Definition written : list Z :=
  (fst <$> all_words) ++ [a + 48; a + 48 + 8; a + 48 + (n - 96) - 8; a + 48 + (n - 96) - 16].

Lemma written_changes : changes (hmem s) m2 written.
Proof. exact (changes_trans _ _ _ _ _ (puts_changes (hmem s) _ all_words_aligned) Hc2). Qed.

Lemma written_place x :
  x ∈ written → (a <= x ∧ x + 8 <= a + n) ∨ ∃ p k ps', ps = (p, k) :: ps' ∧ x = p + k - 32.
Proof.
  intros [[Hx|Hx]%all_words_place|Hx]%elem_of_app; [left; lia|by right|left].
  rewrite !elem_of_cons, elem_of_nil in Hx. lia.
Qed.

Lemma part_facts p k : (p, k) ∈ ps → 128 <= k ∧ p + k <= 2 ^ 63 ∧ 0 < p ∧ (p + k <= a ∨ a + n <= p).
Proof.
  intros Hpk. pose proof (inv_geometry _ _ _ _ I) as G. destruct (part_shape _ _ G _ _ Hpk) as (? & ? & ? & ?).
  destruct (part_last _ _ G _ _ Hpk) as (e & je & ue & He & E1 & E2).
  pose proof (chunk_bounds _ _ _ _ _ G He). specialize (Hd _ _ Hpk). lia.
Qed.

Lemma written_chunk c j u :
  C !! c = Some (j, u) → 32 <= j ∧ Forall (λ x, x + 8 <= c ∨ c + j <= x) written.
Proof.
  intros Hcj. pose proof (inv_geometry _ _ _ _ I) as G. pose proof (chunk_bounds _ _ _ _ _ G Hcj).
  split; [lia|]. apply Forall_forall.
  destruct (chunk_place _ _ G _ _ _ Hcj) as (p & k & Hpk & H1 & H2 & _).
  intros x [Hx|(q & l & ps' & Eps & ->)]%written_place; [specialize (Hd _ _ Hpk); lia|].
  assert (Hq : (q, l) ∈ ps) by (rewrite Eps; apply list_elem_of_here).
  pose proof (part_chunk _ _ _ _ _ _ _ G Hq Hcj). pose proof (part_facts _ _ Hq). lia.
Qed.

Lemma chunk_wd c j u y v :
  C !! c = Some (j, u) → c <= y → y + 8 <= c + j → wd (hmem s) y v → wd m2 y v.
Proof.
  intros Hcj Hy1 Hy2 Hw. apply (wd_changes _ _ _ _ _ written_changes Hw).
  eapply Forall_impl; [exact (proj2 (written_chunk _ _ _ Hcj))|]. simpl. lia.
Qed.

Lemma part_wd p k y v :
  (p, k) ∈ ps → p <= y → y + 8 <= p + k → (∀ ps', ps = (p, k) :: ps' → y ≠ p + k - 32) →
  wd (hmem s) y v → wd m2 y v.
Proof.
  intros Hpk Hy1 Hy2 Hy3 Hw. apply (wd_changes _ _ _ _ _ written_changes Hw). apply Forall_forall.
  pose proof (part_facts _ _ Hpk).
  intros x [Hx|(q & l & ps' & Eps & ->)]%written_place; [lia|].
  assert (Hq : (q, l) ∈ ps) by (rewrite Eps; apply list_elem_of_here).
  pose proof (part_facts _ _ Hq). intros ->.
  destruct (part_unique _ _ _ _ _ _ (q + l - 32) (inv_geometry _ _ _ _ I) Hpk Hq) as [-> ->]; [lia|lia|].
  by destruct (Hy3 _ Eps).
Qed.

Lemma new_wd y v :
  in_u 64 v → (y, v) ∈ all_words → y + 8 <= a + 48 ∨ a + n - 48 <= y → wd m2 y v.
Proof. intros Hv Hy Ho. apply (wd_changes _ _ _ _ _ Hc2 (all_words_wd _ _ Hv Hy)). forall_lia. Qed.

Lemma create_chain : part_chain m2 0 ((a, n) :: ps).
Proof.
  pose proof I as [G L _ Hp _]. pose proof current_range as Hcur. cbn [part_chain]. split_and!.
  - apply new_wd; [by rewrite <- Hp| |lia]. apply elem_of_app. left. unfold create_words.
    rewrite !elem_of_cons, !pair_equal_spec, Hp. tauto.
  - replace (a + n - 32) with (a + n - 48 + 16) by lia. apply new_wd; [done| |lia].
    apply elem_of_app. right. apply elem_of_app. right. apply list_elem_of_here.
  - pose proof (part_links _ _ _ L) as Hch.
    assert (Hgen : ∀ qs prev, (∀ p k, (p, k) ∈ qs → (p, k) ∈ ps ∧ ∀ ps', ps ≠ (p, k) :: ps') →
      part_chain (hmem s) prev qs → part_chain m2 prev qs).
    { induction qs as [|[q l] qs IH]; intros prev Hq; [done|]. cbn [part_chain].
      destruct (Hq q l (list_elem_of_here _ _)) as [Hql Hne]. pose proof (part_facts _ _ Hql).
      intros (V1 & V2 & V3). split_and!.
      - eapply part_wd; [done|lia|lia|lia|done].
      - eapply part_wd; [done|lia|lia| |done]. intros ps' E. by destruct (Hne ps').
      - apply IH; [|done]. intros p k Hpk. apply Hq. by apply list_elem_of_further. }
    assert (Hps : ps = [] ∨ ∃ q l qs, ps = (q, l) :: qs) by (clear; destruct ps as [|[] ?]; eauto).
    destruct Hps as [Eps|(q & l & qs & Eps)]; [by rewrite Eps|].
    rewrite Eps in Hch |- *. cbn [part_chain] in Hch |- *. destruct Hch as (V1 & V2 & V3).
    assert (Hql : (q, l) ∈ ps) by (rewrite Eps; apply list_elem_of_here). pose proof (part_facts _ _ Hql).
    split_and!.
    + eapply part_wd; [done|lia|lia|lia|done].
    + apply (wd_changes _ _ _ _ _ Hc2); [|forall_lia]. apply all_words_wd; [unfold in_u; lia|].
      apply elem_of_app. right. apply elem_of_app. left. unfold back_word. rewrite Eps. apply list_elem_of_here.
    + apply Hgen; [|done]. intros p k Hpk. split; [rewrite Eps; by apply list_elem_of_further|].
      intros ps' E. rewrite Eps in E. injection E as -> -> _.
      apply list_elem_of_lookup in Hpk as [i Hi]. assert (Hi' : ps !! S i = Some (p, k)) by by rewrite Eps.
      assert (H0' : ps !! 0%nat = Some (p, k)) by by rewrite Eps.
      pose proof (part_sep _ _ G _ _ _ _ _ _ H0' Hi' ltac:(lia)). lia.
Qed.

Lemma create_layout : layout m2 ((a, n) :: ps) (<[a + 48 := (n - 96, true)]> C).
Proof.
  pose proof I as [G L _ _ _]. assert (Hn64 : in_u 64 n) by (unfold in_u; lia).
  split; [..|apply create_chain].
  - intros c j u. destruct (decide (c = a + 48)) as [->|Hne].
    + rewrite lookup_insert_eq. intros [= <- <-]. done.
    + rewrite lookup_insert_ne by done. intros Hcj. destruct (chunk_sizes _ _ _ L _ _ _ Hcj).
      destruct (written_chunk _ _ _ Hcj). split; (eapply chunk_wd; [done|lia|lia|done]).
  - intros c j. destruct (decide (c = a + 48)) as [->|Hne].
    + rewrite lookup_insert_eq. intros [= <-]. done.
    + rewrite lookup_insert_ne by done. intros Hcj. destruct (chunk_used _ _ _ L _ _ Hcj).
      destruct (written_chunk _ _ _ Hcj). split; (eapply chunk_wd; [done|lia|lia|done]).
  - intros p k [[= -> ->]|Hpk]%elem_of_cons; apply written_changes; [done|by apply L].
  - intros p k [[= -> ->]|Hpk]%elem_of_cons.
    + split_and!; (apply new_wd; [done| |lia]); apply elem_of_app; left; unfold create_words;
        rewrite !elem_of_cons, !pair_equal_spec; lia.
    + destruct (part_words _ _ _ L _ _ Hpk) as (V1 & V2 & V3 & V4). pose proof (part_facts _ _ Hpk).
      split_and!; (eapply part_wd; [done|lia|lia|lia|done]).
Qed.

Lemma create_new : C !! (a + 48) = None.
Proof.
  destruct (C !! (a + 48)) as [[j u]|] eqn:E; [|done]. destruct (written_chunk _ _ _ E) as [_ Hf].
  rewrite Forall_forall in Hf. specialize (Hf (a + 48)). 
  assert (a + 48 ∈ written) as Hin by (apply elem_of_app; right; apply list_elem_of_here).
  specialize (Hf Hin). pose proof (chunk_bounds _ _ _ _ _ (inv_geometry _ _ _ _ I) E). lia.
Qed.

Lemma create_bins : bins (set_mem m2 s) (<[a + 48 := (n - 96, true)]> C) B.
Proof.
  eapply bins_away; [apply I|exact written_changes|..].
  - intros c k. destruct (decide (c = a + 48)) as [->|Hne]; [|by rewrite lookup_insert_ne].
    rewrite lookup_insert_eq, create_new. split; by intros [=].
  - intros c k Hck. destruct (written_chunk _ _ _ Hck) as [? Hf].
    eapply Forall_impl; [exact Hf|]. simpl. lia.
Qed.

Lemma create_frame : frame ((a, n) :: ps) C (hmem s) m2.
Proof.
  intros x Hx. apply written_changes. destruct Hx as [(c & j & Hcj & Hx)|Hx].
  - destruct (written_chunk _ _ _ Hcj) as [? Hf]. eapply Forall_impl; [exact Hf|]. simpl. lia.
  - pose proof (Hx a n (list_elem_of_here _ _)). apply Forall_forall.
    intros y [Hy|(p & k & ps' & Eps & ->)]%written_place; [lia|].
    assert (Hpk : (p, k) ∈ ps) by (rewrite Eps; apply list_elem_of_here).
    pose proof (part_facts _ _ Hpk). pose proof (Hx p k (list_elem_of_further _ _ _ Hpk)). lia.
Qed.

End Written.

Lemma create_run :
  ∃ s' B', create_part a n s = Ret ((), s')
    ∧ inv s' ((a, n) :: ps) (<[a + 48 := (n - 96, false)]> C) B'
    ∧ frame ((a, n) :: ps) C (hmem s) (hmem s').
Proof.
  destruct create_writes as (m2 & E & Hc2 & W1 & W2 & W3 & W4). pose proof I as [G _ Bi _ Hbl].
  assert (I2 : inv (set_part a (set_mem m2 s)) ((a, n) :: ps) (<[a + 48 := (n - 96, true)]> C) B).
  { split; [by apply geometry_create|by apply create_layout| |done|done].
    destruct (create_bins m2 Hc2). by split. }
  destruct (insert_run _ _ _ _ _ _ I2 (lookup_insert_eq _ _ _)) as (s' & B' & E' & I' & F').
  rewrite insert_insert_eq in I', F'. rewrite insert_blind in E'.
  destruct (heap_insert_chunk (a + 48) (set_mem m2 s)) as [[[] s3]| |] eqn:E3; [|done..].
  injection E' as <-. exists (set_part a s3), B'. split_and!; [|done|].
  - rewrite E. by step E3.
  - eapply frame_trans; [by apply create_frame|]. cbn [hmem set_part set_mem] in F' |- *.
    eapply frame_weaken; [exact F'|]. intros c k Hck. rewrite lookup_insert_ne; [done|].
    intros <-. pose proof create_new. congruence.
Qed.

End Create.

(** ** Extending the current part *)

Definition extend_words (p k : Z) : list (Z * Z) :=
  let q := p + k - 48 in
  [(p + 40, k); (q + 8, HEAP_PART_MAGIC); (q + 16, 0); (q, k); (q + 24, 0); (q + 32, 0); (q + 40, 0)].

Section Extend.
Context (s : heap) (ps : list (Z * Z)) (C C2 : chunks) (B : list (list Z)) (p k n b0 n0 : Z).
Context (I : inv s ((p, k) :: ps) C B) (G2 : geometry ((p, k + n) :: ps) C2).
Context (H128 : 128 <= n) (Hm : mapped (hmem s) (p + k) (Z.to_nat n)).
Context (Hb : C2 !! b0 = Some (n0, true)) (Eb : b0 + n0 = p + k + n - 48) (Hb0 : b0 <= p + k - 48).
Context (Hold : ∀ c r, c ≠ b0 → C2 !! c = Some r → C !! c = Some r).
Context (Hfree : ∀ c j, C !! c = Some (j, false) → C2 !! c = Some (j, false)).

Lemma extend_facts :
  128 <= k ∧ 0 < p ∧ p + k + n <= 2 ^ 63 ∧ p mod 8 = 0 ∧ k mod 8 = 0 ∧ n mod 8 = 0 ∧ p + 48 <= b0.
Proof.
  pose proof (inv_geometry _ _ _ _ I) as G.
  destruct (part_shape _ _ G p k (list_elem_of_here _ _)) as (P1 & P2 & P3 & P4).
  destruct (part_shape _ _ G2 p (k + n) (list_elem_of_here _ _)) as (Q1 & Q2 & Q3 & Q4).
  destruct (part_last _ _ G p k (list_elem_of_here _ _)) as (e & je & ue & He & E1 & E2).
  pose proof (chunk_bounds _ _ _ _ _ G He).
  pose proof (part_chunk _ _ p (k + n) _ _ _ G2 (list_elem_of_here _ _) Hb).
  pose proof (chunk_bounds _ _ _ _ _ G2 Hb). split_and!; try lia; aligned.
Qed.

Lemma extend_mapped : mapped (hmem s) p (Z.to_nat (k + n)).
Proof.
  pose proof extend_facts. intros i Hi. destruct (decide (Z.of_nat i < k)) as [Hlt|Hge].
  - apply (part_mapped _ _ _ (inv_layout _ _ _ _ I) p k (list_elem_of_here _ _)). lia.
  - replace (p + Z.of_nat i) with (p + k + Z.of_nat (i - Z.to_nat k)) by lia. apply Hm. lia.
Qed.

Lemma extend_word_mapped x : p <= x → x + 8 <= p + (k + n) → mapped (hmem s) x 8.
Proof. intros H1 H2. pose proof extend_facts. eapply mapped_sub; [exact extend_mapped|lia|lia]. Qed.

Lemma extend_aligned : Forall (λ x, x.1 mod 8 = 0) (extend_words p (k + n)).
Proof. pose proof extend_facts. unfold extend_words. forall_aligned. Qed.

Lemma extend_nodup : NoDup (fst <$> extend_words p (k + n)).
Proof.
  pose proof extend_facts. cbn [fmap list_fmap extend_words fst].
  repeat (apply NoDup_cons; split; [rewrite ?elem_of_cons, elem_of_nil; lia|]). by apply NoDup_nil.
Qed.

Definition extend_written : list Z :=
  (fst <$> extend_words p (k + n)) ++ [b0; b0 + 8; b0 + n0 - 8; b0 + n0 - 16].

Lemma extend_writes :
  ∃ m2, extend_rest p 0 n b0 n0 s = heap_insert_chunk b0 (set_mem m2 s)
    ∧ changes (hmem s) m2 extend_written
    ∧ (∀ x v, in_u 64 v → (x, v) ∈ extend_words p (k + n) → wd m2 x v)
    ∧ wd m2 b0 n0 ∧ wd m2 (b0 + n0 - 8) n0
    ∧ wd m2 (b0 + 8) HEAP_CHUNK_MAGIC ∧ wd m2 (b0 + n0 - 16) HEAP_CHUNK_MAGIC.
Proof.
  pose proof extend_facts as (F1 & F2 & F3 & F4 & F5 & F6 & F7). pose proof extend_word_mapped as Hmx.
  pose proof (chunk_bounds _ _ _ _ _ G2 Hb) as (B1 & B2 & B3 & B4 & B5 & _).
  destruct (format_run (set_mem (puts (hmem s) (extend_words p (k + n))) s) b0 n0)
    as (m2 & E2 & Hc2 & W); [done..| |].
  { cbn [hmem set_mem]. apply (puts_changes _ _ extend_aligned). eapply mapped_sub; [exact extend_mapped|lia|lia]. }
  cbn [hmem set_mem] in Hc2. exists m2. split_and!; [| | |apply W..].
  - destruct (part_words _ _ _ (inv_layout _ _ _ _ I) p k (list_elem_of_here _ _)) as (_ & Wk & _).
    assert (Hkn : in_u 64 (k + n)) by (unfold in_u; lia).
    unfold extend_rest, part_size, post_part_magic, part_prev, post_part_size.
    step (ld_run s (p + 40) _ Wk). rewrite (wrapu_id 64 (k + n)) by done.
    replace s with (set_mem (puts (hmem s) []) s) at 1 by (by destruct s).
    store_step Hmx.
    assert (W1 : wd (puts (hmem s) [(p + 40, k + n)]) (p + 40) (k + n)) by (apply wd_put_eq; [aligned|done]).
    step (part_post_run (set_mem (puts (hmem s) [(p + 40, k + n)]) s) p (k + n) W1 ltac:(lia)).
    do 2 store_step Hmx. match goal with |- context [puts _ ?l] => set (l3 := l) end.
    assert (W3 : wd (puts (hmem s) l3) (p + 40) (k + n)).
    { apply puts_wd; [unfold l3; forall_aligned| |done|apply list_elem_of_here].
      cbn [fmap list_fmap l3 fst].
      repeat (apply NoDup_cons; split; [rewrite ?elem_of_cons, elem_of_nil; lia|]). by apply NoDup_nil. }
    step (ld_run (set_mem (puts (hmem s) l3) s) (p + 40) _ W3). unfold l3. do 4 store_step Hmx.
    by step E2.
  - exact (changes_trans _ _ _ _ _ (puts_changes (hmem s) _ extend_aligned) Hc2).
  - intros x v Hv Hx. apply (wd_changes _ _ _ _ _ Hc2).
    + apply puts_wd; [apply extend_aligned|apply extend_nodup|done|done].
    + unfold extend_words in Hx. rewrite !elem_of_cons, !pair_equal_spec, elem_of_nil in Hx. forall_lia.
Qed.

Lemma extend_place x : x ∈ extend_written → x = p + 40 ∨ (b0 <= x ∧ x + 8 <= p + (k + n)).
Proof.
  pose proof extend_facts. pose proof (chunk_bounds _ _ _ _ _ G2 Hb). unfold extend_written.
  cbn [fmap list_fmap extend_words fst app]. rewrite !elem_of_cons, elem_of_nil. lia.
Qed.

Lemma extend_chunk c j u :
  C2 !! c = Some (j, u) → c ≠ b0 → 32 <= j ∧ Forall (λ x, x + 8 <= c ∨ c + j <= x) extend_written.
Proof.
  intros Hc Hne. pose proof extend_facts. pose proof (chunk_bounds _ _ _ _ _ G2 Hc). split; [lia|].
  pose proof (chunk_sep _ _ G2 _ _ _ _ _ _ Hc Hb Hne).
  pose proof (part_chunk _ _ p (k + n) _ _ _ G2 (list_elem_of_here _ _) Hc).
  apply Forall_forall. intros x [->|Hx]%extend_place; lia.
Qed.

Lemma extend_tail_part q l :
  (q, l) ∈ ps → 128 <= l ∧ (p + (k + n) <= q ∨ q + l <= p).
Proof.
  intros Hq. destruct (part_last _ _ G2 q l) as (e & je & ue & He & E1 & E2).
  { by apply list_elem_of_further. }
  pose proof (chunk_bounds _ _ _ _ _ G2 He). split; [lia|]. apply list_elem_of_lookup in Hq as [i Hi].
  by apply (part_sep _ _ G2 0 (S i)).
Qed.

Section Written.
Context (m2 : mem) (Hc : changes (hmem s) m2 extend_written).
Context (Hw : ∀ x v, in_u 64 v → (x, v) ∈ extend_words p (k + n) → wd m2 x v).
Context (W1 : wd m2 b0 n0) (W2 : wd m2 (b0 + n0 - 8) n0).
Context (W3 : wd m2 (b0 + 8) HEAP_CHUNK_MAGIC) (W4 : wd m2 (b0 + n0 - 16) HEAP_CHUNK_MAGIC).

Lemma extend_chunk_wd c j u y v :
  C2 !! c = Some (j, u) → c ≠ b0 → c <= y → y + 8 <= c + j → wd (hmem s) y v → wd m2 y v.
Proof.
  intros Hcj Hne H1 H2 Hv. apply (wd_changes _ _ _ _ _ Hc Hv).
  eapply Forall_impl; [exact (proj2 (extend_chunk _ _ _ Hcj Hne))|]. simpl. lia.
Qed.

Lemma extend_part_wd q l y v :
  (q, l) ∈ ps → q <= y → y + 8 <= q + l → wd (hmem s) y v → wd m2 y v.
Proof.
  intros Hq H1 H2 Hv. pose proof (extend_tail_part _ _ Hq). pose proof extend_facts.
  apply (wd_changes _ _ _ _ _ Hc Hv). apply Forall_forall. intros x [->|Hx]%extend_place; lia.
Qed.

Lemma extend_chain qs prev :
  (∀ q l, (q, l) ∈ qs → (q, l) ∈ ps) → part_chain (hmem s) prev qs → part_chain m2 prev qs.
Proof.
  revert prev. induction qs as [|[q l] qs IH]; intros prev Hqs; [done|]. cbn [part_chain].
  intros (V1 & V2 & V3). pose proof (Hqs _ _ (list_elem_of_here _ _)) as Hq.
  pose proof (extend_tail_part _ _ Hq). split_and!.
  - eapply extend_part_wd; [done|lia|lia|done].
  - eapply extend_part_wd; [done|lia|lia|done].
  - apply IH; [|done]. intros ? ? H'. apply Hqs. by apply list_elem_of_further.
Qed.

Lemma extend_layout : layout m2 ((p, k + n) :: ps) C2.
Proof.
  pose proof I as [G L _ _ _]. pose proof extend_facts as (F1 & F2 & F3 & _ & _ & _ & F7).
  pose proof (part_links _ _ _ L) as (V1 & _ & V3). assert (Hkn : in_u 64 (k + n)) by (unfold in_u; lia).
  split.
  - intros c j u Hcj. destruct (decide (c = b0)) as [->|Hne]; [rewrite Hb in Hcj; by injection Hcj as <- <-|].
    destruct (chunk_sizes _ _ _ L _ _ _ (Hold _ _ Hne Hcj)). destruct (extend_chunk _ _ _ Hcj Hne).
    split; (eapply extend_chunk_wd; [done|done|lia|lia|done]).
  - intros c j Hcj. destruct (decide (c = b0)) as [->|Hne]; [rewrite Hb in Hcj; by injection Hcj as <-|].
    destruct (chunk_used _ _ _ L _ _ (Hold _ _ Hne Hcj)). destruct (extend_chunk _ _ _ Hcj Hne).
    split; (eapply extend_chunk_wd; [done|done|lia|lia|done]).
  - intros q l [[= -> ->]|Hq]%elem_of_cons; apply Hc; [apply extend_mapped|].
    apply L. by apply list_elem_of_further.
  - destruct (part_words _ _ _ L p k (list_elem_of_here _ _)) as (U1 & _).
    intros q l [[= -> ->]|Hq]%elem_of_cons.
    + split_and!.
      * apply (wd_changes _ _ _ _ _ Hc U1). apply Forall_forall. intros x [->|Hx]%extend_place; lia.
      * apply Hw; [done|]. apply list_elem_of_here.
      * apply Hw; [done|]. unfold extend_words. rewrite !elem_of_cons, !pair_equal_spec. lia.
      * apply Hw; [done|]. unfold extend_words. rewrite !elem_of_cons, !pair_equal_spec. lia.
    + destruct (part_words _ _ _ L q l) as (T1 & T2 & T3 & T4); [by apply list_elem_of_further|].
      pose proof (extend_tail_part _ _ Hq). split_and!; (eapply extend_part_wd; [done|lia|lia|done]).
  - cbn [part_chain]. split_and!.
    + apply (wd_changes _ _ _ _ _ Hc V1). apply Forall_forall. intros x [->|Hx]%extend_place; lia.
    + apply Hw; [done|]. unfold extend_words. rewrite !elem_of_cons, !pair_equal_spec. lia.
    + by apply extend_chain.
Qed.

Lemma extend_bins : bins (set_mem m2 s) C2 B.
Proof.
  eapply bins_away; [apply I|exact Hc|..].
  - intros c j. split; [|apply Hfree]. intros Hcj. apply Hold; [congruence|done].
  - intros c j Hcj%Hfree. destruct (extend_chunk _ _ _ Hcj) as [? Hf]; [congruence|].
    eapply Forall_impl; [exact Hf|]. simpl. lia.
Qed.

Lemma extend_frame C0 :
  (∀ c j, C0 !! c = Some (j, true) → C2 !! c = Some (j, true) ∧ c ≠ b0) →
  frame ((p, k + n) :: ps) C0 (hmem s) m2.
Proof.
  intros H0 x Hx. apply Hc. pose proof extend_facts. destruct Hx as [(c & j & Hcj & Hx)|Hx].
  - destruct (H0 _ _ Hcj) as [Hcj2 Hne]. destruct (extend_chunk _ _ _ Hcj2 Hne) as [_ Hf].
    eapply Forall_impl; [exact Hf|]. simpl. lia.
  - pose proof (Hx p (k + n) (list_elem_of_here _ _)).
    apply Forall_forall. intros y [->|Hy]%extend_place; lia.
Qed.

End Written.

Lemma extend_rest_run C0 :
  (∀ c j, C0 !! c = Some (j, true) → C2 !! c = Some (j, true) ∧ c ≠ b0) →
  ∃ s' B', extend_rest p 0 n b0 n0 s = Ret ((), s')
    ∧ inv s' ((p, k + n) :: ps) (<[b0 := (n0, false)]> C2) B'
    ∧ frame ((p, k + n) :: ps) C0 (hmem s) (hmem s').
Proof.
  intros H0. destruct extend_writes as (m2 & E & Hc & Hw & W1 & W2 & W3 & W4).
  assert (I2 : inv (set_mem m2 s) ((p, k + n) :: ps) C2 B).
  { split; [done|by apply extend_layout|by apply extend_bins|apply I|apply I]. }
  destruct (insert_run _ _ _ _ _ _ I2 Hb) as (s' & B' & E' & I' & F').
  exists s', B'. split_and!; [by rewrite E|done|].
  eapply frame_trans; [by apply extend_frame|]. eapply frame_weaken; [exact F'|].
  intros c j Hcj. destruct (H0 _ _ Hcj) as [Hcj2 Hne]. by rewrite lookup_insert_ne.
Qed.

End Extend.

(** With larger parts less is protected. *)
Lemma frame_parts ps ps' C m m' :
  frame ps C m m' →
  (∀ x, (∀ p k, (p, k) ∈ ps' → x < p ∨ p + k <= x) → ∀ p k, (p, k) ∈ ps → x < p ∨ p + k <= x) →
  frame ps' C m m'.
Proof. intros HF Hx x [Hu|Ho]; apply HF; [by left|right]. by apply Hx. Qed.

Lemma last_chunk_run s p k ps C B :
  inv s ((p, k) :: ps) C B →
  ∃ c j u, C !! c = Some (j, u) ∧ c + j = p + k - 48 ∧ heap_part_last_chunk p s = Ret (c, s).
Proof.
  intros I. pose proof I as [G L _ _ _].
  destruct (part_last _ _ G p k (list_elem_of_here _ _)) as (c & j & u & Hc & H1 & H2).
  destruct (part_shape _ _ G p k (list_elem_of_here _ _)) as (_ & _ & P3 & P4).
  destruct (part_words _ _ _ L p k (list_elem_of_here _ _)) as (_ & Wk & _).
  pose proof (chunk_bounds _ _ _ _ _ G Hc). destruct (chunk_sizes _ _ _ L _ _ _ Hc) as [_ Wc].
  destruct (magic_words _ _ _ _ _ _ _ I Hc) as (_ & w & _ & Ww & _ & Ew & _).
  exists c, j, u. split_and!; [done..|]. unfold heap_part_last_chunk, sizeof_heap_chunk_post.
  step (part_post_run s p k Wk ltac:(lia)). rewrite (wrapu_id 64 (p + k - 48 - 16)) by (unfold in_u; lia).
  unfold post_chunk_magic. replace (p + k - 48 - 16) with (c + j - 16) by lia.
  step (ld_run s _ _ Ww). rewrite Ew. unfold heap_post_to_chunk, post_chunk_size, sizeof_heap_chunk.
  replace (c + j - 16 + 8) with (c + j - 8) by lia. step (ld_run s _ _ Wc).
  rewrite wrapu_id by (unfold in_u; lia). unfold mret, M_ret. do 2 f_equal. lia.
Qed.

(** What growing yields: the parts [ps'] and an unused chunk of at least [n] bytes. *)
Definition grown (ps' : list (Z * Z)) (C : chunks) (n : Z) (s s' : heap) : Prop :=
  ∃ C' B' b j, inv s' ps' C' B' ∧ used_in C C' ∧ used_in C' C ∧ frame ps' C (hmem s) (hmem s')
    ∧ C' !! b = Some (j, false) ∧ n <= j ∧ (coalesced C → coalesced C').

(** An unused chunk added between used ones. *)
Lemma coalesced_add C b n :
  C !! b = None → 0 < n → (∀ j, C !! (b + n) ≠ Some (j, false)) →
  (∀ c j, C !! c = Some (j, false) → c + j ≠ b) → coalesced C → coalesced (<[b := (n, false)]> C).
Proof.
  intros Hb Hn Hr Hl Hco c k j. destruct (decide (c = b)) as [->|Hne].
  - rewrite lookup_insert_eq. intros [= <-]. rewrite lookup_insert_ne by lia. apply Hr.
  - rewrite lookup_insert_ne by done. intros Hc.
    rewrite lookup_insert_ne by (intros E; by apply (Hl c k)). by apply Hco.
Qed.

Section ExtendPart.
Context (s : heap) (ps : list (Z * Z)) (C : chunks) (B : list (list Z)) (p k n : Z).
Context (I : inv s ((p, k) :: ps) C B).
Context (Hn : n mod 32 = 0) (H128 : 128 <= n) (H63 : p + k + n <= 2 ^ 63).
Context (Hd : ∀ q l, (q, l) ∈ ps → q + l <= p + k ∨ p + k + n <= q).
Context (Hm : mapped (hmem s) (p + k) (Z.to_nat n)).

Lemma extend_outside x :
  (∀ q l, (q, l) ∈ (p, k + n) :: ps → x < q ∨ q + l <= x) →
  ∀ q l, (q, l) ∈ (p, k) :: ps → x < q ∨ q + l <= x.
Proof.
  intros Hx q l [[= -> ->]|Hq]%elem_of_cons; [|apply Hx; by apply list_elem_of_further].
  specialize (Hx p (k + n) (list_elem_of_here _ _)). lia.
Qed.

(** No chunk starts in the new room. *)
Lemma extend_none c j u : C !! c = Some (j, u) → c < p + k - 48 ∨ p + k + n <= c.
Proof.
  intros Hc. pose proof (inv_geometry _ _ _ _ I) as G. pose proof (chunk_bounds _ _ _ _ _ G Hc).
  destruct (chunk_place _ _ G _ _ _ Hc) as (q & l & [[= -> ->]|Hq]%elem_of_cons & H1 & H2 & _); [lia|].
  specialize (Hd _ _ Hq). apply list_elem_of_lookup in Hq as [i Hi].
  pose proof (part_sep _ _ G 0 (S i) p k q l eq_refl Hi ltac:(lia)). lia.
Qed.

Lemma extend_used c j :
  C !! c = Some (j, true) → c + j = p + k - 48 →
  ∃ s', extend_rest p 0 n (p + k - 48) n s = Ret ((), s') ∧ grown ((p, k + n) :: ps) C n s s'.
Proof.
  intros Hc E. pose proof (inv_geometry _ _ _ _ I) as G. pose proof (chunk_bounds _ _ _ _ _ G Hc).
  assert (Hnone : C !! (p + k - 48) = None).
  { destruct (C !! (p + k - 48)) as [[i w]|] eqn:E'; [|done]. pose proof (extend_none _ _ _ E'). lia. }
  destruct (extend_rest_run s ps C (<[p + k - 48 := (n, true)]> C) B p k n (p + k - 48) n I
    (geometry_extend _ _ _ _ _ _ G Hn ltac:(lia) H63 Hd) H128 Hm (lookup_insert_eq _ _ _) ltac:(lia) ltac:(lia))
    with C as (s' & B' & Es & I' & F').
  - intros d r Hne. by rewrite lookup_insert_ne.
  - intros d i Hdi. rewrite lookup_insert_ne by congruence. done.
  - intros d i Hdi. rewrite lookup_insert_ne by congruence. split; [done|congruence].
  - rewrite insert_insert_eq in I'. exists s'. split; [done|].
    exists (<[p + k - 48 := (n, false)]> C), B', (p + k - 48), n.
    split_and!; [done|..|apply lookup_insert_eq|lia|].
    + intros d i Hdi. rewrite lookup_insert_ne by congruence. done.
    + intros d i. destruct (decide (d = p + k - 48)) as [->|Hne]; [by rewrite lookup_insert_eq|].
      by rewrite lookup_insert_ne.
    + done.
    + apply coalesced_add; [done|lia| |].
      * intros i Hi. pose proof (extend_none _ _ _ Hi). lia.
      * intros d i Hdi Ed. assert (d = c) as ->; [|congruence].
        eapply (left_unique _ C); [done|done|done|lia].
Qed.

Lemma extend_unused c j :
  C !! c = Some (j, false) → c + j = p + k - 48 →
  ∃ s1 s', heap_remove_chunk c s = Ret ((), s1) ∧ ld c s1 = Ret (j, s1)
    ∧ extend_rest p 0 n c (n + j) s1 = Ret ((), s') ∧ grown ((p, k + n) :: ps) C n s s'.
Proof.
  intros Hc E. pose proof (inv_geometry _ _ _ _ I) as G. pose proof (chunk_bounds _ _ _ _ _ G Hc) as HB.
  destruct (remove_run _ _ _ _ _ _ I Hc) as (s1 & B1 & E1 & I1 & F1).
  set (C1 := <[c := (j, true)]> C) in *. pose proof (inv_geometry _ _ _ _ I1) as G1.
  assert (Hc1 : C1 !! c = Some (j, true)) by apply lookup_insert_eq.
  assert (Hnone : C1 !! (p + k - 48) = None).
  { unfold C1. rewrite lookup_insert_ne by lia.
    destruct (C !! (p + k - 48)) as [[i w]|] eqn:E'; [|done]. pose proof (extend_none _ _ _ E'). lia. }
  assert (G2 : geometry ((p, k + n) :: ps) (<[c := (n + j, true)]> C1)).
  { pose proof (geometry_extend _ _ _ _ _ true G1 Hn ltac:(lia) H63 Hd) as Ge.
    assert (Hce : <[p + k - 48 := (n, true)]> C1 !! (c + j) = Some (n, true)) by (rewrite E; apply lookup_insert_eq).
    pose proof (geometry_joined _ _ c j n true true true Ge) as Gj. unfold joined in Gj.
    rewrite E, delete_insert_id, (Z.add_comm j n) in Gj by done. apply Gj; [by rewrite lookup_insert_ne by lia|apply lookup_insert_eq]. }
  assert (Hm1 : mapped (hmem s1) (p + k) (Z.to_nat n)).
  { intros i Hi. rewrite (F1 (p + k + Z.of_nat i)); [by apply Hm|]. right.
    intros q l [[= -> ->]|Hq]%elem_of_cons; [lia|]. specialize (Hd _ _ Hq).
    apply list_elem_of_lookup in Hq as [i' Hi']. pose proof (part_sep _ _ G 0 (S i') p k q l eq_refl Hi' ltac:(lia)). lia. }
  destruct (extend_rest_run s1 ps C1 _ B1 p k n c (n + j) I1 G2 H128 Hm1 (lookup_insert_eq _ _ _) ltac:(lia) ltac:(lia))
    with C as (s' & B' & Es & I' & F').
  - intros d r Hne. by rewrite lookup_insert_ne.
  - intros d i Hdi. rewrite lookup_insert_ne; [done|]. intros ->. unfold C1 in Hdi. by rewrite lookup_insert_eq in Hdi.
  - intros d i Hdi. unfold C1. rewrite !lookup_insert_ne by congruence. split; [done|congruence].
  - unfold C1 in I'. rewrite !insert_insert_eq in I'. exists s1, s'.
    split_and!; [done|by eapply (size_run s1)|done|].
    assert (A : absorbed C (<[c := (n + j, false)]> C) c (n + j) j []).
    { split; [done|apply lookup_insert_eq|by intros d ?%elem_of_nil|]. intros d Hne _. by rewrite lookup_insert_ne. }
    destruct (absorbed_used _ _ _ _ _ _ A).
    exists (<[c := (n + j, false)]> C), B', c, (n + j). split_and!; [done..| |apply lookup_insert_eq|lia|].
    + eapply frame_trans; [|exact F']. eapply frame_parts; [exact F1|apply extend_outside].
    + intros Hco. eapply (absorbed_coalesced C _ c c (n + j) j []); [done|by left|lia|..].
      * intros i Hi. pose proof (extend_none _ _ _ Hi). lia.
      * intros d i Hdi Ed. apply (Hco d i j Hdi). by rewrite Ed.
      * intros d i x _ _. apply Hco.
Qed.

Lemma extend_run :
  ∃ s', extend_part p (p + k) n s = Ret ((), s') ∧ grown ((p, k + n) :: ps) C n s s'.
Proof.
  pose proof I as [G L _ _ _]. destruct (part_links _ _ _ L) as (_ & Wp & _).
  destruct (part_shape _ _ G p k (list_elem_of_here _ _)) as (_ & _ & P3 & P4).
  destruct (part_words _ _ _ L p k (list_elem_of_here _ _)) as (_ & Wk & _).
  destruct (last_chunk_run _ _ _ _ _ _ I) as (c & j & u & Hc & E & El).
  pose proof (chunk_bounds _ _ _ _ _ G Hc).
  unfold extend_part. step (part_post_run s p k Wk ltac:(pose proof (part_last _ _ G p k (list_elem_of_here _ _)) as (e & je & ue & He & ? & ?); lia)).
  unfold part_prev. replace (p + k - 48 + 16) with (p + k - 32) by lia. step (ld_run s _ _ Wp).
  step El. step (is_unused_run _ _ _ _ _ _ _ I Hc). unfold sizeof_heap_part_post. destruct u; cbn [negb].
  - destruct (extend_used _ _ Hc E) as (s' & Es & Hg). exists s'. split; [exact Es|done].
  - destruct (extend_unused _ _ Hc E) as (s1 & s' & E1 & E2 & E3 & Hg). exists s'. split; [|done].
    erewrite M_bind_ret; [|step E1; unfold chunk_size; step E2; reflexivity].
    rewrite wrapu_id by (unfold in_u; lia). exact E3.
Qed.

End ExtendPart.

End HeapGrow.
