(* ===== verification/HeapSpec.v ===== *)
(** * What the heap promises

    [malloc], [free], [realloc], [calloc] and [reallocarray] against an abstract
    heap, a map from the addresses of the blocks given out to their sizes. *)

From S2P Require Import Prelude Memory MemFuncs Heap HeapInv HeapOps HeapGrow.
From stdpp Require Import base list numbers gmap.
From Stdlib Require Import ZArith Lia.
Import Mem MemFuncs Heap HeapInv HeapOps HeapGrow.

#[local] Open Scope Z_scope.

Module HeapSpec.

(** ** The system

    Pages are a multiple of 32 bytes and not absurdly large; [mmap] maps whole
    pages of the lower half of the address space that were not mapped. *)
Class System (page_size : Z) (mmap : mem → Z → Z → option Z) : Prop := {
  page_size_32 : page_size mod 32 = 0;
  page_size_range : 32 <= page_size <= 2 ^ 32;
  mmap_fresh m hint n a : mmap m hint n = Some a → ∀ x, a <= x < a + n → m !! x = None;
  mmap_aligned m hint n a : mmap m hint n = Some a → a mod page_size = 0 ∧ 0 < a;
  mmap_range m hint n a : mmap m hint n = Some a → a + n <= 2 ^ 63
}.

Section Spec.
Context (page_size : Z) (mmap : mem → Z → Z → option Z) `{Sys : !System page_size mmap}.

(** ** Growing *)

Lemma multiple_32 x : x mod page_size = 0 → x mod 32 = 0.
Proof.
  pose proof page_size_32. pose proof page_size_range. intros [q ->]%Z.mod_divide; [|lia].
  apply Z.mod_divide; [lia|]. apply Z.divide_mul_r. by apply Z.mod_divide.
Qed.

Lemma expansion_bytes_spec r part_bytes :
  32 <= r <= 2 ^ 63 → 0 <= part_bytes <= 2 ^ 63 →
  let n := expansion_bytes page_size r part_bytes in n mod 32 = 0 ∧ r + 96 <= n.
Proof.
  intros Hr Hp n. pose proof page_size_range as Hps.
  unfold n, expansion_bytes, sizeof_heap_part, sizeof_heap_part_post.
  rewrite (wrapu_id 64 (48 + r + 48)) by (unfold in_u; lia). set (x := 48 + r + 48).
  set (pages := x / page_size + _).
  assert (Hpages : x <= pages * page_size <= x + page_size).
  { unfold pages. pose proof (Z.div_mod x page_size ltac:(lia)).
    pose proof (Z.mod_pos_bound x page_size ltac:(lia)). destruct (Z.eqb_spec (x mod page_size) 0); lia. }
  assert (Hp64 : 0 < pages < 2 ^ 64) by nia. rewrite (wrapu_id 64 pages) by (unfold in_u; lia).
  set (mn := if 256 <? _ then _ else _). assert (0 <= mn <= 256).
  { unfold mn. pose proof (Z.div_pos part_bytes page_size). destruct (Z.ltb_spec 256 (part_bytes / page_size)); lia. }
  set (mn' := if mn <? 4 then 4 else mn). assert (4 <= mn' <= 256) by (unfold mn'; destruct (Z.ltb_spec mn 4); lia).
  set (k := if pages <? mn' then mn' else pages).
  assert (Hk : pages <= k ∧ k * page_size <= 2 ^ 63 + 2 ^ 45 ∧ 0 <= k).
  { unfold k. destruct (Z.ltb_spec pages mn'); nia. }
  rewrite (wrapu_id 64 (k * page_size)) by (unfold in_u; nia).
  split; [apply multiple_32, Z.mod_mul; lia|nia].
Qed.

(** A new mapping is apart from the parts. *)
Lemma fresh_parts s ps C B a n :
  inv s ps C B → 0 < n → (∀ x, a <= x < a + n → hmem s !! x = None) →
  ∀ p k, (p, k) ∈ ps → p + k <= a ∨ a + n <= p.
Proof.
  intros [G L _ _ _] Hn Hf p k Hp. destruct (part_last _ _ G _ _ Hp) as (e & je & ue & He & E1 & E2).
  pose proof (chunk_bounds _ _ _ _ _ G He). pose proof (part_mapped _ _ _ L _ _ Hp) as Hm.
  destruct (Z.lt_ge_cases a (p + k)) as [H1|]; [|by left]. destruct (Z.lt_ge_cases p (a + n)) as [H2|]; [|by right].
  exfalso. set (x := Z.max a p). assert (Hx : is_Some (hmem s !! x)).
  { eapply mapped_lookup; [exact Hm|unfold x; lia]. }
  rewrite Hf in Hx by (unfold x; lia). by destruct Hx.
Qed.

Lemma map_frame ps C m a n :
  (∀ c j, C !! c = Some (j, true) → ∀ x, c + 16 <= x < c + j - 16 → is_Some (m !! x)) →
  (∀ x, a <= x < a + n → m !! x = None) → (∃ p k, (p, k) ∈ ps ∧ p <= a ∧ a + n <= p + k) →
  frame ps C m (map_bytes a n m).
Proof.
  intros Hu Hf (p & k & Hp & H1 & H2) x [(c & j & Hc & Hx)|Hx].
  - apply (map_bytes_extends a n m Hf). by eapply Hu.
  - unfold map_bytes. apply mem_write_out. rewrite length_replicate. specialize (Hx _ _ Hp). lia.
Qed.

Lemma used_mapped s ps C B c j u x :
  inv s ps C B → C !! c = Some (j, u) → c <= x < c + j → is_Some (hmem s !! x).
Proof.
  intros [G L _ _ _] Hc Hx. destruct (chunk_place _ _ G _ _ _ Hc) as (p & k & Hp & H1 & H2 & _).
  eapply mapped_lookup; [exact (part_mapped _ _ _ L _ _ Hp)|lia].
Qed.

Lemma grow_run s ps C B n cur hint :
  inv s ps C B → n mod 32 = 0 → 128 <= n →
  cur = default 0 (fst <$> head ps) →
  (∀ p k ps', ps = (p, k) :: ps' → hint = p + k) →
  match mmap (hmem s) hint n with
  | None => grow mmap cur hint n s = Ret (false, s)
  | Some a => ∃ s' ps', grow mmap cur hint n s = Ret (true, s') ∧ grown ps' C (n - 96) s s'
      ∧ (∀ x, is_Some (hmem s !! x) → (∀ p k, (p, k) ∈ ps → x < p ∨ p + k <= x) →
              ∀ p k, (p, k) ∈ ps' → x < p ∨ p + k <= x)
  end.
Proof.
  intros I Hn H128 Hcur Hhint. unfold grow. destruct (mmap (hmem s) hint n) as [a|] eqn:Em; [|done].
  pose proof (mmap_fresh _ _ _ _ Em) as Hf. pose proof (mmap_aligned _ _ _ _ Em) as [Ha H0].
  apply multiple_32 in Ha. pose proof (mmap_range _ _ _ _ Em) as H63.
  pose proof (fresh_parts _ _ _ _ a n I ltac:(lia) Hf) as Hd.
  set (m1 := map_bytes a n (hmem s)).
  pose proof (inv_extends _ m1 _ _ _ I (map_bytes_extends a n _ Hf)) as I1.
  assert (Hm1 : mapped (hmem (set_mem m1 s)) a (Z.to_nat n)) by apply map_bytes_mapped.
  assert (Hmf : ∀ qs, (∃ p k, (p, k) ∈ qs ∧ p <= a ∧ a + n <= p + k) → frame qs C (hmem s) m1).
  { intros qs. apply map_frame; [|done]. intros c j Hc x Hx. eapply used_mapped; [done..|lia]. }
  assert (Hfresh : ∀ x, is_Some (hmem s !! x) → x < a ∨ a + n <= x).
  { intros x Hx. destruct (decide (a <= x < a + n)) as [Hin|]; [|lia]. rewrite Hf in Hx by done. by destruct Hx. }
  assert (Hps : ps = [] ∨ ∃ p k ps', ps = (p, k) :: ps') by (clear; destruct ps as [|[] ?]; eauto).
  destruct (negb (cur =? NULL) && (a =? hint)) eqn:Eb.
  - b2p. destruct Hps as [->|(p & k & ps' & ->)]; [by subst cur|]. cbn in Hcur. subst cur a.
    specialize (Hhint _ _ _ eq_refl). subst hint.
    destruct (extend_run _ _ _ _ _ _ n I1 Hn H128 ltac:(lia)) as (s' & E & C' & B' & b & j & I' & U1 & U2 & F & Hb & Hj & Hco);
      [|done|].
    { intros q l Hq. apply Hd. by apply list_elem_of_further. }
    exists s', ((p, k + n) :: ps'). split_and!; [by step E| |].
    + exists C', B', b, j. split_and!; [done..| |done|lia|done]. eapply frame_trans; [|exact F]. apply Hmf.
      destruct (part_last _ _ (inv_geometry _ _ _ _ I) p k (list_elem_of_here _ _)) as (e & je & ue & He & ? & ?).
      pose proof (chunk_bounds _ _ _ _ _ (inv_geometry _ _ _ _ I) He).
      exists p, (k + n). split_and!; [apply list_elem_of_here|lia|lia].
    + intros x Hx Ho q l [[= -> ->]|Hq]%elem_of_cons; [|apply Ho; by apply list_elem_of_further].
      specialize (Ho _ _ (list_elem_of_here _ _)). specialize (Hfresh _ Hx). lia.
  - destruct (create_run _ _ _ _ a n I1 Ha Hn H128 H0 H63 Hd Hm1) as (s' & B' & E & I' & F).
    pose proof (inv_geometry _ _ _ _ I) as G.
    assert (Hfar : ∀ c j u, C !! c = Some (j, u) → 32 <= j ∧ (c + j <= a ∨ a + n <= c)).
    { intros c j u Hc. destruct (chunk_place _ _ G _ _ _ Hc) as (p & k & Hp & H1 & H2 & _).
      specialize (Hd _ _ Hp). pose proof (chunk_bounds _ _ _ _ _ G Hc). lia. }
    assert (Hnew : C !! (a + 48) = None).
    { destruct (C !! (a + 48)) as [[j u]|] eqn:E'; [|done]. pose proof (Hfar _ _ _ E'). lia. }
    exists s', ((a, n) :: ps). split_and!; [by step E| |].
    + exists (<[a + 48 := (n - 96, false)]> C), B', (a + 48), (n - 96).
      split_and!; [done|..|apply lookup_insert_eq|lia|].
      * intros c j Hc. rewrite lookup_insert_ne by congruence. done.
      * intros c j. destruct (decide (c = a + 48)) as [->|Hne]; [by rewrite lookup_insert_eq|by rewrite lookup_insert_ne].
      * eapply frame_trans; [|exact F]. apply Hmf. exists a, n. split_and!; [apply list_elem_of_here|lia|lia].
      * apply coalesced_add; [done|lia| |].
        -- intros j Hj. pose proof (Hfar _ _ _ Hj). lia.
        -- intros c j Hc E'. pose proof (Hfar _ _ _ Hc). lia.
    + intros x Hx Ho q l [[= -> ->]|Hq]%elem_of_cons; [by apply Hfresh|by apply Ho].
Qed.

(** What is mapped and outside the parts stays outside. *)
Definition parts_grow (m : mem) (ps ps' : list (Z * Z)) : Prop :=
  ∀ x, is_Some (m !! x) → (∀ p k, (p, k) ∈ ps → x < p ∨ p + k <= x) →
       ∀ p k, (p, k) ∈ ps' → x < p ∨ p + k <= x.

Lemma heap_expand_run s ps C B r :
  inv s ps C B → 32 <= r <= 2 ^ 63 →
  (__heap_expand_current_part page_size mmap r s = Ret (false, s) ∧ ∃ hint n, mmap (hmem s) hint n = None)
  ∨ ∃ s' ps', __heap_expand_current_part page_size mmap r s = Ret (true, s') ∧ grown ps' C r s s'
      ∧ parts_grow (hmem s) ps ps'.
Proof.
  intros I Hr. pose proof I as [G L _ Hp _].
  assert (∃ pb hint, 0 <= pb <= 2 ^ 63
    ∧ __heap_expand_current_part page_size mmap r s
      = grow mmap (current_part s) hint (expansion_bytes page_size r pb) s
    ∧ (∀ p k ps', ps = (p, k) :: ps' → hint = p + k)) as (pb & hint & Hpb & E & Hh).
  { unfold __heap_expand_current_part. unfold get_part at 1. erewrite M_bind_ret; [|reflexivity].
    destruct ps as [|[p k] ps']; rewrite Hp.
    - exists 0, page_size. split_and!; [lia..| |done]. done.
    - change (default 0 (fst <$> head ((p, k) :: ps'))) with p.
      destruct (part_shape _ _ G p k (list_elem_of_here _ _)) as (_ & _ & P3 & P4).
      destruct (part_words _ _ _ L p k (list_elem_of_here _ _)) as (_ & Wk & _).
      destruct (part_last _ _ G p k (list_elem_of_here _ _)) as (e & je & ue & He & ? & ?).
      pose proof (chunk_bounds _ _ _ _ _ G He). exists k, (p + k). split_and!; [lia..| |by intros ? ? ? [= -> -> ->]].
      rewrite (proj2 (Z.eqb_neq p NULL)) by (unfold NULL; lia). step (ld_run s (part_size p) _ Wk).
      unfold heap_part_end. erewrite M_bind_ret; [|step (ld_run s (part_size p) _ Wk); reflexivity]. done. }
  destruct (expansion_bytes_spec r pb Hr Hpb) as [Hn Hrn]. set (n := expansion_bytes _ _ _) in *.
  pose proof (grow_run s ps C B n (current_part s) hint I Hn ltac:(lia) Hp Hh) as Hg. rewrite E.
  destruct (mmap (hmem s) hint n) eqn:Em; [right|left; eauto].
  destruct Hg as (s' & ps' & Eg & (C' & B' & b & j & ? & ? & ? & ? & ? & ? & ?) & Ho).
  exists s', ps'. split_and!; [done| |done]. exists C', B', b, j. split_and!; try done. lia.
Qed.

(** ** Taking a chunk *)

Lemma desirable_bit b i :
  (b < 64)%nat → (i < 64)%nat →
  Z.testbit (u64 (Z.shiftl SIZE_MAX (Z.of_nat b))) (Z.of_nat i) = (b <=? i)%nat.
Proof.
  intros Hb Hi. unfold wrapu. rewrite Z.mod_pow2_bits_low by lia. rewrite Z.shiftl_spec by lia.
  change SIZE_MAX with (Z.ones 64). destruct (Nat.leb_spec b i).
  - apply Z.ones_spec_low. lia.
  - apply Z.testbit_neg_r. lia.
Qed.

Lemma bin_of_size n i : 1 <= n → bin_of n = i → 2 ^ Z.of_nat i <= n.
Proof.
  intros Hn <-. unfold bin_of. rewrite Z2Nat.id by apply Z.log2_nonneg. apply Z.log2_spec. lia.
Qed.

(** The chunks after [n] bytes of the unused chunk [a] of size [k] were taken. *)
Definition taken (C : chunks) (a k n : Z) : chunks := shrunk (<[a := (k, true)]> C) a k n.

Lemma take_chunk_run s ps C B n b :
  inv s ps C B → n mod 32 = 0 → 32 <= n → (b < 64)%nat → n <= 2 ^ Z.of_nat b →
  Z.land (u64 (Z.shiftl SIZE_MAX (Z.of_nat b))) (bin_filled_bitmap s) ≠ 0 →
  ∃ a k s' B', take_chunk n (Z.land (u64 (Z.shiftl SIZE_MAX (Z.of_nat b))) (bin_filled_bitmap s)) s
      = Ret (a + 16, s')
    ∧ C !! a = Some (k, false) ∧ n <= k ∧ inv s' ps (taken C a k n) B' ∧ frame ps C (hmem s) (hmem s').
Proof.
  intros I Hn H32 Hb Hnb Hus. pose proof I as [G L Bi _ _]. set (us := Z.land _ _) in *.
  assert (Hr : in_u 64 us).
  { unfold us. apply in_u_land; [lia|]. rewrite <- Z.land_assoc.
    by rewrite (proj1 (in_u_land 64 _ ltac:(lia)) (bitmap_range _ _ _ Bi)). }
  destruct (bsf_run us Hr Hus) as (i & Ei & Hi & Hbit).
  unfold us in Hbit. rewrite Z.land_spec, desirable_bit in Hbit by done. b2p.
  destruct (lookup_lt_is_Some_2 B i) as [l Hl]; [by rewrite (bins_count _ _ _ Bi)|].
  rewrite (bin_bits _ _ _ Bi _ _ Hl) in *. destruct l as [|a l]; [done|].
  destruct (bin_sound _ _ _ Bi _ _ a Hl (list_elem_of_here _ _)) as (k & Hk & Ek).
  pose proof (chunk_bounds _ _ _ _ _ G Hk) as HB.
  assert (Hnk : n <= k).
  { apply bin_of_size in Ek; [|lia]. assert (2 ^ Z.of_nat b <= 2 ^ Z.of_nat i); [|lia].
    apply Z.pow_le_mono_r; [lia|]. match goal with H : (b <=? i)%nat = true |- _ => apply Nat.leb_le in H end. lia. }
  destruct (remove_run _ _ _ _ _ _ I Hk) as (s1 & B1 & E1 & I1 & F1).
  destruct (shrink_run _ _ _ _ _ _ n I1 (lookup_insert_eq _ _ _) Hn H32 Hnk) as (s2 & B2 & E2 & I2 & F2).
  exists a, k, s2, B2. split_and!; [|done..|].
  - unfold take_chunk. step (lift_run s _ _ Ei). step (get_bin_run _ _ _ (bin_head _ _ _ Bi _ _ Hl)). step E1.
    exact E2.
  - eapply frame_trans; [exact F1|]. eapply frame_weaken; [exact F2|]. intros c j Hc.
    assert (c ≠ a) by congruence. unfold shrunk. destruct (Z.leb_spec 32 (k - n)).
    + assert (c ≠ a + n).
      { intros ->. pose proof (chunk_bounds _ _ _ _ _ G Hc). assert (Hne : a + n ≠ a) by lia.
        pose proof (chunk_sep _ _ G _ _ _ _ _ _ Hc Hk Hne). lia. }
      rewrite split_other by done. by rewrite lookup_insert_ne.
    + by rewrite lookup_insert_ne.
Qed.

(** ** Allocating *)

(** The size of the chunk for a request. *)
Definition chunk_for (size : Z) : Z := 32 + heap_align size.

Lemma chunk_for_spec size :
  0 <= size <= 2 ^ 63 - 32 →
  chunk_for size mod 32 = 0 ∧ size + 32 <= chunk_for size < size + 64 ∧ chunk_for size <= 2 ^ 63.
Proof.
  intros Hs. unfold chunk_for. destruct (heap_align_spec size ltac:(lia)) as [H1 H2].
  split_and!; [|lia|lia|].
  - rewrite Z.add_mod, H1 by lia. done.
  - apply Z.mod_divide in H1 as [q Hq]; [|lia]. lia.
Qed.

Lemma inv_errno s e ps C B : inv s ps C B → inv (set_errno e s) ps C B.
Proof. intros [G L Bi Hp Hb]. split; [done..| |done|done]. by destruct Bi; split. Qed.

(** An unused chunk of a bin from [b] on makes the bitmap usable. *)
Lemma usable_bins s ps C B a k b :
  inv s ps C B → C !! a = Some (k, false) → (b < 64)%nat → 2 ^ Z.of_nat b <= k →
  Z.land (u64 (Z.shiftl SIZE_MAX (Z.of_nat b))) (bin_filled_bitmap s) ≠ 0.
Proof.
  intros [G _ Bi _ _] Ha Hb Hk E. pose proof (chunk_bounds _ _ _ _ _ G Ha).
  destruct (bin_complete _ _ _ Bi _ _ Ha) as (l & Hl & Hin).
  assert (Hi : (bin_of k < 64)%nat) by (apply bin_of_lt; lia).
  assert (Hbit : Z.testbit (Z.land (u64 (Z.shiftl SIZE_MAX (Z.of_nat b))) (bin_filled_bitmap s)) (Z.of_nat (bin_of k)) = true).
  { rewrite Z.land_spec, desirable_bit, (bin_bits _ _ _ Bi _ _ Hl) by done.
    rewrite bool_decide_false by (intros ->; by apply elem_of_nil in Hin). rewrite andb_true_r.
    apply Nat.leb_le. unfold bin_of. apply Z.log2_le_pow2 in Hk; lia. }
  by rewrite E, Z.bits_0 in Hbit.
Qed.

(** The choice of the bins: the usable ones, or those after growing. *)
Lemma malloc_large size s : 2 ^ 63 - 32 < size < 2 ^ 64 → malloc page_size mmap size s = Ret (0, set_errno ENOMEM s).
Proof.
  intros Hs. unfold malloc, heap_size_has_bin. rewrite size_of_bin by lia. change (2 ^ Z.of_nat 63) with (2 ^ 63).
  destruct (Z.leb_spec size (2 ^ 63)) as [H1|H1]; cbn [negb]; [|done].
  destruct (heap_align_spec size ltac:(lia)) as [Ha1 Ha2].
  assert (heap_align size = 2 ^ 63) as ->.
  { apply Z.mod_divide in Ha1 as [q Hq]; [|lia]. lia. }
  done.
Qed.

Lemma malloc_small size s :
  0 <= size <= 2 ^ 63 - 32 →
  ∃ b, (b < 64)%nat ∧ chunk_for size <= 2 ^ Z.of_nat b
    ∧ let desirable := u64 (Z.shiftl SIZE_MAX (Z.of_nat b)) in
      malloc page_size mmap size s =
        (usable_bins ←
          (if Z.land desirable (bin_filled_bitmap s) =? 0 then
             f ← __heap_expand_current_part page_size mmap (2 ^ Z.of_nat b);
             if f : bool then bitmap ← get_bitmap; mret (Z.land desirable bitmap)
             else mret (Z.land desirable (bin_filled_bitmap s))
           else mret (Z.land desirable (bin_filled_bitmap s)));
         if usable_bins =? 0 then mret NULL else take_chunk (chunk_for size) usable_bins) s.
Proof.
  intros Hs. destruct (chunk_for_spec size Hs) as (H1 & H2 & H3).
  destruct (bin_for_allocation (chunk_for size) ltac:(lia)) as (b & Eb & Hb & Hnb). exists b. split_and!; [done..|].
  unfold malloc, heap_size_has_bin, sizeof_heap_chunk, sizeof_heap_chunk_post. change (16 + 16) with 32.
  change (32 + heap_align size) with (chunk_for size). rewrite (wrapu_id 64 (chunk_for size)) by (unfold in_u; lia).
  rewrite size_of_bin by lia. change (2 ^ Z.of_nat 63) with (2 ^ 63).
  rewrite !(proj2 (Z.leb_le _ (2 ^ 63))) by lia. cbn [negb].
  step (lift_run s _ _ Eb). rewrite size_of_bin by done. unfold get_bitmap at 1.
  erewrite M_bind_ret; [|reflexivity]. done.
Qed.

(** What [malloc] does to the chunks. *)
Definition allocated (size : Z) (ps : list (Z * Z)) (C : chunks) (s : heap) (r : Z) (s' : heap) : Prop :=
  ∃ a k ps' C1 B', r = a + 16 ∧ inv s' ps' (taken C1 a k (chunk_for size)) B'
    ∧ geometry ps' C1 ∧ C1 !! a = Some (k, false) ∧ chunk_for size <= k
    ∧ used_in C C1 ∧ used_in C1 C ∧ frame ps' C (hmem s) (hmem s') ∧ parts_grow (hmem s) ps ps'
    ∧ (coalesced C → coalesced C1).

Lemma take_allocated s s0 ps ps0 C C0 B size b :
  inv s ps C B → 0 <= size <= 2 ^ 63 - 32 → (b < 64)%nat → chunk_for size <= 2 ^ Z.of_nat b →
  Z.land (u64 (Z.shiftl SIZE_MAX (Z.of_nat b))) (bin_filled_bitmap s) ≠ 0 →
  used_in C0 C → used_in C C0 → frame ps C0 (hmem s0) (hmem s) → parts_grow (hmem s0) ps0 ps →
  (coalesced C0 → coalesced C) →
  ∃ r s', take_chunk (chunk_for size) (Z.land (u64 (Z.shiftl SIZE_MAX (Z.of_nat b))) (bin_filled_bitmap s)) s
          = Ret (r, s') ∧ allocated size ps0 C0 s0 r s'.
Proof.
  intros I Hs Hb Hnb Hus U1 U2 F0 Hg Hco. destruct (chunk_for_spec size Hs) as (H1 & H2 & H3).
  destruct (take_chunk_run _ _ _ _ _ _ I H1 ltac:(lia) Hb Hnb Hus) as (a & k & s' & B' & E & Ha & Hk & I' & F).
  exists (a + 16), s'. split; [done|]. exists a, k, ps, C, B'.
  split_and!; [done|done|apply I|done..| |done|done].
  eapply frame_trans; [exact F0|]. by eapply frame_weaken.
Qed.

Lemma malloc_run s ps C B size :
  inv s ps C B → in_u 64 size →
  (∃ s', malloc page_size mmap size s = Ret (0, s') ∧ inv s' ps C B ∧ hmem s' = hmem s
         ∧ (2 ^ 63 - 32 < size ∨ ∃ hint n, mmap (hmem s) hint n = None))
  ∨ (∃ r s', malloc page_size mmap size s = Ret (r, s') ∧ size <= 2 ^ 63 - 32 ∧ allocated size ps C s r s').
Proof.
  intros I [Hs0 Hs64]. destruct (Z.lt_ge_cases (2 ^ 63 - 32) size) as [Hl|Hl].
  { left. eexists. split; [by apply malloc_large|]. split_and!; [by apply inv_errno|done|by left]. }
  destruct (malloc_small size s ltac:(lia)) as (b & Hb & Hnb & E). cbv zeta in E. rewrite E.
  destruct (chunk_for_spec size ltac:(lia)) as (H1 & H2 & H3).
  set (des := u64 (Z.shiftl SIZE_MAX (Z.of_nat b))) in *.
  destruct (Z.eqb_spec (Z.land des (bin_filled_bitmap s)) 0) as [Ez|Ez].
  - destruct (heap_expand_run s ps C B (2 ^ Z.of_nat b) I) as [[Ex Hno]|(s1 & ps1 & Ex & Hgr & Hpg)].
    { split; [lia|]. apply Z.pow_le_mono_r; lia. }
    + left. exists s. split_and!; [|done|done|by right].
      erewrite M_bind_ret; [|step Ex; reflexivity]. by rewrite Ez.
    + right. destruct Hgr as (C1 & B1 & c & j & I1 & U1 & U2 & F1 & Hc & Hj & Hco).
      pose proof (usable_bins _ _ _ _ _ _ _ I1 Hc Hb Hj) as Hus.
      destruct (take_allocated s1 s ps1 ps C1 C B1 size b) as (r & s' & Et & Hal); [done|lia|done..|].
      exists r, s'. split_and!; [|lia|done].
      erewrite M_bind_ret; [|step Ex; unfold get_bitmap at 1; erewrite M_bind_ret; [|reflexivity]; reflexivity].
      fold des in Hus, Et. rewrite (proj2 (Z.eqb_neq _ _) Hus). exact Et.
  - right. destruct (take_allocated s s ps ps C C B size b) as (r & s' & Et & Hal);
      [done|lia|done|done|done|apply used_in_refl..|apply frame_refl|by intros ?|done|].
    exists r, s'. split_and!; [|lia|done].
    erewrite M_bind_ret; [|reflexivity]. rewrite (proj2 (Z.eqb_neq _ _) Ez). exact Et.
Qed.

End Spec.

End HeapSpec.
