(* ===== verification/HeapClient.v ===== *)
(** * The heap as its clients see it

    The abstract heap is a map from the addresses of the blocks given out to
    their bytes.  Each function of the library, run on the memory with its
    parts, chunks and bins, is a step of the abstract heap, and so is the run of
    any program that uses the heap as it must. *)

From S2P Require Import Prelude Memory MemFuncs Heap HeapInv HeapOps HeapGrow HeapSpec.
From stdpp Require Import base list numbers gmap.
From Stdlib Require Import ZArith Lia.
Import Mem MemFuncs Heap HeapInv HeapOps HeapGrow HeapSpec.

#[local] Open Scope Z_scope.

Module HeapClient.

(** ** The memory holds bytes *)

Definition byte_mem (m : mem) : Prop := ∀ x v, m !! x = Some v → is_byte v.

Lemma byte_mem_write m a l : byte_mem m → Forall is_byte l → byte_mem (mem_write m a l).
Proof.
  intros Hm Hl x v. rewrite mem_write_lookup. case_bool_decide; [|apply Hm].
  intros Hv. rewrite Forall_lookup in Hl. by eapply Hl.
Qed.

(** The bytes of a mapped stretch. *)
Lemma mapped_bytes m a n : byte_mem m → mapped m a n → ∃ l, length l = n ∧ bytes_at m a l.
Proof.
  intros Hm. revert a. induction n as [|n IH]; intros a Ha.
  { exists []. split; [done|]. split; [done|]. intros i Hi. simpl in Hi. lia. }
  destruct (Ha O ltac:(lia)) as [x Hx]. rewrite Z.add_0_r in Hx.
  destruct (IH (a + 1)) as (l & Hl & Hb).
  { intros i Hi. replace (a + 1 + Z.of_nat i) with (a + Z.of_nat (S i)) by lia. apply Ha. lia. }
  exists (x :: l). split; [simpl; lia|]. apply (bytes_at_app _ _ [x]). split; [|done]. split.
  - constructor; [by eapply Hm|done].
  - intros [|i] Hi; simpl in Hi; [|lia]. by rewrite Z.add_0_r.
Qed.

(** What a command keeps of the memory of bytes it starts with. *)
Definition keeps_bytes {A} (c : M heap A) : Prop :=
  ∀ s a s', c s = Ret (a, s') → byte_mem (hmem s) → byte_mem (hmem s').

Create HintDb bytes discriminated.

Lemma keeps_ret {A} (a : A) : keeps_bytes (mret a).
Proof. by intros s b s' [= <- <-]. Qed.

Lemma keeps_bind {A B} (c : M heap A) (f : A → M heap B) :
  keeps_bytes c → (∀ a, keeps_bytes (f a)) → keeps_bytes (c ≫= f).
Proof.
  intros Hc Hf s b s' E Hm. unfold mbind, M_bind in E. destruct (c s) as [[a s1]| |] eqn:Ec; [|done..].
  eapply Hf; [exact E|]. by eapply Hc.
Qed.

Lemma keeps_same {A} (c : M heap A) : (∀ s a s', c s = Ret (a, s') → hmem s' = hmem s) → keeps_bytes c.
Proof. intros H s a s' E Hm. by rewrite (H _ _ _ E). Qed.

Lemma load_bytes_same n a m r : load_bytes n a m = Ret r → r.2 = m.
Proof.
  revert a r. induction n as [|n IH]; intros a r; cbn [load_bytes]; [by intros [= <-]|].
  unfold mbind, M_bind, load. destruct (m !! a); [|done].
  destruct (load_bytes n (a + 1) m) as [[y m1]| |] eqn:E; [|done..]. intros [= <-]. by apply IH in E.
Qed.

Lemma keeps_ld a : keeps_bytes (ld a).
Proof.
  apply keeps_same. intros s v s'. unfold ld, on_mem, load_le. destruct (_ =? _); [|done].
  destruct (load_bytes 8 a (hmem s)) as [[y m1]| |] eqn:E; [|done..]. intros [= _ <-]. by apply load_bytes_same in E.
Qed.

Lemma store_bytes_byte n a v m r : store_bytes n a v m = Ret r → byte_mem m → byte_mem r.2.
Proof.
  revert a v m. induction n as [|n IH]; intros a v m; cbn [store_bytes]; [by intros [= <-]|].
  unfold mbind, M_bind, store. destruct (m !! a); [|done]. intros E Hm. eapply IH; [exact E|].
  intros x w. destruct (decide (x = a)) as [->|Hne].
  - rewrite lookup_insert_eq. intros [= <-]. apply (wrapu_range 8). lia.
  - rewrite lookup_insert_ne by done. apply Hm.
Qed.

Lemma keeps_st a v : keeps_bytes (st a v).
Proof.
  intros s b s'. unfold st, on_mem, store_le. destruct (_ =? _); [|done].
  destruct (store_bytes 8 a v (hmem s)) as [[y m1]| |] eqn:E; [|done..]. intros [= _ <-] Hm.
  exact (store_bytes_byte _ _ _ _ _ E Hm).
Qed.

Lemma keeps_lift {A} (o : outcome A) : keeps_bytes (M_lift o).
Proof. apply keeps_same. intros s a s'. unfold M_lift. by destruct o; intros [=]; subst. Qed.

Lemma keeps_get_bin i : keeps_bytes (get_bin i).
Proof. apply keeps_same. intros s a s'. unfold get_bin. by case_match; intros [=]; subst. Qed.

Lemma keeps_set_bin i c : keeps_bytes (set_bin i c).
Proof. apply keeps_same. intros s a s'. unfold set_bin. by case_match; intros [=]; subst. Qed.

Lemma keeps_if {A} (b : bool) (c d : M heap A) : keeps_bytes c → keeps_bytes d → keeps_bytes (if b then c else d).
Proof. by destruct b. Qed.

#[export] Hint Resolve keeps_ret keeps_ld keeps_st keeps_lift keeps_get_bin keeps_set_bin : bytes.

(** Walk through a command. *)
Ltac keeps :=
  repeat first
    [ progress auto with bytes
    | apply keeps_bind; [|intros ?]
    | apply keeps_if
    | match goal with
      | |- keeps_bytes (let _ := _ in _) => cbv zeta
      | |- keeps_bytes (match ?x with _ => _ end) => destruct x
      end
    | (apply keeps_same; by intros ? ? ? [= <- <-]) ].

Lemma keeps_format a n : keeps_bytes (heap_chunk_format a n).
Proof. unfold heap_chunk_format, heap_chunk_to_post. keeps. Qed.
#[export] Hint Resolve keeps_format : bytes.

Lemma keeps_insert c : keeps_bytes (heap_insert_chunk c).
Proof. unfold heap_insert_chunk, heap_chunk_to_post, link_head, heap_chunk_to_post. keeps. Qed.
#[export] Hint Resolve keeps_insert : bytes.

Lemma keeps_remove c : keeps_bytes (heap_remove_chunk c).
Proof. unfold heap_remove_chunk, unlink_prev, unlink_next, heap_chunk_to_post. keeps. Qed.
#[export] Hint Resolve keeps_remove : bytes.

Lemma keeps_is_used c : keeps_bytes (heap_chunk_is_used c).
Proof. unfold heap_chunk_is_used. keeps. Qed.
#[export] Hint Resolve keeps_is_used : bytes.

Lemma keeps_is_unused c : keeps_bytes (is_unused c).
Proof. unfold is_unused. keeps. Qed.
#[export] Hint Resolve keeps_is_unused : bytes.

Lemma keeps_left c : keeps_bytes (heap_chunk_left c).
Proof. unfold heap_chunk_left, heap_post_to_chunk. keeps. Qed.

Lemma keeps_right c : keeps_bytes (heap_chunk_right c).
Proof. unfold heap_chunk_right. keeps. Qed.
#[export] Hint Resolve keeps_left keeps_right : bytes.

Lemma keeps_shrink c n : keeps_bytes (shrink c n).
Proof. unfold shrink, heap_can_split_chunk, heap_split_chunk. keeps. Qed.
#[export] Hint Resolve keeps_shrink : bytes.

Lemma keeps_free p : keeps_bytes (free p).
Proof. unfold free, heap_chunk_combine_neighbors. keeps. Qed.

Lemma keeps_grow mmap current suggestion n : keeps_bytes (grow mmap current suggestion n).
Proof.
  intros s a s'. unfold grow. destruct (mmap _ _ _) as [b|]; [|by intros [= <- <-]].
  assert (Hk : keeps_bytes (if negb (current =? NULL) && (b =? suggestion)
    then extend_part current b n;; mret true else create_part b n;; mret true)).
  { unfold extend_part, extend_rest, create_part, link_part, heap_part_last_chunk, heap_part_to_post,
      heap_post_to_chunk. keeps. }
  intros E Hm. eapply Hk; [exact E|]. apply byte_mem_write; [done|].
  apply Forall_replicate. unfold is_byte. lia.
Qed.
#[export] Hint Resolve keeps_free keeps_grow : bytes.

Lemma keeps_malloc page_size mmap n : keeps_bytes (malloc page_size mmap n).
Proof.
  unfold malloc, __heap_expand_current_part, heap_part_end, take_chunk, heap_can_split_chunk, heap_split_chunk.
  keeps.
Qed.
#[export] Hint Resolve keeps_malloc : bytes.

(** ** Writing into a used chunk *)

(** The words between [lo] and [hi]. *)
Definition words (lo hi : Z) : list Z := (λ i, lo + 8 * i) <$> seqZ 0 ((hi - lo) / 8).

Lemma words_elem lo hi x : lo <= hi → x ∈ words lo hi → in_region lo hi x ∧ (x - lo) mod 8 = 0.
Proof.
  intros Hlh (i & -> & Hi)%list_elem_of_fmap. apply elem_of_seqZ in Hi. unfold in_region.
  Z.div_mod_to_equations. lia.
Qed.

Lemma changes_write m lo hi p l :
  lo mod 8 = 0 → (hi - lo) mod 8 = 0 → lo <= p → p + Z.of_nat (length l) <= hi →
  changes m (mem_write m p l) (words lo hi).
Proof.
  intros Hlo Hhi H1 H2. split_and!.
  - apply Forall_forall. intros x [_ Hx]%words_elem; [|lia]. Z.div_mod_to_equations. lia.
  - intros y Hy. apply mem_write_out. rewrite Forall_forall in Hy.
    destruct (decide (p <= y < p + Z.of_nat (length l))) as [Hin|]; [|lia].
    specialize (Hy (lo + 8 * ((y - lo) / 8))). exfalso. destruct Hy as [Hy|Hy].
    + apply list_elem_of_fmap. exists ((y - lo) / 8). split; [done|]. apply elem_of_seqZ.
      Z.div_mod_to_equations. lia.
    + Z.div_mod_to_equations. lia.
    + Z.div_mod_to_equations. lia.
  - intros b n. apply mapped_write.
Qed.

Lemma inv_write s ps C B a n p l :
  inv s ps C B → C !! a = Some (n, true) → a + 16 <= p → p + Z.of_nat (length l) <= a + n - 16 →
  inv (set_mem (mem_write (hmem s) p l) s) ps C B.
Proof.
  intros I Ha H1 H2. pose proof I as [G L Bi Hp Hb].
  destruct (chunk_bounds _ _ _ _ _ G Ha) as (B1 & B2 & B3 & B4 & B5 & _).
  assert (Hc := changes_write (hmem s) (a + 16) (a + n - 16) p l ltac:(Z.div_mod_to_equations; lia)
    ltac:(Z.div_mod_to_equations; lia) H1 H2).
  set (m' := mem_write (hmem s) p l) in *.
  assert (Hx : Forall (in_region (a + 16) (a + n - 16)) (words (a + 16) (a + n - 16))).
  { apply Forall_forall. intros x Hx%words_elem; [tauto|lia]. }
  assert (Hw : ∀ y v, y + 8 <= a + 16 ∨ a + n - 16 <= y → wd (hmem s) y v → wd m' y v).
  { intros y v Hy Hv. eapply wd_changes; [done..|]. eapply Forall_impl; [exact Hx|]. unfold in_region. simpl. lia. }
  assert (Hsep : ∀ c k u, C !! c = Some (k, u) → c ≠ a → 32 <= k ∧ (c + k <= a ∨ a + n <= c)).
  { intros c k u Hck Hne. pose proof (chunk_sep _ _ G _ _ _ _ _ _ Hck Ha Hne).
    pose proof (chunk_bounds _ _ _ _ _ G Hck). lia. }
  split; [done| | |done|done].
  - eapply layout_region; [exact L|exact G|exact Hc|exact Hx|lia| |].
    + intros q k Hq. destruct (part_last _ _ G _ _ Hq) as (e & je & ue & He & E1 & E2).
      pose proof (chunk_bounds _ _ _ _ _ G He). pose proof (part_chunk _ _ _ _ _ _ _ G Hq Ha). lia.
    + intros c k u Hck. destruct (decide (c = a)) as [->|Hne].
      * right. rewrite Ha in Hck. simplify_eq. destruct (chunk_sizes _ _ _ L _ _ _ Ha).
        destruct (chunk_used _ _ _ L _ _ Ha). split_and!; [..|intros _; split]; (apply Hw; [lia|done]).
      * left. destruct (Hsep _ _ _ Hck Hne). split; [done|lia].
  - eapply bins_region; [exact Bi|exact Hc|exact Hx|done|]. intros c k Hck.
    assert (c ≠ a) by congruence. destruct (Hsep _ _ _ Hck); [done|lia].
Qed.

(** ** The abstract heap *)

Abbreviation blocks := (gmap Z (list Z)).

Record represents (s : heap) (C : chunks) (A : blocks) : Prop := {
  block_chunk p bs : A !! p = Some bs → C !! (p - 16) = Some (Z.of_nat (length bs) + 32, true);
  chunk_block c k : C !! c = Some (k, true) → is_Some (A !! (c + 16));
  block_bytes p bs : A !! p = Some bs → bytes_at (hmem s) p bs
}.

(** The heap with the parts [ps] holds the blocks [A]. *)
Definition heap_ok (s : heap) (ps : list (Z * Z)) (A : blocks) : Prop :=
  byte_mem (hmem s) ∧ ∃ C B, inv s ps C B ∧ represents s C A.

Definition outside (ps : list (Z * Z)) (x : Z) : Prop := ∀ p k, (p, k) ∈ ps → x < p ∨ p + k <= x.

(** The memory that is not of the heap stays as it was and what it was. *)
Definition keeps_outside (s : heap) (ps : list (Z * Z)) (s' : heap) (ps' : list (Z * Z)) : Prop :=
  ∀ x, is_Some (hmem s !! x) → outside ps x → outside ps' x ∧ hmem s' !! x = hmem s !! x.

Lemma represents_same s s' C C' A :
  represents s C A → used_in C C' → used_in C' C →
  (∀ p bs x, A !! p = Some bs → p <= x < p + Z.of_nat (length bs) → hmem s' !! x = hmem s !! x) →
  represents s' C' A.
Proof.
  intros [R1 R2 R3] U1 U2 Hm. split.
  - intros p bs Hp. by apply U1, R1.
  - intros c k Hc. by eapply R2, U2.
  - intros p bs Hp. destruct (R3 _ _ Hp) as [Hb Hl]. split; [done|]. intros i Hi.
    rewrite (Hm p bs) by (done || lia). by apply Hl.
Qed.

(** A block is the data of its chunk. *)
Lemma block_data s C A p bs x :
  represents s C A → A !! p = Some bs → p <= x < p + Z.of_nat (length bs) →
  ∃ a n, C !! a = Some (n, true) ∧ a + 16 <= x < a + n - 16.
Proof. intros R Hp Hx. eexists _, _. split; [by eapply block_chunk|lia]. Qed.

(** What a frame keeps. *)
Lemma frame_block s s' ps C A :
  represents s C A → frame ps C (hmem s) (hmem s') →
  ∀ p bs x, A !! p = Some bs → p <= x < p + Z.of_nat (length bs) → hmem s' !! x = hmem s !! x.
Proof. intros R F p bs x Hp Hx. apply F. left. by eapply block_data. Qed.

(** One block is new or has changed. *)
Lemma represents_insert s s' C C' A a bs :
  represents s C A → C' !! a = Some (Z.of_nat (length bs) + 32, true) → bytes_at (hmem s') (a + 16) bs →
  (∀ c k, c ≠ a → C' !! c = Some (k, true) ↔ C !! c = Some (k, true)) →
  (∀ p l x, p ≠ a + 16 → A !! p = Some l → p <= x < p + Z.of_nat (length l) → hmem s' !! x = hmem s !! x) →
  represents s' C' (<[a + 16 := bs]> A).
Proof.
  intros [R1 R2 R3] Ha Hb Hc Hm. split.
  - intros p l. destruct (decide (p = a + 16)) as [->|Hne].
    + rewrite lookup_insert_eq. intros [= <-]. by replace (a + 16 - 16) with a by lia.
    + rewrite lookup_insert_ne by done. intros Hp. apply Hc; [lia|by apply R1].
  - intros c k. destruct (decide (c = a)) as [->|Hne]; [by rewrite lookup_insert_eq|].
    rewrite Hc by done. rewrite lookup_insert_ne by lia. apply R2.
  - intros p l. destruct (decide (p = a + 16)) as [->|Hne]; [rewrite lookup_insert_eq; by intros [= <-]|].
    rewrite lookup_insert_ne by done. intros Hp. destruct (R3 _ _ Hp) as [H1 H2]. split; [done|].
    intros i Hi. rewrite (Hm p l) by (done || lia). by apply H2.
Qed.

Lemma represents_delete s s' C C' A a k :
  represents s C A → C !! a = Some (k, true) →
  used_in C' (<[a := (k, false)]> C) → used_in (<[a := (k, false)]> C) C' →
  (∀ p l x, p ≠ a + 16 → A !! p = Some l → p <= x < p + Z.of_nat (length l) → hmem s' !! x = hmem s !! x) →
  represents s' C' (delete (a + 16) A).
Proof.
  intros [R1 R2 R3] Ha U1 U2 Hm.
  assert (Hc : ∀ c j, C' !! c = Some (j, true) ↔ c ≠ a ∧ C !! c = Some (j, true)).
  { intros c j. split.
    - intros Hc%U1. destruct (decide (c = a)) as [->|Hne]; [by rewrite lookup_insert_eq in Hc|].
      by rewrite lookup_insert_ne in Hc.
    - intros [Hne Hc]. apply U2. by rewrite lookup_insert_ne. }
  split.
  - intros p l [Hne Hp]%lookup_delete_Some. apply Hc. split; [lia|by apply R1].
  - intros c j [Hne Hj]%Hc. rewrite lookup_delete_ne by lia. by eapply R2.
  - intros p l [Hne Hp]%lookup_delete_Some. destruct (R3 _ _ Hp) as [H1 H2]. split; [done|].
    intros i Hi. rewrite (Hm p l) by (done || lia). by apply H2.
Qed.

(** Where a block is. *)
Lemma block_place s ps A p bs :
  heap_ok s ps A → A !! p = Some bs →
  16 < p ∧ p mod 32 = 0 ∧ p + Z.of_nat (length bs) <= 2 ^ 63 ∧ Z.of_nat (length bs) mod 32 = 0.
Proof.
  intros (_ & C & B & [G _ _ _ _] & R) Hp. pose proof (block_chunk _ _ _ R _ _ Hp) as Hc.
  pose proof (chunk_bounds _ _ _ _ _ G Hc). destruct (chunk_shape _ _ G _ _ _ Hc) as (H1 & H2 & _).
  split_and!; [lia|Z.div_mod_to_equations; lia|lia|Z.div_mod_to_equations; lia].
Qed.

(** Two blocks are apart. *)
Lemma blocks_apart s ps A p bs q l :
  heap_ok s ps A → A !! p = Some bs → A !! q = Some l → p ≠ q →
  p + Z.of_nat (length bs) <= q ∨ q + Z.of_nat (length l) <= p.
Proof.
  intros (_ & C & B & [G _ _ _ _] & R) Hp Hq Hne.
  pose proof (chunk_sep _ _ G _ _ _ _ _ _ (block_chunk _ _ _ R _ _ Hp) (block_chunk _ _ _ R _ _ Hq)).
  lia.
Qed.

Lemma block_inside s ps A p bs x :
  heap_ok s ps A → A !! p = Some bs → p <= x < p + Z.of_nat (length bs) → outside ps x → False.
Proof.
  intros (_ & C & B & [G _ _ _ _] & R) Hp Hx Ho.
  destruct (chunk_place _ _ G _ _ _ (block_chunk _ _ _ R _ _ Hp)) as (q & k & Hq & H1 & H2 & _).
  specialize (Ho _ _ Hq). lia.
Qed.

(** ** Writing into a block *)

Lemma inserts_ne {T} (l bs : list T) i j :
  ¬ (i <= j < i + length l)%nat → list_inserts i l bs !! j = bs !! j.
Proof.
  intros Hj. destruct (decide (j < i)%nat); [by apply list_lookup_inserts_lt|]. apply list_lookup_inserts_ge. lia.
Qed.

Lemma prefix_agree {T} (l k : list T) :
  (length l <= length k)%nat → (∀ i, (i < length l)%nat → k !! i = l !! i) → l `prefix_of` k.
Proof.
  intros Hl H. exists (drop (length l) k). rewrite <- (take_drop (length l) k) at 1. f_equal.
  apply list_eq. intros i. destruct (decide (i < length l)%nat) as [Hi|Hi].
  - rewrite lookup_take_lt by done. by apply H.
  - rewrite lookup_take_ge, lookup_ge_None_2 by lia. done.
Qed.

Lemma prefix_inserts {T} (l k : list T) : (length l <= length k)%nat → l `prefix_of` list_inserts 0 l k.
Proof.
  intros Hl. apply prefix_agree; [by rewrite length_inserts|]. intros i Hi.
  rewrite list_lookup_inserts by lia. f_equal. lia.
Qed.

Lemma bytes_at_inserts m p i l bs :
  bytes_at m p bs → Forall is_byte l → (i + length l <= length bs)%nat →
  bytes_at (mem_write m (p + Z.of_nat i) l) p (list_inserts i l bs).
Proof.
  intros [H1 H2] Hl Hi. split.
  - apply Forall_lookup. intros j x Hx. destruct (decide (i <= j < i + length l)%nat).
    + rewrite list_lookup_inserts in Hx by lia. rewrite Forall_lookup in Hl. by eapply Hl.
    + rewrite inserts_ne in Hx by lia. rewrite Forall_lookup in H1. by eapply H1.
  - intros j Hj. rewrite length_inserts in Hj. rewrite mem_write_lookup. case_bool_decide as Hd.
    + rewrite list_lookup_inserts by lia. f_equal. lia.
    + rewrite inserts_ne by lia. by apply H2.
Qed.

Lemma write_sim s ps A p i l bs :
  heap_ok s ps A → A !! p = Some bs → Forall is_byte l → (i + length l <= length bs)%nat →
  let s' := set_mem (mem_write (hmem s) (p + Z.of_nat i) l) s in
  heap_ok s' ps (<[p := list_inserts i l bs]> A) ∧ keeps_outside s ps s' ps.
Proof.
  intros H Hp Hl Hi s'. pose proof H as (Hm & C & B & I & R). pose proof (block_chunk _ _ _ R _ _ Hp) as Hc.
  split.
  - split; [by apply byte_mem_write|]. exists C, B. split; [eapply inv_write; [done..|lia|lia]|].
    replace p with (p - 16 + 16) at 1 by lia. eapply represents_insert; [exact R| | |done|].
    + by rewrite length_inserts.
    + replace (p - 16 + 16) with p by lia. apply bytes_at_inserts; [by apply (block_bytes _ _ _ R)|done..].
    + intros q k x Hne Hq Hx. apply mem_write_out. assert (p ≠ q) as Hpq by lia.
      pose proof (blocks_apart _ _ _ _ _ _ _ H Hp Hq Hpq). lia.
  - intros x _ Ho. split; [done|]. apply mem_write_out.
    destruct (decide (p <= x < p + Z.of_nat (length bs))); [|lia]. by destruct (block_inside _ _ _ _ _ x H Hp).
Qed.

Lemma keeps_outside_refl s ps : keeps_outside s ps s ps.
Proof. by intros x _ Hx. Qed.

Lemma keeps_outside_trans s1 ps1 s2 ps2 s3 ps3 :
  keeps_outside s1 ps1 s2 ps2 → keeps_outside s2 ps2 s3 ps3 → keeps_outside s1 ps1 s3 ps3.
Proof.
  intros H1 H2 x Hx Ho. destruct (H1 x Hx Ho) as [Ho2 E2]. rewrite <- E2 in Hx |- *. by apply H2.
Qed.

(** ** The calls *)

Inductive call :=
  | Malloc (size : Z)
  | Calloc (nmemb size : Z)
  | Realloc (ptr size : Z)
  | Reallocarray (ptr nmemb size : Z)
  | Free (ptr : Z)
  | Store (ptr : Z) (i : nat) (v : Z)
  | Load (ptr : Z) (i : nat).

Section Client.
Context (page_size : Z) (mmap : mem → Z → Z → option Z) `{Sys : !System page_size mmap}.

(** The code of a call; the clients' own accesses are calls as well. *)
Definition exec (c : call) : M heap Z :=
  match c with
  | Malloc size => malloc page_size mmap size
  | Calloc nmemb size => calloc page_size mmap nmemb size
  | Realloc ptr size => realloc page_size mmap ptr size
  | Reallocarray ptr nmemb size => reallocarray page_size mmap ptr nmemb size
  | Free ptr => free ptr;; mret 0
  | Store ptr i v => on_mem (store (ptr + Z.of_nat i) v);; mret 0
  | Load ptr i => on_mem (load (ptr + Z.of_nat i))
  end.

(** What a client may call: blocks it was given, bytes inside them. *)
Definition legal (A : blocks) (c : call) : Prop :=
  match c with
  | Malloc size => in_u 64 size
  | Calloc nmemb size => in_u 64 nmemb ∧ in_u 64 size
  | Realloc ptr size => in_u 64 size ∧ (ptr = NULL ∨ is_Some (A !! ptr))
  | Reallocarray ptr nmemb size => in_u 64 nmemb ∧ in_u 64 size ∧ (ptr = NULL ∨ is_Some (A !! ptr))
  | Free ptr => ptr = NULL ∨ is_Some (A !! ptr)
  | Store ptr i v => is_byte v ∧ ∃ bs, A !! ptr = Some bs ∧ (i < length bs)%nat
  | Load ptr i => ∃ bs, A !! ptr = Some bs ∧ (i < length bs)%nat
  end.

(** An allocation may fail when it is too large or the system has no memory. *)
Definition refused (bytes : Z) : Prop := 2 ^ 63 - 32 < bytes ∨ ∃ m hint n, mmap m hint n = None.

(** A new block [bs] at [r]: aligned, apart from the blocks there are, of the
    size asked for and less than 32 bytes more, starting with [prefix]. *)
Record provides (A : blocks) (bytes : Z) (prefix : list Z) (r : Z) (bs : list Z) : Prop := {
  provided_address : 0 < r ∧ r mod 32 = 0;
  provided_size : bytes <= Z.of_nat (length bs) < bytes + 32;
  provided_new : A !! r = None;
  provided_apart q l : A !! q = Some l → r + Z.of_nat (length bs) <= q ∨ q + Z.of_nat (length l) <= r;
  provided_prefix : prefix `prefix_of` bs
}.

(** The steps of the abstract heap: the call, its result, the blocks after. *)
Inductive astep (A : blocks) : call → Z → blocks → Prop :=
  | step_malloc size r bs : provides A size [] r bs → astep A (Malloc size) r (<[r := bs]> A)
  | step_malloc_fail size : refused size → astep A (Malloc size) NULL A
  | step_calloc nmemb size r bs :
      provides A (nmemb * size) (replicate (Z.to_nat (nmemb * size)) 0) r bs →
      astep A (Calloc nmemb size) r (<[r := bs]> A)
  | step_calloc_fail nmemb size : refused (nmemb * size) → astep A (Calloc nmemb size) NULL A
  | step_realloc_null size r A' : astep A (Malloc size) r A' → astep A (Realloc NULL size) r A'
  | step_realloc ptr size old r bs :
      A !! ptr = Some old → provides (delete ptr A) size (take (length bs) old) r bs →
      astep A (Realloc ptr size) r (<[r := bs]> (delete ptr A))
  | step_realloc_fail ptr size : refused size → astep A (Realloc ptr size) NULL A
  | step_reallocarray ptr nmemb size r A' :
      astep A (Realloc ptr (nmemb * size)) r A' → astep A (Reallocarray ptr nmemb size) r A'
  | step_free_null : astep A (Free NULL) 0 A
  | step_free ptr : is_Some (A !! ptr) → astep A (Free ptr) 0 (delete ptr A)
  | step_store ptr i v bs :
      A !! ptr = Some bs → (i < length bs)%nat →
      astep A (Store ptr i v) 0 (<[ptr := <[i := v]> bs]> A)
  | step_load ptr i bs v : A !! ptr = Some bs → bs !! i = Some v → astep A (Load ptr i) v A.

(** Shrinking leaves the chunk with the size asked for: what is too small to be
    split off is nothing. *)
Lemma shrunk_used ps C a k n :
  geometry ps C → C !! a = Some (k, true) → n mod 32 = 0 → 32 <= n <= k →
  shrunk C a k n !! a = Some (n, true)
  ∧ ∀ c j, c ≠ a → shrunk C a k n !! c = Some (j, true) ↔ C !! c = Some (j, true).
Proof.
  intros G Ha Hn Hk. destruct (chunk_shape _ _ G _ _ _ Ha) as (_ & K1 & _). unfold shrunk.
  destruct (Z.leb_spec 32 (k - n)) as [Hs|Hs].
  - split; [apply split_self; lia|]. intros c j Hne. destruct (decide (c = a + n)) as [->|Hne'].
    + rewrite split_rest, (split_new ps C a k n true G Ha) by lia. done.
    + by rewrite split_other.
  - assert (k = n) as -> by (Z.div_mod_to_equations; lia). done.
Qed.

Lemma provides_block s ps A r bs size :
  heap_ok s ps (<[r := bs]> A) → A !! r = None → size <= Z.of_nat (length bs) < size + 32 →
  provides A size [] r bs.
Proof.
  intros H Hr Hs. assert (Hb : <[r := bs]> A !! r = Some bs) by apply lookup_insert_eq.
  pose proof (block_place _ _ _ _ _ H Hb) as (H1 & H2 & _). split; [lia|done|done| |by apply prefix_nil].
  intros q l Hq. assert (r ≠ q) by congruence.
  eapply (blocks_apart s ps _ r bs q l H); [done|by rewrite lookup_insert_ne|done].
Qed.

(** [malloc] gives a new block or refuses. *)
Definition malloc_result (s : heap) (ps : list (Z * Z)) (A : blocks) (size : Z) (r : Z) (s' : heap) : Prop :=
  (r = NULL ∧ heap_ok s' ps A ∧ hmem s' = hmem s ∧ refused size)
  ∨ ∃ bs ps', heap_ok s' ps' (<[r := bs]> A) ∧ provides A size [] r bs ∧ keeps_outside s ps s' ps'.

Lemma malloc_sim s ps A size :
  heap_ok s ps A → in_u 64 size →
  ∃ r s', malloc page_size mmap size s = Ret (r, s') ∧ malloc_result s ps A size r s'.
Proof.
  intros (Hm & C & B & I & R) Hs.
  destruct (malloc_run page_size mmap s ps C B size I Hs) as [(s' & E & I' & Em & Hf)|(r & s' & E & Hsz & Ha)].
  { exists 0, s'. split; [done|]. left. split_and!; [done| |done|destruct Hf as [?|(? & ? & ?)]; [by left|right; eauto]].
    split; [by rewrite Em|]. exists C, B. split; [done|]. eapply represents_same; [exact R|apply used_in_refl..|].
    by rewrite Em. }
  exists r, s'. split; [done|]. right.
  destruct Ha as (a & k & ps' & C1 & B' & -> & I' & G1 & Ha & Hk & U1 & U2 & F & Hpg & _).
  destruct Hs as [Hs0 _]. destruct (chunk_for_spec size ltac:(lia)) as (N1 & N2 & N3).
  set (n := chunk_for size) in *.
  destruct (shrunk_used ps' (<[a := (k, true)]> C1) a k n) as [Ta To];
    [by eapply geometry_flag|apply lookup_insert_eq|done|lia|]. fold (taken C1 a k n) in Ta, To.
  assert (Hm' : byte_mem (hmem s')) by (by eapply keeps_malloc).
  destruct (mapped_bytes (hmem s') (a + 16) (Z.to_nat (n - 32)) Hm') as (bs & Hbs & Hb).
  { intros i Hi. eapply used_mapped; [exact I'|exact Ta|lia]. }
  assert (Hno : ∀ j, C !! a ≠ Some (j, true)) by (intros j Hj%U1; congruence).
  assert (Hnew : A !! (a + 16) = None).
  { destruct (A !! (a + 16)) eqn:Ea; [|done]. apply (block_chunk _ _ _ R) in Ea.
    replace (a + 16 - 16) with a in Ea by lia. by apply Hno in Ea. }
  assert (H' : heap_ok s' ps' (<[a + 16 := bs]> A)).
  { split; [done|]. eexists _, _. split; [exact I'|]. eapply represents_insert; [exact R| |done| |].
    - rewrite Ta. do 2 f_equal. lia.
    - intros c j Hne. rewrite To by done. rewrite lookup_insert_ne by done. split; [apply U2|apply U1].
    - intros p l x _ Hp Hx. by eapply (frame_block s s' ps' C A). }
  exists bs, ps'. split_and!; [done| |].
  - eapply provides_block; [done..|]. rewrite Hbs. lia.
  - intros x Hx Ho. assert (outside ps' x) as Ho' by (intros ? ?; by apply Hpg). split; [done|]. apply F. by right.
Qed.

Lemma free_sim s ps A p bs :
  heap_ok s ps A → A !! p = Some bs →
  ∃ s', free p s = Ret ((), s') ∧ heap_ok s' ps (delete p A) ∧ keeps_outside s ps s' ps.
Proof.
  intros H Hp. pose proof H as (Hm & C & B & I & R). pose proof (block_chunk _ _ _ R _ _ Hp) as Hc.
  destruct (free_run _ _ _ _ _ _ I Hc) as (s' & C' & B' & E & I' & U1 & U2 & F & _).
  replace (p - 16 + 16) with p in E by lia. exists s'. split_and!; [done| |].
  - split; [by eapply keeps_free|]. exists C', B'. split; [done|]. replace p with (p - 16 + 16) by lia.
    eapply represents_delete; [done..|]. intros q l x Hne Hq Hx. apply F. left.
    exists (q - 16), (Z.of_nat (length l) + 32). split; [|lia].
    rewrite lookup_insert_ne by lia. by apply (block_chunk _ _ _ R).
  - intros x _ Ho. split; [done|]. apply F. by right.
Qed.

Lemma on_mem_run {T} (c : M mem T) s a m : c (hmem s) = Ret (a, m) → on_mem c s = Ret (a, set_mem m s).
Proof. intros E. unfold on_mem. by rewrite E. Qed.

Lemma heap_ok_errno s e ps A : heap_ok s ps A → heap_ok (set_errno e s) ps A.
Proof.
  intros (Hm & C & B & I & R). split; [done|]. exists C, B. split; [by apply inv_errno|]. by destruct R; split.
Qed.

(** The test for overflow of a product. *)
Lemma product_overflow nmemb size :
  in_u 64 nmemb → in_u 64 size →
  negb (size =? 0) && negb (nmemb =? 0) && (SIZE_MAX / size <? nmemb) = (2 ^ 64 <=? nmemb * size).
Proof.
  unfold in_u, SIZE_MAX. intros H1 H2. destruct (Z.eqb_spec size 0) as [->|Hs]; [symmetry; apply Z.leb_gt; lia|].
  destruct (Z.eqb_spec nmemb 0) as [->|Hn]; [symmetry; apply Z.leb_gt; lia|]. cbn [negb andb].
  apply eq_bool_prop_intro. rewrite !Is_true_true, Z.ltb_lt, Z.leb_le.
  split; intros H; Z.div_mod_to_equations; nia.
Qed.

Lemma calloc_sim s ps A nmemb size :
  heap_ok s ps A → in_u 64 nmemb → in_u 64 size →
  ∃ r s' ps' A', calloc page_size mmap nmemb size s = Ret (r, s') ∧ astep A (Calloc nmemb size) r A'
    ∧ heap_ok s' ps' A' ∧ keeps_outside s ps s' ps'.
Proof.
  intros H Hn Hs. unfold calloc. rewrite product_overflow by done.
  destruct (Z.leb_spec (2 ^ 64) (nmemb * size)) as [Ho|Ho].
  { eexists _, _, ps, A. split; [done|]. split_and!; [|by apply heap_ok_errno|by intros ? ?].
    apply step_calloc_fail. left. lia. }
  assert (Ht : in_u 64 (nmemb * size)) by (unfold in_u in *; nia). rewrite wrapu_id by done.
  destruct (malloc_sim s ps A (nmemb * size) H Ht) as (r & s1 & E & [(-> & H1 & Em & Hf)|(bs & ps1 & H1 & Hp & Ho1)]).
  { eexists _, _, ps, A. split; [by step E|]. split_and!; [by apply step_calloc_fail|done|].
    intros x _ Hx. by rewrite Em. }
  pose proof Hp as [[Hr _] Hsz Hnew Hap _]. set (t := Z.to_nat (nmemb * size)).
  assert (Hl : (t <= length bs)%nat) by (unfold t; lia).
  assert (Hb : <[r := bs]> A !! r = Some bs) by apply lookup_insert_eq.
  assert (Hmap : mapped (hmem s1) r t).
  { eapply mapped_le; [|exact Hl]. apply bytes_at_mapped. destruct H1 as (_ & C & B & _ & R).
    by apply (block_bytes _ _ _ R). }
  destruct (write_sim s1 ps1 _ r 0 (replicate t 0) bs H1 Hb) as [H2 Ho2].
  { apply Forall_replicate. unfold is_byte. lia. }
  { rewrite length_replicate. lia. }
  rewrite Z.add_0_r in *. rewrite insert_insert_eq in H2.
  eexists r, _, ps1, _. split_and!; [|apply step_calloc|exact H2|by eapply keeps_outside_trans].
  - step E. rewrite (proj2 (Z.eqb_neq r NULL)) by (unfold NULL; lia).
    rewrite (M_bind_ret _ _ _ r (set_mem (mem_write (hmem s1) r (replicate t 0)) s1)); [done|].
    apply on_mem_run. replace (nmemb * size) with (Z.of_nat t) by (unfold in_u, t in *; lia).
    by apply memset_fills.
  - assert (Hpre : replicate t 0 `prefix_of` list_inserts 0 (replicate t 0) bs).
    { apply prefix_inserts. by rewrite length_replicate. }
    split; [apply Hp|by rewrite length_inserts|done|by rewrite length_inserts|done].
Qed.

(** ** [realloc] *)

Lemma chunk_for_block s ps A r bs size :
  heap_ok s ps A → A !! r = Some bs → 0 <= size <= 2 ^ 63 - 32 → size <= Z.of_nat (length bs) < size + 32 →
  Z.of_nat (length bs) + 32 = chunk_for size.
Proof.
  intros H Hr Hs Hb. destruct (block_place _ _ _ _ _ H Hr) as (_ & _ & _ & H32).
  destruct (chunk_for_spec size Hs) as (N1 & N2 & _). Z.div_mod_to_equations. lia.
Qed.

(** What [realloc] does to the block [old] at [p]. *)
Definition realloc_result (s : heap) (ps : list (Z * Z)) (A : blocks) (p : Z) (old : list Z) (size r : Z)
    (s' : heap) : Prop :=
  (r = NULL ∧ heap_ok s' ps A ∧ hmem s' = hmem s ∧ refused size)
  ∨ ∃ bs ps', heap_ok s' ps' (<[r := bs]> (delete p A))
      ∧ provides (delete p A) size (take (length bs) old) r bs ∧ keeps_outside s ps s' ps'.

(** The block was resized where it is. *)
Lemma resized s s' ps C C' B' A p old size :
  represents s C A → byte_mem (hmem s') → inv s' ps C' B' → A !! p = Some old → 0 <= size <= 2 ^ 63 - 32 →
  C' !! (p - 16) = Some (chunk_for size, true) →
  (∀ c j, c ≠ p - 16 → C' !! c = Some (j, true) ↔ C !! c = Some (j, true)) →
  (∀ x, protected ps C x → protected ps C' x → hmem s' !! x = hmem s !! x) →
  realloc_result s ps A p old size p s'.
Proof.
  intros R Hm I Hp Hs Hc Ho F. right. destruct (chunk_for_spec size Hs) as (N1 & N2 & _).
  destruct (mapped_bytes (hmem s') p (Z.to_nat (chunk_for size - 32)) Hm) as (bs & Hbs & Hb).
  { intros i Hi. eapply used_mapped; [exact I|exact Hc|lia]. }
  assert (H' : heap_ok s' ps (<[p := bs]> (delete p A))).
  { rewrite insert_delete_eq. split; [done|]. exists C', B'. split; [done|].
    replace p with (p - 16 + 16) by lia. eapply represents_insert; [exact R| | |exact Ho|].
    - rewrite Hc. do 2 f_equal. lia.
    - by replace (p - 16 + 16) with p by lia.
    - intros q l x Hne Hq Hx. pose proof (block_chunk _ _ _ R _ _ Hq) as Hcq.
      apply F; left; exists (q - 16), (Z.of_nat (length l) + 32); (split; [|lia]); [done|]. apply Ho; [lia|done]. }
  exists bs, ps. split_and!; [done| |intros x _ Hx; split; [done|apply F; by right]].
  destruct (provides_block _ _ _ _ _ size H') as [P1 P2 P3 P4 _]; [apply lookup_delete_eq|rewrite Hbs; lia|].
  split; [done..|]. pose proof (block_bytes _ _ _ R _ _ Hp) as [_ Hob]. pose proof (block_chunk _ _ _ R _ _ Hp) as Hcp.
  destruct Hb as [_ Hnb]. apply prefix_agree; [rewrite length_take; lia|]. intros i Hi. rewrite length_take in Hi.
  rewrite lookup_take_lt by lia. rewrite <- Hnb, <- Hob by lia.
  apply F; left; eexists (p - 16), _; (split; [done|lia]).
Qed.

(** The block was moved. *)
Lemma relocate_sim s ps A p old size :
  heap_ok s ps A → A !! p = Some old → 0 <= size <= 2 ^ 63 - 32 → Z.of_nat (length old) + 32 < chunk_for size →
  ∃ r s', relocate page_size mmap p size s = Ret (r, s') ∧ realloc_result s ps A p old size r s'.
Proof.
  intros H Hp Hs Hlt. pose proof H as (Hm & C & B & I & R). pose proof (block_chunk _ _ _ R _ _ Hp) as Hc.
  destruct (block_place _ _ _ _ _ H Hp) as (P1 & _ & P3 & _).
  assert (Ed : heap_chunk_data_size (heap_data_to_chunk p) s = Ret (Z.of_nat (length old), s)).
  { unfold heap_chunk_data_size, heap_data_to_chunk, sizeof_heap_chunk, sizeof_heap_chunk_post.
    step (size_run _ _ _ _ _ _ _ I Hc). rewrite wrapu_id by (unfold in_u; lia).
    unfold mret, M_ret. do 2 f_equal. lia. }
  destruct (malloc_sim s ps A size H) as (r & s1 & E & [(-> & H1 & Em & Hf)|(bs & ps1 & H1 & Hpr & Ho1)]).
  { unfold in_u. lia. }
  { exists NULL, s1. unfold relocate. step Ed. step E. split; [done|]. by left. }
  pose proof Hpr as [[Hr _] Hsz Hnew Hap _].
  assert (Hbr : <[r := bs]> A !! r = Some bs) by apply lookup_insert_eq.
  assert (Hne : r ≠ p) by congruence.
  assert (Hbp : <[r := bs]> A !! p = Some old) by by rewrite lookup_insert_ne.
  pose proof (chunk_for_block _ _ _ _ _ size H1 Hbr Hs Hsz) as Hcf.
  assert (Hob : bytes_at (hmem s1) p old).
  { destruct H1 as (_ & C1 & B1 & _ & R1). by apply (block_bytes _ _ _ R1). }
  assert (Hrb : bytes_at (hmem s1) r bs).
  { destruct H1 as (_ & C1 & B1 & _ & R1). by apply (block_bytes _ _ _ R1). }
  destruct (write_sim s1 ps1 _ r 0 old bs H1 Hbr) as [H2 Ho2]; [apply Hob|lia|].
  rewrite Z.add_0_r in H2, Ho2. rewrite insert_insert_eq in H2.
  set (s2 := set_mem (mem_write (hmem s1) r old) s1) in *.
  destruct (free_sim s2 ps1 _ p old H2) as (s3 & E3 & H3 & Ho3); [by rewrite lookup_insert_ne|].
  rewrite delete_insert_ne in H3 by done.
  exists r, s3. split.
  - unfold relocate. step Ed. step E. rewrite (proj2 (Z.eqb_neq r NULL)) by (unfold NULL; lia).
    rewrite (M_bind_ret _ _ _ r s2); [by step E3|]. apply on_mem_run. apply memcpy_run; [done| |].
    + eapply mapped_le; [by apply bytes_at_mapped|lia].
    + unfold disjoint_from. destruct (Hap _ _ Hp); lia.
  - right. exists (list_inserts 0 old bs), ps1. split_and!; [done| |].
    + assert (Hpre : take (length (list_inserts 0 old bs)) old `prefix_of` list_inserts 0 old bs).
      { rewrite length_inserts, take_ge by lia. apply prefix_inserts. lia. }
      split; [apply Hpr|by rewrite length_inserts|by rewrite lookup_delete_ne| |done].
      intros q l [_ Hq]%lookup_delete_Some. rewrite length_inserts. by apply Hap.
    + eapply keeps_outside_trans; [done|]. by eapply keeps_outside_trans.
Qed.

(** The unused chunk on the right is joined and the surplus split off. *)
Lemma grow_right s ps C B a n k x :
  inv s ps C B → C !! a = Some (n, true) → C !! (a + n) = Some (k, false) → x mod 32 = 0 → n < x <= n + k →
  ∃ s' C' B', (heap_remove_chunk (a + n);; k' ← ld (chunk_size (a + n)); heap_chunk_format a (u64 (n + k'));; shrink a x) s
      = Ret (a + 16, s')
    ∧ inv s' ps C' B' ∧ C' !! a = Some (x, true) ∧ frame ps C (hmem s) (hmem s')
    ∧ (∀ c j, c ≠ a → C' !! c = Some (j, true) ↔ C !! c = Some (j, true)).
Proof.
  intros I Ha Hr Hx Hnx. pose proof (inv_geometry _ _ _ _ I) as G.
  pose proof (chunk_bounds _ _ _ _ _ G Ha) as BA. pose proof (chunk_bounds _ _ _ _ _ G Hr) as BR.
  destruct (remove_run _ _ _ _ _ _ I Hr) as (s1 & B1 & E1 & I1 & F1). set (C1 := <[a + n := (k, true)]> C) in *.
  assert (Ha1 : C1 !! a = Some (n, true)) by (unfold C1; rewrite lookup_insert_ne by lia; done).
  assert (Hr1 : C1 !! (a + n) = Some (k, true)) by apply lookup_insert_eq.
  destruct (join_run _ _ _ _ _ _ _ I1 Ha1 Hr1) as (s2 & E2 & I2 & F2). set (C2 := joined C1 a n k true) in *.
  assert (Ha2 : C2 !! a = Some (n + k, true)) by apply joined_self.
  destruct (shrink_run _ _ _ _ _ _ x I2 Ha2 Hx ltac:(lia) ltac:(lia)) as (s3 & B3 & E3 & I3 & F3).
  destruct (shrunk_used ps C2 a (n + k) x (inv_geometry _ _ _ _ I2) Ha2 Hx ltac:(lia)) as [Sa So].
  assert (Hu : ∀ c j, c ≠ a → C2 !! c = Some (j, true) ↔ C !! c = Some (j, true)).
  { intros c j Hne. unfold C2. destruct (decide (c = a + n)) as [->|Hne'].
    - rewrite Hr. split; [|done]. unfold joined. by rewrite lookup_insert_ne, lookup_delete_eq by lia.
    - rewrite joined_other by done. unfold C1. by rewrite lookup_insert_ne. }
  exists s3, (shrunk C2 a (n + k) x), B3. split_and!; [|done|done| |].
  - step E1. step (size_run _ _ _ _ _ _ _ I1 Hr1). rewrite wrapu_id by (unfold in_u; lia). by step E2.
  - intros y Hy. assert (Hy3 : protected ps (shrunk C2 a (n + k) x) y).
    { destruct Hy as [(c & j & Hc & Hy)|Hy]; [left|by right]. destruct (decide (c = a)) as [->|Hne].
      - assert (j = n) as -> by congruence. exists a, x. split; [done|lia].
      - exists c, j. split; [by apply So, Hu|done]. }
    assert (Hy2 : protected ps C2 y).
    { destruct Hy as [(c & j & Hc & Hy)|Hy]; [left|by right]. destruct (decide (c = a)) as [->|Hne].
      - assert (j = n) as -> by congruence. exists a, (n + k). split; [done|lia].
      - exists c, j. split; [by apply Hu|done]. }
    by rewrite (F3 _ Hy3), (F2 _ Hy2), (F1 _ Hy).
  - intros c j Hne. by rewrite So, Hu.
Qed.

(** A request that is too large is refused before anything is looked at. *)
Lemma realloc_large s p size :
  p ≠ NULL → 2 ^ 63 - 32 < size < 2 ^ 64 → realloc page_size mmap p size s = Ret (NULL, set_errno ENOMEM s).
Proof.
  intros Hp Hs. unfold realloc, heap_size_has_bin. rewrite (proj2 (Z.eqb_neq p NULL)) by done.
  rewrite size_of_bin by lia. change (2 ^ Z.of_nat 63) with (2 ^ 63).
  destruct (Z.leb_spec size (2 ^ 63)) as [H1|H1]; cbn [negb]; [|done].
  destruct (heap_align_spec size ltac:(lia)) as [Ha1 Ha2].
  assert (heap_align size = 2 ^ 63) as ->; [|done]. apply Z.mod_divide in Ha1 as [q Hq]; [|lia]. lia.
Qed.

Lemma realloc_sim s ps A p old size :
  heap_ok s ps A → A !! p = Some old → in_u 64 size →
  ∃ r s', realloc page_size mmap p size s = Ret (r, s') ∧ realloc_result s ps A p old size r s'.
Proof.
  intros H Hp [Hs0 Hs1]. pose proof H as (Hm & C & B & I & R). pose proof (block_chunk _ _ _ R _ _ Hp) as Hc.
  destruct (block_place _ _ _ _ _ H Hp) as (P1 & _ & P3 & _).
  assert (Hnz : p ≠ NULL) by (unfold NULL; lia).
  destruct (Z.lt_ge_cases (2 ^ 63 - 32) size) as [Hl|Hl].
  { eexists _, _. split; [by apply realloc_large|]. left. split_and!; [done|by apply heap_ok_errno|done|by left]. }
  assert (Hs : 0 <= size <= 2 ^ 63 - 32) by lia. destruct (chunk_for_spec size Hs) as (N1 & N2 & N3).
  set (n := Z.of_nat (length old) + 32) in *. set (a := p - 16) in *.
  assert (Hpa : p = a + 16) by (unfold a; lia).
  assert (Hkeep : ∀ s' C' B' T (c : M heap T) r, keeps_bytes c → c s = Ret (r, s') → inv s' ps C' B' →
    C' !! a = Some (chunk_for size, true) →
    (∀ c j, c ≠ a → C' !! c = Some (j, true) ↔ C !! c = Some (j, true)) →
    (∀ x, protected ps C x → protected ps C' x → hmem s' !! x = hmem s !! x) →
    realloc_result s ps A p old size p s').
  { intros s' C' B' T c r Hk E I' Hc' Ho F. eapply resized; [exact R| |done..]. by eapply Hk. }
  unfold realloc, heap_size_has_bin, heap_data_to_chunk, heap_chunk_to_data, sizeof_heap_chunk, sizeof_heap_chunk_post.
  rewrite (proj2 (Z.eqb_neq p NULL)) by done. change (16 + 16) with 32. fold a.
  change (32 + heap_align size) with (chunk_for size). rewrite (wrapu_id 64 (chunk_for size)) by (unfold in_u; lia).
  rewrite size_of_bin by lia. change (2 ^ Z.of_nat 63) with (2 ^ 63).
  rewrite !(proj2 (Z.leb_le _ (2 ^ 63))) by lia. cbn [negb].
  step (size_run _ _ _ _ _ _ _ I Hc). destruct (Z.eqb_spec n (chunk_for size)) as [En|En].
  { exists p, s. split; [by rewrite Hpa|]. eapply (Hkeep s C B _ (mret ()) ()); [apply keeps_ret|done|done| |done|done].
    by rewrite Hc, En. }
  destruct (Z.ltb_spec (chunk_for size) n) as [Hlt|Hlt].
  { destruct (shrink_run _ _ _ _ _ _ _ I Hc N1 ltac:(lia) ltac:(lia)) as (s' & B' & E & I' & F).
    destruct (shrunk_used ps C a n (chunk_for size) (inv_geometry _ _ _ _ I) Hc N1 ltac:(lia)) as [Sa So].
    exists p, s'. split; [by rewrite Hpa|]. eapply Hkeep; [apply keeps_shrink|exact E|done..|]. intros x _. apply F. }
  destruct (right_unused _ _ _ _ _ _ _ I Hc) as (r & f & Er & Eu & Hf). step Er. step Eu.
  assert (Hre : ∃ r s', relocate page_size mmap p size s = Ret (r, s') ∧ realloc_result s ps A p old size r s').
  { apply relocate_sim; [done..|]. fold n. lia. }
  destruct f; [|rewrite (M_bind_ret _ _ _ false s) by done; exact Hre].
  destruct Hf as (k & -> & Hr). pose proof (chunk_bounds _ _ _ _ _ (inv_geometry _ _ _ _ I) Hr) as HB.
  pose proof (chunk_bounds _ _ _ _ _ (inv_geometry _ _ _ _ I) Hc) as HB'.
  erewrite M_bind_ret; [|step (size_run _ _ _ _ _ _ _ I Hr); reflexivity].
  rewrite (wrapu_id 64 (n + k)) by (unfold in_u; lia).
  destruct (Z.leb_spec (chunk_for size) (n + k)) as [Hfit|Hfit]; [|exact Hre].
  destruct (grow_right _ _ _ _ _ _ _ (chunk_for size) I Hc Hr N1 ltac:(lia)) as (s' & C' & B' & E & I' & Ca & F & Co).
  exists p, s'. split; [by rewrite E, Hpa|]. eapply Hkeep; [|exact E|done..|intros x Hx _; by apply F]. keeps.
Qed.

(** ** Every call is a step *)

Lemma malloc_step s ps A size :
  heap_ok s ps A → in_u 64 size →
  ∃ r s' ps' A', malloc page_size mmap size s = Ret (r, s') ∧ astep A (Malloc size) r A'
    ∧ heap_ok s' ps' A' ∧ keeps_outside s ps s' ps'.
Proof.
  intros H Hs. destruct (malloc_sim s ps A size H Hs) as (r & s' & E & [(-> & H' & Em & Hf)|(bs & ps' & H' & Hp & Ho)]).
  - exists NULL, s', ps, A. split_and!; [done|by apply step_malloc_fail|done|]. intros x _ Hx. by rewrite Em.
  - exists r, s', ps', (<[r := bs]> A). split_and!; [done|by apply step_malloc|done..].
Qed.

Lemma realloc_step s ps A p size :
  heap_ok s ps A → in_u 64 size → p = NULL ∨ is_Some (A !! p) →
  ∃ r s' ps' A', realloc page_size mmap p size s = Ret (r, s') ∧ astep A (Realloc p size) r A'
    ∧ heap_ok s' ps' A' ∧ keeps_outside s ps s' ps'.
Proof.
  intros H Hs [->|[old Hp]].
  { destruct (malloc_step s ps A size H Hs) as (r & s' & ps' & A' & E & Ha & H' & Ho).
    exists r, s', ps', A'. split_and!; [done|by apply step_realloc_null|done..]. }
  destruct (realloc_sim s ps A p old size H Hp Hs) as (r & s' & E & [(-> & H' & Em & Hf)|(bs & ps' & H' & Hpr & Ho)]).
  - exists NULL, s', ps, A. split_and!; [done|by apply step_realloc_fail|done|]. intros x _ Hx. by rewrite Em.
  - exists r, s', ps', (<[r := bs]> (delete p A)). split_and!; [done|by eapply step_realloc|done..].
Qed.

Lemma reallocarray_step s ps A p nmemb size :
  heap_ok s ps A → in_u 64 nmemb → in_u 64 size → p = NULL ∨ is_Some (A !! p) →
  ∃ r s' ps' A', reallocarray page_size mmap p nmemb size s = Ret (r, s') ∧ astep A (Reallocarray p nmemb size) r A'
    ∧ heap_ok s' ps' A' ∧ keeps_outside s ps s' ps'.
Proof.
  intros H Hn Hs Hp. unfold reallocarray. rewrite product_overflow by done.
  destruct (Z.leb_spec (2 ^ 64) (nmemb * size)) as [Ho|Ho].
  - eexists _, _, ps, A. split_and!; [done| |by apply heap_ok_errno|by intros ? ?].
    apply step_reallocarray, step_realloc_fail. left. lia.
  - assert (Ht : in_u 64 (nmemb * size)) by (unfold in_u in *; nia). rewrite wrapu_id by done.
    destruct (realloc_step s ps A p (nmemb * size) H Ht Hp) as (r & s' & ps' & A' & E & Ha & H' & Ho').
    exists r, s', ps', A'. split_and!; [done|by apply step_reallocarray|done..].
Qed.

Lemma free_step s ps A p :
  heap_ok s ps A → p = NULL ∨ is_Some (A !! p) →
  ∃ s' A', free p s = Ret ((), s') ∧ astep A (Free p) 0 A' ∧ heap_ok s' ps A' ∧ keeps_outside s ps s' ps.
Proof.
  intros H [->|[bs Hp]].
  - exists s, A. split_and!; [done|apply step_free_null|done|apply keeps_outside_refl].
  - destruct (free_sim s ps A p bs H Hp) as (s' & E & H' & Ho). exists s', (delete p A).
    split_and!; [done|by apply step_free|done..].
Qed.

Lemma access_steps s ps A p i bs :
  heap_ok s ps A → A !! p = Some bs → (i < length bs)%nat →
  (∃ v, exec (Load p i) s = Ret (v, s) ∧ bs !! i = Some v)
  ∧ ∀ v, is_byte v → ∃ s', exec (Store p i v) s = Ret (0, s') ∧ heap_ok s' ps (<[p := <[i := v]> bs]> A)
         ∧ keeps_outside s ps s' ps.
Proof.
  intros H Hp Hi. assert (Hb : bytes_at (hmem s) p bs).
  { destruct H as (_ & C & B & _ & R). by apply (block_bytes _ _ _ R). }
  destruct (lookup_lt_is_Some_2 bs i Hi) as [w Hw]. assert (Hmi : hmem s !! (p + Z.of_nat i) = Some w).
  { destruct Hb as [_ Hb]. by rewrite Hb. }
  split.
  - exists w. split; [|done]. cbn [exec]. rewrite (on_mem_run _ s w (hmem s)); [by destruct s|]. unfold load. by rewrite Hmi.
  - intros v Hv. destruct (write_sim s ps A p i [v] bs H Hp) as [H' Ho]; [by constructor|simpl; lia|].
    eexists. split_and!; [|exact H'|exact Ho]. cbn [exec]. erewrite M_bind_ret; [reflexivity|].
    apply on_mem_run. unfold store. rewrite Hmi. cbn [mem_write]. by rewrite (wrapu_id 8).
Qed.

Lemma exec_step s ps A c :
  heap_ok s ps A → legal A c →
  ∃ r s' ps' A', exec c s = Ret (r, s') ∧ astep A c r A' ∧ heap_ok s' ps' A' ∧ keeps_outside s ps s' ps'.
Proof.
  intros H. destruct c as [size|nmemb size|p size|p nmemb size|p|p i v|p i]; cbn [exec legal].
  - by apply malloc_step.
  - intros [??]. by apply calloc_sim.
  - intros [??]. by apply realloc_step.
  - intros (?&?&?). by apply reallocarray_step.
  - intros Hp. destruct (free_step s ps A p H Hp) as (s' & A' & E & Ha & H' & Ho).
    exists 0, s', ps, A'. split_and!; [by step E|done..].
  - intros [Hv (bs & Hp & Hi)]. destruct (access_steps s ps A p i bs H Hp Hi) as [_ Hst].
    destruct (Hst v Hv) as (s' & E & H' & Ho). eexists 0, s', ps, _. split_and!; [exact E|by apply step_store|done..].
  - intros (bs & Hp & Hi). destruct (access_steps s ps A p i bs H Hp Hi) as [(v & E & Hv) _].
    exists v, s, ps, A. split_and!; [exact E|by eapply step_load|done|apply keeps_outside_refl].
Qed.

(** ** The heap of a program that starts *)

Lemma initial_inv m : inv (initial m) [] ∅ (replicate 64 []).
Proof.
  split; [| | |done|done].
  - split; try (intros *; rewrite lookup_empty; done); try (by intros ? ? ?%elem_of_nil); done.
  - split; try (intros *; rewrite lookup_empty; done); try (by intros ? ? ?%elem_of_nil); done.
  - assert (Hl : ∀ i (l : list Z), replicate 64 [] !! i = Some l → l = [] ∧ (i < 64)%nat).
    { intros i l ?%lookup_replicate. tauto. }
    split; [done|..|done].
    + intros i l [-> Hi]%Hl. by apply lookup_replicate_2.
    + by intros i l [-> _]%Hl.
    + intros i l [-> _]%Hl. apply NoDup_nil_2.
    + by intros i l a [-> _]%Hl ?%elem_of_nil.
    + by intros a n.
    + intros i l [-> _]%Hl. apply Z.bits_0.
Qed.

Lemma initial_ok m : byte_mem m → heap_ok (initial m) [] ∅.
Proof. intros Hm. split; [done|]. exists ∅, (replicate 64 []). split; [apply initial_inv|by split]. Qed.

(** ** Programs

    A client decides from the results it has had, the last one first, what to
    call next. *)
Definition client : Type := list Z → option call.

Fixpoint run_client (n : nat) (k : client) (h : list Z) : M heap (list Z) :=
  match n with
  | O => mret h
  | S n => match k h with None => mret h | Some c => r ← exec c; run_client n k (r :: h) end
  end.

(** The results and the blocks the abstract heap can have led to. *)
Inductive behaves (k : client) : list Z → blocks → Prop :=
  | behaves_start : behaves k [] ∅
  | behaves_step h A c r A' : behaves k h A → k h = Some c → astep A c r A' → behaves k (r :: h) A'.

(** The client only makes legal calls, whatever the abstract heap does. *)
Definition safe (k : client) : Prop := ∀ h A c, behaves k h A → k h = Some c → legal A c.

Lemma client_run k n h s ps A :
  safe k → behaves k h A → heap_ok s ps A →
  ∃ h' s' ps' A', run_client n k h s = Ret (h', s') ∧ behaves k h' A' ∧ heap_ok s' ps' A' ∧ keeps_outside s ps s' ps'.
Proof.
  intros Hk. revert h s ps A. induction n as [|n IH]; intros h s ps A Hb H; cbn [run_client].
  { exists h, s, ps, A. split_and!; [done..|apply keeps_outside_refl]. }
  destruct (k h) as [c|] eqn:Ec; [|exists h, s, ps, A; split_and!; [done..|apply keeps_outside_refl]].
  destruct (exec_step s ps A c H (Hk _ _ _ Hb Ec)) as (r & s1 & ps1 & A1 & E & Ha & H1 & Ho).
  destruct (IH (r :: h) s1 ps1 A1) as (h' & s' & ps' & A' & E' & Hb' & H' & Ho'); [by eapply behaves_step|done|].
  exists h', s', ps', A'. split_and!; [by step E|done..|by eapply keeps_outside_trans].
Qed.

(** C1.  The heap implements its specification.  A program that only uses the
    blocks it was given, started on an empty heap, runs without undefined
    behaviour for any number of calls of [malloc], [calloc], [realloc],
    [reallocarray] and [free] and of accesses to its blocks, whatever [mmap]
    does; the results it sees are results of the abstract heap, in which a new
    block is aligned to 32 bytes, apart from every other block, large enough,
    zeroed by [calloc] and a copy after [realloc], in which blocks keep their
    bytes, and an allocation fails only for want of memory or a size close to
    [2^63]; and the memory the program had before is as it was. *)
Theorem heap_refines m k n :
  byte_mem m → safe k →
  ∃ h s ps A, run_client n k [] (initial m) = Ret (h, s) ∧ behaves k h A ∧ heap_ok s ps A
    ∧ ∀ x, is_Some (m !! x) → hmem s !! x = m !! x.
Proof.
  intros Hm Hk. destruct (client_run k n [] (initial m) [] ∅ Hk (behaves_start k) (initial_ok m Hm))
    as (h & s & ps & A & E & Hb & H & Ho).
  exists h, s, ps, A. split_and!; [done..|]. intros x Hx. apply Ho; [done|]. by intros ? ? ?%elem_of_nil.
Qed.

(** ** No two neighbours are unused *)

(** The heap with the chunks [C], no two unused ones of which are neighbours. *)
Definition tidy (s : heap) (ps : list (Z * Z)) (C : chunks) : Prop := coalesced C ∧ ∃ B, inv s ps C B.

Lemma coalesced_taken ps C a k n :
  geometry ps C → coalesced C → C !! a = Some (k, false) → n mod 32 = 0 → 32 <= n <= k → coalesced (taken C a k n).
Proof.
  intros G Hco Ha Hn Hk. assert (Hfree : ∀ c j, <[a := (k, true)]> C !! c = Some (j, false) → c ≠ a ∧ C !! c = Some (j, false)).
  { intros c j. destruct (decide (c = a)) as [->|Hne]; [by rewrite lookup_insert_eq|].
    by rewrite lookup_insert_ne. }
  unfold taken, shrunk. destruct (Z.leb_spec 32 (k - n)) as [Hs|_].
  2: { intros c j i [_ Hc]%Hfree [_ Hci]%Hfree. by apply (Hco c j i). }
  set (C1 := <[a := (k, true)]> C) in *.
  assert (Hlk := split_lookup C1 a k n true false ltac:(lia)).
  assert (G1 : geometry ps C1) by by eapply geometry_flag.
  intros c j i [[_ [=]]|[[-> [= ->]]|(H1 & H2 & [_ Hc]%Hfree)]]%Hlk.
  - replace (a + n + (k - n)) with (a + k) by lia.
    intros [[? [=]]|[[? _]|(_ & _ & [_ Hci]%Hfree)]]%Hlk; [lia|]. by apply (Hco a k i).
  - intros [[_ [=]]|[[E _]|(_ & _ & [_ Hci]%Hfree)]]%Hlk; [|by apply (Hco c j i)].
    pose proof (chunk_sep _ _ G _ _ _ _ _ _ Hc Ha H1). pose proof (chunk_bounds _ _ _ _ _ G Hc). lia.
Qed.

(** C2.  [malloc] and [free] keep the chunks coalesced: in a heap no two
    neighbouring chunks of which are both unused, there are none after either
    of them. *)
Theorem malloc_free_tidy s ps C :
  tidy s ps C →
  (∀ size, in_u 64 size →
     ∃ r s' ps' C', malloc page_size mmap size s = Ret (r, s') ∧ tidy s' ps' C')
  ∧ (∀ a n, C !! a = Some (n, true) → ∃ s' C', free (a + 16) s = Ret ((), s') ∧ tidy s' ps C').
Proof.
  intros [Hco [B I]]. split.
  - intros size Hs. destruct (malloc_run page_size mmap s ps C B size I Hs) as [(s' & E & I' & _ & _)|(r & s' & E & Hsz & Ha)].
    + exists 0, s', ps, C. split; [done|]. split; [done|by exists B].
    + destruct Ha as (a & k & ps' & C1 & B' & -> & I' & G1 & Ha & Hk & _ & _ & _ & _ & Hc1).
      destruct (chunk_for_spec size ltac:(unfold in_u in Hs; lia)) as (N1 & N2 & _).
      eexists _, s', ps', _. split; [done|]. split; [|by exists B'].
      eapply coalesced_taken; [done|by apply Hc1|done..|unfold in_u in Hs; lia].
  - intros a n Ha. destruct (free_run _ _ _ _ _ _ I Ha) as (s' & C' & B' & E & I' & _ & _ & _ & Hc).
    exists s', C'. split; [done|]. split; [by apply Hc|by exists B'].
Qed.

End Client.

(** ** A system, and a program *)

(** Pages of 64 bytes, mapped where they are asked for when there is room. *)
Definition next_pages (m : mem) (hint n : Z) : option Z :=
  if (hint mod 64 =? 0) && (0 <? hint) && (hint + n <=? 2 ^ 63)
     && forallb (λ x, negb (bool_decide (is_Some (m !! x)))) (seqZ hint n)
  then Some hint else None.

#[export] Instance next_pages_system : System 64 next_pages.
Proof.
  assert (Hall : ∀ m hint n a, next_pages m hint n = Some a → a = hint ∧ hint mod 64 = 0 ∧ 0 < hint
    ∧ hint + n <= 2 ^ 63 ∧ ∀ x, hint <= x < hint + n → m !! x = None).
  { intros m hint n a. unfold next_pages. destruct (_ && _) eqn:E; [|done]. intros [= ->]. b2p.
    split_and!; [done..|]. intros x Hx.
    match goal with H : forallb _ _ = true |- _ => rewrite forallb_forall in H; specialize (H x) as Hf end.
    apply eq_None_not_Some. apply negb_true_iff, bool_decide_eq_false in Hf; [done|].
    apply list_elem_of_In, elem_of_seqZ. lia. }
  split; [done|lia|..].
  - intros m hint n a (-> & _ & _ & _ & H)%Hall. exact H.
  - by intros m hint n a (-> & ? & ? & _)%Hall.
  - by intros m hint n a (-> & _ & _ & ? & _)%Hall.
Qed.

(** Allocate ten bytes, write the fourth, read it, resize the block, free it. *)
Definition example_client : client := λ h,
  match h with
  | [] => Some (Malloc 10)
  | [p] => if p =? 0 then None else Some (Store p 3 65)
  | [_; p] => Some (Load p 3)
  | [_; _; p] => Some (Realloc p 1000)
  | [q; _; _; _] => if q =? 0 then None else Some (Free q)
  | _ => None
  end.

(** Where the client is after the results [h]. *)
Definition example_stage (h : list Z) (A : blocks) : Prop :=
  let block p := ∃ bs, A !! p = Some bs ∧ (10 <= length bs)%nat in
  match h with
  | [p] => p = 0 ∨ block p
  | [_; p] => block p
  | [_; _; p] => block p
  | [q; _; _; _] => q = 0 ∨ block q
  | _ => True
  end.

Lemma example_client_safe : safe next_pages example_client.
Proof.
  assert (Hst : ∀ h A, behaves next_pages example_client h A → example_stage h A).
  { induction 1 as [|h A c r A' _ IH Hc Ha]; [done|].
    destruct h as [|x1 [|x2 [|x3 [|x4 [|x5 h]]]]]; cbn [example_client] in Hc; simplify_eq; cbn [example_stage] in *.
    - inversion Ha as [size r' bs [_ Hs _ _ _]| | | | | | | | | | |]; subst; [right|by left].
      exists bs. split; [apply lookup_insert_eq|lia].
    - destruct (Z.eqb_spec x1 0) as [|H0]; simplify_eq. destruct IH as [|(bs & Hb & Hl)]; [done|].
      inversion Ha as [| | | | | | | | | |ptr i v bs' Hb' Hi|]; subst. rewrite Hb in Hb'. simplify_eq.
      eexists. split; [apply lookup_insert_eq|by rewrite length_insert].
    - inversion Ha; by subst.
    - inversion Ha as [| | | | |ptr size old r' bs Hold [_ Hs _ _ _]| | | | | |]; subst; try (by left).
      + destruct IH as (bs & Hb & _). match goal with H : astep _ _ (Malloc _) _ _ |- _ => inversion H as [? ? bs' [_ Hs' _ _ _]| | | | | | | | | | |] end; subst.
        * right. exists bs'. split; [apply lookup_insert_eq|lia].
        * by left.
      + right. exists bs. split; [apply lookup_insert_eq|lia].
    - done. }
  intros h A c Hb%Hst Hc. destruct h as [|x1 [|x2 [|x3 [|x4 [|x5 h]]]]]; cbn [example_client] in Hc; simplify_eq;
    cbn [example_stage legal] in *.
  - done.
  - destruct (Z.eqb_spec x1 0) as [|H0]; simplify_eq. destruct Hb as [|(bs & Hb & Hl)]; [done|].
    split; [done|]. exists bs. split; [done|lia].
  - destruct Hb as (bs & Hb & Hl). exists bs. split; [done|lia].
  - destruct Hb as (bs & Hb & Hl). split; [done|]. right. by exists bs.
  - destruct (Z.eqb_spec x1 0) as [|H0]; simplify_eq. destruct Hb as [|(bs & Hb & Hl)]; [done|]. right. by exists bs.
Qed.

Lemma heap_refines_witness :
  ∃ h s ps A, run_client 64 next_pages 5 example_client [] (initial (<[7 := 9]> ∅)) = Ret (h, s)
    ∧ behaves next_pages example_client h A ∧ heap_ok s ps A
    ∧ ∀ x, is_Some ((<[7 := 9]> ∅ : mem) !! x) → hmem s !! x = (<[7 := 9]> ∅ : mem) !! x.
Proof.
  apply (heap_refines 64 next_pages (<[7 := 9]> ∅) example_client 5).
  - intros x v. destruct (decide (x = 7)) as [->|Hne]; [|by rewrite lookup_insert_ne].
    rewrite lookup_insert_eq. intros [= <-]. unfold is_byte. lia.
  - apply example_client_safe.
Defined.

Lemma malloc_free_tidy_witness :
  (∀ size, in_u 64 size → ∃ r s' ps' C', malloc 64 next_pages size (initial ∅) = Ret (r, s') ∧ tidy s' ps' C')
  ∧ (∀ a n, (∅ : chunks) !! a = Some (n, true) → ∃ s' C', free (a + 16) (initial ∅) = Ret ((), s') ∧ tidy s' [] C').
Proof.
  apply (malloc_free_tidy 64 next_pages (initial ∅) [] ∅). split; [by intros ? ? ?|].
  exists (replicate 64 []). apply initial_inv.
Defined.

(** A block made smaller leaves what was split off beside the unused chunk that
    followed it: the comment of [malloc.h] that no neighbours are both unused
    does not hold after [realloc]. *)
Example realloc_not_tidy :
  (p ← malloc 64 next_pages 200; q ← realloc 64 next_pages p 10;
   c1 ← heap_chunk_right (heap_data_to_chunk q); c2 ← heap_chunk_right c1;
   u1 ← is_unused c1; u2 ← is_unused c2; mret (u1, u2)) (initial ∅) ≫= (λ x, Ret x.1)
  = Ret (true, true).
Proof. vm_compute. reflexivity. Qed.

End HeapClient.
