(* ===== verification/Stdio.v ===== *)
(** * Buffered streams

    [stdio/*_unlocked.c] over the [FILE] of [include/FILE.h], and [getdelim.c].
    A stream is a record with the fields of [struct __FILE]; what lies below it
    is reached through the functions [read_func], [write_func] and [seek_func]
    it holds, which act on the state [user].  The functions are the critical
    sections of the stream's lock, which is not modelled, nor is the list of
    open streams. *)

From S2P Require Import Prelude.
From stdpp Require Import base list numbers.
From Stdlib Require Import ZArith Lia.

#[local] Open Scope Z_scope.
#[local] Open Scope c_scope.

Module Stdio.

Definition _FILE_BUFFER_MODE_SET : Z := Z.shiftl 1 1.
Definition _FILE_LAST_WRITE : Z := Z.shiftl 1 2.
Definition _FILE_LAST_READ : Z := Z.shiftl 1 3.
Definition _FILE_STATUS_ERROR : Z := Z.shiftl 1 5.
Definition _FILE_STATUS_EOF : Z := Z.shiftl 1 6.
Definition _FILE_READABLE : Z := Z.shiftl 1 7.
Definition _FILE_WRITABLE : Z := Z.shiftl 1 8.

Definition _FILE_MAX_PUSHBACK : Z := 8.
Definition BUFSIZ : Z := 8192.
Definition EOF : Z := -1.
Definition _IOFBF : Z := 0.
Definition _IOLBF : Z := 1.
Definition _IONBF : Z := 2.
Definition SEEK_SET : Z := 0.
Definition SEEK_CUR : Z := 1.
Definition SEEK_END : Z := 2.
Definition SSIZE_MAX : Z := 9223372036854775807.

(** A function of the user of the stream acts on its state, and fails with an
    error or gives a result. *)
Definition result (A : Type) : Type := (errno + A)%type.

Record FILE (U : Type) := {
  buffer : option (list Z);
  user : U;
  read_func : option (Z → M U (result (list Z)));
  write_func : option (list Z → M U (result Z));
  seek_func : option (Z → Z → M U (result Z));
  flags : Z;
  buffer_mode : Z;
  fd : Z;
  offset_input_buffer : Z;
  amount_input_buffered : Z;
  amount_output_buffered : Z;
  ferrno : option errno
}.
Arguments buffer {U} _.
Arguments user {U} _.
Arguments read_func {U} _.
Arguments write_func {U} _.
Arguments seek_func {U} _.
Arguments flags {U} _.
Arguments buffer_mode {U} _.
Arguments fd {U} _.
Arguments offset_input_buffer {U} _.
Arguments amount_input_buffered {U} _.
Arguments amount_output_buffered {U} _.
Arguments ferrno {U} _.

Section Stream.
Context {U : Type}.

(** ** Fields *)

Definition set_buffer (b : option (list Z)) (fp : FILE U) : FILE U :=
  {| buffer := b; user := user fp; read_func := read_func fp; write_func := write_func fp;
     seek_func := seek_func fp; flags := flags fp; buffer_mode := buffer_mode fp; fd := fd fp;
     offset_input_buffer := offset_input_buffer fp; amount_input_buffered := amount_input_buffered fp;
     amount_output_buffered := amount_output_buffered fp; ferrno := ferrno fp |}.

Definition set_user (u : U) (fp : FILE U) : FILE U :=
  {| buffer := buffer fp; user := u; read_func := read_func fp; write_func := write_func fp;
     seek_func := seek_func fp; flags := flags fp; buffer_mode := buffer_mode fp; fd := fd fp;
     offset_input_buffer := offset_input_buffer fp; amount_input_buffered := amount_input_buffered fp;
     amount_output_buffered := amount_output_buffered fp; ferrno := ferrno fp |}.

Definition set_flags (f : Z) (fp : FILE U) : FILE U :=
  {| buffer := buffer fp; user := user fp; read_func := read_func fp; write_func := write_func fp;
     seek_func := seek_func fp; flags := f; buffer_mode := buffer_mode fp; fd := fd fp;
     offset_input_buffer := offset_input_buffer fp; amount_input_buffered := amount_input_buffered fp;
     amount_output_buffered := amount_output_buffered fp; ferrno := ferrno fp |}.

Definition set_mode (mode : Z) (fp : FILE U) : FILE U :=
  {| buffer := buffer fp; user := user fp; read_func := read_func fp; write_func := write_func fp;
     seek_func := seek_func fp; flags := flags fp; buffer_mode := mode; fd := fd fp;
     offset_input_buffer := offset_input_buffer fp; amount_input_buffered := amount_input_buffered fp;
     amount_output_buffered := amount_output_buffered fp; ferrno := ferrno fp |}.

Definition set_input (offset amount : Z) (fp : FILE U) : FILE U :=
  {| buffer := buffer fp; user := user fp; read_func := read_func fp; write_func := write_func fp;
     seek_func := seek_func fp; flags := flags fp; buffer_mode := buffer_mode fp; fd := fd fp;
     offset_input_buffer := offset; amount_input_buffered := amount;
     amount_output_buffered := amount_output_buffered fp; ferrno := ferrno fp |}.

Definition set_output (amount : Z) (fp : FILE U) : FILE U :=
  {| buffer := buffer fp; user := user fp; read_func := read_func fp; write_func := write_func fp;
     seek_func := seek_func fp; flags := flags fp; buffer_mode := buffer_mode fp; fd := fd fp;
     offset_input_buffer := offset_input_buffer fp; amount_input_buffered := amount_input_buffered fp;
     amount_output_buffered := amount; ferrno := ferrno fp |}.

Definition set_ferrno (e : option errno) (fp : FILE U) : FILE U :=
  {| buffer := buffer fp; user := user fp; read_func := read_func fp; write_func := write_func fp;
     seek_func := seek_func fp; flags := flags fp; buffer_mode := buffer_mode fp; fd := fd fp;
     offset_input_buffer := offset_input_buffer fp; amount_input_buffered := amount_input_buffered fp;
     amount_output_buffered := amount_output_buffered fp; ferrno := e |}.

Definition this : M (FILE U) (FILE U) := λ fp, Ret (fp, fp).
Definition upd (f : FILE U → FILE U) : M (FILE U) () := λ fp, Ret ((), f fp).

(** [fp->flags & flag], [fp->flags |= flag] and [fp->flags &= ~flag]. *)
Definition has (flag : Z) (fp : FILE U) : bool := negb (Z.land (flags fp) flag =? 0).
Definition add (flag : Z) (fp : FILE U) : FILE U := set_flags (Z.lor (flags fp) flag) fp.
Definition remove (flag : Z) (fp : FILE U) : FILE U := set_flags (Z.land (flags fp) (Z.lnot flag)) fp.

(** [return errno = EBADF, fp->flags |= _FILE_STATUS_ERROR, r]. *)
Definition bad {A} (r : A) : M (FILE U) A :=
  upd (set_ferrno (Some EBADF));; upd (add _FILE_STATUS_ERROR);; mret r.

(** ** Calls of the user's functions

    An error sets [errno].  A read of more than was asked for overruns the
    caller's buffer; a null function cannot be called. *)
Definition call_read (count : Z) : M (FILE U) (result (list Z)) := λ fp,
  match read_func fp with
  | None => Undef
  | Some f =>
      match f count (user fp) with
      | Ret (inl e, u) => Ret (inl e, set_ferrno (Some e) (set_user u fp))
      | Ret (inr l, u) => if Z.of_nat (length l) <=? count then Ret (inr l, set_user u fp) else Undef
      | Undef => Undef
      | OutOfFuel => OutOfFuel
      end
  end.

Definition call_write (l : list Z) : M (FILE U) (result Z) := λ fp,
  match write_func fp with
  | None => Undef
  | Some f =>
      match f l (user fp) with
      | Ret (inl e, u) => Ret (inl e, set_ferrno (Some e) (set_user u fp))
      | Ret (inr n, u) => Ret (inr n, set_user u fp)
      | Undef => Undef
      | OutOfFuel => OutOfFuel
      end
  end.

(** Negative on error. *)
Definition call_seek (offset whence : Z) : M (FILE U) Z := λ fp,
  match seek_func fp with
  | None => Undef
  | Some f =>
      match f offset whence (user fp) with
      | Ret (inl e, u) => Ret (-1, set_ferrno (Some e) (set_user u fp))
      | Ret (inr n, u) => Ret (n, set_user u fp)
      | Undef => Undef
      | OutOfFuel => OutOfFuel
      end
  end.

(** Whether the stream has the function. *)
Definition null {A} (f : option A) : bool := match f with None => true | Some _ => false end.

Definition clamp_ssize (request : Z) : Z := if SSIZE_MAX <? request then SSIZE_MAX else request.

(** ** The buffer *)

Definition buffer_get (i : Z) : M (FILE U) Z := λ fp,
  match buffer fp with
  | Some b => match (if i <? 0 then None else b !! Z.to_nat i) with Some x => Ret (x, fp) | None => Undef end
  | None => Undef
  end.

Definition buffer_write (i : Z) (l : list Z) : M (FILE U) () := λ fp,
  match buffer fp with
  | Some b => b' ← write_at b i l; Ret ((), set_buffer (Some b') fp)
  | None => Undef
  end.

(** The [n] bytes from [i]. *)
Definition buffer_slice (i n : Z) : M (FILE U) (list Z) := λ fp,
  match buffer fp with
  | Some b => if (0 <=? i) && (0 <=? n) && (i + n <=? Z.of_nat (length b))
              then Ret (take (Z.to_nat n) (drop (Z.to_nat i) b), fp) else Undef
  | None => Undef
  end.

(** ** Flushing *)

Definition fflush_stop_reading_unlocked : M (FILE U) Z :=
  fp ← this;
  if negb (has _FILE_LAST_READ fp) then mret 0 else
  if negb (has _FILE_READABLE fp) then bad EOF else
  let saved_errno := ferrno fp in
  my_pos ← (if null (seek_func fp) then mret (-1) else call_seek 0 SEEK_CUR);
  upd (set_ferrno saved_errno);;
  ret ← (if 0 <=? my_pos then
           let buffer_ahead := u64 (amount_input_buffered fp - offset_input_buffer fp) in
           let expected_pos := if u64 my_pos <? buffer_ahead then 0 else s64 (u64 my_pos - buffer_ahead) in
           r ← call_seek expected_pos SEEK_SET;
           if r <? 0 then upd (add _FILE_STATUS_ERROR);; mret EOF else mret 0
         else mret 0);
  upd (set_input 0 0);;
  upd (remove _FILE_LAST_READ);;
  mret ret.

(** The loop that writes the buffer out, from [sofar] on. *)
Fixpoint write_out (fuel : nat) (count sofar : Z) : M (FILE U) Z :=
  match fuel with
  | O => M_nofuel
  | S fuel =>
      if sofar <? count then
        let request := clamp_ssize (u64 (count - sofar)) in
        l ← buffer_slice sofar request;
        amount ← call_write l;
        match amount with
        | inl _ => upd (add _FILE_STATUS_ERROR);; mret EOF
        | inr amount =>
            if amount =? 0 then upd (add _FILE_STATUS_EOF);; mret EOF
            else write_out fuel count (u64 (sofar + amount))
        end
      else mret 0
  end.

Definition fflush_stop_writing_unlocked : M (FILE U) Z :=
  fp ← this;
  if negb (has _FILE_LAST_WRITE fp) then mret 0 else
  if negb (has _FILE_WRITABLE fp) then bad EOF else
  if null (write_func fp) then bad EOF else
  let count := amount_output_buffered fp in
  result ← write_out (S (Z.to_nat count)) count 0;
  upd (set_output 0);;
  upd (remove _FILE_LAST_WRITE);;
  mret result.

Definition fflush_unlocked : M (FILE U) Z :=
  fp ← this;
  a ← (if has _FILE_LAST_READ fp then r ← fflush_stop_reading_unlocked; mret (r =? EOF) else mret false);
  if a : bool then mret EOF else
  fp ← this;
  b ← (if has _FILE_LAST_WRITE fp then r ← fflush_stop_writing_unlocked; mret (r =? EOF) else mret false);
  if b : bool then mret EOF else mret 0.

(** ** The mode of the buffer *)

Definition fileno_unlocked : M (FILE U) Z := fp ← this; mret (fd fp).

Section Terminal.
Context (isatty : Z → bool).

(** The caller's buffer and its size are not used. *)
Definition setvbuf_unlocked (mode : Z) : M (FILE U) Z :=
  mode ← (if mode =? -1 then
            n ← fileno_unlocked; mret (if isatty n then _IOLBF else _IOFBF)
          else mret mode);
  fp ← this;
  let mode := if null (buffer fp) then _IONBF else mode in
  upd (set_mode mode);;
  upd (add _FILE_BUFFER_MODE_SET);;
  mret 0.

(** [if ( !(fp->flags & _FILE_BUFFER_MODE_SET) ) setvbuf_unlocked(...)]. *)
Definition ensure_mode : M (FILE U) () :=
  fp ← this;
  if has _FILE_BUFFER_MODE_SET fp then mret ()
  else setvbuf_unlocked (buffer_mode fp);; mret ().

(** [if ( fp->flags & _FILE_LAST_WRITE ) fflush_stop_writing_unlocked(fp)]. *)
Definition stop_writing : M (FILE U) () :=
  fp ← this; if has _FILE_LAST_WRITE fp then fflush_stop_writing_unlocked;; mret () else mret ().

Definition stop_reading : M (FILE U) () :=
  fp ← this; if has _FILE_LAST_READ fp then fflush_stop_reading_unlocked;; mret () else mret ().

(** ** Reading *)

(** Read without the buffer: the number of bytes and the bytes. *)
Fixpoint read_direct (fuel : nat) (count sofar : Z) (acc : list Z) : M (FILE U) (Z * list Z) :=
  match fuel with
  | O => M_nofuel
  | S fuel =>
      if sofar <? count then
        let request := clamp_ssize (u64 (count - sofar)) in
        amount ← call_read request;
        match amount with
        | inl _ => upd (add _FILE_STATUS_ERROR);; mret (sofar, acc)
        | inr l =>
            if Z.of_nat (length l) =? 0 then upd (add _FILE_STATUS_EOF);; mret (sofar, acc)
            else read_direct fuel count (u64 (sofar + Z.of_nat (length l))) (acc ++ l)
        end
      else mret (sofar, acc)
  end.

Section Read.
Context (fgetc : M (FILE U) Z).

(** The bytes of an element; [None] when the stream ends within it. *)
Fixpoint read_element (i : nat) (acc : list Z) : M (FILE U) (bool * list Z) :=
  match i with
  | O => mret (true, acc)
  | S i =>
      c ← fgetc;
      if c =? EOF then mret (false, acc) else read_element i (acc ++ [u8 c])
  end.

Fixpoint read_elements (element_size n : nat) (done : Z) (acc : list Z) : M (FILE U) (Z * list Z) :=
  match n with
  | O => mret (done, acc)
  | S n =>
      '(ok, acc) ← read_element element_size acc;
      if ok : bool then read_elements element_size n (done + 1) acc else mret (done, acc)
  end.

(** The number of elements read and the bytes stored. *)
Definition fread_with (element_size num_elements : Z) : M (FILE U) (Z * list Z) :=
  fp ← this;
  if negb (has _FILE_READABLE fp) then bad (0, []) else
  let count := u64 (element_size * num_elements) in
  if count =? 0 then mret (num_elements, []) else
  if buffer_mode fp =? _IONBF then
    ensure_mode;;
    if null (read_func fp) then bad (0, []) else
    stop_writing;;
    upd (add _FILE_LAST_READ);;
    upd (remove _FILE_STATUS_EOF);;
    '(sofar, l) ← read_direct (S (Z.to_nat count)) count 0 [];
    mret (sofar / element_size, l)
  else read_elements (Z.to_nat element_size) (Z.to_nat num_elements) 0 [].

End Read.

(** Fill the buffer when it is empty; whether there is a byte to take. *)
Definition fill_input : M (FILE U) bool :=
  fp ← this;
  if negb (offset_input_buffer fp <? amount_input_buffered fp) then
    if null (buffer fp) then M_undef else
    let pushback := if BUFSIZ <=? _FILE_MAX_PUSHBACK then 0 else _FILE_MAX_PUSHBACK in
    let count := clamp_ssize (BUFSIZ - pushback) in
    numread ← call_read count;
    match numread with
    | inl _ => upd (add _FILE_STATUS_ERROR);; mret false
    | inr l =>
        if Z.of_nat (length l) =? 0 then upd (add _FILE_STATUS_EOF);; mret false
        else
          buffer_write pushback l;;
          upd (set_input pushback (pushback + Z.of_nat (length l)));;
          mret true
    end
  else mret true.

(** The call of [fread_unlocked] is on an unbuffered stream, where it does not
    call back. *)
Definition fgetc_unlocked : M (FILE U) Z :=
  fp ← this;
  if negb (has _FILE_READABLE fp) then bad EOF else
  ensure_mode;;
  fp ← this;
  if buffer_mode fp =? _IONBF then
    '(n, l) ← fread_with M_undef 1 1;
    if n =? 1 then match l with c :: _ => mret c | [] => M_undef end else mret EOF
  else
  if null (read_func fp) then bad EOF else
  stop_writing;;
  upd (add _FILE_LAST_READ);;
  upd (remove _FILE_STATUS_EOF);;
  more ← fill_input;
  if more : bool then
    fp ← this;
    c ← buffer_get (offset_input_buffer fp);
    upd (set_input (offset_input_buffer fp + 1) (amount_input_buffered fp));;
    mret c
  else mret EOF.

Definition fread_unlocked (element_size num_elements : Z) : M (FILE U) (Z * list Z) :=
  fread_with fgetc_unlocked element_size num_elements.

Definition ungetc_unlocked (c : Z) : M (FILE U) Z :=
  if c =? EOF then mret EOF else
  fp ← this;
  if negb (has _FILE_READABLE fp) then bad EOF else
  ensure_mode;;
  stop_writing;;
  upd (add _FILE_LAST_READ);;
  fp ← this;
  if buffer_mode fp =? _IONBF then bad EOF else
  room ← (if offset_input_buffer fp =? 0 then
            let amount := u64 (amount_input_buffered fp - offset_input_buffer fp) in
            let offset := u64 (BUFSIZ - amount) in
            if offset =? 0 then mret false else
            l ← buffer_slice 0 amount;
            buffer_write offset l;;
            upd (set_input offset (u64 (offset + amount)));;
            mret true
          else mret true);
  if room : bool then
    fp ← this;
    buffer_write (offset_input_buffer fp - 1) [u8 c];;
    upd (set_input (offset_input_buffer fp - 1) (amount_input_buffered fp));;
    upd (remove _FILE_STATUS_EOF);;
    mret c
  else mret EOF.

(** ** Writing *)

Fixpoint write_direct (fuel : nat) (buf : list Z) (count sofar : Z) : M (FILE U) Z :=
  match fuel with
  | O => M_nofuel
  | S fuel =>
      if sofar <? count then
        let request := clamp_ssize (u64 (count - sofar)) in
        amount ← call_write (take (Z.to_nat request) (drop (Z.to_nat sofar) buf));
        match amount with
        | inl _ => upd (add _FILE_STATUS_ERROR);; mret sofar
        | inr amount =>
            if amount =? 0 then upd (add _FILE_STATUS_EOF);; mret sofar
            else write_direct fuel buf count (u64 (sofar + amount))
        end
      else mret sofar
  end.

Section Write.
Context (fputc : Z → M (FILE U) Z).

Fixpoint write_element (l : list Z) : M (FILE U) bool :=
  match l with
  | [] => mret true
  | c :: l => r ← fputc c; if r =? EOF then mret false else write_element l
  end.

Fixpoint write_elements (element_size n : nat) (buf : list Z) (done : Z) : M (FILE U) Z :=
  match n with
  | O => mret done
  | S n =>
      ok ← write_element (take element_size buf);
      if ok : bool then write_elements element_size n (drop element_size buf) (done + 1) else mret done
  end.

(** [buf] holds the elements. *)
Definition fwrite_with (buf : list Z) (element_size num_elements : Z) : M (FILE U) Z :=
  fp ← this;
  if negb (has _FILE_WRITABLE fp) then bad 0 else
  let count := u64 (element_size * num_elements) in
  if count =? 0 then mret num_elements else
  if buffer_mode fp =? _IONBF then
    ensure_mode;;
    if null (write_func fp) then bad 0 else
    stop_reading;;
    upd (add _FILE_LAST_WRITE);;
    upd (remove _FILE_STATUS_EOF);;
    sofar ← write_direct (S (Z.to_nat count)) buf count 0;
    mret (sofar / element_size)
  else write_elements (Z.to_nat element_size) (Z.to_nat num_elements) buf 0.

End Write.

Definition fputc_unlocked (c : Z) : M (FILE U) Z :=
  fp ← this;
  if negb (has _FILE_WRITABLE fp) then bad EOF else
  ensure_mode;;
  fp ← this;
  if buffer_mode fp =? _IONBF then
    n ← fwrite_with (λ _, M_undef) [u8 c] 1 1;
    if n =? 1 then mret c else mret EOF
  else
  if null (write_func fp) then bad EOF else
  stop_reading;;
  upd (add _FILE_LAST_WRITE);;
  upd (remove _FILE_STATUS_EOF);;
  fp ← this;
  buffer_write (amount_output_buffered fp) [u8 c];;
  upd (set_output (amount_output_buffered fp + 1));;
  fp ← this;
  if (amount_output_buffered fp =? BUFSIZ) || ((buffer_mode fp =? _IOLBF) && (c =? 10)) then
    r ← fflush_unlocked;
    if r =? EOF then mret EOF else mret c
  else mret c.

Definition fwrite_unlocked (buf : list Z) (element_size num_elements : Z) : M (FILE U) Z :=
  fwrite_with fputc_unlocked buf element_size num_elements.

(** ** Position *)

Definition fseeko_unlocked (offset whence : Z) : M (FILE U) Z :=
  fp ← this;
  if null (seek_func fp) then upd (set_ferrno (Some EBADF));; mret (-1) else
  r ← fflush_unlocked;
  if negb (r =? 0) then mret (-1) else
  r ← call_seek offset whence;
  if r <? 0 then mret (-1) else
  upd (remove _FILE_STATUS_EOF);;
  mret 0.

Definition ftello_unlocked : M (FILE U) Z :=
  fp ← this;
  if null (seek_func fp) then bad (-1) else
  offset ← call_seek 0 SEEK_CUR;
  if offset <? 0 then mret (-1) else
  let read_ahead := s64 (u64 (amount_input_buffered fp - offset_input_buffer fp)) in
  let write_behind := s64 (amount_output_buffered fp) in
  if offset <? read_ahead then mret 0 else
  M_lift (x ← checked 64 (offset - read_ahead); checked 64 (x + write_behind)).

(** ** Status *)

Definition clearerr_unlocked : M (FILE U) () := upd (remove _FILE_STATUS_ERROR).
Definition feof_unlocked : M (FILE U) Z := fp ← this; mret (if has _FILE_STATUS_EOF fp then 1 else 0).
Definition ferror_unlocked : M (FILE U) Z := fp ← this; mret (if has _FILE_STATUS_ERROR fp then 1 else 0).

(** ** Lines and strings *)

(** The loop of [fgets]: the characters read. *)
Fixpoint fgets_loop (n : nat) (acc : list Z) : M (FILE U) (list Z) :=
  match n with
  | O => mret acc
  | S n =>
      c ← fgetc_unlocked;
      if c =? EOF then mret acc else
      if c =? 10 then mret (acc ++ [c]) else fgets_loop n (acc ++ [c])
  end.

(** What is stored at [dest], the terminator included, or nothing for null. *)
Definition fgets_unlocked (size : Z) : M (FILE U) (option (list Z)) :=
  if size <=? 0 then upd (set_ferrno (Some EINVAL));; mret None else
  l ← fgets_loop (Z.to_nat (size - 1)) [];
  e ← ferror_unlocked;
  f ← feof_unlocked;
  if (length l =? 0)%nat && (negb (e =? 0) || negb (f =? 0)) then mret None
  else mret (Some (l ++ [0])).

Definition fputs_unlocked (str : list Z) : M (FILE U) Z :=
  let stringlen := Z.of_nat (length str) in
  n ← fwrite_unlocked str 1 stringlen;
  if n <? stringlen then mret EOF else mret 0.

(** *** [getdelim]

    The caller's buffer and its size; [realloc] is given the old block. *)
Section Getdelim.
Context (realloc : option (list Z) → Z → option (list Z)).

Definition DEFAULT_BUFSIZE : Z := 32.

(** [failure]: what is returned, with the buffer and its size. *)
Definition getdelim_failure {A} (err : errno) (buf : A) : M (FILE U) (Z * A) :=
  upd (add _FILE_STATUS_ERROR);; upd (set_ferrno (Some err));; mret (-1, buf).

(** [( *lineptr)[i] = x]. *)
Definition line_put (line : option (list Z)) (i x : Z) : M (FILE U) (option (list Z)) :=
  match line with
  | None => M_undef
  | Some b => M_lift (b ← write_at b i [u8 x]; Ret (Some b))
  end.

(** Room for another character and the terminator. *)
Definition line_room (line : option (list Z)) (n written : Z) : option (option (list Z) * Z) :=
  if n <=? u64 (written + 1) then
    let newbufsize := if n =? 0 then DEFAULT_BUFSIZE else u64 (2 * n) in
    match realloc line newbufsize with
    | None => None
    | Some newbuf => Some (Some newbuf, newbufsize)
    end
  else Some (line, n).

Fixpoint getdelim_loop (fuel : nat) (delim : Z) (line : option (list Z)) (n written : Z)
    : M (FILE U) (Z * (option (list Z) * Z)) :=
  match fuel with
  | O => M_nofuel
  | S fuel =>
      if written =? SSIZE_MAX then getdelim_failure ENOMEM (line, n) else
      match line_room line n written with
      | None => getdelim_failure ENOMEM (line, n)
      | Some (line, n) =>
          c ← fgetc_unlocked;
          if c =? EOF then
            e ← ferror_unlocked;
            if (written =? 0) || negb (e =? 0) then mret (-1, (line, n)) else
            line ← line_put line written 0; mret (written, (line, n))
          else
            line ← line_put line written c;
            if negb (c =? delim) then getdelim_loop fuel delim line n (written + 1) else
            line ← line_put line (written + 1) 0; mret (written + 1, (line, n))
      end
  end.

(** [lineptr] and [n] may be null. *)
Definition getdelim (fuel : nat) (lineptr : option (option (list Z))) (n : option Z) (delim : Z)
    : M (FILE U) (Z * option (option (list Z) * Z)) :=
  match lineptr, n with
  | Some line, Some n =>
      let n := match line with None => 0 | Some _ => n end in
      '(r, out) ← getdelim_loop fuel delim line n 0; mret (r, Some out)
  | _, _ => getdelim_failure EINVAL None
  end.

End Getdelim.

End Terminal.

End Stream.

End Stdio.
