(* ===== verification/StdioSpec.v ===== *)
(** * What a stream promises

    A stream over a device that behaves like a file is that file: whatever the
    mode of the buffer and however the device cuts reads and writes up, the
    functions of [Stdio] do to the content and the position what they would do
    without a buffer.  The device is a class; [Fmemopen] has an instance. *)

From S2P Require Import Prelude Memory Stdio.
From stdpp Require Import base list numbers.
From Stdlib Require Import ZArith Lia.
Import Mem(is_byte) Stdio.

#[local] Open Scope Z_scope.

Module StdioSpec.

(** ** Overwriting a stretch of a file

    What lies between the end of the file and the position becomes zero. *)
Definition overwrite (d : list Z) (p : nat) (l : list Z) : list Z :=
  match l with
  | [] => d
  | _ => take p (d ++ replicate (p - length d) 0) ++ l ++ drop (p + length l) d
  end.

Lemma overwrite_length d p l :
  l ≠ [] → length (overwrite d p l) = Nat.max (p + length l) (length d).
Proof.
  intros Hl. unfold overwrite. destruct l as [|x l]; [done|].
  rewrite !length_app, length_take, length_app, length_replicate, length_drop. simpl. lia.
Qed.

Lemma overwrite_lookup d p l i :
  l ≠ [] →
  overwrite d p l !! i =
    if decide (i < p)%nat then (if decide (i < length d)%nat then d !! i else Some 0)
    else if decide (i < p + length l)%nat then l !! (i - p)%nat else d !! i.
Proof.
  intros Hl. unfold overwrite. destruct l as [|x l]; [done|]. set (l' := x :: l).
  assert (Hp : length (take p (d ++ replicate (p - length d) 0)) = p).
  { rewrite length_take, length_app, length_replicate. lia. }
  case_decide as H1.
  - rewrite lookup_app_l by lia. rewrite lookup_take_lt by lia. case_decide as H2.
    + by rewrite lookup_app_l.
    + rewrite lookup_app_r by lia. apply lookup_replicate_2. lia.
  - rewrite lookup_app_r by lia. rewrite Hp. case_decide as H2.
    + rewrite lookup_app_l by lia. done.
    + rewrite lookup_app_r by lia. rewrite lookup_drop. f_equal. lia.
Qed.

Lemma overwrite_app d p l1 l2 :
  overwrite (overwrite d p l1) (p + length l1) l2 = overwrite d p (l1 ++ l2).
Proof.
  destruct (decide (l1 = [])) as [->|H1]; [by rewrite Nat.add_0_r|].
  destruct (decide (l2 = [])) as [->|H2]; [by rewrite app_nil_r|].
  assert (H12 : l1 ++ l2 ≠ []) by (by intros [? ?]%app_eq_nil).
  apply list_eq. intros i. rewrite !overwrite_lookup, overwrite_length, length_app by done.
  repeat case_decide; try lia; try done.
  - by rewrite lookup_app_l by lia.
  - rewrite lookup_app_r by lia. f_equal. lia.
Qed.

Lemma overwrite_bytes d p l :
  Forall is_byte d → Forall is_byte l → Forall is_byte (overwrite d p l).
Proof.
  intros Hd Hl. unfold overwrite. destruct l; [done|].
  rewrite !Forall_app. split_and!; [|done|by apply Forall_drop].
  apply Forall_take, Forall_app. split; [done|]. apply Forall_replicate. unfold is_byte. lia.
Qed.

(** ** Flags *)

Section Flags.
Context {U : Type}.

Lemma has_flag_bit i (fp : FILE U) : 0 <= i → has (Z.shiftl 1 i) fp = Z.testbit (flags fp) i.
Proof.
  intros Hi. unfold has. rewrite shiftl_mul, Z.mul_1_l by done.
  destruct (Z.testbit (flags fp) i) eqn:E.
  - apply negb_true_iff, Z.eqb_neq. intros H0. assert (Hb : Z.testbit (Z.land (flags fp) (2 ^ i)) i = false).
    { by rewrite H0, Z.bits_0. }
    rewrite Z.land_spec, E, Z.pow2_bits_true in Hb by done. done.
  - apply negb_false_iff, Z.eqb_eq, Z.bits_inj'. intros j Hj. rewrite Z.land_spec, Z.bits_0.
    destruct (decide (j = i)) as [->|Hne]; [by rewrite E|]. by rewrite Z.pow2_bits_false, andb_false_r.
Qed.

Lemma has_add i j (fp : FILE U) :
  0 <= i → 0 <= j → has (Z.shiftl 1 i) (add (Z.shiftl 1 j) fp) = (i =? j) || has (Z.shiftl 1 i) fp.
Proof.
  intros Hi Hj. rewrite !has_flag_bit by done. unfold add. cbn [flags set_flags]. rewrite Z.lor_spec, orb_comm.
  f_equal. rewrite shiftl_mul, Z.mul_1_l, Z.pow2_bits_eqb by done. apply Z.eqb_sym.
Qed.

Lemma has_remove i j (fp : FILE U) :
  0 <= i → 0 <= j → has (Z.shiftl 1 i) (remove (Z.shiftl 1 j) fp) = negb (i =? j) && has (Z.shiftl 1 i) fp.
Proof.
  intros Hi Hj. rewrite !has_flag_bit by done. unfold remove. cbn [flags set_flags]. rewrite Z.land_spec, andb_comm.
  f_equal. rewrite Z.lnot_spec by done. f_equal. rewrite shiftl_mul, Z.mul_1_l, Z.pow2_bits_eqb by done. apply Z.eqb_sym.
Qed.

End Flags.

(** Evaluate the tests of the flags of a stream, and its fields. *)
Ltac flag :=
  unfold _FILE_BUFFER_MODE_SET, _FILE_LAST_WRITE, _FILE_LAST_READ, _FILE_STATUS_ERROR, _FILE_STATUS_EOF,
    _FILE_READABLE, _FILE_WRITABLE in *;
  repeat (first [rewrite has_add by lia | rewrite has_remove by lia
    | progress change (has ?f (set_buffer ?b ?fp)) with (has f fp)
    | progress change (has ?f (set_user ?b ?fp)) with (has f fp)
    | progress change (has ?f (set_mode ?b ?fp)) with (has f fp)
    | progress change (has ?f (set_input ?b ?c ?fp)) with (has f fp)
    | progress change (has ?f (set_output ?b ?fp)) with (has f fp)
    | progress change (has ?f (set_ferrno ?b ?fp)) with (has f fp)]);
  cbn [Z.eqb Pos.eqb negb andb orb].

Ltac fields :=
  cbn [buffer user read_func write_func seek_func buffer_mode fd offset_input_buffer
       amount_input_buffered amount_output_buffered ferrno
       set_buffer set_user set_mode set_input set_output set_ferrno add remove set_flags] in *.

(** ** Devices

    What the functions of a stream do when they act on a file of at most [cap]
    bytes: a read gives what is there, at least a byte unless at the end; a write
    stores at least a byte. *)
Definition seek_base (content : list Z) (position whence : Z) : Z :=
  if whence =? SEEK_SET then 0 else if whence =? SEEK_CUR then position else Z.of_nat (length content).

Class Device {U : Type} (can_read can_write : bool)
    (rd : Z → M U (result (list Z))) (wr : list Z → M U (result Z)) (sk : Z → Z → M U (result Z))
    (valid : U → Prop) (content : U → list Z) (position : U → Z) (cap : Z) : Prop := {
  dev_cap : 0 <= cap < 2 ^ 62;
  dev_bytes u : valid u → Forall is_byte (content u);
  dev_position u : valid u → 0 <= position u <= cap;
  dev_read n u : can_read = true → valid u → 0 < n →
    ∃ l u', rd n u = Ret (inr l, u') ∧ valid u' ∧ l `prefix_of` drop (Z.to_nat (position u)) (content u)
      ∧ Z.of_nat (length l) <= n ∧ (l = [] → drop (Z.to_nat (position u)) (content u) = [])
      ∧ content u' = content u ∧ position u' = position u + Z.of_nat (length l);
  dev_write l u : can_write = true → valid u → l ≠ [] → Forall is_byte l →
    position u + Z.of_nat (length l) <= cap →
    ∃ k u', wr l u = Ret (inr (Z.of_nat k), u') ∧ valid u' ∧ (0 < k <= length l)%nat
      ∧ content u' = overwrite (content u) (Z.to_nat (position u)) (take k l)
      ∧ position u' = position u + Z.of_nat k;
  dev_seek offset whence u : valid u → 0 <= whence <= 2 →
    0 <= seek_base (content u) (position u) whence + offset <= cap →
    ∃ u', sk offset whence u = Ret (inr (seek_base (content u) (position u) whence + offset), u') ∧ valid u'
      ∧ content u' = content u ∧ position u' = seek_base (content u) (position u) whence + offset
}.

(** ** The abstract file *)

(** The content, the position, the characters pushed back, the first to be read
    first, and the two indicators. *)
Record afile := { adata : list Z; apos : Z; apush : list Z; aeof : bool; aerr : bool }.

(** Giving up the characters pushed back, which count in the position. *)
Definition settle (a : afile) : afile :=
  {| adata := adata a; apos := Z.max 0 (apos a - Z.of_nat (length (apush a))); apush := []; aeof := aeof a; aerr := aerr a |}.

Definition available (a : afile) : list Z := apush a ++ drop (Z.to_nat (apos a)) (adata a).

(** Reading up to [n] bytes. *)
Definition consumed (n : nat) (a : afile) : afile :=
  {| adata := adata a;
     apos := apos a + Z.of_nat (length (take n (available a)) - length (apush a));
     apush := drop n (apush a);
     aeof := (length (available a) <? n)%nat; aerr := aerr a |}.

Definition written (l : list Z) (a : afile) : afile :=
  {| adata := overwrite (adata a) (Z.to_nat (apos (settle a))) l;
     apos := apos (settle a) + Z.of_nat (length l); apush := []; aeof := false; aerr := aerr a |}.

Definition pushed (c : Z) (a : afile) : afile :=
  {| adata := adata a; apos := apos a; apush := c :: apush a; aeof := false; aerr := aerr a |}.

Definition moved (target : Z) (a : afile) : afile :=
  {| adata := adata a; apos := target; apush := []; aeof := false; aerr := aerr a |}.

Lemma available_consume k a :
  0 <= apos a → (k <= length (available a))%nat → available (consumed k a) = drop k (available a).
Proof.
  intros Hp Hk. unfold available, consumed in *. cbn [apush apos adata].
  rewrite length_take, Nat.min_l by done. rewrite drop_app. f_equal. rewrite drop_drop. f_equal. lia.
Qed.

(** Reading in two steps is reading in one. *)
Lemma consume_consume k m a :
  0 <= apos a → (k <= length (available a))%nat → consumed m (consumed k a) = consumed (k + m) a.
Proof.
  intros Hp Hk. unfold consumed at 1. rewrite available_consume by done.
  unfold consumed. cbn [adata apos apush aerr]. rewrite !length_take, !length_drop, drop_drop. f_equal; [lia|].
  apply eq_bool_prop_intro. rewrite !Is_true_true, !Nat.ltb_lt. lia.
Qed.

(** Past the end all reads are alike. *)
Lemma consume_over i j a :
  (length (available a) < i)%nat → (length (available a) < j)%nat → consumed i a = consumed j a.
Proof.
  intros Hi Hj. assert (Hp : (length (apush a) <= length (available a))%nat).
  { unfold available. rewrite length_app. lia. }
  unfold consumed. rewrite !(take_ge (available a)), !(drop_ge (apush a)) by lia.
  f_equal. apply eq_bool_prop_intro. rewrite !Is_true_true, !Nat.ltb_lt. lia.
Qed.

Lemma consume_0 a : aeof a = false → consumed 0 a = a.
Proof.
  destruct a as [d p l e r]. unfold consumed. cbn [aeof]. intros ->. rewrite take_0.
  cbn [length Nat.sub apos apush adata aerr drop]. by rewrite Z.add_0_r, drop_0.
Qed.

(** The file and what was pushed back are bytes. *)
Definition afile_ok (a : afile) : Prop := Forall is_byte (adata a) ∧ Forall is_byte (apush a) ∧ 0 <= apos a.

Lemma available_bytes a : afile_ok a → Forall is_byte (available a).
Proof. intros (H1 & H2 & _). apply Forall_app. split; [done|by apply Forall_drop]. Qed.

Lemma consume_ok n a : afile_ok a → afile_ok (consumed n a).
Proof. intros (H1 & H2 & H3). split_and!; cbn [consumed adata apush apos]; [done|by apply Forall_drop|lia]. Qed.

Lemma written_written l1 l2 a : written l2 (written l1 a) = written (l1 ++ l2) a.
Proof.
  unfold written at 1. cbn [settle written apos adata apush aerr length]. set (p := Z.max 0 (apos a - _)).
  unfold written. cbn [settle apos adata apush aerr length]. fold p. f_equal.
  - rewrite <- overwrite_app. f_equal. lia.
  - rewrite length_app. lia.
Qed.

Lemma written_ok l a : Forall is_byte l → afile_ok a → afile_ok (written l a).
Proof.
  intros Hl (H1 & H2 & H3). split_and!; cbn [written adata apush apos settle]; [by apply overwrite_bytes|done|lia].
Qed.

(** ** Streams that are files *)

Section Stream.
Context {U : Type} (can_read can_write : bool)
  (rd : Z → M U (result (list Z))) (wr : list Z → M U (result Z)) (sk : Z → Z → M U (result Z))
  (valid : U → Prop) (content : U → list Z) (position : U → Z) (cap : Z)
  `{Dev : !Device can_read can_write rd wr sk valid content position cap}
  (isatty : Z → bool).

(** What does not depend on what is buffered. *)
Record stream (fp : FILE U) : Prop := {
  stream_read : can_read = true → read_func fp = Some rd;
  stream_write : can_write = true → write_func fp = Some wr;
  stream_seek : seek_func fp = Some sk;
  stream_readable : has _FILE_READABLE fp = can_read;
  stream_writable : has _FILE_WRITABLE fp = can_write;
  stream_valid : valid (user fp);
  stream_buffer b : buffer fp = Some b → Z.of_nat (length b) = BUFSIZ;
  stream_mode : has _FILE_BUFFER_MODE_SET fp = true → buffer_mode fp ≠ _IONBF → buffer fp ≠ None
}.

(** Nothing is buffered. *)
Record idle (fp : FILE U) (a : afile) : Prop := {
  idle_read : has _FILE_LAST_READ fp = false;
  idle_write : has _FILE_LAST_WRITE fp = false;
  idle_data : content (user fp) = adata a;
  idle_pos : position (user fp) = apos a;
  idle_push : apush a = [];
  idle_input : offset_input_buffer fp = 0 ∧ amount_input_buffered fp = 0;
  idle_output : amount_output_buffered fp = 0
}.

(** The bytes read ahead. *)
Definition ahead (fp : FILE U) : list Z :=
  match buffer fp with
  | Some b => take (Z.to_nat (amount_input_buffered fp - offset_input_buffer fp))
                (drop (Z.to_nat (offset_input_buffer fp)) b)
  | None => []
  end.

(** The last operation was a read: the bytes pushed back and those from the
    position of the file to the one of the device are buffered. *)
Record reading (fp : FILE U) (a : afile) : Prop := {
  reading_can : can_read = true;
  reading_read : has _FILE_LAST_READ fp = true;
  reading_write : has _FILE_LAST_WRITE fp = false;
  reading_data : content (user fp) = adata a;
  reading_ahead : ahead fp = apush a ++ take (Z.to_nat (position (user fp) - apos a)) (drop (Z.to_nat (apos a)) (adata a));
  reading_length : amount_input_buffered fp - offset_input_buffer fp
    = Z.of_nat (length (apush a)) + (position (user fp) - apos a);
  reading_pos : 0 <= apos a <= position (user fp);
  reading_input : 0 <= offset_input_buffer fp <= amount_input_buffered fp ∧ amount_input_buffered fp <= BUFSIZ;
  reading_none : buffer_mode fp = _IONBF ∨ buffer fp = None → amount_input_buffered fp = offset_input_buffer fp;
  reading_output : amount_output_buffered fp = 0
}.

(** The last operation was a write: the end of what was written is buffered. *)
Record writing (fp : FILE U) (a : afile) : Prop := {
  writing_can : can_write = true;
  writing_read : has _FILE_LAST_READ fp = false;
  writing_write : has _FILE_LAST_WRITE fp = true;
  writing_data : adata a = overwrite (content (user fp)) (Z.to_nat (position (user fp)))
                   (take (Z.to_nat (amount_output_buffered fp)) (default [] (buffer fp)));
  writing_pos : apos a = position (user fp) + amount_output_buffered fp;
  writing_bytes : Forall is_byte (take (Z.to_nat (amount_output_buffered fp)) (default [] (buffer fp)));
  writing_push : apush a = [];
  writing_input : offset_input_buffer fp = 0 ∧ amount_input_buffered fp = 0;
  writing_output : 0 <= amount_output_buffered fp <= BUFSIZ;
  writing_none : buffer_mode fp = _IONBF ∨ buffer fp = None → amount_output_buffered fp = 0;
  writing_cap : apos a <= cap
}.

(** The stream is the file [a]. *)
Definition is_file (fp : FILE U) (a : afile) : Prop :=
  stream fp ∧ has _FILE_STATUS_EOF fp = aeof a ∧ has _FILE_STATUS_ERROR fp = aerr a
  ∧ (idle fp a ∨ reading fp a ∨ (writing fp a ∧ amount_output_buffered fp < BUFSIZ)).

(** What flushing leaves as it is. *)
Definition keeps (fp fp' : FILE U) : Prop :=
  buffer_mode fp' = buffer_mode fp ∧ buffer fp' = buffer fp
  ∧ has _FILE_BUFFER_MODE_SET fp' = has _FILE_BUFFER_MODE_SET fp
  ∧ has _FILE_STATUS_EOF fp' = has _FILE_STATUS_EOF fp
  ∧ has _FILE_STATUS_ERROR fp' = has _FILE_STATUS_ERROR fp.

(** ** Writing the buffer out *)

Lemma slice_run (fp : FILE U) b i n :
  buffer fp = Some b → 0 <= i → 0 <= n → i + n <= Z.of_nat (length b) →
  buffer_slice i n fp = Ret (take (Z.to_nat n) (drop (Z.to_nat i) b), fp).
Proof.
  intros Hb H1 H2 H3. unfold buffer_slice. rewrite Hb.
  by rewrite (proj2 (Z.leb_le 0 i)), (proj2 (Z.leb_le 0 n)), (proj2 (Z.leb_le (i + n) _)) by lia.
Qed.

Lemma clamp_small n : 0 <= n < 2 ^ 63 → clamp_ssize n = n.
Proof. intros Hn. unfold clamp_ssize, SSIZE_MAX. rewrite (proj2 (Z.ltb_ge _ n)) by lia. done. Qed.

Lemma call_write_run fp l :
  can_write = true → write_func fp = Some wr → valid (user fp) → l ≠ [] → Forall is_byte l →
  position (user fp) + Z.of_nat (length l) <= cap →
  ∃ k u', call_write l fp = Ret (inr (Z.of_nat k), set_user u' fp) ∧ valid u' ∧ (0 < k <= length l)%nat
    ∧ content u' = overwrite (content (user fp)) (Z.to_nat (position (user fp))) (take k l)
    ∧ position u' = position (user fp) + Z.of_nat k.
Proof.
  intros Hc Hw Hv Hl Hb Hcap. destruct (dev_write l (user fp) Hc Hv Hl Hb Hcap) as (k & u' & E & H).
  exists k, u'. split; [|done]. unfold call_write. by rewrite Hw, E.
Qed.

Lemma set_user_set_user u v (fp : FILE U) : set_user u (set_user v fp) = set_user u fp.
Proof. done. Qed.

Lemma write_out_run fuel count sofar fp b :
  can_write = true → write_func fp = Some wr → valid (user fp) → buffer fp = Some b →
  0 <= sofar <= count → count <= Z.of_nat (length b) → count < 2 ^ 63 →
  Forall is_byte (take (Z.to_nat count) b) →
  position (user fp) + (count - sofar) <= cap → (Z.to_nat (count - sofar) < fuel)%nat →
  ∃ u', write_out fuel count sofar fp = Ret (0, set_user u' fp) ∧ valid u'
    ∧ content u' = overwrite (content (user fp)) (Z.to_nat (position (user fp)))
                     (take (Z.to_nat (count - sofar)) (drop (Z.to_nat sofar) b))
    ∧ position u' = position (user fp) + (count - sofar).
Proof.
  intros Hc. revert sofar fp. induction fuel as [|fuel IH]; intros sofar fp Hw Hv Hb Hs Hl H63 Hby Hcap Hf; [lia|].
  cbn [write_out]. destruct (Z.ltb_spec sofar count) as [Hlt|Hge].
  2: { exists (user fp). replace (count - sofar) with 0 by lia.
       split_and!; [by destruct fp|done|done|lia]. }
  rewrite (wrapu_id 64 (count - sofar)), clamp_small by (unfold in_u; lia).
  step (slice_run fp b sofar (count - sofar) Hb ltac:(lia) ltac:(lia) ltac:(lia)).
  set (l := take _ (drop _ b)).
  assert (Hlen : Z.of_nat (length l) = count - sofar) by (unfold l; rewrite length_take, length_drop; lia).
  assert (Hlb : Forall is_byte l).
  { unfold l. replace (Z.to_nat count) with (Z.to_nat sofar + Z.to_nat (count - sofar))%nat in Hby by lia.
    rewrite <- (take_drop (Z.to_nat sofar) (take _ b)), Forall_app, <- take_drop_commute in Hby.
    rewrite Nat.add_comm in Hby. by destruct Hby. }
  destruct (call_write_run fp l Hc Hw Hv) as (k & u1 & E & Hv1 & Hk & Hc1 & Hp1); [|done|lia|].
  { intros E. rewrite E in Hlen. simpl in Hlen. lia. }
  step E. cbv beta iota. rewrite (proj2 (Z.eqb_neq (Z.of_nat k) 0)) by lia. rewrite wrapu_id by (unfold in_u; lia).
  destruct (IH (sofar + Z.of_nat k) (set_user u1 fp)) as (u2 & E2 & Hv2 & Hc2 & Hp2); fields; [done..|lia|done|done|done|lia|lia|].
  exists u2. split_and!; [by rewrite E2|done| |lia].
  rewrite Hc2, Hc1, Hp1. replace (Z.to_nat (position (user fp) + Z.of_nat k)) with
    (Z.to_nat (position (user fp)) + length (take k l))%nat
    by (pose proof (dev_position _ Hv); rewrite length_take; lia).
  rewrite overwrite_app. f_equal. rewrite <- (take_drop k l) at 2. f_equal. unfold l.
  replace (Z.to_nat (count - sofar)) with (k + Z.to_nat (count - (sofar + Z.of_nat k)))%nat by lia.
  rewrite <- take_drop_commute, drop_drop. f_equal. f_equal. lia.
Qed.

Lemma stream_change fp fp' :
  stream fp → valid (user fp') → read_func fp' = read_func fp → write_func fp' = write_func fp →
  seek_func fp' = seek_func fp → has _FILE_READABLE fp' = has _FILE_READABLE fp →
  has _FILE_WRITABLE fp' = has _FILE_WRITABLE fp → buffer fp' = buffer fp → buffer_mode fp' = buffer_mode fp →
  has _FILE_BUFFER_MODE_SET fp' = has _FILE_BUFFER_MODE_SET fp → stream fp'.
Proof. intros [] Hv E1 E2 E3 E4 E5 E6 E7 E8. split; rewrite ?E1, ?E2, ?E3, ?E4, ?E5, ?E6, ?E7, ?E8; done. Qed.

(** ** Flushing *)

Lemma stop_writing_flush fp a :
  stream fp → writing fp a →
  ∃ fp', fflush_stop_writing_unlocked fp = Ret (0, fp') ∧ stream fp' ∧ idle fp' a ∧ keeps fp fp'.
Proof.
  intros St W. pose proof St as [_ Sw _ _ Sww Sv Sb _]. destruct W as [Wc Wr Ww Wd Wp Wb Wu Wi Wo Wn Wcap].
  specialize (Sw Wc). set (n := amount_output_buffered fp) in *.
  assert (∃ u', write_out (S (Z.to_nat n)) n 0 fp = Ret (0, set_user u' fp) ∧ valid u'
    ∧ content u' = adata a ∧ position u' = apos a) as (u' & E & Hv & Hc & Hp).
  { destruct (buffer fp) as [b|] eqn:Eb.
    - specialize (Sb b eq_refl). cbn [default] in *. unfold BUFSIZ in *.
      destruct (write_out_run (S (Z.to_nat n)) n 0 fp b) as (u' & E & Hv & Hc & Hp); try done; try lia.
      exists u'. rewrite Z.sub_0_r in *. split_and!; [done|done| |lia]. by rewrite Hc, Wd.
    - assert (n = 0) as Hn by auto. rewrite Hn in *. exists (user fp). cbn [default] in Wd. rewrite take_nil in Wd.
      split_and!; [by destruct fp|done|by rewrite Wd|lia]. }
  eexists. split_and!.
  - unfold fflush_stop_writing_unlocked. unfold this at 1. erewrite M_bind_ret; [|reflexivity].
    rewrite Ww, Sww, Wc, Sw. cbn [negb null]. fold n. step E. reflexivity.
  - eapply stream_change; [exact St|done|done|done|done|by flag|by flag|done|done|by flag].
  - split; fields; [by flag|by flag|done|done|done|done|done].
  - split_and!; [done|done|by flag|by flag|by flag].
Qed.

Lemma call_seek_run fp offset whence :
  stream fp → 0 <= whence <= 2 →
  0 <= seek_base (content (user fp)) (position (user fp)) whence + offset <= cap →
  ∃ u', call_seek offset whence fp
        = Ret (seek_base (content (user fp)) (position (user fp)) whence + offset, set_user u' fp) ∧ valid u'
    ∧ content u' = content (user fp)
    ∧ position u' = seek_base (content (user fp)) (position (user fp)) whence + offset.
Proof.
  intros St Hw Ht. destruct (dev_seek offset whence (user fp) (stream_valid _ St) Hw Ht) as (u' & E & H).
  exists u'. split; [|done]. unfold call_seek. by rewrite (stream_seek _ St), E.
Qed.

Lemma stop_reading_flush fp a :
  stream fp → reading fp a →
  ∃ fp', fflush_stop_reading_unlocked fp = Ret (0, fp') ∧ stream fp' ∧ idle fp' (settle a) ∧ keeps fp fp'.
Proof.
  intros St R. pose proof St as [_ _ Ss Sr _ Sv _ _].
  destruct R as [Rc Rr Rw Rd Ra Rl Rp Ri Rn Ro]. pose proof (dev_position _ Sv) as Hpos. pose proof dev_cap as Hcap.
  destruct (call_seek_run fp 0 SEEK_CUR St) as (u1 & E1 & Hv1 & Hc1 & Hp1);
    [unfold SEEK_CUR; lia|cbn; lia|]. cbn [seek_base Z.eqb SEEK_CUR SEEK_SET] in E1, Hp1.
  change (seek_base (content (user fp)) (position (user fp)) SEEK_CUR) with (position (user fp)) in E1, Hp1.
  rewrite Z.add_0_r in E1, Hp1. unfold BUFSIZ in *.
  set (t := Z.max 0 (apos a - Z.of_nat (length (apush a)))).
  assert (Et : (if u64 (position (user fp)) <? u64 (amount_input_buffered fp - offset_input_buffer fp) then 0
     else s64 (u64 (position (user fp)) - u64 (amount_input_buffered fp - offset_input_buffer fp))) = t).
  { rewrite !wrapu_id by (unfold in_u; lia). unfold t.
    destruct (Z.ltb_spec (position (user fp)) (amount_input_buffered fp - offset_input_buffer fp)); [lia|].
    rewrite wraps_id by (unfold in_s; lia). lia. }
  set (fp1 := set_ferrno (ferrno fp) (set_user u1 fp)).
  assert (St1 : stream fp1).
  { eapply stream_change; [exact St|done|done|done|done|by flag|by flag|done|done|by flag]. }
  destruct (call_seek_run fp1 t SEEK_SET St1) as (u2 & E2 & Hv2 & Hc2 & Hp2).
  { unfold SEEK_SET. lia. }
  { cbn. unfold t. lia. }
  change (seek_base (content (user fp1)) (position (user fp1)) SEEK_SET + t) with t in E2, Hp2.
  eexists. split_and!.
  - unfold fflush_stop_reading_unlocked. unfold this at 1. erewrite M_bind_ret; [|reflexivity].
    rewrite Rr, Sr, Rc, Ss. cbn [negb null]. step E1. erewrite M_bind_ret; [|reflexivity]. fold fp1.
    rewrite (proj2 (Z.leb_le 0 (position (user fp)))) by lia. cbv zeta. rewrite Et.
    erewrite M_bind_ret; [|step E2; rewrite (proj2 (Z.ltb_ge t 0)) by (unfold t; lia); reflexivity]. reflexivity.
  - eapply stream_change; [exact St|done|done|done|done|by flag|by flag|done|done|by flag].
  - split; fields; [by flag|by flag| | |done|done|done].
    + rewrite Hc2. change (user fp1) with u1. by rewrite Hc1, Rd.
    + by rewrite Hp2.
  - split_and!; [done|done|by flag|by flag|by flag].
Qed.

(** ** Beginning to read and to write *)

Lemma idle_reading fp a :
  stream fp → idle fp a → can_read = true → stream (add _FILE_LAST_READ fp) ∧ reading (add _FILE_LAST_READ fp) a.
Proof.
  intros St [H1 H2 H3 H4 H5 [H6 H7] H8] Hc. pose proof (dev_position _ (stream_valid _ St)). split.
  { eapply stream_change; [exact St|apply St|done|done|done|by flag|by flag|done|done|by flag]. }
  split; fields; [done|by flag|by flag|done| |rewrite H5; simpl; lia|lia|unfold BUFSIZ; lia|lia|done].
  unfold ahead. fields. rewrite H6, H7, H5, H4, !Z.sub_diag. by destruct (buffer fp).
Qed.

Lemma begin_reading fp a :
  is_file fp a → can_read = true →
  ∃ fp', stop_writing fp = Ret ((), fp') ∧ stream (add _FILE_LAST_READ fp') ∧ reading (add _FILE_LAST_READ fp') a
    ∧ keeps fp (add _FILE_LAST_READ fp').
Proof.
  intros (St & He & Hr & Hph) Hc. unfold stop_writing. unfold this at 1.
  assert (Hsame : has _FILE_LAST_WRITE fp = false →
    (fp0 ← this; if has _FILE_LAST_WRITE fp0 then fflush_stop_writing_unlocked;; mret () else mret ()) fp = Ret ((), fp)).
  { intros Hw. unfold this at 1. erewrite M_bind_ret; [|reflexivity]. by rewrite Hw. }
  destruct Hph as [Hi|[R|[W _]]].
  - exists fp. destruct (idle_reading fp a St Hi Hc). split_and!; [by apply Hsame, Hi|done|done|..].
    split_and!; [done|done|by flag|by flag|by flag].
  - exists fp. split_and!; [by apply Hsame, R|..].
    + eapply stream_change; [exact St|apply St|done|done|done|by flag|by flag|done|done|by flag].
    + destruct R as [R1 R2 R3 R4 R5 R6 R7 R8 R9 R10]. split; fields; [done|by flag|by flag|done..].
    + split_and!; [done|done|by flag|by flag|by flag].
  - destruct (stop_writing_flush fp a St W) as (fp' & E & St' & Hi & K). exists fp'.
    destruct (idle_reading fp' a St' Hi Hc). split_and!; [|done|done|].
    + erewrite M_bind_ret; [|reflexivity]. rewrite (writing_write _ _ W). by step E.
    + destruct K as (K1 & K2 & K3 & K4 & K5). split_and!; [done|done|..]; flag; done.
Qed.

Lemma idle_writing fp a :
  stream fp → idle fp a → can_write = true → stream (add _FILE_LAST_WRITE fp) ∧ writing (add _FILE_LAST_WRITE fp) a.
Proof.
  intros St [H1 H2 H3 H4 H5 H6 H8] Hc. pose proof (dev_position _ (stream_valid _ St)). split.
  { eapply stream_change; [exact St|apply St|done|done|done|by flag|by flag|done|done|by flag]. }
  split; fields; rewrite ?H8; [done|by flag|by flag|done|lia|done|done|done|unfold BUFSIZ; lia|done|lia].
Qed.

Lemma settle_idle a : apush a = [] → 0 <= apos a → settle a = a.
Proof. destruct a as [d p l e r]. cbn. intros -> Hp. unfold settle. cbn. f_equal. lia. Qed.

Lemma begin_writing fp a :
  is_file fp a → can_write = true →
  ∃ fp', stop_reading fp = Ret ((), fp') ∧ stream (add _FILE_LAST_WRITE fp') ∧ writing (add _FILE_LAST_WRITE fp') (settle a)
    ∧ amount_output_buffered fp' < BUFSIZ ∧ keeps fp (add _FILE_LAST_WRITE fp').
Proof.
  intros (St & He & Hr & Hph) Hc. unfold stop_reading.
  assert (Hsame : has _FILE_LAST_READ fp = false →
    (fp0 ← this; if has _FILE_LAST_READ fp0 then fflush_stop_reading_unlocked;; mret () else mret ()) fp = Ret ((), fp)).
  { intros Hw. unfold this at 1. erewrite M_bind_ret; [|reflexivity]. by rewrite Hw. }
  pose proof (dev_position _ (stream_valid _ St)) as Hpos. destruct Hph as [Hi|[R|[W Hlt]]].
  - exists fp. rewrite settle_idle; [|apply Hi|rewrite <- (idle_pos _ _ Hi); lia].
    destruct (idle_writing fp a St Hi Hc). split_and!; [by apply Hsame, Hi|done|done|by rewrite (idle_output _ _ Hi)|..].
    split_and!; [done|done|by flag|by flag|by flag].
  - destruct (stop_reading_flush fp a St R) as (fp' & E & St' & Hi & K). exists fp'.
    destruct (idle_writing fp' (settle a) St' Hi Hc). split_and!; [|done|done|by rewrite (idle_output _ _ Hi)|].
    + unfold this at 1. erewrite M_bind_ret; [|reflexivity]. rewrite (reading_read _ _ R). by step E.
    + destruct K as (K1 & K2 & K3 & K4 & K5). split_and!; [done|done|..]; flag; done.
  - exists fp. rewrite settle_idle; [|apply W|rewrite (writing_pos _ _ W); pose proof (writing_output _ _ W); lia].
    split_and!; [by apply Hsame, W|..].
    + eapply stream_change; [exact St|apply St|done|done|done|by flag|by flag|done|done|by flag].
    + destruct W as [W1 W2 W3 W4 W5 W6 W7 W8 W9 W10 W11]. split; fields; [done|by flag|by flag|done..].
    + done.
    + split_and!; [done|done|by flag|by flag|by flag].
Qed.

Lemma this_run (fp : FILE U) : this fp = Ret (fp, fp).
Proof. done. Qed.

Lemma upd_run f (fp : FILE U) : upd f fp = Ret ((), f fp).
Proof. done. Qed.

(** ** The mode of the buffer *)

Lemma mode_file fp a m :
  is_file fp a → (m = _IONBF → buffer fp = None ∨ buffer_mode fp = _IONBF) → (m ≠ _IONBF → buffer fp ≠ None) →
  is_file (add _FILE_BUFFER_MODE_SET (set_mode m fp)) a.
Proof.
  intros (St & He & Hr & Hph) Hm Hm'. split_and!; [|by flag|by flag|].
  { destruct St. split; fields; flag; auto. }
  destruct Hph as [H|[H|[H Hlt]]]; [left|right; left|right; right; split; [|exact Hlt]]; destruct H; split; fields; flag; auto.
  - intros [?|?]; [|auto]. destruct (Hm ltac:(done)); auto.
  - intros [?|?]; [|auto]. destruct (Hm ltac:(done)); auto.
Qed.

Lemma ensure_mode_run fp a :
  is_file fp a →
  ∃ fp', ensure_mode isatty fp = Ret ((), fp') ∧ is_file fp' a ∧ has _FILE_BUFFER_MODE_SET fp' = true
    ∧ (buffer_mode fp = _IONBF → buffer_mode fp' = _IONBF).
Proof.
  intros H. unfold ensure_mode. step (this_run fp). destruct (has _FILE_BUFFER_MODE_SET fp) eqn:Eb; [by exists fp|].
  set (m := if buffer_mode fp =? -1 then if isatty (fd fp) then _IOLBF else _IOFBF else buffer_mode fp).
  set (m' := if null (buffer fp) then _IONBF else m).
  exists (add _FILE_BUFFER_MODE_SET (set_mode m' fp)). split_and!.
  - unfold setvbuf_unlocked. erewrite M_bind_ret; [reflexivity|].
    erewrite (M_bind_ret _ _ fp m fp); [|by unfold m; destruct (buffer_mode fp =? -1)]. done.
  - apply mode_file; [done|..]; unfold m', m, _IONBF, _IOLBF, _IOFBF; destruct (buffer fp); cbn [null]; auto.
    intros Em. right. destruct (buffer_mode fp =? -1); [by destruct (isatty (fd fp))|done].
  - by flag.
  - fields. unfold m', m. intros ->. by destruct (buffer fp).
Qed.

(** ** Taking a byte from the buffer *)

Lemma call_read_run fp n :
  can_read = true → stream fp → 0 < n →
  ∃ l u', call_read n fp = Ret (inr l, set_user u' fp) ∧ valid u'
    ∧ l `prefix_of` drop (Z.to_nat (position (user fp))) (content (user fp))
    ∧ Z.of_nat (length l) <= n ∧ (l = [] → drop (Z.to_nat (position (user fp))) (content (user fp)) = [])
    ∧ content u' = content (user fp) ∧ position u' = position (user fp) + Z.of_nat (length l).
Proof.
  intros Hc St Hn. destruct (dev_read n (user fp) Hc (stream_valid _ St) Hn) as (l & u' & E & Hv & Hp & Hl & H).
  exists l, u'. split; [|done]. unfold call_read. rewrite (stream_read _ St Hc), E.
  by rewrite (proj2 (Z.leb_le _ n)) by done.
Qed.

(** The bytes a prefix takes are those from the old position to the new one. *)
Lemma prefix_take {T} (l k : list T) : l `prefix_of` k → take (length l) k = l.
Proof. intros [r ->]. by rewrite take_app_length. Qed.

Lemma buffer_write_run (fp : FILE U) b i l :
  buffer fp = Some b → 0 <= i → i + Z.of_nat (length l) <= Z.of_nat (length b) →
  buffer_write i l fp
  = Ret ((), set_buffer (Some (take (Z.to_nat i) b ++ l ++ drop (Z.to_nat i + length l) b)) fp).
Proof.
  intros Hb H1 H2. unfold buffer_write, write_at. rewrite Hb.
  by rewrite (proj2 (Z.leb_le 0 i)), (proj2 (Z.leb_le (i + _) _)) by lia.
Qed.

Lemma reading_empty fp a :
  reading fp a → offset_input_buffer fp = amount_input_buffered fp → apush a = [] ∧ position (user fp) = apos a.
Proof.
  intros [_ _ _ _ _ Rl Rp _ _ _] E. assert (Hl : length (apush a) = 0%nat) by lia.
  apply length_zero_iff_nil in Hl. rewrite Hl in Rl. simpl in Rl. split; [done|lia].
Qed.

Lemma fill_input_run fp a b :
  stream fp → reading fp a → buffer fp = Some b → buffer_mode fp ≠ _IONBF →
  ∃ more fp', fill_input fp = Ret (more, fp') ∧ stream fp' ∧ reading fp' a
    ∧ is_Some (buffer fp') ∧ buffer_mode fp' = buffer_mode fp
    ∧ has _FILE_BUFFER_MODE_SET fp' = has _FILE_BUFFER_MODE_SET fp
    ∧ has _FILE_STATUS_ERROR fp' = has _FILE_STATUS_ERROR fp
    ∧ if more then offset_input_buffer fp' < amount_input_buffered fp'
                   ∧ has _FILE_STATUS_EOF fp' = has _FILE_STATUS_EOF fp
      else available a = [] ∧ has _FILE_STATUS_EOF fp' = true.
Proof.
  intros St R Hb Hm. unfold fill_input. step (this_run fp).
  destruct (Z.ltb_spec (offset_input_buffer fp) (amount_input_buffered fp)) as [Hlt|Hge]; cbn [negb].
  { exists true, fp. rewrite Hb. split_and!; done. }
  pose proof R as [Rc Rr Rw Rd Ra Rl Rp Ri Rn Ro]. pose proof (stream_buffer _ St _ Hb) as Hlb.
  destruct (reading_empty fp a R ltac:(lia)) as [Hpush Hpos]. change (clamp_ssize (BUFSIZ - _)) with 8184.
  destruct (call_read_run fp 8184 Rc St ltac:(lia)) as (l & u' & E & Hv & Hpre & Hl & Hemp & Hc & Hp).
  rewrite Hb. cbn [null]. cbv zeta. step E. cbv beta iota. destruct (Z.eqb_spec (Z.of_nat (length l)) 0) as [H0|H0].
  - assert (l = []) as Hnil by (apply length_zero_iff_nil; lia). specialize (Hemp Hnil). rewrite Hnil in *.
    exists false, (add _FILE_STATUS_EOF (set_user u' fp)). split_and!; try done; fields; try (by flag).
    + eapply stream_change; [exact St|done|done|done|done|by flag|by flag|done|done|by flag].
    + simpl in Hp. rewrite Z.add_0_r in Hp. split; fields; try (by flag); try done; rewrite ?Hc, ?Hp; try done.
    + unfold available. rewrite Hpush, <- Rd, <- Hpos. done.
  - set (b' := take 8 b ++ l ++ drop (8 + length l) b).
    exists true, (set_input 8 (8 + Z.of_nat (length l)) (set_buffer (Some b') (set_user u' fp))).
    change (if BUFSIZ <=? _FILE_MAX_PUSHBACK then 0 else _FILE_MAX_PUSHBACK) with 8.
    unfold BUFSIZ in *.
    step (buffer_write_run (set_user u' fp) b 8 l Hb ltac:(lia) ltac:(lia)).
    assert (Hlb' : Z.of_nat (length b') = 8192).
    { unfold b'. rewrite !length_app, length_take, length_drop. lia. }
    split_and!; try done; fields; try (by flag); [..|lia].
    + destruct St. split; fields; try done. by intros ? [= <-].
    + split; fields; try (by flag); try done; rewrite ?Hc, ?Hp, ?Hpush; try lia; try done.
      * unfold ahead. fields. replace (Z.to_nat (8 + Z.of_nat (length l) - 8)) with (length l) by lia.
        unfold b'. rewrite drop_app_ge by (rewrite length_take; lia).
        rewrite length_take, Nat.min_l by lia. change (Z.to_nat 8 - 8)%nat with 0%nat. rewrite drop_0, take_app_length.
        cbn [app]. replace (Z.to_nat _) with (length l) by lia.
        symmetry. apply prefix_take. by rewrite <- Rd, <- Hpos.
      * simpl. lia.
      * unfold BUFSIZ. lia.
      * by intros [?|?].
Qed.

(** What is available: the bytes read ahead and what the device still has. *)
Lemma available_ahead fp a :
  stream fp → reading fp a → available a = ahead fp ++ drop (Z.to_nat (position (user fp))) (adata a).
Proof.
  intros St [_ _ _ _ Ra _ Rp _ _ _]. rewrite Ra. unfold available. rewrite <- app_assoc. f_equal.
  set (p := Z.to_nat (apos a)). rewrite <- (take_drop (Z.to_nat (position (user fp) - apos a)) (drop p (adata a))) at 1.
  rewrite drop_drop. do 2 f_equal. lia.
Qed.

Lemma ahead_next (fp : FILE U) b :
  buffer fp = Some b → 0 <= offset_input_buffer fp < amount_input_buffered fp →
  amount_input_buffered fp <= Z.of_nat (length b) →
  ∃ c, buffer_get (offset_input_buffer fp) fp = Ret (c, fp)
    ∧ ahead fp = c :: ahead (set_input (offset_input_buffer fp + 1) (amount_input_buffered fp) fp).
Proof.
  intros Hb H1 H2. unfold ahead, buffer_get. fields. rewrite Hb. rewrite (proj2 (Z.ltb_ge _ 0)) by lia.
  destruct (lookup_lt_is_Some_2 b (Z.to_nat (offset_input_buffer fp))) as [c Hc]; [lia|].
  exists c. rewrite Hc. split; [done|]. rewrite (drop_S _ _ _ Hc).
  replace (Z.to_nat (amount_input_buffered fp - offset_input_buffer fp)) with
    (S (Z.to_nat (amount_input_buffered fp - (offset_input_buffer fp + 1)))) by lia.
  cbn [take]. do 3 f_equal. lia.
Qed.

Lemma take_run fp a :
  stream fp → reading fp a → buffer fp ≠ None → buffer_mode fp ≠ _IONBF →
  offset_input_buffer fp < amount_input_buffered fp →
  let fp' := set_input (offset_input_buffer fp + 1) (amount_input_buffered fp) fp in
  ∃ c rest, available a = c :: rest ∧ buffer_get (offset_input_buffer fp) fp = Ret (c, fp)
    ∧ stream fp' ∧ reading fp' (consumed 1 a).
Proof.
  intros St R Hb Hm Hlt fp'. pose proof R as [Rc Rr Rw Rd Ra Rl Rp Ri Rn Ro].
  destruct (buffer fp) as [b|] eqn:Eb; [|done]. pose proof (stream_buffer _ St _ Eb) as Hlb. unfold BUFSIZ in *.
  destruct (ahead_next fp b Eb ltac:(lia) ltac:(lia)) as (c & Eg & Ea). fold fp' in Ea.
  pose proof (available_ahead fp a St R) as Hav. rewrite Ea in Hav. exists c. eexists. split_and!; [exact Hav|done|..].
  { eapply stream_change; [exact St|apply St|done..]. }
  rewrite Ra in Ea. unfold consumed. rewrite Hav. cbn [take length app]. rewrite take_0. cbn [length]. unfold fp' in *.
  destruct (apush a) as [|p ps] eqn:Ep; cbn [app length drop] in *.
  - destruct (Z.to_nat (position (user fp) - apos a)) as [|k] eqn:Ek; [done|].
    destruct (drop (Z.to_nat (apos a)) (adata a)) as [|x rest] eqn:Ed; [done|].
    cbn [take] in Ea. injection Ea as -> Ea.
    assert (Ed' : drop (Z.to_nat (apos a + 1)) (adata a) = rest).
    { replace (Z.to_nat (apos a + 1)) with (Z.to_nat (apos a) + 1)%nat by lia. by rewrite <- drop_drop, Ed. }
    split; fields; try done; unfold BUFSIZ; cbn [apos apush adata length app Nat.sub]; try lia; [|intros [?|?]; congruence].
    fields. change (Z.of_nat 1) with 1. rewrite <- Ea, Ed'. f_equal. lia.
  - injection Ea as <- Ea. cbn [Nat.sub]. rewrite Z.add_0_r, drop_0.
    split; fields; try done; unfold BUFSIZ; cbn [apos apush adata length app Nat.sub]; try lia; intros [?|?]; congruence.
Qed.

(** ** [fgetc] *)

(** What a read of one byte gives. *)
Definition next_char (a : afile) : Z := match available a with c :: _ => c | [] => EOF end.

Lemma consume_eof a : aeof (consumed 1 a) = match available a with [] => true | _ => false end.
Proof. unfold consumed. cbn [aeof]. by destruct (available a). Qed.

Lemma consume_none a : available a = [] → consumed 1 a = {| adata := adata a; apos := apos a; apush := apush a; aeof := true; aerr := aerr a |}.
Proof.
  intros E. unfold consumed. rewrite E. cbn [take length Nat.ltb Nat.leb Nat.sub]. f_equal; [lia|].
  unfold available in E. apply app_eq_nil in E as [-> _]. done.
Qed.

(** A stream that reads and whose indicators are those of [a] is the file [a]. *)
Lemma reading_file fp a :
  stream fp → reading fp a → has _FILE_STATUS_EOF fp = aeof a → has _FILE_STATUS_ERROR fp = aerr a → is_file fp a.
Proof. intros. split_and!; auto. Qed.

(** The indicators do not matter to what is buffered. *)
Lemma reading_flags fp a e r :
  reading fp a → reading fp {| adata := adata a; apos := apos a; apush := apush a; aeof := e; aerr := r |}.
Proof. intros []. by split. Qed.

Lemma reading_eof fp a f :
  f = _FILE_STATUS_EOF ∨ f = _FILE_STATUS_ERROR → reading fp a → reading (add f fp) a ∧ reading (remove f fp) a.
Proof. intros Hf []. destruct Hf as [-> | ->]; split; split; fields; try done; by flag. Qed.

Lemma stream_flag fp f :
  f = _FILE_STATUS_EOF ∨ f = _FILE_STATUS_ERROR → stream fp → stream (add f fp) ∧ stream (remove f fp).
Proof.
  intros [-> | ->] St; split; (eapply stream_change; [exact St|apply St|done|done|done|by flag|by flag|done|done|by flag]).
Qed.

(** The buffered part of [fgetc]. *)
Lemma getc_buffered fp a :
  stream fp → reading fp a → buffer fp ≠ None → buffer_mode fp ≠ _IONBF →
  has _FILE_STATUS_EOF fp = false → has _FILE_STATUS_ERROR fp = aerr a →
  ∃ fp', (more ← fill_input;
          if more : bool then
            fp ← this; c ← buffer_get (offset_input_buffer fp);
            upd (set_input (offset_input_buffer fp + 1) (amount_input_buffered fp));; mret c
          else mret EOF) fp = Ret (next_char a, fp') ∧ is_file fp' (consumed 1 a).
Proof.
  intros St R Hb Hm He Hr. destruct (buffer fp) as [b|] eqn:Eb; [|done].
  destruct (fill_input_run fp a b St R Eb Hm) as (more & fp1 & E1 & St1 & R1 & [b1 Eb1] & Em & _ & Er & Hmore).
  destruct more.
  - destruct Hmore as [Hlt He1].
    destruct (take_run fp1 a St1 R1 ltac:(by rewrite Eb1) ltac:(congruence) Hlt) as (c & rest & Ha & Eg & St2 & R2).
    eexists. split.
    + step E1. cbn iota. step (this_run fp1). step Eg. step (upd_run (set_input (offset_input_buffer fp1 + 1) (amount_input_buffered fp1)) fp1).
      unfold next_char. by rewrite Ha.
    + apply reading_file; [done..| |flag; rewrite Er, Hr; done]. rewrite consume_eof, Ha. flag. congruence.
  - destruct Hmore as [Ha He1]. exists fp1. split.
    + step E1. cbn iota. unfold next_char. by rewrite Ha.
    + rewrite consume_none by done. apply reading_file; [done|by apply reading_flags|done|by rewrite Er, Hr].
Qed.

(** ** Reading without the buffer *)

Lemma clamp_range n : 0 < n → 0 < clamp_ssize n <= n.
Proof. intros Hn. unfold clamp_ssize, SSIZE_MAX. destruct (Z.ltb_spec 9223372036854775807 n); lia. Qed.

(** The device is read from where the file is. *)
Lemma reading_advance fp a u' l :
  reading fp a → offset_input_buffer fp = amount_input_buffered fp →
  l `prefix_of` drop (Z.to_nat (position (user fp))) (content (user fp)) →
  content u' = content (user fp) → position u' = position (user fp) + Z.of_nat (length l) →
  available a = drop (Z.to_nat (position (user fp))) (content (user fp))
  ∧ reading (set_user u' fp) (consumed (length l) a).
Proof.
  intros R Hoff Hpre Hc Hp. destruct (reading_empty fp a R Hoff) as [Hpush Hpos].
  pose proof R as [Rc Rr Rw Rd Ra Rl Rp Ri Rn Ro].
  assert (Hav : available a = drop (Z.to_nat (position (user fp))) (content (user fp))).
  { unfold available. by rewrite Hpush, Hpos, Rd. }
  split; [done|]. pose proof (prefix_length _ _ Hpre) as Hlen. rewrite <- Hav in Hlen.
  unfold consumed. rewrite length_take, Nat.min_l, Hpush, drop_nil by done. cbn [length]. rewrite Nat.sub_0_r.
  split; fields; try done; cbn [apos apush adata length app]; rewrite ?Hc, ?Hp; try done; try lia.
  unfold ahead. fields. rewrite Hoff, Z.sub_diag. replace (Z.to_nat (position (user fp) + Z.of_nat (length l) - (apos a + Z.of_nat (length l)))) with 0%nat by lia.
    by destruct (buffer fp); rewrite ?take_0.
Qed.

Lemma read_direct_run fuel count sofar acc fp a :
  stream fp → reading fp a → offset_input_buffer fp = amount_input_buffered fp →
  has _FILE_STATUS_EOF fp = false → has _FILE_STATUS_ERROR fp = aerr a → aeof a = false →
  0 <= sofar <= count → count < 2 ^ 64 → (Z.to_nat (count - sofar) < fuel)%nat →
  let l := take (Z.to_nat (count - sofar)) (available a) in
  ∃ fp', read_direct fuel count sofar acc fp = Ret ((sofar + Z.of_nat (length l), acc ++ l), fp')
    ∧ is_file fp' (consumed (Z.to_nat (count - sofar)) a).
Proof.
  revert sofar acc fp a. induction fuel as [|fuel IH]; intros sofar acc fp a St R Hoff He Hr Ha Hs H64 Hf; [lia|].
  cbn [read_direct]. destruct (Z.ltb_spec sofar count) as [Hlt|Hge].
  2: { replace (count - sofar) with 0 by lia. cbn zeta. exists fp. change (Z.to_nat 0) with 0%nat. rewrite take_0, app_nil_r.
       split; [cbn [length]; by rewrite Z.add_0_r|]. apply reading_file; [done| |by rewrite He|done].
       unfold consumed. rewrite take_0, drop_0. destruct R. split; cbn [apos adata apush length Nat.sub]; rewrite ?Z.add_0_r; done. }
  rewrite wrapu_id by (unfold in_u; lia). pose proof (clamp_range (count - sofar) ltac:(lia)) as Hcl.
  destruct (call_read_run fp (clamp_ssize (count - sofar)) (reading_can _ _ R) St ltac:(lia))
    as (l & u' & E & Hv & Hpre & Hl & Hemp & Hc & Hp).
  destruct (reading_advance fp a u' l R Hoff Hpre Hc Hp) as [Hav R'].
  assert (St' : stream (set_user u' fp)).
  { eapply stream_change; [exact St|done..]. }
  step E. cbv beta iota. cbn zeta. destruct (Z.eqb_spec (Z.of_nat (length l)) 0) as [H0|H0].
  - assert (l = []) as -> by (apply length_zero_iff_nil; lia). specialize (Hemp eq_refl). rewrite <- Hav in Hemp.
    eexists. rewrite Hemp, take_nil, app_nil_r. split; [cbn [length]; rewrite Z.add_0_r; reflexivity|].
    destruct (stream_flag (set_user u' fp) _FILE_STATUS_EOF ltac:(auto) St') as [St2 _].
    apply reading_file; [done| |flag|flag; done].
    + destruct (reading_eof (set_user u' fp) (consumed 0 a) _FILE_STATUS_EOF ltac:(auto) R') as [[] _].
      unfold consumed. rewrite Hemp, take_nil. destruct (reading_empty fp a R Hoff) as [Hpush _].
      unfold consumed in *. rewrite take_0, drop_0 in *. cbn [length Nat.sub apos apush adata aeof aerr] in *. rewrite Hpush, drop_nil in *.
      by split.
    + unfold consumed. cbn [aeof]. rewrite Hemp. cbn [length]. symmetry. apply Nat.ltb_lt. lia.
  - pose proof (prefix_length _ _ Hpre) as Hlen. rewrite <- Hav in Hlen. rewrite wrapu_id by (unfold in_u; lia).
    pose proof (reading_pos _ _ R) as Hpos.
    destruct (IH (sofar + Z.of_nat (length l)) (acc ++ l) (set_user u' fp) (consumed (length l) a)) as (fp' & E' & F');
      [done|done|done|by flag|by flag| |lia|done|lia|].
    { unfold consumed. cbn [aeof]. apply Nat.ltb_ge. lia. }
    exists fp'. rewrite available_consume in E' by lia. rewrite consume_consume in F' by lia.
    replace (length l + Z.to_nat (count - (sofar + Z.of_nat (length l))))%nat with (Z.to_nat (count - sofar)) in F' by lia.
    split; [|done]. rewrite E'. rewrite <- Hav in Hpre. destruct Hpre as [rest Hrest]. rewrite Hrest, drop_app_length.
    rewrite take_app, <- app_assoc. rewrite (take_ge l) by lia.
    replace (Z.to_nat (count - sofar) - length l)%nat with (Z.to_nat (count - (sofar + Z.of_nat (length l)))) by lia.
    do 3 f_equal. rewrite length_app. lia.
Qed.

(** The file with the end-of-file indicator unended. *)
Definition unended (a : afile) : afile :=
  {| adata := adata a; apos := apos a; apush := apush a; aeof := false; aerr := aerr a |}.

(** [stop_writing;; fp->flags |= _FILE_LAST_READ;; fp->flags &= ~_FILE_STATUS_EOF]. *)
Lemma start_reading fp a {T} (k : M (FILE U) T) :
  is_file fp a → can_read = true →
  ∃ fp', (stop_writing;; upd (add _FILE_LAST_READ);; upd (remove _FILE_STATUS_EOF);; k) fp = k fp'
    ∧ stream fp' ∧ reading fp' (unended a) ∧ buffer_mode fp' = buffer_mode fp ∧ buffer fp' = buffer fp
    ∧ has _FILE_STATUS_EOF fp' = false ∧ has _FILE_STATUS_ERROR fp' = aerr a.
Proof.
  intros F Hc. destruct (begin_reading fp a F Hc) as (fp1 & E & St & R & K1 & K2 & _ & _ & K5).
  destruct (stream_flag _ _FILE_STATUS_EOF ltac:(auto) St) as [_ St'].
  destruct (reading_eof _ _ _FILE_STATUS_EOF ltac:(auto) R) as [_ R'].
  eexists. split; [by step E|]. split_and!; [done|by apply reading_flags|done|done|by flag|].
  destruct F as (_ & _ & Hr & _). rewrite <- Hr, <- K5. by flag.
Qed.

Lemma fread_direct_run fgetc fp a es n :
  is_file fp a → can_read = true → buffer_mode fp = _IONBF → 0 < es * n < 2 ^ 64 →
  let l := take (Z.to_nat (es * n)) (available a) in
  ∃ fp', fread_with isatty fgetc es n fp = Ret ((Z.of_nat (length l) / es, l), fp')
    ∧ is_file fp' (consumed (Z.to_nat (es * n)) a).
Proof.
  intros F Hc Hm Hn l. pose proof F as (St & _ & _ & _). unfold fread_with. step (this_run fp).
  rewrite (stream_readable _ St), Hc, (stream_read _ St Hc), (wrapu_id 64 (es * n)) by (unfold in_u; lia). cbn [negb null].
  rewrite (proj2 (Z.eqb_neq (es * n) 0)) by lia. rewrite Hm. cbn [Z.eqb Pos.eqb _IONBF].
  destruct (ensure_mode_run fp a F) as (fp1 & E1 & F1 & _ & Hm1). step E1.
  destruct (start_reading fp1 a
    ('(sofar, l) ← read_direct (S (Z.to_nat (es * n))) (es * n) 0 []; mret (sofar / es, l)) F1 Hc)
    as (fp2 & E2 & St2 & R2 & M2 & _ & He2 & Hr2).
  assert (Hoff : offset_input_buffer fp2 = amount_input_buffered fp2).
  { symmetry. apply (reading_none _ _ R2). left. rewrite M2. by apply Hm1. }
  destruct (read_direct_run (S (Z.to_nat (es * n))) (es * n) 0 [] fp2 (unended a) St2 R2 Hoff He2 Hr2)
    as (fp3 & E3 & F3); [done|lia|lia|lia|]. rewrite Z.sub_0_r in *.
  exists fp3. split; [|exact F3]. rewrite E2. by step E3.
Qed.

Lemma next_char_take a : take 1 (available a) = match available a with [] => [] | c :: _ => [c] end.
Proof. destruct (available a) as [|c r]; [done|]. cbn [take]. by rewrite take_0. Qed.

Lemma fgetc_run fp a :
  is_file fp a → can_read = true →
  ∃ fp', fgetc_unlocked isatty fp = Ret (next_char a, fp') ∧ is_file fp' (consumed 1 a).
Proof.
  intros F Hc. pose proof F as (St & _ & _ & _). unfold fgetc_unlocked. step (this_run fp).
  rewrite (stream_readable _ St), Hc. cbn [negb].
  destruct (ensure_mode_run fp a F) as (fp1 & E1 & F1 & Hset & _). step E1. step (this_run fp1).
  pose proof F1 as (St1 & _ & _ & _). destruct (Z.eqb_spec (buffer_mode fp1) _IONBF) as [Hm|Hm].
  - destruct (fread_direct_run M_undef fp1 a 1 1 F1 Hc Hm ltac:(lia)) as (fp2 & E2 & F2). change (Z.to_nat (1 * 1)) with 1%nat in *.
    exists fp2. split; [|done]. step E2. cbn beta iota. unfold next_char. rewrite next_char_take.
    by destruct (available a).
  - rewrite (stream_read _ St1 Hc). cbn [null].
    destruct (start_reading fp1 a (more ← fill_input;
          if more : bool then
            fp ← this; c ← buffer_get (offset_input_buffer fp);
            upd (set_input (offset_input_buffer fp + 1) (amount_input_buffered fp));; mret c
          else mret EOF) F1 Hc) as (fp2 & E2 & St2 & R2 & M2 & B2 & He2 & Hr2).
    destruct (getc_buffered fp2 (unended a) St2 R2) as (fp3 & E3 & F3).
    { rewrite B2. by apply (stream_mode _ St1). }
    { congruence. }
    { done. }
    { done. }
    exists fp3. split; [|exact F3]. rewrite E2. exact E3.
Qed.

(** ** [fread] *)

Lemma fgetc_next fp a c rest :
  is_file fp a → can_read = true → afile_ok a → available a = c :: rest →
  ∃ fp', fgetc_unlocked isatty fp = Ret (c, fp') ∧ is_byte c ∧ is_file fp' (consumed 1 a).
Proof.
  intros F Hc Hok Ha. destruct (fgetc_run fp a F Hc) as (fp' & E & F'). exists fp'. unfold next_char in E. rewrite Ha in E.
  split_and!; [done| |done]. pose proof (available_bytes a Hok) as Hb. rewrite Ha in Hb. by inversion Hb.
Qed.

Lemma read_element_run i acc fp a :
  is_file fp a → can_read = true → afile_ok a → (i = 0%nat → aeof a = false) →
  ∃ fp', read_element (fgetc_unlocked isatty) i acc fp
         = Ret (((i <=? length (available a))%nat, acc ++ take i (available a)), fp')
    ∧ is_file fp' (consumed i a).
Proof.
  revert acc fp a. induction i as [|i IH]; intros acc fp a F Hc Hok Hi; cbn [read_element].
  { exists fp. rewrite take_0, app_nil_r, consume_0 by auto. done. }
  destruct (available a) as [|c rest] eqn:Ha.
  - destruct (fgetc_run fp a F Hc) as (fp' & E & F'). unfold next_char in E. rewrite Ha in E.
    exists fp'. step E. rewrite take_nil, app_nil_r. split; [done|].
    rewrite (consume_over (S i) 1) by (rewrite Ha; simpl; lia). done.
  - destruct (fgetc_next fp a c rest F Hc Hok Ha) as (fp1 & E & Hb & F1). step E.
    destruct Hok as (Ho1 & Ho2 & Ho3).
    assert (Hav : available (consumed 1 a) = rest).
    { rewrite available_consume by (rewrite ?Ha; simpl; lia). by rewrite Ha. }
    rewrite (proj2 (Z.eqb_neq c EOF)) by (unfold is_byte, EOF in *; lia). rewrite wrapu_id by done.
    destruct (IH (acc ++ [c]) fp1 (consumed 1 a)) as (fp2 & E2 & F2); [done|done|by apply consume_ok| |].
    { intros _. rewrite consume_eof. by rewrite Ha. }
    exists fp2. rewrite E2, Hav, <- app_assoc. split; [done|].
    rewrite consume_consume in F2 by (rewrite ?Ha; simpl; lia). done.
Qed.

Lemma read_elements_run es n done acc fp a :
  is_file fp a → can_read = true → afile_ok a → (0 < es)%nat → (n = 0%nat → aeof a = false) →
  let l := take (es * n) (available a) in
  ∃ fp', read_elements (fgetc_unlocked isatty) es n done acc fp
         = Ret ((done + Z.of_nat (length l) / Z.of_nat es, acc ++ l), fp')
    ∧ is_file fp' (consumed (es * n) a).
Proof.
  intros F Hc Hok Hes. revert done acc fp a F Hok. induction n as [|n IH]; intros done acc fp a F Hok Hn; cbn [read_elements].
  { exists fp. rewrite Nat.mul_0_r, take_0, app_nil_r, consume_0 by auto. split; [|done].
    cbn [length]. by rewrite Z.div_0_l, Z.add_0_r by lia. }
  destruct (read_element_run es acc fp a F Hc Hok ltac:(lia)) as (fp1 & E & F1). step E. cbv beta iota zeta.
  destruct (Nat.leb_spec es (length (available a))) as [Hle|Hgt].
  - destruct Hok as (Ho1 & Ho2 & Ho3). assert (Hav : available (consumed es a) = drop es (available a)) by by apply available_consume.
    destruct (IH (done + 1) (acc ++ take es (available a)) fp1 (consumed es a) F1) as (fp2 & E2 & F2).
    { by apply consume_ok. }
    { intros _. unfold consumed. cbn [aeof]. by apply Nat.ltb_ge. }
    rewrite Hav in E2. rewrite consume_consume in F2 by done. exists fp2. rewrite E2. rewrite Nat.mul_succ_r, Nat.add_comm.
    split; [|done]. rewrite <- (take_take_drop _ es (es * n)), length_app, app_assoc.
    rewrite (length_take_le (available a) es) by done. rewrite Nat2Z.inj_add.
    replace (Z.of_nat es + _) with (1 * Z.of_nat es + Z.of_nat (length (take (es * n) (drop es (available a))))) by lia.
    rewrite Z.div_add_l by lia. do 3 f_equal. lia.
  - exists fp1. rewrite !(take_ge (available a)) by nia. rewrite (consume_over (es * S n) es) by nia.
    split; [|done]. rewrite Z.div_small by lia. by rewrite Z.add_0_r.
Qed.

Lemma fread_run fp a es n :
  is_file fp a → can_read = true → afile_ok a → 0 < es → 0 < n → es * n < 2 ^ 64 →
  let l := take (Z.to_nat (es * n)) (available a) in
  ∃ fp', fread_unlocked isatty es n fp = Ret ((Z.of_nat (length l) / es, l), fp')
    ∧ is_file fp' (consumed (Z.to_nat (es * n)) a).
Proof.
  intros F Hc Hok Hes Hn Hb l. destruct (Z.eqb_spec (buffer_mode fp) _IONBF) as [Hm|Hm].
  { apply fread_direct_run; [done..|nia]. }
  pose proof F as (St & _ & _ & _). unfold fread_unlocked, fread_with. step (this_run fp).
  rewrite (stream_readable _ St), Hc, (wrapu_id 64 (es * n)) by (unfold in_u; nia). cbn [negb].
  rewrite (proj2 (Z.eqb_neq (es * n) 0)) by nia. rewrite (proj2 (Z.eqb_neq (buffer_mode fp) _IONBF)) by done.
  destruct (read_elements_run (Z.to_nat es) (Z.to_nat n) 0 [] fp a F Hc Hok ltac:(lia) ltac:(lia)) as (fp' & E & F').
  rewrite <- Z2Nat.inj_mul in E, F' by lia. rewrite Z2Nat.id in E by lia. exists fp'. split; [|done]. exact E.
Qed.

(** ** [ungetc] *)

(** The stream with another buffer of the same size and other bounds. *)
Definition rebuffer (b : list Z) (off amt : Z) (fp : FILE U) : FILE U := set_input off amt (set_buffer (Some b) fp).

Lemma stream_rebuffer fp b off amt : stream fp → Z.of_nat (length b) = BUFSIZ → stream (rebuffer b off amt fp).
Proof. intros [] Hb. split; fields; try done. by intros ? [= <-]. Qed.

Lemma reading_rebuffer fp a b off amt pre :
  reading fp a → Z.of_nat (length b) = BUFSIZ → buffer_mode fp ≠ _IONBF →
  take (Z.to_nat (amt - off)) (drop (Z.to_nat off) b) = pre ++ ahead fp →
  amt - off = Z.of_nat (length pre) + (amount_input_buffered fp - offset_input_buffer fp) →
  0 <= off <= amt → amt <= BUFSIZ →
  reading (rebuffer b off amt fp)
    {| adata := adata a; apos := apos a; apush := pre ++ apush a; aeof := false; aerr := aerr a |}.
Proof.
  intros [Rc Rr Rw Rd Ra Rl Rp Ri Rn Ro] Hb Hm Hah Hlen H1 H2. split; unfold rebuffer; fields; try done.
  - unfold ahead. fields. rewrite Hah, Ra. cbn [apush apos adata]. by rewrite app_assoc.
  - cbn [apush apos]. rewrite length_app. lia.
  - by intros [?|?].
Qed.

Lemma take_drop_middle {T} (x y z : list T) n m :
  n = length x → m = length y → take m (drop n (x ++ y ++ z)) = y.
Proof. intros -> ->. by rewrite drop_app_length, take_app_length. Qed.

(** Move what is buffered to the end of the buffer, where there is room before. *)
Lemma slide_run fp a b :
  stream fp → reading fp a → buffer fp = Some b → buffer_mode fp ≠ _IONBF → offset_input_buffer fp = 0 →
  amount_input_buffered fp < BUFSIZ →
  let n := amount_input_buffered fp in
  ∃ b', (l ← buffer_slice 0 n; buffer_write (BUFSIZ - n) l;; upd (set_input (BUFSIZ - n) BUFSIZ);; mret true) fp
        = Ret (true, rebuffer b' (BUFSIZ - n) BUFSIZ fp)
    ∧ stream (rebuffer b' (BUFSIZ - n) BUFSIZ fp) ∧ reading (rebuffer b' (BUFSIZ - n) BUFSIZ fp) (unended a).
Proof.
  intros St R Hb Hm Ho Hlt n. pose proof (stream_buffer _ St _ Hb) as Hlb. pose proof (reading_input _ _ R) as Hin.
  unfold BUFSIZ in *. set (l := take (Z.to_nat n) b).
  assert (Hl : length l = Z.to_nat n) by (unfold l, n; rewrite length_take; lia).
  set (b' := take (Z.to_nat (8192 - n)) b ++ l ++ drop (Z.to_nat (8192 - n) + length l) b).
  assert (Hlb' : Z.of_nat (length b') = 8192).
  { unfold b'. rewrite !length_app, length_take, length_drop. lia. }
  exists b'. split_and!.
  - step (slice_run fp b 0 n Hb ltac:(lia) ltac:(unfold n; lia) ltac:(unfold n; lia)). change (Z.to_nat 0) with 0%nat.
    rewrite drop_0. fold l. step (buffer_write_run fp b (8192 - n) l Hb ltac:(unfold n; lia) ltac:(unfold n; lia)). done.
  - by apply stream_rebuffer.
  - eapply (reading_rebuffer fp a b' (8192 - n) 8192 []); [done..| |unfold n; simpl; lia|unfold n; lia|unfold BUFSIZ; lia].
    cbn [app]. replace (8192 - (8192 - n)) with n by lia. unfold ahead. rewrite Hb, Ho, Z.sub_0_r.
    change (Z.to_nat 0) with 0%nat. rewrite drop_0. fold n l. unfold b'. apply take_drop_middle; [|done].
    rewrite length_take. unfold n. lia.
Qed.

Lemma push_run fp a b c :
  stream fp → reading fp a → buffer fp = Some b → buffer_mode fp ≠ _IONBF → 0 < offset_input_buffer fp → is_byte c →
  let off := offset_input_buffer fp in
  ∃ b', buffer_write (off - 1) [c] fp = Ret ((), set_buffer (Some b') fp)
    ∧ stream (rebuffer b' (off - 1) (amount_input_buffered fp) fp)
    ∧ reading (rebuffer b' (off - 1) (amount_input_buffered fp) fp) (pushed c a).
Proof.
  intros St R Hb Hm Ho Hc off. pose proof (stream_buffer _ St _ Hb) as Hlb. pose proof (reading_input _ _ R) as Hin.
  unfold BUFSIZ in *. eexists. split_and!.
  - apply (buffer_write_run fp b (off - 1) [c] Hb); unfold off; simpl; lia.
  - apply stream_rebuffer; [done|]. unfold BUFSIZ. rewrite !length_app, length_take, length_drop. simpl. unfold off. lia.
  - apply (reading_rebuffer fp a _ (off - 1) (amount_input_buffered fp) [c]); try done; unfold BUFSIZ, off; try (simpl; lia).
    + rewrite !length_app, length_take, length_drop. simpl. lia.
    + rewrite drop_app_ge by (rewrite length_take; lia). rewrite length_take, Nat.min_l, Nat.sub_diag, drop_0 by lia.
      unfold ahead. rewrite Hb. replace (Z.to_nat (amount_input_buffered fp - (offset_input_buffer fp - 1))) with
        (S (Z.to_nat (amount_input_buffered fp - offset_input_buffer fp))) by lia.
      cbn [app take length]. do 3 f_equal. lia.
Qed.

(** The end of [ungetc], when there is room before the buffered bytes. *)
Lemma push_char c fp a a' b :
  stream fp → reading fp a' → buffer fp = Some b → buffer_mode fp ≠ _IONBF → 0 < offset_input_buffer fp →
  has _FILE_STATUS_ERROR fp = aerr a → pushed c a' = pushed c a → is_byte c →
  ∃ fp', (fp ← this; buffer_write (offset_input_buffer fp - 1) [u8 c];;
          upd (set_input (offset_input_buffer fp - 1) (amount_input_buffered fp));;
          upd (remove _FILE_STATUS_EOF);; mret c) fp = Ret (c, fp') ∧ is_file fp' (pushed c a).
Proof.
  intros St R Eb Hm Ho Hr Hp Hb. rewrite (wrapu_id 8 c) by done.
  destruct (push_run fp a' b c St R Eb Hm Ho Hb) as (b5 & E5 & St5 & R5). rewrite Hp in R5.
  destruct (stream_flag _ _FILE_STATUS_EOF ltac:(auto) St5) as [_ St6].
  destruct (reading_eof _ _ _FILE_STATUS_EOF ltac:(auto) R5) as [_ R6].
  eexists. split; [step (this_run fp); step E5; reflexivity|]. apply reading_file; [done|done|by flag|].
  change (aerr (pushed c a)) with (aerr a). rewrite <- Hr. unfold rebuffer. by flag.
Qed.

(** A character is pushed back, or refused. *)
Definition refused_push (a a' : afile) : Prop :=
  a' = a ∨ a' = {| adata := adata a; apos := apos a; apush := apush a; aeof := aeof a; aerr := true |}.

Lemma ungetc_run fp a c :
  is_file fp a → can_read = true → is_byte c →
  ∃ r fp' a', ungetc_unlocked isatty c fp = Ret (r, fp') ∧ is_file fp' a'
    ∧ (r = c ∧ a' = pushed c a ∨ r = EOF ∧ refused_push a a').
Proof.
  intros F Hc Hb. pose proof F as (St & _ & _ & _). unfold ungetc_unlocked.
  rewrite (proj2 (Z.eqb_neq c EOF)) by (unfold is_byte, EOF in *; lia). step (this_run fp).
  rewrite (stream_readable _ St), Hc. cbn [negb].
  destruct (ensure_mode_run fp a F) as (fp1 & E1 & F1 & Hset & _). step E1. pose proof F1 as (St1 & He1 & Hr1 & _).
  destruct (begin_reading fp1 a F1 Hc) as (fp2 & E2 & St2 & R2 & K1 & K2 & _ & K4 & K5). step E2.
  set (fp3 := add _FILE_LAST_READ fp2) in *. step (upd_run (add _FILE_LAST_READ) fp2). fold fp3. step (this_run fp3).
  assert (F3 : is_file fp3 a) by (apply reading_file; [done..|congruence|congruence]).
  destruct (Z.eqb_spec (buffer_mode fp3) _IONBF) as [Hm|Hm].
  { eexists _, _, _. split; [reflexivity|]. split; [|right; split; [done|right; reflexivity]].
    destruct (stream_flag (set_ferrno (Some EBADF) fp3) _FILE_STATUS_ERROR ltac:(auto)) as [St4 _].
    { eapply stream_change; [exact St2|apply St2|done..]. }
    apply reading_file; [done| |flag; rewrite <- He1, <- K4; done|by flag].
    destruct (reading_eof (set_ferrno (Some EBADF) fp3) a _FILE_STATUS_ERROR ltac:(auto)) as [R4 _]; [by destruct R2; split|].
    by apply reading_flags. }
  assert (Hbuf : buffer fp3 ≠ None).
  { rewrite K2. apply (stream_mode _ St1); [done|congruence]. }
  destruct (buffer fp3) as [b|] eqn:Eb; [|done]. pose proof (reading_input _ _ R2) as Hin.
  unfold BUFSIZ in *. destruct (Z.eqb_spec (offset_input_buffer fp3) 0) as [Ho|Ho].
  - rewrite Ho, Z.sub_0_r. rewrite (wrapu_id 64 (amount_input_buffered fp3)), (wrapu_id 64 (8192 - _)) by (unfold in_u; lia).
    destruct (Z.eqb_spec (8192 - amount_input_buffered fp3) 0) as [H0|H0].
    { exists EOF, fp3, a. split; [done|]. split; [done|]. right. split; [done|by left]. }
    replace (8192 - amount_input_buffered fp3 + amount_input_buffered fp3) with 8192 by lia. rewrite (wrapu_id 64 8192) by done.
    destruct (slide_run fp3 a b St2 R2 Eb Hm Ho ltac:(unfold BUFSIZ; lia)) as (b4 & E4 & St4 & R4). unfold BUFSIZ in *.
    destruct (push_char c _ a (unended a) b4 St4 R4) as (fp5 & E5 & F5); [done|done|unfold rebuffer; fields; lia| |done|done|].
    { change (has _FILE_STATUS_ERROR (rebuffer _ _ _ fp3)) with (has _FILE_STATUS_ERROR fp3). congruence. }
    exists c, fp5, (pushed c a). split_and!; [|done|by left]. step E4. exact E5.
  - destruct (push_char c fp3 a a b St2 R2 Eb Hm ltac:(lia)) as (fp5 & E5 & F5); [congruence|done|done|].
    exists c, fp5, (pushed c a). split_and!; [|done|by left].
    rewrite (M_bind_ret _ _ _ true fp3) by done. exact E5.
Qed.

(** ** Flushing a stream *)

Lemma flush_run fp a :
  stream fp → idle fp a ∨ reading fp a ∨ writing fp a → 0 <= apos a →
  ∃ fp', fflush_unlocked fp = Ret (0, fp') ∧ stream fp' ∧ idle fp' (settle a) ∧ keeps fp fp'.
Proof.
  intros St Hph Hpos. unfold fflush_unlocked. step (this_run fp). destruct Hph as [H|[H|H]].
  - exists fp. rewrite (idle_read _ _ H), settle_idle by (done || apply H).
    split_and!; [|done|done|by repeat split]. rewrite (M_bind_ret _ _ fp false fp) by done. step (this_run fp).
    rewrite (idle_write _ _ H). done.
  - destruct (stop_reading_flush fp a St H) as (fp' & E & St' & Hi & K). exists fp'.
    split_and!; [|done..]. rewrite (reading_read _ _ H). erewrite M_bind_ret; [|step E; reflexivity].
    cbn [Z.eqb EOF]. step (this_run fp'). rewrite (idle_write _ _ Hi). done.
  - destruct (stop_writing_flush fp a St H) as (fp' & E & St' & Hi & K). exists fp'.
    rewrite settle_idle by (done || apply H). split_and!; [|done..]. rewrite (writing_read _ _ H).
    rewrite (M_bind_ret _ _ fp false fp) by done. step (this_run fp). rewrite (writing_write _ _ H).
    erewrite M_bind_ret; [|step E; reflexivity]. done.
Qed.

Lemma idle_file fp a :
  stream fp → idle fp a → has _FILE_STATUS_EOF fp = aeof a → has _FILE_STATUS_ERROR fp = aerr a → is_file fp a.
Proof. intros. split_and!; auto. Qed.

Lemma file_phases fp a : is_file fp a → idle fp a ∨ reading fp a ∨ writing fp a.
Proof. intros (_ & _ & _ & [H|[H|[H _]]]); auto. Qed.

Lemma fflush_run fp a :
  is_file fp a → 0 <= apos a → ∃ fp', fflush_unlocked fp = Ret (0, fp') ∧ is_file fp' (settle a) ∧ idle fp' (settle a).
Proof.
  intros F Hpos. pose proof F as (St & He & Hr & _). destruct (flush_run fp a St (file_phases fp a F) Hpos) as (fp' & E & St' & Hi & K).
  exists fp'. split_and!; [done| |done]. destruct K as (_ & _ & _ & K4 & K5). apply idle_file; [done|done|by rewrite K4|by rewrite K5].
Qed.

(** ** Writing *)

Lemma writing_eof fp a f :
  f = _FILE_STATUS_EOF ∨ f = _FILE_STATUS_ERROR → writing fp a → writing (add f fp) a ∧ writing (remove f fp) a.
Proof. intros Hf []. destruct Hf as [-> | ->]; split; split; fields; try done; by flag. Qed.

Lemma writing_flags fp a e r :
  writing fp a → writing fp {| adata := adata a; apos := apos a; apush := apush a; aeof := e; aerr := r |}.
Proof. intros []. by split. Qed.

Lemma start_writing fp a {T} (k : M (FILE U) T) :
  is_file fp a → can_write = true →
  ∃ fp', (stop_reading;; upd (add _FILE_LAST_WRITE);; upd (remove _FILE_STATUS_EOF);; k) fp = k fp'
    ∧ stream fp' ∧ writing fp' (unended (settle a)) ∧ amount_output_buffered fp' < BUFSIZ
    ∧ buffer_mode fp' = buffer_mode fp ∧ buffer fp' = buffer fp
    ∧ has _FILE_STATUS_EOF fp' = false ∧ has _FILE_STATUS_ERROR fp' = aerr a.
Proof.
  intros F Hc. destruct (begin_writing fp a F Hc) as (fp1 & E & St & W & Hlt & K1 & K2 & _ & _ & K5).
  destruct (stream_flag _ _FILE_STATUS_EOF ltac:(auto) St) as [_ St'].
  destruct (writing_eof _ _ _FILE_STATUS_EOF ltac:(auto) W) as [_ W'].
  eexists. split; [by step E|]. split_and!; [done|by apply writing_flags|done|done|done|by flag|].
  destruct F as (_ & _ & Hr & _). rewrite <- Hr, <- K5. by flag.
Qed.

(** Storing a byte at the end of what is buffered. *)
Lemma store_output_run fp a b c :
  stream fp → writing fp a → buffer fp = Some b → buffer_mode fp ≠ _IONBF → amount_output_buffered fp < BUFSIZ →
  is_byte c → apos a + 1 <= cap →
  let out := amount_output_buffered fp in
  ∃ b', buffer_write out [c] fp = Ret ((), set_buffer (Some b') fp)
    ∧ let fp' := set_output (out + 1) (set_buffer (Some b') fp) in
      stream fp' ∧ writing fp' {| adata := overwrite (adata a) (Z.to_nat (apos a)) [c]; apos := apos a + 1;
                                  apush := []; aeof := aeof a; aerr := aerr a |}.
Proof.
  intros St [Wc Wr Ww Wd Wp Wb Wu Wi Wo Wn Wcap] Hb Hm Hlt Hc Hcap out.
  pose proof (stream_buffer _ St _ Hb) as Hlb. pose proof (dev_position _ (stream_valid _ St)) as Hpos. unfold BUFSIZ in *.
  set (b' := take (Z.to_nat out) b ++ [c] ++ drop (Z.to_nat out + length [c]) b).
  assert (Htk : take (Z.to_nat (out + 1)) b' = take (Z.to_nat out) b ++ [c]).
  { unfold b'. rewrite app_assoc. apply take_app_length'. rewrite length_app, length_take. unfold out. simpl. lia. }
  exists b'. split; [apply (buffer_write_run fp b out [c] Hb); unfold out; simpl; lia|]. cbn zeta. split.
  - destruct St. split; fields; try done. intros ? [= <-]. unfold b', BUFSIZ, out. rewrite !length_app, length_take, length_drop. simpl. lia.
  - rewrite Hb in Wd, Wb. cbn [default] in Wd, Wb. split; fields; cbn [default adata apos apush aeof aerr]; try done; unfold BUFSIZ; try lia.
    + unfold id in *. rewrite Htk, <- (overwrite_app _ _ (take (Z.to_nat out) b) [c]). fold out in Wd. rewrite <- Wd.
      f_equal. rewrite length_take. unfold out. lia.
    + unfold id in *. rewrite Htk. apply Forall_app. split; [done|by constructor].
    + by intros [?|?].
Qed.

Lemma writing_file fp a :
  stream fp → writing fp a → amount_output_buffered fp < BUFSIZ →
  has _FILE_STATUS_EOF fp = aeof a → has _FILE_STATUS_ERROR fp = aerr a → is_file fp a.
Proof. intros. split_and!; auto. Qed.

(** Writing without the buffer. *)
Lemma write_direct_run fuel buf count sofar fp :
  can_write = true → stream fp → Forall is_byte buf → count = Z.of_nat (length buf) → count < 2 ^ 63 →
  0 <= sofar <= count → position (user fp) + (count - sofar) <= cap → (Z.to_nat (count - sofar) < fuel)%nat →
  ∃ u', write_direct fuel buf count sofar fp = Ret (count, set_user u' fp) ∧ valid u'
    ∧ content u' = overwrite (content (user fp)) (Z.to_nat (position (user fp))) (drop (Z.to_nat sofar) buf)
    ∧ position u' = position (user fp) + (count - sofar).
Proof.
  intros Hc St Hby Hl H63. revert sofar fp St. induction fuel as [|fuel IH]; intros sofar fp St Hs Hcap Hf; [lia|].
  cbn [write_direct]. destruct (Z.ltb_spec sofar count) as [Hlt|Hge].
  2: { exists (user fp). assert (sofar = count) as -> by lia. rewrite drop_ge by lia.
       split_and!; [by destruct fp|apply St|done|lia]. }
  rewrite (wrapu_id 64 (count - sofar)), clamp_small by (unfold in_u; lia).
  set (l := drop (Z.to_nat sofar) buf). assert (Hlen : length l = Z.to_nat (count - sofar)) by (unfold l; rewrite length_drop; lia).
  rewrite (take_ge l) by lia.
  destruct (call_write_run fp l Hc (stream_write _ St Hc) (stream_valid _ St)) as (k & u1 & E & Hv1 & Hk & Hc1 & Hp1);
    [intros ->; simpl in Hlen; lia|by apply Forall_drop|lia|].
  step E. cbv beta iota. rewrite (proj2 (Z.eqb_neq (Z.of_nat k) 0)) by lia. rewrite wrapu_id by (unfold in_u; lia).
  destruct (IH (sofar + Z.of_nat k) (set_user u1 fp)) as (u2 & E2 & Hv2 & Hc2 & Hp2); fields; [|lia|lia|lia|].
  { eapply stream_change; [exact St|done..]. }
  exists u2. split_and!; [by rewrite E2|done| |lia]. rewrite Hc2, Hc1, Hp1.
  replace (Z.to_nat (position (user fp) + Z.of_nat k)) with (Z.to_nat (position (user fp)) + length (take k l))%nat
    by (pose proof (dev_position _ (stream_valid _ St)); rewrite length_take; lia).
  rewrite overwrite_app. f_equal. rewrite <- (take_drop k l) at 2. f_equal. unfold l. rewrite drop_drop. f_equal. lia.
Qed.

Lemma fwrite_direct_run fputc fp a buf es n :
  is_file fp a → can_write = true → buffer_mode fp = _IONBF → Forall is_byte buf → 0 < es → 0 < n →
  es * n = Z.of_nat (length buf) → apos (settle a) + Z.of_nat (length buf) <= cap →
  ∃ fp', fwrite_with isatty fputc buf es n fp = Ret (n, fp') ∧ is_file fp' (written buf a).
Proof.
  intros F Hc Hm Hby Hes Hn Hlen Hcap. pose proof F as (St & _ & _ & _). pose proof dev_cap as Hcap62. unfold fwrite_with. step (this_run fp).
  assert (H0 : 0 <= apos (settle a)) by (cbn; lia).
  rewrite (stream_writable _ St), Hc, (stream_write _ St Hc), (wrapu_id 64 (es * n)) by (unfold in_u; nia). cbn [negb null].
  rewrite (proj2 (Z.eqb_neq (es * n) 0)) by nia. rewrite Hm. cbn [Z.eqb Pos.eqb _IONBF].
  destruct (ensure_mode_run fp a F) as (fp1 & E1 & F1 & _ & Hm1). step E1.
  destruct (start_writing fp1 a
    (sofar ← write_direct (S (Z.to_nat (es * n))) buf (es * n) 0; mret (sofar / es)) F1 Hc)
    as (fp2 & E2 & St2 & W2 & Hlt2 & M2 & B2 & He2 & Hr2).
  pose proof W2 as [Wc Wr Ww Wd Wp Wb Wu Wi Wo Wn Wcap].
  assert (Hout : amount_output_buffered fp2 = 0) by (apply Wn; left; rewrite M2; by apply Hm1).
  rewrite Hout, take_0 in Wd. rewrite Hout, Z.add_0_r in Wp. cbn [unended adata apos] in Wd, Wp.
  destruct (write_direct_run (S (Z.to_nat (es * n))) buf (es * n) 0 fp2 Hc St2 Hby Hlen) as (u3 & E3 & Hv3 & Hc3 & Hp3);
    [lia|lia|lia|lia|]. rewrite Z.sub_0_r in *. change (Z.to_nat 0) with 0%nat in Hc3. rewrite drop_0 in Hc3.
  exists (set_user u3 fp2). split.
  - rewrite E2. step E3. unfold mret, M_ret. by rewrite Z.mul_comm, Z.div_mul by lia.
  - apply writing_file; [|split|..]; fields; try done.
    + eapply stream_change; [exact St2|done..].
    + rewrite Hout, take_0. cbn [overwrite written adata] in *. rewrite Hc3, <- Wp, <- Wd. done.
    + cbn [written apos] in *. rewrite Hp3, <- Wp, Hlen, Hout. lia.
Qed.

Lemma fputc_run fp a c :
  is_file fp a → can_write = true → is_byte c → apos (settle a) + 1 <= cap →
  ∃ fp', fputc_unlocked isatty c fp = Ret (c, fp') ∧ is_file fp' (written [c] a).
Proof.
  intros F Hc Hb Hcap. pose proof F as (St & _ & _ & _). unfold fputc_unlocked. step (this_run fp).
  rewrite (stream_writable _ St), Hc. cbn [negb].
  destruct (ensure_mode_run fp a F) as (fp1 & E1 & F1 & Hset & _). step E1. step (this_run fp1).
  pose proof F1 as (St1 & _ & _ & _). rewrite (wrapu_id 8 c) by done.
  destruct (Z.eqb_spec (buffer_mode fp1) _IONBF) as [Hm|Hm].
  - destruct (fwrite_direct_run (λ _, M_undef) fp1 a [c] 1 1 F1 Hc Hm) as (fp2 & E2 & F2); [by constructor|done|done|done|done|].
    exists fp2. split; [|done]. by step E2.
  - rewrite (stream_write _ St1 Hc). cbn [null].
    match goal with |- context [upd (remove _FILE_STATUS_EOF) ≫= (λ _, ?k)] =>
      destruct (start_writing fp1 a k F1 Hc) as (fp2 & E2 & St2 & W2 & Hlt2 & M2 & B2 & He2 & Hr2) end.
    rewrite E2. clear E2. destruct (buffer fp2) as [b|] eqn:Eb.
    2: { exfalso. apply (stream_mode _ St1 Hset Hm). congruence. }
    destruct (store_output_run fp2 _ b c St2 W2 Eb ltac:(congruence) Hlt2 Hb) as (b' & E3 & St3 & W3); [done|].
    cbn zeta in W3. set (fp3 := set_output _ _) in *. step (this_run fp2). step E3. step (upd_run (set_output (amount_output_buffered fp2 + 1)) (set_buffer (Some b') fp2)).
    fold fp3. step (this_run fp3).
    change (writing fp3 (written [c] a)) in W3.
    assert (He3 : has _FILE_STATUS_EOF fp3 = false) by done. assert (Hr3 : has _FILE_STATUS_ERROR fp3 = aerr a) by done.
    destruct ((amount_output_buffered fp3 =? BUFSIZ) || _) eqn:Efl.
    + destruct (flush_run fp3 (written [c] a) St3 ltac:(auto)) as (fp4 & E4 & St4 & Hi & K1 & K2 & K3 & K4 & K5).
      { cbn [written apos settle]. lia. }
      exists fp4. split; [by step E4|]. rewrite settle_idle in Hi; [|done|cbn [written apos settle]; lia].
      apply idle_file; [done|done|by rewrite K4|by rewrite K5].
    + exists fp3. split; [done|]. apply writing_file; [done|done| |done|done].
      apply orb_false_iff in Efl as [Efl _]. apply Z.eqb_neq in Efl. pose proof (writing_output _ _ W3). lia.
Qed.

Lemma written_pos l a : apos (settle (written l a)) = apos (settle a) + Z.of_nat (length l).
Proof. cbn [settle written apos apush length]. lia. Qed.

Lemma write_element_run l fp a :
  is_file fp a → can_write = true → Forall is_byte l → l ≠ [] → apos (settle a) + Z.of_nat (length l) <= cap →
  ∃ fp', write_element (fputc_unlocked isatty) l fp = Ret (true, fp') ∧ is_file fp' (written l a).
Proof.
  intros F Hc. revert fp a F. induction l as [|c l IH]; intros fp a F Hb Hl Hcap; [done|]. cbn [write_element].
  apply Forall_cons_1 in Hb as [Hbc Hb]. cbn [length] in Hcap.
  destruct (fputc_run fp a c F Hc Hbc ltac:(lia)) as (fp1 & E & F1). step E.
  rewrite (proj2 (Z.eqb_neq c EOF)) by (unfold is_byte, EOF in *; lia).
  destruct l as [|d l]; [by exists fp1|].
  destruct (IH fp1 (written [c] a) F1 Hb ltac:(done)) as (fp2 & E2 & F2).
  { rewrite written_pos. cbn [length] in *. lia. }
  exists fp2. split; [done|]. by rewrite written_written in F2.
Qed.

Lemma write_elements_run es n buf done fp a :
  is_file fp a → can_write = true → Forall is_byte buf → (0 < es)%nat → (0 < n)%nat → length buf = (es * n)%nat →
  apos (settle a) + Z.of_nat (length buf) <= cap →
  ∃ fp', write_elements (fputc_unlocked isatty) es n buf done fp = Ret (done + Z.of_nat n, fp') ∧ is_file fp' (written buf a).
Proof.
  intros F Hc. revert buf done fp a F. induction n as [|n IH]; intros buf done fp a F Hb Hes Hn Hl Hcap; [lia|]. cbn [write_elements].
  rewrite <- (take_drop es buf) in Hb, Hcap |- *. apply Forall_app in Hb as [Hb1 Hb2].
  assert (Hlt : length (take es buf) = es) by (rewrite length_take; nia). rewrite length_app, Hlt in Hcap.
  rewrite take_app_length', drop_app_length' by done.
  destruct (write_element_run (take es buf) fp a F Hc Hb1) as (fp1 & E & F1).
  { intros E. rewrite E in Hlt. simpl in Hlt. lia. }
  { lia. }
  step E. cbn iota. destruct n as [|n].
  - exists fp1. cbn [write_elements]. split; [do 2 f_equal; lia|]. rewrite (drop_ge buf), app_nil_r by lia. done.
  - destruct (IH (drop es buf) (done + 1) fp1 (written (take es buf) a) F1 Hb2 Hes ltac:(lia)) as (fp2 & E2 & F2).
    { rewrite length_drop. nia. }
    { rewrite written_pos. lia. }
    exists fp2. rewrite E2. rewrite written_written in F2. split; [do 2 f_equal; lia|done].
Qed.

Lemma fwrite_run fp a buf es n :
  is_file fp a → can_write = true → Forall is_byte buf → 0 < es → 0 < n → es * n = Z.of_nat (length buf) →
  apos (settle a) + Z.of_nat (length buf) <= cap →
  ∃ fp', fwrite_unlocked isatty buf es n fp = Ret (n, fp') ∧ is_file fp' (written buf a).
Proof.
  intros F Hc Hby Hes Hn Hlen Hcap. destruct (Z.eqb_spec (buffer_mode fp) _IONBF) as [Hm|Hm].
  { by apply fwrite_direct_run. }
  pose proof F as (St & _ & _ & _). pose proof dev_cap as Hcap62. assert (H0 : 0 <= apos (settle a)) by (cbn; lia).
  unfold fwrite_unlocked, fwrite_with. step (this_run fp).
  rewrite (stream_writable _ St), Hc, (wrapu_id 64 (es * n)) by (unfold in_u; nia). cbn [negb].
  rewrite (proj2 (Z.eqb_neq (es * n) 0)) by nia. rewrite (proj2 (Z.eqb_neq (buffer_mode fp) _IONBF)) by done.
  destruct (write_elements_run (Z.to_nat es) (Z.to_nat n) buf 0 fp a F Hc Hby ltac:(lia) ltac:(lia)) as (fp' & E & F');
    [rewrite <- Z2Nat.inj_mul by lia; lia|done|].
  exists fp'. split; [|done]. rewrite E. do 2 f_equal. lia.
Qed.

(** ** The position *)

Lemma fseeko_run fp a offset whence :
  is_file fp a → afile_ok a → 0 <= whence <= 2 →
  let target := seek_base (adata a) (apos (settle a)) whence + offset in
  0 <= target <= cap →
  ∃ fp', fseeko_unlocked offset whence fp = Ret (0, fp') ∧ is_file fp' (moved target a).
Proof.
  intros F (_ & _ & Hp) Hw target Ht. pose proof F as (St & _ & _ & _). unfold fseeko_unlocked. step (this_run fp).
  rewrite (stream_seek _ St). cbn [null]. destruct (fflush_run fp a F Hp) as (fp1 & E1 & F1 & Hi). step E1. cbn [Z.eqb negb].
  pose proof F1 as (St1 & _ & Hr1 & _).
  destruct (call_seek_run fp1 offset whence St1 Hw) as (u & E2 & Hv & Hc & Hpos).
  { rewrite (idle_data _ _ Hi), (idle_pos _ _ Hi). exact Ht. }
  rewrite (idle_data _ _ Hi), (idle_pos _ _ Hi) in *. change (adata (settle a)) with (adata a) in *. fold target in E2, Hpos.
  step E2. rewrite (proj2 (Z.ltb_ge target 0)) by lia. eexists. split; [reflexivity|].
  destruct (stream_flag (set_user u fp1) _FILE_STATUS_EOF ltac:(auto)) as [_ St2].
  { eapply stream_change; [exact St1|done..]. }
  apply idle_file; [done| |by flag|by flag; rewrite Hr1].
  destruct Hi. split; fields; try (by flag); try done.
Qed.

Lemma ftello_run fp a :
  is_file fp a → afile_ok a → ∃ fp', ftello_unlocked fp = Ret (apos (settle a), fp') ∧ is_file fp' a.
Proof.
  intros F (_ & _ & Hp). pose proof F as (St & He & Hr & Hph). unfold ftello_unlocked. step (this_run fp).
  rewrite (stream_seek _ St). cbn [null]. pose proof (dev_position _ (stream_valid _ St)) as Hpos. pose proof dev_cap as Hcap.
  destruct (call_seek_run fp 0 SEEK_CUR St) as (u & E & Hv & Hc & Hp').
  { unfold SEEK_CUR. lia. }
  { cbn. lia. }
  change (seek_base (content (user fp)) (position (user fp)) SEEK_CUR) with (position (user fp)) in E, Hp'. rewrite Z.add_0_r in E, Hp'.
  assert (F' : is_file (set_user u fp) a).
  { split_and!; [eapply stream_change; [exact St|done..]|done|done|].
    destruct Hph as [[]|[[]|[[] ?]]]; [left|right; left|right; right; split; [|done]]; split; fields; rewrite ?Hc, ?Hp'; done. }
  exists (set_user u fp). split; [|done]. step E. rewrite (proj2 (Z.ltb_ge _ 0)) by lia.
  set (ra := amount_input_buffered fp - offset_input_buffer fp). set (wb := amount_output_buffered fp).
  assert (Hb : 0 <= ra <= 8192 ∧ 0 <= wb <= 8192 ∧ (apos (settle a) = if position (user fp) <? ra then 0 else position (user fp) - ra + wb)).
  { unfold ra, wb. destruct Hph as [Hi|[R|[W _]]].
    - destruct Hi as [_ _ _ Hi1 Hi2 [-> ->] ->]. cbn [settle apos]. rewrite Hi2. cbn [length].
      rewrite (proj2 (Z.ltb_ge (position (user fp)) (0 - 0))) by lia. lia.
    - destruct R as [_ _ _ _ _ Rl Rp Ri _ ->]. unfold BUFSIZ in *. cbn [settle apos].
      destruct (Z.ltb_spec (position (user fp)) (amount_input_buffered fp - offset_input_buffer fp)); lia.
    - destruct W as [_ _ _ _ Wp _ Wu [-> ->] Wo _ _]. unfold BUFSIZ in *. cbn [settle apos]. rewrite Wu. cbn [length].
      rewrite (proj2 (Z.ltb_ge (position (user fp)) (0 - 0))) by lia. lia. }
  destruct Hb as (Hra & Hwb & ->). rewrite (wrapu_id 64 ra), (wraps_id 64 ra), (wraps_id 64 wb) by (unfold in_u, in_s; lia).
  destruct (Z.ltb_spec (position (user fp)) ra); [done|].
  rewrite (checked_ok 64 (position (user fp) - ra)) by (unfold in_s; lia). unfold M_lift, mbind, outcome_bind.
  by rewrite checked_ok by (unfold in_s; lia).
Qed.

End Stream.

End StdioSpec.
