(* ===== verification/Fmemopen.v ===== *)
(** * Streams over memory

    [stdio/fmemopen.c], [open_memstream.c], [fparsemode.c] and the parts of
    [fnewfile.c] and [fresetfile.c] that set a stream up.  The state of
    [fmemopen] is a device that behaves like a file, so that the theorems about
    streams hold of it. *)

From S2P Require Import Prelude Memory Stdio StdioSpec.
From stdpp Require Import base list numbers strings.
From Stdlib Require Import ZArith Lia Ascii.
Import Mem(is_byte) Stdio StdioSpec.

#[local] Open Scope Z_scope.
#[local] Open Scope c_scope.

Module Fmemopen.

Definition FILE_MODE_READ : Z := Z.shiftl 1 0.
Definition FILE_MODE_WRITE : Z := Z.shiftl 1 1.
Definition FILE_MODE_APPEND : Z := Z.shiftl 1 2.
Definition FILE_MODE_CREATE : Z := Z.shiftl 1 3.
Definition FILE_MODE_TRUNCATE : Z := Z.shiftl 1 4.
Definition FILE_MODE_BINARY : Z := Z.shiftl 1 5.
Definition FILE_MODE_EXCL : Z := Z.shiftl 1 6.
Definition FILE_MODE_CLOEXEC : Z := Z.shiftl 1 7.

(** ** Modes *)

Fixpoint parse_modifiers (mode : list Z) (result : Z) : option Z :=
  match mode with
  | [] => Some result
  | c :: mode =>
      if c =? ch "b" then parse_modifiers mode (Z.lor result FILE_MODE_BINARY) else
      if c =? ch "e" then parse_modifiers mode (Z.lor result FILE_MODE_CLOEXEC) else
      if c =? ch "t" then parse_modifiers mode (Z.land result (Z.lnot FILE_MODE_BINARY)) else
      if c =? ch "x" then parse_modifiers mode (Z.lor result FILE_MODE_EXCL) else
      if c =? ch "+" then parse_modifiers mode (Z.lor result (Z.lor FILE_MODE_READ FILE_MODE_WRITE)) else
      None
  end.

(** The mode, or nothing when the string is not one. *)
Definition fparsemode (mode : list Z) : option Z :=
  match mode with
  | [] => None
  | c :: mode =>
      if c =? ch "r" then parse_modifiers mode FILE_MODE_READ else
      if c =? ch "w" then
        parse_modifiers mode (Z.lor (Z.lor FILE_MODE_WRITE FILE_MODE_CREATE) FILE_MODE_TRUNCATE) else
      if c =? ch "a" then
        parse_modifiers mode (Z.lor (Z.lor FILE_MODE_WRITE FILE_MODE_CREATE) FILE_MODE_APPEND) else
      None
  end.

(** ** [fmemopen] *)

Record fmemopen_state := {
  mbuffer : list Z;
  buffer_true_size : Z;
  buffer_size : Z;
  buffer_offset : Z;
  buffer_used : Z;
  mode : Z
}.

Definition moved_to (offset : Z) (st : fmemopen_state) : fmemopen_state :=
  {| mbuffer := mbuffer st; buffer_true_size := buffer_true_size st; buffer_size := buffer_size st;
     buffer_offset := offset; buffer_used := buffer_used st; mode := mode st |}.

Definition used_to (used : Z) (st : fmemopen_state) : fmemopen_state :=
  {| mbuffer := mbuffer st; buffer_true_size := buffer_true_size st; buffer_size := buffer_size st;
     buffer_offset := buffer_offset st; buffer_used := used; mode := mode st |}.

Definition with_bytes (b : list Z) (st : fmemopen_state) : fmemopen_state :=
  {| mbuffer := b; buffer_true_size := buffer_true_size st; buffer_size := buffer_size st;
     buffer_offset := buffer_offset st; buffer_used := buffer_used st; mode := mode st |}.

(** [state->mode & flag]. *)
Definition in_mode (flag : Z) (m : Z) : bool := negb (Z.land m flag =? 0).

(** [memcpy] and [memset] into the buffer. *)
Definition put_bytes (at_ : Z) (l : list Z) (st : fmemopen_state) : outcome fmemopen_state :=
  b ← write_at (mbuffer st) at_ l; Ret (with_bytes b st).

Definition fmemopen_read (count : Z) : M fmemopen_state (result (list Z)) := λ st,
  if negb (in_mode FILE_MODE_READ (mode st)) then Ret (inl EBADF, st) else
  let count := clamp_ssize count in
  if buffer_used st <? buffer_offset st then Ret (inr [], st) else
  let available := u64 (buffer_used st - buffer_offset st) in
  let count := if available <? count then available else count in
  if (0 <=? buffer_offset st) && (buffer_offset st + count <=? Z.of_nat (length (mbuffer st))) then
    Ret (inr (take (Z.to_nat count) (drop (Z.to_nat (buffer_offset st)) (mbuffer st))),
         moved_to (u64 (buffer_offset st + count)) st)
  else Undef.

(** The bytes between the end and the offset become zero. *)
Definition fill_gap (st : fmemopen_state) : outcome fmemopen_state :=
  if buffer_used st <? buffer_offset st then
    let distance := buffer_offset st - buffer_used st in
    st ← put_bytes (buffer_used st) (replicate (Z.to_nat distance) 0) st;
    Ret (used_to (buffer_offset st) st)
  else Ret st.

(** The end moves with the offset, and text has a terminator there. *)
Definition extend_end (st : fmemopen_state) : outcome fmemopen_state :=
  if buffer_used st <? buffer_offset st then
    let st := used_to (buffer_offset st) st in
    if negb (in_mode FILE_MODE_BINARY (mode st)) && (buffer_used st <? buffer_true_size st)
    then put_bytes (buffer_used st) [0] st
    else Ret st
  else Ret st.

Definition fmemopen_write (src : list Z) : M fmemopen_state (result Z) := λ st,
  if negb (in_mode FILE_MODE_WRITE (mode st)) then Ret (inl EBADF, st) else
  let count := clamp_ssize (Z.of_nat (length src)) in
  let st := if in_mode FILE_MODE_APPEND (mode st) then moved_to (buffer_used st) st else st in
  st ← fill_gap st;
  let available := u64 (buffer_size st - buffer_offset st) in
  let count := if available <? count then available else count in
  st ← put_bytes (buffer_offset st) (take (Z.to_nat count) src) st;
  st ← extend_end (moved_to (u64 (buffer_offset st + count)) st);
  Ret (inr count, st).

Definition fmemopen_seek (offset whence : Z) : M fmemopen_state (result Z) := λ st,
  match (if whence =? SEEK_SET then Some 0
         else if whence =? SEEK_CUR then Some (s64 (buffer_offset st))
         else if whence =? SEEK_END then Some (s64 (buffer_used st)) else None) with
  | None => Ret (inl EINVAL, st)
  | Some base =>
      lo ← checked 64 (- base);
      hi ← checked 64 (s64 (buffer_size st) - base);
      if (offset <? lo) || (hi <? offset) then Ret (inl EOVERFLOW, st) else
      t ← checked 64 (base + offset);
      Ret (inr (s64 (u64 t)), moved_to (u64 t) st)
  end.

(** [strnlen] of the buffer. *)
Fixpoint text_length (l : list Z) (n : nat) : nat :=
  match n, l with
  | S n, c :: l => if c =? 0 then 0 else S (text_length l n)
  | _, _ => 0
  end.

(** Where the offset and the end start. *)
Definition fmemopen_start (st : fmemopen_state) : fmemopen_state :=
  if in_mode FILE_MODE_APPEND (mode st) && negb (in_mode FILE_MODE_BINARY (mode st)) then
    let n := Z.of_nat (text_length (mbuffer st) (Z.to_nat (buffer_size st))) in used_to n (moved_to n st)
  else if in_mode FILE_MODE_TRUNCATE (mode st) then used_to 0 (moved_to 0 st)
  else used_to (buffer_size st) (moved_to 0 st).

(** A stream from [fnewfile], with the flags of a registered stream; [stale] is
    what its buffer holds. *)
Definition fnewfile (stale : list Z) {U} (u : U) : FILE U :=
  {| buffer := Some stale; user := u; read_func := None; write_func := None; seek_func := None;
     flags := 1; buffer_mode := -1; fd := 0; offset_input_buffer := 0; amount_input_buffered := 0;
     amount_output_buffered := 0; ferrno := None |}.

Definition opened (stale : list Z) (st : fmemopen_state) : FILE fmemopen_state :=
  let fp := fnewfile stale st in
  let f := flags fp in
  let f := if in_mode FILE_MODE_READ (mode st) then Z.lor f _FILE_READABLE else f in
  let f := if in_mode FILE_MODE_WRITE (mode st) then Z.lor f _FILE_WRITABLE else f in
  {| buffer := buffer fp; user := st; read_func := Some fmemopen_read; write_func := Some fmemopen_write;
     seek_func := Some fmemopen_seek; flags := f; buffer_mode := buffer_mode fp; fd := -1;
     offset_input_buffer := 0; amount_input_buffered := 0; amount_output_buffered := 0; ferrno := None |}.

Definition allowed_modes : Z :=
  Z.lor (Z.lor (Z.lor FILE_MODE_READ FILE_MODE_WRITE) (Z.lor FILE_MODE_CREATE FILE_MODE_BINARY))
    (Z.lor FILE_MODE_TRUNCATE FILE_MODE_APPEND).

(** The caller's buffer, or nothing for one to be allocated; [allocated] says
    whether each of the three allocations succeeds. *)
Definition fmemopen (buffer_ptr : option (list Z)) (size : Z) (mode_str : list Z)
    (allocated : bool * bool * bool) (stale : list Z) : outcome (result (FILE fmemopen_state)) :=
  match fparsemode mode_str with
  | None => Ret (inl EINVAL)
  | Some m =>
      if negb (Z.land m (Z.lnot allowed_modes) =? 0) then Ret (inl EINVAL) else
      if LONG_MAX <? size then Ret (inl EOVERFLOW) else
      let text_out := negb (in_mode FILE_MODE_BINARY m) && in_mode FILE_MODE_WRITE m && negb (in_mode FILE_MODE_READ m) in
      if text_out && (size =? 0) then Ret (inl EINVAL) else
      let '(buffer_ok, state_ok, file_ok) := allocated in
      match buffer_ptr, buffer_ok with
      | None, false => Ret (inl ENOMEM)
      | _, _ =>
          if negb (state_ok && file_ok) then Ret (inl ENOMEM) else
          let b := match buffer_ptr with Some b => b | None => replicate (Z.to_nat size) 0 end in
          let st := fmemopen_start
            {| mbuffer := b; buffer_true_size := size; buffer_size := if text_out then size - 1 else size;
               buffer_offset := 0; buffer_used := 0; mode := m |} in
          st ← (if negb (in_mode FILE_MODE_BINARY m) && in_mode FILE_MODE_WRITE m && (buffer_used st <? buffer_true_size st)
                then put_bytes (buffer_used st) [0] st else Ret st);
          Ret (inr (opened stale st))
      end
  end.

(** Write and read a stream in memory back. *)
Example fmemopen_example :
  (r ← fmemopen (Some (replicate 20 7)) 20 (lit "w+") (true, true, true) (replicate (Z.to_nat BUFSIZ) 9);
   match r with
   | inl _ => Undef
   | inr fp =>
       x ← (fputs_unlocked (λ _, false) (lit "hello");; fseeko_unlocked 1 SEEK_SET;;
            '(n, l) ← fread_unlocked (λ _, false) 1 10; p ← ftello_unlocked; e ← feof_unlocked;
            mret (n, l, p, e)) fp;
       Ret (x.1, mbuffer (user x.2))
   end) = Ret ((4, lit "ello", 5, 1), lit "hello" ++ [0] ++ replicate 14 7).
Proof. vm_compute. reflexivity. Qed.

(** ** [fmemopen] is a device

    In every mode but appending, where the position of a write is not the
    stream's. *)

Record valid (can_read can_write : bool) (cap : Z) (st : fmemopen_state) : Prop := {
  valid_length : Z.of_nat (length (mbuffer st)) = buffer_true_size st;
  valid_bytes : Forall is_byte (mbuffer st);
  valid_size : buffer_size st = cap ∧ 0 <= cap <= buffer_true_size st ∧ cap < 2 ^ 62;
  valid_offset : 0 <= buffer_offset st <= cap;
  valid_used : 0 <= buffer_used st <= cap;
  valid_append : in_mode FILE_MODE_APPEND (mode st) = false;
  valid_read : in_mode FILE_MODE_READ (mode st) = can_read;
  valid_write : in_mode FILE_MODE_WRITE (mode st) = can_write
}.

Definition content (st : fmemopen_state) : list Z := take (Z.to_nat (buffer_used st)) (mbuffer st).

Section Device.
Context (can_read can_write : bool) (cap : Z).
Abbreviation valid_st := (valid can_read can_write cap).

Lemma put_bytes_run st at_ l :
  valid_st st → 0 <= at_ → at_ + Z.of_nat (length l) <= Z.of_nat (length (mbuffer st)) → Forall is_byte l →
  let b := take (Z.to_nat at_) (mbuffer st) ++ l ++ drop (Z.to_nat at_ + length l) (mbuffer st) in
  put_bytes at_ l st = Ret (with_bytes b st) ∧ valid_st (with_bytes b st).
Proof.
  intros V H1 H2 Hl b. split.
  - unfold put_bytes, write_at. by rewrite (proj2 (Z.leb_le 0 at_)), (proj2 (Z.leb_le (at_ + _) _)) by lia.
  - destruct V. split; cbn [with_bytes mbuffer buffer_true_size buffer_size buffer_offset buffer_used mode]; try done.
    + unfold b. rewrite !length_app, length_take, length_drop. lia.
    + unfold b. rewrite !Forall_app. split_and!; [by apply Forall_take|done|by apply Forall_drop].
Qed.

Lemma valid_moved st offset : valid_st st → 0 <= offset <= cap → valid_st (moved_to offset st).
Proof. intros [] H. by split. Qed.

Lemma valid_used_to st used : valid_st st → 0 <= used <= cap → valid_st (used_to used st).
Proof. intros [] H. by split. Qed.

Lemma read_run st n :
  can_read = true → valid_st st → 0 < n →
  ∃ l st', fmemopen_read n st = Ret (inr l, st') ∧ valid_st st'
    ∧ l `prefix_of` drop (Z.to_nat (buffer_offset st)) (content st)
    ∧ Z.of_nat (length l) <= n ∧ (l = [] → drop (Z.to_nat (buffer_offset st)) (content st) = [])
    ∧ content st' = content st ∧ buffer_offset st' = buffer_offset st + Z.of_nat (length l).
Proof.
  intros Hc V Hn. pose proof V as [Vl Vb (Vs1 & Vs2 & Vs3) Vo Vu Va Vr Vw]. unfold fmemopen_read.
  rewrite (eq_trans Vr Hc). cbn [negb].
  assert (Hcl : length (content st) = Z.to_nat (buffer_used st)) by (unfold content; rewrite length_take; lia).
  destruct (Z.ltb_spec (buffer_used st) (buffer_offset st)) as [Hlt|Hge].
  { exists [], st. split_and!; [done|done|apply prefix_nil|simpl; lia| |done|simpl; lia].
    intros _. apply drop_ge. lia. }
  rewrite (wrapu_id 64 (buffer_used st - _)) by (unfold in_u; lia). pose proof (StdioSpec.clamp_range n Hn) as Hk.
  set (k := if buffer_used st - buffer_offset st <? clamp_ssize n then buffer_used st - buffer_offset st else clamp_ssize n).
  assert (Hk' : 0 <= k <= n ∧ k <= buffer_used st - buffer_offset st ∧ (k = 0 → buffer_used st = buffer_offset st)).
  { unfold k. destruct (Z.ltb_spec (buffer_used st - buffer_offset st) (clamp_ssize n)); lia. }
  rewrite (proj2 (Z.leb_le 0 _)), (proj2 (Z.leb_le (buffer_offset st + k) _)) by lia. cbn [andb].
  rewrite wrapu_id by (unfold in_u; lia).
  set (l := take (Z.to_nat k) (drop (Z.to_nat (buffer_offset st)) (mbuffer st))).
  assert (Hl : Z.of_nat (length l) = k) by (unfold l; rewrite length_take, length_drop; lia).
  exists l, (moved_to (buffer_offset st + k) st).
  split_and!; [done|apply valid_moved; [done|lia]| |lia| |done|cbn [moved_to buffer_offset]; lia].
  - exists (drop (Z.to_nat k) (drop (Z.to_nat (buffer_offset st)) (content st))).
    rewrite <- (take_drop (Z.to_nat k) (drop _ (content st))) at 1. f_equal. unfold l, content.
    rewrite skipn_firstn_comm. rewrite take_take. f_equal. lia.
  - intros E. rewrite E in Hl. simpl in Hl. apply drop_ge. lia.
Qed.

(** Filling the gap does not show in what is written over it. *)
Lemma overwrite_pad d p l :
  (length d <= p)%nat → l ≠ [] → overwrite (d ++ replicate (p - length d) 0) p l = overwrite d p l.
Proof.
  intros Hd Hl. apply list_eq. intros i. rewrite !overwrite_lookup, length_app, length_replicate by done.
  repeat case_decide; try lia; try done.
  - by rewrite lookup_app_l.
  - rewrite lookup_app_r by lia. apply lookup_replicate_2. lia.
  - rewrite !lookup_ge_None_2; [done|lia|rewrite length_app, length_replicate; lia].
Qed.

Lemma fill_gap_run st :
  valid_st st →
  ∃ st', fill_gap st = Ret st' ∧ valid_st st' ∧ buffer_offset st' = buffer_offset st ∧ buffer_offset st <= buffer_used st'
    ∧ ∀ l, l ≠ [] → overwrite (content st') (Z.to_nat (buffer_offset st)) l = overwrite (content st) (Z.to_nat (buffer_offset st)) l.
Proof.
  intros V. pose proof V as [Vl Vb (Vs1 & Vs2 & Vs3) Vo Vu Va Vr Vw]. unfold fill_gap.
  destruct (Z.ltb_spec (buffer_used st) (buffer_offset st)) as [Hlt|Hge]; [|by exists st].
  set (gap := replicate (Z.to_nat (buffer_offset st - buffer_used st)) 0).
  destruct (put_bytes_run st (buffer_used st) gap V) as [E V1]; [lia|unfold gap; rewrite length_replicate; lia| |].
  { apply Forall_replicate. unfold is_byte. lia. }
  eexists. split_and!; [rewrite (outcome_bind_eq _ _ _ E); reflexivity|apply valid_used_to; [done|cbn; lia]|done|cbn; lia|].
  intros l Hl. rewrite <- (overwrite_pad (content st)); [|unfold content; rewrite length_take; lia|done]. f_equal.
  unfold content. cbn [used_to with_bytes buffer_used buffer_offset mbuffer].
  rewrite length_take, Nat.min_l by lia. replace (Z.to_nat (buffer_offset st) - Z.to_nat (buffer_used st))%nat with
    (Z.to_nat (buffer_offset st - buffer_used st)) by lia. fold gap.
  rewrite app_assoc. apply take_app_length'. unfold gap. rewrite length_app, length_take, length_replicate. lia.
Qed.

(** The bytes are in place and the offset is past them. *)
Lemma put_content st l :
  valid_st st → l ≠ [] → Forall is_byte l → buffer_offset st <= buffer_used st →
  buffer_offset st + Z.of_nat (length l) <= cap →
  ∃ st', (st ← put_bytes (buffer_offset st) l st;
          extend_end (moved_to (u64 (buffer_offset st + Z.of_nat (length l))) st)) = Ret st'
    ∧ valid_st st' ∧ buffer_offset st' = buffer_offset st + Z.of_nat (length l)
    ∧ content st' = overwrite (content st) (Z.to_nat (buffer_offset st)) l.
Proof.
  intros V Hl Hb Hou Hcap. pose proof V as [Vl Vb (Vs1 & Vs2 & Vs3) Vo Vu Va Vr Vw].
  destruct (put_bytes_run st (buffer_offset st) l V ltac:(lia) ltac:(lia) Hb) as [E V1].
  rewrite (outcome_bind_eq _ _ _ E). clear E. set (b := take _ (mbuffer st) ++ _) in *.
  cbn [with_bytes buffer_offset]. rewrite wrapu_id by (unfold in_u; lia). set (p := buffer_offset st + Z.of_nat (length l)) in *.
  set (st1 := moved_to p (with_bytes b st)). assert (V2 : valid_st st1) by (apply valid_moved; [done|lia]).
  assert (Hbl : Z.of_nat (length b) = buffer_true_size st) by apply V1.
  assert (Hcont : ∀ u, u = Z.max (buffer_used st) p → ∀ b', take (Z.to_nat u) b' = take (Z.to_nat u) b →
    take (Z.to_nat u) b' = overwrite (content st) (Z.to_nat (buffer_offset st)) l).
  { intros u -> b' ->. unfold overwrite, content. destruct l as [|x l]; [done|]. set (l' := x :: l) in *.
    rewrite length_take, Nat.min_l by lia. replace (Z.to_nat (buffer_offset st) - Z.to_nat (buffer_used st))%nat with 0%nat by lia.
    cbn [replicate]. rewrite app_nil_r, take_take, Nat.min_l by lia. unfold b.
    rewrite take_app, length_take, Nat.min_l by lia. f_equal; [rewrite take_ge; [done|rewrite length_take; lia]|].
    rewrite take_app. f_equal; [apply take_ge; unfold p; lia|]. rewrite skipn_firstn_comm. f_equal. unfold p. lia. }
  unfold extend_end. change (buffer_used st1) with (buffer_used st). change (buffer_offset st1) with p.
  destruct (Z.ltb_spec (buffer_used st) p) as [Hlt|Hge].
  - set (st2 := used_to p st1). assert (V3 : valid_st st2) by (apply valid_used_to; [done|lia]).
    destruct (negb _ && _) eqn:Et.
    + b2p. destruct (put_bytes_run st2 (buffer_used st2) [0] V3) as [E V4].
      { cbn. lia. }
      { cbn [length]. pose proof (valid_length _ _ _ _ V3). lia. }
      { constructor; [unfold is_byte; lia|done]. }
      eexists. split_and!; [exact E|done|done|]. apply Hcont; [cbn; lia|].
      cbn [with_bytes mbuffer used_to st2 buffer_used st1 moved_to]. rewrite take_app_le; [|rewrite length_take; lia].
      by rewrite take_take, Nat.min_id.
    + exists st2. split_and!; [done|done|done|]. apply Hcont; [cbn; lia|done].
  - exists st1. split_and!; [done|done|done|]. apply Hcont; [cbn; lia|done].
Qed.

Lemma write_run st l :
  can_write = true → valid_st st → l ≠ [] → Forall is_byte l → buffer_offset st + Z.of_nat (length l) <= cap →
  ∃ st', fmemopen_write l st = Ret (inr (Z.of_nat (length l)), st') ∧ valid_st st'
    ∧ content st' = overwrite (content st) (Z.to_nat (buffer_offset st)) l
    ∧ buffer_offset st' = buffer_offset st + Z.of_nat (length l).
Proof.
  intros Hc V Hl Hb Hcap. pose proof V as [Vl Vb (Vs1 & Vs2 & Vs3) Vo Vu Va Vr Vw]. unfold fmemopen_write.
  rewrite (eq_trans Vw Hc), Va. cbn [negb].
  destruct (fill_gap_run st V) as (st1 & E1 & V1 & O1 & U1 & C1). rewrite (outcome_bind_eq _ _ _ E1).
  pose proof V1 as [_ _ (Vs1' & _) _ _ _ _ _]. rewrite O1, Vs1'. rewrite (wrapu_id 64 (cap - _)) by (unfold in_u; lia).
  rewrite StdioSpec.clamp_small by lia. rewrite (proj2 (Z.ltb_ge (cap - buffer_offset st) _)) by lia.
  rewrite Nat2Z.id, firstn_all.
  destruct (put_content st1 l V1 Hl Hb) as (st2 & E2 & V2 & O2 & C2); [lia|lia|]. rewrite O1 in *.
  exists st2. split_and!; [|done|by rewrite C2, C1|done].
  unfold mbind, outcome_bind in E2 |- *. destruct (put_bytes _ _ _) as [st3| |]; [|done..]. by rewrite E2.
Qed.

Lemma seek_run st offset whence :
  valid_st st → 0 <= whence <= 2 → 0 <= seek_base (content st) (buffer_offset st) whence + offset <= cap →
  ∃ st', fmemopen_seek offset whence st = Ret (inr (seek_base (content st) (buffer_offset st) whence + offset), st')
    ∧ valid_st st' ∧ content st' = content st
    ∧ buffer_offset st' = seek_base (content st) (buffer_offset st) whence + offset.
Proof.
  intros V Hw Ht. pose proof V as [Vl Vb (Vs1 & Vs2 & Vs3) Vo Vu Va Vr Vw]. unfold fmemopen_seek.
  set (base := seek_base (content st) (buffer_offset st) whence) in *.
  assert (Eb : (if whence =? SEEK_SET then Some 0
         else if whence =? SEEK_CUR then Some (s64 (buffer_offset st))
         else if whence =? SEEK_END then Some (s64 (buffer_used st)) else None) = Some base ∧ 0 <= base <= cap).
  { unfold base, seek_base. rewrite !wraps_id by (unfold in_s; lia). unfold SEEK_SET, SEEK_CUR, SEEK_END in *.
    destruct (Z.eqb_spec whence 0); [split; [done|lia]|]. destruct (Z.eqb_spec whence 1); [split; [done|lia]|].
    destruct (Z.eqb_spec whence 2); [|lia]. unfold content. rewrite length_take. split; [f_equal; lia|lia]. }
  destruct Eb as [-> Hbase]. rewrite Vs1, wraps_id by (unfold in_s; lia).
  rewrite (outcome_bind_eq _ _ _ (checked_ok 64 (- base) ltac:(unfold in_s; lia))).
  rewrite (outcome_bind_eq _ _ _ (checked_ok 64 (cap - base) ltac:(unfold in_s; lia))).
  rewrite (proj2 (Z.ltb_ge offset (- base))), (proj2 (Z.ltb_ge (cap - base) offset)) by lia. cbn [orb].
  rewrite (outcome_bind_eq _ _ _ (checked_ok 64 (base + offset) ltac:(unfold in_s; lia))).
  rewrite wrapu_id, wraps_id by (unfold in_u, in_s; lia).
  eexists. split_and!; [done|by apply valid_moved|done|done].
Qed.

End Device.

(** The class of streams that are files has this instance. *)
#[export] Instance fmemopen_device can_read can_write cap :
  0 <= cap < 2 ^ 62 →
  Device can_read can_write fmemopen_read fmemopen_write fmemopen_seek (valid can_read can_write cap) content buffer_offset cap.
Proof.
  intros Hcap. split; [done|..].
  - intros st V. apply Forall_take, V.
  - intros st V. apply V.
  - intros n st. apply read_run.
  - intros l st Hc V Hl Hb Hp. destruct (write_run _ _ _ st l Hc V Hl Hb Hp) as (st' & E & V' & C & O).
    exists (length l), st'. rewrite firstn_all. split_and!; try done. destruct l; [done|simpl; lia].
  - intros offset whence st. apply seek_run.
Qed.

(** ** Opening *)

(** The file a state of [fmemopen] stands for. *)
Definition memory_file (st : fmemopen_state) : afile :=
  {| adata := content st; apos := buffer_offset st; apush := []; aeof := false; aerr := false |}.

Lemma opened_file can_read can_write cap stale st :
  valid can_read can_write cap st → Z.of_nat (length stale) = BUFSIZ →
  is_file can_read can_write fmemopen_read fmemopen_write fmemopen_seek (valid can_read can_write cap) content
    buffer_offset cap (opened stale st) (memory_file st).
Proof.
  intros V Hs. pose proof V as [_ _ _ _ _ _ Hr Hw].
  assert (Hf : ∀ i, 0 <= i → has (Z.shiftl 1 i) (opened stale st)
    = (i =? 0) || (can_read && (i =? 7)) || (can_write && (i =? 8))).
  { intros i Hi. rewrite has_flag_bit by done. unfold opened. cbn [flags fnewfile]. rewrite Hr, Hw.
    destruct can_read, can_write; rewrite ?Z.lor_spec; change 1 with (2 ^ 0);
      change _FILE_READABLE with (2 ^ 7); change _FILE_WRITABLE with (2 ^ 8); rewrite !Z.pow2_bits_eqb by lia;
      rewrite ?(Z.eqb_sym i); cbn [andb]; by rewrite ?orb_false_r. }
  unfold is_file, _FILE_STATUS_EOF, _FILE_STATUS_ERROR. rewrite !Hf by lia.
  split_and!; [split|by destruct can_read, can_write|by destruct can_read, can_write|left; split]; try done;
    unfold _FILE_READABLE, _FILE_WRITABLE, _FILE_BUFFER_MODE_SET, _FILE_LAST_READ, _FILE_LAST_WRITE; rewrite ?Hf by lia;
    try (by destruct can_read, can_write).
  by intros b [= <-].
Qed.

(** A buffer of the caller's becomes a file: the whole of it, or an empty one
    when the mode truncates. *)
Lemma fmemopen_opens buf mode_str m stale :
  fparsemode mode_str = Some m → Z.land m (Z.lnot allowed_modes) = 0 → in_mode FILE_MODE_APPEND m = false →
  Forall is_byte buf → 0 < Z.of_nat (length buf) < 2 ^ 62 → Z.of_nat (length stale) = BUFSIZ →
  let text_out := negb (in_mode FILE_MODE_BINARY m) && in_mode FILE_MODE_WRITE m && negb (in_mode FILE_MODE_READ m) in
  let cap := Z.of_nat (length buf) - (if text_out then 1 else 0) in
  ∃ st, fmemopen (Some buf) (Z.of_nat (length buf)) mode_str (true, true, true) stale = Ret (inr (opened stale st))
    ∧ valid (in_mode FILE_MODE_READ m) (in_mode FILE_MODE_WRITE m) cap st ∧ buffer_offset st = 0
    ∧ content st = if in_mode FILE_MODE_TRUNCATE m then [] else take (Z.to_nat cap) buf.
Proof.
  intros Hm Hall Happ Hby Hlen Hs text_out cap. set (size := Z.of_nat (length buf)) in *.
  unfold fmemopen. rewrite Hm, Hall. cbn [Z.eqb negb]. fold text_out.
  rewrite (proj2 (Z.ltb_ge LONG_MAX size)), (proj2 (Z.eqb_neq size 0)) by (unfold LONG_MAX; lia). rewrite andb_false_r. cbn [andb negb].
  set (st0 := {| mbuffer := buf |}). unfold fmemopen_start. change (mode st0) with m. rewrite Happ. cbn [andb].
  assert (Hcap : buffer_size st0 = cap) by (unfold st0, cap; cbn [buffer_size]; destruct text_out; lia).
  assert (Hrange : 0 <= cap <= size) by (unfold cap; destruct text_out; lia).
  set (st1 := if in_mode FILE_MODE_TRUNCATE m then _ else _).
  assert (V : valid (in_mode FILE_MODE_READ m) (in_mode FILE_MODE_WRITE m) cap st1 ∧ buffer_offset st1 = 0
    ∧ content st1 = if in_mode FILE_MODE_TRUNCATE m then [] else take (Z.to_nat cap) buf).
  { unfold st1. rewrite Hcap. split_and!; [|by destruct (in_mode FILE_MODE_TRUNCATE m)..].
    destruct (in_mode FILE_MODE_TRUNCATE m); split; try done; cbn; try lia; fold size; split_and!; try lia; exact Hcap. }
  destruct V as (V & Ho & Hc). destruct (_ && (buffer_used st1 <? buffer_true_size st1)) eqn:Et.
  - apply andb_true_iff in Et as [_ Hlt%Z.ltb_lt]. pose proof (valid_length _ _ _ _ V) as Hl. pose proof (valid_used _ _ _ _ V) as Hu.
    destruct (put_bytes_run _ _ _ st1 (buffer_used st1) [0] V) as [E V2]; [lia|cbn [length]; lia|by repeat constructor|].
    eexists. rewrite (outcome_bind_eq _ _ _ E). split_and!; [done|done|done|].
    rewrite <- Hc. unfold content. cbn [with_bytes mbuffer buffer_used]. rewrite take_app_le; [|rewrite length_take; lia].
    by rewrite take_take, Nat.min_id.
  - by exists st1.
Qed.

End Fmemopen.
