(* ===== verification/StdioFile.v ===== *)
(** * Programs over a stream

    The functions of [Stdio] as the steps of an abstract file, the refinement
    for sequences of calls, and the functions on lines and strings. *)

From S2P Require Import Prelude Memory Stdio StdioSpec Fmemopen.
From stdpp Require Import base list numbers strings.
From Stdlib Require Import ZArith Lia Ascii.
Import Mem(is_byte) Stdio StdioSpec Fmemopen.

#[local] Open Scope Z_scope.
#[local] Open Scope c_scope.

Module StdioFile.

(** ** Calls *)

Inductive fcall :=
  | Fgetc
  | Fputc (c : Z)
  | Fread (element_size num_elements : Z)
  | Fwrite (buf : list Z) (element_size num_elements : Z)
  | Ungetc (c : Z)
  | Fseeko (offset whence : Z)
  | Ftello
  | Fflush
  | Feof.

(** What a call returns, with the bytes it stores. *)
Abbreviation fresult := (Z * list Z)%type.

Section File.
Context {U : Type} (can_read can_write : bool)
  (rd : Z → M U (result (list Z))) (wr : list Z → M U (result Z)) (sk : Z → Z → M U (result Z))
  (valid : U → Prop) (content : U → list Z) (position : U → Z) (cap : Z)
  `{Dev : !Device can_read can_write rd wr sk valid content position cap}
  (isatty : Z → bool).
Abbreviation file := (is_file can_read can_write rd wr sk valid content position cap).

Definition number {S} (c : M S Z) : M S fresult := r ← c; mret (r, []).

Definition fexec (c : fcall) : M (FILE U) fresult :=
  match c with
  | Fgetc => number (fgetc_unlocked isatty)
  | Fputc c => number (fputc_unlocked isatty c)
  | Fread es n => fread_unlocked isatty es n
  | Fwrite buf es n => number (fwrite_unlocked isatty buf es n)
  | Ungetc c => number (ungetc_unlocked isatty c)
  | Fseeko offset whence => number (fseeko_unlocked offset whence)
  | Ftello => number ftello_unlocked
  | Fflush => number fflush_unlocked
  | Feof => number feof_unlocked
  end.

Definition flegal (a : afile) (c : fcall) : Prop :=
  match c with
  | Fgetc => can_read = true
  | Fputc c => can_write = true ∧ is_byte c ∧ apos (settle a) + 1 <= cap
  | Fread es n => can_read = true ∧ 0 < es ∧ 0 < n ∧ es * n < 2 ^ 64
  | Fwrite buf es n => can_write = true ∧ Forall is_byte buf ∧ 0 < es ∧ 0 < n
      ∧ es * n = Z.of_nat (length buf) ∧ apos (settle a) + Z.of_nat (length buf) <= cap
  | Ungetc c => can_read = true ∧ is_byte c
  | Fseeko offset whence => 0 <= whence <= 2
      ∧ 0 <= seek_base (adata a) (apos (settle a)) whence + offset <= cap
  | _ => True
  end.

(** The steps of the abstract file. *)
Inductive fstep (a : afile) : fcall → fresult → afile → Prop :=
  | step_getc : fstep a Fgetc (next_char a, []) (consumed 1 a)
  | step_putc c : fstep a (Fputc c) (c, []) (written [c] a)
  | step_read es n l :
      l = take (Z.to_nat (es * n)) (available a) →
      fstep a (Fread es n) (Z.of_nat (length l) / es, l) (consumed (Z.to_nat (es * n)) a)
  | step_write buf es n : fstep a (Fwrite buf es n) (n, []) (written buf a)
  | step_unget c : fstep a (Ungetc c) (c, []) (pushed c a)
  | step_unget_refused c a' : refused_push a a' → fstep a (Ungetc c) (EOF, []) a'
  | step_seek offset whence :
      fstep a (Fseeko offset whence) (0, []) (moved (seek_base (adata a) (apos (settle a)) whence + offset) a)
  | step_tell : fstep a Ftello (apos (settle a), []) a
  | step_flush : fstep a Fflush (0, []) (settle a)
  | step_eof : fstep a Feof (if aeof a then 1 else 0, []) a.

Lemma settle_ok a : afile_ok a → afile_ok (settle a).
Proof. intros (H1 & H2 & H3). split_and!; cbn; [done|done|lia]. Qed.

Lemma fexec_step fp a c :
  file fp a → afile_ok a → flegal a c →
  ∃ r fp' a', fexec c fp = Ret (r, fp') ∧ fstep a c r a' ∧ file fp' a' ∧ afile_ok a'.
Proof.
  intros F Hok. unfold fexec, number. destruct c as [|c|es n|buf es n|c|offset whence| | |]; cbn [flegal].
  - intros Hc. destruct (fgetc_run _ _ _ _ _ _ _ _ _ isatty fp a F Hc) as (fp' & E & F').
    eexists _, fp', _. split; [by step E|]. split_and!; [apply step_getc|done|by apply consume_ok].
  - intros (Hc & Hb & Hcap). destruct (fputc_run _ _ _ _ _ _ _ _ _ isatty fp a c F Hc Hb Hcap) as (fp' & E & F').
    eexists _, fp', _. split; [by step E|]. split_and!; [apply step_putc|done|apply written_ok; [by constructor|done]].
  - intros (Hc & He & Hn & H64). destruct (fread_run _ _ _ _ _ _ _ _ _ isatty fp a es n F Hc Hok He Hn H64) as (fp' & E & F').
    eexists _, fp', _. split; [exact E|]. split_and!; [by apply step_read|done|by apply consume_ok].
  - intros (Hc & Hb & He & Hn & Hl & Hcap).
    destruct (fwrite_run _ _ _ _ _ _ _ _ _ isatty fp a buf es n F Hc Hb He Hn Hl Hcap) as (fp' & E & F').
    eexists _, fp', _. split; [by step E|]. split_and!; [apply step_write|done|by apply written_ok].
  - intros (Hc & Hb). destruct (ungetc_run _ _ _ _ _ _ _ _ _ isatty fp a c F Hc Hb) as (r & fp' & a' & E & F' & Hr).
    exists (r, []), fp', a'. destruct Hok as (H1 & H2 & H3). split; [by step E|].
    destruct Hr as [[-> ->]|[-> Hr]]; split_and!; [apply step_unget|done|by split_and!; [|constructor|]|by apply step_unget_refused|done|].
    destruct Hr as [-> | ->]; by split_and!.
  - intros (Hw & Ht). destruct (fseeko_run _ _ _ _ _ _ _ _ _ fp a offset whence F Hok Hw Ht) as (fp' & E & F').
    eexists _, fp', _. split; [by step E|]. destruct Hok as (H1 & H2 & H3). split_and!; [apply step_seek|done|].
    split_and!; cbn [moved adata apush apos]; [done|done|lia].
  - intros _. destruct (ftello_run _ _ _ _ _ _ _ _ _ fp a F Hok) as (fp' & E & F').
    eexists _, fp', _. split; [by step E|]. split_and!; [apply step_tell|done|done].
  - intros _. destruct Hok as (H1 & H2 & H3). destruct (fflush_run _ _ _ _ _ _ _ _ _ fp a F H3) as (fp' & E & F' & _).
    eexists _, fp', _. split; [by step E|]. split_and!; [apply step_flush|done|by apply settle_ok].
  - intros _. exists (if aeof a then 1 else 0, []), fp, a. split_and!; [|apply step_eof|done|done].
    destruct F as (_ & He & _ & _). unfold feof_unlocked. unfold mbind, M_bind, this. by rewrite He.
Qed.

(** ** Sequences of calls *)

Fixpoint fexec_all (cs : list fcall) : M (FILE U) (list fresult) :=
  match cs with
  | [] => mret []
  | c :: cs => r ← fexec c; rs ← fexec_all cs; mret (r :: rs)
  end.

Inductive fsteps (a : afile) : list fcall → list fresult → afile → Prop :=
  | fsteps_nil : fsteps a [] [] a
  | fsteps_cons c cs r rs a1 a2 : fstep a c r a1 → fsteps a1 cs rs a2 → fsteps a (c :: cs) (r :: rs) a2.

(** Every call is legal where it is made. *)
Fixpoint flegal_all (a : afile) (cs : list fcall) : Prop :=
  match cs with
  | [] => True
  | c :: cs => flegal a c ∧ ∀ r a', fstep a c r a' → flegal_all a' cs
  end.

Lemma fexec_all_run cs fp a :
  file fp a → afile_ok a → flegal_all a cs →
  ∃ rs fp' a', fexec_all cs fp = Ret (rs, fp') ∧ fsteps a cs rs a' ∧ file fp' a' ∧ afile_ok a'.
Proof.
  revert fp a. induction cs as [|c cs IH]; intros fp a F Hok Hl.
  { exists [], fp, a. split_and!; [done|apply fsteps_nil|done|done]. }
  destruct Hl as [Hc Hl]. destruct (fexec_step fp a c F Hok Hc) as (r & fp1 & a1 & E & Hs & F1 & Hok1).
  destruct (IH fp1 a1 F1 Hok1 (Hl r a1 Hs)) as (rs & fp2 & a2 & E2 & Hs2 & F2 & Hok2).
  exists (r :: rs), fp2, a2. split_and!; [|by eapply fsteps_cons|done|done].
  cbn [fexec_all]. step E. by step E2.
Qed.

(** C3.  Buffering is transparent.  Over a device that behaves like a file, any
    sequence of reads, writes, characters pushed back, seeks, queries of the
    position and flushes on a stream, in every mode of the buffer and however the
    device cuts its reads and writes short, gives the results the calls have on
    the file itself; no access is out of bounds, and after a flush the device
    holds the content and is at the position of the file. *)
Theorem stream_refines cs fp a :
  file fp a → afile_ok a → flegal_all a cs →
  ∃ rs fp' a' fp'', fexec_all cs fp = Ret (rs, fp') ∧ fsteps a cs rs a'
    ∧ fflush_unlocked fp' = Ret (0, fp'') ∧ content (user fp'') = adata a' ∧ position (user fp'') = apos (settle a').
Proof.
  intros F Hok Hl. destruct (fexec_all_run cs fp a F Hok Hl) as (rs & fp' & a' & E & Hs & F' & H1 & H2 & H3).
  destruct (fflush_run _ _ _ _ _ _ _ _ _ fp' a' F' H3) as (fp'' & Ef & _ & Hi).
  exists rs, fp', a', fp''. split_and!; [done..|apply Hi|apply Hi].
Qed.

(** ** Lines *)

(** The bytes up to the first delimiter, with it. *)
Fixpoint upto (delim : Z) (l : list Z) : list Z :=
  match l with
  | [] => []
  | c :: l => c :: if c =? delim then [] else upto delim l
  end.

(** What is read to find that out: the end of the file counts when it is met. *)
Definition upto_cost (delim : Z) (l : list Z) : nat :=
  length (upto delim l) + (if bool_decide (delim ∈ l) then 0 else 1).

Lemma upto_cost_cons delim c l :
  upto_cost delim (c :: l) = if c =? delim then 1%nat else S (upto_cost delim l).
Proof.
  unfold upto_cost. cbn [upto length]. destruct (Z.eqb_spec c delim) as [->|Hne].
  - by rewrite bool_decide_eq_true_2 by (by left).
  - rewrite (bool_decide_ext _ (delim ∈ l)); [done|]. rewrite elem_of_cons. split; [by intros [?|?]|by right].
Qed.

Lemma fgets_loop_run n acc fp a :
  file fp a → can_read = true → afile_ok a → (n = 0%nat → aeof a = false) →
  ∃ fp', fgets_loop isatty n acc fp = Ret (acc ++ take n (upto 10 (available a)), fp')
    ∧ file fp' (consumed (n `min` upto_cost 10 (available a)) a).
Proof.
  intros F Hc. revert acc fp a F. induction n as [|n IH]; intros acc fp a F Hok H0; cbn [fgets_loop].
  { exists fp. rewrite take_0, app_nil_r, Nat.min_0_l, consume_0 by auto. done. }
  destruct (available a) as [|c rest] eqn:Ha.
  - destruct (fgetc_run _ _ _ _ _ _ _ _ _ isatty fp a F Hc) as (fp' & E & F'). unfold next_char in E. rewrite Ha in E.
    exists fp'. step E. cbn [upto take]. rewrite app_nil_r. split; [done|].
    unfold upto_cost. rewrite bool_decide_eq_false_2 by apply not_elem_of_nil. cbn [upto length]. by rewrite Nat.min_r by lia.
  - destruct (fgetc_next _ _ _ _ _ _ _ _ _ isatty fp a c rest F Hc Hok Ha) as (fp1 & E & Hb & F1). step E.
    rewrite (proj2 (Z.eqb_neq c EOF)) by (unfold is_byte, EOF in *; lia). rewrite upto_cost_cons. cbn [upto].
    assert (Hav : available (consumed 1 a) = rest).
    { rewrite available_consume by (rewrite ?Ha; simpl; try lia; apply Hok). by rewrite Ha. }
    destruct (Z.eqb_spec c 10) as [->|Hne]; cbn [take].
    + exists fp1. rewrite take_nil, Nat.min_r by lia. done.
    + destruct (IH (acc ++ [c]) fp1 (consumed 1 a) F1) as (fp2 & E2 & F2); [by apply consume_ok|by rewrite consume_eof, Ha|].
      rewrite Hav in E2, F2. exists fp2. rewrite E2, <- app_assoc. split; [done|].
      rewrite consume_consume in F2 by (rewrite ?Ha; simpl; try lia; apply Hok). exact F2.
Qed.

(** [fgets] stores the rest of the line, at most a byte less than it has room
    for, and a terminator; nothing at the end of the file. *)
Lemma fgets_run size fp a :
  file fp a → can_read = true → afile_ok a → 1 < size →
  let l := take (Z.to_nat (size - 1)) (upto 10 (available a)) in
  ∃ fp', fgets_unlocked isatty size fp = Ret (if bool_decide (l = []) then None else Some (l ++ [0]), fp')
    ∧ file fp' (consumed (Z.to_nat (size - 1) `min` upto_cost 10 (available a)) a).
Proof.
  intros F Hc Hok Hs l. unfold fgets_unlocked. rewrite (proj2 (Z.leb_gt size 0)) by lia.
  destruct (fgets_loop_run (Z.to_nat (size - 1)) [] fp a F Hc Hok) as (fp' & E & F'); [lia|]. fold l in E. cbn [app] in E.
  exists fp'. split; [|done]. step E. unfold ferror_unlocked, feof_unlocked. unfold mbind, M_bind, this, mret, M_ret. cbn beta iota.
  destruct F' as (_ & He & _ & _). rewrite He. case_bool_decide as Hl.
  - rewrite Hl. cbn [length Nat.eqb andb]. unfold l in Hl. destruct (available a) as [|c rest] eqn:Ha.
    2: { by destruct (Z.to_nat (size - 1)) eqn:?; [lia|]. }
    unfold consumed, upto_cost. cbn [aeof]. rewrite Ha, bool_decide_eq_false_2 by apply not_elem_of_nil. cbn [upto length].
    rewrite Nat.min_r by lia. cbn. by rewrite orb_true_r.
  - by destruct l.
Qed.

(** *** [getdelim] *)

Section Getdelim.
Context (realloc : option (list Z) → Z → option (list Z)).

(** [realloc] fails, or gives a block of the size asked for that begins with
    what the old one held. *)
Class Reallocates : Prop := {
  realloc_length b n b' : realloc b n = Some b' → Z.of_nat (length b') = n;
  realloc_keeps b n b' : realloc b n = Some b' → take (length b') (default [] b) `prefix_of` b'
}.
Context `{Re : !Reallocates}.

(** The buffer holds what was read so far, and its size is [n]. *)
Definition line_holds (sofar : list Z) (line : option (list Z)) (n : Z) : Prop :=
  Z.of_nat (length (default [] line)) = n ∧ sofar `prefix_of` default [] line.

(** The buffer is full with what was read so far, and cannot be made larger. *)
Definition out_of_room (sofar : list Z) (line : option (list Z)) (n : Z) : Prop :=
  line_holds sofar line n ∧ n <= Z.of_nat (length sofar) + 1 ∧
  realloc line (if n =? 0 then DEFAULT_BUFSIZE else 2 * n) = None.

Lemma line_room_run sofar line n :
  line_holds sofar line n → (n = 0 ∨ Z.of_nat (length sofar) < n) → Z.of_nat (length sofar) < 2 ^ 62 →
  match line_room realloc line n (Z.of_nat (length sofar)) with
  | None => out_of_room sofar line n
  | Some (line', n') => line_holds sofar line' n' ∧ line' ≠ None ∧ Z.of_nat (length sofar) + 1 < n'
  end.
Proof.
  intros [Hl Hp] Hlt Hb. unfold line_room. rewrite (wrapu_id 64 (_ + 1)) by (unfold in_u; lia).
  pose proof (prefix_length _ _ Hp) as Hle.
  destruct (Z.leb_spec n (Z.of_nat (length sofar) + 1)) as [Hn|Hn].
  2: { split_and!; [done| |done]. intros ->. cbn in Hl. lia. }
  set (m := if n =? 0 then DEFAULT_BUFSIZE else u64 (2 * n)).
  assert (Hm : n <= m ∧ Z.of_nat (length sofar) + 1 < m).
  { unfold m, DEFAULT_BUFSIZE. destruct (Z.eqb_spec n 0); [lia|]. rewrite wrapu_id by (unfold in_u; lia). lia. }
  assert (Em : m = if n =? 0 then DEFAULT_BUFSIZE else 2 * n).
  { unfold m. destruct (Z.eqb_spec n 0); [done|]. by rewrite wrapu_id by (unfold in_u; lia). }
  destruct (realloc line m) as [b'|] eqn:E; [|by rewrite Em in E].
  split_and!; [|done|lia]. split; cbn [default]; [by apply (realloc_length _ _ _ E)|].
  pose proof (realloc_keeps _ _ _ E) as Hk. pose proof (realloc_length _ _ _ E) as Hlb.
  rewrite take_ge in Hk by lia. by etrans.
Qed.

Lemma line_put_run sofar line n x (fp : FILE U) :
  line_holds sofar line n → Z.of_nat (length sofar) < n → is_byte x →
  ∃ line', line_put line (Z.of_nat (length sofar)) x fp = Ret (line', fp) ∧ line_holds (sofar ++ [x]) line' n
    ∧ line' ≠ None.
Proof.
  intros [Hl [t Ht]] Hn Hx. destruct line as [b|]; cbn [default] in *; [|cbn in Hl; lia]. unfold id in *.
  unfold line_put. rewrite (wrapu_id 8 x) by done. unfold M_lift, write_at.
  rewrite (proj2 (Z.leb_le 0 (Z.of_nat (length sofar)))), (proj2 (Z.leb_le (_ + Z.of_nat 1) (Z.of_nat (length b)))) by lia.
  cbn [andb]. rewrite Nat2Z.id, Ht, take_app_length. cbn [length]. rewrite drop_app. rewrite (drop_ge sofar) by lia.
  replace (length sofar + 1 - length sofar)%nat with 1%nat by lia. cbn [app].
  eexists. split_and!; [reflexivity| |done]. split; cbn [default]; unfold id.
  - rewrite <- Hl, Ht, !length_app. rewrite Ht, length_app in Hl. cbn [length]. rewrite length_drop. lia.
  - exists (drop 1 t). by rewrite <- app_assoc.
Qed.

(** Where the loop ends: with the whole line, or with a first part of it in a full buffer,
    which [realloc] was asked to make larger and did not. *)
Definition line_read (r : Z) (out : option (list Z) * Z) (fp : FILE U) (l : list Z) (a : afile) : Prop :=
  (∃ sofar, sofar `prefix_of` l ∧ out_of_room sofar out.1 out.2) ∧ r = -1 ∧ ferrno fp = Some ENOMEM
  ∨ r = (if bool_decide (l = []) then -1 else Z.of_nat (length l)) ∧ file fp a
    ∧ (l ≠ [] → l ++ [0] `prefix_of` default [] out.1) ∧ Z.of_nat (length (default [] out.1)) = out.2.

Lemma getdelim_loop_run fuel delim sofar line n fp a :
  file fp a → can_read = true → afile_ok a → aerr a = false → is_byte delim →
  line_holds sofar line n → (n = 0 ∨ Z.of_nat (length sofar) < n) →
  Z.of_nat (length sofar) + Z.of_nat (length (available a)) < 2 ^ 62 →
  (length (upto delim (available a)) < fuel)%nat →
  ∃ r out fp', getdelim_loop isatty realloc fuel delim line n (Z.of_nat (length sofar)) fp = Ret ((r, out), fp')
    ∧ line_read r out fp' (sofar ++ upto delim (available a)) (consumed (upto_cost delim (available a)) a).
Proof.
  intros F Hc. revert sofar line n fp a F. induction fuel as [|fuel IH]; intros sofar line n fp a F Hok Herr Hd Hh Hlt Hb Hf; [lia|].
  cbn [getdelim_loop]. rewrite (proj2 (Z.eqb_neq _ SSIZE_MAX)) by (unfold SSIZE_MAX; lia).
  pose proof (line_room_run sofar line n Hh Hlt ltac:(lia)) as Hroom.
  destruct (line_room realloc line n (Z.of_nat (length sofar))) as [[line1 n1]|].
  2: { eexists _, _, _. split; [reflexivity|]. left. split; [|done]. exists sofar. split; [by eexists|done]. }
  destruct Hroom as (Hh1 & Hs1 & Hn1). destruct (available a) as [|c rest] eqn:Ha.
  - destruct (fgetc_run _ _ _ _ _ _ _ _ _ isatty fp a F Hc) as (fp1 & E & F1). unfold next_char in E. rewrite Ha in E. step E.
    unfold upto_cost. rewrite bool_decide_eq_false_2 by apply not_elem_of_nil. cbn [Z.eqb EOF Pos.eqb upto length Nat.add].
    rewrite app_nil_r. assert (He : ferror_unlocked fp1 = Ret (0, fp1)).
    { destruct F1 as (_ & _ & Hr & _). unfold ferror_unlocked, mbind, M_bind, this. rewrite Hr. cbn [consumed aerr]. by rewrite Herr. }
    step He. cbn [Z.eqb negb]. rewrite orb_false_r. destruct sofar as [|s sofar'] eqn:Es.
    { eexists _, _, _. split; [reflexivity|]. right. split_and!; [done|done|done|apply Hh1]. }
    rewrite <- Es in *. rewrite (proj2 (Z.eqb_neq _ 0)) by (rewrite Es; cbn [length]; lia).
    destruct (line_put_run sofar line1 n1 0 fp1 Hh1) as (line2 & E2 & Hh2 & _); [lia|done|]. step E2.
    eexists _, _, _. split; [reflexivity|]. right. split_and!; [|done|intros _; apply Hh2|apply Hh2].
    by rewrite bool_decide_eq_false_2 by (by rewrite Es).
  - destruct (fgetc_next _ _ _ _ _ _ _ _ _ isatty fp a c rest F Hc Hok Ha) as (fp1 & E & Hbc & F1). step E.
    rewrite (proj2 (Z.eqb_neq c EOF)) by (unfold is_byte, EOF in *; lia). rewrite upto_cost_cons. cbn [upto] in *.
    assert (Hav : available (consumed 1 a) = rest).
    { rewrite available_consume by (rewrite ?Ha; simpl; try lia; apply Hok). by rewrite Ha. }
    destruct (line_put_run sofar line1 n1 c fp1 Hh1) as (line2 & E2 & Hh2 & _); [lia|done|]. step E2.
    assert (Hlen : Z.of_nat (length sofar) + 1 = Z.of_nat (length (sofar ++ [c]))) by (rewrite length_app; cbn [length]; lia).
    rewrite Hlen. destruct (Z.eqb_spec c delim) as [->|Hne]; cbn [negb].
    + destruct (line_put_run (sofar ++ [delim]) line2 n1 0 fp1 Hh2) as (line3 & E3 & Hh3 & _); [lia|done|]. step E3.
      eexists _, _, _. split; [reflexivity|]. right. split_and!; [|done|intros _; apply Hh3|apply Hh3].
      rewrite bool_decide_eq_false_2; [done|]. by destruct sofar.
    + cbn [length] in *. destruct (IH (sofar ++ [c]) line2 n1 fp1 (consumed 1 a) F1) as (r & out & fp2 & E4 & Hr);
        rewrite ?Hav; [by apply consume_ok|done|done|done|lia|lia|lia|].
      exists r, out, fp2. split; [exact E4|]. rewrite Hav, <- app_assoc in Hr. cbn [app] in Hr.
      rewrite consume_consume in Hr by (rewrite ?Ha; simpl; try lia; apply Hok). exact Hr.
Qed.

(** C4.  [getdelim] reads a line.  Given a buffer of the size it is said to have,
    or none, it returns the number of bytes up to the next delimiter or the end
    of the file, having stored them with a terminator in the buffer, which it
    grew as needed within the size it reports, and having read exactly them; at
    the end of the file it returns -1.  It gives up early, with -1 and [ENOMEM], only
    when the buffer it leaves behind is full with the first part of the line and
    [realloc] refused to make that buffer larger. *)
Theorem getdelim_line fuel delim line n fp a :
  file fp a → can_read = true → afile_ok a → aerr a = false → is_byte delim →
  (∀ b, line = Some b → Z.of_nat (length b) = n) → Z.of_nat (length (available a)) < 2 ^ 62 →
  (length (upto delim (available a)) < fuel)%nat →
  ∃ r out fp', getdelim isatty realloc fuel (Some line) (Some n) delim fp = Ret ((r, Some out), fp')
    ∧ line_read r out fp' (upto delim (available a)) (consumed (upto_cost delim (available a)) a).
Proof.
  intros F Hc Hok Herr Hd Hn Hb Hf.
  destruct (getdelim_loop_run fuel delim [] line (match line with None => 0 | Some _ => n end) fp a F Hc Hok Herr Hd)
    as (r & out & fp' & E & Hr); [| |exact Hb|exact Hf|].
  { split; [|apply prefix_nil]. destruct line; [by apply Hn|done]. }
  { destruct line as [b|]; [|by left]. specialize (Hn b eq_refl). cbn [length]. lia. }
  exists r, out, fp'. split; [|exact Hr]. unfold getdelim. by step E.
Qed.

End Getdelim.

End File.

(** ** An instance *)

Definition sample_state : fmemopen_state :=
  {| mbuffer := lit "one" ++ [10] ++ lit "two" ++ replicate 13 7; buffer_true_size := 20; buffer_size := 20;
     buffer_offset := 0; buffer_used := 7;
     mode := Z.lor FILE_MODE_READ FILE_MODE_WRITE |}.

Definition sample_stream : FILE fmemopen_state := opened (replicate (Z.to_nat BUFSIZ) 9) sample_state.

Definition sample_calls : list fcall :=
  [Fwrite (lit "hello") 1 5; Fseeko 1 SEEK_SET; Fgetc; Ungetc 65; Fread 1 10; Ftello].

Lemma sample_valid : valid true true 20 sample_state.
Proof. split; try done; try (cbn; lia). repeat (constructor; [unfold is_byte; cbn; lia|]). constructor. Qed.

Lemma sample_file :
  is_file true true fmemopen_read fmemopen_write fmemopen_seek (valid true true 20) content buffer_offset 20
    sample_stream (memory_file sample_state).
Proof. apply opened_file; [apply sample_valid|]. by rewrite length_replicate. Qed.

Lemma sample_ok : afile_ok (memory_file sample_state).
Proof. split_and!; [apply Forall_take, sample_valid|constructor|done]. Qed.

Lemma sample_legal : flegal_all true true 20 (memory_file sample_state) sample_calls.
Proof.
  assert (Hb : Forall is_byte (lit "hello")) by (repeat (constructor; [unfold is_byte; simpl; lia|]); done).
  unfold sample_calls. cbn [flegal_all].
  split; [split_and!; try done; cbn; lia|]. intros r1 a1 H1. inversion H1; subst; clear H1.
  split; [split_and!; try done; cbn; lia|]. intros r2 a2 H2. inversion H2; subst; clear H2.
  split; [done|]. intros r3 a3 H3. inversion H3; subst; clear H3.
  split; [split; [done|unfold is_byte; lia]|]. intros r4 a4 H4.
  split; [split_and!; done|]. intros r5 a5 H5. split; [done|]. done.
Qed.

Lemma stream_refines_witness :
  ∃ rs fp' a' fp'', fexec_all (λ _, false) sample_calls sample_stream = Ret (rs, fp')
    ∧ fsteps (memory_file sample_state) sample_calls rs a'
    ∧ fflush_unlocked fp' = Ret (0, fp'') ∧ content (user fp'') = adata a' ∧ buffer_offset (user fp'') = apos (settle a').
Proof.
  assert (Hcap : 0 <= 20 < 2 ^ 62) by lia.
  apply (stream_refines true true fmemopen_read fmemopen_write fmemopen_seek (valid true true 20) content buffer_offset 20
    (Dev := fmemopen_device true true 20 Hcap)); [apply sample_file|apply sample_ok|apply sample_legal].
Defined.

Definition sample_realloc (b : option (list Z)) (n : Z) : option (list Z) :=
  if n <? 0 then None else Some (take (Z.to_nat n) (default [] b ++ replicate (Z.to_nat n) 0)).

#[export] Instance sample_reallocates : Reallocates sample_realloc.
Proof.
  split; intros b n b'; unfold sample_realloc; destruct (Z.ltb_spec n 0); intros [= <-].
  - rewrite length_take, length_app, length_replicate. lia.
  - rewrite length_take, length_app, length_replicate. rewrite (take_app (default [] b)).
    replace (Z.to_nat n `min` _)%nat with (Z.to_nat n) by lia. by eexists.
Qed.

Lemma getdelim_line_witness :
  ∃ r out fp', getdelim (λ _, false) sample_realloc 10 (Some None) (Some 0) 10 sample_stream = Ret ((r, Some out), fp')
    ∧ line_read true true fmemopen_read fmemopen_write fmemopen_seek (valid true true 20) content buffer_offset 20
        sample_realloc r out fp' (upto 10 (available (memory_file sample_state)))
        (consumed (upto_cost 10 (available (memory_file sample_state))) (memory_file sample_state)).
Proof.
  assert (Hcap : 0 <= 20 < 2 ^ 62) by lia.
  apply (getdelim_line true true fmemopen_read fmemopen_write fmemopen_seek (valid true true 20) content buffer_offset 20
    (Dev := fmemopen_device true true 20 Hcap));
    [apply sample_reallocates|apply sample_file|done|apply sample_ok|done|unfold is_byte; lia|done|by vm_compute|vm_compute; lia].
Defined.

(** Lines of a stream in memory. *)
Example getdelim_example :
  (r ← fmemopen (Some (lit "ab" ++ [10] ++ lit "c")) 4 (lit "r") (true, true, true) (replicate (Z.to_nat BUFSIZ) 9);
   match r with
   | inl _ => Undef
   | inr fp =>
       x ← ('(n1, o1) ← getdelim (λ _, false) sample_realloc 10 (Some None) (Some 0) 10;
            let line := match o1 with Some (l, _) => l | None => None end in
            '(n2, _) ← getdelim (λ _, false) sample_realloc 10 (Some line) (Some 32) 10;
            '(n3, _) ← getdelim (λ _, false) sample_realloc 10 (Some None) (Some 0) 10;
            mret (n1, take 4 (default [] line), n2, n3)) fp;
       Ret x.1
   end) = Ret (3, lit "ab" ++ [10; 0], 1, -1).
Proof. vm_compute. reflexivity. Qed.

End StdioFile.
