(* ===== verification/Memstream.v ===== *)
(** * Streams into a growing buffer

    [stdio/open_memstream.c].  The block is reallocated as it fills; the caller's
    pointer and size are set at every write. *)

From S2P Require Import Prelude Memory Stdio StdioSpec StdioFile Fmemopen.
From stdpp Require Import base list numbers strings.
From Stdlib Require Import ZArith Lia Ascii.
Import Mem(is_byte) Stdio StdioFile.

#[local] Open Scope Z_scope.
#[local] Open Scope c_scope.

Module Memstream.

(** [string_out] is what the caller finds at the pointer it was given. *)
Record memstream := {
  string_out : list Z;
  used_out : Z;
  string : list Z;
  offset : Z;
  used : Z;
  size : Z
}.

Section Realloc.
Context (realloc : option (list Z) → Z → option (list Z)).

Definition grown_size (size required_size : Z) : Z :=
  let new_size := u64 (2 * size) in
  let new_size := if new_size <? 16 then 16 else new_size in
  if new_size <? required_size then required_size else new_size.

(** The block and its size, with room for [required_size] bytes. *)
Definition reserve (ms : memstream) (required_size : Z) : result (list Z * Z) :=
  if size ms <? required_size then
    let new_size := grown_size (size ms) required_size in
    if SIZE_MAX - new_size <? 1 then inl EOVERFLOW else
    match realloc (Some (string ms)) (new_size + 1) with
    | None => inl ENOMEM
    | Some new_string => inr (new_string, new_size)
    end
  else inr (string ms, size ms).

Definition memstream_write (src : list Z) : M memstream (result Z) := λ ms,
  let count := clamp_ssize (Z.of_nat (length src)) in
  if (offset ms =? SIZE_MAX) && (1 <=? count) then Ret (inl EOVERFLOW, ms) else
  let count := if u64 (SSIZE_MAX - offset ms) <? count then u64 (SIZE_MAX - offset ms) else count in
  let required_size := u64 (offset ms + count) in
  match reserve ms required_size with
  | inl e => Ret (inl e, ms)
  | inr (str, size') =>
      if Z.of_nat (length src) <? count then Undef else
      str ← write_at str (offset ms) (take (Z.to_nat count) src);
      '(str, used') ← (if used ms <? required_size then str ← write_at str required_size [0]; Ret (str, required_size)
                       else Ret (str, used ms));
      Ret (inr (s64 count), {| string_out := str; used_out := used'; string := str;
                               offset := u64 (offset ms + count); used := used'; size := size' |})
  end.

Definition memstream_seek (off whence : Z) : M memstream (result Z) := λ ms,
  match (if whence =? SEEK_SET then Some 0
         else if whence =? SEEK_CUR then Some (s64 (offset ms))
         else if whence =? SEEK_END then Some (s64 (used ms)) else None) with
  | None => Ret (inl EINVAL, ms)
  | Some base =>
      lo ← checked 64 (- base);
      hi ← checked 64 (base - SSIZE_MAX);
      if (off <? lo) || (hi <? off) then Ret (inl EOVERFLOW, ms) else
      t ← checked 64 (base + off);
      Ret (inr (s64 (u64 t)), {| string_out := string_out ms; used_out := used_out ms; string := string ms;
                                 offset := u64 t; used := used ms; size := size ms |})
  end.

Definition memstream_start : memstream :=
  {| string_out := [0]; used_out := 0; string := [0]; offset := 0; used := 0; size := 0 |}.

(** Whether each of the three allocations succeeds. *)
Definition open_memstream (allocated : bool * bool * bool) (stale : list Z) : result (FILE memstream) :=
  let '(string_ok, state_ok, file_ok) := allocated in
  if negb (string_ok && state_ok && file_ok) then inl ENOMEM else
  let fp := Fmemopen.fnewfile stale memstream_start in
  inr {| buffer := buffer fp; user := memstream_start; read_func := None; write_func := Some memstream_write;
         seek_func := Some memstream_seek; flags := Z.lor (flags fp) _FILE_WRITABLE; buffer_mode := buffer_mode fp;
         fd := -1; offset_input_buffer := 0; amount_input_buffered := 0; amount_output_buffered := 0; ferrno := None |}.

(** ** Writing *)

(** What was written so far is there, with a terminator, for the caller too. *)
Record memstream_holds (data : list Z) (ms : memstream) : Prop := {
  holds_offset : offset ms = Z.of_nat (length data);
  holds_used : used ms = Z.of_nat (length data);
  holds_size : Z.of_nat (length data) <= size ms <= 16 + 2 * Z.of_nat (length data);
  holds_block : Z.of_nat (length (string ms)) = size ms + 1;
  holds_text : data ++ [0] `prefix_of` string ms;
  holds_out : string_out ms = string ms ∧ used_out ms = used ms
}.

Context `{Re : !Reallocates realloc}.

Lemma grown_enough s r :
  0 <= s < r → r < 2 ^ 60 → s <= grown_size s r ∧ r <= grown_size s r <= 16 + 2 * r.
Proof.
  intros Hs Hr. unfold grown_size. rewrite wrapu_id by (unfold in_u; lia). cbv zeta.
  destruct (Z.ltb_spec (2 * s) 16); [destruct (Z.ltb_spec 16 r)|destruct (Z.ltb_spec (2 * s) r)]; lia.
Qed.

Lemma reserve_run data ms r :
  memstream_holds data ms → Z.of_nat (length data) <= r < 2 ^ 60 →
  match reserve ms r with
  | inl e => e = ENOMEM ∧ ∃ b m, realloc b m = None
  | inr (str, s) => Z.of_nat (length str) = s + 1 ∧ data ++ [0] `prefix_of` str ∧ r <= s <= Z.max (size ms) (16 + 2 * r)
  end.
Proof.
  intros [_ _ Hs Hb Ht _] Hr. unfold reserve. destruct (Z.ltb_spec (size ms) r) as [Hlt|Hge]; [|split_and!; [done|done|lia..]].
  destruct (grown_enough (size ms) r) as [G1 G2]; [lia|lia|].
  rewrite (proj2 (Z.ltb_ge _ 1)) by (unfold SIZE_MAX; lia).
  destruct (realloc _ _) as [str|] eqn:E; [|by eauto].
  pose proof (realloc_length _ _ _ _ E) as Hl. pose proof (realloc_keeps _ _ _ _ E) as Hk. cbn [default] in Hk. unfold id in Hk.
  rewrite take_ge in Hk by lia. split_and!; [done|by etrans|lia..].
Qed.

(** What is written to [open_memstream] is appended to the block, which
    grows as needed and at most to twice what it holds, is always terminated,
    and is what the caller's pointer and size show; when [realloc] fails nothing
    changes. *)
Theorem memstream_write_appends data l ms :
  memstream_holds data ms → Z.of_nat (length data) + Z.of_nat (length l) < 2 ^ 60 →
  ∃ r ms', memstream_write l ms = Ret (r, ms')
    ∧ (r = inr (Z.of_nat (length l)) ∧ memstream_holds (data ++ l) ms'
       ∨ r = inl ENOMEM ∧ ms' = ms ∧ ∃ b m, realloc b m = None).
Proof.
  intros H Hlen. pose proof H as [Ho Hu Hs Hb Ht [Hso Huo]]. unfold memstream_write. rewrite StdioSpec.clamp_small by lia.
  rewrite Ho, Hu, (proj2 (Z.eqb_neq _ SIZE_MAX)) by (unfold SIZE_MAX; lia). cbn [andb].
  rewrite (wrapu_id 64 (SSIZE_MAX - _)) by (unfold in_u, SSIZE_MAX; lia).
  rewrite (proj2 (Z.ltb_ge (SSIZE_MAX - _) _)) by (unfold SSIZE_MAX; lia). cbv zeta.
  rewrite (wrapu_id 64 (_ + _)) by (unfold in_u; lia). set (req := Z.of_nat (length data) + Z.of_nat (length l)) in *.
  pose proof (reserve_run data ms req H ltac:(lia)) as Hres. destruct (reserve ms req) as [e|[str s]].
  { destruct Hres as [-> Hn]. eexists _, _. split; [reflexivity|]. by right. }
  destruct Hres as (Hl1 & [t ->] & Hs1). rewrite (proj2 (Z.ltb_ge _ _)) by lia. rewrite Nat2Z.id, firstn_all.
  rewrite <- app_assoc, length_app in Hl1. rewrite <- app_assoc. cbn [app length] in Hl1 |- *.
  rewrite (outcome_bind_eq _ _ _ (write_at_prefix data (0 :: t) l _ eq_refl ltac:(cbn [length]; lia))).
  destruct (Z.ltb_spec (Z.of_nat (length data)) req) as [Hlt|Hge].
  - rewrite app_assoc. assert (Er : req = Z.of_nat (length (data ++ l))) by (rewrite length_app; lia).
    rewrite (outcome_bind_eq _ _ _ (write_at_prefix (data ++ l) (drop (length l) (0 :: t)) [0] req Er ltac:(rewrite length_drop; cbn [length]; lia))).
    rewrite wraps_id by (unfold in_s; lia). eexists _, _. split; [reflexivity|]. left. split; [done|].
    split; cbn [offset used size string string_out used_out]; try done; try lia.
    + rewrite !length_app, !length_drop. cbn [length]. lia.
    + rewrite app_assoc. by eexists.
  - assert (l = []) as -> by (apply nil_length_inv; lia). cbn [length drop app].
    rewrite wraps_id by (unfold in_s; lia). eexists _, _. split; [reflexivity|]. left. split; [done|].
    rewrite app_nil_r. split; cbn [offset used size string string_out used_out]; try done; try lia.
    + rewrite length_app. cbn [length]. lia.
    + eexists. by rewrite <- app_assoc.
Qed.

(** [memstream_seek] refuses every position: the test against the largest
    offset has its operands the wrong way round, so that [fseeko] and [ftello] fail
    on every stream of [open_memstream]. *)
Theorem memstream_seek_refuses data ms off whence :
  memstream_holds data ms → Z.of_nat (length data) < 2 ^ 60 → 0 <= whence <= 2 → in_s 64 off →
  memstream_seek off whence ms = Ret (inl EOVERFLOW, ms).
Proof.
  intros [Ho Hu _ _ _ _] Hl Hw Hoff. unfold memstream_seek.
  match goal with |- context [match ?sel with Some _ => _ | None => _ end] =>
    assert (Hb : ∃ base, sel = Some base ∧ 0 <= base < 2 ^ 60) end.
  { unfold SEEK_SET, SEEK_CUR, SEEK_END. rewrite Ho, Hu, wraps_id by (unfold in_s; lia).
    destruct (Z.eqb_spec whence 0); [eexists; split; [done|lia]|]. destruct (Z.eqb_spec whence 1); [eexists; split; [done|lia]|].
    rewrite (proj2 (Z.eqb_eq whence 2)) by lia. eexists; split; [done|lia]. }
  destruct Hb as (base & -> & Hb). unfold in_s, SSIZE_MAX in *.
  rewrite (outcome_bind_eq _ _ _ (checked_ok 64 (- base) ltac:(unfold in_s; lia))).
  rewrite (outcome_bind_eq _ _ _ (checked_ok 64 (base - 9223372036854775807) ltac:(unfold in_s; lia))).
  destruct (Z.ltb_spec off (- base)); [done|]. by rewrite (proj2 (Z.ltb_lt _ off)) by lia.
Qed.

End Realloc.

Lemma start_holds : memstream_holds [] memstream_start.
Proof. split; cbn; try done; try lia. Qed.

Lemma memstream_write_appends_witness :
  ∃ r ms', memstream_write sample_realloc (lit "hello") memstream_start = Ret (r, ms')
    ∧ (r = inr 5 ∧ memstream_holds (lit "hello") ms'
       ∨ r = inl ENOMEM ∧ ms' = memstream_start ∧ ∃ b m, sample_realloc b m = None).
Proof. apply (memstream_write_appends sample_realloc [] (lit "hello") memstream_start start_holds). by vm_compute. Defined.

Lemma memstream_seek_refuses_witness : memstream_seek 0 SEEK_CUR memstream_start = Ret (inl EOVERFLOW, memstream_start).
Proof. apply (memstream_seek_refuses [] memstream_start 0 SEEK_CUR start_holds); [by vm_compute|unfold SEEK_CUR; lia|unfold in_s; lia]. Defined.

(** Two strings written through a stream are in the caller's block once it is
    flushed, and the position can not be asked for. *)
Example memstream_example :
  match open_memstream sample_realloc (true, true, true) (replicate (Z.to_nat BUFSIZ) 9) with
  | inl _ => Undef
  | inr fp =>
      x ← (fputs_unlocked (λ _, false) (lit "hello, ");; fputs_unlocked (λ _, false) (lit "world of streams");;
           fflush_unlocked;; p ← ftello_unlocked; mret p) fp;
      Ret (x.1, take 24 (string_out (user x.2)), used_out (user x.2), size (user x.2))
  end = Ret (-1, lit "hello, world of streams" ++ [0], 23, 23).
Proof. vm_compute. reflexivity. Qed.

End Memstream.
