(* ===== verification/Sched.v ===== *)
(** * Threads and futexes

    Interleaved execution of threads over a shared state, reachability and the
    rule for invariants; the futex of the kernel ([sys_futex] of
    [kernel/thread.cpp]), on which the locks of [pthread] and [semaphore] sleep.

    A thread is its local state, with the point it has reached; what it does
    next at that point is a function of the shared state and of an event, which
    stands for what the thread can not know: which function its caller calls
    next, a signal, a timeout.  A step makes one access to memory that another
    thread may write. *)

From S2P Require Import Prelude.
From stdpp Require Import base list gmap relations.
From Stdlib Require Import ZArith Lia.

Module Sched.

(** ** Systems of threads *)

Record config (S L : Type) := { shared : S; threads : gmap nat L }.
Arguments shared {S L} _.
Arguments threads {S L} _.

(** The thread goes on; it calls a function; a signal or a timeout ends its
    sleep. *)
Inductive event (C : Type) := Go | Call (c : C) | Signal | Timeout.
Arguments Go {C}.
Arguments Call {C} _.
Arguments Signal {C}.
Arguments Timeout {C}.

Section System.
Context {S L E : Type} (step : nat → E → S → L → option (S * L)).

Definition cstep (t : nat) (e : E) (c : config S L) : option (config S L) :=
  match threads c !! t with
  | Some l =>
      match step t e (shared c) l with
      | Some (s', l') => Some {| shared := s'; threads := <[t := l']> (threads c) |}
      | None => None
      end
  | None => None
  end.

(** A schedule: who moves, and the event. *)
Fixpoint run (sched : list (nat * E)) (c : config S L) : option (config S L) :=
  match sched with
  | [] => Some c
  | (t, e) :: sched => match cstep t e c with Some c' => run sched c' | None => None end
  end.

Definition moves (c c' : config S L) : Prop := ∃ t e, cstep t e c = Some c'.

Definition reachable : config S L → config S L → Prop := rtc moves.

Lemma run_reachable sched c c' : run sched c = Some c' → reachable c c'.
Proof.
  revert c. induction sched as [|[t e] sched IH]; intros c; cbn [run]; [intros [= <-]; apply rtc_refl|].
  destruct (cstep t e c) as [c1|] eqn:E1; [|done]. intros H. eapply rtc_l; [by exists t, e|by apply IH].
Qed.

Lemma run_app sched1 sched2 c c1 : run sched1 c = Some c1 → run (sched1 ++ sched2) c = run sched2 c1.
Proof.
  revert c. induction sched1 as [|[t e] sched1 IH]; intros c; cbn [run app]; [by intros [= ->]|].
  destruct (cstep t e c) as [c'|]; [apply IH|done].
Qed.

(** A property of the state a schedule leads to, by evaluation. *)
Lemma run_witness (P : config S L → Prop) `{!∀ c, Decision (P c)} sched c0 :
  match run sched c0 with Some c => bool_decide (P c) | None => false end = true → ∃ c, run sched c0 = Some c ∧ P c.
Proof. destruct (run sched c0) as [c|]; [|done]. intros Hb%bool_decide_eq_true. eauto. Qed.

(** The rule for invariants. *)
Lemma invariant_reachable (I : config S L → Prop) c0 :
  I c0 → (∀ c t e c', I c → cstep t e c = Some c' → I c') → ∀ c, reachable c0 c → I c.
Proof. intros H0 Hstep c Hr. induction Hr as [|c1 c2 c3 [t [e E1]] _ IH]; [done|]. apply IH. by eapply Hstep. Qed.

Lemma cstep_inv t e c c' :
  cstep t e c = Some c' →
  ∃ l l', threads c !! t = Some l ∧ step t e (shared c) l = Some (shared c', l') ∧ threads c' = <[t := l']> (threads c).
Proof.
  unfold cstep. destruct (threads c !! t) as [l|] eqn:El; [|done].
  destruct (step t e (shared c) l) as [[s' l']|] eqn:Es; [|done]. intros [= <-]. by exists l, l'.
Qed.

Lemma cstep_run t e c l s' l' :
  threads c !! t = Some l → step t e (shared c) l = Some (s', l') →
  cstep t e c = Some {| shared := s'; threads := <[t := l']> (threads c) |}.
Proof. unfold cstep. by intros -> ->. Qed.

(** A property of every thread holds after a step when the thread that moved has
    it and the others do. *)
Definition every (P : nat → L → Prop) (c : config S L) : Prop := ∀ t l, threads c !! t = Some l → P t l.

#[export] Instance every_dec (P : nat → L → Prop) `{!∀ t l, Decision (P t l)} c : Decision (every P c).
Proof. change (Decision (map_Forall P (threads c))). apply _. Defined.

Lemma every_update P t l' (c c' : config S L) :
  threads c' = <[t := l']> (threads c) → P t l' →
  (∀ u l, u ≠ t → threads c !! u = Some l → P u l) → every P c'.
Proof.
  intros Ht Hown Hother u l Hu. rewrite Ht in Hu. destruct (decide (u = t)) as [->|Hne].
  - rewrite lookup_insert_eq in Hu. by injection Hu as <-.
  - rewrite lookup_insert_ne in Hu by done. by apply Hother.
Qed.

(** The sum of a count over the threads. *)
Definition total (f : L → Z) (c : config S L) : Z := map_fold (λ _ l n, f l + n)%Z 0%Z (threads c).

Lemma total_update f t l l' (c c' : config S L) :
  threads c !! t = Some l → threads c' = <[t := l']> (threads c) → (total f c' = total f c - f l + f l')%Z.
Proof.
  intros Hl Ht. unfold total. rewrite Ht. rewrite <- insert_delete_eq.
  rewrite (map_fold_insert_L _ _ t l'); [|intros; lia|apply lookup_delete_eq].
  rewrite (map_fold_delete_L _ _ t l (threads c)); [lia|intros; lia|done].
Qed.

Lemma total_zero f (c : config S L) : every (λ _ l, f l = 0%Z) c → total f c = 0%Z.
Proof.
  unfold total. intros H. apply (map_fold_weak_ind (λ n m, (∀ t l, m !! t = Some l → f l = 0%Z) → n = 0%Z)); [done| |exact H].
  intros t l m n Hn IH Hm. rewrite IH; [rewrite (Hm t l); [done|apply lookup_insert_eq]|].
  intros u lu Hu. apply (Hm u). rewrite lookup_insert_ne; [done|]. intros ->. congruence.
Qed.

(** The count of one thread is within the sum. *)
Lemma total_ge_every f t l (c : config S L) :
  every (λ _ l, (0 <= f l)%Z) c → threads c !! t = Some l → (f l <= total f c)%Z.
Proof.
  intros Hf Hl. unfold total. rewrite (map_fold_delete_L _ _ t l (threads c)); [|intros; lia|done].
  enough (0 <= map_fold (λ _ l n, f l + n) 0 (delete t (threads c)))%Z by lia.
  assert (Hd : map_Forall (λ _ l, (0 <= f l)%Z) (delete t (threads c))) by (by apply map_Forall_delete).
  revert Hd. apply (map_fold_weak_ind (λ n m, map_Forall (λ _ l, (0 <= f l)%Z) m → (0 <= n)%Z)); [done|].
  intros u lu m n Hm IH [H1 H2]%map_Forall_insert; [|done]. specialize (IH H2). lia.
Qed.

Lemma total_ge f t l (c : config S L) :
  (∀ l, (0 <= f l)%Z) → threads c !! t = Some l → (f l <= total f c)%Z.
Proof. intros Hf. apply total_ge_every. intros u lu _. apply Hf. Qed.

(** Two threads. *)
Lemma total_ge_two f t u l lu (c : config S L) :
  (∀ l, (0 <= f l)%Z) → t ≠ u → threads c !! t = Some l → threads c !! u = Some lu → (f l + f lu <= total f c)%Z.
Proof.
  intros Hf Hne Hl Hu. unfold total. rewrite (map_fold_delete_L _ _ t l (threads c)); [|intros; lia|done].
  pose proof (total_ge f u lu {| shared := shared c; threads := delete t (threads c) |} Hf) as H. unfold total in H. cbn in H.
  rewrite lookup_delete_ne in H by done. specialize (H Hu). lia.
Qed.

End System.

(** ** Futexes

    The threads waiting at an address, in the order they came, and whether they
    were woken.  A thread leaves the queue when it runs again. *)

Definition futex : Type := list (nat * bool).

Definition futex_enter (t : nat) (q : futex) : futex := q ++ [(t, false)].

Definition futex_leave (t : nat) (q : futex) : futex := filter (λ e, e.1 ≠ t) q.

Definition futex_woken (t : nat) (q : futex) : bool := bool_decide ((t, true) ∈ q).

(** [FUTEX_WAKE]: the first [value] threads of the queue, woken before or not. *)
Definition futex_wake (value : nat) (q : futex) : futex :=
  ((λ e : nat * bool, (e.1, true)) <$> take value q) ++ drop value q.

(** With [INT_MAX] there is no limit. *)
Definition futex_wake_all (q : futex) : futex := (λ e : nat * bool, (e.1, true)) <$> q.

(** Waking at an address where only the thread [u] waits. *)
Definition futex_wake_thread (u : nat) (q : futex) : futex :=
  (λ e : nat * bool, if decide (e.1 = u) then (e.1, true) else e) <$> q.

(** The thread waits and was not woken. *)
Definition asleep (t : nat) (q : futex) : Prop := (t, false) ∈ q.

#[export] Instance asleep_dec t q : Decision (asleep t q).
Proof. unfold asleep. apply _. Defined.

Lemma asleep_enter t u q : asleep t (futex_enter u q) ↔ asleep t q ∨ t = u.
Proof. unfold asleep, futex_enter. rewrite elem_of_app, list_elem_of_singleton. split; (intros [?|H]; [by left|right]); [by injection H|by subst]. Qed.

Lemma asleep_leave t u q : asleep t (futex_leave u q) ↔ asleep t q ∧ t ≠ u.
Proof. unfold asleep, futex_leave. rewrite list_elem_of_filter. cbn. split; intros [? ?]; by split. Qed.

Lemma asleep_wake_all t q : ¬ asleep t (futex_wake_all q).
Proof. unfold asleep, futex_wake_all. rewrite list_elem_of_fmap. intros (e & He & _). by destruct e. Qed.

Lemma asleep_wake t n q : asleep t (futex_wake n q) → asleep t q.
Proof.
  unfold asleep, futex_wake. rewrite elem_of_app, list_elem_of_fmap.
  intros [(e & He & _)|H]; [by destruct e|]. rewrite <- (take_drop n q), elem_of_app. by right.
Qed.

Lemma asleep_wake_thread t u q : asleep t (futex_wake_thread u q) ↔ asleep t q ∧ t ≠ u.
Proof.
  unfold asleep, futex_wake_thread. rewrite list_elem_of_fmap. split.
  - intros ([v b] & He & Hin). cbn in He. case_decide; [done|]. by injection He as -> <-.
  - intros [Hin Hne]. exists (t, false). cbn. by rewrite decide_False.
Qed.

(** The threads of the queue. *)
Definition waits (t : nat) (q : futex) : Prop := t ∈ q.*1.

Lemma waits_enter t u q : waits t (futex_enter u q) ↔ waits t q ∨ t = u.
Proof. unfold waits, futex_enter. rewrite fmap_app, elem_of_app. cbn. by rewrite list_elem_of_singleton. Qed.

Lemma waits_leave t u q : waits t (futex_leave u q) ↔ waits t q ∧ t ≠ u.
Proof.
  unfold waits, futex_leave. rewrite !list_elem_of_fmap. split.
  - intros (e & -> & [Hne He]%list_elem_of_filter). eauto.
  - intros [(e & -> & He) Hne]. exists e. split; [done|]. by apply list_elem_of_filter.
Qed.

Lemma waits_wake_all t q : waits t (futex_wake_all q) ↔ waits t q.
Proof. unfold waits, futex_wake_all. by rewrite <- list_fmap_compose. Qed.

Lemma waits_wake t n q : waits t (futex_wake n q) ↔ waits t q.
Proof.
  unfold waits, futex_wake. rewrite fmap_app, <- list_fmap_compose. rewrite <- (take_drop n q) at 3. by rewrite fmap_app.
Qed.

Lemma waits_wake_thread t u q : waits t (futex_wake_thread u q) ↔ waits t q.
Proof.
  unfold waits, futex_wake_thread. rewrite <- list_fmap_compose. erewrite list_fmap_ext; [done|].
  intros _ [v b] _. cbn. by case_decide.
Qed.

Lemma asleep_waits t q : asleep t q → waits t q.
Proof. intros H. apply list_elem_of_fmap. by exists (t, false). Qed.

(** A thread in the queue was woken or is asleep. *)
Lemma waits_inv t q : waits t q → asleep t q ∨ futex_woken t q = true.
Proof.
  unfold waits, asleep, futex_woken. rewrite list_elem_of_fmap. intros ([u []] & -> & He); cbn [fst]; [right|by left].
  by apply bool_decide_eq_true.
Qed.

End Sched.
