(* ===== verification/MutexSpec.v ===== *)
(** * What a mutex promises

    Every reachable state of threads that use a mutex, and every step they make:
    the mutex is a lock, calls return what happened, and nobody who wants a free
    lock is left asleep.  [alock] is what the users of a mutex build on. *)

From S2P Require Import Prelude Sched Mutex.
From stdpp Require Import base list gmap relations.
From Stdlib Require Import ZArith Lia.
Import Sched Mutex.

#[local] Open Scope Z_scope.

Module MutexSpec.

(** ** Waking *)

(** A thread that let the lock go and has to wake the others. *)
Definition waker (c : config pthread_mutex thread) : Prop :=
  ∃ w l, threads c !! w = Some l ∧ at_ l = unlock_wake.

(** No thread sleeps but when the lock is contended or somebody is about to wake
    it. *)
Definition none_lost (c : config pthread_mutex thread) : Prop :=
  ∀ t l, threads c !! t = Some l → at_ l = lock_sleep → asleep t (queue (shared c)) →
    lock (shared c) = CONTENDED ∨ waker c.

(** What a step does to sleepers, to the mark of contention and to a waker. *)
Lemma step_sleepers t e m l m' l' :
  step t e m l = Some (m', l') →
  (∀ u, u ≠ t → asleep u (queue m') → asleep u (queue m))
  ∧ (at_ l' = lock_sleep → lock m' = CONTENDED)
  ∧ (lock m = CONTENDED → lock m' = CONTENDED ∨ at_ l' = unlock_wake)
  ∧ (at_ l = unlock_wake → ∀ u, ¬ asleep u (queue m')).
Proof.
  destruct l as [p r d c0 b]. unfold step. destruct p; destruct e; try done; cbn; unfold lock_recursively; intros Hs;
    repeat match type of Hs with
    | context [start ?c _] => destruct c; cbn in Hs
    | context [if ?b then _ else _] => destruct b eqn:?; cbn in Hs
    end; try done; injection Hs as <- <-; cbn; b2p;
    split_and!; try done; intros; try (by left); try (by right);
    unfold UNLOCKED, LOCKED, CONTENDED in *; try lia;
    repeat match goal with
    | H : asleep _ (futex_enter _ _) |- _ => apply asleep_enter in H as [H|H]
    | H : asleep _ (futex_leave _ _) |- _ => apply asleep_leave in H as [H _]
    | H : asleep _ (futex_wake_all _) |- _ => by apply asleep_wake_all in H
    end; try done; try apply asleep_wake_all.
Qed.

Lemma none_lost_step t e c c' : none_lost c → cstep step t e c = Some c' → none_lost c'.
Proof.
  intros N Hc. destruct (cstep_inv _ _ _ _ _ Hc) as (l & l' & Hl & Hs & Ht).
  destruct (step_sleepers _ _ _ _ _ _ Hs) as (S1 & S2 & S3 & S4).
  assert (Hw : at_ l' = unlock_wake → waker c') by (intros H; exists t, l'; by rewrite Ht, lookup_insert_eq).
  intros u lu Hu Hp Ha. rewrite Ht in Hu. destruct (decide (u = t)) as [->|Hne].
  { rewrite lookup_insert_eq in Hu. injection Hu as <-. left. by apply S2. }
  rewrite lookup_insert_ne in Hu by done. destruct (N u lu Hu Hp (S1 u Hne Ha)) as [Hk|(w & lw & Hlw & Hpw)].
  { destruct (S3 Hk); [by left|right; by apply Hw]. }
  destruct (decide (w = t)) as [->|Hnw]; [exfalso; apply (S4 ltac:(congruence) u Ha)|].
  right. exists w, lw. by rewrite Ht, lookup_insert_ne.
Qed.

(** ** What holds of every reachable state *)

Definition system_ok (c : config pthread_mutex thread) : Prop :=
  ∃ h, mutex_ok (shared c) h ∧ every (thread_ok (shared c) h) c.

Lemma mutex_system_step t e c c' : system_ok c → cstep step t e c = Some c' → system_ok c'.
Proof.
  intros (h & M & T) Hc. destruct (cstep_inv _ _ _ _ _ Hc) as (l & l' & Hl & Hs & Ht).
  destruct (mutex_step_ok _ _ _ _ _ _ _ M (T _ _ Hl) Hs) as (h' & M' & T' & F). exists h'. split; [done|].
  by eapply every_update; [exact Ht| |auto].
Qed.

Lemma mutex_initial ty n : system_ok (initial ty n) ∧ none_lost (initial ty n).
Proof.
  assert (H : ∀ t l, threads (initial ty n) !! t = Some l → l = idle).
  { intros t l Hl. apply elem_of_list_to_map_2, list_elem_of_fmap in Hl as (u & [= -> ->] & _). done. }
  split; [|intros t l Hl; by rewrite (H _ _ Hl)]. exists None. split; [split; cbn; unfold ULONG_MAX; intuition lia|].
  intros t l ->%H. split; cbn; try done; try lia; unfold pthread_self; try lia.
  - by split; [|intros ?%Nat.nlt_0_r].
  - split; [by intros ?%not_elem_of_nil|done].
Qed.

Lemma mutex_reachable ty n c : reachable step (initial ty n) c → system_ok c ∧ none_lost c.
Proof.
  intros Hr. apply (invariant_reachable step (λ c, system_ok c ∧ none_lost c) (initial ty n)); [apply mutex_initial| |done].
  intros c1 t e c2 [H1 H2] Hc. split; [by eapply mutex_system_step|by eapply none_lost_step].
Qed.

Lemma reachable_type ty n c : reachable step (initial ty n) c → type (shared c) = ty.
Proof.
  intros Hr. apply (invariant_reachable step (λ c, type (shared c) = ty) (initial ty n)); [done| |done].
  intros c1 t e c2 <- Hc. destruct (cstep_inv _ _ _ _ _ Hc) as ([p r d c0 b] & l' & _ & Hs & _). revert Hs. unfold step.
  destruct p; destruct e; try done; cbn; unfold lock_recursively; intros Hs;
    repeat match type of Hs with
    | context [start ?c _] => destruct c; cbn in Hs
    | context [if ?b then _ else _] => destruct b; cbn in Hs
    end; try done; injection Hs as <- _; done.
Qed.

(** ** The lock *)

(** The holder and how often it holds it. *)
Definition alock : Type := option (nat * nat).

Inductive alock_step (recursive : Prop) (t : nat) : alock → alock → Prop :=
  | acquire : alock_step recursive t None (Some (t, 1%nat))
  | acquire_again n : recursive → alock_step recursive t (Some (t, n)) (Some (t, S n))
  | release_one n : alock_step recursive t (Some (t, S (S n))) (Some (t, S n))
  | release : alock_step recursive t (Some (t, 1%nat)) None.

Definition represents (c : config pthread_mutex thread) (a : alock) : Prop :=
  match a with
  | None => every (λ _ l, depth l = 0%nat) c
  | Some (t, n) => (0 < n)%nat ∧ (∃ l, threads c !! t = Some l ∧ depth l = n) ∧ every (λ u l, u ≠ t → depth l = 0%nat) c
  end.

(** How a step changes the depth of the thread that makes it. *)
Lemma step_depth t e m h l m' l' :
  mutex_ok m h → thread_ok m h t l → step t e m l = Some (m', l') →
  depth l' = depth l ∨ depth l' = S (depth l) ∧ (depth l = 0%nat ∨ type m = PTHREAD_MUTEX_RECURSIVE)
  ∨ depth l = S (depth l').
Proof.
  intros M [T1 T2 T2' T3 T4 T5 T6 T7 T8 TP T9]. destruct l as [p r d c0 b]. unfold step.
  assert (Hfree : lock m = 0 → d = 0%nat) by (apply (free_depth m h t); [apply M|done]).
  assert (Hrec : owned t m = true → type m = PTHREAD_MUTEX_RECURSIVE) by (intros E; by destruct (owned_holds t m h E T2)).
  destruct p; destruct e; try done; cbn; unfold lock_recursively; intros Hs;
    repeat match type of Hs with
    | context [start ?c _] => destruct c; cbn in Hs
    | context [if ?b then _ else _] => destruct b eqn:?; cbn in Hs
    end; try done; injection Hs as _ <-; points; b2p;
    first [by left | right; left; split; [intuition lia|by auto] | right; right; intuition lia].
Qed.

(** With a holder, everybody else has depth zero. *)
Lemma holder_alone c t l :
  system_ok c → threads c !! t = Some l → (0 < depth l)%nat → every (λ u lu, u ≠ t → depth lu = 0%nat) c.
Proof.
  intros (h & _ & T) Hl Hd u lu Hu Hne. apply (ok_holds _ _ _ _ (T _ _ Hl)) in Hd.
  destruct (depth lu) eqn:E; [done|]. assert (h = Some u) by (apply (ok_holds _ _ _ _ (T _ _ Hu)); lia). congruence.
Qed.

Lemma system_represents c : system_ok c → ∃ a, represents c a.
Proof.
  intros Hs. pose proof Hs as (h & _ & T).
  assert (Hzero : ∀ u lu, threads c !! u = Some lu → h ≠ Some u → depth lu = 0%nat).
  { intros u lu Hu Hne. destruct (depth lu) eqn:E; [done|]. exfalso. apply Hne, (ok_holds _ _ _ _ (T _ _ Hu)). lia. }
  destruct h as [t|]; [|exists None; intros u lu Hu; by apply (Hzero u)].
  destruct (threads c !! t) as [l|] eqn:Hl; [|exists None; intros u lu Hu; apply (Hzero u); congruence].
  assert (Hd : (0 < depth l)%nat) by (by apply (ok_holds _ _ _ _ (T _ _ Hl))).
  exists (Some (t, depth l)). split_and!; [done|by exists l|by apply holder_alone with l].
Qed.

Lemma represents_idle_step t l l' c c' a :
  threads c !! t = Some l → threads c' = <[t := l']> (threads c) → depth l' = depth l → represents c a → represents c' a.
Proof.
  intros Hl Ht Hd. destruct a as [[u n]|]; cbn.
  - intros (Hn & (lu & Hu & <-) & He). split_and!; [done| |].
    + destruct (decide (u = t)) as [->|Hne]; [exists l'|exists lu]; rewrite Ht.
      * rewrite lookup_insert_eq. split; congruence.
      * by rewrite lookup_insert_ne.
    + eapply every_update; [exact Ht|rewrite Hd; by apply He|]. intros v lv _ Hv. by apply He.
  - intros He. eapply every_update; [exact Ht|rewrite Hd; by apply (He t)|]. intros v lv _ Hv. by apply (He v).
Qed.

(** C5.  A mutex is a lock.  In every state that any number of threads can reach
    by calling [pthread_mutex_lock], [pthread_mutex_trylock] and, where they hold
    it, [pthread_mutex_unlock], with signals and timeouts, at most one thread
    holds the mutex, and every step of a thread leaves the lock as it was, takes
    it when it is free, or changes the count of the thread's own holds by one;
    only a recursive mutex is taken twice. *)
Theorem mutex_refines ty n c t e c' :
  reachable step (initial ty n) c → cstep step t e c = Some c' →
  ∃ a a', represents c a ∧ represents c' a' ∧ (a' = a ∨ alock_step (ty = PTHREAD_MUTEX_RECURSIVE) t a a').
Proof.
  intros Hr Hc. destruct (mutex_reachable _ _ _ Hr) as [Hs _]. pose proof (mutex_system_step _ _ _ _ Hs Hc) as Hs'.
  pose proof (reachable_type _ _ _ Hr) as <-.
  destruct (cstep_inv _ _ _ _ _ Hc) as (l & l' & Hl & Hst & Ht). destruct Hs as (h & M & T).
  assert (Hl' : threads c' !! t = Some l') by (by rewrite Ht, lookup_insert_eq).
  assert (Hrep : ∀ d lt, threads c !! t = Some lt → depth lt = S d → represents c (Some (t, S d))).
  { intros d lt Hlt Hd. split_and!; [lia|by exists lt|]. apply holder_alone with lt; [by exists h|done|lia]. }
  destruct (step_depth _ _ _ _ _ _ _ M (T _ _ Hl) Hst) as [Hd|[[Hd Hw]|Hd]].
  - destruct (system_represents c) as [a Ha]; [by exists h|]. exists a, a. split_and!; [done|by apply (represents_idle_step t l l' c)|by left].
  - assert (Hrep' : represents c' (Some (t, depth l'))).
    { split_and!; [lia|by exists l'|apply holder_alone with l'; [done|done|lia]]. }
    destruct (depth l) as [|d] eqn:El.
    + exists None, (Some (t, 1%nat)). rewrite Hd in Hrep'. split_and!; [|done|right; apply acquire].
      intros u lu Hu. destruct (decide (u = t)) as [->|Hne]; [congruence|].
      apply (proj2 (proj2 Hrep') u lu); [|done]. by rewrite Ht, lookup_insert_ne.
    + exists (Some (t, S d)), (Some (t, S (S d))). rewrite Hd in Hrep'. split_and!; [by eapply Hrep|done|].
      right. apply acquire_again. destruct Hw; [done|done].
  - exists (Some (t, depth l)). destruct (depth l') as [|d] eqn:El'.
    + exists None. rewrite Hd. split_and!; [by eapply Hrep| |right; apply release].
      eapply every_update; [exact Ht|done|]. intros u lu Hne Hu. by apply (proj2 (proj2 (Hrep 0%nat l Hl Hd)) u).
    + exists (Some (t, S d)). rewrite Hd. split_and!; [by eapply Hrep| |right; apply release_one].
      split_and!; [lia|by exists l'|apply holder_alone with l'; [done|done|lia]].
Qed.

(** A call returns what happened: a thread whose [lock] or [trylock] returned 0
    holds the mutex once more than before the call, one whose call failed exactly
    as often as before, and [unlock] gives up one hold. *)
Theorem mutex_returns ty n c t l :
  reachable step (initial ty n) c → threads c !! t = Some l → at_ l = outside →
  (called l = Unlock → result l = None ∧ depth l = pred (before l))
  ∧ (called l ≠ Unlock → depth l = match result l with None => S (before l) | Some _ => before l end).
Proof.
  intros Hr Hl Hp. destruct (mutex_reachable _ _ _ Hr) as [(h & _ & T) _].
  pose proof (ok_progress _ _ _ _ (T _ _ Hl)) as H. unfold progress_ok in H. by rewrite Hp in H.
Qed.

(** ** Progress *)

(** The thread is in [pthread_mutex_lock] and does not have the lock. *)
Definition wants (l : thread) : bool :=
  match at_ l with
  | lock_cas _ | lock_check _ _ | lock_mark _ | lock_enter | lock_compare | lock_sleep => true
  | _ => false
  end.

(** One step of [t] after which it still wants the free lock, or has it. *)
Definition closer (c : config pthread_mutex thread) (t : nat) (sched : list (nat * event)) : Prop :=
  ∃ c' l', run step sched c = Some c' ∧ threads c' !! t = Some l' ∧ depth l' = 1%nat.

Lemma closer_step c t u sched l s' l' :
  threads c !! u = Some l → step u Go (shared c) l = Some (s', l') →
  closer {| shared := s'; threads := <[u := l']> (threads c) |} t sched → closer c t ((u, Go) :: sched).
Proof.
  intros Hl Hs (c1 & l1 & Hr & H1). exists c1, l1. split; [|done]. cbn [run]. by rewrite (cstep_run step u Go c l s' l' Hl Hs).
Qed.

(** From the test of the loop the lock is one step away. *)
Lemma closer_cas c t l d :
  lock (shared c) = UNLOCKED → threads c !! t = Some l → at_ l = lock_cas d → closer c t [(t, Go)].
Proof.
  intros H0 Hl Hp. eapply closer_step; [exact Hl| |].
  - unfold step, pthread_mutex_clocklock. rewrite Hp, H0. reflexivity.
  - eexists _, _. split_and!; [reflexivity|apply lookup_insert_eq|done].
Qed.

Lemma closer_enter c t l :
  lock (shared c) = UNLOCKED → threads c !! t = Some l → at_ l = lock_enter → closer c t (replicate 3 (t, Go)).
Proof.
  intros H0 Hl Hp. cbn [replicate].
  eapply closer_step; [exact Hl|unfold step, pthread_mutex_clocklock; rewrite Hp; reflexivity|].
  eapply closer_step; [apply lookup_insert_eq|unfold step, pthread_mutex_clocklock; cbn; rewrite H0; reflexivity|].
  eapply closer_cas; [done|apply lookup_insert_eq|done].
Qed.

Lemma closer_compare c t l :
  lock (shared c) = UNLOCKED → threads c !! t = Some l → at_ l = lock_compare → closer c t (replicate 2 (t, Go)).
Proof.
  intros H0 Hl Hp. cbn [replicate].
  eapply closer_step; [exact Hl|unfold step, pthread_mutex_clocklock; rewrite Hp, H0; reflexivity|].
  eapply closer_cas; [done|apply lookup_insert_eq|done].
Qed.

Lemma closer_mark c t l d :
  lock (shared c) = UNLOCKED → threads c !! t = Some l → at_ l = lock_mark d → closer c t (replicate 2 (t, Go)).
Proof.
  intros H0 Hl Hp. cbn [replicate].
  eapply closer_step; [exact Hl|unfold step, pthread_mutex_clocklock; rewrite Hp, H0; reflexivity|].
  eapply closer_cas; [done|apply lookup_insert_eq|done].
Qed.

Lemma closer_woken c t l :
  lock (shared c) = UNLOCKED → threads c !! t = Some l → at_ l = lock_sleep → futex_woken t (queue (shared c)) = true →
  closer c t (replicate 2 (t, Go)).
Proof.
  intros H0 Hl Hp Hw. cbn [replicate].
  eapply closer_step; [exact Hl|unfold step, pthread_mutex_clocklock; rewrite Hp, Hw; reflexivity|].
  eapply closer_cas; [done|apply lookup_insert_eq|done].
Qed.

(** The thread has the lock after a few steps of its own and of wakers. *)
Definition soon (c : config pthread_mutex thread) (t : nat) : Prop :=
  ∃ sched c' l', run step sched c = Some c' ∧ threads c' !! t = Some l' ∧ depth l' = 1%nat ∧ (length sched <= 4)%nat
    ∧ Forall (λ m, m.2 = Go ∧ (m.1 = t ∨ at_ <$> threads c !! m.1 = Some unlock_wake)) sched.

Lemma closer_soon c t k : closer c t (replicate k (t, Go)) → (k <= 4)%nat → soon c t.
Proof.
  intros (c' & l' & H1 & H2 & H3) Hk. exists (replicate k (t, Go)), c', l'.
  split_and!; [done..|by rewrite length_replicate|]. apply Forall_replicate. auto.
Qed.

Lemma closer_check c h t l d st :
  mutex_ok (shared c) h → thread_ok (shared c) h t l →
  lock (shared c) = UNLOCKED → threads c !! t = Some l → at_ l = lock_check d st → ∃ k, (k <= 4)%nat ∧ closer c t (replicate k (t, Go)).
Proof.
  intros M T H0 Hl Hp. assert (Ho : owned t (shared c) = false).
  { destruct (owned t (shared c)) eqn:E; [|done]. destruct (owned_holds _ _ h E (ok_owner _ _ _ _ T)) as [-> _].
    by apply (ok_held _ _ M) in H0. }
  destruct (decide (st = LOCKED)) as [->|Hne].
  - exists 3%nat. split; [lia|]. cbn [replicate].
    eapply closer_step; [exact Hl|unfold step, pthread_mutex_clocklock; rewrite Hp, Ho; reflexivity|].
    eapply closer_mark; [done|apply lookup_insert_eq|done].
  - exists 4%nat. split; [lia|]. cbn [replicate].
    eapply closer_step; [exact Hl|unfold step, pthread_mutex_clocklock; rewrite Hp, Ho, (proj2 (Z.eqb_neq st LOCKED) Hne); reflexivity|].
    eapply closer_enter; [done|apply lookup_insert_eq|done].
Qed.

(** A sleeper, with the help of the thread that has to wake it. *)
Lemma soon_asleep c t l :
  none_lost c → lock (shared c) = UNLOCKED → threads c !! t = Some l → at_ l = lock_sleep → asleep t (queue (shared c)) → soon c t.
Proof.
  intros N H0 Hl Hp Ha. destruct (N t l Hl Hp Ha) as [Hk|(w & lw & Hw & Hpw)]; [by rewrite H0 in Hk|].
  assert (Hne : t ≠ w) by (intros ->; congruence).
  assert (Hc : closer c t [(w, Go); (t, Go); (t, Go)]).
  { eapply closer_step; [exact Hw|unfold step, pthread_mutex_unlock; rewrite Hpw; reflexivity|].
    apply (closer_woken _ t l); [done|cbn; by rewrite lookup_insert_ne|done|]. cbn. apply bool_decide_eq_true.
    unfold futex_wake_all. apply list_elem_of_fmap. by exists (t, false). }
  destruct Hc as (c' & l' & H1 & H2 & H3). eexists _, c', l'. split_and!; [exact H1|done|done|simpl; lia|].
  constructor; [|by repeat (constructor; [by auto|])]. split; [done|right]. cbn [fst]. by rewrite Hw, <- Hpw.
Qed.

(** C6.  No wakeup is lost.  In every reachable state in which the mutex is free, a
    thread inside [pthread_mutex_lock] can have the mutex after at most four
    steps, which it makes itself, but for that of a thread that has just let go
    of the mutex and is about to wake the sleepers. *)
Theorem mutex_progress ty n c t l :
  reachable step (initial ty n) c → lock (shared c) = UNLOCKED → threads c !! t = Some l → wants l = true → soon c t.
Proof.
  intros Hr H0 Hl Hw. destruct (mutex_reachable _ _ _ Hr) as [(h & M & T) N]. pose proof (T _ _ Hl) as Tl.
  destruct (at_ l) as [|d|d st|d| | | | | | | | | | |] eqn:Hp; unfold wants in Hw; rewrite Hp in Hw; try done.
  - apply (closer_soon c t 1); [by eapply closer_cas|lia].
  - destruct (closer_check c h t l d st M Tl H0 Hl Hp) as (k & Hk & Hc). by apply (closer_soon c t k).
  - apply (closer_soon c t 2); [by eapply closer_mark|lia].
  - apply (closer_soon c t 3); [by eapply closer_enter|lia].
  - apply (closer_soon c t 2); [by eapply closer_compare|lia].
  - destruct (waits_inv t (queue (shared c))) as [Ha|Hwk]; [by apply (ok_waits _ _ _ _ Tl); rewrite Hp|by eapply soon_asleep|].
    apply (closer_soon c t 2); [by eapply closer_woken|lia].
Qed.

(** ** An instance: two threads, one asleep while the other lets go *)

Definition contended_schedule : list (nat * event) :=
  [(0%nat, Call Lock); (0%nat, Go); (0%nat, Go); (0%nat, Go);
   (1%nat, Call Lock); (1%nat, Go); (1%nat, Go); (1%nat, Go); (1%nat, Go); (1%nat, Go);
   (0%nat, Call Unlock); (0%nat, Go); (0%nat, Go); (0%nat, Go)].

Definition contended : config pthread_mutex thread :=
  default (initial 0 2) (run step contended_schedule (initial PTHREAD_MUTEX_NORMAL 2)).

Lemma contended_reachable : reachable step (initial PTHREAD_MUTEX_NORMAL 2) contended.
Proof. apply (run_reachable step contended_schedule). vm_compute. reflexivity. Qed.

Lemma mutex_refines_witness :
  ∃ c' a a', cstep step 0 Go contended = Some c' ∧ represents contended a ∧ represents c' a'
    ∧ (a' = a ∨ alock_step (PTHREAD_MUTEX_NORMAL = PTHREAD_MUTEX_RECURSIVE) 0 a a').
Proof.
  destruct (cstep step 0 Go contended) as [c'|] eqn:E; [|vm_compute in E; discriminate E].
  destruct (mutex_refines PTHREAD_MUTEX_NORMAL 2 contended 0 Go c' contended_reachable E) as (a & a' & H).
  exists c', a, a'. split; [reflexivity|exact H].
Defined.

(** The first thread has just returned from [pthread_mutex_lock]. *)
Definition taken : config pthread_mutex thread :=
  default (initial 0 2) (run step (take 4 contended_schedule) (initial PTHREAD_MUTEX_NORMAL 2)).

Lemma mutex_returns_witness :
  ∃ l, threads taken !! 0%nat = Some l ∧ called l = Lock ∧ result l = None ∧ before l = 0%nat
    ∧ (called l = Unlock → result l = None ∧ depth l = pred (before l))
    ∧ (called l ≠ Unlock → depth l = match result l with None => S (before l) | Some _ => before l end).
Proof.
  destruct (threads taken !! 0%nat) as [l|] eqn:E; [|vm_compute in E; discriminate E].
  assert (Hr : reachable step (initial PTHREAD_MUTEX_NORMAL 2) taken)
    by (apply (run_reachable step (take 4 contended_schedule)); vm_compute; reflexivity).
  assert (Hl : at_ l = outside ∧ called l = Lock ∧ result l = None ∧ before l = 0%nat).
  { vm_compute in E. injection E as <-. repeat split. }
  destruct Hl as (Hp & H1 & H2 & H3). exists l. do 4 (split; [assumption || reflexivity|]).
  apply (mutex_returns PTHREAD_MUTEX_NORMAL 2 taken 0 l Hr E Hp).
Defined.

Lemma mutex_progress_witness : soon contended 1.
Proof.
  destruct (threads contended !! 1%nat) as [l|] eqn:E; [|vm_compute in E; discriminate E].
  apply (mutex_progress PTHREAD_MUTEX_NORMAL 2 contended 1 l contended_reachable); [vm_compute; reflexivity|exact E|].
  vm_compute in E. injection E as <-. reflexivity.
Defined.

End MutexSpec.
