(* ===== verification/Semaphore.v ===== *)
(** * Semaphores

    The files of [semaphore], run by any number of threads: [sem_post],
    [sem_trywait] and [sem_clockwait] access the value, the number of waiters and
    the futex one at a time.  The theorems: units are neither lost nor made up,
    and the value stays in range; a wakeup can be lost. *)

From S2P Require Import Prelude Sched.
From stdpp Require Import base list gmap relations.
From Stdlib Require Import ZArith Lia.
Import Sched.

#[local] Open Scope Z_scope.

Module Semaphore.

(** [sem_t], and the queue of the futex at [value]; a negative value is zero with
    threads waiting. *)
Record sem := { value : Z; waiters : Z; queue : futex }.

Definition set_value (x : Z) (s : sem) : sem := {| value := x; waiters := waiters s; queue := queue s |}.
Definition set_waiters (x : Z) (s : sem) : sem := {| value := value s; waiters := x; queue := queue s |}.
Definition set_queue (q : futex) (s : sem) : sem := {| value := value s; waiters := waiters s; queue := q |}.

Definition sem_init (pshared v : Z) : errno + sem :=
  if negb (pshared =? 0) then inl ENOSYS else
  if INT_MAX <? v then inl EINVAL else
  inr {| value := v; waiters := 0; queue := [] |}.

Definition sem_getvalue (s : sem) : Z := if value s =? -1 then 0 else value s.

(** ** Threads *)

Inductive point :=
  | outside
  | post_load
  | post_waiters (old : Z)
  | post_cas (old waiters : Z)
  | post_wake
  | try_load
  | try_cas (old : Z)
  | wait_load
  | wait_add (old : Z)
  | wait_cas (old : Z) (waiting : bool)
  | wait_undo
  | wait_enter
  | wait_compare
  | wait_sleep
  | wait_sub (ret : option errno).

Inductive call := Post | Trywait | Wait.

Abbreviation event := (Sched.event call).

(** The history of a thread: the units it gave and the units it took. *)
Record thread := { at_ : point; result : option errno; gave : Z; took : Z }.

Definition goto (p : point) (l : thread) : thread := {| at_ := p; result := result l; gave := gave l; took := took l |}.
Definition return_ (r : option errno) (l : thread) : thread :=
  {| at_ := outside; result := r; gave := gave l; took := took l |}.
Definition give (l : thread) : thread := {| at_ := at_ l; result := result l; gave := gave l + 1; took := took l |}.
Definition take_ (l : thread) : thread := {| at_ := at_ l; result := result l; gave := gave l; took := took l + 1 |}.

(** ** The functions *)

Definition sem_post (t : nat) (e : event) (s : sem) (l : thread) : option (sem * thread) :=
  match at_ l, e with
  | post_load, Go =>
      if value s =? INT_MAX then Some (s, return_ (Some EOVERFLOW) l) else Some (s, goto (post_waiters (value s)) l)
  | post_waiters old, Go => Some (s, goto (post_cas old (waiters s)) l)
  | post_cas old ws, Go =>
      let new := if old =? -1 then 1 else old + 1 in
      if value s =? old then
        Some (set_value new s,
              if (old =? -1) || negb (ws =? 0) then goto post_wake (give l) else return_ None (give l))
      else Some (s, goto post_load l)
  | post_wake, Go => Some (set_queue (futex_wake 1 (queue s)) s, return_ None l)
  | _, _ => None
  end.

Definition sem_trywait (t : nat) (e : event) (s : sem) (l : thread) : option (sem * thread) :=
  match at_ l, e with
  | try_load, Go => if value s <=? 0 then Some (s, return_ (Some EAGAIN) l) else Some (s, goto (try_cas (value s)) l)
  | try_cas old, Go =>
      let new := if negb (old =? -1) then old - 1 else -1 in
      if value s =? old then Some (set_value new s, return_ None (take_ l)) else Some (s, return_ (Some EAGAIN) l)
  | _, _ => None
  end.

(** The value the loop of [sem_clockwait] wants to store. *)
Definition wait_new (old : Z) : Z := if negb (old =? -1) then old - 1 else -1.

Definition sem_clockwait (t : nat) (e : event) (s : sem) (l : thread) : option (sem * thread) :=
  match at_ l, e with
  | wait_load, Go =>
      let old := value s in
      if wait_new old =? -1 then Some (s, goto (wait_add old) l) else Some (s, goto (wait_cas old false) l)
  | wait_add old, Go =>
      Some (set_waiters (waiters s + 1) s, goto (if old =? wait_new old then wait_enter else wait_cas old true) l)
  | wait_cas old waiting, Go =>
      if value s =? old then
        if waiting then Some (set_value (wait_new old) s, goto wait_enter l)
        else Some (set_value (wait_new old) s, return_ None (take_ l))
      else if waiting then Some (s, goto wait_undo l) else Some (s, goto wait_load l)
  | wait_undo, Go => Some (set_waiters (waiters s - 1) s, goto wait_load l)
  | wait_enter, Go => Some (set_queue (futex_enter t (queue s)) s, goto wait_compare l)
  | wait_compare, Go =>
      if value s =? -1 then Some (s, goto wait_sleep l)
      else Some (set_queue (futex_leave t (queue s)) s, goto (wait_sub (Some EAGAIN)) l)
  | wait_sleep, Go =>
      if futex_woken t (queue s) then Some (set_queue (futex_leave t (queue s)) s, goto (wait_sub None) l) else None
  | wait_sleep, Signal =>
      if futex_woken t (queue s) then None
      else Some (set_queue (futex_leave t (queue s)) s, goto (wait_sub (Some EINTR)) l)
  | wait_sleep, Timeout =>
      if futex_woken t (queue s) then None
      else Some (set_queue (futex_leave t (queue s)) s, goto (wait_sub (Some ETIMEDOUT)) l)
  | wait_sub ret, Go =>
      let s := set_waiters (waiters s - 1) s in
      match ret with
      | None | Some EAGAIN => Some (s, goto wait_load l)
      | Some e => Some (s, return_ (Some e) l)
      end
  | _, _ => None
  end.

Definition step (t : nat) (e : event) (s : sem) (l : thread) : option (sem * thread) :=
  match at_ l, e with
  | outside, Call Post => Some (s, goto post_load l)
  | outside, Call Trywait => Some (s, goto try_load l)
  | outside, Call Wait => Some (s, goto wait_load l)
  | (post_load | post_waiters _ | post_cas _ _ | post_wake), _ => sem_post t e s l
  | (try_load | try_cas _), _ => sem_trywait t e s l
  | _, _ => sem_clockwait t e s l
  end.

Definition idle : thread := {| at_ := outside; result := None; gave := 0; took := 0 |}.

Definition initial (v : Z) (n : nat) : config sem thread :=
  {| shared := {| value := v; waiters := 0; queue := [] |}; threads := list_to_map ((λ t, (t, idle)) <$> seq 0 n) |}.

(** ** Units *)

(** What a thread has read. *)
Definition point_ok (p : point) : Prop :=
  match p with
  | post_waiters old | post_cas old _ => -1 <= old < INT_MAX
  | try_cas old | wait_cas old false => 0 < old <= INT_MAX
  | wait_add old => old = 0 ∨ old = -1
  | wait_cas old true => old = 0
  | _ => True
  end.

(** Whether the thread is counted in [waiters]. *)
Definition counted (l : thread) : Z :=
  match at_ l with
  | wait_cas _ true | wait_undo | wait_enter | wait_compare | wait_sleep | wait_sub _ => 1
  | _ => 0
  end.

Lemma step_units t e s l s' l' :
  -1 <= value s <= INT_MAX → point_ok (at_ l) → step t e s l = Some (s', l') →
  -1 <= value s' <= INT_MAX ∧ point_ok (at_ l')
  ∧ Z.max 0 (value s') - Z.max 0 (value s) = (gave l' - gave l) - (took l' - took l)
  ∧ waiters s' - waiters s = counted l' - counted l.
Proof.
  intros Hv Hp. destruct l as [p r g k]. unfold step. cbn [at_] in *.
  destruct p; destruct e as [|c| |]; try done; cbn; intros Hs;
    repeat match type of Hs with
    | context [match ?c with Post => _ | Trywait => _ | Wait => _ end] => destruct c; cbn in Hs
    | context [wait_new ?x] => unfold wait_new in Hs
    | context [match ?r with Some _ => _ | None => _ end] => destruct r as [[]|]; cbn in Hs
    | context [if ?b then _ else _] => destruct b eqn:?; cbn in Hs
    end; try done; injection Hs as <- <-; unfold counted, wait_new; cbn in *; unfold INT_MAX in *; b2p;
    repeat case_match; b2p; split_and!; try done; lia.
Qed.

(** What holds of every reachable state, [v] being the value at first. *)
Record sem_ok (v : Z) (c : config sem thread) : Prop := {
  ok_value : -1 <= value (shared c) <= INT_MAX;
  ok_points : every (λ _ l, point_ok (at_ l)) c;
  ok_units : Z.max 0 (value (shared c)) + total took c = v + total gave c;
  ok_waiters : waiters (shared c) = total counted c
}.

Lemma sem_step v t e c c' : sem_ok v c → cstep step t e c = Some c' → sem_ok v c'.
Proof.
  intros [H1 H2 H3 H4] Hc. destruct (cstep_inv _ _ _ _ _ Hc) as (l & l' & Hl & Hs & Ht).
  destruct (step_units _ _ _ _ _ _ H1 (H2 _ _ Hl) Hs) as (U1 & U2 & U3 & U4). split; [done| | |].
  - eapply every_update; [exact Ht|done|]. intros u lu _. apply H2.
  - rewrite (total_update took t l l' c c' Hl Ht), (total_update gave t l l' c c' Hl Ht). lia.
  - rewrite (total_update counted t l l' c c' Hl Ht). lia.
Qed.

Lemma sem_initial v n : 0 <= v <= INT_MAX → sem_ok v (initial v n).
Proof.
  intros Hv. assert (H : ∀ t l, threads (initial v n) !! t = Some l → l = idle).
  { intros t l Hl. apply elem_of_list_to_map_2, list_elem_of_fmap in Hl as (u & [= -> ->] & _). done. }
  split; [cbn; lia|intros t l ->%H; done|..].
  - rewrite !total_zero by (intros t l ->%H; done). cbn. lia.
  - by rewrite total_zero by (intros t l ->%H; done).
Qed.

(** C9.  A semaphore keeps its units.  In every state that threads can reach from a
    semaphore of value [v] by posting, waiting and trying, with signals and
    timeouts, the value [sem_getvalue] gives is [v] plus the posts less the waits
    that succeeded, which therefore never exceed what was there; it stays in the
    range of [int], and [waiters] is the number of threads that wait. *)
Theorem sem_conserves v n c :
  0 <= v <= INT_MAX → reachable step (initial v n) c →
  sem_getvalue (shared c) = v + total gave c - total took c ∧ 0 <= sem_getvalue (shared c) <= INT_MAX
  ∧ waiters (shared c) = total counted c.
Proof.
  intros Hv Hr. assert (H : sem_ok v c).
  { apply (invariant_reachable step (sem_ok v) (initial v n)); [by apply sem_initial| |done].
    intros c1 t e c2 H1 Hc. by eapply sem_step. }
  destruct H as [H1 _ H3 H4]. unfold sem_getvalue. destruct (Z.eqb_spec (value (shared c)) (-1)); split_and!; lia.
Qed.

(** ** Lost wakeups *)

Definition go (t n : nat) : list (nat * event) := replicate n (t, Go).

(** Thread 2 reads the value 0 and that nobody waits; 0 and 1 go to sleep; 3 posts
    and wakes 0, which takes the unit; then 2 exchanges 0 for 1 and, having seen
    no waiters, wakes nobody. *)
Definition stale_schedule : list (nat * event) :=
  (2%nat, Call Post) :: go 2 2 ++ (0%nat, Call Wait) :: go 0 5 ++ (1%nat, Call Wait) :: go 1 4 ++
  (3%nat, Call Post) :: go 3 4 ++ go 0 4 ++ go 2 1.

(** A thread sleeps though there is a unit, and all others are done. *)
Definition stranded (c : config sem thread) (t : nat) : Prop :=
  0 < value (shared c) ∧ at_ <$> threads c !! t = Some wait_sleep ∧ asleep t (queue (shared c))
  ∧ every (λ u l, u ≠ t → at_ l = outside) c.

#[export] Instance point_eq_dec : EqDecision point.
Proof. solve_decision. Defined.

#[export] Instance stranded_dec c t : Decision (stranded c t).
Proof. unfold stranded. apply _. Defined.

(** C10.  A wakeup can be lost.  From a semaphore of value 0 and four threads a
    state is reachable in which the value is positive, a thread sleeps in
    [sem_wait], and the others have all returned: [sem_post] reads the number of
    waiters before it exchanges the value, and the value may have gone to -1 and
    back in between. *)
Theorem sem_post_loses_wakeup : ∃ c, reachable step (initial 0 4) c ∧ stranded c 1.
Proof.
  destruct (run_witness step (λ c, stranded c 1) stale_schedule (initial 0 4)) as (c & Hr & Hs); [vm_compute; reflexivity|].
  exists c. split; [by apply (run_reachable step stale_schedule)|done].
Qed.

(** Two posts while two threads sleep: both find thread 0 at the head of the
    queue, which was woken but did not run yet. *)
Definition twice_schedule : list (nat * event) :=
  (0%nat, Call Wait) :: go 0 5 ++ (1%nat, Call Wait) :: go 1 4 ++
  (2%nat, Call Post) :: go 2 4 ++ (3%nat, Call Post) :: go 3 4 ++ go 0 4.

Example futex_wakes_twice : ∃ c, reachable step (initial 0 4) c ∧ stranded c 1.
Proof.
  destruct (run_witness step (λ c, stranded c 1) twice_schedule (initial 0 4)) as (c & Hr & Hs); [vm_compute; reflexivity|].
  exists c. split; [by apply (run_reachable step twice_schedule)|done].
Qed.

Lemma sem_conserves_witness :
  ∃ c, run step stale_schedule (initial 0 4) = Some c
    ∧ sem_getvalue (shared c) = 0 + total gave c - total took c ∧ 0 <= sem_getvalue (shared c) <= INT_MAX
    ∧ waiters (shared c) = total counted c.
Proof.
  destruct (run step stale_schedule (initial 0 4)) as [c|] eqn:E; [|vm_compute in E; discriminate E].
  exists c. split; [reflexivity|]. apply (sem_conserves 0 4 c); [unfold INT_MAX; lia|].
  exact (run_reachable step stale_schedule (initial 0 4) c E).
Defined.

End Semaphore.
