(* ===== verification/Cond.v ===== *)
(** * Condition variables

    [pthread_cond_clockwait.c], [pthread_cond_signal.c] and
    [pthread_cond_broadcast.c] of [pthread], run by any number of threads, with
    signals and timeouts.  A waiting thread links an element on its own stack
    into a list that others change; the element is gone when the thread returns.
    The locks are those of [MutexSpec]: taken when free, by one thread at a time.

    A stretch of code that holds [cond->lock] is one step as far as it touches
    only what that lock protects; the accesses to [woken], which the waiter
    reads without the lock, are steps of their own. *)

From S2P Require Import Prelude Sched.
From stdpp Require Import base list gmap relations.
From Stdlib Require Import ZArith Lia.
Import Sched.

Module Cond.

(** [struct pthread_cond_elem]; an element is named by the thread whose stack it
    is on. *)
Record elem := { next : option nat; prev : option nat; woken : bool }.

(** [pthread_cond_t], the elements there are, the caller's mutex, and the futexes
    at the fields [woken], at each of which only the owner of the element waits.
    [fault] records an access to an element that is gone. *)
Record cond := {
  lock : option nat;
  first : option nat;
  last_ : option nat;
  elems : gmap nat elem;
  queue : futex;
  mutex : option nat;
  fault : bool
}.

Definition set_lock (h : option nat) (s : cond) : cond :=
  {| lock := h; first := first s; last_ := last_ s; elems := elems s; queue := queue s; mutex := mutex s; fault := fault s |}.
Definition set_first (x : option nat) (s : cond) : cond :=
  {| lock := lock s; first := x; last_ := last_ s; elems := elems s; queue := queue s; mutex := mutex s; fault := fault s |}.
Definition set_last (x : option nat) (s : cond) : cond :=
  {| lock := lock s; first := first s; last_ := x; elems := elems s; queue := queue s; mutex := mutex s; fault := fault s |}.
Definition set_elems (m : gmap nat elem) (s : cond) : cond :=
  {| lock := lock s; first := first s; last_ := last_ s; elems := m; queue := queue s; mutex := mutex s; fault := fault s |}.
Definition set_queue (q : futex) (s : cond) : cond :=
  {| lock := lock s; first := first s; last_ := last_ s; elems := elems s; queue := q; mutex := mutex s; fault := fault s |}.
Definition set_mutex (h : option nat) (s : cond) : cond :=
  {| lock := lock s; first := first s; last_ := last_ s; elems := elems s; queue := queue s; mutex := h; fault := fault s |}.
Definition set_fault (s : cond) : cond :=
  {| lock := lock s; first := first s; last_ := last_ s; elems := elems s; queue := queue s; mutex := mutex s; fault := true |}.

(** Writes to the element of [u]. *)
Definition poke (u : nat) (f : elem → elem) (s : cond) : cond :=
  match elems s !! u with
  | Some e => set_elems (<[u := f e]> (elems s)) s
  | None => set_fault s
  end.

Definition with_next (x : option nat) (e : elem) : elem := {| next := x; prev := prev e; woken := woken e |}.
Definition with_prev (x : option nat) (e : elem) : elem := {| next := next e; prev := x; woken := woken e |}.
Definition with_woken (e : elem) : elem := {| next := next e; prev := prev e; woken := true |}.

(** ** The list *)

(** The element of [t] goes to the end. *)
Definition link (t : nat) (s : cond) : cond :=
  let s := set_elems (<[t := {| next := None; prev := last_ s; woken := false |}]> (elems s)) s in
  let s := match last_ s with Some u => poke u (with_next (Some t)) s | None => s end in
  let s := match first s with None => set_first (Some t) s | Some _ => s end in
  set_last (Some t) s.

(** [if ( elem.next ) elem.next->prev = elem.prev; else cond->last = elem.prev]. *)
Definition detach_next (e : elem) (s : cond) : cond :=
  match next e with Some v => poke v (with_prev (prev e)) s | None => set_last (prev e) s end.

Definition detach_prev (e : elem) (s : cond) : cond :=
  match prev e with Some u => poke u (with_next (next e)) s | None => set_first (next e) s end.

(** The element of [t] leaves the list, unless somebody took it off. *)
Definition unlink (t : nat) (s : cond) : cond :=
  match elems s !! t with
  | None => set_fault s
  | Some e => if woken e then s else detach_prev e (detach_next e s)
  end.

(** The first element leaves the list. *)
Definition take_first (u : nat) (s : cond) : cond :=
  match elems s !! u with
  | None => set_fault s
  | Some e => poke u (λ e, with_prev None (with_next None e)) (set_first (next e) (detach_next e s))
  end.

(** ** Threads *)

Inductive point :=
  | outside
  | wait_lock
  | wait_link
  | wait_unlock
  | wait_release
  | wait_load
  | wait_enter
  | wait_compare
  | wait_sleep
  | wait_reacquire (result : option errno)
  | wait_relock (result : option errno)
  | wait_unlink (result : option errno)
  | wait_return (result : option errno)
  | wake_lock (all : bool)
  | wake_take (all : bool)
  | wake_store (all : bool) (u : nat)
  | wake_futex (all : bool) (u : nat)
  | wake_unlock.

Inductive call := Acquire | Release | Wait | Signal_one | Broadcast.

Abbreviation event := (Sched.event call).

Record thread := { at_ : point; result : option errno }.

Definition goto (p : point) (l : thread) : thread := {| at_ := p; result := result l |}.
Definition return_ (r : option errno) : thread := {| at_ := outside; result := r |}.

(** After [futex] in the loop of [pthread_cond_clockwait]. *)
Definition futex_result (r : option errno) : point :=
  match r with
  | None | Some EAGAIN => wait_reacquire None
  | Some EINTR => wait_load
  | Some e => wait_reacquire (Some e)
  end.

Definition pthread_cond_clockwait (t : nat) (e : event) (s : cond) (l : thread) : option (cond * thread) :=
  match at_ l, e with
  | wait_lock, Go => match lock s with None => Some (set_lock (Some t) s, goto wait_link l) | Some _ => None end
  | wait_link, Go => Some (link t s, goto wait_unlock l)
  | wait_unlock, Go => Some (set_lock None s, goto wait_release l)
  | wait_release, Go => Some (set_mutex None s, goto wait_load l)
  | wait_load, Go =>
      match elems s !! t with
      | Some e => Some (s, goto (if woken e then wait_reacquire None else wait_enter) l)
      | None => Some (set_fault s, goto wait_enter l)
      end
  | wait_enter, Go => Some (set_queue (futex_enter t (queue s)) s, goto wait_compare l)
  | wait_compare, Go =>
      match elems s !! t with
      | Some e => if woken e then Some (set_queue (futex_leave t (queue s)) s, goto (futex_result (Some EAGAIN)) l)
                  else Some (s, goto wait_sleep l)
      | None => Some (set_fault s, goto wait_sleep l)
      end
  | wait_sleep, Go =>
      if futex_woken t (queue s) then Some (set_queue (futex_leave t (queue s)) s, goto (futex_result None) l) else None
  | wait_sleep, Signal =>
      if futex_woken t (queue s) then None
      else Some (set_queue (futex_leave t (queue s)) s, goto (futex_result (Some EINTR)) l)
  | wait_sleep, Timeout =>
      if futex_woken t (queue s) then None
      else Some (set_queue (futex_leave t (queue s)) s, goto (futex_result (Some ETIMEDOUT)) l)
  | wait_reacquire r, Go =>
      match mutex s with None => Some (set_mutex (Some t) s, goto (wait_relock r) l) | Some _ => None end
  | wait_relock r, Go => match lock s with None => Some (set_lock (Some t) s, goto (wait_unlink r) l) | Some _ => None end
  | wait_unlink r, Go => Some (unlink t s, goto (wait_return r) l)
  | wait_return r, Go => Some (set_elems (delete t (elems s)) (set_lock None s), return_ r)
  | _, _ => None
  end.

(** [pthread_cond_signal], and [pthread_cond_broadcast], which goes round. *)
Definition pthread_cond_wake (t : nat) (e : event) (s : cond) (l : thread) : option (cond * thread) :=
  match at_ l, e with
  | wake_lock all, Go => match lock s with None => Some (set_lock (Some t) s, goto (wake_take all) l) | Some _ => None end
  | wake_take all, Go =>
      match first s with
      | Some u => Some (take_first u s, goto (wake_store all u) l)
      | None => Some (s, goto wake_unlock l)
      end
  | wake_store all u, Go => Some (poke u with_woken s, goto (wake_futex all u) l)
  | wake_futex all u, Go =>
      Some (set_queue (futex_wake_thread u (queue s)) s, goto (if all then wake_take true else wake_unlock) l)
  | wake_unlock, Go => Some (set_lock None s, return_ None)
  | _, _ => None
  end.

(** A caller waits and lets go only with the mutex. *)
Definition start (t : nat) (c : call) (s : cond) (l : thread) : option (cond * thread) :=
  match c with
  | Acquire => match mutex s with None => Some (set_mutex (Some t) s, l) | Some _ => None end
  | Release => if decide (mutex s = Some t) then Some (set_mutex None s, l) else None
  | Wait => if decide (mutex s = Some t) then Some (s, goto wait_lock l) else None
  | Signal_one => Some (s, goto (wake_lock false) l)
  | Broadcast => Some (s, goto (wake_lock true) l)
  end.

Definition step (t : nat) (e : event) (s : cond) (l : thread) : option (cond * thread) :=
  match at_ l, e with
  | outside, Call c => start t c s l
  | (wake_lock _ | wake_take _ | wake_store _ _ | wake_futex _ _ | wake_unlock), _ => pthread_cond_wake t e s l
  | _, _ => pthread_cond_clockwait t e s l
  end.

Definition initial (n : nat) : config cond thread :=
  {| shared := {| lock := None; first := None; last_ := None; elems := ∅; queue := []; mutex := None; fault := false |};
     threads := list_to_map ((λ t, (t, return_ None)) <$> seq 0 n) |}.

End Cond.
