(* ===== verification/CondSpec.v ===== *)
(** * What a condition variable promises

    The list of elements is a queue of the waiting threads, which [signal] serves
    in order; no element is used after its thread has returned; a thread that
    was served does not stay asleep. *)

From S2P Require Import Prelude Sched Cond.
From stdpp Require Import base list gmap relations.
From Stdlib Require Import ZArith Lia.
Import Sched Cond.

Module CondSpec.

(** ** Doubly linked segments *)

Definition hd (n : option nat) (q : list nat) : option nat := match q with [] => n | t :: _ => Some t end.

Fixpoint lst (p : option nat) (q : list nat) : option nat := match q with [] => p | t :: q => lst (Some t) q end.

(** The elements of [q], linked, between [p] and [n]. *)
Fixpoint seg (m : gmap nat elem) (p : option nat) (q : list nat) (n : option nat) : Prop :=
  match q with
  | [] => True
  | t :: q => m !! t = Some {| next := hd n q; prev := p; woken := false |} ∧ seg m (Some t) q n
  end.

Lemma lst_app p q1 q2 : lst p (q1 ++ q2) = lst (lst p q1) q2.
Proof. revert p. induction q1; intros p; cbn; auto. Qed.

Lemma hd_app n q1 q2 : hd n (q1 ++ q2) = hd (hd n q2) q1.
Proof. by destruct q1. Qed.

Lemma links_app m p q1 q2 n : seg m p (q1 ++ q2) n ↔ seg m p q1 (hd n q2) ∧ seg m (lst p q1) q2 n.
Proof.
  revert p. induction q1 as [|t q1 IH]; intros p; cbn [app seg lst]; [by intuition|]. rewrite IH, hd_app. tauto.
Qed.

Lemma seg_agree m m' p q n : (∀ t, t ∈ q → m' !! t = m !! t) → seg m p q n → seg m' p q n.
Proof.
  revert p. induction q as [|t q IH]; intros p Ha; cbn [seg]; [done|]. intros [H1 H2]. split.
  - rewrite Ha by (by left). done.
  - apply IH; [|done]. intros u Hu. apply Ha. by right.
Qed.

Lemma seg_in m p q n t : seg m p q n → t ∈ q → ∃ e, m !! t = Some e ∧ woken e = false.
Proof.
  revert p. induction q as [|u q IH]; intros p; cbn [seg]; [by intros _ ?%not_elem_of_nil|].
  intros [H1 H2] [->|Hin]%elem_of_cons; [by eexists|by eapply IH].
Qed.

(** Another successor for the last element. *)
Lemma seg_next m p q u n n' e :
  u ∉ q → m !! u = Some e → seg m p (q ++ [u]) n → seg (<[u := with_next n' e]> m) p (q ++ [u]) n'.
Proof.
  intros Hu He. rewrite !links_app. cbn [seg hd]. intros (H1 & H2 & _). split_and!; [| |done].
  - eapply seg_agree; [|exact H1]. intros t Ht. apply lookup_insert_ne. by intros ->.
  - rewrite lookup_insert_eq. rewrite He in H2. by injection H2 as ->.
Qed.

(** Another predecessor for the first. *)
Lemma seg_prev m p p' v q n e :
  v ∉ q → m !! v = Some e → seg m p (v :: q) n → seg (<[v := with_prev p' e]> m) p' (v :: q) n.
Proof.
  intros Hv He. cbn [seg]. intros [H1 H2]. rewrite He in H1. injection H1 as ->. split.
  - by rewrite lookup_insert_eq.
  - eapply seg_agree; [|exact H2]. intros t Ht. apply lookup_insert_ne. by intros ->.
Qed.

(** ** The list of a condition variable *)

Record list_ok (s : cond) (q : list nat) : Prop := {
  list_seg : seg (elems s) None q None;
  list_nodup : NoDup q;
  list_first : first s = hd None q;
  list_last : last_ s = lst None q
}.

(** Only the list changes, and no flag. *)
Definition relinked (s s' : cond) : Prop :=
  lock s' = lock s ∧ queue s' = queue s ∧ mutex s' = mutex s ∧ fault s' = fault s
  ∧ ∀ t, woken <$> elems s' !! t = woken <$> elems s !! t.

Lemma relinked_trans s1 s2 s3 : relinked s1 s2 → relinked s2 s3 → relinked s1 s3.
Proof. intros (A1 & A2 & A3 & A4 & A5) (B1 & B2 & B3 & B4 & B5). split_and!; congruence. Qed.

Lemma poke_run u f s e : elems s !! u = Some e → poke u f s = set_elems (<[u := f e]> (elems s)) s.
Proof. unfold poke. by intros ->. Qed.

Lemma poke_relinked u f s e :
  elems s !! u = Some e → woken (f e) = woken e → relinked s (poke u f s).
Proof.
  intros He Hf. rewrite (poke_run u f s e He). split_and!; try done. intros t. cbn.
  destruct (decide (t = u)) as [->|Hne]; [by rewrite lookup_insert_eq, He; cbn; rewrite Hf|by rewrite lookup_insert_ne].
Qed.

Lemma set_first_relinked x s : relinked s (set_first x s).
Proof. by split_and!. Qed.

Lemma set_last_relinked x s : relinked s (set_last x s).
Proof. by split_and!. Qed.

Lemma lst_snoc p q u : lst p (q ++ [u]) = Some u.
Proof. by rewrite lst_app. Qed.

Lemma link_ok s q t :
  list_ok s q → t ∉ q →
  list_ok (link t s) (q ++ [t]) ∧ lock (link t s) = lock s ∧ queue (link t s) = queue s ∧ mutex (link t s) = mutex s
  ∧ fault (link t s) = fault s ∧ woken <$> elems (link t s) !! t = Some false
  ∧ ∀ u, u ≠ t → woken <$> elems (link t s) !! u = woken <$> elems s !! u.
Proof.
  intros [Hs Hn Hf Hl] Ht. set (e := {| next := None; prev := last_ s; woken := false |}).
  assert (Hs1 : seg (<[t := e]> (elems s)) None q None).
  { eapply seg_agree; [|exact Hs]. intros u Hu. apply lookup_insert_ne. by intros ->. }
  assert (Hn' : NoDup (q ++ [t])).
  { apply NoDup_app. split_and!; [done| |apply NoDup_singleton]. intros u Hu ->%list_elem_of_singleton. done. }
  unfold link. cbn [set_elems last_ first]. fold e. rewrite Hl.
  destruct q as [|u q _] using rev_ind; cbn [lst hd].
  - cbn. rewrite Hf. cbn. rewrite lookup_insert_eq. split_and!; try done; [split; try done; cbn; rewrite lookup_insert_eq; split; [by unfold e; rewrite Hl|done]|].
    intros v Hv. by rewrite lookup_insert_ne.
  - rewrite lst_snoc. assert (Hut : u ≠ t) by (intros ->; apply Ht, elem_of_app; right; by left).
    destruct (seg_in _ _ _ _ u Hs1) as (eu & Heu & Hwu); [apply elem_of_app; right; by left|].
    rewrite (poke_run u _ _ eu) by done. cbn [set_elems elems first]. rewrite Hf.
    replace (hd None (q ++ [u])) with (Some (match q with [] => u | x :: _ => x end)) by (by destruct q).
    cbn. rewrite lookup_insert_ne, lookup_insert_eq by done. split_and!; try done.
    + split; cbn; [|done|by destruct q|by rewrite lst_snoc].
      rewrite links_app. cbn [seg hd]. apply NoDup_app in Hn as (_ & Hn & _). split_and!; [|rewrite lookup_insert_ne, lookup_insert_eq by done|done].
      * apply (seg_next _ _ _ _ None); [|done|done]. intros Hin. by apply (Hn u Hin), list_elem_of_singleton.
      * unfold e. by rewrite Hl.
    + intros v Hv. destruct (decide (v = u)) as [->|Hvu].
      * rewrite lookup_insert_eq. rewrite lookup_insert_ne in Heu by done. by rewrite Heu.
      * by rewrite !lookup_insert_ne.
Qed.

(** The two halves of taking an element out from between [q1] and [q2]. *)
Lemma detach_next_ok s e q1 n p q2 :
  seg (elems s) None q1 n → seg (elems s) p q2 None → NoDup (q1 ++ q2) → next e = hd None q2 →
  (q2 ≠ [] → last_ s = lst p q2) →
  let s' := detach_next e s in
  seg (elems s') None q1 n ∧ seg (elems s') (prev e) q2 None ∧ last_ s' = lst (prev e) q2 ∧ first s' = first s ∧ relinked s s'.
Proof.
  intros H1 H2 (_ & Hd & Hn2)%NoDup_app He Hl. unfold detach_next. rewrite He. destruct q2 as [|v q2]; cbn [hd].
  { split_and!; [done..|apply set_last_relinked]. }
  apply NoDup_cons in Hn2 as [Hv _]. destruct (seg_in _ _ _ _ v H2) as (ev & Hev & _); [by left|].
  assert (Hr : relinked s (poke v (with_prev (prev e)) s)) by (by apply (poke_relinked _ _ _ ev)).
  rewrite (poke_run v _ s ev Hev) in *. split_and!; [|by apply (seg_prev _ p)|exact (Hl ltac:(done))|done|done].
  eapply seg_agree; [|exact H1]. intros t Ht. cbn. apply lookup_insert_ne. intros ->. apply (Hd t Ht). by left.
Qed.

Lemma detach_prev_ok s e q1 n p q2 :
  seg (elems s) None q1 n → seg (elems s) p q2 None → NoDup (q1 ++ q2) → prev e = lst None q1 →
  (q1 ≠ [] → first s = hd None q1) →
  let s' := detach_prev e s in
  seg (elems s') None q1 (next e) ∧ seg (elems s') p q2 None ∧ first s' = hd (next e) q1 ∧ last_ s' = last_ s ∧ relinked s s'.
Proof.
  intros H1 H2 (Hn1 & Hd & _)%NoDup_app He Hf. unfold detach_prev. rewrite He.
  destruct q1 as [|u q1 _] using rev_ind; [split_and!; [done..|apply set_first_relinked]|]. rewrite lst_snoc.
  apply NoDup_app in Hn1 as (_ & Hn1 & _). destruct (seg_in _ _ _ _ u H1) as (eu & Heu & _); [apply elem_of_app; right; by left|].
  assert (Hr : relinked s (poke u (with_next (next e)) s)) by (by apply (poke_relinked _ _ _ eu)).
  rewrite (poke_run u _ s eu Heu) in *. split_and!; [| | |done|done].
  - apply (seg_next _ _ _ _ n); [|done|done]. intros Hin. by apply (Hn1 u Hin), list_elem_of_singleton.
  - eapply seg_agree; [|exact H2]. intros t Ht. cbn. apply lookup_insert_ne. intros ->. apply (Hd t); [|done].
    apply elem_of_app. right. by left.
  - cbn. rewrite Hf by (by destruct q1). by destruct q1.
Qed.

Lemma unlink_ok s q1 t q2 :
  list_ok s (q1 ++ t :: q2) → list_ok (unlink t s) (q1 ++ q2) ∧ relinked s (unlink t s).
Proof.
  intros [Hs Hn Hf Hl]. apply links_app in Hs as [H1 [He H2]]. cbn [hd] in *.
  assert (Hn' : NoDup (q1 ++ q2)).
  { apply NoDup_app in Hn as (? & Hd & [_ ?]%NoDup_cons). apply NoDup_app. split_and!; [done| |done].
    intros u Hu Hin. apply (Hd u Hu). by right. }
  unfold unlink. rewrite He. cbn [woken]. set (e := {| next := hd None q2; prev := lst None q1; woken := false |}).
  destruct (detach_next_ok s e q1 (Some t) (Some t) q2 H1 H2 Hn' eq_refl) as (A1 & A2 & A3 & A4 & A5).
  { intros _. by rewrite Hl, lst_app. }
  destruct (detach_prev_ok (detach_next e s) e q1 (Some t) (prev e) q2 A1 A2 Hn' eq_refl) as (B1 & B2 & B3 & B4 & B5).
  { intros Hne. rewrite A4, Hf. by destruct q1. }
  split; [|by eapply relinked_trans]. split; [by apply links_app|done|by rewrite B3, hd_app|by rewrite B4, A3, lst_app].
Qed.

Lemma take_first_ok s u q :
  list_ok s (u :: q) → list_ok (take_first u s) q ∧ relinked s (take_first u s).
Proof.
  intros [Hs Hn Hf Hl]. cbn [seg] in Hs. destruct Hs as [He H2]. pose proof Hn as [Hu Hn']%NoDup_cons.
  unfold take_first. rewrite He. set (e := {| next := hd None q; prev := None; woken := false |}).
  destruct (detach_next_ok s e [] None (Some u) q I H2 Hn' eq_refl) as (_ & A2 & A3 & A4 & A5); [by intros _; rewrite Hl|].
  assert (Hr : relinked s (set_first (next e) (detach_next e s))) by (eapply relinked_trans; [exact A5|apply set_first_relinked]).
  set (s1 := set_first (next e) (detach_next e s)) in *.
  destruct (elems s1 !! u) as [e1|] eqn:E1.
  2: { pose proof Hr as (_ & _ & _ & _ & Hw). specialize (Hw u). by rewrite E1, He in Hw. }
  assert (Hp : relinked s1 (poke u (λ e, with_prev None (with_next None e)) s1)) by (by apply (poke_relinked _ _ _ e1)).
  split; [|by eapply relinked_trans]. rewrite (poke_run u _ s1 e1 E1). split; [|done|done|exact A3].
  eapply seg_agree; [|exact A2]. intros t Ht. cbn. apply lookup_insert_ne. by intros ->.
Qed.

(** ** The invariant *)

(** Where the thread holds [cond->lock]. *)
Definition locked (p : point) : bool :=
  match p with
  | wait_link | wait_unlock | wait_unlink _ | wait_return _ | wake_take _ | wake_store _ _ | wake_futex _ _ | wake_unlock => true
  | _ => false
  end.

(** Where its element is in use. *)
Definition live (p : point) : bool :=
  match p with
  | wait_unlock | wait_release | wait_load | wait_enter | wait_compare | wait_sleep
  | wait_reacquire _ | wait_relock _ | wait_unlink _ | wait_return _ => true
  | _ => false
  end.

(** Where it holds the caller's mutex. *)
Definition owning (p : point) : bool :=
  match p with
  | wait_lock | wait_link | wait_unlock | wait_release | wait_relock _ | wait_unlink _ | wait_return _ => true
  | _ => false
  end.

Definition returning (p : point) : bool := match p with wait_return _ => true | _ => false end.

Definition in_futex (p : point) : bool := match p with wait_compare | wait_sleep => true | _ => false end.

(** The thread taken off the list whose flag is to be set, and the one that is to
    be woken. *)
Definition stage (p : point) : option nat * option nat :=
  match p with
  | wake_store _ u => (Some u, None)
  | wake_futex _ u => (None, Some u)
  | _ => (None, None)
  end.

Record thread_ok (s : cond) (q : list nat) (owed due : option nat) (t : nat) (l : thread) : Prop := {
  ok_lock : lock s = Some t ↔ locked (at_ l) = true;
  ok_own : owning (at_ l) = true → mutex s = Some t;
  ok_stage : locked (at_ l) = true → (owed, due) = stage (at_ l);
  ok_live : live (at_ l) = true → ∃ b, woken <$> elems s !! t = Some b
    ∧ (returning (at_ l) = false → b = false ↔ t ∈ q ∨ owed = Some t);
  ok_dead : live (at_ l) = false → elems s !! t = None ∧ (t ∉ q) ∧ owed ≠ Some t ∧ due ≠ Some t;
  ok_return : returning (at_ l) = true → t ∉ q;
  ok_waits : waits t (queue s) ↔ in_futex (at_ l) = true;
  ok_sleep : at_ l = wait_sleep → asleep t (queue s) → woken <$> elems s !! t = Some true → due = Some t
}.

Record cond_ok (s : cond) (q : list nat) (owed due : option nat) : Prop := {
  ok_list : list_ok s q;
  ok_fault : fault s = false;
  ok_free : lock s = None → owed = None ∧ due = None;
  ok_owed u : owed = Some u → (u ∉ q) ∧ woken <$> elems s !! u = Some false
}.

(** What a step of another thread may do to a thread: nothing, or set its flag. *)
Lemma waiter_ok_frame s q owed due s' q' owed' due' u l :
  thread_ok s q owed due u l →
  (lock s' = Some u ↔ lock s = Some u) → (mutex s = Some u → mutex s' = Some u) →
  (lock s = Some u → owed' = owed ∧ due' = due) →
  (woken <$> elems s' !! u = woken <$> elems s !! u ∧ (u ∈ q' ↔ u ∈ q) ∧ (owed' = Some u ↔ owed = Some u)
   ∨ woken <$> elems s !! u = Some false ∧ woken <$> elems s' !! u = Some true ∧ (u ∉ q') ∧ owed' ≠ Some u ∧ due' = Some u
   ∨ woken <$> elems s' !! u = woken <$> elems s !! u ∧ u ∈ q ∧ (u ∉ q') ∧ owed' = Some u ∧ due' = due) →
  (waits u (queue s') ↔ waits u (queue s)) → (asleep u (queue s') → asleep u (queue s)) →
  (due = Some u → asleep u (queue s') → due' = Some u) → (due ≠ Some u → due' = Some u → is_Some (elems s !! u)) →
  thread_ok s' q' owed' due' u l.
Proof.
  intros [T1 T2 T3 T4 T5 T6 T7 T8] Hl Hm Hst Hel Hw Ha Hd Hd'.
  split; rewrite ?Hl, ?Hw; auto.
  - intros H. destruct Hst as [-> ->]; auto. by apply T1.
  - intros H. destruct (T4 H) as (b & Hb & Hq). destruct Hel as [(E & Eq & Eo)|[(E1 & E2 & E3 & E4 & E5)|(E & E1 & E2 & E3 & E4)]].
    + exists b. rewrite E. split; [done|]. by rewrite Eq, Eo.
    + exists true. split; [done|]. intros _. split; [done|]. by intros [?|?].
    + exists b. rewrite E. split; [done|]. intros Hr. rewrite (Hq Hr). split; auto.
  - intros H. destruct (T5 H) as (Hn & H1 & H2 & H3). rewrite Hn in Hel. destruct Hel as [(E & Eq & Eo)|[(E1 & _)|(_ & E1 & _)]]; [|done|done].
    rewrite Eq, Eo. split_and!; [|done|done|].
    + by destruct (elems s' !! u).
    + intros H4. destruct (Hd' H3 H4) as [? ?]. congruence.
  - intros H. assert (Hlk : lock s = Some u) by (apply T1; destruct (at_ l); done). specialize (T6 H).
    destruct (Hst Hlk) as [-> ->]. destruct Hel as [(_ & Eq & _)|[(_ & _ & E & _)|(_ & E & _)]]; [by rewrite Eq|done|done].
  - intros H1 H2 H3. destruct (decide (due = Some u)) as [Hdu|Hdu]; [by apply Hd|].
    destruct Hel as [(E & _)|[(_ & _ & _ & _ & E)|(E & _)]]; [|done|]; exfalso; apply Hdu, T8; auto; by rewrite <- E.
Qed.

(** The fields of a state after a step. *)
Ltac fields :=
  cbn [at_ result goto return_ futex_result locked live owning returning in_futex stage
       lock first last_ elems queue mutex fault set_lock set_first set_last set_elems set_queue set_mutex set_fault] in *.

Ltac easy_case := solve [intuition (first [done | congruence])].

(** A list that does not depend on what changed. *)
Lemma list_ok_same s s' q : list_ok s q → elems s' = elems s → first s' = first s → last_ s' = last_ s → list_ok s' q.
Proof. intros [] He Hf Hl. split; by rewrite ?He, ?Hf, ?Hl. Qed.

(** What a step of [t] does to the queue. *)
Inductive qstep (t : nat) : list nat → list nat → Prop :=
  | q_same q : qstep t q q
  | q_wait q : qstep t q (q ++ [t])
  | q_serve u q : qstep t (u :: q) q
  | q_leave q1 q2 : qstep t (q1 ++ t :: q2) (q1 ++ q2).

(** What the proof of a step has to show, with the list and the stage after it. *)
Definition kept (s : cond) (q : list nat) (owed due : option nat) (t : nat) (s' : cond) (l' : thread)
    (q' : list nat) (owed' due' : option nat) : Prop :=
  cond_ok s' q' owed' due' ∧ thread_ok s' q' owed' due' t l'
  ∧ (∀ u lu, u ≠ t → thread_ok s q owed due u lu → thread_ok s' q' owed' due' u lu)
  ∧ qstep t q q'.

(** A step that changes neither the list nor the elements, nor what is owed. *)
Lemma kept_same s q owed due t s' l' :
  cond_ok s q owed due → elems s' = elems s → first s' = first s → last_ s' = last_ s → fault s' = fault s →
  (lock s' = lock s ∨ lock s = None ∧ lock s' = Some t ∨ lock s = Some t ∧ lock s' = None ∧ owed = None ∧ due = None) →
  (mutex s' = mutex s ∨ mutex s = None ∨ mutex s = Some t) →
  (∀ u, u ≠ t → waits u (queue s') ↔ waits u (queue s)) → (∀ u, u ≠ t → asleep u (queue s') ↔ asleep u (queue s)) →
  thread_ok s' q owed due t l' → kept s q owed due t s' l' q owed due.
Proof.
  intros [C1 C2 C3 C4] He Hf Hla Hfa Hlk Hm Hw Ha T. split_and!; [split|done| |apply q_same].
  - by eapply list_ok_same.
  - congruence.
  - intros H. destruct Hlk as [Hk|[[_ Hk]|(_ & _ & ?)]]; [apply C3; congruence|congruence|done].
  - rewrite He. done.
  - intros u lu Hne Hu. eapply waiter_ok_frame; [exact Hu|..]; rewrite ?He; auto.
    + destruct Hlk as [->|[[-> ->]|(-> & -> & _)]]; [done|split; congruence|split; congruence].
    + destruct Hm as [->|[->| ->]]; congruence.
    + by apply Ha.
    + intros H1 H2. done.
Qed.

(** Steps that leave the list, the elements and the stage alone. *)
Ltac same_case :=
  eapply kept_same; try done; try easy_case;
  try (intros; fields; rewrite ?waits_enter, ?waits_leave, ?asleep_enter, ?asleep_leave; easy_case);
  split; fields; rewrite ?waits_enter, ?waits_leave; try done; try easy_case.

(** The step that changes the list by its own element, or takes the first. *)
Lemma kept_link s q t s' l' :
  cond_ok s q None None → (t ∉ q) → lock s = Some t → s' = link t s →
  (list_ok s' (q ++ [t]) → woken <$> elems s' !! t = Some false → mutex s' = mutex s → lock s' = lock s → queue s' = queue s →
    thread_ok s' (q ++ [t]) None None t l') →
  kept s q None None t s' l' (q ++ [t]) None None.
Proof.
  intros [C1 C2 C3 C4] Ht Hlk -> T. destruct (link_ok s q t C1 Ht) as (L1 & L2 & L3 & L4 & L5 & L6 & L7).
  split_and!; [split; [done|congruence|congruence|done]|by apply T| |apply q_wait].
  intros u lu Hne Hu. eapply waiter_ok_frame; [exact Hu|..]; rewrite ?L2, ?L3, ?L4; auto; try done.
  left. split_and!; [by apply L7| |done]. rewrite elem_of_app, list_elem_of_singleton. easy_case.
Qed.

Lemma kept_unlink s q t s' l' :
  cond_ok s q None None → t ∈ q → lock s = Some t → s' = unlink t s →
  (∀ q', list_ok s' q' → (t ∉ q') → relinked s s' → thread_ok s' q' None None t l') →
  ∃ q', kept s q None None t s' l' q' None None.
Proof.
  intros [C1 C2 C3 C4] Ht Hlk -> T. apply list_elem_of_split in Ht as (q1 & q2 & ->).
  destruct (unlink_ok s q1 t q2 C1) as [L R]. pose proof R as (R1 & R2 & R3 & R4 & R5).
  pose proof (list_nodup _ _ C1) as Hn. assert (Ht : t ∉ q1 ++ q2).
  { apply NoDup_app in Hn as (_ & Hd & [Ht _]%NoDup_cons). intros [H|H]%elem_of_app; [|done]. apply (Hd t H). by left. }
  exists (q1 ++ q2). split_and!; [split; [done|congruence|congruence|done]|by apply T| |apply q_leave].
  intros u lu Hne Hu. eapply waiter_ok_frame; [exact Hu|..]; rewrite ?R1, ?R2, ?R3; auto; try done.
  left. split_and!; [by apply R5| |done]. rewrite !elem_of_app, elem_of_cons. easy_case.
Qed.

Lemma kept_return s q t l' :
  cond_ok s q None None → (t ∉ q) → lock s = Some t →
  let s' := set_elems (delete t (elems s)) (set_lock None s) in
  thread_ok s' q None None t l' → kept s q None None t s' l' q None None.
Proof.
  intros [[Q1 Q2 Q3 Q4] C2 C3 C4] Ht Hlk s' T. split_and!; [split; [split|..]| | |apply q_same]; try done.
  - eapply seg_agree; [|exact Q1]. intros u Hu. cbn. apply lookup_delete_ne. by intros <-.
  - intros u lu Hne Hu. eapply waiter_ok_frame; [exact Hu|..]; try done.
    + split; cbn; congruence.
    + left. cbn. by rewrite lookup_delete_ne.
Qed.

Lemma clockwait_ok t e s q owed due l s' l' :
  cond_ok s q owed due → thread_ok s q owed due t l → pthread_cond_clockwait t e s l = Some (s', l') →
  ∃ q' owed' due', kept s q owed due t s' l' q' owed' due'.
Proof.
  intros C [T1 T2 T3 T4 T5 T6 T7 T8] Hs. destruct l as [p r]. unfold pthread_cond_clockwait in Hs.
  destruct p; destruct e as [|c| |]; try done; fields.
  - destruct (lock s) eqn:El; [done|]. injection Hs as <- <-. destruct (ok_free _ _ _ _ C El) as [-> ->].
    exists q, None, None. same_case.
  - injection Hs as <- <-. specialize (T3 eq_refl). injection T3 as -> ->. destruct (T5 eq_refl) as (H1 & H2 & _).
    assert (Hlk : lock s = Some t) by (by apply T1).
    exists (q ++ [t]), None, None. eapply kept_link; try done. intros L1 L2 L3 L4 L5.
    split; fields; rewrite ?L3, ?L4, ?L5; try done; try easy_case.
    intros _. exists false. split; [done|]. intros _. split; [intros _; left; apply elem_of_app; right; by left|done].
  - injection Hs as <- <-. specialize (T3 eq_refl). injection T3 as -> ->. assert (Hlk : lock s = Some t) by (by apply T1).
    exists q, None, None. same_case.
  - injection Hs as <- <-. exists q, owed, due. same_case.
  - destruct (T4 eq_refl) as (b & Hb & Hq). specialize (Hq eq_refl). destruct (elems s !! t) as [el|] eqn:Ee; [|done]. injection Hs as <- <-.
    exists q, owed, due. destruct (woken el); same_case; by rewrite Ee.
  - injection Hs as <- <-. exists q, owed, due. same_case.
  - destruct (T4 eq_refl) as (b & Hb & Hq). specialize (Hq eq_refl). destruct (elems s !! t) as [el|] eqn:Ee; [|done].
    destruct (woken el) eqn:Ew; injection Hs as <- <-; exists q, owed, due; same_case; rewrite ?Ee; try done.
    cbn. congruence.
  - destruct (futex_woken t (queue s)); [|done]. injection Hs as <- <-. exists q, owed, due. same_case.
  - destruct (futex_woken t (queue s)); [done|]. injection Hs as <- <-. exists q, owed, due. same_case.
  - destruct (futex_woken t (queue s)); [done|]. injection Hs as <- <-. exists q, owed, due. same_case.
  - destruct (mutex s) eqn:Em; [done|]. injection Hs as <- <-. exists q, owed, due. same_case.
  - destruct (lock s) eqn:El; [done|]. injection Hs as <- <-. destruct (ok_free _ _ _ _ C El) as [-> ->].
    exists q, None, None. same_case.
  - injection Hs as <- <-. specialize (T3 eq_refl). injection T3 as -> ->. assert (Hlk : lock s = Some t) by (by apply T1).
    destruct (T4 eq_refl) as (b & Hb & Hq). specialize (Hq eq_refl). destruct (elems s !! t) as [el|] eqn:Ee; [|done]. cbn in Hb. injection Hb as Hb.
    destruct b.
    + exists q, None, None. unfold unlink. rewrite Ee, Hb. same_case.
      intros _. exists true. rewrite Ee. cbn. by rewrite Hb.
    + destruct Hq as [Hq _]. destruct (Hq eq_refl) as [Hin|?]; [|done].
      destruct (kept_unlink s q t (unlink t s) (goto (wait_return result0) {| at_ := wait_unlink result0; result := r |}) C Hin Hlk eq_refl) as [q' K];
        [|by exists q', None, None].
      intros q' L Ht (R1 & R2 & R3 & R4 & R5). split; fields; rewrite ?R1, ?R2, ?R3, ?R5; try done; try easy_case.
      intros _. exists false. rewrite Ee. cbn. by rewrite Hb.
  - injection Hs as <- <-. specialize (T3 eq_refl). injection T3 as -> ->. assert (Hlk : lock s = Some t) by (by apply T1).
    exists q, None, None. apply kept_return; [done|by apply T6|done|]. split; fields; try done; try easy_case.
    intros _. split_and!; [apply lookup_delete_eq|by apply T6|done|done].
Qed.

Lemma kept_take s u q t s' l' :
  cond_ok s (u :: q) None None → lock s = Some t → s' = take_first u s →
  (list_ok s' q → relinked s s' → thread_ok s' q (Some u) None t l') →
  kept s (u :: q) None None t s' l' q (Some u) None.
Proof.
  intros [C1 C2 C3 C4] Hlk -> T. destruct (take_first_ok s u q C1) as [L R]. pose proof R as (R1 & R2 & R3 & R4 & R5).
  pose proof (list_nodup _ _ C1) as [Hu _]%NoDup_cons.
  split_and!; [split; [done|congruence|congruence|]|by apply T| |apply q_serve].
  - intros v [= <-]. destruct (seg_in _ _ _ _ u (list_seg _ _ C1)) as (e & He & Hw); [by left|].
    split; [done|]. by rewrite R5, He, <- Hw.
  - intros v lv Hne Hv. eapply waiter_ok_frame; [exact Hv|..]; rewrite ?R1, ?R2, ?R3; try done; try congruence.
    destruct (decide (v = u)) as [->|Hvu].
    + right. right. split_and!; [by apply R5|by left|done|done|done].
    + left. split_and!; [by apply R5| |split; congruence]. rewrite elem_of_cons. easy_case.
Qed.

Lemma kept_store s u q t s' l' :
  cond_ok s q (Some u) None → lock s = Some t → s' = poke u with_woken s →
  (list_ok s' q → (∀ v, v ≠ u → elems s' !! v = elems s !! v) → lock s' = lock s → mutex s' = mutex s → queue s' = queue s →
    thread_ok s' q None (Some u) t l') →
  kept s q (Some u) None t s' l' q None (Some u).
Proof.
  intros [C1 C2 C3 C4] Hlk -> T. destruct (C4 u eq_refl) as [Hu Hw]. destruct (elems s !! u) as [e|] eqn:He; [|done]. rewrite (poke_run u _ s e He) in *.
  assert (Hel : ∀ v, v ≠ u → <[u := with_woken e]> (elems s) !! v = elems s !! v) by (intros v Hv; by apply lookup_insert_ne).
  assert (L : list_ok (set_elems (<[u := with_woken e]> (elems s)) s) q).
  { destruct C1 as [Q1 Q2 Q3 Q4]. split; try done. eapply seg_agree; [|exact Q1]. intros v Hv. apply Hel. by intros ->. }
  split_and!; [split; [done|done|cbn; congruence|done]|by apply T| |apply q_same].
  intros v lv Hne Hv. eapply waiter_ok_frame; [exact Hv|..]; try done; cbn; try congruence.
  - destruct (decide (v = u)) as [->|Hvu].
    + right. left. rewrite He, lookup_insert_eq. by split_and!.
    + left. rewrite Hel by done. split_and!; [done|done|split; congruence].
  - intros _ [= ->]. by rewrite He.
Qed.

Lemma kept_futex s u q t s' l' :
  cond_ok s q None (Some u) → lock s = Some t → s' = set_queue (futex_wake_thread u (queue s)) s →
  thread_ok s' q None None t l' → kept s q None (Some u) t s' l' q None None.
Proof.
  intros [C1 C2 C3 C4] Hlk -> T. split_and!; [split; [by eapply list_ok_same|done|cbn; congruence|done]|done| |apply q_same].
  intros v lv Hne Hv. eapply waiter_ok_frame; [exact Hv|..]; cbn; try done; try congruence.
  - by left.
  - by rewrite waits_wake_thread.
  - intros H%asleep_wake_thread. by destruct H.
  - intros [= ->] H%asleep_wake_thread. by destruct H.
Qed.

Lemma wake_ok t e s q owed due l s' l' :
  cond_ok s q owed due → thread_ok s q owed due t l → pthread_cond_wake t e s l = Some (s', l') →
  ∃ q' owed' due', kept s q owed due t s' l' q' owed' due'.
Proof.
  intros C [T1 T2 T3 T4 T5 T6 T7 T8] Hs. destruct l as [p r]. unfold pthread_cond_wake in Hs.
  destruct p; destruct e as [|c| |]; try done; fields.
  - destruct (lock s) eqn:El; [done|]. injection Hs as <- <-. destruct (ok_free _ _ _ _ C El) as [-> ->].
    exists q, None, None. same_case.
  - specialize (T3 eq_refl). injection T3 as -> ->. assert (Hlk : lock s = Some t) by (by apply T1).
    pose proof (list_first _ _ (ok_list _ _ _ _ C)) as Hf. destruct q as [|u q]; rewrite Hf in Hs; cbn [hd] in Hs; injection Hs as <- <-.
    { exists [], None, None. same_case. }
    exists q, (Some u), None. apply kept_take; [done..|]. intros L (R1 & R2 & R3 & R4 & R5).
    destruct (T5 eq_refl) as (D1 & D2 & _). apply not_elem_of_cons in D2 as [D2 D3].
    split; fields; rewrite ?R1, ?R2, ?R3; try done; try easy_case. intros _. split_and!; [|done|congruence|done].
    specialize (R5 t). rewrite D1 in R5. by destruct (elems (take_first u s) !! t).
  - specialize (T3 eq_refl). injection T3 as -> ->. assert (Hlk : lock s = Some t) by (by apply T1). injection Hs as <- <-.
    exists q, None, (Some u). apply kept_store; [done..|]. intros L E1 E2 E3 E4. destruct (T5 eq_refl) as (D1 & D2 & D3 & _).
    split; fields; rewrite ?E2, ?E3, ?E4; try done; try easy_case. intros _. split_and!; [|done|done|done].
    rewrite E1; [done|congruence].
  - specialize (T3 eq_refl). injection T3 as -> ->. assert (Hlk : lock s = Some t) by (by apply T1). injection Hs as <- <-.
    destruct (T5 eq_refl) as (D1 & D2 & D3 & _).
    exists q, None, None. apply kept_futex; [done..|]. destruct all; split; fields; rewrite ?waits_wake_thread; try done; try easy_case.
  - specialize (T3 eq_refl). injection T3 as -> ->. assert (Hlk : lock s = Some t) by (by apply T1). injection Hs as <- <-.
    exists q, None, None. same_case.
Qed.

Lemma start_ok t c s q owed due l s' l' :
  cond_ok s q owed due → thread_ok s q owed due t l → at_ l = outside → start t c s l = Some (s', l') →
  ∃ q' owed' due', kept s q owed due t s' l' q' owed' due'.
Proof.
  intros C [T1 T2 T3 T4 T5 T6 T7 T8] Hp Hs. destruct l as [p r]. cbn in Hp. subst p. exists q, owed, due. unfold start in Hs. fields.
  destruct c; repeat case_decide; try done; [destruct (mutex s) eqn:Em; [done|]|..]; injection Hs as <- <-; same_case.
Qed.

Lemma cond_step_ok t e s q owed due l s' l' :
  cond_ok s q owed due → thread_ok s q owed due t l → step t e s l = Some (s', l') →
  ∃ q' owed' due', kept s q owed due t s' l' q' owed' due'.
Proof.
  intros C T. unfold step. destruct (at_ l) eqn:Hp; intros Hs; try (by eapply clockwait_ok); try (by eapply wake_ok).
  destruct e as [|c| |]; [by eapply clockwait_ok|by eapply start_ok|by eapply clockwait_ok|by eapply clockwait_ok].
Qed.

(** ** What holds of every reachable state *)

Definition system_ok (c : config cond thread) (q : list nat) : Prop :=
  ∃ owed due, cond_ok (shared c) q owed due ∧ every (thread_ok (shared c) q owed due) c
    ∧ ∀ w, lock (shared c) = Some w → is_Some (threads c !! w).

Lemma poke_lock u f s : lock (poke u f s) = lock s.
Proof. unfold poke. by case_match. Qed.

(** Only the thread that moves takes or gives up the lock. *)
Lemma step_lock t e s l s' l' :
  step t e s l = Some (s', l') → lock s' = lock s ∨ lock s' = Some t ∨ lock s' = None.
Proof.
  destruct l as [p r]. unfold step, pthread_cond_clockwait, pthread_cond_wake, start, link, unlink, take_first, detach_next, detach_prev.
  cbn [at_]. intros Hs. destruct p; destruct e as [|[]| |]; repeat (case_match || case_decide); simplify_eq/=; rewrite ?poke_lock; cbn; rewrite ?poke_lock; auto.
Qed.

Lemma cond_system_step t e c c' q :
  system_ok c q → cstep step t e c = Some c' → ∃ q', system_ok c' q' ∧ qstep t q q'.
Proof.
  intros (owed & due & C & T & H) Hc. destruct (cstep_inv _ _ _ _ _ Hc) as (l & l' & Hl & Hs & Ht).
  destruct (cond_step_ok _ _ _ _ _ _ _ _ _ C (T _ _ Hl) Hs) as (q' & owed' & due' & C' & T' & F & Q).
  exists q'. split; [|done]. exists owed', due'. split_and!; [done|by eapply every_update; [exact Ht| |auto]|].
  intros w Hw. rewrite Ht. apply lookup_insert_is_Some. destruct (decide (t = w)); [by left|right; split; [done|]].
  apply H. destruct (step_lock _ _ _ _ _ _ Hs) as [E|[E|E]]; congruence.
Qed.

Lemma cond_initial n : system_ok (initial n) [].
Proof.
  assert (H : ∀ t l, threads (initial n) !! t = Some l → l = return_ None).
  { intros t l Hl. apply elem_of_list_to_map_2, list_elem_of_fmap in Hl as (u & [= -> ->] & _). done. }
  exists None, None. split_and!; [split; [split; cbn; try done; constructor|done..]| |done].
  intros t l ->%H. split; cbn; try done.
  - intros _. split_and!; [done|apply not_elem_of_nil|done|done].
  - split; [by intros ?%not_elem_of_nil|done].
Qed.

Lemma reachable_system n c : reachable step (initial n) c → ∃ q, system_ok c q.
Proof.
  intros Hr. apply (invariant_reachable step (λ c, ∃ q, system_ok c q) (initial n)); [|clear c Hr|done].
  - exists []. apply cond_initial.
  - intros c t e c' [q Hq] Hc. destruct (cond_system_step _ _ _ _ _ Hq Hc) as (q' & Hq' & _). by exists q'.
Qed.

(** The queue is what the pointers say. *)
Lemma seg_unique m p p' q q' : hd None q = hd None q' → seg m p q None → seg m p' q' None → q = q'.
Proof.
  revert p p' q'. induction q as [|t q IH]; intros p p' [|t' q'] Hh; try done. cbn in Hh. injection Hh as <-. cbn [seg].
  intros [H1 H2] [H3 H4]. rewrite H1 in H3. injection H3 as Hn _. f_equal. by eapply IH.
Qed.

(** C7.  A condition variable is a queue.  However threads wait, signal and
    broadcast, with signals and timeouts, the pointers on the stacks of the waiting
    threads make up a list without repetition that determines the queue, nobody
    touches an element of a thread that has returned, and a step of a thread
    leaves the queue as it is, puts the thread itself at its end or takes it out,
    or takes the first thread off to be woken. *)
Theorem cond_refines n c t e c' :
  reachable step (initial n) c → cstep step t e c = Some c' →
  ∃ q q', list_ok (shared c) q ∧ list_ok (shared c') q' ∧ (∀ q2, list_ok (shared c') q2 → q2 = q')
    ∧ fault (shared c') = false ∧ qstep t q q'.
Proof.
  intros Hr Hc. destruct (reachable_system _ _ Hr) as [q Hq]. destruct (cond_system_step _ _ _ _ _ Hq Hc) as (q' & Hq' & Hs).
  destruct Hq as (? & ? & [L _ _ _] & _). destruct Hq' as (? & ? & [L' Hf _ _] & _). exists q, q'. split_and!; [done|done| |done|done].
  intros q2 [S2 _ F2 _]. destruct L' as [S1 _ F1 _]. eapply seg_unique; [congruence|exact S2|exact S1].
Qed.

(** C8.  Nobody who was served sleeps on.  In every reachable state a thread that
    sleeps in [pthread_cond_wait] is still in the queue, or somebody who took it
    off has yet to set its flag or to wake it, holding the lock of the condition
    variable. *)
Theorem cond_served_wakes n c t l :
  reachable step (initial n) c → threads c !! t = Some l → at_ l = wait_sleep → asleep t (queue (shared c)) →
  (∃ q, list_ok (shared c) q ∧ t ∈ q)
  ∨ ∃ w lw a, threads c !! w = Some lw ∧ (at_ lw = wake_store a t ∨ at_ lw = wake_futex a t) ∧ lock (shared c) = Some w.
Proof.
  intros Hr Hl Hp Ha. destruct (reachable_system _ _ Hr) as (q & owed & due & C & T & H).
  destruct (T _ _ Hl) as [_ _ _ T4 _ _ _ T8]. rewrite Hp in T4. destruct (T4 eq_refl) as (b & Hb & Hq). specialize (Hq eq_refl).
  assert (Hst : owed = Some t ∨ due = Some t → ∃ w lw a, threads c !! w = Some lw
    ∧ (at_ lw = wake_store a t ∨ at_ lw = wake_futex a t) ∧ lock (shared c) = Some w).
  { intros Hod. destruct (lock (shared c)) as [w|] eqn:Ek; [|destruct (ok_free _ _ _ _ C Ek); destruct Hod; congruence].
    destruct (H w eq_refl) as [lw Hw]. pose proof (T _ _ Hw) as Tw. assert (Hk : locked (at_ lw) = true) by (by apply (ok_lock _ _ _ _ _ _ Tw)).
    pose proof (ok_stage _ _ _ _ _ _ Tw Hk) as Hs. exists w, lw. destruct (at_ lw); cbn in Hs; injection Hs as -> ->;
      destruct Hod as [[=]|[=]]; subst; eauto. }
  destruct b.
  - right. apply Hst. right. by apply T8.
  - destruct (proj1 Hq eq_refl) as [Hin|Ho]; [left; exists q; split; [apply C|done]|right; apply Hst; by left].
Qed.

(** ** An instance: one thread asleep, taken off the queue by another *)

Definition served_schedule : list (nat * event) :=
  (0%nat, Call Acquire) :: (0%nat, Call Wait) :: replicate 7 (0%nat, Go) ++ (1%nat, Call Signal_one) :: replicate 2 (1%nat, Go).

Definition served : config cond thread := default (initial 2) (run step served_schedule (initial 2)).

Lemma served_reachable : reachable step (initial 2) served.
Proof. apply (run_reachable step served_schedule). vm_compute. reflexivity. Qed.

Lemma cond_refines_witness :
  ∃ c' q q', cstep step 1 Go served = Some c' ∧ list_ok (shared served) q ∧ list_ok (shared c') q'
    ∧ (∀ q2, list_ok (shared c') q2 → q2 = q') ∧ fault (shared c') = false ∧ qstep 1 q q'.
Proof.
  destruct (cstep step 1 Go served) as [c'|] eqn:E; [|vm_compute in E; discriminate E].
  destruct (cond_refines 2 served 1 Go c' served_reachable E) as (q & q' & H). exists c', q, q'. split; [reflexivity|exact H].
Defined.

Lemma cond_served_wakes_witness :
  (∃ q, list_ok (shared served) q ∧ 0%nat ∈ q)
  ∨ ∃ w lw a, threads served !! w = Some lw ∧ (at_ lw = wake_store a 0 ∨ at_ lw = wake_futex a 0) ∧ lock (shared served) = Some w.
Proof.
  destruct (threads served !! 0%nat) as [l|] eqn:E; [|vm_compute in E; discriminate E].
  apply (cond_served_wakes 2 served 0 l served_reachable E); [vm_compute in E; injection E as <-; reflexivity|].
  apply (proj1 (bool_decide_eq_true (asleep 0 (queue (shared served))))). vm_compute. reflexivity.
Defined.

End CondSpec.
