(* ===== verification/Rwlock.v ===== *)
(** * Readers-writer locks

    [pthread_rwlock_clockrdlock.c], [pthread_rwlock_clockwrlock.c],
    [pthread_rwlock_tryrdlock.c], [pthread_rwlock_trywrlock.c],
    and [pthread_rwlock_unlock.c] of [pthread].  The request
    mutex is the lock of [MutexSpec] and the two condition variables are the
    queues of [CondSpec]; what is done while the mutex is held is one step.  The
    theorems: a writer is alone; a writer that gives up can leave readers asleep. *)

From S2P Require Import Prelude Sched.
From stdpp Require Import base list gmap relations.
From Stdlib Require Import ZArith Lia.
Import Sched.

#[local] Open Scope Z_scope.

Module Rwlock.

(** [pthread_rwlock_t]: the threads that wait at the conditions, the holder of
    the request mutex, and the four counts. *)
Record rwlock := {
  reader_condition : list nat;
  writer_condition : list nat;
  request_mutex : option nat;
  num_readers : Z;
  num_writers : Z;
  pending_readers : Z;
  pending_writers : Z
}.

Definition set_conditions (r w : list nat) (s : rwlock) : rwlock :=
  {| reader_condition := r; writer_condition := w; request_mutex := request_mutex s; num_readers := num_readers s;
     num_writers := num_writers s; pending_readers := pending_readers s; pending_writers := pending_writers s |}.
Definition set_mutex (h : option nat) (s : rwlock) : rwlock :=
  {| reader_condition := reader_condition s; writer_condition := writer_condition s; request_mutex := h;
     num_readers := num_readers s; num_writers := num_writers s; pending_readers := pending_readers s;
     pending_writers := pending_writers s |}.
Definition set_counts (r w : Z) (s : rwlock) : rwlock :=
  {| reader_condition := reader_condition s; writer_condition := writer_condition s; request_mutex := request_mutex s;
     num_readers := r; num_writers := w; pending_readers := pending_readers s; pending_writers := pending_writers s |}.
Definition set_pending (r w : Z) (s : rwlock) : rwlock :=
  {| reader_condition := reader_condition s; writer_condition := writer_condition s; request_mutex := request_mutex s;
     num_readers := num_readers s; num_writers := num_writers s; pending_readers := r; pending_writers := w |}.

(** ** The condition variables *)

Definition join (write : bool) (t : nat) (s : rwlock) : rwlock :=
  if write then set_conditions (reader_condition s) (writer_condition s ++ [t]) s
  else set_conditions (reader_condition s ++ [t]) (writer_condition s) s.

Definition leave (write : bool) (t : nat) (s : rwlock) : rwlock :=
  if write then set_conditions (reader_condition s) (filter (.≠ t) (writer_condition s)) s
  else set_conditions (filter (.≠ t) (reader_condition s)) (writer_condition s) s.

Definition waiting (write : bool) (t : nat) (s : rwlock) : bool :=
  bool_decide (t ∈ if write then writer_condition s else reader_condition s).

Definition signal_writer (s : rwlock) : rwlock := set_conditions (reader_condition s) (tail (writer_condition s)) s.
Definition broadcast_readers (s : rwlock) : rwlock := set_conditions [] (writer_condition s) s.

(** ** Threads *)

(** [write] says which of the two kinds of call it is. *)
Inductive point :=
  | outside
  | lock_mutex (write : bool)
  | lock_pending (write : bool)
  | lock_test (write : bool) (ret : option errno)
  | lock_wait (write : bool)
  | lock_relock (write : bool) (ret : option errno)
  | leave_mutex (ret : option errno)
  | try_mutex (write : bool)
  | try_test (write : bool)
  | unlock_mutex
  | unlock_body.

Inductive call := Lock (write : bool) | Trylock (write : bool) | Unlock.

Abbreviation event := (Sched.event call).

(** The history of a thread: the read locks it holds, and whether it holds the
    write lock. *)
Record thread := { at_ : point; result : option errno; reads : Z; writes : bool }.

Definition goto (p : point) (l : thread) : thread := {| at_ := p; result := result l; reads := reads l; writes := writes l |}.
Definition return_ (r : option errno) (l : thread) : thread :=
  {| at_ := outside; result := r; reads := reads l; writes := writes l |}.
Definition hold (r : Z) (w : bool) (l : thread) : thread := {| at_ := at_ l; result := result l; reads := r; writes := w |}.

(** ** The functions *)

(** [rwlock->pending_readers += d] or the same for writers. *)
Definition add_pending (write : bool) (d : Z) (s : rwlock) : rwlock :=
  if write then set_pending (pending_readers s) (pending_writers s + d) s
  else set_pending (pending_readers s + d) (pending_writers s) s.

(** What a call of either kind waits for. *)
Definition blocked (write : bool) (s : rwlock) : bool :=
  if write then negb (num_readers s =? 0) || negb (num_writers s =? 0)
  else negb (num_writers s =? 0) || negb (pending_writers s =? 0).

Definition take_lock (write : bool) (s : rwlock) (l : thread) : rwlock * thread :=
  if write then (set_counts (num_readers s) 1 s, hold (reads l) true l)
  else (set_counts (num_readers s + 1) (num_writers s) s, hold (reads l + 1) (writes l) l).

(** [pthread_rwlock_clockrdlock] and [pthread_rwlock_clockwrlock]. *)
Definition pthread_rwlock_clocklock (t : nat) (e : event) (s : rwlock) (l : thread) : option (rwlock * thread) :=
  match at_ l, e with
  | lock_mutex w, Go =>
      match request_mutex s with None => Some (set_mutex (Some t) s, goto (lock_pending w) l) | Some _ => None end
  | lock_pending w, Go => Some (add_pending w 1 s, goto (lock_test w None) l)
  | lock_test w ret, Go =>
      match ret, blocked w s with
      | None, true => Some (set_mutex None (join w t s), goto (lock_wait w) l)
      | None, false =>
          let '(s', l') := take_lock w (add_pending w (-1) s) l in Some (s', goto (leave_mutex None) l')
      | Some e, _ => Some (add_pending w (-1) s, goto (leave_mutex (Some e)) l)
      end
  | lock_wait w, Go => if waiting w t s then None else Some (s, goto (lock_relock w None) l)
  | lock_wait w, Timeout => if waiting w t s then Some (s, goto (lock_relock w (Some ETIMEDOUT)) l) else None
  | lock_relock w ret, Go =>
      match request_mutex s with
      | None => Some (set_mutex (Some t) (leave w t s), goto (lock_test w ret) l)
      | Some _ => None
      end
  | leave_mutex ret, Go => Some (set_mutex None s, return_ ret l)
  | _, _ => None
  end.

(** [pthread_rwlock_tryrdlock] and [pthread_rwlock_trywrlock]. *)
Definition pthread_rwlock_trylock (t : nat) (e : event) (s : rwlock) (l : thread) : option (rwlock * thread) :=
  match at_ l, e with
  | try_mutex w, Go =>
      match request_mutex s with
      | None => Some (set_mutex (Some t) s, goto (try_test w) l)
      | Some _ => Some (s, return_ (Some EBUSY) l)
      end
  | try_test w, Go =>
      if blocked w s then Some (s, goto (leave_mutex (Some EBUSY)) l)
      else let '(s', l') := take_lock w s l in Some (s', goto (leave_mutex None) l')
  | _, _ => None
  end.

Definition pthread_rwlock_unlock (t : nat) (e : event) (s : rwlock) (l : thread) : option (rwlock * thread) :=
  match at_ l, e with
  | unlock_mutex, Go =>
      match request_mutex s with None => Some (set_mutex (Some t) s, goto unlock_body l) | Some _ => None end
  | unlock_body, Go =>
      if negb (num_writers s =? 0) then
        let s := set_counts (num_readers s) 0 s in
        let s := if negb (pending_writers s =? 0) then signal_writer s else broadcast_readers s in
        Some (s, goto (leave_mutex None) (hold (reads l) false l))
      else
        let s := set_counts (num_readers s - 1) (num_writers s) s in
        let s := if (num_readers s =? 0) && negb (pending_writers s =? 0) then signal_writer s else s in
        Some (s, goto (leave_mutex None) (hold (reads l - 1) (writes l) l))
  | _, _ => None
  end.

(** A caller unlocks what it holds, and asks for the write lock, or for a read
    lock with the write lock in its hands, only when it holds nothing. *)
Definition start (c : call) (l : thread) : option thread :=
  match c with
  | Lock w => if writes l || (w && negb (reads l =? 0)) then None else Some (goto (lock_mutex w) l)
  | Trylock w => Some (goto (try_mutex w) l)
  | Unlock => if writes l || negb (reads l =? 0) then Some (goto unlock_mutex l) else None
  end.

Definition step (t : nat) (e : event) (s : rwlock) (l : thread) : option (rwlock * thread) :=
  match at_ l, e with
  | outside, Call c => match start c l with Some l' => Some (s, l') | None => None end
  | (try_mutex _ | try_test _), _ => pthread_rwlock_trylock t e s l
  | (unlock_mutex | unlock_body), _ => pthread_rwlock_unlock t e s l
  | _, _ => pthread_rwlock_clocklock t e s l
  end.

Definition idle : thread := {| at_ := outside; result := None; reads := 0; writes := false |}.

Definition initial (n : nat) : config rwlock thread :=
  {| shared := {| reader_condition := []; writer_condition := []; request_mutex := None; num_readers := 0;
                  num_writers := 0; pending_readers := 0; pending_writers := 0 |};
     threads := list_to_map ((λ t, (t, idle)) <$> seq 0 n) |}.

(** ** A writer is alone *)

Definition writing (l : thread) : Z := if writes l then 1 else 0.

(** Whether the thread is counted in [pending_readers] or [pending_writers]. *)
Definition pending (write : bool) (l : thread) : Z :=
  match at_ l with
  | lock_test w _ | lock_wait w | lock_relock w _ => if eqb w write then 1 else 0
  | _ => 0
  end.

Record rwlock_ok (c : config rwlock thread) : Prop := {
  ok_reads : every (λ _ l, 0 <= reads l) c;
  ok_readers : num_readers (shared c) = total reads c;
  ok_writers : num_writers (shared c) = total writing c;
  ok_one : num_writers (shared c) = 0 ∨ num_writers (shared c) = 1 ∧ num_readers (shared c) = 0;
  ok_pending_readers : pending_readers (shared c) = total (pending false) c;
  ok_pending_writers : pending_writers (shared c) = total (pending true) c;
  ok_unlocking : every (λ _ l, at_ l = unlock_mutex ∨ at_ l = unlock_body → writes l = true ∨ 0 < reads l) c
}.

(** What a step does to the counts and to the thread that makes it. *)
Lemma step_counts t e s l s' l' :
  0 <= reads l <= num_readers s → writing l <= num_writers s →
  num_writers s = 0 ∨ num_writers s = 1 ∧ num_readers s = 0 →
  (at_ l = unlock_mutex ∨ at_ l = unlock_body → writes l = true ∨ 0 < reads l) →
  step t e s l = Some (s', l') →
  num_readers s' - num_readers s = reads l' - reads l ∧ num_writers s' - num_writers s = writing l' - writing l
  ∧ (num_writers s' = 0 ∨ num_writers s' = 1 ∧ num_readers s' = 0)
  ∧ pending_readers s' - pending_readers s = pending false l' - pending false l
  ∧ pending_writers s' - pending_writers s = pending true l' - pending true l
  ∧ 0 <= reads l' ∧ (at_ l' = unlock_mutex ∨ at_ l' = unlock_body → writes l' = true ∨ 0 < reads l').
Proof.
  destruct l as [p r n w]. unfold step, writing, pending. cbn [reads writes at_ result]. intros Hr Hw H1 Hu Hs.
  destruct p; destruct e as [|c| |]; try done; cbn in Hs; unfold take_lock, add_pending, join, leave, blocked in Hs;
    repeat match type of Hs with
    | context [start ?c _] => destruct c as [[]|[]|]; cbn in Hs
    | context [if ?b then _ else _] => destruct b eqn:?; cbn in Hs
    | context [match ?b with Some _ => _ | None => _ end] => destruct b eqn:?; cbn in Hs
    end; try done; simplify_eq/=; b2p; split_and!; try done; try lia; try (intros [?|?]; done); try (by intros _; first [left; done|right; lia]).
  all: try (specialize (Hu ltac:(by auto))); destruct w; intuition (first [done | lia]).
Qed.

Lemma rwlock_step t e c c' : rwlock_ok c → cstep step t e c = Some c' → rwlock_ok c'.
Proof.
  intros [R0 R1 R2 R3 R4 R5 R6] Hc. destruct (cstep_inv _ _ _ _ _ Hc) as (l & l' & Hl & Hs & Ht).
  assert (Hr : reads l <= num_readers (shared c)).
  { rewrite R1. apply (total_ge_every reads t); [|done]. exact R0. }
  assert (Hw : writing l <= num_writers (shared c)).
  { rewrite R2. apply (total_ge_every writing t); [|done]. intros u lu _. unfold writing. destruct (writes lu); lia. }
  destruct (step_counts _ _ _ _ _ _ (conj (R0 _ _ Hl) Hr) Hw R3 (R6 _ _ Hl) Hs) as (S1 & S2 & S3 & S4 & S5 & S6 & S7).
  split; rewrite ?(total_update _ t l l' c c' Hl Ht); try lia; try done.
  - eapply every_update; [exact Ht|done|]. intros u lu _ Hu. by apply (R0 u).
  - eapply every_update; [exact Ht|done|]. intros u lu _ Hu. by apply (R6 u).
Qed.

Lemma rwlock_initial n : rwlock_ok (initial n).
Proof.
  assert (H : ∀ t l, threads (initial n) !! t = Some l → l = idle).
  { intros t l Hl. apply elem_of_list_to_map_2, list_elem_of_fmap in Hl as (u & [= -> ->] & _). done. }
  split; rewrite ?total_zero by (by intros t l ->%H); cbn; auto; intros t l ->%H; cbn; [done|by intros [?|?]].
Qed.

Lemma rwlock_reachable n c : reachable step (initial n) c → rwlock_ok c.
Proof.
  intros Hr. apply (invariant_reachable step rwlock_ok (initial n)); [apply rwlock_initial| |done].
  intros c1 t e c2 H1 Hc. by eapply rwlock_step.
Qed.

(** C11.  A writer is alone.  In every state that threads can reach by locking,
    trying and unlocking, with timeouts, the counts of readers and writers are the
    locks the threads hold, there is at most one writer, and while there is one
    nobody else holds the lock; the counts of pending calls are exact. *)
Theorem rwlock_excludes n c :
  reachable step (initial n) c →
  num_readers (shared c) = total reads c ∧ num_writers (shared c) = total writing c
  ∧ pending_readers (shared c) = total (pending false) c ∧ pending_writers (shared c) = total (pending true) c
  ∧ ∀ t l, threads c !! t = Some l → writes l = true →
      every (λ u lu, reads lu = 0 ∧ (u ≠ t → writes lu = false)) c.
Proof.
  intros Hr. destruct (rwlock_reachable _ _ Hr) as [R0 R1 R2 R3 R4 R5 R6]. split_and!; [done..|].
  assert (Hw : ∀ l, 0 <= writing l) by (intros l; unfold writing; destruct (writes l); lia).
  intros t l Hl Hwl u lu Hu. assert (H1 : writing l <= total writing c) by (by apply (total_ge writing t)).
  unfold writing in H1 at 1. rewrite Hwl in H1. destruct R3 as [?|[R3 R3']]; [lia|]. split.
  - assert (reads lu <= total reads c) by (apply (total_ge_every reads u); [exact R0|done]). specialize (R0 _ _ Hu). cbn in R0. lia.
  - intros Hne. pose proof (total_ge_two writing t u l lu c Hw ltac:(done) Hl Hu) as H2. unfold writing in H2 at 1 2.
    rewrite Hwl in H2. destruct (writes lu); [lia|done].
Qed.

(** ** Readers left behind *)

(** A reader sleeps though nobody holds the lock, waits for it or is about to wake
    it. *)
Definition stranded (c : config rwlock thread) (t : nat) : Prop :=
  num_readers (shared c) = 0 ∧ num_writers (shared c) = 0 ∧ pending_writers (shared c) = 0 ∧ request_mutex (shared c) = None
  ∧ at_ <$> threads c !! t = Some (lock_wait false) ∧ waiting false t (shared c) = true
  ∧ every (λ u l, u ≠ t → at_ l = outside) c.

#[export] Instance point_eq_dec : EqDecision point.
Proof. solve_decision. Defined.

#[export] Instance stranded_dec c t : Decision (stranded c t).
Proof. unfold stranded. apply _. Defined.

(** Thread 0 reads; 1 waits to write; 2 waits behind 1 to read; 1 gives up; 0
    unlocks. *)
Definition timeout_schedule : list (nat * event) :=
  (0%nat, Call (Lock false)) :: replicate 4 (0%nat, Go) ++
  (1%nat, Call (Lock true)) :: replicate 3 (1%nat, Go) ++
  (2%nat, Call (Lock false)) :: replicate 3 (2%nat, Go) ++
  (1%nat, Timeout) :: replicate 3 (1%nat, Go) ++
  (0%nat, Call Unlock) :: replicate 3 (0%nat, Go).

(** A writer whose wait times out strands the readers behind it.  A state is
    reachable in which nobody holds the lock or waits to write and a reader sleeps
    all the same, with nobody left to wake it. *)
Theorem rwlock_timeout_strands : ∃ c, reachable step (initial 3) c ∧ stranded c 2.
Proof.
  destruct (run_witness step (λ c, stranded c 2) timeout_schedule (initial 3)) as (c & Hr & Hs); [vm_compute; reflexivity|].
  exists c. split; [by apply (run_reachable step timeout_schedule)|done].
Qed.

Lemma rwlock_excludes_witness :
  ∃ c, run step (take 8 timeout_schedule) (initial 3) = Some c
    ∧ num_readers (shared c) = total reads c ∧ num_writers (shared c) = total writing c
    ∧ pending_readers (shared c) = total (pending false) c ∧ pending_writers (shared c) = total (pending true) c
    ∧ ∀ t l, threads c !! t = Some l → writes l = true → every (λ u lu, reads lu = 0 ∧ (u ≠ t → writes lu = false)) c.
Proof.
  destruct (run step (take 8 timeout_schedule) (initial 3)) as [c|] eqn:E; [|vm_compute in E; discriminate E].
  exists c. split; [reflexivity|]. apply (rwlock_excludes 3). exact (run_reachable step _ _ _ E).
Defined.

End Rwlock.
