(* ===== verification/Once.v ===== *)
(** * Once and spin locks

    [pthread_once.c], whose lock is that of [MutexSpec], and
    [pthread_spin_lock.c], [pthread_spin_trylock.c] and [pthread_spin_unlock.c]. *)

From S2P Require Import Prelude Sched.
From stdpp Require Import base list gmap relations.
From Stdlib Require Import ZArith Lia.
Import Sched.

#[local] Open Scope Z_scope.

Module Once.

(** [pthread_once_t]; [runs] counts the calls of [init_routine] that returned. *)
Record once := { lock : option nat; executed : bool; runs : nat }.

Inductive point := outside | once_lock | once_test | once_init | once_set | once_unlock.

(** [returned]: the thread has called [pthread_once] and come back. *)
Record thread := { at_ : point; returned : bool }.

Definition goto (p : point) (l : thread) : thread := {| at_ := p; returned := returned l |}.

Definition pthread_once (t : nat) (e : event ()) (s : once) (l : thread) : option (once * thread) :=
  match at_ l, e with
  | outside, Call _ => Some (s, goto once_lock l)
  | once_lock, Go =>
      match lock s with
      | None => Some ({| lock := Some t; executed := executed s; runs := runs s |}, goto once_test l)
      | Some _ => None
      end
  | once_test, Go => Some (s, goto (if executed s then once_unlock else once_init) l)
  | once_init, Go => Some ({| lock := lock s; executed := executed s; runs := S (runs s) |}, goto once_set l)
  | once_set, Go => Some ({| lock := lock s; executed := true; runs := runs s |}, goto once_unlock l)
  | once_unlock, Go =>
      Some ({| lock := None; executed := executed s; runs := runs s |}, {| at_ := outside; returned := true |})
  | _, _ => None
  end.

Definition initial (n : nat) : config once thread :=
  {| shared := {| lock := None; executed := false; runs := 0 |};
     threads := list_to_map ((λ t, (t, {| at_ := outside; returned := false |})) <$> seq 0 n) |}.

Definition locked (p : point) : bool := match p with outside | once_lock => false | _ => true end.

(** How often the routine has run, by where the holder is. *)
Definition point_ok (s : once) (p : point) : Prop :=
  match p with
  | once_init => executed s = false ∧ runs s = 0%nat
  | once_set => executed s = false ∧ runs s = 1%nat
  | once_unlock => executed s = true
  | once_test => executed s = false → runs s = 0%nat
  | _ => True
  end.

Record thread_ok (s : once) (t : nat) (l : thread) : Prop := {
  ok_lock : lock s = Some t ↔ locked (at_ l) = true;
  ok_point : point_ok s (at_ l);
  ok_returned : returned l = true → executed s = true
}.

Record once_ok (s : once) : Prop := {
  ok_executed : executed s = true → runs s = 1%nat;
  ok_free : lock s = None → executed s = false → runs s = 0%nat;
  ok_runs : (runs s <= 1)%nat
}.

Lemma once_step_ok t e s l s' l' :
  once_ok s → thread_ok s t l → pthread_once t e s l = Some (s', l') →
  once_ok s' ∧ thread_ok s' t l' ∧ ∀ u lu, u ≠ t → thread_ok s u lu → thread_ok s' u lu.
Proof.
  intros [O1 O2 O3] [T1 T2 T3] Hs. destruct l as [p r]. unfold pthread_once in Hs. cbn in *.
  assert (Hother : ∀ x r u lu, u ≠ t → lock s = Some t ∨ lock s = None ∧ x = executed s ∧ r = runs s → (executed s = true → x = true) →
    thread_ok s u lu → ∀ k, k = None ∨ k = Some t → thread_ok {| lock := k; executed := x; runs := r |} u lu).
  { intros x r0 u lu Hne Hk Hx [U1 U2 U3] k Hk'. assert (Hf : locked (at_ lu) = false).
    { destruct (locked (at_ lu)) eqn:E; [|done]. pose proof (proj2 U1 eq_refl). destruct Hk as [?|(? & _)]; congruence. }
    split; cbn; [|by destruct (at_ lu)|auto]. rewrite Hf. split; [|done]. destruct Hk'; congruence. }
  destruct p; destruct e as [|c| |]; try done.
  - injection Hs as <- <-. split_and!; [done|by split|done].
  - destruct (lock s) eqn:E; [done|]. injection Hs as <- <-. split_and!; [split; cbn; auto; done|by split; cbn; auto|].
    intros u lu Hne Hu. apply (Hother (executed s) (runs s) u); auto.
  - assert (Hl : lock s = Some t) by (by apply T1).
    injection Hs as <- <-. split_and!; [done| |done]. destruct (executed s) eqn:E; split; cbn; rewrite ?E; auto.
  - assert (Hl : lock s = Some t) by (by apply T1). destruct T2 as [T2 T2']. injection Hs as <- <-.
    split_and!; [split; cbn; try congruence; lia|split; cbn; [done|by rewrite T2, T2'|done]|].
    intros u lu Hne Hu. rewrite Hl. apply (Hother (executed s) (S (runs s)) u); auto.
  - assert (Hl : lock s = Some t) by (by apply T1). destruct T2 as [T2 T2']. injection Hs as <- <-.
    split_and!; [by split; cbn|by split; cbn|]. intros u lu Hne Hu. rewrite Hl. apply (Hother true (runs s) u); auto.
  - assert (Hl : lock s = Some t) by (by apply T1). injection Hs as <- <-.
    split_and!; [split; cbn; congruence || auto|by split; cbn|]. intros u lu Hne Hu. apply (Hother (executed s) (runs s) u); auto.
Qed.

(** The routine runs once.  However many threads call [pthread_once], it has
    run at most once in every reachable state, and exactly once when any of the
    calls has returned. *)
Theorem once_runs_once n c :
  reachable pthread_once (initial n) c →
  (runs (shared c) <= 1)%nat ∧ every (λ _ l, returned l = true → runs (shared c) = 1%nat) c.
Proof.
  intros Hr. assert (H : once_ok (shared c) ∧ every (thread_ok (shared c)) c).
  { apply (invariant_reachable pthread_once (λ c, once_ok (shared c) ∧ every (thread_ok (shared c)) c) (initial n)); [|clear c Hr|done].
    - split; [by split; cbn; auto|]. intros t l Hl. apply elem_of_list_to_map_2, list_elem_of_fmap in Hl as (u & [= -> ->] & _). by split.
    - intros c t e c' [O T] Hc. destruct (cstep_inv _ _ _ _ _ Hc) as (l & l' & Hl & Hs & Ht).
      destruct (once_step_ok _ _ _ _ _ _ O (T _ _ Hl) Hs) as (O' & T' & F). split; [done|]. eapply every_update; [exact Ht|done|].
      intros u lu Hne Hu. apply F; [done|by apply T]. }
  destruct H as [[O1 O2 O3] T]. split; [done|]. intros t l Hl Hret. by apply O1, (ok_returned _ _ _ (T _ _ Hl)).
Qed.

Lemma once_runs_once_witness :
  ∃ c, run pthread_once ((0%nat, Call tt) :: replicate 5 (0%nat, Go) ++ (1%nat, Call tt) :: replicate 3 (1%nat, Go)) (initial 2) = Some c
    ∧ (runs (shared c) <= 1)%nat ∧ every (λ _ l, returned l = true → runs (shared c) = 1%nat) c.
Proof.
  destruct (run pthread_once _ (initial 2)) as [c|] eqn:E; [|vm_compute in E; discriminate E].
  exists c. split; [reflexivity|]. apply (once_runs_once 2). exact (run_reachable pthread_once _ _ _ E).
Defined.

End Once.

Module Spin.

Definition UNLOCKED : Z := 0.
Definition LOCKED : Z := 1.

Inductive spin_point := outside | spin_cas | spin_try | spin_unlock.

(** [holds] is history. *)
Record spin_thread := { at_ : spin_point; result : option errno; holds : bool }.

Inductive call := Lock | Trylock | Unlock.

(** The lock is the word; the yield between two attempts is no step of its own. *)
Definition spin_step (t : nat) (e : event call) (s : Z) (l : spin_thread) : option (Z * spin_thread) :=
  match at_ l, e with
  | outside, Call Lock => Some (s, {| at_ := spin_cas; result := result l; holds := holds l |})
  | outside, Call Trylock => Some (s, {| at_ := spin_try; result := result l; holds := holds l |})
  | outside, Call Unlock => if holds l then Some (s, {| at_ := spin_unlock; result := result l; holds := holds l |}) else None
  | spin_cas, Go =>
      if s =? UNLOCKED then Some (LOCKED, {| at_ := outside; result := None; holds := true |}) else Some (s, l)
  | spin_try, Go =>
      if s =? UNLOCKED then Some (LOCKED, {| at_ := outside; result := None; holds := true |})
      else Some (s, {| at_ := outside; result := Some EBUSY; holds := holds l |})
  | spin_unlock, Go => Some (UNLOCKED, {| at_ := outside; result := None; holds := false |})
  | _, _ => None
  end.

Definition spin_initial (n : nat) : config Z spin_thread :=
  {| shared := UNLOCKED; threads := list_to_map ((λ t, (t, {| at_ := outside; result := None; holds := false |})) <$> seq 0 n) |}.

Definition holding (l : spin_thread) : Z := if holds l then 1 else 0.

(** A spin lock is held by as many threads as its word says: none or one. *)
Lemma spin_excludes n c :
  reachable spin_step (spin_initial n) c → total holding c = shared c ∧ (shared c = 0 ∨ shared c = 1).
Proof.
  intros Hr. enough (H : total holding c = shared c ∧ (shared c = 0 ∨ shared c = 1)
    ∧ every (λ _ l, at_ l = spin_unlock → holds l = true) c) by (by destruct H as (? & ? & _)).
  apply (invariant_reachable spin_step (λ c, total holding c = shared c ∧ (shared c = 0 ∨ shared c = 1)
    ∧ every (λ _ l, at_ l = spin_unlock → holds l = true) c) (spin_initial n)); [|clear c Hr|done].
  - assert (H : ∀ t l, threads (spin_initial n) !! t = Some l → l = {| at_ := outside; result := None; holds := false |}).
    { intros t l Hl. apply elem_of_list_to_map_2, list_elem_of_fmap in Hl as (u & [= -> ->] & _). done. }
    rewrite total_zero by (by intros t l ->%H). split_and!; [done|by left|by intros t l ->%H].
  - intros c t e c' (T & S & P) Hc. destruct (cstep_inv _ _ _ _ _ Hc) as (l & l' & Hl & Hs & Ht).
    assert (Hh : ∀ l, 0 <= holding l) by (intros l0; unfold holding; destruct (holds l0); lia).
    pose proof (total_ge holding t l c Hh Hl) as Hg. pose proof (P _ _ Hl) as Hu.
    rewrite (total_update holding t l l' c c' Hl Ht). unfold spin_step, UNLOCKED, LOCKED in Hs.
    change (holding l) with (if holds l then 1 else 0) in *. change (holding l') with (if holds l' then 1 else 0).
    destruct l as [p r h]. cbn in *.
    assert (D : total holding c - (if h then 1 else 0) + (if holds l' then 1 else 0) = shared c' ∧ (shared c' = 0 ∨ shared c' = 1)
      ∧ (at_ l' = spin_unlock → holds l' = true)).
    { destruct p; destruct e as [|[]| |]; try done; repeat case_match; simplify_eq/=; b2p; split_and!; try done; try lia; auto.
      all: specialize (Hu eq_refl); discriminate. }
    destruct D as (D1 & D2 & D3). split_and!; [done|done|]. eapply every_update; [exact Ht|done|]. intros u lu _ Hlu. by apply (P u).
Qed.

End Spin.
