(* ===== verification/Crc32.v ===== *)
(** * The checksum of partition tables

    [gpt_crc32] of [libmount/crc32.c], which computes the 32-bit cyclic
    redundancy check a byte at a time with a table it fills first.

    The reference is the register that takes a bit at a time: [shift] is one
    multiplication by x modulo the polynomial, on the reflected representation.
    It is linear and injective, which gives both that the table computes the
    same, and that the checksum sees every change confined to 32 bits. *)

From S2P Require Import Prelude.
From stdpp Require Import base list numbers strings.
From Stdlib Require Import ZArith Lia Ascii.

#[local] Open Scope Z_scope.
#[local] Open Scope c_scope.

Module Crc32.

(** ** The function *)

Definition poly : Z := 0xedb88320.

Definition shift (c : Z) : Z :=
  if negb (Z.land c 1 =? 0) then Z.lxor poly (Z.shiftr c 1) else Z.shiftr c 1.

Definition crc_table : list Z := (λ n, Nat.iter 8 shift (Z.of_nat n)) <$> seq 0 256.

(** One turn of the loop over the buffer. *)
Definition crc_byte (crc b : Z) : outcome Z :=
  match crc_table !! Z.to_nat (Z.land (Z.lxor crc b) 0xff) with
  | Some t => Ret (Z.lxor t (Z.shiftr crc 8))
  | None => Undef
  end.

Fixpoint crc_loop (crc : Z) (buffer : list Z) : outcome Z :=
  match buffer with
  | [] => Ret crc
  | b :: buffer => crc ← crc_byte crc b; crc_loop crc buffer
  end.

Definition gpt_crc32 (buffer : list Z) : outcome Z :=
  crc ← crc_loop 0xffffffff buffer; Ret (Z.lxor crc 0xffffffff).

(** ** The register *)

(** The bits of a byte in the order they are sent, the lowest first. *)
Definition bits (b : Z) : list bool := (λ i, Z.testbit b (Z.of_nat i)) <$> seq 0 8.
Definition message (buffer : list Z) : list bool := buffer ≫= bits.

Definition register_step (c : Z) (bit : bool) : Z := shift (Z.lxor c (Z.b2z bit)).
Definition register (c : Z) (l : list bool) : Z := foldl register_step c l.

(** The cyclic redundancy check of a sequence of bits. *)
Definition crc (l : list bool) : Z := Z.lxor (register 0xffffffff l) 0xffffffff.

(** The number whose bits these are. *)
Fixpoint number (l : list bool) : Z :=
  match l with [] => 0 | b :: l => Z.b2z b + 2 * number l end.

(** ** Shifting *)

Lemma shift_odd c : shift c = Z.lxor (if Z.odd c then poly else 0) (Z.shiftr c 1).
Proof.
  unfold shift. replace (Z.land c 1) with (Z.b2z (Z.odd c)).
  - by destruct (Z.odd c).
  - rewrite (land_pow2_mod c 1) by done. change (2 ^ 1) with 2. by rewrite Zmod_odd.
Qed.

Lemma shift_lxor a b : shift (Z.lxor a b) = Z.lxor (shift a) (shift b).
Proof.
  rewrite !shift_odd, Z.shiftr_lxor, <- !Z.bit0_odd, Z.lxor_spec.
  generalize (Z.shiftr a 1), (Z.shiftr b 1). intros x y.
  destruct (Z.testbit a 0), (Z.testbit b 0); simpl xorb; cbv iota; apply Z.bits_inj'; intros n Hn;
    rewrite ?Z.lxor_spec, ?Z.bits_0; by repeat destruct (Z.testbit _ _).
Qed.

Lemma shift_double c : shift (2 * c) = c.
Proof.
  rewrite shift_odd, Z.odd_mul. simpl. by rewrite Z.shiftr_div_pow2, Z.mul_comm, Z.div_mul.
Qed.

Lemma iter_shift_lxor n a b : Nat.iter n shift (Z.lxor a b) = Z.lxor (Nat.iter n shift a) (Nat.iter n shift b).
Proof. induction n as [|n IH]; [done|]. simpl. by rewrite IH, shift_lxor. Qed.

Lemma iter_shift_double n c : Nat.iter n shift (c * 2 ^ Z.of_nat n) = c.
Proof.
  revert c. induction n as [|n IH]; intros c; [simpl; lia|].
  rewrite Nat.iter_succ_r, Nat2Z.inj_succ, Z.pow_succ_r by lia.
  replace (c * (2 * 2 ^ Z.of_nat n)) with (2 * (c * 2 ^ Z.of_nat n)) by lia.
  by rewrite shift_double.
Qed.

Lemma shift_range c : in_u 32 c → in_u 32 (shift c).
Proof.
  intros Hc. rewrite shift_odd. apply lxor_range; [lia|by destruct (Z.odd c)|].
  unfold in_u in *. rewrite Z.shiftr_div_pow2 by lia. split; [apply Z.div_pos; lia|].
  apply Z.div_lt_upper_bound; lia.
Qed.

(** The polynomial has the bit that a shifted register has lost. *)
Lemma shift_zero c : in_u 32 c → shift c = 0 → c = 0.
Proof.
  unfold in_u. rewrite shift_odd, Z.lxor_eq_0_iff, Z.shiftr_div_pow2 by lia. intros Hc H.
  change (2 ^ 1) with 2 in *. pose proof (Z.div_mod c 2 ltac:(lia)) as E. rewrite Zmod_odd in E.
  assert (c / 2 < 2 ^ 31) by (apply Z.div_lt_upper_bound; lia).
  destruct (Z.odd c); unfold poly in *; lia.
Qed.

Lemma shift_inj a b : in_u 32 a → in_u 32 b → shift a = shift b → a = b.
Proof.
  intros Ha Hb E. apply Z.lxor_eq. apply shift_zero; [by apply lxor_range|].
  by rewrite shift_lxor, E, Z.lxor_nilpotent.
Qed.

Lemma iter_shift_range n c : in_u 32 c → in_u 32 (Nat.iter n shift c).
Proof. intros Hc. induction n; [done|by apply shift_range]. Qed.

Lemma iter_shift_inj n a b : in_u 32 a → in_u 32 b → Nat.iter n shift a = Nat.iter n shift b → a = b.
Proof.
  intros Ha Hb. induction n as [|n IH]; [done|]. simpl. intros E.
  apply IH, shift_inj; [by apply iter_shift_range..|done].
Qed.

(** ** The register *)

Lemma register_app c l k : register c (l ++ k) = register (register c l) k.
Proof. apply foldl_app. Qed.

Lemma b2z_range w b : 1 <= w → in_u w (Z.b2z b).
Proof. intros Hw. pose proof (Z.pow_le_mono_r 2 1 w ltac:(lia) Hw). unfold in_u. destruct b; simpl; lia. Qed.

Lemma register_range c l : in_u 32 c → in_u 32 (register c l).
Proof.
  revert c. induction l as [|b l IH]; intros c Hc; [done|].
  apply IH, shift_range, lxor_range; [lia|done|by apply b2z_range].
Qed.

Lemma number_range l : 0 <= number l < 2 ^ Z.of_nat (length l).
Proof.
  induction l as [|b l IH]; [done|]. simpl length. rewrite Nat2Z.inj_succ, Z.pow_succ_r by lia.
  simpl. destruct b; simpl; lia.
Qed.

Lemma number_inj l k : length l = length k → number l = number k → l = k.
Proof.
  revert k. induction l as [|b l IH]; intros [|b' k]; try done. simpl. intros [= Hlen] E.
  assert (b = b') as <- by (destruct b, b'; simpl in *; lia || done).
  f_equal. apply IH; [done|lia].
Qed.

Lemma lxor_b2z b x : Z.b2z b + 2 * x = Z.lxor (Z.b2z b) (2 * x).
Proof.
  rewrite <- Z.add_nocarry_lxor; [done|]. apply Z.bits_inj'. intros [|n|n] Hn; [..|lia].
  - rewrite Z.land_spec, Z.testbit_even_0, andb_false_r. done.
  - rewrite Z.land_spec, Z.bits_0. by destruct b.
Qed.

(** Taking bits in one at a time is adding the number they make, then shifting. *)
Lemma register_number c l : register c l = Nat.iter (length l) shift (Z.lxor c (number l)).
Proof.
  revert c. induction l as [|b l IH]; intros c; [symmetry; apply Z.lxor_0_r|].
  change (register c (b :: l)) with (register (shift (Z.lxor c (Z.b2z b))) l). rewrite IH.
  simpl length. rewrite Nat.iter_succ_r. f_equal. simpl number.
  by rewrite lxor_b2z, <- Z.lxor_assoc, (shift_lxor (Z.lxor _ _)), shift_double.
Qed.

Lemma register_inj a b l : in_u 32 a → in_u 32 b → register a l = register b l → a = b.
Proof.
  revert a b. induction l as [|x l IH]; intros a b Ha Hb E; [done|].
  pose proof (b2z_range 32 x ltac:(lia)) as Hx.
  apply IH, shift_inj in E; [|by repeat apply shift_range; apply lxor_range..].
  apply (f_equal (λ c, Z.lxor c (Z.b2z x))) in E.
  by rewrite !Z.lxor_assoc, !Z.lxor_nilpotent, !Z.lxor_0_r in E.
Qed.

(** The register tells short sequences apart. *)
Lemma register_burst c x y :
  in_u 32 c → length x = length y → (length x <= 32)%nat → register c x = register c y → x = y.
Proof.
  assert (Hn : ∀ l, (length l <= 32)%nat → in_u 32 (number l)).
  { intros l Hl. pose proof (number_range l). unfold in_u.
    pose proof (Z.pow_le_mono_r 2 (Z.of_nat (length l)) 32). lia. }
  intros Hc Hl H32. rewrite !register_number, <- Hl. intros E.
  apply iter_shift_inj in E; [|by apply lxor_range; [|done|apply Hn; lia]..].
  apply number_inj; [done|].
  apply (f_equal (Z.lxor c)) in E. by rewrite <- !Z.lxor_assoc, Z.lxor_nilpotent in E.
Qed.

(** ** The table *)

Lemma number_bits b : 0 <= b < 256 → number (bits b) = b.
Proof. revert b. apply (byte_forall (λ b, number (bits b) = b)). vm_compute. done. Qed.

Lemma split_byte c : c = Z.lxor (Z.shiftr c 8 * 2 ^ 8) (Z.land c 0xff).
Proof.
  assert (Hlow : ∀ n, Z.testbit 0xff n = (0 <=? n) && (n <? 8)).
  { intros n. destruct (Z.leb_spec 0 n); [|by apply Z.testbit_neg_r].
    change 0xff with (Z.ones 8). apply Z.testbit_ones_nonneg; lia. }
  apply Z.bits_inj'. intros n Hn. rewrite Z.lxor_spec, Z.land_spec, Hlow, (proj2 (Z.leb_le 0 n)) by lia.
  rewrite <- Z.shiftl_mul_pow2 by lia. destruct (Z.ltb_spec n 8); simpl.
  - by rewrite Z.shiftl_spec_low, andb_true_r by lia.
  - rewrite Z.shiftl_spec, Z.shiftr_spec, andb_false_r, xorb_false_r by lia. f_equal. lia.
Qed.

Lemma crc_byte_register c b : in_u 32 c → 0 <= b < 256 → crc_byte c b = Ret (register c (bits b)).
Proof.
  intros Hc Hb. unfold crc_byte, crc_table. set (i := Z.land _ _).
  assert (Hi : 0 <= i < 256).
  { subst i. rewrite (land_pow2_mod _ 8) by done. by apply Z.mod_pos_bound. }
  rewrite list_lookup_fmap, lookup_seq_lt by lia. simpl fmap. f_equal. rewrite Z2Nat.id by lia.
  rewrite register_number, number_bits by done. change (length (bits b)) with 8%nat.
  rewrite (split_byte (Z.lxor c b)), iter_shift_lxor.
  change (2 ^ 8) with (2 ^ Z.of_nat 8). rewrite iter_shift_double, Z.lxor_comm. f_equal.
  rewrite Z.shiftr_lxor, (Z.shiftr_div_pow2 b), Z.div_small by lia. symmetry. apply Z.lxor_0_r.
Qed.

Lemma crc_loop_register c l : in_u 32 c → Forall (λ b, 0 <= b < 256) l → crc_loop c l = Ret (register c (message l)).
Proof.
  intros Hc Hl. revert c Hc. induction Hl as [|b l Hb Hl IH]; intros c Hc; [done|].
  simpl crc_loop. rewrite crc_byte_register by done. cbn -[register bits].
  rewrite IH by (by apply register_range). change (message (b :: l)) with (bits b ++ message l).
  by rewrite register_app.
Qed.

Lemma gpt_crc32_run l : Forall (λ b, 0 <= b < 256) l → gpt_crc32 l = Ret (crc (message l)).
Proof. intros Hl. unfold gpt_crc32. by rewrite crc_loop_register. Qed.

(** C26.  The checksum computed with the table is the cyclic redundancy check of the bits
    of the buffer, as the register that takes one bit at a time defines it. *)
Theorem gpt_crc32_crc l : Forall (λ b, 0 <= b < 256) l → gpt_crc32 l = Ret (crc (message l)).
Proof. apply gpt_crc32_run. Qed.

(** The checksum sees every burst: two buffers of the same size that differ, and only
    within a window of 32 bits, wherever it begins, have different checksums. *)
Theorem gpt_crc32_detects l1 l2 p x y q :
  Forall (λ b, 0 <= b < 256) l1 → Forall (λ b, 0 <= b < 256) l2 →
  message l1 = p ++ x ++ q → message l2 = p ++ y ++ q →
  length x = length y → (length x <= 32)%nat → x ≠ y →
  gpt_crc32 l1 ≠ gpt_crc32 l2.
Proof.
  intros H1 H2 E1 E2 Hlen H32 Hne E. apply Hne. unfold gpt_crc32 in E.
  rewrite !crc_loop_register, E1, E2 in E by done. injection E as E.
  apply (f_equal (λ c, Z.lxor c 0xffffffff)) in E.
  rewrite !Z.lxor_assoc, !Z.lxor_nilpotent, !Z.lxor_0_r, !register_app in E.
  assert (Hp : in_u 32 (register 0xffffffff p)) by (by apply register_range).
  apply register_inj in E; [|by apply register_range..].
  by apply register_burst in E.
Qed.

Lemma gpt_crc32_detects_witness : gpt_crc32 (lit "abcdef") ≠ gpt_crc32 (lit "abXdef").
Proof.
  apply (gpt_crc32_detects _ _ (message (lit "ab")) (bits (ch "c")) (bits (ch "X")) (message (lit "def")));
    try reflexivity; try (apply (bool_decide_unpack _); vm_compute; exact I).
Defined.

Lemma gpt_crc32_crc_witness : gpt_crc32 (lit "123456789") = Ret 0xCBF43926.
Proof. rewrite gpt_crc32_crc by (apply (bool_decide_unpack _); vm_compute; exact I). vm_compute. reflexivity. Defined.

End Crc32.
