(* ===== verification/Uuid.v ===== *)
(** * Universally unique identifiers

    [libmount/uuid.c]: identifiers as sixteen bytes and as text, and the mixed
    byte order that partition tables store them in.  A string is its bytes before
    the terminator; reads of the terminator and beyond are checked. *)

From S2P Require Import Prelude.
From stdpp Require Import base list numbers strings.
From Stdlib Require Import ZArith Lia Ascii.

#[local] Open Scope Z_scope.
#[local] Open Scope c_scope.

Module Uuid.

(** ** The functions *)

Definition UUID_STRING_LENGTH : nat := 36.

Definition is_hex_digit (c : Z) : bool :=
  ((ch "0" <=? c) && (c <=? ch "9")) || ((ch "a" <=? c) && (c <=? ch "f")) || ((ch "A" <=? c) && (c <=? ch "F")).

Definition read {A} (l : list A) (i : nat) : outcome A := match l !! i with Some x => Ret x | None => Undef end.

Definition base (bit4 : Z) : outcome Z := read (lit "0123456789abcdef" ++ [0]) (Z.to_nat bit4).

Definition debase (c : Z) : Z :=
  if (ch "0" <=? c) && (c <=? ch "9") then u8 (c - ch "0")
  else if (ch "a" <=? c) && (c <=? ch "f") then u8 (c - ch "a" + 10)
  else if (ch "A" <=? c) && (c <=? ch "F") then u8 (c - ch "A" + 10)
  else 0.

(** [i == 8 || i == 13 || i == 18 || i == 23] *)
Definition dash (i : nat) : bool :=
  ((i =? 8) || (i =? 13) || (i =? 18) || (i =? 23))%nat.

Fixpoint validate_loop (i : nat) (uuid : list Z) : bool :=
  match uuid with
  | [] => true
  | c :: uuid => (if dash i then c =? ch "-" else is_hex_digit c) && validate_loop (S i) uuid
  end.

Definition uuid_validate (uuid : list Z) : bool :=
  if negb (length uuid =? UUID_STRING_LENGTH)%nat then false else validate_loop 0 uuid.

Fixpoint from_string_loop (fuel : nat) (string : list Z) (i output_index : nat) (uuid : list Z) : outcome (list Z) :=
  match fuel with
  | O => OutOfFuel
  | S fuel =>
      if (36 <=? i)%nat then Ret uuid
      else
        c0 ← read (string ++ [0]) i;
        guard_def (negb (c0 =? 0));;
        if dash i then from_string_loop fuel string (i + 1) output_index uuid
        else
          c1 ← read (string ++ [0]) (i + 1);
          uuid ← write_at uuid (Z.of_nat output_index) [u8 (Z.lor (Z.shiftl (debase c0) 4) (Z.shiftl (debase c1) 0))];
          from_string_loop fuel string (i + 2) (output_index + 1) uuid
  end.

(** [uuid] is what the array held before. *)
Definition uuid_from_string (uuid string : list Z) : outcome (list Z) :=
  from_string_loop 37 string 0 0 uuid.

(** The two digits of each byte with an index from [i], [n] bytes in all. *)
Fixpoint hex_bytes (n i : nat) (uuid : list Z) : outcome (list Z) :=
  match n with
  | O => Ret []
  | S n =>
      b ← read uuid i;
      high ← base (Z.land (Z.shiftr b 4) 0xF);
      low ← base (Z.land (Z.shiftr b 0) 0xF);
      rest ← hex_bytes n (S i) uuid;
      Ret (high :: low :: rest)
  end.

(** The string written, without its terminator. *)
Definition uuid_to_string (uuid : list Z) : outcome (list Z) :=
  a ← hex_bytes 4 0 uuid;
  b ← hex_bytes 2 4 uuid;
  c ← hex_bytes 2 6 uuid;
  d ← hex_bytes 2 8 uuid;
  e ← hex_bytes 6 10 uuid;
  Ret (a ++ [ch "-"] ++ b ++ [ch "-"] ++ c ++ [ch "-"] ++ d ++ [ch "-"] ++ e).

Definition swap (i j : nat) (uuid : list Z) : outcome (list Z) :=
  t ← read uuid i; x ← read uuid j;
  uuid ← write_at uuid (Z.of_nat i) [x];
  write_at uuid (Z.of_nat j) [t].

Definition uuid_to_from_guid (uuid : list Z) : outcome (list Z) :=
  uuid ← swap 0 3 uuid;
  uuid ← swap 1 2 uuid;
  uuid ← swap 4 5 uuid;
  swap 6 7 uuid.

(** [uuid] is what the local array held. *)
Definition guid_from_string (uuid string : list Z) : outcome (list Z) :=
  uuid ← uuid_from_string uuid string; uuid_to_from_guid uuid.

Definition guid_to_string (guid : list Z) : outcome (list Z) :=
  uuid ← uuid_to_from_guid guid; uuid_to_string uuid.

(** ** Digits *)

Definition byte (b : Z) : Prop := 0 <= b < 256.
Definition hex (c : Z) : Prop := is_hex_digit c = true.

(** The digit of a value below sixteen. *)
Definition digit (n : Z) : Z := if n <? 10 then ch "0" + n else ch "a" + n - 10.
Definition digits (b : Z) : list Z := [digit (b / 16); digit (b mod 16)].

(** Upper case letters become lower case. *)
Definition lower (c : Z) : Z := if (ch "A" <=? c) && (c <=? ch "Z") then c + 32 else c.

Definition value (a b : Z) : Z := debase a * 16 + debase b.
Fixpoint pairs (ds : list Z) : list Z :=
  match ds with a :: b :: ds => value a b :: pairs ds | _ => [] end.

Lemma hex_cases (P : Z → Prop) `{!∀ c, Decision (P c)} :
  forallb (λ c, if is_hex_digit c then bool_decide (P c) else true) (seqZ 0 256) = true → ∀ c, hex c → P c.
Proof.
  intros Hall c Hc. rewrite forallb_forall in Hall. specialize (Hall c). rewrite Hc in Hall.
  eapply bool_decide_eq_true, Hall, list_elem_of_In, elem_of_seqZ.
  unfold hex, is_hex_digit in Hc. b2p; lia.
Qed.

Lemma debase_range c : hex c → 0 <= debase c < 16.
Proof. revert c. apply (hex_cases (λ c, 0 <= debase c < 16)). vm_compute. done. Qed.

Lemma hex_nonzero c : hex c → c ≠ 0.
Proof. revert c. apply (hex_cases (λ c, c ≠ 0)). vm_compute. done. Qed.

Lemma digit_debase c : hex c → digit (debase c) = lower c.
Proof. revert c. apply (hex_cases (λ c, digit (debase c) = lower c)). vm_compute. done. Qed.

Lemma digits_value a b : hex a → hex b → digits (value a b) = [lower a; lower b].
Proof.
  intros Ha Hb. pose proof (debase_range a Ha). pose proof (debase_range b Hb).
  unfold digits, value. rewrite Z.div_add_l, (Z.div_small (debase b)) by lia.
  rewrite (Z.add_comm (_ * _)), Z.mod_add, Z.mod_small, Z.add_0_r by lia. by rewrite !digit_debase.
Qed.

Lemma byte_digits b : byte b →
  base (Z.land (Z.shiftr b 4) 0xF) = Ret (digit (b / 16)) ∧
  base (Z.land (Z.shiftr b 0) 0xF) = Ret (digit (b mod 16)) ∧ Forall hex (digits b) ∧
  value (digit (b / 16)) (digit (b mod 16)) = b.
Proof.
  revert b. apply (byte_forall (λ b, base (Z.land (Z.shiftr b 4) 0xF) = Ret (digit (b / 16)) ∧
    base (Z.land (Z.shiftr b 0) 0xF) = Ret (digit (b mod 16)) ∧ Forall (λ c, is_hex_digit c = true) (digits b) ∧
    value (digit (b / 16)) (digit (b mod 16)) = b)). vm_compute. done.
Qed.

Lemma store_value a b : hex a → hex b → u8 (Z.lor (Z.shiftl (debase a) 4) (Z.shiftl (debase b) 0)) = value a b.
Proof.
  intros Ha Hb. pose proof (debase_range a Ha). pose proof (debase_range b Hb).
  rewrite Z.shiftl_0_r, Z.shiftl_mul_pow2, (lor_disjoint _ _ 4) by lia.
  apply wrapu_id. unfold in_u, value. change (2 ^ 8) with 256. change (2 ^ 4) with 16. lia.
Qed.

(** ** Groups of digits *)

(** The text of an identifier. *)
Definition text (a b c d e : list Z) : list Z :=
  a ++ [ch "-"] ++ b ++ [ch "-"] ++ c ++ [ch "-"] ++ d ++ [ch "-"] ++ e.

(** Positions of a group. *)
Definition plain (i n : nat) : Prop := ∀ j, (i <= j < i + n)%nat → dash j = false.

Lemma plain_groups : plain 0 8 ∧ plain 9 4 ∧ plain 14 4 ∧ plain 19 4 ∧ plain 24 12.
Proof.
  split_and!; intros j Hj; unfold dash; repeat rewrite orb_false_iff; rewrite !Nat.eqb_neq; lia.
Qed.

Lemma validate_loop_app i a b : validate_loop i (a ++ b) = validate_loop i a && validate_loop (i + length a) b.
Proof.
  revert i. induction a as [|x a IH]; intros i; simpl.
  - by rewrite Nat.add_0_r.
  - rewrite IH, andb_assoc. do 2 f_equal. lia.
Qed.

Lemma validate_plain i l : plain i (length l) → validate_loop i l = true ↔ Forall hex l.
Proof.
  revert i. induction l as [|x l IH]; intros i Hp; simpl; [done|].
  rewrite (Hp i) by (simpl; lia). rewrite andb_true_iff, Forall_cons, IH; [done|].
  intros j Hj. apply Hp. simpl. lia.
Qed.

Lemma validate_text a b c d e :
  length a = 8%nat → length b = 4%nat → length c = 4%nat → length d = 4%nat → length e = 12%nat →
  uuid_validate (text a b c d e) = true ↔
  Forall hex a ∧ Forall hex b ∧ Forall hex c ∧ Forall hex d ∧ Forall hex e.
Proof.
  intros Ha Hb Hc Hd He. destruct plain_groups as (P0 & P1 & P2 & P3 & P4).
  unfold uuid_validate, text. rewrite !length_app, Ha, Hb, Hc, Hd, He. simpl negb. cbv iota.
  rewrite !validate_loop_app, Ha, Hb, Hc, Hd. simpl length. simpl plus.
  rewrite !andb_true_iff, (validate_plain 0 a), (validate_plain 9 b), (validate_plain 14 c),
    (validate_plain 19 d), (validate_plain 24 e) by (by rewrite ?Ha, ?Hb, ?Hc, ?Hd, ?He). simpl. tauto.
Qed.

(** A string of the right length, cut where the dashes are. *)
Lemma cut s : uuid_validate s = true → ∃ a b c d e,
  s = text a b c d e ∧
  length a = 8%nat ∧ length b = 4%nat ∧ length c = 4%nat ∧ length d = 4%nat ∧ length e = 12%nat.
Proof.
  unfold uuid_validate. case_if; [done|]. apply Nat.eqb_eq in Eif. unfold UUID_STRING_LENGTH in Eif.
  do 36 (destruct s as [|? s]; [done|]). destruct s; [|done]. simpl. intros Hv. b2p. subst.
  exists [z;z0;z1;z2;z3;z4;z5;z6], [z8;z9;z10;z11], [z13;z14;z15;z16], [z18;z19;z20;z21],
    [z23;z24;z25;z26;z27;z28;z29;z30;z31;z32;z33;z34]. done.
Qed.

(** The loop of [uuid_from_string] over a group. *)
Lemma from_string_group k fuel pre ds post fin todo :
  length ds = (2 * k)%nat → Forall hex ds → plain (length pre) (2 * k) → (length pre + 2 * k <= 36)%nat →
  (k <= length todo)%nat →
  from_string_loop (k + fuel) (pre ++ ds ++ post) (length pre) (length fin) (fin ++ todo) =
  from_string_loop fuel (pre ++ ds ++ post) (length (pre ++ ds)) (length (fin ++ pairs ds))
    (fin ++ pairs ds ++ drop k todo).
Proof.
  revert pre ds fin todo. induction k as [|k IH]; intros pre ds fin todo Hl Hh Hp H36 Ht.
  { apply length_zero_iff_nil in Hl as ->. simpl. by rewrite !app_nil_r, drop_0. }
  destruct ds as [|a [|b ds]]; try (simpl in Hl; lia). destruct todo as [|x todo]; [simpl in Ht; lia|].
  apply Forall_cons in Hh as [Ha [Hb Hh]%Forall_cons].
  assert (Hra : read ((pre ++ (a :: b :: ds) ++ post) ++ [0]) (length pre) = Ret a).
  { unfold read. by rewrite <- !app_assoc, (lookup_app_r pre), Nat.sub_diag by lia. }
  assert (Hrb : read ((pre ++ (a :: b :: ds) ++ post) ++ [0]) (length pre + 1) = Ret b).
  { unfold read. rewrite <- !app_assoc, (lookup_app_r pre) by lia. by replace (length pre + 1 - length pre)%nat with 1%nat by lia. }
  assert (Hw : write_at (fin ++ x :: todo) (Z.of_nat (length fin)) [value a b] = Ret (fin ++ [value a b] ++ todo)).
  { apply (write_at_app fin [x] [value a b] todo). done. }
  simpl plus. cbn [from_string_loop].
  rewrite (proj2 (Nat.leb_gt _ _)) by lia. rewrite Hra. cbn -[read write_at from_string_loop app].
  rewrite (proj2 (Z.eqb_neq _ _) (hex_nonzero a Ha)). cbn -[read write_at from_string_loop app].
  rewrite (Hp (length pre)), Hrb by lia. cbn -[read write_at from_string_loop app debase].
  rewrite store_value, Hw by done. cbn -[read write_at from_string_loop app].
  specialize (IH (pre ++ [a; b]) ds (fin ++ [value a b]) todo).
  rewrite !length_app, <- !app_assoc in IH. simpl app in IH |- *. simpl length in IH. rewrite IH; [|simpl in *; try lia..].
  - f_equal; simpl; rewrite !length_app; simpl; lia.
  - done.
  - intros j Hj. apply Hp. lia.
Qed.

Lemma from_string_dash fuel pre post fin u :
  dash (length pre) = true → (length pre < 36)%nat →
  from_string_loop (S fuel) (pre ++ [ch "-"] ++ post) (length pre) fin u =
  from_string_loop fuel (pre ++ [ch "-"] ++ post) (length (pre ++ [ch "-"])) fin u.
Proof.
  intros Hd H36.
  assert (Hr : read ((pre ++ [ch "-"] ++ post) ++ [0]) (length pre) = Ret (ch "-")).
  { unfold read. by rewrite <- !app_assoc, (lookup_app_r pre), Nat.sub_diag by lia. }
  cbn [from_string_loop]. rewrite (proj2 (Nat.leb_gt _ _)), Hr by lia.
  cbn -[read write_at from_string_loop app]. by rewrite Hd, length_app.
Qed.

Lemma pairs_length k ds : length ds = (2 * k)%nat → length (pairs ds) = k.
Proof.
  revert ds. induction k as [|k IH]; intros ds Hl; [by apply length_zero_iff_nil in Hl as ->|].
  destruct ds as [|a [|b ds]]; simpl in *; [lia..|]. rewrite IH; lia.
Qed.

(** The same, with the positions as numbers. *)
Lemma group s pre ds post i out u fin todo k fuel :
  s = pre ++ ds ++ post → length pre = i → u = fin ++ todo → length fin = out →
  length ds = (2 * k)%nat → Forall hex ds → plain i (2 * k) → (i + 2 * k <= 36)%nat → (k <= length todo)%nat →
  from_string_loop (k + fuel) s i out u =
  from_string_loop fuel s (i + 2 * k) (out + k) ((fin ++ pairs ds) ++ drop k todo).
Proof.
  intros -> <- -> <- Hl Hh Hp H36 Ht. rewrite from_string_group by done.
  by rewrite !length_app, (pairs_length k), <- app_assoc, Hl.
Qed.

Lemma separator s pre post i out u fuel :
  s = pre ++ [ch "-"] ++ post → length pre = i → dash i = true → (i < 36)%nat →
  from_string_loop (S fuel) s i out u = from_string_loop fuel s (S i) out u.
Proof. intros -> <- Hd Hi. rewrite from_string_dash by done. by rewrite length_app, Nat.add_1_r. Qed.

(** The dash first, then the group. *)
Lemma next_group s pre ds post i out u fin todo k fuel :
  s = pre ++ [ch "-"] ++ ds ++ post → length pre = i → dash i = true →
  u = fin ++ todo → length fin = out →
  length ds = (2 * k)%nat → Forall hex ds → plain (S i) (2 * k) → (S i + 2 * k <= 36)%nat → (k <= length todo)%nat →
  from_string_loop (S (k + fuel)) s i out u =
  from_string_loop fuel s (S i + 2 * k) (out + k) ((fin ++ pairs ds) ++ drop k todo).
Proof.
  intros Hs Hi Hd Hu Ho Hl Hh Hp H36 Ht.
  rewrite (separator s pre (ds ++ post)) by (done || lia).
  apply (group s (pre ++ [ch "-"]) ds post); try done.
  - by rewrite Hs, <- app_assoc.
  - rewrite length_app, Hi. simpl. lia.
Qed.

#[local] Ltac side :=
  first [done | lia | (rewrite ?length_app, ?length_drop; simpl; lia) | (unfold text; by rewrite ?app_nil_r, <- ?app_assoc)].

Lemma from_string_text u a b c d e :
  length u = 16%nat →
  length a = 8%nat → length b = 4%nat → length c = 4%nat → length d = 4%nat → length e = 12%nat →
  Forall hex a → Forall hex b → Forall hex c → Forall hex d → Forall hex e →
  uuid_from_string u (text a b c d e) = Ret (pairs a ++ pairs b ++ pairs c ++ pairs d ++ pairs e).
Proof.
  intros Hu La Lb Lc Ld Le Ha Hb Hc Hd He. destruct plain_groups as (P0 & P1 & P2 & P3 & P4).
  pose proof (pairs_length 4 a La) as Ka. pose proof (pairs_length 2 b Lb) as Kb.
  pose proof (pairs_length 2 c Lc) as Kc. pose proof (pairs_length 2 d Ld) as Kd.
  pose proof (pairs_length 6 e Le) as Ke. pose (D := [ch "-"]).
  unfold uuid_from_string. set (s := text a b c d e).
  change 37%nat with (4 + S (2 + S (2 + S (2 + S (6 + 17)))))%nat.
  rewrite (group s [] a (D ++ b ++ D ++ c ++ D ++ d ++ D ++ e) 0 0 u [] u) by (done || lia).
  rewrite (next_group s a b (D ++ c ++ D ++ d ++ D ++ e) 8 4 _ (pairs a) (drop 4 u)) by side.
  rewrite (next_group s (a ++ D ++ b) c (D ++ d ++ D ++ e) 13 6 _ (pairs a ++ pairs b) (drop 2 (drop 4 u))) by side.
  rewrite (next_group s (a ++ D ++ b ++ D ++ c) d (D ++ e) 18 8 _ ((pairs a ++ pairs b) ++ pairs c)
             (drop 2 (drop 2 (drop 4 u)))) by side.
  rewrite (next_group s (a ++ D ++ b ++ D ++ c ++ D ++ d) e [] 23 10 _ (((pairs a ++ pairs b) ++ pairs c) ++ pairs d)
             (drop 2 (drop 2 (drop 2 (drop 4 u))))) by side.
  simpl. rewrite !drop_drop, drop_ge, app_nil_r, <- !app_assoc by lia. done.
Qed.

(** ** Printing *)

Lemma hex_bytes_digits n i u :
  Forall byte u → (i + n <= length u)%nat → hex_bytes n i u = Ret (take n (drop i u) ≫= digits).
Proof.
  intros Hu. revert i. induction n as [|n IH]; intros i Hl; [done|].
  destruct (lookup_lt_is_Some_2 u i) as [b Hb]; [lia|].
  pose proof (Forall_lookup_1 _ _ _ _ Hu Hb) as Hbyte. destruct (byte_digits b Hbyte) as (E1 & E2 & _).
  rewrite (drop_S _ b) by done. cbn [hex_bytes]. unfold read. rewrite Hb. cbn -[base hex_bytes Z.land Z.shiftr].
  rewrite E1, E2. cbn -[base hex_bytes]. rewrite IH by lia. done.
Qed.

Lemma to_string_text u : length u = 16%nat → Forall byte u →
  uuid_to_string u =
  Ret (text (take 4 u ≫= digits) (take 2 (drop 4 u) ≫= digits) (take 2 (drop 6 u) ≫= digits)
            (take 2 (drop 8 u) ≫= digits) (take 6 (drop 10 u) ≫= digits)).
Proof. intros Hl Hu. unfold uuid_to_string. by rewrite !hex_bytes_digits by (done || lia). Qed.

Lemma digits_facts l : Forall byte l →
  Forall hex (l ≫= digits) ∧ length (l ≫= digits) = (2 * length l)%nat ∧ pairs (l ≫= digits) = l.
Proof.
  induction 1 as [|b l Hb Hl (IH1 & IH2 & IH3)]; [done|]. destruct (byte_digits b Hb) as (_ & _ & Hh & Hv).
  change ((b :: l) ≫= digits) with (digits b ++ (l ≫= digits)). split_and!.
  - by apply Forall_app.
  - rewrite length_app, IH2. simpl. lia.
  - simpl. by rewrite Hv, IH3.
Qed.

Lemma pairs_facts k ds : length ds = (2 * k)%nat → Forall hex ds →
  Forall byte (pairs ds) ∧ pairs ds ≫= digits = lower <$> ds.
Proof.
  revert ds. induction k as [|k IH]; intros ds Hl Hh; [by apply length_zero_iff_nil in Hl as ->|].
  destruct ds as [|a [|b ds]]; try (simpl in Hl; lia).
  apply Forall_cons in Hh as [Ha [Hb Hh]%Forall_cons].
  destruct (IH ds ltac:(simpl in Hl; lia) Hh) as [IH1 IH2].
  pose proof (debase_range a Ha). pose proof (debase_range b Hb). split.
  - constructor; [unfold byte, value; lia|done].
  - change (digits (value a b) ++ (pairs ds ≫= digits) = lower a :: lower b :: (lower <$> ds)).
    by rewrite digits_value, IH2.
Qed.

(** An identifier is printed as a string that is valid and is parsed to it. *)
Lemma uuid_print_parse u init : length u = 16%nat → Forall byte u → length init = 16%nat →
  ∃ s, uuid_to_string u = Ret s ∧ uuid_validate s = true ∧ uuid_from_string init s = Ret u.
Proof.
  intros Hl Hu Hi. eexists. split; [by apply to_string_text|].
  assert (Hslice : ∀ n i, (i + n <= 16)%nat → let l := take n (drop i u) in
    Forall hex (l ≫= digits) ∧ length (l ≫= digits) = (2 * n)%nat ∧ pairs (l ≫= digits) = l).
  { intros n i Hn l. destruct (digits_facts l) as (H1 & H2 & H3); [by apply Forall_take, Forall_drop|].
    split_and!; [done| |done]. rewrite H2. subst l. rewrite length_take, length_drop. lia. }
  destruct (Hslice 4%nat 0%nat) as (H1 & L1 & E1); [lia|]. destruct (Hslice 2%nat 4%nat) as (H2 & L2 & E2); [lia|].
  destruct (Hslice 2%nat 6%nat) as (H3 & L3 & E3); [lia|]. destruct (Hslice 2%nat 8%nat) as (H4 & L4 & E4); [lia|].
  destruct (Hslice 6%nat 10%nat) as (H5 & L5 & E5); [lia|]. rewrite drop_0 in *. split.
  - by apply validate_text.
  - rewrite from_string_text, E1, E2, E3, E4, E5 by done. f_equal.
    do 16 (destruct u as [|? u]; [done|]). by destruct u.
Qed.

(** The two byte orders. *)
Lemma to_from_guid u : length u = 16%nat → Forall byte u →
  ∃ v, uuid_to_from_guid u = Ret v ∧ length v = 16%nat ∧ Forall byte v ∧ uuid_to_from_guid v = Ret u.
Proof.
  intros Hl Hu. do 16 (destruct u as [|? u]; [done|]). destruct u; [|done].
  exists [z2; z1; z0; z; z4; z3; z6; z5; z7; z8; z9; z10; z11; z12; z13; z14].
  split; [reflexivity|]. split; [done|]. split; [|reflexivity].
  repeat match goal with H : Forall byte (_ :: _) |- _ => apply Forall_cons in H as [? H] end.
  by repeat apply Forall_cons_2.
Qed.

(** A partition table's identifier, printed, is a valid string that is parsed to the
    same sixteen bytes. *)
Theorem guid_roundtrip u init : length u = 16%nat → Forall byte u → length init = 16%nat →
  ∃ s, guid_to_string u = Ret s ∧ uuid_validate s = true ∧ guid_from_string init s = Ret u.
Proof.
  intros Hl Hu Hi. destruct (to_from_guid u Hl Hu) as (v & Ev & Lv & Bv & Eu).
  destruct (uuid_print_parse v init Lv Bv Hi) as (s & Es & Vs & Ps).
  exists s. unfold guid_to_string, guid_from_string. by rewrite Ev, Ps.
Qed.

Lemma guid_roundtrip_witness :
  ∃ s, guid_to_string (seqZ 100 16) = Ret s ∧ uuid_validate s = true ∧
    guid_from_string (replicate 16 0) s = Ret (seqZ 100 16).
Proof. apply guid_roundtrip; [done|apply (bool_decide_unpack _); vm_compute; exact I|done]. Defined.

Lemma slices (a b c d e : list Z) :
  length a = 4%nat → length b = 2%nat → length c = 2%nat → length d = 2%nat → length e = 6%nat →
  let u := a ++ b ++ c ++ d ++ e in
  take 4 u = a ∧ take 2 (drop 4 u) = b ∧ take 2 (drop 6 u) = c ∧ take 2 (drop 8 u) = d ∧ take 6 (drop 10 u) = e.
Proof.
  intros La Lb Lc Ld Le.
  do 4 (destruct a as [|? a]; [done|]). do 2 (destruct b as [|? b]; [done|]). do 2 (destruct c as [|? c]; [done|]).
  do 2 (destruct d as [|? d]; [done|]). do 6 (destruct e as [|? e]; [done|]).
  by destruct a, b, c, d, e.
Qed.

(** C27.  A string [uuid_validate] accepts is parsed without failing an assertion, to sixteen
    bytes that are printed as the string in lower case. *)
Theorem uuid_parse_print s init : uuid_validate s = true → length init = 16%nat →
  ∃ u, uuid_from_string init s = Ret u ∧ length u = 16%nat ∧ Forall byte u ∧ uuid_to_string u = Ret (lower <$> s).
Proof.
  intros Hv Hi. destruct (cut s Hv) as (a & b & c & d & e & -> & La & Lb & Lc & Ld & Le).
  apply validate_text in Hv as (Ha & Hb & Hc & Hd & He); [|done..].
  eexists. split; [by apply from_string_text|].
  destruct (pairs_facts 4 a La Ha) as [Ba Ea]. destruct (pairs_facts 2 b Lb Hb) as [Bb Eb].
  destruct (pairs_facts 2 c Lc Hc) as [Bc Ec]. destruct (pairs_facts 2 d Ld Hd) as [Bd Ed].
  destruct (pairs_facts 6 e Le He) as [Be Ee].
  assert (Hbytes : Forall byte (pairs a ++ pairs b ++ pairs c ++ pairs d ++ pairs e)) by (by repeat apply Forall_app_2).
  pose proof (pairs_length 4 a La). pose proof (pairs_length 2 b Lb). pose proof (pairs_length 2 c Lc).
  pose proof (pairs_length 2 d Ld). pose proof (pairs_length 6 e Le).
  assert (Hlen : length (pairs a ++ pairs b ++ pairs c ++ pairs d ++ pairs e) = 16%nat) by (rewrite !length_app; lia).
  split_and!; [done..|]. rewrite to_string_text by done. unfold text.
  rewrite !fmap_app, <- Ea, <- Eb, <- Ec, <- Ed, <- Ee.
  destruct (slices (pairs a) (pairs b) (pairs c) (pairs d) (pairs e)) as (-> & -> & -> & -> & ->); done.
Qed.

Lemma uuid_parse_print_witness :
  ∃ u, uuid_from_string (replicate 16 0) (lit "C12A7328-F81F-11D2-BA4B-00A0C93EC93B") = Ret u ∧
    length u = 16%nat ∧ Forall byte u ∧ uuid_to_string u = Ret (lit "c12a7328-f81f-11d2-ba4b-00a0c93ec93b").
Proof. apply (uuid_parse_print (lit "C12A7328-F81F-11D2-BA4B-00A0C93EC93B") (replicate 16 0)); reflexivity. Defined.

End Uuid.
