(* ===== verification/Blockdev.v ===== *)
(** * Block devices

    [libmount/blockdevice.c] and [libc/ioleast/preadall.c], [preadleast.c]: a hard
    disk, and partitions of it, possibly nested, read as files of their own.

    [pread] is a system call and a parameter; the class [Disk] says what it does
    on a disk that works. *)

From S2P Require Import Prelude.
From stdpp Require Import base list numbers.
From Stdlib Require Import ZArith Lia.

#[local] Open Scope Z_scope.

Module Blockdev.

(** ** Data *)

(** What the functions use of [struct harddisk]. *)
Record harddisk := { st_size : Z; hd_path : list Z; hd_logical_block_size : Z; hd_writable : bool }.

(** A device is a hard disk, or a partition with its start, length and path on
    its parent. *)
Inductive blockdevice :=
| bdev_hd (hd : harddisk)
| bdev_p (p_start p_length : Z) (p_path : list Z) (parent_bdev : blockdevice).

(** The disk, [errno] ([None] when it holds something else), and the outcomes of
    the allocations to come; once they run out allocations succeed. *)
Record world (U : Type) := { disk : U; errno_ : option errno; allocs : list bool }.
Arguments disk {U} _.
Arguments errno_ {U} _.
Arguments allocs {U} _.

Definition set_errno {U} (e : errno) : M (world U) () :=
  λ w, Ret ((), {| disk := disk w; errno_ := Some e; allocs := allocs w |}).
Definition get_errno {U} : M (world U) (option errno) := λ w, Ret (errno_ w, w).

(** [malloc], [calloc], [realloc] or [asprintf], which set [errno] when they fail. *)
Definition allocate {U} : M (world U) bool := λ w,
  match allocs w with
  | false :: l => Ret (false, {| disk := disk w; errno_ := Some ENOMEM; allocs := l |})
  | true :: l => Ret (true, {| disk := disk w; errno_ := errno_ w; allocs := l |})
  | [] => Ret (true, w)
  end.

(** ** The functions *)

Fixpoint blockdevice_is_writable (bdev : blockdevice) : bool :=
  match bdev with bdev_hd hd => hd_writable hd | bdev_p _ _ _ parent => blockdevice_is_writable parent end.

Fixpoint blockdevice_logical_block_size (bdev : blockdevice) : Z :=
  match bdev with
  | bdev_hd hd => hd_logical_block_size hd
  | bdev_p _ _ _ parent => blockdevice_logical_block_size parent
  end.

Fixpoint reasonable_loop (fuel : nat) (cmp size : Z) : bool :=
  match fuel with
  | O => false
  | S fuel => if cmp <=? 65536 then if cmp =? size then true else reasonable_loop fuel (cmp * 2) size else false
  end.

Definition blockdevice_check_reasonable_block_size (size : Z) : bool :=
  if size <? 512 then false else reasonable_loop 9 512 size.

Definition blockdevice_size (bdev : blockdevice) : Z :=
  match bdev with bdev_hd hd => st_size hd | bdev_p _ length _ _ => length end.

(** [bdev->p ? bdev->p->path : bdev->hd->path] *)
Definition device_path (bdev : blockdevice) : list Z :=
  match bdev with bdev_hd hd => hd_path hd | bdev_p _ _ path _ => path end.

Section Read.
Context {U : Type} (pread : Z → Z → M U (errno + list Z)).

(** The system call, on the hard disk of the world. *)
Definition pread_ (count off : Z) : M (world U) (errno + list Z) := λ w,
  '(r, u) ← pread count off (disk w); Ret (r, {| disk := u; errno_ := errno_ w; allocs := allocs w |}).

(** [buf] holds the bytes read so far, [done] of them; a call that would write
    past the [max] bytes of the buffer has no outcome. *)
Fixpoint preadleast_loop (fuel : nat) (least max off : Z) (buf : list Z) : M (world U) (list Z) :=
  match fuel with
  | O => M_nofuel
  | S fuel =>
      let done := Z.of_nat (length buf) in
      r ← pread_ (max - done) (s64 (u64 (off + done)));
      match r with
      | inl e => set_errno e;; mret buf
      | inr [] => if done <? least then set_errno EEOF;; mret buf else mret buf
      | inr l =>
          M_lift (guard_def (Z.of_nat (length l) <=? max - done));;
          if done + Z.of_nat (length l) <? least then preadleast_loop fuel least max off (buf ++ l)
          else mret (buf ++ l)
      end
  end.

Definition preadleast (least max off : Z) : M (world U) (list Z) :=
  M_lift (guard_def (least <=? max));; preadleast_loop (S (Z.to_nat least)) least max off [].

Definition preadall (count off : Z) : M (world U) (list Z) := preadleast count count off.

Fixpoint preadall_loop (bdev : blockdevice) (count off : Z) : M (world U) (list Z) :=
  match bdev with
  | bdev_hd hd => preadall count off
  | bdev_p start length _ parent =>
      if length <? off then mret []
      else
        let available := length - off in
        let count := if available <? count then available else count in
        if negb (in_sb 64 (start + off)) then mret []
        else preadall_loop parent count (start + off)
  end.

Definition blockdevice_preadall (bdev : blockdevice) (count off : Z) : M (world U) (list Z) :=
  if off <? 0 then set_errno EINVAL;; mret [] else preadall_loop bdev count off.

End Read.

(** ** Block sizes *)

(** The powers of two from 512 to 65536. *)
Lemma reasonable_sizes size :
  blockdevice_check_reasonable_block_size size = true ↔ size ∈ (λ k, 512 * 2 ^ k) <$> seqZ 0 8.
Proof.
  change ((λ k, 512 * 2 ^ k) <$> seqZ 0 8) with [512; 1024; 2048; 4096; 8192; 16384; 32768; 65536].
  unfold blockdevice_check_reasonable_block_size. rewrite !elem_of_cons, elem_of_nil.
  case_if; [split; [by intros|lia]|]. cbn -[Z.eqb].
  repeat (match goal with |- context [?c =? size] => destruct (Z.eqb_spec c size) end; [split; [lia|done]|]).
  split; [by intros|lia].
Qed.

Lemma reasonable_range size : blockdevice_check_reasonable_block_size size = true → 512 <= size <= 65536.
Proof.
  rewrite reasonable_sizes. change ((λ k, 512 * 2 ^ k) <$> seqZ 0 8) with [512; 1024; 2048; 4096; 8192; 16384; 32768; 65536].
  rewrite !elem_of_cons, elem_of_nil. lia.
Qed.

(** ** Disks that work *)

(** The bytes of a disk, which reading does not change: a read gives some of
    those asked for, at least one unless at the end. *)
Class Disk {U : Type} (pread : Z → Z → M U (errno + list Z)) (valid : U → Prop) (content : list Z) : Prop := {
  disk_bytes : Forall (λ b, 0 <= b < 256) content;
  disk_size : Z.of_nat (length content) < 2 ^ 63;
  disk_read count off u : valid u → 0 <= count → 0 <= off →
    ∃ l u', pread count off u = Ret (inr l, u') ∧ valid u' ∧ l `prefix_of` drop (Z.to_nat off) content ∧
      Z.of_nat (length l) <= count ∧ (l = [] → count = 0 ∨ drop (Z.to_nat off) content = []);
}.

(** The bytes of a device on the disk. *)
Fixpoint region (content : list Z) (bdev : blockdevice) : list Z :=
  match bdev with
  | bdev_hd _ => content
  | bdev_p start length _ parent => take (Z.to_nat length) (drop (Z.to_nat start) (region content parent))
  end.

(** Every partition lies in its parent. *)
Fixpoint nested (content : list Z) (bdev : blockdevice) : Prop :=
  match bdev with
  | bdev_hd hd => st_size hd = Z.of_nat (length content)
  | bdev_p start length _ parent =>
      0 <= start ∧ 0 <= length ∧ start + length <= Z.of_nat (List.length (region content parent)) ∧
      nested content parent
  end.

Lemma region_length content bdev : nested content bdev →
  Z.of_nat (length (region content bdev)) = blockdevice_size bdev ∧
  (length (region content bdev) <= length content)%nat.
Proof.
  induction bdev as [hd|start len path parent IH]; simpl; [by intros ->|].
  intros (Hs & Hl & Hb & Hn). destruct (IH Hn) as [E1 E2]. rewrite length_take, length_drop. lia.
Qed.

Section Disks.
Context {U : Type} (pread : Z → Z → M U (errno + list Z)) (valid : U → Prop) (content : list Z)
  `{!Disk pread valid content}.

(** What a read leaves of the world: the disk is valid, and [errno] says the end
    was reached if it was. *)
Definition after (short : bool) (w w' : world U) : Prop :=
  valid (disk w') ∧ allocs w' = allocs w ∧ errno_ w' = if short then Some EEOF else errno_ w.

Lemma off_id x : 0 <= x < 2 ^ 63 → s64 (u64 x) = x.
Proof. intros Hx. rewrite wrapu_id, wraps_id by (unfold in_u, in_s; lia). done. Qed.

(** Reading more of what follows [buf]. *)
Lemma prefix_more (buf l rest : list Z) :
  buf `prefix_of` rest → l `prefix_of` drop (length buf) rest → buf ++ l `prefix_of` rest.
Proof. intros [k ->] [k' E]. rewrite drop_app_length in E. subst k. exists k'. by rewrite app_assoc. Qed.

Lemma prefix_whole (buf rest : list Z) n : buf `prefix_of` rest → (length buf = n ∨ buf = rest ∧ (n >= length buf)%nat) → take n rest = buf.
Proof.
  intros [k ->] [<-|[E Hn]]; [apply take_app_length|]. rewrite <- E. apply take_ge. lia.
Qed.

Lemma preadleast_loop_reads fuel count off buf w :
  valid (disk w) → 0 <= off → off + count < 2 ^ 63 →
  Z.of_nat (length buf) <= count → (Z.to_nat count < length buf + fuel)%nat →
  buf `prefix_of` drop (Z.to_nat off) content →
  ∃ w', let r := take (Z.to_nat count) (drop (Z.to_nat off) content) in
    preadleast_loop pread fuel count count off buf w = Ret (r, w') ∧
    after (Z.of_nat (length r) <? count) w w'.
Proof.
  revert buf w. induction fuel as [|fuel IH]; intros buf w Hv Hoff Hmax Hbuf Hfuel Hpre; [lia|].
  set (rest := drop (Z.to_nat off) content) in *. cbn zeta.
  destruct (disk_read (count - Z.of_nat (length buf)) (off + Z.of_nat (length buf)) (disk w) Hv)
    as (l & u & El & Hu & Hl & Hlen & Hnil); [lia..|].
  replace (drop (Z.to_nat (off + Z.of_nat (length buf))) content) with (drop (length buf) rest) in Hl, Hnil
    by (unfold rest; rewrite drop_drop; f_equal; lia).
  assert (Ep : pread_ pread (count - Z.of_nat (length buf)) (s64 (u64 (off + Z.of_nat (length buf)))) w =
    Ret (inr l, {| disk := u; errno_ := errno_ w; allocs := allocs w |})).
  { unfold pread_. rewrite off_id, El by lia. done. }
  cbn [preadleast_loop]. rewrite (M_bind_ret _ _ _ _ _ Ep). destruct l as [|x l].
  - assert (Er : take (Z.to_nat count) rest = buf).
    { apply prefix_whole; [done|]. destruct (Hnil eq_refl) as [Hz|Hz]; [left; lia|].
      right. split; [|lia]. destruct Hpre as [k Ek]. rewrite Ek, drop_app_length in Hz. by rewrite Ek, Hz, app_nil_r. }
    rewrite Er. destruct (Z.of_nat (length buf) <? count); by eexists.
  - pose proof (prefix_more _ _ _ Hpre Hl) as Hpre'.
    rewrite (M_bind_ret _ _ _ () {| disk := u; errno_ := errno_ w; allocs := allocs w |})
      by (unfold M_lift, guard_def; by rewrite (proj2 (Z.leb_le _ _))).
    case_if.
    + destruct (IH (buf ++ x :: l) {| disk := u; errno_ := errno_ w; allocs := allocs w |}) as (w' & E & Hw');
        [done..|rewrite length_app; lia|rewrite length_app; simpl; lia|done|]. exists w'. by rewrite E.
    + assert (Er : take (Z.to_nat count) rest = buf ++ x :: l).
      { apply prefix_whole; [done|]. left. rewrite length_app. lia. }
      rewrite Er, (proj2 (Z.ltb_ge _ _)) by (rewrite length_app; lia). by eexists.
Qed.

Lemma preadall_reads count off w :
  valid (disk w) → 0 <= count → 0 <= off → off + count < 2 ^ 63 →
  ∃ w', let r := take (Z.to_nat count) (drop (Z.to_nat off) content) in
    preadall pread count off w = Ret (r, w') ∧ after (Z.of_nat (length r) <? count) w w'.
Proof.
  intros Hv Hc Hoff Hmax. unfold preadall, preadleast.
  rewrite (M_bind_ret _ _ _ () w) by (unfold M_lift, guard_def; by rewrite (proj2 (Z.leb_le _ _)) by lia).
  apply preadleast_loop_reads; [done..|simpl; lia|simpl; lia|apply prefix_nil].
Qed.

(** A read of a device gives the bytes of its region of the disk, however the
    disk cuts reads up; at most as many as there are, and [errno] tells when
    that is fewer because the disk ended. *)
Lemma blockdevice_preadall_reads bdev count off w :
  nested content bdev → valid (disk w) → 0 <= count → 0 <= off → off + count < 2 ^ 63 →
  ∃ w' short, let r := take (Z.to_nat count) (drop (Z.to_nat off) (region content bdev)) in
    blockdevice_preadall pread bdev count off w = Ret (r, w') ∧ after short w w' ∧
    (short = true → (Z.of_nat (length r) < count)).
Proof.
  unfold blockdevice_preadall. intros Hn Hv Hc Hoff Hmax. rewrite (proj2 (Z.ltb_ge _ _)) by lia.
  revert count off Hc Hoff Hmax Hn. induction bdev as [hd|start len path parent IH]; intros count off Hc Hoff Hmax Hn.
  - destruct (preadall_reads count off w) as (w' & E & Hw'); [done..|]. exists w'. simpl. eexists.
    split; [done|]. split; [done|]. intros. by apply Z.ltb_lt.
  - destruct Hn as (Hs & Hl & Hb & Hn). cbn [preadall_loop region].
    destruct (region_length content parent Hn) as [_ Hle]. pose proof disk_size.
    case_if.
    { exists w, false. split; [|by split_and!]. rewrite drop_ge, take_nil; [done|]. rewrite length_take. lia. }
    rewrite (proj2 (negb_false_iff _)) by (unfold in_sb; rewrite andb_true_iff, Z.leb_le, Z.ltb_lt; lia).
    set (count' := if len - off <? count then len - off else count).
    assert (Hc' : 0 <= count' <= count ∧ count' = Z.min count (len - off)) by (unfold count'; case_if; lia).
    destruct (IH count' (start + off)) as (w' & short & E & Hw' & Hshort); [lia..|done|].
    exists w', short. rewrite E.
    replace (take (Z.to_nat count) (drop (Z.to_nat off) (take (Z.to_nat len) (drop (Z.to_nat start) (region content parent)))))
      with (take (Z.to_nat count') (drop (Z.to_nat (start + off)) (region content parent))).
    { split_and!; [done..|]. intros Hs'. specialize (Hshort Hs'). lia. }
    rewrite skipn_firstn_comm, drop_drop, take_take. f_equal; [lia|f_equal; lia].
Qed.

End Disks.

End Blockdev.
