(* ===== verification/Partition.v ===== *)
(** * Partitions

    The data of [libmount/include/mount/partition.h] and [error.h], the
    comparisons and the overlap test of [libmount/partition.c], the helpers of
    [libmount/util.h], and what the readers of partition tables share: tables
    under construction, numbers in little endian, sorting an array of pointers. *)

From S2P Require Import Prelude Memory Sort Printf Blockdev.
From stdpp Require Import base list numbers strings sorting.
From Stdlib Require Import ZArith Lia Ascii Sorted Permutation.

#[local] Open Scope Z_scope.
#[local] Open Scope c_scope.

Module Partition.
Import Blockdev.

(** ** Data *)

Inductive partition_type := PARTITION_TYPE_PRIMARY | PARTITION_TYPE_EXTENDED | PARTITION_TYPE_LOGICAL.

Inductive partition_table_type :=
| PARTITION_TABLE_TYPE_NONE | PARTITION_TABLE_TYPE_UNKNOWN | PARTITION_TABLE_TYPE_MBR | PARTITION_TABLE_TYPE_GPT.

Inductive partition_error :=
| PARTITION_ERROR_NONE
| PARTITION_ERROR_ABSENT
| PARTITION_ERROR_UNRECOGNIZED
| PARTITION_ERROR_ERRNO
| PARTITION_ERROR_INVALID
| PARTITION_ERROR_HEADER_TOO_LARGE
| PARTITION_ERROR_CHECKSUM
| PARTITION_ERROR_OVERLAP
| PARTITION_ERROR_END_BEFORE_START
| PARTITION_ERROR_BEFORE_USABLE
| PARTITION_ERROR_BEYOND_DEVICE
| PARTITION_ERROR_BEYOND_EXTENDED
| PARTITION_ERROR_BEYOND_USABLE
| PARTITION_ERROR_TOO_EXTENDED
| PARTITION_ERROR_BAD_EXTENDED
| PARTITION_ERROR_NONLINEAR_EXTENDED.

Record partition := {
  path : list Z;
  start : Z;
  length_ : Z;
  extended_start : Z;
  extended_length : Z;
  type : partition_type;
  table_type : partition_table_type;
  index : Z;
  gpt_type_guid : list Z;
  gpt_unique_guid : list Z;
  mbr_system_id : Z;
  gpt_name : list Z;
  gpt_attributes : Z;
}.

(** [struct mbr_partition_table] with its chain of boot records and their
    offsets, or [struct gpt_partition_table]. *)
Inductive raw_partition_table :=
| raw_none
| raw_mbr (mbr : list Z) (ebr_chain : list (list Z * Z))
| raw_gpt (gpt rpt : list Z).

Record partition_table := {
  pt_type : partition_table_type;
  partitions : list partition;
  gpt_disk_guid : list Z;
  raw : raw_partition_table;
  usable_start : Z;
  usable_end : Z;
}.

#[global] Instance partition_type_eq_dec : EqDecision partition_type.
Proof. solve_decision. Defined.
#[global] Instance partition_table_type_eq_dec : EqDecision partition_table_type.
Proof. solve_decision. Defined.
#[global] Instance partition_error_eq_dec : EqDecision partition_error.
Proof. solve_decision. Defined.
#[global] Instance partition_eq_dec : EqDecision partition.
Proof. solve_decision. Defined.

(** ** Comparisons *)

Definition partition_compare_index (a b : partition) : Z :=
  if index a <? index b then -1 else if index b <? index a then 1 else 0.

Definition partition_compare_start (a b : partition) : Z :=
  if start a <? start b then -1 else if start b <? start a then 1 else 0.

(** A pointer to the [i]th partition, as it is stored in the array, and the
    partition a pointer leads to. *)
Definition pointer (i : nat) : list Z := Mem.le_split 8 (Z.of_nat i).

Fixpoint le_value (l : list Z) : Z := match l with [] => 0 | b :: l => b + 256 * le_value l end.

Definition zero_partition : partition := {|
  path := []; start := 0; length_ := 0; extended_start := 0; extended_length := 0; type := PARTITION_TYPE_PRIMARY;
  table_type := PARTITION_TABLE_TYPE_NONE; index := 0; gpt_type_guid := replicate 16 0;
  gpt_unique_guid := replicate 16 0; mbr_system_id := 0; gpt_name := []; gpt_attributes := 0 |}.

Definition deref (ps : list partition) (ptr : list Z) : partition :=
  default zero_partition (ps !! Z.to_nat (le_value ptr)).

Definition partition_compare_index_indirect (ps : list partition) (a_ptr b_ptr : list Z) : Z :=
  partition_compare_index (deref ps a_ptr) (deref ps b_ptr).

(** The code compares the indices here too. *)
Definition partition_compare_start_indirect (ps : list partition) (a_ptr b_ptr : list Z) : Z :=
  partition_compare_index (deref ps a_ptr) (deref ps b_ptr).

(** [qsort] of the array of pointers. *)
Definition qsort_partitions (compare : list partition → list Z → list Z → Z) (ps : list partition)
    : outcome (list partition) :=
  ptrs ← (Sort.qsort (compare ps) (map pointer (seq 0 (length ps))) (length ps) 8 : outcome (list (list Z)));
  Ret (map (deref ps) ptrs).

(** ** Overlap *)

Definition partition_check_overlap (p : partition) (start_ length : Z) : outcome bool :=
  guard_def (0 <=? start_);; guard_def (0 <=? length);;
  guard_def (0 <=? start p);; guard_def (0 <=? length_ p);;
  Ret (if start_ <=? start p then (start p - start_ <? length) else (start_ - start p <? length_ p)).

(** ** Little endian *)

(** [load w l off]: the number in [w] bytes of a structure; on the machines the
    system runs on, [le16toh] and the like change nothing. *)
Definition le16toh (x : Z) : Z := x.
Definition le32toh (x : Z) : Z := x.
Definition le64toh (x : Z) : Z := x.

Definition slice (off n : nat) (l : list Z) : list Z := take n (drop off l).
Definition load (off n : nat) (l : list Z) : Z := le_value (slice off n l).

(** ** Helpers *)

Fixpoint memiszero (mem : list Z) : bool :=
  match mem with [] => true | b :: mem => if negb (b =? 0) then false else memiszero mem end.

(** The name of a partition, as [asprintf] prints ["%sp%u"]. *)
Definition partition_path (device_path : list Z) (index : Z) : list Z :=
  device_path ++ [ch "p"] ++ match Printf.convert_integer 24 index 10 Printf.lower_digits with Ret ds => ds | _ => [] end.

(** A table under construction, with the room in its array of partitions. *)
Record building := { pt : partition_table; partitions_length : Z }.

(** The functions that read a table return early with an error, and leave the
    table as it is then. *)
Definition T (U A : Type) : Type := building → M (world U) ((partition_error + A) * building).

#[global] Instance T_ret {U} : MRet (T U) := λ A a b, mret (inr a, b).
#[global] Instance T_bind {U} : MBind (T U) := λ A B f c b,
  r ← c b;
  match r with (inr a, b') => f a b' | (inl e, b') => mret (inl e, b') end.

Definition throw {U A} (e : partition_error) : T U A := λ b, mret (inl e, b).
Definition perform {U A} (c : M (world U) A) : T U A := λ b, a ← c; mret (inr a, b).
Definition check {U} (bad : bool) (e : partition_error) : T U () := if bad then throw e else mret ().
Definition get_pt {U} : T U partition_table := λ b, mret (inr (pt b), b).
Definition set_pt {U} (f : partition_table → partition_table) : T U () := λ b,
  mret (inr (), {| pt := f (pt b); partitions_length := partitions_length b |}).

Definition with_partitions (ps : list partition) (t : partition_table) : partition_table :=
  {| pt_type := pt_type t; partitions := ps; gpt_disk_guid := gpt_disk_guid t; raw := raw t;
     usable_start := usable_start t; usable_end := usable_end t |}.
Definition with_raw (r : raw_partition_table) (t : partition_table) : partition_table :=
  {| pt_type := pt_type t; partitions := partitions t; gpt_disk_guid := gpt_disk_guid t; raw := r;
     usable_start := usable_start t; usable_end := usable_end t |}.
Definition with_usable (s e : Z) (t : partition_table) : partition_table :=
  {| pt_type := pt_type t; partitions := partitions t; gpt_disk_guid := gpt_disk_guid t; raw := raw t;
     usable_start := s; usable_end := e |}.
Definition with_guid (g : list Z) (t : partition_table) : partition_table :=
  {| pt_type := pt_type t; partitions := partitions t; gpt_disk_guid := g; raw := raw t;
     usable_start := usable_start t; usable_end := usable_end t |}.

(** [CALLOC_TYPE] of a table of this type. *)
Definition new_table (ty : partition_table_type) : building :=
  {| pt := {| pt_type := ty; partitions := []; gpt_disk_guid := replicate 16 0; raw := raw_none;
              usable_start := 0; usable_end := 0 |};
     partitions_length := 0 |}.

(** The array grows to twice its length, or eight, when it is full. *)
Definition array_add {U} (p : partition) : T U bool := λ b,
  let used := Z.of_nat (length (partitions (pt b))) in
  let length := if partitions_length b =? 0 then 4 else partitions_length b in
  let add n := {| pt := with_partitions (partitions (pt b) ++ [p]) (pt b); partitions_length := n |} in
  if used =? partitions_length b then
    ok ← allocate;
    if (ok : bool) then mret (inr true, add (length * 2)) else mret (inr false, b)
  else mret (inr true, add (partitions_length b)).

(** What the functions return: the error, and the table if it was allocated. *)
Definition finish {U} (c : T U ()) (b : building) : M (world U) (partition_error * option partition_table) :=
  '(r, b) ← c b;
  mret (match r with inl e => e | inr _ => PARTITION_ERROR_NONE end, Some (pt b)).

(** ** Overlap *)

(** The byte [x] of the device is in the partition. *)
Definition inside (p : partition) (x : Z) : Prop := start p <= x < start p + length_ p.

Definition disjoint_ (p q : partition) : Prop := ∀ x, inside p x → inside q x → False.

Lemma check_overlap_spec p q :
  0 <= start p → 0 < length_ p → 0 <= start q → 0 < length_ q →
  ∃ b, partition_check_overlap p (start q) (length_ q) = Ret b ∧ (b = false ↔ disjoint_ p q).
Proof.
  intros Hp Hlp Hq Hlq. unfold partition_check_overlap, guard_def.
  rewrite !(proj2 (Z.leb_le 0 _)) by lia. eexists. split; [reflexivity|].
  unfold disjoint_, inside. split.
  - case_if; intros Hb x; b2p; lia.
  - intros Hd. specialize (Hd (Z.max (start p) (start q))). case_if; [apply Z.ltb_ge|apply Z.ltb_ge]; lia.
Qed.

(** ** Sorting *)

Lemma le_value_split n v : 0 <= v < 256 ^ Z.of_nat n → le_value (Mem.le_split n v) = v.
Proof.
  revert v. induction n as [|n IH]; intros v Hv; [simpl in *; lia|].
  rewrite Nat2Z.inj_succ, Z.pow_succ_r in Hv by lia. cbn [Mem.le_split le_value].
  rewrite IH; [symmetry; rewrite Z.add_comm; apply Z.div_mod; lia|].
  split; [apply Z.div_pos; lia|apply Z.div_lt_upper_bound; lia].
Qed.

Lemma deref_pointer ps i : Z.of_nat i < 2 ^ 64 → deref ps (pointer i) = default zero_partition (ps !! i).
Proof. intros Hi. unfold deref, pointer. rewrite le_value_split, Nat2Z.id; [done|]. split; [lia|exact Hi]. Qed.

#[global] Instance compare_index_comparator ps : Sort.Comparator (partition_compare_index_indirect ps).
Proof.
  split; unfold partition_compare_index_indirect, partition_compare_index; intros.
  - destruct (Z.ltb_spec (index (deref ps a)) (index (deref ps b))),
      (Z.ltb_spec (index (deref ps b)) (index (deref ps a))); lia.
  - revert H H0. b2p_if; lia.
Qed.

#[global] Instance compare_start_comparator ps : Sort.Comparator (partition_compare_start_indirect ps).
Proof. apply compare_index_comparator. Qed.

(** Sorting yields the partitions in an order in which the comparison does not
    decrease. *)
Lemma qsort_partitions_sorts compare ps `{!Sort.Comparator (compare ps)} :
  Z.of_nat (length ps) <= 2 ^ 64 →
  ∃ ptrs, qsort_partitions compare ps = Ret (map (deref ps) ptrs) ∧ map (deref ps) ptrs ≡ₚ ps ∧
    StronglySorted (λ a b, compare ps a b <= 0) ptrs.
Proof.
  intros Hlen. unfold qsort_partitions, Sort.qsort.
  destruct (Sort.qsort_r_run (compare ps) 8 (map pointer (seq 0 (length ps)))) as (ptrs & E & Hp & Hs).
  { apply Forall_fmap, Forall_true. intros i. apply Mem.length_le_split. }
  rewrite length_map, length_seq in E. exists ptrs. rewrite E. split_and!; [done| |done].
  rewrite Hp, map_map. apply reflexive_eq.
  apply list_eq. intros i. rewrite list_lookup_fmap. destruct (decide (i < length ps)%nat) as [Hi|Hi].
  - rewrite lookup_seq_lt by done. simpl. rewrite deref_pointer by lia.
    destruct (lookup_lt_is_Some_2 ps i Hi) as [p Ep]. by rewrite Ep.
  - rewrite lookup_seq_ge by lia. symmetry. apply lookup_ge_None_2. lia.
Qed.

Lemma sorted_lookup_lt {A} (R : A → A → Prop) l i j x y :
  StronglySorted R l → l !! i = Some x → l !! j = Some y → (i < j)%nat → R x y.
Proof.
  intros Hl. revert i j. induction Hl as [|a l Hl IH Ha]; intros i j Hi Hj Hij; [done|].
  destruct j as [|j]; [lia|]. destruct i as [|i]; simplify_eq/=.
  - by apply (Forall_lookup_1 _ _ _ _ Ha Hj).
  - apply (IH i j); [done..|lia].
Qed.

(** An array whose indices increase stays as it is. *)
Lemma qsort_index_sorted compare ps :
  compare = partition_compare_index_indirect ∨ compare = partition_compare_start_indirect →
  Z.of_nat (length ps) <= 2 ^ 64 → StronglySorted (λ p q, index p < index q) ps →
  qsort_partitions compare ps = Ret ps.
Proof.
  intros Hcmp Hlen Hps. assert (Hc : Sort.Comparator (compare ps)) by (destruct Hcmp as [->| ->]; apply _).
  destruct (qsort_partitions_sorts compare ps Hlen) as (ptrs & -> & Hp & Hs). f_equal.
  apply (StronglySorted_unique_strong (λ p q, index p <= index q)); [..|done].
  - intros p q Hpin Hqin H1 H2. rewrite Hp in Hpin.
    apply list_elem_of_lookup in Hpin as [i Hi], Hqin as [j Hj].
    destruct (Nat.lt_trichotomy i j) as [Hij|[->|Hij]]; [|congruence|];
      [pose proof (sorted_lookup_lt _ _ _ _ _ _ Hps Hi Hj Hij)
      |pose proof (sorted_lookup_lt _ _ _ _ _ _ Hps Hj Hi Hij)]; simpl in *; lia.
  - clear -Hs Hcmp. induction Hs as [|a l Hs IH Ha]; simpl; constructor; [done|].
    apply Forall_fmap. eapply Forall_impl; [exact Ha|]. intros b Hab.
    destruct Hcmp as [->| ->];
      unfold partition_compare_index_indirect, partition_compare_start_indirect, partition_compare_index in Hab; simpl;
      revert Hab; b2p_if; lia.
  - clear -Hps. induction Hps as [|a l Hs IH Ha]; constructor; [done|].
    eapply Forall_impl; [exact Ha|]. simpl. lia.
Qed.

(** ** Reasoning about readers *)

Section Logic.
Context {U : Type} (good : world U → Prop).

(** From a good world the reader ends, in a good world, with a result and a table
    that satisfy [Q]. *)
Definition runs {A} (c : T U A) (b : building) (Q : partition_error + A → building → Prop) : Prop :=
  ∀ w, good w → ∃ r b' w', c b w = Ret ((r, b'), w') ∧ good w' ∧ Q r b'.

Lemma runs_mono {A} (c : T U A) b (Q Q' : partition_error + A → building → Prop) :
  runs c b Q → (∀ r b', Q r b' → Q' r b') → runs c b Q'.
Proof. intros Hc HQ w Hw. destruct (Hc w Hw) as (r & b' & w' & E & Hw' & HR). exists r, b', w'. auto. Qed.

Lemma runs_ret {A} (a : A) b (Q : partition_error + A → building → Prop) : Q (inr a) b → runs (mret a) b Q.
Proof. intros HQ w Hw. by exists (inr a), b, w. Qed.

Lemma runs_throw {A} e b (Q : partition_error + A → building → Prop) : Q (inl e) b → runs (throw e) b Q.
Proof. intros HQ w Hw. by exists (inl e), b, w. Qed.

Lemma runs_bind {A B} (c : T U A) (f : A → T U B) b (Q : partition_error + B → building → Prop) :
  runs c b (λ r b', match r with inr a => runs (f a) b' Q | inl e => Q (inl e) b' end) → runs (c ≫= f) b Q.
Proof.
  intros Hc w Hw. destruct (Hc w Hw) as (r & b' & w' & E & Hw' & HR). unfold mbind, T_bind.
  rewrite (M_bind_ret _ _ _ _ _ E). destruct r as [e|a]; [by exists (inl e), b', w'|]. by apply HR.
Qed.

Lemma runs_check bad e b (Q : partition_error + () → building → Prop) :
  (bad = false → Q (inr ()) b) → (bad = true → Q (inl e) b) → runs (check bad e) b Q.
Proof. intros H1 H2. destruct bad; [by apply runs_throw, H2|by apply runs_ret, H1]. Qed.

Lemma runs_perform {A} (c : M (world U) A) b (Q : partition_error + A → building → Prop) :
  (∀ w, good w → ∃ a w', c w = Ret (a, w') ∧ good w' ∧ Q (inr a) b) → runs (perform c) b Q.
Proof.
  intros Hc w Hw. destruct (Hc w Hw) as (a & w' & E & Hw' & HQ). exists (inr a), b, w'.
  unfold perform. by rewrite (M_bind_ret _ _ _ _ _ E).
Qed.

Lemma runs_lift {A} (o : outcome A) a b (Q : partition_error + A → building → Prop) :
  o = Ret a → Q (inr a) b → runs (perform (M_lift o)) b Q.
Proof. intros -> HQ. apply runs_perform. intros w Hw. by exists a, w. Qed.

Lemma runs_get b (Q : partition_error + partition_table → building → Prop) : Q (inr (pt b)) b → runs get_pt b Q.
Proof. intros HQ w Hw. by exists (inr (pt b)), b, w. Qed.

Lemma runs_set f b (Q : partition_error + () → building → Prop) :
  Q (inr ()) {| pt := f (pt b); partitions_length := partitions_length b |} → runs (set_pt f) b Q.
Proof. intros HQ w Hw. by eexists (inr ()), _, w. Qed.

(** A result of the function: an error, or none. *)
Lemma finish_runs (c : T U ()) b w Q :
  runs c b Q → good w →
  ∃ r b' w', finish c b w = Ret ((match r with inl e => e | inr _ => PARTITION_ERROR_NONE end, Some (pt b')), w') ∧
    good w' ∧ Q r b'.
Proof.
  intros Hc Hw. destruct (Hc w Hw) as (r & b' & w' & E & Hw' & HQ). exists r, b', w'.
  unfold finish. by rewrite (M_bind_ret _ _ _ _ _ E).
Qed.

End Logic.

(** What a reader relies on: reading the device [bdev] gives what [reads] says,
    and allocations fail only if [fallible]. *)
Class Environment {U : Type} (pread : Z → Z → M U (errno + list Z)) (good : world U → Prop) (fallible : bool)
    (bdev : blockdevice) (reads : Z → Z → list Z → Prop) : Prop := {
  env_alloc w : good w → ∃ ok w', allocate w = Ret (ok, w') ∧ good w' ∧ (ok = false → fallible = true);
  env_errno e w : good w → ∃ w', set_errno e w = Ret ((), w') ∧ good w';
  env_read count off w : good w → 0 <= count → 0 <= off → off + count < 2 ^ 63 →
    ∃ l w', blockdevice_preadall pread bdev count off w = Ret (l, w') ∧ good w' ∧ reads count off l;
  env_bytes count off l : reads count off l → Forall (λ b, 0 <= b < 256) l;
  env_exact count off l l' : fallible = false → reads count off l → reads count off l' → l = l';
}.

(** A disk that works, and memory that suffices. *)
Definition works {U} (valid : U → Prop) (w : world U) : Prop := valid (disk w) ∧ allocs w = [].
Definition reads_exactly (d : list Z) (count off : Z) (l : list Z) : Prop :=
  l = take (Z.to_nat count) (drop (Z.to_nat off) d).

#[global] Instance works_environment {U} (pread : Z → Z → M U (errno + list Z)) valid content bdev :
  Disk pread valid content → nested content bdev →
  Environment pread (works valid) false bdev (reads_exactly (region content bdev)).
Proof.
  intros HD Hn. split.
  - intros w [Hv Ha]. exists true, w. unfold allocate. rewrite Ha. done.
  - intros e w [Hv Ha]. eexists. split; [reflexivity|]. done.
  - intros count off w [Hv Ha] Hc Ho Hb.
    destruct (blockdevice_preadall_reads pread valid content bdev count off w) as (w' & sh & E & (Hv' & Ha' & _) & _);
      [done..|]. eexists _, w'. split; [exact E|]. split; [|done]. split; [done|]. congruence.
  - intros count off l ->. apply Forall_take, Forall_drop. clear Hn. induction bdev as [|? ? ? ? IH]; simpl.
    + apply disk_bytes.
    + by apply Forall_take, Forall_drop.
  - by intros count off l l' _ -> ->.
Qed.

(** Anything that reads at most as many bytes as it is asked for, or fails, with
    allocations that may fail. *)
Class Reader {U : Type} (pread : Z → Z → M U (errno + list Z)) : Prop := {
  reader count off u : 0 <= count → ∃ r u', pread count off u = Ret (r, u') ∧
    match r with inr l => Z.of_nat (length l) <= count ∧ Forall (λ b, 0 <= b < 256) l | inl _ => True end;
}.

Definition anything {U} (w : world U) : Prop := True.
Definition reads_some (count off : Z) (l : list Z) : Prop :=
  Z.of_nat (length l) <= count ∧ Forall (λ b, 0 <= b < 256) l.

Lemma preadleast_loop_some {U} (pread : Z → Z → M U (errno + list Z)) `{!Reader pread} fuel count off buf w :
  reads_some count off buf → (Z.to_nat count < length buf + fuel)%nat →
  ∃ l w', preadleast_loop pread fuel count count off buf w = Ret (l, w') ∧ reads_some count off l.
Proof.
  revert buf w. induction fuel as [|fuel IH]; intros buf w [Hlen Hb] Hf; [lia|].
  destruct (reader (count - Z.of_nat (length buf)) (s64 (u64 (off + Z.of_nat (length buf)))) (disk w)) as (r & u & E & Hr); [lia|].
  assert (Ep : pread_ pread (count - Z.of_nat (length buf)) (s64 (u64 (off + Z.of_nat (length buf)))) w =
    Ret (r, {| disk := u; errno_ := errno_ w; allocs := allocs w |})) by (unfold pread_; by rewrite E).
  cbn [preadleast_loop]. rewrite (M_bind_ret _ _ _ _ _ Ep). destruct r as [e|[|x l]].
  - eexists buf, _. split; [reflexivity|]. done.
  - case_if; eexists buf, _; (split; [reflexivity|done]).
  - destruct Hr as [Hl Hbl]. rewrite (M_bind_ret _ _ _ () {| disk := u; errno_ := errno_ w; allocs := allocs w |})
      by (unfold M_lift, guard_def; by rewrite (proj2 (Z.leb_le _ _))).
    assert (Hs : reads_some count off (buf ++ x :: l)).
    { split; [rewrite length_app; lia|]. by apply Forall_app. }
    case_if; [|by eexists _, _].
    apply IH; [done|]. rewrite length_app. simpl. lia.
Qed.

#[global] Instance reader_environment {U} (pread : Z → Z → M U (errno + list Z)) `{!Reader pread} bdev :
  Environment pread anything true bdev reads_some.
Proof.
  split.
  - intros [d e [|[] a]] _; by eexists _, _.
  - intros e w _. by eexists.
  - intros count off w _ Hc Ho _. unfold blockdevice_preadall. rewrite (proj2 (Z.ltb_ge _ _)) by lia.
    cut (∃ l w', preadall_loop pread bdev count off w = Ret (l, w') ∧ reads_some count off l).
    { intros (l & w' & E & Hl). by exists l, w'. }
    clear Ho. revert count off Hc. induction bdev as [hd|st len path parent IH]; intros count off Hc.
    + cbn [preadall_loop]. unfold preadall, preadleast.
      rewrite (M_bind_ret _ _ _ () w) by (unfold M_lift, guard_def; by rewrite (proj2 (Z.leb_le _ _)) by lia).
      apply preadleast_loop_some; [done|split; [simpl; lia|done]|simpl; lia].
    + cbn [preadall_loop]. assert (Hnil : reads_some count off []) by (split; [simpl; lia|done]).
      case_if; [by eexists [], w|]. destruct (in_sb 64 (st + off)); cbn [negb]; [|by eexists [], w].
      destruct (IH (if len - off <? count then len - off else count) (st + off)) as (l & w' & E & Hl & Hb);
        [case_if; lia|]. exists l, w'. split; [done|]. split; [|done]. revert Hl. case_if; lia.
  - by intros count off l [_ Hl].
  - done.
Qed.

(** A disk image, for examples. *)
Definition image_pread (content : list Z) (count off : Z) : M () (errno + list Z) :=
  mret (inr (take (Z.to_nat count) (drop (Z.to_nat off) content))).

#[global] Instance image_disk content :
  Forall (λ b, 0 <= b < 256) content → Z.of_nat (length content) < 2 ^ 63 →
  Disk (image_pread content) (λ _, True) content.
Proof.
  intros Hb Hl. split; [done..|]. intros count off [] _ Hc Ho. eexists _, (). split; [reflexivity|].
  split; [done|]. split; [eexists; symmetry; apply take_drop|]. split; [rewrite length_take; lia|].
  intros E. apply (f_equal length) in E. rewrite length_take in E. simpl in E.
  destruct (drop (Z.to_nat off) content); [by right|]. left. simpl in E. lia.
Qed.

#[global] Instance image_reader content : Forall (λ b, 0 <= b < 256) content → Reader (image_pread content).
Proof.
  intros Hb. split. intros count off [] Hc. eexists _, (). split; [reflexivity|].
  split; [rewrite length_take; lia|by apply Forall_take, Forall_drop].
Qed.

Definition image_disk_of (content : list Z) : harddisk :=
  {| st_size := Z.of_nat (length content); hd_path := lit "/dev/ahci0"; hd_logical_block_size := 512; hd_writable := true |}.
Definition fresh : world () := {| disk := (); errno_ := None; allocs := [] |}.

End Partition.
