(* ===== verification/Mbr.v ===== *)
(** * Master boot records

    [libmount/mbr.c]: the partition table of a master boot record, with the chain
    of extended boot records that holds the logical partitions. *)

From S2P Require Import Prelude Memory Blockdev Partition.
From stdpp Require Import base list numbers strings sorting.
From Stdlib Require Import ZArith Lia Ascii Sorted.

#[local] Open Scope Z_scope.

Module Mbr.
Import Blockdev Partition.

(** ** Data *)

Record mbr_partition := {
  flags : Z;
  start_head : Z;
  start_sector_cylinder : Z;
  system_id : Z;
  end_head : Z;
  end_sector_cylinder : Z;
  start_sector : Z;
  total_sectors : Z;
}.

(** [struct mbr] is its 512 bytes: four entries of sixteen bytes at 446, and the
    signature. *)
Definition sizeof_mbr : Z := 512.
Definition entry_bytes (mbr : list Z) (i : nat) : list Z := slice (446 + 16 * i) 16 mbr.
Definition signature (mbr : list Z) (i : nat) : Z := load (510 + i) 1 mbr.

(** [memcpy] into the structure and out of it. *)
Definition load_entry (l : list Z) : mbr_partition := {|
  flags := load 0 1 l; start_head := load 1 1 l; start_sector_cylinder := load 2 2 l; system_id := load 4 1 l;
  end_head := load 5 1 l; end_sector_cylinder := load 6 2 l; start_sector := load 8 4 l; total_sectors := load 12 4 l |}.
Definition entry_memory (v : mbr_partition) : list Z :=
  [flags v; start_head v] ++ Mem.le_split 2 (start_sector_cylinder v) ++ [system_id v; end_head v]
  ++ Mem.le_split 2 (end_sector_cylinder v) ++ Mem.le_split 4 (start_sector v) ++ Mem.le_split 4 (total_sectors v).

(** ** The functions *)

Definition mbr_partition_decode (v : mbr_partition) : mbr_partition := {|
  flags := flags v; start_head := start_head v; start_sector_cylinder := le16toh (start_sector_cylinder v);
  system_id := system_id v; end_head := end_head v; end_sector_cylinder := le16toh (end_sector_cylinder v);
  start_sector := le32toh (start_sector v); total_sectors := le32toh (total_sectors v) |}.

Definition mbr_is_extended_partition (v : mbr_partition) : bool := (system_id v =? 0x05) || (system_id v =? 0x0F).

Definition mbr_is_partition_used (v : mbr_partition) : bool :=
  if memiszero (entry_memory v) then false
  else if (system_id v =? 0) || (total_sectors v =? 0) then false
  else true.

(** The [i]th entry of a record, read and decoded. *)
Definition entry (mbr : list Z) (i : nat) : mbr_partition := mbr_partition_decode (load_entry (entry_bytes mbr i)).

Definition bad_signature (mbr : list Z) : bool := negb (signature mbr 0 =? 0x55) && negb (signature mbr 1 =? 0xAA).

Definition logical_block_size : Z := 512.

(** The product of two [off_t]. *)
Definition mul_off {U} (a b : Z) : T U Z := perform (M_lift (checked 64 (a * b))).

Definition alloc_or_fail {U} : T U () :=
  ok ← perform allocate; check (negb ok) PARTITION_ERROR_ERRNO.

(** [for ( unsigned int i = 0; i < 4; i++ )] *)
Definition all_entries : list nat := [0; 1; 2; 3]%nat.

Fixpoint count_extended (mbr : list Z) (ids : list nat) : Z :=
  match ids with
  | [] => 0
  | i :: ids =>
      (if mbr_is_partition_used (entry mbr i) && mbr_is_extended_partition (entry mbr i) then 1 else 0) + count_extended mbr ids
  end.

Fixpoint any_overlap (ps : list partition) (start length : Z) : outcome bool :=
  match ps with
  | [] => Ret false
  | p :: ps => b ← partition_check_overlap p start length; if (b : bool) then Ret true else any_overlap ps start length
  end.

Definition with_path (x : list Z) (p : partition) : partition := {|
  path := x; start := start p; length_ := length_ p; extended_start := extended_start p;
  extended_length := extended_length p; type := type p; table_type := table_type p; index := index p;
  gpt_type_guid := gpt_type_guid p; gpt_unique_guid := gpt_unique_guid p; mbr_system_id := mbr_system_id p;
  gpt_name := gpt_name p; gpt_attributes := gpt_attributes p |}.

(** From [array_add] to [asprintf]: the partition gets its path when it is in the
    array already. *)
Definition add_partition {U} (device_path : list Z) (p : partition) : T U () :=
  ok ← array_add p; check (negb ok) PARTITION_ERROR_ERRNO;;
  alloc_or_fail;;
  set_pt (λ t, with_partitions
    (alter (with_path (partition_path device_path (index p))) (length (partitions t) - 1)%nat (partitions t)) t).

Definition primary_partition (i : nat) (v : mbr_partition) (start length : Z) : partition :=
  let ext := mbr_is_extended_partition v in {|
  path := []; start := start; length_ := length;
  extended_start := if ext then start else 0; extended_length := if ext then length else 0;
  type := if ext then PARTITION_TYPE_EXTENDED else PARTITION_TYPE_PRIMARY;
  table_type := PARTITION_TABLE_TYPE_MBR; index := 1 + Z.of_nat i;
  gpt_type_guid := replicate 16 0; gpt_unique_guid := replicate 16 0; mbr_system_id := system_id v;
  gpt_name := []; gpt_attributes := 0 |}.

Definition logical_partition (j : Z) (v : mbr_partition) (start length : Z) : partition := {|
  path := []; start := start; length_ := length; extended_start := 0; extended_length := 0;
  type := PARTITION_TYPE_LOGICAL; table_type := PARTITION_TABLE_TYPE_MBR; index := u32 (5 + j);
  gpt_type_guid := replicate 16 0; gpt_unique_guid := replicate 16 0; mbr_system_id := system_id v;
  gpt_name := []; gpt_attributes := 0 |}.

(** The second loop over the entries. *)
Fixpoint primary_loop {U} (device_size : Z) (device_path mbr : list Z) (ids : list nat) : T U () :=
  match ids with
  | [] => mret ()
  | i :: ids =>
      let v := entry mbr i in
      (if negb (mbr_is_partition_used v) then mret ()
       else
         check (start_sector v =? 0) PARTITION_ERROR_BEFORE_USABLE;;
         start ← mul_off (start_sector v) logical_block_size;
         length ← mul_off (total_sectors v) logical_block_size;
         check ((device_size <? start) || (device_size - start <? length)) PARTITION_ERROR_BEYOND_DEVICE;;
         pt ← get_pt;
         overlap ← perform (M_lift (any_overlap (partitions pt) start length));
         check overlap PARTITION_ERROR_OVERLAP;;
         alloc_or_fail;;
         add_partition device_path (primary_partition i v start length));;
      primary_loop device_size device_path mbr ids
  end.

Definition add_link (ebr : list Z) (off : Z) (t : partition_table) : partition_table :=
  with_raw (match raw t with raw_mbr m chain => raw_mbr m (chain ++ [(ebr, off)]) | r => r end) t.

Section Read.
Context {U : Type} (pread : Z → Z → M U (errno + list Z)).

(** The partition an extended boot record describes. *)
Definition read_logical (device_path ebr : list Z) (pext_length ebr_rel ebr_off j : Z) : T U () :=
  let v := entry ebr 0 in
  if mbr_is_partition_used v then
    start ← mul_off (start_sector v) logical_block_size;
    length ← mul_off (total_sectors v) logical_block_size;
    check (pext_length - ebr_rel <? start) PARTITION_ERROR_BEYOND_EXTENDED;;
    check ((pext_length - ebr_rel) - start <? length) PARTITION_ERROR_BEYOND_EXTENDED;;
    alloc_or_fail;;
    add_partition device_path (logical_partition j v (ebr_off + start) length)
  else mret ().

Fixpoint ebr_loop (fuel : nat) (bdev : blockdevice) (pext_start pext_length ebr_rel j : Z) : T U () :=
  match fuel with
  | O => λ _, M_nofuel
  | S fuel =>
      check (pext_length <=? ebr_rel) PARTITION_ERROR_BEYOND_EXTENDED;;
      let ebr_off := pext_start + ebr_rel in
      ebr ← perform (blockdevice_preadall pread bdev sizeof_mbr ebr_off);
      check (negb (Z.of_nat (length ebr) =? sizeof_mbr)) PARTITION_ERROR_ERRNO;;
      check (bad_signature ebr) PARTITION_ERROR_BAD_EXTENDED;;
      alloc_or_fail;;
      set_pt (add_link ebr ebr_off);;
      read_logical (device_path bdev) ebr pext_length ebr_rel ebr_off j;;
      next_rel ← mul_off (start_sector (entry ebr 1)) logical_block_size;
      if next_rel =? 0 then mret ()
      else
        check (next_rel <=? ebr_rel) PARTITION_ERROR_NONLINEAR_EXTENDED;;
        check (pext_length <=? next_rel) PARTITION_ERROR_BEYOND_EXTENDED;;
        ebr_loop fuel bdev pext_start pext_length next_rel (u32 (j + 1))
  end.

(** The third loop over the entries: the chain of the first extended partition. *)
Fixpoint extended_loop (bdev : blockdevice) (mbr : list Z) (ids : list nat) : T U () :=
  match ids with
  | [] => mret ()
  | i :: ids =>
      let v := entry mbr i in
      if negb (mbr_is_partition_used v) then extended_loop bdev mbr ids
      else if negb (mbr_is_extended_partition v) then extended_loop bdev mbr ids
      else
        pext_start ← mul_off (start_sector v) logical_block_size;
        pext_length ← mul_off (total_sectors v) logical_block_size;
        ebr_loop (S (Z.to_nat (pext_length / 512))) bdev pext_start pext_length 0 0
  end.

Definition blockdevice_get_partition_table_mbr (bdev : blockdevice)
    : M (world U) (partition_error * option partition_table) :=
  let device_size := blockdevice_size bdev in
  mbr ← blockdevice_preadall pread bdev sizeof_mbr 0;
  if negb (Z.of_nat (length mbr) =? sizeof_mbr) then mret (PARTITION_ERROR_ERRNO, None)
  else if bad_signature mbr then set_errno EINVAL;; mret (PARTITION_ERROR_ERRNO, None)
  else
    ok ← allocate;
    if negb ok then mret (PARTITION_ERROR_ERRNO, None)
    else
      let last_sector := Z.quot device_size logical_block_size in
      let last_sector := if 2 ^ 32 <? last_sector then 2 ^ 32 else last_sector in
      finish (
        set_pt (with_usable logical_block_size (last_sector * logical_block_size));;
        alloc_or_fail;;
        set_pt (with_raw (raw_mbr mbr []));;
        check (2 <=? count_extended mbr all_entries) PARTITION_ERROR_TOO_EXTENDED;;
        primary_loop device_size (device_path bdev) mbr all_entries;;
        extended_loop bdev mbr all_entries) (new_table PARTITION_TABLE_TYPE_MBR).

End Read.

End Mbr.
