(* ===== verification/MbrSpec.v ===== *)
(** * What the reader of master boot records promises

    A layout is what a boot record on a device describes: at most four primary
    partitions, and the logical partitions of the chain of extended boot records.
    The reader returns exactly the partitions of a valid layout, and an error when
    there is none; whatever it reads, and whether or not memory runs out, the
    partitions in the table are safe to use. *)

From S2P Require Import Prelude Memory Blockdev Partition Mbr.
From stdpp Require Import base list numbers strings sorting.
From Stdlib Require Import ZArith Lia Ascii Sorted.

#[local] Open Scope Z_scope.

Module MbrSpec.
Import Blockdev Partition Mbr.

(** ** Numbers *)

Lemma le_value_range l : Forall (λ b, 0 <= b < 256) l → 0 <= le_value l < 256 ^ Z.of_nat (length l).
Proof.
  induction 1 as [|b l Hb Hl IH]; [done|]. simpl length. rewrite Nat2Z.inj_succ, Z.pow_succ_r by lia. simpl. lia.
Qed.

Lemma load_range off n l : Forall (λ b, 0 <= b < 256) l → 0 <= load off n l < 256 ^ Z.of_nat n.
Proof.
  intros Hl. unfold load, slice. pose proof (le_value_range (take n (drop off l)) ltac:(by apply Forall_take, Forall_drop)).
  pose proof (Z.pow_le_mono_r 256 (Z.of_nat (length (take n (drop off l)))) (Z.of_nat n)). rewrite length_take in *. lia.
Qed.

Lemma entry_range l i : Forall (λ b, 0 <= b < 256) l →
  0 <= start_sector (entry l i) < 2 ^ 32 ∧ 0 <= total_sectors (entry l i) < 2 ^ 32.
Proof.
  intros Hl. assert (He : Forall (λ b, 0 <= b < 256) (entry_bytes l i)) by (by apply Forall_take, Forall_drop).
  split; [apply (load_range 8 4 _ He)|apply (load_range 12 4 _ He)].
Qed.

Lemma used_sectors v : mbr_is_partition_used v = true → total_sectors v ≠ 0.
Proof. unfold mbr_is_partition_used. repeat case_if; try done. Qed.

(** ** Tables that are safe to use *)

(** A partition as a range of the device: its first byte, the byte after its
    last, and its type. *)
Definition extent (p : partition) : Z * Z * partition_type := (start p, start p + length_ p, type p).

Definition separate (a b : Z * Z * partition_type) : Prop := a.1.2 <= b.1.1 ∨ b.1.2 <= a.1.1.

(** On a device of [size] bytes the ranges lie behind the boot record and before
    the end, those that are not logical do not overlap, and a logical one lies in
    an extended one. *)
Record extents_ok (size : Z) (l : list (Z * Z * partition_type)) : Prop := {
  ok_within : Forall (λ a, 512 <= a.1.1 < a.1.2 ∧ a.1.2 <= size) l;
  ok_apart : StronglySorted separate (filter (λ a, a.2 ≠ PARTITION_TYPE_LOGICAL) l);
  ok_logical : Forall (λ a, a.2 = PARTITION_TYPE_LOGICAL →
    ∃ e, e ∈ l ∧ e.2 = PARTITION_TYPE_EXTENDED ∧ e.1.1 <= a.1.1 ∧ a.1.2 <= e.1.2) l;
}.

Definition table_ok (size : Z) (ps : list partition) : Prop := extents_ok size (map extent ps).

Lemma separate_disjoint p q :
  0 < length_ p → 0 < length_ q → disjoint_ p q ↔ separate (extent p) (extent q).
Proof.
  intros Hp Hq. unfold disjoint_, inside, separate, extent. simpl. split; [|lia].
  intros Hd. specialize (Hd (Z.max (start p) (start q))). lia.
Qed.

Lemma extents_ok_add size l a :
  extents_ok size l → 512 <= a.1.1 < a.1.2 → a.1.2 <= size →
  (if decide (a.2 = PARTITION_TYPE_LOGICAL)
   then ∃ e, e ∈ l ∧ e.2 = PARTITION_TYPE_EXTENDED ∧ e.1.1 <= a.1.1 ∧ a.1.2 <= e.1.2
   else Forall (λ b, b.2 ≠ PARTITION_TYPE_LOGICAL → separate b a) l) →
  extents_ok size (l ++ [a]).
Proof.
  intros [H1 H2 H3] Ha Hs Hk. split.
  - apply Forall_app_2; [done|]. by apply Forall_singleton.
  - rewrite filter_app. destruct (decide (a.2 = PARTITION_TYPE_LOGICAL)) as [E|E].
    + rewrite (filter_cons_False _ a), app_nil_r by (by intros []). done.
    + rewrite (filter_cons_True _ a) by done. apply StronglySorted_app_2; [|done|by repeat constructor].
      intros b a' [Hb1 Hb2]%list_elem_of_filter ->%list_elem_of_singleton.
      rewrite Forall_forall in Hk. by apply Hk.
  - assert (Hmono : ∀ x : Z * Z * partition_type, (∃ e, e ∈ l ∧ e.2 = PARTITION_TYPE_EXTENDED ∧ e.1.1 <= x.1.1 ∧ x.1.2 <= e.1.2) →
      ∃ e, e ∈ l ++ [a] ∧ e.2 = PARTITION_TYPE_EXTENDED ∧ e.1.1 <= x.1.1 ∧ x.1.2 <= e.1.2).
    { intros x (e & He & Hrest). exists e. split; [|done]. rewrite elem_of_app. by left. }
    apply Forall_app_2; [eapply Forall_impl; [exact H3|]; auto|].
    apply Forall_singleton. intros E. rewrite decide_True in Hk by done. auto.
Qed.

(** ** Layouts *)

Section Layout.
Context (reads : Z → Z → list Z → Prop) (size : Z) (path : list Z).

(** The boot record at an offset. *)
Definition record (off : Z) (mbr : list Z) : Prop :=
  reads sizeof_mbr off mbr ∧ Z.of_nat (length mbr) = sizeof_mbr ∧ bad_signature mbr = false.

Definition used (mbr : list Z) (i : nat) : Prop := mbr_is_partition_used (entry mbr i) = true.
Definition extended (mbr : list Z) (i : nat) : Prop := used mbr i ∧ mbr_is_extended_partition (entry mbr i) = true.

#[global] Instance used_dec mbr i : Decision (used mbr i).
Proof. unfold used. apply _. Defined.
#[global] Instance extended_dec mbr i : Decision (extended mbr i).
Proof. unfold extended. apply _. Defined.

Definition named (p : partition) : partition := with_path (partition_path path (index p)) p.

Definition primary (mbr : list Z) (i : nat) : partition :=
  named (primary_partition i (entry mbr i) (start_sector (entry mbr i) * 512) (total_sectors (entry mbr i) * 512)).

Definition primaries_of (mbr : list Z) (ids : list nat) : list partition := primary mbr <$> filter (used mbr) ids.

Definition within (p : partition) : Prop := 512 <= start p ∧ start p + length_ p <= size.

(** The partition of an extended boot record at [rel] in its extended partition,
    the [j]th of the chain. *)
Definition logical (ebr : list Z) (off j : Z) : list partition :=
  if mbr_is_partition_used (entry ebr 0)
  then [named (logical_partition j (entry ebr 0) (off + start_sector (entry ebr 0) * 512) (total_sectors (entry ebr 0) * 512))]
  else [].

Definition logical_fits (ebr : list Z) (room : Z) : Prop :=
  used ebr 0 → start_sector (entry ebr 0) * 512 + total_sectors (entry ebr 0) * 512 <= room.

Definition next (ebr : list Z) : Z := start_sector (entry ebr 1) * 512.

(** The records of an extended partition from [rel] on, each further than the
    one before, and the partitions they describe. *)
Inductive chain (pext_start pext_length : Z) : Z → Z → list partition → Prop :=
| chain_last rel j ebr :
    rel < pext_length → record (pext_start + rel) ebr → logical_fits ebr (pext_length - rel) → next ebr = 0 →
    chain pext_start pext_length rel j (logical ebr (pext_start + rel) j)
| chain_link rel j ebr ps :
    rel < pext_length → record (pext_start + rel) ebr → logical_fits ebr (pext_length - rel) → next ebr ≠ 0 →
    rel < next ebr < pext_length → chain pext_start pext_length (next ebr) (u32 (j + 1)) ps →
    chain pext_start pext_length rel j (logical ebr (pext_start + rel) j ++ ps).

(** What a device holds. *)
Inductive layout : list partition → Prop :=
| layout_primary mbr :
    record 0 mbr → Forall within (primaries_of mbr all_entries) → StronglySorted disjoint_ (primaries_of mbr all_entries) →
    filter (extended mbr) all_entries = [] → layout (primaries_of mbr all_entries)
| layout_extended mbr i ps :
    record 0 mbr → Forall within (primaries_of mbr all_entries) → StronglySorted disjoint_ (primaries_of mbr all_entries) →
    filter (extended mbr) all_entries = [i] →
    chain (start (primary mbr i)) (length_ (primary mbr i)) 0 0 ps → layout (primaries_of mbr all_entries ++ ps).

End Layout.

Lemma table_ok_named size path ps p : table_ok size (ps ++ [named path p]) → table_ok size (ps ++ [p]).
Proof. unfold table_ok. by rewrite !map_app. Qed.

(** ** The reader *)

Section Reader.
Context {U : Type} (pread : Z → Z → M U (errno + list Z)) (good : world U → Prop) (fallible : bool)
  (bdev : blockdevice) (reads : Z → Z → list Z → Prop) `{!Environment pread good fallible bdev reads}.

Abbreviation size := (blockdevice_size bdev).
Abbreviation path := (device_path bdev).

(** Adding the partitions of [spec], or an error because there is none. *)
Definition adds (spec : list partition → Prop) (b : building) (r : partition_error + ()) (b' : building) : Prop :=
  table_ok size (partitions (pt b')) ∧
  match r with
  | inr _ => ∃ ps, spec ps ∧ partitions (pt b') = partitions (pt b) ++ ps
  | inl e => e ≠ PARTITION_ERROR_NONE ∧ (fallible = false → ∀ ps, ¬ spec ps)
  end.

Lemma alloc_runs b (Q : partition_error + () → building → Prop) :
  Q (inr ()) b → (fallible = true → Q (inl PARTITION_ERROR_ERRNO) b) → runs good alloc_or_fail b Q.
Proof.
  intros H1 H2. unfold alloc_or_fail. apply runs_bind, runs_perform. intros w Hw.
  destruct (env_alloc w Hw) as (ok & w' & E & Hw' & Hok). exists ok, w'. split_and!; [done..|].
  apply runs_check; [done|]. intros Hn%negb_true_iff. auto.
Qed.

Lemma array_add_runs p b (Q : partition_error + bool → building → Prop) :
  (∀ n, Q (inr true) {| pt := with_partitions (partitions (pt b) ++ [p]) (pt b); partitions_length := n |}) →
  (fallible = true → Q (inr false) b) → runs good (array_add p) b Q.
Proof.
  intros H1 H2 w Hw. unfold array_add. destruct (_ =? _).
  - destruct (env_alloc w Hw) as ([] & w' & E & Hw' & Hok); rewrite (M_bind_ret _ _ _ _ _ E);
      eexists _, _, w'; (split; [reflexivity|]); auto.
  - eexists _, _, w. split; [reflexivity|]. auto.
Qed.

Lemma add_partition_runs p b (Q : partition_error + () → building → Prop) :
  (∀ b', partitions (pt b') = partitions (pt b) ++ [named path p] → Q (inr ()) b') →
  (∀ b', fallible = true → partitions (pt b') = partitions (pt b) ∨ partitions (pt b') = partitions (pt b) ++ [p] →
    Q (inl PARTITION_ERROR_ERRNO) b') →
  runs good (add_partition path p) b Q.
Proof.
  intros H1 H2. unfold add_partition. apply runs_bind, array_add_runs.
  - intros n. apply runs_bind, runs_check; [|done]. intros _. apply runs_bind, alloc_runs; [|intros; apply H2; auto].
    apply runs_set. apply H1. cbn [pt with_partitions partitions].
    rewrite length_app. simpl. rewrite Nat.add_sub. by rewrite alter_app_r_alt, Nat.sub_diag by lia.
  - intros Hf. apply runs_bind, runs_check; [done|]. intros _. apply H2; auto.
Qed.

(** A product of a sector number and the block size. *)
Lemma mul_runs x b (Q : partition_error + Z → building → Prop) :
  0 <= x < 2 ^ 32 → Q (inr (x * 512)) b → runs good (mul_off x logical_block_size) b Q.
Proof. intros Hx HQ. apply runs_lift with (x * 512); [|done]. apply checked_ok. unfold in_s. lia. Qed.

Lemma any_overlap_spec ps q :
  0 <= start q → 0 < length_ q → Forall (λ p, 0 <= start p ∧ 0 < length_ p) ps →
  ∃ b, any_overlap ps (start q) (length_ q) = Ret b ∧
    (b = false ↔ Forall (λ p, separate (extent p) (extent q)) ps).
Proof.
  intros Hs Hl. induction 1 as [|p ps [Hp Hlp] Hps (b & E & Hb)]; [by exists false|].
  destruct (check_overlap_spec p q Hp Hlp) as (b' & E' & Hb'); [done..|].
  rewrite separate_disjoint in Hb' by done. simpl any_overlap. rewrite E'.
  cbn [mbind outcome_bind]. destruct b'.
  - exists true. split; [done|]. rewrite Forall_cons. split; [done|]. intros [Hq _]. by apply Hb' in Hq.
  - exists b. split; [done|]. rewrite Forall_cons, <- Hb. split; [|by intros [_ ?]].
    intros Hb0. split; [by apply Hb'|done].
Qed.

(** The primary partitions of some entries, read after others. *)
Definition primaries_spec (mbr : list Z) (ids : list nat) (before ps : list partition) : Prop :=
  ps = primaries_of path mbr ids ∧ Forall (within size) ps ∧ StronglySorted disjoint_ (before ++ ps).

Lemma primary_facts mbr i : Forall (λ b, 0 <= b < 256) mbr → used mbr i →
  0 <= start (primary path mbr i) < 2 ^ 41 ∧ 0 < length_ (primary path mbr i) < 2 ^ 41 ∧
  type (primary path mbr i) ≠ PARTITION_TYPE_LOGICAL.
Proof.
  intros Hb Hu. pose proof (entry_range mbr i Hb). pose proof (used_sectors _ Hu).
  unfold primary, named, with_path, primary_partition. cbn [start length_ type].
  destruct (mbr_is_extended_partition _); split_and!; done || lia.
Qed.

Lemma primaries_cons mbr i ids :
  primaries_of path mbr (i :: ids) =
  (if decide (used mbr i) then [primary path mbr i] else []) ++ primaries_of path mbr ids.
Proof. unfold primaries_of. rewrite filter_cons. by case_decide. Qed.

(** An error for want of memory. *)
Lemma fails spec b b' :
  table_ok size (partitions (pt b')) → fallible = true → adds spec b (inl PARTITION_ERROR_ERRNO) b'.
Proof. intros Ht Hf. split; [done|]. split; [done|]. by rewrite Hf. Qed.

(** What is in the table before and between the iterations. *)
Record primaries_ok (ps : list partition) : Prop := {
  po_table : table_ok size ps;
  po_apart : StronglySorted disjoint_ ps;
  po_type : Forall (λ p, type p ≠ PARTITION_TYPE_LOGICAL) ps;
}.

Lemma primaries_ok_positive ps : primaries_ok ps → Forall (λ p, 0 <= start p ∧ 0 < length_ p) ps.
Proof.
  intros [[Hw _ _] _ _]. apply Forall_map in Hw. eapply Forall_impl; [exact Hw|]. unfold extent. simpl. lia.
Qed.

(** A partition that lies on the device and overlaps with no other can be added. *)
Lemma primaries_ok_add ps p :
  primaries_ok ps → within size p → 0 < length_ p → type p ≠ PARTITION_TYPE_LOGICAL →
  Forall (λ q, separate (extent q) (extent p)) ps → primaries_ok (ps ++ [p]).
Proof.
  intros Hps [Hw1 Hw2] Hl Ht Hsep. pose proof (primaries_ok_positive ps Hps) as Hpos. destruct Hps as [Htab Hap Hty]. split.
  - unfold table_ok. rewrite map_app. simpl. apply extents_ok_add; simpl; [done|lia|lia|].
    rewrite decide_False by done. apply Forall_map. eapply Forall_impl; [exact Hsep|]. done.
  - apply StronglySorted_app_2; [|done|by repeat constructor].
    intros q q' Hq ->%list_elem_of_singleton. rewrite Forall_forall in Hsep, Hpos.
    apply separate_disjoint; [by apply Hpos|done|by apply Hsep].
  - apply Forall_app_2; [done|by apply Forall_singleton].
Qed.

Lemma primary_loop_runs mbr ids b :
  Forall (λ b, 0 <= b < 256) mbr → primaries_ok (partitions (pt b)) →
  runs good (primary_loop size path mbr ids) b
    (λ r b', adds (primaries_spec mbr ids (partitions (pt b))) b r b' ∧
      (r = inr () → primaries_ok (partitions (pt b')))).
Proof.
  intros Hmbr. revert b. induction ids as [|i ids IH]; intros b Hok.
  { apply runs_ret. split; [|done]. split; [apply Hok|]. exists []. split; [|by rewrite app_nil_r].
    split; [done|]. split; [done|]. rewrite app_nil_r. apply Hok. }
  cbn [primary_loop]. apply runs_bind. destruct (mbr_is_partition_used (entry mbr i)) eqn:Hu; cbn [negb].
  2:{ apply runs_ret. eapply runs_mono; [by apply IH|]. simpl. intros r b' Hr.
      unfold primaries_spec in *. by rewrite primaries_cons, decide_False by (unfold used; by rewrite Hu). }
  assert (Hfail : ∀ e, e ≠ PARTITION_ERROR_NONE →
    ¬ (within size (primary path mbr i) ∧ Forall (λ q, separate (extent q) (extent (primary path mbr i))) (partitions (pt b))) →
    adds (primaries_spec mbr (i :: ids) (partitions (pt b))) b (inl e) b).
  { intros e He Hno. split; [apply Hok|]. split; [done|]. intros _ ps (-> & Hw & Hap). apply Hno.
    rewrite primaries_cons, decide_True in * by done. simpl in *. apply Forall_cons in Hw as [Hw _]. split; [done|].
    apply StronglySorted_app in Hap as (Hap & _ & _). pose proof (primaries_ok_positive _ Hok) as Hpos.
    rewrite Forall_forall in Hpos. apply Forall_forall. intros q Hq.
    destruct (primary_facts mbr i Hmbr Hu) as (_ & Hl & _). apply separate_disjoint; [by apply Hpos|lia|].
    apply Hap; [done|by left]. }
  destruct (entry_range mbr i Hmbr) as [Hss Hts]. destruct (primary_facts mbr i Hmbr Hu) as (Hp1 & Hp2 & Hp3).
  apply runs_bind, runs_check; intros Hc0; b2p.
  2:{ split; [|done]. apply Hfail; [done|]. intros [[Hw _] _]. revert Hw. unfold primary, named, with_path, primary_partition.
      cbn [start]. lia. }
  apply runs_bind, mul_runs; [done|]. apply runs_bind, mul_runs; [done|].
  change (start_sector (entry mbr i) * 512) with (start (primary path mbr i)).
  change (total_sectors (entry mbr i) * 512) with (length_ (primary path mbr i)).
  apply runs_bind, runs_check; intros Hc1.
  2:{ split; [|done]. apply Hfail; [done|]. intros [[_ Hw] _]. b2p; lia. }
  b2p. apply runs_bind, runs_get.
  destruct (any_overlap_spec (partitions (pt b)) (primary path mbr i))
    as (o & Eo & Ho); [lia|lia|by apply primaries_ok_positive|].
  apply runs_bind, (runs_lift _ _ o); [done|]. apply runs_bind, runs_check; intros Hc2.
  2:{ split; [|done]. apply Hfail; [done|]. intros [_ Hs]. subst o. by apply Ho in Hs. }
  subst o. assert (Hnew : primaries_ok (partitions (pt b) ++ [primary path mbr i])).
  { apply primaries_ok_add; [done| |lia|done|by apply Ho].
    split; [|lia]. unfold primary, named, with_path, primary_partition. cbn [start]. lia. }
  apply runs_bind, alloc_runs; [|intros Hf; split; [apply fails; [apply Hok|done]|done]].
  apply add_partition_runs.
  - intros b' Eb. eapply runs_mono; [apply IH; by rewrite Eb|]. cbn beta. intros r b'' [[Ht Hr] Hr']. split; [|done].
    split; [done|]. fold (primary path mbr i) in Eb. rewrite Eb in Hr. unfold primaries_spec in *.
    rewrite primaries_cons, decide_True by done. destruct r as [e|[]].
    + destruct Hr as [He Hno]. split; [done|]. intros Hf ps (-> & Hw & Hap). apply (Hno Hf (primaries_of path mbr ids)).
      apply Forall_cons in Hw as [_ Hw]. by rewrite <- app_assoc.
    + destruct Hr as (ps & (-> & Hw & Hap) & E). exists ([primary path mbr i] ++ primaries_of path mbr ids).
      rewrite E, <- !app_assoc in *. split; [|done]. split; [done|]. split; [|done].
      apply Forall_app_2; [|done]. apply Forall_singleton.
      split; [|lia]. unfold primary, named, with_path, primary_partition. cbn [start]. lia.
  - intros b' Hf Eb. split; [|done]. apply fails; [|done]. destruct Eb as [->| ->]; [apply Hok|].
    apply (table_ok_named size path). apply Hnew.
Qed.

(** The chain. *)

(** The extended partition [e] is in the table. *)
Definition has_extended (lo hi : Z) (ps : list partition) : Prop :=
  512 <= lo ∧ lo < hi <= size ∧ (lo, hi, PARTITION_TYPE_EXTENDED) ∈ map extent ps.

Lemma table_ok_logical lo hi ps p :
  table_ok size ps → has_extended lo hi ps → type p = PARTITION_TYPE_LOGICAL → 0 < length_ p →
  lo <= start p → start p + length_ p <= hi → table_ok size (ps ++ [p]).
Proof.
  intros Ht (Hlo & Hhi & He) Hty Hl H1 H2. unfold table_ok. rewrite map_app. simpl.
  apply extents_ok_add; simpl; [done|lia|lia|]. rewrite decide_True by done. by eexists.
Qed.

Lemma has_extended_app lo hi ps qs : has_extended lo hi ps → has_extended lo hi (ps ++ qs).
Proof. intros (H1 & H2 & H3). split; [done|]. split; [done|]. rewrite map_app, elem_of_app. by left. Qed.

Definition logical_spec (ebr : list Z) (pext_start pext_length rel j : Z) (ps : list partition) : Prop :=
  logical_fits ebr (pext_length - rel) ∧ ps = logical path ebr (pext_start + rel) j.

Lemma read_logical_runs ebr pext_start pext_length rel j b :
  Forall (λ b, 0 <= b < 256) ebr → 0 <= rel →
  table_ok size (partitions (pt b)) → has_extended pext_start (pext_start + pext_length) (partitions (pt b)) →
  runs good (read_logical path ebr pext_length rel (pext_start + rel) j) b
    (adds (logical_spec ebr pext_start pext_length rel j) b).
Proof.
  intros Hebr Hrel Hok Hext. unfold read_logical, logical_spec, logical_fits, logical, used.
  destruct (mbr_is_partition_used (entry ebr 0)) eqn:Hu.
  2:{ apply runs_ret. split; [done|]. exists []. by rewrite app_nil_r. }
  destruct (entry_range ebr 0 Hebr) as [Hss Hts]. pose proof (used_sectors _ Hu) as Hnz.
  apply runs_bind, mul_runs; [done|]. apply runs_bind, mul_runs; [done|].
  apply runs_bind, runs_check; intros Hc1; b2p.
  2:{ split; [done|]. split; [done|]. intros _ ps [Hfit _]. specialize (Hfit eq_refl). lia. }
  apply runs_bind, runs_check; intros Hc2; b2p.
  2:{ split; [done|]. split; [done|]. intros _ ps [Hfit _]. specialize (Hfit eq_refl). lia. }
  apply runs_bind, alloc_runs; [|intros Hf; by apply fails].
  set (p := logical_partition _ _ _ _). assert (Hp : table_ok size (partitions (pt b) ++ [p])).
  { eapply table_ok_logical; [done|exact Hext|done|..]; unfold p, logical_partition; cbn [start length_]; lia. }
  apply add_partition_runs.
  - intros b' Eb. split; [rewrite Eb; unfold table_ok in *; by rewrite map_app in *|].
    exists [named path p]. split; [|done]. split; [lia|done].
  - intros b' Hf [Eb|Eb]; apply fails; rewrite ?Eb; done.
Qed.

Lemma ebr_loop_runs fuel pext_start pext_length rel j b :
  0 <= rel < pext_length → pext_length - rel <= 512 * Z.of_nat fuel → rel mod 512 = 0 → pext_start + pext_length < 2 ^ 62 →
  table_ok size (partitions (pt b)) → has_extended pext_start (pext_start + pext_length) (partitions (pt b)) →
  runs good (ebr_loop pread fuel bdev pext_start pext_length rel j) b
    (adds (chain reads path pext_start pext_length rel j) b).
Proof.
  intros Hrel Hfuel Hmod Hsz. revert rel j b Hrel Hfuel Hmod.
  induction fuel as [|fuel IH]; intros rel j b Hrel Hfuel Hmod Hok Hext; [lia|].
  assert (Hrange := Hext). destruct Hrange as (Hlo & Hhi & _).
  cbn [ebr_loop]. apply runs_bind, runs_check; intros Hc; b2p; [|lia].
  apply runs_bind, runs_perform. intros w Hw.
  destruct (env_read sizeof_mbr (pext_start + rel) w Hw) as (ebr & w' & E & Hw' & Hread); [unfold sizeof_mbr; lia..|].
  exists ebr, w'. split; [done|]. split; [done|]. clear w w' Hw Hw' E.
  pose proof (env_bytes _ _ _ Hread) as Hbytes.
  assert (Hfail : ∀ e, e ≠ PARTITION_ERROR_NONE →
    ¬ (record reads (pext_start + rel) ebr ∧ logical_fits ebr (pext_length - rel) ∧
       (next ebr ≠ 0 → rel < next ebr < pext_length)) →
    ∀ b', table_ok size (partitions (pt b')) → adds (chain reads path pext_start pext_length rel j) b (inl e) b').
  { intros e He Hno b' Hb'. split; [done|]. split; [done|]. intros Hf ps Hps. apply Hno.
    inversion Hps as [? ? ebr' H1 H2 H3 H4|? ? ebr' ? H1 H2 H3 H4 H5]; subst;
      (assert (ebr' = ebr) as -> by (eapply env_exact; [done|apply H2|done])); split_and!; done. }
  apply runs_bind, runs_check; intros Hc1.
  2:{ apply Hfail; [done| |done]. intros ((_ & Hl & _) & _). by rewrite Hl in Hc1. }
  apply runs_bind, runs_check; intros Hc2.
  2:{ apply Hfail; [done| |done]. intros ((_ & _ & Hl) & _). by rewrite Hl in Hc2. }
  apply negb_false_iff, Z.eqb_eq in Hc1.
  assert (Hrec : record reads (pext_start + rel) ebr) by done.
  apply runs_bind, alloc_runs; [|intros; by apply fails].
  apply runs_bind, runs_set, runs_bind.
  eapply runs_mono; [apply read_logical_runs; [done|lia|done|done]|].
  cbn [pt]. intros [e|[]] b' [Hok' Hr].
  { destruct Hr as [He Hno]. split; [done|]. split; [done|]. intros Hf ps Hps. apply (Hno Hf (logical path ebr (pext_start + rel) j)).
    split; [|done]. inversion Hps as [? ? ebr' H1 H2 H3 H4|? ? ebr' ? H1 H2 H3 H4 H5]; subst;
      (assert (ebr' = ebr) as <- by (eapply env_exact; [done|apply H2|done])); done. }
  destruct Hr as (ps & [Hfit ->] & Eps). cbn [pt add_link with_raw partitions] in Eps.
  destruct (entry_range ebr 1 Hbytes) as [Hn _].
  apply runs_bind, mul_runs; [done|]. fold (next ebr). case_if.
  { apply runs_ret. split; [done|]. eexists. split; [by apply chain_last|done]. }
  apply runs_bind, runs_check; intros Hc3; b2p.
  2:{ apply Hfail; [done| |done]. intros (_ & _ & Hnext). specialize (Hnext Eif). lia. }
  apply runs_bind, runs_check; intros Hc4; b2p.
  2:{ apply Hfail; [done| |done]. intros (_ & _ & Hnext). specialize (Hnext Eif). lia. }
  assert (Hnmod : next ebr mod 512 = 0) by apply Z_mod_mult.
  assert (Hstep : rel + 512 <= next ebr).
  { pose proof (Z.div_mod rel 512). pose proof (Z.div_mod (next ebr) 512). lia. }
  eapply runs_mono; [apply IH; [lia|lia|done|done|rewrite Eps; by apply has_extended_app]|].
  intros r b'' [Hok'' Hr]. split; [done|]. destruct r as [e|[]].
  - destruct Hr as [He Hno]. split; [done|]. intros Hf ps Hps.
    inversion Hps as [? ? ebr' H1 H2 H3 H4|? ? ebr' ? H1 H2 H3 H4 H5 H6]; subst;
      (assert (ebr' = ebr) as -> by (eapply env_exact; [done|apply H2|done])); [done|]. by eapply Hno.
  - destruct Hr as (ps & Hps & Eps'). eexists. split; [by apply chain_link|]. by rewrite Eps', Eps, app_assoc.
Qed.

Definition chain_spec (mbr : list Z) (exts : list nat) (ps : list partition) : Prop :=
  match exts with
  | [] => ps = []
  | i :: _ => chain reads path (start (primary path mbr i)) (length_ (primary path mbr i)) 0 0 ps
  end.

Lemma extended_loop_runs mbr ids b :
  Forall (λ b, 0 <= b < 256) mbr → table_ok size (partitions (pt b)) →
  Forall (λ i, used mbr i → primary path mbr i ∈ partitions (pt b)) ids →
  runs good (extended_loop pread bdev mbr ids) b (adds (chain_spec mbr (filter (extended mbr) ids)) b).
Proof.
  intros Hmbr Hok. induction 1 as [|i ids Hi Hids IH]; cbn [extended_loop].
  { apply runs_ret. split; [done|]. exists []. by rewrite app_nil_r. }
  unfold used in Hi. destruct (mbr_is_partition_used (entry mbr i)) eqn:Hu; cbn [negb].
  2:{ rewrite filter_cons_False by (intros [H _]; unfold used in H; congruence). done. }
  destruct (mbr_is_extended_partition (entry mbr i)) eqn:He; cbn [negb].
  2:{ rewrite filter_cons_False by (intros [_ H]; congruence). done. }
  rewrite filter_cons_True by done. specialize (Hi eq_refl).
  destruct (entry_range mbr i Hmbr) as [Hss Hts]. destruct (primary_facts mbr i Hmbr Hu) as (Hp1 & Hp2 & _).
  apply runs_bind, mul_runs; [done|]. apply runs_bind, mul_runs; [done|]. cbn [chain_spec].
  change (start_sector (entry mbr i) * 512) with (start (primary path mbr i)).
  change (total_sectors (entry mbr i) * 512) with (length_ (primary path mbr i)) in *.
  assert (Hin : extent (primary path mbr i) ∈ map extent (partitions (pt b))) by (by apply list_elem_of_fmap_2).
  pose proof (ok_within _ _ Hok) as Hw. rewrite Forall_forall in Hw. specialize (Hw _ Hin).
  unfold extent in Hw at 1 2 3. cbn [fst snd] in Hw.
  apply ebr_loop_runs; [lia| |done|lia|done|].
  - pose proof (Z.div_mod (length_ (primary path mbr i)) 512). pose proof (Z.mod_pos_bound (length_ (primary path mbr i)) 512).
    rewrite Nat2Z.inj_succ, Z2Nat.id by (apply Z.div_pos; lia). lia.
  - split; [unfold extent in Hw; simpl in *; lia|]. split; [unfold extent in Hw; simpl in *; lia|].
    assert (Hty : type (primary path mbr i) = PARTITION_TYPE_EXTENDED).
    { unfold primary, named, with_path, primary_partition. cbn [type]. by rewrite He. }
    unfold extent in Hin at 1. by rewrite Hty in Hin.
Qed.

Lemma count_extended_filter mbr ids : count_extended mbr ids = Z.of_nat (length (filter (extended mbr) ids)).
Proof.
  induction ids as [|i ids IH]; [done|]. cbn [count_extended]. rewrite IH.
  destruct (decide (extended mbr i)) as [[H1 H2]|Hn].
  - rewrite filter_cons_True by done. unfold used in H1. rewrite H1, H2. simpl length. cbn [andb]. lia.
  - rewrite filter_cons_False by done. unfold extended, used in Hn.
    destruct (mbr_is_partition_used _), (mbr_is_extended_partition _); cbn [andb]; [by destruct Hn|lia..].
Qed.

(** The partitions of these entries of a boot record. *)
Definition table_spec (mbr : list Z) (ids : list nat) (ps : list partition) : Prop :=
  (length (filter (extended mbr) ids) <= 1)%nat ∧
  Forall (within size) (primaries_of path mbr ids) ∧ StronglySorted disjoint_ (primaries_of path mbr ids) ∧
  ∃ ls, chain_spec mbr (filter (extended mbr) ids) ls ∧ ps = primaries_of path mbr ids ++ ls.

Lemma table_spec_layout mbr ps :
  record reads 0 mbr → table_spec mbr all_entries ps → layout reads size path ps.
Proof.
  intros Hr (H1 & Hw & Hap & ls & Hls & ->). destruct (filter (extended mbr) all_entries) as [|i [|]] eqn:Ef.
  - simpl in Hls. subst. rewrite app_nil_r. by apply layout_primary.
  - by eapply layout_extended.
  - simpl in H1. lia.
Qed.

Lemma layout_table_spec ps :
  layout reads size path ps → ∃ mbr, record reads 0 mbr ∧ table_spec mbr all_entries ps.
Proof.
  intros [mbr Hr Hw Hap Ef|mbr i ls Hr Hw Hap Ef Hc]; exists mbr; (split; [done|]); unfold table_spec; rewrite Ef;
    (split; [simpl; lia|]); (split; [done|]); (split; [done|]).
  - exists []. by rewrite app_nil_r.
  - by exists ls.
Qed.

Lemma read_table_runs mbr ids b :
  Forall (λ b, 0 <= b < 256) mbr → partitions (pt b) = [] →
  runs good (
    check (2 <=? count_extended mbr ids) PARTITION_ERROR_TOO_EXTENDED;;
    primary_loop size path mbr ids;;
    extended_loop pread bdev mbr ids) b (adds (table_spec mbr ids) b).
Proof.
  intros Hmbr Hb. assert (Hnil : primaries_ok []) by (by split; [split|constructor|]; constructor).
  rewrite count_extended_filter. apply runs_bind, runs_check; intros Hc; b2p.
  2:{ split; [rewrite Hb; apply Hnil|]. split; [done|]. intros _ ps [H1 _]. lia. }
  apply runs_bind. eapply runs_mono; [apply primary_loop_runs; [done|by rewrite Hb]|].
  intros [e|[]] b' [[Hok Hr] Hpo].
  { split; [done|]. destruct Hr as [He Hno]. split; [done|]. intros Hf ps (_ & Hw & Hap & _).
    apply (Hno Hf (primaries_of path mbr ids)). by rewrite Hb. }
  destruct Hr as (ps & (-> & Hw & Hap) & Eps). rewrite Hb in Hap, Eps. simpl app in Hap, Eps.
  eapply runs_mono; [apply extended_loop_runs; [done|done|]|].
  { apply Forall_forall. intros i Hi Hu. rewrite Eps. apply list_elem_of_fmap_2, list_elem_of_filter. done. }
  intros [e|[]] b'' [Hok' Hr]; (split; [done|]).
  - destruct Hr as [He Hno]. split; [done|]. intros Hf ps (_ & _ & _ & ls & Hls & _). by apply (Hno Hf ls).
  - destruct Hr as (ls & Hls & Els). exists (primaries_of path mbr ids ++ ls). rewrite Hb. simpl app.
    split; [|by rewrite Els, Eps]. split; [lia|]. split; [done|]. split; [done|]. by exists ls.
Qed.

(** A device that always reads the same has at most one layout. *)
Lemma chain_unique s l rel j ps qs :
  fallible = false → chain reads path s l rel j ps → chain reads path s l rel j qs → ps = qs.
Proof.
  intros Hf Hps. revert qs. induction Hps as [rel j ebr H1 H2 H3 H4|rel j ebr ps H1 H2 H3 H4 H5 Hps IH]; intros qs Hqs;
    inversion Hqs as [? ? ebr' K1 K2 K3 K4|? ? ebr' qs' K1 K2 K3 K4 K5 Hqs']; subst;
    (assert (ebr' = ebr) as -> by (eapply env_exact; [done|apply K2|apply H2])); try done.
  f_equal. by apply IH.
Qed.

Lemma table_spec_unique mbr ids ps qs : fallible = false → table_spec mbr ids ps → table_spec mbr ids qs → ps = qs.
Proof.
  intros Hf (_ & _ & _ & ls & Hls & ->) (_ & _ & _ & ks & Hks & ->). f_equal.
  unfold chain_spec in *. destruct (filter _ _); [congruence|by eapply chain_unique].
Qed.

Lemma get_table_runs w : good w →
  ∃ e t w', blockdevice_get_partition_table_mbr pread bdev w = Ret ((e, t), w') ∧ good w' ∧
    match t with Some t => table_ok size (partitions t) | None => e ≠ PARTITION_ERROR_NONE end ∧
    (e = PARTITION_ERROR_NONE → ∃ t', t = Some t' ∧ layout reads size path (partitions t')) ∧
    (fallible = false → ∀ ps, layout reads size path ps →
      e = PARTITION_ERROR_NONE ∧ ∃ t', t = Some t' ∧ partitions t' = ps).
Proof.
  intros Hw. unfold blockdevice_get_partition_table_mbr.
  destruct (env_read sizeof_mbr 0 w Hw) as (mbr & w1 & E & Hw1 & Hread); [done..|].
  rewrite (M_bind_ret _ _ _ _ _ E). pose proof (env_bytes _ _ _ Hread) as Hbytes.
  assert (Hno : ∀ w', good w' → ¬ record reads 0 mbr ∨ fallible = true →
    ∃ e t w'', (mret (PARTITION_ERROR_ERRNO, None) : M (world U) (partition_error * option partition_table)) w' = Ret ((e, t), w'') ∧ good w'' ∧
    match t with Some t => table_ok size (partitions t) | None => e ≠ PARTITION_ERROR_NONE end ∧
    (e = PARTITION_ERROR_NONE → ∃ t', t = Some t' ∧ layout reads size path (partitions t')) ∧
    (fallible = false → ∀ ps, layout reads size path ps →
      e = PARTITION_ERROR_NONE ∧ ∃ t', t = Some t' ∧ partitions t' = ps)).
  { intros w' Hw' Hn. exists PARTITION_ERROR_ERRNO, None, w'. split_and!; [done..|].
    intros Hf ps Hps. destruct Hn as [Hn|Hn]; [|congruence]. destruct (layout_table_spec ps Hps) as (mbr' & Hr & _).
    destruct Hn. assert (mbr' = mbr) as <- by (eapply env_exact; [done|apply Hr|done]). done. }
  destruct (Z.of_nat (length mbr) =? sizeof_mbr) eqn:Hc1; cbn [negb].
  2:{ apply Hno; [done|]. left. intros (_ & H & _). b2p. done. }
  destruct (bad_signature mbr) eqn:Hc2.
  { destruct (env_errno EINVAL w1 Hw1) as (w2 & E2 & Hw2). rewrite (M_bind_ret _ _ _ _ _ E2).
    apply Hno; [done|]. left. intros (_ & _ & H). congruence. }
  apply Z.eqb_eq in Hc1. assert (Hrec : record reads 0 mbr) by done.
  destruct (env_alloc w1 Hw1) as (ok & w2 & E2 & Hw2 & Hok). rewrite (M_bind_ret _ _ _ _ _ E2).
  destruct ok; cbn [negb]; [|apply Hno; [done|by right; apply Hok]]. clear Hno E E2 w1 Hw1.
  set (c := set_pt _ ;; _). assert (Hc : runs good c (new_table PARTITION_TABLE_TYPE_MBR) (adds (table_spec mbr all_entries) (new_table PARTITION_TABLE_TYPE_MBR))).
  { unfold c. apply runs_bind, runs_set, runs_bind, alloc_runs.
    2:{ intros Hf. apply fails; [|done]. split; constructor. }
    apply runs_bind, runs_set. eapply runs_mono; [by apply read_table_runs|]. intros r b Hr. exact Hr. }
  destruct (finish_runs good c _ w2 _ Hc Hw2) as (r & b & w3 & -> & Hw3 & Htab & Hr).
  eexists _, _, w3. split; [reflexivity|]. split; [done|]. split; [done|]. destruct r as [e|[]].
  - destruct Hr as [He Hno]. split; [done|]. intros Hf ps Hps. destruct (layout_table_spec ps Hps) as (mbr' & Hr & Hs).
    assert (mbr' = mbr) as -> by (eapply env_exact; [done|apply Hr|done]). by destruct (Hno Hf ps).
  - destruct Hr as (ps & Hs & Eps). simpl in Eps. split.
    + intros _. eexists. split; [done|]. rewrite Eps. by apply (table_spec_layout mbr).
    + intros Hf qs Hqs. split; [done|]. eexists. split; [done|]. rewrite Eps.
      destruct (layout_table_spec qs Hqs) as (mbr' & Hr & Hs').
      assert (mbr' = mbr) as -> by (eapply env_exact; [done|apply Hr|done]). by eapply table_spec_unique.
Qed.

End Reader.

(** C21.  On a disk that works, the reader of a device that carries a valid layout returns
    exactly the partitions of that layout, and otherwise an error. *)
Theorem mbr_reads {U} (pread : Z → Z → M U (errno + list Z)) valid content bdev w :
  Disk pread valid content → nested content bdev → works valid w →
  ∃ e t w', blockdevice_get_partition_table_mbr pread bdev w = Ret ((e, t), w') ∧
    let layout := layout (reads_exactly (region content bdev)) (blockdevice_size bdev) (device_path bdev) in
    (∀ ps, layout ps → e = PARTITION_ERROR_NONE ∧ ∃ t', t = Some t' ∧ partitions t' = ps) ∧
    (e = PARTITION_ERROR_NONE → ∃ t', t = Some t' ∧ layout (partitions t')).
Proof.
  intros HD Hn Hw. pose proof (works_environment pread valid content bdev HD Hn) as Henv.
  destruct (get_table_runs pread _ _ bdev _ w Hw) as (e & t & w' & E & _ & _ & H1 & H2).
  exists e, t, w'. split; [done|]. split; [|done]. by apply H2.
Qed.

(** C22.  Whatever the device reads, and whether memory runs out or not, the reader
    returns, and the partitions of the table it leaves, also with an error, are
    behind the boot record and on the device; those that are not logical
    (primary and extended ones) are pairwise apart from each other; and a logical
    one lies inside an extended one.  Logical partitions may overlap each other:
    see [mbr_logical_overlap]. *)
Theorem mbr_safe {U} (pread : Z → Z → M U (errno + list Z)) bdev w :
  Reader pread →
  ∃ e t w', blockdevice_get_partition_table_mbr pread bdev w = Ret ((e, t), w') ∧
    match t with Some t => table_ok (blockdevice_size bdev) (partitions t) | None => e ≠ PARTITION_ERROR_NONE end.
Proof.
  intros HR. destruct (get_table_runs pread anything true bdev reads_some w I) as (e & t & w' & E & _ & H & _).
  by exists e, t, w'.
Qed.

(** ** Examples *)

(** A boot record with these entries, as their system identifier, first sector
    and number of sectors. *)
Definition make_entry (e : Z * Z * Z) : list Z :=
  entry_memory {| flags := 0; start_head := 0; start_sector_cylinder := 0; system_id := e.1.1; end_head := 0;
                  end_sector_cylinder := 0; start_sector := e.1.2; total_sectors := e.2 |}.
Definition make_mbr (entries : list (Z * Z * Z)) : list Z :=
  let l := entries ≫= make_entry in replicate 446 0 ++ l ++ replicate (64 - length l) 0 ++ [0x55; 0xAA].

(** A primary partition, and an extended one with two logical partitions. *)
Definition example_disk : list Z :=
  make_mbr [(0x83, 1, 2); (0x05, 3, 5)] ++ replicate 1024 0 ++
  make_mbr [(0x83, 1, 1); (0x05, 2, 3)] ++ replicate 512 0 ++ make_mbr [(0x83, 1, 2)] ++ replicate 1024 0.

Definition summary (r : outcome ((partition_error * option partition_table) * world ())) : option (partition_error * list (Z * Z * Z)) :=
  match r with
  | Ret ((e, Some t), _) => Some (e, map (λ p, (index p, start p, length_ p)) (partitions t))
  | _ => None
  end.

Example mbr_example :
  summary (blockdevice_get_partition_table_mbr (image_pread example_disk) (bdev_hd (image_disk_of example_disk)) fresh) =
  Some (PARTITION_ERROR_NONE, [(1, 512, 1024); (2, 1536, 2560); (5, 2048, 512); (6, 3072, 1024)]).
Proof. vm_compute. reflexivity. Qed.

(** The logical partitions of a chain are not compared with each other: here the
    first one covers the second boot record and the second partition. *)
Example mbr_logical_overlap :
  let d := make_mbr [(0x05, 1, 5)] ++ make_mbr [(0x83, 1, 4); (0x05, 2, 3)] ++ replicate 512 0 ++
           make_mbr [(0x83, 1, 2)] ++ replicate 1024 0 in
  summary (blockdevice_get_partition_table_mbr (image_pread d) (bdev_hd (image_disk_of d)) fresh) =
  Some (PARTITION_ERROR_NONE, [(1, 512, 2560); (5, 1024, 2048); (6, 2048, 1024)]).
Proof. vm_compute. reflexivity. Qed.

(** One byte of the signature is enough. *)
Example mbr_half_signature :
  let d := replicate 510 0 ++ [0x55; 0] in
  summary (blockdevice_get_partition_table_mbr (image_pread d) (bdev_hd (image_disk_of d)) fresh) =
  Some (PARTITION_ERROR_NONE, []).
Proof. vm_compute. reflexivity. Qed.

Lemma mbr_reads_witness :
  ∃ ps, layout (reads_exactly example_disk) 4096 (device_path (bdev_hd (image_disk_of example_disk))) ps ∧ length ps = 4%nat.
Proof.
  destruct (mbr_reads (image_pread example_disk) (λ _, True) example_disk (bdev_hd (image_disk_of example_disk)) fresh)
    as (e & t & w' & E & _ & H).
  - apply image_disk; [apply (bool_decide_unpack _); vm_compute; exact I|reflexivity].
  - reflexivity.
  - done.
  - pose proof mbr_example as X. rewrite E in X. destruct t as [t|]; [|discriminate X].
    injection X as He Hps. destruct (H He) as (t' & [= <-] & Hl). exists (partitions t). split; [exact Hl|].
    rewrite <- (length_map (λ p, (index p, start p, length_ p))), Hps. reflexivity.
Defined.

Lemma mbr_safe_witness :
  ∃ e t w', blockdevice_get_partition_table_mbr (image_pread example_disk) (bdev_hd (image_disk_of example_disk))
      {| disk := (); errno_ := None; allocs := [true; true; true; true; true; true; false] |} = Ret ((e, t), w') ∧
    match t with Some t => table_ok 4096 (partitions t) | None => e ≠ PARTITION_ERROR_NONE end.
Proof.
  apply (mbr_safe (image_pread example_disk) (bdev_hd (image_disk_of example_disk))).
  apply image_reader, (bool_decide_unpack _). vm_compute. exact I.
Defined.

End MbrSpec.
