(* ===== verification/Gpt.v ===== *)
(** * GUID partition tables

    [libmount/gpt.c]: the header of a GUID partition table, its entries, and the
    names of partitions. *)

From S2P Require Import Prelude Memory Wchar Crc32 Uuid Blockdev Partition Mbr.
From stdpp Require Import base list numbers strings.
From Stdlib Require Import ZArith Lia Ascii.

#[local] Open Scope Z_scope.
#[local] Open Scope c_scope.

Module Gpt.
Import Blockdev Partition.

(** ** Data *)

(** [struct gpt] without its reserved fields. *)
Record gpt := {
  signature : list Z;
  revision : Z;
  header_size : Z;
  header_crc32 : Z;
  my_lba : Z;
  alternate_lba : Z;
  first_usable_lba : Z;
  last_usable_lba : Z;
  disk_guid : list Z;
  partition_entry_lba : Z;
  number_of_partition_entries : Z;
  size_of_partition_entry : Z;
  partition_entry_array_crc32 : Z;
}.

Definition GPT_PARTITION_NAME_LENGTH : nat := 36.
Record gpt_partition := {
  partition_type_guid : list Z;
  unique_partition_guid : list Z;
  starting_lba : Z;
  ending_lba : Z;
  attributes : Z;
  partition_name : list Z;
}.

Definition sizeof_gpt : nat := 512.
Definition sizeof_gpt_partition : nat := 128.

(** [memcpy] into the structures. *)
Definition load_gpt (l : list Z) : gpt := {|
  signature := slice 0 8 l; revision := load 8 4 l; header_size := load 12 4 l; header_crc32 := load 16 4 l;
  my_lba := load 24 8 l; alternate_lba := load 32 8 l; first_usable_lba := load 40 8 l; last_usable_lba := load 48 8 l;
  disk_guid := slice 56 16 l; partition_entry_lba := load 72 8 l; number_of_partition_entries := load 80 4 l;
  size_of_partition_entry := load 84 4 l; partition_entry_array_crc32 := load 88 4 l |}.

Definition load_gpt_partition (l : list Z) : gpt_partition := {|
  partition_type_guid := slice 0 16 l; unique_partition_guid := slice 16 16 l; starting_lba := load 32 8 l;
  ending_lba := load 40 8 l; attributes := load 48 8 l;
  partition_name := map (λ i, load (56 + 2 * i) 2 l) (seq 0 GPT_PARTITION_NAME_LENGTH) |}.

(** ** Decoding *)

Definition gpt_decode (v : gpt) : gpt := {|
  signature := signature v; revision := le32toh (revision v); header_size := le32toh (header_size v);
  header_crc32 := le32toh (header_crc32 v); my_lba := le64toh (my_lba v); alternate_lba := le64toh (alternate_lba v);
  first_usable_lba := le64toh (first_usable_lba v); last_usable_lba := le64toh (last_usable_lba v);
  disk_guid := disk_guid v; partition_entry_lba := le64toh (partition_entry_lba v);
  number_of_partition_entries := le32toh (number_of_partition_entries v);
  size_of_partition_entry := le32toh (size_of_partition_entry v);
  partition_entry_array_crc32 := le32toh (partition_entry_array_crc32 v) |}.

Definition gpt_partition_decode (v : gpt_partition) : gpt_partition := {|
  partition_type_guid := partition_type_guid v; unique_partition_guid := unique_partition_guid v;
  starting_lba := le64toh (starting_lba v); ending_lba := le64toh (ending_lba v); attributes := le64toh (attributes v);
  partition_name := map le16toh (partition_name v) |}.

(** ** Names *)

(** The string being built, of [length result] bytes with room for [capacity]. *)
Record utf8_string := { result : list Z; capacity : nat }.

(** The bytes [mb] are appended one by one; [None] when memory runs out. *)
Fixpoint append_bytes {U} (length_ : nat) (mb : list Z) (s : utf8_string) : M (world U) (option utf8_string) :=
  match mb with
  | [] => mret (Some s)
  | c :: mb =>
      s ← (if (length (result s) =? capacity s)%nat then
             ok ← allocate;
             if (ok : bool)
             then mret (Some {| result := result s; capacity := if (capacity s =? 0)%nat then length_ else (2 * capacity s)%nat |})
             else mret None
           else mret (Some s));
      match s with
      | None => mret None
      | Some s =>
          M_lift (guard_def (length (result s) <? capacity s)%nat);;
          append_bytes length_ mb {| result := result s ++ [c]; capacity := capacity s |}
      end
  end.

(** The character at [i] and the index it leaves [i] at; [None] for EILSEQ. *)
Definition next_char (string : list Z) (length_ i : nat) : outcome (option (Z * nat)) :=
  if (length_ <=? i)%nat then Ret (Some (0, i))
  else
    c ← Uuid.read string i;
    if (0xDC00 <=? c) && (c <=? 0xDFFF) then Ret None
    else if (0xD800 <=? c) && (c <=? 0xDBFF) then
      let high := u16 (c - 0xD800) in
      if (i + 1 =? length_)%nat then Ret None
      else
        d ← Uuid.read string (i + 1);
        if negb ((0xDC00 <=? d) && (c <=? 0xDFFF)) then Ret None
        else
          let low := u16 (d - 0xDC00) in
          Ret (Some (Z.lor (Z.shiftl high 10) (Z.shiftl low 0) + 0x10000, (i + 1)%nat))
    else Ret (Some (c, (i + 1)%nat)).

(** The name with its terminator; [None] for an error.  A result of [wcrtomb]
    that is neither its error nor a length is used as one, past the buffer. *)
Fixpoint utf16_loop {U} (fuel : nat) (string : list Z) (length_ i : nat) (s : utf8_string) : M (world U) (option (list Z)) :=
  match fuel with
  | O => M_nofuel
  | S fuel =>
      r ← M_lift (next_char string length_ i);
      match r with
      | None => set_errno EILSEQ;; mret None
      | Some (wc, i) =>
          match Utf8.wcrtomb false wc with
          | Utf8.WcIllegal => set_errno EILSEQ;; mret None
          | Utf8.WcErrno => M_undef
          | Utf8.WcBytes mb =>
              s ← append_bytes length_ mb s;
              match s with
              | None => mret None
              | Some s => if wc =? 0 then _ ← allocate; mret (Some (result s)) else utf16_loop fuel string length_ (S i) s
              end
          end
      end
  end.

Definition gpt_decode_utf16 {U} (string : list Z) (length_ : nat) : M (world U) (option (list Z)) :=
  utf16_loop (length_ + 2) string length_ 0 {| result := []; capacity := 0 |}.

(** ** The table *)

Fixpoint power_of_two_loop (fuel : nat) (value cmp high : Z) : bool :=
  match fuel with
  | O => false
  | S fuel => if cmp <=? high then if value =? cmp then true else power_of_two_loop fuel value (u64 (cmp * 2)) high else false
  end.
Definition gpt_check_power_of_two (value low high : Z) : bool := power_of_two_loop 64 value low high.

(** [(off_t) lba * (off_t) logical_block_size] *)
Definition lba_offset {U} (lba block_size : Z) : T U Z := Mbr.mul_off (s64 lba) block_size.
Definition add_off {U} (a b : Z) : T U Z := perform (M_lift (checked 64 (a + b))).

Definition valid_signature (h : gpt) : bool := bool_decide (signature h = lit "EFI PART").

Definition gpt_entry (rpt : list Z) (off : nat) : gpt_partition :=
  gpt_partition_decode (load_gpt_partition (slice off sizeof_gpt_partition rpt)).

Definition entry_partition (i : Z) (e : gpt_partition) (start length : Z) (name : list Z) : partition := {|
  path := []; start := start; length_ := length; extended_start := 0; extended_length := 0;
  type := PARTITION_TYPE_PRIMARY; table_type := PARTITION_TABLE_TYPE_GPT; index := u32 (1 + i);
  gpt_type_guid := partition_type_guid e; gpt_unique_guid := unique_partition_guid e; mbr_system_id := 0;
  gpt_name := name; gpt_attributes := attributes e |}.

(** The last partition of the array is changed in place. *)
Definition set_last {U} (f : partition → partition) : T U () :=
  set_pt (λ t, with_partitions (alter f (length (partitions t) - 1)%nat (partitions t)) t).

Definition with_name (x : list Z) (p : partition) : partition := {|
  path := path p; start := start p; length_ := length_ p; extended_start := extended_start p;
  extended_length := extended_length p; type := type p; table_type := table_type p; index := index p;
  gpt_type_guid := gpt_type_guid p; gpt_unique_guid := gpt_unique_guid p; mbr_system_id := mbr_system_id p;
  gpt_name := x; gpt_attributes := gpt_attributes p |}.

(** An iteration of the loop over the entries. *)
Definition read_entry {U} (device_path rpt : list Z) (h : gpt) (block_size : Z) (i : Z) : T U () :=
  let pentry_off := Z.to_nat (i * size_of_partition_entry h) in
  perform (M_lift (guard_def (pentry_off + sizeof_gpt_partition <=? length rpt)%nat));;
  let e := gpt_entry rpt pentry_off in
  if memiszero (partition_type_guid e) then mret ()
  else
    check (ending_lba e <? starting_lba e) PARTITION_ERROR_END_BEFORE_START;;
    let lba_count := u64 ((ending_lba e - starting_lba e) + 1) in
    start ← lba_offset (starting_lba e) block_size;
    t ← get_pt;
    check (start <? usable_start t) PARTITION_ERROR_BEFORE_USABLE;;
    length ← lba_offset lba_count block_size;
    check (usable_end t <? start) PARTITION_ERROR_BEYOND_USABLE;;
    room ← add_off (usable_end t) (- start);
    check (room <? length) PARTITION_ERROR_BEYOND_USABLE;;
    Mbr.alloc_or_fail;;
    ok ← array_add (entry_partition i e start length []); check (negb ok) PARTITION_ERROR_ERRNO;;
    name ← perform (gpt_decode_utf16 (partition_name e) GPT_PARTITION_NAME_LENGTH);
    match name with
    | None => throw PARTITION_ERROR_ERRNO
    | Some name =>
        set_last (with_name name);;
        Mbr.alloc_or_fail;;
        set_last (Mbr.with_path (partition_path device_path (u32 (1 + i))))
    end.

Fixpoint entries_loop {U} (device_path rpt : list Z) (h : gpt) (block_size : Z) (n : nat) (i : Z) : T U () :=
  match n with
  | O => mret ()
  | S n => read_entry device_path rpt h block_size i;; entries_loop device_path rpt h block_size n (i + 1)
  end.

(** The neighbours in the array. *)
Fixpoint overlap_loop (ps : list partition) : outcome bool :=
  match ps with
  | a :: (b :: _) as rest =>
      o ← partition_check_overlap a (start b) (length_ b);
      if (o : bool) then Ret true else overlap_loop rest
  | _ => Ret false
  end.

Definition sort_table {U} (compare : list partition → list Z → list Z → Z) : T U () :=
  t ← get_pt;
  ps ← perform (M_lift (qsort_partitions compare (partitions t)));
  set_pt (with_partitions ps).

Section Read.
Context {U : Type} (pread : Z → Z → M U (errno + list Z)).

(** The block with the header, and the size of a block; [None] when reading or
    allocating fails.  The second attempt overwrites the beginning of the block. *)
Definition read_header (bdev : blockdevice) (block_size : Z) : M (world U) (option (list Z * Z)) :=
  ok ← allocate;
  if negb ok then mret None
  else
    block ← blockdevice_preadall pread bdev block_size block_size;
    if negb (Z.of_nat (length block) =? block_size) then mret None
    else if negb (valid_signature (gpt_decode (load_gpt block))) && negb (block_size =? 512) then
      block' ← blockdevice_preadall pread bdev 512 512;
      if negb (Z.of_nat (length block') =? 512) then mret None
      else mret (Some (block' ++ drop 512 block, 512))
    else mret (Some (block, block_size)).

(** From the checksum of the header on. *)
Definition read_table (bdev : blockdevice) (block : list Z) (h : gpt) (block_size : Z) : T U () :=
  check (block_size <? header_size h) PARTITION_ERROR_HEADER_TOO_LARGE;;
  Mbr.alloc_or_fail;;
  set_pt (with_raw (raw_gpt (take sizeof_gpt block) []));;
  let check_gpt := take 16 block ++ replicate 4 0 ++ drop 20 block in
  checksum ← perform (M_lift (Crc32.gpt_crc32 (take (Z.to_nat (header_size h)) check_gpt)));
  check (negb (checksum =? header_crc32 h)) PARTITION_ERROR_CHECKSUM;;
  set_pt (with_guid (disk_guid h));;
  check (negb (gpt_check_power_of_two (size_of_partition_entry h) (Z.of_nat sizeof_gpt_partition) 65536)) PARTITION_ERROR_INVALID;;
  check (negb (my_lba h =? 1)) PARTITION_ERROR_INVALID;;
  check (first_usable_lba h <=? my_lba h) PARTITION_ERROR_INVALID;;
  check (partition_entry_lba h <=? 1) PARTITION_ERROR_INVALID;;
  check (last_usable_lba h <? first_usable_lba h) PARTITION_ERROR_INVALID;;
  usable_start ← lba_offset (first_usable_lba h) block_size;
  last ← add_off (s64 (last_usable_lba h)) 1;
  usable_end ← Mbr.mul_off last block_size;
  set_pt (with_usable usable_start usable_end);;
  check (blockdevice_size bdev <? usable_end) PARTITION_ERROR_INVALID;;
  let rpt_size := u64 (size_of_partition_entry h * number_of_partition_entries h) in
  rpt_off ← lba_offset (partition_entry_lba h) block_size;
  rpt_end ← add_off rpt_off rpt_off;
  check (usable_start <? rpt_end) PARTITION_ERROR_INVALID;;
  Mbr.alloc_or_fail;;
  rpt ← perform (blockdevice_preadall pread bdev rpt_size rpt_off);
  check (negb (Z.of_nat (length rpt) =? rpt_size)) PARTITION_ERROR_ERRNO;;
  set_pt (with_raw (raw_gpt (take sizeof_gpt block) rpt));;
  checksum ← perform (M_lift (Crc32.gpt_crc32 rpt));
  check (negb (partition_entry_array_crc32 h =? checksum)) PARTITION_ERROR_CHECKSUM;;
  entries_loop (device_path bdev) rpt h block_size (Z.to_nat (number_of_partition_entries h)) 0;;
  sort_table partition_compare_start_indirect;;
  t ← get_pt;
  overlap ← perform (M_lift (overlap_loop (partitions t)));
  check overlap PARTITION_ERROR_OVERLAP;;
  sort_table partition_compare_index_indirect.

Definition blockdevice_get_partition_table_gpt (bdev : blockdevice)
    : M (world U) (partition_error * option partition_table) :=
  let block_size := blockdevice_logical_block_size bdev in
  if negb (blockdevice_check_reasonable_block_size block_size) then set_errno EINVAL;; mret (PARTITION_ERROR_ERRNO, None)
  else
    r ← read_header bdev block_size;
    match r with
    | None => mret (PARTITION_ERROR_ERRNO, None)
    | Some (block, block_size) =>
        let h := gpt_decode (load_gpt block) in
        if negb (valid_signature h) then mret (PARTITION_ERROR_INVALID, None)
        else if header_size h <? 92 then mret (PARTITION_ERROR_INVALID, None)
        else
          ok ← allocate;
          if negb ok then mret (PARTITION_ERROR_ERRNO, None)
          else finish (read_table bdev block h block_size) (new_table PARTITION_TABLE_TYPE_GPT)
    end.

End Read.

End Gpt.
