(* ===== verification/GptSpec.v ===== *)
(** * What the reader of GUID partition tables promises *)

From S2P Require Import Prelude Memory Wchar Crc32 Uuid Blockdev Partition Mbr MbrSpec Gpt.
From stdpp Require Import base list numbers strings sorting.
From Stdlib Require Import ZArith Lia Ascii Sorted.

#[local] Open Scope Z_scope.
#[local] Open Scope c_scope.

Module GptSpec.
Import Blockdev Partition Gpt.

(** ** Names *)

Definition encode (wc : Z) : option (list Z) :=
  match Utf8.wcrtomb false wc with Utf8.WcBytes b => Some b | _ => None end.

(** The character of a surrogate pair. *)
Definition pair_char (c d : Z) : Z := Z.lor (Z.shiftl (c - 0xD800) 10) (d - 0xDC00) + 0x10000.

(** The text of a name, with its terminator, as the reader forms it: the unit
    after each character that is not a surrogate pair is passed over. *)
Fixpoint name_of (l : list Z) : option (list Z) :=
  match l with
  | [] => Some [0]
  | c :: l =>
      if (0xDC00 <=? c) && (c <=? 0xDFFF) then None
      else if (0xD800 <=? c) && (c <=? 0xDBFF) then
        match l with
        | [] => None
        | d :: l => if 0xDC00 <=? d then b ← encode (pair_char c d); rest ← name_of l; Some (b ++ rest) else None
        end
      else if c =? 0 then Some [0]
      else b ← encode c; match l with [] => Some (b ++ [0]) | _ :: l => rest ← name_of l; Some (b ++ rest) end
  end.

Lemma wcrtomb_errno wc : Utf8.wcrtomb false wc ≠ Utf8.WcErrno.
Proof. unfold Utf8.wcrtomb, Utf8.utf8_wcrtomb. repeat case_if; try done; lia. Qed.

Lemma encode_zero : Utf8.wcrtomb false 0 = Utf8.WcBytes [0].
Proof. reflexivity. Qed.

Section Names.
Context {U : Type} (pread : Z → Z → M U (errno + list Z)) (good : world U → Prop) (fallible : bool)
  (bdev : blockdevice) (reads : Z → Z → list Z → Prop) `{!Environment pread good fallible bdev reads}.

Lemma append_runs length_ mb s w :
  (0 < length_)%nat → (length (result s) <= capacity s)%nat → good w →
  ∃ r w', append_bytes length_ mb s w = Ret (r, w') ∧ good w' ∧
    match r with
    | Some s' => result s' = result s ++ mb ∧ (length (result s') <= capacity s')%nat
    | None => fallible = true
    end.
Proof.
  intros Hlen. revert s w. induction mb as [|c mb IH]; intros s w Hs Hw.
  { exists (Some s), w. by rewrite app_nil_r. }
  cbn [append_bytes].
  assert (Hgo : ∀ s' w', result s' = result s → (length (result s) < capacity s')%nat → good w' →
    ∃ r w'', (M_lift (guard_def (length (result s') <? capacity s')%nat);;
      append_bytes length_ mb {| result := result s' ++ [c]; capacity := capacity s' |}) w' = Ret (r, w'') ∧ good w'' ∧
    match r with
    | Some s'' => result s'' = result s ++ c :: mb ∧ (length (result s'') <= capacity s'')%nat
    | None => fallible = true
    end).
  { intros s' w' Er Hc Hw'. rewrite Er, (proj2 (Nat.ltb_lt _ _)) by done.
    rewrite (M_bind_ret _ _ _ () w') by done.
    destruct (IH {| result := result s ++ [c]; capacity := capacity s' |} w') as (r & w'' & E & Hw'' & Hr);
      [simpl; rewrite length_app; simpl; lia|done|]. exists r, w''. split; [done|]. split; [done|].
    destruct r as [s''|]; [|done]. simpl in Hr. by rewrite <- app_assoc in Hr. }
  destruct (Nat.eqb_spec (length (result s)) (capacity s)) as [E|E].
  - destruct (env_alloc w Hw) as (ok & w1 & E1 & Hw1 & Hok). unfold mbind, M_bind. rewrite E1. destruct ok; [|by eexists None, w1; auto].
    apply (Hgo {| result := result s; capacity := _ |}); [done| |done]. simpl.
    destruct (Nat.eqb_spec (capacity s) 0); lia.
  - apply Hgo; [done|lia|done].
Qed.

(** What remains of the name at a character [wc], after which the reader goes on
    with the units [l]. *)
Definition name_from (wc : Z) (l : list Z) : option (list Z) :=
  b ← encode wc; if wc =? 0 then Some b else rest ← name_of l; Some (b ++ rest).

Definition char_at (l : list Z) (i : nat) : option (Z * nat) :=
  match l with
  | [] => Some (0, i)
  | c :: l =>
      if (0xDC00 <=? c) && (c <=? 0xDFFF) then None
      else if (0xD800 <=? c) && (c <=? 0xDBFF) then
        match l with [] => None | d :: _ => if 0xDC00 <=? d then Some (pair_char c d, (i + 1)%nat) else None end
      else Some (c, (i + 1)%nat)
  end.

Lemma next_char_run string i :
  Forall (λ c, 0 <= c < 65536) string → next_char string (length string) i = Ret (char_at (drop i string) i).
Proof.
  intros Hs. unfold next_char. destruct (Nat.leb_spec (length string) i) as [Hi|Hi]; [by rewrite drop_ge by lia|].
  destruct (lookup_lt_is_Some_2 string i Hi) as [c Hc]. rewrite (drop_S _ c) by done.
  unfold Uuid.read. rewrite Hc. cbn -[Z.leb Z.lor Z.shiftl wrapu].
  destruct ((0xDC00 <=? c) && (c <=? 0xDFFF)); [done|]. destruct ((0xD800 <=? c) && (c <=? 0xDBFF)) eqn:E2; [|done].
  destruct (Nat.eqb_spec (i + 1) (length string)) as [Hl|Hl]; [by rewrite drop_ge by lia|].
  destruct (lookup_lt_is_Some_2 string (i + 1)) as [d Hd]; [lia|].
  rewrite (drop_S _ d) by (by rewrite <- Nat.add_1_r). rewrite Hd. cbn -[Z.leb Z.lor Z.shiftl wrapu]. b2p.
  rewrite (proj2 (Z.leb_le c 0xDFFF)), andb_true_r by lia.
  destruct (Z.leb_spec 0xDC00 d); [|done]. cbn [negb].
  pose proof (Forall_lookup_1 _ _ _ _ Hs Hd) as Hd'. simpl in Hd'.
  unfold pair_char. by rewrite !wrapu_id, Z.shiftl_0_r by (unfold in_u; lia).
Qed.

(** The name in terms of its first character. *)
Lemma name_of_char string i :
  name_of (drop i string) =
  match char_at (drop i string) i with Some (wc, i') => name_from wc (drop (S i') string) | None => None end.
Proof.
  assert (Hd : ∀ k, drop (S (i + k)) string = drop (S k) (drop i string)) by (intros; rewrite drop_drop; f_equal; lia).
  destruct (drop i string) as [|c l] eqn:E; [done|]. cbn [name_of char_at].
  destruct ((0xDC00 <=? c) && (c <=? 0xDFFF)); [done|]. destruct ((0xD800 <=? c) && (c <=? 0xDBFF)) eqn:E2.
  - destruct l as [|d l]; [done|]. destruct (Z.leb_spec 0xDC00 d); [|done]. rewrite Hd. unfold name_from. simpl drop.
    rewrite (proj2 (Z.eqb_neq (pair_char c d) 0)); [done|]. b2p. unfold pair_char.
    enough (0 <= Z.lor (Z.shiftl (c - 0xD800) 10) (d - 0xDC00)) by lia.
    apply Z.lor_nonneg. split; [apply Z.shiftl_nonneg|]; lia.
  - rewrite Hd. unfold name_from. destruct (Z.eqb_spec c 0) as [->|Hc]; [done|]. by destruct l.
Qed.

Lemma utf16_loop_runs fuel string i s w :
  Forall (λ c, 0 <= c < 65536) string → (0 < length string)%nat → (length string < i + fuel)%nat → (0 < fuel)%nat →
  (length (result s) <= capacity s)%nat → good w →
  ∃ r w', utf16_loop fuel string (length string) i s w = Ret (r, w') ∧ good w' ∧
    match r with
    | Some t => ∃ n, name_of (drop i string) = Some n ∧ t = result s ++ n
    | None => fallible = false → name_of (drop i string) = None
    end.
Proof.
  intros Hstr Hpos. revert i s w. induction fuel as [|fuel IH]; intros i s w Hf Hf0 Hs Hw; [lia|].
  cbn [utf16_loop]. rewrite (M_bind_ret _ _ _ (char_at (drop i string) i) w)
    by (unfold M_lift; by rewrite next_char_run).
  rewrite name_of_char. destruct (char_at (drop i string) i) as [[wc i']|] eqn:Ec.
  2:{ destruct (env_errno EILSEQ w Hw) as (w' & E & Hw'). rewrite (M_bind_ret _ _ _ _ _ E). by exists None, w'. }
  unfold name_from, encode. destruct (Utf8.wcrtomb false wc) as [mb| |] eqn:Ew; [| |by destruct (wcrtomb_errno wc)].
  2:{ destruct (env_errno EILSEQ w Hw) as (w' & E & Hw'). rewrite (M_bind_ret _ _ _ _ _ E). by exists None, w'. }
  destruct (append_runs (length string) mb s w) as (r & w1 & E1 & Hw1 & Hr); [done..|].
  rewrite (M_bind_ret _ _ _ _ _ E1). destruct r as [s'|]; [|exists None, w1; split_and!; [done..|congruence]].
  destruct Hr as [Er Hs']. cbn [mbind option_bind].
  destruct (Z.eqb_spec wc 0) as [Hz|Hz].
  { destruct (env_alloc w1 Hw1) as (ok & w2 & E2 & Hw2 & _). rewrite (M_bind_ret _ _ _ _ _ E2).
    exists (Some (result s')), w2. split_and!; [done..|]. by exists mb. }
  assert (Hi : (i < length string)%nat ∧ (i' = i + 1)%nat).
  { destruct (decide (i < length string)%nat) as [Hi|Hi].
    - split; [done|]. destruct (drop i string) as [|c l] eqn:Ed.
      + apply (f_equal length) in Ed. rewrite length_drop in Ed. simpl in Ed. lia.
      + unfold char_at in Ec. by repeat case_match; simplify_eq.
    - rewrite drop_ge in Ec by lia. simpl in Ec. by simplify_eq. }
  destruct Hi as [Hi ->].
  destruct (IH (S (i + 1)) s' w1) as (r & w2 & E2 & Hw2 & Hr); [lia| |done..|].
  { destruct fuel; [|lia]. lia. }
  exists r, w2. split; [done|]. split; [done|]. destruct r as [t|].
  - destruct Hr as (n & En & ->). rewrite En. exists (mb ++ n). split; [done|]. by rewrite Er, app_assoc.
  - intros Hfal. rewrite (Hr Hfal). done.
Qed.

Lemma gpt_decode_utf16_runs string w :
  Forall (λ c, 0 <= c < 65536) string → (0 < length string)%nat → good w →
  ∃ r w', gpt_decode_utf16 string (length string) w = Ret (r, w') ∧ good w' ∧
    match r with Some t => name_of string = Some t | None => fallible = false → name_of string = None end.
Proof.
  intros Hs Hpos Hw. unfold gpt_decode_utf16.
  destruct (utf16_loop_runs (length string + 2) string 0 {| result := []; capacity := 0 |} w) as (r & w' & E & Hw' & Hr);
    [done|done|lia|lia|simpl; lia|done|].
  exists r, w'. split; [done|]. split; [done|]. rewrite drop_0 in Hr. destruct r as [t|]; [|done].
  destruct Hr as (n & -> & ->). done.
Qed.

End Names.

(** ** Layouts *)

(** Block numbers for which no product overflows. *)
Definition sane_lba (x : Z) : Prop := 0 <= x < 2 ^ 46.
Definition sane_header (h : gpt) : Prop :=
  sane_lba (first_usable_lba h) ∧ sane_lba (last_usable_lba h) ∧ sane_lba (partition_entry_lba h).
Definition sane_entry (e : gpt_partition) : Prop :=
  memiszero (partition_type_guid e) = false → sane_lba (starting_lba e) ∧ sane_lba (ending_lba e).

Section Layout.
Context (reads : Z → Z → list Z → Prop) (size : Z) (path : list Z).

(** The partition [p] of an entry, between the first and the last usable block. *)
Definition entry_spec (h : gpt) (block_size i : Z) (e : gpt_partition) (p : partition) : Prop :=
  starting_lba e <= ending_lba e ∧ first_usable_lba h <= starting_lba e ∧ ending_lba e <= last_usable_lba h ∧
  ∃ name, name_of (partition_name e) = Some name ∧
    p = Mbr.with_path (partition_path path (u32 (1 + i)))
      (entry_partition i e (starting_lba e * block_size) ((ending_lba e - starting_lba e + 1) * block_size) name).

Definition entry_at (h : gpt) (rpt : list Z) (i : Z) : gpt_partition :=
  gpt_entry rpt (Z.to_nat (i * size_of_partition_entry h)).

(** The partitions of [n] entries from the [i]th on; an entry whose type is zero
    is not used. *)
Fixpoint entries_spec (h : gpt) (block_size : Z) (rpt : list Z) (n : nat) (i : Z) (ps : list partition) : Prop :=
  match n with
  | O => ps = []
  | S n =>
      if memiszero (partition_type_guid (entry_at h rpt i)) then entries_spec h block_size rpt n (i + 1) ps
      else ∃ p ps', ps = p :: ps' ∧ entry_spec h block_size i (entry_at h rpt i) p ∧
             entries_spec h block_size rpt n (i + 1) ps'
  end.

(** The block of the header, with the size of a block: that of the device, or 512. *)
Definition header_block (device_block_size : Z) (block : list Z) (block_size : Z) : Prop :=
  ∃ b, reads device_block_size device_block_size b ∧ Z.of_nat (length b) = device_block_size ∧
    if valid_signature (gpt_decode (load_gpt b)) || (device_block_size =? 512)
    then block = b ∧ block_size = device_block_size
    else block_size = 512 ∧ ∃ b', reads 512 512 b' ∧ Z.of_nat (length b') = 512 ∧ block = b' ++ drop 512 b.

(** The header with its checksum field zero. *)
Definition checked_header (h : gpt) (block : list Z) : list Z :=
  take (Z.to_nat (header_size h)) (take 16 block ++ replicate 4 0 ++ drop 20 block).

Record header_ok (h : gpt) (block : list Z) (block_size : Z) : Prop := {
  h_size : header_size h <= block_size;
  h_crc : header_crc32 h = Crc32.crc (Crc32.message (checked_header h block));
  h_entry_size : gpt_check_power_of_two (size_of_partition_entry h) 128 65536 = true;
  h_my_lba : my_lba h = 1;
  h_first : 1 < first_usable_lba h;
  h_entries : 1 < partition_entry_lba h;
  h_last : first_usable_lba h <= last_usable_lba h;
  h_device : (last_usable_lba h + 1) * block_size <= size;
  h_before : 2 * partition_entry_lba h <= first_usable_lba h;
}.

(** The array of entries. *)
Definition entry_array (h : gpt) (block_size : Z) (rpt : list Z) : Prop :=
  let n := size_of_partition_entry h * number_of_partition_entries h in
  reads n (partition_entry_lba h * block_size) rpt ∧ Z.of_nat (length rpt) = n ∧
  partition_entry_array_crc32 h = Crc32.crc (Crc32.message rpt).

(** What the reader accepts: partitions in the order of their entries, of which each
    is apart from the next. *)
Definition table_layout (h : gpt) (block : list Z) (block_size : Z) (ps : list partition) : Prop :=
  header_ok h block block_size ∧
  ∃ rpt, entry_array h block_size rpt ∧
    entries_spec h block_size rpt (Z.to_nat (number_of_partition_entries h)) 0 ps ∧ Sorted disjoint_ ps.

Definition layout (device_block_size : Z) (ps : list partition) : Prop :=
  ∃ block block_size, header_block device_block_size block block_size ∧
    let h := gpt_decode (load_gpt block) in
    valid_signature h = true ∧ 92 <= header_size h ∧ table_layout h block block_size ps.

End Layout.

(** ** The reader *)

Section Reader.
Context {U : Type} (pread : Z → Z → M U (errno + list Z)) (good : world U → Prop) (fallible : bool)
  (bdev : blockdevice) (reads : Z → Z → list Z → Prop) `{!Environment pread good fallible bdev reads}.

Abbreviation size := (blockdevice_size bdev).
Abbreviation dpath := (device_path bdev).

(** The partitions are in the usable region, which is on the device. *)
Definition in_region (t : partition_table) : Prop :=
  Forall (λ p, usable_start t <= start p ∧ 0 < length_ p ∧ start p + length_ p <= usable_end t) (partitions t).

Definition same_region (t t' : partition_table) : Prop :=
  usable_start t' = usable_start t ∧ usable_end t' = usable_end t.

Lemma lba_runs x bs b (Q : partition_error + Z → building → Prop) :
  0 <= x < 2 ^ 47 → 0 < bs <= 65536 → Q (inr (x * bs)) b → runs good (lba_offset x bs) b Q.
Proof.
  intros Hx Hbs HQ. unfold lba_offset, Mbr.mul_off. rewrite wraps_id by (unfold in_s; lia).
  apply runs_lift with (x * bs); [|done]. apply checked_ok. unfold in_s. nia.
Qed.

Lemma add_runs x y b (Q : partition_error + Z → building → Prop) :
  in_s 64 (x + y) → Q (inr (x + y)) b → runs good (add_off x y) b Q.
Proof. intros Hx HQ. apply runs_lift with (x + y); [|done]. by apply checked_ok. Qed.

Lemma set_last_runs f b ps p (Q : partition_error + () → building → Prop) :
  partitions (pt b) = ps ++ [p] →
  (∀ b', partitions (pt b') = ps ++ [f p] → same_region (pt b) (pt b') → Q (inr ()) b') →
  runs good (set_last f) b Q.
Proof.
  intros Eb HQ. apply runs_set, HQ; [|done]. cbn [pt with_partitions partitions]. rewrite Eb, length_app.
  simpl. by rewrite Nat.add_sub, alter_app_r_alt, Nat.sub_diag by lia.
Qed.

(** The name of an entry: 36 units of sixteen bits. *)
Lemma entry_name rpt off : Forall (λ b, 0 <= b < 256) rpt →
  Forall (λ c, 0 <= c < 65536) (partition_name (gpt_entry rpt off)) ∧
  length (partition_name (gpt_entry rpt off)) = GPT_PARTITION_NAME_LENGTH.
Proof.
  intros Hb. unfold gpt_entry, gpt_partition_decode, load_gpt_partition. cbn [partition_name]. split.
  - apply Forall_map, Forall_map, Forall_true. intros j. unfold le16toh.
    apply (MbrSpec.load_range _ 2). by apply Forall_take, Forall_drop.
  - by rewrite !length_map, length_seq.
Qed.

Lemma read_entry_runs h bs rpt i b :
  0 < bs <= 65536 → 0 <= i → sane_header h → sane_entry (entry_at h rpt i) →
  (Z.to_nat (i * size_of_partition_entry h) + 128 <= length rpt)%nat → Forall (λ b, 0 <= b < 256) rpt →
  usable_start (pt b) = first_usable_lba h * bs → usable_end (pt b) = (last_usable_lba h + 1) * bs → in_region (pt b) →
  runs good (read_entry dpath rpt h bs i) b (λ r b', in_region (pt b') ∧ same_region (pt b) (pt b') ∧
    match r with
    | inr _ =>
        if memiszero (partition_type_guid (entry_at h rpt i)) then partitions (pt b') = partitions (pt b)
        else ∃ p, entry_spec dpath h bs i (entry_at h rpt i) p ∧ partitions (pt b') = partitions (pt b) ++ [p]
    | inl e => e ≠ PARTITION_ERROR_NONE ∧
        (fallible = false → memiszero (partition_type_guid (entry_at h rpt i)) = false ∧
          ∀ p, ¬ entry_spec dpath h bs i (entry_at h rpt i) p)
    end).
Proof.
  intros Hbs Hi (Hfs & Hls & _) Hse Hlen Hbytes Eus Eue Hreg. unfold read_entry.
  change sizeof_gpt_partition with 128%nat.
  apply runs_bind, (runs_lift _ _ ()). { unfold guard_def. by rewrite (proj2 (Nat.leb_le _ _)). }
  fold (entry_at h rpt i). set (e := entry_at h rpt i) in *.
  destruct (memiszero (partition_type_guid e)) eqn:Hz; [by apply runs_ret|]. destruct (Hse Hz) as [Hst Hen].
  unfold sane_lba in *.
  assert (Hfail : ∀ x b', x ≠ PARTITION_ERROR_NONE → in_region (pt b') → same_region (pt b) (pt b') →
    (fallible = false → ∀ p, ¬ entry_spec dpath h bs i e p) →
    in_region (pt b') ∧ same_region (pt b) (pt b') ∧ x ≠ PARTITION_ERROR_NONE ∧
    (fallible = false → false = false ∧ ∀ p, ¬ entry_spec dpath h bs i e p)).
  { intros x b' H1 H2 H3 H4. split; [done|]. split; [done|]. split; [done|]. intros Hf. split; [done|]. by apply H4. }
  apply runs_bind, runs_check; intros Hc1; b2p.
  2:{ apply Hfail; [done..|]. intros _ p (H1 & _). lia. }
  rewrite (wrapu_id 64) by (unfold in_u; lia).
  apply runs_bind, lba_runs; [lia|done|]. apply runs_bind, runs_get.
  rewrite Eus, Eue. apply runs_bind, runs_check; intros Hc2; b2p.
  2:{ apply Hfail; [done..|]. intros _ p (_ & H1 & _). nia. }
  apply runs_bind, lba_runs; [lia|done|].
  apply runs_bind, runs_check; intros Hc3; b2p.
  2:{ apply Hfail; [done..|]. intros _ p (_ & _ & H1 & _). nia. }
  apply runs_bind, add_runs; [unfold in_s; nia|].
  apply runs_bind, runs_check; intros Hc4; b2p.
  2:{ apply Hfail; [done..|]. intros _ p (_ & _ & H1 & _). nia. }
  apply runs_bind, (MbrSpec.alloc_runs pread good fallible bdev reads); [|intros Hf; apply Hfail; [done..|congruence]].
  set (q := entry_partition i e _ _ []).
  apply runs_bind, (MbrSpec.array_add_runs pread good fallible bdev reads);
    [|intros Hf; apply runs_bind, runs_check; [done|]; intros _; apply Hfail; [done..|congruence]].
  intros n. apply runs_bind, runs_check; [|done]. intros _.
  set (b1 := {| pt := _; partitions_length := _ |}).
  assert (Hpart : ∀ p b', start p = start q → length_ p = length_ q → partitions (pt b') = partitions (pt b) ++ [p] →
    same_region (pt b) (pt b') → in_region (pt b')).
  { intros p b' E1 E2 Ep [Hu1 Hu2]. unfold in_region. rewrite Ep, Hu1, Hu2. apply Forall_app_2; [done|].
    apply Forall_singleton. rewrite E1, E2, Eus, Eue. unfold q, entry_partition. cbn [start length_]. nia. }
  assert (Hb1 : in_region (pt b1)) by (by apply (Hpart q)).
  destruct (entry_name rpt (Z.to_nat (i * size_of_partition_entry h)) Hbytes) as [Hn1 Hn2].
  change (gpt_entry rpt (Z.to_nat (i * size_of_partition_entry h))) with e in Hn1, Hn2.
  apply runs_bind, runs_perform. intros w Hw.
  destruct (gpt_decode_utf16_runs pread good fallible bdev reads (partition_name e) w) as (r & w' & E & Hw' & Hr);
    [done|rewrite Hn2; unfold GPT_PARTITION_NAME_LENGTH; lia|done|].
  rewrite Hn2 in E. exists r, w'. split; [done|]. split; [done|]. clear w w' Hw Hw' E.
  destruct r as [name|].
  2:{ apply runs_throw. apply Hfail; [done..|]. intros Hf p (_ & _ & _ & name & En & _). by rewrite (Hr Hf) in En. }
  apply runs_bind, (set_last_runs _ _ (partitions (pt b)) q); [done|]. intros b2 Eb2 Hs2.
  apply runs_bind, (MbrSpec.alloc_runs pread good fallible bdev reads);
    [|intros Hf; apply Hfail; [done|by apply (Hpart (with_name name q))|done|congruence]].
  apply (set_last_runs _ _ (partitions (pt b)) (with_name name q)); [done|]. intros b3 Eb3 Hs3.
  assert (Hs : same_region (pt b) (pt b3)).
  { destruct Hs2 as [H1 H2], Hs3 as [H3 H4]. split; [by rewrite H3, H1|by rewrite H4, H2]. }
  split; [by apply (Hpart (Mbr.with_path (partition_path dpath (u32 (1 + i))) (with_name name q)))|].
  split; [done|]. eexists. split; [|exact Eb3].
  split; [done|]. split; [nia|]. split; [nia|]. exists name. by rewrite Hr.
Qed.

Lemma entries_loop_runs h bs rpt n i b :
  0 < bs <= 65536 → 0 <= i → 128 <= size_of_partition_entry h → sane_header h →
  (∀ j, i <= j < i + Z.of_nat n → sane_entry (entry_at h rpt j)) →
  (i + Z.of_nat n) * size_of_partition_entry h <= Z.of_nat (length rpt) → Forall (λ b, 0 <= b < 256) rpt →
  usable_start (pt b) = first_usable_lba h * bs → usable_end (pt b) = (last_usable_lba h + 1) * bs → in_region (pt b) →
  runs good (entries_loop dpath rpt h bs n i) b (λ r b', in_region (pt b') ∧ same_region (pt b) (pt b') ∧
    match r with
    | inr _ => ∃ ps, entries_spec dpath h bs rpt n i ps ∧ partitions (pt b') = partitions (pt b) ++ ps
    | inl e => e ≠ PARTITION_ERROR_NONE ∧ (fallible = false → ∀ ps, ¬ entries_spec dpath h bs rpt n i ps)
    end).
Proof.
  intros Hbs Hi Hsz Hh. revert i b Hi. induction n as [|n IH]; intros i b Hi Hsane Hlen Hbytes Eus Eue Hreg.
  { apply runs_ret. split; [done|]. split; [done|]. exists []. by rewrite app_nil_r. }
  cbn [entries_loop]. apply runs_bind.
  eapply runs_mono; [apply read_entry_runs; [done|done|done|apply Hsane; lia|nia|done|done|done|done]|].
  intros r b' (Hreg' & Hs & Hr). destruct r as [x|[]].
  { split; [done|]. split; [done|]. destruct Hr as [Hx Hno]. split; [done|]. intros Hf ps. cbn [entries_spec].
    destruct (Hno Hf) as [-> Hn]. intros (p & ps' & _ & Hp & _). by apply (Hn p). }
  eapply runs_mono; [apply (IH (i + 1) b'); [lia| |nia|done|by destruct Hs as [-> _]|by destruct Hs as [_ ->]|done]|].
  { intros j Hj. apply Hsane. lia. }
  intros r b'' (Hreg'' & Hs' & Hr'). split; [done|].
  split; [destruct Hs as [H1 H2], Hs' as [H3 H4]; split; congruence|]. cbn [entries_spec].
  destruct (memiszero (partition_type_guid (entry_at h rpt i))) eqn:Hz; [by rewrite <- Hr|].
  destruct Hr as (p & Hp & Ep). destruct r as [x|[]].
  - destruct Hr' as [Hx Hno]. split; [done|]. intros Hf ps (p' & ps' & _ & _ & Hps). by apply (Hno Hf ps').
  - destruct Hr' as (ps & Hps & Eps). exists (p :: ps). split; [by exists p, ps|]. by rewrite Eps, Ep, <- app_assoc.
Qed.

(** An array describes at most one list of partitions. *)
Lemma entries_spec_unique h bs rpt n i ps qs :
  entries_spec dpath h bs rpt n i ps → entries_spec dpath h bs rpt n i qs → ps = qs.
Proof.
  revert i ps qs. induction n as [|n IH]; intros i ps qs; cbn [entries_spec]; [congruence|].
  destruct (memiszero _); [by apply IH|].
  intros (p & ps' & -> & (_ & _ & _ & x & Ex & ->) & Hps) (q & qs' & -> & (_ & _ & _ & y & Ey & ->) & Hqs).
  rewrite Ex in Ey. injection Ey as <-. f_equal. by eapply IH.
Qed.

(** The indices of the partitions increase. *)
Lemma entries_spec_index h bs rpt n i ps :
  0 <= i → i + Z.of_nat n < 2 ^ 32 → entries_spec dpath h bs rpt n i ps →
  StronglySorted (λ p q, index p < index q) ps ∧ Forall (λ p, i < index p) ps ∧ (length ps <= n)%nat.
Proof.
  revert i ps. induction n as [|n IH]; intros i ps Hi Hn.
  { intros ->. split_and!; constructor. }
  cbn [entries_spec]. destruct (memiszero _).
  - intros Hps. destruct (IH (i + 1) ps) as (H1 & H2 & H3); [lia|lia|done|]. split_and!; [done| |lia].
    eapply Forall_impl; [exact H2|]. simpl. lia.
  - intros (p & ps' & -> & (_ & _ & _ & name & _ & ->) & Hps). destruct (IH (i + 1) ps') as (H1 & H2 & H3); [lia|lia|done|].
    assert (Eidx : index (Mbr.with_path (partition_path dpath (u32 (1 + i))) (entry_partition i (entry_at h rpt i)
      (starting_lba (entry_at h rpt i) * bs) ((ending_lba (entry_at h rpt i) - starting_lba (entry_at h rpt i) + 1) * bs) name))
      = 1 + i).
    { unfold Mbr.with_path, entry_partition. cbn [index]. apply wrapu_id. unfold in_u. lia. }
    split_and!; [constructor; [done|]|constructor|simpl; lia].
    + eapply Forall_impl; [exact H2|]. cbn beta. intros q Hq. rewrite Eidx. lia.
    + rewrite Eidx. lia.
    + eapply Forall_impl; [exact H2|]. simpl. lia.
Qed.

(** The test for overlap looks at neighbours only. *)
Lemma overlap_loop_spec ps :
  Forall (λ p, 0 <= start p ∧ 0 < length_ p) ps →
  ∃ o, overlap_loop ps = Ret o ∧ (o = false ↔ Sorted disjoint_ ps).
Proof.
  induction 1 as [|a ps [Ha1 Ha2] Hps IH]; [exists false; repeat constructor|].
  destruct ps as [|q ps]; [exists false; repeat constructor|].
  destruct IH as (o & E & Ho). apply Forall_cons in Hps as [[Hq1 Hq2] Hps].
  destruct (check_overlap_spec a q) as (o' & E' & Ho'); [done..|].
  change (overlap_loop (a :: q :: ps)) with
    (o ← partition_check_overlap a (start q) (length_ q); if (o : bool) then Ret true else overlap_loop (q :: ps)).
  rewrite E'. cbn [mbind outcome_bind]. destruct o'.
  - exists true. split; [done|]. split; [done|]. intros Hs. inversion Hs as [|? ? _ Hhd]; subst.
    inversion Hhd; subst. by apply Ho'.
  - exists o. split; [done|]. rewrite Ho. split.
    + intros Hs. constructor; [done|]. constructor. by apply Ho'.
    + by inversion 1.
Qed.

Lemma sort_table_runs compare b (Q : partition_error + () → building → Prop) :
  compare = partition_compare_index_indirect ∨ compare = partition_compare_start_indirect →
  StronglySorted (λ p q, index p < index q) (partitions (pt b)) → Z.of_nat (length (partitions (pt b))) <= 2 ^ 64 →
  (∀ b', partitions (pt b') = partitions (pt b) → same_region (pt b) (pt b') → Q (inr ()) b') →
  runs good (sort_table compare) b Q.
Proof.
  intros Hc Hs Hl HQ. unfold sort_table. apply runs_bind, runs_get, runs_bind.
  apply (runs_lift _ _ (partitions (pt b))); [by apply qsort_index_sorted|]. apply runs_set, HQ; done.
Qed.

(** Every partition lies on the device, behind the first block. *)
Definition on_device (t : partition_table) : Prop :=
  Forall (λ p, 512 <= start p ∧ 0 < length_ p ∧ start p + length_ p <= size) (partitions t).

(** Ending with a table of [spec], or with an error because there is none. *)
Definition gives (spec : list partition → Prop) (r : partition_error + ()) (b : building) : Prop :=
  on_device (pt b) ∧
  match r with
  | inr _ => spec (partitions (pt b))
  | inl e => e ≠ PARTITION_ERROR_NONE ∧ (fallible = false → ∀ ps, ¬ spec ps)
  end.

Lemma gives_error (spec : list partition → Prop) e b :
  e ≠ PARTITION_ERROR_NONE → partitions (pt b) = [] → (fallible = false → ∀ ps, ¬ spec ps) → gives spec (inl e) b.
Proof. intros He Hb Hno. split; [|done]. unfold on_device. by rewrite Hb. Qed.

(** From the array of entries on. *)
Definition read_array (h : gpt) (bs : Z) (rpt : list Z) : T U () :=
  entries_loop dpath rpt h bs (Z.to_nat (number_of_partition_entries h)) 0;;
  sort_table partition_compare_start_indirect;;
  t ← get_pt;
  overlap ← perform (M_lift (overlap_loop (partitions t)));
  check overlap PARTITION_ERROR_OVERLAP;;
  sort_table partition_compare_index_indirect.

Lemma read_array_runs h bs rpt b :
  512 <= bs <= 65536 → 128 <= size_of_partition_entry h → 0 <= number_of_partition_entries h < 2 ^ 32 → sane_header h →
  1 <= first_usable_lba h → (last_usable_lba h + 1) * bs <= size →
  (∀ j, 0 <= j < number_of_partition_entries h → sane_entry (entry_at h rpt j)) →
  size_of_partition_entry h * number_of_partition_entries h = Z.of_nat (length rpt) → Forall (λ b, 0 <= b < 256) rpt →
  usable_start (pt b) = first_usable_lba h * bs → usable_end (pt b) = (last_usable_lba h + 1) * bs →
  partitions (pt b) = [] →
  runs good (read_array h bs rpt) b
    (gives (λ ps, entries_spec dpath h bs rpt (Z.to_nat (number_of_partition_entries h)) 0 ps ∧ Sorted disjoint_ ps)).
Proof.
  intros Hbs Hsz Hn Hh Hfirst Hdev Hsane Hlen Hbytes Eus Eue Hb. unfold read_array.
  assert (Hon : ∀ t, in_region t → same_region (pt b) t → on_device t).
  { intros t Hr [E1 E2]. eapply Forall_impl; [exact Hr|]. cbn beta. rewrite E1, E2, Eus, Eue. intros p Hp. nia. }
  apply runs_bind. eapply runs_mono.
  { apply entries_loop_runs; [lia|lia|done|done| |nia|done|done|done|unfold in_region; by rewrite Hb].
    intros j Hj. apply Hsane. lia. }
  intros r b1 (Hreg & Hsame & Hr). destruct r as [x|[]].
  { split; [by apply Hon|]. destruct Hr as [Hx Hno]. split; [done|]. intros Hf ps [Hps _]. by apply (Hno Hf ps). }
  destruct Hr as (ps & Hps & Eb1). rewrite Hb in Eb1. simpl in Eb1.
  destruct (entries_spec_index h bs rpt (Z.to_nat (number_of_partition_entries h)) 0 ps) as (Hidx & _ & Hlps); [lia|lia|done|].
  assert (Hlps' : Z.of_nat (length ps) <= 2 ^ 64) by lia.
  apply runs_bind, sort_table_runs; [by right|by rewrite Eb1|by rewrite Eb1|]. intros b2 Eb2 Hs2. rewrite Eb1 in Eb2.
  assert (Hreg2 : on_device (pt b2)).
  { unfold on_device. rewrite Eb2, <- Eb1. by apply Hon. }
  apply runs_bind, runs_get. rewrite Eb2. destruct (overlap_loop_spec ps) as (o & Eo & Ho).
  { unfold on_device in Hreg2. rewrite Eb2 in Hreg2. eapply Forall_impl; [exact Hreg2|]. simpl. lia. }
  apply runs_bind, (runs_lift _ _ o); [done|]. apply runs_bind, runs_check; intros ->.
  2:{ split; [done|]. split; [done|]. intros Hf ps' [Hps' Hsort]. apply entries_spec_unique with (ps := ps) in Hps'; [|done].
      subst ps'. by apply Ho in Hsort. }
  apply sort_table_runs; [by left|by rewrite Eb2|by rewrite Eb2|]. intros b3 Eb3 _. rewrite Eb2 in Eb3.
  split; [unfold on_device in *; by rewrite Eb3, <- Eb2|]. rewrite Eb3. split; [done|by apply Ho].
Qed.

Lemma power_of_two_low v : gpt_check_power_of_two v 128 65536 = true → 128 <= v <= 65536.
Proof.
  unfold gpt_check_power_of_two. assert (Hgen : ∀ n c, 128 <= c → power_of_two_loop n v c 65536 = true → 128 <= v <= 65536).
  { induction n as [|n IH]; intros c Hc; [done|]. cbn [power_of_two_loop]. case_if; [|done]. case_if; [lia|].
    rewrite wrapu_id by (unfold in_u; lia). apply IH. lia. }
  by apply Hgen.
Qed.

Lemma gpt_ranges l : Forall (λ b, 0 <= b < 256) l → let h := gpt_decode (load_gpt l) in
  0 <= header_size h < 2 ^ 32 ∧ 0 <= number_of_partition_entries h < 2 ^ 32 ∧ 0 <= size_of_partition_entry h < 2 ^ 32.
Proof.
  intros Hl. split_and!; try (apply (MbrSpec.load_range _ 4 l Hl)).
Qed.

(** No table has a header the reader rejects. *)
Ltac refute :=
  apply gives_error; [done..|]; intros _ ps [Hhok _]; destruct Hhok; first [congruence | lia | nia].
Ltac out_of_memory := intros Hf; apply gives_error; [done..|congruence].

Lemma gpt_read_table_runs block bs b :
  let h := gpt_decode (load_gpt block) in
  512 <= bs <= 65536 → Forall (λ b, 0 <= b < 256) block → bs <= Z.of_nat (length block) → sane_header h →
  (∀ rpt j, reads (size_of_partition_entry h * number_of_partition_entries h) (partition_entry_lba h * bs) rpt →
    0 <= j < number_of_partition_entries h → sane_entry (entry_at h rpt j)) →
  partitions (pt b) = [] →
  runs good (read_table pread bdev block h bs) b (gives (table_layout reads size dpath h block bs)).
Proof.
  intros h Hbs Hblock Hlen Hh Hsane Hb. destruct (gpt_ranges block Hblock) as (R1 & R2 & R3). fold h in R1, R2, R3.
  pose proof Hh as (Hfs & Hls & Hel). unfold sane_lba in *. unfold read_table.
  apply runs_bind, runs_check; intros Hc1; b2p; [|refute].
  apply runs_bind, (MbrSpec.alloc_runs pread good fallible bdev reads); [|out_of_memory].
  apply runs_bind, runs_set. fold (checked_header h block).
  assert (Hchk : Forall (λ b, 0 <= b < 256) (checked_header h block)).
  { apply Forall_take. repeat apply Forall_app_2; [by apply Forall_take|by apply Forall_replicate|by apply Forall_drop]. }
  apply runs_bind, (runs_lift _ _ (Crc32.crc (Crc32.message (checked_header h block)))); [by apply Crc32.gpt_crc32_run|].
  apply runs_bind, runs_check; intros Hc2; b2p; [|refute].
  apply runs_bind, runs_set. change (Z.of_nat sizeof_gpt_partition) with 128.
  apply runs_bind, runs_check; intros Hc3; b2p; [|refute]. destruct (power_of_two_low _ Hc3) as [Hes1 Hes2].
  do 4 (apply runs_bind, runs_check; intros ?; b2p; [|refute]).
  apply runs_bind, lba_runs; [lia|lia|]. rewrite wraps_id by (unfold in_s; lia).
  apply runs_bind, add_runs; [unfold in_s; lia|].
  apply runs_bind, (runs_lift _ _ ((last_usable_lba h + 1) * bs)); [apply checked_ok; unfold in_s; nia|].
  apply runs_bind, runs_set. apply runs_bind, runs_check; intros Hc8; b2p; [|refute].
  rewrite (wrapu_id 64) by (unfold in_u; nia).
  apply runs_bind, lba_runs; [lia|lia|]. apply runs_bind, add_runs; [unfold in_s; nia|].
  apply runs_bind, runs_check; intros Hc9; b2p; [|refute].
  apply runs_bind, (MbrSpec.alloc_runs pread good fallible bdev reads); [|out_of_memory].
  apply runs_bind, runs_perform. intros w Hw.
  destruct (env_read (size_of_partition_entry h * number_of_partition_entries h) (partition_entry_lba h * bs) w Hw)
    as (rpt & w' & E & Hw' & Hread); [nia..|].
  exists rpt, w'. split; [done|]. split; [done|]. clear w w' Hw Hw' E. pose proof (env_bytes _ _ _ Hread) as Hrb.
  assert (Harr : fallible = false → ∀ rpt', entry_array reads h bs rpt' → rpt' = rpt).
  { intros Hf rpt' (Hr' & _). by eapply env_exact. }
  apply runs_bind, runs_check; intros Hc10; b2p.
  2:{ apply gives_error; [done..|]. intros Hf ps (_ & rpt' & Ha & _). pose proof (Harr Hf rpt' Ha) as ->. by destruct Ha as (_ & Hal & _). }
  apply runs_bind, runs_set.
  apply runs_bind, (runs_lift _ _ (Crc32.crc (Crc32.message rpt))); [by apply Crc32.gpt_crc32_run|].
  apply runs_bind, runs_check; intros Hc11; b2p.
  2:{ apply gives_error; [done..|]. intros Hf ps (_ & rpt' & Ha & _). pose proof (Harr Hf rpt' Ha) as ->. by destruct Ha as (_ & _ & Hac). }
  fold (read_array h bs rpt).
  assert (Hok : header_ok size h block bs) by (split; first [done|lia|nia]).
  eapply runs_mono; [apply read_array_runs; [done|done|done|done|lia|done|intros j Hj; by apply Hsane|lia|done|done|done|done]|].
  intros r b' [Hdev Hr]. split; [done|]. destruct r as [x|[]].
  - destruct Hr as [Hx Hno]. split; [done|]. intros Hf ps (_ & rpt' & Ha & Hps). pose proof (Harr Hf rpt' Ha) as ->. by apply (Hno Hf ps).
  - split; [done|]. exists rpt. split; [|done]. done.
Qed.

(** The header. *)
Lemma read_header_runs w :
  let bs := blockdevice_logical_block_size bdev in
  512 <= bs <= 65536 → good w →
  ∃ r w', read_header pread bdev bs w = Ret (r, w') ∧ good w' ∧
    match r with
    | Some (block, bs') => header_block reads bs block bs' ∧ 512 <= bs' <= 65536 ∧
        Forall (λ b, 0 <= b < 256) block ∧ bs' <= Z.of_nat (length block)
    | None => fallible = false → ∀ block bs', ¬ header_block reads bs block bs'
    end.
Proof.
  intros bs Hbs Hw. unfold read_header.
  destruct (env_alloc w Hw) as (ok & w1 & E1 & Hw1 & Hok). rewrite (M_bind_ret _ _ _ _ _ E1).
  destruct ok; cbn [negb]; [|exists None, w1; split_and!; [done..|rewrite Hok by done; congruence]].
  destruct (env_read bs bs w1 Hw1) as (l & w2 & E2 & Hw2 & Hl); [lia..|]. rewrite (M_bind_ret _ _ _ _ _ E2).
  pose proof (env_bytes _ _ _ Hl) as Hlb.
  destruct (Z.eqb_spec (Z.of_nat (length l)) bs) as [Hlen|Hlen]; cbn [negb].
  2:{ exists None, w2. split_and!; [done..|]. intros Hf block bs' (b & Hb & Hlb' & _).
      assert (b = l) as -> by (by eapply env_exact). done. }
  rewrite <- negb_orb. destruct (valid_signature (gpt_decode (load_gpt l)) || (bs =? 512)) eqn:Es; cbn [negb].
  { exists (Some (l, bs)), w2. split_and!; try done; [|lia..]. exists l. by rewrite Es. }
  destruct (env_read 512 512 w2 Hw2) as (l' & w3 & E3 & Hw3 & Hl'); [lia..|]. rewrite (M_bind_ret _ _ _ _ _ E3).
  destruct (Z.eqb_spec (Z.of_nat (length l')) 512) as [Hlen'|Hlen']; cbn [negb].
  2:{ exists None, w3. split_and!; [done..|]. intros Hf block bs' (b & Hb & Hlb' & Hrest).
      assert (b = l) as -> by (by eapply env_exact). rewrite Es in Hrest. destruct Hrest as (_ & b' & Hb' & Hlb'' & _).
      assert (b' = l') as -> by (by eapply env_exact). done. }
  exists (Some (l' ++ drop 512 l, 512)), w3. split_and!; try done; try lia.
  - exists l. rewrite Es. split_and!; [done..|]. by exists l'.
  - apply Forall_app_2; [by eapply env_bytes|by apply Forall_drop].
  - rewrite length_app. lia.
Qed.

Lemma header_block_unique bs block bs' block' bs'' :
  fallible = false → header_block reads bs block bs' → header_block reads bs block' bs'' → block = block' ∧ bs' = bs''.
Proof.
  intros Hf (b & Hb & _ & Hr) (c & Hc & _ & Hs). assert (c = b) as -> by (by eapply env_exact).
  destruct (_ || _); [by destruct Hr as [-> ->], Hs as [-> ->]|].
  destruct Hr as (-> & b' & Hb' & _ & ->), Hs as (-> & c' & Hc' & _ & ->).
  by assert (c' = b') as -> by (by eapply env_exact).
Qed.

Lemma table_layout_unique h block bs ps qs :
  fallible = false → table_layout reads size dpath h block bs ps → table_layout reads size dpath h block bs qs → ps = qs.
Proof.
  intros Hf (_ & rpt & (Hr & _) & Hps & _) (_ & rpt' & (Hr' & _) & Hqs & _).
  assert (rpt' = rpt) as -> by (by eapply env_exact). by eapply entries_spec_unique.
Qed.

(** The tables on the device have block numbers for which nothing overflows. *)
Definition sane_device : Prop :=
  ∀ block bs, header_block reads (blockdevice_logical_block_size bdev) block bs →
    let h := gpt_decode (load_gpt block) in
    sane_header h ∧
    ∀ rpt j, reads (size_of_partition_entry h * number_of_partition_entries h) (partition_entry_lba h * bs) rpt →
      0 <= j < number_of_partition_entries h → sane_entry (entry_at h rpt j).

Lemma gpt_get_table_runs w :
  blockdevice_check_reasonable_block_size (blockdevice_logical_block_size bdev) = true → sane_device → good w →
  let layout := layout reads size dpath (blockdevice_logical_block_size bdev) in
  ∃ e t w', blockdevice_get_partition_table_gpt pread bdev w = Ret ((e, t), w') ∧ good w' ∧
    match t with Some t => on_device t | None => e ≠ PARTITION_ERROR_NONE end ∧
    (e = PARTITION_ERROR_NONE → ∃ t', t = Some t' ∧ layout (partitions t')) ∧
    (fallible = false → ∀ ps, layout ps → e = PARTITION_ERROR_NONE ∧ ∃ t', t = Some t' ∧ partitions t' = ps).
Proof.
  intros Hre Hsane Hw. set (bs := blockdevice_logical_block_size bdev) in *. cbn zeta.
  pose proof (reasonable_range bs Hre) as Hbs.
  unfold blockdevice_get_partition_table_gpt. fold bs. rewrite Hre. cbn [negb].
  destruct (read_header_runs w Hbs Hw) as (r & w1 & E1 & Hw1 & Hr). fold bs in E1, Hr. rewrite (M_bind_ret _ _ _ _ _ E1).
  assert (Hno : ∀ e w', good w' → e ≠ PARTITION_ERROR_NONE →
    (fallible = false → ∀ ps, ¬ layout reads size dpath bs ps) →
    ∃ e' t w'', (mret (e, None) : M (world U) (partition_error * option partition_table)) w' = Ret ((e', t), w'') ∧ good w'' ∧
    match t with Some t => on_device t | None => e' ≠ PARTITION_ERROR_NONE end ∧
    (e' = PARTITION_ERROR_NONE → ∃ t', t = Some t' ∧ layout reads size dpath bs (partitions t')) ∧
    (fallible = false → ∀ ps, layout reads size dpath bs ps →
      e' = PARTITION_ERROR_NONE ∧ ∃ t', t = Some t' ∧ partitions t' = ps)).
  { intros e w' Hw' He Hn. exists e, None, w'. split_and!; [done..|]. intros Hf ps Hps. by destruct (Hn Hf ps). }
  destruct r as [[block bs']|].
  2:{ apply Hno; [done..|]. intros Hf ps (block & bs' & Hhb & _). by apply (Hr Hf block bs'). }
  destruct Hr as (Hhb & Hbs' & Hbytes & Hlen). destruct (Hsane block bs' Hhb) as [Hsh Hse].
  set (h := gpt_decode (load_gpt block)) in *.
  assert (Honly : fallible = false → ∀ ps, layout reads size dpath bs ps →
    valid_signature h = true ∧ 92 <= header_size h ∧ table_layout reads size dpath h block bs' ps).
  { intros Hf ps (block' & bs'' & Hhb' & Hrest). destruct (header_block_unique bs block bs' block' bs'') as [<- <-]; done. }
  destruct (valid_signature h) eqn:Hsig; cbn [negb].
  2:{ apply Hno; [done..|]. intros Hf ps Hps. by destruct (Honly Hf ps Hps). }
  destruct (Z.ltb_spec (header_size h) 92) as [H92|H92].
  { apply Hno; [done..|]. intros Hf ps Hps. destruct (Honly Hf ps Hps) as (_ & H & _). lia. }
  destruct (env_alloc w1 Hw1) as (ok & w2 & E2 & Hw2 & Hok). rewrite (M_bind_ret _ _ _ _ _ E2).
  destruct ok; cbn [negb]; [|apply Hno; [done..|rewrite Hok by done; congruence]].
  destruct (finish_runs good (read_table pread bdev block h bs') (new_table PARTITION_TABLE_TYPE_GPT) w2
    (gives (table_layout reads size dpath h block bs'))) as (r & b & w3 & -> & Hw3 & Hdev & Hr); [by apply gpt_read_table_runs|done|].
  eexists _, _, w3. split; [reflexivity|]. split; [done|]. split; [done|]. destruct r as [x|[]].
  - destruct Hr as [Hx Hn]. split; [done|]. intros Hf ps Hps. destruct (Hn Hf ps). by apply Honly.
  - split.
    + intros _. eexists. split; [done|]. by exists block, bs'.
    + intros Hf ps Hps. split; [done|]. eexists. split; [done|]. destruct (Honly Hf ps Hps) as (_ & _ & Hl).
      by eapply table_layout_unique.
Qed.

End Reader.

(** On a disk that works, with block numbers for which nothing overflows, the reader
    accepts exactly the devices whose header, array and entries pass its tests. *)
Lemma gpt_accepts {U} (pread : Z → Z → M U (errno + list Z)) valid content bdev w :
  Disk pread valid content → nested content bdev → works valid w →
  blockdevice_check_reasonable_block_size (blockdevice_logical_block_size bdev) = true →
  sane_device bdev (reads_exactly (region content bdev)) →
  ∃ e t w', blockdevice_get_partition_table_gpt pread bdev w = Ret ((e, t), w') ∧ works valid w' ∧
    let layout := layout (reads_exactly (region content bdev)) (blockdevice_size bdev) (device_path bdev)
                    (blockdevice_logical_block_size bdev) in
    match t with Some t => on_device bdev t | None => e ≠ PARTITION_ERROR_NONE end ∧
    (∀ ps, layout ps → e = PARTITION_ERROR_NONE ∧ ∃ t', t = Some t' ∧ partitions t' = ps) ∧
    (e = PARTITION_ERROR_NONE → ∃ t', t = Some t' ∧ layout (partitions t')).
Proof.
  intros HD Hn Hw Hbs Hsane. pose proof (works_environment pread valid content bdev HD Hn) as Henv.
  destruct (gpt_get_table_runs pread _ _ bdev _ w Hbs Hsane Hw) as (e & t & w' & E & Hw' & H0 & H1 & H2).
  exists e, t, w'. split; [done|]. split; [done|]. split; [done|]. split; [|done]. by apply H2.
Qed.

(** ** Valid tables *)

Section Valid.
Context (d : list Z) (bs : Z).

(** The header, in the block with number 1; the array of entries, and an entry. *)
Definition header_bytes : list Z := slice (Z.to_nat bs) (Z.to_nat bs) d.
Definition table_header : gpt := gpt_decode (load_gpt header_bytes).
Definition array_bytes : list Z :=
  slice (Z.to_nat (partition_entry_lba table_header * bs))
    (Z.to_nat (size_of_partition_entry table_header * number_of_partition_entries table_header)) d.
Definition table_entry (i : Z) : gpt_partition :=
  gpt_entry array_bytes (Z.to_nat (i * size_of_partition_entry table_header)).

Definition is_used (i : Z) : Prop :=
  0 <= i < number_of_partition_entries table_header ∧ partition_type_guid (table_entry i) ≠ replicate 16 0.

(** A GUID partition table as the format defines it: the header names itself and is
    in block 1, the array of entries comes after it and before the usable blocks,
    which are on the device, both have the checksums the header gives, and the
    partitions are usable blocks and apart from each other. *)
Record valid_table : Prop := {
  v_signature : signature table_header = lit "EFI PART";
  v_header_size : 92 <= header_size table_header <= bs;
  v_header_crc : header_crc32 table_header = Crc32.crc (Crc32.message
    (take (Z.to_nat (header_size table_header)) (take 16 header_bytes ++ replicate 4 0 ++ drop 20 header_bytes)));
  v_my_lba : my_lba table_header = 1;
  v_entry_size : ∃ k, 0 <= k ∧ size_of_partition_entry table_header = 128 * 2 ^ k;
  v_array : 2 <= partition_entry_lba table_header ∧
    partition_entry_lba table_header * bs + size_of_partition_entry table_header * number_of_partition_entries table_header
      <= first_usable_lba table_header * bs;
  v_array_crc : partition_entry_array_crc32 table_header = Crc32.crc (Crc32.message array_bytes);
  v_usable : first_usable_lba table_header <= last_usable_lba table_header ∧
    (last_usable_lba table_header + 1) * bs <= Z.of_nat (length d);
  v_within : ∀ i, is_used i →
    first_usable_lba table_header <= starting_lba (table_entry i) <= ending_lba (table_entry i) ∧
    ending_lba (table_entry i) <= last_usable_lba table_header;
  v_apart : ∀ i j, is_used i → is_used j → i ≠ j →
    ending_lba (table_entry i) < starting_lba (table_entry j) ∨ ending_lba (table_entry j) < starting_lba (table_entry i);
}.

(** What the reader asks for besides: entries of at most 65536 bytes, a device of at
    most 2^55 bytes, names without surrogates, and usable blocks from twice the
    number of the first block of the array on. *)
Record readable : Prop := {
  r_entry_size : size_of_partition_entry table_header <= 65536;
  r_device : Z.of_nat (length d) <= 2 ^ 55;
  r_names : ∀ i, is_used i → Forall (λ c, ¬ 0xD800 <= c <= 0xDFFF) (partition_name (table_entry i));
  r_array : 2 * partition_entry_lba table_header <= first_usable_lba table_header;
}.

(** The partition of an entry, without its name. *)
Definition partition_of (device_path : list Z) (i : Z) : partition := {|
  path := partition_path device_path (1 + i);
  start := starting_lba (table_entry i) * bs;
  length_ := (ending_lba (table_entry i) - starting_lba (table_entry i) + 1) * bs;
  extended_start := 0; extended_length := 0;
  type := PARTITION_TYPE_PRIMARY; table_type := PARTITION_TABLE_TYPE_GPT; index := 1 + i;
  gpt_type_guid := partition_type_guid (table_entry i); gpt_unique_guid := unique_partition_guid (table_entry i);
  mbr_system_id := 0; gpt_name := []; gpt_attributes := attributes (table_entry i) |}.

(** The partitions of a table, in the order of their entries. *)
Definition table_partitions (device_path : list Z) : list partition :=
  map (partition_of device_path)
    (filter (λ i, partition_type_guid (table_entry i) ≠ replicate 16 0)
       (seqZ 0 (number_of_partition_entries table_header))).

(** *** A valid table is accepted *)

Lemma memiszero_zero l : memiszero l = bool_decide (l = replicate (length l) 0).
Proof.
  induction l as [|b l IH]; [done|]. cbn [memiszero length replicate]. destruct (Z.eqb_spec b 0) as [->|Hb]; cbn [negb].
  - rewrite IH. apply bool_decide_ext. split; [by intros <-|by intros [= <-]].
  - symmetry. apply bool_decide_eq_false. by intros [= ->].
Qed.

Lemma name_of_units n l :
  (length l <= n)%nat → Forall (λ c, 0 <= c < 65536) l → Forall (λ c, ¬ 0xD800 <= c <= 0xDFFF) l → is_Some (name_of l).
Proof.
  revert l. induction n as [|n IH]; intros l Hl Hb Hs; (destruct l as [|c l]; [by eexists|]); [simpl in Hl; lia|].
  apply Forall_cons in Hb as [Hc Hb], Hs as [Hcs Hs]. cbn [name_of].
  assert ((0xDC00 <=? c) && (c <=? 0xDFFF) = false) as -> by (apply andb_false_iff; rewrite !Z.leb_gt; lia).
  assert ((0xD800 <=? c) && (c <=? 0xDBFF) = false) as -> by (apply andb_false_iff; rewrite !Z.leb_gt; lia).
  destruct (Z.eqb_spec c 0) as [_|Hc0]; [by eexists|]. unfold encode, Utf8.wcrtomb.
  rewrite Utf8.utf8_wcrtomb_valid by (split; lia). cbn [mbind option_bind]. destruct l as [|x l]; [by eexists|].
  apply Forall_cons in Hb as [_ Hb], Hs as [_ Hs]. destruct (IH l) as [rest ->]; [simpl in *; lia|done..|]. by eexists.
Qed.

Context (Hvalid : valid_table) (Hread : readable) (Hbs : 512 <= bs <= 65536) (Hbytes : Forall (λ b, 0 <= b < 256) d).
Context (path : list Z).

Abbreviation h := table_header.

Lemma header_ranges : 0 <= number_of_partition_entries h < 2 ^ 32 ∧ 0 <= first_usable_lba h ∧ 0 <= last_usable_lba h ∧ 0 <= partition_entry_lba h.
Proof.
  assert (Hb : Forall (λ b, 0 <= b < 256) header_bytes) by (by apply Forall_take, Forall_drop).
  split_and!; try apply (MbrSpec.load_range _ 4 header_bytes Hb); try apply (MbrSpec.load_range _ 8 header_bytes Hb).
Qed.

Lemma entry_size_min : 128 <= size_of_partition_entry h.
Proof. destruct (v_entry_size Hvalid) as (k & Hk & ->). pose proof (Z.pow_le_mono_r 2 0 k). lia. Qed.

Lemma array_length :
  Z.of_nat (length array_bytes) = size_of_partition_entry h * number_of_partition_entries h.
Proof.
  destruct header_ranges as (? & ? & ? & ?), (v_array Hvalid), (v_usable Hvalid). pose proof entry_size_min.
  assert (0 <= size_of_partition_entry h * number_of_partition_entries h) by nia.
  unfold array_bytes, slice. rewrite length_take, length_drop. nia.
Qed.

Lemma entry_guid_length i : 0 <= i < number_of_partition_entries h → length (partition_type_guid (table_entry i)) = 16%nat.
Proof.
  intros Hi. pose proof array_length as Hl. pose proof entry_size_min as Hm.
  unfold table_entry, gpt_entry. cbn [partition_type_guid gpt_partition_decode load_gpt_partition].
  unfold slice. rewrite !length_take, !length_drop, length_take, length_drop. unfold sizeof_gpt_partition. nia.
Qed.

Lemma used_spec i : 0 <= i < number_of_partition_entries h →
  memiszero (partition_type_guid (table_entry i)) = bool_decide (¬ is_used i).
Proof.
  intros Hi. rewrite memiszero_zero, entry_guid_length by done. apply bool_decide_ext. unfold is_used. split; [tauto|].
  intros Hn. destruct (decide (partition_type_guid (table_entry i) = replicate 16 0)); [done|]. by destruct Hn.
Qed.

(** A partition is where an entry from the [i]th on that is used says. *)
Definition is_entry_of (i : Z) (p : partition) : Prop :=
  ∃ j, i <= j ∧ is_used j ∧ start p = starting_lba (table_entry j) * bs ∧
    length_ p = (ending_lba (table_entry j) - starting_lba (table_entry j) + 1) * bs.

Lemma entry_accepted i : is_used i →
  ∃ p, entry_spec path h bs i (table_entry i) p ∧ with_name [] p = partition_of path i ∧ is_entry_of i p.
Proof.
  intros Hu. destruct (v_within Hvalid i Hu) as [[Hw1 Hw2] Hw3]. destruct header_ranges as (Hn & _), Hu as [Hi Hg].
  destruct (entry_name array_bytes (Z.to_nat (i * size_of_partition_entry h))) as [Hu1 Hu2]; [by apply Forall_take, Forall_drop|].
  destruct (name_of_units 36 (partition_name (table_entry i))) as [name Hname];
    [unfold table_entry; by rewrite Hu2|done|by apply (r_names Hread)|].
  eexists. split; [split_and!; [done..|]; by exists name|].
  split; [|by exists i]. unfold with_name, partition_of. cbn. by rewrite (wrapu_id 32) by (unfold in_u; lia).
Qed.

Lemma entries_apart i j p q : is_used i → i < j → is_entry_of j q →
  start p = starting_lba (table_entry i) * bs → length_ p = (ending_lba (table_entry i) - starting_lba (table_entry i) + 1) * bs →
  disjoint_ p q.
Proof.
  intros Hi Hij (k & Hk & Hu & Es & El) Ep Elp x. unfold inside. rewrite Ep, Elp, Es, El.
  destruct (v_apart Hvalid i k Hi Hu); [lia|nia..].
Qed.

Lemma entries_accepted n i :
  0 <= i → i + Z.of_nat n <= number_of_partition_entries h →
  ∃ ps, entries_spec path h bs array_bytes n i ps ∧
    map (with_name []) ps = map (partition_of path)
      (filter (λ i, partition_type_guid (table_entry i) ≠ replicate 16 0) (seqZ i (Z.of_nat n))) ∧
    Forall (is_entry_of i) ps ∧ StronglySorted disjoint_ ps.
Proof.
  revert i. induction n as [|n IH]; intros i Hi Hn; [exists []; repeat constructor|].
  destruct (IH (i + 1)) as (ps & Hps & Emap & Hall & Hsort); [lia|lia|].
  rewrite seqZ_cons by lia. replace (Z.pred (Z.of_nat (S n))) with (Z.of_nat n) by lia. change (Z.succ i) with (i + 1).
  rewrite filter_cons. cbn [entries_spec]. change (entry_at h array_bytes i) with (table_entry i).
  rewrite used_spec by lia. destruct (decide (partition_type_guid (table_entry i) ≠ replicate 16 0)) as [Hg|Hg].
  - assert (Hu : is_used i) by (split; [lia|done]). rewrite bool_decide_eq_false_2 by tauto.
    destruct (entry_accepted i Hu) as (p & Hp & Ep & j & Hj & Huj & Es & El). exists (p :: ps). split_and!.
    + by exists p, ps.
    + cbn [map]. by rewrite Ep, Emap.
    + constructor; [by exists j|]. eapply Forall_impl; [exact Hall|]. intros q (k & Hk & ?). exists k. split; [lia|done].
    + constructor; [done|]. assert (Hent : is_entry_of i p) by (by exists j).
      eapply Forall_impl; [exact Hall|]. intros q Hq. destruct Hp as (_ & _ & _ & name & _ & ->).
      by apply (entries_apart i (i + 1)); [|lia|..].
  - rewrite bool_decide_eq_true_2 by (intros [_ ?]; done). exists ps. split_and!; [done..| |done].
    eapply Forall_impl; [exact Hall|]. intros q (k & Hk & ?). exists k. split; [lia|done].
Qed.

Lemma header_block_valid block bs' :
  header_block (reads_exactly d) bs block bs' → block = header_bytes ∧ bs' = bs.
Proof.
  intros (b & Hb & _ & Hr). assert (b = header_bytes) as -> by exact Hb.
  unfold valid_signature in Hr. rewrite bool_decide_eq_true_2 in Hr by apply (v_signature Hvalid). exact Hr.
Qed.

Lemma valid_sizes : 2 * bs <= Z.of_nat (length d) ∧ sane_header h.
Proof.
  destruct (v_array Hvalid), (v_usable Hvalid), header_ranges as (? & ? & ? & ?). pose proof entry_size_min.
  pose proof (r_device Hread). pose proof (r_array Hread). unfold sane_header, sane_lba. split; [nia|].
  assert (last_usable_lba h < 2 ^ 46) by nia. lia.
Qed.

Lemma valid_layout : ∃ ps, layout (reads_exactly d) (Z.of_nat (length d)) path bs ps ∧
  map (with_name []) ps = table_partitions path.
Proof.
  destruct header_ranges as (Hn & _), (v_array Hvalid), (v_usable Hvalid). destruct valid_sizes as [Hlen _].
  destruct (entries_accepted (Z.to_nat (number_of_partition_entries h)) 0) as (ps & Hps & Emap & _ & Hsort); [lia|lia|].
  exists ps. rewrite Z2Nat.id in Emap by lia. split; [|done]. exists header_bytes, bs.
  split; [|split_and!; [unfold valid_signature; apply bool_decide_eq_true, (v_signature Hvalid)|apply (v_header_size Hvalid)|split]].
  - exists header_bytes. split; [done|]. split; [unfold header_bytes, slice; rewrite length_take, length_drop; lia|].
    unfold valid_signature. by rewrite bool_decide_eq_true_2 by apply (v_signature Hvalid).
  - pose proof (r_array Hread). change (gpt_decode (load_gpt header_bytes)) with h. split; [apply (v_header_size Hvalid)|apply (v_header_crc Hvalid)| |apply (v_my_lba Hvalid)|lia..].
    destruct (v_entry_size Hvalid) as (k & Hk & Ek). pose proof (r_entry_size Hread) as Hr. rewrite Ek in *.
    assert (k < 10) by (apply (Z.pow_lt_mono_r_iff 2); lia).
    assert (k ∈ seqZ 0 10) as Hin by (apply elem_of_seqZ; lia). clear -Hin. revert k Hin.
    apply Forall_forall. apply (bool_decide_unpack _). vm_compute. exact I.
  - exists array_bytes. split; [split_and!; [done|apply array_length|apply (v_array_crc Hvalid)]|].
    split; [done|by apply StronglySorted_Sorted].
Qed.

End Valid.

(** C23.  On a disk that works, the reader of a device with a valid GUID partition
    table ([valid_table]: signature, both checksums, the array of entries between
    the header and the usable blocks, partitions among the usable blocks and
    pairwise apart) returns exactly the partitions of the table, in the order of
    their entries: start, length, number, path, both identifiers and attributes.
    The names are left out, which lose every second character (see
    [gpt_name_skips]).  The table must be one the reader can take ([readable]):
    entries of at most 65536 bytes, at most 2^55 bytes on the device, no
    surrogates in names, and usable blocks that start no earlier than twice the
    number of the first block of the array, because of the wrong end of the array
    that is computed. *)
Theorem gpt_reads {U} (pread : Z → Z → M U (errno + list Z)) valid content bdev w :
  Disk pread valid content → nested content bdev → works valid w →
  let d := region content bdev in
  let bs := blockdevice_logical_block_size bdev in
  blockdevice_check_reasonable_block_size bs = true → valid_table d bs → readable d bs →
  ∃ t w', blockdevice_get_partition_table_gpt pread bdev w = Ret ((PARTITION_ERROR_NONE, Some t), w') ∧ works valid w' ∧
    map (with_name []) (partitions t) = table_partitions d bs (device_path bdev).
Proof.
  intros HD Hn Hw d bs Hre Hv Hr. pose proof (reasonable_range bs Hre) as Hbs.
  pose proof (works_environment pread valid content bdev HD Hn) as Henv.
  assert (Hb : Forall (λ b, 0 <= b < 256) d).
  { rewrite <-(firstn_all d). eapply (env_bytes (Z.of_nat (length d)) 0). unfold reads_exactly. by rewrite Nat2Z.id, drop_0. }
  destruct (valid_sizes d bs Hv Hr Hbs Hb) as [_ Hsh].
  destruct (gpt_accepts pread valid content bdev w HD Hn Hw Hre) as (e & t & w' & E & Hw' & _ & H & _).
  { intros block bs' Hhb. destruct (header_block_valid d bs Hv block bs' Hhb) as [-> ->]. cbv zeta.
    change (gpt_decode (load_gpt (header_bytes d bs))) with (table_header d bs). split; [done|].
    intros rpt j -> Hj Hz. change (entry_at (table_header d bs) _ j) with (table_entry d bs j) in *.
    rewrite (used_spec d bs Hv Hbs Hb) in Hz by done. apply bool_decide_eq_false, dec_stable in Hz.
    destruct (v_within d bs Hv j Hz) as [[? ?] ?], Hsh as ([? ?] & [? ?] & _). unfold sane_lba. lia. }
  destruct (valid_layout d bs Hv Hr Hbs Hb (device_path bdev)) as (ps & Hl & Emap).
  destruct (region_length content bdev Hn) as [Hsize _]. fold d in Hsize. rewrite Hsize in Hl.
  destruct (H ps Hl) as [-> (t' & -> & Ep)]. exists t', w'. by rewrite Ep.
Qed.

(** Every other element. *)
Fixpoint every_other {A} (l : list A) : list A :=
  match l with [] => [] | [x] => [x] | x :: _ :: l => x :: every_other l end.

Lemma name_of_plain n l k :
  (length l <= n)%nat → Forall (λ c, 0 < c < 0xD800) l → name_of (l ++ replicate k 0) = Some ((every_other l ≫= Utf8.enc) ++ [0]).
Proof.
  assert (Hc : ∀ c l, 0 < c < 0xD800 → name_of (c :: l) =
    match l with [] => Some (Utf8.enc c ++ [0]) | _ :: l => rest ← name_of l; Some (Utf8.enc c ++ rest) end).
  { intros c l' Hc. cbn [name_of]. rewrite (proj2 (Z.leb_gt 0xDC00 c)), (proj2 (Z.leb_gt 0xD800 c)), (proj2 (Z.eqb_neq c 0)) by lia.
    unfold encode, Utf8.wcrtomb. rewrite Utf8.utf8_wcrtomb_valid by (unfold Utf8.valid_wc; lia). done. }
  revert l. induction n as [|n IH]; intros l Hl Hb.
  { destruct l; [|simpl in Hl; lia]. by destruct k. }
  destruct l as [|c [|d l]]; [by destruct k|..].
  - apply Forall_cons in Hb as [Hb _]. simpl app. rewrite Hc by done. destruct k as [|[|k]]; simpl replicate; cbn -[Utf8.enc]; by rewrite ?app_nil_r.
  - apply Forall_cons in Hb as [Hb1 [Hb2 Hb]%Forall_cons]. simpl app. rewrite Hc by done. rewrite IH by (done || simpl in Hl; lia).
    cbn -[Utf8.enc]. by rewrite <- app_assoc.
Qed.

(** A name of characters outside the surrogates loses every second character: the
    index is advanced both in the body and by the loop. *)
Theorem gpt_name_skips l (w : world ()) :
  Forall (λ c, 0 < c < 0xD800) l → (length l <= 36)%nat → allocs w = [] →
  ∃ w', gpt_decode_utf16 (l ++ replicate (36 - length l) 0) 36 w = Ret (Some ((every_other l ≫= Utf8.enc) ++ [0]), w').
Proof.
  intros Hl Hlen Hw.
  pose proof (works_environment (image_pread []) (λ _, True) [] (bdev_hd (image_disk_of []))
    ltac:(by apply image_disk) eq_refl) as Henv.
  set (string := l ++ replicate (36 - length l) 0).
  assert (Hs : length string = 36%nat) by (unfold string; rewrite length_app, length_replicate; lia).
  destruct (gpt_decode_utf16_runs (image_pread []) _ _ _ _ string w) as (r & w' & E & _ & Hr); [|lia|done|].
  { apply Forall_app_2; [eapply Forall_impl; [exact Hl|]; simpl; lia|]. apply Forall_replicate. lia. }
  rewrite Hs in E. unfold string in Hr. rewrite (name_of_plain 36) in Hr by done. exists w'. rewrite E.
  destruct r as [t|]; [by injection Hr as ->|]. by specialize (Hr eq_refl).
Qed.

Lemma gpt_name_skips_witness :
  ∃ w', gpt_decode_utf16 (lit "sortix" ++ replicate 30 0) 36 fresh = Ret (Some (lit "sri" ++ [0]), w').
Proof. apply (gpt_name_skips (lit "sortix") fresh); [|simpl; lia|reflexivity]. apply (bool_decide_unpack _). vm_compute. exact I. Defined.

(** ** Examples *)

(** An entry for the blocks from [a] to [b], with a name. *)
Definition make_entry (e : Z * Z * list Z) : list Z :=
  replicate 16 1 ++ replicate 16 2 ++ Mem.le_split 8 e.1.1 ++ Mem.le_split 8 e.1.2 ++ Mem.le_split 8 0 ++
  take 72 ((e.2 ≫= Mem.le_split 2) ++ replicate 72 0).

Definition crc_of (l : list Z) : Z := match Crc32.gpt_crc32 l with Ret c => c | _ => 0 end.

(** A table in blocks of 512 bytes, with the entries from block 2 on. *)
Definition make_gpt (first last : Z) (entries : list (Z * Z * list Z)) : list Z :=
  let rpt := entries ≫= make_entry in
  let header crc := lit "EFI PART" ++ Mem.le_split 4 0x10000 ++ Mem.le_split 4 92 ++ Mem.le_split 4 crc ++ replicate 4 0 ++
    Mem.le_split 8 1 ++ replicate 8 0 ++ Mem.le_split 8 first ++ Mem.le_split 8 last ++ replicate 16 3 ++ Mem.le_split 8 2 ++
    Mem.le_split 4 (Z.of_nat (length entries)) ++ Mem.le_split 4 128 ++ Mem.le_split 4 (crc_of rpt) in
  replicate 512 0 ++ header (crc_of (header 0)) ++ replicate 420 0 ++ rpt ++ replicate (1024 - length rpt) 0 ++
  replicate (512 * Z.to_nat (last - 3)) 0.

Definition read_image (d : list Z) :=
  MbrSpec.summary (blockdevice_get_partition_table_gpt (image_pread d) (bdev_hd (image_disk_of d)) fresh).

Definition example_table : list Z := make_gpt 4 9 [(4, 5, lit "root"); (6, 9, lit "home")].

Example gpt_example :
  MbrSpec.summary (blockdevice_get_partition_table_gpt (image_pread example_table)
    (bdev_hd (image_disk_of example_table)) fresh) =
  Some (PARTITION_ERROR_NONE, [(1, 2048, 1024); (2, 3072, 2048)]).
Proof. vm_compute. reflexivity. Qed.

(** Overlapping partitions are accepted: the comparison by start compares the indices,
    so that only partitions with neighbouring entries are tested.  Here the first
    and the third of three overlap, and no error is reported. *)
Theorem gpt_overlap_missed :
  ∃ t w', let d := make_gpt 4 9 [(4, 6, lit "root"); (8, 9, lit "home"); (5, 7, lit "other")] in
    blockdevice_get_partition_table_gpt (image_pread d) (bdev_hd (image_disk_of d)) fresh =
      Ret ((PARTITION_ERROR_NONE, Some t), w') ∧
    ∃ p q, partitions t !! 0%nat = Some p ∧ partitions t !! 2%nat = Some q ∧ ¬ disjoint_ p q.
Proof.
  eexists _, _. cbv zeta. split; [vm_compute; reflexivity|]. eexists _, _. split; [reflexivity|]. split; [reflexivity|].
  intros Hd. apply (Hd 2560); unfold inside; simpl; lia.
Qed.

(** A last block number close to the largest makes the length negative. *)
Example gpt_negative_length :
  read_image (make_gpt 4 9 [(4, 2 ^ 64 - 2, lit "root")]) = Some (PARTITION_ERROR_NONE, [(1, 2048, -2560)]).
Proof. vm_compute. reflexivity. Qed.

(** With two such partitions an assertion fails. *)
Example gpt_negative_length_assert :
  let d := make_gpt 4 9 [(4, 2 ^ 64 - 2, lit "root"); (6, 9, lit "home")] in
  blockdevice_get_partition_table_gpt (image_pread d) (bdev_hd (image_disk_of d)) fresh = Undef.
Proof. vm_compute. reflexivity. Qed.

(** The array of entries may reach into the usable region, and into the first
    partition: it has nine entries of 128 bytes from block 2 on. *)
Example gpt_entries_in_usable :
  read_image (make_gpt 4 12 (map (λ i, (4 + i, 4 + i, lit "x")) (seqZ 0 9))) =
  Some (PARTITION_ERROR_NONE, map (λ i, (1 + i, (4 + i) * 512, 512)) (seqZ 0 9)) ∧ 2 * 512 + 9 * 128 > 4 * 512.
Proof. split; [vm_compute; reflexivity|lia]. Qed.

Lemma example_used i : is_used example_table 512 i → i = 0 ∨ i = 1.
Proof.
  intros [Hi _]. assert (Hn : number_of_partition_entries (table_header example_table 512) = 2) by (vm_compute; reflexivity).
  rewrite Hn in Hi. lia.
Qed.

Lemma example_valid : valid_table example_table 512.
Proof.
  split; try (vm_compute; reflexivity); try (vm_compute; split; intros; discriminate).
  - exists 0. split; [done|vm_compute; reflexivity].
  - intros i Hi. destruct (example_used i Hi) as [-> | ->]; apply (bool_decide_unpack _); vm_compute; exact I.
  - intros i j Hi Hj Hij. destruct (example_used i Hi) as [-> | ->], (example_used j Hj) as [-> | ->]; try done;
      apply (bool_decide_unpack _); vm_compute; exact I.
Qed.

Lemma example_readable : readable example_table 512.
Proof.
  split; try (vm_compute; intros; discriminate).
  intros i Hi. destruct (example_used i Hi) as [-> | ->]; apply (bool_decide_unpack _); vm_compute; exact I.
Qed.

Lemma gpt_reads_witness :
  ∃ t w', blockdevice_get_partition_table_gpt (image_pread example_table) (bdev_hd (image_disk_of example_table)) fresh =
      Ret ((PARTITION_ERROR_NONE, Some t), w') ∧ works (λ _, True) w' ∧
    map (with_name []) (partitions t) =
      table_partitions example_table 512 (device_path (bdev_hd (image_disk_of example_table))) ∧
    length (partitions t) = 2%nat.
Proof.
  destruct (gpt_reads (image_pread example_table) (λ _, True) example_table (bdev_hd (image_disk_of example_table)) fresh)
    as (t & w' & E & Hw' & Hps).
  - apply image_disk; [apply (bool_decide_unpack _); vm_compute; exact I|vm_compute; reflexivity].
  - reflexivity.
  - done.
  - reflexivity.
  - exact example_valid.
  - exact example_readable.
  - exists t, w'. split; [exact E|]. split; [exact Hw'|]. split; [exact Hps|].
    rewrite <-(length_map (with_name [])), Hps. vm_compute. reflexivity.
Defined.

End GptSpec.
