(* ===== verification/Probe.v ===== *)
(** * Finding a partition table

    [blockdevice_probe_partition_table_type] and
    [blockdevice_get_partition_table] of [libmount/partition.c]: which kind of
    table a device has, and reading it. *)

From S2P Require Import Prelude Blockdev Partition Mbr Gpt.
From stdpp Require Import base list numbers strings.
From Stdlib Require Import ZArith Lia Ascii.

#[local] Open Scope Z_scope.

Module Probe.
Import Blockdev Partition.

Definition has_gpt (leading : list Z) (off : nat) : bool :=
  Gpt.valid_signature (Gpt.gpt_decode (Gpt.load_gpt (slice off Gpt.sizeof_gpt leading))).

(** The loop over the bytes of [leading]. *)
Fixpoint first_nonzero (leading : list Z) : partition_table_type :=
  match leading with
  | [] => PARTITION_TABLE_TYPE_NONE
  | b :: leading => if b =? 0 then first_nonzero leading else PARTITION_TABLE_TYPE_UNKNOWN
  end.

(** What the bytes read say; [leading] is the whole buffer, of which [amount]
    bytes were read. *)
Definition classify (block_size amount : Z) (leading : list Z) : partition_table_type :=
  if (2 * block_size <=? amount) && has_gpt leading (Z.to_nat block_size) then PARTITION_TABLE_TYPE_GPT
  else if negb (block_size =? 512) && (512 + 512 <=? amount) && has_gpt leading 512 then PARTITION_TABLE_TYPE_GPT
  else if (512 <=? amount) && negb (Mbr.bad_signature leading) then PARTITION_TABLE_TYPE_MBR
  else first_nonzero leading.

Section Read.
Context {U : Type} (pread : Z → Z → M U (errno + list Z)).

(** [junk] is what the memory that [malloc] returns holds; [None] for failure. *)
Definition blockdevice_probe_partition_table_type (junk : list Z) (bdev : blockdevice)
    : M (world U) (option partition_table_type) :=
  let block_size := blockdevice_logical_block_size bdev in
  if negb (blockdevice_check_reasonable_block_size block_size) then set_errno EINVAL;; mret None
  else
    let leading_size := 2 * block_size in
    ok ← allocate;
    if negb ok then mret None
    else
      l ← blockdevice_preadall pread bdev leading_size 0;
      e ← get_errno;
      let amount := Z.of_nat (length l) in
      if (amount <? leading_size) && negb (bool_decide (e = Some EEOF)) then mret None
      else mret (Some (classify block_size amount (l ++ drop (length l) (take (Z.to_nat leading_size) junk)))).

Definition blockdevice_get_partition_table (junk : list Z) (bdev : blockdevice)
    : M (world U) (partition_error * option partition_table) :=
  r ← blockdevice_probe_partition_table_type junk bdev;
  match r with
  | None => mret (PARTITION_ERROR_ERRNO, None)
  | Some PARTITION_TABLE_TYPE_NONE => mret (PARTITION_ERROR_ABSENT, None)
  | Some PARTITION_TABLE_TYPE_UNKNOWN => mret (PARTITION_ERROR_UNRECOGNIZED, None)
  | Some PARTITION_TABLE_TYPE_MBR => Mbr.blockdevice_get_partition_table_mbr pread bdev
  | Some PARTITION_TABLE_TYPE_GPT => Gpt.blockdevice_get_partition_table_gpt pread bdev
  end.

End Read.

(** ** What is found *)

Lemma first_nonzero_spec l : first_nonzero l =
  if decide (Forall (λ b, b = 0) l) then PARTITION_TABLE_TYPE_NONE else PARTITION_TABLE_TYPE_UNKNOWN.
Proof.
  induction l as [|b l IH]; [done|]. cbn [first_nonzero]. destruct (Z.eqb_spec b 0) as [->|Hb].
  - rewrite IH. apply decide_ext. rewrite Forall_cons. tauto.
  - rewrite decide_False; [done|]. intros H. by apply Forall_cons in H as [? _].
Qed.

(** What the first two blocks of a device hold. *)
Definition table_kind (block_size : Z) (d : list Z) : partition_table_type :=
  if has_gpt d (Z.to_nat block_size) || has_gpt d 512 then PARTITION_TABLE_TYPE_GPT
  else if negb (Mbr.bad_signature d) then PARTITION_TABLE_TYPE_MBR
  else if decide (Forall (λ b, b = 0) (take (Z.to_nat (2 * block_size)) d)) then PARTITION_TABLE_TYPE_NONE
  else PARTITION_TABLE_TYPE_UNKNOWN.

Lemma slice_take off n k l : (off + n <= k)%nat → slice off n (take k l) = slice off n l.
Proof. intros H. unfold slice. rewrite skipn_firstn_comm, take_take. f_equal. lia. Qed.

Lemma classify_kind bs d :
  512 <= bs → 2 * bs <= Z.of_nat (length d) →
  classify bs (2 * bs) (take (Z.to_nat (2 * bs)) d) = table_kind bs d.
Proof.
  intros Hbs Hd. unfold classify, table_kind, has_gpt, Mbr.bad_signature, Mbr.signature, load.
  rewrite !slice_take by (unfold Gpt.sizeof_gpt; lia).
  rewrite (proj2 (Z.leb_le (2 * bs) _)), (proj2 (Z.leb_le (512 + 512) _)), (proj2 (Z.leb_le 512 _)) by lia.
  rewrite first_nonzero_spec. cbn [andb]. rewrite andb_true_r.
  destruct (Gpt.valid_signature (Gpt.gpt_decode (Gpt.load_gpt (slice (Z.to_nat bs) _ _)))) eqn:E1; [done|].
  cbn [orb]. destruct (Z.eqb_spec bs 512) as [->|Hne]; cbn [negb andb]; [|done].
  change (Z.to_nat 512) with 512%nat in E1. rewrite E1. done.
Qed.

(** On a device of at least two blocks that works, the kind of table is recognised by
    the first two blocks, and what is returned is what the reader of that kind
    returns. *)
Theorem get_partition_table_kind {U} (pread : Z → Z → M U (errno + list Z)) valid content bdev junk w :
  Disk pread valid content → nested content bdev → works valid w →
  let bs := blockdevice_logical_block_size bdev in
  blockdevice_check_reasonable_block_size bs = true → 2 * bs <= blockdevice_size bdev →
  ∃ w', works valid w' ∧ errno_ w' = errno_ w ∧
    blockdevice_get_partition_table pread junk bdev w =
    match table_kind bs (region content bdev) with
    | PARTITION_TABLE_TYPE_NONE => Ret ((PARTITION_ERROR_ABSENT, None), w')
    | PARTITION_TABLE_TYPE_UNKNOWN => Ret ((PARTITION_ERROR_UNRECOGNIZED, None), w')
    | PARTITION_TABLE_TYPE_MBR => Mbr.blockdevice_get_partition_table_mbr pread bdev w'
    | PARTITION_TABLE_TYPE_GPT => Gpt.blockdevice_get_partition_table_gpt pread bdev w'
    end.
Proof.
  intros HD Hn [Hv Ha] bs Hre Hsz. pose proof (reasonable_range bs Hre) as Hbs.
  destruct (region_length content bdev Hn) as [Hlen _].
  destruct (blockdevice_preadall_reads pread valid content bdev (2 * bs) 0 w) as (w1 & short & E & (Hv1 & Ha1 & He1) & Hs);
    [done|done|lia|lia|lia|]. rewrite drop_0 in E, Hs.
  assert (Hl : Z.of_nat (length (take (Z.to_nat (2 * bs)) (region content bdev))) = 2 * bs) by (rewrite length_take; lia).
  assert (short = false) as -> by (destruct short; [specialize (Hs eq_refl); lia|done]).
  exists w1. split; [split; [done|congruence]|]. split; [done|].
  unfold blockdevice_get_partition_table, blockdevice_probe_partition_table_type. fold bs. rewrite Hre. cbn [negb].
  assert (Hal : allocate w = Ret (true, w)) by (unfold allocate; by rewrite Ha).
  unfold mbind, M_bind. rewrite Hal. cbn [negb]. rewrite E. cbn beta iota. unfold get_errno.
  rewrite (proj2 (Z.ltb_ge _ _)) by lia. cbn [andb]. unfold mret, M_ret.
  rewrite (drop_ge (take _ junk)) by (rewrite length_take; lia). rewrite app_nil_r, Hl, classify_kind by lia.
  by destruct (table_kind _ _).
Qed.

Lemma get_partition_table_kind_witness :
  let d := replicate 510 0 ++ [0x55; 0xAA] ++ replicate 512 0 in
  ∃ w', works (λ _, True) w' ∧ errno_ w' = None ∧
    blockdevice_get_partition_table (image_pread d) [] (bdev_hd (image_disk_of d)) fresh =
    Mbr.blockdevice_get_partition_table_mbr (image_pread d) (bdev_hd (image_disk_of d)) w'.
Proof.
  intros d. apply (get_partition_table_kind (image_pread d) (λ _, True) d (bdev_hd (image_disk_of d)) [] fresh).
  - apply image_disk; [apply (bool_decide_unpack _); vm_compute; exact I|reflexivity].
  - reflexivity.
  - done.
  - reflexivity.
  - vm_compute. discriminate.
Defined.

(** A device shorter than two blocks: the verdict depends on memory that was not
    written. *)
Example probe_uninitialised :
  let d := replicate 512 0 in
  let kind junk := match blockdevice_probe_partition_table_type (image_pread d) junk (bdev_hd (image_disk_of d)) fresh with
                   | Ret (Some k, _) => Some k | _ => None end in
  kind (replicate 1024 0) = Some PARTITION_TABLE_TYPE_NONE ∧ kind (replicate 1024 1) = Some PARTITION_TABLE_TYPE_UNKNOWN.
Proof. vm_compute. done. Qed.

End Probe.
