(* ===== verification/Regcomp.v ===== *)
(** * Regular expressions: the compiler

    [libc/regex/regcomp.c] and [regfree.c].  A [struct re] is owned by the node
    before it in its chain ([re_next_owner]) or by the node it is nested in
    ([re_subexpression.re_owner], [re_split.re_owner], [re_repetition.re]), so
    the owned nodes form the tree [re]: [RE_NULL], or a node with its type, the
    chain nested in it and the chain that follows it.

    A pattern is the list of the bytes from the pointer on with its terminator;
    reading past it is [Undef].  The pointers of [re_parse] ([prev_next_ptr],
    where the next node goes, [primary_next_ptr], where the alternatives of the
    group begin, and the saved ones of the enclosing groups) become a record per
    open group with what was stored through them.  Allocations succeed; a failed
    [assert] is [Undef]. *)

From S2P Require Import Prelude Strtol.
From stdpp Require Import base decidable list numbers strings.
From Stdlib Require Import ZArith Lia Ascii.

#[local] Open Scope c_scope.
#[local] Open Scope Z_scope.

Module Regex.
Import Strtol.

(** ** Constants of [regex.h] *)

Definition REG_EXTENDED : Z := 1.
Definition REG_NOSUB : Z := 4.

Definition REG_NOTBOL : Z := 1.
Definition REG_NOTEOL : Z := 2.
Definition REG_STARTEND : Z := 4.

Definition REG_NOMATCH : Z := 1.
Definition REG_BADPAT : Z := 2.
Definition REG_EBRACK : Z := 7.
Definition REG_EPAREN : Z := 8.
Definition REG_BADBR : Z := 10.
Definition REG_ESPACE : Z := 12.
Definition REG_BADRPT : Z := 13.
Definition REG_INVARG : Z := 14.

(** [flags & flag]. *)
Definition has_flag (flags flag : Z) : bool := negb (Z.land flags flag =? 0).

(** ** Nodes *)

Inductive re_type :=
| RE_TYPE_BOL
| RE_TYPE_EOL
| RE_TYPE_CHAR (c : Z)
| RE_TYPE_ANY_CHAR
| RE_TYPE_SET (set : list Z)
| RE_TYPE_SUBEXPRESSION (index : nat)
| RE_TYPE_SUBEXPRESSION_END (index : nat)
| RE_TYPE_ALTERNATIVE
| RE_TYPE_OPTIONAL
| RE_TYPE_LOOP
| RE_TYPE_REPETITION (min max : Z).

#[global] Instance re_type_eq_dec : EqDecision re_type.
Proof. solve_decision. Defined.

(** [owner] is the nested chain, [next] is [re_next_owner]. *)
Inductive re :=
| RE_NULL
| Re (type : re_type) (owner next : re).

#[global] Instance re_eq_dec : EqDecision re.
Proof. solve_decision. Defined.

Definition leaf (t : re_type) : re := Re t RE_NULL RE_NULL.

(** [*prev_next_ptr = tail], where [prev_next_ptr] is the end of a chain. *)
Fixpoint re_append (chain tail : re) : re :=
  match chain with
  | RE_NULL => tail
  | Re t owner next => Re t owner (re_append next tail)
  end.

(** ** Errors

    A function of the parser returns an error code or a value. *)

Abbreviation parser A := (outcome (Z + A)).

Definition parse_bind {A B} (p : parser A) (k : A → parser B) : parser B :=
  match p with
  | Ret (inl e) => Ret (inl e)
  | Ret (inr a) => k a
  | Undef => Undef
  | OutOfFuel => OutOfFuel
  end.

Definition fails {A} (code : Z) : parser A := Ret (inl code).
Definition yields {A} (a : A) : parser A := Ret (inr a).

#[local] Notation "x ⇐ p ; k" := (parse_bind p (λ x, k))
  (at level 20, p at level 100, k at level 200, only parsing).
#[local] Notation "' x ⇐ p ; k" := (parse_bind p (λ x, k))
  (at level 20, x pattern, p at level 100, k at level 200, only parsing).

(** [pattern[pattern_index + i]]. *)
Definition look {A} (pattern : list Z) (i : nat) (k : Z → parser A) : parser A :=
  match pattern !! i with Some c => k c | None => Undef end.

(** ** Escapes *)

Definition re_extended_well_defined_escape (c : Z) : bool :=
  (c =? ch "\") || (c =? ch "(") || (c =? ch ")") || (c =? ch "{") || (c =? ch "}") ||
  (c =? ch ".") || (c =? ch "*") || (c =? ch "[") || (c =? ch "]") || (c =? ch "^") ||
  (c =? ch "$") || (c =? ch "+") || (c =? ch "?") || (c =? ch "|").

Definition re_basic_well_defined_escape (c : Z) : bool :=
  (c =? ch "\") || (c =? ch "(") || (c =? ch ")") || (c =? ch "{") || (c =? ch "}") ||
  (c =? ch ".") || (c =? ch "*") || (c =? ch "[") || (c =? ch "]") || (c =? ch "^") ||
  (c =? ch "$") || (c =? ch "+") || (c =? ch "?") || (c =? ch "|") ||
  ((ch "0" <=? c) && (c <=? ch "9")).

(** ** Sets of characters *)

Definition empty_set : list Z := replicate 32 0.

(** [set[uc / 8] |= 1 << (uc % 8)]. *)
Definition set_add (uc : Z) (set : list Z) : list Z :=
  alter (λ b, u8 (Z.lor b (Z.shiftl 1 (uc mod 8)))) (Z.to_nat (uc / 8)) set.

(** [for ( unsigned int uc = c_from; uc <= c_to; uc++ )]. *)
Definition set_add_range (c_from c_to : Z) (set : list Z) : list Z :=
  fold_left (λ set uc, set_add uc set) (seqZ c_from (c_to - c_from + 1)) set.

Definition set_negate (set : list Z) : list Z := map (λ b, u8 (Z.lnot b)) set.

(** [set[uc / 8] & (1 << (uc % 8))]. *)
Definition set_has (set : list Z) (uc : Z) : bool :=
  negb (Z.land (nth (Z.to_nat (uc / 8)) set 0) (Z.shiftl 1 (uc mod 8)) =? 0).

(** [while ( pattern[pattern_index] != ']' )]: the set, and the pattern from the
    bracket on. *)
Fixpoint re_parse_set_loop (pattern set : list Z) : parser (list Z * list Z) :=
  match pattern with
  | [] => Undef
  | c0 :: pattern1 =>
      if c0 =? ch "]" then yields (set, pattern)
      else if c0 =? 0 then fails REG_EBRACK
      else
        match pattern1 with
        | [] => Undef
        | c1 :: pattern2 =>
            if c1 =? ch "-" then
              match pattern2 with
              | [] => Undef
              | c2 :: pattern3 =>
                  if c2 =? ch "]" then re_parse_set_loop pattern1 (set_add_range c0 c0 set)
                  else re_parse_set_loop pattern3 (set_add_range c0 c2 set)
              end
            else re_parse_set_loop pattern1 (set_add_range c0 c0 set)
        end
  end.

(** The bracket expression after its opening bracket. *)
Definition re_parse_set (pattern : list Z) : parser (re_type * list Z) :=
  look pattern 0 (λ c,
  let negate := c =? ch "^" in
  let pattern := if negate then drop 1 pattern else pattern in
  look pattern 0 (λ c,
  let set := if c =? ch "]" then set_add c empty_set else empty_set in
  '(set, pattern) ⇐ re_parse_set_loop pattern set;
  let set := if negate then set_negate set else set in
  yields (RE_TYPE_SET set, drop 1 pattern))).

(** ** The parser *)

Section Parse.

(** The flavour, and whether [errno] is [ERANGE] when [regcomp] is called. *)
Context (is_extended errno_is_erange : bool).

Definition is_basic : bool := negb is_extended.

Definition strtoumax : list Z → Z → outcome (Z * list Z * option errno) := STRTOL ulong_type.

(** A number and the test of [errno] after it. *)
Definition re_parse_number (pattern : list Z) : parser (Z * list Z) :=
  match strtoumax pattern 10 with
  | Ret (value, value_end, set_errno) =>
      let is_erange := match set_errno with
                       | Some e => bool_decide (e = ERANGE)
                       | None => errno_is_erange
                       end in
      if is_erange || (SIZE_MAX <? value) then fails REG_BADBR else yields (value, value_end)
  | Undef => Undef
  | OutOfFuel => OutOfFuel
  end.

Definition isdigit_char (c : Z) : bool := (ch "0" <=? c) && (c <=? ch "9").

(** [repeat_max] and the pattern after it. *)
Definition re_parse_bound (repeat_min : Z) (pattern : list Z) : parser (Z * list Z) :=
  look pattern 0 (λ c,
  if c =? ch "," then
    let pattern := drop 1 pattern in
    look pattern 0 (λ c,
    if isdigit_char c then
      '(repeat_max, pattern) ⇐ re_parse_number pattern;
      if repeat_max <? repeat_min then fails REG_BADBR else yields (repeat_max, pattern)
    else yields (SIZE_MAX, pattern))
  else yields (repeat_min, pattern)).

(** The closing brace. *)
Definition re_parse_close_brace (pattern : list Z) : parser (list Z) :=
  if is_basic then
    look pattern 0 (λ c,
    if negb (c =? ch "\") then fails REG_BADBR
    else look pattern 1 (λ c, if negb (c =? ch "}") then fails REG_BADBR else yields (drop 2 pattern)))
  else look pattern 0 (λ c, if negb (c =? ch "}") then fails REG_BADBR else yields (drop 1 pattern)).

(** The interval after its opening brace. *)
Definition re_parse_interval (pattern : list Z) : parser (Z * Z * list Z) :=
  look pattern 0 (λ c,
  if negb (isdigit_char c) then fails REG_BADBR
  else
    '(repeat_min, pattern) ⇐ re_parse_number pattern;
    '(repeat_max, pattern) ⇐ re_parse_bound repeat_min pattern;
    pattern ⇐ re_parse_close_brace pattern;
    yields (repeat_min, repeat_max, pattern)).

(** The operator [c] comes next: [\c] in a basic expression, [c] in an extended
    one. *)
Definition re_operator {A} (pattern : list Z) (c : Z) (k : bool → parser A) : parser A :=
  look pattern 0 (λ c0,
  if is_basic then
    if c0 =? ch "\" then look pattern 1 (λ c1, k (c1 =? c)) else k false
  else k (c0 =? c)).

Definition after_operator (pattern : list Z) : list Z := drop (if is_extended then 1 else 2) pattern.

(** [subexpression_done]: [re] with the repetition that follows it, if one does. *)
Definition re_parse_repeat (item : re) (pattern : list Z) : parser (re * list Z) :=
  let repeated min max pattern := yields (Re (RE_TYPE_REPETITION min max) item RE_NULL, pattern) in
  re_operator pattern (ch "{") (λ brace,
  if brace then
    '(min, max, pattern) ⇐ re_parse_interval (after_operator pattern);
    repeated min max pattern
  else look pattern 0 (λ c,
  if c =? ch "*" then repeated 0 SIZE_MAX (drop 1 pattern)
  else re_operator pattern (ch "?") (λ question,
  if question then repeated 0 1 (after_operator pattern)
  else re_operator pattern (ch "+") (λ plus,
  if plus then repeated 1 SIZE_MAX (after_operator pattern)
  else yields (item, pattern))))).

(** A group: the alternatives complete so far, the last one first, and the chain
    that ends at [prev_next_ptr]. *)
Record re_group := Group { alternatives : list re; chain : re }.

Definition empty_group : re_group := Group [] RE_NULL.

(** What [primary_next_ptr] of the group's first alternative points to. *)
Definition group_re (g : re_group) : re :=
  fold_left (λ split next, Re RE_TYPE_ALTERNATIVE split next) (alternatives g) (chain g).

Definition group_append (g : re_group) (item : re) : re_group :=
  Group (alternatives g) (re_append (chain g) item).

Definition group_alternative (g : re_group) : re_group := Group (chain g :: alternatives g) RE_NULL.

(** [struct re_parse] and the two pointers: the innermost group, the enclosing
    ones with the index of the subexpression they continue after, and the number
    of subexpressions. *)
Record re_parse_state := ReParse {
  innermost : re_group;
  subexpr : list (nat * re_group);
  subexpr_num : nat }.

Definition re_parse_init : re_parse_state := ReParse empty_group [] 1.

Definition parse_append (st : re_parse_state) (item : re) : re_parse_state :=
  ReParse (group_append (innermost st) item) (subexpr st) (subexpr_num st).

(** A subexpression is the node that opens it and the node that ends it. *)
Definition re_subexpression (index : nat) (owner : re) : re :=
  Re (RE_TYPE_SUBEXPRESSION index) owner (leaf (RE_TYPE_SUBEXPRESSION_END index)).

(** The next character, whether it is escaped, and the pattern after it. *)
Definition re_parse_char (c : Z) (pattern : list Z) : parser (Z * bool * list Z) :=
  if c =? ch "\" then
    look pattern 0 (λ c,
    if c =? 0 then fails REG_BADPAT
    else if is_basic && negb (re_basic_well_defined_escape c) then fails REG_BADPAT
    else if is_extended && negb (re_extended_well_defined_escape c) then fails REG_BADPAT
    else yields (c, true, drop 1 pattern))
  else yields (c, false, pattern).

(** One round of the loop with [c] read: the new state and pattern. *)
Definition re_parse_round (st : re_parse_state) (c : Z) (escaped : bool) (pattern : list Z)
    : parser (re_parse_state * list Z) :=
  let escaped_for_basic := (is_basic && escaped) || (is_extended && negb escaped) in
  let item re pattern :=
    '(re, pattern) ⇐ re_parse_repeat re pattern;
    yields (parse_append st re, pattern) in
  if escaped_for_basic && (c =? ch ")") then
    match subexpr st with
    | [] => fails REG_EPAREN
    | (index, outer) :: stack =>
        '(re, pattern) ⇐ re_parse_repeat (re_subexpression index (group_re (innermost st))) pattern;
        yields (parse_append (ReParse outer stack (subexpr_num st)) re, pattern)
    end
  else if negb escaped && (c =? ch "*") then fails REG_BADRPT
  else if escaped_for_basic && (c =? ch "{") then fails REG_BADBR
  else if (is_basic && escaped && (c =? ch "+")) || (is_extended && negb escaped && (c =? ch "+"))
       then fails REG_BADBR
  else if (is_basic && escaped && (c =? ch "?")) || (is_extended && negb escaped && (c =? ch "?"))
       then fails REG_BADBR
  else if escaped_for_basic && (c =? ch "|") then
    yields (ReParse (group_alternative (innermost st)) (subexpr st) (subexpr_num st), pattern)
  else if negb escaped && (c =? ch "^") then yields (parse_append st (leaf RE_TYPE_BOL), pattern)
  else if negb escaped && (c =? ch "$") then yields (parse_append st (leaf RE_TYPE_EOL), pattern)
  else if escaped_for_basic && (c =? ch "(") then
    yields (ReParse empty_group ((subexpr_num st, innermost st) :: subexpr st) (S (subexpr_num st)),
            pattern)
  else if negb escaped && (c =? ch "[") then
    '(set, pattern) ⇐ re_parse_set pattern;
    item (leaf set) pattern
  else if escaped && isdigit_char c then fails REG_BADPAT
  else if negb escaped && (c =? ch ".") then item (leaf RE_TYPE_ANY_CHAR) pattern
  else item (leaf (RE_TYPE_CHAR c)) pattern.

(** The loop: the expression and the number of subexpressions. *)
Fixpoint re_parse_loop (fuel : nat) (st : re_parse_state) (pattern : list Z) : parser (re * nat) :=
  match fuel with
  | O => OutOfFuel
  | S fuel =>
      look pattern 0 (λ c,
      if c =? 0 then
        match subexpr st with
        | [] => yields (group_re (innermost st), subexpr_num st)
        | _ => fails REG_EPAREN
        end
      else
        '(c, escaped, pattern) ⇐ re_parse_char c (drop 1 pattern);
        '(st, pattern) ⇐ re_parse_round st c escaped pattern;
        re_parse_loop fuel st pattern)
  end.

Definition re_parse (pattern : list Z) : parser (re * nat) :=
  re_parse_loop (S (length pattern)) re_parse_init pattern.

End Parse.

(** ** Repetitions *)

(** The types [re_duplicate] knows; the test that should be for
    [RE_TYPE_EOL] is a second test for [RE_TYPE_BOL]. *)
Definition re_duplicates (t : re_type) : bool :=
  match t with
  | RE_TYPE_EOL => false
  | _ => true
  end.

(** The nodes on the stack of parents are those whose nested chain is being
    copied. *)
Fixpoint re_duplicate (templ : re) : outcome re :=
  match templ with
  | RE_NULL => Ret RE_NULL
  | Re t owner next =>
      if re_duplicates t then
        owner ← re_duplicate owner;
        next ← re_duplicate next;
        Ret (Re t owner next)
      else Undef
  end.

(** The copy [re_repetition] makes of its template. *)
Definition re_copy (templ : re) : outcome re :=
  match templ with
  | Re ((RE_TYPE_BOL | RE_TYPE_CHAR _ | RE_TYPE_ANY_CHAR | RE_TYPE_SET _) as t) _ _ => Ret (leaf t)
  | Re (RE_TYPE_SUBEXPRESSION index) owner (Re (RE_TYPE_SUBEXPRESSION_END index_end) _ _) =>
      owner ← re_duplicate owner;
      Ret (Re (RE_TYPE_SUBEXPRESSION index) owner (leaf (RE_TYPE_SUBEXPRESSION_END index_end)))
  | _ => Undef
  end.

Fixpoint re_repetition (fuel : nat) (templ : re) (min max : Z) (after : re) : outcome re :=
  match fuel with
  | O => OutOfFuel
  | S fuel =>
      if max =? 0 then Ret after
      else
        copy ← re_copy templ;
        if 1 <=? min then
          rest ← re_repetition fuel templ (min - 1) (if negb (max =? SIZE_MAX) then max - 1 else max) after;
          Ret (re_append copy rest)
        else if max <? SIZE_MAX then
          rest ← re_repetition fuel templ min (max - 1) after;
          Ret (Re RE_TYPE_OPTIONAL copy rest)
        else
          rest ← re_repetition fuel templ min 0 after;
          Ret (Re RE_TYPE_LOOP copy rest)
  end.

(** The number of copies made, and the fuel for making them. *)
Definition copies (min max : Z) : nat := Z.to_nat (if max =? SIZE_MAX then min + 1 else max).

(** [re_transform]: the chain with its repetitions replaced, the nodes counted,
    and whether the loop ended at a replacement that is empty, which is taken for
    the end of the whole expression. *)
Fixpoint re_transform_chain (fuel : nat) (r : re) : outcome (re * nat * bool) :=
  match fuel with
  | O => OutOfFuel
  | S fuel =>
      match r with
      | RE_NULL => Ret (RE_NULL, 0%nat, false)
      | Re (RE_TYPE_REPETITION min max) templ after =>
          replacement ← re_repetition (S (copies min max)) templ min max after;
          match replacement with
          | RE_NULL => Ret (RE_NULL, 0%nat, true)
          | _ => re_transform_chain fuel replacement
          end
      | Re t owner next =>
          '(owner, n1, stop1) ← re_transform_chain fuel owner;
          if stop1 : bool then Ret (Re t owner next, S n1, true)
          else
            '(next, n2, stop2) ← re_transform_chain fuel next;
            Ret (Re t owner next, S (n1 + n2), stop2)
      end
  end.

(** More than the nodes the expression can grow to. *)
Fixpoint re_weight (r : re) : nat :=
  match r with
  | RE_NULL => 1
  | Re (RE_TYPE_REPETITION min max) templ after =>
      1 + copies min max * (2 + re_weight templ) + re_weight after
  | Re _ owner next => 1 + re_weight owner + re_weight next
  end.

Definition re_transform (r : re) : outcome (re * nat * bool) :=
  let r := match r with RE_NULL => leaf RE_TYPE_BOL | _ => r end in
  re_transform_chain (re_weight r) r.

(** ** Control flow *)

(** A node with its pointers [re_next] and [re_split.re] to other nodes, which
    are numbered in the order [re_control_flow] visits them. *)
Record re_node := ReNode {
  node_type : re_type;
  re_next : option nat;
  re_split_re : option nat }.

(** The nested chain of these nodes is visited. *)
Definition is_nesting (t : re_type) : bool :=
  match t with
  | RE_TYPE_SUBEXPRESSION _ | RE_TYPE_ALTERNATIVE | RE_TYPE_OPTIONAL | RE_TYPE_LOOP => true
  | _ => false
  end.

Fixpoint re_size (r : re) : nat :=
  match r with
  | RE_NULL => 0
  | Re t owner next => 1 + (if is_nesting t then re_size owner else 0) + re_size next
  end.

(** The address of the chain [r] if its first node is visited as [index], and
    [parent_link] if it is empty. *)
Definition re_address (r : re) (index : nat) (parent_link : option nat) : option nat :=
  match r with RE_NULL => parent_link | _ => Some index end.

Fixpoint re_control_flow (r : re) (parent_link : option nat) (re_index : nat)
    : outcome (list re_node) :=
  match r with
  | RE_NULL => Ret []
  | Re t owner next =>
      let inner_index := S re_index in
      let next_index := S (re_index + if is_nesting t then re_size owner else 0) in
      let after := re_address next next_index parent_link in
      match t with
      | RE_TYPE_ALTERNATIVE =>
          inner ← re_control_flow owner parent_link inner_index;
          rest ← re_control_flow next parent_link next_index;
          Ret (ReNode t after (re_address owner inner_index parent_link) :: inner ++ rest)
      | RE_TYPE_OPTIONAL | RE_TYPE_LOOP =>
          match owner with
          | RE_NULL => Undef
          | _ =>
              inner ← re_control_flow owner (if bool_decide (t = RE_TYPE_LOOP) then Some re_index else after) inner_index;
              rest ← re_control_flow next parent_link next_index;
              Ret (ReNode t (Some inner_index) after :: inner ++ rest)
          end
      | RE_TYPE_SUBEXPRESSION _ =>
          inner ← re_control_flow owner after inner_index;
          rest ← re_control_flow next parent_link next_index;
          Ret (ReNode t (re_address owner inner_index after) None :: inner ++ rest)
      | _ =>
          rest ← re_control_flow next parent_link next_index;
          Ret (ReNode t after None :: rest)
      end
  end.

(** ** [regcomp] *)

(** [regex_t]; the first node is [regex->re], and [matches_per_state] the length
    of each node's [re_matches]. *)
Record regex := Regex {
  re_nsub : nat;
  re_nodes : list re_node;
  matches_per_state : nat;
  re_cflags : Z }.

Definition regcomp (errno_is_erange : bool) (pattern : list Z) (cflags : Z) : parser regex :=
  '(r, subexpr_num) ⇐ re_parse (has_flag cflags REG_EXTENDED) errno_is_erange pattern;
  match re_transform r with
  | Ret (r, state_count, _) =>
      if 2 ^ 64 <=? Z.of_nat subexpr_num * Z.of_nat state_count then fails REG_ESPACE
      else
        match re_control_flow r None 0 with
        | Ret nodes =>
            if bool_decide (state_count = length nodes) then
              yields (Regex (if has_flag cflags REG_NOSUB then 0 else subexpr_num - 1)
                            nodes subexpr_num cflags)
            else Undef
        | Undef => Undef
        | OutOfFuel => OutOfFuel
        end
  | Undef => Undef
  | OutOfFuel => OutOfFuel
  end.

(** ** [regfree]

    [parents] are the nodes whose nested chain is being freed, with their own
    link to it cleared; the types of the nodes freed are listed in order. *)
Definition is_owning (t : re_type) : bool :=
  match t with
  | RE_TYPE_SUBEXPRESSION _ | RE_TYPE_ALTERNATIVE | RE_TYPE_OPTIONAL | RE_TYPE_LOOP
  | RE_TYPE_REPETITION _ _ => true
  | _ => false
  end.

Fixpoint regfree_loop (fuel : nat) (r : re) (parents : list (re_type * re)) (freed : list re_type)
    : outcome (list re_type) :=
  match fuel with
  | O => OutOfFuel
  | S fuel =>
      match r with
      | RE_NULL => Ret freed
      | Re t owner next =>
          if is_owning t && bool_decide (owner ≠ RE_NULL)
          then regfree_loop fuel owner ((t, next) :: parents) freed
          else
            match next, parents with
            | RE_NULL, (t', next') :: parents' =>
                regfree_loop fuel (Re t' RE_NULL next') parents' (freed ++ [t])
            | _, _ => regfree_loop fuel next parents (freed ++ [t])
            end
      end
  end.

Definition regfree (fuel : nat) (r : re) : outcome (list re_type) := regfree_loop fuel r [] [].

(** ** [regerror] *)

Definition quote : list Z := [34].

Definition regerror_message (errnum : Z) : list Z :=
  if errnum =? 1 then lit "Regular expression does not match"
  else if errnum =? 2 then lit "Invalid regular expression"
  else if errnum =? 3 then lit "Invalid collating element referenced"
  else if errnum =? 4 then lit "Invalid character class type referenced"
  else if errnum =? 5 then lit "Trailing <backslash> character in pattern"
  else if errnum =? 6 then lit "Number in \digit invalid or in error"
  else if errnum =? 7 then quote ++ lit "[]" ++ quote ++ lit " imbalance"
  else if errnum =? 8 then quote ++ lit "\(\)" ++ quote ++ lit " or " ++ quote ++ lit "()" ++ quote ++ lit " imbalance"
  else if errnum =? 9 then quote ++ lit "\{\}" ++ quote ++ lit " imbalance"
  else if errnum =? 10 then
    lit "Content of " ++ quote ++ lit "\{\}" ++ quote ++
    lit " invalid: not a number, number too large, more than two numbers, first larger than second"
  else if errnum =? 11 then lit "Invalid endpoint in range expression"
  else if errnum =? 12 then lit "Out of memory"
  else if errnum =? 13 then lit "'?', '*', or '+' not preceded by valid regular expression"
  else if errnum =? 14 then lit "Invalid arguments"
  else lit "Unknown regular expression error".

(** The size asked for, and the buffer after [strlcpy]. *)
Definition regerror (errnum : Z) (errbuf : list Z) (errbuf_size : Z) : outcome (Z * list Z) :=
  let msg := regerror_message errnum in
  errbuf ← (if negb (errbuf_size =? 0)
            then write_at errbuf 0 (take (Z.to_nat (errbuf_size - 1)) msg ++ [0])
            else Ret errbuf);
  Ret (Z.of_nat (length msg) + 1, errbuf).

(** The buffer holds the message, cut off where it does not fit, and nothing is
    written outside it. *)
Lemma regerror_run errnum errbuf :
  ∃ errbuf', regerror errnum errbuf (Z.of_nat (length errbuf)) =
      Ret (Z.of_nat (length (regerror_message errnum)) + 1, errbuf') ∧
    length errbuf' = length errbuf ∧
    (errbuf ≠ [] → ∃ rest, errbuf' = take (length errbuf - 1) (regerror_message errnum) ++ [0] ++ rest).
Proof.
  unfold regerror. destruct errbuf as [|b errbuf]; [by exists []|].
  rewrite (proj2 (Z.eqb_neq _ 0)) by (cbn [length]; lia). cbn [negb].
  replace (Z.to_nat (Z.of_nat (length (b :: errbuf)) - 1)) with (length errbuf) by (cbn [length]; lia).
  set (text := take (length errbuf) (regerror_message errnum) ++ [0]).
  assert (Ht : (length text <= length (b :: errbuf))%nat).
  { unfold text. rewrite length_app, length_take. cbn [length]. lia. }
  pose proof (write_at_prefix [] (b :: errbuf) text 0 eq_refl Ht) as Hw. cbn [app] in Hw. rewrite Hw.
  cbn [mbind outcome_bind]. eexists. split; [done|]. split.
  - rewrite length_app, length_drop. lia.
  - intros _. exists (drop (length text) (b :: errbuf)). unfold text at 1.
    rewrite <- app_assoc. cbn [length]. by rewrite Nat.sub_succ, Nat.sub_0_r.
Qed.

End Regex.
