(* ===== verification/Regexec.v ===== *)
(** * Regular expressions: the matcher

    [libc/regex/regexec.c]: the nodes are states of a nondeterministic automaton
    that reads the string once.  The states at the current position are a doubly
    linked list that grows while it is processed: here the states processed, the
    one in work and the list of the others, since [QUEUE_CURRENT_STATE] unlinks
    and links only among the others.  The states at the next position are a
    singly linked list with a pointer to its last node, and since the flag that
    says whether a state is on it can be cleared while it is, a state may be
    linked a second time: so the pointers are kept as they are.  The flags and
    pointers of a node survive a call, as does the lock. *)

From S2P Require Import Prelude Strtol Regcomp.
From stdpp Require Import base decidable list numbers strings.
From Stdlib Require Import ZArith Lia Ascii.

#[local] Open Scope c_scope.
#[local] Open Scope Z_scope.

Module Regexec.
Import Strtol Regex.

(** ** The state *)

Abbreviation regmatch := (Z * Z)%type.

(** The fields of the nodes that [regexec] changes, by node. *)
Record store := Store {
  is_currently_done : nat → bool;
  is_current : nat → bool;
  is_upcoming : nat → bool;
  upcoming_state_next : nat → option nat;
  matches : nat → nat → regmatch }.

Definition upd {A} (f : nat → A) (n : nat) (v : A) : nat → A :=
  λ n', if Nat.eqb n' n then v else f n'.

(** Flags cleared on a list of nodes. *)
Definition clear (f : nat → bool) (l : list nat) : nat → bool :=
  fold_left (λ f n, upd f n false) l f.

(** [new_state->re_matches[m] = state->re_matches[m]] for [m] below [nmatch]. *)
Definition copy_matches (nmatch : nat) (ms : nat → nat → regmatch) (state new_state : nat)
    : nat → nat → regmatch :=
  upd ms new_state (λ m, if (m <? nmatch)%nat then ms state m else ms new_state m).

(** The lists: the states processed, the last one first, the others after the
    state in work, and the first and last of the upcoming ones. *)
Record lists := Lists {
  mem : store;
  finished : list nat;
  waiting : list nat;
  upcoming_states : option nat;
  upcoming_states_last : option nat }.

Definition set_mem (m : store) (l : lists) : lists :=
  Lists m (finished l) (waiting l) (upcoming_states l) (upcoming_states_last l).

(** ** The macros *)

Section Queue.
Context (nmatch : nat) (state : nat).

(** The branch for the end of the expression, which both macros have: the states
    after this one are dropped. *)
Definition drop_waiting (l : lists) : lists :=
  let m := mem l in
  Lists (Store (is_currently_done m) (clear (is_current m) (waiting l)) (is_upcoming m)
               (upcoming_state_next m) (matches m))
        (finished l) [] (upcoming_states l) (upcoming_states_last l).

(** [QUEUE_CURRENT_STATE]: the lists, and whether the expression ended.  Unlinking
    a state that is not among the others, which the state in work is not, would
    corrupt the list. *)
Definition QUEUE_CURRENT_STATE (new_state : option nat) (l : lists) : outcome (lists * bool) :=
  let m := mem l in
  match new_state with
  | None => Ret (drop_waiting l, true)
  | Some n =>
      if is_current m n && is_currently_done m n then Ret (l, false)
      else if is_current m n && negb (bool_decide (n ∈ waiting l)) then Undef
      else
        let others := if is_current m n then filter (λ n', n' ≠ n) (waiting l) else waiting l in
        Ret (Lists (Store (upd (is_currently_done m) n false) (upd (is_current m) n true)
                          (upd (is_upcoming m) n false) (upcoming_state_next m)
                          (copy_matches nmatch (matches m) state n))
                   (finished l) (n :: others) (upcoming_states l) (upcoming_states_last l), false)
  end.

(** [QUEUE_UPCOMING_STATE]. *)
Definition QUEUE_UPCOMING_STATE (new_state : option nat) (l : lists) : outcome (lists * bool) :=
  let m := mem l in
  match new_state with
  | None => Ret (drop_waiting l, true)
  | Some n =>
      if is_upcoming m n then Ret (l, false)
      else
        let first := match upcoming_states l with None => Some n | Some _ => upcoming_states l end in
        let next := match upcoming_states_last l with
                    | Some last => upd (upcoming_state_next m) last (Some n)
                    | None => upcoming_state_next m
                    end in
        Ret (Lists (Store (is_currently_done m) (is_current m) (upd (is_upcoming m) n true)
                          (upd next n None) (copy_matches nmatch (matches m) state n))
                   (finished l) (waiting l) first (Some n), false)
  end.

End Queue.

(** ** One state *)

Section Exec.
Context (rx : regex) (nmatch : nat) (eflags : Z).

(** [state->re_matches[index].rm_so = i] and [.rm_eo = i]. *)
Definition set_match (state index : nat) (f : regmatch → regmatch) (l : lists) : outcome lists :=
  let m := mem l in
  if (index <? matches_per_state rx)%nat then
    Ret (set_mem (Store (is_currently_done m) (is_current m) (is_upcoming m) (upcoming_state_next m)
                        (upd (matches m) state (upd (matches m state) index (f (matches m state index))))) l)
  else Undef.

(** The type's case at position [i] with character [c]: the lists, and whether
    the expression ended before ([Some false]) or after ([Some true]) [c]. *)
Definition exec_type (not_bol : bool) (i : nat) (c : Z) (state : nat) (node : re_node) (l : lists)
    : outcome (lists * option bool) :=
  let current l :=
    '(l, ended) ← QUEUE_CURRENT_STATE nmatch state (re_next node) l;
    Ret (l, if ended : bool then Some false else None) in
  let upcoming l :=
    '(l, ended) ← QUEUE_UPCOMING_STATE nmatch state (re_next node) l;
    Ret (l, if ended : bool then Some true else None) in
  match node_type node with
  | RE_TYPE_BOL => if negb not_bol then current l else Ret (l, None)
  | RE_TYPE_EOL => if negb (has_flag eflags REG_NOTEOL) && (c =? 0) then current l else Ret (l, None)
  | RE_TYPE_CHAR c' => if negb (c =? 0) && (c' =? c) then upcoming l else Ret (l, None)
  | RE_TYPE_ANY_CHAR => if negb (c =? 0) then upcoming l else Ret (l, None)
  | RE_TYPE_SET set => if negb (c =? 0) && set_has set c then upcoming l else Ret (l, None)
  | RE_TYPE_SUBEXPRESSION index =>
      l ← set_match state index (λ m, (Z.of_nat i, m.2)) l; current l
  | RE_TYPE_SUBEXPRESSION_END index =>
      l ← set_match state index (λ m, (m.1, Z.of_nat i)) l; current l
  | RE_TYPE_ALTERNATIVE | RE_TYPE_OPTIONAL | RE_TYPE_LOOP =>
      '(l, ended1) ← QUEUE_CURRENT_STATE nmatch state (re_split_re node) l;
      '(l, ended2) ← QUEUE_CURRENT_STATE nmatch state (re_next node) l;
      Ret (l, if (ended1 : bool) || (ended2 : bool) then Some false else None)
  | RE_TYPE_REPETITION _ _ => Ret (l, None)
  end.

Definition mark_done (state : nat) (l : lists) : lists :=
  let m := mem l in
  Lists (Store (upd (is_currently_done m) state true) (is_current m) (is_upcoming m)
               (upcoming_state_next m) (matches m))
        (state :: finished l) (waiting l) (upcoming_states l) (upcoming_states_last l).

(** The result so far, and the matches stored in [pmatch]. *)
Record report := Report { result : Z; pmatch : list regmatch }.

(** [for ( size_t m = 0; m < nmatch; m++ ) pmatch[m] = state->re_matches[m]]. *)
Definition store_matches (ms : nat → regmatch) (p : list regmatch) : list regmatch :=
  map ms (seq 0 nmatch) ++ drop nmatch p.

(** The loop over the current states. *)
Fixpoint exec_states (fuel : nat) (not_bol : bool) (i : nat) (c : Z) (l : lists) (r : report)
    : outcome (lists * report) :=
  match waiting l with
  | [] => Ret (l, r)
  | state :: others =>
      match fuel with
      | O => OutOfFuel
      | S fuel =>
          match re_nodes rx !! state with
          | None => Undef
          | Some node =>
              let l := Lists (mem l) (finished l) others (upcoming_states l) (upcoming_states_last l) in
              '(l, ended) ← exec_type not_bol i c state node l;
              let l := mark_done state l in
              match ended with
              | None => exec_states fuel not_bol i c l r
              | Some consumed_char =>
                  l ← set_match state 0 (λ m, (m.1, Z.of_nat i + if (consumed_char : bool) then 1 else 0)) l;
                  let r := Report 0 (store_matches (matches (mem l) state) (pmatch r)) in
                  if (nmatch =? 0)%nat then Ret (l, r) else exec_states fuel not_bol i c l r
              end
          end
      end
  end.

(** ** One position *)

(** Start at this position too, as long as there is no match. *)
Definition exec_start (i : nat) (l : lists) (r : report) : lists :=
  let m := mem l in
  if negb (is_current m 0) && (result r =? REG_NOMATCH) then
    Lists (Store (upd (is_currently_done m) 0 false) (upd (is_current m) 0 true)
                 (upd (is_upcoming m) 0 false) (upcoming_state_next m)
                 (upd (matches m) 0 (λ k, if (k <? nmatch)%nat
                                          then (if (k =? 0)%nat then Z.of_nat i else -1, -1)
                                          else matches m 0%nat k)))
          (finished l) (waiting l ++ [0%nat]) (upcoming_states l) (upcoming_states_last l)
  else l.

(** The nodes of the upcoming list. *)
Fixpoint walk (fuel : nat) (next : nat → option nat) (n : option nat) : outcome (list nat) :=
  match n with
  | None => Ret []
  | Some n =>
      match fuel with
      | O => OutOfFuel
      | S fuel => l ← walk fuel next (next n); Ret (n :: l)
      end
  end.

(** The upcoming states become the current ones. *)
Definition exec_advance (m : store) (l : list nat) : lists :=
  Lists (Store (clear (is_currently_done m) l) (fold_left (λ f n, upd f n true) l (is_current m))
               (clear (is_upcoming m) l) (upcoming_state_next m) (matches m))
        [] l None None.

(** The loop over the positions, [count] of them from [i] on; the end of the
    string reads as a null character. *)
Fixpoint exec_positions (count : nat) (string : list Z) (endp : nat) (not_bol : bool) (i : nat)
    (l : lists) (r : report) : outcome (store * report) :=
  match count with
  | O => Ret (mem l, r)
  | S count =>
      let l := exec_start i l r in
      c ← (if (i <? endp)%nat then match string !! i with Some c => Ret c | None => Undef end
           else Ret 0);
      '(l, r) ← exec_states (length (re_nodes rx)) not_bol i c l r;
      let m := mem l in
      let m := Store (is_currently_done m) (clear (is_current m) (finished l ++ waiting l))
                     (is_upcoming m) (upcoming_state_next m) (matches m) in
      up ← walk (length (re_nodes rx)) (upcoming_state_next m) (upcoming_states l);
      if (nmatch =? 0)%nat && (result r =? 0) then
        Ret (Store (is_currently_done m) (is_current m) (clear (is_upcoming m) up)
                   (upcoming_state_next m) (matches m), r)
      else
        let l := exec_advance m up in
        match up with
        | [] => if result r =? 0 then Ret (mem l, r)
                else exec_positions count string endp true (S i) l r
        | _ => exec_positions count string endp true (S i) l r
        end
  end.

End Exec.

(** ** [regexec] *)

(** [strlen]. *)
Fixpoint regexec_strlen (s : list Z) : outcome nat :=
  match s with
  | [] => Undef
  | c :: s => if c =? 0 then Ret 0%nat else n ← regexec_strlen s; Ret (S n)
  end.

(** What an expression keeps from call to call. *)
Record re_object := ReObject { fields : store; re_lock : bool }.

(** The nodes as [calloc] and [re_control_flow] leave them; the upcoming links and
    the matches are not looked at before they are set. *)
Definition fresh_store : store :=
  Store (λ _, false) (λ _, false) (λ _, false) (λ _, None) (λ _ _, (0, 0)).

Definition fresh_object : re_object := ReObject fresh_store false.

(** [for ( size_t i = 0; i < nmatch; i++ ) pmatch[i].rm_so = pmatch[i].rm_eo = -1]. *)
Definition clear_pmatch (nmatch : nat) (p : list regmatch) : list regmatch :=
  replicate nmatch (-1, -1) ++ drop nmatch p.

(** Locking an expression that is locked already never returns. *)
Definition regexec (rx : regex) (string : list Z) (nmatch : nat) (p : list regmatch) (eflags : Z)
    (o : re_object) : outcome (Z * list regmatch * re_object) :=
  if re_lock o then OutOfFuel
  else
    let nmatch := if has_flag (re_cflags rx) REG_NOSUB then 0%nat else nmatch in
    let run start endp :=
      if (length p <? nmatch)%nat then Undef
      else
        let p := clear_pmatch nmatch p in
        let nmatch := if (re_nsub rx + 1 <? nmatch)%nat then (re_nsub rx + 1)%nat else nmatch in
        match re_nodes rx with
        | [] => Undef
        | _ =>
            let m := fields o in
            let m := Store (is_currently_done m) (upd (is_current m) 0 false) (is_upcoming m)
                           (upcoming_state_next m) (matches m) in
            '(m, r) ← exec_positions rx nmatch eflags (S endp - start) string endp
                        (has_flag eflags REG_NOTBOL) start (Lists m [] [] None None)
                        (Report REG_NOMATCH p);
            Ret (result r, pmatch r, ReObject m false)
        end in
    if has_flag eflags REG_STARTEND then
      match p with
      | [] => Undef
      | (rm_so, rm_eo) :: _ =>
          if (rm_so <? 0) || (rm_eo <? rm_so) then Ret (REG_INVARG, p, ReObject (fields o) true)
          else run (Z.to_nat rm_so) (Z.to_nat rm_eo)
      end
    else
      len ← regexec_strlen string;
      run 0%nat len.

End Regexec.
