(* ===== verification/RegexSpec.v ===== *)
(** * Regular expressions: what they mean

    The language of an expression as a relation between the positions of a text
    (anchors look at the position, so that words alone would not do), the moves
    of the automaton the nodes form, and that the compiler's passes keep the
    language: the control flow of an expression without repetitions reaches the
    end exactly along its matches, and the expansion of repetitions changes
    nothing. *)

From S2P Require Import Prelude Strtol Regcomp.
From stdpp Require Import base decidable list numbers relations.
From Stdlib Require Import ZArith Lia.

#[local] Open Scope Z_scope.

Module RegexSpec.
Import Regex.

(** The text: the character at each position (0 where none can be consumed) and
    where the anchors hold. *)
Record text := Text {
  char_at : nat → Z;
  bol_at : nat → bool;
  eol_at : nat → bool }.

(** The character a node consumes. *)
Definition consumes (t : re_type) (c : Z) : bool :=
  negb (c =? 0) &&
  match t with
  | RE_TYPE_CHAR c' => c' =? c
  | RE_TYPE_ANY_CHAR => true
  | RE_TYPE_SET set => set_has set c
  | _ => false
  end.

(** The subexpression a node belongs to, if any. *)
Definition node_index (t : re_type) : nat :=
  match t with RE_TYPE_SUBEXPRESSION ix | RE_TYPE_SUBEXPRESSION_END ix => ix | _ => 0 end.

Section Language.
Context (tx : text).

(** ** The language of an expression *)

Definition times_between (R : relation nat) (min max : Z) (i j : nat) : Prop :=
  ∃ n : nat, min <= Z.of_nat n ∧ (max = SIZE_MAX ∨ Z.of_nat n <= max) ∧ nsteps R n i j.

(** [language r i j]: the chain [r] matches the text from [i] to [j]. *)
Fixpoint language (r : re) (i j : nat) : Prop :=
  match r with
  | RE_NULL => i = j
  | Re t owner next =>
      match t with
      | RE_TYPE_BOL => bol_at tx i = true ∧ language next i j
      | RE_TYPE_EOL => eol_at tx i = true ∧ language next i j
      | RE_TYPE_CHAR _ | RE_TYPE_ANY_CHAR | RE_TYPE_SET _ =>
          consumes t (char_at tx i) = true ∧ language next (S i) j
      | RE_TYPE_SUBEXPRESSION _ => ∃ k, language owner i k ∧ language next k j
      | RE_TYPE_SUBEXPRESSION_END _ => language next i j
      | RE_TYPE_ALTERNATIVE => language next i j ∨ language owner i j
      | RE_TYPE_OPTIONAL => ∃ k, (k = i ∨ language owner i k) ∧ language next k j
      | RE_TYPE_LOOP => ∃ k, rtc (language owner) i k ∧ language next k j
      | RE_TYPE_REPETITION min max =>
          ∃ k, times_between (language owner) min max i k ∧ language next k j
      end
  end.

(** ** The moves of the automaton *)

(** The nodes reached without consuming a character; [None] is the end. *)
Definition eps_targets (i : nat) (node : re_node) : list (option nat) :=
  match node_type node with
  | RE_TYPE_BOL => if bol_at tx i then [re_next node] else []
  | RE_TYPE_EOL => if eol_at tx i then [re_next node] else []
  | RE_TYPE_SUBEXPRESSION _ | RE_TYPE_SUBEXPRESSION_END _ => [re_next node]
  | RE_TYPE_ALTERNATIVE | RE_TYPE_OPTIONAL | RE_TYPE_LOOP => [re_split_re node; re_next node]
  | _ => []
  end.

(** A configuration is a node, or the end, at a position. *)
Abbreviation config := (option nat * nat)%type.

Inductive move (nodes : list re_node) : config → config → Prop :=
| move_eps n node i t :
    nodes !! n = Some node → t ∈ eps_targets i node → move nodes (Some n, i) (t, i)
| move_char n node i :
    nodes !! n = Some node → consumes (node_type node) (char_at tx i) = true →
    move nodes (Some n, i) (re_next node, S i).

(** The automaton accepts the text from [i] to [j]. *)
Definition accepts (nodes : list re_node) (i j : nat) : Prop :=
  rtc (move nodes) (Some 0%nat, i) (None, j).

(** ** Control flow *)

(** An expression that [re_control_flow] accepts and that has no repetitions. *)
Fixpoint plain (r : re) : Prop :=
  match r with
  | RE_NULL => True
  | Re t owner next =>
      match t with
      | RE_TYPE_REPETITION _ _ => False
      | RE_TYPE_OPTIONAL | RE_TYPE_LOOP => owner ≠ RE_NULL ∧ plain owner
      | RE_TYPE_SUBEXPRESSION _ | RE_TYPE_ALTERNATIVE => plain owner
      | _ => owner = RE_NULL
      end ∧ plain next
  end.

(** [l] is the part of [nodes] from [n] on. *)
Definition placed (nodes : list re_node) (n : nat) (l : list re_node) : Prop :=
  ∀ k node, l !! k = Some node → nodes !! (n + k)%nat = Some node.

Lemma placed_cons nodes n node l :
  placed nodes n (node :: l) → nodes !! n = Some node ∧ placed nodes (S n) l.
Proof.
  intros H. split.
  - specialize (H 0%nat node eq_refl). by rewrite Nat.add_0_r in H.
  - intros k nd Hk. specialize (H (S k) nd Hk). by rewrite <- plus_n_Sm in H.
Qed.

Lemma placed_app nodes n l1 l2 :
  placed nodes n (l1 ++ l2) → placed nodes n l1 ∧ placed nodes (n + length l1) l2.
Proof.
  intros H. split; intros k nd Hk.
  - apply H. by apply lookup_app_l_Some.
  - rewrite <- Nat.add_assoc. apply H. rewrite lookup_app_r by lia. rewrite <- Hk. f_equal. lia.
Qed.

Lemma control_flow_length r link n l :
  re_control_flow r link n = Ret l → length l = re_size r.
Proof.
  revert link n l. induction r as [|t owner IHo next IHn]; intros link n l; cbn [re_control_flow].
  - by intros [= <-].
  - destruct t; try destruct owner as [|t' o' n']; cbn [is_nesting re_size]; try done;
      repeat match goal with
      | |- context [mbind _ (re_control_flow ?r ?l ?k)] =>
          let E := fresh "E" in destruct (re_control_flow r l k) eqn:E; try done; cbn [mbind outcome_bind]
      end; intros [= <-]; cbn [length]; rewrite ?length_app;
      repeat match goal with
      | H : re_control_flow _ _ _ = Ret _ |- _ => first [apply IHn in H|apply IHo in H]
      end; cbn [re_size is_nesting] in *; lia.
Qed.

(** The nodes of a chain: its first one, those nested in it, those that follow. *)
Lemma control_flow_inv t owner next link n l :
  plain (Re t owner next) → re_control_flow (Re t owner next) link n = Ret l →
  let m := S (n + if is_nesting t then re_size owner else 0)%nat in
  let after := re_address next m link in
  ∃ node inner rest,
    l = node :: inner ++ rest ∧ node_type node = t ∧ re_control_flow next link m = Ret rest ∧
    (S n + length inner = m)%nat ∧
    match t with
    | RE_TYPE_ALTERNATIVE =>
        re_next node = after ∧ re_split_re node = re_address owner (S n) link ∧
        re_control_flow owner link (S n) = Ret inner
    | RE_TYPE_OPTIONAL =>
        re_next node = Some (S n) ∧ re_split_re node = after ∧
        re_control_flow owner after (S n) = Ret inner
    | RE_TYPE_LOOP =>
        re_next node = Some (S n) ∧ re_split_re node = after ∧
        re_control_flow owner (Some n) (S n) = Ret inner
    | RE_TYPE_SUBEXPRESSION _ =>
        re_next node = re_address owner (S n) after ∧ re_split_re node = None ∧
        re_control_flow owner after (S n) = Ret inner
    | _ => re_next node = after ∧ re_split_re node = None ∧ inner = []
    end.
Proof.
  intros Hp Hl m after. cbn [re_control_flow] in Hl.
  assert (Hlen : ∀ lk inner, re_control_flow owner lk (S n) = Ret inner → is_nesting t = true →
                 (S n + length inner = m)%nat).
  { intros lk inner Hi Ht. unfold m. rewrite Ht, (control_flow_length _ _ _ _ Hi). lia. }
  fold m after in Hl.
  destruct t; cbn [is_nesting plain] in *; destruct Hp as [Hp _];
    try (destruct (re_control_flow next link m) as [rest| |] eqn:En; cbn [mbind outcome_bind] in Hl; try done;
         injection Hl as <-; eexists _, [], rest; split_and!; [done|done|done|unfold m; cbn [length]; lia|done|done|done]);
    try (destruct owner as [|t' o' n']; [by destruct Hp|]);
    try done; cbn [bool_decide decide_rel] in Hl.
  all: match type of Hl with
       | context [re_control_flow ?o ?lk (S ?k)] =>
           destruct (re_control_flow o lk (S k)) as [inner| |] eqn:Ei; cbn [mbind outcome_bind] in Hl; try done
       end.
  all: destruct (re_control_flow next link m) as [rest| |] eqn:En; cbn [mbind outcome_bind] in Hl; try done.
  all: injection Hl as <-; eexists _, inner, rest; split_and!; try done; by eapply Hlen.
Qed.

Lemma consumes_not t c :
  match t with RE_TYPE_CHAR _ | RE_TYPE_ANY_CHAR | RE_TYPE_SET _ => False | _ => True end →
  consumes t c = false.
Proof. unfold consumes. destruct t; try done; intros _; apply andb_false_r. Qed.

(** The rest of a run goes along the rest of the match. *)
#[local] Ltac follow Hr Hnext :=
  let k := fresh "k" in let s' := fresh "s'" in let Hs' := fresh "Hs'" in
  destruct (Hnext _ _ _ Hr) as (k & s' & Hs' & ? & ?);
  exists k, s'; split; [lia|split; [|done]].

Section Flow.
Context (nodes : list re_node).

#[local] Abbreviation runs := (rtc (move nodes)).

(** Runs that begin with a move along a link. *)
Lemma run_next n node i x :
  nodes !! n = Some node →
  match node_type node with
  | RE_TYPE_BOL => bol_at tx i = true
  | RE_TYPE_EOL => eol_at tx i = true
  | RE_TYPE_CHAR _ | RE_TYPE_ANY_CHAR | RE_TYPE_SET _ | RE_TYPE_REPETITION _ _ => False
  | _ => True
  end → runs (re_next node, i) x → runs (Some n, i) x.
Proof.
  intros Hn Ht Hx. eapply rtc_l; [|exact Hx]. eapply move_eps; [done|]. unfold eps_targets.
  destruct (node_type node); try done; rewrite ?Ht;
    first [apply list_elem_of_here|apply list_elem_of_further, list_elem_of_here].
Qed.

Lemma run_split n node i x :
  nodes !! n = Some node →
  match node_type node with RE_TYPE_ALTERNATIVE | RE_TYPE_OPTIONAL | RE_TYPE_LOOP => True | _ => False end →
  runs (re_split_re node, i) x → runs (Some n, i) x.
Proof.
  intros Hn Ht Hx. eapply rtc_l; [|exact Hx]. eapply move_eps; [done|]. unfold eps_targets.
  destruct (node_type node); try done; apply list_elem_of_here.
Qed.

Lemma run_char n node i x :
  nodes !! n = Some node → consumes (node_type node) (char_at tx i) = true →
  runs (re_next node, S i) x → runs (Some n, i) x.
Proof. intros Hn Hc Hx. eapply rtc_l; [|exact Hx]. by eapply move_char. Qed.

(** Every match is a run. *)
Lemma control_flow_complete r link n l i j :
  plain r → re_control_flow r link n = Ret l → placed nodes n l → language r i j →
  runs (re_address r n link, i) (link, j).
Proof.
  revert link n l i j. induction r as [|t owner IHo next IHn]; intros link n l i j Hp Hl Hpl.
  { intros ->. apply rtc_refl. }
  destruct (control_flow_inv _ _ _ _ _ _ Hp Hl) as (node & inner & rest & -> & Ht & Hn & Hm & Hnode).
  destruct (placed_cons _ _ _ _ Hpl) as [Hat [Hpi Hpr]%placed_app].
  rewrite Hm in Hpr. destruct Hp as [Hpo Hpn].
  pose proof (λ i j, IHn link _ rest i j Hpn Hn Hpr) as Hnext. clear IHn Hn Hpr Hpl Hl Hm.
  pose proof (run_next n node) as Rnext. pose proof (run_split n node) as Rsplit.
  pose proof (run_char n node) as Rchar. rewrite Ht in *.
  cbn [re_address language]. destruct t; cbn [is_nesting] in *; destruct Hnode as (Hnn & Hsp & Hi);
    rewrite ?Hnn, ?Hsp in *.
  - intros [Hb H]. apply Rnext; auto.
  - intros [Hb H]. apply Rnext; auto.
  - intros [Hc H]. apply Rchar; auto.
  - intros [Hc H]. apply Rchar; auto.
  - intros [Hc H]. apply Rchar; auto.
  - intros (k & Ho & H). apply Rnext; [done|done|]. etrans; [by eapply IHo|by apply Hnext].
  - intros H. apply Rnext; auto.
  - intros [H|H]; [apply Rnext; auto|apply Rsplit; eauto].
  - destruct Hpo as [Hne Hpo]. intros (k & [->|Ho] & H); [apply Rsplit; auto|].
    apply Rnext; [done|done|]. etrans; [|by apply Hnext].
    specialize (IHo _ _ _ _ _ Hpo Hi Hpi Ho). by destruct owner.
  - destruct Hpo as [Hne Hpo]. intros (k & Hk & H). induction Hk as [k|i i' k Hi' _ IH]; [apply Rsplit; auto|].
    apply Rnext; [done|done|]. etrans; [|by apply IH].
    specialize (IHo _ _ _ _ _ Hpo Hi Hpi Hi'). by destruct owner.
  - done.
Qed.

(** The first move of a run from a node. *)
Lemma run_inv s n node i j :
  nodes !! n = Some node → nsteps (move nodes) s (Some n, i) (None, j) →
  ∃ s', s = S s' ∧
    ((∃ t, t ∈ eps_targets i node ∧ nsteps (move nodes) s' (t, i) (None, j)) ∨
     (consumes (node_type node) (char_at tx i) = true ∧
      nsteps (move nodes) s' (re_next node, S i) (None, j))).
Proof.
  intros Hn Hs. inversion Hs as [|s' ? y ? Hm Hr]; subst. exists s'. split; [done|].
  inversion Hm as [? node' ? t Hn' Ht|? node' ? Hn' Hc]; subst;
    assert (node' = node) as -> by congruence; eauto.
Qed.

(** Runs through the body of a loop. *)
Lemma loop_sound n node (body : relation nat) after :
  nodes !! n = Some node → node_type node = RE_TYPE_LOOP → re_next node = Some (S n) →
  re_split_re node = after →
  (∀ s i j, nsteps (move nodes) s (Some (S n), i) (None, j) →
     ∃ k s', (s' <= s)%nat ∧ body i k ∧ nsteps (move nodes) s' (Some n, k) (None, j)) →
  ∀ s i j, nsteps (move nodes) s (Some n, i) (None, j) →
    ∃ k s', (s' <= s)%nat ∧ rtc body i k ∧ nsteps (move nodes) s' (after, k) (None, j).
Proof.
  intros Hat Ht Hnn Hsp Hbody s. induction s as [s IH] using lt_wf_ind. intros i j Hs.
  destruct (run_inv _ _ _ _ _ Hat Hs) as (s1 & -> & Hfirst).
  rewrite Ht, (consumes_not RE_TYPE_LOOP) in Hfirst by done.
  destruct Hfirst as [(t & Hin & Hr)|[? _]]; [|done].
  unfold eps_targets in Hin. rewrite Ht, Hsp, Hnn in Hin.
  apply elem_of_cons in Hin as [->| ->%list_elem_of_singleton].
  - exists i, s1. split_and!; [lia|apply rtc_refl|done].
  - destruct (Hbody _ _ _ Hr) as (k1 & s2 & Hs2 & H1 & Hr1).
    destruct (IH s2 ltac:(lia) _ _ Hr1) as (k & s' & Hs' & H & Hr').
    exists k, s'. split_and!; [lia|by eapply rtc_l|done].
Qed.

(** Every run goes along a match first. *)
Lemma control_flow_sound r link n l s i j :
  plain r → re_control_flow r link n = Ret l → placed nodes n l →
  nsteps (move nodes) s (re_address r n link, i) (None, j) →
  ∃ k s', (s' <= s)%nat ∧ language r i k ∧ nsteps (move nodes) s' (link, k) (None, j).
Proof.
  revert link n l s i j. induction r as [|t owner IHo next IHn]; intros link n l s i j Hp Hl Hpl.
  { intros Hs. exists i, s. done. }
  destruct (control_flow_inv _ _ _ _ _ _ Hp Hl) as (node & inner & rest & -> & Ht & Hn & Hm & Hnode).
  destruct (placed_cons _ _ _ _ Hpl) as [Hat [Hpi Hpr]%placed_app].
  rewrite Hm in Hpr. destruct Hp as [Hpo Hpn].
  pose proof (λ s i j, IHn link _ rest s i j Hpn Hn Hpr) as Hnext. clear IHn Hn Hpr Hpl Hl Hm.
  cbn [re_address language]. intros Hs.
  pose proof (run_inv _ _ _ _ _ Hat Hs) as (s1 & -> & Hfirst). rewrite Ht in Hfirst.
  unfold eps_targets in Hfirst. rewrite Ht in Hfirst.
  destruct t; cbn [is_nesting] in *;
    try (destruct Hfirst as [(t & Hin & Hr)|[Hc Hr]];
         [|first [by rewrite consumes_not in Hc
                 |destruct Hnode as [Hnn _]; rewrite Hnn in Hr; by follow Hr Hnext]]);
    try by apply not_elem_of_nil in Hin.
  - destruct (bol_at tx i); [|by apply not_elem_of_nil in Hin].
    apply list_elem_of_singleton in Hin as ->. destruct Hnode as [Hnn _]. rewrite Hnn in Hr.
    by follow Hr Hnext.
  - destruct (eol_at tx i); [|by apply not_elem_of_nil in Hin].
    apply list_elem_of_singleton in Hin as ->. destruct Hnode as [Hnn _]. rewrite Hnn in Hr.
    by follow Hr Hnext.
  - apply list_elem_of_singleton in Hin as ->. destruct Hnode as (Hnn & _ & Hi). rewrite Hnn in Hr.
    destruct (IHo _ _ _ _ _ _ Hpo Hi Hpi Hr) as (k1 & s2 & Hs2 & H1 & Hr1).
    follow Hr1 Hnext. by exists k1.
  - apply list_elem_of_singleton in Hin as ->. destruct Hnode as [Hnn _]. rewrite Hnn in Hr.
    by follow Hr Hnext.
  - destruct Hnode as (Hnn & Hsp & Hi). rewrite Hsp, Hnn in Hin.
    apply elem_of_cons in Hin as [->| ->%list_elem_of_singleton].
    + follow Hr (λ s i j, IHo _ _ _ s i j Hpo Hi Hpi). by right.
    + follow Hr Hnext. by left.
  - destruct Hnode as (Hnn & Hsp & Hi). destruct Hpo as [Hne Hpo]. rewrite Hsp, Hnn in Hin.
    apply elem_of_cons in Hin as [->| ->%list_elem_of_singleton].
    + follow Hr Hnext. exists i. auto.
    + destruct (IHo _ _ _ s1 i j Hpo Hi Hpi) as (k1 & s2 & Hs2 & H1 & Hr1); [by destruct owner|].
      follow Hr1 Hnext. exists k1. auto.
  - destruct Hnode as (Hnn & Hsp & Hi). destruct Hpo as [Hne Hpo].
    edestruct (loop_sound n node (language owner) _ Hat Ht Hnn Hsp) as (k1 & s2 & Hs2 & H1 & Hr1); [|exact Hs|].
    { intros s' i' j' Hr'. eapply (IHo _ _ _ _ _ _ Hpo Hi Hpi). by destruct owner. }
    follow Hr1 Hnext. by exists k1.
Qed.

(** The automaton of a whole expression accepts its language. *)
Lemma control_flow_accepts r i j :
  plain r → r ≠ RE_NULL → re_control_flow r None 0 = Ret nodes → accepts nodes i j ↔ language r i j.
Proof.
  intros Hp Hne Hl. assert (Hpl : placed nodes 0 nodes) by (by intros k node).
  unfold accepts. split.
  - intros [s Hs]%rtc_nsteps.
    destruct (control_flow_sound r None 0 nodes s i j) as (k & s' & _ & H & Hr); [done|done|done|by destruct r|].
    inversion Hr as [|? ? ? ? Hm]; subst; [done|]. by inversion Hm.
  - intros H. apply (control_flow_complete r None 0 nodes) in H; [|done..]. by destruct r.
Qed.

End Flow.
(** ** Repetitions *)

(** What a repetition applies to. *)
Definition is_atom (t : re_type) : Prop :=
  match t with RE_TYPE_CHAR _ | RE_TYPE_ANY_CHAR | RE_TYPE_SET _ => True | _ => False end.

Inductive is_item : re → Prop :=
| item_atom t : is_atom t → is_item (leaf t)
| item_subexpression index owner : is_item (re_subexpression index owner).

(** The trees of the parser, and of [re_transform] while it works on them. *)
Fixpoint parse_tree (r : re) : Prop :=
  match r with
  | RE_NULL => True
  | Re t owner next =>
      match t with
      | RE_TYPE_SUBEXPRESSION _ | RE_TYPE_ALTERNATIVE => parse_tree owner
      | RE_TYPE_OPTIONAL | RE_TYPE_LOOP => is_item owner ∧ parse_tree owner
      | RE_TYPE_REPETITION min max => is_item owner ∧ parse_tree owner ∧ 0 <= min <= max ∧ max <= SIZE_MAX
      | _ => owner = RE_NULL
      end ∧ parse_tree next
  end.

Lemma parsed_append a b : parse_tree a → parse_tree b → parse_tree (re_append a b).
Proof. induction a as [|t owner _ next IH]; cbn; [done|]. intros [Ho Hn] Hb. auto. Qed.

Lemma re_duplicate_copies r r' : re_duplicate r = Ret r' → r' = r.
Proof.
  revert r'. induction r as [|t owner IHo next IHn]; intros r'; cbn [re_duplicate]; [by intros [= <-]|].
  destruct (re_duplicates t); [|done].
  destruct (re_duplicate owner) as [o'| |]; try done. cbn [mbind outcome_bind].
  destruct (re_duplicate next) as [n'| |]; try done. cbn [mbind outcome_bind].
  intros [= <-]. by rewrite (IHo o'), (IHn n').
Qed.

Lemma re_copy_copies r r' : is_item r → re_copy r = Ret r' → r' = r.
Proof.
  intros [t Ht|index owner].
  - destruct t; try done; by intros [= <-].
  - cbn. destruct (re_duplicate owner) as [o'| |] eqn:E; try done. cbn [mbind outcome_bind].
    intros [= <-]. by rewrite (re_duplicate_copies _ _ E).
Qed.

Lemma language_append a b i j :
  is_item a → language (re_append a b) i j ↔ ∃ k, language a i k ∧ language b k j.
Proof.
  intros [t Ht|index owner]; cbn [re_append leaf re_subexpression].
  - assert (∀ P : Prop, (P ∧ language b (S i) j) ↔ ∃ k, (P ∧ S i = k) ∧ language b k j) as H.
    { intros P. split; [intros [? ?]; eauto|by intros (k & [? <-] & ?)]. }
    destruct t; try done; apply H.
  - cbn [language]. split.
    + intros (k & ? & ?). exists k. split; [by exists k|done].
    + intros (k & (k' & ? & ->) & ?). by exists k.
Qed.

Section Times.
Context (R : relation nat).

Lemma times_zero min i k : min <= 0 → times_between R min 0 i k ↔ i = k.
Proof.
  intros Hm. split.
  - intros (n & _ & [?|?] & Hn); [done|]. assert (n = 0%nat) as -> by lia. by inversion Hn.
  - intros ->. exists 0%nat. split_and!; [lia|by right|constructor].
Qed.

Lemma times_more min max i k :
  1 <= min <= max → max <= SIZE_MAX →
  times_between R min max i k ↔
  ∃ m, R i m ∧ times_between R (min - 1) (if negb (max =? SIZE_MAX) then max - 1 else max) m k.
Proof.
  intros Hm Hmm. split.
  - intros (n & Hn & Hmax & Hs). destruct n as [|n]; [lia|]. inversion Hs as [|? ? m ? Hr Hs']; subst.
    exists m. split; [done|]. exists n. split_and!; [lia| |done].
    destruct (Z.eqb_spec max SIZE_MAX); cbn; [by left|right; lia].
  - intros (m & Hr & n & Hn & Hmax & Hs). exists (S n). split_and!; [lia| |by econstructor].
    revert Hmax. destruct (Z.eqb_spec max SIZE_MAX); cbn; [by left|right]. lia.
Qed.

Lemma times_optional min max i k :
  min <= 0 → 0 < max → max < SIZE_MAX →
  times_between R min max i k ↔
  ∃ m, (m = i ∨ R i m) ∧ times_between R min (max - 1) m k.
Proof.
  intros Hm Hmax Hlt. split.
  - intros (n & _ & Hn & Hs). assert (Z.of_nat n <= max) by lia. destruct n as [|n].
    + exists i. split; [by left|]. exists 0%nat. split_and!; [lia|right; lia|done].
    + inversion Hs as [|? ? m ? Hr Hs']; subst. exists m. split; [by right|].
      exists n. split_and!; [lia|right; lia|done].
  - intros (m & Hi & n & _ & Hn & Hs). assert (Z.of_nat n <= max - 1) by lia.
    destruct Hi as [->|Hr].
    + exists n. split_and!; [lia|right; lia|done].
    + exists (S n). split_and!; [lia|right; lia|by econstructor].
Qed.

Lemma times_loop min i k : min <= 0 → times_between R min SIZE_MAX i k ↔ rtc R i k.
Proof.
  intros Hm. rewrite rtc_nsteps. split.
  - intros (n & _ & _ & Hs). by exists n.
  - intros [n Hs]. exists n. split_and!; [lia|by left|done].
Qed.

End Times.

Lemma ex_and_assoc {A} (P R : A → Prop) (Q : A → A → Prop) :
  (∃ k, P k ∧ ∃ k', Q k k' ∧ R k') ↔ (∃ k', (∃ k, P k ∧ Q k k') ∧ R k').
Proof. split; [intros (k & ? & k' & ? & ?)|intros (k' & (k & ? & ?) & ?)]; eauto. Qed.

(** [re_repetition] yields the copies of a repetition. *)
Lemma re_repetition_language fuel templ min max after r :
  is_item templ → 0 <= min <= max → max <= SIZE_MAX → re_repetition fuel templ min max after = Ret r →
  ∀ i j, language r i j ↔ language (Re (RE_TYPE_REPETITION min max) templ after) i j.
Proof.
  intros Ht. revert min max r. induction fuel as [|fuel IH]; intros min max r Hm Hmax; [done|].
  cbn [re_repetition]. destruct (Z.eqb_spec max 0) as [->|H0].
  { intros [= <-] i j. cbn [language]. split.
    - intros H. exists i. split; [|done]. apply times_zero; [lia|done].
    - intros (k & Hk & H). apply times_zero in Hk; [|lia]. by subst k. }
  destruct (re_copy templ) as [copy| |] eqn:Ec; cbn [mbind outcome_bind]; try done.
  apply re_copy_copies in Ec as ->; [|done].
  destruct (1 <=? min) eqn:E1; [|destruct (max <? SIZE_MAX) eqn:E2]; b2p;
    match goal with |- context [re_repetition fuel ?a ?b ?c ?d] =>
      destruct (re_repetition fuel a b c d) as [rest| |] eqn:Er end;
    cbn [mbind outcome_bind]; try done; intros [= <-] i j.
  - rewrite language_append by done.
    assert (Hrest := λ H H', IH _ _ _ H H' Er). clear Er. cbn [language] in *.
    setoid_rewrite Hrest; [|destruct (Z.eqb_spec max SIZE_MAX); cbn; lia..].
    setoid_rewrite (times_more _ min max); [|lia|lia]. apply ex_and_assoc.
  - assert (Hrest := λ H H', IH _ _ _ H H' Er). clear Er. cbn [language] in *.
    setoid_rewrite Hrest; [|lia|lia]. setoid_rewrite (times_optional _ min max); [|lia..]. apply ex_and_assoc.
  - assert (Hrest := λ H H', IH _ _ _ H H' Er). clear Er. cbn [language] in *.
    assert (max = SIZE_MAX) as -> by lia. setoid_rewrite times_loop; [|lia].
    setoid_rewrite Hrest; [|lia|lia]. setoid_rewrite times_zero; [|lia]. clear. split; [intros (k & ? & ? & -> & ?)|intros (k & ? & ?)]; eauto.
Qed.

Lemma re_repetition_parsed fuel templ min max after r :
  is_item templ → parse_tree templ → parse_tree after → re_repetition fuel templ min max after = Ret r → parse_tree r.
Proof.
  intros Ht Hp Ha. revert min max r. induction fuel as [|fuel IH]; intros min max r; [done|].
  cbn [re_repetition]. case_if; [by intros [= <-]|].
  destruct (re_copy templ) as [copy| |] eqn:Ec; cbn [mbind outcome_bind]; try done.
  apply re_copy_copies in Ec as ->; [|done].
  b2p_if; match goal with |- context [re_repetition fuel ?a ?b ?c ?d] =>
      destruct (re_repetition fuel a b c d) as [rest| |] eqn:Er end;
    cbn [mbind outcome_bind]; try done; intros [= <-]; apply IH in Er; cbn [parse_tree]; auto using parsed_append.
Qed.

(** ** The expansion of repetitions *)

Definition same_language (r r' : re) : Prop := ∀ i j, language r i j ↔ language r' i j.

#[global] Instance same_language_equiv : Equivalence same_language.
Proof.
  unfold same_language. split; [by intros r i j|intros r r' H i j; by rewrite H|].
  intros r1 r2 r3 H1 H2 i j. by rewrite H1, H2.
Qed.

Lemma nsteps_iff (R R' : relation nat) n i j :
  (∀ i j, R i j ↔ R' i j) → nsteps R n i j ↔ nsteps R' n i j.
Proof.
  intros H. split; (induction 1; [constructor|]; econstructor; [by apply H|done]).
Qed.

Lemma rtc_iff (R R' : relation nat) i j : (∀ i j, R i j ↔ R' i j) → rtc R i j ↔ rtc R' i j.
Proof. intros H. rewrite !rtc_nsteps. by setoid_rewrite (nsteps_iff R R' _ i j H). Qed.

#[global] Instance Re_proper t : Proper (same_language ==> same_language ==> same_language) (Re t).
Proof.
  intros o o' Ho n n' Hn i j. unfold same_language in *. destruct t; cbn [language].
  all: try (setoid_rewrite Hn; try setoid_rewrite Ho; done).
  - setoid_rewrite Hn. by setoid_rewrite (rtc_iff _ _ _ _ Ho).
  - unfold times_between. setoid_rewrite Hn. by setoid_rewrite (nsteps_iff _ _ _ _ _ Ho).
Qed.

Lemma re_size_zero r : re_size r = 0%nat → r = RE_NULL.
Proof. by destruct r. Qed.

Definition is_repetition (t : re_type) : bool :=
  match t with RE_TYPE_REPETITION _ _ => true | _ => false end.

Lemma re_transform_chain_node fuel t owner next :
  is_repetition t = false →
  re_transform_chain (S fuel) (Re t owner next) =
    ('(owner, n1, stop1) ← re_transform_chain fuel owner;
     if stop1 : bool then Ret (Re t owner next, S n1, true)
     else '(next, n2, stop2) ← re_transform_chain fuel next; Ret (Re t owner next, S (n1 + n2), stop2)).
Proof. by destruct t. Qed.

Lemma parsed_owner t owner next : parse_tree (Re t owner next) → parse_tree owner ∧ parse_tree next.
Proof. intros [Ho Hn]. split; [|done]. destruct t; by subst || apply Ho. Qed.

(** Where [re_transform_chain] does not start at a repetition. *)
Definition keeps_head (r r' : re) (stop : bool) : Prop :=
  match r with
  | RE_NULL => r' = RE_NULL ∧ stop = false
  | Re t _ _ => is_repetition t = false → r' ≠ RE_NULL
  end.

Lemma plain_node t owner next owner' next' stop :
  is_repetition t = false → parse_tree (Re t owner next) → keeps_head owner owner' stop →
  plain owner' → plain next' → plain (Re t owner' next').
Proof.
  intros Ht [Ho Hn] Hk Hpo Hpn. cbn [plain]. split; [|done].
  assert (is_item owner → owner' ≠ RE_NULL).
  { intros Hi. revert Hk. destruct Hi as [t' Ht'|ix o]; cbn; intros Hk; apply Hk; [by destruct t'|done]. }
  destruct t; try done; try (split; [|done]); try (subst owner; by apply Hk); destruct Ho; auto.
Qed.

(** What [re_transform_chain] returns has the language of its argument; if all
    nodes were counted, no repetition is left. *)
Lemma re_transform_chain_correct fuel r r' n stop :
  parse_tree r → re_transform_chain fuel r = Ret (r', n, stop) →
  same_language r' r ∧ (n <= re_size r')%nat ∧ (n = re_size r' → plain r') ∧
  (stop = false → n = re_size r') ∧ keeps_head r r' stop.
Proof.
  revert r r' n stop. induction fuel as [|fuel IH]; intros r r' n stop Hp; [done|].
  destruct r as [|t owner next]; [by intros [= <- <- <-]|].
  destruct (is_repetition t) eqn:Et.
  - destruct t; try done. cbn [re_transform_chain]. destruct Hp as [(Hi & Ho & Hm & Hmax) Hn].
    destruct (re_repetition _ owner min max next) as [repl| |] eqn:Er; try done. cbn [mbind outcome_bind].
    pose proof (re_repetition_language _ _ _ _ _ _ Hi Hm Hmax Er) as Hl.
    pose proof (re_repetition_parsed _ _ _ _ _ _ Hi Ho Hn Er) as Hpr.
    destruct repl as [|t' o' n']; [by intros [= <- <- <-]|]. intros Hc.
    destruct (IH _ _ _ _ Hpr Hc) as (Hs & Hle & Hpl & Hst & _). by split_and!; [etrans|..].
  - rewrite re_transform_chain_node by done. destruct (parsed_owner _ _ _ Hp) as [Ho Hn].
    destruct (re_transform_chain fuel owner) as [[[owner' n1] stop1]| |] eqn:Eo; try done. cbn [mbind outcome_bind].
    destruct (IH _ _ _ _ Ho Eo) as (Hs1 & Hle1 & Hpl1 & Hst1 & Hk1).
    assert (Hsize : ∀ next', re_size (Re t owner' next') = S (re_size owner' + re_size next')).
    { intros next'. cbn [re_size]. destruct Hp as [Hown _].
      destruct t; cbn [is_nesting]; try lia; try done; subst owner; destruct Hk1 as [-> _]; cbn; lia. }
    destruct stop1.
    + intros [= <- <- <-]. rewrite Hsize. split_and!; [by rewrite Hs1|lia| |done|done].
      intros Heq. assert (Hz : next = RE_NULL) by (apply re_size_zero; lia). subst next.
      eapply plain_node; [done|done|done|apply Hpl1; cbn in *; lia|done].
    + destruct (re_transform_chain fuel next) as [[[next' n2] stop2]| |] eqn:En; try done.
      cbn [mbind outcome_bind]. destruct (IH _ _ _ _ Hn En) as (Hs2 & Hle2 & Hpl2 & Hst2 & _).
      intros [= <- <- <-]. rewrite Hsize. split_and!; [by rewrite Hs1, Hs2|lia| | |done].
      * intros Heq. eapply plain_node; [done|done|done|apply Hpl1; lia|apply Hpl2; lia].
      * intros ->. rewrite Hst1, Hst2 by done. done.
Qed.

End Language.

(** ** Where compiling is defined *)

(** Nothing [re_duplicate] does not know. *)
Fixpoint duplicable (r : re) : bool :=
  match r with
  | RE_NULL => true
  | Re t owner next => re_duplicates t && duplicable owner && duplicable next
  end.

(** Every repetition can be copied, and happens. *)
Fixpoint expandable (r : re) : Prop :=
  match r with
  | RE_NULL => True
  | Re t owner next =>
      match t with RE_TYPE_REPETITION _ max => 0 < max ∧ duplicable owner = true | _ => True end ∧
      expandable owner ∧ expandable next
  end.

Lemma expandable_append a b : expandable a → expandable b → expandable (re_append a b).
Proof. induction a as [|t owner _ next IH]; cbn; [done|]. intros (Ht & Ho & Hn) Hb. auto. Qed.

Lemma re_weight_append a b : (re_weight (re_append a b) + 1 = re_weight a + re_weight b)%nat.
Proof. induction a as [|t owner _ next IH]; cbn [re_append re_weight]; [lia|]. destruct t; lia. Qed.

Lemma re_duplicate_defined r : duplicable r = true → re_duplicate r = Ret r.
Proof.
  induction r as [|t owner IHo next IHn]; [done|]. cbn [duplicable re_duplicate].
  intros [[Ht Ho]%andb_true_iff Hn]%andb_true_iff. by rewrite Ht, IHo, IHn.
Qed.

Lemma re_copy_defined r : is_item r → duplicable r = true → re_copy r = Ret r.
Proof.
  intros [t Ht|index owner] Hd; [by destruct t|].
  cbn in Hd. rewrite andb_true_r in Hd. cbn. by rewrite re_duplicate_defined.
Qed.

Lemma re_repetition_defined fuel templ min max after :
  is_item templ → duplicable templ = true → expandable templ → expandable after →
  0 <= min <= max → max <= SIZE_MAX → (copies min max < fuel)%nat →
  ∃ r, re_repetition fuel templ min max after = Ret r ∧ expandable r ∧
    (re_weight r <= copies min max * (2 + re_weight templ) + re_weight after)%nat ∧
    (0 < max → r ≠ RE_NULL).
Proof.
  intros Hi Hd He Ha. revert min max. induction fuel as [|fuel IH]; intros min max Hm Hmax Hf; [lia|].
  assert (Hne : templ ≠ RE_NULL) by (by destruct Hi).
  cbn [re_repetition]. destruct (Z.eqb_spec max 0) as [->|H0].
  { exists after. split_and!; [done|done|lia|lia]. }
  rewrite (re_copy_defined _ Hi Hd). cbn [mbind outcome_bind].
  destruct (1 <=? min) eqn:E1; [|destruct (max <? SIZE_MAX) eqn:E2]; b2p.
  - assert (Hc : copies min max = S (copies (min - 1) (if negb (max =? SIZE_MAX) then max - 1 else max))).
    { unfold copies. destruct (Z.eqb_spec max SIZE_MAX) as [->|?]; cbn [negb];
        [rewrite Z.eqb_refl|rewrite (proj2 (Z.eqb_neq (max - 1) _)) by lia]; lia. }
    destruct (IH (min - 1) (if negb (max =? SIZE_MAX) then max - 1 else max)) as (r & Hr & Her & Hw & _);
      [destruct (Z.eqb_spec max SIZE_MAX); cbn; lia..|lia|].
    exists (re_append templ r). rewrite Hr. split_and!; [done|by apply expandable_append| |by destruct templ].
    pose proof (re_weight_append templ r). rewrite Hc. lia.
  - assert (Hc : copies min max = S (copies min (max - 1))).
    { unfold copies. rewrite !(proj2 (Z.eqb_neq _ SIZE_MAX)) by lia. lia. }
    destruct (IH min (max - 1)) as (r & Hr & Her & Hw & _); [lia..|].
    exists (Re RE_TYPE_OPTIONAL templ r). rewrite Hr. cbn [expandable re_weight]. split_and!; try done. lia.
  - assert (max = SIZE_MAX) as -> by lia. assert (min = 0) as -> by lia.
    assert (Hc : copies 0 SIZE_MAX = 1%nat) by done.
    destruct (IH 0 0) as (r & Hr & Her & Hw & _); [lia|done|change (copies 0 0) with 0%nat; lia|].
    exists (Re RE_TYPE_LOOP templ r). rewrite Hr. cbn [expandable re_weight]. split_and!; try done.
    change (copies 0 0) with 0%nat in Hw. lia.
Qed.

Lemma re_transform_chain_defined fuel r :
  parse_tree r → expandable r → (re_weight r <= fuel)%nat →
  ∃ r' n, re_transform_chain fuel r = Ret (r', n, false) ∧ (r ≠ RE_NULL → r' ≠ RE_NULL).
Proof.
  revert r. induction fuel as [|fuel IH]; intros r Hp He Hw.
  { destruct r as [|[] ? ?]; cbn in Hw; lia. }
  destruct r as [|t owner next]; [by eexists _, _|].
  destruct (is_repetition t) eqn:Et.
  - destruct t; try done. destruct Hp as [(Hi & Ho & Hm & Hmax) Hn]. destruct He as ((Hpos & Hd) & Heo & Hen).
    cbn [re_transform_chain]. cbn [re_weight] in Hw.
    destruct (re_repetition_defined (S (copies min max)) owner min max next) as (r & Hr & Her & Hwr & Hne);
      [done..|lia|].
    rewrite Hr. cbn [mbind outcome_bind]. specialize (Hne Hpos).
    pose proof (re_repetition_parsed _ _ _ _ _ _ Hi Ho Hn Hr).
    destruct r as [|t' o' n']; [done|]. destruct (IH (Re t' o' n')) as (r' & n & Hr' & Hnn); [done|done|lia|].
    exists r', n. split; [done|]. intros _. by apply Hnn.
  - rewrite re_transform_chain_node by done. destruct (parsed_owner _ _ _ Hp) as [Ho Hn].
    destruct He as (_ & Heo & Hen). assert (Hw' : (S (re_weight owner + re_weight next) <= S fuel)%nat).
    { destruct t; try done; cbn in Hw; lia. }
    destruct (IH owner) as (o' & n1 & -> & _); [done|done|lia|]. cbn [mbind outcome_bind].
    destruct (IH next) as (n' & n2 & -> & _); [done|done|lia|]. by eexists _, _.
Qed.

(** Without these conditions the passes still end. *)
Lemma re_copy_ends r : re_copy r ≠ OutOfFuel.
Proof.
  assert (Hdup : ∀ r, re_duplicate r ≠ OutOfFuel).
  { induction r0 as [|t owner IHo next IHn]; [done|]. cbn [re_duplicate]. destruct (re_duplicates t); [|done].
    destruct (re_duplicate owner); cbn [mbind outcome_bind]; try done. by destruct (re_duplicate next). }
  destruct r as [|[] owner [|[] ? ?]]; try done; cbn [re_copy];
    specialize (Hdup owner); by destruct (re_duplicate owner).
Qed.

Lemma re_repetition_ends fuel templ min max after :
  is_item templ → 0 <= min <= max → max <= SIZE_MAX → (copies min max < fuel)%nat →
  match re_repetition fuel templ min max after with
  | Ret r => (re_weight r <= copies min max * (2 + re_weight templ) + re_weight after)%nat
  | Undef => True
  | OutOfFuel => False
  end.
Proof.
  intros Hi. revert min max. induction fuel as [|fuel IH]; intros min max Hm Hmax Hf; [lia|].
  cbn [re_repetition]. destruct (Z.eqb_spec max 0) as [->|H0]; [lia|].
  destruct (re_copy templ) as [copy| |] eqn:Ec; cbn [mbind outcome_bind]; [|done|by apply re_copy_ends in Ec].
  apply re_copy_copies in Ec as ->; [|done].
  assert (Hgo : ∀ min' max' (f : re → re), 0 <= min' <= max' → max' <= SIZE_MAX →
    (S (copies min' max') <= copies min max)%nat → (∀ r, re_weight (f r) <= 1 + re_weight templ + re_weight r)%nat →
    match (rest ← re_repetition fuel templ min' max' after; Ret (f rest)) with
    | Ret r => (re_weight r <= copies min max * (2 + re_weight templ) + re_weight after)%nat
    | Undef => True
    | OutOfFuel => False
    end).
  { intros min' max' f Hm' Hmax' Hc Hw. specialize (IH min' max' Hm' Hmax' ltac:(lia)).
    destruct (re_repetition fuel templ min' max' after) as [rest| |]; cbn [mbind outcome_bind]; [|done..].
    specialize (Hw rest). nia. }
  destruct (1 <=? min) eqn:E1; [|destruct (max <? SIZE_MAX) eqn:E2]; b2p; apply Hgo; try lia.
  - destruct (Z.eqb_spec max SIZE_MAX); cbn; lia.
  - destruct (Z.eqb_spec max SIZE_MAX); cbn; lia.
  - unfold copies. destruct (Z.eqb_spec max SIZE_MAX) as [->|?]; cbn [negb];
      [rewrite Z.eqb_refl|rewrite (proj2 (Z.eqb_neq (max - 1) _)) by lia]; lia.
  - intros r. pose proof (re_weight_append templ r). lia.
  - unfold copies. rewrite !(proj2 (Z.eqb_neq _ SIZE_MAX)) by lia. lia.
  - intros r. cbn [re_weight]. lia.
  - change (copies min 0) with 0%nat. unfold copies. rewrite (proj2 (Z.eqb_eq max SIZE_MAX)) by lia. lia.
  - intros r. cbn [re_weight]. lia.
Qed.

Lemma re_transform_chain_ends fuel r :
  parse_tree r → (re_weight r <= fuel)%nat → re_transform_chain fuel r ≠ OutOfFuel.
Proof.
  revert r. induction fuel as [|fuel IH]; intros r Hp Hw.
  { destruct r as [|[] ? ?]; cbn in Hw; lia. }
  destruct r as [|t owner next]; [done|]. destruct (is_repetition t) eqn:Et.
  - destruct t; try done. destruct Hp as [(Hi & Ho & Hm & Hmax) Hn]. cbn [re_transform_chain]. cbn [re_weight] in Hw.
    pose proof (re_repetition_ends (S (copies min max)) owner min max next Hi Hm Hmax ltac:(lia)) as Hrep.
    destruct (re_repetition (S (copies min max)) owner min max next) as [r| |] eqn:Er; [|done..].
    cbn [mbind outcome_bind]. pose proof (re_repetition_parsed _ _ _ _ _ _ Hi Ho Hn Er).
    destruct r as [|t' o' n']; [done|]. apply IH; [done|lia].
  - rewrite re_transform_chain_node by done. destruct (parsed_owner _ _ _ Hp) as [Ho Hn].
    assert (Hw' : (S (re_weight owner + re_weight next) <= S fuel)%nat).
    { destruct t; try done; cbn in Hw; lia. }
    pose proof (IH owner Ho ltac:(lia)). destruct (re_transform_chain fuel owner) as [[[o' n1] stop1]| |];
      cbn [mbind outcome_bind]; [|done..]. destruct stop1; [done|].
    pose proof (IH next Hn ltac:(lia)). by destruct (re_transform_chain fuel next) as [[[n' n2] stop2]| |].
Qed.

Lemma control_flow_ends r link n : re_control_flow r link n ≠ OutOfFuel.
Proof.
  revert link n. induction r as [|t owner IHo next IHn]; intros link n; [done|]. cbn [re_control_flow].
  assert (Hrest : ∀ k (f : list re_node → list re_node),
    (rest ← re_control_flow next link k; Ret (f rest)) ≠ OutOfFuel).
  { intros k f. specialize (IHn link k). by destruct (re_control_flow next link k). }
  assert (Hboth : ∀ lk k k' (f : list re_node → list re_node → list re_node),
    (inner ← re_control_flow owner lk k; rest ← re_control_flow next link k'; Ret (f inner rest)) ≠ OutOfFuel).
  { intros lk k k' f. specialize (IHo lk k). destruct (re_control_flow owner lk k) as [inner| |]; [|done..].
    apply (Hrest k' (f inner)). }
  destruct t; try apply (Hrest _ (λ rest, _ :: rest)); try apply (Hboth _ _ _ (λ inner rest, _ :: inner ++ rest));
    (destruct owner; [done|apply (Hboth _ _ _ (λ inner rest, _ :: inner ++ rest))]).
Qed.

Lemma control_flow_defined r link n : plain r → ∃ l, re_control_flow r link n = Ret l.
Proof.
  revert link n. induction r as [|t owner IHo next IHn]; intros link n; [by eexists|].
  intros [Ho Hn]. cbn [re_control_flow].
  destruct (IHn link (S (n + if is_nesting t then re_size owner else 0)%nat) Hn) as [rest Hr].
  destruct t; rewrite Hr; try (by eexists); try done.
  all: try (destruct Ho as [Hne Ho]; destruct owner as [|t' o' n']; [done|]).
  all: match goal with |- context [re_control_flow ?o ?lk (S ?k)] => destruct (IHo lk (S k) Ho) as [inner ->] end.
  all: by eexists.
Qed.

End RegexSpec.
