(* ===== verification/RegexMatch.v ===== *)
(** * Regular expressions: the matcher against the automaton

    [regexec] simulates the automaton the nodes form.  For every well-formed
    program it returns, leaves the nodes ready for the next call, and reports a
    match only if the automaton accepts a part of the string.  It finds a match
    whenever there is one for programs in which two states that consume the same
    character lead to different states, or to one that no other move enters:
    without that a state can be linked twice and the states after it get lost. *)

From S2P Require Import Prelude Strtol Regcomp Regexec RegexSpec.
From stdpp Require Import base decidable list numbers relations.
From Stdlib Require Import ZArith Lia.

#[local] Open Scope Z_scope.

Module RegexMatch.
Import Regex Regexec RegexSpec.

(** ** Well-formed programs *)

(** The links of a node that are followed without consuming a character. *)
Definition eps_links (node : re_node) : list (option nat) :=
  match node_type node with
  | RE_TYPE_BOL | RE_TYPE_EOL | RE_TYPE_SUBEXPRESSION _ | RE_TYPE_SUBEXPRESSION_END _ => [re_next node]
  | RE_TYPE_ALTERNATIVE | RE_TYPE_OPTIONAL | RE_TYPE_LOOP => [re_split_re node; re_next node]
  | _ => []
  end.

(** Links stay in the program, no node leads to itself without consuming a
    character, and there is room for the matches. *)
Record well_formed (rx : regex) : Prop := {
  wf_nonempty : re_nodes rx ≠ [];
  wf_links n node m :
    re_nodes rx !! n = Some node → re_next node = Some m ∨ re_split_re node = Some m →
    (m < length (re_nodes rx))%nat;
  wf_no_self n node :
    re_nodes rx !! n = Some node → Some n ∉ eps_links node;
  wf_index n node :
    re_nodes rx !! n = Some node → (node_index (node_type node) < matches_per_state rx)%nat }.

(** ** Separated programs *)

Definition eps_entered (nodes : list re_node) (n : nat) : bool :=
  existsb (λ node, bool_decide (Some n ∈ eps_links node)) nodes.

(** Both nodes consume the same character and lead to [n]. *)
Definition collide (p q : re_node) : bool :=
  bool_decide (re_next p = re_next q) &&
  existsb (λ c, consumes (node_type p) c && consumes (node_type q) c) (seqZ 0 256).

Definition separated (nodes : list re_node) : bool :=
  forallb (λ p, forallb (λ q,
    match nodes !! p, nodes !! q with
    | Some np, Some nq =>
        match re_next np with
        | Some n => (p =? q)%nat || negb (eps_entered nodes n && collide np nq)
        | None => true
        end
    | _, _ => true
    end) (seq 0 (length nodes))) (seq 0 (length nodes)).

Lemma separated_spec nodes p q np nq n c :
  separated nodes = true → nodes !! p = Some np → nodes !! q = Some nq →
  re_next np = Some n → re_next nq = Some n → eps_entered nodes n = true →
  0 <= c < 256 → consumes (node_type np) c = true → consumes (node_type nq) c = true → p = q.
Proof.
  intros Hs Hp Hq Hnp Hnq He Hc Hcp Hcq. unfold separated in Hs.
  rewrite forallb_forall in Hs. specialize (Hs p). rewrite forallb_forall in Hs.
  pose proof (lookup_lt_Some _ _ _ Hp). pose proof (lookup_lt_Some _ _ _ Hq).
  specialize (Hs ltac:(apply in_seq; lia) q ltac:(apply in_seq; lia)). cbv beta in Hs.
  rewrite Hp, Hq, Hnp, He in Hs. cbn [andb] in Hs.
  apply orb_true_iff in Hs as [Hs|Hs]; [by apply Nat.eqb_eq|].
  exfalso. apply negb_true_iff in Hs. unfold collide in Hs.
  rewrite bool_decide_true in Hs by congruence. cbn [andb] in Hs.
  assert (Hex : existsb (λ c, consumes (node_type np) c && consumes (node_type nq) c) (seqZ 0 256) = true).
  { apply existsb_exists. exists c. split; [apply list_elem_of_In, elem_of_seqZ; lia|by rewrite Hcp, Hcq]. }
  congruence.
Qed.

(** ** Flags and lists *)

Lemma upd_same {A} (f : nat → A) n v : upd f n v n = v.
Proof. unfold upd. by rewrite Nat.eqb_refl. Qed.

Lemma upd_other {A} (f : nat → A) n m v : m ≠ n → upd f n v m = f m.
Proof. intros H. unfold upd. by rewrite (proj2 (Nat.eqb_neq m n)). Qed.

Lemma fold_upd (f : nat → bool) l v n :
  fold_left (λ f n, upd f n v) l f n = if bool_decide (n ∈ l) then v else f n.
Proof.
  revert f. induction l as [|m l IH]; intros f; cbn [fold_left]; [done|].
  rewrite IH. destruct (decide (n ∈ l)) as [Hin|Hin].
  - rewrite !bool_decide_true; [done|by apply elem_of_cons; right|done].
  - rewrite (bool_decide_false (n ∈ l)) by done. destruct (decide (n = m)) as [->|Hne].
    + rewrite upd_same, bool_decide_true; [done|apply elem_of_cons; by left].
    + rewrite upd_other, bool_decide_false; [done|by rewrite not_elem_of_cons|done].
Qed.

Lemma clear_spec f l n : clear f l n = if bool_decide (n ∈ l) then false else f n.
Proof. apply fold_upd. Qed.

(** The list that begins at [head] is [U]. *)
Fixpoint linked (next : nat → option nat) (head : option nat) (U : list nat) : Prop :=
  match U with
  | [] => head = None
  | n :: U' => head = Some n ∧ linked next (next n) U'
  end.

Lemma linked_walk next head U fuel :
  linked next head U → (length U <= fuel)%nat → walk fuel next head = Ret U.
Proof.
  revert head fuel. induction U as [|n U IH]; intros head fuel; cbn [linked length].
  - intros ->. by destruct fuel.
  - intros [-> Hl] Hf. destruct fuel as [|fuel]; [lia|]. cbn [walk]. by rewrite (IH _ fuel Hl) by lia.
Qed.

Lemma linked_ext next next' head U :
  (∀ n, n ∈ U → next' n = next n) → linked next head U → linked next' head U.
Proof.
  revert head. induction U as [|n U IH]; intros head H; cbn [linked]; [done|].
  intros [-> Hl]. split; [done|]. rewrite H by (apply elem_of_cons; by left).
  apply IH; [|done]. intros m Hm. apply H, elem_of_cons. by right.
Qed.

(** The links after [n] was linked behind the last state. *)
Definition relink (next : nat → option nat) (last : option nat) (n : nat) : nat → option nat :=
  upd (match last with Some l => upd next l (Some n) | None => next end) n None.

Lemma linked_snoc next head U n :
  linked next head U → NoDup U → n ∉ U →
  linked (relink next (last U) n) (match head with None => Some n | Some _ => head end) (U ++ [n]).
Proof.
  revert head. induction U as [|m U IH]; intros head; cbn [linked app].
  - intros -> _ _. split; [done|]. apply upd_same.
  - intros [-> Hl] [Hm Hnd]%NoDup_cons [Hne Hn]%not_elem_of_cons. split; [done|].
    destruct U as [|m' U].
    + cbn [linked app last]. unfold relink. rewrite (upd_other _ _ m) by done. rewrite upd_same.
      split; [done|]. apply upd_same.
    + cbn [linked] in Hl. destruct Hl as [Hm' Hl]. specialize (IH (Some m')). 
      rewrite last_cons. destruct (last (m' :: U)) as [la|] eqn:Ela; [|by rewrite last_cons in Ela; destruct (last U)].
      assert (la ≠ m) by (intros ->; apply Hm; apply last_Some in Ela as [l' ->]; apply elem_of_app; right; apply list_elem_of_here).
      replace (relink next (Some la) n m) with (Some m').
      * apply IH; [|done|done]. by split.
      * unfold relink. by rewrite !upd_other by done.
Qed.

(** Linking a state that is on the list cuts the list off after it. *)
Lemma linked_cut next head a n b :
  linked next head (a ++ n :: b) → NoDup (a ++ n :: b) →
  linked (relink next (last (a ++ n :: b)) n) head (a ++ [n]).
Proof.
  intros Hl Hnd. assert (Hsame : ∀ m, m ∈ a → relink next (last (a ++ n :: b)) n m = next m).
  { intros m Hm. apply NoDup_app in Hnd as (_ & Hab & _). specialize (Hab m Hm).
    apply not_elem_of_cons in Hab as [Hmn Hmb]. unfold relink. rewrite upd_other by done.
    rewrite last_app_cons. destruct (last (n :: b)) as [la|] eqn:Ela; [|done].
    apply upd_other. intros <-. apply last_Some in Ela as [l' Hl']. destruct l' as [|x l']; [naive_solver|].
    injection Hl' as _ ->. apply Hmb, elem_of_app. right. apply list_elem_of_here. }
  assert (Hn : relink next (last (a ++ n :: b)) n n = None) by apply upd_same.
  revert Hsame Hn. generalize (relink next (last (a ++ n :: b)) n). intros next' Hsame Hn. clear Hnd.
  revert head Hl. induction a as [|m a IH]; intros head; cbn [linked app].
  - intros [-> _]. by rewrite Hn.
  - intros [-> Hl]. split; [done|]. rewrite Hsame by apply list_elem_of_here.
    apply IH; [|done]. intros k Hk. apply Hsame, elem_of_cons. by right.
Qed.

(** Both at once: what [QUEUE_UPCOMING_STATE] does to the list. *)
Lemma linked_queue next head U n :
  linked next head U → NoDup U →
  ∃ U', linked (relink next (last U) n) (match head with None => Some n | Some _ => head end) U' ∧
    last U' = Some n ∧ NoDup U' ∧ (∀ m, m ∈ U' → m ∈ U ∨ m = n) ∧ (n ∉ U → U' = U ++ [n]).
Proof.
  intros Hl Hnd. destruct (decide (n ∈ U)) as [Hin|Hin].
  - apply list_elem_of_split in Hin as (a & b & ->). exists (a ++ [n]). split_and!.
    + pose proof (linked_cut _ _ _ _ _ Hl Hnd) as Hc. destruct head; [done|]. by destruct a; destruct Hc.
    + by rewrite last_snoc.
    + apply NoDup_app in Hnd as (? & Hab & ?). apply NoDup_app. split_and!; [done| |apply NoDup_singleton].
      intros m Hm ->%list_elem_of_singleton. apply (Hab _ Hm), list_elem_of_here.
    + intros m [Hm| ->%list_elem_of_singleton]%elem_of_app; [left; apply elem_of_app; by left|by right].
    + intros []. apply elem_of_app. right. apply list_elem_of_here.
  - exists (U ++ [n]). split_and!; [by apply linked_snoc|by rewrite last_snoc| | |done].
    + apply NoDup_app. split_and!; [done| |apply NoDup_singleton]. by intros m Hm ->%list_elem_of_singleton.
    + intros m [Hm| ->%list_elem_of_singleton]%elem_of_app; auto.
Qed.

(** ** The invariant *)

Section Exec.
Context (rx : regex) (nmatch : nat) (eflags : Z) (Hwf : well_formed rx).
Context (tx : text).

(** What the lists may hold, closed under the moves of the automaton. *)
Context (good : option nat * nat → Prop).
Context (good_move : ∀ x y, good x → move tx (re_nodes rx) x y → good y).

(** Nothing gets lost; this needs a separated program. *)
Context (full : Prop) (full_separated : full → separated (re_nodes rx) = true).

#[local] Abbreviation nodes := (re_nodes rx).

(** A state that was linked because [p] consumed [c]. *)
Definition entered_by (c : Z) (p n : nat) : Prop :=
  ∃ node, nodes !! p = Some node ∧ consumes (node_type node) c = true ∧ re_next node = Some n.

(** At position [i] with character [c], [act] being the state in work, if any,
    and [U] the upcoming states. *)
Record inv (i : nat) (c : Z) (act U : list nat) (l : lists) : Prop := {
  inv_nodup : NoDup (finished l ++ act ++ waiting l);
  inv_good n : n ∈ finished l ++ act ++ waiting l → (n < length nodes)%nat ∧ good (Some n, i);
  inv_current n : is_current (mem l) n = true ↔ n ∈ finished l ++ act ++ waiting l;
  inv_done n : n ∈ finished l → is_currently_done (mem l) n = true;
  inv_undone n : n ∈ act ++ waiting l → is_currently_done (mem l) n = false;
  inv_linked : linked (upcoming_state_next (mem l)) (upcoming_states l) U;
  inv_last : upcoming_states_last l = last U;
  inv_up_nodup : NoDup U;
  inv_entered n : n ∈ U → ∃ p, p ∈ finished l ++ act ∧ entered_by c p n;
  inv_flags : full → ∀ n, is_upcoming (mem l) n = true → n ∈ U;
  inv_cleared : full → ∀ n, n ∈ U → is_upcoming (mem l) n = false → eps_entered nodes n = true }.

(** The invariant does not look at the matches. *)
Lemma inv_matches i c act U l l' :
  finished l' = finished l → waiting l' = waiting l → upcoming_states l' = upcoming_states l →
  upcoming_states_last l' = upcoming_states_last l →
  is_currently_done (mem l') = is_currently_done (mem l) → is_current (mem l') = is_current (mem l) →
  is_upcoming (mem l') = is_upcoming (mem l) → upcoming_state_next (mem l') = upcoming_state_next (mem l) →
  inv i c act U l → inv i c act U l'.
Proof. intros E1 E2 E3 E4 E5 E6 E7 E8 []. constructor; rewrite ?E1, ?E2, ?E3, ?E4, ?E5, ?E6, ?E7, ?E8; done. Qed.

Lemma set_match_run state index f l :
  (index < matches_per_state rx)%nat →
  ∃ l', set_match rx state index f l = Ret l' ∧ finished l' = finished l ∧ waiting l' = waiting l ∧
    ∀ i c act U, inv i c act U l → inv i c act U l'.
Proof.
  intros Hix. unfold set_match. rewrite (proj2 (Nat.ltb_lt _ _)) by done.
  eexists. split_and!; [done..|]. intros i c act U. by apply inv_matches.
Qed.

(** Dropping the states that wait. *)
Lemma drop_waiting_inv i c act U l : inv i c act U l → inv i c act U (drop_waiting l).
Proof.
  intros []. constructor; cbn; rewrite ?app_nil_r; try done.
  - by rewrite app_assoc in inv_nodup0; apply NoDup_app in inv_nodup0 as (? & _ & _).
  - intros n Hn. apply inv_good0. rewrite app_assoc. apply elem_of_app. by left.
  - intros n. rewrite clear_spec. case_bool_decide as Hw.
    + split; [done|]. rewrite app_assoc in inv_nodup0. apply NoDup_app in inv_nodup0 as (_ & Hd & _).
      intros Hn. by destruct (Hd _ Hn).
    + rewrite inv_current0, !elem_of_app. tauto.
  - intros n Hn. apply inv_undone0, elem_of_app. by left.
Qed.

(** A state put at the head of those that wait. *)
Definition requeue (state n : nat) (others : list nat) (l : lists) : lists :=
  let m := mem l in
  Lists (Store (upd (is_currently_done m) n false) (upd (is_current m) n true)
               (upd (is_upcoming m) n false) (upcoming_state_next m)
               (copy_matches nmatch (matches m) state n))
        (finished l) (n :: others) (upcoming_states l) (upcoming_states_last l).

Lemma requeue_inv i c s U l n others :
  inv i c [s] U l → (n < length nodes)%nat → good (Some n, i) → eps_entered nodes n = true →
  n ∉ finished l → NoDup (n :: others) →
  (∀ m, m ∈ others → m ∈ waiting l) → (∀ m, m ∈ waiting l → m ∈ n :: others) → n ≠ s →
  inv i c [s] U (requeue s n others l).
Proof.
  intros [] Hn Hg He Hnf Hnd Hsub Hsup Hns.
  assert (Hin : ∀ m, m ∈ finished l ++ [s] ++ n :: others ↔ m = n ∨ m ∈ finished l ++ [s] ++ waiting l).
  { intros m. rewrite !elem_of_app, !elem_of_cons. specialize (Hsub m). specialize (Hsup m).
    rewrite elem_of_cons in Hsup. tauto. }
  constructor; cbn [requeue mem finished waiting upcoming_states upcoming_states_last is_currently_done
                    is_current is_upcoming upcoming_state_next]; try done.
  - apply NoDup_app in inv_nodup0 as (Hf & Hd & Hw). apply NoDup_app. split_and!; [done| |].
    + intros m Hm. specialize (Hd m Hm). rewrite !elem_of_app, !elem_of_cons in *.
      specialize (Hsub m). assert (m ≠ n) by (by intros ->). tauto.
    + apply NoDup_app in Hw as (? & Hd' & _). apply NoDup_app. split_and!; [done| |done].
      intros m Hm. specialize (Hd' m Hm). apply list_elem_of_singleton in Hm as ->.
      intros [->|Ho]%elem_of_cons; [done|]. by apply Hd', Hsub.
  - intros m [->|Hm]%Hin; [done|]. by apply inv_good0.
  - intros m. rewrite Hin. destruct (decide (m = n)) as [->|Hne]; [rewrite upd_same; tauto|].
    rewrite upd_other, inv_current0 by done. tauto.
  - intros m Hm. rewrite upd_other by (by intros ->). by apply inv_done0.
  - intros m Hm. destruct (decide (m = n)) as [->|Hne]; [by rewrite upd_same|].
    rewrite upd_other by done. apply inv_undone0. rewrite !elem_of_app, !elem_of_cons in *.
    specialize (Hsub m). tauto.
  - intros Hfull m. destruct (decide (m = n)) as [->|Hne]; [by rewrite upd_same|].
    rewrite upd_other by done. by apply inv_flags0.
  - intros Hfull m. destruct (decide (m = n)) as [->|Hne]; [done|].
    rewrite upd_other by done. by apply inv_cleared0.
Qed.

(** [QUEUE_CURRENT_STATE]. *)
Lemma queue_current_run i c s U l t :
  inv i c [s] U l →
  (∀ n, t = Some n → (n < length nodes)%nat ∧ n ≠ s ∧ good (Some n, i) ∧ eps_entered nodes n = true) →
  ∃ l', QUEUE_CURRENT_STATE nmatch s t l = Ret (l', bool_decide (t = None)) ∧ inv i c [s] U l' ∧
    finished l' = finished l ∧
    ∀ n, t = Some n → n ∈ finished l' ++ waiting l' ∧ ∀ m, m ∈ waiting l → m ∈ waiting l'.
Proof.
  intros Hi Ht. destruct t as [n|]; cbn [QUEUE_CURRENT_STATE].
  2: { exists (drop_waiting l). split_and!; [done|by apply drop_waiting_inv|done|done]. }
  destruct (Ht n eq_refl) as (Hn & Hns & Hg & He). clear Ht.
  pose proof (inv_current _ _ _ _ _ Hi n) as Hcur. pose proof (inv_nodup _ _ _ _ _ Hi) as Hnd.
  apply NoDup_app in Hnd as (_ & _ & (_ & _ & Hnd)%NoDup_app).
  destruct (is_current (mem l) n) eqn:Ec; cbn [andb].
  - destruct (is_currently_done (mem l) n) eqn:Ed.
    + exists l. split_and!; [done|done|done|]. intros ? [= <-]. split; [|done].
      apply elem_of_app. left. destruct Hcur as [Hcur _]. specialize (Hcur eq_refl).
      apply elem_of_app in Hcur as [?|Hw]; [done|]. apply (inv_undone _ _ _ _ _ Hi) in Hw. congruence.
    + assert (Hnf : n ∉ finished l) by (intros Hf%(inv_done _ _ _ _ _ Hi); congruence).
      assert (Hw : n ∈ waiting l).
      { destruct Hcur as [Hcur _]. specialize (Hcur eq_refl). rewrite !elem_of_app, list_elem_of_singleton in Hcur. tauto. }
      rewrite bool_decide_true by done. cbn [negb].
      exists (requeue s n (filter (λ n', n' ≠ n) (waiting l)) l).
      assert (Hsup : ∀ m, m ∈ waiting l → m ∈ n :: filter (λ n', n' ≠ n) (waiting l)).
      { intros m Hm. apply elem_of_cons. destruct (decide (m = n)); [by left|right]. by apply list_elem_of_filter. }
      split_and!; [done| |done|intros ? [= <-]; split; [apply elem_of_app; right; apply list_elem_of_here|done]].
      apply requeue_inv; try done.
      * apply NoDup_cons. split; [by intros [? _]%list_elem_of_filter|by apply NoDup_filter].
      * intros m [_ ?]%list_elem_of_filter. done.
  - assert (Hnot : n ∉ finished l ++ [s] ++ waiting l) by (intros Hin; by apply Hcur in Hin).
    rewrite !elem_of_app in Hnot. exists (requeue s n (waiting l) l).
    assert (Hsup : ∀ m, m ∈ waiting l → m ∈ n :: waiting l) by (intros m Hm; by apply elem_of_cons; right).
    split_and!; [done| |done|intros ? [= <-]; split; [apply elem_of_app; right; apply list_elem_of_here|done]].
    apply requeue_inv; try done; [tauto|]. apply NoDup_cons. split; [tauto|done].
Qed.

(** [QUEUE_UPCOMING_STATE]. *)
Lemma queue_upcoming_run i c s U l node :
  inv i c [s] U l → nodes !! s = Some node → consumes (node_type node) c = true → 0 <= c < 256 →
  (∀ n, n ∈ U → ∃ p, p ∈ finished l ∧ entered_by c p n) →
  ∃ l' U', QUEUE_UPCOMING_STATE nmatch s (re_next node) l = Ret (l', bool_decide (re_next node = None)) ∧
    inv i c [s] U' l' ∧ finished l' = finished l ∧
    ∀ n, re_next node = Some n →
      waiting l' = waiting l ∧ (full → n ∈ U' ∧ ∀ m, m ∈ U → m ∈ U').
Proof.
  intros Hi Hnode Hc Hbyte Hent. destruct (re_next node) as [n|] eqn:En; cbn [QUEUE_UPCOMING_STATE].
  2: { exists (drop_waiting l), U. split_and!; [done|by apply drop_waiting_inv|done|done]. }
  destruct (is_upcoming (mem l) n) eqn:Eu.
  { exists l, U. split_and!; [done|done|done|]. intros ? [= <-]. split; [done|].
    intros Hfull. split; [|done]. by apply (inv_flags _ _ _ _ _ Hi). }
  assert (Hfresh : full → n ∉ U).
  { intros Hfull Hin. destruct (Hent n Hin) as (p & Hp & np & Hnp & Hcp & Enp).
    assert (p = s) as ->.
    { eapply (separated_spec nodes p s np node n c); try done; [by apply full_separated|].
      by apply (inv_cleared _ _ _ _ _ Hi Hfull). }
    pose proof (inv_nodup _ _ _ _ _ Hi) as (_ & Hd & _)%NoDup_app.
    apply (Hd s Hp), elem_of_app. left. apply list_elem_of_here. }
  destruct Hi. destruct (linked_queue _ _ _ n inv_linked0 inv_up_nodup0) as (U' & Hl & Hlast & Hnd & Hsub & Hsnoc).
  assert (Hin : n ∈ U') by (apply last_Some in Hlast as [l' ->]; apply elem_of_app; right; apply list_elem_of_here).
  eexists _, U'. split_and!; [done| |done|].
  2: { intros ? [= <-]. split; [done|]. intros Hfull. split; [done|].
       rewrite (Hsnoc (Hfresh Hfull)). intros m Hm. apply elem_of_app. by left. }
  constructor; cbn; try done.
  - rewrite inv_last0. exact Hl.
  - intros m Hm. destruct (Hsub m Hm) as [HmU| ->]; [by apply inv_entered0|].
    exists s. split; [apply elem_of_app; right; apply list_elem_of_here|]. by exists node.
  - intros Hfull m. destruct (decide (m = n)) as [->|Hne]; [done|]. rewrite upd_other by done.
    intros Hm. rewrite (Hsnoc (Hfresh Hfull)). apply elem_of_app. left. by apply inv_flags0.
  - intros Hfull m Hm. destruct (decide (m = n)) as [->|Hne]; [by rewrite upd_same|].
    rewrite upd_other by done. apply inv_cleared0; [done|]. by destruct (Hsub m Hm).
Qed.

(** ** One state *)

(** All that can follow state [n] is on the lists. *)
Definition covered (i : nat) (current U : list nat) (n : nat) : Prop :=
  ∀ node, nodes !! n = Some node →
    (∀ t, t ∈ eps_targets tx i node → ∃ m, t = Some m ∧ m ∈ current) ∧
    (consumes (node_type node) (char_at tx i) = true → ∃ m, re_next node = Some m ∧ m ∈ U).

(** The text as the loop at position [i] sees it. *)
Definition seen (i : nat) (c : Z) (not_bol : bool) : Prop :=
  char_at tx i = c ∧ bol_at tx i = negb not_bol ∧
  eol_at tx i = negb (has_flag eflags REG_NOTEOL) && (c =? 0) ∧ 0 <= c < 256.

Lemma eps_target_links i node t : t ∈ eps_targets tx i node → t ∈ eps_links node.
Proof.
  unfold eps_targets, eps_links. destruct (node_type node); try done.
  all: case_match; [done|by intros ?%not_elem_of_nil].
Qed.

(** A target of a move without a character can be queued. *)
Lemma target_ok i s node t :
  nodes !! s = Some node → good (Some s, i) → t ∈ eps_targets tx i node →
  good (t, i) ∧
  ∀ n, t = Some n → (n < length nodes)%nat ∧ n ≠ s ∧ good (Some n, i) ∧ eps_entered nodes n = true.
Proof.
  intros Hn Hg Ht. assert (Hgt : good (t, i)) by (eapply good_move; [done|by eapply move_eps]).
  split; [done|]. intros n ->. pose proof (eps_target_links _ _ _ Ht) as Hl. split_and!.
  - eapply (wf_links _ Hwf s node); [done|]. revert Hl. unfold eps_links.
    destruct (node_type node); rewrite ?elem_of_cons, ?elem_of_nil; clear; intuition auto.
  - intros ->. by apply (wf_no_self _ Hwf s node Hn).
  - done.
  - apply existsb_exists. exists node. split; [|by apply bool_decide_true].
    apply list_elem_of_In. by eapply list_elem_of_lookup_2.
Qed.

(** What a step from the lists [l] with state [s] in work has to establish. *)
Definition stepped (i : nat) (c : Z) (s : nat) (U : list nat) (l : lists) (o : outcome (lists * option bool))
    : Prop :=
  ∃ l' ended U', o = Ret (l', ended) ∧ inv i c [s] U' l' ∧ finished l' = finished l ∧
    match ended with
    | None => (∀ m, m ∈ waiting l → m ∈ waiting l') ∧
              (full → covered i (finished l' ++ waiting l') U' s ∧ ∀ m, m ∈ U → m ∈ U')
    | Some _ => ∃ j, good (None, j)
    end.

Section Step.
Context (i : nat) (c : Z) (not_bol : bool) (s : nat) (node : re_node) (U : list nat) (l : lists).
Context (Hseen : seen i c not_bol) (Hinv : inv i c [s] U l) (Hnode : nodes !! s = Some node).
Context (Hgood : good (Some s, i)) (Hent : ∀ n, n ∈ U → ∃ p, p ∈ finished l ∧ entered_by c p n).

Lemma step_idle :
  eps_targets tx i node = [] → consumes (node_type node) c = false → stepped i c s U l (Ret (l, None)).
Proof.
  intros He Hc. exists l, None, U. split_and!; [done|done|done|done|]. intros _. split; [|done].
  intros node' Hn. assert (node' = node) as -> by congruence. rewrite He.
  split; [by intros t ?%not_elem_of_nil|]. destruct Hseen as [-> _]. congruence.
Qed.

Lemma step_current l1 :
  inv i c [s] U l1 → finished l1 = finished l → waiting l1 = waiting l →
  eps_targets tx i node = [re_next node] → consumes (node_type node) c = false →
  stepped i c s U l
    ('(l, ended) ← QUEUE_CURRENT_STATE nmatch s (re_next node) l1;
     Ret (l, if ended : bool then Some false else None)).
Proof.
  intros Hi1 Hf1 Hw1 He Hc.
  destruct (target_ok i s node (re_next node) Hnode Hgood) as [Hgt Ht]; [rewrite He; apply list_elem_of_here|].
  destruct (queue_current_run i c s U l1 (re_next node) Hi1 Ht) as (l' & -> & Hi' & Hf' & Hw').
  cbn [mbind outcome_bind]. destruct (re_next node) as [m|] eqn:En.
  - destruct (Hw' m eq_refl) as [Hm Hsub]. exists l', None, U.
    split_and!; [done|done|congruence|by rewrite <- Hw1|]. intros _. split; [|done].
    intros node' Hn. assert (node' = node) as -> by congruence. rewrite He.
    split; [intros t ->%list_elem_of_singleton; eauto|]. destruct Hseen as [-> _]. congruence.
  - exists l', (Some false), U. split_and!; [done|done|congruence|]. by exists i.
Qed.

Lemma step_upcoming :
  eps_targets tx i node = [] → consumes (node_type node) c = true →
  stepped i c s U l
    ('(l, ended) ← QUEUE_UPCOMING_STATE nmatch s (re_next node) l;
     Ret (l, if ended : bool then Some true else None)).
Proof.
  intros He Hc. pose proof Hseen as (Hchar & _ & _ & Hbyte).
  destruct (queue_upcoming_run i c s U l node) as (l' & U' & -> & Hi' & Hf' & Hw'); [done..|].
  cbn [mbind outcome_bind].
  assert (Hgt : good (re_next node, S i)).
  { eapply good_move; [exact Hgood|]. eapply move_char; [done|by rewrite Hchar]. }
  destruct (re_next node) as [m|] eqn:En.
  - destruct (Hw' m eq_refl) as [Hw Hfull]. exists l', None, U'.
    split_and!; [done|done|done|by rewrite Hw|]. intros Hf. destruct (Hfull Hf) as [Hm Hsub]. split; [|done].
    intros node' Hn. assert (node' = node) as -> by congruence. rewrite He.
    split; [by intros t ?%not_elem_of_nil|eauto].
  - exists l', (Some true), U'. split_and!; [done|done|done|]. by exists (S i).
Qed.

Lemma step_split :
  eps_targets tx i node = [re_split_re node; re_next node] → consumes (node_type node) c = false →
  stepped i c s U l
    ('(l, ended1) ← QUEUE_CURRENT_STATE nmatch s (re_split_re node) l;
     '(l, ended2) ← QUEUE_CURRENT_STATE nmatch s (re_next node) l;
     Ret (l, if (ended1 : bool) || (ended2 : bool) then Some false else None)).
Proof.
  intros He Hc.
  destruct (target_ok i s node (re_split_re node) Hnode Hgood) as [Hgt1 Ht1]; [rewrite He; apply list_elem_of_here|].
  destruct (target_ok i s node (re_next node) Hnode Hgood) as [Hgt2 Ht2];
    [rewrite He; apply list_elem_of_further, list_elem_of_here|].
  destruct (queue_current_run i c s U l _ Hinv Ht1) as (l1 & -> & Hi1 & Hf1 & Hw1). cbn [mbind outcome_bind].
  destruct (queue_current_run i c s U l1 _ Hi1 Ht2) as (l2 & -> & Hi2 & Hf2 & Hw2). cbn [mbind outcome_bind].
  eexists l2, _, U. split; [done|]. split; [done|]. split; [congruence|].
  destruct (re_split_re node) as [m1|] eqn:E1, (re_next node) as [m2|] eqn:E2;
    cbn [bool_decide decide_rel orb]; try by exists i.
  destruct (Hw1 m1 eq_refl) as [Hm1 Hsub1], (Hw2 m2 eq_refl) as [Hm2 Hsub2].
  split; [auto|]. intros _. split; [|done].
  intros node' Hn. assert (node' = node) as -> by congruence. rewrite He. split.
  - intros t [->| ->%list_elem_of_singleton]%elem_of_cons; [|by eauto]. exists m1. split; [done|].
    rewrite Hf2. apply elem_of_app in Hm1 as [?|?]; apply elem_of_app; [by left|right; auto].
  - destruct Hseen as [-> _]. congruence.
Qed.

Lemma exec_type_run : stepped i c s U l (exec_type rx nmatch eflags not_bol i c s node l).
Proof.
  pose proof Hseen as (Hchar & Hbol & Heol & _). pose proof (wf_index _ Hwf _ _ Hnode) as Hix.
  pose proof step_idle as Hidle. pose proof step_split as Hsplit. pose proof step_upcoming as Hup.
  pose proof step_current as Hcur. unfold exec_type, eps_targets in *. rewrite Hbol, Heol in *.
  destruct (node_type node) eqn:Et; cbn [node_index] in Hix; unfold consumes in *;
    rewrite ?andb_false_r in *; rewrite ?andb_true_r in *.
  - destruct not_bol; [by apply Hidle|by apply Hcur].
  - destruct (negb (has_flag eflags REG_NOTEOL) && (c =? 0)); [by apply Hcur|by apply Hidle].
  - destruct (negb (c =? 0) && (c0 =? c)); [by apply Hup|by apply Hidle].
  - destruct (negb (c =? 0)); [by apply Hup|by apply Hidle].
  - destruct (negb (c =? 0) && set_has set c); [by apply Hup|by apply Hidle].
  - destruct (set_match_run s index (λ m, (Z.of_nat i, m.2)) l Hix) as (l1 & -> & Hf & Hw & Hi). by apply Hcur; auto.
  - destruct (set_match_run s index (λ m, (m.1, Z.of_nat i)) l Hix) as (l1 & -> & Hf & Hw & Hi). by apply Hcur; auto.
  - by apply Hsplit.
  - by apply Hsplit.
  - by apply Hsplit.
  - by apply Hidle.
Qed.

End Step.

Lemma covered_mono i l1 l2 U1 U2 n :
  (∀ m, m ∈ l1 → m ∈ l2) → (∀ m, m ∈ U1 → m ∈ U2) → covered i l1 U1 n → covered i l2 U2 n.
Proof.
  intros Hl HU Hc node Hn. destruct (Hc node Hn) as [H1 H2]. split.
  - intros t Ht. destruct (H1 t Ht) as (m & -> & Hm). eauto.
  - intros Hcons. destruct (H2 Hcons) as (m & -> & Hm). eauto.
Qed.

(** The first state that waits comes into work, and is finished afterwards. *)
Lemma take_inv i c U l s others :
  waiting l = s :: others → inv i c [] U l →
  inv i c [s] U (Lists (mem l) (finished l) others (upcoming_states l) (upcoming_states_last l)).
Proof.
  intros Hw []. rewrite Hw in *. constructor; cbn; try done.
  intros n Hn. destruct (inv_entered0 n Hn) as (p & Hp & He). exists p. split; [|done].
  rewrite app_nil_r in Hp. apply elem_of_app. by left.
Qed.

Lemma mark_done_inv i c U l s : inv i c [s] U l → inv i c [] U (mark_done s l).
Proof.
  intros [].
  assert (Hperm : finished l ++ [s] ++ waiting l ≡ₚ (s :: finished l) ++ [] ++ waiting l).
  { cbn. by rewrite <- Permutation_middle. }
  constructor; cbn [mark_done mem finished waiting upcoming_states upcoming_states_last is_currently_done
                    is_current is_upcoming upcoming_state_next]; try done.
  - by rewrite <- Hperm.
  - intros n. rewrite <- Hperm. apply inv_good0.
  - intros n. rewrite <- Hperm. apply inv_current0.
  - intros n Hn. destruct (decide (n = s)) as [->|Hne]; [by rewrite upd_same|].
    rewrite upd_other by done. apply inv_done0. by apply elem_of_cons in Hn as [->|?].
  - intros n Hn. rewrite upd_other; [apply inv_undone0; apply elem_of_app; by right|].
    intros ->. rewrite Hperm in inv_nodup0. cbn in inv_nodup0. apply NoDup_cons in inv_nodup0 as [Hs _].
    apply Hs, elem_of_app. by right.
  - intros n Hn. destruct (inv_entered0 n Hn) as (p & Hp & He). exists p. split; [|done].
    rewrite app_nil_r. apply elem_of_app in Hp as [?| ->%list_elem_of_singleton]; [by apply elem_of_cons; right|apply list_elem_of_here].
Qed.

(** There are no more states than nodes. *)
Lemma inv_length i c act U l : inv i c act U l → (length (finished l ++ act ++ waiting l) <= length nodes)%nat.
Proof.
  intros []. rewrite <- (length_seq (length nodes) 0). apply submseteq_length, NoDup_submseteq; [done|].
  intros n Hn. apply elem_of_seq. destruct (inv_good0 n Hn). lia.
Qed.

Lemma inv_up_length i c act U l : inv i c act U l → (length U <= length nodes)%nat.
Proof.
  intros []. rewrite <- (length_seq (length nodes) 0). apply submseteq_length, NoDup_submseteq; [done|].
  intros n Hn. destruct (inv_entered0 n Hn) as (p & _ & node & Hnode & _ & Hnext).
  apply elem_of_seq. pose proof (wf_links _ Hwf _ _ _ Hnode (or_introl Hnext)). lia.
Qed.

(** ** One position *)

(** What the loop over the current states establishes. *)
Definition processed (i : nat) (c : Z) (l : lists) (r : report) (l' : lists) (r' : report) (U' : list nat)
    : Prop :=
  inv i c [] U' l' ∧ (result r' = result r ∨ result r' = 0) ∧
  (result r' = 0 → result r = 0 ∨ ∃ j, good (None, j)) ∧
  (result r' ≠ 0 → waiting l' = [] ∧ (∀ m, m ∈ finished l ++ waiting l → m ∈ finished l') ∧
                   (full → ∀ n, n ∈ finished l' → covered i (finished l') U' n)).

Lemma exec_states_run fuel not_bol i c U l r :
  seen i c not_bol → inv i c [] U l → (length nodes <= fuel + length (finished l))%nat →
  (full → result r ≠ 0 → ∀ n, n ∈ finished l → covered i (finished l ++ waiting l) U n) →
  ∃ l' r' U', exec_states rx nmatch eflags fuel not_bol i c l r = Ret (l', r') ∧
    processed i c l r l' r' U'.
Proof.
  intros Hseen. revert U l r. induction fuel as [|fuel IH]; intros U l r Hi Hf Hcov;
    pose proof (inv_length _ _ _ _ _ Hi) as Hlen; rewrite length_app in Hlen;
    cbn [exec_states]; destruct (waiting l) as [|s others] eqn:Hw.
  - exists l, r, U. rewrite app_nil_r in Hcov. split; [done|]. split_and!; [done|by left|by left|].
    intros Hr. rewrite Hw, app_nil_r. auto.
  - cbn in Hlen. lia.
  - exists l, r, U. rewrite app_nil_r in Hcov. split; [done|]. split_and!; [done|by left|by left|].
    intros Hr. rewrite Hw, app_nil_r. auto.
  - destruct (inv_good _ _ _ _ _ Hi s) as [Hs Hgs].
    { rewrite Hw. apply elem_of_app. right. apply list_elem_of_here. }
    destruct (lookup_lt_is_Some_2 _ _ Hs) as [node Hnode]. rewrite Hnode.
    set (l0 := Lists (mem l) (finished l) others (upcoming_states l) (upcoming_states_last l)).
    assert (Hi0 : inv i c [s] U l0) by by apply take_inv.
    assert (Hent : ∀ n, n ∈ U → ∃ p, p ∈ finished l0 ∧ entered_by c p n).
    { intros n Hn. destruct (inv_entered _ _ _ _ _ Hi n Hn) as (p & Hp & He). exists p.
      rewrite app_nil_r in Hp. done. }
    destruct (exec_type_run i c not_bol s node U l0 Hseen Hi0 Hnode Hgs Hent)
      as (l1 & ended & U1 & -> & Hi1 & Hf1 & Hend). cbn [mbind outcome_bind].
    apply mark_done_inv in Hi1. destruct ended as [consumed|].
    + destruct (set_match_run s 0 (λ m, (m.1, Z.of_nat i + if consumed then 1 else 0)) (mark_done s l1))
        as (l2 & -> & Hf2 & _ & Hi2); [pose proof (wf_index _ Hwf _ _ Hnode); lia|].
      apply Hi2 in Hi1. cbn [mbind outcome_bind].
      set (r1 := Report 0 _). destruct (nmatch =? 0)%nat.
      * exists l2, r1, U1. split; [done|]. split_and!; [done|by right|by right|done].
      * destruct (IH U1 l2 r1 Hi1) as (l' & r' & U' & -> & Hi' & Hr' & _ & _);
          [rewrite Hf2; cbn; rewrite Hf1; cbn; lia|by intros _ []|].
        assert (result r' = 0) by (by destruct Hr').
        exists l', r', U'. split; [done|]. split_and!; [done|by right|by right|done].
    + destruct Hend as [Hsub Hfull]. cbn [waiting l0] in Hsub.
      assert (Hmono : ∀ m, m ∈ finished l ++ s :: others → m ∈ (s :: finished l1) ++ waiting l1).
      { intros m. rewrite Hf1. cbn [finished l0]. rewrite !elem_of_app, !elem_of_cons. specialize (Hsub m). tauto. }
      destruct (IH U1 (mark_done s l1) r Hi1) as (l' & r' & U' & -> & Hi' & Hr' & Hsound & Hcomp).
      * cbn. rewrite Hf1. cbn. lia.
      * intros Hfl Hr n Hn. destruct (Hfull Hfl) as [Hcs HU]. cbn [mark_done finished waiting] in *.
        apply elem_of_cons in Hn as [->|Hn].
        -- eapply covered_mono; [| |exact Hcs]; [|done]. intros m. rewrite !elem_of_app, elem_of_cons. tauto.
        -- eapply covered_mono; [exact Hmono|exact HU|]. apply Hcov; [done|done|]. by rewrite Hf1 in Hn.
      * exists l', r', U'. split; [done|]. split_and!; [done|done|done|]. intros Hr.
        destruct (Hcomp Hr) as (Hw' & Hin & Hc). split_and!; [done| |done].
        intros m Hm. rewrite Hw in Hm. apply Hin, Hmono, Hm.
Qed.

(** Between two positions. *)
Record ready (i : nat) (l : lists) : Prop := {
  ready_finished : finished l = [];
  ready_nodup : NoDup (waiting l);
  ready_good n : n ∈ waiting l → (n < length nodes)%nat ∧ good (Some n, i);
  ready_current n : is_current (mem l) n = true ↔ n ∈ waiting l;
  ready_undone n : n ∈ waiting l → is_currently_done (mem l) n = false;
  ready_up : upcoming_states l = None ∧ upcoming_states_last l = None;
  ready_flags : full → ∀ n, is_upcoming (mem l) n = false }.

Lemma ready_inv i c l : ready i l → inv i c [] [] l.
Proof.
  intros [Hf ? ? ? ? [Hu1 Hu2] Hfl]. constructor; rewrite ?Hf, ?Hu1, ?Hu2; cbn; try done;
    try (by intros n ?%not_elem_of_nil).
  - constructor.
  - intros Hfull n. by rewrite Hfl.
  - by intros _ n ?%not_elem_of_nil.
Qed.

(** A result is a match or none. *)
Definition decided (r : report) : Prop := result r = 0 ∨ result r = REG_NOMATCH.

Lemma exec_start_ready i l r :
  good (Some 0%nat, i) → decided r → ready i l →
  ready i (exec_start nmatch i l r) ∧
  (∀ n, n ∈ waiting l → n ∈ waiting (exec_start nmatch i l r)) ∧
  (result r ≠ 0 → 0%nat ∈ waiting (exec_start nmatch i l r)).
Proof.
  intros Hg Hdec Hrd. pose proof Hrd as []. unfold exec_start.
  destruct (is_current (mem l) 0) eqn:Ec; cbn [negb andb].
  { split_and!; [done|done|]. intros _. by apply ready_current0. }
  destruct (Z.eqb_spec (result r) REG_NOMATCH) as [Hr|Hr].
  2: { split_and!; [done|done|]. by destruct Hdec. }
  assert (Hnot : 0%nat ∉ waiting l) by (intros H%ready_current0; congruence).
  split_and!.
  - constructor; cbn [mem finished waiting upcoming_states upcoming_states_last is_currently_done
                      is_current is_upcoming upcoming_state_next]; try done.
    + apply NoDup_app. split_and!; [done| |apply NoDup_singleton]. by intros m Hm ->%list_elem_of_singleton.
    + intros n [?| ->%list_elem_of_singleton]%elem_of_app; [auto|]. split; [|done].
      pose proof (wf_nonempty _ Hwf). destruct nodes; [done|cbn; lia].
    + intros n. rewrite elem_of_app, list_elem_of_singleton. destruct (decide (n = 0%nat)) as [->|Hne].
      * rewrite upd_same. tauto.
      * rewrite upd_other, ready_current0 by done. tauto.
    + intros n Hn. destruct (decide (n = 0%nat)) as [->|Hne]; [by rewrite upd_same|].
      rewrite upd_other by done. apply ready_undone0.
      by apply elem_of_app in Hn as [?| ->%list_elem_of_singleton].
    + intros Hfull n. destruct (decide (n = 0%nat)) as [->|Hne]; [by rewrite upd_same|].
      rewrite upd_other by done. by apply ready_flags0.
  - intros n Hn. apply elem_of_app. by left.
  - intros _. apply elem_of_app. right. apply list_elem_of_here.
Qed.

(** The flags of the nodes after a call. *)
Definition idle (m : store) : Prop :=
  (∀ n, is_current m n = false) ∧ (full → ∀ n, is_upcoming m n = false).

(** The store after the current states were dropped. *)
Definition clear_current (l : lists) : store :=
  let m := mem l in
  Store (is_currently_done m) (clear (is_current m) (finished l ++ waiting l)) (is_upcoming m)
        (upcoming_state_next m) (matches m).

Lemma clear_current_all i c U l n : inv i c [] U l → is_current (clear_current l) n = false.
Proof.
  intros Hi. cbn. rewrite clear_spec. case_bool_decide as Hin; [done|].
  apply not_true_is_false. intros Hc%(inv_current _ _ _ _ _ Hi). done.
Qed.

Lemma clear_upcoming_all i c U l n : inv i c [] U l → full → clear (is_upcoming (mem l)) U n = false.
Proof.
  intros Hi Hfull. rewrite clear_spec. case_bool_decide as Hin; [done|].
  apply not_true_is_false. intros Hc%(inv_flags _ _ _ _ _ Hi Hfull). done.
Qed.

Lemma exec_advance_ready i c U l :
  char_at tx i = c → inv i c [] U l → ready (S i) (exec_advance (clear_current l) U).
Proof.
  intros Hc Hi. pose proof Hi as []. constructor; cbn; try done.
  - intros n Hn. destruct (inv_entered0 n Hn) as (p & Hp & node & Hnode & Hcons & Hnext).
    split; [by eapply (wf_links _ Hwf p node); [|left]|].
    rewrite app_nil_r in Hp. destruct (inv_good0 p) as [_ Hgp]; [apply elem_of_app; by left|].
    eapply good_move; [exact Hgp|]. rewrite <- Hnext. eapply move_char; [done|by rewrite Hc].
  - intros n. rewrite fold_upd. case_bool_decide; [done|].
    pose proof (clear_current_all i c U l n Hi) as Hcl. cbn in Hcl. rewrite Hcl. done.
  - intros n Hn. rewrite clear_spec. by rewrite bool_decide_true.
  - intros Hfull n. by eapply clear_upcoming_all.
Qed.

(** A run that begins at a covered state leaves the position. *)
Lemma covered_leaves i F U n j :
  (∀ m, m ∈ F → covered i F U m) → n ∈ F → rtc (move tx nodes) (Some n, i) (None, j) →
  ∃ m, m ∈ U ∧ rtc (move tx nodes) (Some m, S i) (None, j).
Proof.
  intros Hcov Hn Hrun. remember (Some n, i) as x eqn:Ex. remember (None, j) as y eqn:Ey.
  revert n Hn Ex. induction Hrun as [x|x y' z Hm Hr IH]; intros n Hn ->; [by subst|].
  subst z. inversion Hm as [? node ? t Hnode Ht|? node ? Hnode Hc]; subst.
  - destruct (Hcov n Hn node Hnode) as [He _]. destruct (He t Ht) as (m & -> & Hm').
    by eapply IH.
  - destruct (Hcov n Hn node Hnode) as [_ Hch]. destruct (Hch Hc) as (m & Hnext & Hm').
    rewrite Hnext in Hr. eauto.
Qed.

(** The positions from [i] on, [count] of them, the last one the end of the text. *)
Definition text_from (string : list Z) (endp i count : nat) (not_bol : bool) : Prop :=
  (i + count = S endp)%nat ∧
  ∀ k, (i <= k <= endp)%nat →
    ∃ c, (if (k <? endp)%nat then match string !! k with Some c => Ret c | None => Undef end else Ret 0) = Ret c ∧
      seen k c (if (k =? i)%nat then not_bol else true) ∧ good (Some 0%nat, k).

Lemma text_from_next string endp i count not_bol :
  text_from string endp i (S count) not_bol → text_from string endp (S i) count true.
Proof.
  intros [Hc Ht]. split; [lia|]. intros k Hk. destruct (Ht k ltac:(lia)) as (c & H1 & H2 & H3).
  exists c. split_and!; [done| |done]. rewrite (proj2 (Nat.eqb_neq k i)) in H2 by lia. by destruct (k =? S i)%nat.
Qed.

(** One round of the loop over the positions. *)
Lemma exec_positions_round string endp i count not_bol l r :
  text_from string endp i (S count) not_bol → ready i l → decided r →
  ∃ l1 r1 U,
    exec_positions rx nmatch eflags (S count) string endp not_bol i l r =
      (if (nmatch =? 0)%nat && (result r1 =? 0) then
         Ret (Store (is_currently_done (mem l1)) (is_current (clear_current l1)) (clear (is_upcoming (mem l1)) U)
                    (upcoming_state_next (mem l1)) (matches (mem l1)), r1)
       else
         match U with
         | [] => if result r1 =? 0 then Ret (mem (exec_advance (clear_current l1) U), r1)
                 else exec_positions rx nmatch eflags count string endp true (S i)
                        (exec_advance (clear_current l1) U) r1
         | _ => exec_positions rx nmatch eflags count string endp true (S i)
                  (exec_advance (clear_current l1) U) r1
         end) ∧
    inv i (char_at tx i) [] U l1 ∧ decided r1 ∧ (result r = 0 → result r1 = 0) ∧
    (result r1 = 0 → result r = 0 ∨ ∃ j, good (None, j)) ∧
    (full → result r1 ≠ 0 → ∀ n j, n ∈ 0%nat :: waiting l → rtc (move tx nodes) (Some n, i) (None, j) →
       ∃ m, m ∈ U ∧ rtc (move tx nodes) (Some m, S i) (None, j)).
Proof.
  intros [Hcount Htext] Hrd Hdec. destruct (Htext i ltac:(lia)) as (c & Hc & Hseen & Hg0).
  rewrite Nat.eqb_refl in Hseen. cbn [exec_positions]. rewrite Hc. cbn [mbind outcome_bind].
  destruct (exec_start_ready i l r Hg0 Hdec Hrd) as (Hrd' & Hsub & H0).
  destruct (exec_states_run (length nodes) not_bol i c [] (exec_start nmatch i l r) r)
    as (l1 & r1 & U & -> & Hi & Hr1 & Hsound & Hcomp); [done|by apply ready_inv|lia| |].
  { intros _ _ n. rewrite (ready_finished _ _ Hrd'). by intros ?%not_elem_of_nil. }
  cbn [mbind outcome_bind upcoming_state_next is_currently_done is_current is_upcoming matches].
  rewrite (linked_walk _ _ _ (length nodes) (inv_linked _ _ _ _ _ Hi) (inv_up_length _ _ _ _ _ Hi)).
  cbn [mbind outcome_bind]. assert (char_at tx i = c) as <- by apply Hseen.
  exists l1, r1, U. split_and!; [done|done| | |done|].
  - unfold decided in *. destruct Hr1 as [->| ->]; auto.
  - destruct Hr1 as [->| ->]; auto.
  - intros Hfull Hne n j Hn Hrun. destruct (Hcomp Hne) as (_ & Hin & Hcov).
    eapply (covered_leaves i (finished l1) U n j); [by apply Hcov| |done].
    apply Hin, elem_of_app. right. apply elem_of_cons in Hn as [->|Hn]; [|by apply Hsub].
    apply H0. destruct Hr1 as [<-|?]; done.
Qed.

(** ** All positions *)

Lemma inv_last_position i U l : inv i 0 [] U l → U = [].
Proof.
  intros []. destruct U as [|n U]; [done|].
  destruct (inv_entered0 n) as (p & _ & node & _ & Hc & _); [apply list_elem_of_here|]. done.
Qed.

Lemma text_from_end string endp i not_bol : text_from string endp i 1 not_bol → char_at tx i = 0.
Proof.
  intros [Hc Ht]. destruct (Ht i ltac:(lia)) as (c & Hci & (Hchar & _) & _).
  rewrite (proj2 (Nat.ltb_ge i endp)) in Hci by lia. congruence.
Qed.

(** What the loop from position [i] on establishes. *)
Definition executed (i endp : nat) (l : lists) (r : report) (m' : store) (r' : report) : Prop :=
  idle m' ∧ decided r' ∧ (result r = 0 → result r' = 0) ∧
  (result r' = 0 → result r = 0 ∨ ∃ j, good (None, j)) ∧
  (full → ∀ n k j, (n ∈ waiting l ∧ k = i) ∨ (n = 0%nat ∧ (i <= k <= endp)%nat) →
     rtc (move tx nodes) (Some n, k) (None, j) → result r' = 0).

Lemma exec_positions_run string endp i count not_bol l r :
  text_from string endp i count not_bol → ready i l → decided r → (count = 0%nat → waiting l = []) →
  ∃ m' r', exec_positions rx nmatch eflags count string endp not_bol i l r = Ret (m', r') ∧
    executed i endp l r m' r'.
Proof.
  revert i not_bol l r. induction count as [|count IH]; intros i not_bol l r Htx Hrd Hdec Hempty.
  - exists (mem l), r. cbn [exec_positions]. specialize (Hempty eq_refl). split; [done|].
    unfold executed. split_and!; try done.
    + split; [|by apply (ready_flags _ _ Hrd)]. intros n. apply not_true_is_false.
      rewrite (ready_current _ _ Hrd), Hempty. by intros ?%not_elem_of_nil.
    + by left.
    + destruct Htx as [? _]. intros _ n k j [[Hn _]|[_ ?]]; [|lia]. rewrite Hempty in Hn. by apply not_elem_of_nil in Hn.
  - destruct (exec_positions_round _ _ _ _ _ _ _ Htx Hrd Hdec) as (l1 & r1 & U & -> & Hi & Hdec1 & Hmono & Hsound & Hcomp).
    pose proof (exec_advance_ready i _ U l1 eq_refl Hi) as Hrd1.
    assert (Hstop : result r1 = 0 → ∀ m, idle m → ∃ m' r', Ret (m, r1) = Ret (m', r') ∧ executed i endp l r m' r').
    { intros Hz m Hm. by exists m, r1. }
    assert (Hgo : ∃ m' r', exec_positions rx nmatch eflags count string endp true (S i)
        (exec_advance (clear_current l1) U) r1 = Ret (m', r') ∧ executed i endp l r m' r').
    { destruct (IH (S i) true _ r1 (text_from_next _ _ _ _ _ Htx) Hrd1 Hdec1)
        as (m' & r' & -> & Hidle & Hdec' & Hmono' & Hsound' & Hcomp').
      - intros ->. rewrite (text_from_end _ _ _ _ Htx) in Hi. by apply inv_last_position in Hi.
      - exists m', r'. split; [done|]. split_and!; [done|done|auto| |].
        + intros Hz. destruct (Hsound' Hz) as [?|?]; auto.
        + intros Hfull n k j Hnk Hrun. destruct (decide (result r1 = 0)) as [Hz|Hz]; [auto|].
          destruct (decide (k = i)) as [->|Hk].
          * destruct (Hcomp Hfull Hz n j) as (m & Hm & Hrun'); [|done|].
            { apply elem_of_cons. destruct Hnk as [[? _]|[? _]]; auto. }
            apply (Hcomp' Hfull m (S i) j); [by left|done].
          * apply (Hcomp' Hfull n k j); [|done]. right. destruct Hnk as [[_ ?]|[? ?]]; [done|]. split; [done|lia]. }
    clear IH. destruct ((nmatch =? 0)%nat && (result r1 =? 0)) eqn:E.
    + apply andb_true_iff in E as [_ ?%Z.eqb_eq]. apply Hstop; [done|]. split; cbn.
      * intros n. by eapply (clear_current_all i).
      * intros Hfull n. by eapply clear_upcoming_all.
    + destruct U as [|u U]; [|done]. destruct (Z.eqb_spec (result r1) 0); [|done]. apply Hstop; [done|].
      split; [|by apply (ready_flags _ _ Hrd1)]. intros n. apply not_true_is_false.
      rewrite (ready_current _ _ Hrd1). by intros ?%not_elem_of_nil.
Qed.

End Exec.

(** ** [regexec] *)

(** The text of a call: the string, and where the anchors hold. *)
Definition exec_text (string : list Z) (eflags : Z) (start endp : nat) : text :=
  let c k := if (k <? endp)%nat then nth k string 0 else 0 in
  Text c (λ k, negb (has_flag eflags REG_NOTBOL) && (k =? start)%nat)
       (λ k, negb (has_flag eflags REG_NOTEOL) && (c k =? 0)).

(** An object between calls: it is unlocked, no node is marked as current, and,
    if nothing may get lost, none as upcoming. *)
Definition rested (full : Prop) (o : re_object) : Prop := re_lock o = false ∧ idle full (fields o).

Section Regexec.
Context (rx : regex) (Hwf : well_formed rx).
Context (string : list Z) (eflags : Z).

(** The part of the string to search: [pmatch[0]] or all of it. *)
Definition search_range (p : list regmatch) (start endp : nat) : Prop :=
  if has_flag eflags REG_STARTEND
  then ∃ p', p = (Z.of_nat start, Z.of_nat endp) :: p' ∧ (start <= endp <= length string)%nat
  else start = 0%nat ∧ regexec_strlen string = Ret endp.

(** Runs stay within the text. *)
Lemma move_bounds start endp x y :
  rtc (move (exec_text string eflags start endp) (re_nodes rx)) x y →
  (x.2 <= endp)%nat → (x.2 <= y.2 <= endp)%nat.
Proof.
  induction 1 as [x|x y z Hm _ IH]; intros Hx; [lia|].
  inversion Hm as [n node i t _ _|n node i _ Hc]; subst; cbn [char_at exec_text fst snd] in *; [by apply IH|].
  destruct (Nat.ltb_spec i endp); [|done]. destruct IH; lia.
Qed.

(** The search finds a match of the automaton. *)
Definition matches_somewhere (start endp : nat) : Prop :=
  ∃ k j, (start <= k <= j)%nat ∧ (j <= endp)%nat ∧ accepts (exec_text string eflags start endp) (re_nodes rx) k j.

Lemma string_length_spec s n :
  regexec_strlen s = Ret n → (n <= length s)%nat.
Proof.
  revert n. induction s as [|c s IH]; intros n; cbn [regexec_strlen]; [done|].
  case_if; [intros [= <-]; cbn; lia|]. destruct (regexec_strlen s) as [n'| |]; try done.
  cbn. intros [= <-]. specialize (IH n' eq_refl). lia.
Qed.

Lemma exec_text_from (good : option nat * nat → Prop) start endp :
  Forall (λ c, 0 <= c < 256) string → (start <= endp <= length string)%nat →
  (∀ k, (start <= k <= endp)%nat → good (Some 0%nat, k)) →
  text_from eflags (exec_text string eflags start endp) good string endp start (S endp - start)
    (has_flag eflags REG_NOTBOL).
Proof.
  intros Hb Hse Hg. split; [lia|]. intros k Hk. exists (char_at (exec_text string eflags start endp) k).
  cbn [char_at exec_text]. split_and!; [| |auto].
  - destruct (Nat.ltb_spec k endp); [|done]. destruct (lookup_lt_is_Some_2 string k) as [c Hc]; [lia|].
    rewrite Hc. by rewrite (nth_lookup_Some _ _ _ _ Hc).
  - split; [done|]. split; [|split; [done|]].
    + cbn [bol_at exec_text]. destruct (k =? start)%nat; [by rewrite andb_true_r|by rewrite andb_false_r].
    + destruct (Nat.ltb_spec k endp); [|lia]. destruct (lookup_lt_is_Some_2 string k) as [c Hc]; [lia|].
      rewrite (nth_lookup_Some _ _ _ _ Hc). rewrite Forall_lookup in Hb. by apply (Hb k).
Qed.

(** The loop as [regexec] starts it. *)
Lemma regexec_positions full nmatch p start endp o :
  (full → separated (re_nodes rx) = true) → rested full o →
  Forall (λ c, 0 <= c < 256) string → (start <= endp <= length string)%nat →
  let m := fields o in
  ∃ m' r', exec_positions rx nmatch eflags (S endp - start) string endp (has_flag eflags REG_NOTBOL) start
      (Lists (Store (is_currently_done m) (upd (is_current m) 0 false) (is_upcoming m)
                    (upcoming_state_next m) (matches m)) [] [] None None)
      (Report REG_NOMATCH p) = Ret (m', r') ∧
    idle full m' ∧ (result r' = 0 ∨ result r' = REG_NOMATCH) ∧
    (result r' = 0 → matches_somewhere start endp) ∧ (full → matches_somewhere start endp → result r' = 0).
Proof.
  intros Hsep [_ [Hcur Hup]] Hb Hse m.
  set (tx := exec_text string eflags start endp).
  set (good := λ x, ∃ k, (start <= k <= endp)%nat ∧ rtc (move tx (re_nodes rx)) (Some 0%nat, k) x).
  edestruct (exec_positions_run rx nmatch eflags Hwf tx good) with (full := full)
    as (m' & r' & -> & Hidle & Hdec & _ & Hsound & Hcomp);
    [|done|apply exec_text_from; [done|done|]| | | |].
  - intros x y (k & Hk & Hr) Hm. exists k. split; [done|]. by eapply rtc_r.
  - intros k Hk. exists k. split; [done|apply rtc_refl].
  - constructor; cbn [mem finished waiting upcoming_states upcoming_states_last is_currently_done
                      is_current is_upcoming]; try done; try (by intros n ?%not_elem_of_nil).
    + constructor.
    + intros n. split; [|by intros ?%not_elem_of_nil].
      unfold upd. rewrite Hcur. by destruct (n =? 0)%nat.
  - by right.
  - done.
  - exists m', r'. split_and!; [done|by destruct Hidle..|done| |].
    + intros Hz. destruct (Hsound Hz) as [?|(j & k & Hk & Hr)]; [done|]. exists k, j.
      pose proof (move_bounds _ _ _ _ Hr ltac:(cbn; lia)). cbn in *. split_and!; [lia..|done].
    + intros Hfull (k & j & Hkj & Hj & Hacc). apply (Hcomp Hfull 0%nat k j); [|done]. right. split; [done|lia].
Qed.

Lemma regexec_run full nmatch p start endp o :
  (full → separated (re_nodes rx) = true) → rested full o →
  Forall (λ c, 0 <= c < 256) string → search_range p start endp → (nmatch <= length p)%nat →
  ∃ r p' o', regexec rx string nmatch p eflags o = Ret (r, p', o') ∧ rested full o' ∧
    (r = 0 ∨ r = REG_NOMATCH) ∧ (r = 0 → matches_somewhere start endp) ∧
    (full → matches_somewhere start endp → r = 0).
Proof.
  intros Hsep Hrest Hb Hrange Hnm. pose proof Hrest as [Hlock _]. unfold regexec. rewrite Hlock.
  set (nm1 := if has_flag (re_cflags rx) REG_NOSUB then 0%nat else nmatch).
  set (p1 := clear_pmatch nm1 p).
  set (nm := if (re_nsub rx + 1 <? nm1)%nat then (re_nsub rx + 1)%nat else nm1).
  assert (Hnm1 : (length p <? nm1)%nat = false).
  { apply Nat.ltb_ge. unfold nm1. destruct (has_flag _ _); lia. }
  assert (Hne : ∃ n ns, re_nodes rx = n :: ns).
  { pose proof (wf_nonempty _ Hwf). destruct (re_nodes rx); [done|eauto]. }
  destruct Hne as (n & ns & Hne).
  assert (Hse : (start <= endp <= length string)%nat).
  { unfold search_range in Hrange. destruct (has_flag eflags REG_STARTEND).
    - by destruct Hrange as (? & _ & ?).
    - destruct Hrange as [-> ?%string_length_spec]. lia. }
  destruct (regexec_positions full nm p1 start endp o Hsep Hrest Hb Hse)
    as (m' & r' & Hrun & Hidle & Hdec & Hsound & Hcomp).
  exists (result r'), (pmatch r'), (ReObject m' false). split; [|by split_and!].
  unfold search_range in Hrange. destruct (has_flag eflags REG_STARTEND).
  - destruct Hrange as (p' & -> & _). rewrite (proj2 (Z.ltb_ge _ 0)), (proj2 (Z.ltb_ge _ _)) by lia.
    cbn [orb]. rewrite !Nat2Z.id, Hnm1, Hne. fold nm p1. by rewrite Hrun.
  - destruct Hrange as [-> Hlen]. rewrite Hlen. cbn [mbind outcome_bind]. rewrite Hnm1, Hne. fold nm p1.
    by rewrite Hrun.
Qed.

End Regexec.
End RegexMatch.
