(* ===== verification/RegexParse.v ===== *)
(** * Regular expressions: the parser

    The trees [re_parse] builds, for every pattern: that they have the shape the
    later passes rely on, that parsing ends, and that it stays inside the
    pattern. *)

From S2P Require Import Prelude Ctype Strtol Regcomp RegexSpec.
From stdpp Require Import base decidable list numbers strings.
From Stdlib Require Import ZArith Lia Ascii.

#[local] Open Scope c_scope.
#[local] Open Scope Z_scope.

Module RegexParse.
Import Strtol Regex RegexSpec.

(** ** Runs of the parser *)

Lemma parse_bind_yields {A B} (p : parser A) (k : A → parser B) b :
  parse_bind p k = Ret (inr b) → ∃ a, p = Ret (inr a) ∧ k a = Ret (inr b).
Proof. destruct p as [[e|a]| |]; cbn; try done. eauto. Qed.

Lemma look_yields {A} pattern i (k : Z → parser A) a :
  look pattern i k = Ret (inr a) → ∃ c, pattern !! i = Some c ∧ k c = Ret (inr a).
Proof. unfold look. destruct (pattern !! i); [eauto|done]. Qed.

(** Take a successful run of the parser apart. *)
Ltac parse_inv H :=
  repeat match type of H with
  | fails _ = Ret (inr _) => discriminate H
  | Ret (inl _) = Ret (inr _) => discriminate H
  | Undef = _ => discriminate H
  | OutOfFuel = _ => discriminate H
  | parse_bind _ _ = Ret (inr _) =>
      let a := fresh "a" in let Ha := fresh "Hrun" in
      apply parse_bind_yields in H as (a & Ha & H); repeat (destruct a as [a ?]); cbv beta iota zeta in H
  | look _ _ _ = Ret (inr _) =>
      let c := fresh "c" in let Hc := fresh "Hlook" in
      apply look_yields in H as (c & Hc & H); cbv beta zeta in H
  | re_operator _ _ _ _ = Ret (inr _) => unfold re_operator in H
  | (if ?b then _ else _) = Ret (inr _) => let E := fresh "E" in destruct b eqn:E
  | yields _ = Ret (inr _) => unfold yields in H; injection H; clear H; intros; subst
  end.

(** ** Shape *)

(** Every type in a tree has the property. *)
Fixpoint re_forall (P : re_type → Prop) (r : re) : Prop :=
  match r with
  | RE_NULL => True
  | Re t owner next => P t ∧ re_forall P owner ∧ re_forall P next
  end.

Lemma re_forall_append P a b : re_forall P a → re_forall P b → re_forall P (re_append a b).
Proof. induction a as [|t owner _ next IH]; cbn; [done|]. intros (? & ? & ?). auto. Qed.

Lemma re_forall_mono (P Q : re_type → Prop) r : (∀ t, P t → Q t) → re_forall P r → re_forall Q r.
Proof. intros H. induction r as [|t owner IHo next IHn]; cbn; [done|]. intros (? & ? & ?). auto. Qed.

(** A tree of the parser with subexpressions below [num]. *)
Definition well_shaped (num : nat) (r : re) : Prop :=
  parse_tree r ∧ re_forall (λ t, (node_index t < num)%nat) r.

Lemma well_shaped_append num a b : well_shaped num a → well_shaped num b → well_shaped num (re_append a b).
Proof. intros [? ?] [? ?]. split; [by apply parsed_append|by apply re_forall_append]. Qed.

Lemma well_shaped_mono num num' r : (num <= num')%nat → well_shaped num r → well_shaped num' r.
Proof. intros Hn [? H]. split; [done|]. eapply re_forall_mono; [|exact H]. cbn. intros. lia. Qed.

Lemma well_shaped_leaf num t :
  (0 < num)%nat → match t with
                  | RE_TYPE_BOL | RE_TYPE_EOL | RE_TYPE_CHAR _ | RE_TYPE_ANY_CHAR | RE_TYPE_SET _ => True
                  | _ => False
                  end → well_shaped num (leaf t).
Proof. intros Hn Ht. destruct t; try done; by repeat split. Qed.

(** Numbers are not negative. *)
Lemma strtol_loop_nonneg base s result overflow num r o n rest :
  2 <= base → 0 <= result →
  strtol_loop ulong_type base false s result overflow num = Ret (r, o, n, rest) → 0 <= r.
Proof.
  intros Hb. revert result overflow num. induction s as [|c s IH]; intros result overflow num Hr; cbn [strtol_loop]; [done|].
  case_if; [by intros [= <- <- <- <-]|]. cbv zeta.
  destruct ((debase c <? 0) || (base <=? debase c)) eqn:E; [by intros [= <- <- <- <-]|]. b2p.
  destruct overflow; [by apply IH|].
  destruct (strtol_digit ulong_type base false result (debase c)) as [r'|] eqn:Ed; apply IH; [|done].
  revert Ed. unfold strtol_digit. cbn [negb andb]. b2p_if; try done; intros [= <-]; nia.
Qed.

Lemma strtoumax_nonneg s v rest e : strtoumax s 10 = Ret (v, rest, e) → 0 <= v.
Proof.
  unfold strtoumax, STRTOL. cbn [Z.ltb Z.eqb Z.compare Pos.compare Pos.compare_cont orb Pos.eqb].
  destruct (skip_spaces s) as [s1| |]; cbn [mbind outcome_bind]; try done.
  destruct (strtol_sign s1) as [[neg s2]| |]; cbn [mbind outcome_bind]; try done.
  cbn [strtol_prefix Z.eqb Pos.eqb mbind outcome_bind INT_IS_UNSIGNED ulong_type negb andb].
  destruct (strtol_loop _ 10 false s2 0 false 0) as [[[[r o] n] s3]| |] eqn:El; cbn [mbind outcome_bind]; try done.
  apply strtol_loop_nonneg in El; [|lia..]. destruct (n =? 0); intros [= <- _ _];
    destruct neg; [destruct o; [done|]; apply wrapu_range; lia|done|destruct o; [done|]; apply wrapu_range; lia|done].
Qed.

Section Flavour.
Context (ext erange : bool).

Lemma re_parse_number_range pattern v rest :
  re_parse_number erange pattern = Ret (inr (v, rest)) → 0 <= v <= SIZE_MAX.
Proof.
  unfold re_parse_number. destruct (strtoumax pattern 10) as [[[v' rest'] e]| |] eqn:E; try done.
  apply strtoumax_nonneg in E. cbv zeta.
  destruct (_ || _) eqn:Eb; [done|]. intros [= <- <-]. b2p. lia.
Qed.

Lemma re_parse_interval_range pattern min max rest :
  re_parse_interval ext erange pattern = Ret (inr (min, max, rest)) → 0 <= min <= max ∧ max <= SIZE_MAX.
Proof.
  unfold re_parse_interval. intros H. parse_inv H.
  apply re_parse_number_range in Hrun. unfold re_parse_bound in Hrun0. parse_inv Hrun0.
  all: try (apply re_parse_number_range in Hrun2; b2p); lia.
Qed.

Lemma re_parse_repeat_shape num item pattern r rest :
  (0 < num)%nat → is_item item → well_shaped num item →
  re_parse_repeat ext erange item pattern = Ret (inr (r, rest)) → well_shaped num r.
Proof.
  intros Hn Hi Hs H. unfold re_parse_repeat in H.
  assert (Hrep : ∀ min max, 0 <= min <= max ∧ max <= SIZE_MAX →
            well_shaped num (Re (RE_TYPE_REPETITION min max) item RE_NULL)).
  { intros min max [[? ?] ?]. destruct Hs. by repeat split. }
  assert (0 <= 0 <= SIZE_MAX) by done. assert (0 <= 1 <= SIZE_MAX) by done.
  parse_inv H; try done; apply Hrep; first [by eapply re_parse_interval_range|lia].
Qed.

(** ** The state of the parser *)

Definition group_ok (num : nat) (g : re_group) : Prop :=
  Forall (well_shaped num) (alternatives g) ∧ well_shaped num (chain g).

Definition state_ok (st : re_parse_state) : Prop :=
  (0 < subexpr_num st)%nat ∧ group_ok (subexpr_num st) (innermost st) ∧
  Forall (λ x, (x.1 < subexpr_num st)%nat ∧ group_ok (subexpr_num st) x.2) (subexpr st).

Lemma group_re_shape num g : (0 < num)%nat → group_ok num g → well_shaped num (group_re g).
Proof.
  intros Hn [Ha Hc]. unfold group_re. revert Hc. generalize (chain g).
  induction Ha as [|next alts Hnext _ IH]; intros split Hs; cbn [fold_left]; [done|].
  apply IH. destruct Hs, Hnext. by repeat split.
Qed.

Lemma group_append_ok num g item : group_ok num g → well_shaped num item → group_ok num (group_append g item).
Proof. intros [? ?] ?. split; [done|]. by apply well_shaped_append. Qed.

Lemma group_ok_mono num num' g : (num <= num')%nat → group_ok num g → group_ok num' g.
Proof.
  intros Hn [Ha Hc]. split; [|by eapply well_shaped_mono].
  eapply Forall_impl; [exact Ha|]. intros r. by apply well_shaped_mono.
Qed.

Lemma parse_append_ok st item : state_ok st → well_shaped (subexpr_num st) item → state_ok (parse_append st item).
Proof. intros (? & ? & ?) ?. split_and!; [done|by apply group_append_ok|done]. Qed.

Lemma subexpression_shape num index owner :
  (index < num)%nat → well_shaped num owner → well_shaped num (re_subexpression index owner).
Proof. intros Hi [? ?]. by repeat split. Qed.

Lemma re_parse_set_atom pattern t rest : re_parse_set pattern = Ret (inr (t, rest)) → is_atom t.
Proof. unfold re_parse_set. intros H. by parse_inv H. Qed.

Lemma re_parse_round_ok st c escaped pattern st' rest :
  state_ok st → re_parse_round ext erange st c escaped pattern = Ret (inr (st', rest)) → state_ok st'.
Proof.
  intros Hst H. pose proof Hst as (Hn & Hg & Hsub). unfold re_parse_round in H.
  assert (Hitem : ∀ t p r rest, is_atom t →
    re_parse_repeat ext erange (leaf t) p = Ret (inr (r, rest)) → state_ok (parse_append st r)).
  { intros t p r1 rest1 Ht Hp. apply parse_append_ok; [done|].
    eapply re_parse_repeat_shape; [done| | |done]; [by constructor|].
    apply well_shaped_leaf; [done|by destruct t]. }
  destruct (_ && (c =? ch ")")).
  { destruct (subexpr st) as [|[index outer] stack]; [done|]. parse_inv H.
    apply Forall_cons in Hsub as [[Hix Hout] Hsub]. cbn [fst snd] in *.
    apply parse_append_ok; [done|]. eapply re_parse_repeat_shape; [done| | |done]; [constructor|].
    apply subexpression_shape; [done|]. by apply group_re_shape. }
  parse_inv H; try (by apply parse_append_ok; [|apply well_shaped_leaf]).
  - split_and!; [done| |done]. destruct Hg. by split; [constructor|].
  - split_and!; [cbn; lia|by split; [constructor|]|]. cbn [subexpr subexpr_num].
    constructor; [split; [cbn; lia|]|].
    + eapply group_ok_mono; [|exact Hg]. lia.
    + eapply Forall_impl; [exact Hsub|]. intros [ix g] [? ?]. cbn in *. split; [lia|].
      eapply group_ok_mono; [|done]. lia.
  - eapply Hitem; [|done]. by eapply re_parse_set_atom.
  - by eapply Hitem; [|done].
  - by eapply Hitem; [|done].
Qed.

(** Every tree the parser returns is well-shaped. *)
Lemma re_parse_shape pattern r num :
  re_parse ext erange pattern = Ret (inr (r, num)) → (0 < num)%nat ∧ well_shaped num r.
Proof.
  unfold re_parse. assert (Hst : state_ok re_parse_init) by (split_and!; [cbn; lia|by split; [constructor|]|constructor]).
  revert Hst. generalize re_parse_init as st, (S (length pattern)) as fuel. intros st fuel. revert st pattern.
  induction fuel as [|fuel IH]; intros st pattern Hst H; [done|]. cbn [re_parse_loop] in H. parse_inv H.
  - pose proof Hst as (Hn & Hg & _). split; [done|]. by apply group_re_shape.
  - eapply IH; [|exact H]. by eapply re_parse_round_ok.
Qed.

End Flavour.

(** ** Parsing ends *)

(** The parser returns, and a value it yields has at most the measure [n]. *)
Definition bounded {A} (measure : A → nat) (n : nat) (p : parser A) : Prop :=
  match p with
  | Ret (inr a) => (measure a <= n)%nat
  | OutOfFuel => False
  | _ => True
  end.

Lemma bounded_bind {A B} (f : A → nat) (g : B → nat) n m p (k : A → parser B) :
  bounded f n p → (∀ a, (f a <= n)%nat → bounded g m (k a)) → bounded g m (parse_bind p k).
Proof. destruct p as [[e|a]| |]; cbn; auto. Qed.

Lemma bounded_look {A} (f : A → nat) n pattern i k :
  (∀ c, pattern !! i = Some c → bounded f n (k c)) → bounded f n (look pattern i k).
Proof. intros H. unfold look. destruct (pattern !! i); [by apply H|done]. Qed.

Lemma bounded_if {A} (f : A → nat) n (b : bool) p q :
  bounded f n p → bounded f n q → bounded f n (if b then p else q).
Proof. by destruct b. Qed.

Lemma bounded_fails {A} (f : A → nat) n e : bounded f n (fails e).
Proof. done. Qed.

Lemma bounded_yields {A} (f : A → nat) n a : (f a <= n)%nat → bounded f n (yields a).
Proof. done. Qed.

(** What is left of the pattern. *)
Definition rest_length {A} (x : A * list Z) : nat := length x.2.

Create HintDb parse_ends discriminated.
#[local] Hint Resolve bounded_fails bounded_if : parse_ends.
#[local] Hint Extern 1 (bounded _ _ (look _ _ _)) => apply bounded_look; intros : parse_ends.
#[local] Hint Extern 2 (bounded _ _ (yields _)) =>
  apply bounded_yields; unfold rest_length in *; cbn [fst snd length] in *; rewrite ?length_drop; lia : parse_ends.

Lemma skip_spaces_ends s : match skip_spaces s with Ret s' => (length s' <= length s)%nat | OutOfFuel => False | Undef => True end.
Proof. induction s as [|c s IH]; cbn [skip_spaces]; [done|]. case_if; [|done]. destruct (skip_spaces s); cbn; auto. Qed.

Lemma strtol_loop_ends ty base neg s result overflow num :
  match strtol_loop ty base neg s result overflow num with
  | Ret (_, _, _, s') => (length s' <= length s)%nat | OutOfFuel => False | Undef => True end.
Proof.
  revert result overflow num. induction s as [|c s IH]; intros result overflow num; cbn [strtol_loop]; [done|].
  case_if; [done|]. cbv zeta. destruct (_ || _); [done|].
  assert (H : ∀ r o n, match strtol_loop ty base neg s r o n with
    | Ret (_, _, _, s') => (length s' <= length (c :: s))%nat | OutOfFuel => False | Undef => True end).
  { intros r o n. specialize (IH r o n). destruct (strtol_loop _ _ _ _ _ _ _) as [[[[? ?] ?] ?]| |]; cbn; auto. }
  destruct overflow; [apply H|]. destruct (strtol_digit _ _ _ _ _); apply H.
Qed.

Lemma strtoumax_ends s :
  match strtoumax s 10 with Ret (_, s', _) => (length s' <= length s)%nat | OutOfFuel => False | Undef => True end.
Proof.
  unfold strtoumax, STRTOL. cbn [Z.ltb Z.eqb Z.compare Pos.compare Pos.compare_cont orb Pos.eqb].
  pose proof (skip_spaces_ends s) as H1. destruct (skip_spaces s) as [s1| |]; cbn [mbind outcome_bind]; try done.
  unfold strtol_sign, peek. destruct (s1 !! 0%nat) as [c|]; cbn [mbind outcome_bind]; [|done].
  set (sg := if c =? _ then _ else _). assert (H2 : (length sg.2 <= length s1)%nat).
  { subst sg. b2p_if; cbn [snd]; rewrite ?length_drop; lia. }
  destruct sg as [neg s2]. cbn [strtol_prefix Z.eqb Pos.eqb mbind outcome_bind INT_IS_UNSIGNED ulong_type negb andb snd] in *.
  pose proof (strtol_loop_ends ulong_type 10 false s2 0 false 0) as H3.
  destruct (strtol_loop _ _ _ _ _ _ _) as [[[[r o] n] s3]| |]; cbn [mbind outcome_bind]; try done.
  destruct (n =? 0); lia.
Qed.

Section Ends.
Context (ext erange : bool).

Lemma re_parse_number_ends pattern : bounded rest_length (length pattern) (re_parse_number erange pattern).
Proof.
  unfold re_parse_number. pose proof (strtoumax_ends pattern) as H.
  destruct (strtoumax pattern 10) as [[[v rest] e]| |]; [|done..]. cbv zeta. by apply bounded_if.
Qed.

Lemma re_parse_set_loop_ends pattern set :
  bounded rest_length (length pattern) (re_parse_set_loop pattern set).
Proof.
  assert (H : ∀ n pattern set, (length pattern <= n)%nat → bounded rest_length n (re_parse_set_loop pattern set)).
  { intros n. induction n as [|n IH]; intros [|c0 p1] st Hlen; cbn [length re_parse_set_loop] in *; try done; [lia|].
    assert (IH' : ∀ p st, (length p <= n)%nat → bounded rest_length (S n) (re_parse_set_loop p st)).
    { intros p st' Hp. specialize (IH p st' Hp). destruct (re_parse_set_loop p st') as [[e|[? ?]]| |]; cbn in *; lia. }
    apply bounded_if; [apply bounded_yields; unfold rest_length; cbn; lia|]. apply bounded_if; [done|].
    destruct p1 as [|c1 p2]; [done|]. cbn [length] in *. apply bounded_if; [|apply IH'; cbn; lia].
    destruct p2 as [|c2 p3]; [done|]. cbn [length] in *.
    apply bounded_if; apply IH'; cbn [length]; lia. }
  by apply H.
Qed.

Lemma re_parse_set_ends pattern : bounded rest_length (length pattern) (re_parse_set pattern).
Proof.
  unfold re_parse_set. apply bounded_look. intros c _. cbv zeta. apply bounded_look. intros c' _.
  eapply bounded_bind; [apply re_parse_set_loop_ends|]. intros [st p] Hp. apply bounded_yields.
  unfold rest_length in *. cbn [snd] in *. rewrite length_drop. destruct (c =? ch "^"); rewrite ?length_drop in *; lia.
Qed.

Lemma re_parse_bound_ends min pattern : bounded rest_length (length pattern) (re_parse_bound erange min pattern).
Proof.
  unfold re_parse_bound. apply bounded_look. intros c _. apply bounded_if; [|auto with parse_ends].
  cbv zeta. apply bounded_look. intros c' _. apply bounded_if; [|auto with parse_ends].
  eapply bounded_bind; [apply re_parse_number_ends|]. intros [v p] Hp. unfold rest_length in *. cbn [snd] in *.
  rewrite length_drop in Hp. apply bounded_if; auto with parse_ends.
Qed.

Lemma re_parse_close_brace_ends pattern : bounded length (length pattern) (re_parse_close_brace ext pattern).
Proof.
  unfold re_parse_close_brace.
  assert (∀ n, bounded length (length pattern) (yields (drop n pattern))).
  { intros n. apply bounded_yields. rewrite length_drop. lia. }
  apply bounded_if; auto 10 with parse_ends.
Qed.

Lemma re_parse_interval_ends pattern : bounded rest_length (length pattern) (re_parse_interval ext erange pattern).
Proof.
  unfold re_parse_interval. apply bounded_look. intros c _. apply bounded_if; [done|].
  eapply bounded_bind; [apply re_parse_number_ends|]. intros [min p] Hp.
  eapply bounded_bind; [apply re_parse_bound_ends|]. intros [max p'] Hp'.
  eapply bounded_bind; [apply re_parse_close_brace_ends|]. intros p'' Hp''.
  unfold rest_length in *. cbn [snd] in *. apply bounded_yields. cbn [snd]. lia.
Qed.

Lemma bounded_operator {A} (f : A → nat) n pattern c k :
  (∀ b, bounded f n (k b)) → bounded f n (re_operator ext pattern c k).
Proof. intros H. unfold re_operator. apply bounded_look. intros c0 _. auto 10 with parse_ends. Qed.

Lemma re_parse_repeat_ends item pattern :
  bounded rest_length (length pattern) (re_parse_repeat ext erange item pattern).
Proof.
  unfold re_parse_repeat. cbv zeta. unfold after_operator.
  apply bounded_operator. intros b. apply bounded_if.
  { eapply bounded_bind; [apply re_parse_interval_ends|]. intros [[min max] p] Hp.
    unfold rest_length in *. cbn [snd] in *. rewrite length_drop in Hp. auto with parse_ends. }
  apply bounded_look. intros c _. apply bounded_if; [auto with parse_ends|].
  apply bounded_operator. intros b'. apply bounded_if; [auto with parse_ends|].
  apply bounded_operator. intros b''. apply bounded_if; auto with parse_ends.
Qed.

Lemma re_parse_round_ends st c escaped pattern :
  bounded rest_length (length pattern) (re_parse_round ext erange st c escaped pattern).
Proof.
  assert (Hitem : ∀ st r p, (length p <= length pattern)%nat → bounded rest_length (length pattern)
    (parse_bind (re_parse_repeat ext erange r p) (λ '(r, p), yields (parse_append st r, p)))).
  { intros st' r p Hp. eapply bounded_bind; [apply re_parse_repeat_ends|]. intros [r' p'] Hp'.
    unfold rest_length in *. cbn [snd] in *. auto with parse_ends. }
  unfold re_parse_round. cbv zeta.
  apply bounded_if; [destruct (subexpr st) as [|[index outer] stack]; [done|by apply Hitem]|].
  do 8 (apply bounded_if; [auto with parse_ends|]).
  apply bounded_if.
  { eapply bounded_bind; [apply re_parse_set_ends|]. intros [t p] Hp. by apply Hitem. }
  apply bounded_if; [done|]. by apply bounded_if; apply Hitem.
Qed.

Lemma re_parse_char_ends c pattern : bounded rest_length (length pattern) (re_parse_char ext c pattern).
Proof. unfold re_parse_char. apply bounded_if; [|auto with parse_ends]. apply bounded_look. intros c' _. auto 10 with parse_ends. Qed.

(** The loop ends on every pattern. *)
Lemma re_parse_ends pattern : re_parse ext erange pattern ≠ OutOfFuel.
Proof.
  unfold re_parse. generalize re_parse_init as st. intros st.
  assert (Hlen : (length pattern < S (length pattern))%nat) by lia. revert st Hlen.
  generalize (S (length pattern)) as fuel. intros fuel. revert pattern.
  induction fuel as [|fuel IH]; intros pattern st Hlen; [lia|]. cbn [re_parse_loop].
  unfold look. destruct pattern as [|c pattern]; cbn [lookup list_lookup]; [done|].
  destruct (c =? 0); [by destruct (subexpr st)|]. cbn [length] in *. rewrite skipn_cons, drop_0.
  pose proof (re_parse_char_ends c pattern) as H1.
  destruct (re_parse_char ext c pattern) as [[e|[[c' esc] p1]]| |]; cbn [parse_bind]; try done.
  pose proof (re_parse_round_ends st c' esc p1) as H2.
  destruct (re_parse_round ext erange st c' esc p1) as [[e|[st' p2]]| |]; cbn [parse_bind]; try done.
  unfold bounded, rest_length in *. cbn [snd] in *. apply IH. lia.
Qed.

End Ends.

(** ** Parsing stays inside the pattern *)

(** A terminated pattern whose last character is not a hyphen, which could start a
    range that has no end. *)
Definition terminated (pattern : list Z) : Prop :=
  ∃ s, pattern = s ++ [0] ∧ last s ≠ Some (ch "-").

Lemma terminated_next c p : terminated (c :: p) → c ≠ 0 ∨ p ≠ [] → terminated p.
Proof.
  intros ([|c' s] & Heq & Hl) Hc; cbn in Heq; injection Heq as -> ->; [by destruct Hc|].
  exists s. split; [done|]. destruct s; [done|exact Hl].
Qed.

Lemma terminated_cons p : terminated p → ∃ c p', p = c :: p'.
Proof. intros ([|c s] & -> & _); cbn; eauto. Qed.

(** The parser reads nothing past the pattern, and a value it yields has the
    property. *)
Definition inside {A} (P : A → Prop) (p : parser A) : Prop :=
  match p with
  | Ret (inr a) => P a
  | Undef => False
  | _ => True
  end.

Definition rest_terminated {A} (x : A * list Z) : Prop := terminated x.2.

Lemma inside_bind {A B} (P : A → Prop) (Q : B → Prop) p k :
  inside P p → (∀ a, P a → inside Q (k a)) → inside Q (parse_bind p k).
Proof. destruct p as [[e|a]| |]; cbn; auto. Qed.

Lemma inside_look {A} (P : A → Prop) pattern k :
  terminated pattern → (∀ c p, pattern = c :: p → inside P (k c)) → inside P (look pattern 0 k).
Proof. intros Ht H. destruct (terminated_cons _ Ht) as (c & p & ->). by apply (H c p). Qed.

Lemma skip_spaces_inside s : terminated s → ∃ s', skip_spaces s = Ret s' ∧ terminated s'.
Proof.
  induction s as [|c s IH]; intros Ht; [by destruct (terminated_cons _ Ht) as (? & ? & ?)|]. cbn [skip_spaces].
  destruct (Ctype.isspace c) eqn:E; [|eauto]. apply IH, (terminated_next c); [done|left]. by intros ->.
Qed.

Lemma strtol_loop_inside ty base neg s result overflow num :
  terminated s → ∃ r o n s', strtol_loop ty base neg s result overflow num = Ret (r, o, n, s') ∧ terminated s'.
Proof.
  revert result overflow num. induction s as [|c s IH]; intros result overflow num Ht;
    [by destruct (terminated_cons _ Ht) as (? & ? & ?)|]. cbn [strtol_loop].
  destruct (Z.eqb_spec c 0) as [|Hc]; [eauto 10|]. cbv zeta. destruct (_ || _); [eauto 10|].
  assert (terminated s) by (apply (terminated_next c); auto).
  destruct overflow; [auto|]. destruct (strtol_digit _ _ _ _ _); auto.
Qed.

Lemma strtoumax_inside s : terminated s → ∃ v s' e, strtoumax s 10 = Ret (v, s', e) ∧ terminated s'.
Proof.
  intros Ht. unfold strtoumax, STRTOL. cbn [Z.ltb Z.eqb Z.compare Pos.compare Pos.compare_cont orb Pos.eqb].
  destruct (skip_spaces_inside s Ht) as (s1 & -> & Ht1). cbn [mbind outcome_bind].
  destruct (terminated_cons _ Ht1) as (c & s1' & ->). unfold strtol_sign, peek. cbn [lookup list_lookup mbind outcome_bind].
  set (sg := if c =? _ then _ else _). assert (H2 : terminated sg.2).
  { subst sg. b2p_if; cbn [snd]; rewrite ?skipn_cons, ?drop_0; try done; apply (terminated_next c); auto; left; by subst c. }
  destruct sg as [neg s2]. cbn [strtol_prefix Z.eqb Pos.eqb mbind outcome_bind INT_IS_UNSIGNED ulong_type negb andb snd] in *.
  destruct (strtol_loop_inside ulong_type 10 false s2 0 false 0 H2) as (r & o & n & s3 & -> & Ht3). cbn [mbind outcome_bind].
  destruct (n =? 0); eauto 10.
Qed.

Section Inside.
Context (ext erange : bool).

Lemma re_parse_number_inside pattern :
  terminated pattern → inside rest_terminated (re_parse_number erange pattern).
Proof.
  intros Ht. unfold re_parse_number. destruct (strtoumax_inside pattern Ht) as (v & rest & e & -> & Hr).
  cbv zeta. by destruct (_ || _).
Qed.

Lemma re_parse_set_loop_inside pattern set :
  terminated pattern →
  inside (λ x, ∃ p, x.2 = ch "]" :: p ∧ terminated p) (re_parse_set_loop pattern set).
Proof.
  assert (H : ∀ n pattern set, (length pattern <= n)%nat → terminated pattern →
            inside (λ x, ∃ p, x.2 = ch "]" :: p ∧ terminated p) (re_parse_set_loop pattern set)).
  { intros n. induction n as [|n IH]; intros p st Hlen Ht; destruct (terminated_cons _ Ht) as (c0 & p1 & ->);
      cbn [length re_parse_set_loop] in *; [lia|].
    destruct (Z.eqb_spec c0 (ch "]")) as [->|_]; [exists p1; split; [done|]; by apply (terminated_next (ch "]")); auto|].
    destruct (Z.eqb_spec c0 0) as [|Hc0]; [done|].
    assert (Ht1 : terminated p1) by (apply (terminated_next c0); auto).
    destruct (terminated_cons _ Ht1) as (c1 & p2 & ->). cbn [length] in *.
    destruct (Z.eqb_spec c1 (ch "-")) as [->|_]; [|apply IH; [cbn; lia|done]].
    assert (Ht2 : terminated p2) by (apply (terminated_next (ch "-")); auto).
    destruct (terminated_cons _ Ht2) as (c2 & p3 & ->). cbn [length] in *.
    destruct (c2 =? ch "]"); (apply IH; [cbn; lia|]); [done|].
    apply (terminated_next c2); [done|right]. intros ->.
    destruct Ht1 as ([|? [|? s]] & Heq & Hl); cbn in Heq; try discriminate Heq.
    - injection Heq as <- _. by apply Hl.
    - injection Heq as _ _ Heq. by destruct s. }
  intros Ht. by apply (H (length pattern)).
Qed.

Lemma re_parse_set_inside pattern : terminated pattern → inside rest_terminated (re_parse_set pattern).
Proof.
  intros Ht. unfold re_parse_set. apply inside_look; [done|]. intros c p ->. cbv zeta.
  assert (Ht' : terminated (if c =? ch "^" then drop 1 (c :: p) else c :: p)).
  { destruct (Z.eqb_spec c (ch "^")) as [->|_]; [|done]. rewrite skipn_cons, drop_0. by apply (terminated_next (ch "^")); auto. }
  apply inside_look; [done|]. intros c' p' _. eapply inside_bind; [by apply re_parse_set_loop_inside|].
  intros [st q] (q' & Heq & Hq). cbn [snd] in Heq. subst q. unfold rest_terminated. cbn. by rewrite drop_0.
Qed.

Lemma re_parse_bound_inside min pattern :
  terminated pattern → inside rest_terminated (re_parse_bound erange min pattern).
Proof.
  intros Ht. unfold re_parse_bound. apply inside_look; [done|]. intros c p ->.
  destruct (Z.eqb_spec c (ch ",")) as [->|_]; [|done]. cbv zeta. rewrite skipn_cons, drop_0.
  assert (Hp : terminated p) by (apply (terminated_next (ch ",")); auto).
  apply inside_look; [done|]. intros c' p' _. destruct (isdigit_char c'); [|done].
  eapply inside_bind; [by apply re_parse_number_inside|]. intros [v q] Hq. by destruct (_ <? _).
Qed.

Lemma inside_operator {A} (P : A → Prop) pattern c k :
  c ≠ 0 → terminated pattern → inside P (k false) →
  (terminated (after_operator ext pattern) → inside P (k true)) → inside P (re_operator ext pattern c k).
Proof.
  intros Hc Ht Hf Hk. unfold re_operator. apply inside_look; [done|]. intros c0 p ->. unfold is_basic, after_operator in *.
  destruct ext; cbn [negb] in *; rewrite skipn_cons, ?drop_0 in Hk.
  - destruct (Z.eqb_spec c0 c) as [->|_]; [|done]. apply Hk, (terminated_next c); auto.
  - destruct (Z.eqb_spec c0 (ch "\")) as [->|_]; [|done]. change (look (ch "\" :: p) 1) with (@look A p 0).
    assert (Hp : terminated p) by (apply (terminated_next (ch "\")); auto).
    apply inside_look; [done|]. intros c1 q ->. destruct (Z.eqb_spec c1 c) as [->|_]; [|done].
    rewrite skipn_cons, drop_0 in Hk. apply Hk, (terminated_next c); auto.
Qed.

(** The closing brace is an operator like the others. *)
Lemma re_parse_close_brace_inside pattern :
  terminated pattern → inside terminated (re_parse_close_brace ext pattern).
Proof.
  intros Ht. assert (H : inside terminated (re_operator ext pattern (ch "}")
    (λ b, if negb b then fails REG_BADBR else yields (after_operator ext pattern)))) by (apply inside_operator; done).
  revert H. unfold re_operator, re_parse_close_brace, after_operator, is_basic. destruct ext; cbn [negb]; [done|].
  unfold look. destruct (pattern !! 0%nat) as [c|]; [|done]. by destruct (c =? ch "\").
Qed.

Lemma re_parse_interval_inside pattern :
  terminated pattern → inside rest_terminated (re_parse_interval ext erange pattern).
Proof.
  intros Ht. unfold re_parse_interval. apply inside_look; [done|]. intros c p ->. destruct (negb _); [done|].
  eapply inside_bind; [by apply re_parse_number_inside|]. intros [min p1] Hp1.
  eapply inside_bind; [by apply re_parse_bound_inside|]. intros [max p2] Hp2.
  eapply inside_bind; [by apply re_parse_close_brace_inside|]. done.
Qed.

Lemma re_parse_repeat_inside item pattern :
  terminated pattern → inside rest_terminated (re_parse_repeat ext erange item pattern).
Proof.
  intros Ht. unfold re_parse_repeat. cbv zeta. apply inside_operator; [done|done| |].
  2: { intros Ha. eapply inside_bind; [by apply re_parse_interval_inside|]. by intros [[min max] p] Hp. }
  apply inside_look; [done|]. intros c p ->. destruct (Z.eqb_spec c (ch "*")) as [->|_].
  { unfold rest_terminated. cbn. rewrite drop_0. by apply (terminated_next (ch "*")); auto. }
  apply inside_operator; [done|done| |done]. by apply inside_operator.
Qed.

Lemma re_parse_round_inside st c escaped pattern :
  terminated pattern → inside rest_terminated (re_parse_round ext erange st c escaped pattern).
Proof.
  intros Ht.
  assert (Hitem : ∀ st r p, terminated p → inside rest_terminated
    (parse_bind (re_parse_repeat ext erange r p) (λ '(r, p), yields (parse_append st r, p)))).
  { intros st' r p Hp. eapply inside_bind; [by apply re_parse_repeat_inside|]. by intros [r' p'] Hp'. }
  unfold re_parse_round. cbv zeta.
  destruct (_ && _); [destruct (subexpr st) as [|[index outer] stack]; [done|by apply Hitem]|].
  repeat (case_match; [done|]).
  case_match; [|case_match; [done|by case_match; apply Hitem]].
  eapply inside_bind; [by apply re_parse_set_inside|]. intros [t p] Hp. by apply Hitem.
Qed.

Lemma re_parse_char_inside c pattern :
  terminated pattern → inside rest_terminated (re_parse_char ext c pattern).
Proof.
  intros Ht. unfold re_parse_char. destruct (c =? ch "\"); [|done]. apply inside_look; [done|]. intros c' p ->.
  destruct (Z.eqb_spec c' 0) as [|Hc]; [done|]. do 2 (case_match; [done|]).
  unfold rest_terminated. cbn. rewrite drop_0. apply (terminated_next c'); auto.
Qed.

(** The parser reads nothing past such a pattern. *)
Lemma re_parse_inside pattern : terminated pattern → re_parse ext erange pattern ≠ Undef.
Proof.
  unfold re_parse. generalize re_parse_init as st, (S (length pattern)) as fuel. intros st fuel. revert st pattern.
  induction fuel as [|fuel IH]; intros st pattern Ht; [done|]. cbn [re_parse_loop].
  destruct (terminated_cons _ Ht) as (c & p & ->). unfold look. cbn [lookup list_lookup].
  destruct (Z.eqb_spec c 0) as [|Hc]; [by destruct (subexpr st)|]. rewrite skipn_cons, drop_0.
  pose proof (re_parse_char_inside c p (terminated_next c p Ht (or_introl Hc))) as H1.
  destruct (re_parse_char ext c p) as [[e|[[c' esc] p1]]| |]; cbn [parse_bind inside] in *; try done.
  pose proof (re_parse_round_inside st c' esc p1 H1) as H2.
  destruct (re_parse_round ext erange st c' esc p1) as [[e|[st' p2]]| |]; cbn [parse_bind inside] in *; try done.
  by apply IH.
Qed.

End Inside.

(** ** Freeing *)

(** The nodes of a tree. *)
Fixpoint re_types (r : re) : list re_type :=
  match r with
  | RE_NULL => []
  | Re t owner next => t :: re_types owner ++ re_types next
  end.

(** Only the types [regfree] looks into have a nested chain. *)
Fixpoint owns_well (r : re) : Prop :=
  match r with
  | RE_NULL => True
  | Re t owner next => (is_owning t = false → owner = RE_NULL) ∧ owns_well owner ∧ owns_well next
  end.

Lemma parsed_owns_well r : parse_tree r → owns_well r.
Proof.
  induction r as [|t owner IHo next IHn]; [done|]. intros Hp. destruct (parsed_owner _ _ _ Hp) as [Ho Hn].
  destruct Hp as [Hp _]. cbn. split_and!; [by destruct t|auto..].
Qed.

(** The nodes of the parents whose nested chains are being freed. *)
Definition parent_types (parents : list (re_type * re)) : list re_type :=
  concat (map (λ x, x.1 :: re_types x.2) parents).

Definition regfree_measure (r : re) (parents : list (re_type * re)) : nat :=
  2 * length (re_types r) + sum_list_with (λ x, 1 + 2 * length (re_types x.2))%nat parents.

Lemma regfree_loop_run fuel r parents freed :
  owns_well r → Forall (λ x, owns_well x.2) parents → (r = RE_NULL → parents = []) →
  (regfree_measure r parents < fuel)%nat →
  ∃ order, regfree_loop fuel r parents freed = Ret (freed ++ order) ∧
    order ≡ₚ re_types r ++ parent_types parents.
Proof.
  revert r parents freed. induction fuel as [|fuel IH]; intros r parents freed Hr Hps Hnull Hm; [lia|].
  destruct r as [|t owner next]; cbn [regfree_loop].
  { rewrite (Hnull eq_refl). exists []. by rewrite app_nil_r. }
  destruct Hr as (Hleaf & Ho & Hn). unfold regfree_measure in *. cbn [re_types length] in Hm. rewrite length_app in Hm.
  destruct (is_owning t && bool_decide (owner ≠ RE_NULL)) eqn:Eo.
  { apply andb_true_iff in Eo as [_ Eo%bool_decide_eq_true].
    destruct (IH owner ((t, next) :: parents) freed) as (order & -> & Hp); [done|by constructor|done|cbn [sum_list_with snd]; lia|].
    exists order. split; [done|]. rewrite Hp. unfold parent_types. cbn. solve_Permutation. }
  assert (owner = RE_NULL) as ->.
  { apply andb_false_iff in Eo as [?|Eo%bool_decide_eq_false]; [auto|]. by destruct (decide (owner = RE_NULL)). }
  cbn [re_types app length] in *. clear Eo Hleaf Ho Hnull.
  assert (Hskip : next ≠ RE_NULL ∨ parents = [] → ∃ order, regfree_loop fuel next parents (freed ++ [t]) = Ret (freed ++ order) ∧
            order ≡ₚ t :: re_types next ++ parent_types parents).
  { intros Hc. destruct (IH next parents (freed ++ [t])) as (order & -> & Hp); [done|done|by destruct Hc|lia|].
    exists (t :: order). split; [by rewrite <- app_assoc|]. by rewrite Hp. }
  destruct next as [|t1 o1 n1]; [|apply Hskip; by left].
  destruct parents as [|[t' next'] parents]; [apply Hskip; by right|]. clear Hskip.
  apply Forall_cons in Hps as [Hp' Hps]. cbn [sum_list_with snd length] in Hm, Hp'.
  destruct (IH (Re t' RE_NULL next') parents (freed ++ [t])) as (order & -> & Hp); [done|done|done|cbn [re_types app length]; lia|].
  exists (t :: order). split; [by rewrite <- app_assoc|]. rewrite Hp. unfold parent_types. cbn. solve_Permutation.
Qed.

(** [regfree] frees every node of a tree once. *)
Lemma regfree_frees r :
  parse_tree r → ∃ order, regfree (S (2 * length (re_types r))) r = Ret order ∧ order ≡ₚ re_types r.
Proof.
  intros Hp. destruct (regfree_loop_run (S (2 * length (re_types r))) r [] []) as (order & Hrun & Ho);
    [by apply parsed_owns_well|constructor|done|unfold regfree_measure; cbn [sum_list_with]; lia|].
  exists order. split; [done|]. by rewrite Ho, app_nil_r.
Qed.

End RegexParse.
