(* ===== verification/RegexGrammar.v ===== *)
(** * Regular expressions: the grammar

    Extended regular expressions as the standard's grammar has them: branches
    separated by bars, made of anchors, characters, periods, bracket expressions
    and groups, each with an optional duplication.  [print] is the pattern,
    [build] the tree it stands for; the parser turns the one into the other. *)

From S2P Require Import Prelude Strtol Regcomp RegexSpec.
From stdpp Require Import base decidable list numbers strings.
From Stdlib Require Import ZArith Lia Ascii.

#[local] Open Scope c_scope.
#[local] Open Scope Z_scope.

Module RegexGrammar.
Import Strtol Regex RegexSpec.

(** ** Syntax *)

(** A duplication; numbers are given by their digits. *)
Inductive dup :=
| Once | Star | Plus | Quest
| Exactly (n : list Z) | AtLeast (n : list Z) | Between (n m : list Z).

(** An element of a bracket expression. *)
Inductive bracket_item := Single (c : Z) | Range (c_from c_to : Z).

Inductive atom :=
| AChar (c : Z)
| AAny
| ASet (negated : bool) (items : list bracket_item).

(** A branch, read from left to right, or two alternatives, the first of which
    is a branch. *)
Inductive ere :=
| Empty
| Anchor (bol : bool) (rest : ere)
| Atom (a : atom) (d : dup) (rest : ere)
| Sub (body : ere) (d : dup) (rest : ere)
| Or (e1 e2 : ere).

Fixpoint is_branch (e : ere) : Prop :=
  match e with
  | Empty => True
  | Anchor _ rest | Atom _ _ rest | Sub _ _ rest => is_branch rest
  | Or _ _ => False
  end.

(** ** The pattern *)

Definition print_dup (d : dup) : list Z :=
  match d with
  | Once => []
  | Star => lit "*"
  | Plus => lit "+"
  | Quest => lit "?"
  | Exactly n => lit "{" ++ n ++ lit "}"
  | AtLeast n => lit "{" ++ n ++ lit ",}"
  | Between n m => lit "{" ++ n ++ lit "," ++ m ++ lit "}"
  end.

Definition print_item (i : bracket_item) : list Z :=
  match i with Single c => [c] | Range c_from c_to => [c_from; ch "-"; c_to] end.

Definition print_items (l : list bracket_item) : list Z := concat (map print_item l).

(** Special characters are escaped. *)
Definition print_atom (a : atom) : list Z :=
  match a with
  | AChar c => if re_extended_well_defined_escape c then [ch "\"; c] else [c]
  | AAny => lit "."
  | ASet negated items => lit "[" ++ (if negated then lit "^" else []) ++ print_items items ++ lit "]"
  end.

Fixpoint print (e : ere) : list Z :=
  match e with
  | Empty => []
  | Anchor bol rest => (if bol then lit "^" else lit "$") ++ print rest
  | Atom a d rest => print_atom a ++ print_dup d ++ print rest
  | Sub body d rest => lit "(" ++ print body ++ lit ")" ++ print_dup d ++ print rest
  | Or e1 e2 => print e1 ++ lit "|" ++ print e2
  end.

(** ** The tree *)

Definition number (n : list Z) : Z := digits_value 10 0 n.

Definition dup_re (d : dup) (item : re) : re :=
  let repeated min max := Re (RE_TYPE_REPETITION min max) item RE_NULL in
  match d with
  | Once => item
  | Star => repeated 0 SIZE_MAX
  | Plus => repeated 1 SIZE_MAX
  | Quest => repeated 0 1
  | Exactly n => repeated (number n) (number n)
  | AtLeast n => repeated (number n) SIZE_MAX
  | Between n m => repeated (number n) (number m)
  end.

Definition item_add (set : list Z) (i : bracket_item) : list Z :=
  match i with
  | Single c => set_add_range c c set
  | Range c_from c_to => set_add_range c_from c_to set
  end.

Definition atom_type (a : atom) : re_type :=
  match a with
  | AChar c => RE_TYPE_CHAR c
  | AAny => RE_TYPE_ANY_CHAR
  | ASet negated items =>
      let set := fold_left item_add items empty_set in
      RE_TYPE_SET (if negated then set_negate set else set)
  end.

(** The number of groups. *)
Fixpoint groups (e : ere) : nat :=
  match e with
  | Empty => 0
  | Anchor _ rest | Atom _ _ rest => groups rest
  | Sub body _ rest => S (groups body + groups rest)
  | Or e1 e2 => groups e1 + groups e2
  end.

(** Groups are numbered by their opening parentheses, from [ix] on. *)
Fixpoint build (e : ere) (ix : nat) : re :=
  match e with
  | Empty => RE_NULL
  | Anchor bol rest => Re (if bol then RE_TYPE_BOL else RE_TYPE_EOL) RE_NULL (build rest ix)
  | Atom a d rest => re_append (dup_re d (leaf (atom_type a))) (build rest ix)
  | Sub body d rest =>
      re_append (dup_re d (re_subexpression ix (build body (S ix)))) (build rest (S (ix + groups body)))
  | Or e1 e2 => Re RE_TYPE_ALTERNATIVE (build e2 (ix + groups e1)) (build e1 ix)
  end.

(** ** Well-formed expressions *)

Definition wf_number (n : list Z) : Prop :=
  n ≠ [] ∧ Forall (is_digit 10) n ∧ number n <= SIZE_MAX.

Definition wf_dup (d : dup) : Prop :=
  match d with
  | Once | Star | Plus | Quest => True
  | Exactly n | AtLeast n => wf_number n
  | Between n m => wf_number n ∧ wf_number m ∧ number n <= number m
  end.

Definition plain_char (c : Z) : Prop := 0 < c < 256 ∧ c ≠ ch "]".

(** A hyphen does not follow a single character, or it is the last element. *)
Fixpoint wf_items (l : list bracket_item) : Prop :=
  match l with
  | [] => True
  | i :: l' =>
      match i with
      | Single c => plain_char c ∧
          (head (print_items l') ≠ Some (ch "-") ∨ l' = [Single (ch "-")])
      | Range c_from c_to => plain_char c_from ∧ plain_char c_to
      end ∧ wf_items l'
  end.

Definition wf_atom (a : atom) : Prop :=
  match a with
  | AChar c => 0 < c < 256
  | AAny => True
  | ASet negated items =>
      items ≠ [] ∧ wf_items items ∧ (negated = false → head (print_items items) ≠ Some (ch "^"))
  end.

Fixpoint wf (e : ere) : Prop :=
  match e with
  | Empty => True
  | Anchor _ rest => is_branch rest ∧ wf rest
  | Atom a d rest => wf_atom a ∧ wf_dup d ∧ is_branch rest ∧ wf rest
  | Sub body d rest => wf body ∧ wf_dup d ∧ is_branch rest ∧ wf rest
  | Or e1 e2 => is_branch e1 ∧ wf e1 ∧ wf e2
  end.

(** ** Bracket expressions *)

Lemma re_parse_set_loop_run items set rest :
  wf_items items →
  re_parse_set_loop (print_items items ++ ch "]" :: rest) set =
    yields (fold_left item_add items set, ch "]" :: rest).
Proof.
  revert set. induction items as [|i items IH]; intros set; [done|].
  intros [Hi Hw]. unfold print_items. cbn [map concat fold_left]. rewrite <- app_assoc.
  fold (print_items items). destruct i as [c|c1 c2]; cbn [print_item app re_parse_set_loop].
  - destruct Hi as [[H0 Hb] Hnext].
    rewrite (proj2 (Z.eqb_neq c _)), (proj2 (Z.eqb_neq c 0)) by (done || lia).
    destruct Hnext as [Hhead| ->].
    + destruct (print_items items) as [|c1 l] eqn:Ep; cbn [app].
      * rewrite <- IH by done. done.
      * rewrite (proj2 (Z.eqb_neq c1 (ch "-"))) by (intros ->; by apply Hhead).
        by rewrite <- IH.
    + done.
  - destruct Hi as [[H01 Hb1] [H02 Hb2]].
    rewrite (proj2 (Z.eqb_neq c1 _)), (proj2 (Z.eqb_neq c1 0)) by (done || lia). cbn [Z.eqb Pos.eqb].
    rewrite (proj2 (Z.eqb_neq c2 _)) by done. by apply IH.
Qed.

Lemma re_parse_set_run negated items rest :
  items ≠ [] → wf_items items → (negated = false → head (print_items items) ≠ Some (ch "^")) →
  re_parse_set ((if negated then lit "^" else []) ++ print_items items ++ ch "]" :: rest) =
    yields (atom_type (ASet negated items), rest).
Proof.
  intros Hne Hw Hcaret.
  assert (Hhead : ∃ c l, print_items items ++ ch "]" :: rest = c :: l ∧ c ≠ ch "]" ∧
                  head (print_items items) = Some c).
  { destruct items as [|[c|c1 c2] items]; [done|..]; destruct Hw as [Hi _]; unfold print_items; cbn.
    - destruct Hi as [[? ?] _]. eauto.
    - destruct Hi as [[? ?] _]. eauto. }
  destruct Hhead as (c & l & Hcl & Hc & Hh). unfold re_parse_set.
  destruct negated; cbn [app].
  - unfold look at 1. cbn [lookup list_lookup Z.eqb Pos.eqb drop]. rewrite drop_0, Hcl.
    unfold look. cbn [lookup list_lookup]. rewrite (proj2 (Z.eqb_neq c _)) by done.
    rewrite <- Hcl, re_parse_set_loop_run by done. done.
  - specialize (Hcaret eq_refl). rewrite Hcl. unfold look at 1. cbn [lookup list_lookup].
    rewrite (proj2 (Z.eqb_neq c (ch "^"))) by congruence.
    unfold look. cbn [lookup list_lookup]. rewrite (proj2 (Z.eqb_neq c _)) by done.
    rewrite <- Hcl, re_parse_set_loop_run by done. done.
Qed.

(** ** Duplications *)

Lemma re_parse_number_run n rest :
  wf_number n → stops 10 rest → re_parse_number false (n ++ rest) = yields (number n, rest).
Proof.
  intros (Hne & Hd & Hmax) Hst. unfold re_parse_number, strtoumax.
  destruct (STRTOL_run ulong_type [] false [] [] 10 10 n rest) as (result & overflow & Hrun & Hv & Hinv);
    [by right|done|by right|by constructor|done|done|done|].
  cbn [app] in Hrun. rewrite Hrun. cbn [INT_IS_UNSIGNED ulong_type andb negb] in *. unfold number, in_range in *.
  cbn [overflow_value INT_MAX_ INT_MIN_ ulong_type signed] in Hinv. unfold SIZE_MAX in *.
  destruct overflow; [destruct Hinv; lia|]. destruct Hinv as [-> _]. cbn [signed].
  rewrite (proj2 (Z.ltb_ge _ _)) by lia. done.
Qed.

Lemma digit_isdigit c : is_digit 10 c → isdigit_char c = true.
Proof.
  intros [_ H]. unfold isdigit_char. unfold debase in H.
  destruct ((ch "0" <=? c) && (c <=? ch "9")) eqn:E; [done|]. revert H. clear E. b2p_if; lia.
Qed.

Lemma number_head n : wf_number n → ∃ c n', n = c :: n' ∧ isdigit_char c = true.
Proof.
  intros (Hne & Hd & _). destruct n as [|c n]; [done|]. exists c, n. split; [done|].
  apply digit_isdigit. by apply Forall_inv in Hd.
Qed.

Lemma look_head {A} c l (k : Z → parser A) : look (c :: l) 0 k = k c.
Proof. done. Qed.

Lemma stops_char c l : debase c = -1 → stops 10 (c :: l).
Proof. intros H. exists c, l. split; [done|]. intros [_ ?]. lia. Qed.

Lemma re_parse_interval_run n tail min max rest :
  wf_number n → stops 10 tail → re_parse_bound false (number n) tail = yields (max, ch "}" :: rest) →
  min = number n → re_parse_interval true false (n ++ tail) = yields (min, max, rest).
Proof.
  intros Hn Hst Hb ->. destruct (number_head n Hn) as (c & n' & -> & Hc). unfold re_parse_interval.
  cbn [app]. rewrite look_head, Hc. cbn [negb]. rewrite app_comm_cons, re_parse_number_run by done.
  cbn [parse_bind yields]. rewrite Hb. done.
Qed.

(** The interval of a duplication in braces. *)
Lemma re_parse_braces_run d item rest :
  wf_dup d → match d with Exactly _ | AtLeast _ | Between _ _ => True | _ => False end →
  re_parse_repeat true false item (print_dup d ++ rest) = yields (dup_re d item, rest).
Proof.
  intros Hd Hk. unfold re_parse_repeat, re_operator. cbn [is_basic negb].
  assert (Hrun : ∀ n tail min max, wf_number n → stops 10 tail →
    re_parse_bound false (number n) tail = yields (max, ch "}" :: rest) → min = number n →
    look (ch "{" :: n ++ tail) 0 (λ c0, if c0 =? ch "{" then
      parse_bind (re_parse_interval true false (after_operator true (ch "{" :: n ++ tail)))
        (λ '(min, max, p), yields (Re (RE_TYPE_REPETITION min max) item RE_NULL, p))
      else fails 0) = yields (Re (RE_TYPE_REPETITION min max) item RE_NULL, rest)).
  { intros n tail min max Hn Hst Hb Hm. rewrite look_head. cbn [Z.eqb Pos.eqb after_operator drop].
    rewrite drop_0, (re_parse_interval_run n tail min max rest); done. }
  destruct d as [| | | |n|n|n m]; try done; cbn [print_dup dup_re]; rewrite <- !app_assoc; cbn [app].
  - apply (Hrun n (ch "}" :: rest)); [done|by apply stops_char|done|done].
  - apply (Hrun n (ch "," :: ch "}" :: rest)); [done|by apply stops_char|done|done].
  - destruct Hd as (Hn & Hm & Hle). apply (Hrun n (ch "," :: m ++ ch "}" :: rest)); [done|by apply stops_char| |done].
    destruct (number_head m Hm) as (c & m' & Em & Hc). unfold re_parse_bound. rewrite look_head.
    cbn [Z.eqb Pos.eqb drop]. rewrite drop_0. rewrite Em at 1. cbn [app]. rewrite look_head, Hc.
    rewrite re_parse_number_run by (done || by apply stops_char).
    cbn [parse_bind yields]. by rewrite (proj2 (Z.ltb_ge _ _)) by lia.
Qed.

(** What follows is no duplication. *)
Definition no_dup_char (c : Z) : Prop := c ≠ ch "{" ∧ c ≠ ch "*" ∧ c ≠ ch "?" ∧ c ≠ ch "+".

Definition follows (rest : list Z) : Prop := ∃ c l, rest = c :: l ∧ no_dup_char c.

Lemma re_parse_repeat_run d item rest :
  wf_dup d → follows rest →
  re_parse_repeat true false item (print_dup d ++ rest) = yields (dup_re d item, rest).
Proof.
  intros Hd (c & l & -> & H1 & H2 & H3 & H4).
  destruct d; try (by apply re_parse_braces_run); try done.
  unfold re_parse_repeat, re_operator. cbn [print_dup app is_basic negb]. rewrite !look_head.
  rewrite (proj2 (Z.eqb_neq c (ch "{"))) by done. rewrite ?look_head.
  rewrite (proj2 (Z.eqb_neq c (ch "*"))) by done. rewrite ?look_head.
  rewrite (proj2 (Z.eqb_neq c (ch "?"))) by done. rewrite ?look_head.
  by rewrite (proj2 (Z.eqb_neq c (ch "+"))).
Qed.

(** ** Expressions *)

Lemma re_append_assoc a b c : re_append (re_append a b) c = re_append a (re_append b c).
Proof. induction a as [|t owner _ next IH]; cbn; [done|]. by rewrite IH. Qed.

Lemma group_append_append g a b : group_append (group_append g a) b = group_append g (re_append a b).
Proof. unfold group_append. cbn. by rewrite re_append_assoc. Qed.

Lemma re_append_null a : re_append a RE_NULL = a.
Proof. induction a as [|t owner _ next IH]; cbn; [done|]. by rewrite IH. Qed.

Lemma group_append_null g : group_append g RE_NULL = g.
Proof. destruct g as [alts c]. unfold group_append. cbn. by rewrite re_append_null. Qed.

(** The group after an expression was read into it. *)
Fixpoint absorb (g : re_group) (e : ere) (ix : nat) : re_group :=
  match e with
  | Or e1 e2 => absorb (group_alternative (absorb g e1 ix)) e2 (ix + groups e1)
  | _ => group_append g (build e ix)
  end.

Lemma absorb_branch g e ix : is_branch e → absorb g e ix = group_append g (build e ix).
Proof. by destruct e. Qed.

(** A whole group is the tree of the expression. *)
Lemma absorb_build alts e ix :
  wf e → group_re (absorb (Group alts RE_NULL) e ix) =
         fold_left (λ split next, Re RE_TYPE_ALTERNATIVE split next) alts (build e ix).
Proof.
  revert alts ix. induction e; intros alts ix Hwf; try done.
  destruct Hwf as (Hb & H1 & H2). cbn [absorb build]. rewrite (absorb_branch _ e1) by done.
  unfold group_alternative. cbn [group_append alternatives chain re_append].
  rewrite IHe2 by done. done.
Qed.

(** The rounds of the loop. *)
Fixpoint rounds (e : ere) : nat :=
  match e with
  | Empty => 0
  | Anchor _ rest | Atom _ _ rest => S (rounds rest)
  | Sub body _ rest => S (rounds body + S (rounds rest))
  | Or e1 e2 => rounds e1 + S (rounds e2)
  end.

(** The end of a group. *)
Definition closes (rest : list Z) : Prop :=
  ∃ c l, rest = c :: l ∧ (c = ch "|" ∨ c = ch ")" ∨ c = 0).

Lemma closes_follows rest : closes rest → follows rest.
Proof. intros (c & l & -> & H). exists c, l. split; [done|]. destruct H as [->|[->| ->]]; repeat split; lia. Qed.

Lemma print_atom_follows a rest : wf_atom a → follows (print_atom a ++ rest).
Proof.
  intros Ha. destruct a as [c| |negated items]; cbn [print_atom].
  - destruct (re_extended_well_defined_escape c) eqn:E; cbn [app].
    + eexists _, _. split; [done|]. repeat split; lia.
    + exists c, rest. split; [done|]. unfold re_extended_well_defined_escape in E.
      repeat (apply orb_false_iff in E as [E ?]). repeat split; intros ->; done.
  - eexists _, _. split; [done|]. repeat split; lia.
  - eexists _, _. split; [done|]. repeat split; lia.
Qed.

Lemma print_follows e rest : is_branch e → wf e → closes rest → follows (print e ++ rest).
Proof.
  intros Hb Hw Hc. destruct e as [|bol e|a d e|body d e|e1 e2]; cbn [print app].
  - by apply closes_follows.
  - destruct bol; (eexists _, _; split; [done|]; repeat split; lia).
  - rewrite <- app_assoc. apply print_atom_follows. by destruct Hw.
  - eexists _, _. split; [done|]. repeat split; lia.
  - done.
Qed.

Lemma special_chars c :
  re_extended_well_defined_escape c = true →
  c ∈ [ch "\"; ch "("; ch ")"; ch "{"; ch "}"; ch "."; ch "*"; ch "["; ch "]"; ch "^"; ch "$"; ch "+"; ch "?"; ch "|"].
Proof.
  unfold re_extended_well_defined_escape. rewrite !elem_of_cons. intros H.
  repeat (apply orb_true_iff in H as [H|H]); apply Z.eqb_eq in H; tauto.
Qed.

(** A character stands for itself if it is escaped exactly when it is special. *)
Lemma re_parse_round_char st c pattern :
  re_parse_round true false st c (re_extended_well_defined_escape c) pattern =
    parse_bind (re_parse_repeat true false (leaf (RE_TYPE_CHAR c)) pattern)
      (λ '(r, p), yields (parse_append st r, p)).
Proof.
  unfold re_parse_round. destruct (re_extended_well_defined_escape c) eqn:E; cbn [is_basic negb andb orb].
  - assert (isdigit_char c = false) as ->; [|done]. apply special_chars in E. revert E. rewrite !elem_of_cons, elem_of_nil.
    intros E. repeat (destruct E as [->|E]; [done|]). done.
  - unfold re_extended_well_defined_escape in E. repeat (apply orb_false_iff in E as [E ?]).
    repeat match goal with H : (c =? _) = false |- _ => rewrite H; clear H end. done.
Qed.

Lemma re_parse_char_run c pattern :
  c ≠ 0 → ∃ c0 l, print_atom (AChar c) ++ pattern = c0 :: l ∧ c0 ≠ 0 ∧
    re_parse_char true c0 l = yields (c, re_extended_well_defined_escape c, pattern).
Proof.
  intros Hc. cbn [print_atom]. destruct (re_extended_well_defined_escape c) eqn:E; cbn [app].
  - exists (ch "\"), (c :: pattern). split_and!; [done|done|]. unfold re_parse_char.
    cbn [Z.eqb Pos.eqb]. rewrite look_head, (proj2 (Z.eqb_neq c 0)), E by done. cbn. by rewrite drop_0.
  - exists c, pattern. split_and!; [done|done|]. unfold re_parse_char.
    unfold re_extended_well_defined_escape in E. repeat (apply orb_false_iff in E as [E ?]). by rewrite E.
Qed.

(** One round for an atom and its duplication. *)
Lemma re_parse_loop_atom fuel st a d rest :
  wf_atom a → wf_dup d → follows rest →
  re_parse_loop true false (S fuel) st (print_atom a ++ print_dup d ++ rest) =
    re_parse_loop true false fuel (parse_append st (dup_re d (leaf (atom_type a)))) rest.
Proof.
  intros Ha Hd Hf. destruct a as [c| |negated items].
  - destruct (re_parse_char_run c (print_dup d ++ rest)) as (c0 & l & -> & H0 & Hch); [cbn in Ha; lia|].
    cbn [re_parse_loop]. rewrite look_head, (proj2 (Z.eqb_neq c0 0)) by done.
    rewrite skipn_cons, drop_0, Hch. cbn [parse_bind yields].
    rewrite re_parse_round_char, re_parse_repeat_run by done. done.
  - cbn [print_atom app re_parse_loop]. rewrite look_head. cbn [Z.eqb Pos.eqb]. rewrite skipn_cons, drop_0.
    unfold re_parse_char. cbn [Z.eqb Pos.eqb parse_bind yields].
    unfold re_parse_round. cbn [is_basic negb andb orb Z.eqb Pos.eqb].
    rewrite re_parse_repeat_run by done. done.
  - destruct Ha as (Hne & Hw & Hcaret). cbn [print_atom]. rewrite <- !app_assoc. cbn [app re_parse_loop].
    rewrite look_head. cbn [Z.eqb Pos.eqb]. rewrite skipn_cons, drop_0.
    unfold re_parse_char. cbn [Z.eqb Pos.eqb parse_bind yields].
    unfold re_parse_round. cbn [is_basic negb andb orb Z.eqb Pos.eqb].
    rewrite re_parse_set_run by done. cbn [parse_bind yields].
    rewrite re_parse_repeat_run by done. done.
Qed.

(** The rounds for the parentheses of a group. *)
Lemma re_parse_loop_open fuel st rest :
  re_parse_loop true false (S fuel) st (ch "(" :: rest) =
    re_parse_loop true false fuel
      (ReParse empty_group ((subexpr_num st, innermost st) :: subexpr st) (S (subexpr_num st))) rest.
Proof. cbn [re_parse_loop]. by rewrite look_head, skipn_cons, drop_0. Qed.

Lemma re_parse_loop_close fuel g index outer stack num d rest :
  wf_dup d → follows rest →
  re_parse_loop true false (S fuel) (ReParse g ((index, outer) :: stack) num) (ch ")" :: print_dup d ++ rest) =
    re_parse_loop true false fuel
      (parse_append (ReParse outer stack num) (dup_re d (re_subexpression index (group_re g)))) rest.
Proof.
  intros Hd Hf. cbn [re_parse_loop]. rewrite look_head, skipn_cons, drop_0.
  unfold re_parse_char. cbn [Z.eqb Pos.eqb parse_bind yields].
  unfold re_parse_round. cbn [is_basic negb andb orb Z.eqb Pos.eqb subexpr innermost subexpr_num].
  by rewrite re_parse_repeat_run.
Qed.

(** The parser reads an expression into the innermost group. *)
Lemma re_parse_loop_run e st rest fuel :
  wf e → closes rest →
  re_parse_loop true false (rounds e + fuel) st (print e ++ rest) =
    re_parse_loop true false fuel
      (ReParse (absorb (innermost st) e (subexpr_num st)) (subexpr st) (subexpr_num st + groups e)) rest.
Proof.
  revert st rest fuel. induction e as [|bol e IH|a d e IH|body IHb d e IH|e1 IH1 e2 IH2]; intros st rest fuel Hw Hc.
  - cbn [rounds print groups absorb build app Nat.add]. rewrite group_append_null, Nat.add_0_r. by destruct st.
  - destruct Hw as [Hb Hw]. cbn [rounds print groups absorb build Nat.add].
    assert (Hone : re_parse_loop true false (S (rounds e + fuel)) st ((if bol then lit "^" else lit "$") ++ print e ++ rest)
      = re_parse_loop true false (rounds e + fuel) (parse_append st (leaf (if bol then RE_TYPE_BOL else RE_TYPE_EOL))) (print e ++ rest)).
    { destruct bol; cbn [app re_parse_loop]; rewrite look_head, skipn_cons, drop_0; done. }
    rewrite <- app_assoc, Hone, IH, absorb_branch by done. cbn [parse_append innermost subexpr subexpr_num].
    by rewrite group_append_append.
  - destruct Hw as (Ha & Hd & Hb & Hw). cbn [rounds print groups absorb build Nat.add].
    rewrite <- !app_assoc, re_parse_loop_atom, IH, absorb_branch by (done || by apply print_follows).
    cbn [parse_append innermost subexpr subexpr_num]. by rewrite group_append_append.
  - destruct Hw as (Hbody & Hd & Hb & Hw). cbn [rounds print groups absorb build Nat.add].
    rewrite <- !app_assoc. cbn [app]. rewrite re_parse_loop_open, <- Nat.add_assoc, IHb;
      [|done|exists (ch ")"); eexists; split; [done|by right; left]].
    cbn [innermost subexpr subexpr_num Nat.add].
    rewrite re_parse_loop_close, IH, absorb_branch by (done || by apply print_follows).
    cbn [parse_append innermost subexpr subexpr_num]. unfold empty_group. rewrite absorb_build by done.
    cbn [fold_left]. rewrite group_append_append. do 2 f_equal; lia.
  - destruct Hw as (Hb & Hw1 & Hw2). cbn [rounds print groups absorb Nat.add].
    rewrite <- !app_assoc, <- Nat.add_assoc. cbn [app].
    rewrite IH1; [|done|exists (ch "|"); eexists; split; [done|by left]].
    cbn [Nat.add re_parse_loop]. rewrite look_head, skipn_cons, drop_0.
    unfold re_parse_char. cbn [Z.eqb Pos.eqb parse_bind yields].
    unfold re_parse_round. cbn [is_basic negb andb orb Z.eqb Pos.eqb subexpr innermost subexpr_num parse_bind yields].
    rewrite IH2 by done. cbn [innermost subexpr subexpr_num]. by rewrite Nat.add_assoc.
Qed.

Lemma parse_rounds_length e : wf e → (rounds e <= length (print e))%nat.
Proof.
  induction e as [|bol e IH|a d e IH|body IHb d e IH|e1 IH1 e2 IH2]; cbn [rounds print wf]; rewrite ?length_app.
  - done.
  - intros [_ ?]. specialize (IH ltac:(done)). destruct bol; cbn [length]; lia.
  - intros (Ha & _ & _ & ?). specialize (IH ltac:(done)).
    destruct (print_atom_follows a [] Ha) as (c & l & Hp & _). rewrite app_nil_r in Hp.
    rewrite Hp. cbn [length]. lia.
  - intros (? & _ & _ & ?). specialize (IHb ltac:(done)). specialize (IH ltac:(done)). cbn [length]. lia.
  - intros (_ & ? & ?). specialize (IH1 ltac:(done)). specialize (IH2 ltac:(done)). cbn [length]. lia.
Qed.

(** The parser turns what is printed into the tree. *)
Lemma re_parse_print e :
  wf e → re_parse true false (print e ++ [0]) = yields (build e 1, S (groups e)).
Proof.
  intros Hw. unfold re_parse. rewrite length_app. cbn [length].
  pose proof (parse_rounds_length e Hw) as Hr.
  replace (S (length (print e) + 1)) with (rounds e + S (S (length (print e)) - rounds e))%nat by lia.
  rewrite re_parse_loop_run; [|done|exists 0, []; split; [done|by right; right]].
  cbn [re_parse_loop re_parse_init innermost subexpr subexpr_num]. rewrite look_head. cbn [Z.eqb].
  unfold empty_group. by rewrite absorb_build.
Qed.

End RegexGrammar.
