(* ===== verification/RegexLang.v ===== *)
(** * Regular expressions: compiling and matching together

    What an expression of the grammar denotes, said without its tree; that the
    tree has that language; that what [regcomp] compiles is well-formed and
    accepts it; and what a user of [regcomp] and [regexec] may rely on.  The end
    of the file has the expressions the implementation gets wrong. *)

From S2P Require Import Prelude Strtol Regcomp Regexec RegexSpec RegexMatch RegexParse RegexGrammar.
From stdpp Require Import base decidable list numbers relations strings.
From Stdlib Require Import ZArith Lia Ascii.

#[local] Open Scope c_scope.
#[local] Open Scope Z_scope.

Module RegexLang.
Import Strtol Regex Regexec RegexSpec RegexMatch RegexParse RegexGrammar.

(** ** Bracket expressions *)

Lemma land_bit x k : 0 <= k → negb (Z.land x (Z.shiftl 1 k) =? 0) = Z.testbit x k.
Proof.
  intros Hk. destruct (Z.testbit x k) eqn:E.
  - apply negb_true_iff, Z.eqb_neq. intros H.
    assert (Ht : Z.testbit (Z.land x (Z.shiftl 1 k)) k = true).
    { rewrite Z.land_spec, E, Z.shiftl_spec, Z.sub_diag by lia. done. }
    rewrite H, Z.bits_0 in Ht. done.
  - apply negb_false_iff, Z.eqb_eq, Z.bits_inj'. intros n Hn. rewrite Z.land_spec, Z.bits_0, Z.shiftl_spec by lia.
    destruct (Z.eq_dec n k) as [->|Hne]; [by rewrite E|].
    replace (Z.testbit 1 (n - k)) with false; [apply andb_false_r|].
    destruct (Z.ltb_spec (n - k) 0); [by rewrite Z.testbit_neg_r|].
    symmetry. apply Z.bits_above_log2; cbn; lia.
Qed.

(** The byte of a set that holds a character. *)
Definition set_byte (set : list Z) (c : Z) : Z := nth (Z.to_nat (c / 8)) set 0.

Lemma set_has_bit set c : set_has set c = Z.testbit (set_byte set c) (c mod 8).
Proof. apply land_bit. apply Z.mod_pos_bound. lia. Qed.

Lemma wrap8_bit x k : 0 <= k < 8 → Z.testbit (u8 x) k = Z.testbit x k.
Proof. intros Hk. unfold wrapu. by rewrite Z.mod_pow2_bits_low by lia. Qed.

Lemma set_add_has uc c set :
  0 <= uc < 256 → 0 <= c < 256 → length set = 32%nat →
  set_has (set_add uc set) c = (c =? uc) || set_has set c.
Proof.
  intros Hu Hc Hl. rewrite !set_has_bit. unfold set_byte, set_add.
  pose proof (Z.mod_pos_bound c 8 ltac:(lia)). pose proof (Z.mod_pos_bound uc 8 ltac:(lia)).
  pose proof (Z.div_mod c 8 ltac:(lia)). pose proof (Z.div_mod uc 8 ltac:(lia)).
  destruct (lookup_lt_is_Some_2 set (Z.to_nat (c / 8))) as [b Hb]; [rewrite Hl; lia|].
  destruct (Z.eq_dec (c / 8) (uc / 8)) as [Heq|Hne].
  - rewrite (nth_lookup_Some _ _ _ (u8 (Z.lor b (Z.shiftl 1 (uc mod 8)))))
      by (rewrite <- Heq; rewrite list_lookup_alter_eq, Hb; done).
    rewrite (nth_lookup_Some _ _ _ b) by done. rewrite wrap8_bit, Z.lor_spec, Z.shiftl_spec by lia.
    rewrite orb_comm. f_equal. destruct (Z.eqb_spec c uc) as [->|Hcu]; [by rewrite Z.sub_diag|].
    destruct (Z.ltb_spec (c mod 8 - uc mod 8) 0); [by rewrite Z.testbit_neg_r|].
    apply Z.bits_above_log2; cbn; lia.
  - rewrite (nth_lookup_Some _ _ _ b) by (rewrite list_lookup_alter_ne by lia; done).
    rewrite (nth_lookup_Some _ _ _ b) by done. by rewrite (proj2 (Z.eqb_neq c uc)) by lia.
Qed.

Lemma set_add_length uc set : length (set_add uc set) = length set.
Proof. apply length_alter. Qed.

Lemma set_add_range_has c_from c_to c set :
  0 <= c_from → c_to < 256 → 0 <= c < 256 → length set = 32%nat →
  set_has (set_add_range c_from c_to set) c = ((c_from <=? c) && (c <=? c_to)) || set_has set c ∧
  length (set_add_range c_from c_to set) = 32%nat.
Proof.
  intros Hf Ht Hc. unfold set_add_range.
  assert (Hgen : ∀ l set, Forall (λ u, 0 <= u < 256) l → length set = 32%nat →
    set_has (fold_left (λ set uc, set_add uc set) l set) c = bool_decide (c ∈ l) || set_has set c ∧
    length (fold_left (λ set uc, set_add uc set) l set) = 32%nat).
  { induction l as [|u l IH]; intros st Hl Hlen; [done|]. apply Forall_cons in Hl as [Hu Hl]. cbn [fold_left].
    destruct (IH (set_add u st) Hl) as [-> ->]; [by rewrite set_add_length|]. split; [|done].
    rewrite set_add_has by done. destruct (decide (c = u)) as [->|Hne].
    - rewrite Z.eqb_refl, (bool_decide_true (u ∈ u :: l)) by apply list_elem_of_here.
      by rewrite orb_true_r.
    - rewrite (proj2 (Z.eqb_neq c u)) by done. cbn [orb]. f_equal. apply bool_decide_ext.
      rewrite elem_of_cons. tauto. }
  intros Hlen. destruct (Hgen (seqZ c_from (c_to - c_from + 1)) set) as [-> ->]; [|done|].
  - apply Forall_forall. intros u Hu%elem_of_seqZ. lia.
  - split; [|done]. f_equal. destruct ((c_from <=? c) && (c <=? c_to)) eqn:E.
    + b2p. apply bool_decide_true, elem_of_seqZ. lia.
    + apply bool_decide_false. rewrite elem_of_seqZ. intros H. b2p; lia.
Qed.

(** The characters an element of a bracket expression stands for. *)
Definition item_has (c : Z) (i : bracket_item) : bool :=
  match i with
  | Single c' => c =? c'
  | Range c_from c_to => (c_from <=? c) && (c <=? c_to)
  end.

Lemma items_has items c set :
  wf_items items → 0 <= c < 256 → length set = 32%nat →
  set_has (fold_left item_add items set) c = existsb (item_has c) items || set_has set c ∧
  length (fold_left item_add items set) = 32%nat.
Proof.
  intros Hw Hc. revert set Hw. induction items as [|i items IH]; intros set Hw Hl; [done|].
  destruct Hw as [Hi Hw]. cbn [fold_left existsb].
  assert (Hadd : set_has (item_add set i) c = item_has c i || set_has set c ∧ length (item_add set i) = 32%nat).
  { destruct i as [c'|c1 c2]; cbn [item_add item_has].
    - destruct Hi as [[Hc' _] _]. destruct (set_add_range_has c' c' c set) as [-> ->]; [lia..|]. split; [|done].
      f_equal. destruct (Z.eqb_spec c c') as [->|]; [by rewrite Z.leb_refl|].
      destruct (Z.leb_spec c' c), (Z.leb_spec c c'); cbn; lia.
    - destruct Hi as [[H1 _] [H2 _]]. apply set_add_range_has; lia. }
  destruct Hadd as [Hadd Hlen]. destruct (IH (item_add set i) Hw Hlen) as [-> ->]. split; [|done].
  rewrite Hadd. by destruct (item_has c i), (existsb (item_has c) items), (set_has set c).
Qed.

Lemma set_negate_has set c : 0 <= c < 256 → length set = 32%nat → set_has (set_negate set) c = negb (set_has set c).
Proof.
  intros Hc Hl. rewrite !set_has_bit. unfold set_byte, set_negate.
  pose proof (Z.mod_pos_bound c 8 ltac:(lia)). pose proof (Z.div_mod c 8 ltac:(lia)).
  destruct (lookup_lt_is_Some_2 set (Z.to_nat (c / 8))) as [b Hb]; [rewrite Hl; lia|].
  rewrite (nth_lookup_Some _ _ _ (u8 (Z.lnot b))) by (rewrite list_lookup_fmap, Hb; done).
  rewrite (nth_lookup_Some _ _ _ b) by done. by rewrite wrap8_bit, Z.lnot_spec by lia.
Qed.

(** ** What an expression denotes *)

Definition atom_has (a : atom) (c : Z) : bool :=
  negb (c =? 0) &&
  match a with
  | AChar c' => c' =? c
  | AAny => true
  | ASet negated items => xorb negated (existsb (item_has c) items)
  end.

(** How often; [None] is no bound. *)
Definition dup_min (d : dup) : Z :=
  match d with
  | Once | Plus => 1
  | Star | Quest => 0
  | Exactly n | AtLeast n | Between n _ => number n
  end.

Definition dup_max (d : dup) : option Z :=
  match d with
  | Once | Quest => Some 1
  | Star | Plus | AtLeast _ => None
  | Exactly n => Some (number n)
  | Between _ m => Some (number m)
  end.

Definition repeats (d : dup) (R : relation nat) (i j : nat) : Prop :=
  ∃ n : nat, dup_min d <= Z.of_nat n ∧ (∀ max, dup_max d = Some max → Z.of_nat n <= max) ∧ nsteps R n i j.

(** [denotes tx e i j]: the text from [i] to [j] matches [e]. *)
Fixpoint denotes (tx : text) (e : ere) (i j : nat) : Prop :=
  match e with
  | Empty => i = j
  | Anchor bol rest => (if bol then bol_at tx i else eol_at tx i) = true ∧ denotes tx rest i j
  | Atom a d rest =>
      ∃ k, repeats d (λ i j, atom_has a (char_at tx i) = true ∧ j = S i) i k ∧ denotes tx rest k j
  | Sub body d rest => ∃ k, repeats d (denotes tx body) i k ∧ denotes tx rest k j
  | Or e1 e2 => denotes tx e1 i j ∨ denotes tx e2 i j
  end.

(** ** What can be compiled *)

(** No end-of-line anchor. *)
Fixpoint no_eol (e : ere) : Prop :=
  match e with
  | Empty => True
  | Anchor bol rest => bol = true ∧ no_eol rest
  | Atom _ _ rest => no_eol rest
  | Sub body _ rest => no_eol body ∧ no_eol rest
  | Or e1 e2 => no_eol e1 ∧ no_eol e2
  end.

(** Counts are not 0 at most, and no count is the largest number, which the
    compiler takes for no bound. *)
Definition supported_dup (d : dup) : Prop := ∀ max, dup_max d = Some max → 0 < max < SIZE_MAX.

(** No end-of-line anchor is duplicated. *)
Fixpoint supported (e : ere) : Prop :=
  match e with
  | Empty => True
  | Anchor _ rest => supported rest
  | Atom _ d rest => supported_dup d ∧ supported rest
  | Sub body d rest => supported_dup d ∧ (d = Once ∨ no_eol body) ∧ supported body ∧ supported rest
  | Or e1 e2 => supported e1 ∧ supported e2
  end.

(** ** The tree has the language *)

Section Tree.
Context (tx : text) (Hbytes : ∀ i, 0 <= char_at tx i < 256).

Lemma atom_consumes a c : wf_atom a → 0 <= c < 256 → consumes (atom_type a) c = atom_has a c.
Proof.
  intros Ha Hc. unfold consumes, atom_has. f_equal. destruct a as [c'| |negated items]; [done..|].
  destruct Ha as (_ & Hw & _). cbn [atom_type].
  destruct (items_has items c empty_set Hw Hc) as [Hh Hl]; [done|].
  assert (He : set_has empty_set c = false).
  { rewrite set_has_bit. unfold set_byte, empty_set. rewrite nth_lookup.
    destruct (replicate 32 0 !! Z.to_nat (c / 8)) as [b|] eqn:E; [apply lookup_replicate in E as [-> _]|];
      apply Z.bits_0. }
  rewrite He, orb_false_r in Hh. destruct negated; [|by rewrite Hh].
  rewrite set_negate_has, Hh by done. done.
Qed.

Lemma times_repeats d R i j :
  wf_dup d → supported_dup d →
  times_between R (dup_min d) (default SIZE_MAX (dup_max d)) i j ↔ repeats d R i j.
Proof.
  intros Hw Hs. unfold times_between, repeats. unfold supported_dup in Hs.
  destruct (dup_max d) as [max|]; cbn [from_option id]; split; intros (n & Hmin & Hmax & Hn); exists n;
    (split; [done|split; [|done]]).
  - intros ? [= <-]. specialize (Hs max eq_refl). destruct Hmax; lia.
  - right. by apply Hmax.
  - done.
  - by left.
Qed.

(** A duplicated item and what follows it. *)
Lemma dup_language d item r i j :
  is_item item → wf_dup d → supported_dup d →
  language tx (re_append (dup_re d item) r) i j ↔
  ∃ k, repeats d (language tx item) i k ∧ language tx r k j.
Proof.
  intros Hi Hw Hs.
  assert (Hrep : ∀ min max, dup_re d item = Re (RE_TYPE_REPETITION min max) item RE_NULL →
    min = dup_min d → max = default SIZE_MAX (dup_max d) →
    language tx (re_append (dup_re d item) r) i j ↔ ∃ k, repeats d (language tx item) i k ∧ language tx r k j).
  { intros min max -> -> ->. cbn [re_append language]. by setoid_rewrite (times_repeats d _ _ _ Hw Hs). }
  destruct d; try (by eapply Hrep). clear Hrep. cbn [dup_re]. rewrite language_append by done.
  assert (H1 : ∀ k, language tx item i k ↔ repeats Once (language tx item) i k).
  { intros k. split.
    - intros H. exists 1%nat. split_and!; [done|by intros ? [= <-]|by apply nsteps_once].
    - intros (n & Hmin & Hmax & Hn). specialize (Hmax 1 eq_refl). cbn in Hmin.
      assert (n = 1%nat) as -> by lia. by apply nsteps_once_inv. }
  by setoid_rewrite H1.
Qed.

Lemma leaf_language a i j :
  wf_atom a → language tx (leaf (atom_type a)) i j ↔ atom_has a (char_at tx i) = true ∧ j = S i.
Proof.
  intros Ha. rewrite <- (atom_consumes a _ Ha (Hbytes i)).
  assert (∀ P : Prop, (P ∧ S i = j) ↔ (P ∧ j = S i)) as H by (intros; split; intros [? ?]; auto).
  destruct a; apply H.
Qed.

Lemma repeats_iff d (R R' : relation nat) i j :
  (∀ i j, R i j ↔ R' i j) → repeats d R i j ↔ repeats d R' i j.
Proof. intros H. unfold repeats. by setoid_rewrite (nsteps_iff R R' _ i j H). Qed.

Lemma build_language e ix i j : wf e → supported e → language tx (build e ix) i j ↔ denotes tx e i j.
Proof.
  revert ix i j. induction e as [|bol e IH|a d e IH|body IHb d e IH|e1 IH1 e2 IH2]; intros ix i j Hw Hs.
  - done.
  - destruct Hw as [_ Hw]. destruct bol; cbn [build language denotes]; by rewrite IH.
  - destruct Hw as (Ha & Hd & _ & Hw), Hs as (Hsd & Hs). cbn [build denotes].
    rewrite dup_language; [|constructor; by destruct a|done|done].
    setoid_rewrite (IH ix _ _ Hw Hs). by setoid_rewrite (repeats_iff d _ _ _ _ (λ i j, leaf_language a i j Ha)).
  - destruct Hw as (Hb & Hd & _ & Hw), Hs as (Hsd & _ & Hsb & Hs). cbn [build denotes].
    rewrite dup_language; [|constructor|done|done]. setoid_rewrite (IH _ _ _ Hw Hs).
    assert (Hbody : ∀ i j, language tx (re_subexpression ix (build body (S ix))) i j ↔ denotes tx body i j).
    { intros i' j'. cbn [re_subexpression leaf language]. rewrite <- (IHb (S ix)) by done.
      split; [by intros (k & ? & ->)|intros ?; by exists j']. }
    by setoid_rewrite (repeats_iff d _ _ _ _ Hbody).
  - destruct Hw as (_ & Hw1 & Hw2), Hs as (Hs1 & Hs2). cbn [build language denotes].
    by rewrite IH1, IH2.
Qed.

End Tree.

(** ** What is compiled is well-formed *)

Lemma re_address_cases r lk index link l m :
  re_control_flow r lk index = Ret l → re_address r index link = Some m →
  link = Some m ∨ (m = index ∧ (0 < length l)%nat).
Proof.
  intros Hl%control_flow_length. destruct r; cbn in *; [by left|]. intros [= <-]. right. split; [done|lia].
Qed.

(** The links of the nodes lead to other nodes of the chain, or out of it. *)
Lemma control_flow_links r link n l k node m :
  plain r → re_control_flow r link n = Ret l → l !! k = Some node →
  re_next node = Some m ∨ re_split_re node = Some m →
  link = Some m ∨ ((n <= m < n + length l)%nat ∧ m ≠ (n + k)%nat).
Proof.
  revert link n l k node m. induction r as [|t owner IHo next IHn]; intros link n l k node m Hp Hl Hk Hm.
  { injection Hl as <-. done. }
  destruct (control_flow_inv _ _ _ _ _ _ Hp Hl) as (nd & inner & rest & -> & Ht & Hn & Hlen & Hnode).
  set (m' := S (n + _)%nat) in *.
  assert (Hafter : re_address next m' link = Some m → link = Some m ∨ (m = m' ∧ (0 < length rest)%nat))
    by (by eapply re_address_cases).
  assert (Hin : ∀ lk x, re_control_flow owner lk (S n) = Ret inner → re_address owner (S n) x = Some m →
            x = Some m ∨ (m = S n ∧ (0 < length inner)%nat)) by (intros; by eapply re_address_cases).
  destruct Hp as [Hpo Hpn]. cbn [length]. rewrite length_app.
  destruct k as [|k]; [|change ((inner ++ rest) !! k = Some node) in Hk].
  - injection Hk as <-. rewrite Nat.add_0_r.
    assert (Hcase : (link = Some m ∨ m = m' ∧ (0 < length rest)%nat) ∨ (m = S n ∧ (0 < length inner)%nat)).
    { assert (Hdirect : owner ≠ RE_NULL → (∃ lk, re_control_flow owner lk (S n) = Ret inner) → (0 < length inner)%nat).
      { intros Hne (lk & Hlk%control_flow_length). destruct owner; [done|]. cbn in Hlk. lia. }
      destruct t; (destruct Hnode as (Hnx & Hsp & Hi)); rewrite Hnx, Hsp in Hm;
        destruct Hm as [Hm|Hm]; try done; try (left; by apply Hafter).
      all: try (destruct Hpo as [Hne Hpo]; injection Hm as <-; right; split; [done|]; by eauto).
      all: destruct (Hin _ _ Hi Hm) as [?|?]; auto. }
    destruct Hcase as [[?|[-> ?]]|[-> ?]]; [by left|right; lia|right; lia].
  - destruct (decide (k < length inner)%nat) as [Hlt|Hge].
    + rewrite lookup_app_l in Hk by done.
      assert (Hcase : (link = Some m ∨ m = m' ∧ (0 < length rest)%nat) ∨ m = n ∨
                      ((S n <= m < S n + length inner)%nat ∧ m ≠ (S n + k)%nat)).
      { destruct t; (destruct Hnode as (Hnx & Hsp & Hi)); try (by subst inner);
          try (destruct Hpo as [Hne Hpo]);
          destruct (IHo _ _ _ _ _ _ Hpo Hi Hk Hm) as [Hlk|Hr];
          first [by auto|left; by auto|right; left; congruence]. }
      destruct Hcase as [[?|[-> ?]]|[->|[? ?]]]; [by left|right; lia..].
    + rewrite lookup_app_r in Hk by lia. destruct (IHn _ _ _ _ _ _ Hpn Hn Hk Hm) as [?|[? ?]]; [by left|right; lia].
Qed.

(** A property of the types goes from the tree to the nodes. *)
Lemma control_flow_forall P r link n l :
  re_forall P r → re_control_flow r link n = Ret l → Forall (λ node, P (node_type node)) l.
Proof.
  revert link n l. induction r as [|t owner IHo next IHn]; intros link n l; cbn [re_forall re_control_flow].
  - intros _ [= <-]. constructor.
  - intros (Ht & Ho & Hn). destruct t; try destruct owner as [|t' o' n']; try done;
      repeat match goal with
      | |- context [mbind _ (re_control_flow ?r ?l ?k)] =>
          let E := fresh "E" in destruct (re_control_flow r l k) eqn:E; try done; cbn [mbind outcome_bind]
      end; intros [= <-]; constructor; try done; try (apply Forall_app; split);
      first [by eapply IHo|by eapply IHn].
Qed.

Lemma re_repetition_forall (P : re_type → Prop) fuel templ min max after r :
  P RE_TYPE_OPTIONAL → P RE_TYPE_LOOP → is_item templ → re_forall P templ → re_forall P after →
  re_repetition fuel templ min max after = Ret r → re_forall P r.
Proof.
  intros Hopt Hloop Hi Ht Ha. revert min max r. induction fuel as [|fuel IH]; intros min max r; [done|].
  cbn [re_repetition]. destruct (max =? 0); [by intros [= <-]|].
  destruct (re_copy templ) as [copy| |] eqn:Ec; cbn [mbind outcome_bind]; try done.
  apply re_copy_copies in Ec as ->; [|done].
  destruct (1 <=? min); [|destruct (max <? SIZE_MAX)];
    match goal with |- context [re_repetition fuel ?a ?b ?c ?d] =>
      destruct (re_repetition fuel a b c d) as [rest| |] eqn:Er end;
    cbn [mbind outcome_bind]; try done; intros [= <-]; apply IH in Er; [by apply re_forall_append|done|done].
Qed.

Lemma re_transform_chain_forall (P : re_type → Prop) fuel r r' n stop :
  P RE_TYPE_OPTIONAL → P RE_TYPE_LOOP → parse_tree r → re_forall P r →
  re_transform_chain fuel r = Ret (r', n, stop) → re_forall P r'.
Proof.
  intros Hopt Hloop. revert r r' n stop. induction fuel as [|fuel IH]; intros r r' n stop Hp Hr; [done|].
  destruct r as [|t owner next]; [by intros [= <- <- <-]|].
  destruct (is_repetition t) eqn:Et.
  - destruct t; try done. cbn [re_transform_chain]. destruct Hp as [(Hi & Ho & Hm & Hmax) Hn], Hr as (_ & Hro & Hrn).
    destruct (re_repetition _ owner min max next) as [repl| |] eqn:Er; try done. cbn [mbind outcome_bind].
    pose proof (re_repetition_parsed _ _ _ _ _ _ Hi Ho Hn Er) as Hpr.
    pose proof (re_repetition_forall P _ _ _ _ _ _ Hopt Hloop Hi Hro Hrn Er) as Hfr.
    destruct repl as [|t' o' n']; [by intros [= <- <- <-]|]. by apply IH.
  - rewrite re_transform_chain_node by done. destruct (parsed_owner _ _ _ Hp) as [Ho Hn], Hr as (Ht & Hro & Hrn).
    destruct (re_transform_chain fuel owner) as [[[owner' n1] stop1]| |] eqn:Eo; try done. cbn [mbind outcome_bind].
    apply IH in Eo; [|done..]. destruct stop1; [by intros [= <- <- <-]|].
    destruct (re_transform_chain fuel next) as [[[next' n2] stop2]| |] eqn:En; try done. cbn [mbind outcome_bind].
    apply IH in En; [|done..]. by intros [= <- <- <-].
Qed.

(** The tree that is compiled: an empty expression becomes an anchor. *)
Definition start_re (r : re) : re := match r with RE_NULL => leaf RE_TYPE_BOL | _ => r end.

Lemma start_re_shape num r : (0 < num)%nat → well_shaped num r → well_shaped num (start_re r).
Proof. intros Hn. destruct r; [|done]. intros _. by apply well_shaped_leaf. Qed.

(** The passes of [regcomp] on a tree of the parser. *)
Lemma passes_correct r num r' n stop nodes nsub cflags :
  (0 < num)%nat → well_shaped num r → re_transform r = Ret (r', n, stop) →
  re_control_flow r' None 0 = Ret nodes → n = length nodes → nodes ≠ [] →
  well_formed (Regex nsub nodes num cflags) ∧
  ∀ tx i j, accepts tx nodes i j ↔ language tx (start_re r) i j.
Proof.
  intros Hnum Hshape Ht Hflow Hn Hne. destruct (start_re_shape num r Hnum Hshape) as [Hp Hix].
  unfold re_transform in Ht. change (match r with RE_NULL => leaf RE_TYPE_BOL | _ => r end) with (start_re r) in Ht.
  pose proof (control_flow_length _ _ _ _ Hflow) as Hlen.
  assert (Hplain : plain r').
  { destruct (re_transform_chain_correct (Text (λ _, 0) (λ _, false) (λ _, false)) _ _ _ _ _ Hp Ht)
      as (_ & _ & Hpl & _). apply Hpl. congruence. }
  assert (Hr' : r' ≠ RE_NULL) by (intros ->; injection Hflow as <-; done).
  split.
  - assert (Hlinks : ∀ k node m, nodes !! k = Some node → re_next node = Some m ∨ re_split_re node = Some m →
      (m < length nodes)%nat ∧ m ≠ k).
    { intros k node m Hk Hm. destruct (control_flow_links _ _ _ _ _ _ _ Hplain Hflow Hk Hm) as [?|?]; [done|lia]. }
    constructor; cbn [re_nodes matches_per_state].
    + done.
    + intros k node m Hk Hm. by apply (Hlinks k node m).
    + intros k node Hk Hin. assert (Hm : re_next node = Some k ∨ re_split_re node = Some k).
      { revert Hin. unfold eps_links. destruct (node_type node); rewrite ?elem_of_cons, ?elem_of_nil; clear; intuition auto. }
      by destruct (Hlinks k node k Hk Hm).
    + intros k node Hk. apply (re_transform_chain_forall _ _ _ _ _ _ Hnum Hnum Hp Hix) in Ht.
      apply (control_flow_forall _ _ _ _ _ Ht) in Hflow. rewrite Forall_lookup in Hflow. by apply (Hflow k).
  - intros tx i j. rewrite (control_flow_accepts tx nodes r') by done.
    by apply (re_transform_chain_correct tx _ _ _ _ _ Hp Ht).
Qed.

Lemma regcomp_inv erange pattern cflags rx :
  regcomp erange pattern cflags = yields rx →
  ∃ r num r' n stop, re_parse (has_flag cflags REG_EXTENDED) erange pattern = yields (r, num) ∧
    re_transform r = Ret (r', n, stop) ∧ re_control_flow r' None 0 = Ret (re_nodes rx) ∧
    n = length (re_nodes rx) ∧
    rx = Regex (if has_flag cflags REG_NOSUB then 0 else num - 1) (re_nodes rx) num cflags.
Proof.
  unfold regcomp. intros H. apply parse_bind_yields in H as ([r num] & Hp & H).
  destruct (re_transform r) as [[[r' n] stop]| |] eqn:Et; try done.
  destruct (2 ^ 64 <=? _); [done|].
  destruct (re_control_flow r' None 0) as [nodes| |] eqn:Ef; try done.
  case_bool_decide; [|done]. injection H as <-. by exists r, num, r', n, stop.
Qed.

Lemma regcomp_well_formed erange pattern cflags rx :
  regcomp erange pattern cflags = yields rx → re_nodes rx ≠ [] →
  well_formed rx ∧
  ∃ r num, re_parse (has_flag cflags REG_EXTENDED) erange pattern = yields (r, num) ∧
    ∀ tx i j, accepts tx (re_nodes rx) i j ↔ language tx (start_re r) i j.
Proof.
  intros (r & num & r' & n & stop & Hp & Ht & Hf & Hn & Hrx)%regcomp_inv Hne.
  destruct (re_parse_shape _ _ _ _ _ Hp) as [Hnum Hs].
  rewrite Hrx. cbn [re_nodes]. edestruct passes_correct as [Hwf Hl]; [exact Hnum|exact Hs|exact Ht|exact Hf|done|done|].
  split; [exact Hwf|]. by exists r, num.
Qed.

(** ** Supported expressions compile *)

Lemma duplicable_append a b : duplicable (re_append a b) = duplicable a && duplicable b.
Proof. induction a as [|t owner _ next IH]; cbn; [done|]. by rewrite IH, !andb_assoc. Qed.

Lemma dup_re_duplicable d item : duplicable (dup_re d item) = duplicable item.
Proof. destruct d; cbn; by rewrite ?andb_true_r. Qed.

Lemma no_eol_duplicable e ix : no_eol e → duplicable (build e ix) = true.
Proof.
  revert ix. induction e as [|bol e IH|a d e IH|body IHb d e IH|e1 IH1 e2 IH2]; intros ix; cbn [no_eol build].
  - done.
  - intros [-> H]. cbn. by rewrite IH.
  - intros H. rewrite duplicable_append, dup_re_duplicable, IH by done. by destruct a.
  - intros [Hb H]. rewrite duplicable_append, dup_re_duplicable, IH by done. cbn. by rewrite IHb.
  - intros [H1 H2]. cbn. by rewrite IH1, IH2.
Qed.

Lemma dup_re_expandable d item :
  supported_dup d → d = Once ∨ duplicable item = true → expandable item → expandable (dup_re d item).
Proof.
  intros Hs Hd He.
  assert (Hrep : ∀ min max, d ≠ Once → max = default SIZE_MAX (dup_max d) →
            expandable (Re (RE_TYPE_REPETITION min max) item RE_NULL)).
  { intros min max Hne ->. cbn. destruct Hd as [->|Hd]; [done|]. split_and!; try done.
    unfold supported_dup in Hs. destruct (dup_max d) as [max|]; [|done]. by apply Hs. }
  destruct d; [done|..]; by apply Hrep.
Qed.

Lemma supported_expandable e ix : supported e → expandable (build e ix).
Proof.
  revert ix. induction e as [|bol e IH|a d e IH|body IHb d e IH|e1 IH1 e2 IH2]; intros ix; cbn [supported build].
  - done.
  - intros H. destruct bol; cbn; auto.
  - intros [Hd H]. apply expandable_append; [|auto]. apply dup_re_expandable; [done|right|]; by destruct a.
  - intros (Hd & Heol & Hb & H). apply expandable_append; [|auto]. apply dup_re_expandable; [done| |].
    + destruct Heol as [?|He]; [by left|right]. cbn. by rewrite (no_eol_duplicable _ _ He).
    + cbn. auto.
  - intros [H1 H2]. cbn. auto.
Qed.

Lemma passes_defined r num :
  (0 < num)%nat → well_shaped num r → expandable r →
  ∃ r' nodes, re_transform r = Ret (r', length nodes, false) ∧ re_control_flow r' None 0 = Ret nodes ∧ nodes ≠ [].
Proof.
  intros Hnum Hshape He. destruct (start_re_shape num r Hnum Hshape) as [Hp _].
  assert (He' : expandable (start_re r)) by (by destruct r).
  unfold re_transform. change (match r with RE_NULL => leaf RE_TYPE_BOL | _ => r end) with (start_re r).
  destruct (re_transform_chain_defined (re_weight (start_re r)) _ Hp He' ltac:(lia)) as (r' & n & Ht & Hnn).
  destruct (re_transform_chain_correct (Text (λ _, 0) (λ _, false) (λ _, false)) _ _ _ _ _ Hp Ht)
    as (_ & _ & Hpl & Hst & _). specialize (Hst eq_refl). subst n.
  destruct (control_flow_defined r' None 0 (Hpl eq_refl)) as [nodes Hf].
  pose proof (control_flow_length _ _ _ _ Hf) as Hlen. exists r', nodes. rewrite Hlen. split_and!; [done|done|].
  intros ->. cbn in Hlen. symmetry in Hlen. apply re_size_zero in Hlen. subst r'.
  by apply Hnn; destruct r.
Qed.

Lemma regcomp_print e cflags :
  wf e → supported e → has_flag cflags REG_EXTENDED = true →
  ∃ nodes, nodes ≠ [] ∧
    regcomp false (print e ++ [0]) cflags =
      (if 2 ^ 64 <=? Z.of_nat (S (groups e)) * Z.of_nat (length nodes) then fails REG_ESPACE
       else yields (Regex (if has_flag cflags REG_NOSUB then 0 else groups e) nodes (S (groups e)) cflags)).
Proof.
  intros Hw Hs Hc. pose proof (re_parse_print e Hw) as Hp.
  destruct (re_parse_shape _ _ _ _ _ Hp) as [Hnum Hshape].
  destruct (passes_defined _ _ Hnum Hshape (supported_expandable e 1 Hs)) as (r' & nodes & Ht & Hf & Hne).
  exists nodes. split; [done|]. unfold regcomp. rewrite Hc, Hp. cbn [parse_bind yields]. rewrite Ht.
  destruct (2 ^ 64 <=? _); [done|]. rewrite Hf, bool_decide_true by done. by rewrite Nat.sub_succ, Nat.sub_0_r.
Qed.

(** ** What users may rely on *)

Lemma string_length_app s rest :
  Forall (λ c, 0 < c < 256) s → regexec_strlen (s ++ 0 :: rest) = Ret (length s).
Proof.
  induction 1 as [|c s Hc _ IH]; [done|]. cbn [app regexec_strlen].
  rewrite (proj2 (Z.eqb_neq c 0)) by lia. by rewrite IH.
Qed.

Lemma exec_text_bytes string eflags start endp i :
  Forall (λ c, 0 <= c < 256) string → 0 <= char_at (exec_text string eflags start endp) i < 256.
Proof.
  intros Hb. cbn [char_at exec_text]. destruct (_ <? _)%nat; [|lia].
  rewrite nth_lookup. destruct (string !! i) as [c|] eqn:E; [|cbn; lia].
  rewrite Forall_lookup in Hb. by apply (Hb i).
Qed.





Lemma build_null e ix : build e ix = RE_NULL → e = Empty.
Proof.
  assert (Hdup : ∀ d item r, item ≠ RE_NULL → re_append (dup_re d item) r ≠ RE_NULL).
  { intros d item r. by destruct d, item. }
  destruct e; try done; intros H; by apply Hdup in H.
Qed.

(** Some part of the text matches the tree that is compiled. *)
Lemma start_language tx e n :
  (∀ i, 0 <= char_at tx i < 256) → wf e → supported e → e ≠ Empty ∨ bol_at tx 0 = true →
  (∃ k j, (0 <= k <= j)%nat ∧ (j <= n)%nat ∧ language tx (start_re (build e 1)) k j) ↔
  (∃ i j, (i <= j <= n)%nat ∧ denotes tx e i j).
Proof.
  intros Hb Hw Hs Hempty. destruct (build e 1) as [|t owner next] eqn:Eb.
  - apply build_null in Eb. subst e. destruct Hempty as [?|Hbol]; [done|].
    split; intros _; exists 0%nat, 0%nat; (split; [lia|]); [done|split; [lia|done]].
  - unfold start_re. rewrite <- Eb. setoid_rewrite (build_language tx Hb e 1 _ _ Hw Hs).
    split; [intros (i & j & ? & ? & ?)|intros (i & j & ? & ?)]; exists i, j; split_and!; (done || lia).
Qed.

(** C16.  Searching decides matching: for a supported extended expression whose
    automaton is separated, [regcomp] and [regexec] together find out whether a
    part of the string matches what the expression denotes, at any position, with
    anchors, bracket expressions, groups, alternatives and every kind of
    duplication.  [REG_NOTBOL] is excluded for the empty expression only. *)
Theorem regex_search e s nmatch p eflags rx :
  wf e → supported e → e ≠ Empty ∨ has_flag eflags REG_NOTBOL = false →
  Forall (λ c, 0 < c < 256) s → has_flag eflags REG_STARTEND = false → (nmatch <= length p)%nat →
  regcomp false (print e ++ [0]) REG_EXTENDED = yields rx → separated (re_nodes rx) = true →
  ∃ result p' o',
    regexec rx (s ++ [0]) nmatch p eflags fresh_object = Ret (result, p', o') ∧ rested True o' ∧
    (result = 0 ∨ result = REG_NOMATCH) ∧
    (result = 0 ↔ ∃ i j, (i <= j <= length s)%nat ∧
       denotes (exec_text (s ++ [0]) eflags 0 (length s)) e i j).
Proof.
  intros Hw Hs Hempty Hbytes Hse Hnm Hrx Hsep.
  assert (Hb : Forall (λ c, 0 <= c < 256) (s ++ [0])).
  { apply Forall_app. split; [|by repeat constructor]. eapply Forall_impl; [exact Hbytes|]. cbn. lia. }
  destruct (regcomp_print e REG_EXTENDED Hw Hs eq_refl) as (nodes & Hne & Hrx').
  assert (Hnodes : re_nodes rx ≠ []).
  { rewrite Hrx' in Hrx. destruct (2 ^ 64 <=? _); [done|]. injection Hrx as <-. done. }
  destruct (regcomp_well_formed _ _ _ _ Hrx Hnodes) as (Hwf & r & num & Hp & Hl).
  change (has_flag REG_EXTENDED REG_EXTENDED) with true in Hp. rewrite (re_parse_print e Hw) in Hp. injection Hp as <- <-.
  set (tx := exec_text (s ++ [0]) eflags 0 (length s)).
  destruct (regexec_run rx Hwf (s ++ [0]) eflags True nmatch p 0 (length s) fresh_object)
    as (res & p' & o' & Hrun & Ho & Hres & Hsound & Hcomp); [done|by repeat split|done| |done|].
  { unfold search_range. rewrite Hse. split; [done|]. by apply string_length_app. }
  exists res, p', o'. split; [done|]. split; [done|]. split; [done|].
  assert (Hmatch : matches_somewhere rx (s ++ [0]) eflags 0 (length s) ↔
                   ∃ i j, (i <= j <= length s)%nat ∧ denotes tx e i j).
  { rewrite <- start_language; [|intros; by apply exec_text_bytes|done|done|].
    - unfold matches_somewhere. fold tx. by setoid_rewrite Hl.
    - destruct Hempty as [?|Hbol]; [by left|right]. cbn. by rewrite Hbol. }
  rewrite <- Hmatch. split; [done|by apply Hcomp].
Qed.

(** The conditions on a concrete expression. *)
#[local] Ltac solve_grammar :=
  cbn; repeat split; try lia; try (by left); try (by right);
  match goal with H : dup_max _ = Some _ |- _ => first [discriminate H|by injection H as <-] end.

(** [a(b|c)*d]. *)
Definition sample : ere :=
  Atom (AChar (ch "a")) Once
    (Sub (Or (Atom (AChar (ch "b")) Once Empty) (Atom (AChar (ch "c")) Once Empty)) Star
      (Atom (AChar (ch "d")) Once Empty)).

Lemma sample_supported : wf sample ∧ supported sample.
Proof. split; solve_grammar. Qed.

Lemma regex_search_witness :
  ∃ rx, regcomp false (print sample ++ [0]) REG_EXTENDED = yields rx ∧
  ∃ result p' o',
    regexec rx (lit "xabcbd" ++ [0]) 2 [(7, 7); (7, 7)] 0 fresh_object = Ret (result, p', o') ∧ rested True o' ∧
    (result = 0 ∨ result = REG_NOMATCH) ∧
    (result = 0 ↔ ∃ i j, (i <= j <= length (lit "xabcbd"))%nat ∧
       denotes (exec_text (lit "xabcbd" ++ [0]) 0 0 (length (lit "xabcbd"))) sample i j).
Proof.
  eexists. split; [vm_compute; reflexivity|].
  apply (regex_search sample (lit "xabcbd") 2 [(7, 7); (7, 7)] 0);
    [apply sample_supported|apply sample_supported|by left| |done|cbn; lia|vm_compute; reflexivity|vm_compute; reflexivity].
  repeat constructor; lia.
Defined.



(** [regcomp] ends on every pattern, well-formed or not, and terminated or not. *)
Lemma regcomp_terminates erange pattern cflags : regcomp erange pattern cflags ≠ OutOfFuel.
Proof.
  unfold regcomp. pose proof (re_parse_ends (has_flag cflags REG_EXTENDED) erange pattern) as He.
  destruct (re_parse _ _ pattern) as [[code|[r num]]| |] eqn:Ep; cbn [parse_bind]; try done.
  destruct (re_parse_shape _ _ _ _ _ Ep) as [Hnum Hs]. destruct (start_re_shape num r Hnum Hs) as [Hp _].
  pose proof (re_transform_chain_ends (re_weight (start_re r)) _ Hp ltac:(lia)) as Ht.
  change (re_transform_chain (re_weight (start_re r)) (start_re r)) with (re_transform r) in Ht.
  destruct (re_transform r) as [[[r' n] stop]| |]; [|done..].
  destruct (2 ^ 64 <=? _); [done|]. pose proof (control_flow_ends r' None 0) as Hf.
  destruct (re_control_flow r' None 0); [|done..]. by case_bool_decide.
Qed.

(** C20.  On every terminated pattern of either flavour that does not end in a
    hyphen, well-formed or not, the parser reads nothing past the pattern and
    returns.  If it returns an error then so does [regcomp], the same one; if it
    returns a tree in which every repetition has a positive maximum and nothing
    but what [re_duplicate] knows under it, then [regcomp] returns, either
    [REG_ESPACE] or the expression with at least one node and the
    subexpressions counted.  The patterns left out are those of
    [regcomp_brackets], [regcomp_count_zero] and [regcomp_repeats_eol]. *)
Theorem regcomp_ends erange s cflags :
  last s ≠ Some (ch "-") →
  (∃ code, re_parse (has_flag cflags REG_EXTENDED) erange (s ++ [0]) = fails code ∧
     regcomp erange (s ++ [0]) cflags = fails code) ∨
  (∃ r num, re_parse (has_flag cflags REG_EXTENDED) erange (s ++ [0]) = yields (r, num) ∧
     (expandable r →
      regcomp erange (s ++ [0]) cflags = fails REG_ESPACE ∨
      ∃ nodes, nodes ≠ [] ∧
        regcomp erange (s ++ [0]) cflags =
          yields (Regex (if has_flag cflags REG_NOSUB then 0 else num - 1) nodes num cflags))).
Proof.
  intros Hl. unfold regcomp.
  pose proof (re_parse_ends (has_flag cflags REG_EXTENDED) erange (s ++ [0])) as He.
  pose proof (re_parse_inside (has_flag cflags REG_EXTENDED) erange (s ++ [0]) (ex_intro _ s (conj eq_refl Hl))) as Hi.
  destruct (re_parse _ _ (s ++ [0])) as [[code|[r num]]| |] eqn:Ep; try done; [left; by exists code|right].
  exists r, num. split; [done|]. intros Hx. destruct (re_parse_shape _ _ _ _ _ Ep) as [Hnum Hs].
  destruct (passes_defined _ _ Hnum Hs Hx) as (r' & nodes & Ht & Hf & Hne). cbn [parse_bind]. rewrite Ht.
  destruct (2 ^ 64 <=? _); [by left|right]. exists nodes. by rewrite Hf, bool_decide_true.
Qed.

Lemma regcomp_ends_witness :
  last (lit "(a|b{2,3})*[x-z]") ≠ Some (ch "-") ∧
  ((∃ code, re_parse (has_flag REG_EXTENDED REG_EXTENDED) false (lit "(a|b{2,3})*[x-z]" ++ [0]) = fails code ∧
     regcomp false (lit "(a|b{2,3})*[x-z]" ++ [0]) REG_EXTENDED = fails code) ∨
   (∃ r num, re_parse (has_flag REG_EXTENDED REG_EXTENDED) false (lit "(a|b{2,3})*[x-z]" ++ [0]) = yields (r, num) ∧
     (expandable r →
      regcomp false (lit "(a|b{2,3})*[x-z]" ++ [0]) REG_EXTENDED = fails REG_ESPACE ∨
      ∃ nodes, nodes ≠ [] ∧
        regcomp false (lit "(a|b{2,3})*[x-z]" ++ [0]) REG_EXTENDED =
          yields (Regex (if has_flag REG_EXTENDED REG_NOSUB then 0 else num - 1) nodes num REG_EXTENDED)))).
Proof. split; [done|]. apply (regcomp_ends false (lit "(a|b{2,3})*[x-z]") REG_EXTENDED). done. Defined.

(** ** Defects *)

(** [^(a|ax|()|a)b$]. *)
Definition lost : ere :=
  Anchor true
    (Sub (Or (Atom (AChar (ch "a")) Once Empty)
         (Or (Atom (AChar (ch "a")) Once (Atom (AChar (ch "x")) Once Empty))
         (Or (Sub Empty Once Empty)
             (Atom (AChar (ch "a")) Once Empty)))) Once
    (Atom (AChar (ch "b")) Once (Anchor false Empty))).

Definition compiled (e : ere) : regex :=
  match regcomp false (print e ++ [0]) REG_EXTENDED with
  | Ret (inr rx) => rx
  | _ => Regex 0 [] 0 0
  end.

Lemma repeats_once (R : relation nat) i j : R i j → repeats Once R i j.
Proof. intros H. exists 1%nat. split_and!; [done|by intros ? [= <-]|by apply nsteps_once]. Qed.

(** A match can be missed: the expression [^(a|ax|()|a)b$] denotes the whole
    of the string [axb], but [regexec] returns [REG_NOMATCH], because a state
    that is linked as upcoming for the second time cuts off the ones after it;
    and the mark of the state that got lost stays for later calls. *)
Theorem regexec_loses_match :
  wf lost ∧ supported lost ∧
  denotes (exec_text (lit "axb" ++ [0]) 0 0 3) lost 0 3 ∧
  regcomp false (print lost ++ [0]) REG_EXTENDED = yields (compiled lost) ∧
  separated (re_nodes (compiled lost)) = false ∧
  ∃ o', regexec (compiled lost) (lit "axb" ++ [0]) 0 [] 0 fresh_object = Ret (REG_NOMATCH, [], o') ∧
    is_upcoming (fields o') 9 = true.
Proof.
  split_and!.
  - solve_grammar.
  - solve_grammar.
  - cbn [denotes lost]. split; [done|]. exists 2%nat. split.
    + apply repeats_once. right. left. exists 1%nat. split; [by apply repeats_once|].
      exists 2%nat. split; [by apply repeats_once|done].
    + exists 3%nat. split; [by apply repeats_once|]. done.
  - vm_compute. reflexivity.
  - vm_compute. reflexivity.
  - eexists. split; [vm_compute; reflexivity|vm_compute; reflexivity].
Qed.

(** What a call reports, without what it keeps. *)
Definition reported {A} (o : outcome (Z * list regmatch * A)) : outcome (Z * list regmatch) :=
  match o with Ret (r, p, _) => Ret (r, p) | Undef => Undef | OutOfFuel => OutOfFuel end.

Definition compiled_pattern (pattern : list Z) : regex :=
  match regcomp false (pattern ++ [0]) REG_EXTENDED with Ret (inr rx) => rx | _ => Regex 0 [] 0 0 end.

(** The offsets of a state that is upcoming are overwritten when the state is
    queued as a current one: the expression matches all of [abc], and [bc] is
    reported. *)
Example regexec_wrong_offsets :
  reported (regexec (compiled_pattern (lit "(ab|x*)c")) (lit "abc" ++ [0]) 1 [(0, 0)] 0 fresh_object) =
    Ret (0, [(1, 3)]).
Proof. vm_compute. reflexivity. Qed.

(** A repetition of count zero at the end of a group is taken for the end of the
    expression, and alone for no expression. *)
Example regcomp_count_zero :
  regcomp false (lit "(a{0})b" ++ [0]) REG_EXTENDED = Undef ∧
  regcomp false (lit "b|a{0}" ++ [0]) REG_EXTENDED = Undef ∧
  regexec (compiled_pattern (lit "a{0}")) (lit "b" ++ [0]) 0 [] 0 fresh_object = Undef.
Proof. split_and!; vm_compute; reflexivity. Qed.

(** An end-of-line anchor in a repeated group fails an assertion. *)
Example regcomp_repeats_eol :
  regcomp false (lit "(a$)?" ++ [0]) REG_EXTENDED = Undef ∧
  regcomp false (lit "(a|b$)*" ++ [0]) REG_EXTENDED = Undef.
Proof. split_and!; vm_compute; reflexivity. Qed.

(** Bracket expressions: a range without an end is read past the end of the
    pattern, and a bracket that comes first ends the set after all. *)
Example regcomp_brackets :
  regcomp false (lit "[a-" ++ [0]) REG_EXTENDED = Undef ∧
  reported (regexec (compiled_pattern (lit "[]a]")) (lit "a" ++ [0]) 0 [] 0 fresh_object) = Ret (REG_NOMATCH, []) ∧
  reported (regexec (compiled_pattern (lit "[]a]")) (lit "]a]" ++ [0]) 0 [] 0 fresh_object) = Ret (0, []).
Proof. split_and!; vm_compute; reflexivity. Qed.

(** A count is refused if [errno] happens to be [ERANGE]. *)
Example regcomp_stale_errno :
  regcomp true (lit "a{2}" ++ [0]) REG_EXTENDED = fails REG_BADBR.
Proof. vm_compute. reflexivity. Qed.

(** The empty expression is an anchor, and a range that is refused leaves the
    expression locked. *)
Example regexec_corners :
  reported (regexec (compiled_pattern []) (lit "a" ++ [0]) 0 [] REG_NOTBOL fresh_object) = Ret (REG_NOMATCH, []) ∧
  ∃ o, regexec (compiled_pattern (lit "a")) (lit "a" ++ [0]) 0 [(2, 1)] REG_STARTEND fresh_object =
         Ret (REG_INVARG, [(2, 1)], o) ∧
    regexec (compiled_pattern (lit "a")) (lit "a" ++ [0]) 0 [(0, 1)] REG_STARTEND o = OutOfFuel.
Proof. split; [vm_compute; reflexivity|]. eexists. split; vm_compute; reflexivity. Qed.

End RegexLang.
