(* ===== verification/Getopt.v ===== *)
(** * Option parsing

    [libc/getopt/getopt_long.c] and [getopt.c].  A pointer to a string is the
    string's identity and an offset into it ([text] gives the bytes before the
    terminator), so that the comparisons of pointers by which [getopt_long] finds
    out whether it is still in the argument it was in are comparisons of
    identities.  The variables of the file, the warnings written and the integers
    stored through the [flag] of a long option are the state [getopt_state]. *)

From S2P Require Import Prelude.
From stdpp Require Import base decidable list numbers strings gmap.
From Stdlib Require Import ZArith Lia Ascii.

#[local] Open Scope c_scope.
#[local] Open Scope Z_scope.

Module Getopt.

(** ** Declarations *)

Definition no_argument : Z := 0.
Definition required_argument : Z := 1.
Definition optional_argument : Z := 2.

(** [struct option]. *)
Record long_option := LongOption {
  opt_name : list Z;
  has_arg : Z;
  opt_flag : option Z;
  opt_val : Z }.

(** A pointer into a string. *)
Abbreviation pointer := (Z * nat)%type.

Inductive warning :=
| UnrecognizedOption (arg : Z)
| LongRequiresArgument (name : list Z)
| InvalidOption (c : Z)
| RequiresArgument (c : Z).

Record getopt_state := GetoptState {
  optarg : option pointer;
  opterr : Z;
  optind : Z;
  optopt : Z;
  optcurargv : Z;
  optcurarg : Z;
  optcurind : Z;
  optcurpos : nat;
  optcurvalid : bool;
  flags : gmap Z Z;
  warnings : list warning;
  errno_set : option errno }.

Definition getopt_init : getopt_state := GetoptState None 1 1 0 0 0 0 0 false ∅ [] None.

(** Assignments to the variables. *)
Definition set_optarg v st := GetoptState v (opterr st) (optind st) (optopt st) (optcurargv st) (optcurarg st) (optcurind st) (optcurpos st) (optcurvalid st) (flags st) (warnings st) (errno_set st).
Definition set_optind v st := GetoptState (optarg st) (opterr st) v (optopt st) (optcurargv st) (optcurarg st) (optcurind st) (optcurpos st) (optcurvalid st) (flags st) (warnings st) (errno_set st).
Definition set_optopt v st := GetoptState (optarg st) (opterr st) (optind st) v (optcurargv st) (optcurarg st) (optcurind st) (optcurpos st) (optcurvalid st) (flags st) (warnings st) (errno_set st).
Definition set_valid v st := GetoptState (optarg st) (opterr st) (optind st) (optopt st) (optcurargv st) (optcurarg st) (optcurind st) (optcurpos st) v (flags st) (warnings st) (errno_set st).
Definition set_pos v st := GetoptState (optarg st) (opterr st) (optind st) (optopt st) (optcurargv st) (optcurarg st) (optcurind st) v (optcurvalid st) (flags st) (warnings st) (errno_set st).
Definition set_current argv arg st := GetoptState (optarg st) (opterr st) (optind st) (optopt st) argv arg (optind st) 1 true (flags st) (warnings st) (errno_set st).
Definition set_flag a v st := GetoptState (optarg st) (opterr st) (optind st) (optopt st) (optcurargv st) (optcurarg st) (optcurind st) (optcurpos st) (optcurvalid st) (<[a := v]> (flags st)) (warnings st) (errno_set st).
Definition warnx w st := GetoptState (optarg st) (opterr st) (optind st) (optopt st) (optcurargv st) (optcurarg st) (optcurind st) (optcurpos st) (optcurvalid st) (flags st) (warnings st ++ [w]) (errno_set st).
Definition set_errno e st := GetoptState (optarg st) (opterr st) (optind st) (optopt st) (optcurargv st) (optcurarg st) (optcurind st) (optcurpos st) (optcurvalid st) (flags st) (warnings st) (Some e).

(** [s[i]], the terminator included. *)
Definition at_ (s : list Z) (i : nat) : Z := nth i s 0.

(** [strchr]: the string from the first [c] on; the null character is found at
    the end. *)
Fixpoint strchr_tail (s : list Z) (c : Z) : option (list Z) :=
  match s with
  | [] => if c =? 0 then Some [] else None
  | x :: s' => if x =? c then Some s else strchr_tail s' c
  end.

(** The characters before the first [=]: [strcspn(argname, "=")] of them. *)
Fixpoint option_name (s : list Z) : list Z :=
  match s with
  | [] => []
  | x :: s => if x =? ch "=" then [] else x :: option_name s
  end.

Fixpoint supported_from (s : list Z) : bool :=
  match s with
  | [] => true
  | c :: s' =>
      if (c =? ch "-") || (c =? ch "+") || (c =? ch ";") then false
      else if (c =? ch ":") && (at_ s 1 =? ch ":") && (at_ s 2 =? ch ":") then false
      else if (c =? ch "W") && (at_ s 1 =? ch ";") then false
      else supported_from s'
  end.

Definition is_supported_option_declaration (shortopts : list Z) : bool :=
  if (at_ shortopts 0 =? ch ":") && (at_ shortopts 1 =? ch ":") then false
  else supported_from shortopts.

Section Getopt.
Context (text : Z → list Z).

(** The option, its index and the parameter after an equals sign. *)
Fixpoint find_long_option_from (arg : Z) (i : Z) (longopts : list long_option)
    : option (long_option * Z * option pointer) :=
  match longopts with
  | [] => None
  | o :: longopts =>
      let argname := drop 2 (text arg) in
      let argname_length := length (option_name argname) in
      let has_equals := at_ argname argname_length =? ch "=" in
      if (has_arg o =? no_argument) && has_equals then find_long_option_from arg (i + 1) longopts
      else if negb (bool_decide (take argname_length argname = take argname_length (opt_name o)))
           then find_long_option_from arg (i + 1) longopts
      else if negb (at_ (opt_name o) argname_length =? 0) then find_long_option_from arg (i + 1) longopts
      else Some (o, i, if has_equals then Some (arg, (2 + argname_length + 1)%nat) else None)
  end.

Definition find_long_option (arg : Z) (longopts : list long_option) := find_long_option_from arg 0 longopts.

(** [argv[i]]: the identity of the string, or [None] for a null pointer. *)
Definition argv_at (argv : list (option Z)) (i : Z) : outcome (option Z) :=
  match argv !! Z.to_nat i with Some a => Ret a | None => Undef end.

Context (argc : Z) (argv_ptr : Z) (argv : list (option Z)).
Context (shortopts : list Z) (longopts : list long_option).

(** [argv[i]] if [i < argc] and it is not null. *)
Definition next_argument (i : Z) : outcome (option Z) :=
  if i <? argc then argv_at argv i else Ret None.

Abbreviation result := (outcome (Z * option Z * getopt_state)).

(** The branch for [--name]; the second component is what is stored in
    [*longindex]. *)
Definition getopt_long_option (caller_handles_missing_argument : bool) (arg : Z) (st : getopt_state) : result :=
  let found := find_long_option arg longopts in
  let st := set_optind (optind st + 1) st in
  match found with
  | None =>
      let st := if negb caller_handles_missing_argument && negb (opterr st =? 0)
                then warnx (UnrecognizedOption arg) st else st in
      Ret (ch "?", None, st)
  | Some (o, option_index, option_arg) =>
      next ← (if bool_decide (option_arg = None) && (has_arg o =? required_argument)
              then next_argument (optind st) else Ret None);
      let '(option_arg, st) :=
        match next with
        | Some a => (Some (a, 0%nat), set_optind (optind st + 1) st)
        | None => (option_arg, st)
        end in
      if bool_decide (option_arg = None) && (has_arg o =? required_argument) then
        if caller_handles_missing_argument then Ret (ch ":", Some option_index, st)
        else
          let st := if negb (opterr st =? 0) then warnx (LongRequiresArgument (opt_name o)) st else st in
          Ret (ch "?", Some option_index, st)
      else
        let st := set_optarg option_arg st in
        match opt_flag o with
        | Some a => Ret (0, Some option_index, set_flag a (opt_val o) st)
        | None => Ret (opt_val o, Some option_index, st)
        end
  end.

(** The option is followed by a parameter: [required] is whether it has to be. *)
Definition getopt_parameter (caller_handles_missing_argument : bool) (arg : Z) (short_option : Z)
    (required : bool) (st : getopt_state) : result :=
  let st := set_valid false st in
  if negb (at_ (text arg) (optcurpos st) =? 0) then
    Ret (short_option, None, set_optind (optind st + 1) (set_optarg (Some (arg, optcurpos st)) st))
  else
    next ← (if required then next_argument (optind st + 1) else Ret None);
    match next with
    | Some a => Ret (short_option, None, set_optind (optind st + 2) (set_optarg (Some (a, 0%nat)) st))
    | None =>
        if negb required then Ret (short_option, None, set_optind (optind st + 1) (set_optarg None st))
        else if caller_handles_missing_argument then Ret (ch ":", None, set_optopt short_option st)
        else
          let st := if negb (opterr st =? 0) then warnx (RequiresArgument short_option) st else st in
          Ret (ch "?", None, set_optopt short_option st)
    end.

(** The branch for [-c]. *)
Definition getopt_short_option (shortopts : list Z) (caller_handles_missing_argument : bool) (arg : Z)
    (st : getopt_state) : result :=
  let st := if negb (optcurvalid st) || negb (optcurargv st =? argv_ptr) || negb (optcurarg st =? arg)
               || negb (optcurind st =? optind st)
            then set_current argv_ptr arg st else st in
  let short_option := at_ (text arg) (optcurpos st) in
  let st := set_pos (S (optcurpos st)) st in
  let short_option := if short_option =? ch ":" then ch "?" else short_option in
  let opt_decl := strchr_tail shortopts short_option in
  let '(short_option, st) :=
    match opt_decl with
    | Some _ => (short_option, st)
    | None =>
        let st := if negb caller_handles_missing_argument && negb (opterr st =? 0)
                  then warnx (InvalidOption short_option) st else st in
        (ch "?", set_optopt short_option st)
    end in
  let has_parameter := match opt_decl with Some decl => at_ decl 1 =? ch ":" | None => false end in
  if has_parameter then
    getopt_parameter caller_handles_missing_argument arg short_option
      (match opt_decl with Some decl => negb (at_ decl 2 =? ch ":") | None => false end) st
  else if at_ (text arg) (optcurpos st) =? 0 then
    Ret (short_option, None, set_valid false (set_optind (optind st + 1) st))
  else Ret (short_option, None, st).

(** [getopt_long]: the value returned, what is stored in [*longindex] and the
    state. *)
Definition getopt_long (st : getopt_state) : result :=
  if optind st <? 0 then Undef
  else
    let st := if optind st =? 0 then set_valid false (set_optind 1 st) else st in
    if negb (is_supported_option_declaration shortopts) then Ret (-1, None, set_errno EINVAL st)
    else
      (* Also with a leading colon the flag is set to false. *)
      let caller_handles_missing_argument := false in
      let shortopts := if at_ shortopts 0 =? ch ":" then drop 1 shortopts else shortopts in
      if argc <=? optind st then Ret (-1, None, set_valid false st)
      else
        a ← argv_at argv (optind st);
        match a with
        | None => Ret (-1, None, set_valid false st)
        | Some arg =>
            let s := text arg in
            if negb (at_ s 0 =? ch "-") then Ret (-1, None, set_valid false st)
            else if at_ s 1 =? 0 then Ret (-1, None, set_valid false st)
            else if (at_ s 1 =? ch "-") && (at_ s 2 =? 0)
                 then Ret (-1, None, set_optind (optind st + 1) (set_valid false st))
            else if (at_ s 1 =? ch "-") && negb (at_ s 2 =? 0)
                 then getopt_long_option caller_handles_missing_argument arg st
            else getopt_short_option shortopts caller_handles_missing_argument arg st
        end.

End Getopt.

(** [getopt]. *)
Definition getopt (text : Z → list Z) (argc argv_ptr : Z) (argv : list (option Z)) (shortopts : list Z)
    (st : getopt_state) : outcome (Z * option Z * getopt_state) :=
  getopt_long text argc argv_ptr argv shortopts [] st.

(** ** Command lines

    What a user writes: options with their parameters, and the arguments they are
    spelled with. *)

Inductive parameter := NoParameter | Attached (v : list Z) | Separate (v : list Z).

Inductive item :=
| Short (cluster : list Z) (c : Z) (p : parameter)
| Long (o : long_option) (p : parameter).

Definition render (i : item) : list (list Z) :=
  match i with
  | Short cluster c NoParameter => [lit "-" ++ cluster ++ [c]]
  | Short cluster c (Attached v) => [lit "-" ++ cluster ++ c :: v]
  | Short cluster c (Separate v) => [lit "-" ++ cluster ++ [c]; v]
  | Long o NoParameter => [lit "--" ++ opt_name o]
  | Long o (Attached v) => [lit "--" ++ opt_name o ++ ch "=" :: v]
  | Long o (Separate v) => [lit "--" ++ opt_name o; v]
  end.

Definition parameter_value (p : parameter) : option (list Z) :=
  match p with NoParameter => None | Attached v | Separate v => Some v end.

(** What the calls return for it, with the parameter [optarg] points to. *)
Definition events (i : item) : list (Z * option (list Z)) :=
  match i with
  | Short cluster c p => map (λ f, (f, None)) cluster ++ [(c, parameter_value p)]
  | Long o p => [(match opt_flag o with Some _ => 0 | None => opt_val o end, parameter_value p)]
  end.

(** The declarations without the colon that may come first. *)
Definition declarations (shortopts : list Z) : list Z :=
  if at_ shortopts 0 =? ch ":" then drop 1 shortopts else shortopts.

(** How an option character is declared. *)
Definition short_kind (shortopts : list Z) (c : Z) : option Z :=
  match strchr_tail (declarations shortopts) c with
  | None => None
  | Some decl => Some (if at_ decl 1 =? ch ":" then (if at_ decl 2 =? ch ":" then optional_argument else required_argument)
                       else no_argument)
  end.

Definition plain_char (c : Z) : Prop := 0 < c ∧ c ≠ ch ":" ∧ c ≠ ch "-".

(** A parameter fits a declaration. *)
Definition fits (kind : Z) (p : parameter) : Prop :=
  match p with
  | NoParameter => kind = no_argument ∨ kind = optional_argument
  | Attached _ => kind = required_argument ∨ kind = optional_argument
  | Separate _ => kind = required_argument
  end.

(** A long option is the first of its name. *)
Definition declared_long (longopts : list long_option) (o : long_option) : Prop :=
  ∃ before after, longopts = before ++ o :: after ∧
    Forall (λ o', opt_name o' ≠ opt_name o ∧ Forall (λ c, c ≠ 0) (opt_name o')) before.

Definition item_ok (shortopts : list Z) (longopts : list long_option) (i : item) : Prop :=
  match i with
  | Short cluster c p =>
      Forall (λ f, plain_char f ∧ short_kind shortopts f = Some no_argument) cluster ∧ plain_char c ∧
      (∃ kind, short_kind shortopts c = Some kind ∧ fits kind p) ∧
      match p with Attached v => v ≠ [] ∧ at_ v 0 ≠ 0 | _ => True end
  | Long o p =>
      declared_long longopts o ∧ opt_name o ≠ [] ∧ Forall (λ c, c ≠ 0 ∧ c ≠ ch "=") (opt_name o) ∧
      opt_val o ≠ -1 ∧ fits (has_arg o) p
  end.

(** What is left when the options end. *)
Definition ends_options (rest : list (list Z)) : Prop :=
  match rest with
  | [] => True
  | s :: _ => at_ s 0 ≠ ch "-" ∨ s = lit "-"
  end.

(** ** A caller

    It forgets the last parameter and calls again until there are no more
    options. *)
Section Caller.
Context (text : Z → list Z) (argc argv_ptr : Z) (argv : list (option Z)).
Context (shortopts : list Z) (longopts : list long_option).

Definition pointed (p : pointer) : list Z := drop p.2 (text p.1).

Fixpoint getopt_loop (fuel : nat) (st : getopt_state) : outcome (list (Z * option (list Z)) * getopt_state) :=
  match fuel with
  | O => OutOfFuel
  | S fuel =>
      '(r, _, st) ← getopt_long text argc argv_ptr argv shortopts longopts (set_optarg None st);
      if r =? -1 then Ret ([], st)
      else '(l, st') ← getopt_loop fuel st; Ret ((r, option_map pointed (optarg st)) :: l, st')
  end.

End Caller.

(** [argv] holds these strings. *)
Definition arguments (text : Z → list Z) (argc : Z) (argv : list (option Z)) (strs : list (list Z)) : Prop :=
  ∃ ids, argv = map Some ids ++ [None] ∧ argc = Z.of_nat (length ids) ∧ map text ids = strs.

Lemma arguments_at text argc argv strs k s :
  arguments text argc argv strs → strs !! k = Some s →
  ∃ id, argv_at argv (Z.of_nat k) = Ret (Some id) ∧ text id = s ∧ Z.of_nat k < argc.
Proof.
  intros (ids & -> & -> & <-) Hk. rewrite list_lookup_fmap in Hk.
  destruct (ids !! k) as [id|] eqn:E; [|done]. injection Hk as <-. exists id.
  pose proof (lookup_lt_Some _ _ _ E). unfold argv_at. rewrite Nat2Z.id, lookup_app_l by (rewrite length_map; lia).
  rewrite list_lookup_fmap, E. split_and!; [done|done|lia].
Qed.

Lemma at_app (a b : list Z) : at_ (a ++ b) (length a) = at_ b 0.
Proof. unfold at_. rewrite app_nth2 by lia. by rewrite Nat.sub_diag. Qed.

(** The integers stored through [flag]. *)
Definition store_flag (m : gmap Z Z) (i : item) : gmap Z Z :=
  match i with
  | Long o _ => match opt_flag o with Some a => <[a := opt_val o]> m | None => m end
  | Short _ _ _ => m
  end.

(** ** The calls for one argument *)

(** Between two arguments. *)
Definition between (k : nat) (m : gmap Z Z) (st : getopt_state) : Prop :=
  optcurvalid st = false ∧ optind st = Z.of_nat k ∧ warnings st = [] ∧ flags st = m.

Section Correct.
Context (text : Z → list Z) (argc argv_ptr : Z) (argv : list (option Z)).
Context (shortopts : list Z) (longopts : list long_option) (strs : list (list Z)).
Context (Hargs : arguments text argc argv strs).
Context (Hdecl : is_supported_option_declaration shortopts = true).

Abbreviation call := (getopt_long text argc argv_ptr argv shortopts longopts).
Abbreviation loop := (getopt_loop text argc argv_ptr argv shortopts longopts).

(** Before character [j] of the argument [id] at index [k]. *)
Definition within (k : nat) (id : Z) (j : nat) (m : gmap Z Z) (st : getopt_state) : Prop :=
  (optcurvalid st = false ∧ j = 1%nat ∨
   optcurvalid st = true ∧ optcurargv st = argv_ptr ∧ optcurarg st = id ∧ optcurind st = Z.of_nat k ∧ optcurpos st = j) ∧
  optind st = Z.of_nat k ∧ warnings st = [] ∧ flags st = m.

Lemma between_within k id m st : between k m st → within k id 1 m st.
Proof. intros (?&?&?&?). split_and!; auto. Qed.

(** Past the tests on the argument at the head. *)
Lemma getopt_long_enter k id m st s :
  (0 < k)%nat → optind st = Z.of_nat k → flags st = m → argv_at argv (Z.of_nat k) = Ret (Some id) → text id = s →
  Z.of_nat k < argc → at_ s 0 = ch "-" → at_ s 1 ≠ 0 →
  call st =
    if at_ s 1 =? ch "-" then
      if at_ s 2 =? 0 then Ret (-1, None, set_optind (optind st + 1) (set_valid false st))
      else getopt_long_option text argc argv longopts false id st
    else getopt_short_option text argc argv_ptr argv (declarations shortopts) false id st.
Proof.
  intros Hk Hi _ Hat Ht Hlt H0 H1. unfold getopt_long. rewrite Hdecl, Hi.
  rewrite (proj2 (Z.ltb_ge _ _)), (proj2 (Z.eqb_neq (Z.of_nat k) 0)) by lia. cbn [negb].
  rewrite Hi, (proj2 (Z.leb_gt _ _)) by lia. rewrite Hat. cbn [mbind outcome_bind].
  rewrite Ht, H0, Z.eqb_refl. cbn [negb]. rewrite (proj2 (Z.eqb_neq (at_ s 1) 0)) by done.
  destruct (at_ s 1 =? ch "-"), (at_ s 2 =? 0); done.
Qed.

(** The next character of the argument. *)
Lemma getopt_short_step k id j m st c decl :
  within k id j m st → at_ (text id) j = c → c ≠ ch ":" → strchr_tail (declarations shortopts) c = Some decl →
  ∃ st1,
    within k id (S j) m st1 ∧ optcurvalid st1 = true ∧ optarg st1 = optarg st ∧
    getopt_short_option text argc argv_ptr argv (declarations shortopts) false id st =
      if at_ decl 1 =? ch ":" then getopt_parameter text argc argv false id c (negb (at_ decl 2 =? ch ":")) st1
      else if at_ (text id) (S j) =? 0 then Ret (c, None, set_valid false (set_optind (optind st1 + 1) st1))
      else Ret (c, None, st1).
Proof.
  intros (Hv & Hi & Hw & Hf) Hc Hcolon Hd. unfold getopt_short_option.
  set (st0 := if _ : bool then set_current argv_ptr id st else st).
  assert (H0 : optcurpos st0 = j ∧ optcurvalid st0 = true ∧ optcurargv st0 = argv_ptr ∧ optcurarg st0 = id ∧
    optcurind st0 = Z.of_nat k ∧ optind st0 = Z.of_nat k ∧ warnings st0 = [] ∧ flags st0 = m ∧ optarg st0 = optarg st).
  { subst st0. destruct Hv as [[Hv ->]|(Hv & Ha & Hg & Hx & Hp)]; rewrite Hv; cbn; [by split_and!|].
    rewrite Ha, Hg, Hx, Hi, !Z.eqb_refl. cbn. by split_and!. }
  destruct H0 as (Hp0 & ?&?&?&?&?&?&?&?). rewrite Hp0, Hc.
  rewrite (proj2 (Z.eqb_neq c (ch ":"))) by done. rewrite Hd.
  exists (set_pos (S j) st0). split; [|split; [done|split; [done|]]].
  - split_and!; try done. right. by split_and!.
  - done.
Qed.

(** These calls of the loop, one after the other. *)
Definition steps (evs : list (Z * option (list Z))) (st st1 : getopt_state) : Prop :=
  ∀ n, loop (length evs + n) st = ('(l, st') ← loop n st1; Ret (evs ++ l, st')).

Lemma steps_nil st : steps [] st st.
Proof. intros n. cbn. by destruct (loop n st) as [[]| |]. Qed.

Lemma steps_app evs evs' st st1 st2 : steps evs st st1 → steps evs' st1 st2 → steps (evs ++ evs') st st2.
Proof.
  intros H1 H2 n. rewrite length_app, <-Nat.add_assoc, H1, H2.
  destruct (loop n st2) as [[l st']| |]; cbn; by rewrite <-?app_assoc.
Qed.

Lemma steps_one st st1 r x :
  call (set_optarg None st) = Ret (r, x, st1) → r ≠ -1 → steps [(r, option_map (pointed text) (optarg st1))] st st1.
Proof.
  intros H Hr n. cbn. rewrite H. cbn. by rewrite (proj2 (Z.eqb_neq _ _)) by done.
Qed.

Lemma within_forget k id j m st : within k id j m st → within k id j m (set_optarg None st).
Proof. done. Qed.
Lemma between_forget k m st : between k m st → between k m (set_optarg None st).
Proof. done. Qed.

Lemma at_cons_S c (s : list Z) n : at_ (c :: s) (S n) = at_ s n.
Proof. done. Qed.

Section Cluster.
Context (k : nat) (id : Z) (m : gmap Z Z) (Hk : (0 < k)%nat).
Context (Hid : argv_at argv (Z.of_nat k) = Ret (Some id)) (Hlt : Z.of_nat k < argc).

(** Inside an argument of short options the call goes to the next of them. *)
Lemma cluster_call pre c post st :
  within k id (S (length pre)) m st → text id = ch "-" :: pre ++ c :: post → Forall plain_char pre → plain_char c →
  call st = getopt_short_option text argc argv_ptr argv (declarations shortopts) false id st ∧
  at_ (text id) (S (length pre)) = c ∧ at_ (text id) (S (S (length pre))) = at_ post 0.
Proof.
  intros (Hv & Hi & Hw & Hf) Ht Hpre Hc.
  assert (H1 : plain_char (at_ (text id) 1)).
  { rewrite Ht. destruct Hpre; [done|]. done. }
  destruct H1 as (?&?&?). split.
  - rewrite (getopt_long_enter k id m st (text id)); rewrite ?Ht; try done.
    + by rewrite (proj2 (Z.eqb_neq _ (ch "-"))) by (by rewrite <-Ht).
    + rewrite <-Ht. lia.
  - rewrite Ht, !at_cons_S. split; [by rewrite at_app|].
    change (c :: post) with ([c] ++ post). rewrite app_assoc.
    replace (S (length pre)) with (length (pre ++ [c])) by (rewrite length_app; cbn; lia). by rewrite at_app.
Qed.

Lemma short_kind_flag c : short_kind shortopts c = Some no_argument →
  ∃ decl, strchr_tail (declarations shortopts) c = Some decl ∧ (at_ decl 1 =? ch ":") = false.
Proof.
  unfold short_kind. destruct (strchr_tail _ c) as [decl|]; [|done]. intros H. exists decl. split; [done|].
  by destruct (at_ decl 1 =? ch ":"), (at_ decl 2 =? ch ":").
Qed.

(** Flags one after the other in an argument. *)
Lemma cluster_steps flags c post : 
  plain_char c → Forall (λ f, plain_char f ∧ short_kind shortopts f = Some no_argument) flags →
  ∀ pre st, Forall plain_char pre → within k id (S (length pre)) m st →
  text id = ch "-" :: pre ++ flags ++ c :: post →
  ∃ st1, within k id (S (length (pre ++ flags))) m st1 ∧ steps (map (λ f, (f, None)) flags) st st1.
Proof.
  intros Hc. induction flags as [|f flags IH]; intros Hfl pre st Hpre Hst Ht.
  { exists st. rewrite app_nil_r. split; [done|apply steps_nil]. }
  inversion Hfl as [|? ? [Hf Hkind] Hfl']; subst.
  pose proof (within_forget _ _ _ _ _ Hst) as Hst0.
  destruct (cluster_call pre f (flags ++ c :: post) _ Hst0 Ht Hpre Hf) as (Hcall & Hat & Hnext).
  destruct (short_kind_flag f Hkind) as (decl & Hd & Hcol).
  destruct (getopt_short_step k id _ m _ f decl Hst0 Hat) as (st1 & Hin & Hval & Harg & Heq); [by destruct Hf as (?&?&?)|done|].
  rewrite Hcol, Hnext in Heq. rewrite (proj2 (Z.eqb_neq _ 0)) in Heq.
  2:{ destruct flags as [|f' ?]; cbn; [destruct Hc; lia|]. inversion Hfl' as [|? ? [[? ?] _]]; subst. lia. }
  rewrite <-Hcall in Heq. apply steps_one in Heq; [|destruct Hf; lia]. rewrite Harg in Heq. cbn in Heq.
  replace (S (S (length pre))) with (S (length (pre ++ [f]))) in Hin by (rewrite length_app; cbn; lia).
  destruct (IH Hfl' (pre ++ [f]) st1) as (st2 & Hin2 & Hsteps);
    [by apply Forall_app; split; [done|constructor]|done|by rewrite Ht, <-app_assoc|].
  exists st2. rewrite <-app_assoc in Hin2. split; [done|].
  exact (steps_app [_] _ _ _ _ Heq Hsteps).
Qed.

(** The last option of the argument. *)
Lemma last_step pre c p st :
  plain_char c → Forall plain_char pre → within k id (S (length pre)) m st →
  (∃ kind, short_kind shortopts c = Some kind ∧ fits kind p) →
  match p with
  | NoParameter => text id = ch "-" :: pre ++ [c]
  | Attached v => text id = ch "-" :: pre ++ c :: v ∧ at_ v 0 ≠ 0
  | Separate v => text id = ch "-" :: pre ++ [c] ∧ strs !! S k = Some v
  end →
  ∃ st1, between (k + length (render (Short [] c p))) m st1 ∧ steps [(c, parameter_value p)] st st1.
Proof.
  intros Hc Hpre Hst (kind & Hkind & Hfit) Hp.
  pose proof (within_forget _ _ _ _ _ Hst) as Hst0.
  set (post := match p with Attached v => v | _ => [] end).
  assert (Ht : text id = ch "-" :: pre ++ c :: post) by (destruct p; by destruct_and?).
  destruct (cluster_call pre c post _ Hst0 Ht Hpre Hc) as (Hcall & Hat & Hnext).
  unfold short_kind in Hkind. destruct (strchr_tail (declarations shortopts) c) as [decl|] eqn:Hd; [|done].
  injection Hkind as Hkind.
  destruct (getopt_short_step k id _ m _ c decl Hst0 Hat) as (st1 & (Hv & Hi & Hw & Hf) & Hval & Harg & Heq);
    [by destruct Hc as (?&?&?)|done|].
  rewrite <-Hcall, Hnext in Heq.
  destruct Hv as [[Hv _]|(_ & Ha & Hg & Hx & Hpos)]; [congruence|].
  assert (Hr : c ≠ -1) by (destruct Hc; lia).
  unfold getopt_parameter in Heq. cbn [optcurpos set_valid optind] in Heq. rewrite Hpos, Hnext, Hi in Heq.
  destruct p as [|v|v]; cbn [fits] in Hfit.
  - assert (Hkinds : (at_ decl 1 =? ch ":") = false ∨ (at_ decl 2 =? ch ":") = true).
    { destruct (at_ decl 1 =? ch ":"), (at_ decl 2 =? ch ":"); subst kind; destruct Hfit; auto; done. }
    cbn [post at_ nth] in Heq. exists (if at_ decl 1 =? ch ":" then set_optind (Z.of_nat k + 1) (set_optarg None (set_valid false st1))
      else set_valid false (set_optind (Z.of_nat k + 1) st1)). cbn [render length].
    destruct (at_ decl 1 =? ch ":").
    + destruct Hkinds as [?|Hk2]; [done|]. rewrite Hk2 in Heq. split; [split_and!; cbn; try done; lia|].
      exact (steps_one _ _ _ _ Heq Hr).
    + split; [split_and!; cbn; try done; lia|]. apply steps_one in Heq; [|done].
      cbn [optarg set_valid set_optind] in Heq. by rewrite Harg in Heq.
  - destruct Hp as [_ Hv0]. assert (Hcol : (at_ decl 1 =? ch ":") = true).
    { destruct (at_ decl 1 =? ch ":"); [done|]. subst kind. by destruct Hfit. }
    rewrite Hcol in Heq. cbn [post] in Heq. rewrite (proj2 (Z.eqb_neq _ 0)) in Heq by done. cbn [negb] in Heq.
    eexists. split; [|apply steps_one in Heq; [|done]; replace (parameter_value (Attached v)) with
      (option_map (pointed text) (Some (id, S (S (length pre))))); [exact Heq|]].
    + split_and!; cbn; try done; lia.
    + cbn [option_map parameter_value]. f_equal. unfold pointed. cbn [fst snd]. rewrite Ht. cbn [drop].
      change (c :: post) with ([c] ++ v). rewrite app_assoc.
      replace (S (length pre)) with (length (pre ++ [c])) by (rewrite length_app; cbn; lia). apply drop_app_length.
  - destruct Hp as [_ Hs].
    assert (Hcol : (at_ decl 1 =? ch ":") = true ∧ (at_ decl 2 =? ch ":") = false).
    { destruct (at_ decl 1 =? ch ":"), (at_ decl 2 =? ch ":"); subst kind; done. }
    destruct Hcol as [Hc1 Hc2]. rewrite Hc1, Hc2 in Heq. cbn [post at_ nth negb Z.eqb] in Heq.
    destruct (arguments_at _ _ _ _ _ _ Hargs Hs) as (id' & Hat' & Ht' & Hlt').
    unfold next_argument in Heq. replace (Z.of_nat k + 1) with (Z.of_nat (S k)) in Heq by lia.
    rewrite (proj2 (Z.ltb_lt _ _)), Hat' in Heq by done. cbn [mbind outcome_bind] in Heq.
    eexists. split; [|apply steps_one in Heq; [|done]; replace (parameter_value (Separate v)) with
      (option_map (pointed text) (Some (id', 0%nat))); [exact Heq|]].
    + split_and!; cbn; try done; lia.
    + cbn. unfold pointed. cbn. by rewrite Ht'.
Qed.
End Cluster.

(** The text of the argument at [k]. *)
Lemma argument k s : strs !! k = Some s →
  ∃ id, argv_at argv (Z.of_nat k) = Ret (Some id) ∧ text id = s ∧ Z.of_nat k < argc.
Proof. exact (arguments_at _ _ _ _ k s Hargs). Qed.

Lemma short_item_steps k m st cluster c p :
  (0 < k)%nat → between k m st → item_ok shortopts longopts (Short cluster c p) →
  (∀ j s, render (Short cluster c p) !! j = Some s → strs !! (k + j)%nat = Some s) →
  ∃ st1, between (k + length (render (Short cluster c p))) m st1 ∧ steps (events (Short cluster c p)) st st1.
Proof.
  intros Hk Hst (Hcl & Hc & Hkind & Hv) Hstrs.
  set (post := match p with Attached v => v | _ => [] end).
  destruct (argument k (ch "-" :: cluster ++ c :: post)) as (id & Hid & Ht & Hlt).
  { rewrite <-(Nat.add_0_r k). apply Hstrs. by destruct p. }
  destruct (cluster_steps k id m Hk Hid Hlt cluster c post Hc Hcl [] st) as (st1 & Hin & Hsteps);
    [done|by apply between_within|done|].
  destruct (last_step k id m Hk Hid Hlt cluster c p st1 Hc) as (st2 & Hb & Hlast); try done.
  { eapply Forall_impl; [exact Hcl|]. by intros ? []. }
  { destruct p; [done|by destruct Hv|]. split; [done|]. rewrite <-Nat.add_1_r. by apply Hstrs. }
  exists st2. split; [by destruct p|]. exact (steps_app _ _ _ _ _ Hsteps Hlast).
Qed.

End Correct.

(** ** Long options *)

Lemma option_name_app name s : Forall (λ c, c ≠ 0 ∧ c ≠ ch "=") name → (s = [] ∨ ∃ v, s = ch "=" :: v) →
  option_name (name ++ s) = name.
Proof.
  intros H Hs. induction H as [|c name [_ Hc] _ IH]; cbn.
  - by destruct Hs as [->|[v ->]].
  - by rewrite (proj2 (Z.eqb_neq _ _)), IH by done.
Qed.

(** A name without null characters ends where a null character is read. *)
Lemma at_end (s : list Z) n : Forall (λ c, c ≠ 0) s → at_ s n = 0 → (length s ≤ n)%nat.
Proof.
  intros H E. destruct (decide (length s ≤ n)%nat) as [|Hn]; [done|].
  unfold at_ in E. rewrite (Forall_nth _ 0) in H. exfalso. apply (H n); [lia|done].
Qed.

Lemma find_long_option_found text id longopts o s i :
  declared_long longopts o → Forall (λ c, c ≠ 0 ∧ c ≠ ch "=") (opt_name o) →
  text id = lit "--" ++ opt_name o ++ s → (s = [] ∨ has_arg o ≠ no_argument ∧ ∃ v, s = ch "=" :: v) →
  ∃ i', find_long_option_from text id i longopts =
    Some (o, i', if at_ s 0 =? ch "=" then Some (id, (3 + length (opt_name o))%nat) else None).
Proof.
  intros (before & after & -> & Hbefore) Hname Ht Hs. revert i. cbn in Ht.
  assert (Harg : drop 2 (text id) = opt_name o ++ s) by by rewrite Ht.
  assert (Hon : option_name (opt_name o ++ s) = opt_name o) by (apply option_name_app; [done|]; destruct Hs as [|[_ ?]]; auto).
  induction Hbefore as [|o' before [Hne Hnul] _ IH]; intros i; cbn [find_long_option_from app]; rewrite Harg, Hon, at_app.
  - rewrite !take_app_length, firstn_all. rewrite bool_decide_true by done. cbn [negb].
    replace (at_ (opt_name o) (length (opt_name o))) with 0 by (symmetry; apply nth_overflow; lia). cbn [negb Z.eqb].
    exists i. destruct Hs as [->|(Ha & v & ->)]; cbn.
    + by rewrite andb_false_r.
    + rewrite (proj2 (Z.eqb_neq _ _)) by done. cbn. do 3 f_equal. f_equal. lia.
  - destruct (_ && _); [apply IH|]. rewrite take_app_length. case_bool_decide as He; [|apply IH]. cbn [negb].
    destruct (Z.eqb_spec (at_ (opt_name o') (length (opt_name o))) 0) as [E|]; [|apply IH].
    exfalso. apply Hne. apply (at_end _ _ Hnul) in E. by rewrite (take_ge (opt_name o')) in He by done.
Qed.

Section Whole.
Context (text : Z → list Z) (argc argv_ptr : Z) (argv : list (option Z)).
Context (shortopts : list Z) (longopts : list long_option) (strs : list (list Z)).
Context (Hargs : arguments text argc argv strs).
Context (Hdecl : is_supported_option_declaration shortopts = true).

Abbreviation call := (getopt_long text argc argv_ptr argv shortopts longopts).
Abbreviation loop := (getopt_loop text argc argv_ptr argv shortopts longopts).
Abbreviation steps := (steps text argc argv_ptr argv shortopts longopts).

(** The value a long option returns. *)
Definition long_value (o : long_option) : Z := match opt_flag o with Some _ => 0 | None => opt_val o end.

(** What is done with the parameter of a long option once it is found. *)
Definition long_done (o : long_option) (i : Z) (arg : option pointer) (st : getopt_state) :=
  Ret (long_value o, Some i,
    match opt_flag o with Some a => set_flag a (opt_val o) (set_optarg arg st) | None => set_optarg arg st end).

Lemma long_found k m st id o p :
  (0 < k)%nat → between k m st → item_ok shortopts longopts (Long o p) →
  argv_at argv (Z.of_nat k) = Ret (Some id) → Z.of_nat k < argc →
  text id = lit "--" ++ opt_name o ++ match p with Attached v => ch "=" :: v | _ => [] end →
  (∀ v, p = Separate v → strs !! S k = Some v) →
  ∃ i arg, call st = long_done o i arg (set_optind (Z.of_nat (k + length (render (Long o p)))) st) ∧
    option_map (pointed text) arg = parameter_value p.
Proof.
  intros Hk (Hv & Hi & Hw & Hf) (Hdl & Hne & Hname & Hval & Hfit) Hid Hlt Ht Hsep.
  set (tail := match p with Attached v => ch "=" :: v | _ => [] end) in Ht.
  assert (Htail : tail = [] ∨ has_arg o ≠ no_argument ∧ ∃ v, tail = ch "=" :: v).
  { destruct p as [|v|v]; cbn; auto. right. split; [|by exists v]. destruct Hfit as [->| ->]; done. }
  destruct (find_long_option_found text id longopts o tail 0 Hdl Hname Ht Htail) as [i Hfound].
  assert (H2 : at_ (opt_name o ++ tail) 0 ≠ 0).
  { destruct (opt_name o) as [|c name] eqn:E; [done|]. inversion Hname as [|? ? [? _]]. done. }
  pose proof (getopt_long_enter text argc argv_ptr argv shortopts longopts Hdecl k id m st _ Hk Hi Hf Hid Ht Hlt
    eq_refl ltac:(done)) as Hcall.
  change (at_ (lit "--" ++ opt_name o ++ tail) 2) with (at_ (opt_name o ++ tail) 0) in Hcall.
  change (at_ (lit "--" ++ opt_name o ++ tail) 1 =? ch "-") with true in Hcall.
  rewrite (proj2 (Z.eqb_neq _ 0)) in Hcall by done. cbn iota in Hcall.
  unfold getopt_long_option, find_long_option in Hcall. rewrite Hfound in Hcall.
  cbn [optind set_optarg set_optind] in Hcall. rewrite Hi in Hcall. rewrite Hcall. clear Hcall Hfound.
  unfold long_done, long_value. destruct p as [|v|v]; unfold tail in *; cbn [at_ nth].
  - exists i, None. split; [|done]. rewrite bool_decide_true by done.
    replace (has_arg o =? required_argument) with false by (destruct Hfit as [->| ->]; done).
    replace (Z.of_nat (k + _)) with (Z.of_nat k + 1) by (cbn; lia). by destruct (opt_flag o).
  - exists i, (Some (id, (3 + length (opt_name o))%nat)). split.
    + rewrite bool_decide_false by done.
      replace (Z.of_nat (k + _)) with (Z.of_nat k + 1) by (cbn; lia). by destruct (opt_flag o).
    + cbn [option_map parameter_value]. unfold pointed. cbn [fst snd]. rewrite Ht. cbn.
      replace (S (length (opt_name o))) with (length (opt_name o) + 1)%nat by lia. by rewrite drop_app_add.
  - destruct (argument text argc argv strs Hargs (S k) v (Hsep v eq_refl)) as (id' & Hid' & Ht' & Hlt').
    exists i, (Some (id', 0%nat)). split; [|cbn; by rewrite <-Ht'].
    rewrite bool_decide_true by done. replace (has_arg o =? required_argument) with true by (by rewrite Hfit).
    unfold next_argument. replace (Z.of_nat k + 1) with (Z.of_nat (S k)) by lia.
    rewrite (proj2 (Z.ltb_lt _ _)), Hid' by done. cbn.
    replace (Z.of_nat (k + 2)) with (Z.pos (Pos.of_succ_nat k) + 1) by lia. by destruct (opt_flag o).
Qed.

Lemma long_item_steps k m st o p :
  (0 < k)%nat → between k m st → item_ok shortopts longopts (Long o p) →
  (∀ j s, render (Long o p) !! j = Some s → strs !! (k + j)%nat = Some s) →
  ∃ st1, between (k + length (render (Long o p))) (store_flag m (Long o p)) st1 ∧ steps (events (Long o p)) st st1.
Proof.
  intros Hk Hst Hok Hstrs.
  destruct (argument text argc argv strs Hargs k (lit "--" ++ opt_name o ++ match p with Attached v => ch "=" :: v | _ => [] end))
    as (id & Hid & Ht & Hlt).
  { rewrite <-(Nat.add_0_r k). apply Hstrs. destruct p; cbn; by rewrite ?app_nil_r. }
  destruct (long_found k m (set_optarg None st) id o p) as (i & arg & Heq & Harg); try done.
  { intros v ->. rewrite <-Nat.add_1_r. by apply Hstrs. }
  unfold long_done in Heq. set (st1 := match opt_flag o with Some _ => _ | None => _ end) in Heq. exists st1. split.
  - destruct Hst as (?&?&?&Hm). unfold st1, store_flag. split_and!; destruct (opt_flag o); cbn; rewrite ?Hm; done.
  - apply steps_one in Heq; [|unfold long_value; destruct Hok as (_&_&_&?&_); by destruct (opt_flag o)].
    replace (events (Long o p)) with [(long_value o, parameter_value p)] by done. rewrite <-Harg.
    replace arg with (optarg st1) by (unfold st1; by destruct (opt_flag o)). exact Heq.
Qed.

Lemma item_steps k m st i :
  (0 < k)%nat → between k m st → item_ok shortopts longopts i →
  (∀ j s, render i !! j = Some s → strs !! (k + j)%nat = Some s) →
  ∃ st1, between (k + length (render i)) (store_flag m i) st1 ∧ steps (events i) st st1.
Proof. destruct i; [by eapply short_item_steps|apply long_item_steps]. Qed.

Lemma items_steps items k m st :
  (0 < k)%nat → between k m st → Forall (item_ok shortopts longopts) items →
  (∀ j s, concat (map render items) !! j = Some s → strs !! (k + j)%nat = Some s) →
  ∃ st1, between (k + length (concat (map render items))) (fold_left store_flag items m) st1 ∧
    steps (concat (map events items)) st st1.
Proof.
  intros Hk Hst Hok. revert k m st Hk Hst. induction Hok as [|i items Hi _ IH]; intros k m st Hk Hst Hstrs; cbn in *.
  { exists st. rewrite Nat.add_0_r. split; [done|apply steps_nil]. }
  destruct (item_steps k m st i) as (st1 & Hst1 & Hs1); try done.
  { intros j s Hj. apply Hstrs. by apply lookup_app_l_Some. }
  destruct (IH (k + length (render i))%nat _ st1 ltac:(lia) Hst1) as (st2 & Hst2 & Hs2).
  { intros j s Hj. rewrite <-Nat.add_assoc. apply Hstrs. rewrite lookup_app_r by lia. by rewrite Nat.add_comm, Nat.add_sub. }
  exists st2. rewrite length_app, Nat.add_assoc. split; [done|]. by eapply steps_app.
Qed.

(** Where the options end. *)
Inductive ending : list (list Z) → nat → Prop :=
| ending_operands rest : ends_options rest → ending rest 0
| ending_dashes rest : ending (lit "--" :: rest) 1.

Lemma ending_call k m st rest skip :
  (0 < k)%nat → between k m st → ending rest skip → strs = take k strs ++ rest → length (take k strs) = k →
  ∃ st1, call st = Ret (-1, None, st1) ∧ between (k + skip) m st1.
Proof.
  intros Hk (Hv & Hi & Hw & Hf) Hend Hstrs Hlen.
  assert (Hat : ∀ s l, rest = s :: l → strs !! k = Some s).
  { intros s l ->. rewrite Hstrs, lookup_app_r by lia. by rewrite Hlen, Nat.sub_diag. }
  inversion Hend as [? Hstop|rest']; subst rest skip.
  - exists (set_valid false st). split; [|split_and!; cbn; try done; lia]. unfold getopt_long.
    rewrite Hdecl, Hi, (proj2 (Z.ltb_ge _ _)), (proj2 (Z.eqb_neq (Z.of_nat k) 0)) by lia. cbn [negb]. rewrite Hi.
    destruct (Z.leb_spec argc (Z.of_nat k)); [done|].
    destruct rest0 as [|s l].
    { exfalso. destruct Hargs as (ids & _ & -> & Hs). apply (f_equal length) in Hs, Hstrs.
      rewrite length_app, Hlen in Hstrs. rewrite length_map in Hs. cbn in Hstrs. lia. }
    destruct (argument text argc argv strs Hargs k s) as (id & Hid & Ht & Hlt); [by eapply Hat|].
    rewrite Hid. cbn [mbind outcome_bind]. rewrite Ht.
    destruct (Z.eqb_spec (at_ s 0) (ch "-")) as [E|]; [|done]. by destruct Hstop as [?| ->].
  - destruct (argument text argc argv strs Hargs k (lit "--")) as (id & Hid & Ht & Hlt); [by eapply Hat|].
    rewrite (getopt_long_enter text argc argv_ptr argv shortopts longopts Hdecl k id m st _ Hk Hi Hf Hid Ht Hlt) by done.
    eexists. split; [done|]. split_and!; cbn; try done; lia.
Qed.

(** The options are read back in the order they are written, each with its
    parameter, nothing is warned about, and [optind] is the first operand. *)
Lemma getopt_reads prog items rest skip :
  strs = prog :: concat (map render items) ++ rest → Forall (item_ok shortopts longopts) items → ending rest skip →
  ∃ st, loop (S (length (concat (map events items)))) getopt_init = Ret (concat (map events items), st) ∧
    optind st = Z.of_nat (S (length (concat (map render items))) + skip) ∧ warnings st = [] ∧
    flags st = fold_left store_flag items ∅.
Proof.
  intros Hstrs Hok Hend.
  destruct (items_steps items 1 ∅ getopt_init) as (st1 & Hst1 & Hs); try done; [lia| |].
  { intros j s Hj. rewrite Hstrs. cbn. by apply lookup_app_l_Some. }
  destruct (ending_call (1 + length (concat (map render items))) (fold_left store_flag items ∅) (set_optarg None st1) rest skip) as (st2 & Hcall & Hb); try done.
  - lia.
  - rewrite Hstrs. cbn. by rewrite take_app_length.
  - rewrite Hstrs. cbn. by rewrite take_app_length.
  - exists st2. destruct Hb as (_ & ? & ? & ?). split_and!; try done.
    rewrite <-Nat.add_1_r, Hs. cbn. rewrite Hcall. cbn. by rewrite app_nil_r.
Qed.

End Whole.

(** C36.  A program that calls [getopt_long] until it returns -1 gets the options of its command line in the order they are written: clustered flags one by one, each option with the parameter that is attached to it or is the next argument, long options with the value declared for them; it is then left with [optind] at the first operand (past a [--]), nothing has been warned about and the flags are stored. *)
Theorem getopt_roundtrip text argc argv_ptr argv shortopts longopts prog items rest skip :
  arguments text argc argv (prog :: concat (map render items) ++ rest) →
  is_supported_option_declaration shortopts = true →
  Forall (item_ok shortopts longopts) items → ending rest skip →
  ∃ st, getopt_loop text argc argv_ptr argv shortopts longopts (S (length (concat (map events items)))) getopt_init
        = Ret (concat (map events items), st) ∧
    optind st = Z.of_nat (S (length (concat (map render items))) + skip) ∧ warnings st = [] ∧
    flags st = fold_left store_flag items ∅.
Proof. intros Hargs Hdecl. by eapply getopt_reads. Qed.

(** A command line with a cluster, parameters of every kind and a long option. *)
Definition sample_text (i : Z) : list Z :=
  nth (Z.to_nat i) [lit "cc"; lit "-vO2"; lit "-o"; lit "a.out"; lit "--std=c11"; lit "--"; lit "x.c"] [].
Definition sample_longopts : list long_option :=
  [LongOption (lit "static") no_argument (Some 5) 1; LongOption (lit "std") required_argument None 300].
Definition sample_items : list item :=
  [Short (lit "v") (ch "O") (Attached (lit "2")); Short [] (ch "o") (Separate (lit "a.out"));
   Long (LongOption (lit "std") required_argument None 300) (Attached (lit "c11"))].

Lemma getopt_roundtrip_witness :
  ∃ st, getopt_loop sample_text 7 1 (map Some [0; 1; 2; 3; 4; 5; 6] ++ [None]) (lit "vO::o:") sample_longopts 5 getopt_init
        = Ret ([(ch "v", None); (ch "O", Some (lit "2")); (ch "o", Some (lit "a.out")); (300, Some (lit "c11"))], st) ∧
    optind st = 6 ∧ warnings st = [] ∧ flags st = ∅.
Proof.
  apply (getopt_roundtrip sample_text 7 1 (map Some [0; 1; 2; 3; 4; 5; 6] ++ [None]) (lit "vO::o:") sample_longopts
    (lit "cc") sample_items [lit "--"; lit "x.c"] 1).
  - exists [0; 1; 2; 3; 4; 5; 6]. by split_and!.
  - reflexivity.
  - unfold sample_items. apply Forall_cons; split; [|apply Forall_cons; split; [|apply Forall_cons; split; [|done]]].
    + unfold item_ok, plain_char. split_and!; try lia; try done; [apply Forall_singleton; by split_and!|].
      exists optional_argument. by split; [|right].
    + unfold item_ok, plain_char. split_and!; try lia; try done. by exists required_argument.
    + unfold item_ok. split_and!; try done; [|by repeat constructor|by left].
      exists [LongOption (lit "static") no_argument (Some 5) 1], []. split; [done|]. apply Forall_singleton. split; [done|]. by repeat constructor.
  - constructor.
Defined.

(** A leading colon in [shortopts] does not make a missing parameter return [:]. *)
Example leading_colon : ∃ st,
  getopt (λ i, nth (Z.to_nat i) [lit "cc"; lit "-o"] []) 2 1 [Some 0; Some 1; None] (lit ":o:") getopt_init
  = Ret (ch "?", None, st) ∧ warnings st = [RequiresArgument (ch "o")].
Proof. by eexists. Qed.

(** The loop of a program whose last argument is an option without its parameter
    does not end: the argument is not passed over. *)
Lemma missing_parameter_repeats text argc argv_ptr argv prog n :
  arguments text argc argv [prog; lit "-o"] →
  getopt_loop text argc argv_ptr argv (lit "o:") [] n getopt_init = OutOfFuel.
Proof.
  intros Hargs. destruct (arguments_at _ _ _ _ 1 _ Hargs eq_refl) as (id & Hid & Ht & Hlt).
  assert (argc = 2) as -> by (destruct Hargs as (ids & _ & -> & H); apply (f_equal length) in H; rewrite length_map in H; cbn in *; lia).
  assert (H : ∀ st, optcurvalid st = false → optind st = 1 →
    getopt_loop text 2 argv_ptr argv (lit "o:") [] n st = OutOfFuel); [|by apply H].
  induction n as [|n IH]; intros st Hv Hi; [done|]. cbn [getopt_loop].
  assert (∃ st1, getopt_long text 2 argv_ptr argv (lit "o:") [] (set_optarg None st) = Ret (ch "?", None, st1) ∧
    optcurvalid st1 = false ∧ optind st1 = 1) as (st1 & -> & Hv1 & Hi1).
  { destruct st. cbn in Hv, Hi. subst. unfold getopt_long. cbn -[argv_at]. rewrite (Hid : argv_at argv 1 = _). cbn. rewrite Ht. cbn.
    unfold getopt_short_option. cbn. rewrite Ht. cbn. unfold getopt_parameter. cbn. rewrite Ht. cbn.
    eexists. split; [done|]. by destruct (negb _). }
  cbn. by rewrite (IH st1).
Qed.
End Getopt.
