(* ===== verification/Strftime.v ===== *)
(** * Formatting of times

    [libc/time/strftime.c].  The buffer is a list that can not be written outside;
    the format is what is left of it, its end standing for the terminator.  The
    macros that return from the middle of the function are steps that go on or
    stop ([flow]). *)

From S2P Require Import Prelude Time.
From stdpp Require Import base decidable list numbers strings.
From Stdlib Require Import ZArith Lia Ascii.

#[local] Open Scope c_scope.
#[local] Open Scope Z_scope.

Module Strftime.
Import Calendar.

(** ** Names *)

Definition weekdays : list (list Z) :=
  [lit "Sunday"; lit "Monday"; lit "Tuesday"; lit "Wednesday"; lit "Thursday"; lit "Friday"; lit "Saturday"].
Definition weekdays_abbreviated : list (list Z) :=
  [lit "Sun"; lit "Mon"; lit "Tue"; lit "Wed"; lit "Thu"; lit "Fri"; lit "Sat"].
Definition month_names : list (list Z) :=
  [lit "January"; lit "February"; lit "March"; lit "April"; lit "May"; lit "June"; lit "July"; lit "August";
   lit "Sepember"; lit "October"; lit "November"; lit "December"].
Definition month_names_abbreviated : list (list Z) :=
  [lit "Jan"; lit "Feb"; lit "Mar"; lit "Apr"; lit "May"; lit "Jun"; lit "Jul"; lit "Aug"; lit "Sep"; lit "Oct";
   lit "Nov"; lit "Dec"].

(** A number that is not one of the cases is unreachable. *)
Definition GetWeekdayAbbreviated (t : tm) : outcome (list Z) := index weekdays_abbreviated (Z.rem (tm_wday t) 7).
Definition GetWeekday (t : tm) : outcome (list Z) := index weekdays (Z.rem (tm_wday t) 7).
Definition GetMonthAbbreviated (t : tm) : outcome (list Z) := index month_names_abbreviated (Z.rem (tm_mon t) 12).
Definition GetMonth (t : tm) : outcome (list Z) := index month_names (Z.rem (tm_mon t) 12).

(** ** Numbers *)

Fixpoint convert_count (fuel : nat) (copy : Z) (result : nat) : nat :=
  match fuel with
  | O => result
  | S fuel => if 10 <=? copy then convert_count fuel (copy / 10) (S result) else result
  end.

(** The destination filled from its end. *)
Fixpoint convert_fill (i : nat) (value : Z) (destination : list Z) : list Z :=
  match i with
  | O => destination
  | S i => convert_fill i (value / 10) (ch "0" + value mod 10 :: destination)
  end.

Definition strftime_convert_uintmax (value : Z) : list Z := convert_fill (convert_count 20 value 1) value [].

Definition strftime_convert_intmax (value : Z) : list Z :=
  if value <? 0 then ch "-" :: strftime_convert_uintmax (u64 (- u64 value)) else strftime_convert_uintmax value.

(** The local buffer holds the digits and the terminator. *)
Definition convert_into (size value : Z) : outcome (list Z) :=
  let str := strftime_convert_intmax value in
  guard_def (Z.of_nat (length str) <? size);; Ret str.

(** ** Output *)

Record out := Out { s : list Z; ret : Z }.

Inductive flow := Go (o : out) | Stop (o : out).

Definition and_then (x : outcome flow) (k : out → outcome flow) : outcome flow :=
  f ← x; match f with Go o => k o | Stop o => Ret (Stop o) end.

Inductive piece := Chars (str : list Z) | Padded (val width pad : Z).

Section Output.
Context (max : Z).

Definition OUTPUT_CHAR (c : Z) (o : out) : outcome flow :=
  if ret o =? max then Ret (Stop o)
  else s' ← write_at (s o) (ret o) [c]; Ret (Go (Out s' (ret o + 1))).

Fixpoint OUTPUT_STRING (str : list Z) (o : out) : outcome flow :=
  match str with
  | [] => Ret (Go o)
  | c :: str => and_then (OUTPUT_CHAR c o) (OUTPUT_STRING str)
  end.

Fixpoint output_padding (fuel : nat) (pad got width : Z) (o : out) : outcome flow :=
  match fuel with
  | O => OutOfFuel
  | S fuel =>
      if got <? width then and_then (OUTPUT_CHAR pad o) (output_padding fuel pad got (width - 1)) else Ret (Go o)
  end.

Definition OUTPUT_INT_PADDED (val width pad : Z) (o : out) : outcome flow :=
  str ← convert_into 12 val;
  and_then (if pad =? 0 then Ret (Go o)
            else output_padding (S (Z.to_nat max)) pad (Z.of_nat (length str)) width o)
           (OUTPUT_STRING str).

Definition output_piece (p : piece) (o : out) : outcome flow :=
  match p with
  | Chars str => OUTPUT_STRING str o
  | Padded val width pad => OUTPUT_INT_PADDED val width pad o
  end.

(** The pieces of a conversion, each computed when it is its turn. *)
Fixpoint output_pieces (ps : list (outcome piece)) (o : out) : outcome flow :=
  match ps with
  | [] => Ret (Go o)
  | p :: ps => p ← p; and_then (output_piece p o) (output_pieces ps)
  end.

End Output.

(** ** Conversions *)

Definition chars (x : outcome (list Z)) : outcome piece := str ← x; Ret (Chars str).
Definition padded (val : outcome Z) (width pad : Z) : outcome piece := v ← val; Ret (Padded v width pad).
Definition OUTPUT_INT (val : outcome Z) : outcome piece := padded val 0 0.
Definition str_ (l : list Z) : outcome piece := Ret (Chars l).

Definition two (val : outcome Z) : outcome piece := padded val 2 (ch "0").

Section Conversion.
Context (t : tm).

Definition year_ : outcome Z := checked 32 (tm_year t + 1900).
Definition mon_ : outcome Z := checked 32 (tm_mon t + 1).
Definition year_low_ : outcome Z := y ← year_; Ret (Z.rem y 100).
Definition date_ : list (outcome piece) :=
  [two mon_; str_ (lit "/"); two (Ret (tm_mday t)); str_ (lit "/"); two year_low_].
Definition time_ : list (outcome piece) :=
  [two (Ret (tm_hour t)); str_ (lit ":"); two (Ret (tm_min t)); str_ (lit ":"); two (Ret (tm_sec t))].
Definition am_pm : list Z := if tm_hour t <? 12 then lit "AM" else lit "PM".

(** The pieces of the conversion [c], or [None] where the code writes the percent
    sign and goes back to just after it. *)
Definition conversion (c field_width padding_char : Z) : option (list (outcome piece)) :=
  if c =? ch "a" then Some [chars (GetWeekdayAbbreviated t)]
  else if c =? ch "A" then Some [chars (GetWeekday t)]
  else if c =? ch "b" then Some [chars (GetMonthAbbreviated t)]
  else if c =? ch "B" then Some [chars (GetMonth t)]
  else if c =? ch "c" then
    Some ([chars (GetWeekday t); str_ (lit " "); chars (GetMonthAbbreviated t); str_ (lit " "); two (Ret (tm_mday t));
           str_ (lit " ")] ++ time_)
  else if c =? ch "C" then
    Some [padded (y ← year_; Ret (Z.quot y 100)) (if field_width =? 0 then 2 else field_width) padding_char]
  else if c =? ch "d" then Some [two (Ret (tm_mday t))]
  else if c =? ch "D" then Some date_
  else if c =? ch "e" then Some [padded (Ret (tm_mday t)) 2 (ch " ")]
  else if c =? ch "F" then
    Some [padded year_ 4 (ch "0"); str_ (lit "-"); two mon_; str_ (lit "-"); two (Ret (tm_mday t))]
  else if c =? ch "h" then Some [chars (GetMonthAbbreviated t)]
  else if c =? ch "H" then Some [two (Ret (tm_hour t))]
  else if c =? ch "I" then Some [two (h ← checked 32 (tm_hour t + 11); Ret (Z.rem h 12 + 1))]
  else if c =? ch "j" then Some [padded (checked 32 (tm_yday t + 1)) 3 (ch "0")]
  else if c =? ch "m" then Some [two mon_]
  else if c =? ch "M" then Some [two (Ret (tm_min t))]
  else if c =? ch "n" then Some [str_ [10]]
  else if c =? ch "p" then Some [str_ am_pm]
  else if c =? ch "r" then
    Some [two (Ret (Z.rem (tm_hour t) 12 + 1)); str_ (lit ":"); two (Ret (tm_min t)); str_ (lit ":");
          two (Ret (tm_sec t)); str_ (lit " "); str_ am_pm]
  else if c =? ch "R" then Some [two (Ret (tm_hour t)); str_ (lit ":"); two (Ret (tm_min t))]
  else if c =? ch "s" then Some [chars ('(timestamp, _) ← mktime t; convert_into 24 timestamp)]
  else if c =? ch "S" then Some [two (Ret (tm_sec t))]
  else if c =? ch "t" then Some [str_ [9]]
  else if c =? ch "T" then Some time_
  else if c =? ch "u" then Some [OUTPUT_INT (Ret (if negb (tm_wday t =? 0) then tm_wday t else 7))]
  else if c =? ch "w" then Some [OUTPUT_INT (Ret (tm_wday t))]
  else if c =? ch "x" then Some date_
  else if c =? ch "X" then Some time_
  else if c =? ch "y" then Some [two year_low_]
  else if c =? ch "Y" then Some [OUTPUT_INT year_]
  else if c =? ch "z" then Some [str_ (lit "+0000")]
  else if c =? ch "Z" then Some [str_ (lit "UTC")]
  else if c =? ch "%" then Some [str_ (lit "%")]
  else None.

End Conversion.

(** ** The format *)

(** The flags: the format behind them, the padding and whether there was a plus. *)
Fixpoint strftime_flags (format : list Z) (padding_char : Z) (plus_padding : bool) : list Z * Z * bool :=
  match format with
  | c :: format' =>
      if c =? ch "0" then strftime_flags format' (ch "0") plus_padding
      else if c =? ch "+" then strftime_flags format' (ch "0") true
      else (format, padding_char, plus_padding)
  | [] => (format, padding_char, plus_padding)
  end.

Fixpoint strftime_width (format : list Z) (field_width : Z) : list Z * Z :=
  match format with
  | c :: format' =>
      if (ch "0" <=? c) && (c <=? ch "9") then strftime_width format' (u64 (field_width * 10 + c - ch "0"))
      else (format, field_width)
  | [] => (format, field_width)
  end.

Definition strftime_modifier (format : list Z) : list Z :=
  match format with
  | c :: format' => if (c =? ch "E") || (c =? ch "O") then format' else format
  | [] => format
  end.

(** A conversion behind its percent sign: its pieces and the format behind it, or
    [None] to write the sign itself. *)
Definition specification (t : tm) (format : list Z) : option (list (outcome piece) * list Z) :=
  let '(format, padding_char, plus_padding) := strftime_flags format (ch " ") false in
  if plus_padding then None
  else
    let '(format, field_width) := strftime_width format 0 in
    match strftime_modifier format with
    | [] => None
    | c :: format =>
        match conversion t c field_width padding_char with
        | Some ps => Some (ps, format)
        | None => None
        end
    end.

Section Strftime.
Context (max : Z) (t : tm).

Fixpoint strftime_loop (fuel : nat) (format : list Z) (o : out) : outcome flow :=
  match fuel with
  | O => OutOfFuel
  | S fuel =>
      match format with
      | [] => Ret (Go o)
      | c :: format =>
          if negb (c =? ch "%") then and_then (OUTPUT_CHAR max c o) (strftime_loop fuel format)
          else
            match specification t format with
            | Some (ps, format') => and_then (output_pieces max ps o) (strftime_loop fuel format')
            | None => and_then (OUTPUT_CHAR max (ch "%") o) (strftime_loop fuel format)
            end
      end
  end.

End Strftime.

(** The value returned and the buffer. *)
Definition strftime (buf : list Z) (max : Z) (format : list Z) (t : tm) : outcome (Z * list Z) :=
  f ← strftime_loop max t (S (length format)) format (Out buf 0);
  match f with
  | Stop o => Ret (0, s o)
  | Go o =>
      if ret o =? max then Ret (0, s o)
      else s' ← write_at (s o) (ret o) [0]; Ret (ret o, s')
  end.

(** The examples of the date the year 2000 began, and the misspelt month. *)
Definition sample : tm := Tm 5 4 3 2 8 100 6 245 (-1).

Example strftime_iso :
  strftime (replicate 20 1) 20 (lit "%F %T") sample = Ret (19, lit "2000-09-02 03:04:05" ++ [0]).
Proof. reflexivity. Qed.
Example strftime_short : strftime (replicate 20 1) 3 (lit "%F %T") sample = Ret (0, lit "200" ++ replicate 17 1).
Proof. reflexivity. Qed.
Example strftime_september : strftime (replicate 10 1) 10 (lit "%B") sample = Ret (8, lit "Sepember" ++ [0; 1]).
Proof. reflexivity. Qed.
Example strftime_hour : strftime (replicate 12 1) 12 (lit "%I %r") sample = Ret (0, lit "03 04:04:05 ").
Proof. reflexivity. Qed.

(** ** The text a format stands for *)

Definition padding (val_length width pad : Z) : list Z :=
  if pad =? 0 then [] else replicate (Z.to_nat (width - val_length)) pad.

Definition piece_text (p : piece) : outcome (list Z) :=
  match p with
  | Chars str => Ret str
  | Padded val width pad =>
      str ← convert_into 12 val; Ret (padding (Z.of_nat (length str)) width pad ++ str)
  end.

Fixpoint pieces_text (ps : list (outcome piece)) : outcome (list Z) :=
  match ps with
  | [] => Ret []
  | p :: ps => p ← p; a ← piece_text p; b ← pieces_text ps; Ret (a ++ b)
  end.

Fixpoint expansion (fuel : nat) (t : tm) (format : list Z) : outcome (list Z) :=
  match fuel with
  | O => OutOfFuel
  | S fuel =>
      match format with
      | [] => Ret []
      | c :: format =>
          if negb (c =? ch "%") then text ← expansion fuel t format; Ret (c :: text)
          else
            match specification t format with
            | Some (ps, format') => a ← pieces_text ps; b ← expansion fuel t format'; Ret (a ++ b)
            | None => text ← expansion fuel t format; Ret (ch "%" :: text)
            end
      end
  end.

(** ** Output up to the size of the buffer *)

Section Emits.
Context (buf : list Z) (max : nat) (Hbuf : (max ≤ length buf)%nat).

(** The buffer after [done]. *)
Definition holds (done : list Z) : out := Out (done ++ drop (length done) buf) (Z.of_nat (length done)).

Definition written (text : list Z) : flow :=
  if decide (length text ≤ max)%nat then Go (holds text) else Stop (holds (take max text)).

Definition emits (k : out → outcome flow) (text : list Z) : Prop :=
  ∀ done, (length done ≤ max)%nat → k (holds done) = Ret (written (done ++ text)).

Lemma written_full text : (length text ≤ max)%nat → written text = Go (holds text).
Proof. intros. unfold written. by rewrite decide_True. Qed.

Lemma emits_nil : emits (λ o, Ret (Go o)) [].
Proof. intros done Hd. by rewrite app_nil_r, written_full. Qed.

Lemma emits_char c : emits (OUTPUT_CHAR (Z.of_nat max) c) [c].
Proof.
  intros done Hd. unfold OUTPUT_CHAR, written. cbn [ret s holds]. rewrite length_app. cbn [length].
  destruct (Z.eqb_spec (Z.of_nat (length done)) (Z.of_nat max)) as [E|E].
  - rewrite decide_False by lia. rewrite take_app_le, take_ge by lia. done.
  - rewrite decide_True by lia. rewrite write_at_prefix; [|done|rewrite length_drop; cbn; lia].
    cbn [mbind outcome_bind length]. unfold holds. rewrite length_app, drop_drop, <-app_assoc. cbn [length]. do 3 f_equal. lia.
Qed.

Lemma emits_and_then k k' a b : emits k a → emits k' b → emits (λ o, and_then (k o) k') (a ++ b).
Proof.
  intros H H' done Hd. unfold and_then. rewrite H by done. cbn [mbind outcome_bind].
  destruct (decide (length (done ++ a) ≤ max)%nat) as [Hl|Hl].
  - rewrite (written_full _ Hl), H', app_assoc by done. done.
  - unfold written at 1. rewrite decide_False by done. unfold written.
    rewrite decide_False by (rewrite !length_app in *; lia).
    by rewrite app_assoc, (take_app_le (done ++ a)) by lia.
Qed.

Lemma emits_string str : emits (OUTPUT_STRING (Z.of_nat max) str) str.
Proof.
  induction str as [|c str IH]; [apply emits_nil|]. cbn [OUTPUT_STRING].
  change (c :: str) with ([c] ++ str). apply emits_and_then; [apply emits_char|done].
Qed.

Lemma emits_padding fuel pad got width done :
  (length done ≤ max)%nat → (max - length done < fuel)%nat →
  output_padding (Z.of_nat max) fuel pad got width (holds done) =
    Ret (written (done ++ replicate (Z.to_nat (width - got)) pad)).
Proof.
  revert width done. induction fuel as [|fuel IH]; intros width done Hd Hf; [lia|]. cbn [output_padding].
  destruct (Z.ltb_spec got width) as [Hw|Hw].
  - replace (Z.to_nat (width - got)) with (S (Z.to_nat (width - 1 - got))) by lia. cbn [replicate].
    unfold and_then. rewrite (emits_char pad done Hd). cbn [mbind outcome_bind].
    destruct (decide (length (done ++ [pad]) ≤ max)%nat) as [Hl|Hl].
    + rewrite (written_full _ Hl), IH by (rewrite ?length_app in *; cbn in *; lia). by rewrite <-app_assoc.
    + unfold written. rewrite !decide_False by (rewrite ?length_app in *; cbn in *; lia).
      rewrite length_app in Hl. cbn in Hl. by rewrite !take_app_le, !take_ge by lia.
  - replace (Z.to_nat (width - got)) with O by lia. cbn. by rewrite app_nil_r, written_full.
Qed.

Lemma emits_piece p text : piece_text p = Ret text → emits (output_piece (Z.of_nat max) p) text.
Proof.
  destruct p as [str|val width pad]; cbn [piece_text output_piece]; [intros [= <-]; apply emits_string|].
  destruct (convert_into 12 val) as [str| |] eqn:Ec; [|done|done].
  cbn [mbind outcome_bind]. intros [= <-] done Hd. unfold output_piece, OUTPUT_INT_PADDED, padding.
  rewrite Ec. cbn [mbind outcome_bind]. destruct (pad =? 0).
  - apply (emits_and_then (λ o, Ret (Go o)) _ [] str); [apply emits_nil|apply emits_string|done].
  - apply (emits_and_then (output_padding _ _ _ _ _)); [|apply emits_string|done].
    intros done' Hd'. apply emits_padding; lia.
Qed.

Lemma emits_pieces ps text : pieces_text ps = Ret text → emits (output_pieces (Z.of_nat max) ps) text.
Proof.
  revert text. induction ps as [|p ps IH]; intros text; cbn [pieces_text output_pieces]; [intros [= <-]; apply emits_nil|].
  destruct p as [p| |]; cbn; [|done|done]. destruct (piece_text p) as [a| |] eqn:Ea; cbn; [|done|done].
  destruct (pieces_text ps) as [b| |]; cbn; [|done|done]. intros [= <-].
  apply emits_and_then; [by apply emits_piece|by apply IH].
Qed.

Lemma emits_loop t fuel format text :
  expansion fuel t format = Ret text → emits (strftime_loop (Z.of_nat max) t fuel format) text.
Proof.
  revert format text. induction fuel as [|fuel IH]; intros format text; cbn [expansion strftime_loop]; [done|].
  destruct format as [|c format]; [intros [= <-]; apply emits_nil|].
  destruct (negb (c =? ch "%")).
  { destruct (expansion fuel t format) as [b| |] eqn:E; cbn; [|done|done]. intros [= <-].
    apply (emits_and_then _ _ [c] b); [apply emits_char|by apply IH]. }
  destruct (specification t format) as [[ps format']|].
  - destruct (pieces_text ps) as [a| |] eqn:Ea; cbn; [|done|done].
    destruct (expansion fuel t format') as [b| |] eqn:Eb; cbn; [|done|done]. intros [= <-].
    apply emits_and_then; [by apply emits_pieces|by apply IH].
  - destruct (expansion fuel t format) as [b| |] eqn:E; cbn; [|done|done]. intros [= <-].
    apply (emits_and_then _ _ [ch "%"] b); [apply emits_char|by apply IH].
Qed.

End Emits.

(** What [strftime] does with the text. *)
Definition stored (buf : list Z) (max : nat) (text : list Z) : Z * list Z :=
  if decide (length text < max)%nat then (Z.of_nat (length text), text ++ 0 :: drop (S (length text)) buf)
  else (0, take max text ++ drop max buf).

Lemma stored_outside buf max text : (max ≤ length buf)%nat → drop max (stored buf max text).2 = drop max buf.
Proof.
  intros Hb. unfold stored. case_decide; cbn [snd].
  - rewrite drop_app_ge by lia. replace (max - length text)%nat with (S (max - S (length text))) by lia. cbn [drop].
    rewrite drop_drop. f_equal. lia.
  - rewrite drop_app_ge by (rewrite length_take; lia). rewrite length_take, drop_drop. f_equal. lia.
Qed.

Lemma strftime_stores buf max t format text :
  (max ≤ length buf)%nat → expansion (S (length format)) t format = Ret text →
  strftime buf (Z.of_nat max) format t = Ret (stored buf max text).
Proof.
  intros Hbuf Hx. unfold strftime.
  pose proof (emits_loop buf max Hbuf t _ _ _ Hx [] ltac:(cbn; lia)) as E. unfold holds in E at 1. cbn [app length] in E. rewrite drop_0 in E.
  change (Z.of_nat 0) with 0 in E. rewrite E. cbn [mbind outcome_bind]. unfold written, stored.
  destruct (decide (length text ≤ max)%nat) as [Hl|Hl]; cbn [ret s holds].
  - destruct (Z.eqb_spec (Z.of_nat (length text)) (Z.of_nat max)) as [Em|Em].
    + rewrite decide_False, take_ge by lia. do 4 f_equal. lia.
    + rewrite decide_True by lia. rewrite write_at_prefix by (rewrite ?length_drop; cbn; lia). cbn.
      rewrite drop_drop. do 5 f_equal. lia.
  - rewrite decide_False by lia. rewrite length_take. do 4 f_equal. lia.
Qed.

(** ** Digits *)

(** The number decimal digits denote. *)
Definition decimal (l : list Z) (v : Z) : Z := fold_left (λ v c, v * 10 + (c - ch "0")) l v.

Lemma convert_count_bounds fuel v r :
  0 <= v < 10 ^ Z.of_nat fuel →
  ∃ k, convert_count fuel v r = (r + k)%nat ∧ v < 10 ^ Z.of_nat (S k) ∧ (k = O ∨ 10 ^ Z.of_nat k <= v).
Proof.
  revert v r. induction fuel as [|fuel IH]; intros v r Hv; cbn [convert_count].
  { exists O. cbn in *. lia. }
  destruct (Z.leb_spec 10 v) as [H|H].
  - rewrite Nat2Z.inj_succ, Z.pow_succ_r in Hv by lia.
    destruct (IH (v / 10) (S r)) as (k & -> & Hk & Hk'); [split; [apply Z.div_pos; lia|apply Z.div_lt_upper_bound; lia]|].
    exists (S k). split; [lia|]. rewrite (Nat2Z.inj_succ (S k)), Z.pow_succ_r by lia.
    pose proof (Z.div_mod v 10 ltac:(lia)). pose proof (Z.mod_pos_bound v 10 ltac:(lia)). split; [lia|]. right.
    destruct Hk' as [->|Hk']; [cbn; lia|]. rewrite Nat2Z.inj_succ, Z.pow_succ_r by lia. lia.
  - exists O. split; [lia|]. split; [cbn; lia|by left].
Qed.

Lemma convert_fill_spec i v d : 0 <= v → ∃ l,
  convert_fill i v d = l ++ d ∧ length l = i ∧ Forall (λ c, ch "0" <= c <= ch "9") l ∧
  (v < 10 ^ Z.of_nat i → ∀ w, decimal l w = w * 10 ^ Z.of_nat i + v).
Proof.
  revert v d. induction i as [|i IH]; intros v d Hv; cbn [convert_fill].
  { exists []. split_and!; try done. cbn. lia. }
  destruct (IH (v / 10) (ch "0" + v mod 10 :: d)) as (l & -> & Hl & Hd & Hval); [apply Z.div_pos; lia|].
  pose proof (Z.mod_pos_bound v 10 ltac:(lia)). pose proof (Z.div_mod v 10 ltac:(lia)).
  exists (l ++ [ch "0" + v mod 10]). split_and!.
  - by rewrite <-app_assoc.
  - rewrite length_app. cbn. lia.
  - apply Forall_app. split; [done|]. apply Forall_singleton. lia.
  - rewrite Nat2Z.inj_succ, Z.pow_succ_r by lia. intros Hlt w. unfold decimal in *. rewrite fold_left_app. cbn.
    rewrite Hval by (apply Z.div_lt_upper_bound; lia). lia.
Qed.

(** The digits of a number: how many there are and what they denote. *)
Lemma convert_uintmax_spec v : 0 <= v < 10 ^ 20 → ∃ k,
  length (strftime_convert_uintmax v) = S k ∧ v < 10 ^ Z.of_nat (S k) ∧ (k = O ∨ 10 ^ Z.of_nat k <= v) ∧
  Forall (λ c, ch "0" <= c <= ch "9") (strftime_convert_uintmax v) ∧
  ∀ w, decimal (strftime_convert_uintmax v) w = w * 10 ^ Z.of_nat (S k) + v.
Proof.
  intros Hv. unfold strftime_convert_uintmax. destruct (convert_count_bounds 20 v 1 Hv) as (k & -> & Hlt & Hge).
  destruct (convert_fill_spec (1 + k) v []) as (l & -> & Hl & Hd & Hval); [lia|]. rewrite app_nil_r.
  exists k. split_and!; try done. auto.
Qed.

Lemma convert_uintmax_length v n :
  (0 < n ≤ 20)%nat → 0 <= v < 10 ^ Z.of_nat n → (length (strftime_convert_uintmax v) ≤ n)%nat.
Proof.
  intros Hn Hv. assert (10 ^ Z.of_nat n <= 10 ^ 20) by (apply Z.pow_le_mono_r; lia).
  destruct (convert_uintmax_spec v) as (k & -> & _ & Hk & _); [lia|]. destruct Hk as [->|Hk]; [lia|].
  assert (Z.of_nat k < Z.of_nat n); [|lia]. apply (Z.pow_lt_mono_r_iff 10); lia.
Qed.

Lemma convert_into_ok w n size v :
  1 <= w <= 64 → (0 < n ≤ 20)%nat → 2 ^ (w - 1) < 10 ^ Z.of_nat n → Z.of_nat n + 2 <= size → in_s w v →
  convert_into size v = Ret (strftime_convert_intmax v).
Proof.
  unfold in_s. intros Hw Hn Hp Hs Hv. unfold convert_into.
  assert (Hl : (length (strftime_convert_intmax v) ≤ S n)%nat).
  { unfold strftime_convert_intmax. destruct (Z.ltb_spec v 0) as [Hneg|Hpos].
    - cbn [length]. apply le_n_S, convert_uintmax_length; [done|].
      assert (2 ^ (w - 1) <= 2 ^ 63) by (apply Z.pow_le_mono_r; lia).
      change (2 ^ 63) with 9223372036854775808 in *. unfold wrapu. change (2 ^ 64) with 18446744073709551616.
      replace ((- (v mod 18446744073709551616)) mod 18446744073709551616) with (- v); [lia|].
      replace (v mod 18446744073709551616) with (v + 18446744073709551616) by (apply Z.mod_unique with (-1); [left; lia|lia]).
      apply Z.mod_unique with (-1); [left; lia|lia].
    - pose proof (convert_uintmax_length v n Hn). lia. }
  unfold guard_def. by rewrite (proj2 (Z.ltb_lt _ _)) by lia.
Qed.

Lemma convert_int_ok v : in_s 32 v → convert_into 12 v = Ret (strftime_convert_intmax v).
Proof. intros. apply (convert_into_ok 32 10); [lia|lia|done|lia|done]. Qed.
Lemma convert_intmax_ok v : in_s 64 v → convert_into 24 v = Ret (strftime_convert_intmax v).
Proof. intros. apply (convert_into_ok 64 20); [lia|lia|done|lia|done]. Qed.

(** ** Every conversion of a time has a text *)

Definition piece_defined (p : outcome piece) : Prop := ∃ q text, p = Ret q ∧ piece_text q = Ret text.

Lemma str_defined l : piece_defined (str_ l).
Proof. by eexists _, _. Qed.
Lemma chars_defined x l : x = Ret l → piece_defined (chars x).
Proof. intros ->. by eexists _, _. Qed.
Lemma padded_defined x v width pad : x = Ret v → in_s 32 v → piece_defined (padded x width pad).
Proof. intros -> Hv. eexists _, _. split; [done|]. cbn [piece_text]. by rewrite (convert_int_ok v Hv). Qed.

Lemma pieces_defined ps : Forall piece_defined ps → ∃ text, pieces_text ps = Ret text.
Proof.
  induction 1 as [|p ps (q & a & -> & Ha) _ [b IH]]; [by exists []|]. cbn [pieces_text mbind outcome_bind].
  rewrite Ha. cbn [mbind outcome_bind]. rewrite IH. by eexists.
Qed.

(** The fields of a broken-down time as [gmtime_r] makes it. *)
Definition tm_fields (t : tm) : Prop :=
  0 <= tm_mon t < 12 ∧ 1 <= tm_mday t <= 31 ∧ 0 <= tm_hour t <= 23 ∧ 0 <= tm_min t <= 59 ∧ 0 <= tm_sec t <= 60 ∧
  0 <= tm_yday t <= 365 ∧ 0 <= tm_wday t <= 6 ∧ in_s 32 (tm_year t + 1900).

Definition tm_time (t : tm) : Prop := ∃ r t', mktime t = Ret (r, t') ∧ in_s 64 r.

Lemma index_defined {A} (l : list A) i : 0 <= i < Z.of_nat (length l) → ∃ x, index l i = Ret x.
Proof. intros H. destruct (index_ok l i H) as (x & Hx & _). by exists x. Qed.

Lemma strftime_flags_length format p b f p' b' :
  strftime_flags format p b = (f, p', b') → (length f ≤ length format)%nat.
Proof.
  revert p b. induction format as [|c format IH]; intros p b; cbn; [by intros [= <- _ _]|].
  repeat case_match; intros E; try (apply IH in E; lia). by injection E as <- _ _.
Qed.

Lemma strftime_width_length format w f w' : strftime_width format w = (f, w') → (length f ≤ length format)%nat.
Proof.
  revert w. induction format as [|c format IH]; intros w; cbn; [by intros [= <- _]|].
  case_match; intros E; [apply IH in E; lia|]. by injection E as <- _.
Qed.

(** What is left of the format after a conversion is shorter. *)
Lemma specification_length t format ps format' :
  specification t format = Some (ps, format') → (length format' < length format)%nat.
Proof.
  unfold specification. destruct (strftime_flags _ _ _) as [[f p] plus] eqn:Ef. apply strftime_flags_length in Ef.
  destruct plus; [done|]. destruct (strftime_width f 0) as [f' w] eqn:Ew. apply strftime_width_length in Ew.
  assert (Hm : (length (strftime_modifier f') ≤ length f')%nat).
  { unfold strftime_modifier. destruct f'; [done|]. case_match; cbn; lia. }
  destruct (strftime_modifier f') as [|c f'']; [done|]. cbn in Hm.
  destruct (conversion t c w p); [|done]. intros [= _ <-]. lia.
Qed.

Section Defined.
Context (t : tm) (Hf : tm_fields t) (Ht : tm_time t).

Lemma ret_padded_defined v width pad : in_s 32 v → piece_defined (Ret (Padded v width pad)).
Proof. by apply (padded_defined (Ret v)). Qed.

Lemma year_defined : year_ t = Ret (tm_year t + 1900).
Proof. destruct Hf as (_&_&_&_&_&_&_&Hy). by apply checked_ok. Qed.
Lemma mon_defined : mon_ t = Ret (tm_mon t + 1).
Proof. destruct Hf as (?&_). apply checked_ok. unfold in_s. lia. Qed.
Lemma year_low_defined : year_low_ t = Ret (Z.rem (tm_year t + 1900) 100).
Proof. unfold year_low_. by rewrite year_defined. Qed.

Lemma names_defined : (∃ x, GetWeekdayAbbreviated t = Ret x) ∧ (∃ x, GetWeekday t = Ret x) ∧
  (∃ x, GetMonthAbbreviated t = Ret x) ∧ (∃ x, GetMonth t = Ret x).
Proof.
  destruct Hf as (?&?&?&?&?&?&?&?).
  split_and!; apply index_defined; cbn [length weekdays weekdays_abbreviated month_names month_names_abbreviated];
    rewrite Z.rem_small by lia; lia.
Qed.

Lemma conversion_defined c width pad ps : conversion t c width pad = Some ps → Forall piece_defined ps.
Proof.
  destruct names_defined as ((?&Hwa)&(?&Hw)&(?&Hma)&(?&Hm)). destruct Ht as (r & t' & Hr & Hr64).
  pose proof year_defined as Ey. pose proof mon_defined as Em. pose proof year_low_defined as El.
  destruct Hf as (?&?&?&?&?&?&?&Hy). unfold in_s in Hy.
  unfold conversion. repeat case_match; intros [= <-]; unfold date_, time_, two, OUTPUT_INT; rewrite ?Ey, ?Em, ?El;
    repeat constructor;
    first [ apply str_defined | eapply chars_defined; eassumption
          | apply ret_padded_defined | eapply padded_defined; [done|]
          | eapply padded_defined; [rewrite checked_ok; [done|]|] | eapply chars_defined ];
    try (unfold in_s; Z.to_euclidean_division_equations; lia).
  rewrite Hr. cbn [mbind outcome_bind]. by apply convert_intmax_ok.
Qed.

Lemma specification_defined format ps format' :
  specification t format = Some (ps, format') → Forall piece_defined ps.
Proof.
  unfold specification. destruct (strftime_flags _ _ _) as [[f p] plus]. destruct plus; [done|].
  destruct (strftime_width f 0) as [f' w]. destruct (strftime_modifier f') as [|c f'']; [done|].
  destruct (conversion t c w p) as [ps'|] eqn:E; [|done]. intros [= <- <-]. by apply (conversion_defined _ _ _ _ E).
Qed.

Lemma expansion_defined fuel format :
  (length format < fuel)%nat → ∃ text, expansion fuel t format = Ret text.
Proof.
  revert format. induction fuel as [|fuel IH]; intros format Hlen; [lia|]. cbn [expansion].
  destruct format as [|c format]; [by exists []|]. cbn [length] in Hlen.
  destruct (IH format ltac:(lia)) as [b Hb]. destruct (negb _); [rewrite Hb; by eexists|].
  destruct (specification t format) as [[ps format']|] eqn:E; [|rewrite Hb; by eexists].
  destruct (pieces_defined ps) as [a ->]; [by eapply specification_defined|]. cbn [mbind outcome_bind].
  destruct (IH format') as [b' ->]; [|by eexists]. pose proof (specification_length _ _ _ _ E). lia.
Qed.

End Defined.
(** The times [gmtime_r] makes are such times. *)
Lemma tm_normal_fields t : tm_normal t → in_s 32 (tm_year t + 1900) → tm_fields t.
Proof.
  intros (Hm & Hd & Hh & Hmin & Hs & Hy & Hw & _) Hyear. unfold tm_fields, wday_of in *.
  pose proof (Z.mod_pos_bound (4 + (ydays_from_epoch (tm_year t + 1900) + tm_yday t)) 7 ltac:(lia)).
  assert (1 <= mdays (tm_year t + 1900) (tm_mon t) <= 31 ∧
    0 <= sum_months (mdays (tm_year t + 1900)) (Z.to_nat (tm_mon t)) ∧
    sum_months (mdays (tm_year t + 1900)) (Z.to_nat (tm_mon t)) + mdays (tm_year t + 1900) (tm_mon t) <= 366).
  { unfold mdays. destruct (is_leap_year _); destruct (month_cases (tm_mon t) Hm) as
      [->|[->|[->|[->|[->|[->|[->|[->|[->|[->|[->| ->]]]]]]]]]]]; vm_compute; repeat split; discriminate. }
  split_and!; try done; lia.
Qed.

(** C33.  [strftime] of a time [gmtime_r] computed returns for every format, whatever its flags, widths and unknown conversions: if the text fits in [max] with its terminator the whole text is stored, terminated, and its length returned; otherwise 0 is returned and the buffer has the first [max] characters; nothing is written past [max]. *)
Theorem strftime_bounded time t buf max format :
  0 <= time <= time_bound → gmtime_r time = Ret t → (max ≤ length buf)%nat →
  ∃ text, expansion (S (length format)) t format = Ret text ∧
    strftime buf (Z.of_nat max) format t = Ret (stored buf max text) ∧ drop max (stored buf max text).2 = drop max buf.
Proof.
  intros Htime Hg Hbuf. destruct (timegm_inverse time Htime) as (r & Hr & Hn & Hy & Hm).
  rewrite Hg in Hr. injection Hr as <-. unfold time_bound in Htime.
  destruct (expansion_defined t) with (fuel := S (length format)) (format := format) as [text Hx].
  - apply tm_normal_fields; [done|]. unfold in_s. lia.
  - exists time, t. split; [done|]. unfold in_s. lia.
  - lia.
  - exists text. split; [done|]. split; [by apply strftime_stores|]. apply stored_outside. lia.
Qed.

Lemma strftime_bounded_witness :
  ∃ text, expansion 10 (Tm 20 13 22 14 10 123 2 317 (-1)) (lit "%H:%5C%+Q") = Ret text ∧
    strftime (replicate 8 1) 8 (lit "%H:%5C%+Q") (Tm 20 13 22 14 10 123 2 317 (-1)) = Ret (stored (replicate 8 1) 8 text) ∧
    drop 8 (stored (replicate 8 1) 8 text).2 = [].
Proof.
  apply (strftime_bounded 1700000027 (Tm 20 13 22 14 10 123 2 317 (-1)) (replicate 8 1) 8 (lit "%H:%5C%+Q")).
  - unfold time_bound. lia.
  - vm_compute. reflexivity.
  - cbn. lia.
Defined.

End Strftime.
