(* ===== verification/Strptime.v ===== *)
(** * Parsing of times

    [libc/time/strptime.c], and that it reads back what [strftime] wrote.  A string
    is what is left of it, its end standing for the terminator; a null pointer is
    [None].  The format is read past its terminator when a percent sign ends it,
    which is [Undef]. *)

From S2P Require Import Prelude Ctype Strtol Time Strftime.
From stdpp Require Import base decidable list numbers strings.
From Stdlib Require Import ZArith Lia Ascii.

#[local] Open Scope c_scope.
#[local] Open Scope Z_scope.

Module Strptime.
Import Calendar Ctype.

Definition wdays : list (list Z) :=
  [lit "Sunday"; lit "Monday"; lit "Tuesday"; lit "Wednesday"; lit "Thursday"; lit "Friday"; lit "Saturday"].
Definition months : list (list Z) :=
  [lit "January"; lit "February"; lit "March"; lit "April"; lit "May"; lit "June"; lit "July"; lit "August";
   lit "September"; lit "October"; lit "November"; lit "December"].

(** [!strncasecmp(str, name, n)] of a name without null characters. *)
Fixpoint same_case (str name : list Z) (n : nat) {struct n} : bool :=
  match n, name, str with
  | O, _, _ => true
  | _, [], [] => true
  | S n, c :: name, x :: str => (tolower x =? tolower c) && same_case str name n
  | _, _, _ => false
  end.

(** The index of the name and what is left of the string. *)
Fixpoint strptime_str_from (str : list Z) (i : Z) (names : list (list Z)) : option (Z * list Z) :=
  match names with
  | [] => None
  | name :: names =>
      if same_case str name (length name) then Some (i, drop (length name) str)
      else if same_case str name 3 then Some (i, drop 3 str)
      else strptime_str_from str (i + 1) names
  end.
Definition strptime_str (str : list Z) (names : list (list Z)) := strptime_str_from str 0 names.

(** The loop over the digits: the value and what is left of the string. *)
Fixpoint strptime_digits (str : list Z) (i value min_digits max_digits : Z) : option (Z * list Z) :=
  if i <? max_digits then
    match str with
    | c :: str' =>
        if (c <? ch "0") || (ch "9" <? c) then (if min_digits <=? i then Some (value, str) else None)
        else if negb (in_sb 32 (value * 10)) then None
        else if negb (in_sb 32 (value * 10 + (c - ch "0"))) then None
        else strptime_digits str' (i + 1) (value * 10 + (c - ch "0")) min_digits max_digits
    | [] => if min_digits <=? i then Some (value, str) else None
    end
  else Some (value, str).

Definition strptime_num (str : list Z) (minimum maximum min_digits max_digits offset : Z) : option (Z * list Z) :=
  match strptime_digits str 0 0 min_digits max_digits with
  | None => None
  | Some (value, str) =>
      if (value <? minimum) || (maximum <? value) then None
      else if negb (in_sb 32 (value + offset)) then None
      else Some (value + offset, str)
  end.

(** A space and those that follow it skipped, or [None]. *)
Fixpoint drop_spaces (str : list Z) : list Z :=
  match str with c :: str' => if isspace c then drop_spaces str' else str | [] => [] end.
Definition skip_space (str : list Z) : option (list Z) :=
  match str with c :: str => if isspace c then Some (drop_spaces str) else None | [] => None end.

(** The format behind the flag, the width and the modifier, whether there is a
    width, and the width. *)
Definition format_flag (format : list Z) : list Z :=
  match format with c :: f => if (c =? ch "0") || (c =? ch "+") then f else format | [] => [] end.
Fixpoint format_width (format : list Z) (width : Z) : list Z * Z :=
  match format with
  | c :: f => if (ch "0" <=? c) && (c <=? ch "9") then format_width f (u64 (width * 10 + (c - ch "0"))) else (format, width)
  | [] => (format, width)
  end.
Definition has_width (format : list Z) : bool :=
  match format with c :: _ => (ch "0" <=? c) && (c <=? ch "9") | [] => false end.
Definition format_modifier (format : list Z) : list Z :=
  match format with c :: f => if (c =? ch "E") || (c =? ch "O") then f else format | [] => [] end.

(** ** The variables of [strptime] *)

Record vars := Vars { the_tm : tm; pm : bool; need_mktime : bool; year_high : Z; year_low : Z }.

Definition with_tm (t : tm) (v : vars) : vars := Vars t (pm v) (need_mktime v) (year_high v) (year_low v).
Definition with_pm (b : bool) (v : vars) : vars := Vars (the_tm v) b (need_mktime v) (year_high v) (year_low v).
Definition need (v : vars) : vars := Vars (the_tm v) (pm v) true (year_high v) (year_low v).
Definition with_high (y : Z) (v : vars) : vars := Vars (the_tm v) (pm v) (need_mktime v) y (year_low v).
Definition with_low (y : Z) (v : vars) : vars := Vars (the_tm v) (pm v) (need_mktime v) (year_high v) y.

Definition set_sec x t := Tm x (tm_min t) (tm_hour t) (tm_mday t) (tm_mon t) (tm_year t) (tm_wday t) (tm_yday t) (tm_isdst t).
Definition set_min x t := Tm (tm_sec t) x (tm_hour t) (tm_mday t) (tm_mon t) (tm_year t) (tm_wday t) (tm_yday t) (tm_isdst t).
Definition set_hour x t := Tm (tm_sec t) (tm_min t) x (tm_mday t) (tm_mon t) (tm_year t) (tm_wday t) (tm_yday t) (tm_isdst t).
Definition set_mday x t := Tm (tm_sec t) (tm_min t) (tm_hour t) x (tm_mon t) (tm_year t) (tm_wday t) (tm_yday t) (tm_isdst t).
Definition set_mon x t := Tm (tm_sec t) (tm_min t) (tm_hour t) (tm_mday t) x (tm_year t) (tm_wday t) (tm_yday t) (tm_isdst t).
Definition set_year x t := Tm (tm_sec t) (tm_min t) (tm_hour t) (tm_mday t) (tm_mon t) x (tm_wday t) (tm_yday t) (tm_isdst t).
Definition set_wday x t := Tm (tm_sec t) (tm_min t) (tm_hour t) (tm_mday t) (tm_mon t) (tm_year t) x (tm_yday t) (tm_isdst t).
Definition set_yday x t := Tm (tm_sec t) (tm_min t) (tm_hour t) (tm_mday t) (tm_mon t) (tm_year t) (tm_wday t) x (tm_isdst t).
Definition set_isdst x t := Tm (tm_sec t) (tm_min t) (tm_hour t) (tm_mday t) (tm_mon t) (tm_year t) (tm_wday t) (tm_yday t) x.

(** What is left of the string, or a null pointer, and the variables. *)
Abbreviation reading := (option (list Z) * vars)%type.

(** [str = read(str, &field)]: the field is stored if the result is not null. *)
Definition store (r : option (Z * list Z)) (set : Z → vars → vars) (v : vars) : reading :=
  match r with Some (x, str) => (Some str, set x v) | None => (None, v) end.

Definition field (set : Z → tm → tm) (x : Z) (v : vars) : vars := with_tm (set x (the_tm v)) v.

(** The variables of a reading changed, null pointer or not. *)
Definition after (f : vars → vars) (r : reading) : reading := (r.1, f r.2).

Section Directive.
(** The recursive call. *)
Context (nested : list Z → list Z → tm → outcome (option (list Z) * tm)).

Definition nested_call (str format : list Z) (v : vars) : outcome reading :=
  '(r, t) ← nested str format (the_tm v); Ret (r, with_tm t v).

(** The case for [c] of the switch. *)
Definition strptime_directive (c : Z) (has_width : bool) (width : Z) (str : list Z) (v : vars) : outcome reading :=
  if (c =? ch "a") || (c =? ch "A") then Ret (store (strptime_str str wdays) (field set_wday) v)
  else if (c =? ch "b") || (c =? ch "B") || (c =? ch "h") then
    Ret (after need (store (strptime_str str months) (field set_mon) v))
  else if c =? ch "c" then nested_call str (lit "%a %b %e %H:%M:%S %Y") v
  else if c =? ch "C" then Ret (store (strptime_num str 0 99 1 2 0) with_high v)
  else if (c =? ch "d") || (c =? ch "e") then
    Ret (after need (store (strptime_num str 1 31 1 2 0) (field set_mday) v))
  else if c =? ch "D" then nested_call str (lit "%m/%d/%y") v
  else if c =? ch "F" then nested_call str (lit "%Y-%m-%d") v
  else if c =? ch "g" then Ret (store (strptime_num str 0 99 1 2 0) (λ _ v, v) v)
  else if c =? ch "G" then
    Ret (store (strptime_num str INT_MIN INT_MAX 1 (if has_width then width else SIZE_MAX) (-1900)) (λ _ v, v) v)
  else if c =? ch "H" then Ret (store (strptime_num str 0 23 1 2 0) (field set_hour) v)
  else if c =? ch "I" then
    Ret (after (λ v, if tm_hour (the_tm v) =? 12 then field set_hour 0 v else v)
               (store (strptime_num str 1 12 1 2 0) (field set_hour) v))
  else if c =? ch "j" then Ret (store (strptime_num str 1 366 3 3 (-1)) (field set_yday) v)
  else if c =? ch "m" then Ret (after need (store (strptime_num str 1 12 1 2 (-1)) (field set_mon) v))
  else if c =? ch "M" then Ret (store (strptime_num str 0 59 1 2 0) (field set_min) v)
  else if (c =? ch "n") || (c =? ch "t") then Ret (skip_space str, v)
  else if c =? ch "p" then
    Ret (if same_case str (lit "am") 2 then (Some (drop 2 str), with_pm false v)
         else if same_case str (lit "pm") 2 then (Some (drop 2 str), with_pm true v)
         else (None, v))
  else if c =? ch "r" then nested_call str (lit "%I:%M:%S %p") v
  else if c =? ch "R" then nested_call str (lit "%H:%M") v
  else if c =? ch "s" then
    match str with
    | x :: _ =>
        if negb ((x =? ch "-") || ((ch "0" <=? x) && (x <=? ch "9"))) then Ret (None, v)
        else
          '(value, end_, _) ← Strtol.strtoimax (str ++ [0]) 10;
          t ← localtime_r value; Ret (Some (removelast end_), with_tm t v)
    | [] => Ret (None, v)
    end
  else if c =? ch "S" then Ret (store (strptime_num str 0 60 1 2 0) (field set_sec) v)
  else if c =? ch "T" then nested_call str (lit "%H:%M:%S") v
  else if c =? ch "u" then
    Ret (after (λ v, if tm_wday (the_tm v) =? 7 then field set_wday 0 v else v)
               (store (strptime_num str 1 7 1 1 0) (field set_wday) v))
  else if c =? ch "V" then Ret (store (strptime_num str 0 53 1 2 0) (λ _ v, v) v)
  else if c =? ch "w" then Ret (store (strptime_num str 0 6 1 1 0) (field set_wday) v)
  else if c =? ch "W" then Ret (store (strptime_num str 0 53 1 2 0) (λ _ v, v) v)
  else if c =? ch "x" then nested_call str (lit "%m/%d/%Y") v
  else if c =? ch "X" then nested_call str (lit "%H:%M:%S") v
  else if c =? ch "y" then Ret (store (strptime_num str 0 99 1 2 0) with_low v)
  else if c =? ch "Y" then
    Ret (after need (store (strptime_num str INT_MIN INT_MAX 1 (if has_width then width else SIZE_MAX) (-1900))
                           (field set_year) v))
  else if c =? ch "z" then
    let x := nth 0 str 0 in
    if negb (x =? ch "-") || negb (x =? ch "+") then Ret (None, v)
    else
      match strptime_num str (-12) 12 2 2 0 with
      | None => Ret (None, v)
      | Some (_, str) => Ret (store (strptime_num str 0 59 2 2 0) (λ _, field set_isdst 0) v)
      end
  else if c =? ch "Z" then
    Ret (if bool_decide (take 3 str = lit "UTC") then (Some (drop 3 str), field set_isdst 0 v) else (None, v))
  else if c =? ch "%" then
    Ret (match str with x :: str => if x =? ch "%" then (Some str, v) else (None, v) | [] => (None, v) end)
  else Ret (Some str, v).

(** The format from [i] on. *)
Fixpoint strptime_loop (fuel : nat) (format str : list Z) (v : vars) : outcome reading :=
  match fuel with
  | O => OutOfFuel
  | S fuel =>
      match format with
      | [] => Ret (Some str, v)
      | c :: format =>
          if isspace c then
            match skip_space str with
            | Some str => strptime_loop fuel (drop_spaces format) str v
            | None => Ret (None, v)
            end
          else if negb (c =? ch "%") then
            match str with
            | x :: str => if c =? x then strptime_loop fuel format str v else Ret (None, v)
            | [] => Ret (None, v)
            end
          else
            let format := format_flag format in
            let '(format', width) := format_width format 0 in
            match format_modifier format' with
            | [] => Undef
            | d :: format' =>
                '(r, v) ← strptime_directive d (has_width format) width str v;
                match r with
                | Some str => strptime_loop fuel format' str v
                | None => Ret (None, v)
                end
            end
      end
  end.

(** What is done when the format is used up. *)
Definition strptime_finish (v : vars) : outcome tm :=
  let t := the_tm v in
  t ← (if pm v then h ← checked 32 (tm_hour t + 12); Ret (set_hour h t) else Ret t);
  let '(t, need) :=
    if negb (year_high v =? -1) || negb (year_low v =? -1) then
      let high := if year_high v =? -1 then (if year_low v <? 70 then 20 else 19) else year_high v in
      let low := if year_high v =? -1 then year_low v else if year_low v =? -1 then 0 else year_low v in
      (set_year (high * 100 + low - 1900) t, true)
    else (t, need_mktime v) in
  if need : bool then
    '(_, copy) ← mktime t; Ret (set_yday (tm_yday copy) (set_wday (tm_wday copy) t))
  else Ret t.

Definition strptime_body (str format : list Z) (t : tm) : outcome (option (list Z) * tm) :=
  '(r, v) ← strptime_loop (S (length format)) format str (Vars t false false (-1) (-1));
  match r with
  | Some str => t ← strptime_finish v; Ret (Some str, t)
  | None => Ret (None, the_tm v)
  end.

End Directive.

(** The formats of the recursive calls hold no conversion that calls again. *)
Fixpoint strptime_depth (depth : nat) (str format : list Z) (t : tm) : outcome (option (list Z) * tm) :=
  match depth with
  | O => OutOfFuel
  | S depth => strptime_body (strptime_depth depth) str format t
  end.

Definition strptime (str format : list Z) (t : tm) : outcome (option (list Z) * tm) := strptime_depth 2 str format t.

Definition zero : tm := Tm 0 0 0 0 0 0 0 0 0.

Example strptime_iso :
  strptime (lit "2000-09-02 03:04:05z") (lit "%F %T") zero = Ret (Some (lit "z"), Tm 5 4 3 2 8 100 6 245 0).
Proof. vm_compute. reflexivity. Qed.
Example strptime_pm : strptime (lit "2 SEP 99 12:30pm") (lit "%d %b %y %I:%M%p") zero = Ret (Some [], Tm 0 30 12 2 8 99 4 244 0).
Proof. vm_compute. reflexivity. Qed.
Example strptime_percent : strptime (lit "x") (lit "x%") zero = Undef.
Proof. reflexivity. Qed.
Example strptime_zone : strptime (lit "+0000") (lit "%z") zero = Ret (None, zero).
Proof. reflexivity. Qed.
Example strptime_day : strptime (lit " 2") (lit "%e") zero = Ret (None, zero).
Proof. reflexivity. Qed.

(** ** Formats that can be read back *)

Inductive item := Lit (c : Z) | Blank | Conv (c : Z).

Definition item_format (i : item) : list Z :=
  match i with Lit c => [c] | Blank => lit " " | Conv c => [ch "%"; c] end.
Definition format_of (items : list item) : list Z := concat (map item_format items).

(** The text [strftime] writes. *)
Definition conv_text (r : tm) (c : Z) : list Z :=
  match Strftime.conversion r c 0 (ch " ") with
  | Some ps => match Strftime.pieces_text ps with Ret l => l | _ => [] end
  | None => []
  end.
Definition item_text (r : tm) (i : item) : list Z :=
  match i with Lit c => [c] | Blank => lit " " | Conv c => conv_text r c end.
Definition text_of (r : tm) (items : list item) : list Z := concat (map (item_text r) items).

(** What a conversion leaves in the variables. *)
Definition assign (r : tm) (c : Z) (v : vars) : vars :=
  if (c =? ch "a") || (c =? ch "A") || (c =? ch "u") || (c =? ch "w") then field set_wday (tm_wday r) v
  else if (c =? ch "b") || (c =? ch "B") || (c =? ch "h") || (c =? ch "m") then need (field set_mon (tm_mon r) v)
  else if c =? ch "C" then with_high ((tm_year r + 1900) / 100) v
  else if c =? ch "y" then with_low ((tm_year r + 1900) mod 100) v
  else if c =? ch "Y" then need (field set_year (tm_year r) v)
  else if c =? ch "d" then need (field set_mday (tm_mday r) v)
  else if c =? ch "H" then field set_hour (tm_hour r) v
  else if c =? ch "I" then field set_hour (tm_hour r mod 12) v
  else if c =? ch "p" then with_pm (12 <=? tm_hour r) v
  else if c =? ch "j" then field set_yday (tm_yday r) v
  else if c =? ch "M" then field set_min (tm_min r) v
  else if c =? ch "S" then field set_sec (tm_sec r) v
  else if c =? ch "R" then field set_min (tm_min r) (field set_hour (tm_hour r) v)
  else if (c =? ch "T") || (c =? ch "X") then
    field set_sec (tm_sec r) (field set_min (tm_min r) (field set_hour (tm_hour r) v))
  else v.

Definition assign_item (r : tm) (v : vars) (i : item) : vars :=
  match i with Conv c => assign r c v | _ => v end.

(** What may follow a text so that it is clear where it ends. *)
Definition follow (c : Z) (after : list Z) : Prop :=
  if c =? ch "Y" then isdigit (hd 0 after) = false
  else if (c =? ch "a") || (c =? ch "b") || (c =? ch "h") then isalpha (hd 0 after) = false
  else True.

Definition basic : list Z := lit "aAbBhCdHIjmMpSuwyY%".
Definition compound : list Z := lit "RTX".

(** The misspelt month and the years of more than four digits are not read back. *)
Definition conv_ok (r : tm) (c : Z) : Prop :=
  (c = ch "B" → tm_mon r ≠ 8) ∧ (c = ch "C" → tm_year r + 1900 <= 9999).

Section Items.
Context (convs : list Z) (r : tm).

Definition item_ok (i : item) (after : list Z) : Prop :=
  match i with
  | Lit c => isspace c = false ∧ c ≠ ch "%"
  | Blank => isspace (hd 0 after) = false
  | Conv c => c ∈ convs ∧ conv_ok r c ∧ follow c after
  end.

Fixpoint items_ok (items : list item) (rest : list Z) : Prop :=
  match items with
  | [] => True
  | i :: items => item_ok i (text_of r items ++ rest) ∧ items_ok items rest
  end.

(** A conversion is written as a text that is read back. *)
Definition written_back (nested : list Z → list Z → tm → outcome (option (list Z) * tm)) (c : Z) : Prop :=
  (isspace c || isdigit c || (c =? ch "+") || (c =? ch "E") || (c =? ch "O")) = false ∧
  ∃ ps x text, Strftime.conversion r c 0 (ch " ") = Some ps ∧ Strftime.pieces_text ps = Ret (x :: text) ∧
    isspace x = false ∧
    ∀ rest v, follow c rest → strptime_directive nested c false 0 (x :: text ++ rest) v = Ret (Some rest, assign r c v).

End Items.

(** The fixed parts of a conversion specification are absent. *)
Lemma plain_conversion c : (isspace c || isdigit c || (c =? ch "+") || (c =? ch "E") || (c =? ch "O")) = false →
  (∀ f, Strftime.strftime_flags (c :: f) (ch " ") false = (c :: f, ch " ", false)) ∧
  (∀ f, Strftime.strftime_width (c :: f) 0 = (c :: f, 0)) ∧ (∀ f, Strftime.strftime_modifier (c :: f) = c :: f) ∧
  (∀ f, format_flag (c :: f) = c :: f) ∧ (∀ f, format_width (c :: f) 0 = (c :: f, 0)) ∧
  (∀ f, has_width (c :: f) = false) ∧ (∀ f, format_modifier (c :: f) = c :: f).
Proof.
  unfold isdigit. intros H. apply orb_false_iff in H as [H HO]. apply orb_false_iff in H as [H HE].
  apply orb_false_iff in H as [H Hp]. apply orb_false_iff in H as [_ Hd].
  assert (Hz : (c =? ch "0") = false) by (destruct (Z.eqb_spec c (ch "0")) as [->|]; done).
  split_and!; intros f; cbn; by rewrite ?Hz, ?Hp, ?HE, ?HO, ?Hd.
Qed.

Section Loop.
Context (convs : list Z) (r : tm) (nested : list Z → list Z → tm → outcome (option (list Z) * tm)).
Context (Hback : ∀ c, c ∈ convs → conv_ok r c → written_back r nested c).

Lemma conv_text_back c : c ∈ convs → conv_ok r c → ∃ ps x text,
  Strftime.conversion r c 0 (ch " ") = Some ps ∧ Strftime.pieces_text ps = Ret (conv_text r c) ∧
  conv_text r c = x :: text ∧ isspace x = false.
Proof.
  intros Hc Hok. destruct (Hback c Hc Hok) as (_ & ps & x & text & Hcv & Hps & Hx & _).
  exists ps, x, text. unfold conv_text. rewrite Hcv, Hps. by split_and!.
Qed.

Lemma expansion_items items rest fuel :
  items_ok convs r items rest → (length (format_of items) < fuel)%nat →
  Strftime.expansion fuel r (format_of items) = Ret (text_of r items).
Proof.
  revert fuel. induction items as [|i items IH]; intros fuel Hok Hf; (destruct fuel as [|fuel]; [lia|]); [done|].
  destruct Hok as [Hi Hok]. destruct i as [c| |c]; cbn [format_of map concat item_format app length] in *;
    fold (format_of items) in *; cbn [Strftime.expansion].
  - destruct Hi as [_ Hc]. rewrite (proj2 (Z.eqb_neq _ _)) by done. cbn [negb]. rewrite IH by (done || lia). done.
  - cbn [negb Z.eqb]. rewrite IH by (done || lia). done.
  - cbn [negb Z.eqb Pos.eqb]. destruct Hi as (Hc & Hco & _).
    destruct (Hback c Hc Hco) as (Hplain & _). destruct (plain_conversion c Hplain) as (Hf1 & Hf2 & Hf3 & _).
    destruct (conv_text_back c Hc Hco) as (ps & x & text & Hcv & Hps & _).
    unfold Strftime.specification. rewrite Hf1, Hf2, Hf3, Hcv, Hps. cbn [mbind outcome_bind].
    rewrite IH by (done || lia). done.
Qed.

Lemma drop_spaces_id l : isspace (hd 0 l) = false → drop_spaces l = l.
Proof. destruct l as [|c l]; [done|]. cbn. by intros ->. Qed.

Lemma format_no_space items rest : items_ok convs r items rest → isspace (hd 0 (text_of r items ++ rest)) = false →
  isspace (hd 0 (format_of items)) = false.
Proof. by destruct items as [|[c| |c] items]; cbn. Qed.

(** The loop reads the text back, conversion by conversion. *)
Lemma strptime_loop_items items rest fuel v :
  items_ok convs r items rest → (length (format_of items) < fuel)%nat →
  strptime_loop nested fuel (format_of items) (text_of r items ++ rest) v =
    Ret (Some rest, fold_left (assign_item r) items v).
Proof.
  revert fuel v. induction items as [|i items IH]; intros fuel v Hok Hf; (destruct fuel as [|fuel]; [lia|]); [done|].
  destruct Hok as [Hi Hok]. cbn [text_of map concat fold_left]. rewrite <-app_assoc.
  change (concat (map (item_text r) items)) with (text_of r items).
  destruct i as [c| |c]; cbn [format_of map concat item_format app length item_text] in *;
    fold (format_of items) in *; cbn [strptime_loop].
  - destruct Hi as [Hs Hc]. rewrite Hs, (proj2 (Z.eqb_neq _ _)) by done. cbn [negb]. rewrite Z.eqb_refl. apply IH; [done|lia].
  - cbn [skip_space]. change (isspace (ch " ")) with true. cbn iota. rewrite (drop_spaces_id _ Hi).
    rewrite drop_spaces_id by (by eapply format_no_space). apply IH; [done|lia].
  - change (isspace (ch "%")) with false. cbn [negb Z.eqb Pos.eqb]. destruct Hi as (Hc & Hco & Hfo).
    destruct (Hback c Hc Hco) as (Hplain & ps & x & text & Hcv & Hps & _ & Hdir).
    destruct (plain_conversion c Hplain) as (_ & _ & _ & Hf4 & Hf5 & Hf6 & Hf7).
    rewrite Hf4, Hf5, Hf6, Hf7. unfold conv_text. rewrite Hcv, Hps. cbn [app]. rewrite Hdir by done.
    cbn [mbind outcome_bind assign_item]. apply IH; [done|lia].
Qed.

End Loop.

(** ** Numbers read back *)

Abbreviation digits l := (Forall (λ c, 48 <= c <= 57) l).
Abbreviation decimal := Strftime.decimal.

Lemma decimal_ge l v : digits l → 0 <= v → v <= decimal l v.
Proof.
  intros Hl. revert v. induction Hl as [|c l Hc Hl IH]; intros v Hv; cbn; [lia|].
  pose proof (IH (v * 10 + (c - ch "0")) ltac:(lia)). unfold decimal in *. lia.
Qed.

Lemma in_sb_true w x : in_s w x → in_sb w x = true.
Proof. unfold in_s, in_sb. lia. Qed.

Lemma strptime_digits_back l i value min_digits max_digits rest :
  digits l → 0 <= value → decimal l value <= INT_MAX →
  min_digits <= i + Z.of_nat (length l) <= max_digits →
  (i + Z.of_nat (length l) = max_digits ∨ isdigit (hd 0 rest) = false) →
  strptime_digits (l ++ rest) i value min_digits max_digits = Some (decimal l value, rest).
Proof.
  intros Hl. revert i value. induction Hl as [|c l Hc Hl IH]; intros i value Hv Hd Hlen Hr; cbn [app length] in *.
  - unfold strptime_digits. destruct rest as [|x rest]; cbn [hd] in *.
    + rewrite (proj2 (Z.leb_le min_digits i)) by lia. by destruct (i <? max_digits).
    + destruct (Z.ltb_spec i max_digits); [|done]. destruct Hr as [?|Hx]; [lia|].
      unfold isdigit in Hx. rewrite (proj2 (Z.leb_le min_digits i)) by lia.
      by replace ((x <? ch "0") || (ch "9" <? x)) with true by lia.
  - cbn [strptime_digits]. rewrite (proj2 (Z.ltb_lt i max_digits)) by lia.
    replace ((c <? ch "0") || (ch "9" <? c)) with false by lia.
    pose proof (decimal_ge l (value * 10 + (c - ch "0")) Hl ltac:(lia)) as Hge. unfold decimal, INT_MAX in *. cbn in Hd.
    rewrite !in_sb_true by (unfold in_s; lia). cbn [negb fold_left]. apply IH; try lia. destruct Hr; [left; lia|by right].
Qed.

Lemma strptime_num_back l v minimum maximum min_digits max_digits offset rest :
  digits l → decimal l 0 = v → minimum <= v <= maximum → v <= INT_MAX → in_s 32 (v + offset) →
  min_digits <= Z.of_nat (length l) <= max_digits →
  (Z.of_nat (length l) = max_digits ∨ isdigit (hd 0 rest) = false) →
  strptime_num (l ++ rest) minimum maximum min_digits max_digits offset = Some (v + offset, rest).
Proof.
  intros Hl Hv Hr Hmax Hs Hlen Hstop. unfold strptime_num.
  rewrite strptime_digits_back by (done || lia). rewrite Hv. replace ((v <? minimum) || (maximum <? v)) with false by lia.
  by rewrite in_sb_true.
Qed.

Lemma decimal_zeroes n : decimal (replicate n 48) 0 = 0.
Proof. induction n as [|n IH]; [done|exact IH]. Qed.

(** A number padded with zeroes. *)
Lemma padded_text v w : (1 ≤ w ≤ 9)%nat → 0 <= v < 10 ^ Z.of_nat w → ∃ x l,
  Strftime.piece_text (Strftime.Padded v (Z.of_nat w) (ch "0")) = Ret (x :: l) ∧
  length (x :: l) = w ∧ digits (x :: l) ∧ decimal (x :: l) 0 = v.
Proof.
  intros Hw Hv. assert (10 ^ Z.of_nat w <= 10 ^ 9) by (apply Z.pow_le_mono_r; lia).
  pose proof (Strftime.convert_uintmax_length v w ltac:(lia) Hv) as Hlen.
  destruct (Strftime.convert_uintmax_spec v) as (k & Hk & _ & _ & Hd & Hval); [lia|].
  cbn [Strftime.piece_text]. rewrite Strftime.convert_int_ok by (unfold in_s; lia). cbn [mbind outcome_bind].
  unfold Strftime.strftime_convert_intmax, Strftime.padding. rewrite (proj2 (Z.ltb_ge v 0)) by lia. cbn [Z.eqb Pos.eqb].
  set (l := Strftime.strftime_convert_uintmax v) in *. set (p := replicate _ (ch "0")).
  assert (Hpd : digits (p ++ l)) by (apply Forall_app; split; [apply Forall_replicate; lia|done]).
  assert (Hpl : length (p ++ l) = w) by (rewrite length_app; unfold p; rewrite length_replicate; lia).
  assert (Hdec : decimal (p ++ l) 0 = v).
  { assert (Hz : decimal p 0 = 0) by apply decimal_zeroes.
    unfold decimal, Strftime.decimal in *. rewrite fold_left_app, Hz, Hval. lia. }
  destruct (p ++ l) as [|x m] eqn:E; [cbn in Hpl; lia|]. by exists x, m.
Qed.

(** A number as it is. *)
Lemma plain_text v : 0 <= v <= INT_MAX → ∃ x l,
  Strftime.piece_text (Strftime.Padded v 0 0) = Ret (x :: l) ∧ digits (x :: l) ∧ decimal (x :: l) 0 = v ∧
  (length (x :: l) ≤ 10)%nat ∧ (v < 10 → l = []).
Proof.
  unfold INT_MAX. intros Hv. destruct (Strftime.convert_uintmax_spec v) as (k & Hk & _ & Hge & Hd & Hval); [lia|].
  cbn [Strftime.piece_text]. rewrite Strftime.convert_int_ok by (unfold in_s; lia). cbn [mbind outcome_bind].
  unfold Strftime.strftime_convert_intmax, Strftime.padding. rewrite (proj2 (Z.ltb_ge v 0)) by lia. cbn [Z.eqb app].
  pose proof (Strftime.convert_uintmax_length v 10 ltac:(lia) ltac:(lia)) as Hlen.
  specialize (Hval 0). destruct (Strftime.strftime_convert_uintmax v) as [|x l]; [done|].
  exists x, l. split_and!; [done|done|rewrite Hval; lia|done|]. intros Hs.
  destruct Hge as [->|Hge]; [by destruct l|]. cbn in Hk. injection Hk as Hk. destruct k as [|k]; [by destruct l|].
  rewrite Nat2Z.inj_succ, Z.pow_succ_r in Hge by lia. pose proof (Z.pow_pos_nonneg 10 (Z.of_nat k)). lia.
Qed.

(** ** Names read back *)

Lemma same_case_stop rest c name n :
  isalpha (hd 0 rest) = false → islower c = true → same_case rest (c :: name) (S n) = false.
Proof.
  intros Ha Hc. destruct rest as [|x rest]; [done|]. cbn in *. apply andb_false_iff. left.
  unfold isalpha, isupper, islower, tolower in *. apply orb_false_iff in Ha as [Hu Hl]. unfold isupper. rewrite Hu.
  apply Z.eqb_neq. repeat case_match; lia.
Qed.

(** The letters in lower case, of a name and of a text that begins with letters. *)
Lemma same_case_app a b rest n : (n ≤ length a)%nat → same_case (a ++ rest) b n = same_case a b n.
Proof.
  revert a b. induction n as [|n IH]; intros a b Hn; [done|]. destruct a as [|x a]; [cbn in Hn; lia|].
  cbn [app same_case]. destruct b as [|c b]; [done|]. by rewrite IH by (cbn in Hn; lia).
Qed.

Lemma same_case_refl a b rest n : same_case (a ++ rest) (a ++ b) (length a + n) = same_case rest b n.
Proof. induction a as [|x a IH]; [done|]. cbn. by rewrite Z.eqb_refl, IH. Qed.

Lemma same_case_less a b n m : (m ≤ n)%nat → same_case a b n = true → same_case a b m = true.
Proof.
  revert a b m. induction n as [|n IH]; intros a b m Hm H; [by replace m with O by lia|].
  destruct m as [|m]; [done|]. destruct a as [|x a], b as [|c b]; try done. cbn in *.
  apply andb_true_iff in H as [-> H]. apply (IH _ _ m ltac:(lia) H).
Qed.

(** A name is found if it begins with three letters no earlier one begins with. *)
Lemma strptime_str_found names (k : nat) i full a text rest :
  names !! k = Some full → Forall (λ n, (3 ≤ length n)%nat) names → (3 ≤ length text)%nat →
  Forall (λ n, same_case text n 3 = false) (take k names) → same_case text full 3 = true →
  (if same_case (text ++ rest) full (length full) then drop (length full) (text ++ rest) else drop 3 (text ++ rest)) = a →
  strptime_str_from (text ++ rest) i names = Some (i + Z.of_nat k, a).
Proof.
  revert i k. induction names as [|n names IH]; intros i k Hk Hl Ht Hb H3 Ha; [done|].
  inversion Hl as [|? ? Hn Hl']; subst. destruct k as [|k]; cbn [strptime_str_from].
  - injection Hk as ->. rewrite (same_case_app text full rest 3 Ht), H3. change (Z.of_nat 0) with 0. rewrite Z.add_0_r.
    by destruct (same_case (text ++ rest) full (length full)).
  - rewrite firstn_cons in Hb. apply Forall_cons in Hb as [Hn3 Hb'].
    assert (Hfull : same_case (text ++ rest) n (length n) = false).
    { apply not_true_iff_false. intros E. apply (same_case_less _ _ _ 3 Hn) in E. rewrite same_case_app in E by done. congruence. }
    rewrite Hfull, (same_case_app text n rest 3 Ht), Hn3. rewrite (IH (i + 1) k) by done. do 2 f_equal. lia.
Qed.

(** The end of an abbreviated name. *)
Lemma abbreviated_end text c tail rest :
  (3 = length text)%nat → isalpha (hd 0 rest) = false → islower c = true →
  (if same_case (text ++ rest) (text ++ c :: tail) (length (text ++ c :: tail))
   then drop (length (text ++ c :: tail)) (text ++ rest) else drop 3 (text ++ rest)) = rest.
Proof.
  intros Hl Hr Hc. rewrite length_app, same_case_refl. cbn [length]. rewrite same_case_stop by done.
  by rewrite Hl, drop_app_length.
Qed.

Lemma full_end text rest :
  (if same_case (text ++ rest) text (length text) then drop (length text) (text ++ rest) else drop 3 (text ++ rest)) = rest.
Proof.
  pose proof (same_case_refl text [] rest 0) as E. rewrite app_nil_r, Nat.add_0_r in E. rewrite E. cbn [same_case].
  apply drop_app_length.
Qed.

(** [a] is the whole of [b], or its first three letters, the fourth being small. *)
Definition abbreviates (a b : list Z) : bool :=
  bool_decide (a = b) || bool_decide (length a = 3%nat) && bool_decide (a = take 3 b) && islower (nth 3 b 0) && (3 <? Z.of_nat (length b)).

Lemma abbreviates_end a b rest : abbreviates a b = true → (a = b ∨ isalpha (hd 0 rest) = false) →
  (if same_case (a ++ rest) b (length b) then drop (length b) (a ++ rest) else drop 3 (a ++ rest)) = rest.
Proof.
  unfold abbreviates. rewrite orb_true_iff, !andb_true_iff, !bool_decide_eq_true. intros Hab Hr.
  destruct (decide (a = b)) as [->|Hne]; [apply full_end|]. destruct Hab as [?|(((Hl & Ha) & Hc) & Hb)]; [done|].
  destruct Hr as [?|Hr]; [done|]. destruct b as [|b0 [|b1 [|b2 [|c tail]]]]; try done. cbn in Ha, Hc. subst a.
  by apply (abbreviated_end [b0; b1; b2]).
Qed.

(** The names that are written, and the ones they are looked up in. *)
Definition entry_ok (written names : list (list Z)) (k : nat) : bool :=
  match written !! k, names !! k with
  | Some name, Some full =>
      abbreviates name full && (3 <=? Z.of_nat (length name)) && same_case name full 3 &&
      forallb (λ n, negb (same_case name n 3)) (take k names)
  | _, _ => false
  end.

Lemma name_back written names (k : nat) name rest :
  entry_ok written names k = true → forallb (λ n, 3 <=? Z.of_nat (length n)) names = true → written !! k = Some name →
  (written = names ∨ names !! k = Some name ∨ isalpha (hd 0 rest) = false) →
  strptime_str (name ++ rest) names = Some (Z.of_nat k, rest).
Proof.
  unfold entry_ok. intros Hok Hl Hw Hr. rewrite Hw in Hok. destruct (names !! k) as [full|] eqn:Hf; [|done].
  rewrite !andb_true_iff in Hok. destruct Hok as (((Hab & Hn) & H3) & Hb).
  apply (strptime_str_found names k 0 full); try done; [|lia| |].
  - apply Forall_forall. intros n Hin. rewrite forallb_forall in Hl. apply list_elem_of_In, Hl in Hin. lia.
  - apply Forall_forall. intros n Hin. rewrite forallb_forall in Hb. apply negb_true_iff, Hb. by apply list_elem_of_In.
  - apply abbreviates_end; [done|]. destruct Hr as [->|[[= ->]|?]]; [left; congruence|by left|by right].
Qed.

Lemma weekday_abbreviated_back (k : nat) name rest :
  Strftime.weekdays_abbreviated !! k = Some name → isalpha (hd 0 rest) = false →
  strptime_str (name ++ rest) wdays = Some (Z.of_nat k, rest).
Proof. intros H Hr. apply (name_back Strftime.weekdays_abbreviated); auto. by do 7 (destruct k as [|k]; [done|]). Qed.

Lemma weekday_back (k : nat) name rest :
  Strftime.weekdays !! k = Some name → strptime_str (name ++ rest) wdays = Some (Z.of_nat k, rest).
Proof. intros H. apply (name_back Strftime.weekdays); auto. by do 7 (destruct k as [|k]; [done|]). Qed.

Lemma month_abbreviated_back (k : nat) name rest :
  Strftime.month_names_abbreviated !! k = Some name → isalpha (hd 0 rest) = false →
  strptime_str (name ++ rest) months = Some (Z.of_nat k, rest).
Proof. intros H Hr. apply (name_back Strftime.month_names_abbreviated); auto. by do 12 (destruct k as [|k]; [done|]). Qed.

Lemma month_back (k : nat) name rest :
  k ≠ 8%nat → Strftime.month_names !! k = Some name → strptime_str (name ++ rest) months = Some (Z.of_nat k, rest).
Proof.
  intros Hk H. apply (name_back Strftime.month_names); auto; [by do 12 (destruct k as [|k]; [done|])|].
  right. left. by do 12 (destruct k as [|k]; [done|]).
Qed.

(** ** Conversions read back *)

Section Back.
Context (r : tm) (nested : list Z → list Z → tm → outcome (option (list Z) * tm)).
Context (Hf : Strftime.tm_fields r) (Hy : 1970 <= tm_year r + 1900).

Abbreviation plain c := ((isspace c || isdigit c || (c =? 43) || (c =? 69) || (c =? 79)) = false).

Lemma digit_nospace x : 48 <= x <= 57 → isspace x = false.
Proof. unfold isspace. intros. repeat case_match; lia. Qed.

(** A number of fixed width. *)
Lemma num_written c p w v minimum maximum min_digits offset (F : Z → vars → vars) :
  plain c → Strftime.conversion r c 0 (ch " ") = Some [Ret p] →
  Strftime.piece_text p = Strftime.piece_text (Strftime.Padded v (Z.of_nat w) (ch "0")) →
  (1 ≤ w ≤ 9)%nat → 0 <= v < 10 ^ Z.of_nat w → minimum <= v <= maximum → in_s 32 (v + offset) → min_digits <= Z.of_nat w →
  (∀ str vs x str', strptime_num str minimum maximum min_digits (Z.of_nat w) offset = Some (x, str') →
     strptime_directive nested c false 0 str vs = Ret (Some str', F x vs)) →
  (∀ vs, F (v + offset) vs = assign r c vs) → written_back r nested c.
Proof.
  intros Hp Hc Hpt Hw Hv Hr Ho Hmin Hdir HF. destruct (padded_text v w Hw Hv) as (x & l & Ht & Hlen & Hd & Hval).
  split; [done|]. exists [Ret p], x, l. split; [done|].
  split; [cbn [Strftime.pieces_text mbind outcome_bind]; rewrite Hpt, Ht; cbn; by rewrite app_nil_r|].
  split; [apply digit_nospace; by inversion Hd|]. intros rest vs _.
  assert (10 ^ Z.of_nat w <= 10 ^ 9) by (apply Z.pow_le_mono_r; lia).
  rewrite (Hdir _ vs (v + offset) rest); [by rewrite HF|].
  apply (strptime_num_back (x :: l)); try done; unfold INT_MAX; lia.
Qed.

(** A number of one digit. *)
Lemma digit_written c v minimum maximum (F : Z → vars → vars) :
  plain c → Strftime.conversion r c 0 (ch " ") = Some [Ret (Strftime.Padded v 0 0)] →
  0 <= v < 10 → minimum <= v <= maximum →
  (∀ str vs x str', strptime_num str minimum maximum 1 1 0 = Some (x, str') →
     strptime_directive nested c false 0 str vs = Ret (Some str', F x vs)) →
  (∀ vs, F v vs = assign r c vs) → written_back r nested c.
Proof.
  intros Hp Hc Hv Hr Hdir HF. destruct (plain_text v) as (x & l & Ht & Hd & Hval & _ & Hl); [unfold INT_MAX; lia|].
  rewrite (Hl ltac:(lia)) in *. split; [done|]. exists [Ret (Strftime.Padded v 0 0)], x, []. split; [done|].
  split; [cbn [Strftime.pieces_text mbind outcome_bind]; by rewrite Ht|].
  split; [apply digit_nospace; by inversion Hd|]. intros rest vs _.
  rewrite (Hdir _ vs (v + 0) rest); [by rewrite Z.add_0_r, HF|].
  apply (strptime_num_back [x]); try done; unfold INT_MAX, in_s; cbn; lia.
Qed.

(** A name. *)
Lemma name_written c name (F : vars → vars) :
  plain c → Strftime.conversion r c 0 (ch " ") = Some [Ret (Strftime.Chars name)] → isspace (hd 32 name) = false →
  (∀ rest vs, follow c rest → strptime_directive nested c false 0 (name ++ rest) vs = Ret (Some rest, F vs)) →
  (∀ vs, F vs = assign r c vs) → written_back r nested c.
Proof.
  intros Hp Hc Hs Hdir HF. destruct name as [|x l]; [done|]. split; [done|].
  exists [Ret (Strftime.Chars (x :: l))], x, l. split; [done|]. split; [cbn; by rewrite app_nil_r|]. split; [done|].
  intros rest vs Hfo. rewrite <-HF. by apply Hdir.
Qed.

Ltac fields := destruct Hf as (?&?&?&?&?&?&?&Hyear); unfold in_s in Hyear.
Ltac read_back :=
  let Hn := fresh in
  intros ? ? ? ? Hn; change (Z.of_nat 2) with 2 in Hn; change (Z.of_nat 3) with 3 in Hn;
  cbn -[strptime_num strptime_str]; rewrite Hn; done.
Ltac assigned := intros; rewrite ?Z.add_0_r; cbn -[Z.add]; repeat f_equal; lia.
Ltac number lem := apply lem; unfold in_s; [done|try done|try done|try lia..|read_back|try assigned].
Abbreviation zero_padded v w := (Strftime.Padded v w 48).

Lemma basic_numbers c : c ∈ lit "dHmMSjy" → written_back r nested c.
Proof.
  fields. assert (Hmon : Strftime.mon_ r = Ret (tm_mon r + 1)) by (apply checked_ok; unfold in_s; lia).
  assert (Hyday : checked 32 (tm_yday r + 1) = Ret (tm_yday r + 1)) by (apply checked_ok; unfold in_s; lia).
  pose proof (Strftime.year_low_defined r Hf) as Hlow. rewrite Z.rem_mod_nonneg in Hlow by lia.
  pose proof (Z.mod_pos_bound (tm_year r + 1900) 100 ltac:(lia)).
  rewrite !elem_of_cons, elem_of_nil. intros [->|[->|[->|[->|[->|[->|[->|[]]]]]]]].
  - number (num_written (ch "d") (zero_padded (tm_mday r) 2) 2 (tm_mday r) 1 31 1 0 (λ x v, need (field set_mday x v))).
  - number (num_written (ch "H") (zero_padded (tm_hour r) 2) 2 (tm_hour r) 0 23 1 0 (λ x v, field set_hour x v)).
  - number (num_written (ch "m") (zero_padded (tm_mon r + 1) 2) 2 (tm_mon r + 1) 1 12 1 (-1) (λ x v, need (field set_mon x v))).
    cbn. by rewrite Hmon.
  - number (num_written (ch "M") (zero_padded (tm_min r) 2) 2 (tm_min r) 0 59 1 0 (λ x v, field set_min x v)).
  - number (num_written (ch "S") (zero_padded (tm_sec r) 2) 2 (tm_sec r) 0 60 1 0 (λ x v, field set_sec x v)).
  - number (num_written (ch "j") (zero_padded (tm_yday r + 1) 3) 3 (tm_yday r + 1) 1 366 3 (-1) (λ x v, field set_yday x v)).
    cbn -[checked]. by rewrite Hyday.
  - number (num_written (ch "y") (zero_padded ((tm_year r + 1900) mod 100) 2) 2 ((tm_year r + 1900) mod 100) 0 99 1 0 with_low).
    cbn -[Strftime.year_low_]. by rewrite Hlow.
Qed.

(** The hour of a clock with two halves. *)
Lemma written_I : written_back r nested (ch "I").
Proof.
  fields. assert (Hh : checked 32 (tm_hour r + 11) = Ret (tm_hour r + 11)) by (apply checked_ok; unfold in_s; lia).
  pose proof (Z.rem_bound_pos (tm_hour r + 11) 12 ltac:(lia) ltac:(lia)).
  set (h := Z.rem (tm_hour r + 11) 12 + 1).
  apply (num_written (ch "I") (zero_padded h 2) 2 h 1 12 1 0
    (λ x v, if x =? 12 then field set_hour 0 (field set_hour x v) else field set_hour x v)); unfold in_s; [done| |done|lia..|read_back|].
  - cbn -[checked]. by rewrite Hh.
  - intros vs. rewrite Z.add_0_r. unfold assign. cbn -[Z.rem Z.modulo].
    assert (E : (h =? 12) = true ∧ tm_hour r mod 12 = 0 ∨ (h =? 12) = false ∧ tm_hour r mod 12 = h)
      by (subst h; Z.to_euclidean_division_equations; lia).
    by destruct E as [[-> ->]|[-> ->]].
Qed.

Lemma written_p : written_back r nested (ch "p").
Proof.
  apply (name_written (ch "p") (Strftime.am_pm r) (with_pm (12 <=? tm_hour r))); try done;
    unfold Strftime.am_pm; destruct (Z.ltb_spec (tm_hour r) 12); try done; intros rest vs _;
    [replace (12 <=? tm_hour r) with false by lia|replace (12 <=? tm_hour r) with true by lia]; done.
Qed.

Lemma written_percent : written_back r nested (ch "%").
Proof. by apply (name_written (ch "%") (lit "%") (λ v, v)). Qed.

Lemma written_u : written_back r nested (ch "u").
Proof.
  fields. set (d := if negb (tm_wday r =? 0) then tm_wday r else 7).
  assert (Hd : 1 <= d <= 7) by (unfold d; destruct (Z.eqb_spec (tm_wday r) 0); cbn; lia).
  apply (digit_written (ch "u") d 1 7
    (λ x v, if x =? 7 then field set_wday 0 (field set_wday x v) else field set_wday x v)); try done; [lia|read_back|].
  intros vs. unfold assign, d. cbn. destruct (Z.eqb_spec (tm_wday r) 0) as [->|]; [done|]. cbn.
  by rewrite (proj2 (Z.eqb_neq _ 7)) by lia.
Qed.

Lemma written_w : written_back r nested (ch "w").
Proof. fields. apply (digit_written (ch "w") (tm_wday r) 0 6 (λ x v, field set_wday x v)); try done; [lia|read_back]. Qed.

Lemma written_Y : written_back r nested (ch "Y").
Proof.
  fields. destruct (plain_text (tm_year r + 1900)) as (x & l & Ht & Hd & Hval & Hl & _); [unfold INT_MAX; lia|].
  split; [done|]. exists [Ret (Strftime.Padded (tm_year r + 1900) 0 0)], x, l.
  split; [cbn -[Strftime.year_]; by rewrite (Strftime.year_defined r Hf)|].
  split; [cbn [Strftime.pieces_text mbind outcome_bind]; rewrite Ht; cbn; by rewrite app_nil_r|].
  split; [apply digit_nospace; by inversion Hd|]. intros rest vs Hfo.
  pose proof (strptime_num_back (x :: l) (tm_year r + 1900) INT_MIN INT_MAX 1 SIZE_MAX (-1900) rest) as Hn.
  change (Ret (after need (store (strptime_num ((x :: l) ++ rest) INT_MIN INT_MAX 1 SIZE_MAX (-1900)) (field set_year) vs))
    = Ret (Some rest, assign r (ch "Y") vs)). rewrite Hn; unfold INT_MIN, INT_MAX, SIZE_MAX, in_s in *; try done; try lia; [|cbn [length] in *; lia|by right].
  replace (tm_year r + 1900 + -1900) with (tm_year r) by lia. done.
Qed.

Lemma written_C : tm_year r + 1900 <= 9999 → written_back r nested (ch "C").
Proof.
  intros Hmax. fields. set (h := (tm_year r + 1900) / 100).
  assert (Hh : 10 <= h < 100) by (subst h; Z.to_euclidean_division_equations; lia).
  apply (num_written (ch "C") (Strftime.Padded h 2 32) 2 h 0 99 1 0 with_high); unfold in_s; [done| | |lia..|read_back|assigned].
  - cbn -[Strftime.year_ Z.quot]. rewrite (Strftime.year_defined r Hf). cbn -[Z.quot]. do 4 f_equal. subst h.
    by rewrite Z.quot_div_nonneg by lia.
  - cbn [Strftime.piece_text]. rewrite Strftime.convert_int_ok by (unfold in_s; lia). cbn [mbind outcome_bind]. do 2 f_equal.
    unfold Strftime.padding, Strftime.strftime_convert_intmax. rewrite (proj2 (Z.ltb_ge h 0)) by lia.
    destruct (Strftime.convert_uintmax_spec h) as (k & Hk & Hlt & _); [lia|]. rewrite Hk.
    destruct k as [|k]; [cbn in Hlt; lia|]. replace (Z.to_nat _) with O by lia.
    by replace (Z.to_nat _) with O by lia.
Qed.

(** A conversion that writes the name of index [k]. *)
Lemma names_written c names (k k' : Z) (F : vars → vars) :
  k' = k → plain c → 0 <= k < Z.of_nat (length names) →
  Strftime.conversion r c 0 (ch " ") = Some [Strftime.chars (index names k')] →
  Forall (λ name, isspace (hd 32 name) = false) names →
  (∀ name rest vs, names !! Z.to_nat k = Some name → follow c rest →
     strptime_directive nested c false 0 (name ++ rest) vs = Ret (Some rest, F vs)) →
  (∀ vs, F vs = assign r c vs) → written_back r nested c.
Proof.
  intros -> Hp Hk Hc Hs Hdir HF. destruct (lookup_lt_is_Some_2 names (Z.to_nat k) ltac:(lia)) as [name Hname].
  apply (name_written c name F); try done.
  - rewrite Hc. unfold index. rewrite Hname. by destruct (k <? 0) eqn:E; [lia|].
  - rewrite Forall_lookup in Hs. eauto.
  - intros rest vs. eauto.
Qed.

Lemma basic_names c : c ∈ lit "aAbhB" → conv_ok r c → written_back r nested c.
Proof.
  fields. rewrite !elem_of_cons, elem_of_nil. intros Hc [HB _].
  assert (Hwd : Z.rem (tm_wday r) 7 = tm_wday r) by (apply Z.rem_small; lia).
  assert (Hmn : Z.rem (tm_mon r) 12 = tm_mon r) by (apply Z.rem_small; lia).
  assert (Ew : Z.of_nat (Z.to_nat (tm_wday r)) = tm_wday r) by lia.
  assert (Em : Z.of_nat (Z.to_nat (tm_mon r)) = tm_mon r) by lia.
  destruct Hc as [->|[->|[->|[->|[->|[]]]]]].
  - apply (names_written (ch "a") Strftime.weekdays_abbreviated (tm_wday r) _ (field set_wday (tm_wday r)) Hwd); try done.
    + change (0 <= tm_wday r < 7). lia.
    + by repeat constructor.
    + intros name rest vs Hn Hfo. cbn -[strptime_str]. by rewrite (weekday_abbreviated_back _ _ _ Hn Hfo), Ew.
  - apply (names_written (ch "A") Strftime.weekdays (tm_wday r) _ (field set_wday (tm_wday r)) Hwd); try done.
    + change (0 <= tm_wday r < 7). lia.
    + by repeat constructor.
    + intros name rest vs Hn Hfo. cbn -[strptime_str]. by rewrite (weekday_back _ _ _ Hn), Ew.
  - apply (names_written (ch "b") Strftime.month_names_abbreviated (tm_mon r) _ (λ v, need (field set_mon (tm_mon r) v)) Hmn); try done.
    + by repeat constructor.
    + intros name rest vs Hn Hfo. cbn -[strptime_str]. by rewrite (month_abbreviated_back _ _ _ Hn Hfo), Em.
  - apply (names_written (ch "h") Strftime.month_names_abbreviated (tm_mon r) _ (λ v, need (field set_mon (tm_mon r) v)) Hmn); try done.
    + by repeat constructor.
    + intros name rest vs Hn Hfo. cbn -[strptime_str]. by rewrite (month_abbreviated_back _ _ _ Hn Hfo), Em.
  - apply (names_written (ch "B") Strftime.month_names (tm_mon r) _ (λ v, need (field set_mon (tm_mon r) v)) Hmn); try done.
    + by repeat constructor.
    + intros name rest vs Hn Hfo. cbn -[strptime_str]. assert (Hk : Z.to_nat (tm_mon r) ≠ 8%nat) by (specialize (HB eq_refl); lia).
      by rewrite (month_back _ _ _ Hk Hn), Em.
Qed.

Lemma basic_written c : c ∈ basic → conv_ok r c → written_back r nested c.
Proof.
  intros Hc Hok. assert (H : c ∈ lit "dHmMSjy" ∨ c ∈ lit "aAbhB" ∨ c ∈ lit "IpuwY%C").
  { revert Hc. unfold basic. rewrite !elem_of_cons, !elem_of_nil. tauto. }
  destruct H as [H|[H|H]]; [by apply basic_numbers|by apply basic_names|].
  rewrite !elem_of_cons, elem_of_nil in H. destruct H as [->|[->|[->|[->|[->|[->|[->|[]]]]]]]].
  - apply written_I.
  - apply written_p.
  - apply written_u.
  - apply written_w.
  - apply written_Y.
  - apply written_percent.
  - apply written_C. by apply Hok.
Qed.

End Back.

(** ** Compound conversions *)

Ltac member := by apply (bool_decide_unpack _); vm_compute.

Definition clock : list item := [Conv (ch "H"); Lit (ch ":"); Conv (ch "M")].
Definition clock_seconds : list item := clock ++ [Lit (ch ":"); Conv (ch "S")].

Definition compound_items (c : Z) : list item := if c =? ch "R" then clock else clock_seconds.

Lemma pieces_cons p q ps a b :
  p = Ret q → Strftime.piece_text q = Ret a → Strftime.pieces_text ps = Ret b → Strftime.pieces_text (p :: ps) = Ret (a ++ b).
Proof. intros -> Ha Hb. cbn [Strftime.pieces_text mbind outcome_bind]. rewrite Ha. cbn [mbind outcome_bind]. by rewrite Hb. Qed.

Section Compound.
Context (r : tm) (Hf : Strftime.tm_fields r) (Hy : 1970 <= tm_year r + 1900).

Lemma conv_text_two c v :
  Strftime.conversion r c 0 (ch " ") = Some [Strftime.two (Ret v)] → in_s 32 v →
  ∃ l, Strftime.piece_text (Strftime.Padded v 2 (ch "0")) = Ret l ∧ conv_text r c = l.
Proof.
  intros Hc Hv. unfold conv_text. rewrite Hc. cbn [Strftime.pieces_text Strftime.two Strftime.padded mbind outcome_bind Strftime.piece_text].
  rewrite (Strftime.convert_int_ok v Hv). cbn [mbind outcome_bind]. eexists. split; [done|]. by rewrite app_nil_r.
Qed.

Lemma compound_text c : c ∈ compound → ∃ ps, Strftime.conversion r c 0 (ch " ") = Some ps ∧
  Strftime.pieces_text ps = Ret (text_of r (compound_items c)).
Proof.
  destruct Hf as (?&?&?&?&?&_).
  destruct (conv_text_two (ch "H") (tm_hour r) eq_refl) as (h & Hh & Eh); [unfold in_s; lia|].
  destruct (conv_text_two (ch "M") (tm_min r) eq_refl) as (m & Hm & Em); [unfold in_s; lia|].
  destruct (conv_text_two (ch "S") (tm_sec r) eq_refl) as (s & Hs & Es); [unfold in_s; lia|].
  assert (E : ∀ c, text_of r (compound_items c) = h ++ lit ":" ++ m ++ (if c =? ch "R" then [] else lit ":" ++ s ++ [])).
  { intros c'. unfold compound_items. destruct (c' =? ch "R"); unfold clock_seconds, clock, text_of; cbn [map concat item_text app];
      by rewrite ?Eh, ?Em, ?Es, ?app_nil_r. }
  unfold compound. rewrite !elem_of_cons, elem_of_nil. intros Hc. rewrite E.
  destruct Hc as [->|[->|[->|[]]]]; eexists; (split; [reflexivity|]); cbn [Z.eqb Pos.eqb].
  - by apply (pieces_cons _ _ _ _ _ eq_refl Hh), (pieces_cons _ (Strftime.Chars (lit ":")) _ (lit ":") _ eq_refl eq_refl), (pieces_cons _ _ _ _ _ eq_refl Hm).
  - apply (pieces_cons _ _ _ _ _ eq_refl Hh), (pieces_cons _ (Strftime.Chars (lit ":")) _ (lit ":") _ eq_refl eq_refl), (pieces_cons _ _ _ _ _ eq_refl Hm),
      (pieces_cons _ (Strftime.Chars (lit ":")) _ (lit ":") _ eq_refl eq_refl), (pieces_cons _ _ _ _ _ eq_refl Hs). done.
  - apply (pieces_cons _ _ _ _ _ eq_refl Hh), (pieces_cons _ (Strftime.Chars (lit ":")) _ (lit ":") _ eq_refl eq_refl), (pieces_cons _ _ _ _ _ eq_refl Hm),
      (pieces_cons _ (Strftime.Chars (lit ":")) _ (lit ":") _ eq_refl eq_refl), (pieces_cons _ _ _ _ _ eq_refl Hs). done.
Qed.

(** The compound conversions are read by the calls that are nested. *)
Lemma compound_ok c rest : c ∈ compound → items_ok basic r (compound_items c) rest.
Proof.
  intros _. assert (H : ∀ d a, d ∈ lit "HMS" → item_ok basic r (Conv d) a).
  { intros d a Hd. unfold item_ok, follow, conv_ok, basic. rewrite !elem_of_cons, elem_of_nil in Hd.
    destruct Hd as [->|[->|[->|[]]]]; cbn; split_and!; try done; member. }
  unfold compound_items. destruct (c =? ch "R"); cbn -[item_ok]; split_and!; try done; apply H; member.
Qed.

Lemma compound_written c : c ∈ compound → written_back r (strptime_depth 1) c.
Proof.
  intros Hc. assert (Hp : (isspace c || isdigit c || (c =? ch "+") || (c =? ch "E") || (c =? ch "O")) = false)
    by (revert Hc; unfold compound; rewrite !elem_of_cons, elem_of_nil; by intros [->|[->|[->|[]]]]).
  split; [done|]. destruct (compound_text c Hc) as (ps & Hcv & Hps).
  destruct (conv_text_back basic r (strptime_depth 0) (basic_written r _ Hf Hy) (ch "H")) as (_ & x & t & _ & _ & Hx & Hsp);
    [member|done|].
  assert (Ht : ∃ tail, text_of r (compound_items c) = x :: tail).
  { unfold compound_items. destruct (c =? ch "R"); unfold clock_seconds, clock, text_of; cbn [map concat item_text app];
      rewrite Hx; by eexists. }
  destruct Ht as [tail Ht]. exists ps, x, tail. rewrite Hps, Ht. split_and!; try done.
  intros rest v _. change (x :: tail ++ rest) with ((x :: tail) ++ rest). rewrite <-Ht.
  assert (Hd : strptime_directive (strptime_depth 1) c false 0 (text_of r (compound_items c) ++ rest) v =
    nested_call (strptime_depth 1) (text_of r (compound_items c) ++ rest) (format_of (compound_items c)) v)
    by (revert Hc; unfold compound; rewrite !elem_of_cons, elem_of_nil; by intros [->|[->|[->|[]]]]).
  rewrite Hd. unfold nested_call. cbn [strptime_depth]. unfold strptime_body.
  rewrite (strptime_loop_items basic r (strptime_depth 0) (basic_written r _ Hf Hy) _ _ _ _ (compound_ok c rest Hc)) by lia.
  cbn [mbind outcome_bind].
  revert Hc; unfold compound; rewrite !elem_of_cons, elem_of_nil; by intros [->|[->|[->|[]]]].
Qed.

Lemma all_written c : c ∈ basic ++ compound → conv_ok r c → written_back r (strptime_depth 1) c.
Proof. rewrite elem_of_app. intros [Hc|Hc] Hok; [by apply basic_written|by apply compound_written]. Qed.

End Compound.

(** ** Formats that determine a time *)

#[export] Instance item_eq_dec : EqDecision item.
Proof. solve_decision. Defined.

Definition mentions (cs : list Z) (items : list item) : Prop := Exists (λ c, Conv c ∈ items) cs.
Definition avoids (cs : list Z) (items : list item) : Prop := Forall (λ c, Conv c ∉ items) cs.

Lemma avoids_elem cs items c : avoids cs items → c ∈ cs → Conv c ∉ items.
Proof. unfold avoids. rewrite Forall_forall. auto. Qed.

Lemma avoids_tail cs i items : avoids cs (i :: items) → avoids cs items.
Proof. unfold avoids. intros H. eapply Forall_impl; [exact H|]. intros c Hc Hin. apply Hc. by right. Qed.

Definition year_determined (r : tm) (items : list item) : Prop :=
  mentions (lit "Y") items ∧ avoids (lit "Cy") items ∨ mentions (lit "C") items ∧ mentions (lit "y") items ∨
  mentions (lit "y") items ∧ avoids (lit "C") items ∧ tm_year r + 1900 < 2070.

Definition hour_determined (items : list item) : Prop :=
  mentions (lit "HRTX") items ∧ avoids (lit "p") items ∧ avoids (lit "I") items ∨
  mentions (lit "I") items ∧ mentions (lit "p") items ∧ avoids (lit "HRTX") items.

Definition determined (r : tm) (items : list item) : Prop :=
  year_determined r items ∧ mentions (lit "mbhB") items ∧ mentions (lit "d") items ∧ hour_determined items ∧
  mentions (lit "MRTX") items ∧ mentions (lit "STX") items.

Section Fold.
Context (r : tm) (items : list item).
Context (Hitems : ∀ c, Conv c ∈ items → c ∈ basic ++ compound).

Abbreviation fold := (fold_left (assign_item r)).

Lemma fold_keeps {A} (f : vars → A) (cs : list Z) v0 :
  Forall (λ c, c ∈ cs ∨ ∀ v, f (assign r c v) = f v) (basic ++ compound) → avoids cs items → f (fold items v0) = f v0.
Proof.
  intros Hall Hav. rewrite Forall_forall in Hall. revert v0 Hitems Hav.
  induction items as [|i its IH]; intros v0 Hi Hav; [done|]. cbn [fold_left].
  rewrite IH; [|intros; apply Hi; by right|by apply avoids_tail in Hav].
  destruct i as [?| |c]; [done|done|]. cbn. destruct (Hall c) as [Hc|Hc]; [apply Hi; by left| |apply Hc].
  exfalso. apply (avoids_elem _ _ _ Hav Hc). by left.
Qed.

Lemma fold_sets {A} (f : vars → A) (cs bad : list Z) x v0 :
  Forall (λ c, c ∈ bad ∨ (∀ v, f (assign r c v) = x) ∨ ∀ v, f (assign r c v) = f v) (basic ++ compound) →
  Forall (λ c, ∀ v, f (assign r c v) = x) cs → mentions cs items → avoids bad items → f (fold items v0) = x.
Proof.
  intros Hall Hcs (c0 & Hc0 & Hin)%Exists_exists Hav. rewrite Forall_forall in Hall, Hcs. revert v0 Hitems Hin Hav.
  assert (Hstay : ∀ its v, (∀ c, Conv c ∈ its → c ∈ basic ++ compound) → avoids bad its → f v = x → f (fold its v) = x).
  { induction its as [|i its IH]; intros v Hi Hav Hv; [done|]. cbn [fold_left].
    apply IH; [intros; apply Hi; by right|by apply avoids_tail in Hav|].
    destruct i as [?| |c]; [done|done|]. cbn. destruct (Hall c) as [Hc|[Hc|Hc]]; [apply Hi; by left| |done|by rewrite Hc].
    exfalso. apply (avoids_elem _ _ _ Hav Hc). by left. }
  induction items as [|i its IH]; intros v0 Hi Hin Hav; [by apply not_elem_of_nil in Hin|]. cbn [fold_left].
  assert (Hav' : avoids bad its) by (by apply avoids_tail in Hav).
  apply elem_of_cons in Hin as [<-|Hin].
  - apply Hstay; [intros; apply Hi; by right|done|]. by apply Hcs.
  - apply IH; [intros; apply Hi; by right|done|done].
Qed.
End Fold.

(** [mktime] reads six fields. *)
Lemma mktime_fields t t' :
  tm_sec t = tm_sec t' → tm_min t = tm_min t' → tm_hour t = tm_hour t' → tm_mday t = tm_mday t' →
  tm_mon t = tm_mon t' → tm_year t = tm_year t' → mktime t = mktime t'.
Proof. intros E1 E2 E3 E4 E5 E6. unfold mktime, timegm. by rewrite E1, E2, E3, E4, E5, E6. Qed.

Ltac each_conv :=
  repeat (apply Forall_cons; split; [first [done | right; left; done | right; done | right; right; done | left; member]|]);
  by apply Forall_nil.

Lemma avoids_nil items : avoids [] items.
Proof. by apply Forall_nil. Qed.

Section Whole.
Context (r : tm) (items : list item) (t0 : tm) (Hf : Strftime.tm_fields r) (Hy : 1970 <= tm_year r + 1900).
Context (Hitems : ∀ c, Conv c ∈ items → c ∈ basic ++ compound) (Hdet : determined r items).

Definition final : vars := fold_left (assign_item r) items (Vars t0 false false (-1) (-1)).

Lemma final_fields :
  tm_sec (the_tm final) = tm_sec r ∧ tm_min (the_tm final) = tm_min r ∧ tm_mday (the_tm final) = tm_mday r ∧
  tm_mon (the_tm final) = tm_mon r ∧ need_mktime final = true ∧ tm_isdst (the_tm final) = tm_isdst t0.
Proof.
  destruct Hdet as (_ & Hmon & Hmday & _ & Hmin & Hsec). unfold final. split_and!.
  - apply (fold_sets r items Hitems (λ v, tm_sec (the_tm v)) (lit "STX") []); [each_conv|each_conv|done|apply avoids_nil].
  - apply (fold_sets r items Hitems (λ v, tm_min (the_tm v)) (lit "MRTX") []); [each_conv|each_conv|done|apply avoids_nil].
  - apply (fold_sets r items Hitems (λ v, tm_mday (the_tm v)) (lit "d") []); [each_conv|each_conv|done|apply avoids_nil].
  - apply (fold_sets r items Hitems (λ v, tm_mon (the_tm v)) (lit "mbhB") []); [each_conv|each_conv|done|apply avoids_nil].
  - apply (fold_sets r items Hitems need_mktime (lit "d") []); [each_conv|each_conv|done|apply avoids_nil].
  - apply (fold_keeps r items Hitems (λ v, tm_isdst (the_tm v)) []); [each_conv|apply avoids_nil].
Qed.

Lemma final_hour : (if pm final then tm_hour (the_tm final) + 12 else tm_hour (the_tm final)) = tm_hour r.
Proof.
  destruct Hf as (_&_&Hh&_). destruct Hdet as (_ & _ & _ & Hhour & _). unfold final. destruct Hhour as [(H1 & H2 & H3)|(H1 & H2 & H3)].
  - rewrite (fold_keeps r items Hitems pm (lit "p")); [|each_conv|done]. cbn [pm].
    apply (fold_sets r items Hitems (λ v, tm_hour (the_tm v)) (lit "HRTX") (lit "I")); [each_conv|each_conv|done|done].
  - rewrite (fold_sets r items Hitems pm (lit "p") [] (12 <=? tm_hour r)); [|each_conv|each_conv|done|apply avoids_nil].
    rewrite (fold_sets r items Hitems (λ v, tm_hour (the_tm v)) (lit "I") (lit "HRTX") (tm_hour r mod 12)); [|each_conv|each_conv|done|done].
    destruct (Z.leb_spec 12 (tm_hour r)); Z.to_euclidean_division_equations; lia.
Qed.

(** The year, put together from its two parts if there are any. *)
Lemma final_year t :
  ∃ b, (if negb (year_high final =? -1) || negb (year_low final =? -1) then
     (set_year ((if year_high final =? -1 then (if year_low final <? 70 then 20 else 19) else year_high final) * 100 +
                (if year_high final =? -1 then year_low final else if year_low final =? -1 then 0 else year_low final) - 1900) t, true)
     else (t, need_mktime final)) = (b, true) ∧
   (b = set_year (tm_year r) t ∨ b = t ∧ tm_year (the_tm final) = tm_year r).
Proof.
  destruct final_fields as (_ & _ & _ & _ & Hneed & _). destruct Hdet as (Hyear & _).
  pose proof (Z.div_mod (tm_year r + 1900) 100 ltac:(lia)). pose proof (Z.mod_pos_bound (tm_year r + 1900) 100 ltac:(lia)).
  assert (19 <= (tm_year r + 1900) / 100) by (apply Z.div_le_lower_bound; lia).
  assert (Hhigh : mentions (lit "C") items → year_high final = (tm_year r + 1900) / 100).
  { intros. apply (fold_sets r items Hitems year_high (lit "C") []); [each_conv|each_conv|done|apply avoids_nil]. }
  assert (Hlow : mentions (lit "y") items → year_low final = (tm_year r + 1900) mod 100).
  { intros. apply (fold_sets r items Hitems year_low (lit "y") []); [each_conv|each_conv|done|apply avoids_nil]. }
  destruct Hyear as [(I1 & I2)|[(I1 & I2)|(I1 & I2 & I3)]].
  - assert (year_high final = -1 ∧ year_low final = -1) as [-> ->].
    { split; [apply (fold_keeps r items Hitems year_high (lit "Cy"))|apply (fold_keeps r items Hitems year_low (lit "Cy"))];
        (each_conv || done). }
    exists t. rewrite Hneed. split; [done|]. right. split; [done|].
    apply (fold_sets r items Hitems (λ v, tm_year (the_tm v)) (lit "Y") []); [each_conv|each_conv|done|apply avoids_nil].
  - rewrite (Hhigh I1), (Hlow I2). rewrite !(proj2 (Z.eqb_neq _ (-1))) by lia. cbn [negb orb].
    eexists. split; [done|]. left. f_equal. lia.
  - rewrite (Hlow I1). replace (year_high final) with (-1)
      by (symmetry; apply (fold_keeps r items Hitems year_high (lit "C")); [each_conv|done]).
    rewrite (proj2 (Z.eqb_neq ((tm_year r + 1900) mod 100) (-1))) by lia. cbn [negb orb Z.eqb Pos.eqb].
    eexists. split; [done|]. left. f_equal. destruct (Z.ltb_spec ((tm_year r + 1900) mod 100) 70); lia.
Qed.

Lemma finish_final time : mktime r = Ret (time, r) → strptime_finish final = Ret (set_isdst (tm_isdst t0) r).
Proof.
  intros Hm. pose proof final_fields as (E1 & E2 & E3 & E4 & _ & E6). pose proof final_hour as Eh.
  pose proof Hf as (_&_&Hh&_). unfold strptime_finish.
  set (t1 := if pm final then set_hour (tm_hour (the_tm final) + 12) (the_tm final) else the_tm final).
  assert (E1' : (if pm final then h ← checked 32 (tm_hour (the_tm final) + 12); Ret (set_hour h (the_tm final)) else Ret (the_tm final)) = Ret t1).
  { unfold t1. destruct (pm final); [|done]. rewrite checked_ok by (unfold in_s; lia). done. }
  rewrite E1'. cbn [mbind outcome_bind]. destruct (final_year t1) as (b & -> & Hb).
  assert (Hfields : tm_sec b = tm_sec r ∧ tm_min b = tm_min r ∧ tm_hour b = tm_hour r ∧ tm_mday b = tm_mday r ∧
    tm_mon b = tm_mon r ∧ tm_year b = tm_year r ∧ tm_isdst b = tm_isdst t0).
  { assert (Hyr : tm_year t1 = tm_year (the_tm final)) by (unfold t1; by destruct (pm final)).
    assert (Ht1 : tm_sec t1 = tm_sec r ∧ tm_min t1 = tm_min r ∧ tm_hour t1 = tm_hour r ∧ tm_mday t1 = tm_mday r ∧
      tm_mon t1 = tm_mon r ∧ tm_isdst t1 = tm_isdst t0) by (unfold t1; destruct (pm final); by split_and!).
    destruct Hb as [->|[-> Hyf]]; destruct Ht1 as (?&?&?&?&?&?); split_and!; try done. congruence. }
  destruct Hfields as (F1 & F2 & F3 & F4 & F5 & F6 & F7).
  rewrite (mktime_fields b r) by done. rewrite Hm. cbn [mbind outcome_bind]. unfold set_yday, set_wday, set_isdst. cbn.
  by rewrite F1, F2, F3, F4, F5, F6, F7.
Qed.

End Whole.

Lemma items_ok_convs convs r items rest c : items_ok convs r items rest → Conv c ∈ items → c ∈ convs.
Proof.
  induction items as [|i items IH]; intros Hok Hin; [by apply not_elem_of_nil in Hin|]. destruct Hok as [Hi Hok].
  apply elem_of_cons in Hin as [<-|Hin]; [by destruct Hi|by apply IH].
Qed.

(** C32.  What [strftime] writes of a time between the epoch and [time_bound] is read
    back by [strptime] with the same format, for the formats made of blanks,
    literal characters and the conversions
    [%a %A %b %B %h %C %d %H %I %j %m %M %p %S %u %w %y %Y %% %R %T %X], where
    it is clear where each text ends ([follow]) and year, month, day, hour,
    minute and second are determined ([determined]); [%B] in September, which is
    misspelt, and [%C] of a year of more than four digits are excluded.  The
    whole text is consumed and the [struct tm] is the one [gmtime_r] computed,
    the day of the week and of the year included, whatever it held before (but
    for [tm_isdst], which is left alone).  Nothing is said of [%c %D %e %F %g %G
    %n %r %s %t %U %V %W %x %z %Z], of flags, widths and the modifiers [E] and
    [O]. *)
Theorem strptime_strftime time r items rest t0 buf max :
  0 <= time <= time_bound → gmtime_r time = Ret r →
  items_ok (basic ++ compound) r items rest → determined r items →
  (length (text_of r items) < max ≤ length buf)%nat →
  Strftime.strftime buf (Z.of_nat max) (format_of items) r = Ret (Z.of_nat (length (text_of r items)),
    text_of r items ++ 0 :: drop (S (length (text_of r items))) buf) ∧
  strptime (text_of r items ++ rest) (format_of items) t0 = Ret (Some rest, set_isdst (tm_isdst t0) r).
Proof.
  intros Htime Hg Hok Hdet Hmax. destruct (timegm_inverse time Htime) as (r' & Hr & Hn & Hy & Hm).
  rewrite Hg in Hr. injection Hr as <-. 
  assert (Hf : Strftime.tm_fields r) by (apply Strftime.tm_normal_fields; [done|unfold in_s; lia]).
  pose proof (all_written r Hf ltac:(lia)) as Hback. split.
  - rewrite (Strftime.strftime_stores buf max r _ (text_of r items)); [|lia|].
    + unfold Strftime.stored. by rewrite decide_True by lia.
    + apply (expansion_items _ r _ Hback _ rest _ Hok). lia.
  - unfold strptime. cbn [strptime_depth]. unfold strptime_body.
    rewrite (strptime_loop_items _ r _ Hback items rest _ _ Hok) by lia. cbn [mbind outcome_bind].
    pose proof (finish_final r items t0 Hf ltac:(lia) (λ c, items_ok_convs _ _ _ _ c Hok) Hdet time Hm) as Hfin.
    unfold final in Hfin. by rewrite Hfin.
Qed.

Definition sample_items : list item :=
  [Conv (ch "a"); Lit (ch ","); Blank; Conv (ch "d"); Blank; Conv (ch "b"); Blank; Conv (ch "Y"); Blank; Conv (ch "I"); Lit (ch ":");
   Conv (ch "M"); Lit (ch ":"); Conv (ch "S"); Conv (ch "p")].

Lemma strptime_strftime_witness :
  Strftime.strftime (replicate 40 7) 40 (lit "%a, %d %b %Y %I:%M:%S%p") (Tm 20 13 22 14 10 123 2 317 (-1)) =
    Ret (27, lit "Tue, 14 Nov 2023 10:13:20PM" ++ 0 :: replicate 12 7) ∧
  strptime (lit "Tue, 14 Nov 2023 10:13:20PM UTC") (lit "%a, %d %b %Y %I:%M:%S%p") zero =
    Ret (Some (lit " UTC"), Tm 20 13 22 14 10 123 2 317 0).
Proof.
  apply (strptime_strftime 1700000027 (Tm 20 13 22 14 10 123 2 317 (-1)) sample_items (lit " UTC") zero (replicate 40 7) 40).
  - unfold time_bound. lia.
  - vm_compute. reflexivity.
  - cbn [items_ok sample_items item_ok]. split_and!; try member; try done; unfold conv_ok; split_and!; done.
  - unfold determined, year_determined, hour_determined, mentions, avoids. member.
  - vm_compute. lia.
Defined.
End Strptime.
