(* ===== verification/Fat.v ===== *)
(** * FAT filesystems

    [libmount/fat.c] and the structure of [include/mount/fat.h]: whether a device
    holds a FAT filesystem, of which kind, and the entries of its table. *)

From S2P Require Import Prelude Blockdev Partition Uuid.
From stdpp Require Import base decidable list numbers strings.
From Stdlib Require Import ZArith Lia Ascii.

#[local] Open Scope c_scope.
#[local] Open Scope Z_scope.

Module Fat.
Import Blockdev Partition.

(** ** The boot sector *)

Record fat_bpb := {
  jump : list Z;
  bytes_per_sector_low : Z; bytes_per_sector_high : Z;
  sectors_per_cluster : Z;
  reserved_sectors : Z;
  fat_count : Z;
  root_dirent_count_low : Z; root_dirent_count_high : Z;
  total_sectors_low : Z; total_sectors_high : Z;
  sectors_per_fat : Z;
  total_sectors_large : Z;
  fat12_volume_id : list Z; fat12_volume_label : list Z;
  fat32_sectors_per_fat : Z; fat32_version : Z; fat32_root_cluster : Z; fat32_fsinfo : Z;
  fat32_volume_id : list Z; fat32_volume_label : list Z;
  boot_signature : list Z;
}.

Definition sizeof_fat_bpb : nat := 512.

Definition load_fat_bpb (l : list Z) : fat_bpb := {|
  jump := slice 0 3 l;
  bytes_per_sector_low := load 11 1 l; bytes_per_sector_high := load 12 1 l;
  sectors_per_cluster := load 13 1 l;
  reserved_sectors := load 14 2 l;
  fat_count := load 16 1 l;
  root_dirent_count_low := load 17 1 l; root_dirent_count_high := load 18 1 l;
  total_sectors_low := load 19 1 l; total_sectors_high := load 20 1 l;
  sectors_per_fat := load 22 2 l;
  total_sectors_large := load 32 4 l;
  fat12_volume_id := slice 39 4 l; fat12_volume_label := slice 43 11 l;
  fat32_sectors_per_fat := load 36 4 l; fat32_version := load 42 2 l; fat32_root_cluster := load 44 4 l;
  fat32_fsinfo := load 48 2 l;
  fat32_volume_id := slice 67 4 l; fat32_volume_label := slice 71 11 l;
  boot_signature := slice 510 2 l;
|}.

Record fat_private := FatPrivate { fat_type : Z; bytes_per_sector : Z; fat_lba : Z }.

Definition fat_probe_amount : Z := Z.of_nat sizeof_fat_bpb.

(** ** Reading the table *)

Section Read.
Context {U : Type} (pread : Z → Z → M U (errno + list Z)) (bdev : blockdevice) (priv : fat_private).

Definition fat_read_block (block_id : Z) : M (world U) (option (list Z)) :=
  let offset := u64 (bytes_per_sector priv * block_id) in
  data ← blockdevice_preadall pread bdev (bytes_per_sector priv) (s64 offset);
  mret (if Z.of_nat (length data) =? bytes_per_sector priv then Some data else None).

(** The two bytes of an entry of twelve bits, which may lie in two sectors. *)
Definition fat_read_12 (cluster : Z) : M (world U) (option Z) :=
  let position := u32 (cluster + cluster / 2) in
  let lba := position / bytes_per_sector priv in
  let offset := position mod bytes_per_sector priv in
  data ← fat_read_block (u64 (fat_lba priv + lba));
  match data with
  | None => mret None
  | Some data =>
      lower ← M_lift (Uuid.read data (Z.to_nat offset));
      let offset := u32 (offset + 1) in
      next ← (if offset =? bytes_per_sector priv
              then data ← fat_read_block (u64 (fat_lba priv + u32 (lba + 1))); mret (0, data)
              else mret (offset, Some data));
      match next with
      | (_, None) => mret None
      | (offset, Some data) =>
          higher ← M_lift (Uuid.read data (Z.to_nat offset));
          let value := u16 (Z.lor lower (Z.shiftl higher 8)) in
          mret (Some (if negb (Z.land cluster 1 =? 0) then Z.shiftr value 4 else Z.land value 0xFFF))
      end
  end.

Definition fat_read (cluster : Z) : M (world U) (option Z) :=
  if fat_type priv =? 12 then fat_read_12 cluster
  else
    let fat_size := fat_type priv / 8 in
    let position := u32 (cluster * fat_size) in
    let lba := position / bytes_per_sector priv in
    let entry := (position mod bytes_per_sector priv) / fat_size in
    data ← fat_read_block (u64 (fat_lba priv + lba));
    match data with
    | None => mret None
    | Some data =>
        if fat_type priv =? 16 then
          M_lift (guard_def (2 * entry + 2 <=? Z.of_nat (length data)));;
          mret (Some (le16toh (load (Z.to_nat (2 * entry)) 2 data)))
        else if fat_type priv =? 32 then
          M_lift (guard_def (4 * entry + 4 <=? Z.of_nat (length data)));;
          mret (Some (Z.land (le32toh (load (Z.to_nat (4 * entry)) 4 data)) 0x0FFFFFFF))
        else mret (Some 0)
    end.

Definition fat_needs_fsck : M (world U) bool :=
  entry ← fat_read 1;
  match entry with
  | None => mret true
  | Some entry =>
      let missing mask := negb (Z.land (u32 (Z.lnot entry)) mask =? 0) in
      if fat_type priv =? 12 then mret (missing 0xC00)
      else if fat_type priv =? 16 then mret (missing 0xC000)
      else if fat_type priv =? 32 then mret (missing 0xC000000)
      else M_undef
  end.

End Read.

(** ** Recognising a filesystem *)

Definition le16 (low high : Z) : Z := Z.lor low (Z.shiftl high 8).

Definition fat_determine (size : Z) (bpb : fat_bpb) : option fat_private :=
  if negb (bool_decide (boot_signature bpb = [0x55; 0xAA])) then None
  else if negb ((nth 0 (jump bpb) 0 =? 0xEB) && (nth 2 (jump bpb) 0 =? 0x90)) && negb (nth 0 (jump bpb) 0 =? 0xE9) then None
  else
    let bytes_per_sector := le16 (bytes_per_sector_low bpb) (bytes_per_sector_high bpb) in
    if (bytes_per_sector <? 512) || negb (Z.land bytes_per_sector (bytes_per_sector - 1) =? 0) || (4096 <? bytes_per_sector)
    then None
    else
      let root_dirent_count := le16 (root_dirent_count_low bpb) (root_dirent_count_high bpb) in
      let root_dir_size := root_dirent_count * 32 in
      let root_dir_sectors := u32 (root_dir_size + bytes_per_sector - 1) / bytes_per_sector in
      if negb ((root_dirent_count * 32) mod bytes_per_sector =? 0) then None
      else
        let spf := if negb (le16toh (sectors_per_fat bpb) =? 0) then le16toh (sectors_per_fat bpb)
                   else le32toh (fat32_sectors_per_fat bpb) in
        if spf =? 0 then None
        else
          let total_sectors := le16 (total_sectors_low bpb) (total_sectors_high bpb) in
          let total_sectors := if total_sectors =? 0 then le32toh (total_sectors_large bpb) else total_sectors in
          if total_sectors =? 0 then None
          else if Z.quot size bytes_per_sector <? total_sectors then None
          else if fat_count bpb <? 1 then None
          else
            let lba := le16toh (reserved_sectors bpb) in
            if lba =? 0 then None
            else
              let fat_sectors := fat_count bpb * spf in
              if UINT32_MAX <? fat_sectors then None
              else
                let data_offset := u32 (le16toh (reserved_sectors bpb) + fat_sectors + root_dir_sectors) in
                if total_sectors <? data_offset then None
                else
                  let data_sectors := total_sectors - data_offset in
                  if (sectors_per_cluster bpb =? 0)
                     || negb (Z.land (sectors_per_cluster bpb) (sectors_per_cluster bpb - 1) =? 0) then None
                  else
                    let cluster_count := data_sectors / sectors_per_cluster bpb in
                    if (cluster_count <? 1) || (0xFFFFFF7 - 2 <=? cluster_count) then None
                    else
                      let fat_type := if cluster_count <? 4085 then 12 else if cluster_count <? 65525 then 16 else 32 in
                      let fat_cluster_count := u64 (spf * bytes_per_sector * 8) / fat_type in
                      if fat_cluster_count <? 2 + cluster_count then None
                      else if (root_dirent_count <? 1) && (fat_type <? 32) then None
                      else if (fat_type =? 32) && negb (le16toh (fat32_version bpb) =? 0) then None
                      else if (fat_type =? 32)
                              && ((le32toh (fat32_root_cluster bpb) <? 2)
                                  || (2 + cluster_count <? le32toh (fat32_root_cluster bpb)))
                              && ((fat_type =? 32)
                                  && ((le16toh (fat32_fsinfo bpb) <? 1)
                                      || (le16toh (reserved_sectors bpb) <=? le16toh (fat32_fsinfo bpb)))) then None
                      else Some (FatPrivate fat_type bytes_per_sector lba).

(** ** The table as a string of bits *)

Abbreviation bytes l := (Forall (λ b, 0 <= b < 256) l).

(** Entry [n] of a table with entries of [type] bits, of which those of 32 bits use
    28. *)
Definition entry_mask (type : Z) : Z := if type =? 32 then Z.ones 28 else Z.ones type.
Definition table_entry (type : Z) (table : list Z) (n : Z) : Z :=
  Z.land (Z.shiftr (le_value table) (type * n)) (entry_mask type).

Lemma le_value_nonneg l : bytes l → 0 <= le_value l.
Proof. induction 1 as [|b l Hb _ IH]; cbn; lia. Qed.

Lemma le_value_shift l k : bytes l → Z.shiftr (le_value l) (8 * Z.of_nat k) = le_value (drop k l).
Proof.
  intros Hl. revert l Hl. induction k as [|k IH]; intros l Hl; [apply Z.shiftr_0_r|].
  destruct Hl as [|b l Hb Hl]; [apply Z.shiftr_0_l|]. rewrite Nat2Z.inj_succ.
  replace (8 * Z.succ (Z.of_nat k)) with (8 + 8 * Z.of_nat k) by lia. rewrite <-Z.shiftr_shiftr by lia.
  replace (Z.shiftr (le_value (b :: l)) 8) with (le_value l); [by apply IH|].
  cbn [le_value]. rewrite Z.shiftr_div_pow2 by lia. change (2 ^ 8) with 256.
  apply Z.div_unique with b; lia.
Qed.

Lemma le_value_mod l k : bytes l → le_value l mod 2 ^ (8 * Z.of_nat k) = le_value (take k l).
Proof.
  intros Hl. revert l Hl. induction k as [|k IH]; intros l Hl; [apply Z.mod_1_r|].
  destruct Hl as [|b l Hb Hl]; [apply Z.mod_0_l; lia|]. cbn [take le_value]. rewrite <-IH by done.
  replace (8 * Z.of_nat (S k)) with (8 + 8 * Z.of_nat k) by lia. rewrite Z.pow_add_r by lia. change (2 ^ 8) with 256.
  set (m := 2 ^ (8 * Z.of_nat k)). assert (0 < m) by (apply Z.pow_pos_nonneg; lia).
  pose proof (Z.div_mod (le_value l) m ltac:(lia)). pose proof (Z.mod_pos_bound (le_value l) m ltac:(lia)).
  symmetry. apply Z.mod_unique with (le_value l / m); [left; nia|]. nia.
Qed.

(** Bits of the table that lie in the [m] bytes from [k] on. *)
Lemma table_bits table k m s n :
  bytes table → 0 <= s → 0 <= n → s + n <= 8 * Z.of_nat m →
  Z.land (Z.shiftr (le_value table) (8 * Z.of_nat k + s)) (Z.ones n) =
  Z.land (Z.shiftr (load k m table) s) (Z.ones n).
Proof.
  intros Ht Hs Hn Hsn. rewrite <-Z.shiftr_shiftr, le_value_shift by (done || lia).
  unfold load, slice. rewrite <-le_value_mod by by apply Forall_drop.
  apply Z.bits_inj'. intros i Hi. rewrite !Z.land_spec, !Z.shiftr_spec by done.
  destruct (Z.ltb_spec i n) as [Hin|Hin].
  - by rewrite Z.mod_pow2_bits_low by lia.
  - by rewrite Z.ones_spec_high, !andb_false_r by lia.
Qed.

Lemma load_width k m l : bytes l → 0 <= load k m l < 2 ^ (8 * Z.of_nat m).
Proof.
  intros Hl. unfold load, slice. rewrite <-le_value_mod by by apply Forall_drop.
  apply Z.mod_pos_bound, Z.pow_pos_nonneg; lia.
Qed.

Lemma load_slice o k a n l : (o + k ≤ n)%nat → load o k (slice a n l) = load (a + o) k l.
Proof. intros H. unfold load, slice. rewrite skipn_firstn_comm, take_take, drop_drop. do 2 f_equal; lia. Qed.

Lemma load_drop o k a l : load o k (drop a l) = load (a + o) k l.
Proof. unfold load, slice. by rewrite drop_drop. Qed.

Lemma lookup_slice o a n (l : list Z) : (o < n)%nat → slice a n l !! o = l !! (a + o)%nat.
Proof. intros H. unfold slice. by rewrite lookup_take_lt, lookup_drop by done. Qed.

(** Two bytes put together. *)
Lemma load_two l k x y : bytes l → l !! k = Some x → l !! S k = Some y → u16 (Z.lor x (Z.shiftl y 8)) = load k 2 l.
Proof.
  intros Hl Hx Hy. pose proof (Forall_lookup_1 _ _ _ _ Hl Hx). pose proof (Forall_lookup_1 _ _ _ _ Hl Hy). cbn beta in *.
  rewrite shiftl_mul, Z.lor_comm, lor_disjoint by lia. change (2 ^ 8) with 256.
  rewrite wrapu_id by (unfold in_u; lia). unfold load, slice.
  rewrite (drop_S l x k Hx), (drop_S l y (S k) Hy). cbn [take le_value]. rewrite take_0. cbn [le_value]. lia.
Qed.

(** ** Reading on a disk that works *)

Section Works.
Context {U : Type} (pread : Z → Z → M U (errno + list Z)) (good : world U → Prop) (bdev : blockdevice) (d : list Z).
Context `{!Environment pread good false bdev (reads_exactly d)}.
Context (Hbytes : bytes d) (Hsize : Z.of_nat (length d) < 2 ^ 63).
Context (priv : fat_private).

Abbreviation bps := (bytes_per_sector priv).
Abbreviation lba0 := (fat_lba priv).

(** The table from its first sector on. *)
Definition table : list Z := drop (Z.to_nat (lba0 * bps)) d.

Definition priv_ok : Prop :=
  (fat_type priv = 12 ∨ fat_type priv = 16 ∨ fat_type priv = 32) ∧ 512 <= bps <= 4096 ∧ (4 | bps) ∧ 0 <= lba0 < 2 ^ 16.

Context (Hpriv : priv_ok).

Lemma read_block_ok id w :
  good w → 0 <= id → (id + 1) * bps <= Z.of_nat (length d) →
  ∃ w', fat_read_block pread bdev priv id w = Ret (Some (slice (Z.to_nat (id * bps)) (Z.to_nat bps) d), w') ∧ good w'.
Proof.
  destruct Hpriv as (_ & Hb & _ & Hl). intros Hw Hid Hend. unfold fat_read_block.
  assert (0 <= bps * id ∧ bps * id + bps <= Z.of_nat (length d)) as [H0 H1] by nia.
  rewrite off_id by lia. destruct (env_read bps (bps * id) w Hw) as (l & w' & E & Hw' & Hl'); [lia..|].
  rewrite (M_bind_ret _ _ _ _ _ E). exists w'. split; [|done]. unfold reads_exactly in Hl'. subst l.
  rewrite length_take, length_drop. rewrite (proj2 (Z.eqb_eq _ _)) by lia. cbn. unfold slice. by rewrite (Z.mul_comm id).
Qed.

(** The byte at a position of the table is in the sector that is read. *)
Lemma position_split pos : 0 <= pos → (lba0 + pos / bps) * bps + pos mod bps = lba0 * bps + pos ∧ 0 <= pos mod bps < bps ∧ 0 <= pos / bps.
Proof.
  destruct Hpriv as (_ & Hb & _). intros Hp. pose proof (Z.div_mod pos bps ltac:(lia)). pose proof (Z.mod_pos_bound pos bps ltac:(lia)).
  pose proof (Z.div_pos pos bps Hp ltac:(lia)). nia.
Qed.

Lemma sector_end pos sectors :
  0 <= pos → pos < sectors * bps → (lba0 + sectors) * bps <= Z.of_nat (length d) →
  (lba0 + pos / bps + 1) * bps <= Z.of_nat (length d).
Proof.
  destruct Hpriv as (_ & Hb & _). intros Hp Hs Hd.
  assert (pos / bps < sectors) by (apply Z.div_lt_upper_bound; nia). nia.
Qed.

(** Entries of 16 and 32 bits. *)
Lemma wide_entry n sectors k w :
  good w → 0 <= n < 2 ^ 28 → (k = 2 ∨ k = 4)%nat → (Z.of_nat k * n + Z.of_nat k) <= sectors * bps →
  (lba0 + sectors) * bps <= Z.of_nat (length d) →
  let position := u32 (n * Z.of_nat k) in
  ∃ data w', fat_read_block pread bdev priv (u64 (lba0 + position / bps)) w = Ret (Some data, w') ∧ good w' ∧
    let entry := (position mod bps) / Z.of_nat k in
    Z.of_nat k * entry + Z.of_nat k <= Z.of_nat (length data) ∧
    load (Z.to_nat (Z.of_nat k * entry)) k data = load (Z.to_nat (Z.of_nat k * n)) k table.
Proof.
  intros Hw Hn Hk Hs Hd. pose proof Hpriv as (_ & Hb & [q Hq] & Hl). cbn zeta.
  assert (Hk' : Z.of_nat k = 2 ∨ Z.of_nat k = 4) by lia.
  assert (Hpos : 0 <= n * Z.of_nat k < 2 ^ 32) by (destruct Hk' as [->| ->]; lia).
  rewrite (wrapu_id 32 _ Hpos). set (pos := n * Z.of_nat k) in *. assert (Hp : 0 <= pos) by lia.
  destruct (position_split pos Hp) as (Hsplit & Hmod & Hdiv).
  assert (Hend : (lba0 + pos / bps + 1) * bps <= Z.of_nat (length d)) by (apply (sector_end pos sectors); [done|unfold pos; lia|done]).
  rewrite wrapu_id by (unfold in_u; nia).
  destruct (read_block_ok (lba0 + pos / bps) w Hw ltac:(lia) Hend) as (w' & E & Hw').
  assert (Hent : Z.of_nat k * ((pos mod bps) / Z.of_nat k) = pos mod bps ∧ pos mod bps + Z.of_nat k <= bps).
  { assert (Hm : ∃ j, pos mod bps = Z.of_nat k * j).
    { rewrite Z.mod_eq by lia. unfold pos. destruct Hk as [->| ->].
      - exists (n - 2 * q * (n * Z.of_nat 2 / bps)). rewrite Hq. lia.
      - exists (n - q * (n * Z.of_nat 4 / bps)). rewrite Hq. lia. }
    destruct Hm as [j Hj]. rewrite Hj. rewrite (Z.mul_comm (Z.of_nat k) j), Z.div_mul by lia. split; [lia|].
    destruct Hk as [->| ->]; lia. }
  eexists _, w'. split; [exact E|]. split; [done|]. destruct Hent as [E1 E2]. rewrite E1. split.
  - unfold slice. rewrite length_take, length_drop. lia.
  - rewrite load_slice by lia. unfold table. rewrite load_drop. f_equal. unfold pos in *. lia.
Qed.
Lemma byte_read pos (a n : nat) :
  0 <= pos → (Z.to_nat pos < n)%nat → (a + Z.to_nat pos < length d)%nat →
  ∃ x, d !! (a + Z.to_nat pos)%nat = Some x ∧
    ∀ w : world U, M_lift (Uuid.read (slice a n d) (Z.to_nat pos)) w = Ret (x, w).
Proof.
  intros Hp Hn Hd. destruct (lookup_lt_is_Some_2 d (a + Z.to_nat pos) Hd) as [x Hx]. exists x. split; [done|].
  intros w. unfold M_lift, Uuid.read. by rewrite lookup_slice, Hx.
Qed.

(** The two bytes of an entry of 12 bits. *)
Lemma narrow_entry n sectors w :
  good w → 0 <= n < 2 ^ 28 → n + n / 2 + 2 <= sectors * bps → (lba0 + sectors) * bps <= Z.of_nat (length d) →
  ∃ w', fat_read_12 pread bdev priv n w =
    Ret (Some (let value := load (Z.to_nat (n + n / 2)) 2 table in
               if negb (Z.land n 1 =? 0) then Z.shiftr value 4 else Z.land value 0xFFF), w') ∧ good w'.
Proof.
  intros Hw Hn Hs Hd. pose proof Hpriv as (_ & Hb & _ & Hl). unfold fat_read_12.
  assert (Hpos : 0 <= n + n / 2 < 2 ^ 32) by (Z.to_euclidean_division_equations; lia).
  rewrite (wrapu_id 32 _ Hpos). set (pos := n + n / 2) in *.
  destruct (position_split pos ltac:(lia)) as (Hsplit & Hmod & Hdiv).
  pose proof (sector_end pos sectors ltac:(lia) ltac:(lia) Hd) as Hend.
  assert (Hlba : (lba0 + pos / bps + 1) * bps < 2 ^ 63) by lia.
  rewrite (wrapu_id 64 (lba0 + pos / bps)) by (unfold in_u; nia).
  destruct (read_block_ok (lba0 + pos / bps) w Hw ltac:(lia) Hend) as (w1 & E1 & Hw1).
  rewrite (M_bind_ret _ _ _ _ _ E1).
  destruct (byte_read (pos mod bps) (Z.to_nat ((lba0 + pos / bps) * bps)) (Z.to_nat bps)) as (x & Hx & Rx); [lia|lia|lia|].
  rewrite (M_bind_ret _ _ _ _ _ (Rx w1)). rewrite (wrapu_id 32 (pos mod bps + 1)) by (unfold in_u; lia).
  assert (Hx' : d !! Z.to_nat (lba0 * bps + pos) = Some x) by (rewrite <-Hx; f_equal; lia).
  assert (Hfin : ∀ y, d !! Z.to_nat (lba0 * bps + pos + 1) = Some y → u16 (Z.lor x (Z.shiftl y 8)) = load (Z.to_nat pos) 2 table).
  { intros y Hy. unfold table. rewrite load_drop.
    replace (Z.to_nat (lba0 * bps) + Z.to_nat pos)%nat with (Z.to_nat (lba0 * bps + pos)) by lia.
    apply load_two; [done|done|]. rewrite <-Hy. f_equal. lia. }
  destruct (Z.eqb_spec (pos mod bps + 1) bps) as [Elast|Elast].
  - assert (Hsplit' : (lba0 + pos / bps + 1) * bps = lba0 * bps + (pos + 1)) by lia.
    assert (Hend' : (lba0 + (pos / bps + 1) + 1) * bps <= Z.of_nat (length d)).
    { assert (pos / bps + 1 < sectors) by nia. nia. }
    rewrite (wrapu_id 32 (pos / bps + 1)) by (unfold in_u; nia).
    rewrite (wrapu_id 64 (lba0 + (pos / bps + 1))) by (unfold in_u; nia).
    destruct (read_block_ok (lba0 + (pos / bps + 1)) w1 Hw1 ltac:(lia) Hend') as (w2 & E2 & Hw2).
    rewrite (M_bind_ret _ _ w1 (0, Some (slice (Z.to_nat ((lba0 + (pos / bps + 1)) * bps)) (Z.to_nat bps) d)) w2)
      by (rewrite (M_bind_ret _ _ _ _ _ E2); done).
    destruct (byte_read 0 (Z.to_nat ((lba0 + (pos / bps + 1)) * bps)) (Z.to_nat bps)) as (y & Hy & Ry); [lia|lia|lia|].
    rewrite (M_bind_ret _ _ _ _ _ (Ry w2)). exists w2. split; [|done].
    rewrite (Hfin y) by (rewrite <-Hy; f_equal; lia). done.
  - rewrite (M_bind_ret _ _ w1 (pos mod bps + 1, Some (slice (Z.to_nat ((lba0 + pos / bps) * bps)) (Z.to_nat bps) d)) w1) by done.
    destruct (byte_read (pos mod bps + 1) (Z.to_nat ((lba0 + pos / bps) * bps)) (Z.to_nat bps)) as (y & Hy & Ry); [lia|lia|lia|].
    rewrite (M_bind_ret _ _ _ _ _ (Ry w1)). exists w1. split; [|done].
    rewrite (Hfin y) by (rewrite <-Hy; f_equal; lia). done.
Qed.
Lemma table_bytes : bytes table.
Proof. by apply Forall_drop. Qed.

Lemma land_ones_small x n : 0 <= n → 0 <= x < 2 ^ n → Z.land x (Z.ones n) = x.
Proof. intros Hn Hx. rewrite Z.land_ones by done. by apply Z.mod_small. Qed.

Lemma entry_12 n : 0 <= n →
  table_entry 12 table n = let value := load (Z.to_nat (n + n / 2)) 2 table in
    if negb (Z.land n 1 =? 0) then Z.shiftr value 4 else Z.land value 0xFFF.
Proof.
  intros Hn. unfold table_entry, entry_mask. cbn [Z.eqb Pos.eqb]. cbn zeta. set (k := Z.to_nat (n + n / 2)).
  pose proof (load_width k 2 table table_bytes) as Hr. change (2 ^ (8 * Z.of_nat 2)) with 65536 in Hr.
  replace (Z.land n 1) with (n mod 2) by (symmetry; apply (Z.land_ones n 1); lia).
  pose proof (Z.div_mod n 2 ltac:(lia)). pose proof (Z.mod_pos_bound n 2 ltac:(lia)).
  destruct (Z.eqb_spec (n mod 2) 0) as [E|E]; cbn [negb].
  - replace (12 * n) with (8 * Z.of_nat k + 0) by (unfold k; lia).
    rewrite (table_bits table k 2) by (apply table_bytes || lia). by rewrite Z.shiftr_0_r.
  - replace (12 * n) with (8 * Z.of_nat k + 4) by (unfold k; lia).
    rewrite (table_bits table k 2) by (apply table_bytes || lia). apply land_ones_small; [lia|].
    rewrite Z.shiftr_div_pow2 by lia. change (2 ^ 4) with 16. change (2 ^ 12) with 4096.
    split; [apply Z.div_pos; lia|apply Z.div_lt_upper_bound; lia].
Qed.

Lemma entry_wide type k n : (type = 16 ∧ k = 2 ∨ type = 32 ∧ k = 4)%nat → 0 <= n →
  table_entry (Z.of_nat type) table n = Z.land (load (Z.to_nat (Z.of_nat k * n)) k table) (entry_mask (Z.of_nat type)).
Proof.
  intros Hk Hn. unfold table_entry. replace (Z.of_nat type * n) with (8 * Z.of_nat (Z.to_nat (Z.of_nat k * n)) + 0) by lia.
  destruct Hk as [[-> ->]|[-> ->]].
  - change (entry_mask (Z.of_nat 16)) with (Z.ones 16). rewrite (table_bits table _ 2) by (apply table_bytes || lia). by rewrite Z.shiftr_0_r.
  - change (entry_mask (Z.of_nat 32)) with (Z.ones 28). rewrite (table_bits table _ 4) by (apply table_bytes || lia). by rewrite Z.shiftr_0_r.
Qed.

Lemma fat_read_ok n sectors w :
  good w → 0 <= n < 2 ^ 28 → (n + 1) * fat_type priv <= sectors * bps * 8 → (lba0 + sectors) * bps <= Z.of_nat (length d) →
  ∃ w', fat_read pread bdev priv n w = Ret (Some (table_entry (fat_type priv) table n), w') ∧ good w'.
Proof.
  intros Hw Hn Hs Hd. pose proof Hpriv as (Ht & _). unfold fat_read. destruct Ht as [Ht|[Ht|Ht]]; rewrite Ht in *; cbn [Z.eqb Pos.eqb].
  - rewrite entry_12 by lia. apply (narrow_entry n sectors); [done|done| |done].
    pose proof (Z.div_mod n 2 ltac:(lia)). pose proof (Z.mod_pos_bound n 2 ltac:(lia)). lia.
  - destruct (wide_entry n sectors 2 w) as (data & w' & E & Hw' & Hg & El); [done|done|by left|lia|done|].
    change (16 / 8) with (Z.of_nat 2). rewrite (M_bind_ret _ _ _ _ _ E).
    rewrite (M_bind_ret _ _ w' () w') by (unfold M_lift, guard_def; by rewrite (proj2 (Z.leb_le _ _)) by exact Hg).
    exists w'. split; [|done]. rewrite (entry_wide 16 2) by (auto || lia). unfold le16toh.
    change (Z.to_nat (2 * ?x)) with (Z.to_nat (Z.of_nat 2 * x)). rewrite El.
    change (entry_mask (Z.of_nat 16)) with (Z.ones 16). rewrite land_ones_small; [done|lia|]. exact (load_width _ 2 _ table_bytes).
  - destruct (wide_entry n sectors 4 w) as (data & w' & E & Hw' & Hg & El); [done|done|by right|lia|done|].
    change (32 / 8) with (Z.of_nat 4). rewrite (M_bind_ret _ _ _ _ _ E).
    rewrite (M_bind_ret _ _ w' () w') by (unfold M_lift, guard_def; by rewrite (proj2 (Z.leb_le _ _)) by exact Hg).
    exists w'. split; [|done]. rewrite (entry_wide 32 4) by (auto || lia). unfold le32toh.
    change 4 with (Z.of_nat 4) at 1. rewrite El. done.
Qed.
End Works.

(** ** The geometry of a volume *)

Section Geometry.
Context (bpb : fat_bpb).

Definition sector_size : Z := le16 (bytes_per_sector_low bpb) (bytes_per_sector_high bpb).
Definition table_sectors : Z := if sectors_per_fat bpb =? 0 then fat32_sectors_per_fat bpb else sectors_per_fat bpb.
Definition root_sectors : Z := le16 (root_dirent_count_low bpb) (root_dirent_count_high bpb) * 32 / sector_size.
Definition volume_sectors : Z :=
  let small := le16 (total_sectors_low bpb) (total_sectors_high bpb) in
  if small =? 0 then total_sectors_large bpb else small.
(** The sectors before the data, and the clusters of the data. *)
Definition data_start : Z := reserved_sectors bpb + fat_count bpb * table_sectors + root_sectors.
Definition clusters : Z := (volume_sectors - data_start) / sectors_per_cluster bpb.
Definition kind_of (count : Z) : Z := if count <? 4085 then 12 else if count <? 65525 then 16 else 32.

(** The fields have their widths. *)
Definition bpb_ok : Prop :=
  0 <= bytes_per_sector_low bpb < 256 ∧ 0 <= bytes_per_sector_high bpb < 256 ∧
  0 <= sectors_per_cluster bpb < 256 ∧ 0 <= reserved_sectors bpb < 65536 ∧ 0 <= fat_count bpb < 256 ∧
  0 <= root_dirent_count_low bpb < 256 ∧ 0 <= root_dirent_count_high bpb < 256 ∧
  0 <= total_sectors_low bpb < 256 ∧ 0 <= total_sectors_high bpb < 256 ∧ 0 <= sectors_per_fat bpb < 65536 ∧
  0 <= total_sectors_large bpb < 2 ^ 32 ∧ 0 <= fat32_sectors_per_fat bpb < 2 ^ 32.

End Geometry.

Lemma load_bpb_ok l : bytes l → bpb_ok (load_fat_bpb l).
Proof.
  intros Hl. unfold bpb_ok, load_fat_bpb. cbn.
  split_and!; first [apply (load_width _ 1 l Hl)|apply (load_width _ 2 l Hl)|apply (load_width _ 4 l Hl)].
Qed.

Lemma le16_value low high : 0 <= low < 256 → 0 <= high < 256 → le16 low high = 256 * high + low.
Proof. intros. unfold le16. rewrite shiftl_mul, Z.lor_comm, lor_disjoint by lia. change (2 ^ 8) with 256. lia. Qed.

Lemma sector_size_four x : 512 <= x <= 4096 → Z.land x (x - 1) = 0 → (4 | x).
Proof.
  intros Hx Hp. apply Z.mod_divide; [lia|].
  assert (H : forallb (λ x, negb (Z.land x (x - 1) =? 0) || (x mod 4 =? 0)) (seqZ 512 3585) = true) by by vm_compute.
  rewrite forallb_forall in H. specialize (H x ltac:(apply list_elem_of_In, elem_of_seqZ; lia)).
  rewrite Hp in H. cbn in H. by apply Z.eqb_eq in H.
Qed.

Lemma kind_of_cases n : kind_of n = 12 ∨ kind_of n = 16 ∨ kind_of n = 32.
Proof. unfold kind_of. repeat case_match; auto. Qed.

Ltac refused := repeat match goal with H : (if ?c then None else _) = Some _ |- _ =>
  let E := fresh "E" in destruct c eqn:E; [discriminate H|] end.

Lemma fat_determine_sound size bpb priv :
  bpb_ok bpb → 0 <= size → data_start bpb < 2 ^ 32 → fat_determine size bpb = Some priv →
  priv_ok priv ∧ bytes_per_sector priv = sector_size bpb ∧ fat_lba priv = reserved_sectors bpb ∧
  fat_type priv = kind_of (clusters bpb) ∧ 1 <= clusters bpb < 2 ^ 28 - 2 ∧
  (clusters bpb + 2) * fat_type priv <= table_sectors bpb * sector_size bpb * 8 ∧
  (fat_lba priv + table_sectors bpb) * sector_size bpb <= size.
Proof.
  intros (H1 & H2 & H3 & H4 & H5 & H6 & H7 & H8 & H9 & H10 & H11 & H12) Hsize Hwrap Hdet.
  unfold fat_determine, le16toh, le32toh in Hdet. cbn zeta in Hdet.
  fold (sector_size bpb) in Hdet.
  replace (if negb (sectors_per_fat bpb =? 0) then sectors_per_fat bpb else fat32_sectors_per_fat bpb) with (table_sectors bpb) in Hdet
    by (unfold table_sectors; by destruct (sectors_per_fat bpb =? 0)).
  change (if le16 (total_sectors_low bpb) (total_sectors_high bpb) =? 0 then total_sectors_large bpb
    else le16 (total_sectors_low bpb) (total_sectors_high bpb)) with (volume_sectors bpb) in Hdet.
  set (dirents := le16 (root_dirent_count_low bpb) (root_dirent_count_high bpb)) in *.
  assert (Hdir : 0 <= dirents < 65536) by (unfold dirents; rewrite le16_value by done; lia).
  refused. clear E E0 E13 E14 E15.
  apply orb_false_iff in E1 as [E1 Ebig]. apply orb_false_iff in E1 as [Esmall Epow].
  apply Z.ltb_ge in Esmall, Ebig. apply negb_false_iff, Z.eqb_eq in Epow, E2. apply Z.eqb_neq in E3, E4, E7.
  apply Z.ltb_ge in E5, E6, E8, E9, E12. apply orb_false_iff in E10 as [Espc _]. apply Z.eqb_neq in Espc.
  assert (Hroot : u32 (dirents * 32 + sector_size bpb - 1) / sector_size bpb = root_sectors bpb).
  { rewrite wrapu_id by (unfold in_u; lia). unfold root_sectors. fold dirents.
    destruct (proj1 (Z.mod_divide (dirents * 32) (sector_size bpb) ltac:(lia)) E2) as [q Hq]. rewrite Hq, Z.div_mul by lia. symmetry. apply Z.div_unique with (sector_size bpb - 1); lia. }
  rewrite Hroot in *. fold (data_start bpb) in *.
  assert (Hts : 0 <= table_sectors bpb < 2 ^ 32) by (unfold table_sectors; destruct (sectors_per_fat bpb =? 0); lia).
  assert (Hrs : 0 <= root_sectors bpb) by (unfold root_sectors; apply Z.div_pos; fold dirents; lia).
  assert (Hds : 0 <= data_start bpb) by (unfold data_start; nia).
  rewrite (wrapu_id 32 (data_start bpb)) in * by (unfold in_u; lia).
  change ((volume_sectors bpb - data_start bpb) / sectors_per_cluster bpb) with (clusters bpb) in *.
  change (if clusters bpb <? 4085 then 12 else if clusters bpb <? 65525 then 16 else 32) with (kind_of (clusters bpb)) in *.
  apply orb_false_iff in E11 as [Ec1 Ec2]. apply Z.ltb_ge in Ec1. apply Z.leb_gt in Ec2.
  injection Hdet as <-. cbn [fat_type bytes_per_sector fat_lba].
  pose proof (kind_of_cases (clusters bpb)) as Hkind.
  split; [|split; [done|split; [done|split; [done|split; [lia|split]]]]].
  - unfold priv_ok. cbn. split_and!; try done; try lia. by apply sector_size_four.
  - rewrite wrapu_id in E12 by (unfold in_u; nia).
    assert (clusters bpb + 2 <= table_sectors bpb * sector_size bpb * 8 / kind_of (clusters bpb)) by lia.
    etransitivity; [apply Z.mul_le_mono_nonneg_r; [lia|exact H]|]. rewrite Z.mul_comm. apply Z.mul_div_le. lia.
  - assert (volume_sectors bpb * sector_size bpb <= size).
    { rewrite Z.quot_div_nonneg in E5 by lia. pose proof (Z.mul_div_le size (sector_size bpb) ltac:(lia)). nia. }
    assert (reserved_sectors bpb + table_sectors bpb <= volume_sectors bpb) by (unfold data_start in *; nia). nia.
Qed.

(** The bits of entry 1 that are set when the volume was unmounted in order and no
    errors were found. *)
Definition clean_bits (type : Z) : Z := if type =? 12 then 0xC00 else if type =? 16 then 0xC000 else 0xC000000.

Lemma missing_bits e mask : 0 <= mask < 2 ^ 32 → Z.land (u32 (Z.lnot e)) mask = mask - Z.land mask e.
Proof.
  intros Hm. assert (E : Z.land (u32 (Z.lnot e)) mask = Z.ldiff mask (Z.land mask e)).
  { apply Z.bits_inj'. intros i Hi. rewrite Z.ldiff_spec, !Z.land_spec. unfold wrapu.
    destruct (Z.ltb_spec i 32).
    - rewrite Z.mod_pow2_bits_low, Z.lnot_spec by lia. by destruct (Z.testbit e i), (Z.testbit mask i).
    - replace (Z.testbit mask i) with false; [by rewrite andb_false_r|].
      rewrite <-(Z.mod_small mask (2 ^ 32)) by done. by rewrite Z.mod_pow2_bits_high by lia. }
  rewrite E. symmetry. apply Z.sub_nocarry_ldiff. apply Z.bits_inj'. intros i Hi. rewrite Z.ldiff_spec, Z.land_spec, Z.bits_0.
  by destruct (Z.testbit e i), (Z.testbit mask i).
Qed.

Lemma table_entry_range type l n : type = 12 ∨ type = 16 ∨ type = 32 → 0 <= table_entry type l n.
Proof. intros Ht. unfold table_entry. apply Z.land_nonneg. right. by destruct Ht as [->|[->| ->]]. Qed.

Section Volume.
Context {U : Type} (pread : Z → Z → M U (errno + list Z)) (valid : U → Prop) (content : list Z) (bdev : blockdevice).
Context `{!Disk pread valid content} (Hn : nested content bdev).

Abbreviation d := (region content bdev).
Abbreviation bpb := (load_fat_bpb (take sizeof_fat_bpb d)).

Context (priv : fat_private) (Hdet : fat_determine (blockdevice_size bdev) bpb = Some priv) (Hwrap : data_start bpb < 2 ^ 32).

Lemma region_bytes : bytes d.
Proof. clear -Disk0. induction bdev as [|? ? ? ? IH]; cbn; [apply disk_bytes|by apply Forall_take, Forall_drop]. Qed.

Lemma volume_entry n w : works valid w → 0 <= n < clusters bpb + 2 →
  ∃ w', fat_read pread bdev priv n w =
    Ret (Some (table_entry (kind_of (clusters bpb)) (drop (Z.to_nat (reserved_sectors bpb * sector_size bpb)) d) n), w') ∧ works valid w'.
Proof.
  intros Hw Hbound. destruct (region_length content bdev Hn) as [Hlen Hle]. pose proof disk_size as Hsz.
  destruct (fat_determine_sound (blockdevice_size bdev) bpb priv) as (Hp & Hb & Hl & Ht & Hc & He & Hend); try done;
    [apply load_bpb_ok, Forall_take, region_bytes|lia|].
  pose proof (works_environment pread valid content bdev _ Hn) as Henv.
  destruct (fat_read_ok pread (works valid) bdev d region_bytes ltac:(lia) priv Hp n (table_sectors bpb) w Hw) as (w' & E & Hw').
  - lia.
  - rewrite Hb. assert (0 < fat_type priv) by (destruct (kind_of_cases (clusters bpb)) as [?|[?|?]]; lia). nia.
  - rewrite Hb. lia.
  - exists w'. split; [|done]. rewrite E. unfold table. by rewrite Ht, Hb, Hl.
Qed.

Lemma volume_fsck w : works valid w →
  ∃ w', fat_needs_fsck pread bdev priv w =
    Ret (negb (Z.land (clean_bits (kind_of (clusters bpb)))
                 (table_entry (kind_of (clusters bpb)) (drop (Z.to_nat (reserved_sectors bpb * sector_size bpb)) d) 1)
               =? clean_bits (kind_of (clusters bpb))), w') ∧ works valid w'.
Proof.
  intros Hw. destruct (region_length content bdev Hn) as [Hlen _].
  destruct (fat_determine_sound (blockdevice_size bdev) bpb priv) as (_ & _ & _ & Ht & Hc & _); try done;
    [apply load_bpb_ok, Forall_take, region_bytes|lia|].
  destruct (volume_entry 1 w Hw ltac:(lia)) as (w' & E & Hw'). exists w'. split; [|done].
  unfold fat_needs_fsck. rewrite (M_bind_ret _ _ _ _ _ E). rewrite Ht. set (e := table_entry _ _ 1).
  assert (Hneg : ∀ mask, 0 <= mask < 2 ^ 32 → negb (Z.land (u32 (Z.lnot e)) mask =? 0) = negb (Z.land mask e =? mask)).
  { intros mask Hm. rewrite missing_bits by done. f_equal.
    destruct (Z.eqb_spec (mask - Z.land mask e) 0), (Z.eqb_spec (Z.land mask e) mask); lia || done. }
  unfold clean_bits. destruct (kind_of_cases (clusters bpb)) as [->|[->| ->]]; cbn [Z.eqb Pos.eqb];
    cbn [mret M_ret]; by rewrite Hneg by lia.
Qed.

End Volume.

(** C25.  On a device that works and holds a FAT filesystem, as [fat_determine]
    recognises it, whose first data sector has a number of 32 bits (a larger one
    wraps around: see [fat_wraps]), every entry of the allocation table, for
    the clusters of the volume, is read as the bits the format gives it: 12, 16
    or 32 bits apart and 12, 16 or 28 wide, also across two sectors, nothing
    being read outside the device or the buffer; and the volume is to be checked
    exactly if a clean bit is missing in entry 1. *)
Theorem fat_entries {U} (pread : Z → Z → M U (errno + list Z)) valid content bdev priv n w :
  Disk pread valid content → nested content bdev → works valid w →
  let d := region content bdev in
  let bpb := load_fat_bpb (take sizeof_fat_bpb d) in
  let type := kind_of (clusters bpb) in
  let fat := drop (Z.to_nat (reserved_sectors bpb * sector_size bpb)) d in
  fat_determine (blockdevice_size bdev) bpb = Some priv → data_start bpb < 2 ^ 32 → 0 <= n < clusters bpb + 2 →
  fat_type priv = type ∧
  (∃ w', fat_read pread bdev priv n w = Ret (Some (table_entry type fat n), w') ∧ works valid w') ∧
  (∃ w', fat_needs_fsck pread bdev priv w =
     Ret (negb (Z.land (clean_bits type) (table_entry type fat 1) =? clean_bits type), w') ∧ works valid w').
Proof.
  intros HD Hn Hw d bpb type fat Hdet Hwrap Hbound. split; [|split].
  - destruct (region_length content bdev Hn) as [Hlen _].
    destruct (fat_determine_sound (blockdevice_size bdev) bpb priv) as (_ & _ & _ & Ht & _); try done;
      [by eapply load_bpb_ok, Forall_take, region_bytes|lia].
  - by eapply volume_entry.
  - by eapply volume_fsck.
Qed.

(** A volume of twenty sectors. *)
Definition sample_boot : list Z :=
  [0xEB; 0x3C; 0x90] ++ lit "SORTIX  " ++ [0; 2; 1; 1; 0; 1; 16; 0; 20; 0; 0xF8; 1; 0] ++ replicate 486 0 ++ [0x55; 0xAA].
Definition sample_fat : list Z := [0xF8; 0xFF; 0xFF; 0x03; 0x40; 0x00; 0xFF; 0x0F] ++ replicate 504 0.
Definition sample_volume : list Z := sample_boot ++ sample_fat ++ replicate (18 * 512) 0.

Lemma fat_entries_witness :
  fat_type (FatPrivate 12 512 1) = 12 ∧
  (∃ w', fat_read (image_pread sample_volume) (bdev_hd (image_disk_of sample_volume)) (FatPrivate 12 512 1) 3 fresh =
     Ret (Some 4, w') ∧ works (λ _, True) w') ∧
  (∃ w', fat_needs_fsck (image_pread sample_volume) (bdev_hd (image_disk_of sample_volume)) (FatPrivate 12 512 1) fresh =
     Ret (false, w') ∧ works (λ _, True) w').
Proof.
  apply (fat_entries (image_pread sample_volume) (λ _, True) sample_volume (bdev_hd (image_disk_of sample_volume))
    (FatPrivate 12 512 1) 3 fresh).
  - apply image_disk; [|vm_compute; done]. apply (bool_decide_unpack _). by vm_compute.
  - done.
  - done.
  - vm_compute. reflexivity.
  - vm_compute. reflexivity.
  - vm_compute. split; [discriminate|reflexivity].
Defined.

(** The number of sectors before the data wraps around: a table of two to the power of 32
    sectors, less some, is accepted on a device of ten sectors. *)
Example fat_wraps : ∃ bpb priv, bpb_ok bpb ∧ fat_determine 5120 bpb = Some priv ∧ 5120 < table_sectors bpb * sector_size bpb.
Proof.
  exists {| jump := [0xE9; 0; 0]; bytes_per_sector_low := 0; bytes_per_sector_high := 2; sectors_per_cluster := 1;
    reserved_sectors := 2; fat_count := 1; root_dirent_count_low := 16; root_dirent_count_high := 0; total_sectors_low := 10;
    total_sectors_high := 0; sectors_per_fat := 0; total_sectors_large := 0; fat12_volume_id := []; fat12_volume_label := [];
    fat32_sectors_per_fat := 2 ^ 32 - 1; fat32_version := 0; fat32_root_cluster := 0; fat32_fsinfo := 0;
    fat32_volume_id := []; fat32_volume_label := []; boot_signature := [0x55; 0xAA] |}, (FatPrivate 12 512 2).
  split; [unfold bpb_ok; cbn; lia|]. by vm_compute.
Qed.
End Fat.
