(* ===== verification/Filesystem.v ===== *)
(** * Recognising filesystems

    [libmount/filesystem.c] and the five handlers it tries: [biosboot.c],
    [extended.c], [ext2.c], [iso9660.c] and [fat.c].

    A filesystem is the structure a handler fills in, with its identifiers of the
    form [KEY=value]; releasing it frees memory and is not modelled.  What a
    handler needs of a device besides reading it is the partition it is and
    whether it holds a partition table. *)

From S2P Require Import Prelude Blockdev Partition Probe Uuid Fat.
From stdpp Require Import base decidable list numbers strings.
From Stdlib Require Import ZArith Lia Ascii.

#[local] Open Scope c_scope.
#[local] Open Scope Z_scope.

Module Filesystem.
Import Blockdev Partition.

Inductive filesystem_error :=
| FILESYSTEM_ERROR_NONE
| FILESYSTEM_ERROR_ABSENT
| FILESYSTEM_ERROR_UNRECOGNIZED
| FILESYSTEM_ERROR_ERRNO.

Inductive handler := biosboot_handler | extended_handler | ext2_handler | iso9660_handler | fat_handler.

#[global] Instance filesystem_error_eq_dec : EqDecision filesystem_error.
Proof. solve_decision. Defined.
#[global] Instance handler_eq_dec : EqDecision handler.
Proof. solve_decision. Defined.

Definition FILESYSTEM_FLAG_FSCK_SHOULD : Z := 2.
Definition FILESYSTEM_FLAG_FSCK_MUST : Z := 4.
Definition FILESYSTEM_FLAG_NOT_FILESYSTEM : Z := 8.
Definition FILESYSTEM_FLAG_WRITABLE : Z := 16.

(** A device, [bdev->p] and whether [bdev->pt] is set. *)
Record device := Device { bdev : blockdevice; part : option partition; has_table : bool }.

Record filesystem := Filesystem {
  fs_device : device;
  fs_handler : handler;
  fstype_name : list Z;
  fsck : option (list Z);
  driver : option (list Z);
  flags : Z;
  identifiers : list (list Z);
  identifiers_length : Z;
}.

(** [filesystem_error_string]; [strerror_errno] is the text [strerror] has for [errno]. *)
Definition filesystem_error_string (strerror_errno : list Z) (error : filesystem_error) : list Z :=
  match error with
  | FILESYSTEM_ERROR_NONE => lit "Unknown error condition"
  | FILESYSTEM_ERROR_ABSENT => lit "No filesystem found"
  | FILESYSTEM_ERROR_UNRECOGNIZED => lit "Unrecognized filesystem type"
  | FILESYSTEM_ERROR_ERRNO => strerror_errno
  end.

(** ** Identifiers *)

Definition set_identifiers (ids : list (list Z)) (len : Z) (fs : filesystem) : filesystem :=
  Filesystem (fs_device fs) (fs_handler fs) (fstype_name fs) (fsck fs) (driver fs) (flags fs) ids len.
Definition set_flags (x : Z) (fs : filesystem) : filesystem :=
  Filesystem (fs_device fs) (fs_handler fs) (fstype_name fs) (fsck fs) (driver fs) x (identifiers fs) (identifiers_length fs).

Definition identifier (key value : list Z) : list Z := key ++ lit "=" ++ value.

Section Handlers.
Context {U : Type} (pread : Z → Z → M U (errno + list Z)).

Definition filesystem_add_identifier (key value : list Z) (fs : filesystem) : M (world U) (bool * filesystem) :=
  match value with
  | [] => mret (true, fs)
  | _ =>
      let grow := Z.of_nat (length (identifiers fs)) =? identifiers_length fs in
      ok ← (if grow then allocate else mret true);
      if negb ok then mret (false, fs)
      else
        let fs := if grow
                  then set_identifiers (identifiers fs)
                         (2 * (if negb (identifiers_length fs =? 0) then identifiers_length fs else 2)) fs
                  else fs in
        ok ← allocate;
        if negb ok then mret (false, fs)
        else mret (true, set_identifiers (identifiers fs ++ [identifier key value]) (identifiers_length fs) fs)
  end.

(** Additions until one fails. *)
Fixpoint add_each (adds : list (filesystem → M (world U) (bool * filesystem))) (fs : filesystem) : M (world U) (bool * filesystem) :=
  match adds with
  | [] => mret (true, fs)
  | add :: adds => '(ok, fs) ← add fs; if negb ok then mret (false, fs) else add_each adds fs
  end.

Abbreviation inspection := (M (world U) (filesystem_error * option filesystem)).

(** [CALLOC_TYPE(struct filesystem)] *)
Definition with_filesystem (d : device) (h : handler) (k : filesystem → inspection) : inspection :=
  ok ← allocate;
  if negb ok then mret (FILESYSTEM_ERROR_ERRNO, None) else k (Filesystem d h [] None None 0 [] 0).

Definition with_identifiers (adds : list (filesystem → M (world U) (bool * filesystem))) (fs : filesystem) : inspection :=
  '(ok, fs) ← add_each adds fs;
  mret (if negb ok then (FILESYSTEM_ERROR_ERRNO, None) else (FILESYSTEM_ERROR_NONE, Some fs)).

Definition describe (name : list Z) (fsck_ driver_ : option (list Z)) (flags_ : Z) (fs : filesystem) : filesystem :=
  Filesystem (fs_device fs) (fs_handler fs) name fsck_ driver_ flags_ (identifiers fs) (identifiers_length fs).

(** The identifier of a type of partition; the array is overwritten. *)
Definition guid (string : list Z) : outcome (list Z) := Uuid.guid_from_string (replicate 16 0) string.

Definition BIOSBOOT_GPT_TYPE_GUID : list Z := lit "21686148-6449-6e6f-744e-656564454649".
Definition BDP_GPT_TYPE_GUID : list Z := lit "EBD0A0A2-B9E5-4433-87C0-68B6B72699C7".
Definition ESP_GPT_TYPE_GUID : list Z := lit "C12A7328-F81F-11D2-BA4B-00A0C93EC93B".

(** *** [biosboot.c] *)

Definition biosboot_probe (d : device) : outcome bool :=
  match part d with
  | None => Ret false
  | Some p =>
      if negb (bool_decide (table_type p = PARTITION_TABLE_TYPE_GPT)) then Ret false
      else g ← guid BIOSBOOT_GPT_TYPE_GUID; Ret (bool_decide (gpt_type_guid p = g))
  end.

Definition biosboot_inspect (d : device) : inspection :=
  with_filesystem d biosboot_handler (λ fs,
    mret (FILESYSTEM_ERROR_NONE, Some (describe (lit "biosboot") None None FILESYSTEM_FLAG_NOT_FILESYSTEM fs))).

(** *** [extended.c] *)

Definition extended_probe (d : device) : bool :=
  match part d with
  | None => false
  | Some p =>
      bool_decide (table_type p = PARTITION_TABLE_TYPE_MBR) && ((mbr_system_id p =? 0x05) || (mbr_system_id p =? 0x0F))
  end.

Definition extended_inspect (d : device) : inspection :=
  with_filesystem d extended_handler (λ fs,
    mret (FILESYSTEM_ERROR_NONE, Some (describe (lit "extended") None None FILESYSTEM_FLAG_NOT_FILESYSTEM fs))).

(** *** [ext2.c] *)

(** [struct ext2_superblock] *)
Record ext2_superblock := {
  s_inodes_count : Z;
  s_blocks_count : Z;
  s_r_blocks_count : Z;
  s_free_blocks_count : Z;
  s_free_inodes_count : Z;
  s_first_data_block : Z;
  s_log_block_size : Z;
  s_log_frag_size : Z;
  s_blocks_per_group : Z;
  s_frags_per_group : Z;
  s_inodes_per_group : Z;
  s_mtime : Z;
  s_wtime : Z;
  s_mnt_count : Z;
  s_max_mnt_count : Z;
  s_magic : Z;
  s_state : Z;
  s_errors : Z;
  s_minor_rev_level : Z;
  s_lastcheck : Z;
  s_checkinterval : Z;
  s_creator_os : Z;
  s_rev_level : Z;
  s_def_resuid : Z;
  s_def_resgid : Z;
  s_first_ino : Z;
  s_inode_size : Z;
  s_block_group_nr : Z;
  s_feature_compat : Z;
  s_feature_incompat : Z;
  s_feature_ro_compat : Z;
  s_uuid : list Z;
  s_volume_name : list Z;
  s_last_mounted : list Z;
  s_algo_bitmap : Z;
  s_prealloc_blocks : Z;
  s_prealloc_dir_blocks : Z;
  alignment0 : Z;
  s_journal_uuid : list Z;
  s_journal_inum : Z;
  s_journal_dev : Z;
  s_last_orphan : Z;
  s_hash_seed : list Z;
  s_def_hash_version : Z;
  alignment1 : list Z;
  s_default_mount_options : Z;
  s_first_meta_bg : Z;
  alignment2 : list Z;
}.

Definition sizeof_ext2_superblock : nat := 1024.
Definition EXT2_SUPER_MAGIC : Z := 0xEF53.
Definition EXT2_VALID_FS : Z := 1.
Definition EXT2_FEATURE_COMPAT_SUPPORTED : Z := 0.
Definition EXT2_FEATURE_INCOMPAT_SUPPORTED : Z := 2.

Definition load_ext2_superblock (l : list Z) : ext2_superblock := {|
  s_inodes_count := load 0 4 l;
  s_blocks_count := load 4 4 l;
  s_r_blocks_count := load 8 4 l;
  s_free_blocks_count := load 12 4 l;
  s_free_inodes_count := load 16 4 l;
  s_first_data_block := load 20 4 l;
  s_log_block_size := load 24 4 l;
  s_log_frag_size := s32 (load 28 4 l);
  s_blocks_per_group := load 32 4 l;
  s_frags_per_group := load 36 4 l;
  s_inodes_per_group := load 40 4 l;
  s_mtime := load 44 4 l;
  s_wtime := load 48 4 l;
  s_mnt_count := load 52 2 l;
  s_max_mnt_count := load 54 2 l;
  s_magic := load 56 2 l;
  s_state := load 58 2 l;
  s_errors := load 60 2 l;
  s_minor_rev_level := load 62 2 l;
  s_lastcheck := load 64 4 l;
  s_checkinterval := load 68 4 l;
  s_creator_os := load 72 4 l;
  s_rev_level := load 76 4 l;
  s_def_resuid := load 80 2 l;
  s_def_resgid := load 82 2 l;
  s_first_ino := load 84 4 l;
  s_inode_size := load 88 2 l;
  s_block_group_nr := load 90 2 l;
  s_feature_compat := load 92 4 l;
  s_feature_incompat := load 96 4 l;
  s_feature_ro_compat := load 100 4 l;
  s_uuid := slice 104 16 l;
  s_volume_name := slice 120 16 l;
  s_last_mounted := slice 136 64 l;
  s_algo_bitmap := load 200 4 l;
  s_prealloc_blocks := load 204 1 l;
  s_prealloc_dir_blocks := load 205 1 l;
  alignment0 := load 206 2 l;
  s_journal_uuid := slice 208 16 l;
  s_journal_inum := load 224 4 l;
  s_journal_dev := load 228 4 l;
  s_last_orphan := load 232 4 l;
  s_hash_seed := [load 236 4 l; load 240 4 l; load 244 4 l; load 248 4 l];
  s_def_hash_version := load 252 1 l;
  alignment1 := slice 253 3 l;
  s_default_mount_options := load 256 4 l;
  s_first_meta_bg := load 260 4 l;
  alignment2 := slice 264 760 l;
|}.

Definition ext2_superblock_decode (sb : ext2_superblock) : ext2_superblock := {|
  s_inodes_count := le32toh (s_inodes_count sb);
  s_blocks_count := le32toh (s_blocks_count sb);
  s_r_blocks_count := le32toh (s_r_blocks_count sb);
  s_free_blocks_count := le32toh (s_free_blocks_count sb);
  s_free_inodes_count := le32toh (s_free_inodes_count sb);
  s_first_data_block := le32toh (s_first_data_block sb);
  s_log_block_size := le32toh (s_log_block_size sb);
  s_log_frag_size := s32 (le32toh (u32 (s_log_frag_size sb)));
  s_blocks_per_group := le32toh (s_blocks_per_group sb);
  s_frags_per_group := le32toh (s_frags_per_group sb);
  s_inodes_per_group := le32toh (s_inodes_per_group sb);
  s_mtime := le32toh (s_mtime sb);
  s_wtime := le32toh (s_wtime sb);
  s_mnt_count := le16toh (s_mnt_count sb);
  s_max_mnt_count := le16toh (s_max_mnt_count sb);
  s_magic := le16toh (s_magic sb);
  s_state := le16toh (s_state sb);
  s_errors := le16toh (s_errors sb);
  s_minor_rev_level := le16toh (s_minor_rev_level sb);
  s_lastcheck := le32toh (s_lastcheck sb);
  s_checkinterval := le32toh (s_checkinterval sb);
  s_creator_os := le32toh (s_creator_os sb);
  s_rev_level := le32toh (s_rev_level sb);
  s_def_resuid := le16toh (s_def_resuid sb);
  s_def_resgid := le16toh (s_def_resgid sb);
  s_first_ino := le32toh (s_first_ino sb);
  s_inode_size := le16toh (s_inode_size sb);
  s_block_group_nr := le16toh (s_block_group_nr sb);
  s_feature_compat := le32toh (s_feature_compat sb);
  s_feature_incompat := le32toh (s_feature_incompat sb);
  s_feature_ro_compat := le32toh (s_feature_ro_compat sb);
  s_uuid := s_uuid sb;
  s_volume_name := s_volume_name sb;
  s_last_mounted := s_last_mounted sb;
  s_algo_bitmap := le32toh (s_algo_bitmap sb);
  s_prealloc_blocks := s_prealloc_blocks sb;
  s_prealloc_dir_blocks := s_prealloc_dir_blocks sb;
  alignment0 := le16toh (alignment0 sb);
  s_journal_uuid := s_journal_uuid sb;
  s_journal_inum := le32toh (s_journal_inum sb);
  s_journal_dev := le32toh (s_journal_dev sb);
  s_last_orphan := le32toh (s_last_orphan sb);
  s_hash_seed := map le32toh (s_hash_seed sb);
  s_def_hash_version := s_def_hash_version sb;
  alignment1 := alignment1 sb;
  s_default_mount_options := le32toh (s_default_mount_options sb);
  s_first_meta_bg := le32toh (s_first_meta_bg sb);
  alignment2 := alignment2 sb;
|}.

Definition ext2_probe (leading : list Z) (amount : Z) : bool :=
  if amount <? 1024 then false
  else if amount - 1024 <? Z.of_nat sizeof_ext2_superblock then false
  else
    let sb := ext2_superblock_decode (load_ext2_superblock (slice (Z.to_nat 1024) sizeof_ext2_superblock leading)) in
    if negb (s_magic sb =? EXT2_SUPER_MAGIC) then false else true.

(** A string in memory, up to its terminator. *)
Fixpoint c_string (l : list Z) : outcome (list Z) :=
  match l with
  | [] => Undef
  | c :: l => if c =? 0 then Ret [] else s ← c_string l; Ret (c :: s)
  end.

Definition ext2_flags (writable : bool) (now : Z) (sb : ext2_superblock) : Z :=
  let flags := if negb (Z.land (s_feature_incompat sb) (u32 (Z.lnot EXT2_FEATURE_INCOMPAT_SUPPORTED)) =? 0) then 0
               else if (Z.land (s_feature_compat sb) (u32 (Z.lnot EXT2_FEATURE_COMPAT_SUPPORTED)) =? 0) && writable
                    then FILESYSTEM_FLAG_WRITABLE else 0 in
  let next_check := s64 (u64 (s_lastcheck sb + s_checkinterval sb)) in
  if negb (s_state sb =? EXT2_VALID_FS) then Z.lor flags (Z.lor FILESYSTEM_FLAG_FSCK_SHOULD FILESYSTEM_FLAG_FSCK_MUST)
  else if negb (s_max_mnt_count sb =? 0) && (s_max_mnt_count sb <=? s_mnt_count sb) then Z.lor flags FILESYSTEM_FLAG_FSCK_SHOULD
  else if negb (s_checkinterval sb =? 0) && (next_check <=? now) then Z.lor flags FILESYSTEM_FLAG_FSCK_SHOULD
  else flags.

(** [now] is the time [clock_gettime] gives.  The volume name is read in the
    superblock itself, up to a null character wherever that is. *)
Definition ext2_inspect (now : Z) (d : device) : inspection :=
  with_filesystem d ext2_handler (λ fs,
    ok ← allocate;
    if negb ok then mret (FILESYSTEM_ERROR_ERRNO, None)
    else
      l ← blockdevice_preadall pread (bdev d) (Z.of_nat sizeof_ext2_superblock) 1024;
      if negb (Z.of_nat (length l) =? Z.of_nat sizeof_ext2_superblock) then mret (FILESYSTEM_ERROR_ERRNO, None)
      else
        let sb := ext2_superblock_decode (load_ext2_superblock l) in
        let supported := Z.land (s_feature_incompat sb) (u32 (Z.lnot EXT2_FEATURE_INCOMPAT_SUPPORTED)) =? 0 in
        let fs := describe (lit "ext2") (Some (lit "fsck.ext2")) (if supported then Some (lit "extfs") else None)
                    (ext2_flags (blockdevice_is_writable (bdev d)) now sb) fs in
        uuid_str ← M_lift (Uuid.uuid_to_string (s_uuid sb));
        with_identifiers
          [filesystem_add_identifier (lit "TYPE") (lit "ext2"); filesystem_add_identifier (lit "UUID") uuid_str;
           λ fs, label ← M_lift (c_string (drop 120 l)); filesystem_add_identifier (lit "LABEL") label fs] fs).

(** *** [iso9660.c] *)

Definition iso9660_probe_amount : Z := 17 * 2048.

Definition iso9660_probe (leading : list Z) (amount : Z) : bool :=
  if amount <? 17 * 2048 then false else bool_decide (slice (Z.to_nat (16 * 2048 + 1)) 5 leading = lit "CD001").

(** [strnlen], and the spaces at the end taken off. *)
Fixpoint before_null (l : list Z) : list Z :=
  match l with [] => [] | c :: l => if c =? 0 then [] else c :: before_null l end.
Fixpoint skip_blanks (l : list Z) : list Z :=
  match l with c :: l' => if c =? ch " " then skip_blanks l' else l | [] => [] end.
Definition trimmed (l : list Z) : list Z := rev (skip_blanks (rev l)).

(** The text of a field: [strndup(field, isostrnlen(field, size))]. *)
Definition iso_text (field : list Z) : list Z := trimmed (before_null field).

Definition filesystem_add_iso_identifier (key field : list Z) (fs : filesystem) : M (world U) (bool * filesystem) :=
  ok ← allocate;
  if negb ok then mret (false, fs) else filesystem_add_identifier key (iso_text field) fs.

(** The characters of the creation time with dashes between its parts, up to a
    null character. *)
Definition iso_uuid (datetime : list Z) : list Z :=
  before_null (take 4 datetime ++ lit "-" ++ slice 4 2 datetime ++ lit "-" ++ slice 6 2 datetime ++ lit "-" ++
    slice 8 2 datetime ++ lit "-" ++ slice 10 2 datetime ++ lit "-" ++ slice 12 2 datetime ++ lit "-" ++ slice 14 2 datetime).

Definition sizeof_iso9660_pvd : nat := 2048.

Definition iso9660_inspect (d : device) : inspection :=
  with_filesystem d iso9660_handler (λ fs,
    let fs := describe (lit "iso9660") None (Some (lit "iso9660fs")) 0 fs in
    pvd ← blockdevice_preadall pread (bdev d) (Z.of_nat sizeof_iso9660_pvd) (16 * 2048);
    if negb (Z.of_nat (length pvd) =? Z.of_nat sizeof_iso9660_pvd) then mret (FILESYSTEM_ERROR_ERRNO, None)
    else
      with_identifiers
        [filesystem_add_identifier (lit "TYPE") (lit "iso9660");
         filesystem_add_identifier (lit "UUID") (iso_uuid (slice 813 17 pvd));
         filesystem_add_iso_identifier (lit "SYSTEM_ID") (slice 8 32 pvd);
         filesystem_add_iso_identifier (lit "LABEL") (slice 40 32 pvd);
         filesystem_add_iso_identifier (lit "VOLUME_SET_ID") (slice 190 128 pvd);
         filesystem_add_iso_identifier (lit "PUBLISHER_ID") (slice 318 128 pvd);
         filesystem_add_iso_identifier (lit "DATA_PREPARER_ID") (slice 446 128 pvd);
         filesystem_add_iso_identifier (lit "APPLICATION_ID") (slice 574 128 pvd);
         filesystem_add_iso_identifier (lit "COPYRIGHT_ID") (slice 702 37 pvd);
         filesystem_add_iso_identifier (lit "ABSTRACT_ID") (slice 739 37 pvd);
         filesystem_add_iso_identifier (lit "BIBLIOGRAPHIC_ID") (slice 776 37 pvd)] fs).

(** *** [fat.c] *)

Definition could_be_fat_partition (d : device) : outcome bool :=
  match part d with
  | None => Ret true
  | Some p =>
      match table_type p with
      | PARTITION_TABLE_TYPE_GPT =>
          bdp_guid ← guid BDP_GPT_TYPE_GUID; esp_guid ← guid ESP_GPT_TYPE_GUID;
          Ret (bool_decide (gpt_type_guid p = bdp_guid) || bool_decide (gpt_type_guid p = esp_guid))
      | PARTITION_TABLE_TYPE_MBR =>
          Ret (bool_decide (mbr_system_id p ∈ [0x01; 0x04; 0x06; 0x04; 0x0C; 0x0E; 0xEF]))
      | _ => Ret true
      end
  end.

Definition fat_probe (d : device) (leading : list Z) (amount : Z) : outcome bool :=
  if amount <? Z.of_nat Fat.sizeof_fat_bpb then Ret false
  else
    possible ← could_be_fat_partition d;
    Ret (possible &&
         match Fat.fat_determine (blockdevice_size (bdev d)) (Fat.load_fat_bpb (take Fat.sizeof_fat_bpb leading)) with
         | Some _ => true | None => false
         end).

Definition fat_is_esp (d : device) : outcome bool :=
  match part d with
  | None => Ret false
  | Some p =>
      match table_type p with
      | PARTITION_TABLE_TYPE_GPT => esp_guid ← guid ESP_GPT_TYPE_GUID; Ret (bool_decide (gpt_type_guid p = esp_guid))
      | PARTITION_TABLE_TYPE_MBR => Ret (mbr_system_id p =? 0xEF)
      | _ => Ret false
      end
  end.

Definition upper_digit (n : Z) : Z := if n <? 10 then ch "0" + n else ch "A" + n - 10.
Definition hex_byte (b : Z) : list Z := [upper_digit (b / 16); upper_digit (b mod 16)].

(** [%02X%02X-%02X%02X] of the bytes from the last to the first. *)
Definition fat_serial (volume_id : list Z) : list Z :=
  let b i := hex_byte (nth i volume_id 0) in b 3%nat ++ b 2%nat ++ lit "-" ++ b 1%nat ++ b 0%nat.

(** The label: spaces at its end become null characters, and it ends at the first. *)
Definition fat_label (volume_label : list Z) : list Z := before_null (trimmed volume_label).

Definition fat_version (type : Z) : list Z :=
  lit "FAT" ++ (if type =? 12 then lit "12" else if type =? 16 then lit "16" else lit "32").

Definition fat_inspect (d : device) : inspection :=
  with_filesystem d fat_handler (λ fs,
    l ← blockdevice_preadall pread (bdev d) (Z.of_nat Fat.sizeof_fat_bpb) 0;
    if negb (Z.of_nat (length l) =? Z.of_nat Fat.sizeof_fat_bpb) then mret (FILESYSTEM_ERROR_ERRNO, None)
    else
      let bpb := Fat.load_fat_bpb l in
      match Fat.fat_determine (blockdevice_size (bdev d)) bpb with
      | None => mret (FILESYSTEM_ERROR_UNRECOGNIZED, None)
      | Some priv =>
          esp ← M_lift (fat_is_esp d);
          let name := if esp : bool then lit "efi" else lit "fat" in
          dirty ← Fat.fat_needs_fsck pread (bdev d) priv;
          let flags := if dirty : bool
                       then Z.lor FILESYSTEM_FLAG_WRITABLE (Z.lor FILESYSTEM_FLAG_FSCK_SHOULD FILESYSTEM_FLAG_FSCK_MUST)
                       else FILESYSTEM_FLAG_WRITABLE in
          let fs := describe name (Some (lit "fsck.fat")) (Some (lit "fatfs")) flags fs in
          let fat32 := Fat.fat_type priv =? 32 in
          let volume_id := if fat32 then Fat.fat32_volume_id bpb else Fat.fat12_volume_id bpb in
          let volume_label := if fat32 then Fat.fat32_volume_label bpb else Fat.fat12_volume_label bpb in
          uuid_str ← M_lift (Uuid.uuid_to_string (volume_id ++ volume_label ++ [0]));
          with_identifiers
            [filesystem_add_identifier (lit "TYPE") name;
             filesystem_add_identifier (lit "UUID") uuid_str;
             filesystem_add_identifier (lit "SERIAL") (fat_serial volume_id);
             filesystem_add_identifier (lit "LABEL") (fat_label volume_label);
             filesystem_add_identifier (lit "VERSION") (fat_version (Fat.fat_type priv))] fs
      end).

(** *** [filesystem.c] *)

Definition filesystem_handlers : list handler :=
  [biosboot_handler; extended_handler; ext2_handler; iso9660_handler; fat_handler].

(** [FILESYSTEM_HANDLER_FLAG_IGNORE_PARTITIONS] *)
Definition ignores_partitions (h : handler) : bool :=
  match h with iso9660_handler => true | _ => false end.

Definition probe_amount (h : handler) : Z :=
  match h with
  | biosboot_handler | extended_handler => 0
  | ext2_handler => 1024 + Z.of_nat sizeof_ext2_superblock
  | iso9660_handler => iso9660_probe_amount
  | fat_handler => Fat.fat_probe_amount
  end.

Definition probe (h : handler) (d : device) (leading : list Z) (amount : Z) : outcome bool :=
  match h with
  | biosboot_handler => biosboot_probe d
  | extended_handler => Ret (extended_probe d)
  | ext2_handler => Ret (ext2_probe leading amount)
  | iso9660_handler => Ret (iso9660_probe leading amount)
  | fat_handler => fat_probe d leading amount
  end.

Definition inspect (now : Z) (h : handler) (d : device) : inspection :=
  match h with
  | biosboot_handler => biosboot_inspect d
  | extended_handler => extended_inspect d
  | ext2_handler => ext2_inspect now d
  | iso9660_handler => iso9660_inspect d
  | fat_handler => fat_inspect d
  end.

Definition skipped (d : device) (h : handler) : bool := has_table d && negb (ignores_partitions h).

Fixpoint leading_size (d : device) (hs : list handler) (size : Z) : Z :=
  match hs with
  | [] => size
  | h :: hs =>
      if skipped d h then leading_size d hs size
      else leading_size d hs (if size <? probe_amount h then probe_amount h else size)
  end.

Fixpoint first_handler (d : device) (leading : list Z) (amount : Z) (hs : list handler) : outcome (option handler) :=
  match hs with
  | [] => Ret None
  | h :: hs =>
      if skipped d h then first_handler d leading amount hs
      else found ← probe h d leading amount;
           if negb found then first_handler d leading amount hs else Ret (Some h)
  end.

Definition blockdevice_inspect_filesystem (now : Z) (d : device) : inspection :=
  let size := leading_size d filesystem_handlers 65536 in
  ok ← allocate;
  if negb ok then mret (FILESYSTEM_ERROR_ERRNO, None)
  else
    leading ← blockdevice_preadall pread (bdev d) size 0;
    let amount := Z.of_nat (length leading) in
    e ← get_errno;
    if (amount <? size) && negb (bool_decide (e = Some EEOF)) then mret (FILESYSTEM_ERROR_ERRNO, None)
    else
      h ← M_lift (first_handler d leading amount filesystem_handlers);
      match h with
      | Some h => inspect now h d
      | None =>
          mret (if existsb (λ b, b =? 0) leading then FILESYSTEM_ERROR_UNRECOGNIZED else FILESYSTEM_ERROR_ABSENT, None)
      end.

End Handlers.

(** ** Looking filesystems up *)

(** [fs->identifiers[i] + id_len + 1] of the first identifier that begins with the
    key and an equals sign. *)
Fixpoint identifier_value (ids : list (list Z)) (id : list Z) : option (list Z) :=
  match ids with
  | [] => None
  | s :: ids =>
      if bool_decide (take (length id) s = id) && (nth (length id) s 0 =? ch "=") then Some (drop (S (length id)) s)
      else identifier_value ids id
  end.
Definition filesystem_get_identifier (fs : filesystem) (id : list Z) : option (list Z) := identifier_value (identifiers fs) id.

Definition is_specification (spec : list Z) : bool :=
  negb (nth 0 spec 0 =? ch "/") && bool_decide (ch "=" ∈ spec).

Definition filesystem_match (fs : filesystem) (spec : list Z) : bool :=
  if is_specification spec then bool_decide (spec ∈ identifiers fs)
  else bool_decide (spec = device_path (bdev (fs_device fs))).

Fixpoint uuid_identifier (ids : list (list Z)) : option (list Z) :=
  match ids with
  | [] => None
  | s :: ids => if bool_decide (take 5 s = lit "UUID=") then Some s else uuid_identifier ids
  end.

Definition filesystem_get_mount_spec (fs : filesystem) : list Z :=
  match uuid_identifier (identifiers fs) with
  | Some s => s
  | None => device_path (bdev (fs_device fs))
  end.


(** ** What a device holds *)

(** The identifiers of types of partitions as they are on a disk. *)
Definition biosboot_guid : list Z := lit "Hah!IdontNeedEFI".
Definition bdp_guid : list Z := [0xA2; 0xA0; 0xD0; 0xEB; 0xE5; 0xB9; 0x33; 0x44; 0x87; 0xC0; 0x68; 0xB6; 0xB7; 0x26; 0x99; 0xC7].
Definition esp_guid : list Z := [0x28; 0x73; 0x2A; 0xC1; 0x1F; 0xF8; 0xD2; 0x11; 0xBA; 0x4B; 0x00; 0xA0; 0xC9; 0x3E; 0xC9; 0x3B].

Lemma guids :
  guid BIOSBOOT_GPT_TYPE_GUID = Ret biosboot_guid ∧ guid BDP_GPT_TYPE_GUID = Ret bdp_guid ∧ guid ESP_GPT_TYPE_GUID = Ret esp_guid.
Proof. by vm_compute. Qed.

#[local] Opaque guid.

Definition gpt_type (d : device) : option (list Z) :=
  match part d with
  | Some p => match table_type p with PARTITION_TABLE_TYPE_GPT => Some (gpt_type_guid p) | _ => None end
  | None => None
  end.
Definition mbr_type (d : device) : option Z :=
  match part d with
  | Some p => match table_type p with PARTITION_TABLE_TYPE_MBR => Some (mbr_system_id p) | _ => None end
  | None => None
  end.

(** A partition that says what it holds holds FAT only if it says so. *)
Definition may_be_fat (d : device) : bool :=
  match gpt_type d, mbr_type d with
  | Some g, _ => bool_decide (g ∈ [bdp_guid; esp_guid])
  | None, Some t => bool_decide (t ∈ [0x01; 0x04; 0x06; 0x0C; 0x0E; 0xEF])
  | None, None => true
  end.
Definition is_esp (d : device) : bool := bool_decide (gpt_type d = Some esp_guid ∨ mbr_type d = Some 0xEF).

Definition superblock (c : list Z) : list Z := slice (Z.to_nat 1024) sizeof_ext2_superblock c.
Definition volume_descriptor (c : list Z) : list Z := slice (Z.to_nat (16 * 2048)) sizeof_iso9660_pvd c.
Definition boot_sector (c : list Z) : Fat.fat_bpb := Fat.load_fat_bpb (take Fat.sizeof_fat_bpb c).

Definition holds (d : device) (c : list Z) (h : handler) : bool :=
  match h with
  | biosboot_handler => bool_decide (gpt_type d = Some biosboot_guid)
  | extended_handler => bool_decide (mbr_type d = Some 0x05 ∨ mbr_type d = Some 0x0F)
  | ext2_handler => load 56 2 (superblock c) =? 0xEF53
  | iso9660_handler => bool_decide (slice 1 5 (volume_descriptor c) = lit "CD001")
  | fat_handler => may_be_fat d && bool_decide (is_Some (Fat.fat_determine (Z.of_nat (length c)) (boot_sector c)))
  end.

(** The handlers tried: on a device with partitions only that of CD-ROMs. *)
Definition candidates (d : device) : list handler := if has_table d then [iso9660_handler] else filesystem_handlers.

Fixpoint first_holding (d : device) (c : list Z) (hs : list handler) : option handler :=
  match hs with [] => None | h :: hs => if holds d c h then Some h else first_holding d c hs end.

(** The text of sixteen bytes. *)
Definition uuid_text (l : list Z) : list Z := match Uuid.uuid_to_string l with Ret s => s | _ => [] end.

Definition fat_kind (c : list Z) : Z := Fat.kind_of (Fat.clusters (boot_sector c)).
Definition fat_id (c : list Z) : list Z := if fat_kind c =? 32 then slice 67 4 c else slice 39 4 c.
Definition fat_name (c : list Z) : list Z := if fat_kind c =? 32 then slice 71 11 c else slice 43 11 c.

(** A text without the spaces at its end. *)
Definition stripped (l : list Z) : list Z :=
  foldr (λ c t, match t with [] => if c =? ch " " then [] else [c] | _ => c :: t end) [] l.

(** A number of 32 bits in hexadecimal, with a dash in the middle. *)
Definition serial_text (n : Z) : list Z :=
  let digit i := upper_digit (n / 16 ^ i mod 16) in map digit [7; 6; 5; 4] ++ lit "-" ++ map digit [3; 2; 1; 0].

(** The identifiers of a filesystem, of which those without a value are left out. *)
Definition labels (h : handler) (d : device) (c : list Z) : list (list Z * list Z) :=
  match h with
  | biosboot_handler | extended_handler => []
  | ext2_handler =>
      [(lit "TYPE", lit "ext2"); (lit "UUID", uuid_text (slice 104 16 (superblock c)));
       (lit "LABEL", before_null (slice 120 16 (superblock c)))]
  | iso9660_handler =>
      let field k n := stripped (before_null (slice k n (volume_descriptor c))) in
      [(lit "TYPE", lit "iso9660"); (lit "UUID", iso_uuid (slice 813 17 (volume_descriptor c)));
       (lit "SYSTEM_ID", field 8%nat 32%nat); (lit "LABEL", field 40%nat 32%nat); (lit "VOLUME_SET_ID", field 190%nat 128%nat);
       (lit "PUBLISHER_ID", field 318%nat 128%nat); (lit "DATA_PREPARER_ID", field 446%nat 128%nat);
       (lit "APPLICATION_ID", field 574%nat 128%nat); (lit "COPYRIGHT_ID", field 702%nat 37%nat);
       (lit "ABSTRACT_ID", field 739%nat 37%nat); (lit "BIBLIOGRAPHIC_ID", field 776%nat 37%nat)]
  | fat_handler =>
      [(lit "TYPE", if is_esp d then lit "efi" else lit "fat"); (lit "UUID", uuid_text (fat_id c ++ fat_name c ++ [0]));
       (lit "SERIAL", serial_text (le_value (fat_id c))); (lit "LABEL", before_null (stripped (fat_name c)));
       (lit "VERSION", if fat_kind c =? 12 then lit "FAT12" else if fat_kind c =? 16 then lit "FAT16" else lit "FAT32")]
  end.

Definition ids_of (kvs : list (list Z * list Z)) : list (list Z) :=
  concat (map (λ '(k, v), match v with [] => [] | _ => [identifier k v] end) kvs).

(** The filesystem has to be checked before it is used. *)
Definition unclean (h : handler) (c : list Z) : bool :=
  match h with
  | ext2_handler => negb (load 58 2 (superblock c) =? 1)
  | fat_handler =>
      let bits := Fat.clean_bits (fat_kind c) in
      let table := drop (Z.to_nat (Fat.reserved_sectors (boot_sector c) * Fat.sector_size (boot_sector c))) c in
      negb (Z.land bits (Fat.table_entry (fat_kind c) table 1) =? bits)
  | _ => false
  end.

(** A check is due: the filesystem is not clean, or for ext2 it was mounted as often
    as it may be between checks, or the time between checks has passed. *)
Definition check_due (now : Z) (h : handler) (c : list Z) : bool :=
  unclean h c ||
  match h with
  | ext2_handler =>
      let mnt_count := load 52 2 (superblock c) in
      let max_mnt_count := load 54 2 (superblock c) in
      let lastcheck := load 64 4 (superblock c) in
      let checkinterval := load 68 4 (superblock c) in
      (0 <? max_mnt_count) && (max_mnt_count <=? mnt_count) || (0 <? checkinterval) && (lastcheck + checkinterval <=? now)
  | _ => false
  end.

(** The flags of a filesystem say so. *)
Definition fsck_told (now : Z) (h : handler) (c : list Z) (flags : Z) : Prop :=
  negb (Z.land flags FILESYSTEM_FLAG_FSCK_MUST =? 0) = unclean h c ∧
  negb (Z.land flags FILESYSTEM_FLAG_FSCK_SHOULD =? 0) = check_due now h c.

(** What the handlers take for granted: an ext2 volume name that ends within its
    sixteen bytes, and sectors before the data of a FAT filesystem that can be
    counted in 32 bits. *)
Definition tame (h : handler) (c : list Z) : Prop :=
  match h with
  | ext2_handler => 0 ∈ slice 120 16 (superblock c)
  | fat_handler => Fat.data_start (boot_sector c) < 2 ^ 32
  | _ => True
  end.

(** ** Handlers on a device that works *)

Definition same_but_ids (fs fs' : filesystem) : Prop :=
  fs_device fs' = fs_device fs ∧ fs_handler fs' = fs_handler fs ∧ flags fs' = flags fs.

(** A field that holds a null character is read to that, not past its end. *)
Lemma c_string_field (l : list Z) o n : 0 ∈ slice o n l → c_string (drop o l) = Ret (before_null (slice o n l)).
Proof.
  unfold slice. generalize (drop o l) as r. intros r. revert n. induction r as [|x r IH]; intros n Hz;
    [rewrite take_nil in Hz; by apply not_elem_of_nil in Hz|]. destruct n as [|n]; [by apply not_elem_of_nil in Hz|].
  cbn [take] in *. cbn [c_string before_null]. destruct (Z.eqb_spec x 0) as [|Hx]; [done|].
  apply elem_of_cons in Hz as [Hz|Hz]; [by subst|]. by rewrite (IH n Hz).
Qed.

Lemma ids_of_cons k v kvs : ids_of ((k, v) :: kvs) = ids_of [(k, v)] ++ ids_of kvs.
Proof. unfold ids_of. cbn. by rewrite app_nil_r. Qed.

Lemma existsb_zero l : existsb (λ b, b =? 0) l = bool_decide (0 ∈ l).
Proof.
  symmetry. destruct (existsb _ l) eqn:E; [apply bool_decide_eq_true|apply bool_decide_eq_false].
  - apply existsb_exists in E as (b & Hb & ->%Z.eqb_eq). by apply list_elem_of_In.
  - intros H. rewrite <-not_true_iff_false in E. apply E, existsb_exists. exists 0. split; [by apply list_elem_of_In|done].
Qed.

Lemma uuid_identifier_in ids s : uuid_identifier ids = Some s → s ∈ ids ∧ take 5 s = lit "UUID=".
Proof.
  induction ids as [|x ids IH]; cbn [uuid_identifier]; [done|]. destruct (bool_decide_reflect (take 5 x = lit "UUID=")) as [E|E].
  - intros [= <-]. split; [left|done].
  - intros H. split; [right|]; by apply IH.
Qed.

(** The specification a filesystem is mounted by finds it again. *)
Lemma mount_spec_matches fs : head (device_path (bdev (fs_device fs))) = Some (ch "/") →
  filesystem_match fs (filesystem_get_mount_spec fs) = true.
Proof.
  intros Hp. unfold filesystem_match, filesystem_get_mount_spec. destruct (uuid_identifier (identifiers fs)) as [s|] eqn:E.
  - destruct (uuid_identifier_in _ _ E) as [Hin Ht]. rewrite <-(take_drop 5 s), Ht at 1. unfold is_specification.
    rewrite (bool_decide_eq_true_2 (_ ∈ lit "UUID=" ++ _)) by (apply elem_of_app; left; apply (bool_decide_unpack _); by vm_compute).
    change (nth 0 (lit "UUID=" ++ drop 5 s) 0) with (ch "U"). cbn [andb]. by apply bool_decide_eq_true.
  - destruct (device_path _) as [|x p] eqn:Ep; [done|]. injection Hp as ->. unfold is_specification. cbn [nth].
    rewrite Z.eqb_refl. cbn [negb andb]. by apply bool_decide_eq_true.
Qed.

Lemma skip_blanks_app l l' : skip_blanks (l ++ l') = match skip_blanks l with [] => skip_blanks l' | r => r ++ l' end.
Proof. induction l as [|c l IH]; [done|]. cbn. destruct (c =? _); [exact IH|done]. Qed.

Lemma trimmed_stripped l : trimmed l = stripped l.
Proof.
  unfold trimmed. induction l as [|c l IH]; [done|]. cbn [rev]. rewrite skip_blanks_app.
  change (stripped (c :: l)) with (match stripped l with [] => if c =? ch " " then [] else [c] | _ => c :: stripped l end).
  rewrite <-IH. destruct (skip_blanks (rev l)) as [|x r] eqn:E.
  - cbn [skip_blanks rev]. by destruct (c =? ch " ").
  - rewrite rev_app_distr. cbn [rev app]. destruct (rev r ++ [x]) as [|y t] eqn:E'; [|done].
    by apply app_eq_nil in E' as [_ ?].
Qed.

Lemma fat_serial_text u : length u = 4%nat → Fat.bytes u → fat_serial u = serial_text (le_value u).
Proof.
  intros Hl Hu. destruct u as [|b0 [|b1 [|b2 [|b3 [|]]]]]; try discriminate. repeat (apply Forall_cons in Hu as [? Hu]).
  unfold fat_serial, serial_text, hex_byte. cbn [nth map app le_value].
  change (16 ^ 7) with 268435456. change (16 ^ 6) with 16777216. change (16 ^ 5) with 1048576. change (16 ^ 4) with 65536.
  change (16 ^ 3) with 4096. change (16 ^ 2) with 256. change (16 ^ 1) with 16. change (16 ^ 0) with 1.
  clear Hl Hu. repeat (apply (f_equal2 cons); [first [reflexivity|apply f_equal]|]); [..|reflexivity].
  all: Z.to_euclidean_division_equations; lia.
Qed.

Section Works.
Context {U : Type} (pread : Z → Z → M U (errno + list Z)) (valid : U → Prop) (content : list Z) (d : device).
Context `{!Disk pread valid content} (Hn : nested content (bdev d)).

Abbreviation c := (region content (bdev d)).

Lemma allocates w : works valid w → allocate w = Ret (true, w).
Proof. intros [_ Ha]. unfold allocate. by rewrite Ha. Qed.

(** An addition that adds these identifiers. *)
Definition adds_to (add : filesystem → M (world U) (bool * filesystem)) (kv : list Z * list Z) : Prop :=
  ∀ fs w, works valid w → ∃ fs', add fs w = Ret ((true, fs'), w) ∧ same_but_ids fs fs' ∧
    identifiers fs' = identifiers fs ++ ids_of [kv].

Lemma add_identifier_ok key value : adds_to (filesystem_add_identifier key value) (key, value).
Proof.
  intros fs w Hw. unfold filesystem_add_identifier, ids_of. cbn. destruct value as [|x value].
  { exists fs. rewrite app_nil_r. by split_and!. }
  rewrite (M_bind_ret _ _ w true w) by (destruct (_ =? _); [by apply allocates|done]). cbn [negb].
  rewrite (M_bind_ret _ _ w true w) by by apply allocates. cbn [negb].
  eexists. split; [done|]. destruct (_ =? _); by split_and!.
Qed.

Lemma add_iso_ok key field : adds_to (filesystem_add_iso_identifier key field) (key, stripped (before_null field)).
Proof.
  intros fs w Hw. rewrite <-trimmed_stripped. unfold filesystem_add_iso_identifier. rewrite (M_bind_ret _ _ w true w) by by apply allocates. cbn [negb].
  by apply add_identifier_ok.
Qed.

Lemma add_each_ok adds kvs fs w :
  Forall2 adds_to adds kvs → works valid w →
  ∃ fs', add_each adds fs w = Ret ((true, fs'), w) ∧ same_but_ids fs fs' ∧ identifiers fs' = identifiers fs ++ ids_of kvs.
Proof.
  intros Hadds Hw. revert fs. induction Hadds as [|add [k v] adds kvs Hadd _ IH]; intros fs.
  { exists fs. cbn. rewrite app_nil_r. by split_and!. }
  destruct (Hadd fs w Hw) as (fs1 & E1 & (S1 & S2 & S3) & I1). destruct (IH fs1) as (fs2 & E2 & (T1 & T2 & T3) & I2).
  exists fs2. cbn [add_each]. rewrite (M_bind_ret _ _ _ _ _ E1). cbn [negb]. split; [done|].
  split; [unfold same_but_ids; split_and!; congruence|]. by rewrite I2, I1, (ids_of_cons k v kvs), app_assoc.
Qed.

Lemma with_identifiers_ok adds kvs fs w :
  Forall2 adds_to adds kvs → works valid w → identifiers fs = [] →
  ∃ fs', with_identifiers adds fs w = Ret ((FILESYSTEM_ERROR_NONE, Some fs'), w) ∧ same_but_ids fs fs' ∧ identifiers fs' = ids_of kvs.
Proof.
  intros Hadds Hw Hi. destruct (add_each_ok adds kvs fs w Hadds Hw) as (fs' & E & Hs & I). exists fs'.
  unfold with_identifiers. rewrite (M_bind_ret _ _ _ _ _ E). rewrite Hi in I. by split_and!.
Qed.

(** What an inspection promises. *)
Definition inspected (now : Z) (h : handler) (r : M (world U) (filesystem_error * option filesystem)) : Prop :=
  ∀ w, works valid w → ∃ fs w', r w = Ret ((FILESYSTEM_ERROR_NONE, Some fs), w') ∧ works valid w' ∧
    fs_handler fs = h ∧ fs_device fs = d ∧ identifiers fs = ids_of (labels h d c) ∧
    fsck_told now h c (flags fs).

Lemma region_read count off w : works valid w → 0 <= off → 0 <= count → off + count <= Z.of_nat (length c) →
  ∃ l w', blockdevice_preadall pread (bdev d) count off w = Ret (l, w') ∧ works valid w' ∧
    l = slice (Z.to_nat off) (Z.to_nat count) c ∧ Z.of_nat (length l) = count.
Proof.
  intros [Hv Ha] Ho Hc Hl. destruct (region_length content (bdev d) Hn) as [_ Hle]. pose proof disk_size as Hsz.
  destruct (blockdevice_preadall_reads pread valid content (bdev d) count off w) as (w' & sh & E & (Hv' & Ha' & _) & _); [done..|lia|].
  eexists _, w'. split; [exact E|]. split; [split; [done|congruence]|]. split; [done|]. unfold slice. rewrite length_take, length_drop. lia.
Qed.

Lemma biosboot_inspected now : inspected now biosboot_handler (biosboot_inspect d).
Proof.
  intros w Hw. unfold biosboot_inspect, with_filesystem. rewrite (M_bind_ret _ _ w true w) by by apply allocates. cbn [negb].
  eexists _, w. split; [done|]. by split_and!.
Qed.

Lemma extended_inspected now : inspected now extended_handler (extended_inspect d).
Proof.
  intros w Hw. unfold extended_inspect, with_filesystem. rewrite (M_bind_ret _ _ w true w) by by apply allocates. cbn [negb].
  eexists _, w. split; [done|]. by split_and!.
Qed.

Lemma identified now h adds fs w :
  Forall2 adds_to adds (labels h d c) → works valid w → identifiers fs = [] → fs_handler fs = h → fs_device fs = d →
  fsck_told now h c (flags fs) →
  ∃ fs' w', with_identifiers adds fs w = Ret ((FILESYSTEM_ERROR_NONE, Some fs'), w') ∧ works valid w' ∧
    fs_handler fs' = h ∧ fs_device fs' = d ∧ identifiers fs' = ids_of (labels h d c) ∧
    fsck_told now h c (flags fs').
Proof.
  intros Hadds Hw Hi Hh Hd Hf. destruct (with_identifiers_ok adds _ fs w Hadds Hw Hi) as (fs' & E & (S1 & S2 & S3) & I).
  exists fs', w. rewrite S1, S2, S3. by split_and!.
Qed.

Lemma iso9660_inspected now : 65536 <= Z.of_nat (length c) → inspected now iso9660_handler (iso9660_inspect pread d).
Proof.
  intros Hlen w Hw. unfold iso9660_inspect, with_filesystem. rewrite (M_bind_ret _ _ w true w) by by apply allocates. cbn [negb].
  destruct (region_read (Z.of_nat sizeof_iso9660_pvd) (16 * 2048) w Hw) as (l & w' & E & Hw' & Hl & El); [lia|lia|unfold sizeof_iso9660_pvd; lia|].
  rewrite (M_bind_ret _ _ _ _ _ E). rewrite El, Z.eqb_refl. cbn [negb]. rewrite Nat2Z.id in Hl.
  apply identified; [|exact Hw'|reflexivity..|by split].
  unfold labels, volume_descriptor. rewrite <-Hl. cbv zeta.
  repeat (apply Forall2_cons_2; [first [apply add_identifier_ok|apply add_iso_ok]|]). apply Forall2_nil_2.
Qed.

Lemma uuid_text_ok u : length u = 16%nat → Fat.bytes u → Uuid.uuid_to_string u = Ret (uuid_text u).
Proof. intros Hl Hu. unfold uuid_text. by rewrite Uuid.to_string_text. Qed.

Lemma ext2_must writable now l : Fat.bytes l → l = superblock c →
  fsck_told now ext2_handler c (ext2_flags writable now (ext2_superblock_decode (load_ext2_superblock l))).
Proof.
  intros Hb Hl. unfold fsck_told, check_due, unclean, ext2_flags. rewrite <-Hl. cbv zeta.
  cbn [s_state s_max_mnt_count s_mnt_count s_lastcheck s_checkinterval ext2_superblock_decode load_ext2_superblock].
  unfold le16toh, le32toh, EXT2_VALID_FS.
  pose proof (Fat.load_width 54 2 l Hb). pose proof (Fat.load_width 64 4 l Hb). pose proof (Fat.load_width 68 4 l Hb).
  rewrite (wrapu_id 64), (wraps_id 64) by (unfold in_u, in_s; lia).
  assert (Hz : ∀ x, 0 <= x → negb (x =? 0) = (0 <? x)).
  { intros x Hx. destruct (Z.eqb_spec x 0), (Z.ltb_spec 0 x); (done || lia). }
  rewrite (Hz (load 54 2 l)), (Hz (load 68 4 l)) by lia.
  destruct (load 58 2 l =? 1); cbn [negb orb]; repeat case_match; cbn [orb]; split; reflexivity.
Qed.

Lemma ext2_inspected now : 65536 <= Z.of_nat (length c) → tame ext2_handler c → inspected now ext2_handler (ext2_inspect pread now d).
Proof.
  intros Hlen Htame w Hw. unfold ext2_inspect, with_filesystem. rewrite !(M_bind_ret _ _ w true w) by by apply allocates. cbn [negb].
  rewrite (M_bind_ret _ _ w true w) by by apply allocates. cbn [negb].
  destruct (region_read (Z.of_nat sizeof_ext2_superblock) 1024 w Hw) as (l & w' & E & Hw' & Hl & El); [lia|lia|unfold sizeof_ext2_superblock; lia|].
  rewrite (M_bind_ret _ _ _ _ _ E). rewrite El, Z.eqb_refl. cbn [negb]. rewrite Nat2Z.id in Hl.
  assert (Hlb : Fat.bytes l) by (rewrite Hl; eapply Forall_take, Forall_drop, Fat.region_bytes; done).
  rewrite (M_bind_ret _ _ w' (uuid_text (slice 104 16 l)) w').
  2:{ unfold M_lift. cbn [s_uuid ext2_superblock_decode load_ext2_superblock]. rewrite uuid_text_ok; [done| |].
      - unfold slice. rewrite length_take, length_drop. unfold sizeof_ext2_superblock in El. lia.
      - by apply Forall_take, Forall_drop. }
  unfold tame, superblock in Htame. rewrite <-Hl in Htame.
  apply identified; [|exact Hw'|reflexivity..|].
  - unfold labels, superblock. rewrite <-Hl.
    apply Forall2_cons_2; [apply add_identifier_ok|]. apply Forall2_cons_2; [apply add_identifier_ok|].
    apply Forall2_cons_2; [|apply Forall2_nil_2]. intros fs w1 Hw1.
    rewrite (M_bind_ret _ _ w1 (before_null (slice 120 16 l)) w1) by (unfold M_lift; by rewrite (c_string_field l 120 16)).
    by apply add_identifier_ok.
  - cbn [flags describe]. by apply ext2_must.
Qed.

Lemma fat_is_esp_ok : fat_is_esp d = Ret (is_esp d).
Proof.
  unfold fat_is_esp, is_esp, gpt_type, mbr_type. destruct (part d) as [p|]; [|reflexivity]. destruct guids as (_ & _ & ->).
  destruct (table_type p); cbn [mbind outcome_bind]; f_equal; [reflexivity..| |].
  - symmetry. destruct (Z.eqb_spec (mbr_system_id p) 0xEF) as [E|E]; [apply bool_decide_eq_true; right; congruence|].
    apply bool_decide_eq_false. intros [?|?]; congruence.
  - apply bool_decide_ext. split; [intros E; left; congruence|intros [?|?]; congruence].
Qed.

Lemma could_be_fat_ok : could_be_fat_partition d = Ret (may_be_fat d).
Proof.
  unfold could_be_fat_partition, may_be_fat, gpt_type, mbr_type. destruct (part d) as [p|]; [|reflexivity].
  destruct guids as (_ & -> & ->). destruct (table_type p); cbn [mbind outcome_bind]; f_equal; [reflexivity..| |].
  - apply bool_decide_ext. rewrite !elem_of_cons, elem_of_nil. tauto.
  - rewrite <-bool_decide_or. apply bool_decide_ext. rewrite !elem_of_cons, elem_of_nil. tauto.
Qed.

Lemma fat_uuid_bytes : 65536 <= Z.of_nat (length c) →
  length (fat_id c ++ fat_name c ++ [0]) = 16%nat ∧ Forall Uuid.byte (fat_id c ++ fat_name c ++ [0]).
Proof.
  intros Hlen. assert (Hc : Forall Uuid.byte c) by by eapply Fat.region_bytes.
  unfold fat_id, fat_name. split.
  - rewrite !length_app. destruct (fat_kind c =? 32); unfold slice; rewrite !length_take, !length_drop; cbn [length]; lia.
  - repeat apply Forall_app_2; [..|by apply Forall_singleton]; case_match; by apply Forall_take, Forall_drop.
Qed.

Lemma fat_id_bytes : 65536 <= Z.of_nat (length c) → length (fat_id c) = 4%nat ∧ Fat.bytes (fat_id c).
Proof.
  intros Hlen. assert (Hc : Fat.bytes c) by by eapply Fat.region_bytes.
  unfold fat_id. destruct (fat_kind c =? 32); unfold slice; rewrite !length_take, !length_drop.
  all: split; [lia|by apply Forall_take, Forall_drop].
Qed.

Lemma fat_inspected now : 65536 <= Z.of_nat (length c) → holds d c fat_handler = true → tame fat_handler c →
  inspected now fat_handler (fat_inspect pread d).
Proof.
  intros Hlen Hholds Htame w Hw. unfold fat_inspect, with_filesystem. rewrite (M_bind_ret _ _ w true w) by by apply allocates. cbn [negb].
  destruct (region_read (Z.of_nat Fat.sizeof_fat_bpb) 0 w Hw) as (l & w' & E & Hw' & Hl & El); [lia|lia|unfold Fat.sizeof_fat_bpb; lia|].
  rewrite (M_bind_ret _ _ _ _ _ E). rewrite El, Z.eqb_refl. cbn [negb]. rewrite Nat2Z.id in Hl.
  unfold slice in Hl. cbn [Z.to_nat] in Hl. rewrite drop_0 in Hl.
  destruct (region_length content (bdev d) Hn) as [Hsize _].
  cbn [holds tame] in Hholds, Htame. apply andb_true_iff in Hholds as [_ Hdet]. apply bool_decide_eq_true in Hdet as [priv Hdet].
  rewrite Hsize in Hdet.
  destruct (Fat.fat_determine_sound (blockdevice_size (bdev d)) (boot_sector c) priv) as (_ & _ & _ & Ht & _); try done;
    [by eapply Fat.load_bpb_ok, Forall_take, Fat.region_bytes|lia|].
  destruct (Fat.volume_fsck pread valid content (bdev d) Hn priv Hdet Htame w' Hw') as (w2 & E2 & Hw2).
  rewrite Hl. change (Fat.load_fat_bpb (take Fat.sizeof_fat_bpb c)) with (boot_sector c) in *. rewrite Hdet.
  rewrite (M_bind_ret _ _ w' (is_esp d) w') by (unfold M_lift; by rewrite fat_is_esp_ok).
  rewrite (M_bind_ret _ _ _ _ _ E2).
  assert (Hid : (if Fat.fat_type priv =? 32 then Fat.fat32_volume_id (boot_sector c) else Fat.fat12_volume_id (boot_sector c)) = fat_id c).
  { unfold fat_id, fat_kind. rewrite Ht. cbn [Fat.fat32_volume_id Fat.fat12_volume_id boot_sector Fat.load_fat_bpb].
    by rewrite !Probe.slice_take by (unfold Fat.sizeof_fat_bpb; lia). }
  assert (Hname : (if Fat.fat_type priv =? 32 then Fat.fat32_volume_label (boot_sector c) else Fat.fat12_volume_label (boot_sector c)) = fat_name c).
  { unfold fat_name, fat_kind. rewrite Ht. cbn [Fat.fat32_volume_label Fat.fat12_volume_label boot_sector Fat.load_fat_bpb].
    by rewrite !Probe.slice_take by (unfold Fat.sizeof_fat_bpb; lia). }
  cbv zeta. rewrite Hid, Hname.
  rewrite (M_bind_ret _ _ w2 (uuid_text (fat_id c ++ fat_name c ++ [0])) w2).
  2:{ unfold M_lift. destruct (fat_uuid_bytes Hlen). by rewrite uuid_text_ok. }
  apply identified; [|exact Hw2|reflexivity..|].
  - assert (Hk : Fat.fat_type priv = fat_kind c) by exact Ht. unfold labels. rewrite Hk.
    rewrite <-trimmed_stripped, <-fat_serial_text; [|apply fat_id_bytes; done..].
    replace (if fat_kind c =? 12 then _ else _) with (fat_version (fat_kind c)) by (unfold fat_version; repeat case_match; done).
    unfold fat_label. generalize (fat_id c), (fat_name c), (fat_kind c), (is_esp d). intros. repeat (apply Forall2_cons_2; [apply add_identifier_ok|]). apply Forall2_nil_2.
  - cbn [flags describe]. unfold fsck_told, check_due, unclean, fat_kind. by destruct (negb (Z.land _ _ =? _)).
Qed.

(** *** Probes *)

Lemma slice_slice (o k a n : nat) (l : list Z) : (o + k <= n)%nat → slice o k (slice a n l) = slice (a + o) k l.
Proof. intros H. unfold slice. rewrite skipn_firstn_comm, take_take, drop_drop. f_equal. lia. Qed.

Lemma slice_0 n (l : list Z) : slice 0 n l = take n l.
Proof. reflexivity. Qed.

Abbreviation leading_bytes := (take (Z.to_nat 65536) c).

Lemma biosboot_probe_ok : biosboot_probe d = Ret (bool_decide (gpt_type d = Some biosboot_guid)).
Proof.
  unfold biosboot_probe, gpt_type. destruct (part d) as [p|]; [|reflexivity]. destruct guids as (-> & _).
  destruct (table_type p); try reflexivity. cbn [mbind outcome_bind]. rewrite bool_decide_eq_true_2 by done. cbn [negb].
  f_equal. apply bool_decide_ext. split; congruence.
Qed.

Lemma extended_probe_ok : extended_probe d = bool_decide (mbr_type d = Some 0x05 ∨ mbr_type d = Some 0x0F).
Proof.
  unfold extended_probe, mbr_type. destruct (part d) as [p|]; [|reflexivity].
  destruct (table_type p); try reflexivity. rewrite bool_decide_eq_true_2 by done. cbn [andb].
  symmetry. destruct (Z.eqb_spec (mbr_system_id p) 0x05) as [E|E]; [apply bool_decide_eq_true; left; congruence|].
  destruct (Z.eqb_spec (mbr_system_id p) 0x0F) as [E'|E']; [apply bool_decide_eq_true; right; congruence|].
  apply bool_decide_eq_false. intros [?|?]; congruence.
Qed.

Lemma probe_ok h : 65536 <= Z.of_nat (length c) → probe h d leading_bytes 65536 = Ret (holds d c h).
Proof.
  intros Hlen. destruct (region_length content (bdev d) Hn) as [Hsize _]. destruct h; cbn [probe holds].
  - apply biosboot_probe_ok.
  - by rewrite extended_probe_ok.
  - unfold ext2_probe, superblock. rewrite !(proj2 (Z.ltb_ge _ _)) by (unfold sizeof_ext2_superblock; lia).
    rewrite Probe.slice_take by (unfold sizeof_ext2_superblock; lia). cbn [s_magic ext2_superblock_decode load_ext2_superblock].
    unfold le16toh, EXT2_SUPER_MAGIC. by destruct (_ =? _).
  - unfold iso9660_probe, volume_descriptor. rewrite (proj2 (Z.ltb_ge _ _)) by lia.
    rewrite Probe.slice_take, slice_slice by (unfold sizeof_iso9660_pvd; lia). do 3 f_equal.
  - unfold fat_probe, boot_sector. rewrite (proj2 (Z.ltb_ge _ _)) by (unfold Fat.sizeof_fat_bpb; lia).
    rewrite could_be_fat_ok, Hsize, take_take. cbn [mbind outcome_bind]. do 2 f_equal.
    rewrite Nat.min_l by (unfold Fat.sizeof_fat_bpb; lia).
    case_match; symmetry; [apply bool_decide_eq_true; eauto|apply bool_decide_eq_false; by intros [? ?]].
Qed.

Lemma first_handler_ok hs : 65536 <= Z.of_nat (length c) →
  first_handler d leading_bytes 65536 hs = Ret (first_holding d c (List.filter (λ h, negb (skipped d h)) hs)).
Proof.
  intros Hlen. induction hs as [|h hs IH]; [done|]. cbn [first_handler List.filter]. destruct (skipped d h); cbn [negb]; [done|].
  rewrite probe_ok by done. cbn [mbind outcome_bind first_holding]. destruct (holds d c h); cbn [negb]; [done|exact IH].
Qed.

Lemma candidates_ok : List.filter (λ h, negb (skipped d h)) filesystem_handlers = candidates d.
Proof. unfold skipped, candidates. by destruct (has_table d). Qed.

Lemma leading_size_ok : leading_size d filesystem_handlers 65536 = 65536.
Proof. cbn [leading_size filesystem_handlers]. unfold skipped. destruct (has_table d); reflexivity. Qed.

Lemma first_holding_holds hs h : first_holding d c hs = Some h → holds d c h = true.
Proof. induction hs as [|h' hs IH]; cbn; [done|]. destruct (holds d c h') eqn:E; [congruence|done]. Qed.

Lemma inspect_ok now h : 65536 <= Z.of_nat (length c) → holds d c h = true → tame h c → inspected now h (inspect pread now h d).
Proof.
  intros Hlen Hh Ht. destruct h; cbn [inspect];
    [apply biosboot_inspected|apply extended_inspected|by apply ext2_inspected|by apply iso9660_inspected|by apply fat_inspected].
Qed.

Lemma inspect_filesystem_ok now w : 65536 <= Z.of_nat (length c) → works valid w →
  ∃ w', blockdevice_inspect_filesystem pread now d w =
    match first_holding d c (candidates d) with
    | Some h => inspect pread now h d w'
    | None => Ret ((if bool_decide (0 ∈ leading_bytes) then FILESYSTEM_ERROR_UNRECOGNIZED else FILESYSTEM_ERROR_ABSENT, None), w')
    end ∧ works valid w'.
Proof.
  intros Hlen Hw. unfold blockdevice_inspect_filesystem. rewrite leading_size_ok. cbv zeta.
  rewrite (M_bind_ret _ _ w true w) by by apply allocates. cbn [negb].
  destruct (region_read 65536 0 w Hw) as (l & w' & E & Hw' & Hl & El); [lia..|].
  rewrite Z2Nat.inj_0, slice_0 in Hl.
  exists w'. split; [|done]. rewrite (M_bind_ret _ _ _ _ _ E), El.
  rewrite (M_bind_ret _ _ w' (errno_ w') w') by done. rewrite Z.ltb_irrefl. cbn [andb].
  rewrite (M_bind_ret _ _ w' (first_holding d c (candidates d)) w').
  2:{ unfold M_lift. by rewrite Hl, first_handler_ok, candidates_ok. }
  destruct (first_holding d c (candidates d)); [done|]. rewrite <-Hl. by rewrite existsb_zero.
Qed.
End Works.

(** C24.  On a disk that works and with enough memory, a device of at least 65536
    bytes is inspected as the first handler, in their order, whose filesystem it
    holds (FAT as [fat_determine] recognises it), or only as a CD-ROM if it is
    partitioned.  If an ext2 volume name ends within its sixteen bytes and the
    first data sector of a FAT volume has a number of 32 bits ([tame]), the
    identifiers are those in its superblock, boot sector or volume descriptor,
    without those that are empty; it must be checked exactly if it is not marked
    clean, and should be checked exactly if it must or, for ext2, the mounts or
    the time between checks are used up; and, its path being absolute, it is
    found again by the specification it is mounted by.  A device that holds none
    of the filesystems is reported to be without. *)
Theorem filesystem_recognised {U} (pread : Z → Z → M U (errno + list Z)) valid content d now w :
  Disk pread valid content → nested content (bdev d) → works valid w →
  let c := region content (bdev d) in
  65536 <= Z.of_nat (length c) →
  (∀ h, first_holding d c (candidates d) = Some h → tame h c →
    ∃ fs w', blockdevice_inspect_filesystem pread now d w = Ret ((FILESYSTEM_ERROR_NONE, Some fs), w') ∧ works valid w' ∧
      fs_handler fs = h ∧ fs_device fs = d ∧ identifiers fs = ids_of (labels h d c) ∧
      negb (Z.land (flags fs) FILESYSTEM_FLAG_FSCK_MUST =? 0) = unclean h c ∧
      negb (Z.land (flags fs) FILESYSTEM_FLAG_FSCK_SHOULD =? 0) = check_due now h c ∧
      (head (device_path (bdev d)) = Some (ch "/") → filesystem_match fs (filesystem_get_mount_spec fs) = true)) ∧
  (first_holding d c (candidates d) = None →
    ∃ error w', blockdevice_inspect_filesystem pread now d w = Ret ((error, None), w') ∧ works valid w' ∧
      (error = FILESYSTEM_ERROR_UNRECOGNIZED ∨ error = FILESYSTEM_ERROR_ABSENT)).
Proof.
  intros HD Hn Hw c Hlen. destruct (inspect_filesystem_ok pread valid content d Hn now w Hlen Hw) as (w' & E & Hw').
  rewrite E. split; [intros h Hh Ht|intros Hh]; fold c; rewrite Hh.
  - pose proof (first_holding_holds content d _ h Hh) as Hholds.
    destruct (inspect_ok pread valid content d Hn now h Hlen Hholds Ht w' Hw') as (fs & w2 & E2 & Hw2 & H1 & H2 & H3 & H4 & H5).
    exists fs, w2. split_and!; [done..|]. intros Hp. apply mount_spec_matches. by rewrite H2.
  - eexists _, w'. split; [reflexivity|]. split; [done|]. destruct (bool_decide _); auto.
Qed.

(** A volume of 128 sectors, of which the filesystem uses twenty. *)
Definition sample_content : list Z := Fat.sample_volume ++ replicate (Z.to_nat (108 * 512)) 0.
Definition sample_device : device := Device (bdev_hd (image_disk_of sample_content)) None false.

Lemma filesystem_recognised_witness :
  ∃ fs w', blockdevice_inspect_filesystem (image_pread sample_content) 0 sample_device fresh =
      Ret ((FILESYSTEM_ERROR_NONE, Some fs), w') ∧ works (λ _, True) w' ∧
    fs_handler fs = fat_handler ∧ fs_device fs = sample_device ∧
    identifiers fs = ids_of (labels fat_handler sample_device sample_content) ∧
    negb (Z.land (flags fs) FILESYSTEM_FLAG_FSCK_MUST =? 0) = unclean fat_handler sample_content ∧
    negb (Z.land (flags fs) FILESYSTEM_FLAG_FSCK_SHOULD =? 0) = check_due 0 fat_handler sample_content ∧
    (head (device_path (bdev sample_device)) = Some (ch "/") → filesystem_match fs (filesystem_get_mount_spec fs) = true).
Proof.
  refine (proj1 (filesystem_recognised (image_pread sample_content) (λ _, True) sample_content sample_device 0 fresh _ _ _ _)
    fat_handler _ _).
  - apply image_disk; [|vm_compute; done]. apply (bool_decide_unpack _). by vm_compute.
  - vm_compute. reflexivity.
  - done.
  - vm_compute. discriminate.
  - vm_compute. reflexivity.
  - vm_compute. reflexivity.
Defined.

Example sample_labels :
  ids_of (labels fat_handler sample_device sample_content) =
    [lit "TYPE=fat"; lit "UUID=00000000-0000-0000-0000-000000000000"; lit "SERIAL=0000-0000"; lit "VERSION=FAT12"] ∧
  unclean fat_handler sample_content = false.
Proof. by vm_compute. Qed.
End Filesystem.
