(* ===== verification/Daemon.v ===== *)
(** * The daemons of init

    The part of [init/init.c] that decides which daemons run: the lists of
    daemons by state, the graph of dependencies with its counters, starting,
    stopping, restarting and reconfiguring daemons, and the requests that control
    them; and what it polls, with the loop that does all this, one step at a time.

    The fields of [struct daemon] that link daemons into lists and into the graph
    are held as one function per field, from the index of a daemon to its value;
    a dependency is a number that may be freed.  An assertion that fails, a use
    of freed memory and a write beyond an array end [init] with a cause.
    Configurations, the list of network interfaces, the clock and [fork] are
    given by the environment of every step, and what [ppoll], [read], [accept4] and
    [waitpid] give by its input.  Memory is taken to suffice: [init]
    gives up when it does not. *)

From S2P Require Import Prelude Timespec Printf.
From stdpp Require Import base decidable list numbers gmap strings.
From Stdlib Require Import ZArith Lia Ascii.

#[local] Open Scope c_scope.
#[local] Open Scope Z_scope.

Module Daemon.

(** ** Data *)

Inductive daemon_state :=
| DAEMON_STATE_TERMINATED
| DAEMON_STATE_SCHEDULED
| DAEMON_STATE_WAITING
| DAEMON_STATE_SATISFIED
| DAEMON_STATE_STARTING
| DAEMON_STATE_RUNNING
| DAEMON_STATE_TERMINATING
| DAEMON_STATE_FINISHING
| DAEMON_STATE_FINISHED.

Inductive daemon_type := TYPE_DAEMON | TYPE_ONESHOT.
Inductive meaning := EXIT_CODE_MEANING_DEFAULT | EXIT_CODE_MEANING_POWEROFF_REBOOT.
Inductive signal_target := SIGNAL_TO_PROCESS | SIGNAL_TO_GROUP.

#[global] Instance daemon_state_eq_dec : EqDecision daemon_state.
Proof. solve_decision. Defined.
#[global] Instance daemon_type_eq_dec : EqDecision daemon_type.
Proof. solve_decision. Defined.
#[global] Instance meaning_eq_dec : EqDecision meaning.
Proof. solve_decision. Defined.

Definition DEPENDENCY_FLAG_REQUIRE : Z := 1.
Definition DEPENDENCY_FLAG_AWAIT : Z := 2.
Definition DEPENDENCY_FLAG_EXIT_CODE : Z := 4.
Definition DEPENDENCY_STATUS_REFERENCED : Z := 1.
Definition DEPENDENCY_STATUS_READY : Z := 2.
Definition DEPENDENCY_STATUS_FINISHED : Z := 4.
Definition DEPENDENCY_STATUS_FAILED : Z := 8.

Definition SIGHUP : Z := 1.
Definition SIGINT : Z := 2.
Definition SIGQUIT : Z := 3.
Definition SIGKILL : Z := 9.
Definition SIGTERM : Z := 15.

Record dependency := Dependency { source : nat; target : nat; flags : Z; status : Z }.
Definition set_status (x : Z) (d : dependency) : dependency := Dependency (source d) (target d) (flags d) x.
Definition has (x bits : Z) : bool := negb (Z.land x bits =? 0).

(** A pointer to the arguments of a daemon: null, to memory that was freed, or to arguments. *)
Inductive argv_pointer := argv_null | argv_freed | argv_at (args : list (list Z)).
Definition has_argv (p : argv_pointer) : bool := match p with argv_null => false | _ => true end.

(** A daemon; [readyfd] and [outputfd] tell whether the descriptors are open. *)
Record daemon := Daemon {
  name : list Z;
  netif : option (list Z);
  cd : option (list Z);
  argv : argv_pointer;
  echo : bool;
  need_tty : bool;
  reload_signal : Z;
  signal_to : signal_target;
  type : daemon_type;
  exit_code_meaning : meaning;
  configured : bool;
  pid : Z;
  exit_code : Z;
  readyfd : bool;
  outputfd : bool;
  was_ready : bool;
  was_terminated : bool;
  want_reconfigure : bool;
  want_reload : bool;
  want_restart : bool;
  timeout_set : bool;
  timeout : Timespec.timespec;
}.

Definition set_netif (x : option (list Z)) (d : daemon) : daemon :=
  Daemon (name d) x (cd d) (argv d) (echo d) (need_tty d) (reload_signal d) (signal_to d) (type d) (exit_code_meaning d) (configured d) (pid d) (exit_code d) (readyfd d) (outputfd d) (was_ready d) (was_terminated d) (want_reconfigure d) (want_reload d) (want_restart d) (timeout_set d) (timeout d).
Definition set_argv (x : argv_pointer) (d : daemon) : daemon :=
  Daemon (name d) (netif d) (cd d) x (echo d) (need_tty d) (reload_signal d) (signal_to d) (type d) (exit_code_meaning d) (configured d) (pid d) (exit_code d) (readyfd d) (outputfd d) (was_ready d) (was_terminated d) (want_reconfigure d) (want_reload d) (want_restart d) (timeout_set d) (timeout d).
Definition set_exit_code_meaning (x : meaning) (d : daemon) : daemon :=
  Daemon (name d) (netif d) (cd d) (argv d) (echo d) (need_tty d) (reload_signal d) (signal_to d) (type d) x (configured d) (pid d) (exit_code d) (readyfd d) (outputfd d) (was_ready d) (was_terminated d) (want_reconfigure d) (want_reload d) (want_restart d) (timeout_set d) (timeout d).
Definition set_configured (x : bool) (d : daemon) : daemon :=
  Daemon (name d) (netif d) (cd d) (argv d) (echo d) (need_tty d) (reload_signal d) (signal_to d) (type d) (exit_code_meaning d) x (pid d) (exit_code d) (readyfd d) (outputfd d) (was_ready d) (was_terminated d) (want_reconfigure d) (want_reload d) (want_restart d) (timeout_set d) (timeout d).
Definition set_pid (x : Z) (d : daemon) : daemon :=
  Daemon (name d) (netif d) (cd d) (argv d) (echo d) (need_tty d) (reload_signal d) (signal_to d) (type d) (exit_code_meaning d) (configured d) x (exit_code d) (readyfd d) (outputfd d) (was_ready d) (was_terminated d) (want_reconfigure d) (want_reload d) (want_restart d) (timeout_set d) (timeout d).
Definition set_exit_code (x : Z) (d : daemon) : daemon :=
  Daemon (name d) (netif d) (cd d) (argv d) (echo d) (need_tty d) (reload_signal d) (signal_to d) (type d) (exit_code_meaning d) (configured d) (pid d) x (readyfd d) (outputfd d) (was_ready d) (was_terminated d) (want_reconfigure d) (want_reload d) (want_restart d) (timeout_set d) (timeout d).
Definition set_readyfd (x : bool) (d : daemon) : daemon :=
  Daemon (name d) (netif d) (cd d) (argv d) (echo d) (need_tty d) (reload_signal d) (signal_to d) (type d) (exit_code_meaning d) (configured d) (pid d) (exit_code d) x (outputfd d) (was_ready d) (was_terminated d) (want_reconfigure d) (want_reload d) (want_restart d) (timeout_set d) (timeout d).
Definition set_outputfd (x : bool) (d : daemon) : daemon :=
  Daemon (name d) (netif d) (cd d) (argv d) (echo d) (need_tty d) (reload_signal d) (signal_to d) (type d) (exit_code_meaning d) (configured d) (pid d) (exit_code d) (readyfd d) x (was_ready d) (was_terminated d) (want_reconfigure d) (want_reload d) (want_restart d) (timeout_set d) (timeout d).
Definition set_was_ready (x : bool) (d : daemon) : daemon :=
  Daemon (name d) (netif d) (cd d) (argv d) (echo d) (need_tty d) (reload_signal d) (signal_to d) (type d) (exit_code_meaning d) (configured d) (pid d) (exit_code d) (readyfd d) (outputfd d) x (was_terminated d) (want_reconfigure d) (want_reload d) (want_restart d) (timeout_set d) (timeout d).
Definition set_was_terminated (x : bool) (d : daemon) : daemon :=
  Daemon (name d) (netif d) (cd d) (argv d) (echo d) (need_tty d) (reload_signal d) (signal_to d) (type d) (exit_code_meaning d) (configured d) (pid d) (exit_code d) (readyfd d) (outputfd d) (was_ready d) x (want_reconfigure d) (want_reload d) (want_restart d) (timeout_set d) (timeout d).
Definition set_want_reconfigure (x : bool) (d : daemon) : daemon :=
  Daemon (name d) (netif d) (cd d) (argv d) (echo d) (need_tty d) (reload_signal d) (signal_to d) (type d) (exit_code_meaning d) (configured d) (pid d) (exit_code d) (readyfd d) (outputfd d) (was_ready d) (was_terminated d) x (want_reload d) (want_restart d) (timeout_set d) (timeout d).
Definition set_want_reload (x : bool) (d : daemon) : daemon :=
  Daemon (name d) (netif d) (cd d) (argv d) (echo d) (need_tty d) (reload_signal d) (signal_to d) (type d) (exit_code_meaning d) (configured d) (pid d) (exit_code d) (readyfd d) (outputfd d) (was_ready d) (was_terminated d) (want_reconfigure d) x (want_restart d) (timeout_set d) (timeout d).
Definition set_want_restart (x : bool) (d : daemon) : daemon :=
  Daemon (name d) (netif d) (cd d) (argv d) (echo d) (need_tty d) (reload_signal d) (signal_to d) (type d) (exit_code_meaning d) (configured d) (pid d) (exit_code d) (readyfd d) (outputfd d) (was_ready d) (was_terminated d) (want_reconfigure d) (want_reload d) x (timeout_set d) (timeout d).
Definition set_timeout_set (x : bool) (d : daemon) : daemon :=
  Daemon (name d) (netif d) (cd d) (argv d) (echo d) (need_tty d) (reload_signal d) (signal_to d) (type d) (exit_code_meaning d) (configured d) (pid d) (exit_code d) (readyfd d) (outputfd d) (was_ready d) (was_terminated d) (want_reconfigure d) (want_reload d) (want_restart d) x (timeout d).
Definition set_timeout (x : Timespec.timespec) (d : daemon) : daemon :=
  Daemon (name d) (netif d) (cd d) (argv d) (echo d) (need_tty d) (reload_signal d) (signal_to d) (type d) (exit_code_meaning d) (configured d) (pid d) (exit_code d) (readyfd d) (outputfd d) (was_ready d) (was_terminated d) (want_reconfigure d) (want_reload d) (want_restart d) (timeout_set d) x.

Record dependency_config := DependencyConfig { target_name : list Z; config_flags : Z }.

(** The configuration of a daemon; [dependencies_length] is the room of the array. *)
Record daemon_config := DaemonConfig {
  config_name : list Z;
  config_dependencies : list dependency_config;
  config_dependencies_length : Z;
  config_cd : option (list Z);
  config_argv : option (list (list Z));
  config_exit_code_meaning : meaning;
  config_echo : bool;
  config_per_if : bool;
  config_need_tty : bool;
  config_reload : Z;
  config_signal_to : signal_target;
  config_type : daemon_type;
}.

(** An array of pointers: those in use, the room it is said to have and the room it has. *)
Record array := Array { items : list nat; array_length : Z; allocated : Z }.

(** The daemons by state. *)
Record state_lists := StateLists {
  state : nat → daemon_state;
  next_by_state : nat → option nat;
  prev_by_state : nat → option nat;
  first_daemon_by_state : daemon_state → option nat;
  last_daemon_by_state : daemon_state → option nat;
  count_daemon_by_state : daemon_state → Z;
}.

(** The dependencies of the daemons. *)
Record dependency_graph := DependencyGraph {
  dependencies : nat → array;
  dependents : nat → list nat;
  dependencies_ready : nat → Z;
  dependencies_finished : nat → Z;
  dependencies_failed : nat → Z;
  reference_count : nat → Z;
  exit_code_from : nat → option nat;
  edges : gmap nat dependency;
  next_edge : nat;
}.

(** What a poll descriptor is for: its type with the daemon or connection it belongs to, and so
    also [index_ptr]. *)
Inductive communication :=
| COMMUNICATION_TYPE_OUTPUT (owner : nat)
| COMMUNICATION_TYPE_READY (owner : nat)
| COMMUNICATION_TYPE_SERVER
| COMMUNICATION_TYPE_CONNECTION (owner : nat).

#[global] Instance communication_eq_dec : EqDecision communication.
Proof. solve_decision. Defined.

(** [pfds] and [communications], of which the first [pfds_used] are the [entries], each with
    its [revents]; the room of both arrays; what every [index_ptr] points to; and the
    connections, each with its [state]. *)
Record poll_table := PollTable {
  entries : list (communication * Z);
  pfds_length : Z;
  communications_length : Z;
  index_of : communication → nat;
  connections : gmap nat nat;
  next_connection : nat;
}.

(** The daemons, the signals sent, what [init] knows of a request to shut down, and what it
    polls. *)
Record system := System {
  daemons : list daemon;
  lists : state_lists;
  graph : dependency_graph;
  signals : list (Z * signal_target * Z);
  caught_exit_signal : Z;
  default_daemon_exit_code : Z;
  polled : poll_table;
}.

(** What the world outside gives a step: which names have no configuration, the
    configurations, the network interfaces, the time, the process that [fork] makes,
    and the names of signals. *)
Record environment := Environment {
  absent : list Z → bool;
  daemon_config_load : list Z → option daemon_config;
  if_nameindex : list (list Z);
  now : Timespec.timespec;
  fork : Z;
  str2sig : list Z → option Z;
  sig2str : Z → list Z;
}.

Definition update {K V} `{EqDecision K} (f : K → V) (k : K) (v : V) : K → V := λ k', if decide (k' = k) then v else f k'.

(** ** Effects *)

(** What ends [init]: the assertions, by function, and misuse of memory. *)
Inductive cause :=
| bad_pointer
| bad_argv
| beyond_array
| assert_insert_state_list
| assert_remove_state_list
| assert_unconfigure_state
| assert_dependency_status
| assert_not_configured
| assert_schedule
| assert_on_finished
| assert_not_referenced
| assert_dereference
| assert_reset
| assert_startup_error
| assert_reconfigure_netif
| assert_reconfigure_state
| assert_finish
| assert_wait
| assert_wait_source
| assert_start
| assert_on_exit
| assert_register
| assert_unregister.

#[global] Instance cause_eq_dec : EqDecision cause.
Proof. solve_decision. Defined.

Inductive result (A : Type) := Done (a : A) (s : system) | Aborted (why : cause).
Arguments Done {A} _ _.
Arguments Aborted {A} _.

Definition I (A : Type) : Type := system → result A.
#[global] Instance I_ret : MRet I := λ A a s, Done a s.
#[global] Instance I_bind : MBind I := λ A B f m s,
  match m s with Done a s' => f a s' | Aborted w => Aborted w end.

Definition assert (b : bool) (w : cause) : I () := λ s, if b then Done () s else Aborted w.
Definition get_system : I system := λ s, Done s s.
Definition modify (f : system → system) : I () := λ s, Done () (f s).
Definition skip : I () := mret ().

Definition set_daemons (x : list daemon) (s : system) : system := System x (lists s) (graph s) (signals s) (caught_exit_signal s) (default_daemon_exit_code s) (polled s).
Definition set_lists (x : state_lists) (s : system) : system := System (daemons s) x (graph s) (signals s) (caught_exit_signal s) (default_daemon_exit_code s) (polled s).
Definition set_graph (x : dependency_graph) (s : system) : system := System (daemons s) (lists s) x (signals s) (caught_exit_signal s) (default_daemon_exit_code s) (polled s).
Definition set_caught (x : Z) (s : system) : system := System (daemons s) (lists s) (graph s) (signals s) x (default_daemon_exit_code s) (polled s).
Definition set_default_exit_code (x : Z) (s : system) : system := System (daemons s) (lists s) (graph s) (signals s) (caught_exit_signal s) x (polled s).
Definition set_polled (x : poll_table) (s : system) : system := System (daemons s) (lists s) (graph s) (signals s) (caught_exit_signal s) (default_daemon_exit_code s) x.
Definition modify_graph (f : dependency_graph → dependency_graph) : I () := modify (λ s, set_graph (f (graph s)) s).

(** [*daemon], [*dependency] and stores to them. *)
Definition the_daemon (i : nat) : I daemon := λ s,
  match daemons s !! i with Some d => Done d s | None => Aborted bad_pointer end.
Definition the_dependency (e : nat) : I dependency := λ s,
  match edges (graph s) !! e with Some d => Done d s | None => Aborted bad_pointer end.
Definition set_daemon (i : nat) (f : daemon → daemon) : I () :=
  d ← the_daemon i; modify (λ s, set_daemons (<[i := f d]> (daemons s)) s).
Definition state_of (i : nat) : I daemon_state := λ s, Done (state (lists s) i) s.

Fixpoint each (f : nat → I ()) (l : list nat) : I () :=
  match l with [] => skip | x :: l => f x;; each f l end.

(** *** Fields of the graph *)

Definition set_edges (x : gmap nat dependency) (g : dependency_graph) : dependency_graph :=
  DependencyGraph (dependencies g) (dependents g) (dependencies_ready g) (dependencies_finished g) (dependencies_failed g)
    (reference_count g) (exit_code_from g) x (next_edge g).
Definition set_dependencies (x : nat → array) (g : dependency_graph) : dependency_graph :=
  DependencyGraph x (dependents g) (dependencies_ready g) (dependencies_finished g) (dependencies_failed g)
    (reference_count g) (exit_code_from g) (edges g) (next_edge g).
Definition set_dependents (x : nat → list nat) (g : dependency_graph) : dependency_graph :=
  DependencyGraph (dependencies g) x (dependencies_ready g) (dependencies_finished g) (dependencies_failed g)
    (reference_count g) (exit_code_from g) (edges g) (next_edge g).
Definition set_ready (x : nat → Z) (g : dependency_graph) : dependency_graph :=
  DependencyGraph (dependencies g) (dependents g) x (dependencies_finished g) (dependencies_failed g)
    (reference_count g) (exit_code_from g) (edges g) (next_edge g).
Definition set_finished (x : nat → Z) (g : dependency_graph) : dependency_graph :=
  DependencyGraph (dependencies g) (dependents g) (dependencies_ready g) x (dependencies_failed g)
    (reference_count g) (exit_code_from g) (edges g) (next_edge g).
Definition set_failed (x : nat → Z) (g : dependency_graph) : dependency_graph :=
  DependencyGraph (dependencies g) (dependents g) (dependencies_ready g) (dependencies_finished g) x
    (reference_count g) (exit_code_from g) (edges g) (next_edge g).
Definition set_reference_count (x : nat → Z) (g : dependency_graph) : dependency_graph :=
  DependencyGraph (dependencies g) (dependents g) (dependencies_ready g) (dependencies_finished g) (dependencies_failed g)
    x (exit_code_from g) (edges g) (next_edge g).
Definition set_exit_code_from (x : nat → option nat) (g : dependency_graph) : dependency_graph :=
  DependencyGraph (dependencies g) (dependents g) (dependencies_ready g) (dependencies_finished g) (dependencies_failed g)
    (reference_count g) x (edges g) (next_edge g).

(** [dependency->status] with bits set or cleared. *)
Definition store_status (e : nat) (f : Z → Z) : I () :=
  d ← the_dependency e; modify_graph (λ g, set_edges (<[e := set_status (f (status d)) d]> (edges g)) g).
Definition bump (get_ : dependency_graph → nat → Z) (set_ : (nat → Z) → dependency_graph → dependency_graph) (i : nat) (by_ : Z) : I () :=
  modify_graph (λ g, set_ (update (get_ g) i (get_ g i + by_)) g).

(** ** Communications *)

Definition pfds_used (p : poll_table) : nat := length (entries p).

(** The new length of an array with room for [required] more than are used. *)
Definition reserved_length (length_ used required : Z) : Z :=
  if length_ - used <? required then (if length_ =? 0 then required else length_) * 2 else length_.

Definition communication_reserve (required : Z) : I () :=
  modify (λ s, let p := polled s in let used := Z.of_nat (pfds_used p) in
    set_polled (PollTable (entries p) (reserved_length (pfds_length p) used required)
      (reserved_length (communications_length p) used required) (index_of p) (connections p) (next_connection p)) s).

Definition communication_register (c : communication) : I () :=
  s ← get_system;
  let p := polled s in
  let used := Z.of_nat (pfds_used p) in
  assert (used <? pfds_length p) assert_register;;
  assert (used <? communications_length p) assert_register;;
  modify (set_polled (PollTable (entries p ++ [(c, 0)]) (pfds_length p) (communications_length p)
    (update (index_of p) c (pfds_used p)) (connections p) (next_connection p))).

(** The last entry takes the place of the one at [index]. *)
Definition communication_unregister (index : nat) : I () :=
  s ← get_system;
  let p := polled s in
  let used := Z.of_nat (pfds_used p) in
  assert (used <=? pfds_length p) assert_unregister;;
  assert (used <=? communications_length p) assert_unregister;;
  assert (Z.of_nat index <? used) assert_unregister;;
  assert (Z.of_nat index <? communications_length p) assert_unregister;;
  let last_index := (pfds_used p - 1)%nat in
  let '(last, revents) := nth last_index (entries p) (COMMUNICATION_TYPE_SERVER, 0) in
  modify (set_polled (PollTable
    (take last_index (if (index =? last_index)%nat then entries p else <[index := (last, revents)]> (entries p)))
    (pfds_length p) (communications_length p)
    (if (index =? last_index)%nat then index_of p else update (index_of p) last index)
    (connections p) (next_connection p))).

(** ** Lists by state *)

Definition daemon_insert_state_list (i : nat) : I () :=
  s ← get_system;
  let l := lists s in
  let st := state l i in
  assert (bool_decide (prev_by_state l i = None)) assert_insert_state_list;;
  assert (bool_decide (next_by_state l i = None)) assert_insert_state_list;;
  assert (negb (bool_decide (first_daemon_by_state l st = Some i))) assert_insert_state_list;;
  assert (negb (bool_decide (last_daemon_by_state l st = Some i))) assert_insert_state_list;;
  let last := last_daemon_by_state l st in
  let next := update (next_by_state l) i None in
  modify (set_lists (StateLists (state l)
    (match last with Some k => update next k (Some i) | None => next end)
    (update (prev_by_state l) i last)
    (match last with Some _ => first_daemon_by_state l | None => update (first_daemon_by_state l) st (Some i) end)
    (update (last_daemon_by_state l) st (Some i))
    (update (count_daemon_by_state l) st (count_daemon_by_state l st + 1)))).

Definition daemon_remove_state_list (i : nat) : I () :=
  s ← get_system;
  let l := lists s in
  let st := state l i in
  let prev := prev_by_state l i in
  let next := next_by_state l i in
  assert (bool_decide (prev ≠ None) || bool_decide (first_daemon_by_state l st = Some i)) assert_remove_state_list;;
  assert (bool_decide (next ≠ None) || bool_decide (last_daemon_by_state l st = Some i)) assert_remove_state_list;;
  assert (0 <? count_daemon_by_state l st) assert_remove_state_list;;
  modify (set_lists (StateLists (state l)
    (update (match prev with Some p => update (next_by_state l) p next | None => next_by_state l end) i None)
    (update (match next with Some n => update (prev_by_state l) n prev | None => prev_by_state l end) i None)
    (match prev with Some _ => first_daemon_by_state l | None => update (first_daemon_by_state l) st next end)
    (match next with Some _ => last_daemon_by_state l | None => update (last_daemon_by_state l) st prev end)
    (update (count_daemon_by_state l) st (count_daemon_by_state l st - 1)))).

Definition set_state (i : nat) (st : daemon_state) : I () :=
  modify (λ s, let l := lists s in
    set_lists (StateLists (update (state l) i st) (next_by_state l) (prev_by_state l) (first_daemon_by_state l)
                 (last_daemon_by_state l) (count_daemon_by_state l)) s).

Definition daemon_change_state_list (i : nat) (new_state : daemon_state) : I () :=
  daemon_remove_state_list i;; set_state i new_state;; daemon_insert_state_list i.

(** ** Daemons *)

Definition zero_daemon (name_ : list Z) : daemon :=
  Daemon name_ None None argv_null false false 0 SIGNAL_TO_PROCESS TYPE_DAEMON EXIT_CODE_MEANING_DEFAULT false
    0 0 false false false false false false false false (Timespec.Timespec 0 0).

(** [calloc] for a daemon, and its place in [daemons]. *)
Definition add_daemon (name_ : list Z) : I nat :=
  s ← get_system;
  let i := length (daemons s) in
  let l := lists s in
  let g := graph s in
  modify (λ s, System (daemons s ++ [zero_daemon name_])
    (StateLists (update (state l) i DAEMON_STATE_TERMINATED) (update (next_by_state l) i None) (update (prev_by_state l) i None)
       (first_daemon_by_state l) (last_daemon_by_state l) (count_daemon_by_state l))
    (DependencyGraph (update (dependencies g) i (Array [] 0 0)) (update (dependents g) i []) (update (dependencies_ready g) i 0)
       (update (dependencies_finished g) i 0) (update (dependencies_failed g) i 0) (update (reference_count g) i 0)
       (update (exit_code_from g) i None) (edges g) (next_edge g))
    (signals s) (caught_exit_signal s) (default_daemon_exit_code s) (polled s));;
  mret i.

Fixpoint find_index {A} (f : A → bool) (l : list A) : option nat :=
  match l with [] => None | x :: l => if f x then Some 0%nat else S <$> find_index f l end.

Definition daemon_find_by_name (name_ : list Z) : I (option nat) :=
  λ s, Done (find_index (λ d, bool_decide (name d = name_)) (daemons s)) s.
Definition daemon_find_by_pid (pid_ : Z) : I (option nat) :=
  λ s, Done (find_index (λ d, pid d =? pid_) (daemons s)) s.

Definition WNATURE_EXITED : Z := 0.
Definition WNATURE_SIGNALED : Z := 1.
Definition WEXITSTATUS (x : Z) : Z := Z.land (Z.shiftr x 8) 0xFF.
Definition WTERMSIG (x : Z) : Z := Z.land (Z.shiftr x 0) 0x7F.
Definition WNATURE (x : Z) : Z := Z.land (Z.shiftr x 16) 0xFF.
Definition WIFEXITED (x : Z) : bool := WNATURE x =? WNATURE_EXITED.
Definition WIFSIGNALED (x : Z) : bool := WNATURE x =? WNATURE_SIGNALED.
Definition WCONSTRUCT (nature exitcode signal : Z) : Z :=
  Z.lor (Z.shiftl (Z.land nature 0xFF) 16) (Z.lor (Z.shiftl (Z.land exitcode 0xFF) 8) (Z.shiftl (Z.land signal 0x7F) 0)).

Definition daemon_is_failed (d : daemon) : bool :=
  if was_terminated d && WIFSIGNALED (exit_code d) && (WTERMSIG (exit_code d) =? SIGTERM) then false
  else match exit_code_meaning d with
       | EXIT_CODE_MEANING_DEFAULT => negb (WIFEXITED (exit_code d)) || negb (WEXITSTATUS (exit_code d) =? 0)
       | EXIT_CODE_MEANING_POWEROFF_REBOOT => negb (WIFEXITED (exit_code d)) || (4 <=? WEXITSTATUS (exit_code d))
       end.

Definition daemon_create_unconfigured (name_ : list Z) : I nat :=
  i ← add_daemon name_; daemon_insert_state_list i;; mret i.

Definition daemon_find_or_create (env : environment) (name_ : list Z) : I (option nat) :=
  found ← daemon_find_by_name name_;
  match found with
  | Some i => mret (Some i)
  | None => if absent env name_ then mret None else i ← daemon_create_unconfigured name_; mret (Some i)
  end.

(** ** Dependencies *)

Fixpoint daemon_find_dependency (deps : list nat) (name_ : list Z) : I (option nat) :=
  match deps with
  | [] => mret None
  | e :: deps =>
      d ← the_dependency e; t ← the_daemon (target d);
      if bool_decide (name t = name_) then mret (Some e) else daemon_find_dependency deps name_
  end.

(** [array_add]: the array grows when all the room it is said to have is used. *)
Definition array_add (a : array) (x : nat) : option array :=
  if Z.of_nat (length (items a)) =? array_length a
  then let n := (if array_length a =? 0 then 4 else array_length a) * 2 in Some (Array (items a ++ [x]) n n)
  else if Z.of_nat (length (items a)) <? allocated a then Some (Array (items a ++ [x]) (array_length a) (allocated a))
  else None.

Definition daemon_add_dependency (i j : nat) (flags_ : Z) : I nat :=
  s ← get_system;
  let g := graph s in
  let e := next_edge g in
  match array_add (dependencies g i) e with
  | None => λ _, Aborted beyond_array
  | Some a =>
      modify_graph (λ g,
        DependencyGraph (update (dependencies g) i a) (update (dependents g) j (dependents g j ++ [e]))
          (dependencies_ready g) (dependencies_finished g) (dependencies_failed g) (reference_count g)
          (if has flags_ DEPENDENCY_FLAG_EXIT_CODE then update (exit_code_from g) i (Some e) else exit_code_from g)
          (<[e := Dependency i j flags_ 0]> (edges g)) (S e));;
      mret e
  end.

(** A pointer taken out of an array, the last one taking its place. *)
Definition swap_remove (e : nat) (l : list nat) : list nat :=
  match find_index (Nat.eqb e) l with
  | None => l
  | Some n =>
      let last := (length l - 1)%nat in
      if (n =? last)%nat then take last l else take last (<[n := nth last l 0%nat]> l)
  end.

(** The dependency is taken out of the dependents of its target and freed. *)
Definition free_dependency (e : nat) : I () :=
  d ← the_dependency e;
  modify_graph (λ g, set_edges (delete e (edges g))
    (set_dependents (update (dependents g) (target d) (swap_remove e (dependents g (target d)))) g)).

Definition daemon_unconfigure (i : nat) : I () :=
  st ← state_of i;
  assert (bool_decide (st = DAEMON_STATE_TERMINATED) || bool_decide (st = DAEMON_STATE_FINISHED)) assert_unconfigure_state;;
  s ← get_system;
  each (λ e, d ← the_dependency e; assert (status d =? 0) assert_dependency_status;; free_dependency e) (items (dependencies (graph s) i));;
  modify_graph (λ g,
    DependencyGraph (update (dependencies g) i (Array [] 0 0)) (dependents g) (update (dependencies_ready g) i 0)
      (update (dependencies_finished g) i 0) (update (dependencies_failed g) i 0) (reference_count g)
      (update (exit_code_from g) i None) (edges g) (next_edge g));;
  d ← the_daemon i;
  assert (match argv d with argv_freed => false | _ => true end) bad_argv;;
  set_daemon i (λ d,
    Daemon (name d) (netif d) None (match argv d with argv_null => argv_null | _ => argv_freed end) false false SIGHUP
      SIGNAL_TO_PROCESS TYPE_DAEMON EXIT_CODE_MEANING_DEFAULT false (pid d) (exit_code d) (readyfd d) (outputfd d)
      (was_ready d) (was_terminated d) false (want_reload d) (want_restart d) (timeout_set d) (timeout d)).

(** The dependencies of a configuration. *)
Fixpoint configure_dependencies (i : nat) (deps : list dependency_config) : I () :=
  match deps with
  | [] => skip
  | c :: deps =>
      found ← daemon_find_by_name (target_name c);
      j ← (match found with Some j => mret j | None => daemon_create_unconfigured (target_name c) end);
      t ← the_daemon j;
      (if bool_decide (netif t ≠ None) then skip else daemon_add_dependency i j (config_flags c);; skip);;
      configure_dependencies i deps
  end.

Definition daemon_configure_sub (i : nat) (c : daemon_config) (netif_ : option (list Z)) : I () :=
  d ← the_daemon i;
  assert (negb (configured d)) assert_not_configured;;
  modify_graph (λ g, set_dependencies
    (update (dependencies g) i (Array [] (config_dependencies_length c) (Z.of_nat (length (config_dependencies c))))) g);;
  configure_dependencies i (config_dependencies c);;
  set_daemon i (λ d,
    Daemon (name d) (match netif_ with Some n => Some n | None => netif d end)
      (match config_cd c with Some x => Some x | None => cd d end)
      (match config_argv c with
       | Some l => argv_at (match netif_ with Some n => l ++ [n] | None => l end)
       | None => argv d
       end)
      (config_echo c) (config_need_tty c) (config_reload c) (config_signal_to c) (config_type c) (config_exit_code_meaning c) true
      (pid d) (exit_code d) (readyfd d) (outputfd d) (was_ready d) (was_terminated d) (want_reconfigure d) (want_reload d)
      (want_restart d) (timeout_set d) (timeout d)).

(** The daemon of every network interface. *)
Fixpoint configure_interfaces (i : nat) (c : daemon_config) (ifs : list (list Z)) : I () :=
  match ifs with
  | [] => skip
  | n :: ifs =>
      let name_ := config_name c ++ lit "." ++ n in
      found ← daemon_find_by_name name_;
      j ← (match found with Some j => mret j | None => daemon_create_unconfigured name_ end);
      p ← the_daemon j;
      (if negb (configured p) then set_daemon j (set_netif (Some n));; daemon_configure_sub j c (Some n) else skip);;
      daemon_add_dependency i j (Z.lor DEPENDENCY_FLAG_REQUIRE DEPENDENCY_FLAG_AWAIT);;
      configure_interfaces i c ifs
  end.

Definition daemon_configure (env : environment) (i : nat) (c : daemon_config) : I () :=
  if config_per_if c then configure_interfaces i c (if_nameindex env);; set_daemon i (set_configured true)
  else daemon_configure_sub i c None.

Definition daemon_create (env : environment) (c : daemon_config) : I nat :=
  i ← daemon_create_unconfigured (config_name c); daemon_configure env i c;; mret i.

(** ** Changes of state *)

Definition daemon_schedule (i : nat) : I () :=
  st ← state_of i;
  assert (bool_decide (st = DAEMON_STATE_TERMINATED)) assert_schedule;;
  daemon_change_state_list i DAEMON_STATE_SCHEDULED.

Definition reset_bit (e : nat) (bit : Z) (get_ : dependency_graph → nat → Z) (set_ : (nat → Z) → dependency_graph → dependency_graph) : I () :=
  d ← the_dependency e;
  if has (status d) bit then bump get_ set_ (source d) (-1);; store_status e (λ x, Z.land x (Z.lnot bit)) else skip.

Definition daemon_reset_dependency (e : nat) : I () :=
  reset_bit e DEPENDENCY_STATUS_READY dependencies_ready set_ready;;
  reset_bit e DEPENDENCY_STATUS_FINISHED dependencies_finished set_finished;;
  reset_bit e DEPENDENCY_STATUS_FAILED dependencies_failed set_failed.

Definition daemon_on_finished (i : nat) : I () :=
  st ← state_of i;
  assert (negb (bool_decide (st = DAEMON_STATE_FINISHING))) assert_on_finished;;
  assert (negb (bool_decide (st = DAEMON_STATE_FINISHED))) assert_on_finished;;
  daemon_change_state_list i DAEMON_STATE_FINISHING.

Definition send_signal_to (pid_ : Z) (to : signal_target) (sig : Z) : I () :=
  modify (λ s, System (daemons s) (lists s) (graph s) (signals s ++ [(pid_, to, sig)])
    (caught_exit_signal s) (default_daemon_exit_code s) (polled s)).

(** Thirty seconds from now; the clock gives a canonical time. *)
Definition deadline (t : Timespec.timespec) : Timespec.timespec :=
  match Timespec.timespec_add t (Timespec.Timespec 30 0) with Ret r => r | _ => t end.

Definition daemon_terminate (env : environment) (i : nat) : I () :=
  st ← state_of i;
  d ← the_daemon i;
  if negb (bool_decide (st ∈ [DAEMON_STATE_SCHEDULED; DAEMON_STATE_SATISFIED; DAEMON_STATE_STARTING; DAEMON_STATE_RUNNING])) then skip
  else if was_terminated d then skip
  else
    set_daemon i (λ d, set_want_reload false (set_want_restart false (set_was_terminated true d)));;
    daemon_change_state_list i DAEMON_STATE_TERMINATING;;
    if 0 <? pid d
    then send_signal_to (pid d) (signal_to d) SIGTERM;;
         set_daemon i (λ d, set_timeout_set true (set_timeout (deadline (now env)) d))
    else daemon_on_finished i.

Definition daemon_reload (i : nat) : I () :=
  st ← state_of i;
  d ← the_daemon i;
  match st with
  | DAEMON_STATE_STARTING => set_daemon i (set_want_reload true)
  | DAEMON_STATE_RUNNING =>
      (if 0 <? pid d then send_signal_to (pid d) (signal_to d) (reload_signal d) else skip);;
      set_daemon i (set_want_reload false)
  | _ => skip
  end.

Definition daemon_signal (i : nat) (sig : Z) : I () :=
  st ← state_of i;
  d ← the_daemon i;
  if negb (bool_decide (st ∈ [DAEMON_STATE_STARTING; DAEMON_STATE_RUNNING; DAEMON_STATE_TERMINATING])) then skip
  else if 0 <? pid d then send_signal_to (pid d) (signal_to d) sig else skip.

Definition daemon_on_not_referenced (env : environment) (i : nat) : I () :=
  s ← get_system;
  assert (reference_count (graph s) i =? 0) assert_not_referenced;;
  set_daemon i (λ d, set_want_reload false (set_want_restart false d));;
  match state (lists s) i with
  | DAEMON_STATE_TERMINATED => skip
  | DAEMON_STATE_SCHEDULED | DAEMON_STATE_WAITING | DAEMON_STATE_SATISFIED => daemon_change_state_list i DAEMON_STATE_FINISHING
  | DAEMON_STATE_STARTING | DAEMON_STATE_RUNNING => daemon_terminate env i
  | DAEMON_STATE_TERMINATING | DAEMON_STATE_FINISHING | DAEMON_STATE_FINISHED => skip
  end.

Definition daemon_dereference (env : environment) (i : nat) : I () :=
  s ← get_system;
  assert (0 <? reference_count (graph s) i) assert_dereference;;
  bump reference_count set_reference_count i (-1);;
  if reference_count (graph s) i - 1 =? 0 then daemon_on_not_referenced env i else skip.

Definition daemon_dereference_dependency (env : environment) (e : nat) : I () :=
  d ← the_dependency e;
  if has (status d) DEPENDENCY_STATUS_REFERENCED
  then daemon_reset_dependency e;; daemon_dereference env (target d);;
       store_status e (λ x, Z.land x (Z.lnot DEPENDENCY_STATUS_REFERENCED))
  else assert (status d =? 0) assert_dependency_status.

(** The loops over dependencies and dependents call nothing that changes the arrays. *)
Definition daemon_dereference_dependencies (env : environment) (i : nat) : I () :=
  s ← get_system; each (daemon_dereference_dependency env) (items (dependencies (graph s) i)).

Definition daemon_consider_satisfied (i : nat) : I () :=
  s ← get_system;
  if bool_decide (state (lists s) i = DAEMON_STATE_WAITING) &&
     (dependencies_ready (graph s) i =? Z.of_nat (length (items (dependencies (graph s) i))))
  then daemon_change_state_list i DAEMON_STATE_SATISFIED else skip.

Definition set_bit (e : nat) (bit : Z) (get_ : dependency_graph → nat → Z) (set_ : (nat → Z) → dependency_graph → dependency_graph) : I () :=
  d ← the_dependency e;
  if negb (has (status d) bit) then bump get_ set_ (source d) 1;; store_status e (λ x, Z.lor x bit) else skip.

Definition daemon_on_dependency_ready (e : nat) : I () :=
  d ← the_dependency e;
  set_bit e DEPENDENCY_STATUS_READY dependencies_ready set_ready;;
  daemon_consider_satisfied (source d).

Definition daemon_mark_ready (i : nat) : I () :=
  set_daemon i (set_was_ready true);;
  s ← get_system;
  each (λ e, d ← the_dependency e; if has (flags d) DEPENDENCY_FLAG_AWAIT then daemon_on_dependency_ready e else skip)
    (dependents (graph s) i).

Definition daemon_on_ready (i : nat) : I () :=
  daemon_change_state_list i DAEMON_STATE_RUNNING;;
  d ← the_daemon i;
  (if want_reload d then daemon_reload i else skip);;
  daemon_mark_ready i.

Definition daemon_on_dependency_finished (e : nat) : I () :=
  dep ← the_dependency e;
  let i := source dep in
  t ← the_daemon (target dep);
  target_state ← state_of (target dep);
  if negb (bool_decide (target_state = DAEMON_STATE_FINISHED)) then skip
  else
    let failed := has (flags dep) DEPENDENCY_FLAG_REQUIRE && daemon_is_failed t in
    set_bit e DEPENDENCY_STATUS_FINISHED dependencies_finished set_finished;;
    (if failed : bool then set_bit e DEPENDENCY_STATUS_FAILED dependencies_failed set_failed else skip);;
    s ← get_system;
    d ← the_daemon i;
    let st := state (lists s) i in
    let g := graph s in
    if bool_decide (st ∈ [DAEMON_STATE_FINISHING; DAEMON_STATE_FINISHED]) then skip
    else if has_argv (argv d) && bool_decide (st ∈ [DAEMON_STATE_STARTING; DAEMON_STATE_RUNNING; DAEMON_STATE_TERMINATING]) then skip
    else if bool_decide (exit_code_from g i ≠ None) && has (flags dep) DEPENDENCY_FLAG_EXIT_CODE
    then set_daemon i (λ d, set_exit_code_meaning (exit_code_meaning t) (set_exit_code (exit_code t) d));; daemon_on_finished i
    else
      (if failed then set_daemon i (set_exit_code (WCONSTRUCT WNATURE_EXITED 3 0)) else skip);;
      if failed || (negb (has_argv (argv d)) && bool_decide (type d = TYPE_ONESHOT) &&
                    (dependencies_finished g i =? Z.of_nat (length (items (dependencies g i)))))
      then daemon_on_finished i else skip.

Definition daemon_reset (i : nat) (new_state : daemon_state) : I () :=
  assert (bool_decide (new_state = DAEMON_STATE_TERMINATED) || bool_decide (new_state = DAEMON_STATE_FINISHED)) assert_reset;;
  daemon_change_state_list i new_state;;
  s ← get_system;
  each (λ e, match new_state with
             | DAEMON_STATE_TERMINATED => daemon_reset_dependency e
             | DAEMON_STATE_FINISHED => daemon_on_dependency_finished e
             | _ => skip
             end) (dependents (graph s) i);;
  set_daemon i (λ d, set_timeout_set false (set_was_terminated false (set_was_ready false d))).

Definition daemon_request_restart (env : environment) (i : nat) : I () :=
  s ← get_system;
  d ← the_daemon i;
  let st := state (lists s) i in
  if reference_count (graph s) i =? 0 then skip
  else if bool_decide (st ∈ [DAEMON_STATE_SCHEDULED; DAEMON_STATE_WAITING; DAEMON_STATE_SATISFIED]) then skip
  else
    (if negb (want_restart d)
     then (if bool_decide (st ∈ [DAEMON_STATE_STARTING; DAEMON_STATE_RUNNING]) then daemon_terminate env i else skip);;
          set_daemon i (set_want_restart true)
     else skip);;
    st ← state_of i;
    (if bool_decide (st ∈ [DAEMON_STATE_TERMINATED; DAEMON_STATE_FINISHED])
     then daemon_reset i DAEMON_STATE_TERMINATED;; set_daemon i (set_want_restart false)
     else skip);;
    st ← state_of i;
    if bool_decide (st = DAEMON_STATE_TERMINATED) then daemon_schedule i else skip.

Definition daemon_on_startup_error (env : environment) (i : nat) : I () :=
  st ← state_of i;
  assert (negb (bool_decide (st = DAEMON_STATE_FINISHING))) assert_startup_error;;
  assert (negb (bool_decide (st = DAEMON_STATE_FINISHED))) assert_startup_error;;
  daemon_change_state_list i DAEMON_STATE_FINISHING;;
  d ← the_daemon i;
  if want_restart d then daemon_request_restart env i else skip.

Definition daemon_load_and_configure (env : environment) (i : nat) : I bool :=
  d ← the_daemon i;
  assert (negb (configured d)) assert_not_configured;;
  match daemon_config_load env (name d) with
  | None =>
      set_daemon i (λ d, set_want_restart false (set_exit_code (WCONSTRUCT WNATURE_EXITED 3 0) d));;
      daemon_on_startup_error env i;;
      mret false
  | Some c => daemon_configure env i c;; mret true
  end.

Definition daemon_reconfigure (env : environment) (i : nat) : I () :=
  d ← the_daemon i;
  st ← state_of i;
  assert (bool_decide (netif d = None)) assert_reconfigure_netif;;
  assert (bool_decide (st = DAEMON_STATE_TERMINATED) || bool_decide (st = DAEMON_STATE_FINISHED)) assert_reconfigure_state;;
  daemon_unconfigure i;;
  daemon_load_and_configure env i;;
  skip.

Definition daemon_request_reconfigure (env : environment) (i : nat) : I () :=
  d ← the_daemon i;
  if bool_decide (netif d ≠ None) then skip
  else
    (if negb (want_reconfigure d)
     then
       st ← state_of i;
       let should_run := bool_decide (st ∈ [DAEMON_STATE_WAITING; DAEMON_STATE_SATISFIED; DAEMON_STATE_STARTING; DAEMON_STATE_RUNNING]) in
       (if bool_decide (st ∈ [DAEMON_STATE_STARTING; DAEMON_STATE_RUNNING]) then daemon_terminate env i else skip);;
       set_daemon i (λ d, set_want_restart should_run (set_want_reconfigure true d))
     else skip);;
    st ← state_of i;
    if bool_decide (st ∈ [DAEMON_STATE_TERMINATED; DAEMON_STATE_FINISHED]) then daemon_reconfigure env i else skip.

Definition daemon_kill (i : nat) : I () :=
  st ← state_of i;
  d ← the_daemon i;
  if negb (bool_decide (st ∈ [DAEMON_STATE_SCHEDULED; DAEMON_STATE_SATISFIED; DAEMON_STATE_STARTING; DAEMON_STATE_RUNNING;
                              DAEMON_STATE_TERMINATING])) then skip
  else
    set_daemon i (λ d, set_want_reload false (set_want_restart false (set_was_terminated true d)));;
    daemon_change_state_list i DAEMON_STATE_TERMINATING;;
    if 0 <? pid d then send_signal_to (pid d) (signal_to d) SIGKILL;; set_daemon i (set_timeout_set false)
    else daemon_on_finished i.

Definition daemon_on_referenced (env : environment) (i : nat) : I () :=
  st ← state_of i;
  d ← the_daemon i;
  match st with
  | DAEMON_STATE_TERMINATED => daemon_schedule i
  | DAEMON_STATE_TERMINATING | DAEMON_STATE_FINISHING =>
      if bool_decide (type d = TYPE_DAEMON) then daemon_request_restart env i else skip
  | _ => skip
  end.

Definition daemon_reference (env : environment) (i : nat) : I () :=
  s ← get_system;
  bump reference_count set_reference_count i 1;;
  if reference_count (graph s) i + 1 =? 1 then daemon_on_referenced env i else skip.

Definition daemon_reference_dependency (env : environment) (e : nat) : I () :=
  d ← the_dependency e;
  if negb (has (status d) DEPENDENCY_STATUS_REFERENCED)
  then assert (status d =? 0) assert_dependency_status;; daemon_reference env (target d);;
       store_status e (λ x, Z.lor x DEPENDENCY_STATUS_REFERENCED)
  else skip.

Definition daemon_wait_dependency (env : environment) (e : nat) : I () :=
  daemon_reference_dependency env e;;
  d ← the_dependency e;
  t ← the_daemon (target d);
  st ← state_of (target d);
  match st with
  | DAEMON_STATE_TERMINATED | DAEMON_STATE_SCHEDULED | DAEMON_STATE_WAITING | DAEMON_STATE_SATISFIED | DAEMON_STATE_STARTING =>
      if negb (has (flags d) DEPENDENCY_FLAG_AWAIT) then daemon_on_dependency_ready e else skip
  | DAEMON_STATE_RUNNING => daemon_on_dependency_ready e
  | DAEMON_STATE_TERMINATING | DAEMON_STATE_FINISHING =>
      if bool_decide (type t = TYPE_ONESHOT) then daemon_on_dependency_ready e
      else if negb (has (flags d) DEPENDENCY_FLAG_AWAIT) then daemon_on_dependency_ready e
      else skip
  | DAEMON_STATE_FINISHED => daemon_on_dependency_ready e;; daemon_on_dependency_finished e
  end.

Definition daemon_depend (env : environment) (i j : nat) (flags_ : Z) : I bool :=
  d ← the_daemon i;
  if negb (configured d) then mret false
  else
    s ← get_system;
    t ← the_daemon j;
    found ← daemon_find_dependency (items (dependencies (graph s) i)) (name t);
    match found with
    | Some _ => mret true
    | None =>
        e ← daemon_add_dependency i j flags_;
        source_state ← state_of i;
        target_state ← state_of j;
        if bool_decide (source_state ∈ [DAEMON_STATE_TERMINATED; DAEMON_STATE_SCHEDULED; DAEMON_STATE_TERMINATING;
                                        DAEMON_STATE_FINISHING; DAEMON_STATE_FINISHED])
        then mret true
        else
          (if bool_decide (source_state = DAEMON_STATE_SATISFIED) &&
              bool_decide (target_state ∈ [DAEMON_STATE_TERMINATED; DAEMON_STATE_SCHEDULED; DAEMON_STATE_SATISFIED;
                                           DAEMON_STATE_STARTING])
           then daemon_change_state_list j DAEMON_STATE_WAITING else skip);;
          daemon_wait_dependency env e;;
          mret true
    end.

(** The first dependency on the target. *)
Fixpoint find_target (deps : list nat) (j : nat) : I (option nat) :=
  match deps with
  | [] => mret None
  | e :: deps => d ← the_dependency e; if (target d =? j)%nat then mret (Some e) else find_target deps j
  end.

Definition daemon_undepend (env : environment) (i j : nat) : I () :=
  s ← get_system;
  let deps := dependencies (graph s) i in
  found ← find_target (items deps) j;
  match found with
  | None => skip
  | Some e =>
      modify_graph (λ g, set_dependents (update (dependents g) j (swap_remove e (dependents g j)))
        (set_dependencies (update (dependencies g) i (Array (swap_remove e (items deps)) (array_length deps) (allocated deps))) g));;
      daemon_dereference_dependency env e;;
      d ← the_dependency e;
      (if has (flags d) DEPENDENCY_FLAG_EXIT_CODE
       then modify_graph (λ g, set_exit_code_from (update (exit_code_from g) (source d) None) g) else skip);;
      modify_graph (λ g, set_edges (delete e (edges g)) g);;
      daemon_consider_satisfied i
  end.

Definition finished_state (d : daemon) (exits_from : option nat) : daemon_state :=
  if bool_decide (type d = TYPE_ONESHOT) ||
     bool_decide (exit_code_meaning d = EXIT_CODE_MEANING_POWEROFF_REBOOT) ||
     (bool_decide (type d = TYPE_DAEMON) && negb (was_terminated d) &&
      bool_decide (exit_code_meaning d = EXIT_CODE_MEANING_DEFAULT) && WIFEXITED (exit_code d) && (WEXITSTATUS (exit_code d) =? 0)) ||
     daemon_is_failed d ||
     bool_decide (exits_from ≠ None)
  then DAEMON_STATE_FINISHED else DAEMON_STATE_TERMINATED.

Definition daemon_finish (env : environment) (i : nat) : I () :=
  st ← state_of i;
  assert (bool_decide (st = DAEMON_STATE_FINISHING)) assert_finish;;
  d ← the_daemon i;
  (if negb (was_ready d) then daemon_mark_ready i else skip);;
  s ← get_system;
  d ← the_daemon i;
  daemon_reset i (finished_state d (exit_code_from (graph s) i));;
  d ← the_daemon i;
  (if want_reconfigure d then daemon_dereference_dependencies env i;; daemon_reconfigure env i else skip);;
  d ← the_daemon i;
  if want_restart d then daemon_request_restart env i
  else daemon_dereference_dependencies env i.

(** The loop of [daemon_wait], which ends when the daemon waits no longer. *)
Fixpoint wait_each (env : environment) (i : nat) (deps : list nat) : I () :=
  match deps with
  | [] => skip
  | e :: deps =>
      d ← the_dependency e;
      assert (source d =? i)%nat assert_wait_source;;
      daemon_wait_dependency env e;;
      st ← state_of i;
      if negb (bool_decide (st = DAEMON_STATE_WAITING)) then skip else wait_each env i deps
  end.

Definition daemon_wait (env : environment) (i : nat) : I () :=
  st ← state_of i;
  assert (bool_decide (st = DAEMON_STATE_SCHEDULED)) assert_wait;;
  d ← the_daemon i;
  ok ← (if configured d then mret true else daemon_load_and_configure env i);
  if negb ok then skip
  else
    s ← get_system;
    let g := graph s in
    daemon_change_state_list i
      (if dependencies_ready g i =? Z.of_nat (length (items (dependencies g i))) then DAEMON_STATE_SATISFIED else DAEMON_STATE_WAITING);;
    wait_each env i (items (dependencies g i)).

(** Starting a daemon.  One without arguments is virtual and has no process.  The environment
    and the program of a new process are not modelled, only that its arguments are used;
    [init] gives up when they or the pipes cannot be made. *)
Definition start_virtual (i : nat) : I () :=
  daemon_on_ready i;;
  s ← get_system;
  d ← the_daemon i;
  match exit_code_from (graph s) i with
  | Some e =>
      dep ← the_dependency e;
      t ← the_daemon (target dep);
      if bool_decide (state (lists s) (target dep) = DAEMON_STATE_FINISHED)
      then set_daemon i (λ d, set_exit_code_meaning (exit_code_meaning t) (set_exit_code (exit_code t) d));; daemon_on_finished i
      else skip
  | None =>
      if bool_decide (type d = TYPE_ONESHOT) &&
         (dependencies_finished (graph s) i =? Z.of_nat (length (items (dependencies (graph s) i))))
      then daemon_on_finished i else skip
  end.

(** The pipes for output and readiness, which are polled. *)
Definition daemon_open_pipes (i : nat) : I () :=
  communication_reserve 2;;
  set_daemon i (set_outputfd true);;
  communication_register (COMMUNICATION_TYPE_OUTPUT i);;
  set_daemon i (set_readyfd true);;
  communication_register (COMMUNICATION_TYPE_READY i).

Definition daemon_start (env : environment) (i : nat) : I () :=
  st ← state_of i;
  assert (bool_decide (st = DAEMON_STATE_SATISFIED)) assert_start;;
  d ← the_daemon i;
  match argv d with
  | argv_null => start_virtual i
  | p =>
      s ← get_system;
      if 0 <? dependencies_failed (graph s) i
      then set_daemon i (set_exit_code (WCONSTRUCT WNATURE_EXITED 3 0));; daemon_on_startup_error env i
      else
        (if need_tty d then skip else daemon_open_pipes i);;
        set_daemon i (set_pid (fork env));;
        assert (match p with argv_freed => false | _ => true end) bad_argv;;
        if need_tty d then daemon_on_ready i else daemon_change_state_list i DAEMON_STATE_STARTING
  end.

(** ** Events *)

Definition POLLERR : Z := 1.
Definition POLLHUP : Z := 2.
Definition POLLNVAL : Z := 4.
Definition POLLIN : Z := 8.
Definition POLLOUT : Z := 128.

(** A read of a descriptor: nothing yet, the end or an error, or a character (for output any
    number of them).  Reading a descriptor that was closed is an error. *)
Inductive descriptor_read := read_again | read_end | read_char (c : Z).
Definition read_from (open : bool) (r : descriptor_read) : descriptor_read := if open then r else read_end.

Definition daemon_process_ready (i : nat) (r : descriptor_read) : I bool :=
  d ← the_daemon i;
  match read_from (readyfd d) r with
  | read_again => mret true
  | read_end => mret false
  | read_char c => if c =? 10 then daemon_on_ready i;; mret false else mret true
  end.

Definition daemon_on_ready_event (i : nat) (revents : Z) (r : descriptor_read) : I bool :=
  ok ← (if has revents (Z.lor POLLIN POLLHUP) then daemon_process_ready i r else mret true);
  if negb ok
  then
    s ← get_system;
    communication_unregister (index_of (polled s) (COMMUNICATION_TYPE_READY i));;
    set_daemon i (set_readyfd false);;
    mret false
  else mret true.

(** The output is logged, which is not modelled. *)
Definition daemon_process_output (i : nat) (r : descriptor_read) : I bool :=
  d ← the_daemon i;
  match read_from (outputfd d) r with
  | read_again => mret true
  | read_end => mret false
  | read_char _ => mret true
  end.

Definition daemon_on_output_event (i : nat) (revents : Z) (r : descriptor_read) : I bool :=
  ok ← (if has revents (Z.lor POLLIN POLLHUP) then daemon_process_output i r else mret true);
  if negb ok
  then
    s ← get_system;
    communication_unregister (index_of (polled s) (COMMUNICATION_TYPE_OUTPUT i));;
    set_daemon i (set_outputfd false);;
    mret false
  else mret true.

(** The descriptors of a daemon that are open are closed. *)
Definition daemon_close_pipes (i : nat) : I () :=
  d ← the_daemon i;
  (if readyfd d
   then
     s ← get_system;
     communication_unregister (index_of (polled s) (COMMUNICATION_TYPE_READY i));;
     set_daemon i (set_readyfd false)
   else skip);;
  d ← the_daemon i;
  if outputfd d
  then
    s ← get_system;
    communication_unregister (index_of (polled s) (COMMUNICATION_TYPE_OUTPUT i));;
    set_daemon i (set_outputfd false)
  else skip.

Definition daemon_on_exit (i : nat) (exit_code_ : Z) : I () :=
  st ← state_of i;
  assert (negb (bool_decide (st = DAEMON_STATE_FINISHING))) assert_on_exit;;
  assert (negb (bool_decide (st = DAEMON_STATE_FINISHED))) assert_on_exit;;
  set_daemon i (λ d, set_exit_code exit_code_ (set_pid 0 d));;
  daemon_close_pipes i;;
  daemon_on_finished i.

(** *** Requests, which are answered with a text; the buffer for it is taken to suffice *)

Definition connection_ok : list Z := lit "ok" ++ [10].
Definition connection_error (code : list Z) : list Z := lit "error " ++ code ++ [10].

Fixpoint require_flags (flags_ : Z) (args : list (list Z)) : option Z :=
  match args with
  | [] => Some flags_
  | a :: args =>
      if bool_decide (a = lit "optional") then require_flags (Z.land flags_ (Z.lnot DEPENDENCY_FLAG_REQUIRE)) args
      else if bool_decide (a = lit "no-await") then require_flags (Z.land flags_ (Z.lnot DEPENDENCY_FLAG_AWAIT)) args
      else if bool_decide (a = lit "exit-code") then require_flags (Z.lor flags_ DEPENDENCY_FLAG_EXIT_CODE) args
      else None
  end.

Definition request_require (env : environment) (args : list (list Z)) : I (list Z) :=
  match args with
  | source_name :: target_name_ :: rest =>
      match require_flags (Z.lor DEPENDENCY_FLAG_REQUIRE DEPENDENCY_FLAG_AWAIT) rest with
      | None => mret (connection_error (lit "unknown_flag"))
      | Some flags_ =>
          src ← daemon_find_by_name source_name;
          match src with
          | None => mret (connection_error (lit "no_such_source_daemon"))
          | Some i =>
              tgt ← daemon_find_or_create env target_name_;
              match tgt with
              | None => mret (connection_error (lit "no_such_daemon"))
              | Some j =>
                  ok ← daemon_depend env i j flags_;
                  mret (if ok : bool then connection_ok else connection_error (lit "adding_connection_failed"))
              end
          end
      end
  | _ => mret (connection_error (lit "missing_operand"))
  end.

Definition request_unrequire (env : environment) (args : list (list Z)) : I (list Z) :=
  match args with
  | source_name :: target_name_ :: _ =>
      src ← daemon_find_by_name source_name;
      match src with
      | None => mret (connection_error (lit "no_such_source_daemon"))
      | Some i =>
          tgt ← daemon_find_by_name target_name_;
          match tgt with
          | None => mret (connection_error (lit "no_such_daemon"))
          | Some j => daemon_undepend env i j;; mret connection_ok
          end
      end
  | _ => mret (connection_error (lit "missing_operand"))
  end.

(** A request for one daemon, found or created, or found. *)
Definition request_daemon (find : list Z → I (option nat)) (f : nat → I ()) (args : list (list Z)) : I (list Z) :=
  match args with
  | [name_] =>
      found ← find name_;
      match found with
      | None => mret (connection_error (lit "no_such_daemon"))
      | Some i => f i;; mret connection_ok
      end
  | _ => mret (connection_error (lit "missing_operand"))
  end.

Definition request_reconfigure (env : environment) := request_daemon (daemon_find_or_create env) (daemon_request_reconfigure env).
Definition request_reload (env : environment) := request_daemon (daemon_find_or_create env) daemon_reload.
Definition request_restart (env : environment) := request_daemon (daemon_find_or_create env) (daemon_request_restart env).
Definition request_terminate (env : environment) := request_daemon daemon_find_by_name (daemon_terminate env).
Definition request_kill := request_daemon daemon_find_by_name daemon_kill.

Definition request_signal (env : environment) (args : list (list Z)) : I (list Z) :=
  match args with
  | [name_; signame] =>
      found ← daemon_find_by_name name_;
      match found with
      | None => mret (connection_error (lit "no_such_daemon"))
      | Some i =>
          match (if bool_decide (take 3 signame = lit "SIG") then str2sig env (drop 3 signame) else None) with
          | None => mret (connection_error (lit "no_such_signal"))
          | Some sig => daemon_signal i sig;; mret connection_ok
          end
      end
  | _ => mret (connection_error (lit "missing_operand"))
  end.

(** *** Reports *)

Definition printed (format : list Z) (width v : Z) : list Z :=
  match Printf.formatted [] (format ++ [0]) [Printf.VInt width v] with Ret (_, text) => text | _ => [] end.

Definition daemon_state_name (st : daemon_state) : list Z :=
  match st with
  | DAEMON_STATE_TERMINATED => lit "terminated"
  | DAEMON_STATE_SCHEDULED => lit "scheduled"
  | DAEMON_STATE_WAITING => lit "waiting"
  | DAEMON_STATE_SATISFIED => lit "satisfied"
  | DAEMON_STATE_STARTING => lit "starting"
  | DAEMON_STATE_RUNNING => lit "running"
  | DAEMON_STATE_TERMINATING => lit "terminating"
  | DAEMON_STATE_FINISHING => lit "finishing"
  | DAEMON_STATE_FINISHED => lit "finished"
  end.

Definition daemon_get_state_string (st : daemon_state) (d : daemon) : list Z :=
  if bool_decide (st = DAEMON_STATE_TERMINATED) && daemon_is_failed d then lit "failed" else daemon_state_name st.

Definition daemon_get_exit_string (env : environment) (st : daemon_state) (d : daemon) : list Z :=
  if negb (bool_decide (st = DAEMON_STATE_FINISHED)) then lit "n/a"
  else if WIFEXITED (exit_code d) then printed (lit "%i") 32 (WEXITSTATUS (exit_code d))
  else if WIFSIGNALED (exit_code d) then lit "SIG" ++ sig2str env (WTERMSIG (exit_code d))
  else printed (lit "%#x") 32 (WEXITSTATUS (exit_code d)).

Definition reply_status (env : environment) (i : nat) : I (list Z) :=
  st ← state_of i;
  d ← the_daemon i;
  mret (lit " daemon=" ++ name d ++ lit " state=" ++ daemon_get_state_string st d ++
        (if 0 <? pid d then printed (lit " pid=%ji") 64 (pid d) else []) ++
        (if bool_decide (st = DAEMON_STATE_FINISHED) then lit " exit=" ++ daemon_get_exit_string env st d else [])).

Definition reply_dependency (e : nat) : I (list Z) :=
  dep ← the_dependency e;
  s ← the_daemon (source dep);
  t ← the_daemon (target dep);
  mret (lit "require " ++ name s ++ lit " " ++ name t ++ lit " " ++
        (if has (flags dep) DEPENDENCY_FLAG_REQUIRE then [] else lit " optional") ++
        (if has (flags dep) DEPENDENCY_FLAG_AWAIT then [] else lit " no-await") ++
        (if has (flags dep) DEPENDENCY_FLAG_EXIT_CODE then lit " exit-code" else [])).

Definition request_status (env : environment) (args : list (list Z)) : I (list Z) :=
  match args with
  | [name_] =>
      found ← daemon_find_by_name name_;
      match found with
      | None => mret (connection_error (lit "no_such_daemon"))
      | Some i => text ← reply_status env i; mret (lit "ok" ++ text ++ [10])
      end
  | _ => mret (connection_error (lit "missing_operand"))
  end.

(** A long report is made piece by piece: the connection counts them, and the request is
    handled again while the count is not zero. *)
Definition request_list (env : environment) (conn : nat) (args : list (list Z)) : I (list Z * nat) :=
  match args with
  | [] =>
      match conn with
      | O => mret (lit "ok", 1%nat)
      | S i =>
          s ← get_system;
          if (i <? length (daemons s))%nat
          then text ← reply_status env i; mret ((if (i =? 0)%nat then [] else lit " , ") ++ text, S conn)
          else mret ([10], 0%nat)
      end
  | _ => mret (connection_error (lit "unexpected_operand"), conn)
  end.

Definition request_requirements (conn : nat) (command : list Z) (args : list (list Z)) : I (list Z * nat) :=
  match args with
  | [name_] =>
      found ← daemon_find_by_name name_;
      match found with
      | None => mret (connection_error (lit "no_such_daemon"), conn)
      | Some i =>
          match conn with
          | O => mret (lit "ok", 1%nat)
          | S n =>
              s ← get_system;
              let in_ := bool_decide (command = lit "edges") || bool_decide (command = lit "dependents") in
              let out := bool_decide (command = lit "edges") || bool_decide (command = lit "requirements") in
              let all := (if in_ then dependents (graph s) i else []) ++ (if out then items (dependencies (graph s) i) else []) in
              match all !! n with
              | Some e => text ← reply_dependency e; mret ((if (n =? 0)%nat then lit " " else lit " , ") ++ text, S conn)
              | None => mret ([10], 0%nat)
              end
          end
      end
  | _ => mret (connection_error (lit "missing_operand"), conn)
  end.

Definition request_poweroff (command : list Z) (args : list (list Z)) : I (list Z) :=
  match args with
  | [] =>
      modify (λ s, set_caught (if bool_decide (command = lit "poweroff") then 0
        else if bool_decide (command = lit "reboot") then 1
        else if bool_decide (command = lit "halt") then 2
        else if bool_decide (command = lit "reinit") then 3 else caught_exit_signal s) s);;
      mret connection_ok
  | _ => mret (connection_error (lit "unexpected_operand"))
  end.

(** A message in words, with the count of the connection. *)
Definition connection_on_message (env : environment) (conn : nat) (message : list (list Z)) : I (list Z * nat) :=
  let answer (m : I (list Z)) : I (list Z * nat) := text ← m; mret (text, conn) in
  match message with
  | [] => mret ([], conn)
  | command :: args =>
      if bool_decide (command = lit "require") then answer (request_require env args)
      else if bool_decide (command = lit "unrequire") then answer (request_unrequire env args)
      else if bool_decide (command = lit "reconfigure") then answer (request_reconfigure env args)
      else if bool_decide (command = lit "reload") then answer (request_reload env args)
      else if bool_decide (command = lit "restart") then answer (request_restart env args)
      else if bool_decide (command = lit "terminate") then answer (request_terminate env args)
      else if bool_decide (command = lit "kill") then answer (request_kill args)
      else if bool_decide (command = lit "signal") then answer (request_signal env args)
      else if bool_decide (command = lit "status") then answer (request_status env args)
      else if bool_decide (command = lit "list") then request_list env conn args
      else if bool_decide (command ∈ [lit "edges"; lit "dependents"; lit "requirements"]) then request_requirements conn command args
      else if bool_decide (command ∈ [lit "poweroff"; lit "reboot"; lit "halt"; lit "reinit"]) then answer (request_poweroff command args)
      else mret (connection_error (lit "unknown_command"), conn)
  end.

(** *** Connections *)

Definition set_connections (x : gmap nat nat) (p : poll_table) : poll_table :=
  PollTable (entries p) (pfds_length p) (communications_length p) (index_of p) x (next_connection p).

(** A connection that was accepted; memory is taken to suffice. *)
Definition connection_new : I () :=
  communication_reserve 1;;
  s ← get_system;
  let c := next_connection (polled s) in
  modify (λ s, let p := polled s in
    set_polled (PollTable (entries p) (pfds_length p) (communications_length p) (index_of p) (<[c := 0%nat]> (connections p)) (S c)) s);;
  communication_register (COMMUNICATION_TYPE_CONNECTION c).

Definition connection_free (c : nat) : I () :=
  s ← get_system;
  communication_unregister (index_of (polled s) (COMMUNICATION_TYPE_CONNECTION c));;
  modify (λ s, set_polled (set_connections (delete c (connections (polled s))) (polled s)) s).

(** A line that a connection sent; the answer goes to its buffer. *)
Definition connection_on_line (env : environment) (c : nat) (message : list (list Z)) : I () :=
  s ← get_system;
  match connections (polled s) !! c with
  | None => λ _, Aborted bad_pointer
  | Some conn =>
      '(_, conn) ← connection_on_message env conn message;
      modify (λ s, set_polled (set_connections (<[c := conn]> (connections (polled s))) (polled s)) s)
  end.

Definition server_start : I () := communication_reserve 1;; communication_register COMMUNICATION_TYPE_SERVER.

Definition server_on_event (revents : Z) (accepted : bool) : I bool :=
  (if has revents POLLIN && accepted then connection_new else skip);; mret true.

(** *** The loop of [init] *)

(** A signal asks for the system to be shut down. *)
Definition signal_handler (signum : Z) : I () :=
  if signum =? SIGINT then modify (set_caught 1)
  else if signum =? SIGTERM then modify (set_caught 0)
  else if signum =? SIGQUIT then modify (set_caught 2)
  else if signum =? SIGHUP then modify (set_caught 3)
  else skip.

(** [default] is told to finish, once, when the system is to be shut down. *)
Definition exit_signal : I () :=
  s ← get_system;
  (if negb (caught_exit_signal s =? -1) && (default_daemon_exit_code s =? -1)
   then
     found ← daemon_find_by_name (lit "default");
     match found with
     | None => λ _, Aborted bad_pointer
     | Some i =>
         st ← state_of i;
         (if negb (bool_decide (st ∈ [DAEMON_STATE_FINISHING; DAEMON_STATE_FINISHED]))
          then daemon_change_state_list i DAEMON_STATE_FINISHING else skip);;
         let code := WCONSTRUCT WNATURE_EXITED (caught_exit_signal s) 0 in
         modify (set_default_exit_code code);;
         set_daemon i (λ d, set_exit_code_meaning EXIT_CODE_MEANING_POWEROFF_REBOOT (set_exit_code code d))
     end
   else skip);;
  modify (set_caught (-1)).

(** The daemons whose time to terminate is over are killed; [fuel] bounds the list. *)
Fixpoint kill_late (fuel : nat) (env : environment) (cursor : option nat) : I () :=
  match fuel, cursor with
  | S fuel, Some i =>
      d ← the_daemon i;
      (if timeout_set d && Timespec.timespec_le (timeout d) (now env)
       then send_signal_to (pid d) (signal_to d) SIGKILL;; set_daemon i (set_timeout_set false) else skip);;
      s ← get_system;
      kill_late fuel env (next_by_state (lists s) i)
  | _, _ => skip
  end.

(** What [ppoll] reports for each entry. *)
Definition set_revents (l : list Z) (p : poll_table) : poll_table :=
  PollTable (imap (λ i x, (fst x, nth i l 0)) (entries p)) (pfds_length p) (communications_length p) (index_of p) (connections p) (next_connection p).

(** What the loop of [init] does, one thing at a time: the last three are for the entry at an
    index of the poll table.  An entry that is not for a connection has an event, with
    what reading gives or whether a connection can be accepted; a connection has sent a line, or
    is to be closed. *)
Inductive event :=
| ev_signal (signum : Z)
| ev_exit_signal
| ev_wait
| ev_start
| ev_finish
| ev_timeouts
| ev_exit (pid_ exit_code_ : Z)
| ev_revents (l : list Z)
| ev_poll (index : nat) (revents : Z) (r : descriptor_read) (accepted : bool)
| ev_message (index : nat) (message : list (list Z))
| ev_disconnect (index : nat).

Definition entry_at (s : system) (index : nat) : option communication := fst <$> entries (polled s) !! index.

(** The handler of an entry; it tells whether the descriptor is still open. *)
Definition on_event (c : communication) (revents : Z) (r : descriptor_read) (accepted : bool) : I bool :=
  match c with
  | COMMUNICATION_TYPE_OUTPUT i => daemon_on_output_event i revents r
  | COMMUNICATION_TYPE_READY i => daemon_on_ready_event i revents r
  | COMMUNICATION_TYPE_SERVER => server_on_event revents accepted
  | COMMUNICATION_TYPE_CONNECTION _ => mret true
  end.

Definition on_first (st : daemon_state) (f : nat → I ()) : I () :=
  s ← get_system; match first_daemon_by_state (lists s) st with Some i => f i | None => skip end.

Definition handle (env : environment) (ev : event) : I () :=
  match ev with
  | ev_signal signum => signal_handler signum
  | ev_exit_signal => exit_signal
  | ev_wait => on_first DAEMON_STATE_SCHEDULED (daemon_wait env)
  | ev_start => on_first DAEMON_STATE_SATISFIED (daemon_start env)
  | ev_finish => on_first DAEMON_STATE_FINISHING (daemon_finish env)
  | ev_timeouts => s ← get_system; kill_late (length (daemons s)) env (first_daemon_by_state (lists s) DAEMON_STATE_TERMINATING)
  | ev_exit pid_ exit_code_ =>
      if 0 <? pid_
      then found ← daemon_find_by_pid pid_; match found with Some i => daemon_on_exit i exit_code_ | None => skip end
      else skip
  | ev_revents l => modify (λ s, set_polled (set_revents l (polled s)) s)
  | ev_poll index revents r accepted =>
      s ← get_system;
      match entry_at s index with Some c => on_event c revents r accepted;; skip | None => skip end
  | ev_message index message =>
      s ← get_system;
      match entry_at s index with Some (COMMUNICATION_TYPE_CONNECTION c) => connection_on_line env c message | _ => skip end
  | ev_disconnect index =>
      s ← get_system;
      match entry_at s index with Some (COMMUNICATION_TYPE_CONNECTION c) => connection_free c | _ => skip end
  end.

Definition empty_system : system :=
  System [] (StateLists (λ _, DAEMON_STATE_TERMINATED) (λ _, None) (λ _, None) (λ _, None) (λ _, None) (λ _, 0))
    (DependencyGraph (λ _, Array [] 0 0) (λ _, []) (λ _, 0) (λ _, 0) (λ _, 0) (λ _, 0) (λ _, None) ∅ 0) [] (-1) (-1) (PollTable [] 0 0 (λ _, 0%nat) ∅ 0).

(** The daemon [default] is created and scheduled, and the server is started. *)
Definition boot (env : environment) (c : daemon_config) : I () :=
  i ← daemon_create env c; server_start;; daemon_schedule i.

(** The loop itself, one step at a time: where it is, and what the world gives a step that asks.
    At [top] a request to shut down is looked at; then daemons are made to wait, started and
    finished, until none is left to be; the loop is [over] when no daemon is alive; late daemons
    are killed; the children that exited are waited for; [ppoll] reports events or is
    interrupted by a signal; and the entries with events are handled, at the index [i] while
    [nevents] are left.  The characters of a connection are given as the lines they make. *)
Inductive phase :=
| top
| settling
| waiting
| starting
| finishing
| living
| killing
| reaping
| polling
| handling (i : nat) (nevents : Z)
| reading (i : nat) (nevents : Z)
| over.

Inductive input :=
| in_nothing
| in_exit (pid_ exit_code_ : Z)
| in_signal (signum : Z)
| in_revents (l : list Z)
| in_read (r : descriptor_read)
| in_accept
| in_line (message : list (list Z))
| in_close.

Definition count_events (l : list (communication * Z)) : Z := Z.of_nat (length (List.filter (λ x, negb (snd x =? 0)) l)).

Definition any_in (sts : list daemon_state) (s : system) : bool :=
  existsb (λ st, match first_daemon_by_state (lists s) st with Some _ => true | None => false end) sts.

(** The connection at an index has not been told the whole answer yet: [conn->state]. *)
Definition mid_report (s : system) (i : nat) : bool :=
  match entry_at s i with
  | Some (COMMUNICATION_TYPE_CONNECTION c) => match connections (polled s) !! c with Some (S _) => true | _ => false end
  | _ => false
  end.

(** [while ( (daemon = first_daemon_by_state[state]) ) f(daemon);], one round. *)
Definition while_first (st : daemon_state) (f : nat → I ()) (again done : phase) : I phase :=
  s ← get_system; match first_daemon_by_state (lists s) st with Some i => f i;; mret again | None => mret done end.

Definition loop_step (env : environment) (x : input) (ph : phase) : I phase :=
  s ← get_system;
  match ph with
  | top => exit_signal;; mret settling
  | settling => mret (if any_in [DAEMON_STATE_SCHEDULED; DAEMON_STATE_SATISFIED; DAEMON_STATE_FINISHING] s then waiting else living)
  | waiting => while_first DAEMON_STATE_SCHEDULED (daemon_wait env) waiting starting
  | starting => while_first DAEMON_STATE_SATISFIED (daemon_start env) starting finishing
  | finishing => while_first DAEMON_STATE_FINISHING (daemon_finish env) finishing settling
  | living => mret (if any_in [DAEMON_STATE_STARTING; DAEMON_STATE_RUNNING; DAEMON_STATE_TERMINATING] s then killing else over)
  | killing => handle env ev_timeouts;; mret reaping
  | reaping =>
      match x with
      | in_exit pid_ exit_code_ => handle env (ev_exit pid_ exit_code_);; mret reaping
      | _ => mret polling
      end
  | polling =>
      match x with
      | in_signal signum => signal_handler signum;; mret top
      | in_revents l => handle env (ev_revents l);; s ← get_system; mret (handling 0 (count_events (entries (polled s))))
      | _ => mret top
      end
  | handling i nevents =>
      match entries (polled s) !! i with
      | None => mret top
      | Some (c, revents) =>
          if nevents <=? 0 then mret top
          else if revents =? 0 then mret (handling (S i) nevents)
          else
            match c with
            | COMMUNICATION_TYPE_CONNECTION _ => mret (reading i (nevents - 1))
            | _ =>
                let r := match x with in_read r => r | _ => read_again end in
                let accepted := match x with in_accept => true | _ => false end in
                open ← on_event c revents r accepted;
                mret (handling (if open : bool then i else S i) (nevents - 1))
            end
      end
  | reading i nevents =>
      match x with
      | in_line message =>
          handle env (ev_message i message);;
          s ← get_system;
          mret (if mid_report s i then handling i nevents else reading i nevents)
      | in_close => handle env (ev_disconnect i);; mret (handling (S i) nevents)
      | _ => mret (handling i nevents)
      end
  | over => mret over
  end.

End Daemon.
