(* ===== verification/DaemonLists.v ===== *)
(** * The lists of daemons by state

    The doubly linked lists through the daemons of [init], one for each state,
    represent sequences: every daemon is on exactly the list of its state, the
    counts are right, and moving a daemon to another state never fails an
    assertion.  Also the rules to reason about the operations of [Daemon]. *)

From S2P Require Import Prelude Timespec Daemon.
From stdpp Require Import base decidable list numbers gmap strings.
From Stdlib Require Import ZArith Lia.

#[local] Open Scope Z_scope.

Module DaemonLists.
Import Daemon.

(** ** Weakest preconditions *)

(** The operation returns in a state that satisfies [Q], or ends with a cause in [ok]. *)
Definition wp {A} (ok : cause → Prop) (m : I A) (Q : A → system → Prop) (s : system) : Prop :=
  match m s with Done a s' => Q a s' | Aborted w => ok w end.

Section Rules.
Context (ok : cause → Prop).

Lemma wp_ret {A} (a : A) Q s : Q a s → wp ok (mret a) Q s.
Proof. done. Qed.
Lemma wp_skip Q s : Q () s → wp ok skip Q s.
Proof. done. Qed.
Lemma wp_bind {A B} (m : I A) (f : A → I B) Q s : wp ok m (λ a, wp ok (f a) Q) s → wp ok (m ≫= f) Q s.
Proof. unfold wp, mbind, I_bind. by destruct (m s). Qed.
Lemma wp_mono {A} (m : I A) (Q R : A → system → Prop) s : wp ok m Q s → (∀ a s', Q a s' → R a s') → wp ok m R s.
Proof. unfold wp. destruct (m s); auto. Qed.
Lemma wp_get Q s : Q s s → wp ok get_system Q s.
Proof. done. Qed.
Lemma wp_modify f Q s : Q () (f s) → wp ok (modify f) Q s.
Proof. done. Qed.
Lemma wp_state_of i Q s : Q (state (lists s) i) s → wp ok (state_of i) Q s.
Proof. done. Qed.
Lemma wp_assert b w Q s : (b = false → ok w) → (b = true → Q () s) → wp ok (assert b w) Q s.
Proof. unfold wp, assert. destruct b; auto. Qed.
Lemma wp_the_daemon i d Q s : daemons s !! i = Some d → Q d s → wp ok (the_daemon i) Q s.
Proof. unfold wp, the_daemon. by intros ->. Qed.
Lemma wp_the_dependency e d Q s : edges (graph s) !! e = Some d → Q d s → wp ok (the_dependency e) Q s.
Proof. unfold wp, the_dependency. by intros ->. Qed.
Lemma wp_set_daemon i f d Q s : daemons s !! i = Some d →
  Q () (set_daemons (<[i := f d]> (daemons s)) s) → wp ok (set_daemon i f) Q s.
Proof. intros Hd HQ. unfold set_daemon. apply wp_bind, (wp_the_daemon _ d); [done|]. by apply wp_modify. Qed.
Lemma wp_run {A} (m : I A) Q s a s' : m s = Done a s' → Q a s' → wp ok m Q s.
Proof. unfold wp. by intros ->. Qed.

(** A loop keeps what every iteration keeps. *)
Lemma wp_each f (P : system → Prop) l s :
  (∀ x s, x ∈ l → P s → wp ok (f x) (λ _, P) s) → P s → wp ok (each f l) (λ _, P) s.
Proof.
  revert s. induction l as [|x l IH]; intros s Hf HP; [done|]. cbn [each]. apply wp_bind.
  eapply wp_mono; [apply Hf; [left|done]|]. intros [] s' HP'. apply IH; [|done]. intros y s1 Hy. apply Hf. by right.
Qed.
End Rules.

Lemma update_eq {K V} `{EqDecision K} (f : K → V) k v : update f k v k = v.
Proof. unfold update. by rewrite decide_True. Qed.
Lemma update_ne {K V} `{EqDecision K} (f : K → V) k k' v : k' ≠ k → update f k v k' = f k'.
Proof. intros H. unfold update. by rewrite decide_False. Qed.

(** ** Sequences of links *)

(** The links of the members of a sequence are their neighbours. *)
Definition linked (prev next : nat → option nat) (o : list nat) : Prop :=
  ∀ a i b, o = a ++ i :: b → prev i = last a ∧ next i = head b.

Record listed (l : state_lists) (st : daemon_state) (o : list nat) : Prop := {
  listed_first : first_daemon_by_state l st = head o;
  listed_last : last_daemon_by_state l st = last o;
  listed_count : count_daemon_by_state l st = Z.of_nat (length o);
  listed_nodup : NoDup o;
  listed_links : linked (prev_by_state l) (next_by_state l) o;
  listed_state i : i ∈ o → state l i = st;
}.

(** The lists represent one sequence for each state, of the daemons that are [on] a list. *)
Definition represents (l : state_lists) (on : nat → Prop) (o : daemon_state → list nat) : Prop :=
  (∀ st, listed l st (o st)) ∧ (∀ i, on i ↔ i ∈ o (state l i)).

Definition lists_ok (n : nat) (l : state_lists) : Prop := ∃ o, represents l (λ i, (i < n)%nat) o.

Lemma head_app {A} (a b : list A) : head (a ++ b) = match head a with Some x => Some x | None => head b end.
Proof. by destruct a. Qed.

Lemma app_cons_inv {A} (a b a' b' : list A) x :
  a ++ b = a' ++ x :: b' → (∃ c, a = a' ++ x :: c ∧ b' = c ++ b) ∨ (∃ c, b = c ++ x :: b' ∧ a' = a ++ c).
Proof.
  revert a'. induction a as [|y a IH]; intros a' E; [right; by exists a'|]. destruct a' as [|z a']; injection E as -> E.
  - left. exists a. by subst.
  - destruct (IH _ E) as [(c & -> & ->)|(c & -> & ->)]; [left|right]; by exists c.
Qed.

(** Taking an element out of a sequence. *)
Lemma linked_remove prev next a i b :
  NoDup (a ++ i :: b) → linked prev next (a ++ i :: b) →
  linked (update (match head b with Some n => update prev n (last a) | None => prev end) i None)
         (update (match last a with Some p => update next p (head b) | None => next end) i None) (a ++ b).
Proof.
  intros Hnd Hl a' j b' E.
  assert (Hj : j ∈ a ++ b) by (rewrite E; apply elem_of_app; right; left).
  apply NoDup_app in Hnd as (Hna & Hab & Hnb). apply NoDup_cons in Hnb as [Hib Hnb].
  assert (Hia : i ∉ a) by (intros H; apply (Hab i H); left).
  assert (Hji : j ≠ i) by (intros ->; apply elem_of_app in Hj as [?|?]; done).
  rewrite !update_ne by done.
  destruct (app_cons_inv _ _ _ _ _ E) as [(c & -> & ->)|(c & -> & ->)].
  - destruct (Hl a' j (c ++ i :: b)) as [Hp Hn]; [by rewrite <-app_assoc|]. split.
    + rewrite <-Hp. destruct (head b) as [h|] eqn:Eh; [|done]. apply update_ne. intros <-.
      destruct b as [|h b]; [done|]. injection Eh as ->. apply (Hab j); [apply elem_of_app; right; left|right; left].
    + rewrite last_app. cbn [last]. destruct c as [|x c]; cbn [last].
      * rewrite update_eq. done.
      * rewrite head_app. cbn [head]. cbn [head app] in Hn.
        destruct (last (x :: c)) as [p|] eqn:Ep; [|by apply last_None in Ep].
        rewrite update_ne; [done|]. intros <-. apply last_Some in Ep as [l' Ep].
        rewrite Ep in Hna. apply NoDup_app in Hna as (_ & _ & Hna). apply NoDup_cons in Hna as [Hna _]. apply Hna.
        apply elem_of_app. right. left.
  - destruct (Hl (a ++ i :: c) j b') as [Hp Hn]; [by rewrite <-app_assoc|]. split.
    + rewrite last_app in Hp. destruct c as [|x c].
      * cbn [app head]. rewrite app_nil_r, update_eq. done.
      * cbn [app head]. rewrite last_app. cbn [last] in Hp |- *. rewrite update_ne; [|intros ->].
        { rewrite Hp. destruct (last (x :: c)) eqn:Ex; [done|by apply last_None in Ex]. }
        cbn [app] in Hnb. apply NoDup_cons in Hnb as [Hx _]. apply Hx, elem_of_app. right. left.
    + destruct (last a) as [p|] eqn:Ep; [|done]. rewrite update_ne; [done|]. intros <-.
      apply last_Some in Ep as [l' ->]. apply (Hab j); [apply elem_of_app; right; left|].
      right. apply elem_of_app. right. left.
Qed.

(** An element that is not linked is put at the end of a sequence. *)
Lemma linked_append prev next o i :
  i ∉ o → linked prev next o → NoDup o →
  linked (update prev i (last o)) (match last o with Some k => update (update next i None) k (Some i) | None => update next i None end)
    (o ++ [i]).
Proof.
  intros Hi Hl Hnd a j b E. destruct (app_cons_inv _ _ _ _ _ E) as [(c & -> & ->)|(c & Ec & ->)].
  - destruct (Hl a j c eq_refl) as [Hp Hn]. assert (Hji : j ≠ i) by (intros ->; apply Hi, elem_of_app; right; left).
    rewrite update_ne by done. split; [done|]. rewrite last_app. destruct c as [|x c].
    + change (last [j]) with (Some j). cbv iota. by rewrite update_eq.
    + change (last (j :: x :: c)) with (last (x :: c)). destruct (last (x :: c)) as [k|] eqn:Ek; [|by apply last_None in Ek]. cbv iota. rewrite !update_ne; [done|done|].
      intros <-. apply last_Some in Ek as [l' Ek]. rewrite Ek in Hnd. apply NoDup_app in Hnd as (_ & _ & Hnd).
      apply NoDup_cons in Hnd as [Hnd _]. apply Hnd, elem_of_app. right. left.
  - destruct c as [|x c]; [|destruct c; discriminate]. injection Ec as <- <-. rewrite app_nil_r, update_eq. split; [done|].
    destruct (last o) as [k|] eqn:Ek; [|by rewrite update_eq]. rewrite update_ne, update_eq; [done|].
    intros ->. apply Hi. apply last_Some in Ek as [l' ->]. apply elem_of_app. right. left.
Qed.

(** Links that differ only outside a sequence link it just as well. *)
Lemma links_ext prev next prev' next' o :
  linked prev next o → (∀ i, i ∈ o → prev' i = prev i ∧ next' i = next i) → linked prev' next' o.
Proof.
  intros Hl He a i b ->. destruct (He i) as [-> ->]; [apply elem_of_app; right; left|]. by apply Hl.
Qed.

Section Moves.
Context (l : state_lists) (o : daemon_state → list nat).

Lemma on_list on i st : represents l on o → i ∈ o st → on i ∧ state l i = st.
Proof. intros [Hl Ho] Hi. pose proof (listed_state _ _ _ (Hl st) i Hi) as E. split; [|done]. apply Ho. by rewrite E. Qed.

Lemma neighbours on i : represents l on o → on i → let st := state l i in
  ∃ a b, o st = a ++ i :: b ∧ prev_by_state l i = last a ∧ next_by_state l i = head b.
Proof.
  intros [Hl Ho] Hi. apply Ho, list_elem_of_split in Hi as (a & b & E). exists a, b. split; [done|].
  by apply (listed_links _ _ _ (Hl (state l i))).
Qed.

End Moves.

Lemma filter_absent (i : nat) (l : list nat) : i ∉ l → filter (.≠ i) l = l.
Proof.
  induction l as [|x l IH]; intros Hi; [done|]. apply not_elem_of_cons in Hi as [Hx Hi].
  rewrite filter_cons_True by congruence. by rewrite IH.
Qed.

(** The lists without a daemon. *)
Lemma remove_represents s o i (on : nat → Prop) :
  represents (lists s) on o → on i →
  ∃ l', daemon_remove_state_list i s = Done () (set_lists l' s) ∧
    represents l' (λ j, on j ∧ j ≠ i) (λ st, if decide (st = state (lists s) i) then filter (.≠ i) (o st) else o st) ∧
    prev_by_state l' i = None ∧ next_by_state l' i = None ∧ (∀ j, state l' j = state (lists s) j).
Proof.
  intros Hr Hi. destruct (neighbours _ _ _ i Hr Hi) as (a & b & Eo & Ep & En). cbn zeta in Eo.
  pose proof Hr as [Hl Ho]. destruct (Hl (state (lists s) i)) as [Hf Hla Hc Hnd Hli Hs]. rewrite Eo in Hf, Hla, Hc, Hnd, Hli.
  assert (Efil : filter (.≠ i) (a ++ i :: b) = a ++ b).
  { apply NoDup_app in Hnd as (Hna & Hab & Hnb). apply NoDup_cons in Hnb as [Hib Hnb].
    rewrite filter_app, filter_cons_False by (intros H; by apply H).
    rewrite !filter_absent; [done|done|]. intros Hx. apply (Hab i Hx). left. }
  unfold daemon_remove_state_list, get_system, mbind, I_bind, assert. cbv zeta. rewrite Ep, En, Hf, Hla.
  rewrite (proj2 (orb_true_iff (bool_decide (last a ≠ None)) _)).
  2:{ destruct a as [|x a]; [right; by apply bool_decide_eq_true|left; apply bool_decide_eq_true].
      intros H%last_None. done. }
  rewrite (proj2 (orb_true_iff (bool_decide (head b ≠ None)) _)).
  2:{ destruct b as [|x b]; [right; apply bool_decide_eq_true; by rewrite last_snoc|left; by apply bool_decide_eq_true]. }
  rewrite (proj2 (Z.ltb_lt 0 _)) by (rewrite Hc, length_app; cbn [length]; lia).
  eexists. split; [reflexivity|]. cbn [prev_by_state next_by_state state]. rewrite !update_eq. split; [|done].
  split; cbn [state].
  - intros st. destruct (decide (st = state (lists s) i)) as [->|Hst].
    + rewrite Eo, Efil. split; cbn.
      * destruct (last a) as [p|] eqn:El; [destruct a; [done|by rewrite head_app]|]. apply last_None in El as ->. by rewrite update_eq.
      * destruct (head b) as [h|] eqn:Eh; [destruct b as [|y b]; [done|by rewrite last_app, Hla, last_app]|].
        destruct b; [|done]. by rewrite app_nil_r, update_eq.
      * rewrite update_eq, Hc, !length_app. cbn [length]. lia.
      * rewrite <-Efil. by apply NoDup_filter.
      * apply linked_remove; done.
      * intros j Hj. apply Hs. rewrite Eo. apply elem_of_app in Hj as [?|?]; apply elem_of_app; [by left|right; by right].
    + destruct (Hl st) as [Hf' Hla' Hc' Hnd' Hli' Hs'].
      assert (Hother : ∀ j, j ∈ o st → j ∉ a ++ i :: b).
      { intros j Hj Hj'. rewrite <-Eo in Hj'. apply Hs in Hj'. apply Hs' in Hj. congruence. }
      split; cbn.
      * destruct (last a); [done|by rewrite update_ne].
      * destruct (head b); [done|by rewrite update_ne].
      * by rewrite update_ne.
      * done.
      * apply (links_ext _ _ _ _ _ Hli'). intros j Hj. specialize (Hother j Hj).
        assert (j ≠ i) by (intros ->; apply Hother, elem_of_app; right; left). rewrite !update_ne by done. split.
        -- destruct (head b) as [h|] eqn:Eh; [|done]. apply update_ne. intros ->. destruct b; [done|]. injection Eh as ->.
           apply Hother, elem_of_app. right. right. left.
        -- destruct (last a) as [p|] eqn:El; [|done]. apply update_ne. intros ->. apply last_Some in El as [l' ->].
           apply Hother, elem_of_app. left. apply elem_of_app. right. left.
      * done.
  - intros j. destruct (decide (j = i)) as [->|Hj].
    + split; [intros [_ []]; done|]. rewrite decide_True by done. rewrite list_elem_of_filter. intros [? _]. done.
    + rewrite Ho. case_decide; [rewrite list_elem_of_filter|]; tauto.
Qed.

(** The lists with a daemon that was on none. *)
Lemma insert_represents s o i (on : nat → Prop) :
  represents (lists s) on o → ¬ on i → prev_by_state (lists s) i = None → next_by_state (lists s) i = None →
  ∃ l', daemon_insert_state_list i s = Done () (set_lists l' s) ∧
    represents l' (λ j, on j ∨ j = i) (update o (state (lists s) i) (o (state (lists s) i) ++ [i])) ∧
    (∀ j, state l' j = state (lists s) j).
Proof.
  intros Hr Hi Ep En. pose proof Hr as [Hl Ho].
  assert (Hno : ∀ st, i ∉ o st) by (intros st H; by destruct (on_list _ _ _ _ _ Hr H)).
  set (st := state (lists s) i) in *. destruct (Hl st) as [Hf Hla Hc Hnd Hli Hs].
  unfold daemon_insert_state_list, get_system, mbind, I_bind, assert. cbv zeta. fold st. rewrite Ep, En, Hf, Hla.
  rewrite !(bool_decide_eq_true_2 (None = None)) by done.
  rewrite !bool_decide_eq_false_2.
  2:{ intros [l' E]%last_Some. apply (Hno st). rewrite E. apply elem_of_app. right. left. }
  2:{ intros E. apply (Hno st). destruct (o st); [done|]. injection E as ->. left. }
  cbn [negb]. eexists. split; [reflexivity|]. split; [|done]. split; cbn [state].
  - intros st'. destruct (decide (st' = st)) as [->|Hst].
    + rewrite update_eq. split; cbn.
      * rewrite head_app. destruct (last (o st)) as [k|] eqn:Ek; [rewrite Hf; by destruct (o st)|].
        apply last_None in Ek. rewrite Ek. by rewrite update_eq.
      * by rewrite update_eq, last_snoc.
      * rewrite update_eq, Hc, length_app. cbn [length]. lia.
      * apply NoDup_app. split_and!; [done| |apply NoDup_singleton]. intros x Hx ->%list_elem_of_singleton. by apply (Hno st).
      * by apply linked_append.
      * intros j [Hj|Hj%list_elem_of_singleton]%elem_of_app; [by apply Hs|by subst].
    + rewrite update_ne by done. destruct (Hl st') as [Hf' Hla' Hc' Hnd' Hli' Hs'].
      assert (Hother : ∀ j, j ∈ o st' → j ≠ i ∧ j ∉ o st).
      { intros j Hj. split; [intros ->; by apply (Hno st')|]. intros H. apply Hs in H. apply Hs' in Hj. congruence. }
      split; cbn.
      * destruct (last (o st)); [done|by rewrite update_ne].
      * by rewrite update_ne.
      * by rewrite update_ne.
      * done.
      * apply (links_ext _ _ _ _ _ Hli'). intros j Hj. destruct (Hother j Hj) as [Hji Hjo]. rewrite update_ne by done.
        split; [done|]. destruct (last (o st)) as [k|] eqn:Ek; [|by rewrite update_ne]. rewrite !update_ne; [done|done|].
        intros ->. apply Hjo. apply last_Some in Ek as [l' ->]. apply elem_of_app. right. left.
      * done.
  - intros j. rewrite Ho. destruct (decide (j = i)) as [->|Hj].
    + fold st. rewrite update_eq. split; [intros _; apply elem_of_app; right; left|by right].
    + split.
      * intros [H|?]; [|done]. unfold update. case_decide as E; [|done]. apply elem_of_app. left. by rewrite <-E.
      * unfold update. case_decide as E; [|by left]. intros [H|H%list_elem_of_singleton]%elem_of_app; [left; by rewrite E|done].
Qed.

(** The state of a daemon on no list matters not. *)
Lemma represents_state l o (on : nat → Prop) i st :
  represents l on o → ¬ on i →
  represents (StateLists (update (state l) i st) (next_by_state l) (prev_by_state l) (first_daemon_by_state l)
    (last_daemon_by_state l) (count_daemon_by_state l)) on o.
Proof.
  intros Hr Hi. assert (Hno : ∀ st, i ∉ o st) by (intros st' H; by destruct (on_list _ _ _ _ _ Hr H)).
  destruct Hr as [Hl Hon]. split; cbn.
  - intros st'. destruct (Hl st') as [A B C D E F]. split; cbn; try done.
    intros j Hj. rewrite update_ne; [by apply F|]. intros ->. by apply (Hno st').
  - intros j. destruct (decide (j = i)) as [->|Hj]; [|rewrite update_ne by done; apply Hon].
    rewrite update_eq. split; [done|]. intros H. by apply Hno in H.
Qed.

(** A daemon changes its state: no assertion fails, and the lists stay right. *)
Lemma change_state_lists n s i st :
  lists_ok n (lists s) → (i < n)%nat →
  ∃ l', daemon_change_state_list i st s = Done () (set_lists l' s) ∧ lists_ok n l' ∧
    (∀ j, state l' j = update (state (lists s)) i st j).
Proof.
  intros [o Ho] Hi. destruct (remove_represents s o i _ Ho Hi) as (l1 & E1 & H1 & Hp & Hn & Hs1).
  unfold daemon_change_state_list, mbind, I_bind. rewrite E1. unfold set_state, modify.
  apply (represents_state _ _ _ i st) in H1; [|by intros [_ []]].
  match goal with |- context [daemon_insert_state_list i ?x] => set (s2 := x) end.
  destruct (insert_represents s2 _ i _ H1) as (l3 & E3 & H3 & Hs3); [by intros [_ []]|done|done|].
  exists l3. rewrite E3. split; [reflexivity|]. split.
  - eexists. destruct H3 as [Hl Hon]. split; [exact Hl|]. intros j. rewrite <-Hon. destruct (decide (j = i)) as [->|]; [|tauto]. tauto.
  - intros j. rewrite Hs3. unfold s2. cbn. destruct (decide (j = i)) as [->|]; [by rewrite !update_eq|]. rewrite !update_ne by done. apply Hs1.
Qed.

(** Every daemon on a list is a daemon. *)
Lemma first_valid n l st i : lists_ok n l → first_daemon_by_state l st = Some i → (i < n)%nat ∧ state l i = st.
Proof.
  intros [o Ho] Hf. apply (on_list l o (λ i, (i < n)%nat) i st Ho). destruct Ho as [Hl _]. destruct (Hl st) as [H _ _ _ _ _].
  rewrite Hf in H. destruct (o st); [done|]. injection H as ->. left.
Qed.

Lemma next_valid n l i j : lists_ok n l → (i < n)%nat → next_by_state l i = Some j → (j < n)%nat.
Proof.
  intros [o Ho] Hi Hj. destruct (neighbours l o _ i Ho Hi) as (a & b & E & _ & En). rewrite Hj in En.
  apply (on_list l o (λ i, (i < n)%nat) j (state l i) Ho). rewrite E. apply elem_of_app. right. right.
  destruct b; [done|]. injection En as ->. left.
Qed.

Lemma lists_ok_ext n l l' : lists_ok n l →
  (∀ i, state l' i = state l i) → (∀ i, next_by_state l' i = next_by_state l i) → (∀ i, prev_by_state l' i = prev_by_state l i) →
  first_daemon_by_state l' = first_daemon_by_state l → last_daemon_by_state l' = last_daemon_by_state l →
  count_daemon_by_state l' = count_daemon_by_state l → lists_ok n l'.
Proof.
  intros [o [Hl Hon]] Hs Hn Hp Hf Hla Hc. exists o. split.
  - intros st. destruct (Hl st) as [A B C D E F]. split; [by rewrite Hf|by rewrite Hla|by rewrite Hc|done| |].
    + apply (links_ext _ _ _ _ _ E). by intros.
    + intros i Hi. rewrite Hs. by apply F.
  - intros i. rewrite Hs. apply Hon.
Qed.

End DaemonLists.
