(* ===== verification/DaemonInv.v ===== *)
(** * What holds of the daemons of init

    The invariant of the lists and of the dependency graph, which the operations of
    [Daemon] keep: every dependency is in the arrays of both its ends, the
    counters count the dependencies with a status, and a reference count is the
    number of references.  With it, in executions in which no daemon is set
    back wrongly, what makes supervision correct: a process exists exactly in
    the states that have one, a daemon nobody refers to does not run, and no
    daemon waits although all it waits for is ready. *)

From S2P Require Import Prelude Timespec Daemon DaemonLists.
From stdpp Require Import base decidable list numbers gmap strings.
From Stdlib Require Import ZArith Lia.

#[local] Open Scope c_scope.
#[local] Open Scope Z_scope.

Module DaemonInv.
Import Daemon DaemonLists.

(** ** Counting *)

Definition marked (es : gmap nat dependency) (bit : Z) (e : nat) : bool :=
  match es !! e with Some d => has (status d) bit | None => false end.
Definition tally (es : gmap nat dependency) (bit : Z) (l : list nat) : Z := Z.of_nat (length (List.filter (marked es bit) l)).

Lemma tally_app es bit l l' : tally es bit (l ++ l') = tally es bit l + tally es bit l'.
Proof. unfold tally. rewrite List.filter_app, length_app. lia. Qed.
Lemma tally_cons es bit e l : tally es bit (e :: l) = Z.b2z (marked es bit e) + tally es bit l.
Proof. unfold tally. cbn. destruct (marked es bit e); cbn [length Z.b2z]; lia. Qed.
Lemma tally_bound es bit l : 0 <= tally es bit l <= Z.of_nat (length l).
Proof. induction l as [|e l IH]; [done|]. rewrite tally_cons. cbn [length]. destruct (marked es bit e); cbn [Z.b2z]; lia. Qed.
Lemma tally_ext es es' bit l : (∀ e, e ∈ l → es' !! e = es !! e) → tally es' bit l = tally es bit l.
Proof.
  induction l as [|e l IH]; intros H; [done|]. rewrite !tally_cons, IH by (intros; apply H; by right).
  unfold marked. by rewrite H by left.
Qed.
Lemma tally_perm es bit l l' : l ≡ₚ l' → tally es bit l = tally es bit l'.
Proof. induction 1; rewrite ?tally_cons; try lia. Qed.

Lemma tally_insert es bit e d d' l : NoDup l → es !! e = Some d →
  tally (<[e := d']> es) bit l = tally es bit l + if decide (e ∈ l) then Z.b2z (has (status d') bit) - Z.b2z (has (status d) bit) else 0.
Proof.
  intros Hnd He. induction Hnd as [|x l Hx Hnd IH]; [rewrite decide_False by apply not_elem_of_nil; done|].
  rewrite !tally_cons, IH. unfold marked at 1 2. destruct (decide (x = e)) as [->|Hne].
  - rewrite lookup_insert_eq, He, decide_False by done. rewrite decide_True by left. lia.
  - rewrite lookup_insert_ne by done. destruct (decide (e ∈ l)) as [H|H].
    + rewrite decide_True by (by right). lia.
    + rewrite decide_False by (by intros [?|?]%elem_of_cons). lia.
Qed.

Lemma tally_all es bit l : (∀ e, e ∈ l → marked es bit e = false) → tally es bit l = 0.
Proof. induction l as [|e l IH]; intros H; [done|]. rewrite tally_cons, H by left. rewrite IH by (intros; apply H; by right). done. Qed.

(** *** Bits *)

Definition status_bits : list Z :=
  [DEPENDENCY_STATUS_REFERENCED; DEPENDENCY_STATUS_READY; DEPENDENCY_STATUS_FINISHED; DEPENDENCY_STATUS_FAILED].

Lemma bits_spec x b b' : 0 <= x < 16 → b ∈ status_bits → b' ∈ status_bits →
  has (Z.lor x b) b' = has x b' || (b =? b') ∧ has (Z.land x (Z.lnot b)) b' = has x b' && negb (b =? b') ∧
  0 <= Z.lor x b < 16 ∧ 0 <= Z.land x (Z.lnot b) < 16.
Proof.
  intros Hx Hb Hb'.
  assert (H : forallb (λ x, forallb (λ b, forallb (λ b',
    Bool.eqb (has (Z.lor x b) b') (has x b' || (b =? b')) && Bool.eqb (has (Z.land x (Z.lnot b)) b') (has x b' && negb (b =? b')) &&
    (0 <=? Z.lor x b) && (Z.lor x b <? 16) && (0 <=? Z.land x (Z.lnot b)) && (Z.land x (Z.lnot b) <? 16))
    status_bits) status_bits) (seqZ 0 16) = true) by by vm_compute.
  rewrite forallb_forall in H. specialize (H x ltac:(apply list_elem_of_In, elem_of_seqZ; lia)).
  rewrite forallb_forall in H. specialize (H b ltac:(by apply list_elem_of_In)).
  rewrite forallb_forall in H. specialize (H b' ltac:(by apply list_elem_of_In)).
  rewrite !andb_true_iff in H. destruct H as [[[[[H1 H2] H3] H4] H5] H6].
  apply Bool.eqb_prop in H1, H2. split_and!; [done|done|lia..].
Qed.

Lemma no_bits x : 0 <= x < 16 → (∀ b, b ∈ status_bits → has x b = false) → x = 0.
Proof.
  intros Hx H.
  assert (F : forallb (λ x, existsb (has x) status_bits || (x =? 0)) (seqZ 0 16) = true) by by vm_compute.
  rewrite forallb_forall in F. specialize (F x ltac:(apply list_elem_of_In, elem_of_seqZ; lia)).
  apply orb_true_iff in F as [F|F]; [|by apply Z.eqb_eq]. apply existsb_exists in F as (b & Hb & E).
  rewrite H in E by (by apply list_elem_of_In). done.
Qed.

Lemma zero_bits b : has 0 b = false.
Proof. unfold has. by rewrite Z.land_0_l. Qed.

(** ** The invariant *)

(** How the invariant is to be read in the middle of an operation: the arrays as they
    are when an edge is still to be taken out of them, references counted and not
    marked, daemons that are being changed, daemons with a count just dropped, daemons
    of which a dependency just became ready, and daemons that are being configured. *)
Record view := View {
  vdeps : nat → list nat;
  vdependents : nat → list nat;
  voffset : nat → Z;
  vopen : list nat;
  vunref : list nat;
  vwait : list nat;
  vconf : list nat;
}.

Record graph_ok (n : nat) (g : dependency_graph) (v : view) : Prop := {
  go_edge e d : edges g !! e = Some d →
    (source d < n)%nat ∧ (target d < n)%nat ∧ (e < next_edge g)%nat ∧ e ∈ vdeps v (source d) ∧ e ∈ vdependents v (target d) ∧
    0 <= status d < 16;
  go_dep i e : e ∈ vdeps v i → ∃ d, edges g !! e = Some d ∧ source d = i;
  go_dependent j e : e ∈ vdependents v j → ∃ d, edges g !! e = Some d ∧ target d = j;
  go_nodup i : NoDup (vdeps v i) ∧ NoDup (vdependents v i);
  go_ready i : dependencies_ready g i = tally (edges g) DEPENDENCY_STATUS_READY (vdeps v i);
  go_finished i : dependencies_finished g i = tally (edges g) DEPENDENCY_STATUS_FINISHED (vdeps v i);
  go_failed i : dependencies_failed g i = tally (edges g) DEPENDENCY_STATUS_FAILED (vdeps v i);
  go_reference j : reference_count g j = tally (edges g) DEPENDENCY_STATUS_REFERENCED (vdependents v j) + voffset v j;
}.

(** The exit code is taken from a dependency of the daemon that says so. *)
Definition exits_from (g : dependency_graph) (i : nat) : Prop := ∀ e, exit_code_from g i = Some e →
  ∃ d, edges g !! e = Some d ∧ source d = i ∧ has (flags d) DEPENDENCY_FLAG_EXIT_CODE = true.

(** States with a process, states past the loading of the configuration, and states of
    daemons that run or are to run. *)
Definition has_process (st : daemon_state) : bool :=
  match st with DAEMON_STATE_STARTING | DAEMON_STATE_RUNNING | DAEMON_STATE_TERMINATING => true | _ => false end.
Definition past_loading (st : daemon_state) : bool :=
  match st with
  | DAEMON_STATE_WAITING | DAEMON_STATE_SATISFIED | DAEMON_STATE_STARTING | DAEMON_STATE_RUNNING | DAEMON_STATE_TERMINATING => true
  | _ => false
  end.
Definition awake (st : daemon_state) : bool :=
  match st with
  | DAEMON_STATE_SCHEDULED | DAEMON_STATE_WAITING | DAEMON_STATE_SATISFIED | DAEMON_STATE_STARTING | DAEMON_STATE_RUNNING => true
  | _ => false
  end.
Definition stopping (st : daemon_state) : bool :=
  match st with DAEMON_STATE_TERMINATING | DAEMON_STATE_FINISHING => true | _ => false end.

(** A daemon in a state. *)
Record sound (st : daemon_state) (d : daemon) : Prop := {
  sound_process : 0 < pid d → has_process st = true ∧ has_argv (argv d) = true;
  sound_running : has_process st = true → 0 < pid d ∨ (st = DAEMON_STATE_RUNNING ∧ has_argv (argv d) = false);
  sound_configured : past_loading st = true → configured d = true;
  sound_terminated : was_terminated d = true → stopping st = true;
}.

Definition used (s : system) (i : nat) : Z := Z.of_nat (length (items (dependencies (graph s) i))).
Definition sound_in (s : system) (i : nat) (d : daemon) : Prop :=
  sound (state (lists s) i) d.

(** With [t] also what holds in executions where no daemon is set back wrongly. *)
Record inv (t : bool) (v : view) (s : system) : Prop := {
  inv_lists : lists_ok (length (daemons s)) (lists s);
  inv_graph : graph_ok (length (daemons s)) (graph s) v;
  inv_conf i d : daemons s !! i = Some d → i ∉ vconf v → configured d = false → vdeps v i = [];
  inv_sound i d : t = true → daemons s !! i = Some d → i ∉ vopen v → sound_in s i d;
  inv_wanted i : t = true → (i < length (daemons s))%nat → i ∉ vunref v → i ≠ 0%nat →
    reference_count (graph s) i = 0 → awake (state (lists s) i) = false;
  inv_waiting i : t = true → i ∉ vwait v → state (lists s) i = DAEMON_STATE_WAITING → dependencies_ready (graph s) i < used s i;
  inv_exit i : i ∉ vopen v → exits_from (graph s) i;
  inv_default : ∃ d, daemons s !! 0%nat = Some d ∧ name d = lit "default";
}.

(** The view between operations: the arrays as they are, and nothing open. *)
Definition plain (s : system) : view :=
  View (λ i, items (dependencies (graph s) i)) (dependents (graph s)) (λ _, 0) [] [] [] [].

(** What may end [init]: without [t] also a process that exits unexpectedly.  The assertions on the
    poll table are looked at on their own. *)
Definition known (t : bool) (w : cause) : Prop :=
  w ∈ [assert_dependency_status; assert_startup_error; assert_reconfigure_netif; beyond_array; bad_argv] ∨
  (t = false ∧ w = assert_on_exit) ∨ w ∈ [assert_register; assert_unregister].

(** What an operation that changes neither arrays nor configurations leaves alone. *)
Record kept (s s' : system) : Prop := {
  kept_length : length (daemons s') = length (daemons s);
  kept_daemon i d : daemons s !! i = Some d → ∃ d', daemons s' !! i = Some d' ∧ name d' = name d ∧ netif d' = netif d ∧
    argv d' = argv d ∧ configured d' = configured d ∧ pid d' = pid d ∧ type d' = type d;
  kept_dependencies : dependencies (graph s') = dependencies (graph s);
  kept_dependents : dependents (graph s') = dependents (graph s);
  kept_next : next_edge (graph s') = next_edge (graph s);
  kept_exit : exit_code_from (graph s') = exit_code_from (graph s);
  kept_edge e d : edges (graph s) !! e = Some d → ∃ d', edges (graph s') !! e = Some d' ∧ source d' = source d ∧
    target d' = target d ∧ flags d' = flags d;
}.

#[global] Instance kept_preorder : PreOrder kept.
Proof.
  split.
  - intros s. split; eauto 10.
  - intros s1 s2 s3 H1 H2. split.
    + by rewrite (kept_length _ _ H2), (kept_length _ _ H1).
    + intros i d Hd. destruct (kept_daemon _ _ H1 i d Hd) as (d2 & Hd2 & ? & ? & ? & ? & ? & ?).
      destruct (kept_daemon _ _ H2 i d2 Hd2) as (d3 & Hd3 & ? & ? & ? & ? & ? & ?). exists d3. split_and!; congruence.
    + by rewrite (kept_dependencies _ _ H2), (kept_dependencies _ _ H1).
    + by rewrite (kept_dependents _ _ H2), (kept_dependents _ _ H1).
    + by rewrite (kept_next _ _ H2), (kept_next _ _ H1).
    + by rewrite (kept_exit _ _ H2), (kept_exit _ _ H1).
    + intros e d Hd. destruct (kept_edge _ _ H1 e d Hd) as (d2 & Hd2 & ? & ? & ?).
      destruct (kept_edge _ _ H2 e d2 Hd2) as (d3 & Hd3 & ? & ? & ?). exists d3. split_and!; congruence.
Qed.

Lemma plain_kept s s' : kept s s' → plain s' = plain s.
Proof. intros H. unfold plain. by rewrite (kept_dependencies _ _ H), (kept_dependents _ _ H). Qed.

(** ** Views *)

Definition open (i : nat) (v : view) : view := View (vdeps v) (vdependents v) (voffset v) (i :: vopen v) (vunref v) (vwait v) (vconf v).
Definition unref (i : nat) (v : view) : view := View (vdeps v) (vdependents v) (voffset v) (vopen v) (i :: vunref v) (vwait v) (vconf v).
Definition await (i : nat) (v : view) : view := View (vdeps v) (vdependents v) (voffset v) (vopen v) (vunref v) (i :: vwait v) (vconf v).
Definition offset (i : nat) (k : Z) (v : view) : view :=
  View (vdeps v) (vdependents v) (λ j, voffset v j + if decide (j = i) then k else 0) (vopen v) (vunref v) (vwait v) (vconf v).

Lemma graph_ok_view n g v v' : graph_ok n g v →
  (∀ i, vdeps v' i = vdeps v i) → (∀ i, vdependents v' i = vdependents v i) → (∀ i, voffset v' i = voffset v i) → graph_ok n g v'.
Proof.
  intros [H1 H2 H3 H4 H5 H6 H7 H8] E1 E2 E3. split.
  - intros e d. rewrite E1, E2. apply H1.
  - intros i e. rewrite E1. apply H2.
  - intros i e. rewrite E2. apply H3.
  - intros i. rewrite E1, E2. apply H4.
  - intros i. rewrite E1. apply H5.
  - intros i. rewrite E1. apply H6.
  - intros i. rewrite E1. apply H7.
  - intros i. rewrite E2, E3. apply H8.
Qed.

Section Basic.
Context (t : bool).

Lemma inv_view v v' s : inv t v s → (∀ i, vdeps v' i = vdeps v i) → (∀ i, vdependents v' i = vdependents v i) →
  (∀ i, voffset v' i = voffset v i) → vopen v' = vopen v → vunref v' = vunref v → vwait v' = vwait v → vconf v' = vconf v → inv t v' s.
Proof.
  intros [HL HG HC HS HW HT HX HD] E1 E2 E3 E4 E5 E6 E7.
  split; rewrite ?E4, ?E5, ?E6, ?E7; try done; [by apply (graph_ok_view _ _ v)|]. intros i d. rewrite E1. apply HC.
Qed.

Lemma inv_open i v s : inv t v s → inv t (open i v) s.
Proof.
  intros [HL HG HC HS HW HT HX HD]. split; try done; [by apply (graph_ok_view _ _ v)|..]; cbn [vdeps vopen open].
  - intros j d Ht Hd Hj. apply (HS j d Ht Hd). by apply not_elem_of_cons in Hj as [_ ?].
  - intros j Hj. apply HX. by apply not_elem_of_cons in Hj as [_ ?].
Qed.

Lemma inv_close i v s : inv t (open i v) s → (i ∉ vopen v → exits_from (graph s) i) →
  (t = true → i ∉ vopen v → ∀ d, daemons s !! i = Some d → sound_in s i d) → inv t v s.
Proof.
  intros [HL HG HC HS HW HT HX HD] Hx Hi. split; try done; [by apply (graph_ok_view _ _ (open i v))|..].
  - intros j d Ht Hd Hj. destruct (decide (j = i)) as [->|Hne]; [by apply Hi|]. apply (HS j d Ht Hd). by apply not_elem_of_cons.
  - intros j Hj. destruct (decide (j = i)) as [->|Hne]; [by apply Hx|]. apply HX. by apply not_elem_of_cons.
Qed.

Lemma inv_unref i v s : inv t v s → inv t (unref i v) s.
Proof.
  intros [HL HG HC HS HW HT HX HD]. split; try done; [by apply (graph_ok_view _ _ v)|]; cbn [vunref unref].
  intros j Ht Hj Hu. apply HW; [done|done|]. by apply not_elem_of_cons in Hu as [_ ?].
Qed.

Lemma inv_reref i v s : inv t (unref i v) s →
  (t = true → i ∉ vunref v → i ≠ 0%nat → reference_count (graph s) i = 0 → awake (state (lists s) i) = false) → inv t v s.
Proof.
  intros [HL HG HC HS HW HT HX HD] Hi. split; try done; [by apply (graph_ok_view _ _ (unref i v))|].
  intros j Ht Hj Hu H0. destruct (decide (j = i)) as [->|Hne]; [by apply Hi|]. apply HW; [done|done| |done]. by apply not_elem_of_cons.
Qed.

Lemma inv_await i v s : inv t v s → inv t (await i v) s.
Proof.
  intros [HL HG HC HS HW HT HX HD]. split; try done; [by apply (graph_ok_view _ _ v)|]; cbn [vwait await].
  intros j Ht Hj. apply HT; [done|]. by apply not_elem_of_cons in Hj as [_ ?].
Qed.

Lemma inv_awaited i v s : inv t (await i v) s →
  (t = true → i ∉ vwait v → state (lists s) i = DAEMON_STATE_WAITING → dependencies_ready (graph s) i < used s i) → inv t v s.
Proof.
  intros [HL HG HC HS HW HT HX HD] Hi. split; try done; [by apply (graph_ok_view _ _ (await i v))|].
  intros j Ht Hj. destruct (decide (j = i)) as [->|Hne]; [by apply Hi|]. apply HT; [done|]. by apply not_elem_of_cons.
Qed.

(** *** Steps *)

Lemma inv_move v s i st l' : inv t v s → lists_ok (length (daemons s)) l' → (∀ j, state l' j = update (state (lists s)) i st j) →
  (i ∈ vopen v ∨ (t = true → ∀ d, daemons s !! i = Some d → sound st d)) →
  (t = true → i ∉ vunref v → i ≠ 0%nat → reference_count (graph s) i = 0 → awake st = false) →
  (t = true → st = DAEMON_STATE_WAITING → dependencies_ready (graph s) i < used s i) → inv t v (set_lists l' s).
Proof.
  intros [HL HG HC HS HW HT HX HD] Hl' Hst Hs Hw Hwt. split; try done; cbn.
  - intros j d Ht Hd Hj. unfold sound_in. cbn. rewrite Hst. destruct (decide (j = i)) as [->|Hne].
    + rewrite update_eq. destruct Hs as [?|Hs]; [done|]. by apply Hs.
    + rewrite update_ne by done. by apply HS.
  - intros j Ht Hj Hu H0 Hr. rewrite Hst. destruct (decide (j = i)) as [->|Hne].
    + rewrite update_eq. by apply Hw.
    + rewrite update_ne by done. by apply HW.
  - intros j Ht Hj. rewrite Hst. destruct (decide (j = i)) as [->|Hne].
    + rewrite update_eq. by apply Hwt.
    + rewrite update_ne by done. by apply HT.
Qed.

Lemma wp_move v s i st (Q : () → system → Prop) : inv t v s → (i < length (daemons s))%nat →
  (i ∈ vopen v ∨ (t = true → ∀ d, daemons s !! i = Some d → sound st d)) →
  (t = true → i ∉ vunref v → i ≠ 0%nat → reference_count (graph s) i = 0 → awake st = false) →
  (t = true → st = DAEMON_STATE_WAITING → dependencies_ready (graph s) i < used s i) →
  (∀ l', inv t v (set_lists l' s) → (∀ j, state l' j = update (state (lists s)) i st j) → Q () (set_lists l' s)) →
  wp (known t) (daemon_change_state_list i st) Q s.
Proof.
  intros Hinv Hi Hs Hw Hwt HQ. destruct (change_state_lists _ s i st (inv_lists _ _ _ Hinv) Hi) as (l' & E & Hl & Hst).
  eapply wp_run; [exact E|]. apply HQ; [|done]. by eapply inv_move.
Qed.

Lemma inv_put v s i d d' : inv t v s → daemons s !! i = Some d → name d' = name d →
  (configured d' = configured d ∨ configured d' = true ∨ i ∈ vconf v ∨ vdeps v i = []) →
  (i ∈ vopen v ∨ (t = true → sound_in s i d')) → inv t v (set_daemons (<[i := d']> (daemons s)) s).
Proof.
  intros [HL HG HC HS HW HT HX HD] Hd Hname Hconf Hs.
  split; cbn; rewrite ?length_insert; try done.
  - intros j x Hx Hj Hc. apply list_lookup_insert_Some in Hx as [(<- & <- & _)|(Hne & Hx)]; [|by apply (HC j x)].
    destruct Hconf as [E|[E|[E|E]]]; [apply (HC i d); congruence|congruence|done|done].
  - intros j x Ht Hx Hj. apply list_lookup_insert_Some in Hx as [(<- & <- & _)|(Hne & Hx)]; [|by apply (HS j x)].
    destruct Hs as [?|Hs]; [done|by apply Hs].
  - destruct HD as (d0 & Hd0 & Hn0). destruct (decide (i = 0%nat)) as [->|Hne].
    + exists d'. rewrite list_lookup_insert_eq by (by eapply lookup_lt_Some). split; [done|]. congruence.
    + exists d0. by rewrite list_lookup_insert_ne.
Qed.

Lemma wp_put v s i f d (Q : () → system → Prop) : inv t v s → daemons s !! i = Some d → name (f d) = name d →
  (configured (f d) = configured d ∨ configured (f d) = true ∨ i ∈ vconf v ∨ vdeps v i = []) →
  (i ∈ vopen v ∨ (t = true → sound_in s i (f d))) →
  (inv t v (set_daemons (<[i := f d]> (daemons s)) s) → Q () (set_daemons (<[i := f d]> (daemons s)) s)) →
  wp (known t) (set_daemon i f) Q s.
Proof. intros Hinv Hd Hn Hc Hs HQ. eapply wp_set_daemon; [exact Hd|]. apply HQ. by eapply inv_put. Qed.

Lemma inv_signals v s x y z p : inv t v s → inv t v (System (daemons s) (lists s) (graph s) x y z p).
Proof. intros []. split; done. Qed.

Lemma kept_signals s x y z p : kept s (System (daemons s) (lists s) (graph s) x y z p).
Proof. split; eauto 10. Qed.
Lemma kept_lists s l : kept s (set_lists l s).
Proof. split; eauto 10. Qed.
Lemma kept_put s i d d' : daemons s !! i = Some d → name d' = name d → netif d' = netif d → argv d' = argv d →
  configured d' = configured d → pid d' = pid d → type d' = type d → kept s (set_daemons (<[i := d']> (daemons s)) s).
Proof.
  intros Hd ? ? ? ? ? ?. split; cbn; eauto 10 using length_insert.
  intros j x Hx. destruct (decide (j = i)) as [->|Hne].
  - exists d'. rewrite list_lookup_insert_eq by (by eapply lookup_lt_Some). rewrite Hd in Hx. injection Hx as <-. by split_and!.
  - exists x. by rewrite list_lookup_insert_ne.
Qed.

Lemma sound_same st d d' : sound st d → pid d' = pid d → argv d' = argv d → configured d' = configured d →
  was_terminated d' = was_terminated d → sound st d'.
Proof. intros [] E1 E2 E3 E4. split; rewrite ?E1, ?E2, ?E3, ?E4; auto. Qed.

Lemma has_daemon s i : (i < length (daemons s))%nat → ∃ d, daemons s !! i = Some d.
Proof. intros H. by apply lookup_lt_is_Some_2. Qed.

(** *** Steps of the graph *)

Lemma inv_graph_step v v' s g' : inv t v s → graph_ok (length (daemons s)) g' v' →
  vdeps v' = vdeps v → vopen v' = vopen v → vunref v' = vunref v → vwait v' = vwait v → vconf v' = vconf v → dependencies g' = dependencies (graph s) →
  exit_code_from g' = exit_code_from (graph s) →
  (∀ e d, edges (graph s) !! e = Some d → ∃ d', edges g' !! e = Some d' ∧ source d' = source d ∧ target d' = target d ∧ flags d' = flags d) →
  (∀ i, i ∉ vwait v → dependencies_ready g' i <= dependencies_ready (graph s) i) →
  (∀ i, i ∉ vunref v → reference_count g' i = 0 → reference_count (graph s) i = 0) →
  inv t v' (set_graph g' s).
Proof.
  intros [HL HG HC HS HW HT HX HD] Hg' E1 E2 E3 E5 E7 E4 E6 Hk Hr Hc. split; try done; cbn; rewrite ?E1, ?E2, ?E3, ?E5, ?E7; try done.
  - intros i Ht Hi Hu H0 H. apply HW; auto.
  - intros i Ht Hw Hst. specialize (HT i Ht Hw Hst). specialize (Hr i Hw). unfold used in *. cbn. rewrite E4. lia.
  - intros i Hi e. rewrite E6. intros (d & Hd & Hs & Hf)%(HX i Hi). destruct (Hk e d Hd) as (d' & ? & ? & ? & ?). exists d'. split_and!; congruence.
Qed.

Lemma status_edges (es es' : gmap nat dependency) e d x : es !! e = Some d → es' = <[e := set_status x d]> es →
  ∀ e' d', es !! e' = Some d' → ∃ d'', es' !! e' = Some d'' ∧ source d'' = source d' ∧ target d'' = target d' ∧ flags d'' = flags d'.
Proof.
  intros He -> e' d' E. destruct (decide (e' = e)) as [->|Hne].
  - rewrite lookup_insert_eq. eexists. split; [done|]. cbn. rewrite He in E. injection E as <-. done.
  - rewrite lookup_insert_ne by done. eauto.
Qed.

(** The status of one dependency changes, and the counters with it. *)
Lemma graph_status n g g' v v' e d x :
  graph_ok n g v → edges g !! e = Some d → 0 <= x < 16 →
  edges g' = <[e := set_status x d]> (edges g) → next_edge g' = next_edge g →
  vdeps v' = vdeps v → vdependents v' = vdependents v →
  (∀ i, dependencies_ready g' i = dependencies_ready g i +
    if decide (i = source d) then Z.b2z (has x DEPENDENCY_STATUS_READY) - Z.b2z (has (status d) DEPENDENCY_STATUS_READY) else 0) →
  (∀ i, dependencies_finished g' i = dependencies_finished g i +
    if decide (i = source d) then Z.b2z (has x DEPENDENCY_STATUS_FINISHED) - Z.b2z (has (status d) DEPENDENCY_STATUS_FINISHED) else 0) →
  (∀ i, dependencies_failed g' i = dependencies_failed g i +
    if decide (i = source d) then Z.b2z (has x DEPENDENCY_STATUS_FAILED) - Z.b2z (has (status d) DEPENDENCY_STATUS_FAILED) else 0) →
  (∀ j, reference_count g' j = reference_count g j + (voffset v' j - voffset v j) +
    if decide (j = target d) then Z.b2z (has x DEPENDENCY_STATUS_REFERENCED) - Z.b2z (has (status d) DEPENDENCY_STATUS_REFERENCED) else 0) →
  graph_ok n g' v'.
Proof.
  intros [H1 H2 H3 H4 H5 H6 H7 H8] He Hx Ee En Ed Edt R1 R2 R3 R4.
  assert (Hin : ∀ i, e ∈ vdeps v i ↔ i = source d).
  { intros i. split; [|intros ->; by apply (H1 e d)]. intros (d' & E & <-)%H2. congruence. }
  assert (Hin' : ∀ j, e ∈ vdependents v j ↔ j = target d).
  { intros j. split; [|intros ->; by apply (H1 e d)]. intros (d' & E & <-)%H3. congruence. }
  assert (T : ∀ bit i, tally (edges g') bit (vdeps v i) = tally (edges g) bit (vdeps v i) +
    if decide (i = source d) then Z.b2z (has x bit) - Z.b2z (has (status d) bit) else 0).
  { intros bit i. rewrite Ee, (tally_insert _ _ _ d) by (done || apply H4). f_equal.
    destruct (decide (i = source d)) as [Hi|Hi]; [rewrite decide_True by (by apply Hin)|rewrite decide_False by (by rewrite Hin)]; done. }
  assert (T' : ∀ bit j, tally (edges g') bit (vdependents v j) = tally (edges g) bit (vdependents v j) +
    if decide (j = target d) then Z.b2z (has x bit) - Z.b2z (has (status d) bit) else 0).
  { intros bit j. rewrite Ee, (tally_insert _ _ _ d) by (done || apply H4). f_equal.
    destruct (decide (j = target d)) as [Hi|Hi]; [rewrite decide_True by (by apply Hin')|rewrite decide_False by (by rewrite Hin')]; done. }
  assert (L : ∀ e' d', edges g !! e' = Some d' → ∃ d'', edges g' !! e' = Some d'' ∧ source d'' = source d' ∧ target d'' = target d' ∧ flags d'' = flags d').
  { by eapply status_edges. }
  split; rewrite ?Ed, ?Edt, ?En.
  - intros e' d' E. rewrite Ee in E. apply lookup_insert_Some in E as [(<- & <-)|(Hne & E)]; cbn; [|by apply H1].
    destruct (H1 e d He) as (? & ? & ? & ? & ? & _). split_and!; done || lia.
  - intros i e' (d' & E & Es)%H2. destruct (L e' d' E) as (d'' & ? & ? & ? & ?). exists d''. split; congruence.
  - intros i e' (d' & E & Es)%H3. destruct (L e' d' E) as (d'' & ? & ? & ? & ?). exists d''. split; congruence.
  - done.
  - intros i. by rewrite R1, T, H5.
  - intros i. by rewrite R2, T, H6.
  - intros i. by rewrite R3, T, H7.
  - intros j. rewrite R4, T', H8. lia.
Qed.

Lemma kept_graph s g' : dependencies g' = dependencies (graph s) → dependents g' = dependents (graph s) →
  next_edge g' = next_edge (graph s) → exit_code_from g' = exit_code_from (graph s) →
  (∀ e d, edges (graph s) !! e = Some d → ∃ d', edges g' !! e = Some d' ∧ source d' = source d ∧ target d' = target d ∧ flags d' = flags d) →
  kept s (set_graph g' s).
Proof. intros. split; eauto 10. Qed.

Lemma kept_status s g' e d x : edges (graph s) !! e = Some d → edges g' = <[e := set_status x d]> (edges (graph s)) →
  dependencies g' = dependencies (graph s) → dependents g' = dependents (graph s) →
  next_edge g' = next_edge (graph s) → exit_code_from g' = exit_code_from (graph s) → kept s (set_graph g' s).
Proof.
  intros He Ee E1 E2 E3 E4. apply kept_graph; try done. by eapply status_edges.
Qed.

End Basic.

End DaemonInv.
