(* ===== verification/DaemonOps.v ===== *)
(** * The operations on daemons keep the invariant

    Stopping, readiness, the end of daemons, restarting and references: every
    operation of [Daemon] that changes neither arrays nor configurations. *)

From S2P Require Import Prelude Timespec Daemon DaemonLists DaemonInv.
From stdpp Require Import base decidable list numbers gmap strings.
From Stdlib Require Import ZArith Lia.

#[local] Open Scope Z_scope.

Module DaemonOps.
Import Daemon DaemonLists DaemonInv.

(** The tests of the code on states. *)
Definition stoppable (st : daemon_state) : bool :=
  match st with DAEMON_STATE_SCHEDULED | DAEMON_STATE_SATISFIED | DAEMON_STATE_STARTING | DAEMON_STATE_RUNNING => true | _ => false end.
Definition over (st : daemon_state) : bool :=
  match st with DAEMON_STATE_FINISHING | DAEMON_STATE_FINISHED => true | _ => false end.
Definition idle (st : daemon_state) : bool :=
  match st with DAEMON_STATE_TERMINATED | DAEMON_STATE_FINISHED => true | _ => false end.

(** Tests of a given state are evaluated. *)
Ltac decide_states :=
  repeat match goal with
  | |- context [bool_decide ?P] =>
      let b := eval vm_compute in (bool_decide P) in
      first [constr_eq b true; change (bool_decide P) with true | constr_eq b false; change (bool_decide P) with false]
  end.

(** The next steps of a straight piece of code. *)
Ltac wp_steps :=
  repeat match goal with
  | |- wp _ (_ ≫= _) _ _ => apply wp_bind
  | |- wp _ get_system _ _ => apply wp_get
  | |- wp _ (state_of _) _ _ => apply wp_state_of
  | |- wp _ skip _ _ => apply wp_skip
  | |- wp _ (mret _) _ _ => apply wp_ret
  | H : daemons ?s !! ?i = Some _ |- wp _ (the_daemon ?i) _ ?s => apply (wp_the_daemon _ i _ _ s H)
  | H : edges (graph ?s) !! ?e = Some _ |- wp _ (the_dependency ?e) _ ?s => apply (wp_the_dependency _ e _ _ s H)
  end.

Section Ops.
Context (t : bool) (env : environment).
Abbreviation n_of s := (length (daemons s)).
Abbreviation st_of s i := (state (lists s) i).

(** Closing a daemon that was opened for a change. *)
Lemma closing v s s' i : inv t v s → inv t (open i v) s' → kept s s' → (i < n_of s)%nat →
  (t = true → i ∉ vopen v → ∀ d d', daemons s !! i = Some d → daemons s' !! i = Some d' → sound_in s i d → sound_in s' i d') →
  inv t v s'.
Proof.
  intros Hinv Hinv' Hk Hi Hs. apply (inv_close t i v s' Hinv').
  { intros Ho e. rewrite (kept_exit _ _ Hk). intros (d & Hd & Es & Ef)%(inv_exit _ _ _ Hinv i Ho).
    destruct (kept_edge _ _ Hk e d Hd) as (d' & ? & ? & ? & ?). exists d'. split_and!; congruence. }
  intros Ht Ho d' Hd'. destruct (has_daemon s i Hi) as [d Hd]. apply (Hs Ht Ho d d' Hd Hd'). by apply (inv_sound _ _ _ Hinv).
Qed.

Lemma sound_over st d : over st = true → ¬ 0 < pid d → (was_terminated d = true → stopping st = true) → sound st d.
Proof.
  intros Hst Hp Hw. split; [intros H; by apply Hp in H|destruct st; discriminate..|exact Hw].
Qed.

Lemma on_finished_ok v s i (Q : () → system → Prop) : inv t v s → (i < n_of s)%nat → over (st_of s i) = false →
  (i ∈ vopen v ∨ (t = true → ∀ d, daemons s !! i = Some d → ¬ 0 < pid d)) →
  (∀ l', inv t v (set_lists l' s) → (∀ j, state l' j = update (state (lists s)) i DAEMON_STATE_FINISHING j) → Q () (set_lists l' s)) →
  wp (known t) (daemon_on_finished i) Q s.
Proof.
  intros Hinv Hi Hst Hp HQ. unfold daemon_on_finished. wp_steps.
  destruct (st_of s i); try discriminate Hst; decide_states; cbn [negb]; do 2 (apply wp_assert; [discriminate|intros _]; wp_steps).
  all: apply (wp_move t v); [done|done| |done|done|done].
  all: destruct Hp as [?|Hp]; [by left|right]; intros Ht d Hd; apply sound_over; [done|by apply Hp|done].
Qed.

Lemma schedule_ok v s i (Q : () → system → Prop) : inv t v s → (i < n_of s)%nat → st_of s i = DAEMON_STATE_TERMINATED →
  (t = true → i ∉ vunref v → i ≠ 0%nat → reference_count (graph s) i ≠ 0) →
  (∀ l', inv t v (set_lists l' s) → (∀ j, state l' j = update (state (lists s)) i DAEMON_STATE_SCHEDULED j) → Q () (set_lists l' s)) →
  wp (known t) (daemon_schedule i) Q s.
Proof.
  intros Hinv Hi Hst Hr HQ. unfold daemon_schedule. wp_steps. rewrite Hst. decide_states. apply wp_assert; [discriminate|intros _].
  apply (wp_move t v); [done|done| |by intros ????%Hr|done|done].
  destruct (decide (i ∈ vopen v)); [by left|right]. intros Ht d Hd. pose proof (inv_sound _ _ _ Hinv i d Ht Hd ltac:(done)) as [H1 H2 H3 H4].
  rewrite Hst in *. split; done.
Qed.

(** *** Stopping *)

(** Changes of a daemon that leave alone what the invariant speaks of. *)
Definition minor (f : daemon → daemon) : Prop := ∀ d,
  name (f d) = name d ∧ netif (f d) = netif d ∧ argv (f d) = argv d ∧ configured (f d) = configured d ∧ pid (f d) = pid d ∧
  type (f d) = type d.
Definition very_minor (f : daemon → daemon) : Prop := minor f ∧ ∀ d, was_terminated (f d) = was_terminated d.

Lemma minor_kept s i f d : minor f → daemons s !! i = Some d → kept s (set_daemons (<[i := f d]> (daemons s)) s).
Proof. intros Hf Hd. destruct (Hf d) as (? & ? & ? & ? & ? & ?). by apply (kept_put s i d). Qed.

Lemma wp_minor v s i f (Q : () → system → Prop) : inv t v s → (i < n_of s)%nat → very_minor f →
  (∀ d s', daemons s !! i = Some d → s' = set_daemons (<[i := f d]> (daemons s)) s → inv t v s' → kept s s' → Q () s') →
  wp (known t) (set_daemon i f) Q s.
Proof.
  intros Hinv Hi [Hf Hf'] HQ. destruct (has_daemon s i Hi) as [d Hd]. destruct (Hf d) as (Hn & _ & Ha & Hc & Hp & _).
  apply (wp_put t v s i f d); [done|done|done|by left| |intros Hinv'; eapply HQ; eauto using minor_kept].
  destruct (decide (i ∈ vopen v)); [by left|right]. intros Ht.
  apply (sound_same _ d); try done. by apply (inv_sound _ _ _ Hinv).
Qed.

Lemma wp_send v s p x sig (Q : () → system → Prop) : inv t v s →
  (∀ s', s' = System (daemons s) (lists s) (graph s) (signals s') (caught_exit_signal s') (default_daemon_exit_code s') (polled s') → inv t v s' → kept s s' → Q () s') →
  wp (known t) (send_signal_to p x sig) Q s.
Proof.
  intros Hinv HQ. unfold send_signal_to. apply wp_modify. apply HQ; [done|by apply inv_signals|apply kept_signals].
Qed.

(** What stopping a daemon does. *)
Definition stopped (v : view) (i : nat) (s s' : system) : Prop :=
  inv t v s' ∧ kept s s' ∧ graph s' = graph s ∧ (∀ j, j ≠ i → st_of s' j = st_of s j).

Lemma stop_ok v s i d f g sig : inv t v s → (i < n_of s)%nat → daemons s !! i = Some d → minor f → very_minor g →
  wp (known t) (set_daemon i f;; daemon_change_state_list i DAEMON_STATE_TERMINATING;;
    if 0 <? pid d then send_signal_to (pid d) (signal_to d) sig;; set_daemon i g else daemon_on_finished i)
    (λ _ s', stopped v i s s' ∧ stopping (st_of s' i) = true) s.
Proof.
  intros Hinv Hi Hd Hf Hg. destruct (Hf d) as (Hfn & _ & Hfa & Hfc & Hfp & _).
  wp_steps. eapply (wp_put t (open i v)); [by apply inv_open|exact Hd|done|by left|left; left|]. intros Hinv1.
  wp_steps. apply (wp_move t (open i v)); [done|by cbn; rewrite length_insert|left; left|done|done|]. intros l1 Hinv2 Hst1.
  set (s1 := set_lists l1 _) in *.
  assert (Hn1 : n_of s1 = n_of s) by (cbn; apply length_insert).
  assert (Hd1 : daemons s1 !! i = Some (f d)) by (by cbn; apply list_lookup_insert_eq).
  assert (K1 : kept s s1) by (etransitivity; [by apply (minor_kept s i f d)|apply kept_lists]).
  assert (S1 : ∀ j, st_of s1 j = update (state (lists s)) i DAEMON_STATE_TERMINATING j) by exact Hst1.
  destruct (0 <? pid d) eqn:Ep; wp_steps.
  - apply (wp_send (open i v)); [done|]. intros s2 E2 Hinv3 K2.
    apply (wp_minor (open i v)); [done|by rewrite (kept_length _ _ K2), Hn1|done|]. intros d2 s3 Hd2 E3 Hinv4 K3.
    assert (K : kept s s3) by (do 2 (etransitivity; [done|]); done).
    rewrite E2 in Hd2. cbn in Hd2. rewrite list_lookup_insert_eq in Hd2 by done. injection Hd2 as <-.
    assert (S3 : ∀ j, st_of s3 j = st_of s1 j) by (intros j; by rewrite E3, E2).
    assert (G3 : graph s3 = graph s) by (by rewrite E3, E2).
    split; [split_and!; [|done|done|intros j Hj; by rewrite S3, S1, update_ne]|by rewrite S3, S1, update_eq].
    eapply closing; [exact Hinv|exact Hinv4|exact K|done|]. intros Ht Ho x x' Hx Hx' Hs. rewrite Hd in Hx. injection Hx as <-.
    unfold sound_in. rewrite S3, S1, update_eq. destruct Hs as [H1 H2 H3 H4]. apply Z.ltb_lt in Ep. destruct (H1 Ep) as [Hp Ha].
    destruct (kept_daemon _ _ K i d Hd) as (y & Hy & _ & _ & Ey1 & Ey2 & Ey3 & _). rewrite Hx' in Hy. injection Hy as <-.
    split; rewrite ?Ey1, ?Ey2, ?Ey3; try done; [by left|]. intros _. apply H3. by destruct (st_of s i).
  - apply (on_finished_ok (open i v)); [exact Hinv2|by rewrite Hn1|by rewrite S1, update_eq|left; left|].
    intros l2 Hinv3 Hst2. assert (K : kept s (set_lists l2 s1)) by (etransitivity; [exact K1|apply kept_lists]).
    split; [split_and!; [|done|done|]|].
    + eapply closing; [exact Hinv|exact Hinv3|exact K|done|].
      intros Ht Ho x x' Hx Hx' Hs. cbn in Hx'. rewrite list_lookup_insert_eq in Hx' by done. injection Hx' as <-.
      unfold sound_in. cbn. rewrite Hst2, update_eq. apply sound_over; [done| |done]. rewrite Hfp. apply Z.ltb_ge in Ep. lia.
    + intros j Hj. cbn. by rewrite Hst2, update_ne, Hst1, update_ne.
    + cbn. by rewrite Hst2, update_eq.
Qed.

Lemma stopped_refl v i s : inv t v s → stopped v i s s.
Proof. intros H. unfold stopped. by split_and!. Qed.

Lemma terminate_ok v s i : inv t v s → (i < n_of s)%nat →
  wp (known t) (daemon_terminate env i) (λ _ s', stopped v i s s' ∧ (st_of s' i = st_of s i ∨ stopping (st_of s' i) = true) ∧
    (t = true → i ∉ vopen v → stoppable (st_of s i) = true → stopping (st_of s' i) = true)) s.
Proof.
  intros Hinv Hi. destruct (has_daemon s i Hi) as [d Hd]. unfold daemon_terminate. wp_steps.
  replace (bool_decide (st_of s i ∈ _)) with (stoppable (st_of s i)) by (by destruct (st_of s i)).
  destruct (stoppable (st_of s i)) eqn:Estop; cbn [negb]; [|by wp_steps; split_and!; auto using stopped_refl].
  destruct (was_terminated d) eqn:Ew.
  { wp_steps. split_and!; auto using stopped_refl. intros Ht Ho _. pose proof (inv_sound _ _ _ Hinv i d Ht Hd Ho) as Hs.
    apply (sound_terminated _ _ Hs Ew). }
  eapply wp_mono; [by apply stop_ok|]. intros _ s' [H1 H2]. by split_and!; auto.
Qed.

Lemma kill_ok v s i : inv t v s → (i < n_of s)%nat → wp (known t) (daemon_kill i) (λ _ s', stopped v i s s') s.
Proof.
  intros Hinv Hi. destruct (has_daemon s i Hi) as [d Hd]. unfold daemon_kill. wp_steps.
  destruct (negb _); [wp_steps; by apply stopped_refl|].
  eapply wp_mono; [by apply stop_ok|]. by intros _ s' [H1 H2].
Qed.

Lemma reload_ok v s i : inv t v s → (i < n_of s)%nat →
  wp (known t) (daemon_reload i) (λ _ s', stopped v i s s' ∧ st_of s' i = st_of s i) s.
Proof.
  intros Hinv Hi. destruct (has_daemon s i Hi) as [d Hd]. unfold daemon_reload. wp_steps.
  destruct (st_of s i) eqn:Est; wp_steps; try by split; [apply stopped_refl|].
  - apply (wp_minor v); [done|done|done|]. intros d' s' Hd' -> Hinv' K. by split.
  - assert (H : ∀ s1, inv t v s1 → kept s s1 → graph s1 = graph s → lists s1 = lists s →
      wp (known t) (set_daemon i (set_want_reload false)) (λ _ s', stopped v i s s' ∧ st_of s' i = DAEMON_STATE_RUNNING) s1).
    { intros s1 Hinv1 K1 G1 L1. apply (wp_minor v); [done|by rewrite (kept_length _ _ K1)|done|]. intros d' s' Hd' -> Hinv' K'.
      split; [split_and!; [done|by etransitivity|done|]|]; cbn; by rewrite L1. }
    destruct (0 <? pid d); wp_steps; [|by apply H]. apply (wp_send v); [done|]. intros s' -> Hinv' K. by apply H.
Qed.

Lemma signal_ok v s i sig : inv t v s → (i < n_of s)%nat → wp (known t) (daemon_signal i sig) (λ _ s', stopped v i s s') s.
Proof.
  intros Hinv Hi. destruct (has_daemon s i Hi) as [d Hd]. unfold daemon_signal. wp_steps.
  destruct (negb _); [by wp_steps; apply stopped_refl|]. destruct (0 <? pid d); [|by wp_steps; apply stopped_refl].
  apply (wp_send v); [done|]. by intros s' -> Hinv' K.
Qed.

(** *** References *)

Lemma on_not_referenced_ok v s i : inv t (unref i v) s → (i < n_of s)%nat → reference_count (graph s) i = 0 →
  i ∉ vopen v ∨ i ∈ vunref v →
  wp (known t) (daemon_on_not_referenced env i) (λ _ s', inv t v s' ∧ kept s s' ∧ graph s' = graph s ∧
    (∀ j, j ≠ i → st_of s' j = st_of s j) ∧ (st_of s' i = st_of s i ∨ awake (st_of s i) = true ∧ stopping (st_of s' i) = true)) s.
Proof.
  intros Hinv Hi Hr Ho. destruct (has_daemon s i Hi) as [d Hd]. unfold daemon_on_not_referenced. wp_steps. rewrite Hr.
  apply wp_assert; [done|intros _]. wp_steps. apply (wp_minor (unref i v)); [done|done|done|]. intros d1 s1 Hd1 E1 Hinv1 K1.
  rewrite Hd in Hd1. injection Hd1 as <-.
  assert (G1 : graph s1 = graph s) by (by rewrite E1). assert (L1 : lists s1 = lists s) by (by rewrite E1).
  assert (Hi1 : (i < n_of s1)%nat) by (by rewrite (kept_length _ _ K1)).
  destruct (awake (st_of s i)) eqn:Ea.
  2:{ assert (inv t v s1) by (apply (inv_reref t i v); [done|]; by rewrite L1).
      destruct (st_of s i) eqn:Est; try discriminate Ea; wp_steps; rewrite ?L1; by split_and!; auto. }
  destruct (st_of s i) eqn:Est; try discriminate Ea.
  1-3: apply (wp_move t (unref i v)); [done|done| |done|done|].
  1,3,5: destruct (decide (i ∈ vopen v)); [by left|right]; intros Ht x Hx; apply sound_over; [done| |done];
    pose proof (inv_sound _ _ _ Hinv1 i x Ht Hx ltac:(done)) as [H1 _ _ _]; rewrite L1, Est in H1; by intros [??]%H1.
  1-3: intros l2 Hinv2 Hst2; cbn; split; [apply (inv_reref t i v); [done|]; intros; cbn; by rewrite Hst2, update_eq|];
    split; [etransitivity; [exact K1|apply kept_lists]|split; [done|]]; split; [intros j Hj; by rewrite Hst2, update_ne, L1|];
    right; by rewrite Hst2, update_eq.
  all: eapply wp_mono; [by apply (terminate_ok (unref i v))|]; intros _ s2 ((Hinv2 & K2 & G2 & S2) & S3 & S4).
  all: rewrite L1, Est in *; split; [|split; [by etransitivity|split; [congruence|split; [exact S2|]]]].
  all: try by destruct S3 as [->|S3]; [by left|by right].
  all: apply (inv_reref t i v); [done|]; intros Ht Hu _ _; destruct Ho as [Ho|Ho]; [|done].
  all: specialize (S4 Ht Ho eq_refl); by destruct (st_of s2 i).
Qed.

(** *** The status of a dependency *)

(** The three statuses that are counted at the source. *)
Inductive counter : Z → (dependency_graph → nat → Z) → ((nat → Z) → dependency_graph → dependency_graph) → Prop :=
| count_ready : counter DEPENDENCY_STATUS_READY dependencies_ready set_ready
| count_finished : counter DEPENDENCY_STATUS_FINISHED dependencies_finished set_finished
| count_failed : counter DEPENDENCY_STATUS_FAILED dependencies_failed set_failed.

Lemma counter_bit bit f g : counter bit f g → bit ∈ status_bits ∧ bit ≠ DEPENDENCY_STATUS_REFERENCED.
Proof. intros []; (split; [apply (bool_decide_unpack _); by vm_compute|done]). Qed.

(** Only the status of one dependency and the counters of its source change. *)
Record restatus (s s' : system) (e : nat) (d : dependency) (x : Z) : Prop := {
  rs_daemons : daemons s' = daemons s;
  rs_lists : lists s' = lists s;
  rs_edges : edges (graph s') = <[e := set_status x d]> (edges (graph s));
  rs_refs : reference_count (graph s') = reference_count (graph s);
  rs_kept : kept s s';
}.

Lemma restatus_refl s e d : edges (graph s) !! e = Some d → restatus s s e d (status d).
Proof.
  intros He. split; try done. symmetry. replace (set_status (status d) d) with d by (by destruct d). by apply insert_id.
Qed.

Lemma restatus_trans s1 s2 s3 e d x y : restatus s1 s2 e d x → restatus s2 s3 e (set_status x d) y → restatus s1 s3 e d y.
Proof.
  intros [A1 A2 A3 A4 A5] [B1 B2 B3 B4 B5]. split; [congruence|congruence| |congruence|by etransitivity].
  rewrite B3, A3, insert_insert_eq. done.
Qed.

Lemma restatus_edge s s' e d x : restatus s s' e d x → edges (graph s') !! e = Some (set_status x d).
Proof. intros H. rewrite (rs_edges _ _ _ _ _ H). apply lookup_insert_eq. Qed.

Lemma status_range v s e d : inv t v s → edges (graph s) !! e = Some d → 0 <= status d < 16.
Proof. intros Hinv He. by apply (go_edge _ _ _ (inv_graph _ _ _ Hinv) e d). Qed.

(** A status is stored and its counter adjusted. *)
Lemma restatus_ok v s e d bit get_ set_ (f : Z → Z) k : inv t v s → edges (graph s) !! e = Some d → counter bit get_ set_ →
  0 <= f (status d) < 16 → k = Z.b2z (has (f (status d)) bit) - Z.b2z (has (status d) bit) →
  (∀ b, b ∈ status_bits → b ≠ bit → has (f (status d)) b = has (status d) b) →
  (bit = DEPENDENCY_STATUS_READY → source d ∈ vwait v ∨ k <= 0) →
  wp (known t) (bump get_ set_ (source d) k;; store_status e f)
    (λ _ s', restatus s s' e d (f (status d)) ∧ inv t v s' ∧ (bit ≠ DEPENDENCY_STATUS_READY → dependencies_ready (graph s') = dependencies_ready (graph s))) s.
Proof.
  intros Hinv He Hcnt Hx Hk Hother Hopen. unfold bump, store_status, modify_graph. wp_steps. apply wp_modify. wp_steps.
  apply (wp_the_dependency _ e d); [by destruct Hcnt|]. apply wp_modify.
  match goal with |- restatus _ ?x _ _ _ ∧ _ => set (s' := x) end.
  assert (K : kept s s') by (by destruct Hcnt; apply (kept_status s _ e d (f (status d)))).
  assert (Hb : ∀ b, b ∈ status_bits → Z.b2z (has (f (status d)) b) - Z.b2z (has (status d) b) = if decide (b = bit) then k else 0).
  { intros b Hb. case_decide as E; [by rewrite Hk, E|]. rewrite Hother by done. lia. }
  assert (Hmem : ∀ b, b ∈ status_bits ↔ b = 1 ∨ b = 2 ∨ b = 4 ∨ b = 8).
  { intros b. unfold status_bits. rewrite !elem_of_cons, elem_of_nil. tauto. }
  split; [split; [done|done|by destruct Hcnt|by destruct Hcnt|exact K]|]. split; [|by destruct Hcnt].
  change s' with (set_graph (graph s') s).
  apply (inv_graph_step t v v); try done.
  - apply (graph_status _ (graph s) _ v v e d (f (status d))); try done; [exact (inv_graph _ _ _ Hinv)|..]; try by destruct Hcnt.
    all: intros j; rewrite Hb by (apply Hmem; unfold DEPENDENCY_STATUS_READY, DEPENDENCY_STATUS_FINISHED, DEPENDENCY_STATUS_FAILED, DEPENDENCY_STATUS_REFERENCED; lia).
    all: destruct Hcnt; cbn; unfold update; repeat case_decide; subst; try done; lia.
  - by destruct Hcnt.
  - by destruct Hcnt.
  - destruct Hcnt; by eapply status_edges.
  - intros i Hi. destruct Hcnt; cbn; try lia. unfold update. case_decide as E; [|lia]. subst i. destruct Hopen as [?|?]; [done|done|lia].
  - by destruct Hcnt.
Qed.

Lemma set_bit_ok v s e d bit get_ set_ : inv t v s → edges (graph s) !! e = Some d → counter bit get_ set_ →
  (bit = DEPENDENCY_STATUS_READY → source d ∈ vwait v) →
  wp (known t) (set_bit e bit get_ set_) (λ _ s', inv t v s' ∧ ∃ x, restatus s s' e d x ∧ has x bit = true ∧
    (bit ≠ DEPENDENCY_STATUS_READY → dependencies_ready (graph s') = dependencies_ready (graph s))) s.
Proof.
  intros Hinv He Hcnt Ho. destruct (counter_bit _ _ _ Hcnt) as [Hbit _]. pose proof (status_range v s e d Hinv He) as Hr.
  unfold set_bit. wp_steps. destruct (has (status d) bit) eqn:Eb; cbn [negb].
  - wp_steps. split; [done|]. exists (status d). by split_and!; [apply restatus_refl|..].
  - destruct (bits_spec (status d) bit bit Hr Hbit Hbit) as (B & _ & R & _). rewrite Z.eqb_refl, orb_true_r in B.
    eapply wp_mono; [apply (restatus_ok v s e d bit); try done; [by rewrite B, Eb| |]|].
    + intros b Hb Hne. destruct (bits_spec (status d) bit b Hr Hbit Hb) as (-> & _). rewrite (proj2 (Z.eqb_neq bit b)) by done. apply orb_false_r.
    + intros E. left. by apply Ho.
    + intros _ s' (A & C & D). split; [done|]. by exists (Z.lor (status d) bit).
Qed.

Lemma reset_bit_ok v s e d bit get_ set_ : inv t v s → edges (graph s) !! e = Some d → counter bit get_ set_ →
  wp (known t) (reset_bit e bit get_ set_) (λ _ s', inv t v s' ∧ ∃ x, restatus s s' e d x ∧ 0 <= x < 16 ∧
    ∀ b, b ∈ status_bits → has x b = has (status d) b && negb (b =? bit)) s.
Proof.
  intros Hinv He Hcnt. destruct (counter_bit _ _ _ Hcnt) as [Hbit _]. pose proof (status_range v s e d Hinv He) as Hr.
  unfold reset_bit. wp_steps. destruct (has (status d) bit) eqn:Eb.
  - destruct (bits_spec (status d) bit bit Hr Hbit Hbit) as (_ & B & _ & R). rewrite Z.eqb_refl, andb_false_r in B.
    assert (Hall : ∀ b, b ∈ status_bits → has (Z.land (status d) (Z.lnot bit)) b = has (status d) b && negb (b =? bit)).
    { intros b Hb. destruct (bits_spec (status d) bit b Hr Hbit Hb) as (_ & -> & _). by rewrite Z.eqb_sym. }
    eapply wp_mono; [apply (restatus_ok v s e d bit _ _ (λ x, Z.land x (Z.lnot bit))); try done; [by rewrite B, Eb| |]|].
    + intros b Hb Hne. rewrite Hall by done. rewrite (proj2 (Z.eqb_neq b bit)) by done. apply andb_true_r.
    + intros _. right. lia.
    + intros _ s' (A & C & D). split; [done|]. eexists. split; [done|]. by split.
  - wp_steps. split; [done|]. exists (status d). split; [by apply restatus_refl|]. split; [done|]. intros b Hb.
    destruct (Z.eqb_spec b bit) as [->|]; [by rewrite Eb|by rewrite andb_true_r].
Qed.

Lemma reset_dependency_ok v s e d : inv t v s → edges (graph s) !! e = Some d →
  wp (known t) (daemon_reset_dependency e) (λ _ s', inv t v s' ∧ ∃ x, restatus s s' e d x ∧ 0 <= x < 16 ∧
    ∀ b, b ∈ status_bits → has x b = has (status d) b && (b =? DEPENDENCY_STATUS_REFERENCED)) s.
Proof.
  intros Hinv He. unfold daemon_reset_dependency. wp_steps.
  eapply wp_mono; [by apply (reset_bit_ok v s e d); [..|constructor]|]. intros _ s1 (Hinv1 & x1 & R1 & B1 & C1). wp_steps.
  eapply wp_mono; [by apply (reset_bit_ok v s1 e (set_status x1 d)); [done|eapply restatus_edge|constructor]|].
  intros _ s2 (Hinv2 & x2 & R2 & B2 & C2). change (set_status x2 (set_status x1 d)) with (set_status x2 d) in *.
  pose proof (restatus_trans _ _ _ _ _ _ _ R1 R2) as R12.
  eapply wp_mono; [by apply (reset_bit_ok v s2 e (set_status x2 d)); [done|eapply restatus_edge|constructor]|].
  intros _ s3 (Hinv3 & x3 & R3 & B3 & C3). split; [done|]. exists x3. split; [by eapply restatus_trans|]. split; [done|].
  intros b Hb. rewrite C3 by done. cbn [status set_status]. rewrite C2 by done. cbn [status set_status]. rewrite C1 by done.
  apply elem_of_cons in Hb as [->|Hb]; [cbn; by rewrite !andb_true_r|].
  apply elem_of_cons in Hb as [->|Hb]; [cbn; by rewrite !andb_false_r|].
  apply elem_of_cons in Hb as [->|Hb]; [cbn; by rewrite !andb_false_r|].
  apply list_elem_of_singleton in Hb as ->. cbn. by rewrite !andb_false_r.
Qed.

(** *** Dereferencing *)

Lemma graph_bump n g v j k : graph_ok n g v →
  graph_ok n (set_reference_count (update (reference_count g) j (reference_count g j + k)) g) (offset j k v).
Proof.
  intros [H1 H2 H3 H4 H5 H6 H7 H8]. split; try done. intros i. cbn. unfold update.
  destruct (decide (i = j)) as [->|]; rewrite H8; cbn; lia.
Qed.

(** The mark of a reference is stored, which the count already has. *)
Lemma store_reference_ok v s e d k (f : Z → Z) : inv t (offset (target d) k v) s → edges (graph s) !! e = Some d →
  0 <= f (status d) < 16 → k = Z.b2z (has (f (status d)) DEPENDENCY_STATUS_REFERENCED) - Z.b2z (has (status d) DEPENDENCY_STATUS_REFERENCED) →
  (∀ b, b ∈ status_bits → b ≠ DEPENDENCY_STATUS_REFERENCED → has (f (status d)) b = has (status d) b) →
  wp (known t) (store_status e f) (λ _ s', inv t v s' ∧ restatus s s' e d (f (status d)) ∧
    dependencies_ready (graph s') = dependencies_ready (graph s)) s.
Proof.
  intros Hinv He Hx Hk Hother. unfold store_status, modify_graph. wp_steps. apply wp_modify.
  match goal with |- inv _ _ ?x ∧ _ => set (s' := x) end.
  split; [|split; [split; try done; by apply (kept_status s _ e d (f (status d)))|done]].
  change s' with (set_graph (graph s') s). apply (inv_graph_step t (offset (target d) k v) v); try done; [|by eapply status_edges].
  apply (graph_status _ (graph s) _ (offset (target d) k v) v e d (f (status d))); try done; [exact (inv_graph _ _ _ Hinv)|..].
  1-3: intros j; cbn; rewrite Hother by (done || apply (bool_decide_unpack _); by vm_compute); case_decide; lia.
  intros j. cbn. rewrite <-Hk. case_decide; lia.
Qed.

(** States change only from running, or to run, to stopping. *)
Definition only_stops (s s' : system) : Prop :=
  ∀ j, st_of s' j = st_of s j ∨ awake (st_of s j) = true ∧ stopping (st_of s' j) = true.

Lemma dereference_ok v s i : inv t v s → (i < n_of s)%nat → 0 < reference_count (graph s) i → i ∉ vopen v ∨ i ∈ vunref v →
  wp (known t) (daemon_dereference env i) (λ _ s', inv t (offset i (-1) v) s' ∧ kept s s' ∧ only_stops s s' ∧
    edges (graph s') = edges (graph s)) s.
Proof.
  intros Hinv Hi Hr Ho. unfold daemon_dereference. wp_steps. apply wp_assert; [intros E; lia|intros _].
  unfold bump, modify_graph. wp_steps. apply wp_modify. cbn zeta.
  set (s1 := set_graph _ s).
  assert (Hinv1 : inv t (unref i (offset i (-1) v)) s1).
  { apply (inv_graph_step t (unref i v)); try done; [by apply inv_unref| |eauto|].
    - apply (graph_ok_view _ _ (offset i (-1) v)); [by apply graph_bump, (inv_graph _ _ _ Hinv)|done..].
    - intros j Hj. cbn. rewrite update_ne; [done|]. intros ->. apply Hj. left. }
  assert (K1 : kept s s1) by (apply kept_graph; eauto).
  assert (E1 : reference_count (graph s1) i = reference_count (graph s) i - 1) by (cbn; rewrite update_eq; lia).
  destruct (Z.eqb_spec (reference_count (graph s) i - 1) 0) as [E|E].
  - eapply wp_mono; [apply (on_not_referenced_ok (offset i (-1) v) s1 i); [done|done|lia|done]|].
    intros _ s2 (Hinv2 & K2 & G2 & S2 & S3). split_and!; [done|by etransitivity| |by rewrite G2].
    intros j. destruct (decide (j = i)) as [->|Hj]; [by destruct S3; auto|]. left. by rewrite S2.
  - wp_steps. split_and!; [|done|by left|done]. apply (inv_reref t i); [done|]. intros _ _ _ H. lia.
Qed.

Lemma dereference_dependency_ok v s e d : inv t v s → edges (graph s) !! e = Some d → 0 <= voffset v (target d) →
  target d ∉ vopen v ∨ target d ∈ vunref v →
  wp (known t) (daemon_dereference_dependency env e) (λ _ s', inv t v s' ∧ kept s s' ∧ only_stops s s' ∧
    edges (graph s') = <[e := set_status 0 d]> (edges (graph s))) s.
Proof.
  intros Hinv He Hv Ho. pose proof (inv_graph _ _ _ Hinv) as Hg. destruct (go_edge _ _ _ Hg e d He) as (_ & Htn & _ & _ & Hin & Hr).
  unfold daemon_dereference_dependency. wp_steps. destruct (has (status d) DEPENDENCY_STATUS_REFERENCED) eqn:Eb.
  2:{ apply wp_assert; [intros _; left; left|intros E%Z.eqb_eq]. split_and!; [done|done|by left|].
      rewrite <-E. symmetry. replace (set_status (status d) d) with d by (by destruct d). by apply insert_id. }
  wp_steps. eapply wp_mono; [by apply (reset_dependency_ok v s e d)|]. intros _ s1 (Hinv1 & x & R1 & Rx & Bx).
  pose proof (restatus_edge _ _ _ _ _ R1) as He1. set (d1 := set_status x d) in *.
  assert (Bref : has x DEPENDENCY_STATUS_REFERENCED = true) by (rewrite Bx, Eb; [done|left]).
  assert (Hn1 : n_of s1 = n_of s) by (by rewrite (rs_daemons _ _ _ _ _ R1)).
  wp_steps. eapply wp_mono; [apply (dereference_ok v s1 (target d)); [done|by rewrite Hn1| |done]|].
  { rewrite (go_reference _ _ _ (inv_graph _ _ _ Hinv1)).
    assert (H : Z.b2z (marked (edges (graph s1)) DEPENDENCY_STATUS_REFERENCED e) = 1) by (unfold marked; rewrite He1; cbn; by rewrite Bref).
    apply list_elem_of_split in Hin as (a & b & ->). rewrite tally_app, tally_cons, H.
    pose proof (tally_bound (edges (graph s1)) DEPENDENCY_STATUS_REFERENCED a). pose proof (tally_bound (edges (graph s1)) DEPENDENCY_STATUS_REFERENCED b). lia. }
  intros _ s2 (Hinv2 & K2 & S2 & G2). assert (He2 : edges (graph s2) !! e = Some d1) by (by rewrite G2).
  assert (Hrem : ∀ b, b ∈ status_bits → has (Z.land x (Z.lnot DEPENDENCY_STATUS_REFERENCED)) b = false).
  { intros b Hb. destruct (bits_spec x DEPENDENCY_STATUS_REFERENCED b Rx) as (_ & -> & _); [left|done|]. rewrite Bx by done.
    rewrite (Z.eqb_sym _ b). destruct (b =? _); [apply andb_false_r|]. by rewrite andb_false_r. }
  assert (Hzero : Z.land x (Z.lnot DEPENDENCY_STATUS_REFERENCED) = 0).
  { apply no_bits; [|done]. by destruct (bits_spec x DEPENDENCY_STATUS_REFERENCED DEPENDENCY_STATUS_REFERENCED Rx) as (_ & _ & _ & ?); [left|left|]. }
  eapply wp_mono; [apply (store_reference_ok v s2 e d1 (-1)); [done|done|cbn; by rewrite Hzero| |]|].
  - cbn [status set_status d1]. by rewrite Hrem, Bref by left.
  - intros b Hb Hne. cbn [status set_status d1]. rewrite Hrem by done. rewrite Bx by done. rewrite (proj2 (Z.eqb_neq _ _)) by done. by rewrite andb_false_r.
  - intros _ s3 (Hinv3 & R3 & _). split_and!; [done|etransitivity; [apply R1|]; etransitivity; [exact K2|apply R3]| |].
    + intros j. rewrite (rs_lists _ _ _ _ _ R3). specialize (S2 j). by rewrite (rs_lists _ _ _ _ _ R1) in S2.
    + rewrite (rs_edges _ _ _ _ _ R3), G2, (rs_edges _ _ _ _ _ R1), insert_insert_eq. cbn [status set_status d1]. by rewrite Hzero.
Qed.

Lemma only_stops_trans s1 s2 s3 : only_stops s1 s2 → only_stops s2 s3 → only_stops s1 s3.
Proof.
  intros H1 H2 j. destruct (H1 j) as [E|[Ha Hs]], (H2 j) as [E'|[Ha' Hs']]; rewrite ?E in *; auto.
  - right. by rewrite E'.
Qed.

(** The dependencies of a list that exist are dereferenced. *)
Lemma dereference_each_ok v s l : inv t v s → (∀ i, voffset v i = 0) → vopen v = [] → (∀ e, e ∈ l → is_Some (edges (graph s) !! e)) →
  wp (known t) (each (daemon_dereference_dependency env) l) (λ _ s', inv t v s' ∧ kept s s' ∧ only_stops s s') s.
Proof.
  intros Hinv Hv Ho Hl. apply wp_each; [|split_and!; [done|done|by left]]. intros e s1 He (Hinv1 & K1 & S1).
  destruct (Hl e He) as [d Hd]. destruct (kept_edge _ _ K1 e d Hd) as (d1 & Hd1 & _).
  eapply wp_mono; [apply (dereference_dependency_ok v s1 e d1); [done|done|by rewrite Hv|left; rewrite Ho; apply not_elem_of_nil]|].
  intros _ s2 (Hinv2 & K2 & S2 & _). split_and!; [done|by etransitivity|by eapply only_stops_trans].
Qed.

(** ** Readiness *)

(** The arrays are those of the view. *)
Definition synced (v : view) (s : system) : Prop :=
  (∀ i, vdeps v i = items (dependencies (graph s) i)) ∧ (∀ i, vdependents v i = dependents (graph s) i).

Lemma synced_kept v s s' : synced v s → kept s s' → synced v s'.
Proof. intros [H1 H2] K. unfold synced. by rewrite (kept_dependencies _ _ K), (kept_dependents _ _ K). Qed.

Lemma dependent_edge v s i e : inv t v s → synced v s → e ∈ dependents (graph s) i →
  ∃ d, edges (graph s) !! e = Some d ∧ target d = i.
Proof. intros Hinv [_ Hs] He. rewrite <-Hs in He. by apply (go_dependent _ _ _ (inv_graph _ _ _ Hinv)). Qed.
Lemma dependency_edge v s i e : inv t v s → synced v s → e ∈ items (dependencies (graph s) i) →
  ∃ d, edges (graph s) !! e = Some d ∧ source d = i.
Proof. intros Hinv [Hs _] He. rewrite <-Hs in He. by apply (go_dep _ _ _ (inv_graph _ _ _ Hinv)). Qed.
Lemma edge_ends v s e d : inv t v s → edges (graph s) !! e = Some d → (source d < n_of s)%nat ∧ (target d < n_of s)%nat.
Proof. intros Hinv He. by destruct (go_edge _ _ _ (inv_graph _ _ _ Hinv) e d He) as (? & ? & _). Qed.

Definition only_satisfies (s s' : system) : Prop :=
  ∀ j, st_of s' j = st_of s j ∨ st_of s j = DAEMON_STATE_WAITING ∧ st_of s' j = DAEMON_STATE_SATISFIED.

Lemma only_satisfies_trans s1 s2 s3 : only_satisfies s1 s2 → only_satisfies s2 s3 → only_satisfies s1 s3.
Proof. intros H1 H2 j. destruct (H1 j) as [E|[E E']], (H2 j) as [F|[F F']]; rewrite ?E in *; auto; right; split; congruence. Qed.

(** What readiness changes: nothing but states of daemons that wait. *)
Definition readied (v : view) (s s' : system) : Prop :=
  inv t v s' ∧ kept s s' ∧ only_satisfies s s' ∧ reference_count (graph s') = reference_count (graph s).

Lemma readied_refl v s : inv t v s → readied v s s.
Proof. intros H. unfold readied. split_and!; [done|done|by left|done]. Qed.
Lemma readied_trans v s1 s2 s3 : readied v s1 s2 → readied v s2 s3 → readied v s1 s3.
Proof. intros (A1 & A2 & A3 & A4) (B1 & B2 & B3 & B4). split_and!; [done|by etransitivity|by eapply only_satisfies_trans|congruence]. Qed.

Lemma consider_satisfied_ok v s i : inv t (await i v) s → synced v s → (i < n_of s)%nat →
  wp (known t) (daemon_consider_satisfied i) (λ _ s', readied v s s') s.
Proof.
  intros Hinv Hsync Hi. unfold daemon_consider_satisfied. wp_steps.
  destruct (bool_decide_reflect (st_of s i = DAEMON_STATE_WAITING)) as [Est|Est]; cbn [andb].
  2:{ wp_steps. apply readied_refl, (inv_awaited t i); [done|]. by intros _ _ ?. }
  destruct (Z.eqb_spec (dependencies_ready (graph s) i) (Z.of_nat (length (items (dependencies (graph s) i))))) as [E|E].
  2:{ wp_steps. apply readied_refl, (inv_awaited t i); [done|]. intros _ _ _. unfold used.
      pose proof (go_ready _ _ _ (inv_graph _ _ _ Hinv) i) as Hr. cbn [vdeps await] in Hr. rewrite (proj1 Hsync) in Hr.
      pose proof (tally_bound (edges (graph s)) DEPENDENCY_STATUS_READY (items (dependencies (graph s) i))). lia. }
  apply (wp_move t (await i v)); [done|done| | |done|].
  - destruct (decide (i ∈ vopen v)); [by left|right]. intros Ht d Hd.
    pose proof (inv_sound _ _ _ Hinv i d Ht Hd ltac:(done)) as [H1 H2 H3 H4]. rewrite Est in *. by split.
  - intros Ht Hu H0 Hr. pose proof (inv_wanted _ _ _ Hinv i Ht Hi Hu H0 Hr) as Hw. by rewrite Est in Hw.
  - intros l' Hinv' Hst'. split_and!; [|apply kept_lists| |done].
    + apply (inv_awaited t i); [done|]. intros _ _. cbn. by rewrite Hst', update_eq.
    + intros j. cbn. rewrite Hst'. unfold update. case_decide as Ej; [right; by subst|by left].
Qed.

Lemma on_dependency_ready_ok v s e d : inv t v s → synced v s → edges (graph s) !! e = Some d →
  wp (known t) (daemon_on_dependency_ready e) (λ _ s', readied v s s') s.
Proof.
  intros Hinv Hsync He. destruct (edge_ends v s e d Hinv He) as [Hsrc _]. unfold daemon_on_dependency_ready. wp_steps.
  eapply wp_mono; [apply (set_bit_ok (await (source d) v) s e d); [by apply inv_await|done|constructor|left]|].
  intros _ s1 (Hinv1 & x & R1 & _). pose proof (rs_kept _ _ _ _ _ R1) as K1.
  eapply wp_mono; [apply (consider_satisfied_ok v s1 (source d)); [done|by eapply synced_kept|by rewrite (kept_length _ _ K1)]|].
  intros _ s2 (Hinv2 & K2 & S2 & R2). split_and!; [done|by etransitivity| |by rewrite R2, (rs_refs _ _ _ _ _ R1)].
  intros j. specialize (S2 j). by rewrite (rs_lists _ _ _ _ _ R1) in S2.
Qed.

Lemma mark_ready_ok v s i : inv t v s → synced v s → (i < n_of s)%nat → wp (known t) (daemon_mark_ready i) (λ _ s', readied v s s') s.
Proof.
  intros Hinv Hsync Hi. unfold daemon_mark_ready. wp_steps. apply (wp_minor v); [done|done|done|].
  intros d s1 Hd E1 Hinv1 K1. wp_steps.
  assert (R1 : readied v s s1) by (split_and!; [done|done|left; by rewrite E1|by rewrite E1]).
  apply wp_each; [|done]. intros e s2 He R2.
  pose proof R2 as (Hinv2 & K2 & _ & _). pose proof (synced_kept _ _ _ Hsync K1) as Hs1.
  destruct (dependent_edge v s1 i e Hinv1 Hs1 He) as (dep & Hdep & _).
  assert (K12 : dependents (graph s2) = dependents (graph s1)) by (by rewrite (kept_dependents _ _ K2), (kept_dependents _ _ K1)).
  rewrite <-K12 in He. destruct (dependent_edge v s2 i e Hinv2 (synced_kept _ _ _ Hsync K2) He) as (dep2 & Hdep2 & _). wp_steps.
  destruct (has _ _); [|by wp_steps]. eapply wp_mono; [apply (on_dependency_ready_ok v s2 e dep2); [done|exact (synced_kept _ _ _ Hsync K2)|done]|].
  intros [] s3 R3. by eapply readied_trans.
Qed.

Lemma on_ready_ok v s i : inv t (open i v) s → (i ∉ vopen v → exits_from (graph s) i) → synced v s → (i < n_of s)%nat →
  (t = true → ∀ d, daemons s !! i = Some d → sound DAEMON_STATE_RUNNING d) →
  (t = true → i ∉ vunref v → i ≠ 0%nat → reference_count (graph s) i ≠ 0) →
  wp (known t) (daemon_on_ready i) (λ _ s', inv t v s' ∧ kept s s' ∧ st_of s' i = DAEMON_STATE_RUNNING ∧
    reference_count (graph s') = reference_count (graph s)) s.
Proof.
  intros Hinv0 Hx Hsync Hi Hs Hw. unfold daemon_on_ready. wp_steps.
  apply (wp_move t (open i v)); [done|done|left; left|by intros ????%Hw|done|]. intros l1 Hinv1 Hst1.
  set (s1 := set_lists l1 s) in *. assert (K1 : kept s s1) by apply kept_lists.
  apply inv_close in Hinv1; [|done|intros Ht _ d Hd; unfold sound_in; cbn; rewrite Hst1, update_eq; by apply Hs].
  assert (Hmark : ∀ s2, inv t v s2 → kept s s2 → st_of s2 i = DAEMON_STATE_RUNNING → graph s2 = graph s →
    wp (known t) (daemon_mark_ready i) (λ _ s', inv t v s' ∧ kept s s' ∧ st_of s' i = DAEMON_STATE_RUNNING ∧
      reference_count (graph s') = reference_count (graph s)) s2).
  { intros s2 Hinv2 K2 S2 G2. eapply wp_mono; [apply (mark_ready_ok v s2 i); [done|exact (synced_kept _ _ _ Hsync K2)|by rewrite (kept_length _ _ K2)]|].
    intros _ s3 (Hinv3 & K3 & S3 & R3). split_and!; [done|by etransitivity| |by rewrite R3, G2].
    destruct (S3 i) as [E|[E _]]; congruence. }
  destruct (has_daemon s1 i Hi) as [d Hd]. wp_steps.
  assert (S1 : st_of s1 i = DAEMON_STATE_RUNNING) by (cbn; by rewrite Hst1, update_eq).
  destruct (want_reload d); wp_steps; [|by apply Hmark].
  eapply wp_mono; [by apply (reload_ok v s1 i)|]. intros _ s2 ((Hinv2 & K2 & G2 & _) & S2).
  apply Hmark; [done|by etransitivity|congruence|done].
Qed.

(** ** The end of daemons *)

Definition only_finishes (s s' : system) : Prop :=
  ∀ j, st_of s' j = st_of s j ∨ over (st_of s j) = false ∧ st_of s' j = DAEMON_STATE_FINISHING.

Definition finishes (v : view) (s s' : system) : Prop :=
  inv t v s' ∧ kept s s' ∧ only_finishes s s' ∧ reference_count (graph s') = reference_count (graph s).

Lemma finishes_refl v s : inv t v s → finishes v s s.
Proof. intros H. unfold finishes. split_and!; [done|done|by left|done]. Qed.
Lemma finishes_trans v s1 s2 s3 : finishes v s1 s2 → finishes v s2 s3 → finishes v s1 s3.
Proof.
  intros (A1 & A2 & A3 & A4) (B1 & B2 & B3 & B4). split_and!; [done|by etransitivity| |congruence].
  intros j. destruct (A3 j) as [E|[E E']], (B3 j) as [F|[F F']]; rewrite ?E in *; auto; right; (split; [|congruence]); congruence.
Qed.
Lemma finishes_restatus v s s' e d x : inv t v s' → restatus s s' e d x → finishes v s s'.
Proof. intros H R. split_and!; [done|apply R|left; by rewrite (rs_lists _ _ _ _ _ R)|by rewrite (rs_refs _ _ _ _ _ R)]. Qed.
Lemma finishes_minor v s i f d s' : inv t v s' → very_minor f → daemons s !! i = Some d → s' = set_daemons (<[i := f d]> (daemons s)) s → finishes v s s'.
Proof. intros H [Hf _] Hd ->. split_and!; [done|by apply minor_kept|by left|done]. Qed.

(** A daemon without a process finishes. *)
Lemma finish_now v s s1 i : finishes v s s1 → (i < n_of s1)%nat → over (st_of s1 i) = false →
  (t = true → i ∉ vopen v → ∀ d, daemons s1 !! i = Some d → ¬ 0 < pid d) →
  wp (known t) (daemon_on_finished i) (λ _ s', finishes v s s') s1.
Proof.
  intros F1 Hi Hst Hp. pose proof F1 as (Hinv & _). apply (on_finished_ok v); [done|done|done| |].
  { destruct (decide (i ∈ vopen v)); [by left|right]. intros Ht. by apply Hp. }
  intros l' Hinv' Hst'. eapply finishes_trans; [exact F1|]. split_and!; [done|apply kept_lists| |done].
  intros j. cbn. rewrite Hst'. unfold update. case_decide as E; [subst; by right|by left].
Qed.

Lemma on_dependency_finished_ok v s e d : inv t v s → edges (graph s) !! e = Some d →
  wp (known t) (daemon_on_dependency_finished e) (λ _ s', finishes v s s') s.
Proof.
  intros Hinv He. destruct (edge_ends v s e d Hinv He) as [Hsrc Htgt].
  destruct (has_daemon s _ Htgt) as [tg Htg]. unfold daemon_on_dependency_finished. wp_steps. cbn zeta. wp_steps.
  destruct (negb _); [wp_steps; by apply finishes_refl|]. wp_steps.
  eapply wp_mono; [by apply (set_bit_ok v s e d); [..|constructor|]|]. intros _ s1 (Hinv1 & x1 & R1 & _). wp_steps.
  set (failed := has (flags d) DEPENDENCY_FLAG_REQUIRE && daemon_is_failed tg).
  apply (wp_mono _ _ (λ _ s2, inv t v s2 ∧ ∃ x2, restatus s s2 e d x2)).
  { destruct failed; wp_steps; [|eauto].
    eapply wp_mono; [by apply (set_bit_ok v s1 e (set_status x1 d)); [done|eapply restatus_edge|constructor|]|].
    intros _ s2 (Hinv2 & x2 & R2 & _). split; [done|]. exists x2. by eapply restatus_trans. }
  intros _ s2 (Hinv2 & x2 & R2). pose proof (finishes_restatus v s s2 e d x2 Hinv2 R2) as F2.
  assert (Hi2 : (source d < n_of s2)%nat) by (by rewrite (rs_daemons _ _ _ _ _ R2)).
  destruct (has_daemon s2 _ Hi2) as [dd Hdd]. wp_steps. cbn zeta.
  replace (bool_decide (st_of s2 (source d) ∈ [_; _])) with (over (st_of s2 (source d))) by (by destruct (st_of s2 (source d))).
  destruct (over (st_of s2 (source d))) eqn:Eover; [by wp_steps|].
  replace (bool_decide (st_of s2 (source d) ∈ _)) with (has_process (st_of s2 (source d))) by (by destruct (st_of s2 (source d))).
  destruct (has_argv (argv dd) && has_process (st_of s2 (source d))) eqn:Eproc; [by wp_steps|].
  assert (Hpid : t = true → source d ∉ vopen v → ¬ 0 < pid dd).
  { intros Ht Ho Hp. destruct (inv_sound _ _ _ Hinv2 _ dd Ht Hdd Ho) as [H1 _ _ _]. destruct (H1 Hp) as [Ha Hb]. by rewrite Ha, Hb in Eproc. }
  assert (Hfin : ∀ s3, finishes v s s3 → lists s3 = lists s2 → kept s2 s3 →
    wp (known t) (daemon_on_finished (source d)) (λ _ s', finishes v s s') s3).
  { intros s3 F3 L3 K3. apply finish_now; [done|by rewrite (kept_length _ _ K3)|by rewrite L3|].
    intros Ht Ho d3 Hd3. destruct (kept_daemon _ _ K3 _ dd Hdd) as (d' & Hd' & _ & _ & _ & _ & Ep & _). rewrite Hd3 in Hd'.
    injection Hd' as <-. rewrite Ep. by apply Hpid. }
  assert (Hput : ∀ f (Q : () → system → Prop), very_minor f → (∀ s3, finishes v s s3 → lists s3 = lists s2 → kept s2 s3 → Q () s3) →
    wp (known t) (set_daemon (source d) f) Q s2).
  { intros f Q Hf HQ. apply (wp_minor v); [done|done|done|]. intros d3 s3 Hd3 E3 Hinv3 K3. apply HQ; [|by rewrite E3|done].
    eapply finishes_trans; [exact F2|]. by eapply (finishes_minor v s2 (source d) f d3). }
  destruct (_ && has (flags d) _); [wp_steps; by apply Hput|].
  apply wp_bind. apply (wp_mono _ _ (λ _ s3, finishes v s s3 ∧ lists s3 = lists s2 ∧ kept s2 s3)).
  { destruct failed; [by apply Hput|by wp_steps]. }
  intros _ s3 (F3 & L3 & K3). destruct (_ || _); [by apply Hfin|by wp_steps].
Qed.

(** What ending or resetting a daemon does to the others. *)
Definition resets (v : view) (i : nat) (new_state : daemon_state) (s s' : system) : Prop :=
  inv t v s' ∧ kept s s' ∧ st_of s' i = new_state ∧ reference_count (graph s') = reference_count (graph s) ∧
  (new_state = DAEMON_STATE_TERMINATED → ∀ j, j ≠ i → st_of s' j = st_of s j).

Lemma reset_ok v s i new_state : inv t v s → synced v s → (i < n_of s)%nat → idle new_state = true →
  (t = true → i ∉ vopen v → ∀ d, daemons s !! i = Some d → ¬ 0 < pid d) →
  wp (known t) (daemon_reset i new_state) (λ _ s', resets v i new_state s s') s.
Proof.
  intros Hinv Hsync Hi Hidle Hp. unfold daemon_reset. wp_steps.
  apply wp_assert; [by destruct new_state|intros _]. wp_steps.
  apply (wp_move t (open i v)); [by apply inv_open|done|left; left|by destruct new_state|by destruct new_state|].
  intros l1 Hinv1 Hst1. set (s1 := set_lists l1 s) in *. assert (K1 : kept s s1) by apply kept_lists. wp_steps.
  assert (S1 : st_of s1 i = new_state) by (cbn; by rewrite Hst1, update_eq).
  assert (S1' : ∀ j, j ≠ i → st_of s1 j = st_of s j) by (intros j Hj; cbn; by rewrite Hst1, update_ne).
  apply (wp_mono _ _ (λ _ s2, resets (open i v) i new_state s s2)).
  { apply wp_each; [|split_and!; done]. intros e s2 He (Hinv2 & K2 & S2 & R2 & O2).
    assert (He2 : e ∈ dependents (graph s2) i) by (by rewrite (kept_dependents _ _ K2)).
    destruct (dependent_edge (open i v) s2 i e Hinv2 (synced_kept (open i v) _ _ Hsync K2) He2) as (d & Hd & _).
    destruct new_state; try discriminate Hidle.
    - eapply wp_mono; [by apply (reset_dependency_ok (open i v) s2 e d)|]. intros [] s3 (Hinv3 & x & R3 & _).
      split_and!; [done|etransitivity; [done|apply R3]|by rewrite (rs_lists _ _ _ _ _ R3)|by rewrite (rs_refs _ _ _ _ _ R3)|].
      intros E j Hj. rewrite (rs_lists _ _ _ _ _ R3). by apply O2.
    - eapply wp_mono; [by apply (on_dependency_finished_ok (open i v) s2 e d)|]. intros [] s3 (Hinv3 & K3 & S3 & R3).
      split_and!; [done|by etransitivity| |congruence|done]. destruct (S3 i) as [E|[E _]]; [congruence|]. by rewrite S2 in E. }
  intros _ s2 (Hinv2 & K2 & S2 & R2 & O2).
  destruct (has_daemon s i Hi) as [d0 Hd0]. destruct (kept_daemon _ _ K2 i d0 Hd0) as (d2 & Hd2 & _ & _ & _ & _ & Ep & _).
  eapply (wp_put t (open i v)); [exact Hinv2|exact Hd2|done|by left|left; left|]. intros Hinv3.
  set (f := λ d, set_timeout_set false (set_was_terminated false (set_was_ready false d))) in *.
  assert (K3 : kept s2 (set_daemons (<[i := f d2]> (daemons s2)) s2)) by (by apply minor_kept).
  split_and!; [|by etransitivity|done|done|done].
  eapply closing; [exact Hinv|exact Hinv3|by etransitivity|done|]. intros Ht Ho x x' Hx Hx' _.
  cbn in Hx'. rewrite list_lookup_insert_eq in Hx' by (by eapply lookup_lt_Some). injection Hx' as <-.
  unfold sound_in. cbn. rewrite S2. assert (Hnp : ¬ 0 < pid d2) by (rewrite Ep; by apply (Hp Ht Ho)).
  split; cbn; try done; by destruct new_state.
Qed.

(** ** Restarting *)

(** Nothing changes that others than the daemon itself could see. *)
Definition restarts (v : view) (i : nat) (s s' : system) : Prop :=
  inv t v s' ∧ kept s s' ∧ reference_count (graph s') = reference_count (graph s) ∧ (∀ j, j ≠ i → st_of s' j = st_of s j).

Lemma restarts_refl v i s : inv t v s → restarts v i s s.
Proof. intros H. unfold restarts. by split_and!. Qed.
Lemma restarts_trans v i s1 s2 s3 : restarts v i s1 s2 → restarts v i s2 s3 → restarts v i s1 s3.
Proof.
  intros (A1 & A2 & A3 & A4) (B1 & B2 & B3 & B4). split_and!; [done|by etransitivity|congruence|]. intros j Hj. by rewrite B4, A4.
Qed.
Lemma restarts_minor v s i f (Q : () → system → Prop) : inv t v s → (i < n_of s)%nat → very_minor f →
  (∀ s', restarts v i s s' → graph s' = graph s → lists s' = lists s → Q () s') → wp (known t) (set_daemon i f) Q s.
Proof.
  intros Hinv Hi Hf HQ. apply (wp_minor v); [done|done|done|]. intros d s' Hd -> Hinv' K. apply HQ; [|done|done]. by split_and!.
Qed.

Lemma request_restart_ok v s i : inv t v s → synced v s → (i < n_of s)%nat →
  wp (known t) (daemon_request_restart env i) (λ _ s', restarts v i s s' ∧
    (stopping (st_of s i) = true → graph s' = graph s ∧ lists s' = lists s)) s.
Proof.
  intros Hinv Hsync Hi. destruct (has_daemon s i Hi) as [d Hd]. unfold daemon_request_restart. wp_steps. cbn zeta.
  destruct (Z.eqb_spec (reference_count (graph s) i) 0) as [Er|Er]; [wp_steps; by split; [apply restarts_refl|]|].
  destruct (bool_decide (st_of s i ∈ [DAEMON_STATE_SCHEDULED; _; _])); [wp_steps; by split; [apply restarts_refl|]|].
  wp_steps.
  apply (wp_mono _ _ (λ _ s1, restarts v i s s1 ∧ (stopping (st_of s i) = true → graph s1 = graph s ∧ lists s1 = lists s))).
  { destruct (negb (want_restart d)); wp_steps; [|by split; [apply restarts_refl|]].
    apply (wp_mono _ _ (λ _ s1, restarts v i s s1 ∧ (stopping (st_of s i) = true → graph s1 = graph s ∧ lists s1 = lists s))).
    - destruct (bool_decide (st_of s i ∈ _)) eqn:Erun; wp_steps; [|by split; [apply restarts_refl|]].
      eapply wp_mono; [by apply (terminate_ok v s i)|]. intros _ s1 ((Hinv1 & K1 & G1 & S1) & _). split; [by split_and!; [..|rewrite G1|]|].
      intros Hst. by destruct (st_of s i).
    - intros _ s1 [R1 E1]. pose proof R1 as (Hinv1 & K1 & _). apply (restarts_minor v); [done|by rewrite (kept_length _ _ K1)|done|].
      intros s2 R2 G2 L2. split; [by eapply restarts_trans|]. intros Hst. destruct (E1 Hst). split; congruence. }
  intros _ s1 [R1 E1]. pose proof R1 as (Hinv1 & K1 & Ref1 & _). assert (Hi1 : (i < n_of s1)%nat) by (by rewrite (kept_length _ _ K1)).
  wp_steps. replace (bool_decide (st_of s1 i ∈ _)) with (idle (st_of s1 i)) by (by destruct (st_of s1 i)).
  apply (wp_mono _ _ (λ _ s2, restarts v i s s2 ∧ (stopping (st_of s i) = true → graph s2 = graph s ∧ lists s2 = lists s))).
  { destruct (idle (st_of s1 i)) eqn:Eidle; wp_steps; [|done].
    eapply wp_mono; [apply (reset_ok v s1 i); [done|exact (synced_kept _ _ _ Hsync K1)|done|done|]|].
    { intros Ht Ho x Hx Hp. destruct (inv_sound _ _ _ Hinv1 i x Ht Hx Ho) as [H1 _ _ _]. destruct (H1 Hp) as [H _]. by destruct (st_of s1 i). }
    intros _ s2 (Hinv2 & K2 & S2 & Ref2 & O2). apply (restarts_minor v); [done|by rewrite (kept_length _ _ K2)|done|].
    intros s3 R3 G3 L3. split.
    - eapply restarts_trans; [exact R1|]. eapply restarts_trans; [|exact R3]. split_and!; [done|done|done|by apply O2].
    - intros Hst. destruct (E1 Hst) as [_ EL]. rewrite EL in Eidle. by destruct (st_of s i). }
  intros _ s2 [R2 E2]. pose proof R2 as (Hinv2 & K2 & Ref2 & _). wp_steps.
  destruct (bool_decide_reflect (st_of s2 i = DAEMON_STATE_TERMINATED)) as [Est|Est]; [|by wp_steps].
  apply (schedule_ok v); [done|by rewrite (kept_length _ _ K2)|done|by rewrite Ref2|]. intros l' Hinv3 Hst3. split.
  - eapply restarts_trans; [exact R2|]. split_and!; [done|apply kept_lists|done|]. intros j Hj. cbn. by rewrite Hst3, update_ne.
  - intros Hst. destruct (E2 Hst) as [_ EL]. rewrite EL in Est. by rewrite Est in Hst.
Qed.

Lemma on_startup_error_ok v s i : inv t v s → synced v s → (i < n_of s)%nat →
  (t = true → i ∉ vopen v → ∀ d, daemons s !! i = Some d → ¬ 0 < pid d) →
  wp (known t) (daemon_on_startup_error env i) (λ _ s', restarts v i s s') s.
Proof.
  intros Hinv Hsync Hi Hp. unfold daemon_on_startup_error. wp_steps.
  do 2 (apply wp_assert; [intros _; left; right; left|intros _]; wp_steps).
  apply (wp_move t v); [done|done| |done|done|].
  { destruct (decide (i ∈ vopen v)); [by left|right]. intros Ht d Hd. apply sound_over; [done|by apply (Hp Ht)|done]. }
  intros l1 Hinv1 Hst1. assert (R1 : restarts v i s (set_lists l1 s)).
  { split_and!; [done|apply kept_lists|done|]. intros j Hj. cbn. by rewrite Hst1, update_ne. }
  set (s1 := set_lists l1 s) in *. destruct (has_daemon s1 i Hi) as [d Hd]. wp_steps.
  destruct (want_restart d); [|by wp_steps].
  eapply wp_mono; [by apply (request_restart_ok v s1 i)|]. intros _ s2 [R2 _]. by eapply restarts_trans.
Qed.

(** ** References *)

Lemma on_referenced_ok v s i : inv t v s → synced v s → (i < n_of s)%nat → reference_count (graph s) i ≠ 0 →
  wp (known t) (daemon_on_referenced env i) (λ _ s', inv t v s' ∧ kept s s' ∧ graph s' = graph s) s.
Proof.
  intros Hinv Hsync Hi Hr. destruct (has_daemon s i Hi) as [d Hd]. unfold daemon_on_referenced. wp_steps.
  destruct (st_of s i) eqn:Est; wp_steps; try done.
  - apply (schedule_ok v); [done..|]. intros l' Hinv' _. by split_and!; [|apply kept_lists|].
  - destruct (bool_decide _); [|by wp_steps]. eapply wp_mono; [by apply (request_restart_ok v s i)|].
    intros _ s' [(Hinv' & K & _) E]. rewrite Est in E. destruct (E eq_refl). by split_and!.
  - destruct (bool_decide _); [|by wp_steps]. eapply wp_mono; [by apply (request_restart_ok v s i)|].
    intros _ s' [(Hinv' & K & _) E]. rewrite Est in E. destruct (E eq_refl). by split_and!.
Qed.

Lemma reference_ok v s i : inv t v s → synced v s → (i < n_of s)%nat → 0 <= voffset v i →
  wp (known t) (daemon_reference env i) (λ _ s', inv t (offset i 1 v) s' ∧ kept s s' ∧ edges (graph s') = edges (graph s)) s.
Proof.
  intros Hinv Hsync Hi Hv. pose proof (inv_graph _ _ _ Hinv) as Hg.
  assert (Hpos : 0 <= reference_count (graph s) i).
  { rewrite (go_reference _ _ _ Hg). pose proof (tally_bound (edges (graph s)) DEPENDENCY_STATUS_REFERENCED (vdependents v i)). lia. }
  unfold daemon_reference, bump, modify_graph. wp_steps. apply wp_modify. cbn zeta. set (s1 := set_graph _ s).
  assert (Hinv1 : inv t (offset i 1 v) s1).
  { apply (inv_graph_step t v); try done; [by apply graph_bump|eauto|]. intros j Hj. cbn. unfold update. case_decide; subst; lia. }
  assert (K1 : kept s s1) by (apply kept_graph; eauto).
  destruct (_ =? 1); [|by wp_steps]. eapply wp_mono; [apply (on_referenced_ok (offset i 1 v) s1 i); [done|exact Hsync|done|]|].
  - cbn. rewrite update_eq. lia.
  - intros _ s2 (Hinv2 & K2 & G2). split_and!; [done|by etransitivity|by rewrite G2].
Qed.

Lemma reference_dependency_ok v s e d : inv t v s → synced v s → edges (graph s) !! e = Some d → 0 <= voffset v (target d) →
  wp (known t) (daemon_reference_dependency env e) (λ _ s', inv t v s' ∧ kept s s') s.
Proof.
  intros Hinv Hsync He Hv. destruct (edge_ends v s e d Hinv He) as [_ Htgt]. pose proof (status_range v s e d Hinv He) as Hr.
  unfold daemon_reference_dependency. wp_steps. destruct (has (status d) DEPENDENCY_STATUS_REFERENCED) eqn:Eb; cbn [negb]; [by wp_steps|].
  wp_steps. apply wp_assert; [intros _; left; left|intros E%Z.eqb_eq]. wp_steps.
  eapply wp_mono; [by apply (reference_ok v s (target d))|]. intros _ s1 (Hinv1 & K1 & E1).
  assert (He1 : edges (graph s1) !! e = Some d) by (by rewrite E1).
  destruct (bits_spec (status d) DEPENDENCY_STATUS_REFERENCED DEPENDENCY_STATUS_REFERENCED Hr) as (B & _ & R & _); [left|left|].
  rewrite Z.eqb_refl, orb_true_r in B.
  eapply wp_mono; [apply (store_reference_ok v s1 e d 1 (λ x, Z.lor x DEPENDENCY_STATUS_REFERENCED)); [done|done|done|by rewrite B, Eb|]|].
  - intros b Hb Hne. destruct (bits_spec (status d) DEPENDENCY_STATUS_REFERENCED b Hr) as (-> & _); [left|done|].
    rewrite (proj2 (Z.eqb_neq _ b)) by done. apply orb_false_r.
  - intros _ s2 (Hinv2 & R2 & _). split; [done|]. etransitivity; [exact K1|apply R2].
Qed.

(** ** Waiting *)

Lemma wait_dependency_ok v s e d : inv t v s → synced v s → edges (graph s) !! e = Some d → 0 <= voffset v (target d) →
  wp (known t) (daemon_wait_dependency env e) (λ _ s', inv t v s' ∧ kept s s') s.
Proof.
  intros Hinv Hsync He Hv. unfold daemon_wait_dependency. wp_steps.
  eapply wp_mono; [by apply (reference_dependency_ok v s e d)|]. intros _ s1 [Hinv1 K1].
  destruct (kept_edge _ _ K1 e d He) as (d1 & He1 & _ & _ & _). destruct (edge_ends v s1 e d1 Hinv1 He1) as [_ Htgt].
  destruct (has_daemon s1 _ Htgt) as [tg Htg]. pose proof (synced_kept _ _ _ Hsync K1) as Hsync1. wp_steps.
  assert (Hready : wp (known t) (daemon_on_dependency_ready e) (λ _ s', inv t v s' ∧ kept s s') s1).
  { eapply wp_mono; [by apply (on_dependency_ready_ok v s1 e d1)|]. intros _ s2 (Hinv2 & K2 & _). split; [done|by etransitivity]. }
  destruct (st_of s1 (target d1)); try done; repeat case_match; try done; try by wp_steps.
  wp_steps. eapply wp_mono; [exact Hready|]. intros _ s2 [Hinv2 K2]. destruct (kept_edge _ _ K2 e d He) as (d2 & He2 & _).
  eapply wp_mono; [by apply (on_dependency_finished_ok v s2 e d2)|]. intros _ s3 (Hinv3 & K3 & _). split; [done|by etransitivity].
Qed.

Lemma wait_each_ok v s i l : inv t v s → synced v s → (∀ j, voffset v j = 0) →
  (∀ e, e ∈ l → ∃ d, edges (graph s) !! e = Some d ∧ source d = i) →
  wp (known t) (wait_each env i l) (λ _ s', inv t v s' ∧ kept s s') s.
Proof.
  revert s. induction l as [|e l IH]; intros s Hinv Hsync Hv Hl; cbn [wait_each]; [by wp_steps|].
  destruct (Hl e ltac:(left)) as (d & He & Hsrc). wp_steps. rewrite Hsrc, Nat.eqb_refl. apply wp_assert; [done|intros _]. wp_steps.
  eapply wp_mono; [by apply (wait_dependency_ok v s e d); [..|rewrite Hv]|]. intros _ s1 [Hinv1 K1]. wp_steps.
  destruct (negb _); [by wp_steps|]. eapply wp_mono.
  - apply IH; [done|exact (synced_kept _ _ _ Hsync K1)|done|]. intros e' He'. destruct (Hl e' ltac:(by right)) as (d' & Hd' & Es).
    destruct (kept_edge _ _ K1 e' d' Hd') as (d'' & Hd'' & E & _). exists d''. split; congruence.
  - intros _ s2 [Hinv2 K2]. split; [done|by etransitivity].
Qed.
End Ops.
End DaemonOps.
