(* ===== verification/DaemonConf.v ===== *)
(** * Configuring daemons keeps the invariant

    Creating daemons, adding and removing dependencies, and loading
    configurations: the operations of [Daemon] that change the arrays. *)

From S2P Require Import Prelude Timespec Daemon DaemonLists DaemonInv DaemonOps.
From stdpp Require Import base decidable list numbers gmap strings.
From Stdlib Require Import ZArith Lia.

#[local] Open Scope c_scope.
#[local] Open Scope Z_scope.

Module DaemonConf.
Import Daemon DaemonLists DaemonInv DaemonOps.

Abbreviation n_of s := (length (daemons s)).
Abbreviation st_of s i := (state (lists s) i).

(** The arrays as they are, with daemons that are being configured. *)
Definition arrays (conf : list nat) (s : system) : view :=
  View (λ i, items (dependencies (graph s) i)) (dependents (graph s)) (λ _, 0) [] [] [] conf.

Lemma arrays_kept X s s' : kept s s' → arrays X s' = arrays X s.
Proof. intros H. unfold arrays. by rewrite (kept_dependencies _ _ H), (kept_dependents _ _ H). Qed.
Lemma arrays_synced X s : synced (arrays X s) s.
Proof. done. Qed.

(** What creating and configuring daemons leaves alone. *)
Record grown (s s' : system) : Prop := {
  grown_length : (n_of s <= n_of s')%nat;
  grown_daemon i d : daemons s !! i = Some d → ∃ d', daemons s' !! i = Some d' ∧ name d' = name d ∧ pid d' = pid d ∧
    was_terminated d' = was_terminated d ∧ (configured d = true → configured d' = true);
  grown_state i : (i < n_of s)%nat → st_of s' i = st_of s i;
  grown_refs i : (i < n_of s)%nat → reference_count (graph s') i = reference_count (graph s) i;
}.

#[global] Instance grown_preorder : PreOrder grown.
Proof.
  split; [by intros s; split; eauto 10|]. intros s1 s2 s3 [A1 A2 A3 A4] [B1 B2 B3 B4]. split.
  - lia.
  - intros i d (d2 & Hd2 & ? & ? & ? & ?)%A2. destruct (B2 i d2 Hd2) as (d3 & Hd3 & ? & ? & ? & ?). exists d3. split_and!; [done|congruence..|tauto].
  - intros i Hi. rewrite B3, A3; [done|done|lia].
  - intros i Hi. rewrite B4, A4; [done|done|lia].
Qed.

Section Conf.
Context (t : bool).

(** ** Creating daemons *)

Lemma add_represents l n o k : represents l (λ i, (i < n)%nat) o → k = n →
  represents (StateLists (update (state l) k DAEMON_STATE_TERMINATED) (update (next_by_state l) k None) (update (prev_by_state l) k None)
    (first_daemon_by_state l) (last_daemon_by_state l) (count_daemon_by_state l)) (λ i, (i < n)%nat) o.
Proof.
  intros Hr ->. destruct (represents_state l o (λ i, (i < n)%nat) n DAEMON_STATE_TERMINATED Hr) as [Hl Hon]; [lia|]. split; [|exact Hon].
  intros st. destruct (Hl st) as [A B C D E F]. split; try done. apply (links_ext _ _ _ _ _ E). intros i Hi. cbn.
  assert (i ≠ n). { intros ->. destruct (on_list l o _ n st Hr Hi). lia. } by rewrite !update_ne.
Qed.

Lemma graph_add n g v v' : graph_ok n g v → (∀ i, vdeps v' i = update (vdeps v) n [] i) →
  (∀ i, vdependents v' i = update (vdependents v) n [] i) → (∀ i, voffset v' i = update (voffset v) n 0 i) →
  graph_ok (S n) (DependencyGraph (update (dependencies g) n (Array [] 0 0)) (update (dependents g) n []) (update (dependencies_ready g) n 0)
    (update (dependencies_finished g) n 0) (update (dependencies_failed g) n 0) (update (reference_count g) n 0)
    (update (exit_code_from g) n None) (edges g) (next_edge g)) v'.
Proof.
  intros [H1 H2 H3 H4 H5 H6 H7 H8] E1 E2 E3.
  split; cbn.
  - intros e d (A & B & C & D & E & F)%H1. rewrite E1, E2, !update_ne by lia. split_and!; done || lia.
  - intros i e. rewrite E1. unfold update. case_decide; [by intros ?%not_elem_of_nil|apply H2].
  - intros i e. rewrite E2. unfold update. case_decide; [by intros ?%not_elem_of_nil|apply H3].
  - intros i. rewrite E1, E2. unfold update. case_decide; [split; apply NoDup_nil_2|apply H4].
  - intros i. rewrite E1. unfold update. by case_decide.
  - intros i. rewrite E1. unfold update. by case_decide.
  - intros i. rewrite E1. unfold update. by case_decide.
  - intros i. rewrite E2, E3. unfold update. by case_decide.
Qed.

Lemma create_unconfigured_ok X s nm : inv t (arrays X s) s →
  wp (known t) (daemon_create_unconfigured nm) (λ i s', i = n_of s ∧ n_of s' = S (n_of s) ∧ inv t (arrays X s') s' ∧ grown s s' ∧
    ∃ d, daemons s' !! i = Some d ∧ name d = nm) s.
Proof.
  intros Hinv. pose proof Hinv as [[o Ho] HG HC HS HW HT HX HD]. unfold daemon_create_unconfigured, add_daemon. wp_steps. cbn zeta. wp_steps.
  apply wp_modify. wp_steps.
  match goal with |- wp _ _ _ ?x => set (s1 := x) end.
  pose proof (add_represents _ _ _ _ Ho eq_refl) as H1.
  destruct (insert_represents s1 o (n_of s) (λ i, (i < n_of s)%nat) H1) as (l2 & E2 & H2 & Hst2); [lia|by cbn; rewrite update_eq..|].
  eapply wp_run; [exact E2|]. wp_steps.
  assert (Hn : n_of s1 = S (n_of s)) by (unfold s1; cbn; rewrite length_app; cbn; lia).
  assert (S2 : ∀ k, state l2 k = update (state (lists s)) (n_of s) DAEMON_STATE_TERMINATED k) by (intros k; by rewrite Hst2).
  split; [done|]. split; [done|]. split; [|split].
  - split; cbn [daemons lists graph set_lists].
    + rewrite Hn. eexists. destruct H2 as [Hl Hon]. split; [exact Hl|]. intros k. rewrite <-Hon. lia.
    + rewrite Hn. apply (graph_add _ _ (arrays X s)); [done|..]; intros k; cbn; unfold update; by case_decide.
    + intros k d Hd Hk Hc. cbn. unfold update. case_decide as E; [done|]. apply (HC k d); [|done|done].
      unfold s1 in Hd. cbn in Hd. apply lookup_app_Some in Hd as [?|[? Hd]]; [done|].
      destruct (k - n_of s)%nat eqn:Ek; [lia|done].
    + intros k d Ht Hd Hk. unfold sound_in. cbn. rewrite S2. unfold s1 in Hd. cbn in Hd.
      apply lookup_app_Some in Hd as [Hd|[Hlen Hd]].
      * rewrite update_ne by (apply lookup_lt_Some in Hd; lia). by apply HS.
      * apply list_lookup_singleton_Some in Hd as [Ek <-]. assert (k = n_of s) as -> by lia. rewrite update_eq. split; done.
    + intros k Ht Hk Hu H0 Hr. cbn in Hr. rewrite S2. unfold update in *. case_decide; [done|]. apply HW; try done. lia.
    + intros k Ht Hk. rewrite S2. unfold used. cbn. unfold update. case_decide; [done|]. by apply HT.
    + intros k Hk e. cbn. unfold update. case_decide; [done|]. by apply HX.
    + destruct HD as (d0 & Hd0 & Hn0). exists d0. split; [|done]. unfold s1. cbn. by rewrite lookup_app_l by (by eapply lookup_lt_Some).
  - split; cbn.
    + rewrite length_app. lia.
    + intros k d Hd. exists d. rewrite lookup_app_l by (by eapply lookup_lt_Some). by split_and!.
    + intros k Hk. rewrite S2, update_ne by lia. done.
    + intros k Hk. by rewrite update_ne by lia.
  - exists (zero_daemon nm). split; [|done]. unfold s1. cbn. by rewrite lookup_app_r, Nat.sub_diag by done.
Qed.


(** ** Adding dependencies *)

Lemma array_add_items a x a' : array_add a x = Some a' → items a' = items a ++ [x].
Proof. unfold array_add. repeat case_match; intros [= <-]; done. Qed.

Lemma fresh_edge n g v e d : graph_ok n g v → (next_edge g <= e)%nat → edges g !! e = Some d → False.
Proof. intros [H1 _ _ _ _ _ _ _] He Hd. destruct (H1 e d Hd) as (_ & _ & ? & _). lia. Qed.

Lemma graph_connect n g g' v v' i j fl : graph_ok n g v → (i < n)%nat → (j < n)%nat → let e := next_edge g in
  edges g' = <[e := Dependency i j fl 0]> (edges g) → next_edge g' = S e →
  dependencies_ready g' = dependencies_ready g → dependencies_finished g' = dependencies_finished g →
  dependencies_failed g' = dependencies_failed g → reference_count g' = reference_count g →
  (∀ k, vdeps v' k = if decide (k = i) then vdeps v i ++ [e] else vdeps v k) →
  (∀ k, vdependents v' k = if decide (k = j) then vdependents v j ++ [e] else vdependents v k) →
  (∀ k, voffset v' k = voffset v k) → graph_ok n g' v'.
Proof.
  intros Hg Hi Hj e Ee En Er Ef Ea Ec V1 V2 V3. pose proof Hg as [H1 H2 H3 H4 H5 H6 H7 H8].
  assert (Hnew : ∀ d, edges g !! e ≠ Some d) by (intros d Hd; by eapply fresh_edge).
  assert (Hd1 : ∀ k, e ∉ vdeps v k) by (intros k (d & Hd & _)%H2; by apply (Hnew d)).
  assert (Hd2 : ∀ k, e ∉ vdependents v k) by (intros k (d & Hd & _)%H3; by apply (Hnew d)).
  assert (Hold : ∀ e' d, edges g !! e' = Some d → edges g' !! e' = Some d).
  { intros e' d Hd. rewrite Ee, lookup_insert_ne; [done|]. intros <-. by apply (Hnew d). }
  assert (Hin : ∀ k l, (∀ x, x ∈ l → x ≠ e) → tally (edges g') k l = tally (edges g) k l).
  { intros k l Hl. apply tally_ext. intros x Hx. rewrite Ee, lookup_insert_ne; [done|]. intros <-. by apply (Hl e). }
  assert (Hone : ∀ k, tally (edges g') k [e] = 0).
  { intros k. apply tally_all. intros x ->%list_elem_of_singleton. unfold marked. rewrite Ee, lookup_insert_eq. cbn. apply zero_bits. }
  assert (T1 : ∀ b k, tally (edges g') b (vdeps v' k) = tally (edges g) b (vdeps v k)).
  { intros b k. rewrite V1. case_decide as E; [rewrite E, tally_app, Hone, Z.add_0_r|]; apply Hin; intros x Hx ->; by apply (Hd1 _ Hx). }
  assert (T2 : ∀ b k, tally (edges g') b (vdependents v' k) = tally (edges g) b (vdependents v k)).
  { intros b k. rewrite V2. case_decide as E; [rewrite E, tally_app, Hone, Z.add_0_r|]; apply Hin; intros x Hx ->; by apply (Hd2 _ Hx). }
  split.
  - intros e' d Hd. rewrite Ee in Hd. apply lookup_insert_Some in Hd as [[<- <-]|[Hne Hd]]; cbn.
    + rewrite V1, V2, !decide_True by done. rewrite En. split_and!; try done; try lia; apply elem_of_app; right; left.
    + destruct (H1 e' d Hd) as (? & ? & ? & A & B & C). rewrite V1, V2, En. split_and!; try done; try lia.
      * case_decide as E; [rewrite E in A; apply elem_of_app; by left|done].
      * case_decide as E; [rewrite E in B; apply elem_of_app; by left|done].
  - intros k e'. rewrite V1. case_decide as E; [rewrite elem_of_app; intros [H|H%list_elem_of_singleton]|intros H].
    + apply H2 in H as (d & Hd & <-). exists d. split; [by apply Hold|done].
    + rewrite H. eexists. rewrite Ee, lookup_insert_eq. by split.
    + apply H2 in H as (d & Hd & <-). exists d. split; [by apply Hold|done].
  - intros k e'. rewrite V2. case_decide as E; [rewrite elem_of_app; intros [H|H%list_elem_of_singleton]|intros H].
    + apply H3 in H as (d & Hd & <-). exists d. split; [by apply Hold|done].
    + rewrite H. eexists. rewrite Ee, lookup_insert_eq. by split.
    + apply H3 in H as (d & Hd & <-). exists d. split; [by apply Hold|done].
  - intros k. rewrite V1, V2. destruct (H4 i), (H4 j), (H4 k).
    split; case_decide; try done; apply NoDup_app; (split_and!; [done| |apply NoDup_singleton]); intros x Hx ->%list_elem_of_singleton.
    + by apply (Hd1 i).
    + by apply (Hd2 j).
  - intros k. by rewrite Er, T1.
  - intros k. by rewrite Ef, T1.
  - intros k. by rewrite Ea, T1.
  - intros k. by rewrite Ec, T2, V3.
Qed.

Lemma add_dependency_ok X s i j fl : inv t (arrays X s) s → (i < n_of s)%nat → (j < n_of s)%nat →
  (i ∈ X ∨ ∃ d, daemons s !! i = Some d ∧ configured d = true) →
  wp (known t) (daemon_add_dependency i j fl) (λ e s', inv t (arrays X s') s' ∧ daemons s' = daemons s ∧ lists s' = lists s ∧
    reference_count (graph s') = reference_count (graph s) ∧ ∃ d, edges (graph s') !! e = Some d ∧ source d = i) s.
Proof.
  intros Hinv Hi Hj Hc. pose proof Hinv as [HL HG HC HS HW HT HX HD]. unfold daemon_add_dependency. wp_steps. cbn zeta.
  destruct (array_add _ _) as [a|] eqn:Ea; [|left; do 3 right; left]. apply array_add_items in Ea.
  unfold modify_graph. wp_steps. apply wp_modify. wp_steps.
  match goal with |- inv _ _ ?x ∧ _ => set (s' := x) end. split; [|split_and!; try done].
  2:{ eexists. cbn. rewrite lookup_insert_eq. by split. }
  assert (Hnew : ∀ d, edges (graph s) !! next_edge (graph s) ≠ Some d) by (intros d Hd; by eapply fresh_edge).
  split; try done.
  - apply (graph_connect _ (graph s) _ (arrays X s) _ i j fl); try done; intros k; cbn; unfold update; case_decide; by subst.
  - intros k d Hd Hk Hcd. cbn. unfold update. case_decide as E; [|by apply (HC k d)]. subst k. destruct Hc as [?|(d' & Hd' & Hc)]; [done|].
    cbn in Hd. rewrite Hd in Hd'. injection Hd' as <-. congruence.
  - intros k Ht Hk Hst. specialize (HT k Ht Hk Hst). unfold used in *. cbn. unfold update. case_decide as E; [|done]. subst k.
    rewrite Ea, length_app. cbn [length]. lia.
  - intros k Hk e He. cbn in He |- *.
    assert (exit_code_from (graph s) k = Some e ∨ (k = i ∧ e = next_edge (graph s) ∧ has fl DEPENDENCY_FLAG_EXIT_CODE = true)) as [H|(-> & -> & Hf)].
    { destruct (has fl _); [|by left]. unfold update in He. case_decide; [injection He as <-; by right|by left]. }
    + destruct (HX k Hk e H) as (d & Hd & ? & ?). exists d. rewrite lookup_insert_ne; [done|]. intros <-. by apply (Hnew d).
    + eexists. rewrite lookup_insert_eq. by split_and!.
Qed.

Lemma grown_same s s' : daemons s' = daemons s → lists s' = lists s → reference_count (graph s') = reference_count (graph s) → grown s s'.
Proof. intros E1 E2 E3. split; rewrite ?E1, ?E2, ?E3; eauto 10. Qed.

(** ** Removing dependencies *)

Lemma find_index_found {A} (f : A → bool) l n : find_index f l = Some n → ∃ x, l !! n = Some x ∧ f x = true.
Proof.
  revert n. induction l as [|x l IH]; intros n; cbn; [done|]. destruct (f x) eqn:E; [intros [= <-]; eauto|].
  destruct (find_index f l) as [m|]; [|done]. intros [= <-]. by apply IH.
Qed.
Lemma find_index_missing {A} (f : A → bool) l x : find_index f l = None → x ∈ l → f x = false.
Proof.
  induction l as [|y l IH]; cbn; intros H Hx; [by apply not_elem_of_nil in Hx|]. destruct (f y) eqn:E; [done|].
  destruct (find_index f l) eqn:E'; [done|]. apply elem_of_cons in Hx as [->|Hx]; auto.
Qed.

Lemma swap_remove_perm e l : e ∈ l → l ≡ₚ e :: swap_remove e l.
Proof.
  intros He. unfold swap_remove. destruct (find_index (Nat.eqb e) l) as [n|] eqn:E.
  2:{ apply (find_index_missing _ _ e) in E; [|done]. by rewrite Nat.eqb_refl in E. }
  apply find_index_found in E as (x & Hn & Ex). apply Nat.eqb_eq in Ex as <-. clear He.
  induction l as [|x l0 _] using rev_ind; [done|]. rewrite length_app. cbn [length]. rewrite Nat.add_sub.
  destruct (n =? length l0)%nat eqn:En; rewrite ?take_app_length.
  - apply Nat.eqb_eq in En as ->. rewrite lookup_app_r, Nat.sub_diag in Hn by done. injection Hn as ->. by rewrite Permutation_app_comm.
  - apply Nat.eqb_neq in En. pose proof (lookup_lt_Some _ _ _ Hn) as Hlt. rewrite length_app in Hlt. cbn in Hlt.
    rewrite lookup_app_l in Hn by lia. rewrite (nth_lookup_Some _ _ _ x) by (by rewrite lookup_app_r, Nat.sub_diag by done).
    rewrite insert_app_l by lia. rewrite <-(length_insert l0 n x). rewrite take_app_length, insert_take_drop by lia.
    rewrite <-(take_drop_middle l0 n e Hn) at 1. solve_Permutation.
Qed.

(** A dependency without a status is taken out of the graph. *)
Lemma graph_disconnect n g g' v v' e d : graph_ok n g v → edges g !! e = Some d → status d = 0 →
  edges g' = delete e (edges g) → next_edge g' = next_edge g →
  (∀ k, dependencies_ready g' k = dependencies_ready g k) → (∀ k, dependencies_finished g' k = dependencies_finished g k) →
  (∀ k, dependencies_failed g' k = dependencies_failed g k) → (∀ k, reference_count g' k = reference_count g k) →
  (∀ k, vdeps v k ≡ₚ (if decide (k = source d) then [e] else []) ++ vdeps v' k) →
  (∀ k, vdependents v k ≡ₚ (if decide (k = target d) then [e] else []) ++ vdependents v' k) →
  (∀ k, voffset v' k = voffset v k) → graph_ok n g' v'.
Proof.
  intros [H1 H2 H3 H4 H5 H6 H7 H8] He Hst Ee En Er Ef Ea Ec V1 V2 V3.
  assert (N1 : ∀ k, NoDup (vdeps v' k) ∧ e ∉ vdeps v' k).
  { intros k. pose proof (proj1 (H4 k)) as Hk. rewrite V1 in Hk. apply NoDup_app in Hk as (_ & Hx & Hk). split; [done|].
    case_decide; [apply Hx; left|]. intros Hin. destruct (H2 k e) as (d' & Hd' & Hs); [rewrite V1; by apply elem_of_app; right|]. congruence. }
  assert (N2 : ∀ k, NoDup (vdependents v' k) ∧ e ∉ vdependents v' k).
  { intros k. pose proof (proj2 (H4 k)) as Hk. rewrite V2 in Hk. apply NoDup_app in Hk as (_ & Hx & Hk). split; [done|].
    case_decide; [apply Hx; left|]. intros Hin. destruct (H3 k e) as (d' & Hd' & Hs); [rewrite V2; by apply elem_of_app; right|]. congruence. }
  assert (Z0 : ∀ b (P : Prop) `{Decision P}, tally (edges g) b (if decide P then [e] else []) = 0).
  { intros b P HP. case_decide; [|done]. apply tally_all. intros x ->%list_elem_of_singleton. unfold marked. rewrite He, Hst. apply zero_bits. }
  assert (T : ∀ b l, e ∉ l → tally (edges g') b l = tally (edges g) b l).
  { intros b l Hl. apply tally_ext. intros x Hx. rewrite Ee, lookup_delete_ne; [done|]. by intros ->. }
  assert (T1 : ∀ b k, tally (edges g) b (vdeps v k) = tally (edges g') b (vdeps v' k)).
  { intros b k. rewrite (tally_perm _ _ _ _ (V1 k)), tally_app, Z0, T by apply N1. lia. }
  assert (T2 : ∀ b k, tally (edges g) b (vdependents v k) = tally (edges g') b (vdependents v' k)).
  { intros b k. rewrite (tally_perm _ _ _ _ (V2 k)), tally_app, Z0, T by apply N2. lia. }
  assert (Hin : ∀ e' (P : Prop) `{Decision P} l, e' ≠ e → e' ∈ (if decide P then [e] else []) ++ l → e' ∈ l).
  { intros e' P HP l Hne. rewrite elem_of_app. intros [Hx|?]; [|done]. case_decide; [by apply list_elem_of_singleton in Hx|by apply not_elem_of_nil in Hx]. }
  split.
  - intros e' d' Hd'. rewrite Ee in Hd'. apply lookup_delete_Some in Hd' as [Hne Hd'].
    destruct (H1 e' d' Hd') as (? & ? & ? & A & B & C). rewrite V1 in A. rewrite V2 in B. apply Hin in A, B; try done. by rewrite En.
  - intros k e' Hk. destruct (H2 k e') as (d' & Hd' & Hs); [rewrite V1; by apply elem_of_app; right|]. exists d'. split; [|done].
    rewrite Ee, lookup_delete_ne; [done|]. intros <-. by apply (N1 k).
  - intros k e' Hk. destruct (H3 k e') as (d' & Hd' & Hs); [rewrite V2; by apply elem_of_app; right|]. exists d'. split; [|done].
    rewrite Ee, lookup_delete_ne; [done|]. intros <-. by apply (N2 k).
  - intros k. split; [apply N1|apply N2].
  - intros k. by rewrite Er, <-T1.
  - intros k. by rewrite Ef, <-T1.
  - intros k. by rewrite Ea, <-T1.
  - intros k. by rewrite Ec, <-T2, V3.
Qed.


Lemma inv_regraph v v' s g' : inv t v s → graph_ok (n_of s) g' v' →
  vopen v' = vopen v → vunref v' = vunref v → vwait v' = vwait v → vconf v' = vconf v →
  (∀ k, vdeps v k = [] → vdeps v' k = []) →
  (∀ k, k ∉ vwait v → st_of s k = DAEMON_STATE_WAITING → dependencies_ready (graph s) k < used s k →
     dependencies_ready g' k < Z.of_nat (length (items (dependencies g' k)))) →
  (∀ k, reference_count g' k = reference_count (graph s) k) → (∀ k, k ∉ vopen v → exits_from g' k) → inv t v' (set_graph g' s).
Proof.
  intros [HL HG HC HS HW HT HX HD] Hg' E1 E2 E3 E4 Hd Hw Hr Hx. split; rewrite ?E1, ?E2, ?E3, ?E4; try done.
  - intros k d Hk Hc Hf. eauto.
  - intros k Ht Hk Hu H0. cbn. rewrite Hr. by apply HW.
  - intros k Ht Hk Hst. unfold used. cbn. auto.
Qed.

(** What unconfiguring a daemon leaves alone. *)
Record unconfigured_as (i : nat) (s s' : system) : Prop := {
  ua_lists : lists s' = lists s;
  ua_refs k : reference_count (graph s') k = reference_count (graph s) k;
  ua_daemon d : daemons s !! i = Some d → ∃ d', daemons s' = <[i := d']> (daemons s) ∧ name d' = name d ∧ netif d' = netif d ∧
    pid d' = pid d ∧ configured d' = false;
}.

Definition leaving (i : nat) (rest : list nat) (s : system) : view :=
  View (λ k, if decide (k = i) then rest else items (dependencies (graph s) k)) (dependents (graph s)) (λ _, 0) [i] [] [] [].

Lemma unconfigure_each_ok s i rest : (∀ e, e ∈ rest → ∃ d, edges (graph s) !! e = Some d) → inv t (leaving i rest s) s → idle (st_of s i) = true →
  wp (known t) (each (λ e, d ← the_dependency e; assert (status d =? 0) assert_dependency_status;; free_dependency e) rest)
    (λ _ s', inv t (leaving i [] s') s' ∧ lists s' = lists s ∧ daemons s' = daemons s ∧
      (∀ k, reference_count (graph s') k = reference_count (graph s) k)) s.
Proof.
  revert s. induction rest as [|e rest IH]; intros s Hl Hinv Hst; [done|]. cbn [each].
  destruct (go_dep _ _ _ (inv_graph _ _ _ Hinv) i e) as (d & He & Hsrc); [cbn; rewrite decide_True by done; left|].
  unfold free_dependency. wp_steps. apply wp_assert; [intros _; left; left|intros E%Z.eqb_eq]. wp_steps.
  unfold modify_graph. apply wp_modify. match goal with |- wp _ _ _ (set_graph ?x _) => set (g' := x) end.
  assert (Hin : e ∈ dependents (graph s) (target d)) by by apply (go_edge _ _ _ (inv_graph _ _ _ Hinv) e d He).
  assert (Hinv' : inv t (leaving i rest (set_graph g' s)) (set_graph g' s)).
  { eapply (inv_regraph (leaving i (e :: rest) s)); try done.
    - apply (graph_disconnect _ (graph s) _ (leaving i (e :: rest) s) _ e d); try done; [by apply Hinv|..]; intros k; cbn.
      + rewrite Hsrc. by case_decide.
      + unfold update. case_decide as Ek; [subst k|done]. by apply swap_remove_perm.
    - intros k. cbn. by case_decide.
    - intros k Hk. intros e' (d' & Hd' & Es & Ef)%(inv_exit _ _ _ Hinv k Hk). exists d'. split; [|done]. cbn. rewrite lookup_delete_ne; [done|].
      intros <-. apply Hk. rewrite He in Hd'. injection Hd' as <-. rewrite <-Es, Hsrc. left. }
  eapply wp_mono; [apply IH; [|exact Hinv'|done]|].
  - intros e' He'. destruct (go_dep _ _ _ (inv_graph _ _ _ Hinv') i e') as (d' & ? & _); [cbn; by rewrite decide_True by done|]. eauto.
  - intros _ s' (A & B & C & D). split_and!; try done; by rewrite ?B, ?C.
Qed.

Lemma unconfigure_ok s i : inv t (plain s) s → (i < n_of s)%nat → idle (st_of s i) = true →
  wp (known t) (daemon_unconfigure i) (λ _ s', inv t (plain s') s' ∧ unconfigured_as i s s') s.
Proof.
  intros Hinv Hi Hst. unfold daemon_unconfigure. wp_steps.
  assert (bool_decide (st_of s i = DAEMON_STATE_TERMINATED) || bool_decide (st_of s i = DAEMON_STATE_FINISHED) = true) as ->
    by by destruct (st_of s i).
  apply wp_assert; [done|intros _]. wp_steps.
  eapply wp_mono; [apply (unconfigure_each_ok s i); [|..|done]|].
  - intros e (d & ? & _)%(go_dep _ _ _ (inv_graph _ _ _ Hinv)). eauto.
  - apply (inv_open _ i) in Hinv. apply (inv_view _ _ _ _ Hinv); try done. intros k. cbn. case_decide; by subst.
  - intros _ s1 (Hinv1 & L1 & D1 & R1). unfold modify_graph. wp_steps. apply wp_modify.
    match goal with |- wp _ _ _ (set_graph ?x _) => set (g' := x) end. pose proof (inv_graph _ _ _ Hinv1) as G1.
    assert (Hdeps : vdeps (leaving i [] s1) i = []) by (cbn; by rewrite decide_True).
    assert (Hg' : graph_ok (n_of s1) g' (leaving i [] s1)).
    { destruct G1 as [A1 A2 A3 A4 A5 A6 A7 A8]. split; try done; intros k; cbn [g' dependencies_ready dependencies_finished dependencies_failed edges];
        unfold update; case_decide as Ek; auto; rewrite Ek, Hdeps; done. }
    assert (Hinv2 : inv t (leaving i [] s1) (set_graph g' s1)).
    { eapply inv_regraph; [exact Hinv1|done..| | |].
      - intros k _ Hk. rewrite L1 in Hk. assert (k ≠ i) by (intros ->; by rewrite Hk in Hst). cbn. by rewrite !update_ne.
      - done.
      - intros k Hk. cbn. unfold exits_from. cbn. rewrite update_ne; [by apply (inv_exit _ _ _ Hinv1)|]. intros ->. apply Hk. left. }
    set (s2 := set_graph g' s1) in *. destruct (has_daemon s2 i) as [d Hd]; [by cbn; rewrite D1|].
    wp_steps. apply wp_assert; [intros _; left; do 4 right; left|intros _].
    eapply wp_put; [exact Hinv2|exact Hd|done|right; right; right; by cbn; rewrite decide_True|left; left|]. intros Hinv3.
    split.
    + apply (inv_close _ i).
      * apply (inv_view _ _ _ _ Hinv3); try done. intros k. cbn. unfold update. by case_decide.
      * intros _ e. cbn. by rewrite update_eq.
      * intros Ht _ d' Hd'. cbn in Hd'. rewrite list_lookup_insert_eq in Hd' by (by rewrite D1). injection Hd' as <-.
        unfold sound_in. cbn. rewrite L1. cbn in Hd. rewrite D1 in Hd.
        destruct (inv_sound _ _ _ Hinv i d Ht Hd ltac:(by apply not_elem_of_nil)) as [P1 P2 P3 P4]. unfold sound_in in *.
        split; cbn; intros H; try (by destruct (st_of s i)); auto. apply P1 in H as [H _]. by destruct (st_of s i).
    + split; cbn; [done|done|]. intros d' Hd'. cbn in Hd. rewrite D1 in *. rewrite Hd in Hd'. injection Hd' as <-. eexists. by split_and!.
Qed.


(** ** Configuring *)

Lemma inv_conf_open i X s : inv t (arrays X s) s → inv t (arrays (i :: X) s) s.
Proof.
  intros [HL HG HC HS HW HT HX HD]. split; try done; [by apply (graph_ok_view _ _ (arrays X s))|].
  intros k d Hd [_ Hk]%not_elem_of_cons. by apply HC.
Qed.
Lemma inv_conf_close i X s d : inv t (arrays (i :: X) s) s → daemons s !! i = Some d → configured d = true → inv t (arrays X s) s.
Proof.
  intros [HL HG HC HS HW HT HX HD] Hd Hc. split; try done; [by apply (graph_ok_view _ _ (arrays (i :: X) s))|].
  intros k d' Hd' Hk Hc'. destruct (decide (k = i)) as [->|Hne]; [congruence|]. apply (HC k d'); [done|by apply not_elem_of_cons|done].
Qed.

Lemma find_by_name_ok nm (Q : option nat → system → Prop) s :
  (∀ i d, daemons s !! i = Some d → name d = nm → Q (Some i) s) → Q None s → wp (known t) (daemon_find_by_name nm) Q s.
Proof.
  intros H1 H2. unfold wp, daemon_find_by_name. destruct (find_index _ _) as [i|] eqn:E; [|done].
  apply find_index_found in E as (d & Hd & Hn%bool_decide_eq_true). by apply (H1 i d).
Qed.

(** The daemon of a name is found or made. *)
Lemma named_ok X s nm : inv t (arrays X s) s →
  wp (known t) (found ← daemon_find_by_name nm; match found with Some j => mret j | None => daemon_create_unconfigured nm end)
    (λ j s', inv t (arrays X s') s' ∧ grown s s' ∧ ∃ d, daemons s' !! j = Some d ∧ name d = nm) s.
Proof.
  intros Hinv. wp_steps. apply find_by_name_ok.
  - intros i d Hd Hn. wp_steps. split_and!; [done|done|eauto].
  - eapply wp_mono; [by apply (create_unconfigured_ok X s nm)|]. intros j s' (_ & _ & ? & ? & ?). by split_and!.
Qed.

Lemma wp_seq {A B C} (m : I A) (f : A → I B) (g : B → I C) Q s :
  wp (known t) (m ≫= f) (λ b, wp (known t) (g b) Q) s → wp (known t) (m ≫= λ a, f a ≫= g) Q s.
Proof. unfold wp, mbind, I_bind. destruct (m s) as [a s'|]; [|done]. by destruct (f a s'). Qed.

Lemma grown_lt s s' i : grown s s' → (i < n_of s)%nat → (i < n_of s')%nat.
Proof. intros []. lia. Qed.

Lemma configure_dependencies_ok X s i deps : inv t (arrays X s) s → i ∈ X → (i < n_of s)%nat →
  wp (known t) (configure_dependencies i deps) (λ _ s', inv t (arrays X s') s' ∧ grown s s') s.
Proof.
  revert s. induction deps as [|c deps IH]; intros s Hinv HX Hi; cbn [configure_dependencies]; [by wp_steps|].
  apply wp_seq. eapply wp_mono; [by apply (named_ok X s)|]. intros j s1 (Hinv1 & G1 & dj & Hdj & _). wp_steps.
  pose proof (grown_lt _ _ _ G1 Hi) as Hi1. pose proof (lookup_lt_Some _ _ _ Hdj) as Hj.
  assert (Hadd : wp (known t) (if bool_decide (netif dj ≠ None) then skip else daemon_add_dependency i j (config_flags c);; skip)
    (λ _ s', inv t (arrays X s') s' ∧ grown s s') s1).
  { case_match; [by wp_steps|]. wp_steps. eapply wp_mono; [apply (add_dependency_ok X s1 i j); eauto|].
    intros e s2 (Hinv2 & D & L & R & _). wp_steps. split; [done|]. etransitivity; [exact G1|by apply grown_same]. }
  eapply wp_mono; [exact Hadd|]. intros _ s2 (Hinv2 & G2).
  eapply wp_mono; [apply IH; [done|done|by apply (grown_lt s)]|]. intros _ s3 (Hinv3 & G3). split; [done|by etransitivity].
Qed.

(** A daemon that is not configured has no process. *)
Lemma unconfigured_sound X s i d : inv t (arrays X s) s → daemons s !! i = Some d → configured d = false → t = true →
  ¬ 0 < pid d ∧ past_loading (st_of s i) = false ∧ (was_terminated d = true → stopping (st_of s i) = true).
Proof.
  intros Hinv Hd Hc Ht. destruct (inv_sound _ _ _ Hinv i d Ht Hd ltac:(by apply not_elem_of_nil)) as [P1 P2 P3 P4].
  assert (past_loading (st_of s i) = false) by (apply not_true_is_false; intros ?%P3; congruence).
  split_and!; [|done|done]. intros [H1 _]%P1. by destruct (st_of s i).
Qed.

Lemma fresh_sound st d : ¬ 0 < pid d → past_loading st = false → (was_terminated d = true → stopping st = true) → sound st d.
Proof. intros H1 H2 H3. split; [by intros ?%H1|destruct st; discriminate..|done]. Qed.

Lemma grown_put s i d d' : daemons s !! i = Some d → name d' = name d → pid d' = pid d → was_terminated d' = was_terminated d →
  (configured d = true → configured d' = true) → grown s (set_daemons (<[i := d']> (daemons s)) s).
Proof.
  intros Hd ? ? ? ?. split; cbn; [by rewrite length_insert| |done..]. intros k x Hx. destruct (decide (k = i)) as [->|Hne].
  - exists d'. rewrite list_lookup_insert_eq by (by eapply lookup_lt_Some). rewrite Hd in Hx. injection Hx as <-. by split_and!.
  - exists x. by rewrite list_lookup_insert_ne.
Qed.

(** The end of a configuration: the daemon, unconfigured in [s], becomes configured. *)
Lemma configured_ok X s s1 i d f : inv t (arrays X s) s → daemons s !! i = Some d → configured d = false →
  inv t (arrays (i :: X) s1) s1 → grown s s1 → (i < n_of s)%nat →
  (∀ d, name (f d) = name d ∧ pid (f d) = pid d ∧ was_terminated (f d) = was_terminated d ∧ configured (f d) = true) →
  wp (known t) (set_daemon i f) (λ _ s', inv t (arrays X s') s' ∧ grown s s' ∧ ∃ d', daemons s' !! i = Some d' ∧ configured d' = true) s1.
Proof.
  intros Hinv Hd Hc Hinv1 G1 Hi Hf. destruct (grown_daemon _ _ G1 i d Hd) as (d1 & Hd1 & En & Ep & Ew & _). destruct (Hf d1) as (? & Fp & Fw & ?).
  eapply wp_put; [exact Hinv1|exact Hd1|done|by right; left| |].
  - right. intros Ht. destruct (unconfigured_sound X s i d Hinv Hd Hc Ht) as (P1 & P2 & P3). unfold sound_in.
    rewrite (grown_state _ _ G1) by done. apply fresh_sound; [by rewrite Fp, Ep|done|by rewrite Fw, Ew].
  - intros Hinv2. assert (Hd2 : (<[i := f d1]> (daemons s1)) !! i = Some (f d1)) by (apply list_lookup_insert_eq; by eapply lookup_lt_Some).
    split_and!.
    + by apply (inv_conf_close i X _ (f d1)).
    + etransitivity; [exact G1|]. by apply (grown_put s1 i d1).
    + eauto.
Qed.

Lemma configure_sub_ok X s i c nif d : inv t (arrays X s) s → i ∉ X → daemons s !! i = Some d → configured d = false →
  wp (known t) (daemon_configure_sub i c nif)
    (λ _ s', inv t (arrays X s') s' ∧ grown s s' ∧ ∃ d', daemons s' !! i = Some d' ∧ configured d' = true) s.
Proof.
  intros Hinv HX Hd Hc. pose proof (lookup_lt_Some _ _ _ Hd) as Hi. unfold daemon_configure_sub, modify_graph. wp_steps. rewrite Hc.
  apply wp_assert; [done|intros _]. wp_steps. apply wp_modify. match goal with |- wp _ _ _ (set_graph ?x _) => set (g' := x) end.
  pose proof (inv_conf _ _ _ Hinv i d Hd HX Hc) as Hnil. cbn in Hnil.
  assert (Hit : ∀ k, items (dependencies g' k) = items (dependencies (graph s) k)).
  { intros k. cbn. unfold update. case_decide as E; [by rewrite E, Hnil|done]. }
  assert (Hinv1 : inv t (arrays X (set_graph g' s)) (set_graph g' s)).
  { apply (inv_regraph (arrays X s)); try done.
    - apply (graph_ok_view _ _ (arrays X s)); try done. destruct (inv_graph _ _ _ Hinv) as [A1 A2 A3 A4 A5 A6 A7 A8]. by split.
    - intros k. cbn [arrays vdeps graph set_graph]. by rewrite Hit.
    - intros k _ _. by rewrite Hit.
    - intros k Hk. by apply (inv_exit _ _ _ Hinv). }
  wp_steps. eapply wp_mono; [apply (configure_dependencies_ok (i :: X)); [by apply inv_conf_open|left|done]|]. intros _ s2 (Hinv2 & G2).
  eapply (configured_ok X s s2 i d); try done. etransitivity; [|exact G2]. by apply grown_same.
Qed.

Lemma configure_interfaces_ok X s i c d ifs : inv t (arrays X s) s → X = [i] → daemons s !! i = Some d → name d = config_name c →
  wp (known t) (configure_interfaces i c ifs) (λ _ s', inv t (arrays X s') s' ∧ grown s s') s.
Proof.
  intros Hinv ->. revert s d Hinv. induction ifs as [|n ifs IH]; intros s d Hinv Hd Hn; cbn [configure_interfaces]; [by wp_steps|]. cbn zeta.
  apply wp_seq. eapply wp_mono; [by apply (named_ok [i] s)|]. intros j s1 (Hinv1 & G1 & dj & Hdj & Enj). wp_steps.
  destruct (grown_daemon _ _ G1 i d Hd) as (d1 & Hd1 & En1 & _). pose proof (lookup_lt_Some _ _ _ Hdj) as Hj.
  assert (Hne : j ≠ i).
  { intros ->. rewrite Hd1 in Hdj. injection Hdj as <-. apply (f_equal length) in Enj. rewrite En1, Hn, !length_app in Enj. cbn in Enj. lia. }
  assert (Hsub : wp (known t) (if negb (configured dj) then set_daemon j (set_netif (Some n));; daemon_configure_sub j c (Some n) else skip)
    (λ _ s', inv t (arrays [i] s') s' ∧ grown s1 s') s1).
  { destruct (configured dj) eqn:Ec; cbn [negb]; [by wp_steps|]. wp_steps.
    eapply wp_put; [exact Hinv1|exact Hdj|done|by left| |].
    - right. intros Ht. apply (sound_same _ dj); try done. apply (inv_sound _ _ _ Hinv1); [done|done|by apply not_elem_of_nil].
    - intros Hinv2. eapply wp_mono; [eapply (configure_sub_ok [i]); [exact Hinv2|by rewrite list_elem_of_singleton|by apply list_lookup_insert_eq|done]|].
      intros _ s3 (Hinv3 & G3 & _). split; [done|]. etransitivity; [|exact G3]. by apply (grown_put s1 j dj). }
  eapply wp_mono; [exact Hsub|]. intros _ s2 (Hinv2 & G2'). assert (G2 : grown s s2) by by etransitivity.
  pose proof (grown_lt _ _ _ G2' Hj) as Hj2. destruct (grown_daemon _ _ G2 i d Hd) as (d2 & Hd2 & En2 & _).
  wp_steps. eapply wp_mono; [apply (add_dependency_ok [i] s2 i j); [done|by eapply lookup_lt_Some|done|left; left]|].
  intros e s3 (Hinv3 & D3 & L3 & R3 & _). eapply wp_mono; [apply (IH s3 d2); [done|by rewrite D3|by rewrite En2]|].
  intros _ s4 (Hinv4 & G4). split; [done|]. etransitivity; [exact G2|]. etransitivity; [by apply grown_same|exact G4].
Qed.

Lemma configure_ok env s i c d : inv t (plain s) s → daemons s !! i = Some d → configured d = false → name d = config_name c →
  wp (known t) (daemon_configure env i c)
    (λ _ s', inv t (plain s') s' ∧ grown s s' ∧ ∃ d', daemons s' !! i = Some d' ∧ configured d' = true) s.
Proof.
  intros Hinv Hd Hc Hn. pose proof (lookup_lt_Some _ _ _ Hd) as Hi. unfold daemon_configure.
  destruct (config_per_if c); [|by apply (configure_sub_ok [] s i c None d); [|apply not_elem_of_nil|..]].
  wp_steps. eapply wp_mono; [eapply (configure_interfaces_ok [i] s i c d); [by apply inv_conf_open|done..]|]. intros _ s1 (Hinv1 & G1).
  by apply (configured_ok [] s s1 i d).
Qed.

(** What loading gives is the configuration of the name. *)
Definition names_match (env : environment) : Prop := ∀ nm c, daemon_config_load env nm = Some c → config_name c = nm.

Lemma load_and_configure_ok env s i d : names_match env → inv t (plain s) s → daemons s !! i = Some d → configured d = false →
  wp (known t) (daemon_load_and_configure env i) (λ b s', inv t (plain s') s' ∧ (n_of s <= n_of s')%nat ∧
    (b = true → grown s s' ∧ ∃ d', daemons s' !! i = Some d' ∧ configured d' = true)) s.
Proof.
  intros Henv Hinv Hd Hc. pose proof (lookup_lt_Some _ _ _ Hd) as Hi. unfold daemon_load_and_configure. wp_steps. rewrite Hc.
  apply wp_assert; [done|intros _]. destruct (daemon_config_load env (name d)) as [c|] eqn:E; wp_steps.
  - apply Henv in E. eapply wp_mono; [by eapply (configure_ok env s i c d)|]. intros _ s1 (Hinv1 & G1 & Hd1). wp_steps.
    split_and!; [done|apply G1|done].
  - apply (wp_minor t (plain s)); [done|done|done|]. intros d1 s1 Hd1 Es1 Hinv1 K1. rewrite Hd in Hd1. injection Hd1 as <-.
    assert (Hi1 : (i < n_of s1)%nat) by by rewrite (kept_length _ _ K1).
    wp_steps. eapply wp_mono; [apply (on_startup_error_ok t env (plain s) s1 i); [done|by apply (synced_kept _ s)|done|]|].
    + intros Ht _ d2 Hd2. destruct (kept_daemon _ _ K1 i d Hd) as (d2' & Hd2' & ? & ? & ? & ? & Ep & ?). replace d2 with d2' by congruence.
      rewrite Ep. by destruct (unconfigured_sound [] s i d Hinv Hd Hc Ht).
    + intros _ s2 (Hinv2 & K2 & _). wp_steps. assert (K : kept s s2) by by etransitivity. split_and!; [by rewrite (plain_kept _ _ K)| |done].
      by rewrite (kept_length _ _ K).
Qed.

Lemma reconfigure_ok env s i : names_match env → inv t (plain s) s → (i < n_of s)%nat → idle (st_of s i) = true →
  wp (known t) (daemon_reconfigure env i) (λ _ s', inv t (plain s') s' ∧ (n_of s <= n_of s')%nat) s.
Proof.
  intros Henv Hinv Hi Hst. unfold daemon_reconfigure. destruct (has_daemon s i Hi) as [d Hd]. wp_steps.
  apply wp_assert; [intros _; left; do 2 right; left|intros _]. wp_steps.
  assert (bool_decide (st_of s i = DAEMON_STATE_TERMINATED) || bool_decide (st_of s i = DAEMON_STATE_FINISHED) = true) as ->
    by by destruct (st_of s i).
  apply wp_assert; [done|intros _]. wp_steps. eapply wp_mono; [by apply unconfigure_ok|]. intros _ s1 (Hinv1 & [L1 R1 D1]).
  destruct (D1 d Hd) as (d' & Es & _ & _ & _ & Hc). assert (Hn : n_of s1 = n_of s) by by rewrite Es, length_insert.
  wp_steps. eapply wp_mono; [apply (load_and_configure_ok env s1 i d'); try done; by rewrite Es, list_lookup_insert_eq|].
  intros b s2 (Hinv2 & Hle & _). wp_steps. split; [done|lia].
Qed.

Lemma request_reconfigure_ok env s i : names_match env → inv t (plain s) s → (i < n_of s)%nat →
  wp (known t) (daemon_request_reconfigure env i) (λ _ s', inv t (plain s') s') s.
Proof.
  intros Henv Hinv Hi. unfold daemon_request_reconfigure. destruct (has_daemon s i Hi) as [d Hd]. wp_steps.
  case_match; [by wp_steps|]. match goal with H : bool_decide _ = _ |- _ => clear H end. wp_steps.
  assert (Hset : wp (known t) (if negb (want_reconfigure d) then
       st ← state_of i;
       let should_run := bool_decide (st ∈ [DAEMON_STATE_WAITING; DAEMON_STATE_SATISFIED; DAEMON_STATE_STARTING; DAEMON_STATE_RUNNING]) in
       (if bool_decide (st ∈ [DAEMON_STATE_STARTING; DAEMON_STATE_RUNNING]) then daemon_terminate env i else skip);;
       set_daemon i (λ d, set_want_restart should_run (set_want_reconfigure true d))
     else skip) (λ _ s', inv t (plain s) s' ∧ kept s s') s).
  { case_match; [|by wp_steps]. wp_steps. cbn zeta. wp_steps.
    eapply (wp_mono _ _ (λ _ s', inv t (plain s) s' ∧ kept s s')).
    - case_match; [|by wp_steps]. eapply wp_mono; [by apply (terminate_ok t env (plain s) s i)|]. by intros _ s1 ((? & ? & _) & _).
    - intros _ s1 (Hinv1 & K1). apply (wp_minor t (plain s)); [done|by rewrite (kept_length _ _ K1)|done|].
      intros d1 s2 _ _ Hinv2 K2. split; [done|by etransitivity]. }
  eapply wp_mono; [exact Hset|]. intros _ s1 (Hinv1 & K1). wp_steps. rewrite <-(plain_kept _ _ K1) in Hinv1.
  case_bool_decide as E; [|by wp_steps]. eapply wp_mono; [apply (reconfigure_ok env s1 i); [done|done|by rewrite (kept_length _ _ K1)|]|].
  - apply elem_of_cons in E as [E|E%list_elem_of_singleton]; by rewrite E.
  - by intros _ s2 [? _].
Qed.
End Conf.
End DaemonConf.
