(* ===== verification/DaemonSteps.v ===== *)
(** * The steps of init keep the invariant

    Adding and removing dependencies while daemons run, waiting, starting,
    finishing, and the events and requests that [init] handles. *)

From S2P Require Import Prelude Timespec Daemon DaemonLists DaemonInv DaemonOps DaemonConf.
From stdpp Require Import base decidable list numbers gmap strings.
From Stdlib Require Import ZArith Lia.

#[local] Open Scope c_scope.
#[local] Open Scope Z_scope.

Module DaemonSteps.
Import Daemon DaemonLists DaemonInv DaemonOps DaemonConf.

(** An event that sets no daemon back wrongly: [default] has no process when the system is
    shut down, a daemon says it is ready while it is starting, and the source of a new
    dependency is not about to be started. *)
Definition tame (s : system) (ev : event) : bool :=
  match ev with
  | ev_exit_signal =>
      (caught_exit_signal s =? -1) || negb (default_daemon_exit_code s =? -1) ||
      match daemons s !! 0%nat with Some d => pid d <=? 0 | None => true end
  | ev_poll index _ (read_char c) _ =>
      match entry_at s index with
      | Some (COMMUNICATION_TYPE_READY i) =>
          match daemons s !! i with
          | Some d => negb (c =? 10) || negb (readyfd d) || bool_decide (state (lists s) i = DAEMON_STATE_STARTING)
          | None => true
          end
      | _ => true
      end
  | ev_message _ (command :: source_name :: _) =>
      if bool_decide (command = lit "require")
      then match find_index (λ d, bool_decide (name d = source_name)) (daemons s) with
           | Some i => negb (bool_decide (state (lists s) i = DAEMON_STATE_SATISFIED))
           | None => true
           end
      else true
  | _ => true
  end.

Section Steps.
Context (t : bool) (env : environment).
Context (Hnames : names_match env) (Hfork : 0 < fork env).

Abbreviation n_of s := (length (daemons s)).
Abbreviation st_of s i := (state (lists s) i).

(** ** Dependencies at run time *)

Lemma find_dependency_ok v s l nm : inv t v s → (∀ e, e ∈ l → ∃ d, edges (graph s) !! e = Some d) →
  wp (known t) (daemon_find_dependency l nm) (λ _ s', s' = s) s.
Proof.
  intros Hinv. induction l as [|e l IH]; intros Hl; cbn [daemon_find_dependency]; [by wp_steps|].
  destruct (Hl e ltac:(left)) as [d Hd]. destruct (edge_ends t v s e d Hinv Hd) as [_ Htgt]. destruct (has_daemon s _ Htgt) as [tg Htg].
  wp_steps. case_match; [by wp_steps|]. apply IH. intros e' He'. apply Hl. by right.
Qed.

Lemma find_target_ok s l j : (∀ e, e ∈ l → ∃ d, edges (graph s) !! e = Some d) →
  wp (known t) (find_target l j) (λ o s', s' = s ∧ ∀ e, o = Some e → e ∈ l ∧ ∃ d, edges (graph s) !! e = Some d ∧ target d = j) s.
Proof.
  induction l as [|e l IH]; intros Hl; cbn [find_target]; [by wp_steps|].
  destruct (Hl e ltac:(left)) as [d Hd]. wp_steps. destruct (target d =? j)%nat eqn:E.
  - wp_steps. split; [done|]. intros e' [= <-]. split; [left|]. apply Nat.eqb_eq in E. eauto.
  - eapply wp_mono; [apply IH; intros e' He'; apply Hl; by right|]. intros o s' (-> & Ho). split; [done|].
    intros e' (H1 & H2)%Ho. split; [by right|done].
Qed.

Lemma depend_ok s i j fl : inv t (plain s) s → (i < n_of s)%nat → (j < n_of s)%nat → (t = true → st_of s i ≠ DAEMON_STATE_SATISFIED) →
  wp (known t) (daemon_depend env i j fl) (λ _ s', inv t (plain s') s') s.
Proof.
  intros Hinv Hi Hj Ht. unfold daemon_depend. destruct (has_daemon s i Hi) as [d Hd], (has_daemon s j Hj) as [tg Htg]. wp_steps.
  destruct (configured d) eqn:Ec; cbn [negb]; [|by wp_steps]. wp_steps.
  eapply wp_mono; [apply (find_dependency_ok (plain s)); [done|]|].
  { intros e (d' & ? & _)%(go_dep _ _ _ (inv_graph _ _ _ Hinv)). eauto. }
  intros o s' ->. destruct o as [e|]; [by wp_steps|]. wp_steps.
  eapply wp_mono; [apply (add_dependency_ok t [] s i j fl); [done|done|done|right; eauto]|].
  intros e s1 (Hinv1 & D1 & L1 & R1 & de & He & Hsrc). wp_steps. case_match; [by wp_steps|]. wp_steps.
  eapply (wp_mono _ _ (λ _ s', inv t (plain s') s' ∧ kept s1 s')).
  - destruct (_ && _) eqn:E; [|by wp_steps]. apply andb_true_iff in E as [E _]. apply bool_decide_eq_true in E. rewrite L1 in E.
    assert (t = false) by (destruct t; [by apply Ht in E|done]). subst t.
    apply (wp_move false (plain s1)); [done|by rewrite D1|right; done|done|done|]. intros l' Hinv2 _. split; [|apply kept_lists].
    by rewrite (plain_kept _ _ (kept_lists s1 l')).
  - intros _ s2 (Hinv2 & K2). destruct (kept_edge _ _ K2 e de He) as (de2 & He2 & _).
    wp_steps. eapply wp_mono; [by apply (wait_dependency_ok t env (plain s2) s2 e de2)|]. intros _ s3 (Hinv3 & K3). wp_steps.
    by rewrite (plain_kept _ _ K3).
Qed.

(** A dependency without a status is dropped, and is no longer what the exit code is taken from. *)
Lemma dropped_ok v v' s e d x : inv t v s → edges (graph s) !! e = Some d → status d = 0 →
  (∀ k, x k = None ∨ (x k = exit_code_from (graph s) k ∧ (k = source d → has (flags d) DEPENDENCY_FLAG_EXIT_CODE = false))) →
  vopen v' = vopen v → vunref v' = vunref v → vwait v' = vwait v → vconf v' = vconf v → (∀ k, voffset v' k = voffset v k) →
  (∀ k, vdeps v k ≡ₚ (if decide (k = source d) then [e] else []) ++ vdeps v' k) →
  (∀ k, vdependents v k ≡ₚ (if decide (k = target d) then [e] else []) ++ vdependents v' k) →
  inv t v' (set_graph (set_edges (delete e (edges (graph s))) (set_exit_code_from x (graph s))) s).
Proof.
  intros Hinv He Hst Hx E1 E2 E3 E4 E5 V1 V2. apply (inv_regraph t v); try done.
  - apply (graph_disconnect _ (graph s) _ v _ e d); try done. apply Hinv.
  - intros k Hk. pose proof (V1 k) as P. rewrite Hk in P. apply Permutation_nil_l in P. symmetry in P. by apply app_eq_nil in P as [_ ->].
  - intros k Hk e' He'. cbn in He' |- *. destruct (Hx k) as [Hn|[Hs Hf]]; [congruence|].
    rewrite Hs in He'. destruct (inv_exit _ _ _ Hinv k Hk e' He') as (d' & Hd' & Es & Ef). exists d'.
    rewrite lookup_delete_ne; [done|]. intros <-. rewrite He in Hd'. injection Hd' as <-. rewrite Hf in Ef by done. done.
Qed.

Lemma undepend_ok s i j : inv t (plain s) s → (i < n_of s)%nat → wp (known t) (daemon_undepend env i j) (λ _ s', inv t (plain s') s') s.
Proof.
  intros Hinv Hi. unfold daemon_undepend. wp_steps. cbn zeta. wp_steps. pose proof (inv_graph _ _ _ Hinv) as G.
  eapply wp_mono; [apply (find_target_ok s)|].
  { intros e (d & ? & _)%(go_dep _ _ _ G). eauto. }
  intros o s' (-> & Ho). destruct o as [e|]; [|by wp_steps]. destruct (Ho e eq_refl) as (Hin & d & He & Htgt). clear Ho.
  destruct (go_dep _ _ _ G i e Hin) as (d' & He' & Hsrc). rewrite He in He'. injection He' as <-.
  assert (Hin' : e ∈ dependents (graph s) j) by (rewrite <-Htgt; by apply (go_edge _ _ _ G e d He)).
  unfold modify_graph. wp_steps. apply wp_modify. match goal with |- wp _ _ _ (set_graph ?x _) => set (g1 := x) end. set (s1 := set_graph g1 s).
  assert (Hinv1 : inv t (await i (plain s)) s1).
  { apply (inv_regraph t (await i (plain s))); try done; [by apply inv_await|..].
    - apply (graph_ok_view _ _ (plain s)); try done. destruct G as [A1 A2 A3 A4 A5 A6 A7 A8]. by split.
    - intros k Hk _. cbn. rewrite update_ne; [done|]. intros ->. apply Hk. left.
    - intros k Hk. by apply (inv_exit _ _ _ Hinv). }
  wp_steps. eapply wp_mono; [apply (dereference_dependency_ok t env _ s1 e d Hinv1); [done|done|left; by apply not_elem_of_nil]|].
  intros _ s2 (Hinv2 & K2 & _ & E2). assert (He2 : edges (graph s2) !! e = Some (set_status 0 d)) by by rewrite E2, lookup_insert_eq.
  assert (Hdrop : ∀ x, (∀ k, x k = None ∨ (x k = exit_code_from (graph s2) k ∧ (k = source d → has (flags d) DEPENDENCY_FLAG_EXIT_CODE = false))) →
    let s4 := set_graph (set_edges (delete e (edges (graph s2))) (set_exit_code_from x (graph s2))) s2 in
    wp (known t) (daemon_consider_satisfied i) (λ _ s', inv t (plain s') s') s4).
  { intros x Hx s4. eapply wp_mono; [apply (consider_satisfied_ok t (plain s4) s4 i)|].
    - apply (dropped_ok (await i (plain s)) _ s2 e (set_status 0 d) x); try done; intros k; cbn.
      + rewrite (kept_dependencies _ _ K2). cbn. unfold update. rewrite Hsrc. case_decide; [subst k; by apply swap_remove_perm|done].
      + rewrite (kept_dependents _ _ K2). cbn. unfold update. rewrite Htgt. case_decide; [subst k; by apply swap_remove_perm|done].
    - done.
    - cbn. by rewrite (kept_length _ _ K2).
    - intros _ s5 (Hinv5 & K5 & _). by rewrite (plain_kept _ _ K5). }
  wp_steps. cbn [flags set_status source]. destruct (has (flags d) DEPENDENCY_FLAG_EXIT_CODE) eqn:Ef; wp_steps; repeat (apply wp_modify; wp_steps).
  - apply Hdrop. intros k. unfold update. case_decide; [by left|by right].
  - apply (Hdrop (exit_code_from (graph s2))). intros k. by right.
Qed.

(** ** Finishing, waiting and starting *)

Lemma no_process v s i d : inv t v s → daemons s !! i = Some d → i ∉ vopen v → has_process (st_of s i) = false → t = true → ¬ 0 < pid d.
Proof. intros Hinv Hd Ho Hst Ht [H _]%(sound_process _ _ (inv_sound _ _ _ Hinv i d Ht Hd Ho)). congruence. Qed.

Lemma finished_state_idle d o : idle (finished_state d o) = true.
Proof. unfold finished_state. by case_match. Qed.

Lemma dereference_dependencies_ok s i : inv t (plain s) s →
  wp (known t) (daemon_dereference_dependencies env i) (λ _ s', inv t (plain s') s' ∧ kept s s' ∧ only_stops s s') s.
Proof.
  intros Hinv. unfold daemon_dereference_dependencies. wp_steps.
  eapply wp_mono; [apply (dereference_each_ok t env (plain s)); try done|].
  - intros e (d & -> & _)%(go_dep _ _ _ (inv_graph _ _ _ Hinv)). eauto.
  - intros _ s' (Hinv' & K & S'). split_and!; [by rewrite (plain_kept _ _ K)|done|done].
Qed.

Lemma finish_ok s i : inv t (plain s) s → (i < n_of s)%nat → st_of s i = DAEMON_STATE_FINISHING →
  wp (known t) (daemon_finish env i) (λ _ s', inv t (plain s') s') s.
Proof.
  intros Hinv Hi Hst. unfold daemon_finish. destruct (has_daemon s i Hi) as [d Hd]. wp_steps. rewrite Hst. decide_states.
  apply wp_assert; [done|intros _]. wp_steps.
  eapply (wp_mono _ _ (λ _ s', inv t (plain s) s' ∧ kept s s' ∧ st_of s' i = DAEMON_STATE_FINISHING)).
  { case_match; [|by wp_steps]. eapply wp_mono; [by apply (mark_ready_ok t (plain s) s i)|]. intros _ s1 (Hinv1 & K1 & S1 & _). split_and!; [done|done|].
    destruct (S1 i) as [->|[E _]]; [done|congruence]. }
  intros _ s1 (Hinv1 & K1 & Hst1). assert (Hi1 : (i < n_of s1)%nat) by by rewrite (kept_length _ _ K1).
  destruct (has_daemon s1 i Hi1) as [d1 Hd1]. wp_steps.
  eapply wp_mono; [apply (reset_ok t (plain s) s1 i); [done|by apply (synced_kept _ s)|done|apply finished_state_idle|]|].
  { intros Ht Ho d' Hd'. apply (no_process (plain s) s1 i); try done. by rewrite Hst1. }
  intros _ s2 (Hinv2 & K2 & Hst2 & _). assert (K : kept s s2) by by etransitivity. rewrite <-(plain_kept _ _ K) in Hinv2.
  assert (Hi2 : (i < n_of s2)%nat) by by rewrite (kept_length _ _ K).
  assert (Hidle : idle (st_of s2 i) = true) by (rewrite Hst2; apply finished_state_idle).
  destruct (has_daemon s2 i Hi2) as [d2 Hd2]. wp_steps.
  eapply (wp_mono _ _ (λ _ s', inv t (plain s') s' ∧ (i < n_of s')%nat)).
  { destruct (want_reconfigure d2); [|by wp_steps]. wp_steps. eapply wp_mono; [by apply (dereference_dependencies_ok s2 i)|].
    intros _ s3 (Hinv3 & K3 & S3). assert (Hi3 : (i < n_of s3)%nat) by by rewrite (kept_length _ _ K3).
    eapply wp_mono; [apply (reconfigure_ok t env s3 i); try done|].
    - destruct (S3 i) as [->|[E _]]; [done|]. by destruct (st_of s2 i).
    - intros _ s4 [? ?]. split; [done|lia]. }
  intros _ s3 (Hinv3 & Hi3). destruct (has_daemon s3 i Hi3) as [d3 Hd3]. wp_steps. case_match.
  - eapply wp_mono; [by apply (request_restart_ok t env (plain s3) s3 i)|]. intros _ s4 ((Hinv4 & K4 & _) & _). by rewrite (plain_kept _ _ K4).
  - eapply wp_mono; [by apply (dereference_dependencies_ok s3 i)|]. by intros _ s4 (? & _).
Qed.

Lemma wait_ok s i : inv t (plain s) s → (i < n_of s)%nat → st_of s i = DAEMON_STATE_SCHEDULED →
  wp (known t) (daemon_wait env i) (λ _ s', inv t (plain s') s') s.
Proof.
  intros Hinv Hi Hst. unfold daemon_wait. destruct (has_daemon s i Hi) as [d Hd]. wp_steps. rewrite Hst. decide_states.
  apply wp_assert; [done|intros _]. wp_steps.
  eapply (wp_mono _ _ (λ b s', inv t (plain s') s' ∧ (b = true → grown s s' ∧ ∃ d', daemons s' !! i = Some d' ∧ configured d' = true))).
  { destruct (configured d) eqn:Ec; [wp_steps; split; [done|]; intros _; split; [done|eauto]|]. eapply wp_mono; [by apply (load_and_configure_ok t env s i d)|].
    by intros b s' (? & _ & ?). }
  intros [] s1 (Hinv1 & Hs1); cbn [negb]; [|by wp_steps]. destruct (Hs1 eq_refl) as (G1 & d1 & Hd1 & Hc1). clear Hs1. wp_steps. cbn zeta. wp_steps.
  pose proof (lookup_lt_Some _ _ _ Hd1) as Hi1. assert (Hst1 : st_of s1 i = DAEMON_STATE_SCHEDULED) by by rewrite (grown_state _ _ G1).
  set (nst := if _ : bool then DAEMON_STATE_SATISFIED else DAEMON_STATE_WAITING).
  apply (wp_move t (plain s1)); [done|done|..].
  - right. intros Ht d' Hd'. replace d' with d1 by congruence. pose proof (inv_sound _ _ _ Hinv1 i d1 Ht Hd1 ltac:(by apply not_elem_of_nil)) as [P1 P2 P3 P4].
    rewrite Hst1 in *. split; subst nst; case_match; try done; try (by intros [? _]%P1); by intros ?%P4.
  - intros Ht Hu H0 Hr. pose proof (inv_wanted _ _ _ Hinv1 i Ht Hi1 Hu H0 Hr) as H. by rewrite Hst1 in H.
  - intros _. subst nst. case_match eqn:E; [done|]. intros _. apply Z.eqb_neq in E. unfold used.
    rewrite (go_ready _ _ _ (inv_graph _ _ _ Hinv1)) in *. pose proof (tally_bound (edges (graph s1)) DEPENDENCY_STATUS_READY (vdeps (plain s1) i)).
    cbn in *. lia.
  - intros l' Hinv2 _. eapply wp_mono; [apply (wait_each_ok t env (plain s1)); try done|].
    + intros e He. by apply (go_dep _ _ _ (inv_graph _ _ _ Hinv1)).
    + intros _ s3 (Hinv3 & K3). rewrite (plain_kept _ _ K3). exact Hinv3.
Qed.

Lemma start_virtual_ok s i d : inv t (plain s) s → daemons s !! i = Some d → st_of s i = DAEMON_STATE_SATISFIED → argv d = argv_null →
  wp (known t) (start_virtual i) (λ _ s', inv t (plain s') s') s.
Proof.
  intros Hinv Hd Hst Ha. pose proof (lookup_lt_Some _ _ _ Hd) as Hi. unfold start_virtual. wp_steps.
  eapply wp_mono; [apply (on_ready_ok t (plain s) s i); [by apply inv_open|apply (inv_exit _ _ _ Hinv)|done|done|..]|].
  - intros Ht d' Hd'. replace d' with d by congruence. pose proof (inv_sound _ _ _ Hinv i d Ht Hd ltac:(by apply not_elem_of_nil)) as [P1 P2 P3 P4].
    unfold sound_in in *. rewrite Hst in *. split; try (by intros [? _]%P1); [|by intros _; apply P3|by intros ?%P4]. intros _. right. by rewrite Ha.
  - intros Ht Hu H0 Hr. pose proof (inv_wanted _ _ _ Hinv i Ht Hi Hu H0 Hr) as H. by rewrite Hst in H.
  - intros _ s1 (Hinv1 & K1 & Hst1 & _). destruct (kept_daemon _ _ K1 i d Hd) as (d1 & Hd1 & _ & _ & Ea & _ & Ep & _).
    rewrite <-(plain_kept _ _ K1) in Hinv1. wp_steps.
    assert (Hpid : t = true → ¬ 0 < pid d1).
    { intros Ht. rewrite Ep. apply (no_process (plain s) s i); try done; [by apply not_elem_of_nil|by rewrite Hst]. }
    assert (Hfin : ∀ s2, inv t (plain s1) s2 → kept s1 s2 → lists s2 = lists s1 → wp (known t) (daemon_on_finished i) (λ _ s', inv t (plain s') s') s2).
    { intros s2 Hinv2 K2 L2. apply (on_finished_ok t (plain s1)); [done|by rewrite (kept_length _ _ K2), (kept_length _ _ K1)|by rewrite L2, Hst1|..].
      - right. intros Ht d2 Hd2. destruct (kept_daemon _ _ K2 i d1 Hd1) as (d2' & Hd2' & _ & _ & _ & _ & Ep' & _).
        replace d2 with d2' by congruence. rewrite Ep'. by apply Hpid.
      - intros l' Hinv3 _. rewrite (plain_kept s1); [done|]. etransitivity; [exact K2|apply kept_lists]. }
    destruct (exit_code_from (graph s1) i) as [e|] eqn:Ee.
    + destruct (inv_exit _ _ _ Hinv1 i ltac:(by apply not_elem_of_nil) e Ee) as (de & He & _).
      destruct (edge_ends t (plain s1) s1 e de Hinv1 He) as [_ Htgt]. destruct (has_daemon s1 _ Htgt) as [tg Htg]. wp_steps. case_match; [|by wp_steps].
      wp_steps. apply (wp_minor t (plain s1)); [done|by eapply lookup_lt_Some|done|]. intros d2 s2 _ Es2 Hinv2 K2. apply Hfin; [done|done|by rewrite Es2].
    + case_match; [by apply Hfin|by wp_steps].
Qed.

(** *** The poll table *)

(** What only changes the poll table, or fails an assertion on it. *)
Definition poll_only {A} (m : I A) : Prop := ∀ s,
  match m s with Done _ s' => s' = set_polled (polled s') s | Aborted w => w ∈ [assert_register; assert_unregister] end.

Lemma reserve_poll_only n : poll_only (communication_reserve n).
Proof. done. Qed.
Lemma register_poll_only c : poll_only (communication_register c).
Proof.
  intros s. unfold communication_register, mbind, I_bind, get_system, assert. cbn zeta.
  destruct (_ <? _); [|left]. destruct (_ <? _); [done|left].
Qed.
Lemma unregister_poll_only k : poll_only (communication_unregister k).
Proof.
  intros s. unfold communication_unregister, mbind, I_bind, get_system, assert. cbn zeta.
  do 2 (destruct (_ <=? _); [|right; left]). do 2 (destruct (_ <? _); [|right; left]). by destruct (nth _ _ _).
Qed.

Lemma wp_polled {A} (m : I A) v s (Q : A → system → Prop) : poll_only m → inv t v s →
  (∀ a p, inv t v (set_polled p s) → Q a (set_polled p s)) → wp (known t) m Q s.
Proof.
  intros Hm Hinv HQ. unfold wp. specialize (Hm s). destruct (m s) as [a s'|w]; [|right; by right]. rewrite Hm. apply HQ. by apply inv_signals.
Qed.

(** What leaves the lists, the graph and all that matters of the daemons alone. *)
Record quiet (s s' : system) : Prop := {
  quiet_kept : kept s s';
  quiet_lists : lists s' = lists s;
  quiet_graph : graph s' = graph s;
  quiet_terminated i d d' : daemons s !! i = Some d → daemons s' !! i = Some d' → was_terminated d' = was_terminated d;
}.

#[global] Instance quiet_preorder : PreOrder quiet.
Proof.
  split.
  - intros s. split; try done. intros i d d'. congruence.
  - intros s1 s2 s3 [K1 L1 G1 T1] [K2 L2 G2 T2]. split; [by etransitivity|congruence|congruence|].
    intros i d d3 Hd Hd3. destruct (kept_daemon _ _ K1 i d Hd) as (d2 & Hd2 & _). rewrite (T2 i d2 d3) by done. by apply (T1 i).
Qed.

Lemma quiet_polled s p : quiet s (set_polled p s).
Proof. split; [apply kept_signals|done|done|]. intros i d d'. cbn. congruence. Qed.

Lemma quiet_put s i f d : very_minor f → daemons s !! i = Some d → quiet s (set_daemons (<[i := f d]> (daemons s)) s).
Proof.
  intros [Hf Hw] Hd. split; [by apply minor_kept|done|done|]. intros j x x' Hx Hx'. cbn in Hx'. destruct (decide (j = i)) as [->|Hne].
  - rewrite list_lookup_insert_eq in Hx' by (by eapply lookup_lt_Some). injection Hx' as <-. replace x with d by congruence. apply Hw.
  - rewrite list_lookup_insert_ne in Hx' by done. congruence.
Qed.

(** The goal after a quiet step. *)
Definition still (v : view) (s : system) (s' : system) : Prop := inv t v s' ∧ quiet s s'.

Lemma wp_polled_still {A} (m : I A) v s0 s (Q : A → system → Prop) : poll_only m → still v s0 s →
  (∀ a s', still v s0 s' → Q a s') → wp (known t) m Q s.
Proof.
  intros Hm [Hinv Hq] HQ. apply (wp_polled m v); [done|done|]. intros a p' Hinv'. apply HQ. split; [done|]. etransitivity; [exact Hq|apply quiet_polled].
Qed.

Lemma wp_put_still v s0 s i f (Q : () → system → Prop) : very_minor f → still v s0 s → (i < n_of s0)%nat →
  (∀ s', still v s0 s' → Q () s') → wp (known t) (set_daemon i f) Q s.
Proof.
  intros Hf [Hinv Hq] Hi HQ. apply (wp_minor t v); [done|by rewrite (kept_length _ _ (quiet_kept _ _ Hq))|done|].
  intros d s' Hd -> Hinv' _. apply HQ. split; [done|]. etransitivity; [exact Hq|by apply quiet_put].
Qed.

Lemma open_pipes_ok v s i : inv t v s → (i < n_of s)%nat → wp (known t) (daemon_open_pipes i) (λ _ s', still v s s') s.
Proof.
  intros Hinv Hi. unfold daemon_open_pipes.
  wp_steps. apply (wp_polled_still _ v s); [apply reserve_poll_only|by split|]. intros _ s1 H1.
  wp_steps. apply (wp_put_still v s); [done|done|done|]. intros s2 H2.
  wp_steps. apply (wp_polled_still _ v s); [apply register_poll_only|done|]. intros _ s3 H3.
  wp_steps. apply (wp_put_still v s); [done|done|done|]. intros s4 H4.
  apply (wp_polled_still _ v s); [apply register_poll_only|done|]. by intros _ s5 H5.
Qed.

Lemma still_daemon v s s' i : still v s s' → (i < n_of s)%nat → ∃ d, daemons s' !! i = Some d.
Proof. intros [_ Hq] Hi. apply has_daemon. by rewrite (kept_length _ _ (quiet_kept _ _ Hq)). Qed.

Lemma close_one_ok v s0 s i c f : very_minor f → still v s0 s → (i < n_of s0)%nat →
  wp (known t) (s ← get_system; communication_unregister (index_of (polled s) c);; set_daemon i f) (λ _ s', still v s0 s') s.
Proof.
  intros Hf Hs Hi. wp_steps. apply (wp_polled_still _ v s0); [apply unregister_poll_only|done|]. intros _ s1 H1.
  by apply (wp_put_still v s0).
Qed.

Lemma close_pipes_ok v s i : inv t v s → (i < n_of s)%nat → wp (known t) (daemon_close_pipes i) (λ _ s', still v s s') s.
Proof.
  intros Hinv Hi. unfold daemon_close_pipes. destruct (has_daemon s i Hi) as [d Hd]. wp_steps.
  assert (H0 : still v s s) by by split.
  eapply (wp_mono _ _ (λ _ s', still v s s')); [destruct (readyfd d); [by apply close_one_ok|by wp_steps]|].
  intros _ s1 H1. destruct (still_daemon v s s1 i H1 Hi) as [d1 Hd1]. wp_steps.
  destruct (outputfd d1); [by apply close_one_ok|by wp_steps].
Qed.

Lemma start_daemon_ok s i : inv t (plain s) s → (i < n_of s)%nat → st_of s i = DAEMON_STATE_SATISFIED →
  wp (known t) (daemon_start env i) (λ _ s', inv t (plain s') s') s.
Proof.
  intros Hinv Hi Hst. unfold daemon_start. destruct (has_daemon s i Hi) as [d Hd]. wp_steps. rewrite Hst. decide_states.
  apply wp_assert; [done|intros _]. wp_steps.
  assert (Hwant : t = true → i ∉ vunref (plain s) → i ≠ 0%nat → reference_count (graph s) i ≠ 0).
  { intros Ht Hu H0 Hr. pose proof (inv_wanted _ _ _ Hinv i Ht Hi Hu H0 Hr) as H. by rewrite Hst in H. }
  destruct (has_argv (argv d)) eqn:Ea; [|destruct (argv d) eqn:E; try discriminate; by apply (start_virtual_ok s i d)].
  assert (Hgo : wp (known t) (s ← get_system; if 0 <? dependencies_failed (graph s) i
      then set_daemon i (set_exit_code (WCONSTRUCT WNATURE_EXITED 3 0));; daemon_on_startup_error env i
      else
        (if need_tty d then skip else daemon_open_pipes i);;
        set_daemon i (set_pid (fork env));;
        assert (match argv d with argv_freed => false | _ => true end) bad_argv;;
        if need_tty d then daemon_on_ready i else daemon_change_state_list i DAEMON_STATE_STARTING)
      (λ _ s', inv t (plain s') s') s); [|by destruct (argv d)].
  wp_steps. case_match.
  { wp_steps. apply (wp_minor t (plain s)); [done|done|done|]. intros d1 s1 Hd1 Es1 Hinv1 K1.
    eapply wp_mono; [apply (on_startup_error_ok t env (plain s) s1 i); [done|by apply (synced_kept _ s)|by rewrite (kept_length _ _ K1)|]|].
    - intros Ht Ho d2 Hd2. apply (no_process (plain s) s1 i); try done. by rewrite Es1; cbn; rewrite Hst.
    - intros _ s2 (Hinv2 & K2 & _). rewrite (plain_kept s); [done|by etransitivity]. }
  wp_steps. eapply (wp_mono _ _ (λ _ s', still (plain s) s s')); [case_match; [wp_steps; by split|by apply open_pipes_ok]|].
  intros _ s0 [Hinv0 Hq]. destruct (kept_daemon _ _ (quiet_kept _ _ Hq) i d Hd) as (d0 & Hd0 & _ & _ & Ea0 & Ec0 & _).
  pose proof (quiet_terminated _ _ Hq i d d0 Hd Hd0) as Et0. wp_steps.
  set (f := set_pid (fork env)).
  eapply (wp_put t (open i (plain s)) s0 i f d0); [by apply inv_open|done|done|by left|left; left|]. intros Hinv1.
  set (s1 := set_daemons (<[i:=f d0]> (daemons s0)) s0) in *.
  assert (Hd1 : daemons s1 !! i = Some (f d0)) by (apply list_lookup_insert_eq; by eapply lookup_lt_Some).
  assert (Hi1 : (i < n_of s1)%nat) by by eapply lookup_lt_Some.
  assert (Hp1 : plain s = plain s1) by (symmetry; apply (plain_kept _ _ (quiet_kept _ _ Hq))).
  wp_steps. apply wp_assert; [intros _; left; do 4 right; left|intros _].
  assert (Hsound : ∀ st, st = DAEMON_STATE_STARTING ∨ st = DAEMON_STATE_RUNNING → t = true → ∀ d', pid d' = fork env → argv d' = argv d →
    configured d' = configured d → was_terminated d' = was_terminated d → sound st d').
  { intros st Hs Ht d' E1 E2 E3 E4. pose proof (inv_sound _ _ _ Hinv i d Ht Hd ltac:(by apply not_elem_of_nil)) as [P1 P2 P3 P4].
    unfold sound_in in *. rewrite Hst in *. split; rewrite ?E1, ?E2, ?E3, ?E4; [by destruct Hs as [->| ->]|by left|by intros _; apply P3|by intros ?%P4]. }
  assert (Hwant1 : t = true → i ∉ vunref (plain s) → i ≠ 0%nat → reference_count (graph s1) i ≠ 0) by (cbn; by rewrite (quiet_graph _ _ Hq)).
  case_match.
  - eapply wp_mono; [apply (on_ready_ok t (plain s) s1 i); [done|apply (inv_exit _ _ _ Hinv0)|by rewrite Hp1|done| |done]|].
    + intros Ht d' Hd'. rewrite Hd1 in Hd'. injection Hd' as <-. apply Hsound; auto.
    + intros _ s2 (Hinv2 & K2 & _). by rewrite (plain_kept _ _ K2), <-Hp1.
  - apply (wp_move t (open i (plain s))); [done|done|left; left|..].
    + intros Ht Hu Hne Hr. by apply Hwant1 in Hr.
    + done.
    + intros l' Hinv2 Hl'. change (plain (set_lists l' s1)) with (plain s1). rewrite <-Hp1. apply (inv_close t i); [done|..].
      * intros _. by apply (inv_exit _ _ _ Hinv0), not_elem_of_nil.
      * intros Ht _ d' Hd'. unfold sound_in. cbn. rewrite Hl', update_eq. change (daemons s1 !! i = Some d') in Hd'. rewrite Hd1 in Hd'. injection Hd' as <-.
        apply Hsound; auto.
Qed.

(** ** Events *)

Lemma on_exit_ok s i d code : inv t (plain s) s → daemons s !! i = Some d → 0 < pid d →
  wp (known t) (daemon_on_exit i code) (λ _ s', inv t (plain s') s') s.
Proof.
  intros Hinv Hd Hp. pose proof (lookup_lt_Some _ _ _ Hd) as Hi. unfold daemon_on_exit. wp_steps.
  assert (Hov : over (st_of s i) = true → t = false).
  { intros Ho. destruct t eqn:Et; [|done]. destruct (sound_process _ _ (inv_sound _ _ _ Hinv i d eq_refl Hd ltac:(by apply not_elem_of_nil)) Hp) as [H _].
    unfold sound_in in H. by destruct (st_of s i). }
  apply wp_assert; [intros E%negb_false_iff%bool_decide_eq_true; right; left; split; [apply Hov; by rewrite E|done]|intros E1%negb_true_iff%bool_decide_eq_false].
  wp_steps.
  apply wp_assert; [intros E%negb_false_iff%bool_decide_eq_true; right; left; split; [apply Hov; by rewrite E|done]|intros E2%negb_true_iff%bool_decide_eq_false].
  wp_steps. eapply (wp_put t (open i (plain s))); [by apply inv_open|exact Hd|done|by left|left; left|]. intros Hinv1.
  match type of Hinv1 with inv _ _ ?x => set (s1 := x) in * end.
  assert (Hd1 : ∃ d1, daemons s1 !! i = Some d1 ∧ pid d1 = 0) by (eexists; split; [by apply list_lookup_insert_eq|done]). destruct Hd1 as (d1 & Hd1 & Hp1).
  assert (Hi1 : (i < n_of s1)%nat) by by eapply lookup_lt_Some.
  wp_steps. eapply wp_mono; [by apply (close_pipes_ok (open i (plain s)) s1 i)|]. intros _ s2 [Hinv2 Hq].
  destruct (kept_daemon _ _ (quiet_kept _ _ Hq) i d1 Hd1) as (d2 & Hd2 & _ & _ & _ & _ & Hp2 & _).
  assert (Hpl : plain s2 = plain s) by apply (plain_kept _ _ (quiet_kept _ _ Hq)).
  apply (on_finished_ok t (open i (plain s))); [done|by eapply lookup_lt_Some|by rewrite (quiet_lists _ _ Hq); cbn; destruct (st_of s i)|left; left|].
  intros l' Hinv3 Hl'. change (plain (set_lists l' s2)) with (plain s2). rewrite Hpl.
  apply (inv_close t i); [done|intros; change (exits_from (graph s2) i); rewrite (quiet_graph _ _ Hq); by apply (inv_exit _ _ _ Hinv)|].
  intros Ht _ d' Hd'. change (daemons s2 !! i = Some d') in Hd'. rewrite Hd2 in Hd'. injection Hd' as <-.
  unfold sound_in. cbn. rewrite Hl', update_eq. apply sound_over; [done|lia|done].
Qed.

Lemma on_ready_event_ok s i revents r : inv t (plain s) s →
  (t = true → ∀ d, daemons s !! i = Some d → readyfd d = true → r = read_char 10 → st_of s i = DAEMON_STATE_STARTING) → (i < n_of s)%nat →
  wp (known t) (daemon_on_ready_event i revents r) (λ _ s', inv t (plain s') s') s.
Proof.
  intros Hinv Hr Hi. destruct (has_daemon s i Hi) as [d Hd]. unfold daemon_on_ready_event. wp_steps.
  eapply (wp_mono _ _ (λ _ s', inv t (plain s) s' ∧ kept s s')).
  - case_match; [|by wp_steps]. unfold daemon_process_ready. wp_steps. unfold read_from. destruct (readyfd d) eqn:Ef; [|by wp_steps].
    destruct r as [| |c]; [by wp_steps..|]. destruct (c =? 10) eqn:Ec; [apply Z.eqb_eq in Ec as ->|by wp_steps]. wp_steps.
    assert (Hs : t = true → st_of s i = DAEMON_STATE_STARTING) by (intros Ht; by apply (Hr Ht d)).
    eapply wp_mono; [apply (on_ready_ok t (plain s) s i); [by apply inv_open|apply (inv_exit _ _ _ Hinv)|done|done|..]|].
    + intros Ht d' Hd'. pose proof (inv_sound _ _ _ Hinv i d' Ht Hd' ltac:(by apply not_elem_of_nil)) as [P1 P2 P3 P4].
      rewrite (Hs Ht) in *. split; [by intros [_ ?]%P1|intros _; left|by intros _; apply P3|by intros ?%P4].
      by destruct (P2 eq_refl) as [?|[? _]].
    + intros Ht Hu H0 Hc. pose proof (inv_wanted _ _ _ Hinv i Ht Hi Hu H0 Hc) as Hw. by rewrite (Hs Ht) in Hw.
    + intros _ s1 (Hinv1 & K1 & _). by wp_steps.
  - intros b s1 (Hinv1 & K1). case_match; [|wp_steps; by rewrite (plain_kept _ _ K1)]. wp_steps.
    apply (wp_polled_still _ (plain s) s1); [apply unregister_poll_only|by split|]. intros _ s2 H2.
    wp_steps. apply (wp_put_still (plain s) s1); [done|done|by rewrite (kept_length _ _ K1)|]. intros s3 [Hinv3 Hq]. wp_steps.
    rewrite (plain_kept s); [done|]. etransitivity; [exact K1|apply Hq].
Qed.

Lemma on_output_event_ok s i revents r : inv t (plain s) s → (i < n_of s)%nat →
  wp (known t) (daemon_on_output_event i revents r) (λ _ s', inv t (plain s') s') s.
Proof.
  intros Hinv Hi. destruct (has_daemon s i Hi) as [d Hd]. unfold daemon_on_output_event. wp_steps.
  eapply (wp_mono _ _ (λ _ s', s' = s)).
  - case_match; [|by wp_steps]. unfold daemon_process_output. wp_steps. by case_match; wp_steps.
  - intros b s1 ->. case_match; [|by wp_steps]. wp_steps.
    apply (wp_polled_still _ (plain s) s); [apply unregister_poll_only|by split|]. intros _ s2 H2.
    wp_steps. apply (wp_put_still (plain s) s); [done|done|done|]. intros s3 [Hinv3 Hq]. wp_steps. by rewrite (plain_kept _ _ (quiet_kept _ _ Hq)).
Qed.

Lemma exit_signal_ok s : inv t (plain s) s → (t = true → tame s ev_exit_signal = true) →
  wp (known t) exit_signal (λ _ s', inv t (plain s') s') s.
Proof.
  intros Hinv Ht. unfold exit_signal. wp_steps. destruct (inv_default _ _ _ Hinv) as (d & Hd & Hn). pose proof (lookup_lt_Some _ _ _ Hd) as Hi.
  eapply (wp_mono _ _ (λ _ s', inv t (plain s) s' ∧ kept s s')).
  - destruct (_ && _) eqn:E; [|by wp_steps]. wp_steps.
    apply (wp_run _ _ _ s (Some 0%nat) s); [unfold daemon_find_by_name; destruct (daemons s); [done|]; injection Hd as ->; cbn [find_index]; by rewrite bool_decide_true|].
    wp_steps. eapply (wp_mono _ _ (λ _ s', inv t (plain s) s' ∧ kept s s')).
    + case_match; [|by wp_steps]. apply (wp_move t (plain s)); [done|done| |done|done|by intros; split; [|apply kept_lists]].
      right. intros Et d' Hd'. replace d' with d by congruence. apply sound_over; [done| |done]. specialize (Ht Et). cbn [tame] in Ht. rewrite Hd in Ht. lia.
    + intros _ s1 (Hinv1 & K1). wp_steps. apply wp_modify.
      apply (wp_minor t (plain s)); [by apply inv_signals|by cbn; rewrite (kept_length _ _ K1)|done|].
      intros d' s2 _ _ Hinv2 K2. split; [done|]. etransitivity; [exact K1|]. etransitivity; [apply kept_signals|exact K2].
  - intros _ s1 (Hinv1 & K1). apply wp_modify. rewrite (plain_kept s); [by apply inv_signals|]. etransitivity; [exact K1|apply kept_signals].
Qed.

Lemma kill_late_ok fuel s cursor : inv t (plain s) s → (∀ i, cursor = Some i → (i < n_of s)%nat) →
  wp (known t) (kill_late fuel env cursor) (λ _ s', inv t (plain s') s') s.
Proof.
  revert s cursor. induction fuel as [|fuel IH]; intros s cursor Hinv Hc; cbn [kill_late]; [by wp_steps|].
  destruct cursor as [i|]; [|by wp_steps]. specialize (Hc i eq_refl). destruct (has_daemon s i Hc) as [d Hd]. wp_steps.
  eapply (wp_mono _ _ (λ _ s', inv t (plain s) s' ∧ kept s s' ∧ lists s' = lists s)).
  - case_match; [|by wp_steps]. wp_steps. apply (wp_send t (plain s)); [done|]. intros s1 Es1 Hinv1 K1.
    apply (wp_minor t (plain s)); [done|by rewrite (kept_length _ _ K1)|done|]. intros d' s2 _ Es2 Hinv2 K2.
    split_and!; [done|by etransitivity|by rewrite Es2, Es1].
  - intros _ s1 (Hinv1 & K1 & L1). wp_steps. apply IH; [by rewrite (plain_kept _ _ K1)|]. intros j Hj. rewrite (kept_length _ _ K1).
    apply (next_valid _ (lists s1) i); [rewrite <-(kept_length _ _ K1); apply Hinv1|done|done].
Qed.

(** *** Requests *)

Lemma find_ok nm s : wp (known t) (daemon_find_by_name nm)
  (λ o s', s' = s ∧ ∀ i, o = Some i → ∃ d, daemons s !! i = Some d ∧ name d = nm) s.
Proof. apply find_by_name_ok; [|done]. intros i d Hd Hn. split; [done|]. intros j [= <-]. eauto. Qed.

Lemma find_or_create_ok nm s : inv t (plain s) s → wp (known t) (daemon_find_or_create env nm)
  (λ o s', inv t (plain s') s' ∧ grown s s' ∧ ∀ i, o = Some i → (i < n_of s')%nat) s.
Proof.
  intros Hinv. unfold daemon_find_or_create. wp_steps. apply find_by_name_ok.
  - intros i d Hd _. wp_steps. split_and!; [done|done|]. intros j [= <-]. by eapply lookup_lt_Some.
  - case_match; [by wp_steps|]. wp_steps. eapply wp_mono; [by apply (create_unconfigured_ok t [] s nm)|]. intros i s' (-> & Hn & Hinv' & G & _).
    wp_steps. split_and!; [done|done|]. intros j [= <-]. lia.
Qed.

Lemma request_daemon_ok find f args s :
  (∀ nm, wp (known t) (find nm) (λ o s', inv t (plain s') s' ∧ ∀ i, o = Some i → (i < n_of s')%nat) s) →
  (∀ i s', inv t (plain s') s' → (i < n_of s')%nat → wp (known t) (f i) (λ _ s', inv t (plain s') s') s') → inv t (plain s) s →
  wp (known t) (request_daemon find f args) (λ _ s', inv t (plain s') s') s.
Proof.
  intros Hfind Hf Hinv. unfold request_daemon. destruct args as [|nm [|? ?]]; [by wp_steps| |by wp_steps]. wp_steps.
  eapply wp_mono; [apply Hfind|]. intros o s1 (Hinv1 & Ho). destruct o as [i|]; [|by wp_steps]. wp_steps.
  eapply wp_mono; [by apply Hf; [|apply Ho]|]. intros [] s2 Hinv2. by wp_steps.
Qed.

Lemma request_require_ok s args : inv t (plain s) s →
  (t = true → ∀ source_name rest i, args = source_name :: rest → find_index (λ d, bool_decide (name d = source_name)) (daemons s) = Some i →
     st_of s i ≠ DAEMON_STATE_SATISFIED) →
  wp (known t) (request_require env args) (λ _ s', inv t (plain s') s') s.
Proof.
  intros Hinv Ht. unfold request_require. destruct args as [|src [|tgt rest]]; [by wp_steps..|]. destruct (require_flags _ _) as [fl|]; [|by wp_steps].
  wp_steps. eapply wp_run; [done|]. destruct (find_index (λ d, bool_decide (name d = src)) (daemons s)) as [i|] eqn:E; [|by wp_steps].
  destruct (find_index_found _ _ _ E) as (d & Hd & _). pose proof (lookup_lt_Some _ _ _ Hd) as Hi.
  wp_steps. eapply wp_mono; [by apply find_or_create_ok|]. intros o1 s1 (Hinv1 & G1 & Ho1).
  destruct o1 as [j|]; [|by wp_steps]. wp_steps. eapply wp_mono; [apply (depend_ok s1 i j fl); [done|by apply (grown_lt s)|by apply Ho1|]|].
  - intros Et. rewrite (grown_state _ _ G1) by done. by apply (Ht Et src (tgt :: rest)).
  - intros b s2 Hinv2. by wp_steps.
Qed.

Lemma request_unrequire_ok s args : inv t (plain s) s → wp (known t) (request_unrequire env args) (λ _ s', inv t (plain s') s') s.
Proof.
  intros Hinv. unfold request_unrequire. destruct args as [|src [|tgt rest]]; [by wp_steps..|].
  wp_steps. eapply wp_mono; [apply find_ok|]. intros o s' (-> & Ho). destruct o as [i|]; [|by wp_steps]. destruct (Ho i eq_refl) as (d & Hd & _).
  wp_steps. eapply wp_mono; [apply find_ok|]. intros o s' (-> & _). destruct o as [j|]; [|by wp_steps].
  wp_steps. eapply wp_mono; [apply (undepend_ok s i j); [done|by eapply lookup_lt_Some]|]. intros [] s2 Hinv2. by wp_steps.
Qed.

Lemma found_ok nm s : inv t (plain s) s → wp (known t) (daemon_find_by_name nm) (λ o s', inv t (plain s') s' ∧ ∀ i, o = Some i → (i < n_of s')%nat) s.
Proof.
  intros Hinv. eapply wp_mono; [apply find_ok|]. intros o s' (-> & Ho). split; [done|]. intros i (d & Hd & _)%Ho. by eapply lookup_lt_Some.
Qed.
Lemma found_or_created_ok nm s : inv t (plain s) s →
  wp (known t) (daemon_find_or_create env nm) (λ o s', inv t (plain s') s' ∧ ∀ i, o = Some i → (i < n_of s')%nat) s.
Proof. intros Hinv. eapply wp_mono; [by apply find_or_create_ok|]. by intros o s' (? & _ & ?). Qed.

Lemma stopped_plain i s s' : stopped t (plain s) i s s' → inv t (plain s') s'.
Proof. intros (Hinv & K & _). by rewrite (plain_kept _ _ K). Qed.

Lemma request_signal_ok s args : inv t (plain s) s → wp (known t) (request_signal env args) (λ _ s', inv t (plain s') s') s.
Proof.
  intros Hinv. unfold request_signal. destruct args as [|nm [|sg [|? ?]]]; try by wp_steps. wp_steps.
  eapply wp_mono; [by apply found_ok|]. intros o s1 (Hinv1 & Ho). destruct o as [i|]; [|by wp_steps]. case_match; [|by wp_steps]. wp_steps.
  eapply wp_mono; [by apply (signal_ok t (plain s1)); [|apply Ho]|]. intros [] s2 Hs2. wp_steps. by eapply stopped_plain.
Qed.

(** A report changes nothing. *)
Lemma reply_status_ok i s : (i < n_of s)%nat → wp (known t) (reply_status env i) (λ _ s', s' = s) s.
Proof. intros Hi. unfold reply_status. destruct (has_daemon s i Hi) as [d Hd]. by wp_steps. Qed.

Lemma reply_dependency_ok s e d : inv t (plain s) s → edges (graph s) !! e = Some d → wp (known t) (reply_dependency e) (λ _ s', s' = s) s.
Proof.
  intros Hinv He. unfold reply_dependency. destruct (edge_ends t (plain s) s e d Hinv He) as [H1 H2].
  destruct (has_daemon s _ H1) as [d1 Hd1], (has_daemon s _ H2) as [d2 Hd2]. by wp_steps.
Qed.

Lemma request_status_ok s args : inv t (plain s) s → wp (known t) (request_status env args) (λ _ s', inv t (plain s') s') s.
Proof.
  intros Hinv. unfold request_status. destruct args as [|nm [|? ?]]; try by wp_steps. wp_steps. eapply wp_mono; [by apply found_ok|].
  intros o s1 (Hinv1 & Ho). destruct o as [i|]; [|by wp_steps]. wp_steps. eapply wp_mono; [by apply reply_status_ok, Ho|].
  intros text s2 ->. by wp_steps.
Qed.

Lemma request_list_ok s conn args : inv t (plain s) s → wp (known t) (request_list env conn args) (λ _ s', inv t (plain s') s') s.
Proof.
  intros Hinv. unfold request_list. destruct args; [|by wp_steps]. destruct conn as [|i]; [by wp_steps|]. wp_steps.
  destruct (i <? _)%nat eqn:E; [|by wp_steps]. apply Nat.ltb_lt in E. wp_steps. eapply wp_mono; [by apply reply_status_ok|].
  intros text s2 ->. by wp_steps.
Qed.

Lemma request_requirements_ok s conn command args : inv t (plain s) s →
  wp (known t) (request_requirements conn command args) (λ _ s', inv t (plain s') s') s.
Proof.
  intros Hinv. unfold request_requirements. destruct args as [|nm [|? ?]]; try by wp_steps. wp_steps. eapply wp_mono; [by apply found_ok|].
  intros o s1 (Hinv1 & Ho). destruct o as [i|]; [|by wp_steps]. destruct conn as [|n]; [by wp_steps|]. wp_steps. cbn zeta.
  match goal with |- context [?l !! n] => destruct (l !! n) as [e|] eqn:E end; [|by wp_steps].
  assert (∃ d, edges (graph s1) !! e = Some d) as [d He].
  { apply list_elem_of_lookup_2, elem_of_app in E as [E|E]; case_match; try by apply not_elem_of_nil in E.
    - destruct (dependent_edge t (plain s1) s1 i e Hinv1 (arrays_synced _ _) E) as (d & ? & _). eauto.
    - destruct (dependency_edge t (plain s1) s1 i e Hinv1 (arrays_synced _ _) E) as (d & ? & _). eauto. }
  wp_steps. eapply wp_mono; [by eapply reply_dependency_ok|]. intros text s2 ->. by wp_steps.
Qed.

Lemma answer_ok (m : I (list Z)) (conn : nat) s : wp (known t) m (λ _ s', inv t (plain s') s') s →
  wp (known t) (text ← m; mret (text, conn)) (λ _ s', inv t (plain s') s') s.
Proof. intros H. apply wp_bind. eapply wp_mono; [exact H|]. intros text s' H'. by wp_steps. Qed.

Lemma message_ok index conn message s : inv t (plain s) s → (t = true → tame s (ev_message index message) = true) →
  wp (known t) (connection_on_message env conn message) (λ _ s', inv t (plain s') s') s.
Proof.
  intros Hinv Ht. unfold connection_on_message. cbn zeta. destruct message as [|command args]; [by wp_steps|].
  case_bool_decide as Ec; [apply answer_ok, request_require_ok; [done|]|clear Ec Ht].
  { intros Et src rest i -> E. specialize (Ht Et). cbn [tame] in Ht. rewrite bool_decide_true, E in Ht by done.
    by apply negb_true_iff, bool_decide_eq_false in Ht. }
  case_bool_decide; [by apply answer_ok, request_unrequire_ok|].
  case_bool_decide; [apply answer_ok, request_daemon_ok; intros; [by apply found_or_created_ok|by apply request_reconfigure_ok|done]|].
  case_bool_decide; [apply answer_ok, request_daemon_ok; intros; [by apply found_or_created_ok|..|done]|].
  { eapply wp_mono; [by apply (reload_ok t (plain s'))|]. intros _ s2 (Hs2 & _). by eapply stopped_plain. }
  case_bool_decide; [apply answer_ok, request_daemon_ok; intros; [by apply found_or_created_ok|..|done]|].
  { eapply wp_mono; [by apply (request_restart_ok t env (plain s'))|]. intros _ s2 ((Hinv2 & K2 & _) & _). by rewrite (plain_kept _ _ K2). }
  case_bool_decide; [apply answer_ok, request_daemon_ok; intros; [by apply found_ok|..|done]|].
  { eapply wp_mono; [by apply (terminate_ok t env (plain s'))|]. intros _ s2 (Hs2 & _). by eapply stopped_plain. }
  case_bool_decide; [apply answer_ok, request_daemon_ok; intros; [by apply found_ok|..|done]|].
  { eapply wp_mono; [by apply (kill_ok t (plain s'))|]. intros [] s2 Hs2. by eapply stopped_plain. }
  case_bool_decide; [by apply answer_ok, request_signal_ok|].
  case_bool_decide; [by apply answer_ok, request_status_ok|].
  case_bool_decide; [by apply request_list_ok|].
  case_bool_decide; [by apply request_requirements_ok|].
  case_bool_decide; [|by wp_steps]. apply answer_ok. unfold request_poweroff. destruct args; wp_steps; [|done]. apply wp_modify. wp_steps.
  by apply inv_signals.
Qed.

Lemma on_first_ok st f s : inv t (plain s) s →
  (∀ i, (i < n_of s)%nat → st_of s i = st → wp (known t) (f i) (λ _ s', inv t (plain s') s') s) →
  wp (known t) (on_first st f) (λ _ s', inv t (plain s') s') s.
Proof.
  intros Hinv Hf. unfold on_first. wp_steps. destruct (first_daemon_by_state (lists s) st) as [i|] eqn:E; [|by wp_steps].
  destruct (first_valid _ _ _ _ (inv_lists _ _ _ Hinv) E). by apply Hf.
Qed.

(** Every entry of the poll table belongs to a daemon or a connection. *)
Definition owned (s : system) : Prop := ∀ index c, entry_at s index = Some c →
  match c with
  | COMMUNICATION_TYPE_OUTPUT i | COMMUNICATION_TYPE_READY i => (i < n_of s)%nat
  | COMMUNICATION_TYPE_SERVER => True
  | COMMUNICATION_TYPE_CONNECTION k => is_Some (connections (polled s) !! k)
  end.

Lemma connection_new_ok s : inv t (plain s) s → wp (known t) connection_new (λ _ s', inv t (plain s') s') s.
Proof.
  intros Hinv. unfold connection_new. wp_steps. apply (wp_polled_still _ (plain s) s); [apply reserve_poll_only|by split|]. intros _ s1 H1.
  wp_steps. cbn zeta. wp_steps. apply (wp_polled_still _ (plain s) s); [done|done|]. intros _ s2 H2.
  apply (wp_polled_still _ (plain s) s); [apply register_poll_only|done|]. intros _ s3 [Hinv3 Hq]. by rewrite (plain_kept _ _ (quiet_kept _ _ Hq)).
Qed.

Lemma connection_free_ok s c : inv t (plain s) s → wp (known t) (connection_free c) (λ _ s', inv t (plain s') s') s.
Proof.
  intros Hinv. unfold connection_free. wp_steps. apply (wp_polled_still _ (plain s) s); [apply unregister_poll_only|by split|]. intros _ s1 H1.
  apply (wp_polled_still _ (plain s) s); [done|done|]. intros _ s2 [Hinv2 Hq]. by rewrite (plain_kept _ _ (quiet_kept _ _ Hq)).
Qed.

Lemma on_line_ok index c message s : inv t (plain s) s → is_Some (connections (polled s) !! c) →
  (t = true → tame s (ev_message index message) = true) → wp (known t) (connection_on_line env c message) (λ _ s', inv t (plain s') s') s.
Proof.
  intros Hinv [conn Hc] Ht. unfold connection_on_line. wp_steps. rewrite Hc. wp_steps. eapply wp_mono; [by apply (message_ok index)|].
  intros [text conn'] s1 Hinv1. apply (wp_polled _ (plain s1)); [done|done|]. intros _ p Hinv2.
  by rewrite (plain_kept _ _ (quiet_kept _ _ (quiet_polled s1 p))).
Qed.

Lemma on_event_ok s index revents r accepted c : inv t (plain s) s → owned s → entry_at s index = Some c →
  (t = true → tame s (ev_poll index revents r accepted) = true) → wp (known t) (on_event c revents r accepted) (λ _ s', inv t (plain s') s') s.
Proof.
  intros Hinv Hown He Ht. pose proof (Hown index c He) as Hc. destruct c as [i|i| |k]; cbn [on_event].
  - by apply on_output_event_ok.
  - apply on_ready_event_ok; [done| |done]. intros Et d Hd Hf ->. specialize (Ht Et). cbn [tame] in Ht. rewrite He, Hd, Hf in Ht. by apply bool_decide_eq_true in Ht.
  - unfold server_on_event. wp_steps. eapply (wp_mono _ _ (λ _ s', inv t (plain s') s')); [case_match; [by apply connection_new_ok|by wp_steps]|]. intros _ s1 H1. by wp_steps.
  - by wp_steps.
Qed.

(** Every event keeps the invariant. *)
Lemma handle_ok ev s : inv t (plain s) s → owned s → (t = true → tame s ev = true) → wp (known t) (handle env ev) (λ _ s', inv t (plain s') s') s.
Proof.
  intros Hinv Hown Ht. destruct ev as [signum| | | | | |p code|l|index revents r accepted|index message|index]; cbn [handle].
  - unfold signal_handler. repeat case_match; try (apply wp_modify; by apply inv_signals). by wp_steps.
  - by apply exit_signal_ok.
  - apply on_first_ok; [done|]. intros. by apply wait_ok.
  - apply on_first_ok; [done|]. intros. by apply start_daemon_ok.
  - apply on_first_ok; [done|]. intros. by apply finish_ok.
  - wp_steps. apply kill_late_ok; [done|]. intros i Hi. by destruct (first_valid _ _ _ _ (inv_lists _ _ _ Hinv) Hi).
  - case_match eqn:Ep; [|by wp_steps]. apply Z.ltb_lt in Ep. wp_steps. unfold daemon_find_by_pid.
    destruct (find_index (λ d, pid d =? p) (daemons s)) as [i|] eqn:E; (eapply wp_run; [by rewrite E|]); [|by wp_steps].
    apply find_index_found in E as (d & Hd & Hp%Z.eqb_eq). apply (on_exit_ok s i d); [done|done|lia].
  - apply (wp_polled _ (plain s)); [done|done|]. intros _ p Hinv'. by rewrite (plain_kept _ _ (quiet_kept _ _ (quiet_polled s p))).
  - wp_steps. destruct (entry_at s index) as [c|] eqn:He; [|by wp_steps]. wp_steps. eapply wp_mono; [by apply (on_event_ok s index)|].
    intros b s' Hinv'. by wp_steps.
  - wp_steps. destruct (entry_at s index) as [c|] eqn:He; [|by wp_steps]. pose proof (Hown index c He) as Hc. destruct c as [| | |k]; try by wp_steps.
    by apply (on_line_ok index).
  - wp_steps. destruct (entry_at s index) as [c|] eqn:He; [|by wp_steps]. destruct c as [| | |k]; try by wp_steps. by apply connection_free_ok.
Qed.

End Steps.

(** ** Boot *)

Lemma empty_represents : represents (lists empty_system) (λ i, (i < 0)%nat) (λ _, []).
Proof.
  split; [|intros i; split; [lia|by intros ?%not_elem_of_nil]]. intros st. split; try done; [apply NoDup_nil_2|by intros [|? ?]|].
  by intros i ?%not_elem_of_nil.
Qed.

Lemma empty_graph : graph_ok 0 (graph empty_system) (plain empty_system).
Proof. split; cbn; try done; try (by intros ? ? ?%not_elem_of_nil). intros i. split; apply NoDup_nil_2. Qed.

Lemma first_daemon_ok t : wp (known t) (daemon_create_unconfigured (lit "default"))
  (λ i s, i = 0%nat ∧ inv t (plain s) s ∧ state (lists s) 0%nat = DAEMON_STATE_TERMINATED ∧ daemons s = [zero_daemon (lit "default")]) empty_system.
Proof.
  unfold daemon_create_unconfigured, add_daemon. wp_steps. cbn zeta. wp_steps. apply wp_modify. wp_steps.
  match goal with |- wp _ _ _ ?x => set (s1 := x) end.
  pose proof (add_represents _ _ _ _ empty_represents eq_refl) as H1.
  destruct (insert_represents s1 (λ _, []) 0 (λ i, (i < 0)%nat) H1) as (l2 & E2 & H2 & Hst2); [lia|done..|].
  eapply wp_run; [exact E2|]. wp_steps. assert (S2 : ∀ k, state l2 k = DAEMON_STATE_TERMINATED).
  { intros k. rewrite Hst2. cbn. unfold update. by case_decide. }
  split_and!; [done| |by rewrite S2|done]. split; cbn [daemons lists graph set_lists].
  - eexists. destruct H2 as [Hl Hon]. split; [exact Hl|]. intros k. rewrite <-Hon. cbn. lia.
  - apply (graph_add _ _ (plain empty_system)); [apply empty_graph|..]; intros k; cbn; unfold update; by case_decide.
  - intros k d _ _ _. cbn. unfold update. by case_decide.
  - intros k d Ht Hd Hk. unfold sound_in. cbn. rewrite S2. destruct k as [|k]; [|done]. injection Hd as <-. by split.
  - intros k Ht Hk Hu H0. cbn in Hk. lia.
  - intros k Ht Hk. by rewrite S2.
  - intros k Hk e. cbn. unfold update. by case_decide.
  - by eexists.
Qed.

Lemma boot_ok t env c : config_name c = lit "default" → wp (known t) (boot env c) (λ _ s, inv t (plain s) s) empty_system.
Proof.
  intros Hn. unfold boot, daemon_create. wp_steps. rewrite Hn. eapply wp_mono; [apply (first_daemon_ok t)|].
  intros i s (-> & Hinv & Hst & Hds). wp_steps.
  eapply wp_mono; [apply (configure_ok t env s 0 c (zero_daemon (lit "default"))); [done|by rewrite Hds|done|done]|].
  intros _ s1 (Hinv1 & G1 & d' & Hd' & _). wp_steps. pose proof (lookup_lt_Some _ _ _ Hd') as Hi.
  unfold server_start. wp_steps. apply (wp_polled_still t _ (plain s1) s1); [apply reserve_poll_only|by split|]. intros _ s2 H2.
  apply (wp_polled_still t _ (plain s1) s1); [apply register_poll_only|done|]. intros _ s3 [Hinv3 Hq].
  apply (schedule_ok t (plain s1)); [done|by rewrite (kept_length _ _ (quiet_kept _ _ Hq))| |done|].
  - rewrite (quiet_lists _ _ Hq), (grown_state _ _ G1); [done|]. rewrite Hds. cbn. lia.
  - intros l' Hinv4 _. rewrite (plain_kept s1); [done|]. etransitivity; [apply (quiet_kept _ _ Hq)|apply kept_lists].
Qed.

End DaemonSteps.
