(* ===== verification/DaemonPoll.v ===== *)
(** * The poll table of init

    The arrays [pfds] and [communications] of [init/init.c]: registering never fails an
    assertion, the entry of a connection is where the connection says, and in
    executions where no daemon is set back wrongly the entries are exactly the open
    descriptors, so that unregistering fails no assertion either.  Every operation that is not
    about descriptors leaves the table and the descriptors alone. *)

From S2P Require Import Prelude Timespec Daemon DaemonLists DaemonInv DaemonOps DaemonConf DaemonSteps.
From stdpp Require Import base decidable list numbers gmap strings.
From Stdlib Require Import ZArith Lia.

#[local] Open Scope c_scope.
#[local] Open Scope Z_scope.

Module DaemonPoll.
Import Daemon DaemonLists DaemonInv DaemonOps DaemonConf DaemonSteps.

Abbreviation n_of s := (length (daemons s)).

(** ** What leaves the table and the descriptors alone *)

(** The process of a daemon and whether its descriptors are open. *)
Definition fds_of (s : system) (i : nat) : Z * bool * bool :=
  match daemons s !! i with Some d => (pid d, readyfd d, outputfd d) | None => (0, false, false) end.

Record framed (s s' : system) : Prop := {
  framed_polled : polled s' = polled s;
  framed_fds i : fds_of s' i = fds_of s i;
  framed_length : (n_of s <= n_of s')%nat;
}.

#[global] Instance framed_preorder : PreOrder framed.
Proof.
  split; [done|]. intros s1 s2 s3 [P1 F1 L1] [P2 F2 L2]. split; [congruence| |lia]. intros i. by rewrite F2.
Qed.

Definition table_cause (w : cause) : bool := bool_decide (w = assert_register ∨ w = assert_unregister).

Definition frame {A} (m : I A) : Prop := ∀ s,
  match m s with Done _ s' => framed s s' | Aborted w => table_cause w = false end.

Lemma frame_bind {A B} (m : I A) (f : A → I B) : frame m → (∀ a, frame (f a)) → frame (m ≫= f).
Proof.
  intros Hm Hf s. specialize (Hm s). unfold mbind, I_bind. destruct (m s) as [a s1|w]; [|done]. specialize (Hf a s1).
  destruct (f a s1) as [b s2|w]; [by etransitivity|done].
Qed.
Lemma frame_ret {A} (a : A) : frame (mret a).
Proof. by intros s. Qed.
Lemma frame_get : frame get_system.
Proof. by intros s. Qed.
Lemma frame_state i : frame (state_of i).
Proof. by intros s. Qed.
Lemma frame_skip : frame skip.
Proof. by intros s. Qed.
Lemma frame_assert b w : table_cause w = false → frame (assert b w).
Proof. intros Hw s. unfold assert. by destruct b. Qed.
Lemma frame_abort {A} w : table_cause w = false → frame (λ _, Aborted w : result A).
Proof. by intros Hw s. Qed.
Lemma frame_modify f : (∀ s, framed s (f s)) → frame (modify f).
Proof. intros Hf s. apply Hf. Qed.
Lemma frame_lists f : frame (modify (λ s, set_lists (f s) s)).
Proof. by apply frame_modify. Qed.
Lemma frame_lists_const l : frame (modify (set_lists l)).
Proof. by apply frame_modify. Qed.
Lemma frame_caught x : frame (modify (set_caught x)).
Proof. by apply frame_modify. Qed.
Lemma frame_caught_fun f : frame (modify (λ s, set_caught (f s) s)).
Proof. by apply frame_modify. Qed.
Lemma frame_default x : frame (modify (set_default_exit_code x)).
Proof. by apply frame_modify. Qed.
Lemma frame_graph f : frame (modify_graph f).
Proof. by apply frame_modify. Qed.
Lemma frame_daemon i : frame (the_daemon i).
Proof. intros s. unfold the_daemon. by destruct (daemons s !! i). Qed.
Lemma frame_dependency e : frame (the_dependency e).
Proof. intros s. unfold the_dependency. by destruct (edges (graph s) !! e). Qed.

(** Changes of a daemon that are not about its process and descriptors. *)
Definition silent (f : daemon → daemon) : Prop := ∀ d, pid (f d) = pid d ∧ readyfd (f d) = readyfd d ∧ outputfd (f d) = outputfd d.

Lemma put_fds s i f d j : daemons s !! i = Some d →
  fds_of (set_daemons (<[i := f d]> (daemons s)) s) j =
    if decide (j = i) then (pid (f d), readyfd (f d), outputfd (f d)) else fds_of s j.
Proof.
  intros Hd. unfold fds_of. cbn. case_decide as E; [subst j|by rewrite list_lookup_insert_ne].
  by rewrite list_lookup_insert_eq by (by eapply lookup_lt_Some).
Qed.

Lemma frame_put i f : silent f → frame (set_daemon i f).
Proof.
  intros Hf s. unfold set_daemon, mbind, I_bind, the_daemon. destruct (daemons s !! i) as [d|] eqn:Hd; [|done]. cbn. destruct (Hf d) as (E1 & E2 & E3).
  split; [done| |by cbn; rewrite length_insert]. intros j. rewrite put_fds by done. case_decide as E; [subst j|done]. unfold fds_of. by rewrite Hd, E1, E2, E3.
Qed.

Lemma frame_add name_ : frame (add_daemon name_).
Proof.
  intros s. unfold add_daemon. cbn. split; [done| |cbn; rewrite length_app; cbn; lia]. intros i. unfold fds_of. cbn.
  destruct (decide (i < n_of s)%nat) as [Hi|Hi].
  - by rewrite lookup_app_l.
  - rewrite lookup_app_r, (lookup_ge_None_2 (daemons s)) by lia. by destruct (i - n_of s)%nat as [|[|k]].
Qed.

Create HintDb frame discriminated.
#[export] Hint Resolve frame_ret frame_get frame_state frame_skip frame_lists frame_lists_const frame_graph frame_daemon frame_dependency frame_add
  frame_caught frame_caught_fun frame_default : frame.
#[export] Hint Extern 1 (frame (assert _ _)) => apply frame_assert; reflexivity : frame.
#[export] Hint Extern 1 (frame (λ _, Aborted _)) => apply frame_abort; reflexivity : frame.
#[export] Hint Extern 1 (frame (set_daemon _ _)) => apply frame_put; by intros ? : frame.
#[export] Hint Extern 2 (frame (_ ≫= _)) => apply frame_bind; [|intros] : frame.
#[export] Hint Extern 3 (frame (match _ with _ => _ end)) => case_match : frame.
#[export] Hint Extern 3 (frame (let _ := _ in _)) => cbv zeta : frame.

Lemma frame_each f l : (∀ e, frame (f e)) → frame (each f l).
Proof. intros Hf. induction l as [|e l IH]; cbn [each]; auto with frame. Qed.
#[export] Hint Extern 2 (frame (each _ _)) => apply frame_each; intros : frame.

(** *** The operations *)

Lemma frame_store_status e f : frame (store_status e f).
Proof. unfold store_status. auto 40 with frame. Qed.
#[export] Hint Resolve frame_store_status : frame.
Lemma frame_bump g f i k : frame (bump g f i k).
Proof. unfold bump. auto 40 with frame. Qed.
#[export] Hint Resolve frame_bump : frame.
Lemma frame_daemon_insert_state_list i : frame (daemon_insert_state_list i).
Proof. unfold daemon_insert_state_list. auto 40 with frame. Qed.
#[export] Hint Resolve frame_daemon_insert_state_list : frame.
Lemma frame_daemon_remove_state_list i : frame (daemon_remove_state_list i).
Proof. unfold daemon_remove_state_list. auto 40 with frame. Qed.
#[export] Hint Resolve frame_daemon_remove_state_list : frame.
Lemma frame_set_state i st : frame (set_state i st).
Proof. unfold set_state. auto 40 with frame. Qed.
#[export] Hint Resolve frame_set_state : frame.
Lemma frame_daemon_change_state_list i st : frame (daemon_change_state_list i st).
Proof. unfold daemon_change_state_list. auto 40 with frame. Qed.
#[export] Hint Resolve frame_daemon_change_state_list : frame.
Lemma frame_daemon_find_by_name nm : frame (daemon_find_by_name nm).
Proof. by intros s. Qed.
#[export] Hint Resolve frame_daemon_find_by_name : frame.
Lemma frame_daemon_find_by_pid p : frame (daemon_find_by_pid p).
Proof. by intros s. Qed.
#[export] Hint Resolve frame_daemon_find_by_pid : frame.
Lemma frame_daemon_create_unconfigured nm : frame (daemon_create_unconfigured nm).
Proof. unfold daemon_create_unconfigured. auto 40 with frame. Qed.
#[export] Hint Resolve frame_daemon_create_unconfigured : frame.
Lemma frame_daemon_find_or_create env nm : frame (daemon_find_or_create env nm).
Proof. unfold daemon_find_or_create. auto 40 with frame. Qed.
#[export] Hint Resolve frame_daemon_find_or_create : frame.
Lemma frame_daemon_find_dependency deps nm : frame (daemon_find_dependency deps nm).
Proof. induction deps as [|x deps IH]; cbn [daemon_find_dependency]; auto 30 with frame. Qed.
#[export] Hint Resolve frame_daemon_find_dependency : frame.
Lemma frame_daemon_add_dependency i j fl : frame (daemon_add_dependency i j fl).
Proof. unfold daemon_add_dependency. auto 40 with frame. Qed.
#[export] Hint Resolve frame_daemon_add_dependency : frame.
Lemma frame_free_dependency e : frame (free_dependency e).
Proof. unfold free_dependency. auto 40 with frame. Qed.
#[export] Hint Resolve frame_free_dependency : frame.
Lemma frame_daemon_unconfigure i : frame (daemon_unconfigure i).
Proof. unfold daemon_unconfigure. auto 40 with frame. Qed.
#[export] Hint Resolve frame_daemon_unconfigure : frame.
Lemma frame_configure_dependencies i deps : frame (configure_dependencies i deps).
Proof. induction deps as [|x deps IH]; cbn [configure_dependencies]; auto 30 with frame. Qed.
#[export] Hint Resolve frame_configure_dependencies : frame.
Lemma frame_daemon_configure_sub i c nf : frame (daemon_configure_sub i c nf).
Proof. unfold daemon_configure_sub. auto 40 with frame. Qed.
#[export] Hint Resolve frame_daemon_configure_sub : frame.
Lemma frame_configure_interfaces i c ifs : frame (configure_interfaces i c ifs).
Proof. induction ifs as [|x ifs IH]; cbn [configure_interfaces]; auto 30 with frame. Qed.
#[export] Hint Resolve frame_configure_interfaces : frame.
Lemma frame_daemon_configure env i c : frame (daemon_configure env i c).
Proof. unfold daemon_configure. auto 40 with frame. Qed.
#[export] Hint Resolve frame_daemon_configure : frame.
Lemma frame_daemon_create env c : frame (daemon_create env c).
Proof. unfold daemon_create. auto 40 with frame. Qed.
#[export] Hint Resolve frame_daemon_create : frame.
Lemma frame_daemon_schedule i : frame (daemon_schedule i).
Proof. unfold daemon_schedule. auto 40 with frame. Qed.
#[export] Hint Resolve frame_daemon_schedule : frame.
Lemma frame_reset_bit e b g f : frame (reset_bit e b g f).
Proof. unfold reset_bit. auto 40 with frame. Qed.
#[export] Hint Resolve frame_reset_bit : frame.
Lemma frame_daemon_reset_dependency e : frame (daemon_reset_dependency e).
Proof. unfold daemon_reset_dependency. auto 40 with frame. Qed.
#[export] Hint Resolve frame_daemon_reset_dependency : frame.
Lemma frame_daemon_on_finished i : frame (daemon_on_finished i).
Proof. unfold daemon_on_finished. auto 40 with frame. Qed.
#[export] Hint Resolve frame_daemon_on_finished : frame.
Lemma frame_send_signal_to p x sig : frame (send_signal_to p x sig).
Proof. unfold send_signal_to. by apply frame_modify. Qed.
#[export] Hint Resolve frame_send_signal_to : frame.
Lemma frame_daemon_terminate env i : frame (daemon_terminate env i).
Proof. unfold daemon_terminate. auto 40 with frame. Qed.
#[export] Hint Resolve frame_daemon_terminate : frame.
Lemma frame_daemon_reload i : frame (daemon_reload i).
Proof. unfold daemon_reload. auto 40 with frame. Qed.
#[export] Hint Resolve frame_daemon_reload : frame.
Lemma frame_daemon_signal i sig : frame (daemon_signal i sig).
Proof. unfold daemon_signal. auto 40 with frame. Qed.
#[export] Hint Resolve frame_daemon_signal : frame.
Lemma frame_daemon_on_not_referenced env i : frame (daemon_on_not_referenced env i).
Proof. unfold daemon_on_not_referenced. auto 40 with frame. Qed.
#[export] Hint Resolve frame_daemon_on_not_referenced : frame.
Lemma frame_daemon_dereference env i : frame (daemon_dereference env i).
Proof. unfold daemon_dereference. auto 40 with frame. Qed.
#[export] Hint Resolve frame_daemon_dereference : frame.
Lemma frame_daemon_dereference_dependency env e : frame (daemon_dereference_dependency env e).
Proof. unfold daemon_dereference_dependency. auto 40 with frame. Qed.
#[export] Hint Resolve frame_daemon_dereference_dependency : frame.
Lemma frame_daemon_dereference_dependencies env i : frame (daemon_dereference_dependencies env i).
Proof. unfold daemon_dereference_dependencies. auto 40 with frame. Qed.
#[export] Hint Resolve frame_daemon_dereference_dependencies : frame.
Lemma frame_daemon_consider_satisfied i : frame (daemon_consider_satisfied i).
Proof. unfold daemon_consider_satisfied. auto 40 with frame. Qed.
#[export] Hint Resolve frame_daemon_consider_satisfied : frame.
Lemma frame_set_bit e b g f : frame (set_bit e b g f).
Proof. unfold set_bit. auto 40 with frame. Qed.
#[export] Hint Resolve frame_set_bit : frame.
Lemma frame_daemon_on_dependency_ready e : frame (daemon_on_dependency_ready e).
Proof. unfold daemon_on_dependency_ready. auto 40 with frame. Qed.
#[export] Hint Resolve frame_daemon_on_dependency_ready : frame.
Lemma frame_daemon_mark_ready i : frame (daemon_mark_ready i).
Proof. unfold daemon_mark_ready. auto 40 with frame. Qed.
#[export] Hint Resolve frame_daemon_mark_ready : frame.
Lemma frame_daemon_on_ready i : frame (daemon_on_ready i).
Proof. unfold daemon_on_ready. auto 40 with frame. Qed.
#[export] Hint Resolve frame_daemon_on_ready : frame.
Lemma frame_daemon_on_dependency_finished e : frame (daemon_on_dependency_finished e).
Proof. unfold daemon_on_dependency_finished. auto 40 with frame. Qed.
#[export] Hint Resolve frame_daemon_on_dependency_finished : frame.
Lemma frame_daemon_reset i st : frame (daemon_reset i st).
Proof. unfold daemon_reset. auto 40 with frame. Qed.
#[export] Hint Resolve frame_daemon_reset : frame.
Lemma frame_daemon_request_restart env i : frame (daemon_request_restart env i).
Proof. unfold daemon_request_restart. auto 40 with frame. Qed.
#[export] Hint Resolve frame_daemon_request_restart : frame.
Lemma frame_daemon_on_startup_error env i : frame (daemon_on_startup_error env i).
Proof. unfold daemon_on_startup_error. auto 40 with frame. Qed.
#[export] Hint Resolve frame_daemon_on_startup_error : frame.
Lemma frame_daemon_load_and_configure env i : frame (daemon_load_and_configure env i).
Proof. unfold daemon_load_and_configure. auto 40 with frame. Qed.
#[export] Hint Resolve frame_daemon_load_and_configure : frame.
Lemma frame_daemon_reconfigure env i : frame (daemon_reconfigure env i).
Proof. unfold daemon_reconfigure. auto 40 with frame. Qed.
#[export] Hint Resolve frame_daemon_reconfigure : frame.
Lemma frame_daemon_request_reconfigure env i : frame (daemon_request_reconfigure env i).
Proof. unfold daemon_request_reconfigure. auto 40 with frame. Qed.
#[export] Hint Resolve frame_daemon_request_reconfigure : frame.
Lemma frame_daemon_kill i : frame (daemon_kill i).
Proof. unfold daemon_kill. auto 40 with frame. Qed.
#[export] Hint Resolve frame_daemon_kill : frame.
Lemma frame_daemon_on_referenced env i : frame (daemon_on_referenced env i).
Proof. unfold daemon_on_referenced. auto 40 with frame. Qed.
#[export] Hint Resolve frame_daemon_on_referenced : frame.
Lemma frame_daemon_reference env i : frame (daemon_reference env i).
Proof. unfold daemon_reference. auto 40 with frame. Qed.
#[export] Hint Resolve frame_daemon_reference : frame.
Lemma frame_daemon_reference_dependency env e : frame (daemon_reference_dependency env e).
Proof. unfold daemon_reference_dependency. auto 40 with frame. Qed.
#[export] Hint Resolve frame_daemon_reference_dependency : frame.
Lemma frame_daemon_wait_dependency env e : frame (daemon_wait_dependency env e).
Proof. unfold daemon_wait_dependency. auto 40 with frame. Qed.
#[export] Hint Resolve frame_daemon_wait_dependency : frame.
Lemma frame_daemon_depend env i j fl : frame (daemon_depend env i j fl).
Proof. unfold daemon_depend. auto 40 with frame. Qed.
#[export] Hint Resolve frame_daemon_depend : frame.
Lemma frame_find_target deps j : frame (find_target deps j).
Proof. induction deps as [|x deps IH]; cbn [find_target]; auto 30 with frame. Qed.
#[export] Hint Resolve frame_find_target : frame.
Lemma frame_daemon_undepend env i j : frame (daemon_undepend env i j).
Proof. unfold daemon_undepend. auto 40 with frame. Qed.
#[export] Hint Resolve frame_daemon_undepend : frame.
Lemma frame_daemon_finish env i : frame (daemon_finish env i).
Proof. unfold daemon_finish. auto 40 with frame. Qed.
#[export] Hint Resolve frame_daemon_finish : frame.
Lemma frame_wait_each env i deps : frame (wait_each env i deps).
Proof. induction deps as [|x deps IH]; cbn [wait_each]; auto 30 with frame. Qed.
#[export] Hint Resolve frame_wait_each : frame.
Lemma frame_daemon_wait env i : frame (daemon_wait env i).
Proof. unfold daemon_wait. auto 40 with frame. Qed.
#[export] Hint Resolve frame_daemon_wait : frame.
Lemma frame_start_virtual i : frame (start_virtual i).
Proof. unfold start_virtual. auto 40 with frame. Qed.
#[export] Hint Resolve frame_start_virtual : frame.
Lemma frame_daemon_process_ready i r : frame (daemon_process_ready i r).
Proof. unfold daemon_process_ready. auto 40 with frame. Qed.
#[export] Hint Resolve frame_daemon_process_ready : frame.
Lemma frame_daemon_process_output i r : frame (daemon_process_output i r).
Proof. unfold daemon_process_output. auto 40 with frame. Qed.
#[export] Hint Resolve frame_daemon_process_output : frame.
Lemma frame_request_require env args : frame (request_require env args).
Proof. unfold request_require. auto 40 with frame. Qed.
#[export] Hint Resolve frame_request_require : frame.
Lemma frame_request_unrequire env args : frame (request_unrequire env args).
Proof. unfold request_unrequire. auto 40 with frame. Qed.
#[export] Hint Resolve frame_request_unrequire : frame.
Lemma frame_request_signal env args : frame (request_signal env args).
Proof. unfold request_signal. auto 40 with frame. Qed.
#[export] Hint Resolve frame_request_signal : frame.
Lemma frame_reply_status env i : frame (reply_status env i).
Proof. unfold reply_status. auto 40 with frame. Qed.
#[export] Hint Resolve frame_reply_status : frame.
Lemma frame_reply_dependency e : frame (reply_dependency e).
Proof. unfold reply_dependency. auto 40 with frame. Qed.
#[export] Hint Resolve frame_reply_dependency : frame.
Lemma frame_request_status env args : frame (request_status env args).
Proof. unfold request_status. auto 40 with frame. Qed.
#[export] Hint Resolve frame_request_status : frame.
Lemma frame_request_list env conn args : frame (request_list env conn args).
Proof. unfold request_list. auto 40 with frame. Qed.
#[export] Hint Resolve frame_request_list : frame.
Lemma frame_request_requirements conn command args : frame (request_requirements conn command args).
Proof. unfold request_requirements. auto 40 with frame. Qed.
#[export] Hint Resolve frame_request_requirements : frame.
Lemma frame_request_poweroff command args : frame (request_poweroff command args).
Proof. unfold request_poweroff. auto 40 with frame. Qed.
#[export] Hint Resolve frame_request_poweroff : frame.
Lemma frame_signal_handler signum : frame (signal_handler signum).
Proof. unfold signal_handler. auto 40 with frame. Qed.
#[export] Hint Resolve frame_signal_handler : frame.
Lemma frame_exit_signal : frame exit_signal.
Proof. unfold exit_signal. auto 40 with frame. Qed.
#[export] Hint Resolve frame_exit_signal : frame.

Lemma frame_request_daemon find f args : (∀ nm, frame (find nm)) → (∀ i, frame (f i)) → frame (request_daemon find f args).
Proof. intros Hfind Hf. unfold request_daemon. auto 30 with frame. Qed.
#[export] Hint Extern 2 (frame (request_daemon _ _ _)) => apply frame_request_daemon; intros : frame.

Lemma frame_connection_on_message env conn message : frame (connection_on_message env conn message).
Proof.
  unfold connection_on_message, request_reconfigure, request_reload, request_restart, request_terminate, request_kill. cbv zeta.
  destruct message as [|command args]; [auto with frame|]. repeat (case_bool_decide; [auto 10 with frame|]). auto with frame.
Qed.

Lemma frame_kill_late fuel env cursor : frame (kill_late fuel env cursor).
Proof.
  revert cursor. induction fuel as [|fuel IH]; intros cursor; cbn [kill_late]; [auto with frame|].
  destruct cursor; auto 20 with frame.
Qed.
#[export] Hint Resolve frame_connection_on_message frame_kill_late : frame.

(** ** The table *)

(** Where an index is kept exactly: for the server and for connections, and with [t] for all. *)
Definition strict (t : bool) (c : communication) : bool :=
  t || match c with COMMUNICATION_TYPE_SERVER | COMMUNICATION_TYPE_CONNECTION _ => true | _ => false end.

Definition comm_at (p : poll_table) (index : nat) : option communication := fst <$> entries p !! index.

(** The table when [live] tells which descriptors are open, and there are [n] daemons. *)
Record table_ok (t : bool) (n : nat) (live : communication → Prop) (p : poll_table) : Prop := {
  tk_pfds : Z.of_nat (pfds_used p) <= pfds_length p ∧ 2 <= pfds_length p;
  tk_communications : Z.of_nat (pfds_used p) <= communications_length p ∧ 2 <= communications_length p;
  tk_owner k i : comm_at p k = Some (COMMUNICATION_TYPE_OUTPUT i) ∨ comm_at p k = Some (COMMUNICATION_TYPE_READY i) → (i < n)%nat;
  tk_index k c : strict t c = true → comm_at p k = Some c → index_of p c = k ∧ live c;
  tk_live c : t = true → live c → comm_at p (index_of p c) = Some c;
}.

Lemma comm_at_lt p k c : comm_at p k = Some c → (k < pfds_used p)%nat.
Proof. unfold comm_at. intros (x & Hx & _)%fmap_Some. by eapply lookup_lt_Some. Qed.

Lemma table_live t n live live' p : (∀ c, strict t c = true → live' c ↔ live c) → table_ok t n live p → table_ok t n live' p.
Proof.
  intros E [H1 H2 H3 H4 H5]. split; try done.
  - intros k c Hc Hk. rewrite E by done. by apply H4.
  - intros c Ht Hc. apply H5; [done|]. apply E; [by rewrite Ht|done].
Qed.

Lemma table_length t n n' live p : (n <= n')%nat → table_ok t n live p → table_ok t n' live p.
Proof. intros Hn [H1 H2 H3 H4 H5]. split; try done. intros k i Hk. pose proof (H3 k i Hk). lia. Qed.

(** The connections are not part of it. *)
Lemma table_connections t n live p l k :
  table_ok t n live p → table_ok t n live (PollTable (entries p) (pfds_length p) (communications_length p) (index_of p) l k).
Proof. intros [H1 H2 H3 H4 H5]. by split. Qed.

(** Nor is what is reported for the entries. *)
Lemma table_revents t n live p l : table_ok t n live p → table_ok t n live (set_revents l p).
Proof.
  intros [H1 H2 H3 H4 H5]. assert (E : ∀ k, comm_at (set_revents l p) k = comm_at p k).
  { intros k. unfold comm_at. cbn. rewrite list_lookup_imap. by destruct (entries p !! k). }
  assert (Hu : pfds_used (set_revents l p) = pfds_used p) by (unfold pfds_used; cbn; apply length_imap).
  split; rewrite ?Hu; try done; intros *; rewrite E; [apply H3|apply H4|apply H5].
Qed.

(** Room is made for one or two more. *)
Definition reserved (required : Z) (p : poll_table) : poll_table :=
  let used := Z.of_nat (pfds_used p) in
  PollTable (entries p) (reserved_length (pfds_length p) used required)
    (reserved_length (communications_length p) used required) (index_of p) (connections p) (next_connection p).

Definition has_room (k : Z) (p : poll_table) : Prop :=
  Z.of_nat (pfds_used p) + k <= pfds_length p ∧ Z.of_nat (pfds_used p) + k <= communications_length p.

Lemma reserved_ok t n live p required : 1 <= required <= 2 → table_ok t n live p →
  table_ok t n live (reserved required p) ∧ has_room required (reserved required p).
Proof.
  intros Hr [H1 H2 H3 H4 H5].
  assert (Hlen : ∀ l, Z.of_nat (pfds_used p) <= l → 2 <= l →
    Z.of_nat (pfds_used p) + required <= reserved_length l (Z.of_nat (pfds_used p)) required ∧ 2 <= reserved_length l (Z.of_nat (pfds_used p)) required).
  { intros l Hl1 Hl2. unfold reserved_length. rewrite (proj2 (Z.eqb_neq l 0)) by lia. case_match eqn:E; [|apply Z.ltb_ge in E]; lia. }
  destruct H1 as [H1 H1'], H2 as [H2 H2']. destruct (Hlen _ H1 H1'), (Hlen _ H2 H2').
  assert (Hu : pfds_used (reserved required p) = pfds_used p) by done.
  split; split; rewrite ?Hu; try done; unfold reserved; cbn [pfds_length communications_length]; lia.
Qed.

(** An entry is added. *)
Definition register (c : communication) (p : poll_table) : poll_table :=
  PollTable (entries p ++ [(c, 0)]) (pfds_length p) (communications_length p) (update (index_of p) c (pfds_used p)) (connections p) (next_connection p).

Lemma comm_at_register c p k : comm_at (register c p) k =
  if decide (k < pfds_used p)%nat then comm_at p k else if decide (k = pfds_used p) then Some c else None.
Proof.
  unfold comm_at, pfds_used. cbn. case_decide as E; [by rewrite lookup_app_l|]. rewrite lookup_app_r by lia. case_decide as E'.
  - subst k. by rewrite Nat.sub_diag.
  - by destruct (k - length (entries p))%nat as [|[|m]] eqn:Em; [lia|..].
Qed.

Lemma register_table t n live p c : table_ok t n live p → has_room 1 p → (strict t c = true → ¬ live c) →
  (∀ i, c = COMMUNICATION_TYPE_OUTPUT i ∨ c = COMMUNICATION_TYPE_READY i → (i < n)%nat) →
  table_ok t n (λ x, live x ∨ x = c) (register c p) ∧ ∀ k, has_room (k + 1) p → has_room k (register c p).
Proof.
  intros [H1 H2 H3 H4 H5] [R1 R2] Hl Hn.
  assert (Hused : pfds_used (register c p) = S (pfds_used p)) by (unfold pfds_used; cbn; rewrite length_app; cbn; lia).
  split; [|intros k [? ?]; split; rewrite Hused; cbn; lia]. split; rewrite ?Hused; try (cbn; lia).
  - intros k i. rewrite comm_at_register. repeat case_decide; [apply H3|intros [[= ->]|[= ->]]; apply Hn; eauto|by intros [?|?]].
  - intros k x Hx. rewrite comm_at_register. repeat case_decide; [..|done].
    + intros Hk. destruct (H4 k x Hx Hk) as [E Hxl]. split; [|by left]. cbn. rewrite update_ne; [done|]. intros ->. by apply Hl in Hx.
    + intros [= <-]. split; [|by right]. cbn. rewrite update_eq. done.
  - intros x Ht Hx. rewrite comm_at_register. cbn. destruct (decide (x = c)) as [->|Hne].
    + rewrite update_eq. repeat case_decide; done || lia.
    + rewrite update_ne by done. destruct Hx as [Hx|?]; [|done]. pose proof (H5 x Ht Hx) as Hk. by rewrite decide_True by (by eapply comm_at_lt).
Qed.

(** The entry at an index is taken out. *)
Definition unregister (index : nat) (p : poll_table) : poll_table :=
  let last_index := (pfds_used p - 1)%nat in
  let '(last, revents) := nth last_index (entries p) (COMMUNICATION_TYPE_SERVER, 0) in
  PollTable
    (take last_index (if (index =? last_index)%nat then entries p else <[index := (last, revents)]> (entries p)))
    (pfds_length p) (communications_length p)
    (if (index =? last_index)%nat then index_of p else update (index_of p) last index)
    (connections p) (next_connection p).

(** The last entry is in its place. *)
Lemma unregister_spec index p : (index < pfds_used p)%nat →
  ∃ last, comm_at p (pfds_used p - 1) = Some last ∧ pfds_used (unregister index p) = (pfds_used p - 1)%nat ∧
    (∀ k, comm_at (unregister index p) k =
      if decide (k < pfds_used p - 1)%nat then if decide (k = index) then Some last else comm_at p k else None) ∧
    index_of (unregister index p) = (if decide (index = pfds_used p - 1)%nat then index_of p else update (index_of p) last index) ∧
    connections (unregister index p) = connections p ∧ next_connection (unregister index p) = next_connection p ∧
    pfds_length (unregister index p) = pfds_length p ∧ communications_length (unregister index p) = communications_length p.
Proof.
  intros Hi. unfold unregister. unfold pfds_used in *.
  destruct (lookup_lt_is_Some_2 (entries p) (length (entries p) - 1)) as [[last rv] Hlast]; [lia|].
  rewrite (nth_lookup_Some _ _ _ _ Hlast). exists last. split; [unfold comm_at; by rewrite Hlast|]. cbn [entries index_of connections next_connection pfds_length communications_length].
  destruct (Nat.eqb_spec index (length (entries p) - 1)) as [E|E].
  - rewrite (decide_True (P := index = _)) by done. split_and!; try done; [rewrite length_take; lia|].
    intros k. unfold comm_at. cbn. case_decide as E1; [|by rewrite lookup_take_ge by lia].
    rewrite decide_False by lia. by rewrite lookup_take_lt.
  - rewrite (decide_False (P := index = _)) by done. split_and!; try done; [rewrite length_take, length_insert; lia|].
    intros k. unfold comm_at. cbn. case_decide as E1; [|by rewrite lookup_take_ge by lia]. rewrite lookup_take_lt by done.
    case_decide as E2; [subst k; by rewrite list_lookup_insert_eq by lia|by rewrite list_lookup_insert_ne].
Qed.

(** Whatever entry is taken out, the server and the connections stay where they say they are. *)
Lemma unregister_any n live p index : (index < pfds_used p)%nat → table_ok false n live p → table_ok false n live (unregister index p).
Proof.
  intros Hi [H1 H2 H3 H4 _]. destruct (unregister_spec index p Hi) as (last & Hlast & Hused & Hat & Hidx & _ & _ & L1 & L2).
  split; rewrite ?Hused, ?L1, ?L2; try lia.
  - intros k i. rewrite Hat. destruct (decide (k < pfds_used p - 1)%nat); [|by intros [?|?]]. destruct (decide (k = index)); [|apply H3].
    intros Hk. apply (H3 (pfds_used p - 1)%nat i). by rewrite Hlast.
  - intros k c Hc. rewrite Hat, Hidx. destruct (decide (k < pfds_used p - 1)%nat) as [Hlt|]; [|done].
    destruct (decide (k = index)) as [->|Hki].
    + intros [= <-]. destruct (H4 _ _ Hc Hlast) as [_ ?]. rewrite decide_False by lia. by rewrite update_eq.
    + intros Hk. destruct (H4 _ _ Hc Hk) as [E ?]. split; [|done]. case_decide; [done|]. rewrite update_ne; [done|]. intros ->.
      destruct (H4 _ _ Hc Hlast). lia.
Qed.

(** The entry of a descriptor that is closed is taken out. *)
Lemma unregister_closed t n live p c : strict t c = true → comm_at p (index_of p c) = Some c → table_ok t n live p →
  table_ok t n (λ x, live x ∧ x ≠ c) (unregister (index_of p c) p).
Proof.
  intros Hst Hc [H1 H2 H3 H4 H5]. pose proof (comm_at_lt _ _ _ Hc) as Hi. set (index := index_of p c) in *.
  destruct (unregister_spec index p Hi) as (last & Hlast & Hused & Hat & Hidx & _ & _ & L1 & L2).
  split; rewrite ?Hused, ?L1, ?L2; try lia.
  - intros k i. rewrite Hat. destruct (decide (k < pfds_used p - 1)%nat); [|by intros [?|?]]. destruct (decide (k = index)); [|apply H3].
    intros Hk. apply (H3 (pfds_used p - 1)%nat i). by rewrite Hlast.
  - intros k x Hx. rewrite Hat, Hidx. destruct (decide (k < pfds_used p - 1)%nat) as [Hlt|]; [|done].
    destruct (decide (k = index)) as [->|Hki].
    + intros [= <-]. destruct (H4 _ _ Hx Hlast) as [E Hl]. rewrite decide_False by lia. rewrite update_eq. split_and!; [done|done|].
      intros ->. fold index in E. lia.
    + intros Hk. destruct (H4 _ _ Hx Hk) as [E Hl]. split; [|split; [done|by intros ->]]. case_decide; [done|].
      rewrite update_ne; [done|]. intros ->. destruct (H4 _ _ Hx Hlast). lia.
  - intros x Ht [Hx Hne]. pose proof (H5 x Ht Hx) as Hk. pose proof (comm_at_lt _ _ _ Hk) as Hlt. rewrite Hidx, Hat.
    assert (Hxi : index_of p x ≠ index) by (intros E; rewrite E in Hk; congruence).
    destruct (decide (index = pfds_used p - 1)%nat) as [E|E].
    + rewrite decide_True by lia. by rewrite decide_False by done.
    + destruct (decide (x = last)) as [->|Hl].
      * rewrite update_eq, decide_True by lia. by rewrite decide_True.
      * rewrite update_ne by done. assert (index_of p x ≠ (pfds_used p - 1)%nat) by (intros E'; rewrite E' in Hk; congruence).
        rewrite decide_True by lia. by rewrite decide_False by done.
Qed.

(** ** The table of a state *)

Definition live (s : system) (c : communication) : Prop :=
  match c with
  | COMMUNICATION_TYPE_OUTPUT i => (fds_of s i).2 = true
  | COMMUNICATION_TYPE_READY i => (fds_of s i).1.2 = true
  | COMMUNICATION_TYPE_SERVER => True
  | COMMUNICATION_TYPE_CONNECTION k => is_Some (connections (polled s) !! k)
  end.

Record polled_ok (t : bool) (s : system) : Prop := {
  po_table : table_ok t (n_of s) (live s) (polled s);
  po_next k : is_Some (connections (polled s) !! k) → (k < next_connection (polled s))%nat;
}.

(** With [t] a descriptor is open only while there is a process. *)
Definition pids_ok (t : bool) (s : system) : Prop :=
  ∀ i, t = true → (fds_of s i).1.2 = true ∨ (fds_of s i).2 = true → 0 < (fds_of s i).1.1.

(** What may end [init] here. *)
Definition table_end (t : bool) (w : cause) : Prop := w ≠ assert_register ∧ (t = true → w ≠ assert_unregister).

Lemma not_table t w : table_cause w = false → table_end t w.
Proof. intros H%bool_decide_eq_false. split; [by intros ->; apply H; left|by intros _ ->; apply H; right]. Qed.

Lemma wp_frame {A} t (m : I A) s (Q : A → system → Prop) : frame m → (∀ a s', framed s s' → Q a s') → wp (table_end t) m Q s.
Proof. intros Hm HQ. specialize (Hm s). unfold wp. destruct (m s) as [a s'|w]; [by apply HQ|by apply not_table]. Qed.

Lemma polled_framed t s s' : framed s s' → polled_ok t s → polled_ok t s'.
Proof.
  intros [P F L] [Ht Hn]. split; rewrite P; [|done]. apply (table_length t (n_of s)); [done|]. apply (table_live t _ (live s)); [|done].
  intros [i|i| |k] _; cbn; by rewrite ?F, ?P.
Qed.
Lemma pids_framed t s s' : framed s s' → pids_ok t s → pids_ok t s'.
Proof. intros [P F L] H i. rewrite F. apply H. Qed.

Lemma polled_owned t s : polled_ok t s → owned s.
Proof.
  intros [[_ _ Ho Hi _] _] k [i|i| |c] He; cbn; [by apply (Ho k); auto..|done|]. apply (Hi k (COMMUNICATION_TYPE_CONNECTION c)); [|done].
  unfold strict. by rewrite orb_true_r.
Qed.

Lemma wp_register E c s (Q : () → system → Prop) : has_room 1 (polled s) → Q () (set_polled (register c (polled s)) s) →
  wp E (communication_register c) Q s.
Proof.
  intros [R1 R2] HQ. unfold communication_register. wp_steps. cbn zeta. wp_steps.
  do 2 (apply wp_assert; [intros H%Z.ltb_ge; lia|intros _]; wp_steps). by apply wp_modify.
Qed.

Lemma wp_unregister t n l E index s (Q : () → system → Prop) : table_ok t n l (polled s) →
  ((pfds_used (polled s) <= index)%nat → E assert_unregister) →
  ((index < pfds_used (polled s))%nat → Q () (set_polled (unregister index (polled s)) s)) → wp E (communication_unregister index) Q s.
Proof.
  intros [[H1 _] [H2 _] _ _ _] HE HQ. unfold communication_unregister. wp_steps. cbn zeta. wp_steps.
  do 2 (apply wp_assert; [intros H%Z.leb_gt; lia|intros _]; wp_steps).
  apply wp_assert; [intros H%Z.ltb_ge; apply HE; lia|intros Hi%Z.ltb_lt]. wp_steps.
  apply wp_assert; [intros H%Z.ltb_ge; lia|intros _]. assert (Hlt : (index < pfds_used (polled s))%nat) by lia. specialize (HQ Hlt).
  unfold unregister in HQ. destruct (nth _ _ _). by apply wp_modify.
Qed.

(** *** Descriptors of daemons *)

(** The descriptor of a daemon that a communication is for, and a change of it. *)
Definition fd_of (ready : bool) (i : nat) : communication := if ready then COMMUNICATION_TYPE_READY i else COMMUNICATION_TYPE_OUTPUT i.
Definition set_fd (ready : bool) (x : bool) : daemon → daemon := if ready then set_readyfd x else set_outputfd x.
Definition with_fd (ready : bool) (x : bool) (f : Z * bool * bool) : Z * bool * bool := if ready then (f.1.1, x, f.2) else (f.1.1, f.1.2, x).

Definition fds_changed (i : nat) (g : Z * bool * bool → Z * bool * bool) (s s' : system) : Prop :=
  (∀ j, fds_of s' j = if decide (j = i) then g (fds_of s j) else fds_of s j) ∧ n_of s' = n_of s.

Lemma fds_changed_put s i f g : (∀ d, (pid (f d), readyfd (f d), outputfd (f d)) = g (pid d, readyfd d, outputfd d)) → (i < n_of s)%nat →
  ∃ d, daemons s !! i = Some d ∧ fds_changed i g s (set_daemons (<[i := f d]> (daemons s)) s).
Proof.
  intros Hf Hi. destruct (has_daemon s i Hi) as [d Hd]. exists d. split; [done|]. split; [|by cbn; rewrite length_insert].
  intros j. rewrite put_fds by done. case_decide as E; [|done]. subst j. rewrite Hf. unfold fds_of. by rewrite Hd.
Qed.

Lemma live_fd ready s i x s' c : fds_changed i (with_fd ready x) s s' → connections (polled s') = connections (polled s) → c ≠ fd_of ready i →
  live s' c ↔ live s c.
Proof.
  intros [Hf _] Hc Hne. destruct c as [j|j| |k]; cbn; rewrite ?Hc; try done; rewrite Hf; case_decide as E; try done; subst j; by destruct ready.
Qed.

Lemma live_self ready s i x s' : fds_changed i (with_fd ready x) s s' → live s' (fd_of ready i) ↔ x = true.
Proof. intros [Hf _]. destruct ready; cbn; rewrite Hf, decide_True by done; done. Qed.

Lemma strict_fd t ready i : strict t (fd_of ready i) = t.
Proof. unfold strict. destruct ready; cbn; by rewrite orb_false_r. Qed.

Lemma open_one t s i ready k : polled_ok t s → has_room (k + 1) (polled s) → 0 <= k → (i < n_of s)%nat → (t = true → ¬ live s (fd_of ready i)) →
  wp (table_end t) (set_daemon i (set_fd ready true);; communication_register (fd_of ready i))
    (λ _ s', polled_ok t s' ∧ has_room k (polled s') ∧ fds_changed i (with_fd ready true) s s') s.
Proof.
  intros [Ht Hn] Hr Hk Hi Hl. destruct (fds_changed_put s i (set_fd ready true) (with_fd ready true)) as (d & Hd & Hf); [by destruct ready|done|].
  apply wp_bind, (wp_set_daemon _ _ _ d); [done|]. set (s1 := set_daemons _ s) in *.
  apply wp_register; [destruct Hr; split; cbn; lia|].
  destruct (register_table t (n_of s) (live s) (polled s) (fd_of ready i) Ht) as [Ht' Hr']; [destruct Hr; split; lia|by rewrite strict_fd|..].
  { intros j Hj. by destruct ready, Hj as [[= ->]|[= ->]]. }
  set (s2 := set_polled _ s1). assert (Hf2 : fds_changed i (with_fd ready true) s s2) by done.
  split; [|split; [by apply Hr'|done]]. split; [|done]. apply (table_length t (n_of s)); [by rewrite (proj2 Hf2)|].
  apply (table_live t _ (λ x, live s x ∨ x = fd_of ready i)); [|done]. intros c _. destruct (decide (c = fd_of ready i)) as [->|Hne].
  - rewrite (live_self ready s i true s2) by done. split; auto.
  - rewrite (live_fd ready s i true s2 c) by done. split; [auto|by intros [?|?]].
Qed.

Lemma close_one t s i ready : polled_ok t s → (i < n_of s)%nat → (t = true → live s (fd_of ready i)) →
  wp (table_end t) (s ← get_system; communication_unregister (index_of (polled s) (fd_of ready i));; set_daemon i (set_fd ready false))
    (λ _ s', polled_ok t s' ∧ fds_changed i (with_fd ready false) s s') s.
Proof.
  intros [Ht Hn] Hi Hl. wp_steps. apply (wp_unregister t (n_of s) (live s)); [done|..].
  { intros Hge. split; [done|]. intros -> _. pose proof (comm_at_lt _ _ _ (tk_live _ _ _ _ Ht _ eq_refl (Hl eq_refl))). lia. }
  intros Hlt. set (s1 := set_polled _ s). destruct (fds_changed_put s1 i (set_fd ready false) (with_fd ready false)) as (d & Hd & Hf); [by destruct ready|done|].
  apply (wp_set_daemon _ _ _ d); [done|]. set (s2 := set_daemons _ s1) in *. assert (Hf2 : fds_changed i (with_fd ready false) s s2) by done.
  destruct (unregister_spec _ _ Hlt) as (_ & _ & _ & _ & _ & Ec & En & _).
  assert (Hc : connections (polled s2) = connections (polled s)) by done.
  split; [|done]. split; [|intros k; cbn; rewrite Ec, En; apply Hn]. apply (table_length t (n_of s)); [by rewrite (proj2 Hf2)|]. destruct t eqn:Et.
  - apply (table_live true _ (λ x, live s x ∧ x ≠ fd_of ready i)).
    + intros c _. destruct (decide (c = fd_of ready i)) as [->|Hne].
      * rewrite (live_self ready s i false s2) by done. split; [done|by intros [_ ?]].
      * rewrite (live_fd ready s i false s2 c) by done. split; [auto|by intros [? _]].
    + apply unregister_closed; [done|by apply (tk_live _ _ _ _ Ht), Hl|done].
  - apply (table_live false _ (live s)); [|by apply unregister_any]. intros c Hs. apply (live_fd ready s i false s2 c); [done|done|].
    intros ->. by rewrite strict_fd in Hs.
Qed.

(** A piece of code followed by more of it. *)
Lemma wp_then {A B C} E (m : I A) (f : A → I B) (k : B → I C) Q R s : wp E (m ≫= f) Q s →
  (∀ b s', Q b s' → wp E (k b) R s') → wp E (m ≫= λ a, f a ≫= k) R s.
Proof. unfold wp, mbind, I_bind. destruct (m s) as [a s1|]; [|done]. destruct (f a s1) as [b s2|]; [|done]. intros H Hk. by apply Hk. Qed.

Lemma wp_then2 {A B C D} E (m : I A) (f : A → I B) (g : A → B → I C) (k : C → I D) Q R s : wp E (a ← m; b ← f a; g a b) Q s →
  (∀ c s', Q c s' → wp E (k c) R s') → wp E (a ← m; b ← f a; c ← g a b; k c) R s.
Proof. unfold wp, mbind, I_bind. destruct (m s) as [a s1|]; [|done]. destruct (f a s1) as [b s2|]; [|done]. destruct (g a b s2) as [c s3|]; [|done]. intros H Hk. by apply Hk. Qed.

Lemma changed_changed i f g s s1 s2 : fds_changed i f s s1 → fds_changed i g s1 s2 → fds_changed i (λ x, g (f x)) s s2.
Proof. intros [F1 L1] [F2 L2]. split; [|congruence]. intros j. rewrite F2, F1. by case_decide. Qed.

Lemma open_pipes_table t s i : polled_ok t s → (i < n_of s)%nat → (t = true → (fds_of s i).1.2 = false ∧ (fds_of s i).2 = false) →
  wp (table_end t) (daemon_open_pipes i) (λ _ s', polled_ok t s' ∧ fds_changed i (λ f, (f.1.1, true, true)) s s') s.
Proof.
  intros [Ht Hn] Hi Hc. unfold daemon_open_pipes. apply wp_bind, wp_modify. destruct (reserved_ok t (n_of s) (live s) (polled s) 2) as [Ht0 Hr0]; [lia|done|].
  set (s0 := set_polled _ s). assert (H0 : polled_ok t s0) by by split.
  eapply (wp_then _ _ _ _ _ _ _ (open_one t s0 i false 1 H0 Hr0 ltac:(lia) Hi ltac:(intros E; destruct (Hc E) as [_ E']; cbn; change (fds_of s0 i) with (fds_of s i); congruence))).
  intros _ s1 (H1 & Hr1 & Hf1). assert (Hi1 : (i < n_of s1)%nat) by (rewrite (proj2 Hf1); done).
  eapply wp_mono; [apply (open_one t s1 i true 0); [done|done|done|done|]|].
  - intros E. destruct (Hc E) as [E' _]. cbn. rewrite (proj1 Hf1), decide_True by done. cbn. change (fds_of s0 i) with (fds_of s i). congruence.
  - intros _ s2 (H2 & _ & Hf2). split; [done|]. exact (changed_changed i _ _ s0 s1 s2 Hf1 Hf2).
Qed.

Lemma fds_lookup s i d : daemons s !! i = Some d → fds_of s i = (pid d, readyfd d, outputfd d).
Proof. unfold fds_of. by intros ->. Qed.

Lemma close_pipes_table t s i : polled_ok t s → (i < n_of s)%nat →
  wp (table_end t) (daemon_close_pipes i) (λ _ s', polled_ok t s' ∧ fds_changed i (λ f, (f.1.1, false, false)) s s') s.
Proof.
  intros Hs Hi. unfold daemon_close_pipes. destruct (has_daemon s i Hi) as [d Hd]. wp_steps. pose proof (fds_lookup s i d Hd) as Ef.
  eapply (wp_mono _ _ (λ _ s', polled_ok t s' ∧ fds_changed i (with_fd true false) s s')).
  { destruct (readyfd d) eqn:Er; [apply (close_one t s i true); [done|done|]|].
    - intros _. cbn. by rewrite Ef.
    - wp_steps. split; [done|]. split; [|done]. intros j. case_decide as E; [subst j|done]. by rewrite Ef. }
  intros _ s1 (H1 & Hf1). assert (Hi1 : (i < n_of s1)%nat) by by rewrite (proj2 Hf1). destruct (has_daemon s1 i Hi1) as [d1 Hd1].
  pose proof (fds_lookup s1 i d1 Hd1) as Ef1. wp_steps.
  eapply (wp_mono _ _ (λ _ s', polled_ok t s' ∧ fds_changed i (with_fd false false) s1 s')).
  { destruct (outputfd d1) eqn:Er; [apply (close_one t s1 i false); [done|done|]|].
    - intros _. cbn. by rewrite Ef1.
    - wp_steps. split; [done|]. split; [|done]. intros j. case_decide as E; [subst j|done]. by rewrite Ef1. }
  intros _ s2 (H2 & Hf2). split; [done|]. exact (changed_changed i _ _ s s1 s2 Hf1 Hf2).
Qed.

(** ** Events *)

Definition table_inv (t : bool) (s : system) : Prop := polled_ok t s ∧ pids_ok t s.

Lemma framed_inv t s s' : framed s s' → table_inv t s → table_inv t s'.
Proof. intros Hf [H1 H2]. split; [by apply (polled_framed t s)|by apply (pids_framed t s)]. Qed.

Lemma wp_frame_inv {A} t (m : I A) s : frame m → table_inv t s → wp (table_end t) m (λ _ s', table_inv t s' ∧ framed s s') s.
Proof. intros Hm Hs. apply wp_frame; [done|]. intros a s' Hf. split; [by apply (framed_inv t s)|done]. Qed.

Lemma pids_changed t s s' i g : pids_ok t s → fds_changed i g s s' → (t = true → (g (fds_of s i)).1.2 = true ∨ (g (fds_of s i)).2 = true → 0 < (g (fds_of s i)).1.1) →
  pids_ok t s'.
Proof. intros Hp [Hf _] Hg j Ht. rewrite Hf. case_decide as E; [subst j; by apply Hg|by apply Hp]. Qed.

Lemma changed_framed i g s s1 s' : fds_changed i g s s1 → framed s1 s' → (∀ j, fds_of s' j = if decide (j = i) then g (fds_of s j) else fds_of s j).
Proof. intros [F _] H j. by rewrite (framed_fds _ _ H). Qed.

Lemma set_pid_changed s i p : (i < n_of s)%nat → ∃ d, daemons s !! i = Some d ∧
  fds_changed i (λ f, (p, f.1.2, f.2)) s (set_daemons (<[i := set_pid p d]> (daemons s)) s).
Proof. intros Hi. by apply fds_changed_put. Qed.

Lemma polled_put t s i f d : daemons s !! i = Some d → readyfd (f d) = readyfd d → outputfd (f d) = outputfd d → polled_ok t s →
  polled_ok t (set_daemons (<[i := f d]> (daemons s)) s).
Proof.
  intros Hd E1 E2 [Ht Hn]. split; [|done]. cbn. rewrite length_insert. apply (table_live t _ (live s)); [|done].
  intros [j|j| |k] _; cbn; try done; rewrite put_fds by done; case_decide as E; try done; subst j; unfold fds_of; rewrite Hd; cbn; by rewrite ?E1, ?E2.
Qed.

Lemma start_table t env s i : 0 < fork env → table_inv t s → (i < n_of s)%nat → (t = true → (fds_of s i).1.1 <= 0) →
  wp (table_end t) (daemon_start env i) (λ _ s', table_inv t s') s.
Proof.
  intros Hfork [Hs Hp] Hi Hpid. destruct (has_daemon s i Hi) as [d Hd]. unfold daemon_start. wp_steps.
  apply wp_assert; [intros _; by apply not_table|intros _]. wp_steps.
  assert (Hvirtual : wp (table_end t) (start_virtual i) (λ _ s', table_inv t s') s).
  { eapply wp_mono; [by apply (wp_frame_inv t); [auto with frame|split]|]. by intros _ s' [? _]. }
  assert (Hgo : ∀ a, wp (table_end t) (s ← get_system; if 0 <? dependencies_failed (graph s) i
      then set_daemon i (set_exit_code (WCONSTRUCT WNATURE_EXITED 3 0));; daemon_on_startup_error env i
      else
        (if need_tty d then skip else daemon_open_pipes i);;
        set_daemon i (set_pid (fork env));;
        assert a bad_argv;;
        if need_tty d then daemon_on_ready i else daemon_change_state_list i DAEMON_STATE_STARTING) (λ _ s', table_inv t s') s);
    [|destruct (argv d); auto].
  intros a. wp_steps. case_match.
  { eapply wp_mono; [apply (wp_frame_inv t); [auto 10 with frame|by split]|]. by intros _ s' [? _]. }
  assert (Hclosed : t = true → (fds_of s i).1.2 = false ∧ (fds_of s i).2 = false).
  { intros E. specialize (Hp i E). specialize (Hpid E). destruct ((fds_of s i).1.2) eqn:E1, ((fds_of s i).2) eqn:E2; (done || (exfalso; lia || (specialize (Hp ltac:(auto)); lia))). }
  wp_steps. eapply (wp_mono _ _ (λ _ s', polled_ok t s' ∧ fds_changed i (λ f, if need_tty d then f else (f.1.1, true, true)) s s')).
  { destruct (need_tty d); [|by apply open_pipes_table]. wp_steps. split; [done|]. split; [|done]. intros j. by case_decide. }
  intros _ s1 (Hs1 & Hf1). assert (Hi1 : (i < n_of s1)%nat) by by rewrite (proj2 Hf1).
  destruct (set_pid_changed s1 i (fork env) Hi1) as (d1 & Hd1 & Hf2). wp_steps. apply (wp_set_daemon _ _ _ d1); [done|]. set (s2 := set_daemons _ s1) in *.
  assert (Hs2 : table_inv t s2).
  { split; [by apply polled_put|]. apply (pids_changed t s s2 i _ Hp (changed_changed i _ _ s s1 s2 Hf1 Hf2)). intros _ _. exact Hfork. }
  eapply wp_mono; [apply (wp_frame_inv t); [auto 10 with frame|exact Hs2]|]. by intros _ s' [? _].
Qed.

Lemma on_exit_table t s i code : table_inv t s → (i < n_of s)%nat → wp (table_end t) (daemon_on_exit i code) (λ _ s', table_inv t s') s.
Proof.
  intros [Hs Hp] Hi. unfold daemon_on_exit. wp_steps. do 2 (apply wp_assert; [intros _; by apply not_table|intros _]; wp_steps).
  destruct (fds_changed_put s i (λ d, set_exit_code code (set_pid 0 d)) (λ f, (0, f.1.2, f.2))) as (d & Hd & Hf); [done|done|].
  apply (wp_set_daemon _ _ _ d); [done|]. set (s1 := set_daemons _ s) in *. wp_steps.
  eapply wp_mono; [apply (close_pipes_table t s1 i); [by apply (polled_put t s i (λ d, set_exit_code code (set_pid 0 d)) d)|by rewrite (proj2 Hf)]|].
  intros _ s2 (Hs2 & Hf2). eapply wp_mono; [apply (wp_frame_inv t); [auto with frame|]|by intros _ s' [? _]]. split; [done|].
  apply (pids_changed t s s2 i _ Hp (changed_changed i _ _ s s1 s2 Hf Hf2)). by intros _ [?|?].
Qed.

(** A piece of code that leaves the table alone keeps what holds of it. *)
Lemma frame_table {A} t (m : I A) s : frame m → table_inv t s → wp (table_end t) m (λ _ s', table_inv t s') s.
Proof. intros Hm Hs. eapply wp_mono; [by apply wp_frame_inv|]. by intros a s' [? _]. Qed.

(** The handler of a descriptor of a daemon: it is read, and closed if need be. *)
Lemma fd_event_table t s i ready index (m : I bool) : frame m → table_inv t s → entry_at s index = Some (fd_of ready i) →
  wp (table_end t) (ok ← m;
    if negb ok
    then s ← get_system; communication_unregister (index_of (polled s) (fd_of ready i));; set_daemon i (set_fd ready false);; mret false
    else mret true) (λ _ s', table_inv t s') s.
Proof.
  intros Hm Hs He. wp_steps. eapply wp_mono; [by apply (wp_frame_inv t)|]. intros ok s1 ([Hs1 Hp1] & Hf). destruct ok; cbn [negb]; [by wp_steps|].
  change (entry_at s index) with (comm_at (polled s) index) in He. destruct Hs as [[[_ _ Ho Hx _] _] _].
  assert (Hi : (i < n_of s1)%nat).
  { eapply Nat.lt_le_trans; [apply (Ho index i)|apply (framed_length _ _ Hf)]. rewrite He. destruct ready; auto. }
  assert (Hl : t = true → live s1 (fd_of ready i)).
  { intros ->. destruct (Hx index (fd_of ready i)) as [_ Hl]; [by rewrite strict_fd|done|]. destruct ready; cbn in *; by rewrite (framed_fds _ _ Hf). }
  eapply (wp_then2 _ _ _ _ _ _ _ _ (close_one t s1 i ready Hs1 Hi Hl)). intros _ s2 (Hs2 & Hf2). wp_steps. split; [done|].
  apply (pids_changed t s1 s2 i _ Hp1 Hf2). intros Et Hor. specialize (Hp1 i Et). destruct ready; cbn in *; apply Hp1; destruct Hor; auto; done.
Qed.

(** *** Connections *)

Lemma connection_new_table t s : table_inv t s → wp (table_end t) connection_new (λ _ s', table_inv t s') s.
Proof.
  intros [[Ht Hn] Hp]. unfold connection_new. apply wp_bind, wp_modify. destruct (reserved_ok t (n_of s) (live s) (polled s) 1) as [Ht0 Hr0]; [lia|done|].
  cbv beta. wp_steps. cbn zeta. wp_steps. apply wp_modify. apply wp_register; [exact Hr0|].
  set (c := next_connection (polled s)). assert (Hne : ¬ live s (COMMUNICATION_TYPE_CONNECTION c)) by (intros H%Hn; lia).
  pose proof (table_connections _ _ _ _ (<[c := 0%nat]> (connections (polled s))) (S c) Ht0) as Ht1.
  destruct (register_table t (n_of s) (live s) _ (COMMUNICATION_TYPE_CONNECTION c) Ht1 Hr0) as [Ht2 _]; [done|by intros j [?|?]|].
  split; [|done]. split.
  - eapply (table_live t _ _ _ _ _ Ht2). Unshelve. intros [j|j| |k] _; cbn; [split; [auto|by intros [?|?]]..|split; auto|].
    destruct (decide (k = c)) as [->|E]; [rewrite lookup_insert_eq; split; [auto|by eexists]|].
    rewrite lookup_insert_ne by done. split; [auto|]. by intros [?|[= ?]].
  - intros k. cbn. fold c. destruct (decide (k = c)) as [->|E]; [lia|]. rewrite lookup_insert_ne by done. intros H%Hn. lia.
Qed.

Lemma connection_free_table t s c index : table_inv t s → entry_at s index = Some (COMMUNICATION_TYPE_CONNECTION c) →
  wp (table_end t) (connection_free c) (λ _ s', table_inv t s') s.
Proof.
  intros [[Ht Hn] Hp] He. change (entry_at s index) with (comm_at (polled s) index) in He. unfold connection_free. wp_steps.
  assert (Hst : strict t (COMMUNICATION_TYPE_CONNECTION c) = true) by (unfold strict; by rewrite orb_true_r).
  destruct (tk_index _ _ _ _ Ht _ _ Hst He) as [E Hl]. rewrite <-E in He. apply (wp_unregister t (n_of s) (live s)); [done|..].
  { intros Hge. pose proof (comm_at_lt _ _ _ He). lia. }
  intros Hlt. apply wp_modify. destruct (unregister_spec _ _ Hlt) as (_ & _ & _ & _ & _ & Ec & En & _).
  pose proof (unregister_closed t (n_of s) (live s) (polled s) _ Hst He Ht) as Ht1. split; [|done]. split.
  - apply (table_live t _ (λ x, live s x ∧ x ≠ COMMUNICATION_TYPE_CONNECTION c)); [|by apply table_connections].
    intros [j|j| |k] _; cbn; [split; [auto|by intros [? _]]..|rewrite Ec].
    destruct (decide (k = c)) as [->|E']; [rewrite lookup_delete_eq; split; [by intros [? ?]|by intros [_ ?]]|].
    rewrite lookup_delete_ne by done. split; [|by intros [? _]]. intros ?. split; [done|congruence].
  - intros k. cbn. rewrite Ec, En. destruct (decide (k = c)) as [->|E']; [by rewrite lookup_delete_eq; intros [? ?]|]. rewrite lookup_delete_ne by done. apply Hn.
Qed.

Lemma connection_on_line_table t env s c message : table_inv t s → is_Some (connections (polled s) !! c) →
  wp (table_end t) (connection_on_line env c message) (λ _ s', table_inv t s') s.
Proof.
  intros Hs [conn Hc]. unfold connection_on_line. wp_steps. rewrite Hc. wp_steps. eapply wp_mono; [apply (wp_frame_inv t); [auto with frame|exact Hs]|].
  intros [text conn'] s1 ([[Ht Hn] Hp] & Hf). apply wp_modify. rewrite <-(framed_polled _ _ Hf) in Hc.
  assert (E : ∀ k, is_Some (<[c := conn']> (connections (polled s1)) !! k) ↔ is_Some (connections (polled s1) !! k)).
  { intros k. destruct (decide (k = c)) as [->|E]; [rewrite lookup_insert_eq, Hc; by split; eexists|by rewrite lookup_insert_ne]. }
  split; [|done]. split; [|intros k; cbn; rewrite E; apply Hn]. cbn. destruct Ht as [H1 H2 H3 H4 H5].
  apply (table_live t _ (live s1)); [intros [j|j| |k] _; cbn; by rewrite ?E|]. by split.
Qed.

(** *** Every event *)

Lemma on_first_table t st f s : table_inv t s → (∀ i, first_daemon_by_state (lists s) st = Some i → wp (table_end t) (f i) (λ _ s', table_inv t s') s) →
  wp (table_end t) (on_first st f) (λ _ s', table_inv t s') s.
Proof. intros Hs Hf. unfold on_first. wp_steps. destruct (first_daemon_by_state _ _) as [i|]; [by apply Hf|by wp_steps]. Qed.

Lemma on_event_table t s index c revents r accepted : table_inv t s → entry_at s index = Some c →
  wp (table_end t) (on_event c revents r accepted) (λ _ s', table_inv t s') s.
Proof.
  intros Hs He. destruct c as [i|i| |k]; cbn [on_event].
  - apply (fd_event_table t s i false index); [auto 10 with frame|done..].
  - apply (fd_event_table t s i true index); [auto 10 with frame|done..].
  - unfold server_on_event. wp_steps. eapply (wp_mono _ _ (λ _ s', table_inv t s')); [case_match; [by apply connection_new_table|by wp_steps]|].
    intros _ s1 H1. by wp_steps.
  - by wp_steps.
Qed.

Lemma handle_table t env ev s : 0 < fork env → inv t (plain s) s → table_inv t s →
  wp (table_end t) (handle env ev) (λ _ s', table_inv t s') s.
Proof.
  intros Hfork Hinv Hs. destruct ev as [signum| | | | | |p code|l|index revents r accepted|index message|index]; cbn [handle];
    try (apply frame_table; [unfold on_first; solve [auto 10 with frame]|done]).
  - apply on_first_table; [done|]. intros i Hi. destruct (first_valid _ _ _ _ (inv_lists _ _ _ Hinv) Hi) as [Hlt Hst]. apply start_table; [done..|].
    intros Et. destruct (has_daemon s i Hlt) as [d Hd]. rewrite (fds_lookup s i d Hd). cbn.
    destruct (Z.lt_ge_cases 0 (pid d)) as [Hp|]; [|done].
    destruct (sound_process _ _ (inv_sound _ _ _ Hinv i d Et Hd ltac:(by apply not_elem_of_nil)) Hp) as [H _]. by rewrite Hst in H.
  - case_match; [|by wp_steps]. wp_steps. unfold daemon_find_by_pid.
    destruct (find_index (λ d, pid d =? p) (daemons s)) as [i|] eqn:E; (eapply wp_run; [by rewrite E|]); [|by wp_steps].
    apply find_index_found in E as (d & Hd & _). apply on_exit_table; [done|by eapply lookup_lt_Some].
  - apply wp_modify. destruct Hs as [[Ht Hn] Hp]. split; [|done]. split; [|done]. by apply table_revents.
  - wp_steps. destruct (entry_at s index) as [c|] eqn:He; [|by wp_steps]. wp_steps. eapply wp_mono; [by apply (on_event_table t s index)|].
    intros b s' Hs'. by wp_steps.
  - wp_steps. destruct (entry_at s index) as [c|] eqn:He; [|by wp_steps]. destruct c as [| | |k]; try by wp_steps.
    apply connection_on_line_table; [done|]. exact (polled_owned t s (proj1 Hs) index _ He).
  - wp_steps. destruct (entry_at s index) as [c|] eqn:He; [|by wp_steps]. destruct c as [| | |k]; try by wp_steps.
    by apply (connection_free_table t s k index).
Qed.

Lemma boot_table t env c : wp (table_end t) (boot env c) (λ _ s, table_inv t s) empty_system.
Proof.
  unfold boot. wp_steps. apply wp_frame; [auto with frame|]. intros i s [HP HF _]. wp_steps. unfold server_start.
  apply wp_bind, wp_modify. eapply (wp_mono _ _ (λ _ s', table_inv t s')); [|intros _ s1 Hs1; apply frame_table; [auto with frame|done]].
  set (s0 := set_polled _ s). assert (E0 : polled s0 = PollTable [] 2 2 (λ _, 0%nat) ∅ 0) by (cbn; by rewrite HP).
  assert (F0 : ∀ i, fds_of s0 i = (0, false, false)) by (intros i0; exact (HF i0)).
  apply wp_register; [by rewrite E0|]. set (s1 := set_polled _ s0). assert (F1 : ∀ k, fds_of s1 k = (0, false, false)) by done.
  assert (E1 : polled s1 = register COMMUNICATION_TYPE_SERVER (PollTable [] 2 2 (λ _, 0%nat) ∅ 0)) by (cbn [polled set_polled s1]; by rewrite E0).
  split; [|intros k _; rewrite F1; by intros [?|?]]. split; rewrite E1; [|by intros k [? ?]].
  destruct (register_table t (n_of s1) (λ _, False) (PollTable [] 2 2 (λ _, 0%nat) ∅ 0) COMMUNICATION_TYPE_SERVER) as [Ht _]; [|done|tauto|by intros k [?|?]|].
  { split; try done; cbn; try lia; unfold comm_at; cbn. by intros ? ? [?|?]. }
  apply (table_live t _ _ (live s1)) in Ht; [done|]. intros [k|k| |k] _; cbn; rewrite ?F1; (split; [|by intros [?|?]]); try done; [by right|].
  rewrite HP. by intros [? ?].
Qed.

End DaemonPoll.
