(* ===== verification/DaemonSpec.v ===== *)
(** * What supervision by init guarantees

    The states that [init] reaches from its start by handling events in any order,
    what holds in all of them, and what more holds when no event sets a daemon back
    wrongly; the loop of [init], whose steps in their order are such events; and
    all the ways in which the loop can end with a failed assertion or a misuse of
    memory, each with a run that does. *)

From S2P Require Import Prelude Timespec Daemon DaemonLists DaemonInv DaemonOps DaemonConf DaemonSteps DaemonPoll.
From stdpp Require Import base decidable list numbers gmap strings.
From Stdlib Require Import ZArith Lia.

#[local] Open Scope c_scope.
#[local] Open Scope Z_scope.

Module DaemonSpec.
Import Daemon DaemonLists DaemonInv DaemonOps DaemonConf DaemonSteps DaemonPoll.

Abbreviation n_of s := (length (daemons s)).

(** ** Reachable states *)

Definition anything (s : system) (ev : event) : bool := true.

(** From the start with a configuration of [default], by events that [may] happen, in any
    order: where the loop of [init] gets is among it ([loop_reachable]).  What is
    loaded has the name asked for, and [fork] gives a process. *)
Inductive reachable (may : system → event → bool) : system → Prop :=
| reachable_boot (env : environment) (c : daemon_config) (s : system) : config_name c = lit "default" → boot env c empty_system = Done () s → reachable may s
| reachable_step (env : environment) (ev : event) (s s' : system) : reachable may s → names_match env → 0 < fork env → may s ev = true → handle env ev s = Done () s' →
    reachable may s'.

Lemma reachable_inv (t : bool) s : reachable (if t then tame else anything) s → inv t (plain s) s ∧ table_inv t s.
Proof.
  induction 1 as [env c s Hn E|env ev s s' _ [IH1 IH2] Hnames Hfork Hmay E].
  - pose proof (boot_ok t env c Hn) as H. pose proof (boot_table t env c) as H'. unfold wp in H, H'. by rewrite E in H, H'.
  - pose proof (handle_ok t env Hnames Hfork ev s IH1 (polled_owned t s (proj1 IH2))) as H. pose proof (handle_table t env ev s Hfork IH1 IH2) as H'.
    unfold wp in H, H'. rewrite E in H, H'. split; [|done]. apply H. intros Ht. by rewrite Ht in Hmay.
Qed.

(** What ends the handling of an event. *)
Lemma reachable_ends (t : bool) s env ev w : reachable (if t then tame else anything) s → names_match env → 0 < fork env →
  (t = true → tame s ev = true) → handle env ev s = Aborted w → known t w ∧ table_end t w.
Proof.
  intros Hs Hn Hf Ht E. destruct (reachable_inv t s Hs) as [H1 H2].
  pose proof (handle_ok t env Hn Hf ev s H1 (polled_owned t s (proj1 H2)) Ht) as H. pose proof (handle_table t env ev s Hf H1 H2) as H'.
  unfold wp in H, H'. by rewrite E in H, H'.
Qed.

Lemma reachable_mono may s : reachable may s → reachable anything s.
Proof. induction 1; by econstructor. Qed.

(** ** The lists by state *)

(** The members of a list, by following a link. *)
Fixpoint follow (fuel : nat) (link : nat → option nat) (cursor : option nat) : list nat :=
  match fuel, cursor with S fuel, Some i => i :: follow fuel link (link i) | _, _ => [] end.

Definition in_state (s : system) (st : daemon_state) : list nat :=
  List.filter (λ i, bool_decide (state (lists s) i = st)) (seq 0 (n_of s)).

Lemma follow_next prev next a b fuel : linked prev next (a ++ b) → (length b <= fuel)%nat → follow fuel next (head b) = b.
Proof.
  revert a fuel. induction b as [|i b IH]; intros a fuel Hl Hf; [by destruct fuel|]. destruct fuel as [|fuel]; [cbn in Hf; lia|]. cbn.
  destruct (Hl a i b eq_refl) as [_ ->]. f_equal. apply (IH (a ++ [i])); [by rewrite <-app_assoc|]. cbn in Hf. lia.
Qed.

Lemma follow_prev prev next a b fuel : linked prev next (a ++ b) → (length a <= fuel)%nat → follow fuel prev (last a) = rev a.
Proof.
  revert b fuel. induction a as [|i a IH] using rev_ind; intros b fuel Hl Hf; [by destruct fuel|]. rewrite length_app in Hf. cbn in Hf.
  destruct fuel as [|fuel]; [lia|]. rewrite last_snoc, rev_app_distr. cbn. rewrite <-app_assoc in Hl. destruct (Hl a i b eq_refl) as [-> _].
  f_equal. apply (IH ([i] ++ b)); [done|lia].
Qed.

Lemma in_state_spec s st i : i ∈ in_state s st ↔ (i < n_of s)%nat ∧ state (lists s) i = st.
Proof.
  unfold in_state. rewrite list_elem_of_In, List.filter_In, <-list_elem_of_In, elem_of_seq, bool_decide_eq_true.
  split; intros [? ?]; split; done || lia.
Qed.

(** ** Consistency *)

(** The lists by state and the graph of dependencies are what they are meant to be: every list
    can be followed in both directions, has the daemons in its state and is counted right; every
    dependency is once in the arrays of both its ends, and nothing else is; the counters count
    the dependencies with a status, and a reference count the references. *)
Record consistent (s : system) : Prop := {
  c_list st : let o := follow (n_of s) (next_by_state (lists s)) (first_daemon_by_state (lists s) st) in
    o ≡ₚ in_state s st ∧ follow (n_of s) (prev_by_state (lists s)) (last_daemon_by_state (lists s) st) = rev o ∧
    count_daemon_by_state (lists s) st = Z.of_nat (length o);
  c_edge e d : edges (graph s) !! e = Some d → (source d < n_of s)%nat ∧ (target d < n_of s)%nat ∧
    e ∈ items (dependencies (graph s) (source d)) ∧ e ∈ dependents (graph s) (target d);
  c_dependency i e : e ∈ items (dependencies (graph s) i) → ∃ d, edges (graph s) !! e = Some d ∧ source d = i;
  c_dependent i e : e ∈ dependents (graph s) i → ∃ d, edges (graph s) !! e = Some d ∧ target d = i;
  c_once i : NoDup (items (dependencies (graph s) i)) ∧ NoDup (dependents (graph s) i);
  c_ready i : dependencies_ready (graph s) i = tally (edges (graph s)) DEPENDENCY_STATUS_READY (items (dependencies (graph s) i));
  c_finished i : dependencies_finished (graph s) i = tally (edges (graph s)) DEPENDENCY_STATUS_FINISHED (items (dependencies (graph s) i));
  c_failed i : dependencies_failed (graph s) i = tally (edges (graph s)) DEPENDENCY_STATUS_FAILED (items (dependencies (graph s) i));
  c_reference i : reference_count (graph s) i = tally (edges (graph s)) DEPENDENCY_STATUS_REFERENCED (dependents (graph s) i);
  c_exit i : exits_from (graph s) i;
}.

Lemma lists_follow s st : lists_ok (n_of s) (lists s) →
  let o := follow (n_of s) (next_by_state (lists s)) (first_daemon_by_state (lists s) st) in
  o ≡ₚ in_state s st ∧ follow (n_of s) (prev_by_state (lists s)) (last_daemon_by_state (lists s) st) = rev o ∧
  count_daemon_by_state (lists s) st = Z.of_nat (length o).
Proof.
  intros [o Hr]. pose proof Hr as [Hl Hon]. destruct (Hl st) as [Hf Hla Hc Hnd Hlk Hst].
  assert (Hp : o st ≡ₚ in_state s st).
  { apply NoDup_Permutation; [done|apply NoDup_ListNoDup, List.NoDup_filter, NoDup_ListNoDup, NoDup_seq|]. intros i. rewrite in_state_spec. split.
    - intros Hi. by apply (on_list (lists s) o _ i st Hr).
    - intros [Hi <-]. by apply Hon. }
  assert (Hlen : (length (o st) <= n_of s)%nat).
  { rewrite Hp. unfold in_state. etransitivity; [apply List.filter_length_le|]. by rewrite length_seq. }
  cbn zeta. rewrite Hf, Hla. pose proof (follow_next _ _ [] (o st) (n_of s) Hlk Hlen) as ->. split_and!; [done| |done].
  apply (follow_prev _ (next_by_state (lists s)) (o st) []); [by rewrite app_nil_r|done].
Qed.

Lemma inv_consistent t s : inv t (plain s) s → consistent s.
Proof.
  intros [HL [G1 G2 G3 G4 G5 G6 G7 G8] _ _ _ _ HX _]. split; try done.
  - intros st. by apply lists_follow.
  - intros e d (? & ? & _ & ? & ? & _)%G1. by split_and!.
  - intros i. rewrite G8. cbn. lia.
  - intros i. by apply HX, not_elem_of_nil.
Qed.

(** ** Supervision *)

(** A process exists exactly in the states that have one, except that a virtual daemon runs without;
    only configured daemons wait and run; a daemon other than [default] that nobody refers to is not
    running and is not going to; and no daemon waits although all it waits for is ready. *)
Record supervised (s : system) : Prop := {
  s_daemon i d : daemons s !! i = Some d → sound (state (lists s) i) d;
  s_wanted i : (i < n_of s)%nat → i ≠ 0%nat → reference_count (graph s) i = 0 → awake (state (lists s) i) = false;
  s_waiting i : (i < n_of s)%nat → state (lists s) i = DAEMON_STATE_WAITING →
    dependencies_ready (graph s) i < Z.of_nat (length (items (dependencies (graph s) i)));
}.

Lemma inv_supervised s : inv true (plain s) s → supervised s.
Proof.
  intros [_ _ _ HS HW HT _ _]. split.
  - intros i d Hd. by apply (HS i d eq_refl Hd), not_elem_of_nil.
  - intros i Hi. by apply HW, not_elem_of_nil.
  - intros i _. by apply HT, not_elem_of_nil.
Qed.

(** ** Executions, for examples *)

Fixpoint run_may (may : system → event → bool) (evs : list (environment * event)) (s : system) : option system :=
  match evs with
  | [] => Some s
  | (env, ev) :: evs =>
      if may s ev then match handle env ev s with Done _ s' => run_may may evs s' | Aborted _ => None end else None
  end.

Definition run_from (may : system → event → bool) (c : daemon_config) (evs : list (environment * event)) : option system :=
  match evs with
  | [] => None
  | (env, _) :: _ => match boot env c empty_system with Done _ s => run_may may evs s | Aborted _ => None end
  end.

Definition fair (p : environment * event) : Prop := names_match p.1 ∧ 0 < fork p.1.

Lemma run_may_reachable may evs s s' : Forall fair evs → reachable may s → run_may may evs s = Some s' → reachable may s'.
Proof.
  intros Hf. revert s. induction Hf as [|[env ev] evs [Hn Hk] _ IH]; intros s Hs; cbn; [by intros [= <-]|].
  destruct (may s ev) eqn:Em; [|done]. destruct (handle env ev s) as [[] s1|] eqn:Eh; [|done]. apply IH. by apply (reachable_step may env ev s).
Qed.

Lemma run_from_reachable may c evs s : config_name c = lit "default" → Forall fair evs → run_from may c evs = Some s → reachable may s.
Proof.
  intros Hn Hf. destruct evs as [|[env ev] evs]; [done|]. cbn [run_from]. destruct (boot env c empty_system) as [[] s0|] eqn:E; [|done].
  apply run_may_reachable; [done|]. by apply (reachable_boot may env c).
Qed.

(** Configurations by name. *)
Definition configs (l : list daemon_config) (nm : list Z) : option daemon_config := List.find (λ c, bool_decide (config_name c = nm)) l.
Definition world (l : list daemon_config) (ifs : list (list Z)) (p : Z) : environment :=
  Environment (λ _, false) (configs l) ifs (Timespec.Timespec 0 0) p (λ _, None) (λ _, []).

Lemma world_fair l ifs p ev : 0 < p → fair (world l ifs p, ev).
Proof. intros Hp. split; [|done]. intros nm c [_ E]%List.find_some. by apply bool_decide_eq_true in E. Qed.


(** A system in which [default] requires [a] and [b], and [a] requires [b]. *)
Definition requires (nm : list Z) : dependency_config := DependencyConfig nm (Z.lor DEPENDENCY_FLAG_REQUIRE DEPENDENCY_FLAG_AWAIT).
Definition config (nm : list Z) (deps : list (list Z)) (args : option (list (list Z))) : daemon_config :=
  DaemonConfig nm (requires <$> deps) (if (length deps =? 0)%nat then 0 else 8) None args EXIT_CODE_MEANING_DEFAULT false false false
    SIGHUP SIGNAL_TO_PROCESS TYPE_DAEMON.
Definition per_interface (nm : list Z) : daemon_config :=
  DaemonConfig nm [] 0 None (Some [nm]) EXIT_CODE_MEANING_DEFAULT false true false SIGHUP SIGNAL_TO_PROCESS TYPE_DAEMON.

Definition config_default : daemon_config := config (lit "default") [lit "a"; lit "b"] None.
Definition config_a : daemon_config := config (lit "a") [lit "b"] (Some [lit "a"]).
Definition config_b : daemon_config := config (lit "b") [] (Some [lit "b"]).
Definition at_ (p : Z) (ev : event) : environment * event := (world [config_default; config_a; config_b] [] p, ev).
Definition ask (words : list (list Z)) : event := ev_message 1 words.
Definition says_ready (index : nat) : event := ev_poll index POLLIN (read_char 10) false.

(** A connection is accepted, and all three are started: [b], then [a] when [b] is ready, then
    [default]. *)
Definition started : list (environment * event) :=
  [at_ 1 (ev_poll 0 POLLIN read_again true); at_ 1 ev_wait; at_ 1 ev_wait; at_ 1 ev_wait; at_ 5 ev_start; at_ 1 (says_ready 3); at_ 6 ev_start;
   at_ 1 (says_ready 4); at_ 1 ev_start].

(** [a] finishes, [b] is restarted and becomes ready, and so ready for [a], which does not
    refer to it; then [a] is restarted. *)
Definition b_restarted : list (environment * event) := started ++
  [at_ 1 (ev_exit 6 0); at_ 1 ev_finish;
   at_ 1 (ask [lit "restart"; lit "b"]); at_ 1 (ev_exit 5 (WCONSTRUCT WNATURE_SIGNALED 0 SIGTERM)); at_ 1 ev_finish; at_ 1 ev_wait;
   at_ 7 ev_start; at_ 1 (says_ready 3); at_ 1 (ask [lit "restart"; lit "a"])].

Lemma b_restarted_fair : Forall fair b_restarted.
Proof. cbn -[fair at_]. repeat (constructor; [by apply world_fair|]). constructor. Qed.

Lemma b_restarted_aborts : match run_from anything config_default b_restarted with
  | Some s => match handle (at_ 1 ev_wait).1 ev_wait s with Aborted w => w = assert_dependency_status | Done _ _ => False end
  | None => False
  end.
Proof. by vm_compute. Qed.

(** ** The loop *)

(** The processes that [init] made and did not wait for: a [fork] makes one, and [waitpid] gives
    one that is among them. *)
Definition children (env : environment) (x : input) (ph : phase) (s : system) (l : list Z) : list Z :=
  match ph, x with
  | reaping, in_exit p _ => List.filter (λ q, negb (q =? p)) l
  | _, _ => if existsb (λ d, pid d =? fork env) (daemons s) then fork env :: l else l
  end.

Definition possible (env : environment) (x : input) (ph : phase) (s : system) (l : list Z) : bool :=
  (0 <? fork env) && negb (existsb (Z.eqb (fork env)) l) && negb (existsb (λ d, pid d =? fork env) (daemons s)) &&
  match ph, x with reaping, in_exit p _ => existsb (Z.eqb p) l | _, _ => true end.

(** Where the loop of [init] gets. *)
Inductive loop_reaches : system → phase → list Z → Prop :=
| loop_boot (env : environment) (c : daemon_config) (s : system) : config_name c = lit "default" → boot env c empty_system = Done () s → loop_reaches s top []
| loop_more (env : environment) (x : input) (ph ph' : phase) (l : list Z) (s s' : system) : loop_reaches s ph l → names_match env → possible env x ph s l = true →
    loop_step env x ph s = Done ph' s' → loop_reaches s' ph' (children env x ph s' l).

(** A step of the loop is the handling of an event, or changes nothing. *)
Definition handled {A} (env : environment) (s : system) (r : result A) : Prop :=
  match r with
  | Done _ s' => s' = s ∨ ∃ ev, handle env ev s = Done () s'
  | Aborted w => ∃ ev, handle env ev s = Aborted w
  end.

Lemma handled_then {A B} env ev (m : I A) (k : A → B) s : (m;; skip) s = handle env ev s → handled env s ((a ← m; mret (k a)) s).
Proof.
  unfold mbind, I_bind, handled. destruct (m s) as [a s'|w]; cbn; intros E; [right|]; by exists ev.
Qed.
Lemma handled_ret {A} env (a : A) s : handled env s ((mret a : I A) s).
Proof. by left. Qed.

Lemma handled_unit {B} env ev (m : I ()) (b : B) s : m s = handle env ev s → handled env s ((m;; mret b) s).
Proof. intros E. apply (handled_then env ev m (λ _, b)). rewrite <-E. unfold mbind, I_bind. by destruct (m s) as [[]|]. Qed.

Lemma handled_get {A} env s (f : system → I A) : handled env s (f s s) → handled env s ((get_system ≫= f) s).
Proof. done. Qed.

Lemma handled_first env ev st f again done_ s : on_first st f s = handle env ev s → handled env s (while_first st f again done_ s).
Proof.
  intros E. apply handled_get. unfold on_first in E. change ((get_system ≫= ?g) s) with (g s s) in E. cbn beta in E.
  destruct (first_daemon_by_state (lists s) st) as [i|]; [by apply (handled_unit env ev)|apply handled_ret].
Qed.

Lemma handled_entry env i c revents r accepted s :
  entry_at s i = Some c → (on_event c revents r accepted;; skip) s = handle env (ev_poll i revents r accepted) s.
Proof. intros E. cbn [handle]. change ((get_system ≫= ?g) s) with (g s s). cbn beta. by rewrite E. Qed.

Lemma loop_handled env x ph s : handled env s (loop_step env x ph s).
Proof.
  unfold loop_step. apply handled_get. destruct ph as [| | | | | | | | |i n|i n|]; try apply handled_ret.
  - by apply (handled_unit env ev_exit_signal).
  - by apply (handled_first env ev_wait).
  - by apply (handled_first env ev_start).
  - by apply (handled_first env ev_finish).
  - by apply (handled_unit env ev_timeouts).
  - destruct x; try apply handled_ret. by apply (handled_unit env (ev_exit pid_ exit_code_)).
  - destruct x; try apply handled_ret; [by apply (handled_unit env (ev_signal signum))|].
    right. by exists (ev_revents l).
  - destruct (entries (polled s) !! i) as [[c revents]|] eqn:E; [|apply handled_ret]. repeat (case_match; [apply handled_ret|]).
    assert (Hc : entry_at s i = Some c) by (unfold entry_at; by rewrite E).
    destruct c; try apply handled_ret; cbn zeta; eapply handled_then; by apply handled_entry.
  - destruct x; try apply handled_ret; [|by apply (handled_unit env (ev_disconnect i))].
    unfold handled, mbind at 1, I_bind. destruct (handle env (ev_message i message) s) as [[] s'|w] eqn:E; [right|]; by exists (ev_message i message).
Qed.

Lemma possible_fork env x ph s l : possible env x ph s l = true → 0 < fork env.
Proof. intros (((?%Z.ltb_lt & _)%andb_prop & _)%andb_prop & _)%andb_prop. done. Qed.

Lemma loop_reachable s ph l : loop_reaches s ph l → reachable anything s.
Proof.
  induction 1 as [env c s Hn E|env x ph ph' l s s' _ IH Hn Hp E]; [by apply (reachable_boot anything env c)|].
  pose proof (loop_handled env x ph s) as H. rewrite E in H. destruct H as [->|[ev Hev]]; [done|].
  apply (reachable_step anything env ev s); [done|done|by eapply possible_fork|done|done].
Qed.

(** *** Scripts *)

(** What the world does, in order: the steps that ask are given the next thing that fits. *)
Definition wants (ph : phase) (s : system) (x : input) : bool :=
  match ph, x with
  | reaping, in_exit _ _ | polling, in_signal _ | polling, in_revents _ | reading _ _, in_line _ | reading _ _, in_close => true
  | handling i nevents, in_read _ | handling i nevents, in_accept =>
      (0 <? nevents) && match entries (polled s) !! i with Some (_, revents) => negb (revents =? 0) | None => false end
  | _, _ => false
  end.

Definition script : Type := list (environment * input).

Definition with_fork (p : Z) (env : environment) : environment :=
  Environment (absent env) (daemon_config_load env) (if_nameindex env) (now env) p (str2sig env) (sig2str env).

(** The next input, and what is left. *)
Definition next_input (sc : script) (ph : phase) (s : system) : option (environment * input * script) :=
  match sc with
  | [] => None
  | (env, x) :: sc' => Some (if wants ph s x then (env, x, sc') else (env, in_nothing, sc))
  end.

(** The loop runs by a script until it ends; processes are numbered from [p]. *)
Fixpoint play (fuel : nat) (sc : script) (p : Z) (ph : phase) (l : list Z) (s : system) : option cause :=
  match fuel, next_input sc ph s with
  | S fuel, Some (env, x, sc') =>
      let env := with_fork p env in
      if possible env x ph s l
      then match loop_step env x ph s with
           | Aborted w => Some w
           | Done ph' s' => let l' := children env x ph s' l in play fuel sc' (if existsb (Z.eqb p) l' then p + 1 else p) ph' l' s'
           end
      else None
  | _, _ => None
  end.

Definition ended (w : cause) : Prop := ∃ s ph l env x,
  loop_reaches s ph l ∧ names_match env ∧ possible env x ph s l = true ∧ loop_step env x ph s = Aborted w.

Lemma play_ended fuel sc p ph l s w : Forall (λ y, names_match y.1) sc → loop_reaches s ph l → play fuel sc p ph l s = Some w → ended w.
Proof.
  revert sc p ph l s. induction fuel as [|fuel IH]; intros sc p ph l s Hn Hs; [done|]. cbn [play]. destruct sc as [|[env x] sc]; [done|].
  assert (∃ x' sc', next_input ((env, x) :: sc) ph s = Some (env, x', sc') ∧ Forall (λ y, names_match y.1) sc') as (x' & sc' & -> & Hsc).
  { cbn. case_match; repeat eexists; [by inversion Hn|done]. }
  assert (He : names_match env) by (by inversion Hn).
  destruct (possible (with_fork p env) x' ph s l) eqn:Hp; [|done]. destruct (loop_step (with_fork p env) x' ph s) as [ph' s'|w'] eqn:E.
  - apply IH; [done|]. by apply (loop_more (with_fork p env) x' ph ph' l s).
  - intros [= <-]. by exists s, ph, l, (with_fork p env), x'.
Qed.

Definition play_from (c : daemon_config) (sc : script) : option cause :=
  match sc with
  | [] => None
  | (env, _) :: _ => match boot env c empty_system with Done _ s => play 300 sc 5 top [] s | Aborted _ => None end
  end.

Lemma play_from_ended c sc w : config_name c = lit "default" → Forall (λ y, names_match y.1) sc → play_from c sc = Some w → ended w.
Proof.
  intros Hc Hn. unfold play_from. destruct sc as [|[env x] sc]; [done|]. destruct (boot env c empty_system) as [[] s|] eqn:E; [|done].
  apply play_ended; [done|]. by apply (loop_boot env c).
Qed.

(** *** Ways to end *)

Definition ends : list cause :=
  [assert_dependency_status; assert_startup_error; assert_reconfigure_netif; beyond_array; bad_argv; assert_on_exit; assert_unregister].

Lemma known_ends w : known false w → table_end false w → w ∈ ends.
Proof.
  unfold known, table_end, ends. rewrite !elem_of_cons. intros Hk [Hr _]. tauto.
Qed.
Lemma known_tame w : known true w → table_end true w → w ∉ [assert_on_exit; assert_unregister].
Proof.
  intros Hk [_ Hu] [->|[->|[]%elem_of_nil]%elem_of_cons]%elem_of_cons; [|by apply Hu]. 
  destruct Hk as [Hk%list_elem_of_In|[[? _]|Hk%list_elem_of_In]]; [|done|]; cbn in Hk; intuition discriminate.
Qed.

Lemma loop_ends w : ended w → w ∈ ends.
Proof.
  intros (s & ph & l & env & x & Hs & Hn & Hp & E). pose proof (loop_handled env x ph s) as H. rewrite E in H. destruct H as [ev Hev].
  pose proof (reachable_ends false s env ev w (loop_reachable _ _ _ Hs) Hn (possible_fork _ _ _ _ _ Hp)) as [H1 H2]; [done|done|]. by apply known_ends.
Qed.

(** What happens in a script: [ppoll] reports events at indices, a descriptor has a newline, a
    connection sends lines or takes what it was answered, or nothing happens. *)
Definition events (l : list (nat * Z)) : input :=
  in_revents (map (λ i, match List.find (λ y, (y.1 =? i)%nat) l with Some y => y.2 | None => 0 end) (seq 0 16)).
Definition pause : input := in_revents [].
Definition newline : input := in_read (read_char 10).
Definition accept : list input := [events [(0%nat, POLLIN)]; in_accept].
Definition ready (index : nat) : list input := [events [(index, POLLIN)]; newline].
Definition lines (index : nat) (l : list (list (list Z))) : list input := events [(index, POLLIN)] :: map in_line l.
Definition flush (index : nat) : list input := [events [(index, POLLOUT)]].
Definition in_world (l : list daemon_config) (ifs : list (list Z)) (xs : list input) : script := map (λ x, (world l ifs 1, x)) xs.
Definition in_ab : list input → script := in_world [config_default; config_a; config_b] [].

(** A connection is accepted; [b] is started and becomes ready, then [a], and [default] runs.
    Then [a] exits and finishes. *)
Definition all_started : list input := accept ++ ready 2 ++ ready 4.
Definition a_finished : list input := all_started ++ [in_exit 6 0; pause].

(** While [a] has finished, [b] is restarted and becomes ready, and so ready for [a], which does
    not refer to it; then [a] is restarted. *)
Definition status_kept : script := in_ab (a_finished ++ lines 2 [[lit "restart"; lit "b"]] ++
  [in_exit 5 (WCONSTRUCT WNATURE_SIGNALED 0 SIGTERM); pause] ++ ready 3 ++ flush 1 ++ lines 1 [[lit "restart"; lit "a"]] ++ [pause]).

(** [a] has finished, and is reconfigured when its configuration is gone. *)
Definition finished_reconfigured : script := in_ab a_finished ++ in_world [] [] (lines 2 [[lit "reconfigure"; lit "a"]]).

(** [a] is reconfigured to have no arguments, and again. *)
Definition freed_arguments : script := in_ab a_finished ++
  in_world [config (lit "a") [] None] [] (lines 2 [[lit "reconfigure"; lit "a"]] ++ flush 2) ++ in_world [] [] (lines 2 [[lit "reconfigure"; lit "a"]]).

(** [default] is to require another daemon. *)
Definition one_more : script := in_ab (all_started ++ lines 2 [[lit "require"; lit "default"; lit "c"]]).

(** [default] has a process of its own and requires [b]; the system is shut down, and the process
    of [default] exits before that of [b]. *)
Definition shut_down : script := in_ab (ready 2 ++ [in_signal SIGTERM; in_exit 6 0]).

(** A daemon that is to be reconfigured becomes that of a network interface, and exits. *)
Definition becomes_interface : script := in_world [per_interface (lit "x")] [lit "e"] (accept ++
  lines 1 [[lit "require"; lit "default"; lit "x"]; [lit "require"; lit "default"; lit "x.e"]; [lit "reconfigure"; lit "x.e"]] ++ [in_exit 5 0; pause; pause]).

(** [t] is starting when [a], which is about to be started, is to require it, and so waits and is
    started again; the new process exits, and then the descriptor of the old one has an
    event. *)
Definition started_twice : script :=
  in_world [config (lit "e") [] (Some [lit "e"]); config (lit "b") [] (Some [lit "b"]); config (lit "a") [] None; config (lit "t") [] (Some [lit "t"])] []
    (accept ++ lines 1 [[lit "require"; lit "default"; lit "e"]; [lit "require"; lit "default"; lit "b"];
                        [lit "require"; lit "default"; lit "a"]; [lit "require"; lit "default"; lit "t"]] ++
     flush 1 ++ lines 1 [[lit "require"; lit "a"; lit "e"]; [lit "restart"; lit "a"]; [lit "require"; lit "t"; lit "b"]] ++
     accept ++ ready 5 ++ [events [(3%nat, POLLIN); (5%nat, POLLIN)]; newline;
     in_line [lit "require"; lit "a"; lit "t"]; in_line [lit "unrequire"; lit "t"; lit "b"]; pause; in_exit 8 0; pause;
     events [(3%nat, POLLHUP)]; in_read read_end]).

Definition way (w : cause) : daemon_config * script :=
  match w with
  | assert_dependency_status => (config_default, status_kept)
  | assert_startup_error => (config_default, finished_reconfigured)
  | assert_reconfigure_netif => (config (lit "default") [] None, becomes_interface)
  | beyond_array => (config_default, one_more)
  | bad_argv => (config_default, freed_arguments)
  | assert_on_exit => (config (lit "default") [lit "b"] (Some [lit "sh"]), shut_down)
  | _ => (config (lit "default") [] None, started_twice)
  end.

Lemma world_names l ifs xs : Forall (λ y, names_match y.1) (in_world l ifs xs).
Proof. apply Forall_map, Forall_forall. intros x _. exact (proj1 (world_fair l ifs 1 ev_wait eq_refl)). Qed.

Lemma way_names w : Forall (λ y, names_match y.1) (way w).2 ∧ config_name (way w).1 = lit "default".
Proof. split; [|by destruct w]. destruct w; cbn [way snd]; unfold in_ab; repeat apply Forall_app_2; apply world_names. Qed.

Lemma way_ends : Forall (λ w, play_from (way w).1 (way w).2 = Some w) ends.
Proof. repeat constructor; by vm_compute. Qed.

(** ** Theorems *)

(** C12.  In every state [init] reaches, whatever the events, the lists by state and the graph
    of dependencies are consistent: every list can be followed in both directions and has
    exactly the daemons in its state, every dependency is exactly once in the arrays of its
    source and of its target, and the counters and reference counts are exact. *)
Theorem init_consistent s : reachable anything s → consistent s.
Proof. intros Hs. apply (inv_consistent false). by apply (reachable_inv false s). Qed.

Lemma init_consistent_witness : match run_from anything config_default b_restarted with Some s => consistent s | None => False end.
Proof.
  destruct (run_from anything config_default b_restarted) as [s|] eqn:E.
  - apply init_consistent. apply (run_from_reachable anything config_default b_restarted s eq_refl b_restarted_fair E).
  - vm_compute in E. discriminate.
Defined.

(** C13.  When no event sets a daemon back wrongly, supervision is correct: a process exists
    exactly in the states that have one, only configured daemons wait or run, a daemon
    nobody refers to is stopped, and no daemon waits although all it waits for is ready. *)
Theorem init_supervised s : reachable tame s → supervised s.
Proof. intros Hs. apply inv_supervised. by apply (reachable_inv true s). Qed.

Lemma init_supervised_witness : match run_from tame config_default b_restarted with Some s => supervised s | None => False end.
Proof.
  destruct (run_from tame config_default b_restarted) as [s|] eqn:E.
  - apply init_supervised. apply (run_from_reachable tame config_default b_restarted s eq_refl b_restarted_fair E).
  - vm_compute in E. discriminate.
Defined.

(** C14.  Handling an event in a reachable state ends [init] only in seven ways: in five of them,
    or, when some event set a daemon back wrongly, by the assertion that a daemon that exits
    has not finished or by the assertion that a descriptor that is unregistered is in the
    poll table.  All the other assertions hold, those on registering a descriptor included, and no
    pointer to freed memory is used but that to the arguments of a daemon. *)
Theorem init_ends s env ev w :
  reachable anything s → names_match env → 0 < fork env → handle env ev s = Aborted w →
  w ∈ ends ∧ (reachable tame s → tame s ev = true → w ∉ [assert_on_exit; assert_unregister]).
Proof.
  intros Hs Hn Hf E. split.
  - destruct (reachable_ends false s env ev w Hs Hn Hf) as [H1 H2]; [done|done|]. by apply known_ends.
  - intros Ht Hev. destruct (reachable_ends true s env ev w Ht Hn Hf) as [H1 H2]; [done|done|]. by apply known_tame.
Qed.

Lemma init_ends_witness : match run_from anything config_default b_restarted with
  | Some s => handle (at_ 1 ev_wait).1 ev_wait s = Aborted assert_dependency_status ∧ assert_dependency_status ∈ ends ∧
      (reachable tame s → tame s ev_wait = true → assert_dependency_status ∉ [assert_on_exit; assert_unregister])
  | None => False
  end.
Proof.
  pose proof b_restarted_aborts as A. destruct (run_from anything config_default b_restarted) as [s|] eqn:E; [|exact A].
  assert (Hw : handle (at_ 1 ev_wait).1 ev_wait s = Aborted assert_dependency_status) by (destruct (handle _ _ s) as [|w]; [destruct A|rewrite A; reflexivity]).
  split; [exact Hw|]. destruct (world_fair [config_default; config_a; config_b] [] 1 ev_wait eq_refl) as [H2 H3].
  apply (init_ends s (at_ 1 ev_wait).1 ev_wait assert_dependency_status); [|exact H2|exact H3|exact Hw].
  apply (run_from_reachable anything config_default b_restarted s eq_refl b_restarted_fair E).
Defined.

(** C15.  The loop of [init], with its steps in their order, ends exactly in these seven ways by a
    failed assertion or a misuse of memory: each is reached from the start by requests, signals,
    exits of processes it made and events of its descriptors, and no other is. *)
Theorem init_ends_each w : ended w ↔ w ∈ ends.
Proof.
  split; [apply loop_ends|]. intros Hw. destruct (way_names w) as [Hn Hc]. apply (play_from_ended (way w).1 (way w).2); [done..|].
  by apply (proj1 (Forall_forall _ _) way_ends).
Qed.

End DaemonSpec.
